(* ===== verification/_CoqProject ===== *)
-Q . S2P
Prelude.v
Mmio.v
Ns16550.v
BootUart.v
BootSpi.v
BootSd.v
SdCard.v
BootGpt.v
BootSpec.v
PitonBoot.v
Plic.v
UartDriver.v
Syscalls.v
CArray.v
Bench.v
Kernels.v
Sorting.v
Qsort.v
Rsort.v
Towers.v
Barrier.v
Pmp.v
Dhrystone.v
PerfBaseline.v
Grid.v
Mm.v
MmBlocked.v
MmMain.v
Phases.v
MtBench.v
Ripe.v
RipeAttack.v
Ieee.v
SoftFloat.v
SoftRound.v
SoftAdd.v
SoftMul.v
SoftCompare.v
SoftConv.v
SoftToInt.v
SoftFma.v
SoftDiv.v
SoftMinMag.v
SoftRsqrt.v
SoftSqrt.v
SoftIeee.v
SoftLaws.v
Spike.v
SpikeAlu.v
SpikeFp.v
SpikeCsr.v
SpikePriv.v
SpikeMmu.v
SpikeMem.v
SpikeRvc.v
SpikeDecode.v
SpikeStep.v
SpikeLogic.v
SpikeSafe.v
SpikePmp.v
SpikeTlb.v
SpikeExpand.v
