(* ===== verification/Prelude.v ===== *)
(** * Verification of the software of the CVA6 soft core

    The repository builds a CVA6 processor on an FPGA and the C programs that run
    on it.  This development models those programs, file by file, and proves what
    makes them correct.  A definition has the name of the C function it
    translates; every loop, guard and early return of the code is in it.

    ** The parts of the program

    - The boot ROM (fpga/src/bootrom/src, openpiton/bootrom/linux/src): a polled
      UART driver, an SPI driver, an SD card driver on top of it, a GPT loader on
      top of that, and a [main] that loads the first partition and jumps to it.
      On OpenPiton the SD card is mapped in memory.
    - The board support package (sw/bsp): the functions of the interrupt
      controller (hal/plic.h), a UART driver with polled and interrupt driven
      transfers (drivers/uart), and newlib's system calls on top of them
      (hal/syscalls.c).
    - The benchmarks (sw/app): median, multiply, vvadd, spmv, qsort, rsort, towers,
      dhrystone, mm, pmp, and the multi-threaded mt-vvadd and mt-matmul.  They
      share common/util.h: the self check, the counters, and the barrier.
    - The Zephyr programs (zephyr-docker/workspace): the performance baseline, and
      RIPE, which attacks itself with buffer overflows.
    - Spike, the simulator that the processor is compared with
      (tb/riscv-isa-sim): the hart in riscv, in C++, and its floating point in
      softfloat, Berkeley SoftFloat specialised for RISC-V.

    ** The files

    The base.
    - Prelude.v (this file): machine integers as [Z] with their wrap-around, byte
      lists, the monad [M] of the models with its weakest preconditions.
    - Mmio.v: a run of a driver is the trace of its loads and stores; a device is
      any function from that trace to the value of the next load.
    - Ns16550.v: what the data sheet of a 16550 says of a trace.
    - CArray.v: arrays whose accesses out of bounds are undefined, counted loops.
    - Grid.v: matrices as regions of arrays, and changes of parts of them.

    The boot ROM.
    - BootUart.v: both uart.c.  BootSpi.v: spi.c, and the interface [Board] with
      its laws [BoardSpec], which the rest of the boot ROM is verified against.  The
      SPI core is specified by what its registers are documented to do
      ([axi_quad_spi]); that the driver's delay loops outlast a transfer, which it
      never tests, is the separate hypothesis [delays_suffice].
    - BootSd.v: sd.c, for every card that satisfies the record [sd_card].
      SdCard.v: an executable card that does, so that the laws can hold.
    - BootGpt.v: gpt.c, gpt.h and main.c over the interfaces [Storage] and
      [Console].  BootSpec.v: the theorems on the whole, with their witnesses.
    - PitonBoot.v: the files of openpiton/bootrom that differ.

    The board support package.
    - Plic.v: hal/plic.h, and against it the register map of the controller in
      src/rv_plic/rtl.  UartDriver.v: drivers/uart/uart.c.  Syscalls.v:
      hal/syscalls.c.

    The benchmarks.
    - Bench.v: common/util.h and the counters ([setStats], [measured]) around each
      measured run; [bench_main] is the shape of every [main].
    - Kernels.v: median, multiply, vvadd, spmv.  Sorting.v: what a sort promises.
      Qsort.v, Rsort.v, Towers.v, Dhrystone.v, Pmp.v: one program each.
    - Mm.v: mm.c and rb.h, with the register blocks.  MmBlocked.v: the cache
      blocks.  MmMain.v: mm_main.c and its rounding errors.
    - Barrier.v: the barrier, each access a step of a transition system.
      Phases.v: threads that share memory between barriers, on top of it.
      MtBench.v: mt-vvadd and mt-matmul as such threads.

    The Zephyr programs.
    - PerfBaseline.v: perf_baseline.  Ripe.v: the parameters and the shellcode of
      RIPE.  RipeAttack.v: [perform_attack].

    SoftFloat, in single and double precision.
    - Ieee.v: formats, the values of bit patterns as real numbers, rounding, and
      what IEEE 754 asks of each operation; no algorithm.
    - SoftFloat.v: the global state, primitives.h, the macros of internals.h and
      specialize.h.  SoftRound.v: s_roundPackTo*.c, s_normRoundPackTo*.c; every
      operation below that rounds is verified against what this file shows.
    - SoftAdd.v: add, sub.  SoftMul.v: mul, f32_div.  SoftDiv.v: f64_div.
      SoftFma.v: mulAdd.  SoftRsqrt.v: s_approxRecipSqrt32_1.c.  SoftSqrt.v: sqrt.
      SoftCompare.v: eq, lt, le, classify.  SoftConv.v: conversions between the
      formats and from integers.  SoftToInt.v: conversions to integers;
      SoftMinMag.v: those that truncate.
    - SoftIeee.v: what each operation computes is the only result IEEE 754 allows.
      SoftLaws.v: round trips and equalities between calls that follow.

    Spike (tb/riscv-isa-sim/riscv).  An instruction is a program in [Exec]: a
    function of the state of the hart that returns, throws a trap or a trigger
    match, or aborts; changes made before a throw stay.
    - Spike.v: the state (processor.h, mmu.h), decode.h, trap.h.  The width, the
      ISA string and the interface simif.h are the class [Config].
    - SpikeAlu.v: I and M.  SpikeFp.v: F and D, calling SoftFloat.v and the files
      after it.  SpikeMem.v: loads, stores, A.  SpikeRvc.v: C.  riscv/insns/NAME.h
      is [rv_NAME].
    - SpikeCsr.v: processor.cc, the control registers, traps and interrupts, and
      the instructions that use them.  SpikePriv.v: their theorems.
    - SpikeMmu.v: mmu.cc and mmu.h: page tables, protection, the translation
      cache, triggers, fetch.  SpikePmp.v: protection covers whole accesses.
      SpikeTlb.v: the cache against walks.
    - SpikeDecode.v: the decoder of processor.cc.  SpikeStep.v: [step] of
      execute.cc over all of the above.
    - SpikeLogic.v: a program logic for [Exec], and that no instruction but those
      of control registers leaves its frame.  SpikeSafe.v: what programs below
      machine mode cannot change.  SpikeExpand.v: compressed instructions against
      the base ones.

    ** What the theorems show

    - Boot.  On every SPI core, UART and card that behave as documented, with
      delays that outlast the transfers and a partition within the card, [main]
      ends and jumps to 0x80000000 with the blocks of the first partition there;
      every block [sd_copy] stores had the right CRC (or was retried), and
      [sd_copy] refines the abstract copy of blocks; without a card the boot ROM
      spins and stores nothing; the CRC-16 loop is the CCITT remainder and detects
      every burst of up to 16 bits; the numbers printed read back; the divisor
      programmed is that of the clock and the baud rate.
    - Board support.  On the controller of the repository the functions that
      initialise it clear priorities and enables, but the structure of plic.h
      misses the thresholds and the claim registers, so that none of them is ever
      touched; priorities and enables read back; an interrupt driven transfer on a
      16550 sends the whole buffer in blocks of 16, each only into an empty FIFO,
      and then stops asking; [_write] puts
      its bytes on the line; [_sbrk] moves the break, even when it fails.
    - Benchmarks.  Each kernel computes what it is meant to, within its arrays,
      and each [main] returns the verdict of the self check on that; the sorts
      sort and keep the elements, within the 50 cells of the stack in the case of
      quicksort; the towers end on the last peg with the minimal number of moves;
      Dhrystone ends with the values it announces; the PMP test passes exactly on
      the hardware that refuses what it must, of what the test tries.
    - mm.  For all sizes every element gets each of its products once, in a tree
      of operations of bounded depth, and nothing else changes; with numbers that
      round like doubles the program's comparison always succeeds.
    - Threads.  In every interleaving the barrier lets no thread through before
      all have come, and does not block; mt-vvadd and mt-matmul have no access out
      of bounds, always end, and leave the sums and the rows of the product.
    - Zephyr.  The performance baseline computes 868200.0 if [int] wraps around
      and is undefined if it does not; the shellcode jumps to its target; an
      attack that RIPE calls possible succeeds, for every layout of the memory in
      which the buffer lies below what it overwrites and the overflow passes by
      what the program goes on to use: the form of the attack, the pointer to the
      buffer and the records of [malloc], which are in the memory like the rest.
    - SoftFloat.  For all operands, in every rounding mode, each operation gives
      the pattern and the flags that IEEE 754 prescribes: NaNs, infinities and
      signed zeros, and otherwise the exact real result rounded once, with
      tininess detected after rounding.  The approximations that division and
      square root start from, the tables included, are shown to be good enough for
      the corrections that follow.  The specification determines the result, so
      conversions round trip and equal calls are equal bit for bit.
    - Spike.  In both widths the operations on registers are those of the ISA
      manual, the floating point instructions those of IEEE 754, compressed
      instructions their expansions, by fields taken from the tables of the manual,
      and decoding the search of a fixed list.  A
      user program changes no control register and not the privilege; a
      supervisor program nothing of machine mode while the floating point unit is
      off.  A trap and its return restore
      the program; an interrupt is taken only if enabled.  A translated access is
      permitted in full, and loads through the translation cache are those that
      walk the tables, as long as nothing changes the translation without a flush:
      returns, traps and writes of control registers do, and one theorem shows that
      entries outlive all of them.  Another shows that [step] on the slow path
      repeats the instruction it fetched first, whatever it is.

    Where a program does not do what a comment or its caller expects, the
    theorem says what it does.

    ** Bounds and fuel

    A loop of the code that is not a counted one runs under [fuel], and a theorem
    that gives the outcome of a run shows that some fuel is enough; [wp] is total
    correctness, so running out is never a way to satisfy it.  Polling loops need
    one round more than the device keeps them waiting, which the device's law
    bounds.  Booting needs what the card makes of it: its busy times and the
    2 * 16384 blocks.  Quicksort needs 2 n + 1 rounds, radix sort n and 256, the
    towers the number of discs, Dhrystone 3 (the loop of [Func_2] runs once or
    twice), the syracuse loop of [func4] 378, [strlen] in RIPE 1 (the buffers are
    empty).  The threads need none: their runs are the reachable states of a step
    relation, which is shown to be well founded.  Spike's page walks count down the
    levels, its bit counts have a round per bit, and the inner loop of [step] one
    per instruction asked for; only the outer loop of [step] has fuel.

    ** Parameters

    Hardware is a parameter: the devices, the counters, the loads a PMP allows.
    So is what the sources do not contain: the data sets, newlib's constants and
    the linker script's symbols, [malloc], [setjmp] and [longjmp], [fma] and the
    operations of [double], the contents of fresh memory, and where the compiler
    puts the objects that RIPE overflows.  For Spike it is the platform behind
    simif.h, the configuration and the width.  Each hypothesis on a parameter states
    documented behaviour, and a witness shows that it can hold.

    ** Not modelled

    - hal/crt0.S, handlers.S, vectors.S and riscv_hal_stubs.c: assembly, and
      functions that return 0.
    - Of Spike: the fast path of [step], which is unrolled over the instruction
      cache by a generated file, and that cache; the Q extension (its instructions
      stop after the test of misa); memory tracers, the commit log, the
      disassembler and other output; registered extensions, beyond the flag that
      there is one; the ISA string parser; the platform, its devices and the
      debugger, which the hart sees through simif.h.
    - What benchmarks print, apart from the numbers mm reports; the nop loops that
      only wait.
    - Of RIPE: locals whose address is not taken, which are registers in the model,
      and the stack canaries of the Zephyr configuration, which the compiler adds.
    - Of the interrupt controller: its gateways and the choice of an interrupt.
    - The data sets, bootrom.h, ps7_init*.c and the Zephyr build directories, which
      are generated; the test bench around the simulator; the greeting programs,
      which call [printf]; RTL and scripts.
    - SoftFloat's remainders, rounding to an integral float, and the formats f16,
      f128 and extF80.
    - Weak memory: the shared accesses of the threads are sequentially consistent,
      as [volatile] and [__sync_synchronize] ask for on this in-order core. *)

From Stdlib Require Import ZArith Lia Ascii String.
From stdpp Require Import base tactics list numbers.

#[global] Open Scope Z_scope.

(** ** Machine integers

    A C integer is a [Z]; these are the conversions the standard prescribes:
    to an unsigned width, reduction modulo a power of two; to a signed width,
    the two's complement reading (what the compilers used here do). *)

Definition u8 (z : Z) : Z := z mod 256.
Definition u16 (z : Z) : Z := z mod 65536.
Definition u32 (z : Z) : Z := z mod 4294967296.
Definition u64 (z : Z) : Z := z mod 18446744073709551616.

Definition s8 (z : Z) : Z := (z + 128) mod 256 - 128.
Definition s32 (z : Z) : Z := (z + 2147483648) mod 4294967296 - 2147483648.
Definition s64 (z : Z) : Z :=
  (z + 9223372036854775808) mod 18446744073709551616 - 9223372036854775808.

(** A byte list, and the little-endian number it stores. *)
Definition byte (z : Z) : Prop := 0 <= z < 256.
Definition bytes (l : list Z) : Prop := Forall byte l.

Fixpoint le_combine (l : list Z) : Z :=
  match l with
  | [] => 0
  | b :: l => b + 256 * le_combine l
  end.

Fixpoint le_split (n : nat) (z : Z) : list Z :=
  match n with
  | O => []
  | S n => z mod 256 :: le_split n (z / 256)
  end.

(** [slice off n l]: the [n] bytes of [l] at offset [off]. *)
Definition slice {A} (off n : nat) (l : list A) : list A := take n (drop off l).

(** ** C strings: bytes, ended by a zero *)

Fixpoint string_bytes (s : string) : list Z :=
  match s with
  | EmptyString => []
  | String c s => Z.of_nat (nat_of_ascii c) :: string_bytes s
  end.

Definition crlf : list Z := [13; 10].
Definition tab : list Z := [9].

(** ** Outcomes and the state monad of the models

    [Ok] is a computation that returns, [NoFuel] one whose loops ran past the
    bound given to them, [Ub] one the C standard gives no meaning to (an access
    outside an object, a division by zero). *)

Inductive outcome (A : Type) : Type :=
| Ok (a : A)
| NoFuel
| Ub.
Arguments Ok {A} a.
Arguments NoFuel {A}.
Arguments Ub {A}.

Definition M (S A : Type) : Type := S -> outcome (A * S).

Definition ret {S A} (a : A) : M S A := fun s => Ok (a, s).

Definition bind {S A B} (m : M S A) (k : A -> M S B) : M S B :=
  fun s => match m s with
           | Ok (a, s') => k a s'
           | NoFuel => NoFuel
           | Ub => Ub
           end.

Definition undefined {S A} : M S A := fun _ => Ub.
Definition out_of_fuel {S A} : M S A := fun _ => NoFuel.
Definition get {S} : M S S := fun s => Ok (s, s).
Definition modify {S} (f : S -> S) : M S unit := fun s => Ok (tt, f s).

Declare Scope prog_scope.
Delimit Scope prog_scope with prog.
Notation "x <- m ;; k" := (bind m (fun x => k))
  (at level 100, m at next level, right associativity) : prog_scope.
Notation "m ;;; k" := (bind m (fun _ => k))
  (at level 100, right associativity) : prog_scope.
#[global] Open Scope prog_scope.

(** A C [for] over the values of a list, and one that carries a local. *)
Fixpoint foreach {S X} (l : list X) (f : X -> M S unit) : M S unit :=
  match l with
  | [] => ret tt
  | x :: l => f x ;;; foreach l f
  end.

Fixpoint foldM {S X A} (l : list X) (f : A -> X -> M S A) (a : A) : M S A :=
  match l with
  | [] => ret a
  | x :: l => a' <- f a x ;; foldM l f a'
  end.

(** A loop with locals [A]: the body answers [inl] to go round again and
    [inr] to leave.  [fuel] bounds the number of rounds. *)
Fixpoint loop {S A B} (fuel : nat) (body : A -> M S (A + B)) (a : A) : M S B :=
  match fuel with
  | O => out_of_fuel
  | S fuel =>
      r <- body a ;;
      match r with
      | inl a' => loop fuel body a'
      | inr b => ret b
      end
  end.

(** [while (cond) ;] *)
Definition poll {S} (fuel : nat) (cond : M S bool) : M S unit :=
  loop fuel (fun _ : unit => b <- cond ;; ret (if b then inl tt else inr tt)) tt.

(** A value that may be undefined, lifted into the monad. *)
Definition of_option {S A} (o : option A) : M S A :=
  match o with Some a => ret a | None => undefined end.

(** ** Weakest preconditions (total correctness) *)

Definition wp {S A} (m : M S A) (Q : A -> S -> Prop) (s : S) : Prop :=
  match m s with
  | Ok (a, s') => Q a s'
  | _ => False
  end.

(** Partial correctness: what holds if the computation returns. *)
Definition wlp {S A} (m : M S A) (Q : A -> S -> Prop) (s : S) : Prop :=
  forall a s', m s = Ok (a, s') -> Q a s'.

Create HintDb prog discriminated.

Lemma wp_ret {S A} (a : A) (Q : A -> S -> Prop) s : Q a s -> wp (ret a) Q s.
Proof. done. Qed.

Lemma wp_bind {S A B} (m : M S A) (k : A -> M S B) Q s :
  wp m (fun a => wp (k a) Q) s -> wp (bind m k) Q s.
Proof. unfold wp, bind. by destruct (m s) as [[a s']| |]. Qed.

Lemma wp_bind_inv {S A B} (m : M S A) (k : A -> M S B) Q s :
  wp (bind m k) Q s -> wp m (fun a => wp (k a) Q) s.
Proof. unfold wp, bind. by destruct (m s) as [[a s']| |]. Qed.

Lemma wp_mono {S A} (m : M S A) (P Q : A -> S -> Prop) s :
  wp m P s -> (forall a s', P a s' -> Q a s') -> wp m Q s.
Proof. unfold wp. destruct (m s) as [[a s']| |]; eauto. Qed.

Lemma wp_eq {S A} (m : M S A) (Q : A -> S -> Prop) s a s' :
  m s = Ok (a, s') -> Q a s' -> wp m Q s.
Proof. unfold wp. by intros ->. Qed.

Lemma wp_ext {S A} (m m' : M S A) (Q : A -> S -> Prop) s :
  m s = m' s -> wp m' Q s -> wp m Q s.
Proof. unfold wp. by intros ->. Qed.

Lemma wp_run {S A} (m : M S A) (Q : A -> S -> Prop) s :
  wp m Q s -> exists a s', m s = Ok (a, s') /\ Q a s'.
Proof. unfold wp. destruct (m s) as [[a s']| |]; naive_solver. Qed.

Lemma wp_foreach {S X} (l : list X) (f : X -> M S unit) (I : list X -> S -> Prop) s :
  I [] s ->
  (forall done x todo s, l = done ++ x :: todo -> I done s ->
     wp (f x) (fun _ s' => I (done ++ [x]) s') s) ->
  wp (foreach l f) (fun _ s' => I l s') s.
Proof.
  intros HI Hstep.
  assert (forall todo pre s, l = pre ++ todo -> I pre s ->
    wp (foreach todo f) (fun _ s' => I l s') s) as Hall; last by apply (Hall l []).
  clear HI s. induction todo as [|x todo IH]; intros pre s -> HI; simpl.
  - apply wp_ret. by rewrite app_nil_r.
  - apply wp_bind. eapply wp_mono; first by eapply Hstep.
    intros [] s' HI'. apply (IH (pre ++ [x])); [by rewrite <-(assoc_L (++))|done].
Qed.

Lemma foreach_ext {S X} (l : list X) (f g : X -> M S unit) s :
  (forall x s, x ∈ l -> f x s = g x s) -> foreach l f s = foreach l g s.
Proof.
  revert s. induction l as [|x l IH]; intros s Hfg; simpl; [done|].
  unfold bind. rewrite Hfg by left. destruct (g x s) as [[a s']| |]; [|done..].
  apply IH. intros y s'' Hy. apply Hfg. by right.
Qed.

Lemma wp_foldM {S X A} (l : list X) (f : A -> X -> M S A) (I : list X -> A -> S -> Prop) a s :
  I [] a s ->
  (forall done x todo a s, l = done ++ x :: todo -> I done a s ->
     wp (f a x) (fun a' s' => I (done ++ [x]) a' s') s) ->
  wp (foldM l f a) (fun a' s' => I l a' s') s.
Proof.
  intros HI Hstep.
  assert (forall todo pre a s, l = pre ++ todo -> I pre a s ->
    wp (foldM todo f a) (fun a' s' => I l a' s') s) as Hall; last by apply (Hall l []).
  clear HI s a. induction todo as [|x todo IH]; intros pre a s -> HI; simpl.
  - apply wp_ret. by rewrite app_nil_r.
  - apply wp_bind. eapply wp_mono; first by eapply Hstep.
    intros a' s' HI'. apply (IH (pre ++ [x])); [by rewrite <-(assoc_L (++))|done].
Qed.

(** A loop whose measure [m] decreases ends within [m a + 1] rounds. *)
Lemma wp_loop {S A B} (body : A -> M S (A + B)) (I : A -> S -> Prop)
    (Q : B -> S -> Prop) (m : A -> S -> nat) fuel a s :
  I a s -> (m a s < fuel)%nat ->
  (forall a s, I a s ->
     wp (body a) (fun r s' => match r with
                              | inl a' => I a' s' /\ (m a' s' < m a s)%nat
                              | inr b => Q b s'
                              end) s) ->
  wp (loop fuel body a) Q s.
Proof.
  intros HI Hm Hbody. revert a s HI Hm.
  induction fuel as [|fuel IH]; intros a s HI Hm; [lia|simpl].
  apply wp_bind. eapply wp_mono; first by apply Hbody.
  intros [a'|b] s' H; last by apply wp_ret.
  destruct H as [HI' Hlt]. apply IH; [done|lia].
Qed.

#[export] Hint Resolve wp_ret : prog.

Lemma wp_wlp {S A} (m : M S A) (Q : A -> S -> Prop) s : wp m Q s -> wlp m Q s.
Proof. unfold wp, wlp. by intros H a s' E; rewrite E in H. Qed.

Lemma wlp_ret {S A} (a : A) (Q : A -> S -> Prop) s : Q a s -> wlp (ret a) Q s.
Proof. intros HQ a' s' [= <- <-]. done. Qed.

Lemma wlp_bind {S A B} (m : M S A) (k : A -> M S B) Q s :
  wlp m (fun a => wlp (k a) Q) s -> wlp (bind m k) Q s.
Proof.
  unfold wlp, bind. intros H a s'.
  destruct (m s) as [[a0 s0]| |] eqn:E; [|done..]. by apply H.
Qed.

Lemma wlp_mono {S A} (m : M S A) (P Q : A -> S -> Prop) s :
  wlp m P s -> (forall a s', P a s' -> Q a s') -> wlp m Q s.
Proof. unfold wlp. eauto. Qed.

Lemma wlp_loop {S A B} (body : A -> M S (A + B)) (I : A -> S -> Prop)
    (Q : B -> S -> Prop) fuel a s :
  I a s ->
  (forall a s, I a s ->
     wlp (body a) (fun r s' => match r with inl a' => I a' s' | inr b => Q b s' end) s) ->
  wlp (loop fuel body a) Q s.
Proof.
  intros HI Hbody. revert a s HI.
  induction fuel as [|fuel IH]; intros a s HI; [by intros ??|simpl].
  apply wlp_bind. eapply wlp_mono; first by apply Hbody.
  intros [a'|b] s' H; [by apply IH|by apply wlp_ret].
Qed.

(** [wp_seq] opens the sequence at the head of the goal, as many times as it
    is one; [wp_call H] runs its first call by the specification [H]. *)
Ltac wp_seq :=
  repeat lazymatch goal with
         | |- wp (bind _ _) _ _ => apply wp_bind
         end.
Ltac wp_call H := wp_seq; eapply wp_mono; [H|].

(** [lia] with the division and modulo of the goal spelled out. *)
Ltac divlia := Z.to_euclidean_division_equations; lia.

(** ** Bounds of the conversions *)

Lemma u8_range z : 0 <= u8 z < 256.
Proof. unfold u8. divlia. Qed.
Lemma u16_range z : 0 <= u16 z < 65536.
Proof. unfold u16. divlia. Qed.
Lemma u32_range z : 0 <= u32 z < 4294967296.
Proof. unfold u32. divlia. Qed.
Lemma s32_range z : -2147483648 <= s32 z < 2147483648.
Proof. unfold s32. divlia. Qed.

Lemma u8_id z : 0 <= z < 256 -> u8 z = z.
Proof. unfold u8. divlia. Qed.
Lemma u16_id z : 0 <= z < 65536 -> u16 z = z.
Proof. unfold u16. divlia. Qed.
Lemma u32_id z : 0 <= z < 4294967296 -> u32 z = z.
Proof. unfold u32. divlia. Qed.
Lemma u64_id z : 0 <= z < 18446744073709551616 -> u64 z = z.
Proof. unfold u64. divlia. Qed.
Lemma s32_id z : -2147483648 <= z < 2147483648 -> s32 z = z.
Proof. unfold s32. divlia. Qed.

Create Rewrite HintDb word.
#[export] Hint Rewrite u8_id u16_id u32_id u64_id s32_id using lia : word.

(** ** Little-endian numbers *)

Lemma le_split_length n z : length (le_split n z) = n.
Proof. revert z. induction n; intros; simpl; f_equal; auto. Qed.

Lemma le_split_bytes n z : bytes (le_split n z).
Proof.
  revert z. induction n; intros z; constructor; [unfold byte; divlia|apply IHn].
Qed.

Lemma le_combine_split n z : 0 <= z < 256 ^ Z.of_nat n -> le_combine (le_split n z) = z.
Proof.
  revert z. induction n as [|n IH]; intros z Hz; simpl in *; [lia|].
  rewrite IH; [divlia|].
  rewrite Nat2Z.inj_succ, Z.pow_succ_r in Hz by lia.
  split; [apply Z.div_pos; lia|apply Z.div_lt_upper_bound; lia].
Qed.

Lemma le_combine_range l : bytes l -> 0 <= le_combine l < 256 ^ Z.of_nat (length l).
Proof.
  induction 1 as [|b l Hb Hl IH]; simpl; [lia|].
  rewrite Nat2Z.inj_succ, Z.pow_succ_r by lia. unfold byte in Hb. lia.
Qed.

Lemma le_split_combine l : bytes l -> le_split (length l) (le_combine l) = l.
Proof.
  induction 1 as [|b l Hb Hl IH]; simpl; [done|]. unfold byte in Hb.
  f_equal; [divlia|].
  by replace ((b + 256 * le_combine l) / 256) with (le_combine l) by divlia.
Qed.

Lemma slice_length {A} off n (l : list A) :
  (off + n <= length l)%nat -> length (slice off n l) = n.
Proof. intros. unfold slice. rewrite length_take, length_drop. lia. Qed.

(** Bit operations on nonnegative numbers, as arithmetic. *)
Lemma land_low z n : 0 <= n -> Z.land z (Z.ones n) = z mod 2 ^ n.
Proof. intros. by apply Z.land_ones. Qed.

Lemma land_255 z : Z.land z 255 = z mod 256.
Proof. by apply (Z.land_ones z 8). Qed.
Lemma land_15 z : Z.land z 15 = z mod 16.
Proof. by apply (Z.land_ones z 4). Qed.
Lemma land_1 z : Z.land z 1 = z mod 2.
Proof. by apply (Z.land_ones z 1). Qed.
#[export] Hint Rewrite land_255 land_15 land_1 : word.

(** A property of the numbers below a bound, checked by evaluation. *)
Lemma check_below (n : Z) (f : Z -> bool) :
  forallb f (seqZ 0 n) = true -> forall z, 0 <= z < n -> f z = true.
Proof.
  intros H z Hz. rewrite forallb_forall in H. apply H, list_elem_of_In, elem_of_seqZ. lia.
Qed.
