(* ===== verification/Mmio.v ===== *)
(** * Memory-mapped devices

    The drivers of the repository talk to their devices through volatile loads
    and stores.  A run is the trace of those accesses; a device is any function
    from the trace so far to the value it drives on a load.  The hardware is
    thus a parameter of every model, and what a driver relies on is stated as a
    hypothesis on that function. *)

From Stdlib Require Import ZArith Lia.
From stdpp Require Import base tactics list numbers.
From S2P Require Import Prelude.

(** A load of [a] that answered [v], a store of [v] to [a], and the setting of
    [bits] in a control and status register. *)
Inductive event := Rd (a v : Z) | Wr (a v : Z) | SetCsr (csr bits : Z).

#[export] Instance event_eq_dec : EqDecision event.
Proof. solve_decision. Defined.

(** Most recent access first. *)
Definition trace := list event.

Definition device := trace -> Z -> Z.

(** The values stored to [a], and the values loaded from it, oldest first. *)
Fixpoint outputs (a : Z) (t : trace) : list Z :=
  match t with
  | [] => []
  | Wr b v :: t => if b =? a then outputs a t ++ [v] else outputs a t
  | Rd _ _ :: t | SetCsr _ _ :: t => outputs a t
  end.

Fixpoint inputs (a : Z) (t : trace) : list Z :=
  match t with
  | [] => []
  | Rd b v :: t => if b =? a then inputs a t ++ [v] else inputs a t
  | Wr _ _ :: t | SetCsr _ _ :: t => inputs a t
  end.

Section Device.
Context (dev : device).

(** The volatile accesses of the C sources, by width. *)
Definition load8 (a : Z) : M trace Z :=
  fun t => let v := dev t a in Ok (u8 v, Rd a v :: t).
Definition load32 (a : Z) : M trace Z :=
  fun t => let v := dev t a in Ok (u32 v, Rd a v :: t).
Definition load64 (a : Z) : M trace Z :=
  fun t => let v := dev t a in Ok (u64 v, Rd a v :: t).
Definition store8 (a v : Z) : M trace unit := fun t => Ok (tt, Wr a (u8 v) :: t).
Definition store32 (a v : Z) : M trace unit := fun t => Ok (tt, Wr a (u32 v) :: t).

Definition set_csr (csr bits : Z) : M trace unit := fun t => Ok (tt, SetCsr csr bits :: t).

(** The trace after [k] loads of [a]. *)
Fixpoint after_loads (a : Z) (k : nat) (t : trace) : trace :=
  match k with
  | O => t
  | S k => after_loads a k (Rd a (dev t a) :: t)
  end.

(** Loading [a] over and over gives, before the [n]-th load, a value that
    satisfies [ok]. *)
Definition answers (a : Z) (ok : Z -> bool) (n : nat) (t : trace) : Prop :=
  exists k, (k < n)%nat /\ ok (dev (after_loads a k t) a) = true.

Lemma outputs_after_loads a b k t : outputs b (after_loads a k t) = outputs b t.
Proof. revert t. induction k as [|k IH]; intros t; [done|]. simpl. by rewrite IH. Qed.

Lemma inputs_after_loads a b k t :
  a <> b -> inputs b (after_loads a k t) = inputs b t.
Proof.
  intros Hab. revert t. induction k as [|k IH]; intros t; [done|].
  simpl. rewrite IH. simpl. by apply Z.eqb_neq in Hab as ->.
Qed.

Lemma after_loads_S a k t :
  after_loads a (S k) t = Rd a (dev (after_loads a k t) a) :: after_loads a k t.
Proof.
  revert t. induction k as [|k IH]; intros t; [done|].
  cbn [after_loads]. by rewrite <-IH.
Qed.

Lemma after_loads_app a k t :
  exists ev, after_loads a k t = ev ++ t /\ Forall (fun e => exists v, e = Rd a v) ev.
Proof.
  revert t. induction k as [|k IH]; intros t; simpl; [by exists []|].
  destruct (IH (Rd a (dev t a) :: t)) as (ev & -> & HF).
  exists (ev ++ [Rd a (dev t a)]). rewrite <-(assoc_L (++)), Forall_app. split; [done|].
  split; [done|]. by repeat econstructor.
Qed.

(** A poll whose condition is one load of [a] that failed the test [ok] ends
    on a device that answers, and performs loads of [a] only. *)
Lemma poll_answers a (ok : Z -> bool) (cond : M trace bool) n fuel t :
  (forall t, cond t = Ok (negb (ok (dev t a)), Rd a (dev t a) :: t)) ->
  answers a ok n t -> (n <= fuel)%nat ->
  exists k, poll fuel cond t = Ok (tt, after_loads a (S k) t)
            /\ ok (dev (after_loads a k t) a) = true.
Proof.
  intros Hcond (k & Hk & Hok) Hn. assert (k < fuel)%nat as Hf by lia.
  clear Hk Hn n. revert fuel t Hok Hf.
  induction k as [|k IH]; intros [|fuel] t Hok Hf; try lia.
  - exists O. split; [|done]. unfold poll. simpl in *.
    unfold bind. by rewrite Hcond, Hok.
  - destruct (ok (dev t a)) eqn:E.
    + exists O. split; [|done]. unfold poll. simpl. unfold bind. by rewrite Hcond, E.
    + destruct (IH fuel (Rd a (dev t a) :: t)) as (k' & Hrun & Hok'); [done|lia|].
      exists (S k'). split; [|done].
      unfold poll in *. simpl in *. unfold bind. by rewrite Hcond, E.
Qed.
End Device.
