(* ===== verification/Ns16550.v ===== *)
(** * The 16550 register file

    What the data sheet of the UART says a sequence of stores does to it: the
    divisor latch access bit selects what the first two addresses mean, and a
    byte stored to the transmit register goes out on the line.  This is the
    specification the two UART drivers of the repository are checked against;
    it is not code of the repository. *)

From Stdlib Require Import ZArith Lia.
From stdpp Require Import base tactics list numbers sets.
From S2P Require Import Prelude Mmio.

(** Where the registers of a UART are. *)
Class UartMap := {
  uart_thr : Z; uart_ier : Z; uart_fcr : Z; uart_lcr : Z; uart_mcr : Z; uart_lsr : Z
}.

Record ns16550 := {
  dll : Z; dlm : Z; ier : Z; fcr : Z; lcr : Z; mcr : Z; line : list Z
}.

Definition dlab (u : ns16550) : bool := Z.testbit (lcr u) 7.

Definition divisor (u : ns16550) : Z := dll u + 256 * dlm u.

Section Uart.
Context `{UartMap}.

Definition uart_write (u : ns16550) (a v : Z) : ns16550 :=
  let '{| dll := l; dlm := m; ier := i; fcr := f; lcr := c; mcr := d; line := o |} := u in
  if a =? uart_thr then
    if dlab u then {| dll := v; dlm := m; ier := i; fcr := f; lcr := c; mcr := d; line := o |}
    else {| dll := l; dlm := m; ier := i; fcr := f; lcr := c; mcr := d; line := o ++ [v] |}
  else if a =? uart_ier then
    if dlab u then {| dll := l; dlm := v; ier := i; fcr := f; lcr := c; mcr := d; line := o |}
    else {| dll := l; dlm := m; ier := v; fcr := f; lcr := c; mcr := d; line := o |}
  else if a =? uart_fcr then {| dll := l; dlm := m; ier := i; fcr := v; lcr := c; mcr := d; line := o |}
  else if a =? uart_lcr then {| dll := l; dlm := m; ier := i; fcr := f; lcr := v; mcr := d; line := o |}
  else if a =? uart_mcr then {| dll := l; dlm := m; ier := i; fcr := f; lcr := c; mcr := v; line := o |}
  else u.

(** The register file a trace leaves behind, from [u0]. *)
Fixpoint uart_after (u0 : ns16550) (t : trace) : ns16550 :=
  match t with
  | [] => u0
  | Wr a v :: t => uart_write (uart_after u0 t) a v
  | Rd _ _ :: t | SetCsr _ _ :: t => uart_after u0 t
  end.

Lemma uart_after_app u0 t1 t2 :
  uart_after u0 (t1 ++ t2) = uart_after (uart_after u0 t2) t1.
Proof. induction t1 as [|[a v|a v|c v] t1 IH]; simpl; [done|done|by rewrite IH|done]. Qed.

Lemma uart_after_loads dev u0 a k t :
  uart_after u0 (after_loads dev a k t) = uart_after u0 t.
Proof. revert t. induction k as [|k IH]; intros t; [done|]. simpl. by rewrite IH. Qed.

(** Stores elsewhere do not reach the UART. *)
Lemma uart_write_other u a v :
  a ∉ [uart_thr; uart_ier; uart_fcr; uart_lcr; uart_mcr] -> uart_write u a v = u.
Proof.
  intros Ha. rewrite !not_elem_of_cons in Ha. destruct_and!.
  destruct u. unfold uart_write.
  repeat match goal with H : a <> ?b |- context [a =? ?b] =>
    rewrite (proj2 (Z.eqb_neq a b) H) end. done.
Qed.

(** With the latch closed, a store to the transmit register sends a byte and
    changes nothing else. *)
Lemma uart_write_thr u v :
  dlab u = false ->
  uart_write u uart_thr v =
    {| dll := dll u; dlm := dlm u; ier := ier u; fcr := fcr u; lcr := lcr u;
       mcr := mcr u; line := line u ++ [v] |}.
Proof. intros Hd. destruct u. unfold uart_write. by rewrite Z.eqb_refl, Hd. Qed.
End Uart.

(** The registers the drivers write are different registers. *)
Class UartMapOk `{UartMap} : Prop :=
  uart_map_nodup : NoDup [uart_thr; uart_ier; uart_fcr; uart_lcr; uart_mcr].

Section Registers.
Context `{UartMapOk}.

Lemma uart_addr_ne :
  uart_ier <> uart_thr /\ uart_fcr <> uart_thr /\ uart_lcr <> uart_thr /\ uart_mcr <> uart_thr
  /\ uart_fcr <> uart_ier /\ uart_lcr <> uart_ier /\ uart_mcr <> uart_ier
  /\ uart_lcr <> uart_fcr /\ uart_mcr <> uart_fcr /\ uart_mcr <> uart_lcr.
Proof.
  pose proof uart_map_nodup as Hn. rewrite !NoDup_cons in Hn. set_unfold in Hn.
  destruct_and!. split_and!; congruence || naive_solver.
Qed.

Ltac by_register :=
  destruct uart_addr_ne as (?&?&?&?&?&?&?&?&?&?);
  cbv [uart_write dlab lcr] in *;
  rewrite ?Z.eqb_refl;
  repeat match goal with
         | H : ?a <> ?b |- context [?a =? ?b] => rewrite (proj2 (Z.eqb_neq a b) H)
         end;
  repeat match goal with H : Z.testbit _ _ = _ |- _ => rewrite H end; try done.

Lemma uart_write_dll l m i f c d o v :
  Z.testbit c 7 = true ->
  uart_write (Build_ns16550 l m i f c d o) uart_thr v = Build_ns16550 v m i f c d o.
Proof. intros Hc. by_register. Qed.
Lemma uart_write_dlm l m i f c d o v :
  Z.testbit c 7 = true ->
  uart_write (Build_ns16550 l m i f c d o) uart_ier v = Build_ns16550 l v i f c d o.
Proof. intros Hc. by_register. Qed.
Lemma uart_write_ier l m i f c d o v :
  Z.testbit c 7 = false ->
  uart_write (Build_ns16550 l m i f c d o) uart_ier v = Build_ns16550 l m v f c d o.
Proof. intros Hc. by_register. Qed.
Lemma uart_write_fcr l m i f c d o v :
  uart_write (Build_ns16550 l m i f c d o) uart_fcr v = Build_ns16550 l m i v c d o.
Proof. by_register. Qed.
Lemma uart_write_lcr l m i f c d o v :
  uart_write (Build_ns16550 l m i f c d o) uart_lcr v = Build_ns16550 l m i f v d o.
Proof. by_register. Qed.
Lemma uart_write_mcr l m i f c d o v :
  uart_write (Build_ns16550 l m i f c d o) uart_mcr v = Build_ns16550 l m i f c v o.
Proof. by_register. Qed.

(** A store to the interrupt enables lands there or in the latch. *)
Lemma uart_write_ier_cases u v :
  exists m i, uart_write u uart_ier v
    = Build_ns16550 (dll u) m i (fcr u) (lcr u) (mcr u) (line u)
    /\ (dlab u = false -> i = v /\ m = dlm u).
Proof.
  destruct u as [l m i f c d o]. destruct (Z.testbit c 7) eqn:E.
  - rewrite uart_write_dlm by done. exists v, i. split; [done|]. cbv [dlab lcr]. congruence.
  - rewrite uart_write_ier by done. by exists m, v.
Qed.
End Registers.

(** Run the stores on an explicit register file. *)
Ltac uart_regs :=
  repeat first
    [ rewrite uart_write_lcr | rewrite uart_write_fcr | rewrite uart_write_mcr
    | rewrite uart_write_dll by reflexivity | rewrite uart_write_dlm by reflexivity
    | rewrite uart_write_ier by reflexivity ].

(** The register file with [text] gone out on the line. *)
Definition push_line (u : ns16550) (text : list Z) : ns16550 :=
  {| dll := dll u; dlm := dlm u; ier := ier u; fcr := fcr u; lcr := lcr u;
     mcr := mcr u; line := line u ++ text |}.

Lemma push_line_nil u : push_line u [] = u.
Proof. destruct u. unfold push_line. simpl. by rewrite app_nil_r. Qed.

Lemma push_line_app u x y : push_line (push_line u x) y = push_line u (x ++ y).
Proof. unfold push_line. simpl. by rewrite (assoc_L (++)). Qed.

Section Prints.
Context `{UartMap} (u0 : ns16550).

(** What a polled transmitter does: look at the line status, feed the
    transmit register, touch nothing else. *)
Definition tx_event (e : event) : Prop :=
  match e with Rd a _ => a = uart_lsr | Wr a _ => a = uart_thr | SetCsr _ _ => False end.

(** [prints text t t']: from [t] to [t'] the driver sent [text] and did
    nothing but transmit. *)
Definition prints (text : list Z) (t t' : trace) : Prop :=
  uart_after u0 t' = push_line (uart_after u0 t) text
  /\ exists ev, t' = ev ++ t /\ Forall tx_event ev.

Lemma prints_nil t : prints [] t t.
Proof. split; [by rewrite push_line_nil|by exists []]. Qed.

Lemma prints_trans x y t1 t2 t3 :
  prints x t1 t2 -> prints y t2 t3 -> prints (x ++ y) t1 t3.
Proof.
  intros [H1 (e1 & -> & F1)] [H2 (e2 & -> & F2)]. split.
  - by rewrite H2, H1, push_line_app.
  - exists (e2 ++ e1). by rewrite (assoc_L (++)), Forall_app.
Qed.

Lemma prints_dlab text t t' :
  prints text t t' -> dlab (uart_after u0 t) = false -> dlab (uart_after u0 t') = false.
Proof. intros [-> _] Hd. exact Hd. Qed.

Lemma prints_outputs b text t t' :
  prints text t t' -> b <> uart_thr -> outputs b t' = outputs b t.
Proof.
  intros [_ (ev & -> & F)] Hb. induction F as [|[a v|a v|c v] ev He F IH]; simpl in *; try done.
  subst a. destruct (Z.eqb_spec uart_thr b); [congruence|done].
Qed.

Lemma prints_inputs b text t t' :
  prints text t t' -> b <> uart_lsr -> inputs b t' = inputs b t.
Proof.
  intros [_ (ev & -> & F)] Hb. induction F as [|[a v|a v|c v] ev He F IH]; simpl in *; try done.
  subst a. destruct (Z.eqb_spec uart_lsr b); [congruence|done].
Qed.
End Prints.
