(* ===== verification/BootUart.v ===== *)
(** * The console of the boot ROM

    [fpga/src/bootrom/src/uart.c] and [openpiton/bootrom/linux/src/uart.c]: the
    same polled driver of a 16550, at the register addresses of each platform.
    A C string is the list of its bytes, the closing zero included. *)

From Stdlib Require Import ZArith Lia String.
From stdpp Require Import base tactics list numbers.
From S2P Require Import Prelude Mmio Ns16550.

(** ** Register addresses *)

Module Fpga.
Definition UART_BASE : Z := 0x10000000.
#[export] Instance uart_map : UartMap := {|
  uart_thr := UART_BASE + 0; uart_ier := UART_BASE + 4; uart_fcr := UART_BASE + 8;
  uart_lcr := UART_BASE + 12; uart_mcr := UART_BASE + 16; uart_lsr := UART_BASE + 20 |}.
End Fpga.

Module Piton.
Definition UART_BASE : Z := 0xFFF0C2C000.
#[export] Instance uart_map : UartMap := {|
  uart_thr := UART_BASE + 0; uart_ier := UART_BASE + 1; uart_fcr := UART_BASE + 2;
  uart_lcr := UART_BASE + 3; uart_mcr := UART_BASE + 4; uart_lsr := UART_BASE + 5 |}.
End Piton.

(** ** The driver *)

Definition bin_to_hex_table : list Z := string_bytes "0123456789ABCDEF".

(** [res[0]], [res[1]] *)
Definition bin_to_hex (inp : Z) : Z * Z :=
  (nth (Z.to_nat (Z.land (Z.shiftr inp 4) 0xf)) bin_to_hex_table 0,
   nth (Z.to_nat (Z.land inp 0xf)) bin_to_hex_table 0).

Section Driver.
Context `{UartMap} (dev : device) (fuel : nat).

Definition write_reg_u8 (addr value : Z) : M trace unit := store8 addr value.
Definition read_reg_u8 (addr : Z) : M trace Z := load8 dev addr.

Definition is_transmit_empty : M trace Z :=
  s <- read_reg_u8 uart_lsr ;; ret (Z.land s 0x20).

Definition write_serial (a : Z) : M trace unit :=
  poll fuel (e <- is_transmit_empty ;; ret (e =? 0)) ;;;
  write_reg_u8 uart_thr a.

Definition init_uart (freq baud : Z) : M trace unit :=
  let d := u32 (Z.shiftl baud 4) in
  if d =? 0 then undefined else
  let divisor := u32 freq / d in
  write_reg_u8 uart_ier 0x00 ;;;
  write_reg_u8 uart_lcr 0x80 ;;;
  write_reg_u8 uart_thr divisor ;;;
  write_reg_u8 uart_ier (Z.land (Z.shiftr divisor 8) 0xFF) ;;;
  write_reg_u8 uart_lcr 0x03 ;;;
  write_reg_u8 uart_fcr 0xC7 ;;;
  write_reg_u8 uart_mcr 0x20.

(** The OpenPiton port leaves the FIFO control register alone. *)
Definition piton_init_uart (freq baud : Z) : M trace unit :=
  let d := u32 (Z.shiftl baud 4) in
  if d =? 0 then undefined else
  let divisor := u32 freq / d in
  write_reg_u8 uart_ier 0x00 ;;;
  write_reg_u8 uart_lcr 0x80 ;;;
  write_reg_u8 uart_thr divisor ;;;
  write_reg_u8 uart_ier (Z.land (Z.shiftr divisor 8) 0xFF) ;;;
  write_reg_u8 uart_lcr 0x03 ;;;
  write_reg_u8 uart_mcr 0x20.

Fixpoint print_uart (str : list Z) : M trace unit :=
  match str with
  | [] => undefined
  | c :: str => if c =? 0 then ret tt else write_serial (u8 c) ;;; print_uart str
  end.

(** The OpenPiton port counts the characters. *)
Fixpoint piton_print_uart (num : Z) (str : list Z) : M trace Z :=
  match str with
  | [] => undefined
  | c :: str =>
      if c =? 0 then ret num
      else write_serial (u8 c) ;;; piton_print_uart (s32 (num + 1)) str
  end.

Definition print_hex (cur : Z) : M trace unit :=
  let '(h0, h1) := bin_to_hex cur in
  write_serial h0 ;;; write_serial h1.

Definition print_uart_int (addr : Z) : M trace unit :=
  foreach [3; 2; 1; 0] (fun i => print_hex (u8 (Z.land (Z.shiftr addr (i * 8)) 0xff))).

Definition print_uart_addr (addr : Z) : M trace unit :=
  foreach [7; 6; 5; 4; 3; 2; 1; 0]
    (fun i => print_hex (u8 (Z.land (Z.shiftr addr (i * 8)) 0xff))).

Definition print_uart_byte (byte : Z) : M trace unit := print_hex byte.

Definition piton_print_uart_int (addr : Z) : M trace Z := print_uart_int addr ;;; ret 8.
Definition piton_print_uart_addr (addr : Z) : M trace Z := print_uart_addr addr ;;; ret 16.
Definition piton_print_uart_byte (byte : Z) : M trace Z := print_uart_byte byte ;;; ret 2.

(** [digits] is reassigned inside the loop: once a digit is printed, all
    those below it are. The comparison [i < digits] is unsigned. *)
Definition piton_print_uart_dec (val digits : Z) : M trace Z :=
  r <- foldM [9; 8; 7; 6; 5; 4; 3; 2; 1; 0]
         (fun '(num, val, k, digits) i =>
            let cur := val / k in
            let val := u32 (val - cur * k) in
            let k := k / 10 in
            if (negb (cur =? 0)) || (i <? digits) then
              write_serial (nth (Z.to_nat (Z.land cur 0xf)) bin_to_hex_table 0) ;;;
              ret (num + 1, val, k, i)
            else ret (num, val, k, digits))
         (0, u32 val, 1000000000, u32 digits) ;;
  let '(num, _, _, _) := r in ret num.
End Driver.

(** ** What the driver does on a UART that transmits

    [lsr_ready] is the bit the driver waits for; the only thing asked of the
    device is that a poll of the line status register sees it within [n]
    loads. *)

Definition lsr_ready (v : Z) : bool := negb (Z.land (u8 v) 0x20 =? 0).

Definition uart_live `{UartMap} (dev : device) (n : nat) : Prop :=
  forall t, answers dev uart_lsr lsr_ready n t.

(** The text of a number: its [n] bytes, most significant first, two upper
    case hexadecimal digits each. *)
Definition hex_byte (b : Z) : list Z := [fst (bin_to_hex b); snd (bin_to_hex b)].

Fixpoint hex_text (n : nat) (z : Z) : list Z :=
  match n with
  | O => []
  | S n => hex_byte (u8 (Z.land (Z.shiftr z (Z.of_nat n * 8)) 0xff)) ++ hex_text n z
  end.

(** Reading such a text back. *)
Definition hex_digit_value (c : Z) : option Z :=
  if (48 <=? c) && (c <=? 57) then Some (c - 48)
  else if (65 <=? c) && (c <=? 70) then Some (c - 55)
  else None.

Definition hex_step (acc : option Z) (c : Z) : option Z :=
  match acc, hex_digit_value c with Some a, Some d => Some (16 * a + d) | _, _ => None end.

Definition hex_value (text : list Z) : option Z := foldl hex_step (Some 0) text.

Definition dec_value (text : list Z) : Z := foldl (fun acc c => 10 * acc + (c - 48)) 0 text.

Lemma hex_nibble n :
  0 <= n < 16 -> hex_digit_value (nth (Z.to_nat n) bin_to_hex_table 0) = Some n.
Proof.
  intros Hn. eapply bool_decide_eq_true_1. revert n Hn.
  by apply (check_below 16 (fun n => bool_decide
    (hex_digit_value (nth (Z.to_nat n) bin_to_hex_table 0) = Some n))).
Qed.

Lemma hex_nibble_byte n : 0 <= n < 16 -> byte (nth (Z.to_nat n) bin_to_hex_table 0).
Proof.
  intros Hn. apply hex_nibble in Hn. unfold hex_digit_value in Hn. unfold byte.
  repeat case_match; simplify_eq; lia.
Qed.

Lemma bin_to_hex_nibbles b :
  0 <= b < 256 ->
  hex_digit_value (fst (bin_to_hex b)) = Some (b / 16)
  /\ hex_digit_value (snd (bin_to_hex b)) = Some (b mod 16)
  /\ byte (fst (bin_to_hex b)) /\ byte (snd (bin_to_hex b)).
Proof.
  intros Hb. unfold bin_to_hex. simpl fst. simpl snd. rewrite !land_15.
  rewrite Z.shiftr_div_pow2 by lia. change (2 ^ 4) with 16.
  assert (b / 16 mod 16 = b / 16) as -> by divlia.
  split_and!; [apply hex_nibble|apply hex_nibble|apply hex_nibble_byte|apply hex_nibble_byte]; divlia.
Qed.

Lemma hex_text_bytes n z : bytes (hex_text n z).
Proof.
  induction n as [|n IH]; simpl; [constructor|].
  destruct (bin_to_hex_nibbles (u8 (Z.land (Z.shiftr z (Z.of_nat n * 8)) 0xff))) as (_ & _ & ? & ?).
  { apply u8_range. }
  constructor; [done|constructor; [done|exact IH]].
Qed.

Lemma hex_text_length n z : length (hex_text n z) = (2 * n)%nat.
Proof. induction n as [|n IH]; simpl; [done|]. rewrite IH. lia. Qed.

Lemma hex_value_byte acc b text :
  0 <= b < 256 ->
  foldl hex_step (Some acc) (hex_byte b ++ text)
  = foldl hex_step (Some (256 * acc + b)) text.
Proof.
  intros Hb. destruct (bin_to_hex_nibbles b Hb) as (H1 & H2 & _). unfold hex_byte.
  cbn [app foldl]. unfold hex_step at 2 3. rewrite H1, H2. do 2 f_equal. divlia.
Qed.

(** The text reads back as the number, whatever its width. *)
Lemma hex_text_value_acc n z acc :
  foldl hex_step (Some acc) (hex_text n z) = Some (256 ^ Z.of_nat n * acc + z mod 256 ^ Z.of_nat n).
Proof.
  revert acc. induction n as [|n IH]; intros acc.
  - simpl. f_equal. divlia.
  - cbn [hex_text]. rewrite hex_value_byte by apply u8_range. rewrite IH. f_equal.
    unfold u8. rewrite land_255, Zmod_mod, Z.shiftr_div_pow2 by lia.
    replace (2 ^ (Z.of_nat n * 8)) with (256 ^ Z.of_nat n)
      by (change 256 with (2 ^ 8); rewrite <-Z.pow_mul_r by lia; f_equal; lia).
    rewrite Nat2Z.inj_succ, Z.pow_succ_r by lia.
    rewrite (Z.mul_comm 256 (256 ^ Z.of_nat n)), Z.rem_mul_r by lia. lia.
Qed.

Lemma hex_text_value n z :
  0 <= z < 256 ^ Z.of_nat n -> hex_value (hex_text n z) = Some z.
Proof.
  intros Hz. unfold hex_value. rewrite hex_text_value_acc, Z.mod_small by done. f_equal. lia.
Qed.

Section Prints.
Context `{UartMap} (dev : device) (n fuel : nat) (u0 : ns16550).
Context (live : uart_live dev n) (enough : (n <= fuel)%nat).

Lemma write_serial_prints a t :
  dlab (uart_after u0 t) = false ->
  wp (write_serial dev fuel a) (fun _ t' => prints u0 [u8 a] t t') t.
Proof.
  intros Hd. unfold write_serial. apply wp_bind.
  destruct (poll_answers dev uart_lsr lsr_ready
    (e <- is_transmit_empty dev ;; ret (e =? 0)) n fuel t) as (k & Hrun & _);
    [|apply live|done|].
  { intros t'. unfold is_transmit_empty, read_reg_u8, load8, bind, ret, lsr_ready.
    by rewrite negb_involutive. }
  eapply wp_eq; [exact Hrun|]. unfold write_reg_u8, store8, wp. split.
  - cbn [uart_after]. rewrite uart_after_loads, uart_write_thr by done. done.
  - destruct (after_loads_app dev uart_lsr (S k) t) as (ev & -> & HF).
    exists (Wr uart_thr (u8 a) :: ev). split; [done|]. constructor; [done|].
    eapply Forall_impl; [|exact HF]. by intros ? [v ->].
Qed.

(** Runs that print one after the other. *)
Lemma prints_bind {A B} (m : M trace A) (k : A -> M trace B) x y t
    (Q : A -> Prop) (R : B -> Prop) :
  wp m (fun a t' => prints u0 x t t' /\ Q a) t ->
  (forall a t', prints u0 x t t' -> Q a ->
     wp (k a) (fun b t'' => prints u0 y t' t'' /\ R b) t') ->
  wp (bind m k) (fun b t' => prints u0 (x ++ y) t t' /\ R b) t.
Proof.
  intros Hm Hk. apply wp_bind. eapply wp_mono; [exact Hm|].
  intros a t' [Hp HQ]. eapply wp_mono; [by apply Hk|].
  intros b t'' [Hp' HR]. split; [by eapply prints_trans|done].
Qed.

Lemma print_hex_prints b t :
  0 <= b < 256 -> dlab (uart_after u0 t) = false ->
  wp (print_hex dev fuel b) (fun _ t' => prints u0 (hex_byte b) t t') t.
Proof.
  intros Hb Hd. unfold print_hex, hex_byte.
  destruct (bin_to_hex_nibbles b Hb) as (_ & _ & H0 & H1).
  destruct (bin_to_hex b) as [h0 h1]. simpl in *. unfold byte in *.
  apply wp_bind. eapply wp_mono; [by apply write_serial_prints|].
  intros [] t1 P1. eapply wp_mono; [by eapply write_serial_prints, prints_dlab|].
  intros [] t2 P2. rewrite u8_id in P1, P2 by done. by apply (prints_trans u0 [h0] [h1] _ t1).
Qed.

(** The loops over the bytes of a number, high byte first. *)
Lemma print_bytes_prints z m t :
  dlab (uart_after u0 t) = false ->
  wp (foreach (reverse (seqZ 0 (Z.of_nat m)))
       (fun i => print_hex dev fuel (u8 (Z.land (Z.shiftr z (i * 8)) 0xff))))
     (fun _ t' => prints u0 (hex_text m z) t t') t.
Proof.
  revert t. induction m as [|m IH]; intros t Hd; [by apply wp_ret, prints_nil|].
  rewrite seqZ_S, reverse_snoc, Z.add_0_l. cbn [foreach hex_text].
  apply wp_bind. eapply wp_mono; [by apply print_hex_prints; [apply u8_range|]|].
  intros [] t1 P1. eapply wp_mono; [by eapply IH, prints_dlab|].
  intros [] t2 P2. by apply (prints_trans u0 _ _ _ t1).
Qed.

Lemma print_uart_prints text rest t :
  Forall (fun c => 0 < c < 256) text -> dlab (uart_after u0 t) = false ->
  wp (print_uart dev fuel (text ++ 0 :: rest)) (fun _ t' => prints u0 text t t') t.
Proof.
  intros HF. revert t. induction HF as [|c text Hc HF IH]; intros t Hd; simpl.
  - apply wp_ret, prints_nil.
  - destruct (Z.eqb_spec c 0) as [->|_]; [lia|].
    apply wp_bind. eapply wp_mono; [by apply write_serial_prints|].
    intros [] t1 P1. eapply wp_mono; [by eapply IH, prints_dlab|].
    intros [] t2 P2. rewrite !u8_id in P1 by (try apply u8_range; lia).
    by apply (prints_trans u0 [c] text _ t1).
Qed.
End Prints.

(** ** Decimal numbers *)

(** The text [piton_print_uart_dec] is meant to send for the [m] low digits of
    [v], at least [d] of them. *)
Fixpoint dec_text (m : nat) (v d : Z) : list Z :=
  match m with
  | O => []
  | S m =>
      let cur := v / 10 ^ Z.of_nat m in
      if negb (cur =? 0) || (Z.of_nat m <? d)
      then (48 + cur) :: dec_text m (v mod 10 ^ Z.of_nat m) (Z.of_nat m)
      else dec_text m (v mod 10 ^ Z.of_nat m) d
  end.

Lemma pow10_pos m : 0 < 10 ^ Z.of_nat m.
Proof. lia. Qed.

Lemma dec_digit_range m v :
  0 <= v < 10 ^ Z.of_nat (S m) -> 0 <= v / 10 ^ Z.of_nat m < 10.
Proof.
  rewrite Nat2Z.inj_succ, Z.pow_succ_r by lia. intros Hv. pose proof (pow10_pos m).
  split; [apply Z.div_pos; lia|apply Z.div_lt_upper_bound; lia].
Qed.

Lemma dec_text_value_acc m v d acc :
  0 <= v < 10 ^ Z.of_nat m ->
  foldl (fun acc c => 10 * acc + (c - 48)) acc (dec_text m v d)
  = 10 ^ Z.of_nat (length (dec_text m v d)) * acc + v.
Proof.
  revert v d acc. induction m as [|m IH]; intros v d acc Hv; [simpl in *; lia|].
  pose proof (dec_digit_range m v Hv). pose proof (pow10_pos m).
  pose proof (Z.mod_pos_bound v (10 ^ Z.of_nat m)).
  cbn [dec_text]. destruct (negb _ || _) eqn:E; cbn [foldl length].
  - rewrite IH by lia.
    (* every lower position is printed from here on *)
    assert (length (dec_text m (v mod 10 ^ Z.of_nat m) (Z.of_nat m)) = m) as ->.
    { clear. generalize (v mod 10 ^ Z.of_nat m). induction m as [|m IH]; intros w; [done|].
      cbn [dec_text]. destruct (Z.ltb_spec (Z.of_nat m) (Z.of_nat (S m))); [|lia].
      rewrite orb_true_r. cbn [length]. by rewrite IH. }
    rewrite Nat2Z.inj_succ, Z.pow_succ_r by lia.
    pose proof (Z.div_mod v (10 ^ Z.of_nat m)). lia.
  - apply orb_false_iff in E as [E _]. apply negb_false_iff, Z.eqb_eq in E.
    rewrite IH by lia. f_equal.
    pose proof (Z.div_mod v (10 ^ Z.of_nat m)). rewrite E in *. lia.
Qed.

Lemma dec_text_value m v d :
  0 <= v < 10 ^ Z.of_nat m -> dec_value (dec_text m v d) = v.
Proof. intros Hv. unfold dec_value. rewrite dec_text_value_acc by done. lia. Qed.

Lemma dec_text_length m v d :
  0 <= d -> Z.min (Z.of_nat m) d <= Z.of_nat (length (dec_text m v d)) <= Z.of_nat m.
Proof.
  revert v d. induction m as [|m IH]; intros v d Hd; [simpl; lia|].
  cbn [dec_text]. destruct (negb _ || _) eqn:E; cbn [length].
  - specialize (IH (v mod 10 ^ Z.of_nat m) (Z.of_nat m)). lia.
  - apply orb_false_iff in E as [_ E]. apply Z.ltb_ge in E.
    specialize (IH (v mod 10 ^ Z.of_nat m) d). lia.
Qed.

Lemma dec_text_no_zero m v d :
  0 <= v < 10 ^ Z.of_nat m -> 0 <= d ->
  d < Z.of_nat (length (dec_text m v d)) -> head (dec_text m v d) <> Some 48.
Proof.
  revert v d. induction m as [|m IH]; intros v d Hv Hd; [done|].
  pose proof (dec_digit_range m v Hv).
  cbn [dec_text]. destruct (negb _ || _) eqn:E; cbn [length head].
  - pose proof (dec_text_length m (v mod 10 ^ Z.of_nat m) (Z.of_nat m)).
    intros Hlen. apply orb_true_iff in E as [E|E%Z.ltb_lt]; [|lia].
    apply negb_true_iff, Z.eqb_neq in E. intros [= Heq]. lia.
  - apply IH; [apply Z.mod_pos_bound, pow10_pos|done].
Qed.

Lemma dec_text_digits m v d :
  0 <= v < 10 ^ Z.of_nat m -> Forall (fun c => 48 <= c <= 57) (dec_text m v d).
Proof.
  revert v d. induction m as [|m IH]; intros v d Hv; [constructor|].
  pose proof (dec_digit_range m v Hv). pose proof (pow10_pos m).
  pose proof (Z.mod_pos_bound v (10 ^ Z.of_nat m)).
  cbn [dec_text]. case_match; [constructor; [lia|]|]; apply IH; lia.
Qed.

Lemma dec_nibble n :
  0 <= n < 10 -> nth (Z.to_nat (Z.land n 0xf)) bin_to_hex_table 0 = 48 + n.
Proof.
  intros Hn. eapply bool_decide_eq_true_1. revert n Hn.
  by apply (check_below 10 (fun n => bool_decide
    (nth (Z.to_nat (Z.land n 0xf)) bin_to_hex_table 0 = 48 + n))).
Qed.

Section PrintDec.
Context `{UartMap} (dev : device) (n fuel : nat) (u0 : ns16550).
Context (live : uart_live dev n) (enough : (n <= fuel)%nat).

Definition dec_step :=
  fun '(num, val, k, digits) i =>
    let cur := val / k in
    let val := u32 (val - cur * k) in
    let k := k / 10 in
    if (negb (cur =? 0)) || (i <? digits) then
      write_serial dev fuel (nth (Z.to_nat (Z.land cur 0xf)) bin_to_hex_table 0) ;;;
      ret (num + 1, val, k, i)
    else ret (num, val, k, digits).

Lemma dec_loop_prints m num v d t :
  (m <= 10)%nat -> 0 <= v < 10 ^ Z.of_nat m -> v < 4294967296 ->
  dlab (uart_after u0 t) = false ->
  wp (foldM (reverse (seqZ 0 (Z.of_nat m))) dec_step
        (num, v, 10 ^ Z.of_nat m / 10, d))
     (fun r t' => prints u0 (dec_text m v d) t t'
                  /\ r.1.1.1 = num + Z.of_nat (length (dec_text m v d))) t.
Proof.
  revert num v d t. induction m as [|m IH]; intros num v d t Hm Hv Hu Hd.
  { apply wp_ret. simpl. split; [apply prints_nil|lia]. }
  pose proof (dec_digit_range m v Hv) as Hq. pose proof (pow10_pos m) as Hp.
  pose proof (Z.mod_pos_bound v (10 ^ Z.of_nat m) Hp) as Hr.
  assert (10 ^ Z.of_nat m <> 0) as Hnz by (clear -Hp; lia).
  assert (v mod 10 ^ Z.of_nat m <= v) as Hle by (apply Z.mod_le; lia).
  rewrite seqZ_S, reverse_snoc, Z.add_0_l. cbn [foldM dec_text dec_step].
  replace (10 ^ Z.of_nat (S m) / 10) with (10 ^ Z.of_nat m)
    by (rewrite Nat2Z.inj_succ, Z.pow_succ_r, Z.mul_comm, Z.div_mul by (clear; lia); done).
  assert (v - v / 10 ^ Z.of_nat m * 10 ^ Z.of_nat m = v mod 10 ^ Z.of_nat m) as ->
    by (rewrite Z.mod_eq by done; ring).
  rewrite (u32_id (v mod _)) by lia.
  apply wp_bind. destruct (negb _ || _).
  - apply wp_bind. rewrite dec_nibble by lia.
    eapply wp_mono; [by eapply write_serial_prints|].
    intros [] t1 P1. rewrite u8_id in P1 by lia. apply wp_ret.
    eapply wp_mono; [eapply IH; [lia|lia|lia|by eapply prints_dlab]|].
    intros r t2 [P2 ->]. split; [by apply (prints_trans u0 [_] _ _ t1)|cbn [length]; lia].
  - apply wp_ret. apply IH; lia || done.
Qed.

Lemma piton_print_uart_dec_run v d t :
  0 <= v < 4294967296 -> 0 <= d < 4294967296 -> dlab (uart_after u0 t) = false ->
  wp (piton_print_uart_dec dev fuel v d)
     (fun r t' => prints u0 (dec_text 10 v d) t t'
                  /\ r = Z.of_nat (length (dec_text 10 v d))) t.
Proof.
  intros Hv Hd Hdlab. unfold piton_print_uart_dec. rewrite !u32_id by lia.
  apply wp_bind. eapply wp_mono.
  { apply (dec_loop_prints 10 0 v d t); [lia|simpl; lia|lia|done]. }
  intros [[[num ?] ?] ?] t' [HP Hr]. cbn [fst] in Hr. by apply wp_ret.
Qed.
End PrintDec.

(** ** Properties *)

#[export] Instance fpga_map_ok : @UartMapOk Fpga.uart_map.
Proof. unfold UartMapOk. apply (bool_decide_unpack _). by vm_compute. Qed.
#[export] Instance piton_map_ok : @UartMapOk Piton.uart_map.
Proof. unfold UartMapOk. apply (bool_decide_unpack _). by vm_compute. Qed.

(** A UART whose transmitter is always empty. *)
Definition idle_uart `{UartMap} : device := fun _ a => if a =? uart_lsr then 0x60 else 0.

Lemma idle_uart_live `{UartMap} : uart_live idle_uart 1.
Proof. intros t. exists O. split; [lia|]. unfold idle_uart. simpl. by rewrite Z.eqb_refl. Qed.

Definition reset_uart : ns16550 :=
  {| dll := 0; dlm := 0; ier := 0; fcr := 0; lcr := 0; mcr := 0; line := [] |}.

(** [init_uart], from any state of the UART, programs the divisor
    [freq / (16 * baud)], leaves the divisor latch closed and the line at 8N1,
    the FIFOs on and autoflow set; the interrupts end disabled unless the latch
    was open when it was called. *)
Theorem init_uart_divisor `{UartMapOk} u0 freq baud t :
  0 < 16 * baud < 4294967296 -> 0 <= freq < 4294967296 -> freq / (16 * baud) < 65536 ->
  wp (init_uart freq baud)
     (fun _ t' =>
        let u := uart_after u0 t in
        let u' := uart_after u0 t' in
        divisor u' = freq / (16 * baud) /\ dlab u' = false /\ lcr u' = 3 /\ fcr u' = 0xC7
        /\ mcr u' = 0x20 /\ line u' = line u
        /\ (dlab u = false -> ier u' = 0)) t.
Proof.
  intros Hbaud Hfreq Hdiv.
  unfold init_uart. rewrite Z.shiftl_mul_pow2 by lia. change (2 ^ 4) with 16.
  rewrite (u32_id (baud * 16)), (u32_id freq), (Z.mul_comm baud 16) by lia.
  destruct (Z.eqb_spec (16 * baud) 0); [lia|].
  assert (0 <= freq / (16 * baud)) as Hpos by (apply Z.div_pos; lia).
  generalize dependent (freq / (16 * baud)). intros d Hd Hpos.
  unfold write_reg_u8, store8, bind, wp. cbn [uart_after].
  destruct (uart_write_ier_cases (uart_after u0 t) (u8 0)) as (m & i & -> & Hi).
  uart_regs. unfold divisor, dlab. cbn [dll dlm lcr fcr mcr ier line].
  split_and!; [|done..|by intros [-> _]%Hi].
  rewrite land_255, Z.shiftr_div_pow2 by lia. change (2 ^ 8) with 256. unfold u8. divlia.
Qed.

Example init_uart_divisor_witness :
  0 < 16 * 115200 < 4294967296 /\
  wp (@init_uart Fpga.uart_map 50000000 115200)
     (fun _ t' => divisor (@uart_after Fpga.uart_map reset_uart t') = 27) [].
Proof.
  split; [lia|].
  eapply wp_mono.
  - apply (@init_uart_divisor Fpga.uart_map fpga_map_ok reset_uart 50000000 115200 []);
      [lia|lia|by vm_compute].
  - intros [] t' (-> & _). by vm_compute.
Defined.

(** [print_uart] sends a C string up to its closing zero and nothing more,
    and does nothing else than poll the line status and transmit, on every UART
    whose transmitter empties within [n] polls. *)
Theorem print_uart_sends `{UartMap} dev n fuel u0 text rest t :
  uart_live dev n -> (n <= fuel)%nat -> dlab (uart_after u0 t) = false ->
  Forall (fun c => 0 < c < 256) text ->
  wp (print_uart dev fuel (text ++ 0 :: rest)) (fun _ t' => prints u0 text t t') t.
Proof. intros. by eapply print_uart_prints. Qed.

Example print_uart_sends_witness :
  wp (@print_uart Fpga.uart_map (@idle_uart Fpga.uart_map) 1 (string_bytes "Hello World!" ++ crlf ++ [0]))
     (fun _ t' => @prints Fpga.uart_map reset_uart (string_bytes "Hello World!" ++ crlf) [] t') [].
Proof.
  rewrite (assoc_L (++)).
  apply (@print_uart_sends Fpga.uart_map (@idle_uart Fpga.uart_map) 1 1 reset_uart (string_bytes "Hello World!" ++ crlf) []);
    [apply idle_uart_live|lia|done|repeat constructor; done].
Defined.

(** [print_uart_int] and [print_uart_addr] send 8 and 16 digits that read
    back, in base 16, as the number printed. *)
Theorem print_number_reads_back `{UartMap} dev n fuel u0 t :
  uart_live dev n -> (n <= fuel)%nat -> dlab (uart_after u0 t) = false ->
  (forall z, 0 <= z < 2 ^ 32 ->
     wp (print_uart_int dev fuel z)
        (fun _ t' => exists text, prints u0 text t t' /\ length text = 8%nat
                                  /\ hex_value text = Some z) t)
  /\ (forall z, 0 <= z < 2 ^ 64 ->
     wp (print_uart_addr dev fuel z)
        (fun _ t' => exists text, prints u0 text t t' /\ length text = 16%nat
                                  /\ hex_value text = Some z) t).
Proof.
  intros Hlive Hn Hd. split; intros z Hz.
  - unfold print_uart_int. change [3; 2; 1; 0] with (reverse (seqZ 0 (Z.of_nat 4))).
    eapply wp_mono; [by eapply print_bytes_prints|].
    intros [] t' HP. exists (hex_text 4 z).
    by rewrite hex_text_length, hex_text_value by done.
  - unfold print_uart_addr. change [7; 6; 5; 4; 3; 2; 1; 0] with (reverse (seqZ 0 (Z.of_nat 8))).
    eapply wp_mono; [by eapply print_bytes_prints|].
    intros [] t' HP. exists (hex_text 8 z).
    by rewrite hex_text_length, hex_text_value by done.
Qed.

Example print_number_reads_back_witness :
  wp (@print_uart_int Fpga.uart_map (@idle_uart Fpga.uart_map) 1 0xdeadbeef)
     (fun _ t' => exists text, @prints Fpga.uart_map reset_uart text [] t'
        /\ length text = 8%nat /\ hex_value text = Some 0xdeadbeef) [].
Proof.
  destruct (@print_number_reads_back Fpga.uart_map (@idle_uart Fpga.uart_map) 1 1 reset_uart []) as [H _];
    [apply idle_uart_live|lia|done|].
  apply (H 0xdeadbeef). lia.
Defined.

(** [print_uart_dec] sends the decimal digits of [val], at least [digits] of
    them and at most ten, without a superfluous leading zero, and returns how
    many it sent. *)
Theorem print_uart_dec_decimal `{UartMap} dev n fuel u0 val digits t :
  uart_live dev n -> (n <= fuel)%nat -> dlab (uart_after u0 t) = false ->
  0 <= val < 2 ^ 32 -> 0 <= digits < 2 ^ 32 ->
  wp (piton_print_uart_dec dev fuel val digits)
     (fun num t' => exists text, prints u0 text t t'
        /\ num = Z.of_nat (length text)
        /\ Forall (fun c => 48 <= c <= 57) text
        /\ dec_value text = val
        /\ Z.min 10 digits <= num <= 10
        /\ (digits < num -> head text <> Some 48)) t.
Proof.
  intros Hlive Hn Hd Hval Hdig.
  assert (0 <= val < 10 ^ Z.of_nat 10) as Hten by (simpl; lia).
  eapply wp_mono; [by apply (piton_print_uart_dec_run dev n fuel u0 Hlive Hn val digits t)|].
  intros num t' [HP ->]. exists (dec_text 10 val digits).
  pose proof (dec_text_length 10 val digits).
  split_and!; [done|done|by apply dec_text_digits|by apply dec_text_value|lia..|].
  intros Hlen. apply dec_text_no_zero; [done|lia|done].
Qed.

Example print_uart_dec_decimal_witness :
  wp (@piton_print_uart_dec Piton.uart_map (@idle_uart Piton.uart_map) 1 32768 1)
     (fun num t' => exists text, @prints Piton.uart_map reset_uart text [] t'
        /\ num = Z.of_nat (length text)
        /\ Forall (fun c => 48 <= c <= 57) text
        /\ dec_value text = 32768
        /\ Z.min 10 1 <= num <= 10
        /\ (1 < num -> head text <> Some 48)) [].
Proof.
  apply (@print_uart_dec_decimal Piton.uart_map (@idle_uart Piton.uart_map) 1 1 reset_uart 32768 1 []);
    [apply idle_uart_live|lia|done|lia|lia].
Defined.
