(* ===== verification/BootSpi.v ===== *)
(** * The SPI controller of the boot ROM

    [fpga/src/bootrom/src/spi.c]: a byte, or up to 256 of them, is exchanged by
    filling the transmit FIFO of the AXI Quad SPI core and draining the receive
    FIFO.  The core ([axi_quad_spi]) shifts bytes while it is enabled as a master,
    not inhibited and has the card selected; the driver waits for a transfer by a
    delay loop, which must be long enough ([delays_suffice]).  The file ends with
    the interface the SD card driver is verified against: every exchange answers
    what the card answers. *)

From Stdlib Require Import ZArith Lia String.
From stdpp Require Import base tactics list numbers.
From S2P Require Import Prelude Mmio Ns16550 BootUart.

Definition SPI_BASE : Z := 0x20000000.
Definition SPI_RESET_REG : Z := SPI_BASE + 0x40.
Definition SPI_CONTROL_REG : Z := SPI_BASE + 0x60.
Definition SPI_STATUS_REG : Z := SPI_BASE + 0x64.
Definition SPI_TRANSMIT_REG : Z := SPI_BASE + 0x68.
Definition SPI_RECEIVE_REG : Z := SPI_BASE + 0x6C.
Definition SPI_SLAVE_SELECT_REG : Z := SPI_BASE + 0x70.

(** A C string literal. *)
Definition cstr (s : string) : list Z := string_bytes s ++ [0].

Section Driver.
Context (dev : device) (fuel : nat).
#[local] Existing Instance Fpga.uart_map.

Definition write_reg (addr value : Z) : M trace unit := store32 addr value.
Definition read_reg (addr : Z) : M trace Z := load32 dev addr.

Definition spi_init : M trace unit :=
  print_uart dev fuel (string_bytes "init SPI" ++ crlf ++ [0]) ;;;
  write_reg SPI_RESET_REG 0x0a ;;;
  write_reg SPI_CONTROL_REG 0x104 ;;;
  status <- read_reg SPI_STATUS_REG ;;
  print_uart dev fuel (cstr "status: 0x") ;;;
  print_uart_addr dev fuel status ;;;
  print_uart dev fuel (crlf ++ [0]) ;;;
  write_reg SPI_CONTROL_REG 0x166 ;;;
  status <- read_reg SPI_STATUS_REG ;;
  print_uart dev fuel (cstr "status: 0x") ;;;
  print_uart_addr dev fuel status ;;;
  print_uart dev fuel (crlf ++ [0]) ;;;
  write_reg SPI_CONTROL_REG 0x06 ;;;
  print_uart dev fuel (string_bytes "SPI initialized!" ++ crlf ++ [0]).

Definition spi_txrx (byte : Z) : M trace Z :=
  write_reg SPI_SLAVE_SELECT_REG 0xfffffffe ;;;
  write_reg SPI_TRANSMIT_REG byte ;;;
  write_reg SPI_CONTROL_REG 0x106 ;;;
  poll fuel (s <- read_reg SPI_STATUS_REG ;; ret (Z.land s 0x1 =? 0x1)) ;;;
  result <- read_reg SPI_RECEIVE_REG ;;
  s <- read_reg SPI_STATUS_REG ;;
  (if negb (Z.land s 0x1 =? 0x1) then
     print_uart dev fuel (cstr "rx fifo not empty?? ") ;;;
     s <- read_reg SPI_STATUS_REG ;;
     print_uart_addr dev fuel s ;;;
     print_uart dev fuel (crlf ++ [0])
   else ret tt) ;;;
  write_reg SPI_SLAVE_SELECT_REG 0xffffffff ;;;
  write_reg SPI_CONTROL_REG 0x06 ;;;
  ret (u8 result).

(** The last loop: [i] bytes of [ret] are filled, the list holds them. *)
Definition drain_round (len : Z) (st : Z * list Z) : M trace ((Z * list Z) + list Z) :=
  let '(i, out) := st in
  if i <? len then
    status <- read_reg SPI_STATUS_REG ;;
    if negb (Z.land status 0x1 =? 0x1) then
      r <- read_reg SPI_RECEIVE_REG ;;
      ret (inl (i + 1, out ++ [u8 r]))
    else ret (inl (i, out))
  else ret (inr out).

(** Returns the status and the bytes stored at [ret]. *)
Definition spi_write_bytes (bytes : list Z) (len : Z) : M trace (Z * list Z) :=
  if 256 <? len then ret (-1, []) else
  write_reg SPI_SLAVE_SELECT_REG 0xfffffffe ;;;
  foreach (seqZ 0 len)
    (fun i => b <- of_option (bytes !! Z.to_nat i) ;;
              write_reg SPI_TRANSMIT_REG (Z.land b 0xff)) ;;;
  write_reg SPI_CONTROL_REG 0x106 ;;;
  poll fuel (s <- read_reg SPI_STATUS_REG ;; ret (Z.land s 0x1 =? 0x1)) ;;;
  out <- loop fuel (drain_round len) (0, []) ;;
  write_reg SPI_SLAVE_SELECT_REG 0xffffffff ;;;
  write_reg SPI_CONTROL_REG 0x06 ;;;
  ret (0, out).
End Driver.

(** ** What the driver promises the SD card driver *)

(** What a card answers to the bytes [l] after the bytes [h]: a card is a
    function from everything it was sent to its next byte. *)
Fixpoint exchange (card : list Z -> Z) (h l : list Z) : list Z :=
  match l with
  | [] => []
  | b :: l => card (h ++ [b]) :: exchange card (h ++ [b]) l
  end.

Lemma exchange_length card h l : length (exchange card h l) = length l.
Proof. revert h. induction l; intros; simpl; f_equal; auto. Qed.

Lemma exchange_app card h l1 l2 :
  exchange card h (l1 ++ l2) = exchange card h l1 ++ exchange card (h ++ l1) l2.
Proof.
  revert h. induction l1 as [|b l1 IH]; intros h; simpl; [by rewrite app_nil_r|].
  by rewrite IH, <-(assoc_L (++)).
Qed.

(** The operations the upper layers call: those of [uart.h], and those of
    [spi.h]. *)
Class Console (S : Type) := {
  board_print : list Z -> M S unit;
  board_print_int : Z -> M S unit;
  board_print_addr : Z -> M S unit;
  board_print_byte : Z -> M S unit
}.

Class Board (S : Type) := {
  #[global] board_console :: Console S;
  board_spi_init : M S unit;
  board_txrx : Z -> M S Z;
  board_write_bytes : list Z -> Z -> M S (Z * list Z)
}.

(** What they promise: [sent] is what the card has been sent, [console] what
    went out on the UART; [powered] holds from power-up, and the console works
    then; [ready], which initialisation establishes, is the invariant between two
    exchanges. *)
Class BoardSpec {S} (B : Board S) (card : list Z -> Z) := {
  powered : S -> Prop;
  ready : S -> Prop;
  sent : S -> list Z;
  console : S -> list Z;
  card_byte h : byte (card h);
  ready_powered s : ready s -> powered s;
  spi_init_spec s : powered s ->
    wp board_spi_init (fun _ s' => ready s' /\ sent s' = sent s) s;
  txrx_spec b s : ready s -> byte b ->
    wp (board_txrx b)
       (fun r s' => ready s' /\ r = card (sent s ++ [b]) /\ sent s' = sent s ++ [b]
                    /\ console s' = console s) s;
  write_bytes_spec l len s : ready s -> bytes l -> 0 < len <= 256 ->
    len <= Z.of_nat (length l) ->
    let l' := take (Z.to_nat len) l in
    wp (board_write_bytes l len)
       (fun r s' => ready s' /\ r = (0, exchange card (sent s) l')
                    /\ sent s' = sent s ++ l' /\ console s' = console s) s;
  print_spec text rest s : powered s -> Forall (fun c => 0 < c < 256) text ->
    wp (board_print (text ++ 0 :: rest))
       (fun _ s' => powered s' /\ (ready s -> ready s') /\ sent s' = sent s
                    /\ console s' = console s ++ text) s;
  print_int_spec z s : powered s ->
    wp (board_print_int z)
       (fun _ s' => powered s' /\ (ready s -> ready s') /\ sent s' = sent s
                    /\ console s' = console s ++ hex_text 4 z) s;
  print_addr_spec z s : powered s ->
    wp (board_print_addr z)
       (fun _ s' => powered s' /\ (ready s -> ready s') /\ sent s' = sent s
                    /\ console s' = console s ++ hex_text 8 z) s;
  print_byte_spec z s : powered s -> 0 <= z < 256 ->
    wp (board_print_byte z)
       (fun _ s' => powered s' /\ (ready s -> ready s') /\ sent s' = sent s
                    /\ console s' = console s ++ hex_byte z) s
}.

(** ** The hardware below the driver

    The AXI Quad SPI core of the data sheet, as a master in standard mode. *)

(** The bytes a trace put in the transmit FIFO, the number it took out of the
    receive FIFO. *)
Definition spi_sent (t : trace) : list Z := u8 <$> outputs SPI_TRANSMIT_REG t.
Definition spi_taken (t : trace) : nat := length (inputs SPI_RECEIVE_REG t).

(** Bits 5 and 6 of the control register empty the FIFOs and clear themselves. *)
Definition FIFO_RESETS : Z := 0x60.
Definition SOFT_RESET : Z := 0x0a.

(** The control register and the slave select register; at reset the core is
    disabled and inhibited, and no slave selected. *)
Fixpoint spi_control (t : trace) : Z :=
  match t with
  | [] => 0x180
  | Wr a v :: t =>
      if a =? SPI_RESET_REG then (if v =? SOFT_RESET then 0x180 else spi_control t)
      else if a =? SPI_CONTROL_REG then Z.land v (Z.lnot FIFO_RESETS)
      else spi_control t
  | Rd _ _ :: t | SetCsr _ _ :: t => spi_control t
  end.
Fixpoint spi_select (t : trace) : Z :=
  match t with
  | [] => 0xffffffff
  | Wr a v :: t =>
      if a =? SPI_RESET_REG then (if v =? SOFT_RESET then 0xffffffff else spi_select t)
      else if a =? SPI_SLAVE_SELECT_REG then v
      else spi_select t
  | Rd _ _ :: t | SetCsr _ _ :: t => spi_select t
  end.

(** Bytes move: the core is enabled (bit 1) and master (bit 2), not in loop back
    (bit 0), in SPI mode 0 (bits 3 and 4), not inhibited (bit 8), most significant
    bit first (bit 9); and the card, slave 0, is selected (active low). *)
Definition running (control select : Z) : bool :=
  (Z.land control 0x31f =? 0x06) && negb (Z.testbit select 0).

(** The use the data sheet allows, where [shifted] is how many bytes have been
    exchanged on the wires when the last access takes effect: a byte is queued while the core runs and the FIFO has
    room; control and slave select change, and the core is reset, only when no
    transfer is in progress, and the FIFOs are emptied only when they are empty;
    the receive register is read only when there is something in it. *)
Fixpoint spi_ok (shifted : trace -> nat) (t : trace) : bool :=
  match t with
  | [] => true
  | Wr a v :: t =>
      spi_ok shifted t &&
      (if a =? SPI_TRANSMIT_REG then
         running (spi_control t) (spi_select t) && (length (spi_sent t) <? spi_taken t + 256)%nat
       else if (a =? SPI_RESET_REG) || (a =? SPI_CONTROL_REG) || (a =? SPI_SLAVE_SELECT_REG) then
         (shifted (Wr a v :: t) =? length (spi_sent t))%nat
         && ((spi_taken t =? length (spi_sent t))%nat
             || (negb (a =? SPI_RESET_REG) && ((a =? SPI_SLAVE_SELECT_REG) || (Z.land v FIFO_RESETS =? 0))))
       else true)
  | Rd a _ :: t =>
      spi_ok shifted t && (if a =? SPI_RECEIVE_REG then (spi_taken t <? shifted t)%nat else true)
  | SetCsr _ _ :: t => spi_ok shifted t
  end.

(** The core, with [card] on the other end of the wires.  Used as above: every
    byte exchanged comes back with the card's answer, in order, through the
    receive FIFO, and the low bit of the status says that this FIFO is empty.
    Nothing is said of a core used otherwise. *)
Record axi_quad_spi (dev : device) (card : list Z -> Z) (shifted : trace -> nat) : Prop := {
  spi_card_byte h : byte (card h);
  spi_bound t : (shifted t <= length (spi_sent t))%nat;
  spi_mono e t : (shifted t <= shifted (e :: t))%nat;
  spi_status t : spi_ok shifted t = true ->
    Z.land (u32 (dev t SPI_STATUS_REG)) 1 = if (spi_taken t <? shifted t)%nat then 0 else 1;
  spi_data t : spi_ok shifted t = true -> (spi_taken t < shifted t)%nat ->
    u8 (u32 (dev t SPI_RECEIVE_REG)) = card (take (S (spi_taken t)) (spi_sent t))
}.

(** The delays of the driver are long enough: what was queued while the core ran
    has been exchanged when the next write of the control register takes effect.
    The [nop]s before that write leave no trace, so this is where the model has
    them. *)
Definition delays_suffice (shifted : trace -> nat) : Prop :=
  forall v t, spi_ok shifted t = true -> running (spi_control t) (spi_select t) = true ->
              shifted (Wr SPI_CONTROL_REG v :: t) = length (spi_sent t).

Section Implementation.
#[local] Existing Instance Fpga.uart_map.
Context (dev : device) (card : list Z -> Z) (shifted : trace -> nat) (u0 : ns16550).
Context (spi : axi_quad_spi dev card shifted).

(** [h] was sent and is exchanged, [k] answers are taken, and what the two
    registers and the UART hold. *)
Record core_at (h : list Z) (k : nat) (c s : Z) (u : ns16550) (t : trace) : Prop := {
  at_sent : spi_sent t = h;
  at_taken : spi_taken t = k;
  at_control : spi_control t = c;
  at_select : spi_select t = s;
  at_ok : spi_ok shifted t = true;
  at_shifted : shifted t = length h;
  at_uart : uart_after u0 t = u
}.

(** Nothing in the FIFOs and the latch of the UART closed; and after
    initialisation the core enabled and the card deselected. *)
Definition spi_powered (t : trace) : Prop :=
  exists h c s u, dlab u = false /\ core_at h (length h) c s u t.
Definition spi_idle (t : trace) : Prop :=
  exists h u, dlab u = false /\ core_at h (length h) 0x06 0xffffffff u t.

Lemma idle_powered t : spi_idle t -> spi_powered t.
Proof using. intros (h & u & Hd & Ht). by exists h, 0x06, 0xffffffff, u. Qed.

Lemma shifted_step e t h :
  shifted t = length h -> spi_sent (e :: t) = h -> shifted (e :: t) = length h.
Proof.
  intros Ht Hs. pose proof (spi_mono _ _ _ spi e t). pose proof (spi_bound _ _ _ spi (e :: t)) as Hb.
  rewrite Hs in Hb. lia.
Qed.

Lemma core_at_start : core_at [] 0 0x180 0xffffffff u0 [].
Proof.
  split; try done. pose proof (spi_bound _ _ _ spi []) as Hb. simpl in Hb |- *. lia.
Qed.

(** The registers of the core are not the UART's. *)
Ltac not_uart := cbn [uart_after]; rewrite uart_write_other; [done|by apply (bool_decide_unpack _)].

Lemma store_select v h k c s u t :
  core_at h k c s u t -> wp (write_reg SPI_SLAVE_SELECT_REG v) (fun _ t' => core_at h k c (u32 v) u t') t.
Proof.
  intros [Hs Hk Hc Hsel Hok Hsh Hu]. unfold write_reg, store32, wp. split; try done.
  - cbn [spi_ok]. rewrite Hok, Hs, (shifted_step _ _ _ Hsh), Nat.eqb_refl by done. simpl.
    by rewrite orb_true_r.
  - by apply shifted_step.
  - not_uart.
Qed.

Lemma store_control v h k c s u t :
  core_at h k c s u t -> k = length h \/ Z.land (u32 v) FIFO_RESETS = 0 ->
  wp (write_reg SPI_CONTROL_REG v) (fun _ t' => core_at h k (Z.land (u32 v) (Z.lnot FIFO_RESETS)) s u t') t.
Proof.
  intros [Hs Hk Hc Hsel Hok Hsh Hu] Hr. unfold write_reg, store32, wp. split; try done.
  - cbn [spi_ok]. rewrite Hok, Hs, Hk, (shifted_step _ _ _ Hsh), Nat.eqb_refl by done. simpl.
    destruct Hr as [-> | ->]; [by rewrite Nat.eqb_refl|by rewrite orb_true_r].
  - by apply shifted_step.
  - not_uart.
Qed.

Lemma store_reset h c s u t :
  core_at h (length h) c s u t ->
  wp (write_reg SPI_RESET_REG SOFT_RESET) (fun _ t' => core_at h (length h) 0x180 0xffffffff u t') t.
Proof.
  intros [Hs Hk Hc Hsel Hok Hsh Hu]. unfold write_reg, store32, wp. split; try done.
  - cbn [spi_ok]. by rewrite Hok, Hs, Hk, (shifted_step _ _ _ Hsh), Nat.eqb_refl by done.
  - by apply shifted_step.
  - not_uart.
Qed.

Lemma load_status h k c s u t :
  core_at h k c s u t ->
  wp (read_reg dev SPI_STATUS_REG)
     (fun r t' => Z.land r 1 = (if (k <? length h)%nat then 0 else 1) /\ core_at h k c s u t') t.
Proof.
  intros [Hs Hk Hc Hsel Hok Hsh Hu]. unfold read_reg, load32, wp. split.
  - by rewrite (spi_status _ _ _ spi t Hok), Hk, Hsh.
  - split; try done; [|by apply shifted_step]. cbn [spi_ok]. by rewrite Hok.
Qed.

Lemma load_receive h k c s u t :
  core_at h k c s u t -> (k < length h)%nat ->
  wp (read_reg dev SPI_RECEIVE_REG)
     (fun r t' => u8 r = card (take (S k) h) /\ core_at h (S k) c s u t') t.
Proof.
  intros [Hs Hk Hc Hsel Hok Hsh Hu] Hl. unfold read_reg, load32, wp. split.
  - rewrite (spi_data _ _ _ spi t Hok) by (rewrite Hk, Hsh; done). by rewrite Hk, Hs.
  - split; try done; [|..|by apply shifted_step].
    + unfold spi_taken in *. cbn [inputs]. rewrite Z.eqb_refl, length_app, Hk. simpl. lia.
    + cbn [spi_ok]. rewrite Hok, Z.eqb_refl, Hk, Hsh. by apply Nat.ltb_lt.
Qed.

(** The console does not reach the core. *)
Lemma core_tx_event h k c s e t :
  tx_event e ->
  spi_sent t = h /\ spi_taken t = k /\ spi_control t = c /\ spi_select t = s /\ spi_ok shifted t = true
    /\ shifted t = length h ->
  spi_sent (e :: t) = h /\ spi_taken (e :: t) = k /\ spi_control (e :: t) = c /\ spi_select (e :: t) = s
    /\ spi_ok shifted (e :: t) = true /\ shifted (e :: t) = length h.
Proof.
  intros He (H1 & H2 & H3 & H4 & H5 & H6).
  assert (spi_sent (e :: t) = h) as Hs by (destruct e; cbn [tx_event] in He; [|by subst a|done]; exact H1).
  split_and!; [done| | | | |by apply shifted_step]; (destruct e; cbn [tx_event] in He; [| |done]); subst a; try done.
  all: cbn [spi_ok]; by rewrite H5.
Qed.

Lemma core_prints text h k c s u t t' :
  core_at h k c s u t -> prints u0 text t t' -> core_at h k c s (push_line u text) t'.
Proof.
  intros [Hs Hk Hc Hsel Hok Hsh Hu] [Hline (ev & -> & F)].
  assert (spi_sent (ev ++ t) = h /\ spi_taken (ev ++ t) = k /\ spi_control (ev ++ t) = c
    /\ spi_select (ev ++ t) = s /\ spi_ok shifted (ev ++ t) = true /\ shifted (ev ++ t) = length h)
    as (?&?&?&?&?&?); [|by split; [..|congruence]].
  clear Hline Hu. induction F as [|e ev He F IH]; [done|]. by apply core_tx_event.
Qed.

Lemma wait_rx f h k c s u t :
  core_at h k c s u t -> (k < length h)%nat -> (0 < f)%nat ->
  wp (poll f (s <- read_reg dev SPI_STATUS_REG ;; ret (Z.land s 0x1 =? 0x1)))
     (fun _ t' => core_at h k c s u t') t.
Proof.
  intros Ht Hk Hf. unfold poll. destruct f as [|f]; [lia|]. cbn [loop]. apply wp_bind, wp_bind, wp_bind.
  eapply wp_mono; [by apply load_status|]. intros r t' [Hr Ht']. rewrite (proj2 (Nat.ltb_lt _ _) Hk) in Hr.
  apply wp_ret. rewrite Hr. by apply wp_ret, wp_ret.
Qed.

Context (delays : delays_suffice shifted).

(** [h] was queued, not all of it need have been exchanged. *)
Record queued (h : list Z) (k : nat) (c s : Z) (u : ns16550) (t : trace) : Prop := {
  queued_sent : spi_sent t = h;
  queued_taken : spi_taken t = k;
  queued_control : spi_control t = c;
  queued_select : spi_select t = s;
  queued_ok : spi_ok shifted t = true;
  queued_uart : uart_after u0 t = u
}.

Lemma core_queued h k c s u t : core_at h k c s u t -> queued h k c s u t.
Proof using. by intros []. Qed.

Lemma store_transmit b h k c s u t :
  queued h k c s u t -> byte b -> running c s = true -> (length h < k + 256)%nat ->
  wp (write_reg SPI_TRANSMIT_REG b) (fun _ t' => queued (h ++ [b]) k c s u t') t.
Proof using.
  intros [Hs Hk Hc Hsel Hok Hu] Hb Hr Hl. unfold byte in Hb. unfold write_reg, store32, wp.
  split; try done; [| |not_uart].
  - unfold spi_sent in *. cbn [outputs]. rewrite Z.eqb_refl, fmap_app, Hs. simpl. by rewrite u32_id, u8_id by lia.
  - cbn [spi_ok]. rewrite Hok, Z.eqb_refl, Hc, Hsel, Hr, Hs, Hk. by apply Nat.ltb_lt.
Qed.

(** The write of the control register after the delay. *)
Lemma store_control_late v h k c s u t :
  queued h k c s u t -> running c s = true -> Z.land (u32 v) FIFO_RESETS = 0 ->
  wp (write_reg SPI_CONTROL_REG v) (fun _ t' => core_at h k (Z.land (u32 v) (Z.lnot FIFO_RESETS)) s u t') t.
Proof using delays.
  intros [Hs Hk Hc Hsel Hok Hu] Hr Hv. unfold write_reg, store32, wp.
  assert (shifted (Wr SPI_CONTROL_REG (u32 v) :: t) = length h) as Hsh.
  { rewrite <-Hs. apply delays; [done|]. by rewrite Hc, Hsel. }
  split; try done; [|not_uart]. cbn [spi_ok]. rewrite Hok, Hs, Hsh, Nat.eqb_refl, Hv. simpl.
  by rewrite orb_true_r.
Qed.

Context (fuel : nat) (enough : (257 <= fuel)%nat).

Lemma spi_txrx_exchanges b h u t :
  core_at h (length h) 0x06 0xffffffff u t -> byte b ->
  wp (spi_txrx dev fuel b)
     (fun r t' => r = card (h ++ [b])
        /\ core_at (h ++ [b]) (length (h ++ [b])) 0x06 0xffffffff u t') t.
Proof.
  intros H0 Hb. unfold spi_txrx.
  wp_call ltac:(by eapply store_select). intros [] t1 H1.
  wp_call ltac:(eapply store_transmit; [apply core_queued, H1|done|done|lia]). intros [] t2 H2.
  wp_call ltac:(eapply store_control_late; [exact H2|done|done]). intros [] t3 H3.
  assert (length h < length (h ++ [b]))%nat as Hlt by (rewrite length_app; simpl; lia).
  wp_call ltac:(eapply wait_rx; [exact H3|exact Hlt|lia]). intros [] t4 H4.
  wp_call ltac:(by eapply load_receive). intros r t5 [Hr H5].
  assert (S (length h) = length (h ++ [b])) as E by (rewrite length_app; simpl; lia). rewrite E in H5, Hr.
  wp_call ltac:(by eapply load_status). intros st t6 [Hst H6]. rewrite Nat.ltb_irrefl in Hst.
  (* nothing is left: no complaint is printed *)
  rewrite Hst. cbn [negb Z.eqb Pos.eqb]. apply wp_bind, wp_ret.
  wp_call ltac:(by eapply store_select). intros [] t7 H7.
  wp_call ltac:(eapply store_control; [exact H7|by right]). intros [] t8 H8.
  apply wp_ret. split; [by rewrite Hr, firstn_all|exact H8].
Qed.

Lemma exchange_snoc h l k :
  (k < length l)%nat ->
  exchange card h (take k l) ++ [card (h ++ take (S k) l)] = exchange card h (take (S k) l).
Proof using.
  intros Hk. destruct (lookup_lt_is_Some_2 l k Hk) as [b Hb].
  rewrite (take_S_r _ _ _ Hb), exchange_app. simpl. by rewrite (assoc_L (++)).
Qed.

Lemma drain_all h l k f c s u t :
  (k <= length l)%nat -> (length l - k < f)%nat -> core_at (h ++ l) (length h + k) c s u t ->
  wp (loop f (drain_round dev (Z.of_nat (length l))) (Z.of_nat k, exchange card h (take k l)))
     (fun out t' => out = exchange card h l /\ core_at (h ++ l) (length (h ++ l)) c s u t') t.
Proof.
  intros Hk Hf Ht. remember (length l - k)%nat as m eqn:Hm.
  revert k f t Hk Hf Ht Hm. induction m as [|m IH]; intros k f t Hk Hf Ht Hm.
  - assert (k = length l) as -> by lia. destruct f as [|f]; [lia|].
    cbn [loop]. apply wp_bind. unfold drain_round.
    rewrite Z.ltb_irrefl. apply wp_ret, wp_ret. by rewrite firstn_all, length_app.
  - destruct f as [|f]; [lia|]. cbn [loop]. apply wp_bind. unfold drain_round at 1.
    rewrite (proj2 (Z.ltb_lt _ _)) by lia.
    assert (length h + k < length (h ++ l))%nat as Hlt by (rewrite length_app; lia).
    wp_call ltac:(by eapply load_status). intros st t1 [Hst H1]. rewrite (proj2 (Nat.ltb_lt _ _) Hlt) in Hst.
    rewrite Hst. cbn [Z.eqb Pos.eqb negb].
    wp_call ltac:(by eapply load_receive). intros r t2 [Hr H2]. apply wp_ret.
    rewrite Hr, <-Nat.add_succ_r, take_app_add, exchange_snoc by lia.
    replace (Z.of_nat k + 1) with (Z.of_nat (S k)) by lia.
    apply IH; [lia|lia|by rewrite Nat.add_succ_r|lia].
Qed.

Lemma fill_fifo l h c s u t :
  bytes l -> (length l <= 256)%nat -> running c s = true -> queued h (length h) c s u t ->
  wp (foreach (seqZ 0 (Z.of_nat (length l)))
       (fun i => b <- of_option (l !! Z.to_nat i) ;;
                 write_reg SPI_TRANSMIT_REG (Z.land b 0xff)))
     (fun _ t' => queued (h ++ l) (length h) c s u t') t.
Proof.
  intros Hl H256 Hr Ht. eapply wp_mono.
  - apply (wp_foreach _ _ (fun done t' => queued (h ++ take (length done) l) (length h) c s u t')).
    + simpl. by rewrite app_nil_r.
    + intros done x todo t' Hsplit Ht'.
      assert (x = Z.of_nat (length done) /\ (length done < length l)%nat) as [-> Hlt].
      { assert (seqZ 0 (Z.of_nat (length l)) !! length done = Some x) as Hx
          by (rewrite Hsplit; by apply list_lookup_middle).
        apply lookup_seqZ in Hx. lia. }
      rewrite Nat2Z.id. destruct (lookup_lt_is_Some_2 l (length done) Hlt) as [b Hb].
      rewrite Hb. apply wp_bind, wp_ret.
      assert (byte b) as Hbb by (by eapply Forall_lookup_1 in Hl).
      rewrite land_255, Z.mod_small by done.
      eapply wp_mono; [eapply store_transmit; [exact Ht'|done|done|]|].
      { rewrite length_app, length_take. lia. }
      intros [] t'' Ht''. rewrite length_app. simpl. rewrite Nat.add_1_r, (take_S_r _ _ _ Hb).
      by rewrite (assoc_L (++)).
  - intros [] t' Ht'. by rewrite length_seqZ, Nat2Z.id, firstn_all in Ht'.
Qed.

(** Only the first [len] bytes of the buffer are sent. *)
Lemma spi_write_bytes_take l len t :
  spi_write_bytes dev fuel l len t = spi_write_bytes dev fuel (take (Z.to_nat len) l) len t.
Proof using.
  unfold spi_write_bytes. destruct (256 <? len); [done|]. unfold bind at 1 6. simpl.
  unfold bind at 1 5. erewrite foreach_ext; [done|].
  intros i t' Hi. cbv beta. apply elem_of_seqZ in Hi. by rewrite lookup_take_lt by (clear -Hi; lia).
Qed.

Lemma spi_write_bytes_exchanges l h u t :
  core_at h (length h) 0x06 0xffffffff u t -> bytes l -> (0 < length l <= 256)%nat ->
  wp (spi_write_bytes dev fuel l (Z.of_nat (length l)))
     (fun r t' => r = (0, exchange card h l)
        /\ core_at (h ++ l) (length (h ++ l)) 0x06 0xffffffff u t') t.
Proof.
  intros H0 Hl Hlen. unfold spi_write_bytes.
  destruct (Z.ltb_spec 256 (Z.of_nat (length l))); [lia|].
  wp_call ltac:(by eapply store_select). intros [] t1 H1.
  wp_call ltac:(apply (fill_fifo l h 0x06 0xfffffffe u); [exact Hl|lia|reflexivity|apply core_queued, H1]). intros [] t2 H2.
  wp_call ltac:(eapply store_control_late; [exact H2|done|done]). intros [] t3 H3.
  wp_call ltac:(eapply wait_rx; [exact H3|rewrite length_app; lia|lia]). intros [] t4 H4.
  wp_call ltac:(eapply (drain_all h l 0); [lia|lia|by rewrite Nat.add_0_r]). intros out t5 [-> H5].
  wp_call ltac:(by eapply store_select). intros [] t6 H6.
  wp_call ltac:(eapply store_control; [exact H6|by right]). intros [] t7 H7.
  by apply wp_ret.
Qed.
End Implementation.

(** ** The board, built from the two drivers *)

Definition mmio_console (dev : device) (fuel : nat) : Console trace := {|
  board_print := @print_uart Fpga.uart_map dev fuel;
  board_print_int := @print_uart_int Fpga.uart_map dev fuel;
  board_print_addr := @print_uart_addr Fpga.uart_map dev fuel;
  board_print_byte := @print_uart_byte Fpga.uart_map dev fuel
|}.

#[export] Instance mmio_board (dev : device) (fuel : nat) : Board trace := {|
  board_console := mmio_console dev fuel;
  board_spi_init := spi_init dev fuel;
  board_txrx := spi_txrx dev fuel;
  board_write_bytes := spi_write_bytes dev fuel
|}.

Section Discharge.
#[local] Existing Instance Fpga.uart_map.
Context (dev : device) (card : list Z -> Z) (shifted : trace -> nat) (n fuel : nat) (u0 : ns16550).
Context (spi : axi_quad_spi dev card shifted) (delays : delays_suffice shifted) (live : uart_live dev n).
Context (enough : (257 * (n + 1) <= fuel)%nat).

Abbreviation idle := (spi_idle shifted u0).
Abbreviation power := (spi_powered shifted u0).
Abbreviation core h := (core_at shifted u0 h (length h)).

Lemma enough_polls : (n <= fuel)%nat.
Proof using enough. lia. Qed.

(** What a print leaves of a state of the core. *)
Lemma prints_power text t t' :
  prints u0 text t t' -> power t ->
  power t' /\ (idle t -> idle t') /\ spi_sent t' = spi_sent t
  /\ line (uart_after u0 t') = line (uart_after u0 t) ++ text.
Proof using spi delays live enough.
  intros HP (h & c & s & u & Hd & Ht).
  assert (core h c s (push_line u text) t') as Ht' by (eapply core_prints; eassumption).
  split_and!.
  - by exists h, c, s, (push_line u text).
  - intros (h1 & u1 & Hd1 & Ht1). exists h1, (push_line u1 text). split; [done|].
    by eapply core_prints.
  - by rewrite (at_sent _ _ _ _ _ _ _ _ Ht), (at_sent _ _ _ _ _ _ _ _ Ht').
  - by destruct HP as [-> _].
Qed.

Lemma power_dlab t : power t -> dlab (uart_after u0 t) = false.
Proof using. intros (h & c & s & u & Hd & Ht). by rewrite (at_uart _ _ _ _ _ _ _ _ Ht). Qed.

Lemma power_print text rest t :
  power t -> Forall (fun c => 0 < c < 256) text ->
  wp (print_uart dev fuel (text ++ 0 :: rest))
     (fun _ t' => power t' /\ (idle t -> idle t') /\ spi_sent t' = spi_sent t
        /\ line (uart_after u0 t') = line (uart_after u0 t) ++ text) t.
Proof using spi delays live enough.
  intros Ht HF. eapply wp_mono; [eapply print_uart_prints; try done; [apply enough_polls|by apply power_dlab]|].
  intros [] t' HP. by apply prints_power.
Qed.

Lemma power_print_bytes z m t :
  power t ->
  wp (foreach (reverse (seqZ 0 (Z.of_nat m)))
       (fun i => print_hex dev fuel (u8 (Z.land (Z.shiftr z (i * 8)) 0xff))))
     (fun _ t' => power t' /\ (idle t -> idle t') /\ spi_sent t' = spi_sent t
        /\ line (uart_after u0 t') = line (uart_after u0 t) ++ hex_text m z) t.
Proof using spi delays live enough.
  intros Ht. eapply wp_mono; [eapply print_bytes_prints; try done; [apply enough_polls|by apply power_dlab]|].
  intros [] t' HP. by apply prints_power.
Qed.

Lemma power_print_byte z t :
  power t -> 0 <= z < 256 ->
  wp (print_uart_byte dev fuel z)
     (fun _ t' => power t' /\ (idle t -> idle t') /\ spi_sent t' = spi_sent t
        /\ line (uart_after u0 t') = line (uart_after u0 t) ++ hex_byte z) t.
Proof using spi delays live enough.
  intros Ht Hz. eapply wp_mono; [eapply print_hex_prints; try done; [apply enough_polls|by apply power_dlab]|].
  intros [] t' HP. by apply prints_power.
Qed.

(** [spi_init] from any state with nothing in the FIFOs leaves the core running
    and the card deselected. *)
Lemma core_print text rest h c s u t :
  dlab u = false -> core h c s u t -> Forall (fun c => 0 < c < 256) text ->
  wp (print_uart dev fuel (text ++ 0 :: rest)) (fun _ t' => exists u', dlab u' = false /\ core h c s u' t') t.
Proof using spi delays live enough.
  intros Hd Ht HF. eapply wp_mono.
  - eapply print_uart_prints; try done; [apply enough_polls|by rewrite (at_uart _ _ _ _ _ _ _ _ Ht)].
  - intros [] t' HP. exists (push_line u text). split; [done|]. by eapply core_prints.
Qed.
Lemma core_print_addr z h c s u t :
  dlab u = false -> core h c s u t ->
  wp (print_uart_addr dev fuel z) (fun _ t' => exists u', dlab u' = false /\ core h c s u' t') t.
Proof using spi delays live enough.
  intros Hd Ht. eapply wp_mono.
  - eapply (print_bytes_prints dev) with (m := 8%nat); try done; [apply enough_polls|by rewrite (at_uart _ _ _ _ _ _ _ _ Ht)].
  - intros [] t' HP. eexists. split; [|by eapply core_prints]. done.
Qed.

Ltac init_print :=
  wp_call ltac:(first
    [ eapply core_print_addr; eassumption
    | unfold cstr; rewrite ?(assoc_L (++)); eapply core_print; [eassumption|eassumption|apply (bool_decide_unpack _); by vm_compute] ]);
  let u := fresh "u" in let Hd := fresh "Hd" in let H := fresh "H" in intros [] ? (u & Hd & H).
Ltac init_status :=
  wp_call ltac:(eapply load_status; eassumption); let H := fresh "H" in intros ? ? [_ H].

Lemma spi_init_idle t :
  power t -> wp (spi_init dev fuel) (fun _ t' => idle t' /\ spi_sent t' = spi_sent t) t.
Proof using spi delays live enough.
  intros (h & c & s & u & Hd & Ht). rewrite (at_sent _ _ _ _ _ _ _ _ Ht). unfold spi_init.
  init_print. wp_call ltac:(eapply store_reset; [exact spi|eassumption]). intros [] ? H1.
  wp_call ltac:(eapply store_control; [exact spi|eassumption|by left]). intros [] ? H2.
  init_status. do 3 init_print.
  wp_call ltac:(eapply store_control; [exact spi|eassumption|by left]). intros [] ? H7.
  init_status. do 3 init_print.
  wp_call ltac:(eapply store_control; [exact spi|eassumption|by left]). intros [] ? H12.
  eapply wp_mono.
  - rewrite ?(assoc_L (++)). eapply core_print; [|exact H12|apply (bool_decide_unpack _); by vm_compute]. assumption.
  - intros [] t' (u' & Hd' & H'). split; [|by apply (at_sent _ _ _ _ _ _ _ _ H')].
    exists h, u'. split; [done|exact H'].
Qed.

#[export] Instance mmio_board_spec : BoardSpec (mmio_board dev fuel) card.
Proof using spi delays live enough u0.
  refine {| powered := power; ready := idle; sent := spi_sent; console := fun t => line (uart_after u0 t) |}.
  - apply (spi_card_byte _ _ _ spi).
  - apply idle_powered.
  - intros s Hs. by apply spi_init_idle.
  - intros b s (h & u & Hd & Hs) Hb. rewrite (at_sent _ _ _ _ _ _ _ _ Hs), (at_uart _ _ _ _ _ _ _ _ Hs).
    eapply wp_mono; [eapply spi_txrx_exchanges; [exact spi|exact delays|lia|exact Hs|exact Hb]|]. intros r s' [-> Hs'].
    split_and!; [by exists (h ++ [b]), u|done|apply (at_sent _ _ _ _ _ _ _ _ Hs')|by rewrite (at_uart _ _ _ _ _ _ _ _ Hs')].
  - intros l len s (h & u & Hd & Hs) Hl Hpos Hlen. rewrite (at_sent _ _ _ _ _ _ _ _ Hs), (at_uart _ _ _ _ _ _ _ _ Hs). simpl.
    assert (len = Z.of_nat (length (take (Z.to_nat len) l))) as Hl'
      by (rewrite length_take; lia).
    eapply wp_ext; [apply spi_write_bytes_take|]. rewrite Hl' at 2.
    eapply wp_mono; [eapply spi_write_bytes_exchanges; [exact spi|exact delays|lia|exact Hs|by apply Forall_take|lia]|].
    + intros r s' [-> Hs']. split_and!;
        [by eexists _, u|done|apply (at_sent _ _ _ _ _ _ _ _ Hs')|by rewrite (at_uart _ _ _ _ _ _ _ _ Hs')].
  - intros text rest s Hs HF. by apply power_print.
  - intros z s Hs. by apply (power_print_bytes z 4).
  - intros z s Hs. by apply (power_print_bytes z 8).
  - intros z s Hs Hz. by apply power_print_byte.
Defined.
End Discharge.

(** ** Properties *)

(** A core and a UART that answer at once, in front of [card]: a byte goes out as
    soon as the core runs. *)
Fixpoint fast_shifted (t : trace) : nat :=
  match t with
  | [] => O
  | e :: t' => if running (spi_control t) (spi_select t) then length (spi_sent t) else fast_shifted t'
  end.
Definition spi_device (card : list Z -> Z) : device := fun t a =>
  if a =? SPI_STATUS_REG then (if (spi_taken t <? fast_shifted t)%nat then 0 else 1)
  else if a =? SPI_RECEIVE_REG then card (take (S (spi_taken t)) (spi_sent t))
  else if a =? @uart_lsr Fpga.uart_map then 0x60 else 0.

Lemma spi_sent_mono e t : (length (spi_sent t) <= length (spi_sent (e :: t)))%nat.
Proof.
  unfold spi_sent. rewrite !length_fmap. destruct e as [a v|a v|c v]; cbn [outputs]; [done| |done].
  destruct (a =? SPI_TRANSMIT_REG); [rewrite length_app; lia|done].
Qed.

Lemma fast_shifted_bound t : (fast_shifted t <= length (spi_sent t))%nat.
Proof.
  induction t as [|e t IH]; [simpl; lia|]. cbn [fast_shifted]. destruct (running _ _); [done|].
  pose proof (spi_sent_mono e t). lia.
Qed.

Lemma fast_delays : delays_suffice fast_shifted.
Proof.
  intros v t _ Hr. cbn [fast_shifted].
  destruct (running (spi_control (Wr SPI_CONTROL_REG v :: t)) _); [reflexivity|].
  destruct t as [|e t]; [done|]. cbn [fast_shifted]. by rewrite Hr.
Qed.

Lemma spi_device_ok card : (forall h, byte (card h)) -> axi_quad_spi (spi_device card) card fast_shifted.
Proof.
  intros Hcard. split; [done|apply fast_shifted_bound|..].
  - intros e t. cbn [fast_shifted]. destruct (running _ _); [|done].
    pose proof (fast_shifted_bound t). pose proof (spi_sent_mono e t). lia.
  - intros t _. unfold spi_device. simpl. by destruct (_ <? _)%nat.
  - intros t _ Ht. change (u8 (u32 (card (take (S (spi_taken t)) (spi_sent t)))) = card (take (S (spi_taken t)) (spi_sent t))).
    generalize (Hcard (take (S (spi_taken t)) (spi_sent t))).
    generalize (card (take (S (spi_taken t)) (spi_sent t))). unfold byte. intros c Hc.
    by rewrite u32_id, u8_id by lia.
Qed.

Lemma spi_device_live card : @uart_live Fpga.uart_map (spi_device card) 1.
Proof. intros t. exists O. split; [lia|done]. Qed.

(** A card that answers the complement of each byte. *)
Definition echo_card (h : list Z) : Z := 255 - u8 (List.last h 0).

Lemma echo_card_byte h : byte (echo_card h).
Proof. unfold echo_card, byte. pose proof (u8_range (List.last h 0)). lia. Qed.

(** On a core that behaves as its data sheet says, [spi_txrx] sends its
    byte and returns the card's answer to it; it takes from the receive FIFO
    exactly what it put in, so the next exchange starts from an empty one, with
    the core running again and the card deselected. *)
Theorem spi_txrx_returns_answer dev card shifted n fuel u0 b t :
  axi_quad_spi dev card shifted -> delays_suffice shifted -> @uart_live Fpga.uart_map dev n ->
  (257 * (n + 1) <= fuel)%nat -> spi_idle shifted u0 t -> byte b ->
  wp (spi_txrx dev fuel b)
     (fun r t' => r = card (spi_sent t ++ [b]) /\ spi_sent t' = spi_sent t ++ [b]
                  /\ spi_taken t' = length (spi_sent t') /\ spi_idle shifted u0 t'
                  /\ @uart_after Fpga.uart_map u0 t' = @uart_after Fpga.uart_map u0 t) t.
Proof.
  intros Hspi Hdel Hlive Hn (h & u & Hd & Ht) Hb. eapply wp_mono;
    [eapply spi_txrx_exchanges; [exact Hspi|exact Hdel|lia|exact Ht|exact Hb]|].
  intros r t' [-> Ht']. destruct Ht as [-> _ _ _ _ _ ->]. pose proof Ht' as [Hs Hk _ _ _ _ Hu].
  split_and!; [done|done|by rewrite Hk, Hs|by exists (h ++ [b]), u|done].
Qed.

(** The boot ROM's core after [spi_init]. *)
Definition spi_initialized : trace :=
  [Wr SPI_CONTROL_REG 0x06; Wr SPI_CONTROL_REG 0x166; Wr SPI_CONTROL_REG 0x104; Wr SPI_RESET_REG 0x0a].
Lemma spi_initialized_idle : spi_idle fast_shifted reset_uart spi_initialized.
Proof. exists [], reset_uart. split; [done|]. by split. Qed.

Example spi_txrx_returns_answer_witness :
  wp (spi_txrx (spi_device echo_card) 514 0x40)
     (fun r t' => r = 191 /\ spi_sent t' = [0x40]
                  /\ spi_taken t' = length (spi_sent t') /\ spi_idle fast_shifted reset_uart t'
                  /\ @uart_after Fpga.uart_map reset_uart t' = reset_uart) spi_initialized.
Proof.
  apply (spi_txrx_returns_answer (spi_device echo_card) echo_card fast_shifted 1 514 reset_uart 0x40 spi_initialized);
    [apply spi_device_ok, echo_card_byte|apply fast_delays|apply spi_device_live|lia
    |apply spi_initialized_idle|unfold byte; lia].
Defined.

(** [spi_write_bytes] exchanges a whole FIFO in one go: the bytes at [ret]
    are the card's answers to the bytes sent, one by one and in order, as 256
    calls of [spi_txrx] would give them; a length over the depth of the FIFO is
    refused with -1 before anything is touched. *)
Theorem spi_write_bytes_in_order dev card shifted n fuel u0 l len t :
  axi_quad_spi dev card shifted -> delays_suffice shifted -> @uart_live Fpga.uart_map dev n ->
  (257 * (n + 1) <= fuel)%nat -> spi_idle shifted u0 t -> bytes l -> len = Z.of_nat (length l) -> 0 < len ->
  wp (spi_write_bytes dev fuel l len)
     (fun r t' =>
        if len <=? 256 then
          r = (0, exchange card (spi_sent t) l) /\ spi_sent t' = spi_sent t ++ l
          /\ spi_taken t' = length (spi_sent t') /\ spi_idle shifted u0 t'
          /\ @uart_after Fpga.uart_map u0 t' = @uart_after Fpga.uart_map u0 t
        else r = (-1, []) /\ t' = t) t.
Proof.
  intros Hspi Hdel Hlive Hn (h & u & Hd & Ht) Hl -> Hpos. destruct (Z.leb_spec (Z.of_nat (length l)) 256).
  - eapply wp_mono; [eapply spi_write_bytes_exchanges; [exact Hspi|exact Hdel|lia|exact Ht|exact Hl|lia]|].
    intros r t' [-> Ht']. destruct Ht as [-> _ _ _ _ _ ->]. pose proof Ht' as [Hs Hk _ _ _ _ Hu].
    split_and!; [done|done|by rewrite Hk, Hs|by exists (h ++ l), u|done].
  - unfold spi_write_bytes. destruct (Z.ltb_spec 256 (Z.of_nat (length l))); [|lia].
    by apply wp_ret.
Qed.

Example spi_write_bytes_in_order_witness :
  wp (spi_write_bytes (spi_device echo_card) 514 [1; 2; 3] 3)
     (fun r t' => r = (0, [254; 253; 252]) /\ spi_sent t' = [1; 2; 3]
          /\ spi_taken t' = length (spi_sent t') /\ spi_idle fast_shifted reset_uart t'
          /\ @uart_after Fpga.uart_map reset_uart t' = reset_uart) spi_initialized.
Proof.
  apply (spi_write_bytes_in_order (spi_device echo_card) echo_card fast_shifted 1 514 reset_uart [1; 2; 3] 3 spi_initialized);
    [apply spi_device_ok, echo_card_byte|apply fast_delays|apply spi_device_live|lia|apply spi_initialized_idle
    |repeat constructor; lia|done|lia].
Defined.
