(* ===== verification/BootSd.v ===== *)
(** * The SD card driver of the boot ROM

    [fpga/src/bootrom/src/sd.c]: the commands of the SPI mode of an SD card and
    the multiple block read that fetches the boot image.  The driver is
    modelled over the operations of [Board] (BootSpi) and verified against what
    [BoardSpec] promises of them.  [sd_copy] stores to [dst] in order, without
    gaps; the model returns the bytes stored. *)

From Stdlib Require Import ZArith Lia String.
From stdpp Require Import base tactics list numbers.
From S2P Require Import Prelude Mmio BootUart BootSpi.

Definition SD_CMD_STOP_TRANSMISSION : Z := 12.
Definition SD_CMD_READ_BLOCK_MULTIPLE : Z := 18.
Definition SD_DATA_TOKEN : Z := 0xfe.
Definition SD_COPY_ERROR_CMD18 : Z := -1.
Definition SD_COPY_ERROR_CMD18_CRC : Z := -2.
Definition SD_INIT_ERROR_CMD0 : Z := -1.
Definition SD_INIT_ERROR_CMD8 : Z := -2.
Definition SD_INIT_ERROR_ACMD41 : Z := -3.

Definition crc7 (prev inp : Z) : Z :=
  let remainder := Z.land prev inp in
  let remainder := u8 (Z.lxor remainder
    (Z.lxor (Z.shiftr remainder 4) (Z.shiftr remainder 7))) in
  let remainder := u8 (Z.lxor remainder (Z.shiftl remainder 4)) in
  Z.land remainder 0x7f.

Definition crc16 (crc data : Z) : Z :=
  let crc := u16 (Z.lor (u8 (Z.shiftr crc 8)) (Z.shiftl crc 8)) in
  let crc := u16 (Z.lxor crc data) in
  let crc := u16 (Z.lxor crc (Z.land (u8 (Z.shiftr crc 4)) 0xf)) in
  let crc := u16 (Z.lxor crc (Z.shiftl crc 12)) in
  u16 (Z.lxor crc (Z.shiftl (Z.land crc 0xff) 5)).

Section Driver.
Context {S : Type} {B : Board S} (fuel : nat).

Definition sd_dummy : M S Z := board_txrx 0xFF.

Definition response_round (st : Z) : M S (Z + Z) :=
  r <- sd_dummy ;;
  if Z.land r 0x80 =? 0 then ret (inr r) else
  let n := st - 1 in
  ret (if 0 <? n then inl n else inr r).

Definition sd_cmd (cmd arg crc : Z) : M S Z :=
  sd_dummy ;;;
  board_txrx (u8 (Z.lor 0x40 cmd)) ;;;
  board_txrx (u8 (Z.shiftr arg 24)) ;;;
  board_txrx (u8 (Z.shiftr arg 16)) ;;;
  board_txrx (u8 (Z.shiftr arg 8)) ;;;
  board_txrx (u8 arg) ;;;
  board_txrx (u8 crc) ;;;
  loop fuel response_round 100.

Definition print_status (cmd : string) (response : Z) : M S unit :=
  board_print (cstr "SD command ") ;;;
  board_print (cstr cmd) ;;;
  board_print (string_bytes " " ++ tab ++ cstr "response : ") ;;;
  board_print_byte response ;;;
  board_print (crlf ++ [0]).

(** [None] is the early return of the loop. *)
Definition cmd0_round (st : Z * Z) : M S (Z * Z + option Z) :=
  let '(counter, r) := st in
  if negb (r =? 0x1) then
    r <- sd_cmd 0 0 0x95 ;;
    sd_dummy ;;;
    let counter := counter - 1 in
    ret (if counter <=? 0 then inr None else inl (counter, r))
  else ret (inr (Some r)).

Definition sd_cmd0 : M S Z :=
  o <- loop fuel cmd0_round (10000, 0xff) ;;
  match o with
  | None => ret 0
  | Some r => print_status "cmd0" r ;;; ret (if r =? 0x1 then 1 else 0)
  end.

Definition sd_cmd8 : M S Z :=
  r1 <- sd_cmd 8 0x1aa 0x87 ;;
  sd_dummy ;;;
  sd_dummy ;;;
  r4 <- sd_dummy ;;
  r5 <- sd_dummy ;;
  sd_dummy ;;;
  sd_dummy ;;;
  ret (if (r1 =? 0x1) && (Z.land r4 0xf =? 0x1) && (r5 =? 0xaa) then 1 else 0).

Definition sd_cmd55 : M S Z :=
  r <- sd_cmd 55 0x0 0x65 ;;
  sd_dummy ;;;
  print_status "cmd55" r ;;;
  ret (if r =? 0x1 then 1 else 0).

Definition acmd41_round (_ : unit) : M S (unit + Z) :=
  sd_cmd55 ;;;
  r <- sd_cmd 41 0x40000000 0x77 ;;
  print_status "cmd41" r ;;;
  sd_dummy ;;;
  ret (if r =? 0x1 then inl tt else inr r).

Definition sd_acmd41 : M S Z :=
  r <- loop fuel acmd41_round tt ;;
  ret (if r =? 0x00 then 1 else 0).

Definition init_sd : M S Z :=
  board_spi_init ;;;
  board_print (string_bytes "initializing SD... " ++ crlf ++ [0]) ;;;
  foreach (seqZ 0 10) (fun _ => sd_dummy ;;; ret tt) ;;;
  r <- sd_cmd0 ;;
  if r =? 0 then ret SD_INIT_ERROR_CMD0 else
  r <- sd_cmd8 ;;
  if r =? 0 then ret SD_INIT_ERROR_CMD8 else
  r <- sd_acmd41 ;;
  if r =? 0 then ret SD_INIT_ERROR_ACMD41 else
  ret 0.

Definition ff : list Z := replicate 128 0xff.

(** One round of the inner loop: 64 bytes are read to [p] and added to the
    checksum; [w] is what has been stored so far. *)
Definition copy_chunk (st : Z * Z * list Z) : M S (Z * Z * list Z + Z * list Z) :=
  let '(crc, n, w) := st in
  r <- board_write_bytes ff 64 ;;
  let '(_, p) := r in
  crc <- foldM (seqZ 0 64)
           (fun crc i => d <- of_option (p !! Z.to_nat i) ;; ret (crc16 crc d)) crc ;;
  let n := n - 64 in
  ret (if 0 <? n then inl (crc, n, w ++ p) else inr (crc, w ++ p)).

(** One round of the outer loop, past the wait for the token: the data of the
    block and its checksum. *)
Definition copy_data (i : Z) (w : list Z) : M S (Z * list Z + Z * list Z) :=
  r <- loop fuel copy_chunk (0, 512, w) ;;
  let '(crc, w) := r in
  hi <- sd_dummy ;;
  lo <- sd_dummy ;;
  let crc_exp := Z.lor (u16 (Z.shiftl hi 8)) lo in
  if negb (crc =? crc_exp) then ret (inr (SD_COPY_ERROR_CMD18_CRC, w)) else
  (if Z.rem i 1000 =? 0 then board_print (cstr ".") else ret tt) ;;;
  let i := i - 1 in
  ret (if 0 <? i then inl (i, w) else inr (0, w)).

Definition copy_block (st : Z * list Z) : M S (Z * list Z + Z * list Z) :=
  let '(i, w) := st in
  poll fuel (r <- sd_dummy ;; ret (negb (r =? SD_DATA_TOKEN))) ;;;
  copy_data i w.

(** Returns the status and the bytes stored at [dst]. *)
Definition sd_copy (src_lba size : Z) : M S (Z * list Z) :=
  let crc := 0 in
  let crc := crc7 crc (Z.lor 0x40 SD_CMD_READ_BLOCK_MULTIPLE) in
  let crc := crc7 crc (Z.land (Z.shiftr src_lba 24) 0xff) in
  let crc := crc7 crc (Z.land (Z.shiftr src_lba 16) 0xff) in
  let crc := crc7 crc (Z.land (Z.shiftr src_lba 8) 0xff) in
  let crc := crc7 crc (Z.land src_lba 0xff) in
  let crc := u8 (Z.lor (Z.shiftl crc 1) 1) in
  r <- sd_cmd 18 src_lba crc ;;
  if negb (r =? 0x00) then
    foreach (seqZ 0 8) (fun _ => sd_dummy ;;; ret tt) ;;;
    board_print (string_bytes "could not read SD block" ++ crlf ++ [0]) ;;;
    ret (-1, [])
  else
    r <- loop fuel copy_block (size, []) ;;
    let '(rc, w) := r in
    sd_cmd SD_CMD_STOP_TRANSMISSION 0 0x01 ;;;
    sd_dummy ;;;
    ret (rc, w).
End Driver.

(** ** The checksums

    [crc16] is compared with the textbook definition: the bits of the byte,
    most significant first, shifted through a 16-bit register with feedback
    polynomial x^16 + x^12 + x^5 + 1. *)

Definition crc_bit (crc : Z) (b : bool) : Z :=
  Z.lxor (Z.land (Z.shiftl crc 1) 0xffff)
         (if xorb (Z.testbit crc 15) b then 0x1021 else 0).

Definition msb_first (data : Z) : list bool :=
  Z.testbit data <$> [7; 6; 5; 4; 3; 2; 1; 0].

Definition crc_bits (crc : Z) (data : Z) : Z := foldl crc_bit crc (msb_first data).

(** The checksum of a whole block. *)
Definition crc16_of (l : list Z) : Z := foldl crc16 0 l.

(** Functions that respect exclusive or. *)
Definition linear (f : Z -> Z) : Prop := forall a b, f (Z.lxor a b) = Z.lxor (f a) (f b).

Lemma linear_id : linear (fun c => c).
Proof. done. Qed.

Lemma lxor_swap a b c d :
  Z.lxor (Z.lxor a b) (Z.lxor c d) = Z.lxor (Z.lxor a c) (Z.lxor b d).
Proof. rewrite !Z.lxor_assoc. f_equal. by rewrite <-!Z.lxor_assoc, (Z.lxor_comm b c). Qed.

Lemma linear_lxor f g : linear f -> linear g -> linear (fun c => Z.lxor (f c) (g c)).
Proof. intros Hf Hg a b. by rewrite Hf, Hg, lxor_swap. Qed.

Lemma linear_bits f (h : Z -> bool -> bool) (k : Z -> Z) :
  (forall a i, 0 <= i -> Z.testbit (f a) i = h i (Z.testbit a (k i))) ->
  (forall i x y, h i (xorb x y) = xorb (h i x) (h i y)) ->
  linear f.
Proof.
  intros Hf Hh a b. apply Z.bits_inj'. intros i Hi.
  by rewrite Z.lxor_spec, !Hf, Z.lxor_spec, Hh by done.
Qed.

Lemma linear_shiftl n : 0 <= n -> linear (fun c => Z.shiftl c n).
Proof.
  intros Hn. apply (linear_bits _ (fun _ x => x) (fun i => i - n)); [|done].
  intros. by rewrite Z.shiftl_spec.
Qed.

Lemma linear_shiftr n : 0 <= n -> linear (fun c => Z.shiftr c n).
Proof.
  intros Hn. apply (linear_bits _ (fun _ x => x) (fun i => i + n)); [|done].
  intros. by rewrite Z.shiftr_spec.
Qed.

Lemma linear_land m : linear (fun c => Z.land c m).
Proof.
  apply (linear_bits _ (fun i x => x && Z.testbit m i) (fun i => i)).
  - intros. by rewrite Z.land_spec.
  - intros i [] [] ; by destruct (Z.testbit m i).
Qed.

Lemma u16_land c : u16 c = Z.land c 0xffff.
Proof. symmetry. by apply (Z.land_ones c 16). Qed.
Lemma u8_land c : u8 c = Z.land c 0xff.
Proof. symmetry. by apply (Z.land_ones c 8). Qed.

Lemma linear_comp f g : linear f -> linear g -> linear (fun c => f (g c)).
Proof. intros Hf Hg a b. by rewrite Hg, Hf. Qed.

Lemma linear_u16 f : linear f -> linear (fun c => u16 (f c)).
Proof.
  intros Hf a b. rewrite !u16_land, Hf. apply linear_land.
Qed.

Lemma linear_u8 f : linear f -> linear (fun c => u8 (f c)).
Proof.
  intros Hf a b. rewrite !u8_land, Hf. apply linear_land.
Qed.

Lemma linear_foldl {X} (f : Z -> X -> Z) l :
  (forall x, linear (fun c => f c x)) -> linear (fun c => foldl f c l).
Proof.
  intros Hf a b. revert a b. induction l as [|x l IH]; intros a b; [done|]. simpl.
  by rewrite (Hf x), IH.
Qed.

(** The bytes of the register change places. *)
Lemma swap_bytes c :
  Z.lor (u8 (Z.shiftr c 8)) (Z.shiftl c 8) = Z.lxor (u8 (Z.shiftr c 8)) (Z.shiftl c 8).
Proof.
  symmetry. apply Z.lxor_lor, Z.bits_inj'. intros i Hi.
  rewrite u8_land, !Z.land_spec, Z.shiftl_spec, Z.bits_0 by done.
  destruct (Z.ltb_spec i 8).
  - by rewrite (Z.testbit_neg_r c (i - 8)), andb_false_r by lia.
  - change 0xff with (Z.ones 8). by rewrite Z.ones_spec_high, andb_false_r by lia.
Qed.

(** [crc16] with the data folded into the register. *)
Definition crc16_core (x : Z) : Z :=
  let crc := u16 (Z.lxor x (Z.land (u8 (Z.shiftr x 4)) 0xf)) in
  let crc := u16 (Z.lxor crc (Z.shiftl crc 12)) in
  u16 (Z.lxor crc (Z.shiftl (Z.land crc 0xff) 5)).

Lemma crc16_unfold crc data :
  crc16 crc data
  = crc16_core (u16 (Z.lxor (u16 (Z.lxor (u8 (Z.shiftr crc 8)) (Z.shiftl crc 8))) data)).
Proof. unfold crc16. by rewrite swap_bytes. Qed.

Create HintDb linear discriminated.
#[export] Hint Resolve linear_id linear_lxor linear_u16 linear_u8 : linear.

Lemma crc16_core_linear : linear crc16_core.
Proof.
  unfold crc16_core. apply linear_u16, linear_lxor.
  2: apply (linear_comp (fun x => Z.shiftl x 5)); [by apply linear_shiftl|].
  2: apply (linear_comp (fun x => Z.land x 255)); [apply linear_land|].
  all: apply linear_u16, linear_lxor.
  2, 4: apply (linear_comp (fun x => Z.shiftl x 12)); [by apply linear_shiftl|].
  all: apply linear_u16, linear_lxor; [apply linear_id|].
  all: apply (linear_comp (fun x => Z.land x 15)); [apply linear_land|].
  all: apply linear_u8; by apply linear_shiftr.
Qed.

Lemma crc16_linear a b d e :
  crc16 (Z.lxor a b) (Z.lxor d e) = Z.lxor (crc16 a d) (crc16 b e).
Proof.
  rewrite !crc16_unfold, <-crc16_core_linear. f_equal.
  pose proof (linear_u16 _ linear_id) as H16. pose proof (linear_u8 _ linear_id) as H8.
  cbv beta in H16, H8.
  rewrite <-H16, (linear_shiftl 8), (linear_shiftr 8), H8 by done. f_equal.
  by rewrite (lxor_swap (u8 _)), H16, (lxor_swap (u16 _)).
Qed.

Lemma crc_bit_linear a b x y :
  crc_bit (Z.lxor a b) (xorb x y) = Z.lxor (crc_bit a x) (crc_bit b y).
Proof.
  unfold crc_bit. rewrite (linear_shiftl 1), (linear_land 0xffff), Z.lxor_spec, lxor_swap by done.
  f_equal. by destruct (Z.testbit a 15), (Z.testbit b 15), x, y.
Qed.

Lemma crc_bits_linear a b d e :
  crc_bits (Z.lxor a b) (Z.lxor d e) = Z.lxor (crc_bits a d) (crc_bits b e).
Proof.
  unfold crc_bits, msb_first. generalize [7; 6; 5; 4; 3; 2; 1; 0]. intros l.
  revert a b. induction l as [|k l IH]; intros a b; simpl; [done|].
  by rewrite Z.lxor_spec, crc_bit_linear, IH.
Qed.

Lemma split_word c :
  0 <= c < 65536 ->
  exists hi lo, byte hi /\ byte lo /\ c = Z.lxor (Z.shiftl hi 8) lo.
Proof.
  intros Hc. exists (c / 256), (c mod 256). unfold byte. split_and!; try divlia.
  change 256 with (2 ^ 8). apply Z.bits_inj'. intros i Hi.
  rewrite Z.lxor_spec, Z.shiftl_spec by done. destruct (Z.ltb_spec i 8).
  - by rewrite Z.mod_pow2_bits_low, (Z.testbit_neg_r _ (i - 8)), xorb_false_l by lia.
  - rewrite Z.mod_pow2_bits_high, Z.div_pow2_bits, xorb_false_r by lia. f_equal. lia.
Qed.

Lemma crc16_check :
  forallb (fun z => (crc16 (Z.shiftl z 8) 0 =? crc_bits (Z.shiftl z 8) 0)
                    && (crc16 z 0 =? crc_bits z 0) && (crc16 0 z =? crc_bits 0 z)
                    && (crc16 0 z =? crc16 (Z.shiftl z 8) 0)
                    && (crc16 z 0 =? Z.shiftl z 8)
                    && (negb (u8 (crc16 0 z) =? 0) || (z =? 0))) (seqZ 0 256) = true.
Proof. by vm_compute. Qed.

Lemma crc16_tables z :
  byte z ->
  crc16 (Z.shiftl z 8) 0 = crc_bits (Z.shiftl z 8) 0 /\ crc16 z 0 = crc_bits z 0
  /\ crc16 0 z = crc_bits 0 z /\ crc16 0 z = crc16 (Z.shiftl z 8) 0
  /\ crc16 z 0 = Z.shiftl z 8 /\ (u8 (crc16 0 z) = 0 -> z = 0).
Proof.
  intros Hz. pose proof (check_below _ _ crc16_check z Hz) as H. cbv beta in H.
  rewrite !andb_true_iff, orb_true_iff, negb_true_iff, !Z.eqb_eq, Z.eqb_neq in H.
  destruct H as [[[[[? ?] ?] ?] ?] [?|?]]; by split_and!.
Qed.

Lemma crc16_data crc d : crc16 crc d = Z.lxor (crc16 crc 0) (crc16 0 d).
Proof. by rewrite <-crc16_linear, Z.lxor_0_r, Z.lxor_0_l. Qed.

Lemma crc16_crc_bits crc d : 0 <= crc < 65536 -> byte d -> crc16 crc d = crc_bits crc d.
Proof.
  intros Hc Hd. destruct (split_word crc Hc) as (hi & lo & Hhi & Hlo & ->).
  replace d with (Z.lxor (Z.lxor 0 0) d) by done.
  rewrite <-(Z.lxor_0_r (Z.lxor _ lo)), !crc16_linear, !crc_bits_linear.
  destruct (crc16_tables hi Hhi) as (-> & _), (crc16_tables lo Hlo) as (_ & -> & _),
    (crc16_tables d Hd) as (_ & _ & -> & _). done.
Qed.

Lemma crc16_range crc d : 0 <= crc16 crc d < 65536.
Proof. unfold crc16. apply u16_range. Qed.

Lemma crc16_of_range l : 0 <= crc16_of l < 65536.
Proof.
  unfold crc16_of. destruct l as [|x l _] using rev_ind; simpl; [lia|].
  rewrite foldl_snoc. apply crc16_range.
Qed.

Lemma lxor_word a b : 0 <= a < 65536 -> 0 <= b < 65536 -> 0 <= Z.lxor a b < 65536.
Proof.
  intros Ha Hb. rewrite <-(u16_id a), <-(u16_id b) by done.
  rewrite <-(linear_u16 _ linear_id a b). apply u16_range.
Qed.

Lemma shiftl8_word e : byte e -> 0 <= Z.shiftl e 8 < 65536.
Proof. unfold byte. rewrite Z.shiftl_mul_pow2 by done. lia. Qed.

(** No register but 0 is sent to 0 by a zero byte. *)
Lemma crc16_kernel a : 0 <= a < 65536 -> crc16 a 0 = 0 -> a = 0.
Proof.
  intros Ha H0. destruct (split_word a Ha) as (hi & lo & Hhi & Hlo & ->).
  change 0 with (Z.lxor 0 0) in H0 at 1. rewrite crc16_linear in H0.
  apply Z.lxor_eq in H0.
  destruct (crc16_tables hi Hhi) as (_ & _ & _ & Ht & _ & Hz).
  destruct (crc16_tables lo Hlo) as (_ & _ & _ & _ & Hl & _).
  rewrite <-Ht, Hl in H0.
  assert (hi = 0) as ->.
  { apply Hz. rewrite H0, Z.shiftl_mul_pow2 by done. unfold u8. divlia. }
  rewrite Z.shiftl_mul_pow2 in H0 by done. change (crc16 0 0) with 0 in H0.
  assert (lo = 0) as -> by lia. done.
Qed.

Lemma crc16_injective crc crc' d :
  0 <= crc < 65536 -> 0 <= crc' < 65536 -> crc16 crc d = crc16 crc' d -> crc = crc'.
Proof.
  intros Hc Hc' H. apply Z.lxor_eq, crc16_kernel; [by apply lxor_word|].
  replace (crc16 (Z.lxor crc crc') 0) with (crc16 (Z.lxor crc crc') (Z.lxor d d))
    by (by rewrite Z.lxor_nilpotent).
  rewrite crc16_linear, H. apply Z.lxor_nilpotent.
Qed.

Lemma crc16_pair s x1 x2 y1 y2 :
  byte x1 -> byte x2 -> byte y1 -> byte y2 ->
  crc16 (crc16 s x1) x2 = crc16 (crc16 s y1) y2 -> x1 = y1 /\ x2 = y2.
Proof.
  intros Hx1 Hx2 Hy1 Hy2 H.
  assert (forall x y, byte x -> byte y -> byte (Z.lxor x y)) as Hbyte.
  { intros x y Hx Hy. rewrite <-(u8_id x), <-(u8_id y) by done.
    rewrite <-(linear_u8 _ linear_id x y). apply u8_range. }
  assert (crc16 (crc16 0 (Z.lxor x1 y1)) (Z.lxor x2 y2) = 0) as H0.
  { replace 0 with (Z.lxor s s) at 1 by apply Z.lxor_nilpotent. rewrite !crc16_linear, H. apply Z.lxor_nilpotent. }
  specialize (Hbyte x1 y1 Hx1 Hy1) as He1. specialize (Hbyte x2 y2 Hx2 Hy2) as He2.
  destruct (crc16_tables _ He2) as (_ & _ & _ & Ht & _).
  destruct (crc16_tables _ He1) as (_ & _ & _ & _ & _ & Hz).
  rewrite crc16_data, Ht, <-crc16_linear in H0.
  apply crc16_kernel in H0; [|apply lxor_word; [apply crc16_range|by apply shiftl8_word]].
  apply Z.lxor_eq in H0.
  assert (Z.lxor x1 y1 = 0) as E1.
  { apply Hz. rewrite H0, Z.shiftl_mul_pow2 by done. unfold u8. divlia. }
  rewrite E1 in H0. change (crc16 0 0) with 0 in H0.
  rewrite Z.shiftl_mul_pow2 in H0 by done.
  split; apply Z.lxor_eq; [done|lia].
Qed.

Lemma crc7_zero inp : crc7 0 inp = 0.
Proof. unfold crc7. by rewrite Z.land_0_l. Qed.

(** ** The commands, against what the board promises *)

(** The bytes of a command. *)
Definition frame (cmd arg crc : Z) : list Z :=
  [0xff; u8 (Z.lor 0x40 cmd); u8 (Z.shiftr arg 24); u8 (Z.shiftr arg 16); u8 (Z.shiftr arg 8);
   u8 arg; u8 crc].

Definition dummies (n : nat) : list Z := replicate n 0xff.

Lemma dummies_length n : length (dummies n) = n.
Proof. apply length_replicate. Qed.
Lemma dummies_S n : dummies (1 + n) = dummies n ++ [0xff].
Proof. apply replicate_S_end. Qed.
Lemma dummies_add m n : dummies (m + n) = dummies m ++ dummies n.
Proof. apply replicate_add. Qed.

Lemma dummies_snoc h n : (h ++ dummies n) ++ [0xff] = h ++ dummies (1 + n).
Proof. by rewrite <-(assoc_L (++)), <-dummies_S. Qed.

(** [reply card h k r]: [sd_cmd] ends on the [k]-th byte after [h]: the first
    one with bit 7 clear, or the hundredth. *)
Definition busy (r : Z) : bool := negb (Z.land r 0x80 =? 0).

Definition reply (card : list Z -> Z) (h : list Z) (k : nat) (r : Z) : Prop :=
  (1 <= k <= 100)%nat /\ r = card (h ++ dummies k)
  /\ (forall j, (1 <= j < k)%nat -> busy (card (h ++ dummies j)) = true)
  /\ (busy r = false \/ k = 100%nat).

Lemma reply_det card h k r k' r' :
  reply card h k r -> reply card h k' r' -> k = k' /\ r = r'.
Proof.
  intros (Hk & -> & Hb & Hlast) (Hk' & -> & Hb' & Hlast').
  assert (k = k') as ->; [|done].
  destruct (lt_eq_lt_dec k k') as [[Hlt| ->]|Hlt]; [|done|].
  - destruct Hlast as [Hc| ->]; [|lia]. rewrite Hb' in Hc; [done|lia].
  - destruct Hlast' as [Hc| ->]; [|lia]. rewrite Hb in Hc; [done|lia].
Qed.

Section At.
Context {S : Type} {B : Board S} {card : list Z -> Z} {spec : BoardSpec B card}.

(** The card has been sent [h] and the board waits for the next call; or the
    board has only been powered up. *)
Definition at_ (h : list Z) (s : S) : Prop := ready s /\ sent s = h.
Definition off_ (h : list Z) (s : S) : Prop := powered s /\ sent s = h.

Lemma txrx_at b h s :
  at_ h s -> byte b ->
  wp (board_txrx b) (fun r s' => r = card (h ++ [b]) /\ at_ (h ++ [b]) s') s.
Proof.
  intros [Hr Hs] Hb. eapply wp_mono; [by apply txrx_spec|].
  intros r s' (?&->&Hs'&_). rewrite Hs in *. done.
Qed.

Lemma dummy_at h s :
  at_ h s ->
  wp sd_dummy (fun r s' => r = card (h ++ [0xff]) /\ at_ (h ++ [0xff]) s') s.
Proof. intros Hs. apply txrx_at; [done|unfold byte; lia]. Qed.

Lemma print_at text rest h s :
  at_ h s -> Forall (fun c => 0 < c < 256) text ->
  wp (board_print (text ++ 0 :: rest)) (fun _ s' => at_ h s') s.
Proof.
  intros [Hr Hs] HF. eapply wp_mono; [by apply print_spec; [apply ready_powered|]|].
  intros [] s' (?&Hr'&?&_). split; [by apply Hr'|congruence].
Qed.

Lemma print_off text rest h s :
  off_ h s -> Forall (fun c => 0 < c < 256) text ->
  wp (board_print (text ++ 0 :: rest)) (fun _ s' => off_ h s') s.
Proof.
  intros [Hr Hs] HF. eapply wp_mono; [by apply print_spec|].
  intros [] s' (?&_&?&_). split; [done|congruence].
Qed.

Lemma print_byte_at z h s :
  at_ h s -> byte z -> wp (board_print_byte z) (fun _ s' => at_ h s') s.
Proof.
  intros [Hr Hs] Hz. eapply wp_mono; [by apply print_byte_spec; [apply ready_powered|]|].
  intros [] s' (?&Hr'&?&_). split; [by apply Hr'|congruence].
Qed.

Lemma print_addr_at z h s :
  at_ h s -> wp (board_print_addr z) (fun _ s' => at_ h s') s.
Proof.
  intros [Hr Hs]. eapply wp_mono; [by apply print_addr_spec, ready_powered|].
  intros [] s' (?&Hr'&?&_). split; [by apply Hr'|congruence].
Qed.

Lemma print_int_at z h s :
  at_ h s -> wp (board_print_int z) (fun _ s' => at_ h s') s.
Proof.
  intros [Hr Hs]. eapply wp_mono; [by apply print_int_spec, ready_powered|].
  intros [] s' (?&Hr'&?&_). split; [by apply Hr'|congruence].
Qed.

Lemma spi_init_at h s : off_ h s -> wp board_spi_init (fun _ s' => at_ h s') s.
Proof.
  intros [Hr Hs]. eapply wp_mono; [by apply spi_init_spec|].
  intros [] s' (?&?). split; [done|congruence].
Qed.

End At.

(** A call that exchanges nothing, and one that sends a byte. *)
Ltac print_step :=
  wp_call ltac:(first
    [ by apply print_addr_at | by apply print_int_at | by apply spi_init_at
    | by apply print_byte_at
    | unfold cstr; rewrite ?(assoc_L (++)); apply print_at; [done|apply (bool_decide_unpack _); by vm_compute] ]).
Ltac send_step :=
  wp_call ltac:(first [apply dummy_at | apply txrx_at; [|apply u8_range]]; eassumption).

Section Spec.
Context {S : Type} {B : Board S} {card : list Z -> Z} {spec : BoardSpec B card}.
Context (fuel : nat).

Lemma response_at h s :
  at_ h s -> (100 <= fuel)%nat ->
  wp (loop fuel response_round 100)
     (fun r s' => exists k, reply card h k r /\ at_ (h ++ dummies k) s') s.
Proof.
  intros Hs Hf.
  apply (wp_loop _ (fun n s => exists j, n = 100 - Z.of_nat j /\ (j < 100)%nat
      /\ at_ (h ++ dummies j) s
      /\ forall i, (1 <= i <= j)%nat -> busy (card (h ++ dummies i)) = true)
    _ (fun n _ => Z.to_nat (n - 1))).
  - exists O. split_and!; [done|lia|by rewrite app_nil_r|lia].
  - lia.
  - clear s Hs. intros n s (j & -> & Hj & Hs & Hb). unfold response_round.
    send_step. intros r s' [Hr Hs']. rewrite <-(assoc_L (++)), <-dummies_S in Hr, Hs'.
    destruct (Z.land r 0x80 =? 0) eqn:E; [|destruct (Z.ltb_spec 0 (100 - Z.of_nat j - 1))];
      apply wp_ret.
    2: { split; [|lia]. exists (1 + j)%nat. split_and!; [lia|lia|done|].
         intros i Hi. destruct (decide (i = 1 + j)%nat) as [->|]; [|apply Hb; lia].
         unfold busy. by rewrite <-Hr, E. }
    all: exists (1 + j)%nat; split; [|done]; unfold reply, busy; rewrite E.
    all: split_and!; [lia|lia|done|intros; apply Hb; lia|].
    + by left.
    + right; lia.
Qed.

Lemma sd_cmd_at cmd arg crc h s :
  at_ h s -> (100 <= fuel)%nat ->
  wp (sd_cmd fuel cmd arg crc)
     (fun r s' => exists k, reply card (h ++ frame cmd arg crc) k r
                  /\ at_ (h ++ frame cmd arg crc ++ dummies k) s') s.
Proof.
  intros Hs Hf. unfold sd_cmd.
  do 7 (send_step; intros ? ? [_ ?Hs]).
  rewrite <-!(assoc_L (++)) in Hs6. simpl in Hs6.
  eapply wp_mono; [by apply response_at|]. intros r t (k & Hr & Ht).
  rewrite <-(assoc_L (++)) in Ht. by exists k.
Qed.

(** A command whose reply is known. *)
Lemma sd_cmd_reply cmd arg crc k r h s :
  reply card (h ++ frame cmd arg crc) k r -> at_ h s -> (100 <= fuel)%nat ->
  wp (sd_cmd fuel cmd arg crc)
     (fun r' s' => r' = r /\ at_ (h ++ frame cmd arg crc ++ dummies k) s') s.
Proof.
  intros Hr Hs Hf. eapply wp_mono; [by apply sd_cmd_at|].
  intros r' s' (k' & Hr' & Hs'). by destruct (reply_det _ _ _ _ _ _ Hr Hr') as [-> ->].
Qed.

Lemma reply_byte h k r : reply card h k r -> byte r.
Proof. intros (_ & -> & _). apply card_byte. Qed.

Lemma print_status_at cmd r h s :
  at_ h s -> byte r -> Forall (fun c => 0 < c < 256) (string_bytes cmd) ->
  wp (print_status cmd r) (fun _ s' => at_ h s') s.
Proof.
  intros Hs Hr HF. unfold print_status.
  print_step. intros [] s1 Hs1.
  wp_call ltac:(by apply print_at). intros [] s2 Hs2.
  print_step. intros [] s3 Hs3.
  print_step. intros [] s4 Hs4.
  by apply print_at; [|apply (bool_decide_unpack _)].
Qed.

Lemma dummy_loop n h s :
  at_ h s ->
  wp (foreach (seqZ 0 (Z.of_nat n)) (fun _ => sd_dummy ;;; ret tt))
     (fun _ s' => at_ (h ++ dummies n) s') s.
Proof.
  intros Hs. eapply wp_mono.
  - apply (wp_foreach _ _ (fun done s' => at_ (h ++ dummies (length done)) s')).
    + by rewrite app_nil_r.
    + intros done x todo s' _ Hs'. send_step. intros r s'' [_ Hs'']. apply wp_ret.
      rewrite length_app, Nat.add_1_r. change (Datatypes.S (length done)) with (1 + length done)%nat.
      by rewrite dummies_S, (assoc_L (++)).
  - intros [] s'. by rewrite length_seqZ, Nat2Z.id.
Qed.

(** ** Reading blocks *)

(** The card answers [l] to dummy bytes sent after [h]. *)
Definition streams (h l : list Z) : Prop := exchange card h (dummies (length l)) = l.

Lemma streams_app h l1 l2 :
  streams h (l1 ++ l2) <-> streams h l1 /\ streams (h ++ dummies (length l1)) l2.
Proof using.
  unfold streams. rewrite length_app, dummies_add, exchange_app. split.
  - intros H. apply app_inj_1 in H; [done|].
    by rewrite exchange_length, dummies_length.
  - by intros [-> ->].
Qed.

Lemma streams_cons h x l :
  streams h (x :: l) <-> card (h ++ [0xff]) = x /\ streams (h ++ [0xff]) l.
Proof using. change (x :: l) with ([x] ++ l). rewrite streams_app. unfold streams. simpl.
  split; [intros [[= ?] ?]; done|by intros [-> ?]].
Qed.

Lemma streams_exchange h n : streams h (exchange card h (dummies n)).
Proof using. unfold streams. by rewrite exchange_length, dummies_length. Qed.

Lemma crc_loop_run (p : list Z) crc (s : S) :
  wp (foldM (seqZ 0 (Z.of_nat (length p)))
       (fun crc i => d <- of_option (p !! Z.to_nat i) ;; ret (crc16 crc d)) crc)
     (fun r s' => r = foldl crc16 crc p /\ s' = s) s.
Proof using.
  eapply wp_mono.
  - apply (wp_foldM _ _ (fun done r s' => r = foldl crc16 crc (take (length done) p) /\ s' = s)).
    + done.
    + intros done x todo r s' Hsplit [-> ->].
      assert (x = Z.of_nat (length done) /\ (length done < length p)%nat) as [-> Hlt].
      { assert (seqZ 0 (Z.of_nat (length p)) !! length done = Some x) as Hx
          by (rewrite Hsplit; by apply list_lookup_middle).
        apply lookup_seqZ in Hx. clear -Hx. lia. }
      rewrite Nat2Z.id. destruct (lookup_lt_is_Some_2 p (length done) Hlt) as [b Hb].
      rewrite Hb. apply wp_bind, wp_ret, wp_ret.
      rewrite length_app. simpl. by rewrite Nat.add_1_r, (take_S_r _ _ _ Hb), foldl_snoc.
  - intros r s'. by rewrite length_seqZ, Nat2Z.id, firstn_all.
Qed.

Lemma chunks_at w h s :
  at_ h s -> (8 <= fuel)%nat ->
  let d := exchange card h (dummies 512) in
  wp (loop fuel copy_chunk (0, 512, w))
     (fun r s' => r = (crc16_of d, w ++ d) /\ at_ (h ++ dummies 512) s') s.
Proof using spec.
  intros Hs Hf d.
  apply (wp_loop _ (fun st s => exists j d', (j < 8)%nat /\ d' = exchange card h (dummies (64 * j))
      /\ st = (crc16_of d', 512 - 64 * Z.of_nat j, w ++ d') /\ at_ (h ++ dummies (64 * j)) s)
    _ (fun st _ => Z.to_nat (snd (fst st) / 64 - 1))).
  { exists O, []. rewrite !app_nil_r. split_and!; [lia|done..]. }
  { change (7 < fuel)%nat. lia. }
  clear s Hs. intros st s (j & d' & Hj & Hd & -> & Hr & Hs). unfold copy_chunk. apply wp_bind.
  eapply wp_mono; [apply write_bytes_spec; try done|].
  { by apply (bool_decide_unpack _); vm_compute. }
  intros r s' (Hr' & -> & Hs' & _).
  change (take (Z.to_nat 64) ff) with (dummies 64) in *. rewrite Hs in *.
  set (p := exchange card (h ++ dummies (64 * j)) (dummies 64)).
  assert (length p = 64%nat) as Hp by (unfold p; by rewrite exchange_length).
  assert (exchange card h (dummies (64 * (1 + j))) = d' ++ p) as Hnext.
  { replace (64 * (1 + j))%nat with (64 * j + 64)%nat by lia.
    by rewrite dummies_add, exchange_app, Hd. }
  apply wp_bind. eapply wp_mono.
  { change 64 with (Z.of_nat 64) at 1. rewrite <-Hp. apply crc_loop_run. }
  intros crc s'' [-> ->]. apply wp_ret.
  assert (at_ (h ++ dummies (64 * (1 + j))) s') as Hat.
  { split; [done|]. rewrite Hs', <-(assoc_L (++)), <-dummies_add. do 2 f_equal. lia. }
  assert (foldl crc16 (crc16_of d') p = crc16_of (d' ++ p)) as ->
    by (unfold crc16_of; by rewrite foldl_app).
  rewrite <-(assoc_L (++)), <-Hnext.
  destruct (Z.ltb_spec 0 (512 - 64 * Z.of_nat j - 64)).
  - split; [|clear -H Hj; simpl; divlia].
    exists (1 + j)%nat, (exchange card h (dummies (64 * (1 + j)))).
    split_and!; [lia|done| |apply Hat..]. do 2 f_equal. lia.
  - replace (1 + j)%nat with 8%nat in * by lia. done.
Qed.

Lemma lor_word hi lo : byte hi -> byte lo -> Z.lor (u16 (Z.shiftl hi 8)) lo = hi * 256 + lo.
Proof using.
  intros Hhi Hlo. rewrite u16_id by (by apply shiftl8_word). unfold byte in *.
  change 256 with (2 ^ 8) in *. apply Z.bits_inj'. intros i Hi.
  rewrite Z.lor_spec, Z.shiftl_spec by done. destruct (Z.ltb_spec i 8).
  - rewrite (Z.testbit_neg_r hi (i - 8)), orb_false_l by lia.
    rewrite <-(Z.mod_pow2_bits_low (hi * 2 ^ 8 + lo) 8 i) by lia.
    by rewrite Z.add_comm, Z.mod_add, Z.mod_small by lia.
  - replace (Z.testbit lo i) with false.
    + rewrite orb_false_r. replace i with (i - 8 + 8) at 2 by lia.
      rewrite <-Z.div_pow2_bits by lia.
      rewrite Z.div_add_l, Z.div_small, Z.add_0_r by lia. done.
    + rewrite <-(Z.mod_small lo (2 ^ 8)) by lia. by rewrite Z.mod_pow2_bits_high by lia.
Qed.

(** A block as it travels: what the card answers before the token, the data,
    and the checksum. *)
Record packet := { gap : list Z; data : list Z; check : Z }.

Definition wire (p : packet) : list Z :=
  gap p ++ SD_DATA_TOKEN :: data p ++ [check p / 256; check p mod 256].

Definition well_formed (p : packet) : Prop :=
  Forall (fun b => b <> SD_DATA_TOKEN) (gap p) /\ length (data p) = 512%nat
  /\ 0 <= check p < 65536.

Definition intact (p : packet) : bool := crc16_of (data p) =? check p.

(** What one round makes of a packet. *)
Definition after_packet (i : Z) (w : list Z) (p : packet) : Z * list Z + Z * list Z :=
  if intact p then
    if 0 <? i - 1 then inl (i - 1, w ++ data p) else inr (0, w ++ data p)
  else inr (SD_COPY_ERROR_CMD18_CRC, w ++ data p).

Lemma data_at h g i w s :
  at_ h s -> (8 <= fuel)%nat ->
  wp (copy_data fuel i w)
     (fun r s' => exists p, gap p = g /\ length (data p) = 512%nat /\ 0 <= check p < 65536
        /\ streams h (data p ++ [check p / 256; check p mod 256])
        /\ r = after_packet i w p /\ at_ (h ++ dummies 514) s') s.
Proof using spec.
  intros Hs Hf. unfold copy_data.
  wp_call ltac:(by apply chunks_at). intros r s1 [-> Hs1].
  send_step. intros hi s2 [Hhi Hs2]. send_step. intros lo s3 [Hlo Hs3].
  rewrite dummies_snoc in Hhi, Hs2, Hlo, Hs3. rewrite dummies_snoc in Hlo, Hs3.
  set (d := exchange card h (dummies 512)).
  assert (length d = 512%nat) as Hd by (unfold d; by rewrite exchange_length).
  assert (streams h d) as Hsd by apply streams_exchange. clearbody d.
  assert (byte hi /\ byte lo) as [Bhi Blo] by (rewrite Hhi, Hlo; split; apply card_byte).
  rewrite lor_word by done.
  set (p := {| gap := g; data := d; check := hi * 256 + lo |}).
  assert (check p / 256 = hi /\ check p mod 256 = lo /\ 0 <= check p < 65536) as (E1 & E2 & E3)
    by (unfold byte in *; simpl; clear -Bhi Blo; split_and!; divlia).
  assert (streams h (data p ++ [check p / 256; check p mod 256])) as Hst.
  { rewrite E1, E2. apply streams_app. cbn [data p]. split; [done|].
    rewrite Hd, !streams_cons, !dummies_snoc. by split_and!. }
  assert (length (data p) = 512%nat) as Hlen by done.
  destruct (crc16_of d =? hi * 256 + lo) eqn:E; cbn [negb].
  - assert (forall s', at_ (h ++ dummies 514) s' ->
      wp (ret (S:=S) (if 0 <? i - 1 then inl (i - 1, w ++ d) else inr (0, w ++ d)))
        (fun r s' => exists p, gap p = g /\ length (data p) = 512%nat /\ 0 <= check p < 65536
        /\ streams h (data p ++ [check p / 256; check p mod 256])
        /\ r = after_packet i w p /\ at_ (h ++ dummies 514) s') s') as Hend.
    { intros s' Hs'. apply wp_ret. exists p. split_and!; [done|exact Hlen|apply E3..|exact Hst| |eassumption].
      unfold after_packet, intact. simpl. by rewrite E. }
    destruct (Z.rem i 1000 =? 0); [print_step; intros [] s4 Hs4|apply wp_bind, wp_ret];
      by apply Hend.
  - apply wp_ret. exists p. split_and!; [done|exact Hlen|apply E3..|exact Hst| |eassumption].
    unfold after_packet, intact. simpl. by rewrite E.
Qed.

(** The wait for the token: what it does if it ends, and that it ends when the
    token comes. *)
Abbreviation token_wait :=
  (poll fuel (r <- sd_dummy ;; ret (negb (r =? SD_DATA_TOKEN)))).

Lemma token_any h s :
  at_ h s ->
  wlp token_wait
     (fun _ s' => exists g, Forall (fun b => b <> SD_DATA_TOKEN) g
        /\ streams h (g ++ [SD_DATA_TOKEN]) /\ at_ (h ++ dummies (length g + 1)) s') s.
Proof using spec.
  intros Hs.
  apply (wlp_loop _ (fun _ s' => exists g, Forall (fun b => b <> SD_DATA_TOKEN) g
        /\ streams h g /\ at_ (h ++ dummies (length g)) s')).
  - exists []. by rewrite app_nil_r.
  - clear s Hs. intros _ s (g & Hg & Hst & Hs). apply wp_wlp. wp_seq.
    send_step. intros r s' [Hr Hs']. apply wp_ret.
    assert (streams h (g ++ [r])) as Hst'.
    { apply streams_app. split; [done|]. by apply streams_cons. }
    rewrite dummies_snoc, Nat.add_comm in Hs'.
    destruct (Z.eqb_spec r SD_DATA_TOKEN) as [->|Hne]; apply wp_ret; exists (g ++ [r]) || exists g.
    + done.
    + by rewrite Forall_app, Forall_singleton, length_app.
Qed.

Lemma token_comes h g s f :
  at_ h s -> Forall (fun b => b <> SD_DATA_TOKEN) g -> streams h (g ++ [SD_DATA_TOKEN]) ->
  (length g < f)%nat ->
  wp (poll f (r <- sd_dummy ;; ret (negb (r =? SD_DATA_TOKEN))))
     (fun _ s' => at_ (h ++ dummies (length g + 1)) s') s.
Proof using spec.
  intros Hs Hg Hst Hf. revert f h s Hs Hst Hf.
  induction Hg as [|b g Hb Hg IH]; intros [|f] h s Hs Hst Hf; try (simpl in Hf; lia);
    unfold poll; cbn [loop]; wp_seq; send_step; intros r s' [Hr Hs'];
    simpl in Hst; rewrite streams_cons, <-Hr in Hst; destruct Hst as [-> Hst].
  - by apply wp_ret, wp_ret, wp_ret.
  - apply wp_ret, wp_ret. rewrite (proj2 (Z.eqb_neq _ _) Hb). simpl in Hf |- *.
    rewrite (dummies_add 1), (assoc_L (++)). apply IH; [done..|lia].
Qed.

Lemma wire_length p : length (wire p) = (length (gap p) + 1 + length (data p) + 2)%nat.
Proof using. unfold wire. rewrite !length_app. simpl. rewrite length_app. simpl. lia. Qed.

Lemma streams_wire h p :
  streams h (wire p) <->
  streams h (gap p ++ [SD_DATA_TOKEN])
  /\ streams (h ++ dummies (length (gap p) + 1)) (data p ++ [check p / 256; check p mod 256]).
Proof using.
  unfold wire. change (SD_DATA_TOKEN :: ?l) with ([SD_DATA_TOKEN] ++ l).
  by rewrite (assoc_L (++)), streams_app, length_app.
Qed.

Lemma copy_block_any h i w s :
  at_ h s -> (8 <= fuel)%nat ->
  wlp (copy_block fuel (i, w))
     (fun r s' => exists p, well_formed p /\ streams h (wire p) /\ r = after_packet i w p
        /\ at_ (h ++ dummies (length (wire p))) s') s.
Proof using spec.
  intros Hs Hf. unfold copy_block. apply wlp_bind. eapply wlp_mono; [by apply token_any|].
  intros [] s1 (g & Hg & Hst & Hs1). apply wp_wlp.
  eapply wp_mono; [by apply (data_at (h ++ dummies (length g + 1)) g)|]. intros r s2 (p & <- & Hlen & Hc & Hst2 & -> & Hs2).
  exists p. split_and!; [done|by apply streams_wire|done|].
  rewrite wire_length, Hlen. rewrite <-(assoc_L (++)), <-dummies_add in Hs2.
  by replace (length (gap p) + 1 + 512 + 2)%nat with (length (gap p) + 1 + 514)%nat by lia.
Qed.

Lemma copy_block_known h p i w s :
  at_ h s -> well_formed p -> streams h (wire p) ->
  (8 <= fuel)%nat -> (length (gap p) < fuel)%nat ->
  wp (copy_block fuel (i, w))
     (fun r s' => r = after_packet i w p /\ at_ (h ++ dummies (length (wire p))) s') s.
Proof using spec.
  intros Hs (Hg & Hlen & Hc) [Hst Hst']%streams_wire Hf Hgf. unfold copy_block.
  wp_call ltac:(by apply token_comes). intros [] s1 Hs1.
  eapply wp_mono; [by apply (data_at (h ++ dummies (length (gap p) + 1)) (gap p))|].
  intros r s2 (p' & Hgap & Hlen' & Hc' & Hst2 & -> & Hs2).
  assert (p' = p) as ->.
  { unfold streams in Hst', Hst2. rewrite length_app, Hlen in Hst'. rewrite length_app, Hlen' in Hst2.
    cbn [length] in Hst', Hst2. rewrite Hst' in Hst2. apply app_inj_1 in Hst2 as [Hd [= E1 E2]]; [|congruence].
    clear -E1 E2 Hgap Hd. destruct p as [g d c], p' as [g' d' c']; simpl in *. subst.
    f_equal. clear -E1 E2. divlia. }
  split; [done|]. rewrite wire_length, Hlen. rewrite <-(assoc_L (++)), <-dummies_add in Hs2.
  by replace (length (gap p) + 1 + 512 + 2)%nat with (length (gap p) + 1 + 514)%nat by lia.
Qed.

(** What a whole transfer makes of the packets that travel: [None] if they are
    not those of one transfer. *)
Fixpoint copied (i : Z) (w : list Z) (ps : list packet) : option (Z * list Z) :=
  match ps with
  | [] => None
  | p :: ps =>
      match after_packet i w p with
      | inl (i', w') => copied i' w' ps
      | inr r => match ps with [] => Some r | _ => None end
      end
  end.

Definition wires (ps : list packet) : list Z := concat (wire <$> ps).
Definition payload (ps : list packet) : list Z := concat (data <$> ps).

Lemma copied_intact ps i w :
  Forall (fun p => intact p = true) ps -> Z.of_nat (length ps) = Z.max 1 i ->
  copied i w ps = Some (0, w ++ payload ps).
Proof using.
  revert i w. induction ps as [|p ps IH]; intros i w HF Hlen; [cbn [length] in Hlen; lia|].
  inversion HF as [|? ? Hp HF']; subst. cbn [copied length] in *. unfold after_packet. rewrite Hp.
  unfold payload in *. cbn [fmap list_fmap concat]. destruct (Z.ltb_spec 0 (i - 1)).
  - rewrite IH by (done || lia). by rewrite (assoc_L (++)).
  - destruct ps; [|cbn [length] in Hlen; lia]. simpl. by rewrite app_nil_r.
Qed.

(** The status tells which of the blocks stored are to be trusted. *)
Lemma copied_inv ps i w rc w' :
  copied i w ps = Some (rc, w') ->
  w' = w ++ payload ps
  /\ ((rc = 0 /\ Forall (fun p => intact p = true) ps /\ Z.of_nat (length ps) = Z.max 1 i)
      \/ (rc = SD_COPY_ERROR_CMD18_CRC
          /\ exists l p, ps = l ++ [p] /\ Forall (fun p => intact p = true) l /\ intact p = false
                         /\ Z.of_nat (length ps) <= Z.max 1 i)).
Proof using.
  revert i w. induction ps as [|p ps IH]; intros i w H; [done|].
  cbn [copied] in H. unfold payload in *. cbn [fmap list_fmap concat].
  unfold after_packet in H. destruct (intact p) eqn:E; [destruct (Z.ltb_spec 0 (i - 1))|].
  - destruct (IH _ _ H) as (-> & Hcase). split; [by rewrite (assoc_L (++))|].
    destruct Hcase as [(-> & HF & Hlen)|(-> & l & q & -> & HF & Hq & Hlen)]; [left|right].
    + split_and!; [done|by constructor|simpl; lia].
    + split; [done|]. exists (p :: l), q. split_and!; [done|by constructor|done|cbn [length app] in *; lia].
  - destruct ps; [|done]. injection H as <- <-. simpl. rewrite app_nil_r. split; [done|].
    left. split_and!; [done|by repeat constructor|lia].
  - destruct ps; [|done]. injection H as <- <-. simpl. rewrite app_nil_r. split; [done|].
    right. split; [done|]. exists [], p. split_and!; [done..|simpl; lia].
Qed.

Lemma blocks_any h i w s :
  at_ h s -> (8 <= fuel)%nat ->
  wlp (loop fuel (copy_block fuel) (i, w))
     (fun r s' => exists ps, Forall well_formed ps /\ streams h (wires ps)
        /\ copied i w ps = Some r /\ at_ (h ++ dummies (length (wires ps))) s') s.
Proof using spec.
  intros Hs Hf. generalize fuel at 1. intros f. revert h i w s Hs.
  induction f as [|f IH]; intros h i w s Hs; [by intros ??|]. cbn [loop].
  apply wlp_bind. eapply wlp_mono; [by apply copy_block_any|].
  intros r s1 (p & Hp & Hst & Hr & Hs1). destruct r as [[i' w']|r].
  - eapply wlp_mono; [by apply IH|]. intros r s2 (ps & Hps & Hst2 & Hr2 & Hs2).
    exists (p :: ps). unfold wires in *. cbn [fmap list_fmap concat copied].
    rewrite streams_app, <-Hr, length_app, dummies_add, (assoc_L (++)).
    split_and!; [by constructor|done..].
  - apply wlp_ret. exists [p]. unfold wires. cbn [fmap list_fmap concat copied].
    rewrite <-Hr, app_nil_r. by split_and!; [apply Forall_singleton| | |].
Qed.

Lemma blocks_known h ps i w r s f :
  at_ h s -> Forall well_formed ps -> streams h (wires ps) -> copied i w ps = Some r ->
  (8 <= fuel)%nat -> Forall (fun p => (length (gap p) < fuel)%nat) ps -> (length ps <= f)%nat ->
  wp (loop f (copy_block fuel) (i, w))
     (fun r' s' => r' = r /\ at_ (h ++ dummies (length (wires ps))) s') s.
Proof using spec.
  intros Hs Hps Hst Hr Hf Hgap Hlen. revert h i w s f Hs Hst Hr Hlen.
  induction Hps as [|p ps Hp Hps IH]; intros h i w s f Hs Hst Hr Hlen; [done|].
  inversion Hgap as [|? ? Hg Hgap']; subst. unfold wires in *. cbn [fmap list_fmap concat] in *.
  apply streams_app in Hst as [Hst Hst']. rewrite length_app, dummies_add, (assoc_L (++)).
  destruct f as [|f]; [cbn [length] in Hlen; lia|]. cbn [loop]. apply wp_bind.
  eapply wp_mono; [by apply copy_block_known|]. intros r1 s1 [-> Hs1].
  cbn [copied] in Hr. destruct (after_packet i w p) as [[i' w']|r1].
  - apply IH; try done. cbn [length] in Hlen. lia.
  - destruct ps; [|done]. injection Hr as ->. apply wp_ret. by rewrite app_nil_r.
Qed.

(** The checksum of the read command is that of an all-zero register. *)
Definition READ_CRC : Z := 1.

Abbreviation read_frame lba := (frame SD_CMD_READ_BLOCK_MULTIPLE lba READ_CRC).
Abbreviation stop_frame := (frame SD_CMD_STOP_TRANSMISSION 0 1).

Lemma stop_at h s :
  at_ h s -> (100 <= fuel)%nat -> forall r : Z * list Z,
  wp (sd_cmd fuel SD_CMD_STOP_TRANSMISSION 0 0x01 ;;; sd_dummy ;;; ret r)
     (fun r' s' => r' = r
        /\ exists k r0, reply card (h ++ stop_frame) k r0
                        /\ at_ (h ++ stop_frame ++ dummies (1 + k)) s') s.
Proof using spec.
  intros Hs Hf r. wp_call ltac:(by apply sd_cmd_at). intros r0 s1 (k & Hr & Hs1).
  send_step. intros r1 s2 [_ Hs2]. apply wp_ret. split; [done|]. exists k, r0. split; [done|].
  rewrite (assoc_L (++)) in Hs2. by rewrite dummies_snoc, <-(assoc_L (++)) in Hs2.
Qed.

(** The bytes sent up to the first byte after the response. *)
Abbreviation reading h lba k := (h ++ read_frame lba ++ dummies k).

Definition stopped (h : list Z) (s : S) : Prop :=
  exists k r, reply card (h ++ stop_frame) k r /\ at_ (h ++ stop_frame ++ dummies (1 + k)) s.

Lemma sd_copy_known lba size h k ps r s :
  at_ h s -> (100 <= fuel)%nat ->
  reply card (h ++ read_frame lba) k 0 ->
  Forall well_formed ps -> streams (reading h lba k) (wires ps) -> copied size [] ps = Some r ->
  Forall (fun p => (length (gap p) < fuel)%nat) ps -> (length ps <= fuel)%nat ->
  wp (sd_copy fuel lba size)
     (fun r' s' => r' = r /\ stopped (reading h lba k ++ dummies (length (wires ps))) s') s.
Proof using spec.
  intros Hs Hf Hk Hps Hst Hr Hgap Hlen. unfold sd_copy. rewrite !crc7_zero.
  wp_call ltac:(by apply sd_cmd_reply). intros r0 s1 [-> Hs1]. cbn [Z.eqb negb].
  wp_call ltac:(by eapply blocks_known; try done; lia). intros [rc w] s2 [<- Hs2].
  eapply wp_mono; [by apply stop_at|]. by intros r' s3 (-> & k' & r0 & ? & ?); split; [|exists k', r0].
Qed.

Lemma sd_copy_refused lba size h k r s :
  at_ h s -> (100 <= fuel)%nat -> reply card (h ++ read_frame lba) k r -> r <> 0 ->
  wp (sd_copy fuel lba size)
     (fun r' s' => r' = (-1, []) /\ at_ (reading h lba k ++ dummies 8) s') s.
Proof using spec.
  intros Hs Hf Hk Hr. unfold sd_copy. rewrite !crc7_zero.
  wp_call ltac:(by apply sd_cmd_reply). intros r0 s1 [-> Hs1].
  rewrite (proj2 (Z.eqb_neq _ _) Hr). cbn [negb].
  wp_call ltac:(by apply (dummy_loop 8)). intros [] s2 Hs2.
  print_step. intros [] s3 Hs3. by apply wp_ret.
Qed.

Lemma sd_copy_any lba size h s :
  at_ h s -> (100 <= fuel)%nat ->
  wlp (sd_copy fuel lba size)
     (fun r' s' => exists k r, reply card (h ++ read_frame lba) k r
        /\ (r <> 0 -> r' = (-1, []))
        /\ (r = 0 -> exists ps, Forall well_formed ps /\ streams (reading h lba k) (wires ps)
                       /\ copied size [] ps = Some r')) s.
Proof using spec.
  intros Hs Hf. pose proof (sd_cmd_at 18 lba 1 h s Hs Hf) as Hcmd.
  apply wp_run in Hcmd as (r & s0 & _ & k & Hk & _). destruct (decide (r = 0)) as [->|Hr].
  - unfold sd_copy. rewrite !crc7_zero. apply wlp_bind.
    eapply wlp_mono; [by apply wp_wlp, sd_cmd_reply|]. intros r0 s1 [-> Hs1]. cbn [Z.eqb negb].
    apply wlp_bind. eapply wlp_mono; [apply blocks_any; [done|lia]|].
    intros [rc w] s2 (ps & Hps & Hst & Hr & Hs2).
    apply wp_wlp. eapply wp_mono; [by apply stop_at|]. intros r' s3 [-> _].
    exists k, 0. split_and!; [done..|]. intros _. by exists ps.
  - apply wp_wlp. eapply wp_mono; [by eapply sd_copy_refused|]. intros r' s1 [-> _].
    by exists k, r.
Qed.

(** ** Initialisation *)

(** A card as the SPI mode of the SD specification has it, holding [disk]: the
    histories after which it waits for a successful CMD0 ([m] more attempts
    fail), for CMD8, for ACMD41 ([m] more answer "busy"), for a read.  It has
    [capacity] blocks, and a read within them is answered.  [gmax] bounds the
    bytes that come before a data token, [imax] the rounds of ACMD41. *)
Record sd_card (disk : Z -> list Z) (gmax imax : nat) := {
  capacity : Z;
  unreset : nat -> list Z -> Prop;
  reset : list Z -> Prop;
  initializing : nat -> list Z -> Prop;
  idle : list Z -> Prop;
  cmd0_law m h : unreset m h -> exists k r,
    reply card (h ++ frame 0 0 0x95) k r
    /\ match m with
       | O => r = 1 /\ reset (h ++ frame 0 0 0x95 ++ dummies (1 + k))
       | Datatypes.S m => r <> 1 /\ unreset m (h ++ frame 0 0 0x95 ++ dummies (1 + k))
       end;
  cmd8_law h : reset h -> exists k m,
    reply card (h ++ frame 8 0x1aa 0x87) k 1
    /\ Z.land (card (h ++ frame 8 0x1aa 0x87 ++ dummies (3 + k))) 0xf = 1
    /\ card (h ++ frame 8 0x1aa 0x87 ++ dummies (4 + k)) = 0xaa
    /\ (m <= imax)%nat /\ initializing m (h ++ frame 8 0x1aa 0x87 ++ dummies (6 + k));
  acmd41_law m h : initializing m h -> exists k r k',
    reply card (h ++ frame 55 0 0x65) k r
    /\ let h' := h ++ frame 55 0 0x65 ++ dummies (1 + k) in
       reply card (h' ++ frame 41 0x40000000 0x77) k' (match m with O => 0 | _ => 1 end)
       /\ let h'' := h' ++ frame 41 0x40000000 0x77 ++ dummies (1 + k') in
          match m with
          | O => idle h''
          | Datatypes.S m => initializing m h''
          end;
  read_law h lba : idle h -> 0 <= lba < Z.min capacity 4294967296 -> exists k,
    reply card (h ++ read_frame lba) k 0
    /\ forall n, lba + Z.of_nat n <= capacity -> exists ps,
         Forall well_formed ps /\ Forall (fun p => intact p = true) ps
         /\ Forall (fun p => (length (gap p) < gmax)%nat) ps
         /\ data <$> ps = disk <$> seqZ lba (Z.of_nat n)
         /\ streams (reading h lba k) (wires ps)
         /\ forall k' r, let h' := reading h lba k ++ dummies (length (wires ps)) in
              reply card (h' ++ stop_frame) k' r -> idle (h' ++ stop_frame ++ dummies (1 + k'))
}.

Lemma more_dummies h l k s :
  at_ ((h ++ l ++ dummies k) ++ [0xff]) s -> at_ (h ++ l ++ dummies (1 + k)) s.
Proof using. by rewrite (assoc_L (++) h), dummies_snoc, <-(assoc_L (++)). Qed.

Lemma more_dummies_card h l k : (h ++ l ++ dummies k) ++ [0xff] = h ++ l ++ dummies (1 + k).
Proof using. by rewrite (assoc_L (++) h), dummies_snoc, <-(assoc_L (++)). Qed.

(** Without an answer of 1, all attempts are made and CMD0 fails. *)
Lemma sd_cmd0_fails h s :
  at_ h s -> (10000 <= Z.of_nat fuel) ->
  (forall h k r, reply card (h ++ frame 0 0 0x95) k r -> r <> 1) ->
  wp (sd_cmd0 fuel) (fun r s' => r = 0 /\ exists h', at_ h' s') s.
Proof using spec.
  intros Hs Hf Hnever. unfold sd_cmd0. apply wp_bind.
  apply (wp_mono _ (fun o s => o = None /\ exists h, at_ h s));
    [|by intros ? s' [-> ?]; apply wp_ret].
  apply (wp_loop _ (fun st s => snd st <> 1 /\ 0 < fst st <= 10000 /\ exists h, at_ h s) _
           (fun st _ => Z.to_nat (fst st - 1))).
  - split_and!; [done..|by exists h].
  - cbn [fst]. lia.
  - clear s h Hs. intros [counter r] s (Hr & Hc & h & Hs). simpl in Hr, Hc. unfold cmd0_round.
    rewrite (proj2 (Z.eqb_neq _ _) Hr). cbn [negb].
    wp_call ltac:(by apply sd_cmd_at; [|lia]). intros r' s1 (k & Hk & Hs1).
    send_step. intros r'' s2 [_ Hs2]. apply wp_ret.
    destruct (Z.leb_spec (counter - 1) 0); [eauto|]. cbn [fst snd].
    split; [|lia]. split_and!; [by eapply Hnever|lia..|eauto].
Qed.

Lemma init_sd_fails h s :
  off_ h s -> (10000 <= Z.of_nat fuel) ->
  (forall h k r, reply card (h ++ frame 0 0 0x95) k r -> r <> 1) ->
  wp (init_sd fuel) (fun r s' => r = SD_INIT_ERROR_CMD0 /\ exists h', at_ h' s') s.
Proof using spec.
  intros Hs Hf Hnever. unfold init_sd. print_step. intros [] s1 Hs1.
  print_step. intros [] s2 Hs2.
  wp_call ltac:(by apply (dummy_loop 10)). intros [] s3 Hs3.
  wp_call ltac:(by eapply sd_cmd0_fails). intros r s4 [-> Hs4]. by apply wp_ret.
Qed.

Section Card.
Context {disk : Z -> list Z} {gmax imax : nat} (C : sd_card disk gmax imax).

Lemma sd_cmd0_resets m h s :
  at_ h s -> unreset _ _ _ C m h -> Z.of_nat m <= 9998 -> 10000 < Z.of_nat fuel ->
  wp (sd_cmd0 fuel) (fun r s' => r = 1 /\ exists h', at_ h' s' /\ reset _ _ _ C h') s.
Proof using spec.
  intros Hs Hm Hmax Hf. unfold sd_cmd0. apply wp_bind.
  apply (wp_mono _ (fun o s => o = Some 1 /\ exists h, at_ h s /\ reset _ _ _ C h)).
  - apply (wp_loop _ (fun st s => exists h, at_ h s /\ 0 < fst st <= 10000
        /\ ((snd st = 1 /\ reset _ _ _ C h)
            \/ (snd st <> 1 /\ exists m, unreset _ _ _ C m h /\ Z.of_nat m + 1 < fst st)))
      _ (fun st _ => if snd st =? 1 then O else Z.to_nat (fst st))).
    + exists h. split_and!; [done..|]. right. split; [done|]. exists m. split; [done|]. cbn. lia.
    + cbn [fst snd Z.eqb Pos.eqb]. lia.
    + clear s h m Hs Hm Hmax. intros [counter r] s (h & Hs & Hc & Hcase). cbn [fst snd] in *.
      unfold cmd0_round. destruct Hcase as [[-> Hreset]|(Hr & m & Hm & Hlt)].
      { apply wp_ret. split; [done|]. by exists h. }
      rewrite (proj2 (Z.eqb_neq _ _) Hr). cbn [negb].
      destruct (cmd0_law _ _ _ C m h Hm) as (k & r' & Hk & Hnext).
      wp_call ltac:(by apply sd_cmd_reply; [|done|lia]). intros r1 s1 [-> Hs1].
      send_step. intros r2 s2 [_ Hs2%more_dummies]. apply wp_ret.
      destruct (Z.leb_spec (counter - 1) 0); [lia|]. cbn [fst snd].
      destruct m as [|m]; destruct Hnext as [Hr' Hst].
      * subst r'. split; [|cbn; lia]. eexists. split; [done|]. split; [lia|]. by left.
      * rewrite (proj2 (Z.eqb_neq _ _) Hr'). split; [|lia]. eexists. split; [done|].
        split; [lia|]. right. split; [done|]. exists m. split; [done|lia].
  - intros o s' [-> (h' & Hs' & Hreset)].
    wp_call ltac:(by apply print_status_at; [done|unfold byte; lia|apply (bool_decide_unpack _); by vm_compute]).
    intros [] s1 Hs1. apply wp_ret. split; [done|]. by exists h'.
Qed.

Lemma sd_cmd8_accepts h s :
  at_ h s -> reset _ _ _ C h -> (100 <= fuel)%nat ->
  wp (sd_cmd8 fuel)
     (fun r s' => r = 1 /\ exists h' m, at_ h' s' /\ (m <= imax)%nat /\ initializing _ _ _ C m h') s.
Proof using spec.
  intros Hs Hh Hf. destruct (cmd8_law _ _ _ C h Hh) as (k & m & Hk & Hv & Hp & Hm & Hi).
  unfold sd_cmd8. wp_call ltac:(by apply sd_cmd_reply). intros r1 s1 [-> Hs1].
  send_step. intros ? s2 [_ Hs2%more_dummies]. send_step. intros ? s3 [_ Hs3%more_dummies].
  send_step. intros r4 s4 [Hr4 Hs4%more_dummies]. send_step. intros r5 s5 [Hr5 Hs5%more_dummies].
  send_step. intros ? s6 [_ Hs6%more_dummies]. send_step. intros ? s7 [_ Hs7%more_dummies].
  rewrite more_dummies_card in Hr4, Hr5. apply wp_ret. rewrite Hr4, Hr5.
  change (1 + (1 + (1 + k)))%nat with (3 + k)%nat. change (1 + (3 + k))%nat with (4 + k)%nat.
  rewrite Hv, Hp. split; [done|]. by eexists _, m.
Qed.

Lemma sd_acmd41_completes m h s :
  at_ h s -> initializing _ _ _ C m h -> (m <= imax)%nat -> (100 + imax <= fuel)%nat ->
  wp (sd_acmd41 fuel) (fun r s' => r = 1 /\ exists h', at_ h' s' /\ idle _ _ _ C h') s.
Proof using spec.
  intros Hs Hi Hm Hf. unfold sd_acmd41. apply wp_bind.
  apply (wp_mono _ (fun r s => r = 0 /\ exists h, at_ h s /\ idle _ _ _ C h));
    [|by intros r s' [-> ?]; apply wp_ret].
  assert (forall f m h s, at_ h s -> initializing _ _ _ C m h -> (m < f)%nat ->
    wp (loop f (acmd41_round fuel) tt)
       (fun r s => r = 0 /\ exists h, at_ h s /\ idle _ _ _ C h) s) as Hloop;
    [|eapply Hloop; [done|done|lia]].
  clear m h s Hs Hi Hm. induction f as [|f IH]; intros m h s Hs Hi Hlt; [lia|]. cbn [loop].
  destruct (acmd41_law _ _ _ C m h Hi) as (k & r & k' & Hk & Hk' & Hnext).
  apply wp_bind. unfold acmd41_round, sd_cmd55.
  wp_call ltac:(by apply sd_cmd_reply; [|done|lia]). intros r1 s1 [-> Hs1].
  send_step. intros ? s2 [_ Hs2%more_dummies].
  wp_call ltac:(apply print_status_at; [done|by eapply reply_byte|apply (bool_decide_unpack _); by vm_compute]).
  intros [] s3 Hs3. apply wp_ret.
  wp_call ltac:(by apply sd_cmd_reply; [|done|lia]). intros r4 s4 [-> Hs4].
  wp_call ltac:(apply print_status_at; [done|by eapply reply_byte|apply (bool_decide_unpack _); by vm_compute]).
  intros [] s5 Hs5.
  send_step. intros ? s6 [_ Hs6%more_dummies]. apply wp_ret.
  destruct m as [|m].
  - apply wp_ret. split; [done|]. by eexists.
  - eapply IH; [done|done|lia].
Qed.

Lemma init_sd_ready m h s :
  off_ h s -> unreset _ _ _ C m (h ++ dummies 10) -> Z.of_nat m <= 9998 ->
  10000 < Z.of_nat fuel -> (100 + imax <= fuel)%nat ->
  wp (init_sd fuel) (fun r s' => r = 0 /\ exists h', at_ h' s' /\ idle _ _ _ C h') s.
Proof using spec.
  intros Hs Hu Hm Hf Hf'. unfold init_sd. print_step. intros [] s1 Hs1.
  print_step. intros [] s2 Hs2.
  wp_call ltac:(by apply (dummy_loop 10)). intros [] s3 Hs3.
  wp_call ltac:(by eapply sd_cmd0_resets). intros r s4 (-> & h4 & Hs4 & Hh4).
  cbn [Z.eqb]. wp_call ltac:(by apply (sd_cmd8_accepts h4); [| |lia]).
  intros r s5 (-> & h5 & m5 & Hs5 & Hm5 & Hh5). cbn [Z.eqb].
  wp_call ltac:(by apply (sd_acmd41_completes m5 h5)).
  intros r s6 (-> & h6 & Hs6 & Hh6). apply wp_ret. split; [done|]. by exists h6.
Qed.

(** A read from an idle card fetches the blocks asked for, one at least, and
    leaves it idle. *)
Lemma sd_copy_reads lba size h s :
  at_ h s -> idle _ _ _ C h -> 0 <= lba < 4294967296 -> lba + Z.max 1 size <= capacity _ _ _ C ->
  (100 <= fuel)%nat -> (gmax <= fuel)%nat -> Z.max 1 size <= Z.of_nat fuel ->
  wp (sd_copy fuel lba size)
     (fun r s' => r = (0, concat (disk <$> seqZ lba (Z.max 1 size)))
                  /\ exists h', at_ h' s' /\ idle _ _ _ C h') s.
Proof using spec.
  intros Hs Hh Hlba Hcap Hf Hg Hsize.
  destruct (read_law _ _ _ C h lba Hh ltac:(lia)) as (k & Hk & Hread).
  destruct (Hread (Z.to_nat (Z.max 1 size)) ltac:(lia)) as (ps & Hps & Hint & Hgap & Hdata & Hst & Hstop).
  rewrite Z2Nat.id in Hdata by lia.
  assert (Z.of_nat (length ps) = Z.max 1 size) as Hlen
    by (rewrite <-(length_fmap data), Hdata, length_fmap, length_seqZ; lia).
  eapply wp_mono.
  { eapply sd_copy_known; try done.
    - by apply copied_intact.
    - eapply Forall_impl; [|exact Hgap]. intros p Hp. cbv beta in Hp |- *. lia.
    - lia. }
  intros r s' [-> (k' & r0 & Hr & Hs')]. unfold payload. rewrite Hdata. split; [done|].
  eexists. split; [done|]. by eapply Hstop.
Qed.
End Card.
End Spec.
