(* ===== verification/SdCard.v ===== *)
(** * An SD card, executable

    The hypotheses the SD card driver is verified under are those of the record
    [sd_card] (BootSd).  This file shows that they can hold: [sim_card disk] is
    a small card in SPI mode, a state machine over the bytes it is sent, and
    [sim_card_ok] proves the laws of it.  [wire_board] is the simplest board:
    its state is what the card was sent and what the console shows. *)

From Stdlib Require Import ZArith Lia.
From stdpp Require Import base tactics list numbers.
From S2P Require Import Prelude BootUart BootSpi BootSd.

(** ** A board without hardware below it *)

Fixpoint until_zero (l : list Z) : list Z :=
  match l with
  | [] => []
  | c :: l => if c =? 0 then [] else c :: until_zero l
  end.

Section Wire.
Context (card : list Z -> Z) (Hcard : forall h, byte (card h)).

Definition wire_state : Type := list Z * list Z.

Definition show (text : list Z) : M wire_state unit :=
  modify (fun '(h, o) => (h, o ++ text)).

Definition wire_console : Console wire_state := {|
  board_print text := show (until_zero text);
  board_print_int z := show (hex_text 4 z);
  board_print_addr z := show (hex_text 8 z);
  board_print_byte z := show (hex_byte z)
|}.

#[export] Instance wire_board : Board wire_state := {|
  board_console := wire_console;
  board_spi_init := ret tt;
  board_txrx b := fun '(h, o) => Ok (card (h ++ [b]), (h ++ [b], o));
  board_write_bytes l len := fun '(h, o) =>
    let l' := take (Z.to_nat len) l in Ok ((0, exchange card h l'), (h ++ l', o))
|}.

Lemma until_zero_text text rest :
  Forall (fun c => 0 < c < 256) text -> until_zero (text ++ 0 :: rest) = text.
Proof using.
  induction 1 as [|c text Hc _ IH]; [done|]. simpl.
  destruct (Z.eqb_spec c 0); [lia|]. by rewrite IH.
Qed.

#[export] Instance wire_board_spec : BoardSpec wire_board card.
Proof using Hcard.
  refine {| powered := fun _ => True; ready := fun _ => True; sent := fst; console := snd |}.
  - exact Hcard.
  - done.
  - intros s _. by split.
  - intros b [h o] _ _. by split_and!.
  - intros l len [h o] _ _ _ _. by split_and!.
  - intros text rest [h o] _ HF. split_and!; [done|done|done|].
    cbn [snd]. by rewrite until_zero_text.
  - intros z [h o] _. split_and!; [exact I|done|reflexivity..].
  - intros z [h o] _. split_and!; [exact I|done|reflexivity..].
  - intros z [h o] _ _. split_and!; [exact I|done|reflexivity..].
Defined.
End Wire.

(** ** The card *)

Section Card.
Context (disk : Z -> list Z).
Context (disk_ok : forall lba, length (disk lba) = 512%nat /\ bytes (disk lba)).

Record sim := {
  command : list Z;           (** the bytes of the command being received *)
  response : list Z;          (** what is left of the response *)
  source : option (Z * nat)   (** the block and offset being streamed *)
}.

Definition block_packet (lba : Z) : packet :=
  {| gap := []; data := disk lba; check := crc16_of (disk lba) |}.

(** Blocks follow each other without a gap, 515 bytes each. *)
Definition stream_byte (lba : Z) (pos : nat) : Z :=
  nth (pos mod 515) (wire (block_packet (lba + Z.of_nat (pos / 515)))) 0xff.

Definition execute (cmd : list Z) (s : sim) : sim :=
  match cmd with
  | [c; a3; a2; a1; a0; _] =>
      if c =? 64 then {| command := []; response := [1]; source := None |}
      else if c =? 72 then {| command := []; response := [1; 0; 0; 1; 0xaa]; source := None |}
      else if c =? 119 then {| command := []; response := [1]; source := None |}
      else if c =? 105 then {| command := []; response := [0]; source := None |}
      else if c =? 82 then
        {| command := []; response := [0];
           source := Some (((a3 * 256 + a2) * 256 + a1) * 256 + a0, O) |}
      else {| command := []; response := [0]; source := None |}
  | _ => {| command := cmd; response := response s; source := source s |}
  end.

Definition advance (s : sim) : sim :=
  match response s with
  | _ :: q => {| command := command s; response := q; source := source s |}
  | [] => {| command := command s; response := [];
             source := (fun '(lba, pos) => (lba, S pos)) <$> source s |}
  end.

Definition receive (s : sim) (b : Z) : sim :=
  let s := advance s in
  match command s with
  | [] => if (64 <=? b) && (b <? 128)
          then {| command := [b]; response := response s; source := source s |} else s
  | c => execute (c ++ [b]) s
  end.

Definition drive (s : sim) : Z :=
  match response s with
  | r :: _ => r
  | [] => match source s with Some (lba, pos) => stream_byte lba pos | None => 0xff end
  end.

Definition state_after (h : list Z) : sim :=
  foldl receive {| command := []; response := []; source := None |} h.

Definition sim_card (h : list Z) : Z := drive (state_after (removelast h)).

Lemma state_after_app h l : state_after (h ++ l) = foldl receive (state_after h) l.
Proof using. apply foldl_app. Qed.

Lemma sim_card_snoc h b : sim_card (h ++ [b]) = drive (state_after h).
Proof using. unfold sim_card. by rewrite removelast_last. Qed.

Lemma wire_bytes p : bytes (gap p) -> bytes (data p) -> 0 <= check p < 65536 -> bytes (wire p).
Proof using.
  intros Hg Hd Hc. unfold wire, bytes. apply Forall_app; split; [done|].
  constructor; [done|]. apply Forall_app; split; [done|].
  repeat constructor; unfold byte; divlia.
Qed.

Lemma block_wire_length lba : length (wire (block_packet lba)) = 515%nat.
Proof using disk_ok. rewrite wire_length. simpl. by rewrite (proj1 (disk_ok lba)). Qed.

Lemma stream_byte_byte lba pos : byte (stream_byte lba pos).
Proof using disk_ok.
  unfold stream_byte. generalize (lba + Z.of_nat (pos / 515)). intros b.
  assert (bytes (wire (block_packet b))) as Hb
    by (apply wire_bytes; [constructor|apply disk_ok|apply crc16_of_range]).
  destruct (nth_in_or_default (pos mod 515) (wire (block_packet b)) 0xff) as [Hin| ->]; [|done].
  eapply List.Forall_forall in Hin; [exact Hin|exact Hb].
Qed.

Definition sane (s : sim) : Prop := bytes (response s).

Lemma receive_sane s b : sane s -> sane (receive s b).
Proof using.
  intros Hs. assert (sane (advance s)) as Ha.
  { unfold advance, sane in *. destruct (response s) eqn:E; simpl; [constructor|].
    by inversion Hs. }
  unfold receive. generalize (advance s) Ha. clear. intros s Hs.
  destruct (command s) as [|c q].
  { destruct ((64 <=? b) && (b <? 128)); done. }
  unfold execute. repeat case_match; try done; repeat constructor; done.
Qed.

Lemma sim_card_byte h : byte (sim_card h).
Proof using disk_ok.
  unfold sim_card. generalize (removelast h). clear h. intros h.
  assert (sane (state_after h)) as Hs.
  { unfold state_after. assert (sane {| command := []; response := []; source := None |})
      as H0 by constructor. revert H0. generalize {| command := []; response := []; source := None |}.
    induction h as [|b h IH]; intros s Hs; [done|]. by apply IH, receive_sane. }
  unfold drive. destruct (response (state_after h)) as [|r q] eqn:E.
  - destruct (source (state_after h)) as [[lba pos]|]; [apply stream_byte_byte|done].
  - unfold sane in Hs. rewrite E in Hs. by inversion Hs.
Qed.

Lemma advance_command s : command (advance s) = command s.
Proof using. unfold advance. by destruct (response s). Qed.

Lemma receive_dummy s : command s = [] -> receive s 0xff = advance s.
Proof using. intros Hs. unfold receive. by rewrite advance_command, Hs. Qed.

Lemma receive_dummies n s :
  command s = [] -> foldl receive s (dummies n) = Nat.iter n advance s /\ command (Nat.iter n advance s) = [].
Proof using.
  revert s. induction n as [|n IH]; intros s Hs; [done|].
  rewrite Nat.iter_succ_r. change (dummies (S n)) with (0xff :: dummies n). cbn [foldl].
  rewrite receive_dummy by done. apply IH. by rewrite advance_command.
Qed.

Lemma receive_start s b :
  command s = [] -> 64 <= b < 128 -> command (receive s b) = [b].
Proof using.
  intros Hs Hb. unfold receive. rewrite advance_command, Hs.
  by rewrite (proj2 (Z.leb_le _ _)), (proj2 (Z.ltb_lt _ _)) by lia.
Qed.

Lemma receive_more s b c q :
  command s = c :: q -> (length q < 4)%nat -> command (receive s b) = c :: q ++ [b].
Proof using.
  intros Hs Hq. unfold receive. rewrite advance_command, Hs.
  destruct q as [|? [|? [|? [|? ?]]]]; simpl in Hq; try lia; done.
Qed.

(** A whole command is executed, whatever the card was doing. *)
Lemma frame_executed h cmd arg crc :
  command (state_after h) = [] -> 64 <= u8 (Z.lor 0x40 cmd) < 128 ->
  exists s, state_after (h ++ frame cmd arg crc) = execute (List.tl (frame cmd arg crc)) s.
Proof using.
  intros Hs Hc. rewrite state_after_app. unfold frame. cbn [foldl List.tl].
  set (s0 := receive (state_after h) 0xff).
  assert (command s0 = []) as H0
    by (unfold s0; rewrite receive_dummy, advance_command by done; done).
  clearbody s0.
  pose proof (receive_start s0 _ H0 Hc) as H1. set (s1 := receive s0 _) in *. clearbody s1.
  apply (receive_more s1 (u8 (Z.shiftr arg 24))) in H1; [|simpl; lia]. set (s2 := receive s1 _) in *. clearbody s2.
  apply (receive_more s2 (u8 (Z.shiftr arg 16))) in H1; [|simpl; lia]. set (s3 := receive s2 _) in *. clearbody s3.
  apply (receive_more s3 (u8 (Z.shiftr arg 8))) in H1; [|simpl; lia]. set (s4 := receive s3 _) in *. clearbody s4.
  apply (receive_more s4 (u8 arg)) in H1; [|simpl; lia]. set (s5 := receive s4 _) in *. clearbody s5.
  exists (advance s5). unfold receive. by rewrite advance_command, H1.
Qed.

Lemma sim_card_dummies h n :
  command (state_after h) = [] ->
  sim_card (h ++ dummies (1 + n)) = drive (Nat.iter n advance (state_after h)).
Proof using.
  intros Hs. rewrite dummies_S, (assoc_L (++)), sim_card_snoc, state_after_app.
  by rewrite (proj1 (receive_dummies n _ Hs)).
Qed.

Lemma after_dummies h n :
  command (state_after h) = [] -> command (state_after (h ++ dummies n)) = [].
Proof using.
  intros Hs. rewrite state_after_app. destruct (receive_dummies n _ Hs) as [-> H]. exact H.
Qed.

(** The first byte after a command is the first of its response. *)
Lemma reply_at_once h r q src :
  state_after h = {| command := []; response := r :: q; source := src |} -> busy r = false ->
  reply sim_card h 1 r.
Proof using.
  intros Hs Hr. split_and!; [lia|lia| |lia|by left].
  change (dummies 1) with (dummies (1 + 0)). rewrite (sim_card_dummies h 0); by rewrite Hs.
Qed.

Lemma read_argument lba :
  0 <= lba < 4294967296 ->
  ((u8 (Z.shiftr lba 24) * 256 + u8 (Z.shiftr lba 16)) * 256 + u8 (Z.shiftr lba 8)) * 256 + u8 lba
  = lba.
Proof using.
  intros Hlba. rewrite !Z.shiftr_div_pow2 by done. unfold u8.
  change (2 ^ 24) with 16777216. change (2 ^ 16) with 65536. change (2 ^ 8) with 256. divlia.
Qed.

(** *** Streaming *)

Definition streaming (lba : Z) (pos : nat) : sim :=
  {| command := []; response := []; source := Some (lba, pos) |}.

Lemma streaming_iter lba pos n : Nat.iter n advance (streaming lba pos) = streaming lba (pos + n).
Proof using.
  revert pos. induction n as [|n IH]; intros pos; [by rewrite Nat.add_0_r|].
  rewrite Nat.iter_succ_r. change (advance (streaming lba pos)) with (streaming lba (S pos)).
  rewrite IH. f_equal. lia.
Qed.

Lemma exchange_streaming h lba pos n :
  state_after h = streaming lba pos ->
  exchange sim_card h (dummies n) = stream_byte lba <$> seq pos n.
Proof using.
  revert h pos. induction n as [|n IH]; intros h pos Hs; [done|].
  change (dummies (S n)) with (0xff :: dummies n). cbn [exchange seq fmap list_fmap].
  rewrite sim_card_snoc, Hs. f_equal. apply IH.
  rewrite state_after_app, Hs. done.
Qed.

Lemma nth_seq (l : list Z) d k n :
  length l = n -> (fun i => nth (i - k) l d) <$> seq k n = l.
Proof using.
  revert k n. induction l as [|x l IH]; intros k [|n] Hn; try done.
  cbn [seq fmap list_fmap]. rewrite Nat.sub_diag. simpl. f_equal.
  transitivity ((fun i => nth (i - S k) l d) <$> seq (S k) n);
    [|apply IH; simpl in Hn; lia]. apply list_fmap_ext.
  intros i x' Hi. apply lookup_seq in Hi as [-> Hi]. by replace (S k + i - k)%nat with (S (S k + i - S k)) by lia.
Qed.

Definition read_packets (lba : Z) (n : nat) : list packet :=
  block_packet <$> seqZ lba (Z.of_nat n).

Lemma stream_blocks lba i n :
  stream_byte lba <$> seq (515 * i) (515 * n) = wires (read_packets (lba + Z.of_nat i) n).
Proof using disk_ok.
  revert i. induction n as [|n IH]; intros i; [done|].
  replace (515 * S n)%nat with (515 + 515 * n)%nat by lia. rewrite seq_app, fmap_app.
  unfold read_packets, wires. rewrite seqZ_cons by lia. cbn [fmap list_fmap concat]. f_equal.
  - rewrite <-(nth_seq (wire (block_packet (lba + Z.of_nat i))) 0xff (515 * i) 515) at 1
      by apply block_wire_length.
    apply list_fmap_ext. intros j x Hj. apply lookup_seq in Hj as [-> Hj]. unfold stream_byte.
    rewrite <-(Nat.div_unique (515 * i + j) 515 i j), <-(Nat.mod_unique (515 * i + j) 515 i j) by lia.
    f_equal. lia.
  - replace (515 * i + 515)%nat with (515 * S i)%nat by lia. rewrite IH.
    unfold wires, read_packets.
    replace (lba + Z.of_nat (S i)) with (Z.succ (lba + Z.of_nat i)) by lia.
    by replace (Z.pred (Z.of_nat (S n))) with (Z.of_nat n) by lia.
Qed.

Lemma wires_length lba n : length (wires (read_packets lba n)) = (515 * n)%nat.
Proof using disk_ok.
  rewrite <-(Z.add_0_r lba). change 0 with (Z.of_nat 0). rewrite <-stream_blocks.
  by rewrite length_fmap, length_seq.
Qed.

(** *** The laws *)

Lemma sim_executed h cmd arg crc s' :
  command (state_after h) = [] -> 64 <= u8 (Z.lor 0x40 cmd) < 128 ->
  (forall s, execute (List.tl (frame cmd arg crc)) s = s') ->
  state_after (h ++ frame cmd arg crc) = s'.
Proof using.
  intros Hs Hc He. destruct (frame_executed h cmd arg crc Hs Hc) as [s ->]. apply He.
Qed.

Lemma sim_cmd0_law h :
  command (state_after h) = [] ->
  reply sim_card (h ++ frame 0 0 0x95) 1 1
  /\ command (state_after (h ++ frame 0 0 0x95 ++ dummies 2)) = [].
Proof using.
  intros Hs.
  assert (state_after (h ++ frame 0 0 0x95) = {| command := []; response := [1]; source := None |})
    as E by (by apply sim_executed).
  split; [by eapply reply_at_once|]. rewrite (assoc_L (++)). apply after_dummies. by rewrite E.
Qed.

Lemma sim_cmd8_law h :
  command (state_after h) = [] ->
  reply sim_card (h ++ frame 8 0x1aa 0x87) 1 1
  /\ Z.land (sim_card (h ++ frame 8 0x1aa 0x87 ++ dummies 4)) 0xf = 1
  /\ sim_card (h ++ frame 8 0x1aa 0x87 ++ dummies 5) = 0xaa
  /\ command (state_after (h ++ frame 8 0x1aa 0x87 ++ dummies 7)) = [].
Proof using.
  intros Hs.
  assert (state_after (h ++ frame 8 0x1aa 0x87)
    = {| command := []; response := [1; 0; 0; 1; 0xaa]; source := None |})
    as E by (by apply sim_executed).
  split; [by eapply reply_at_once|]. rewrite !(assoc_L (++) h).
  change (dummies 4) with (dummies (1 + 3)). change (dummies 5) with (dummies (1 + 4)).
  split_and!; [| |apply after_dummies; by rewrite E];
    rewrite sim_card_dummies; rewrite E; done.
Qed.

Lemma sim_acmd41_law h :
  command (state_after h) = [] ->
  reply sim_card (h ++ frame 55 0 0x65) 1 1
  /\ let h' := h ++ frame 55 0 0x65 ++ dummies 2 in
     reply sim_card (h' ++ frame 41 0x40000000 0x77) 1 0
     /\ command (state_after (h' ++ frame 41 0x40000000 0x77 ++ dummies 2)) = [].
Proof using.
  intros Hs.
  assert (state_after (h ++ frame 55 0 0x65) = {| command := []; response := [1]; source := None |})
    as E by (by apply sim_executed).
  split; [by eapply reply_at_once|].
  assert (command (state_after (h ++ frame 55 0 0x65 ++ dummies 2)) = []) as Hs'
    by (rewrite (assoc_L (++)); apply after_dummies; by rewrite E).
  generalize dependent (h ++ frame 55 0 0x65 ++ dummies 2). intros h' Hs'.
  assert (state_after (h' ++ frame 41 0x40000000 0x77)
    = {| command := []; response := [0]; source := None |}) as E' by (by apply sim_executed).
  split; [by eapply reply_at_once|]. rewrite (assoc_L (++)). apply after_dummies. by rewrite E'.
Qed.

Lemma sim_read_law h lba :
  command (state_after h) = [] -> 0 <= lba < 4294967296 ->
  reply sim_card (h ++ frame SD_CMD_READ_BLOCK_MULTIPLE lba READ_CRC) 1 0
  /\ state_after (h ++ frame SD_CMD_READ_BLOCK_MULTIPLE lba READ_CRC ++ dummies 1) = streaming lba 0.
Proof using.
  intros Hs Hlba.
  assert (state_after (h ++ frame SD_CMD_READ_BLOCK_MULTIPLE lba READ_CRC)
    = {| command := []; response := [0]; source := Some (lba, O) |}) as E.
  { apply sim_executed; [done|done|]. intros s. unfold frame. cbn [List.tl execute].
    rewrite read_argument by done. done. }
  split; [by eapply reply_at_once|]. rewrite (assoc_L (++)), state_after_app, E. done.
Qed.

Lemma sim_stop_law h k :
  command (state_after h) = [] ->
  command (state_after (h ++ frame 12 0 1 ++ dummies k)) = [].
Proof using.
  intros Hs.
  assert (state_after (h ++ frame 12 0 1) = {| command := []; response := [0]; source := None |})
    as E by (by apply sim_executed).
  rewrite (assoc_L (++)). apply after_dummies. by rewrite E.
Qed.

Definition awaits (h : list Z) : Prop := command (state_after h) = [].

Lemma read_packets_good lba n :
  Forall well_formed (read_packets lba n)
  /\ Forall (fun p => intact p = true) (read_packets lba n)
  /\ Forall (fun p => (length (gap p) < 1)%nat) (read_packets lba n)
  /\ data <$> read_packets lba n = disk <$> seqZ lba (Z.of_nat n).
Proof using disk_ok.
  unfold read_packets. split_and!.
  1, 2, 3: apply Forall_fmap, Forall_true; intros b.
  - split_and!; [constructor|apply disk_ok|apply crc16_of_range..].
  - apply Z.eqb_refl.
  - simpl. lia.
  - rewrite <-list_fmap_compose. by apply list_fmap_ext.
Qed.

Definition sim_card_ok (blocks : Z) : sd_card (card := sim_card) disk 1 0.
Proof using disk_ok.
  refine {| capacity := blocks; unreset := fun m h => m = O /\ awaits h; reset := awaits;
            initializing := fun m h => m = O /\ awaits h; idle := awaits |}.
  - intros m h [-> Hs]. destruct (sim_cmd0_law h Hs). by exists 1%nat, 1.
  - intros h Hs. destruct (sim_cmd8_law h Hs) as (?&?&?&?). by exists 1%nat, O.
  - intros m h [-> Hs]. destruct (sim_acmd41_law h Hs) as (?&?&?). by exists 1%nat, 1, 1%nat.
  - intros h lba Hs Hlba. destruct (sim_read_law h lba Hs ltac:(lia)) as [Hr Hst].
    exists 1%nat. split; [done|]. intros n _. exists (read_packets lba n).
    destruct (read_packets_good lba n) as (?&?&?&?). split_and!; try done.
    + unfold streams. rewrite wires_length. rewrite (exchange_streaming _ lba 0) by done.
      replace 0%nat with (515 * 0)%nat at 1 by done. rewrite stream_blocks.
      by rewrite Z.add_0_r.
    + intros k' r h' _. apply sim_stop_law. unfold h'.
      apply after_dummies. by rewrite Hst.
Defined.

Lemma sim_powered blocks : unreset _ _ _ (sim_card_ok blocks) 0 (dummies 10).
Proof using. done. Qed.
End Card.
