(* ===== verification/BootGpt.v ===== *)
(** * Boot from a GPT partition

    [fpga/src/bootrom/src/gpt.c], [gpt.h] and [main.c]: the partition table is
    read from the SD card, shown on the console, and the first partition is
    copied to memory and jumped to.  The loader is modelled over the functions
    of [sd.h] ([Storage]) and [uart.h] ([Console]) it is linked with, and
    verified once against [StorageSpec]. *)

From Stdlib Require Import ZArith Lia String.
From stdpp Require Import base tactics list numbers.
From S2P Require Import Prelude Mmio Ns16550 BootUart BootSpi BootSd SdCard.

(** ** The structures on disk

    The boot ROM reads them through casts of a byte buffer; all fields are
    naturally aligned, so their offsets are the running sums of their sizes. *)

Definition u32_at (off : nat) (buf : list Z) : Z := le_combine (slice off 4 buf).
Definition u64_at (off : nat) (buf : list Z) : Z := le_combine (slice off 8 buf).

Record gpt_pth_t := {
  signature : Z;
  revision : Z;
  header_size : Z;
  crc_header : Z;
  reserved : Z;
  current_lba : Z;
  backup_lba : Z;
  first_usable_lba : Z;
  last_usable_lba : Z;
  disk_guid : list Z;
  partition_entries_lba : Z;
  nr_partition_entries : Z;
  size_partition_entry : Z;
  crc_partition_entry : Z
}.

Definition gpt_pth_of (buf : list Z) : gpt_pth_t := {|
  signature := u64_at 0 buf;
  revision := u32_at 8 buf;
  header_size := u32_at 12 buf;
  crc_header := u32_at 16 buf;
  reserved := u32_at 20 buf;
  current_lba := u64_at 24 buf;
  backup_lba := u64_at 32 buf;
  first_usable_lba := u64_at 40 buf;
  last_usable_lba := u64_at 48 buf;
  disk_guid := slice 56 16 buf;
  partition_entries_lba := u64_at 72 buf;
  nr_partition_entries := u32_at 80 buf;
  size_partition_entry := u32_at 84 buf;
  crc_partition_entry := u32_at 88 buf
|}.

Record partition_entries_t := {
  partition_type_guid : list Z;
  partition_guid : list Z;
  first_lba : Z;
  last_lba : Z;
  attributes : Z;
  name : list Z
}.

(** The entry at offset [off] of the buffer. *)
Definition partition_entry_of (off : nat) (buf : list Z) : partition_entries_t := {|
  partition_type_guid := slice (off + 0) 16 buf;
  partition_guid := slice (off + 16) 16 buf;
  first_lba := u64_at (off + 32) buf;
  last_lba := u64_at (off + 40) buf;
  attributes := u64_at (off + 48) buf;
  name := slice (off + 56) 72 buf
|}.

(** The functions of [sd.h]: [init_sd], and [sd_copy] with the bytes stored. *)
Class Storage (S : Type) := {
  storage_init : M S Z;
  storage_copy : Z -> Z -> M S (Z * list Z)
}.

Section Boot.
Context {S : Type} {Con : Console S} {Sto : Storage S}.

Definition print_bytes (l : list Z) : M S unit := foreach l board_print_byte.

Definition print_header (lba1 : gpt_pth_t) : M S unit :=
  board_print (cstr "gpt partition table header:") ;;;
  board_print (crlf ++ tab ++ string_bytes "signature:" ++ tab ++ [0]) ;;;
  board_print_addr (signature lba1) ;;;
  board_print (crlf ++ tab ++ string_bytes "revision:" ++ tab ++ [0]) ;;;
  board_print_int (revision lba1) ;;;
  board_print (crlf ++ tab ++ string_bytes "size:" ++ tab ++ tab ++ [0]) ;;;
  board_print_int (header_size lba1) ;;;
  board_print (crlf ++ tab ++ string_bytes "crc_header:" ++ tab ++ [0]) ;;;
  board_print_int (crc_header lba1) ;;;
  board_print (crlf ++ tab ++ string_bytes "reserved:" ++ tab ++ [0]) ;;;
  board_print_int (reserved lba1) ;;;
  board_print (crlf ++ tab ++ string_bytes "current lba:" ++ tab ++ [0]) ;;;
  board_print_addr (current_lba lba1) ;;;
  board_print (crlf ++ tab ++ string_bytes "backup lda:" ++ tab ++ [0]) ;;;
  board_print_addr (backup_lba lba1) ;;;
  board_print (crlf ++ tab ++ string_bytes "partition entries lba:   " ++ tab ++ [0]) ;;;
  board_print_addr (partition_entries_lba lba1) ;;;
  board_print (crlf ++ tab ++ string_bytes "number partition entries:" ++ tab ++ [0]) ;;;
  board_print_int (nr_partition_entries lba1) ;;;
  board_print (crlf ++ tab ++ string_bytes "size partition entries:  " ++ tab ++ [0]) ;;;
  board_print_int (size_partition_entry lba1) ;;;
  board_print (crlf ++ [0]).

Definition print_entry (i : Z) (part_entry : partition_entries_t) : M S unit :=
  board_print (cstr "gpt partition entry ") ;;;
  board_print_byte (u8 i) ;;;
  board_print (crlf ++ tab ++ string_bytes "partition type guid:" ++ tab ++ [0]) ;;;
  print_bytes (partition_type_guid part_entry) ;;;
  board_print (crlf ++ tab ++ string_bytes "partition guid:     " ++ tab ++ [0]) ;;;
  print_bytes (partition_guid part_entry) ;;;
  board_print (crlf ++ tab ++ string_bytes "first lba:" ++ tab ++ [0]) ;;;
  board_print_addr (first_lba part_entry) ;;;
  board_print (crlf ++ tab ++ string_bytes "last lba:" ++ tab ++ [0]) ;;;
  board_print_addr (last_lba part_entry) ;;;
  board_print (crlf ++ tab ++ string_bytes "attributes:" ++ tab ++ [0]) ;;;
  board_print_addr (attributes part_entry) ;;;
  board_print (crlf ++ tab ++ string_bytes "name:" ++ tab ++ [0]) ;;;
  print_bytes (name part_entry) ;;;
  board_print (crlf ++ [0]).

(** The three exits on a failed read. *)
Definition sd_card_failed (res : Z) : M S unit :=
  board_print (string_bytes "SD card failed!" ++ crlf ++ [0]) ;;;
  board_print (cstr "sd copy return value: ") ;;;
  board_print_addr (u64 res) ;;;
  board_print (crlf ++ [0]).

(** Returns the status and the bytes stored at [dest].  [announce] is what is
    printed before the image is copied, the only difference between the two
    copies of the file. *)
Definition find_boot_partition (announce : M S unit) (size : Z) : M S (Z * list Z) :=
  r <- storage_init ;;
  if negb (r =? 0) then
    board_print (string_bytes "could not initialize sd... exiting" ++ crlf ++ [0]) ;;;
    ret (-1, [])
  else
    board_print (string_bytes "sd initialized!" ++ crlf ++ [0]) ;;;
    r <- storage_copy 1 1 ;;
    let '(res, lba1_buf) := r in
    if negb (res =? 0) then sd_card_failed res ;;; ret (-2, []) else
    let lba1 := gpt_pth_of lba1_buf in
    print_header lba1 ;;;
    r <- storage_copy (u32 (partition_entries_lba lba1)) 1 ;;
    let '(res, lba2_buf) := r in
    if negb (res =? 0) then sd_card_failed res ;;; ret (-2, []) else
    foreach (seqZ 0 4)
      (fun i => print_entry i (partition_entry_of (Z.to_nat (i * 128)) lba2_buf)) ;;;
    let boot := partition_entry_of 0 lba2_buf in
    announce ;;;
    r <- storage_copy (u32 (first_lba boot)) size ;;
    let '(res, dest) := r in
    if negb (res =? 0) then sd_card_failed res ;;; ret (-2, dest) else
    board_print (string_bytes " done!" ++ crlf ++ [0]) ;;;
    ret (0, dest).

Definition gpt_find_boot_partition (size : Z) : M S (Z * list Z) :=
  find_boot_partition (board_print (cstr "copying boot image ")) size.
End Boot.

#[export] Instance sd_storage {S} {B : Board S} (fuel : nat) : Storage S := {|
  storage_init := init_sd fuel;
  storage_copy := sd_copy fuel
|}.

(** ** [main.c] *)

(** How [main] ends: in the copied image, or spinning.  [_dtb], the address of
    the device tree, is passed in [a1]. *)
Inductive boot_end := Jump (s0 : Z) (image : list Z) | Spin (image : list Z).

Definition boot_main (dev : device) (fuel : nat) : M trace boot_end :=
  @init_uart Fpga.uart_map 50000000 115200 ;;;
  @print_uart Fpga.uart_map dev fuel (string_bytes "Hello World!" ++ crlf ++ [0]) ;;;
  r <- gpt_find_boot_partition (Con := mmio_console dev fuel)
         (Sto := sd_storage (B := mmio_board dev fuel) fuel) (2 * 16384) ;;
  let '(res, image) := r in
  if res =? 0 then ret (Jump 0x80000000 image) else ret (Spin image).

(** ** What is booted *)

Lemma slice_bytes off n l : bytes l -> bytes (slice off n l).
Proof. intros Hl. by apply Forall_take, Forall_drop. Qed.

Lemma u64_at_range off buf : bytes buf -> 0 <= u64_at off buf < 256 ^ 8.
Proof.
  intros Hb. pose proof (le_combine_range (slice off 8 buf) (slice_bytes _ _ _ Hb)) as H.
  unfold u64_at. split; [apply H|]. eapply Z.lt_le_trans; [apply H|].
  apply Z.pow_le_mono_r; [done|]. unfold slice. rewrite length_take. lia.
Qed.

(** The block of the partition table and the first block of the image. *)
Definition table_lba (disk : Z -> list Z) : Z := partition_entries_lba (gpt_pth_of (disk 1)).
Definition boot_lba (disk : Z -> list Z) : Z :=
  first_lba (partition_entry_of 0 (disk (table_lba disk))).

(** What the loader needs of the two: [mounted] holds between two calls once
    [storage_init] has succeeded, [unmounted] before; transfers of up to [max]
    blocks below block [room] work. *)
Class StorageSpec {S} (Con : Console S) (Sto : Storage S) (disk : Z -> list Z) (max room : Z) := {
  unmounted : S -> Prop;
  mounted : S -> Prop;
  storage_init_spec s : unmounted s -> wp storage_init (fun r s' => r = 0 /\ mounted s') s;
  storage_copy_spec lba size s : mounted s -> 0 <= lba < 2 ^ 32 -> 1 <= size <= max ->
    lba + size <= room ->
    wp (storage_copy lba size)
       (fun r s' => r = (0, concat (disk <$> seqZ lba size)) /\ mounted s') s;
  console_print_spec text rest s : mounted s -> Forall (fun c => 0 < c < 256) text ->
    wp (board_print (text ++ 0 :: rest)) (fun _ s' => mounted s') s;
  console_int_spec z s : mounted s -> wp (board_print_int z) (fun _ s' => mounted s') s;
  console_addr_spec z s : mounted s -> wp (board_print_addr z) (fun _ s' => mounted s') s;
  console_byte_spec z s : mounted s -> byte z -> wp (board_print_byte z) (fun _ s' => mounted s') s
}.

Section Spec.
Context {S : Type} {Con : Console S} {Sto : Storage S} {disk : Z -> list Z} {max room : Z}.
Context {spec : StorageSpec Con Sto disk max room}.

Ltac show_step :=
  wp_call ltac:(first
    [ by apply console_addr_spec | by apply console_int_spec | by apply console_byte_spec
    | unfold cstr; rewrite ?(assoc_L (++)); apply console_print_spec;
      [done|apply (bool_decide_unpack _); by vm_compute] ]).
Ltac show_steps := repeat (show_step; intros [] ? ?).

Lemma print_bytes_mounted l s :
  mounted s -> bytes l -> wp (print_bytes l) (fun _ s' => mounted s') s.
Proof using.
  intros Hs Hl. unfold print_bytes. apply (wp_foreach _ _ (fun _ s => mounted s)); [done|].
  intros done x todo s' -> Hs'. apply Forall_app in Hl as [_ Hl]. inversion Hl; subst.
  by apply console_byte_spec.
Qed.

Lemma print_header_mounted lba1 s :
  mounted s -> wp (print_header lba1) (fun _ s' => mounted s') s.
Proof using. intros Hs. unfold print_header. by show_steps. Qed.

Lemma print_entry_mounted i off buf s :
  mounted s -> bytes buf ->
  wp (print_entry i (partition_entry_of off buf)) (fun _ s' => mounted s') s.
Proof using.
  intros Hs Hbuf. unfold print_entry.
  repeat (first [ wp_call ltac:(by apply print_bytes_mounted; [|apply slice_bytes])
                | wp_call ltac:(by apply console_byte_spec; [|apply u8_range]) | show_step ];
          intros [] ? ?).
  done.
Qed.

Lemma print_entries_mounted buf s :
  mounted s -> bytes buf ->
  wp (foreach (seqZ 0 4) (fun i => print_entry i (partition_entry_of (Z.to_nat (i * 128)) buf)))
     (fun _ s' => mounted s') s.
Proof using.
  intros Hs Hbuf. apply (wp_foreach _ _ (fun _ s => mounted s)); [done|].
  intros done x todo s' _ Hs'. by apply print_entry_mounted.
Qed.

Lemma one_block lba : concat (disk <$> seqZ lba 1) = disk lba.
Proof using. rewrite seqZ_cons by lia. simpl. apply app_nil_r. Qed.

Lemma boot_partition_found announce size s :
  unmounted s -> (forall s, mounted s -> wp announce (fun _ s' => mounted s') s) ->
  (forall lba, bytes (disk lba)) -> table_lba disk < 2 ^ 32 -> boot_lba disk < 2 ^ 32 ->
  1 <= size <= max ->
  2 <= room -> table_lba disk + 1 <= room -> boot_lba disk + size <= room ->
  wp (find_boot_partition announce size)
     (fun r s' => r = (0, concat (disk <$> seqZ (boot_lba disk) size)) /\ mounted s') s.
Proof using.
  intros Hs Hann Hbytes Htable Hboot Hsize Hr1 Hr2 Hr3. unfold find_boot_partition.
  assert (0 <= table_lba disk) by (apply u64_at_range, Hbytes).
  assert (0 <= boot_lba disk) by (apply u64_at_range, Hbytes).
  wp_call ltac:(by apply storage_init_spec). intros r s1 [-> Hs1].
  cbn [Z.eqb negb]. show_step. intros [] s2 Hs2.
  wp_call ltac:(by apply storage_copy_spec; [|lia|lia|lia]).
  intros r s3 [-> Hs3]. rewrite one_block. cbn [Z.eqb negb].
  wp_call ltac:(by apply print_header_mounted). intros [] s4 Hs4. fold (table_lba disk).
  rewrite u32_id by (clear Hboot; lia).
  wp_call ltac:(by apply storage_copy_spec; [|split; [|exact Htable]|lia|]).
  intros r s5 [-> Hs5]. rewrite one_block. cbn [Z.eqb negb].
  wp_call ltac:(by apply print_entries_mounted). intros [] s6 Hs6.
  wp_call ltac:(by apply Hann). intros [] s7 Hs7. fold (boot_lba disk).
  rewrite u32_id by (clear Htable; lia).
  wp_call ltac:(by apply storage_copy_spec; [|split; [|exact Hboot]| |]).
  intros r s8 [-> Hs8]. cbn [Z.eqb negb].
  show_step. intros [] s9 Hs9. by apply wp_ret.
Qed.
End Spec.

(** The SD card driver is such a storage. *)
Section Discharge.
Context {S : Type} {B : Board S} {card : list Z -> Z} {spec : BoardSpec B card}.
Context (fuel : nat) {disk : Z -> list Z} {gmax imax : nat}.
Context (C : sd_card (card := card) disk gmax imax) (m : nat).
Context (tries : Z.of_nat m <= 9998) (enough : 10000 < Z.of_nat fuel).
Context (enough_init : (100 + imax <= fuel)%nat) (enough_gap : (gmax <= fuel)%nat).

#[export] Instance sd_storage_spec : StorageSpec board_console (sd_storage fuel) disk (Z.of_nat fuel) (capacity _ _ _ C).
Proof using spec C m tries enough enough_init enough_gap.
  refine {| unmounted := fun s => exists h, off_ h s /\ unreset _ _ _ C m (h ++ dummies 10);
            mounted := fun s => exists h, at_ h s /\ idle _ _ _ C h |}.
  - intros s (h & Hs & Hu). eapply wp_mono; [by apply (init_sd_ready fuel C m h)|].
    intros r s' (-> & h' & ? & ?). split; [done|]. by exists h'.
  - intros lba size s (h & Hs & Hh) Hlba Hsize Hroom.
    eapply wp_mono; [apply (sd_copy_reads fuel C lba size h); try done; lia|].
    intros r s' (-> & h' & ? & ?). rewrite Z.max_r by lia. split; [done|]. by exists h'.
  - intros text rest s (h & Hs & Hh) HF. eapply wp_mono; [by apply print_at|].
    intros [] s' Hs'. by exists h.
  - intros z s (h & Hs & Hh). eapply wp_mono; [by apply print_int_at|].
    intros [] s' Hs'. by exists h.
  - intros z s (h & Hs & Hh). eapply wp_mono; [by apply print_addr_at|].
    intros [] s' Hs'. by exists h.
  - intros z s (h & Hs & Hh) Hz. eapply wp_mono; [by apply print_byte_at|].
    intros [] s' Hs'. by exists h.
Defined.
End Discharge.
