(* ===== verification/BootSpec.v ===== *)
(** * What the boot ROM guarantees

    The properties of the SD card driver, of the partition loader and of
    [main], with a witness for each on the executable card of SdCard.v. *)

From Stdlib Require Import ZArith Lia String.
From stdpp Require Import base tactics list numbers.
From S2P Require Import Prelude Mmio Ns16550 BootUart BootSpi BootSd SdCard BootGpt.

(** ** A card to boot from *)

(** 34 is the block of the image; the table is in block 2. *)
Definition demo_disk (lba : Z) : list Z :=
  if lba =? 1 then replicate 72 0 ++ le_split 8 2 ++ replicate 432 0
  else if lba =? 2 then replicate 32 0 ++ le_split 8 34 ++ replicate 472 0
  else replicate 512 (u8 lba).

Lemma replicate_bytes n b : byte b -> bytes (replicate n b).
Proof. intros Hb. by apply Forall_replicate. Qed.

Lemma demo_disk_ok lba : length (demo_disk lba) = 512%nat /\ bytes (demo_disk lba).
Proof.
  unfold demo_disk. destruct (lba =? 1); [|destruct (lba =? 2)]; split;
    rewrite ?length_app, ?length_replicate, ?le_split_length; try done;
    repeat first [ apply replicate_bytes | apply le_split_bytes | apply Forall_app; split ];
    first [done|apply u8_range].
Qed.

Abbreviation demo_card := (sim_card demo_disk).

Lemma demo_spi : axi_quad_spi (spi_device demo_card) demo_card fast_shifted.
Proof. apply spi_device_ok, sim_card_byte, demo_disk_ok. Qed.

(** A board that [main] starts on: reset, with the UART initialised. *)
Lemma boot_main_from_reset dev card shifted fuel Q :
  axi_quad_spi dev card shifted ->
  (forall t, spi_powered shifted reset_uart t -> spi_sent t = [] ->
     wp (_ <- @print_uart Fpga.uart_map dev fuel (string_bytes "Hello World!" ++ crlf ++ [0]) ;;
         r <- gpt_find_boot_partition (Con := mmio_console dev fuel)
                (Sto := sd_storage (B := mmio_board dev fuel) fuel) (2 * 16384) ;;
         let '(res, image) := r in
         if res =? 0 then ret (Jump 0x80000000 image) else ret (Spin image)) Q t) ->
  wp (boot_main dev fuel) Q [].
Proof.
  intros Hspi H. unfold boot_main. apply wp_bind. eapply wp_eq; [by vm_compute|].
  apply H; [|by vm_compute].
  match goal with |- spi_powered _ _ ?t =>
    exists [], 0x180, 0xffffffff, (@uart_after Fpga.uart_map reset_uart t); pose proof (spi_bound _ _ _ Hspi t) as Hb end.
  split; [by vm_compute|]. split; try by vm_compute. simpl in Hb |- *. lia.
Qed.

(** C1: booting.  With the AXI SPI core and the UART working as their data
    sheets say (bytes reach the card only while the core is enabled, not inhibited
    and the card selected), the delays of the driver long enough for the bytes
    queued to go out, and, on the wires, a card that follows the SPI mode of the SD
    specification and holds a GPT disk whose table and image lie within its
    capacity (CMD0 may have to be tried up to 9999 times), [main] ends by jumping
    to 0x80000000 with, stored there, the 32768 blocks of the disk that start at
    the first block of the first partition of the table. *)
Theorem boot_main_loads_first_partition dev card shifted disk n gmax imax fuel
    (C : sd_card (card := card) disk gmax imax) m :
  axi_quad_spi dev card shifted -> delays_suffice shifted -> @uart_live Fpga.uart_map dev n ->
  (257 * (n + 1) <= fuel)%nat -> (100 + imax <= fuel)%nat -> (gmax <= fuel)%nat ->
  2 * 16384 <= Z.of_nat fuel ->
  unreset _ _ _ C m (dummies 10) -> Z.of_nat m <= 9998 ->
  (forall lba, bytes (disk lba)) -> table_lba disk < 2 ^ 32 -> boot_lba disk < 2 ^ 32 ->
  2 <= capacity _ _ _ C -> table_lba disk < capacity _ _ _ C -> boot_lba disk + 32768 <= capacity _ _ _ C ->
  wp (boot_main dev fuel)
     (fun r _ => r = Jump 0x80000000 (concat (disk <$> seqZ (boot_lba disk) 32768))) [].
Proof.
  intros Hspi Hdel Hlive Hn Hi Hg Hsize Hu Hm Hbytes Htable Hboot Hc1 Hc2 Hc3.
  apply (boot_main_from_reset dev card shifted); [done|]. intros t Hpower Hsent.
  pose (spec := mmio_board_spec dev card shifted n fuel reset_uart Hspi Hdel Hlive Hn).
  wp_call ltac:(by apply (print_off (B := mmio_board dev fuel) (spec := spec) (string_bytes "Hello World!" ++ crlf) [] []);
    [split|apply (bool_decide_unpack _); vm_compute]).
  intros [] s1 Hs1.
  assert (10000 < Z.of_nat fuel) as Hf by lia.
  pose (sto := sd_storage_spec (spec := spec) fuel C m Hm Hf Hi Hg).
  wp_call ltac:(apply (boot_partition_found (spec := sto)); [by exists []| |done..|lia|lia|lia|lia]).
  { intros s (h & Hs & Hh). eapply wp_mono; [by apply (print_at (spec := spec));
      [|apply (bool_decide_unpack _); vm_compute]|]. intros [] s' Hs'. by exists h. }
  intros r s2 [-> _]. by apply wp_ret.
Qed.

Example boot_main_loads_first_partition_witness :
  wp (boot_main (spi_device demo_card) (Z.to_nat 32768))
     (fun r _ => r = Jump 0x80000000 (concat (demo_disk <$> seqZ 34 32768))) [].
Proof.
  apply (boot_main_loads_first_partition (spi_device demo_card) demo_card fast_shifted demo_disk 1 1 0
           (Z.to_nat 32768) (sim_card_ok demo_disk demo_disk_ok 65536) 0);
    [apply demo_spi|apply fast_delays|apply spi_device_live|lia..|done|lia|intros; apply demo_disk_ok
    |done|done|done|done|by vm_compute].
Defined.

(** Without a card.  If no answer to CMD0 is ever 1 (an absent card answers
    0xff for ever), [init_sd] gives up after its 10000 attempts, and [main]
    spins with nothing copied. *)
Theorem boot_main_spins_without_card dev card shifted n fuel :
  axi_quad_spi dev card shifted -> delays_suffice shifted -> @uart_live Fpga.uart_map dev n ->
  (257 * (n + 1) <= fuel)%nat -> 10000 <= Z.of_nat fuel ->
  (forall h k r, reply card (h ++ frame 0 0 0x95) k r -> r <> 1) ->
  wp (boot_main dev fuel) (fun r _ => r = Spin []) [].
Proof.
  intros Hspi Hdel Hlive Hn Hf Hnever. apply (boot_main_from_reset dev card shifted); [done|]. intros t Hpower Hsent.
  pose (spec := mmio_board_spec dev card shifted n fuel reset_uart Hspi Hdel Hlive Hn).
  wp_call ltac:(by apply (print_off (B := mmio_board dev fuel) (spec := spec) (string_bytes "Hello World!" ++ crlf) [] []);
    [split|apply (bool_decide_unpack _); vm_compute]).
  intros [] s1 Hs1. unfold gpt_find_boot_partition, find_boot_partition.
  wp_call ltac:(by eapply (init_sd_fails (spec := spec))). intros r s2 (-> & h2 & Hs2).
  cbn [Z.eqb negb SD_INIT_ERROR_CMD0].
  wp_call ltac:(by apply (print_at (B := mmio_board dev fuel) (spec := spec)
      (string_bytes "could not initialize sd... exiting" ++ crlf) [] h2);
    [|apply (bool_decide_unpack _); vm_compute]).
  intros [] s3 _. by apply wp_ret, wp_ret.
Qed.

Example boot_main_spins_without_card_witness :
  wp (boot_main (spi_device (fun _ => 0xff)) (Z.to_nat 10000)) (fun r _ => r = Spin []) [].
Proof.
  apply (boot_main_spins_without_card (spi_device (fun _ => 0xff)) (fun _ => 0xff) fast_shifted 1 (Z.to_nat 10000));
    [by apply spi_device_ok|apply fast_delays|apply spi_device_live|lia..|].
  by intros h k r (_ & -> & _).
Defined.

(** C2: no silent corruption.  On any card whatsoever, if [sd_copy] returns at
    all: it returns -1 with nothing stored; or 0, and then it has stored one
    block at least and as many as asked for, each of which came off the wires
    between a data token and its own CRC-16; or -2, and then the same holds of
    all the blocks stored but the last, whose CRC-16 was wrong. *)
Theorem sd_copy_stores_checked_blocks {S} (B : Board S) card (spec : BoardSpec B card)
    fuel lba size s :
  ready s -> (100 <= fuel)%nat ->
  wlp (sd_copy fuel lba size)
      (fun r _ =>
         r = (-1, [])
         \/ exists k ps,
              streams (card := card) (sent s ++ frame 18 lba 1 ++ dummies k) (wires ps)
              /\ Forall well_formed ps /\ snd r = payload ps
              /\ ((fst r = 0 /\ Forall (fun p => check p = crc16_of (data p)) ps
                   /\ Z.of_nat (length ps) = Z.max 1 size)
                  \/ (fst r = -2 /\ exists l p, ps = l ++ [p]
                        /\ Forall (fun p => check p = crc16_of (data p)) l
                        /\ check p <> crc16_of (data p)
                        /\ Z.of_nat (length ps) <= Z.max 1 size))) s.
Proof.
  intros Hs Hf. eapply wlp_mono; [by apply (sd_copy_any (spec := spec) fuel lba size (sent s))|].
  intros [rc w] s' (k & r & Hk & Hno & Hyes). destruct (decide (r = 0)) as [->|Hr]; [|left; auto].
  destruct (Hyes eq_refl) as (ps & Hps & Hst & Hr). right. exists k, ps.
  apply copied_inv in Hr as [-> Hcase]. split_and!; [done..|].
  assert (forall l, Forall (fun p => intact p = true) l ->
            Forall (fun p => check p = crc16_of (data p)) l) as Hint.
  { intros l. apply Forall_impl. intros p Hp. by apply Z.eqb_eq in Hp. }
  destruct Hcase as [(-> & HF & Hlen)|(-> & l & p & -> & HF & Hp & Hlen)]; [left|right].
  - by split_and!; [|apply Hint|].
  - split; [done|]. exists l, p. split_and!; [done|by apply Hint| |done].
    intros E. unfold intact in Hp. by rewrite E, Z.eqb_refl in Hp.
Qed.

Example sd_copy_stores_checked_blocks_witness :
  wlp (sd_copy (B := wire_board demo_card) 100 34 1)
      (fun r _ =>
         r = (-1, [])
         \/ exists k ps,
              streams (card := demo_card) (frame 18 34 1 ++ dummies k) (wires ps)
              /\ Forall well_formed ps /\ snd r = payload ps
              /\ ((fst r = 0 /\ Forall (fun p => check p = crc16_of (data p)) ps
                   /\ Z.of_nat (length ps) = 1)
                  \/ (fst r = -2 /\ exists l p, ps = l ++ [p]
                        /\ Forall (fun p => check p = crc16_of (data p)) l
                        /\ check p <> crc16_of (data p)
                        /\ Z.of_nat (length ps) <= 1))) ([], []).
Proof.
  apply (sd_copy_stores_checked_blocks (wire_board demo_card) demo_card
           (wire_board_spec demo_card (sim_card_byte demo_disk demo_disk_ok)) 100 34 1 ([], []));
    [exact I|lia].
Defined.

(** C3: [sd_copy] refines [copied].  Whatever packets follow the response to
    CMD18, with or without correct checksums, [sd_copy] ends, with exactly the
    status and the bytes the list program [copied] computes from them: it stops
    at the first wrong checksum, and a [size] of 0 still transfers a block.
    The card is then told to stop. *)
Theorem sd_copy_refines_copied {S} (B : Board S) card (spec : BoardSpec B card)
    fuel lba size k ps r s :
  ready s -> reply card (sent s ++ frame 18 lba 1) k 0 ->
  let h := sent s ++ frame 18 lba 1 ++ dummies k in
  streams (card := card) h (wires ps) -> Forall well_formed ps -> copied size [] ps = Some r ->
  (100 <= fuel)%nat -> Forall (fun p => (length (gap p) < fuel)%nat) ps -> (length ps <= fuel)%nat ->
  wp (sd_copy fuel lba size)
     (fun r' s' => r' = r /\ ready s'
        /\ exists k', sent s' = (h ++ dummies (length (wires ps))) ++ frame 12 0 1 ++ dummies (1 + k')) s.
Proof.
  intros Hs Hk h Hst Hps Hr Hf Hgap Hlen.
  eapply wp_mono; [by apply (sd_copy_known (spec := spec) fuel lba size (sent s) k ps r)|].
  intros r' s' [-> (k' & r0 & _ & [Hs' Hsent])]. split_and!; [done..|]. by exists k'.
Qed.

(** A card that answers the read with two blocks, the second one damaged. *)
Definition damaged : list packet :=
  [{| gap := [0xff]; data := replicate 512 7; check := crc16_of (replicate 512 7) |};
   {| gap := []; data := replicate 512 9; check := 0 |}].

Definition damaged_card (h : list Z) : Z :=
  nth (length h - 8) (0 :: wires damaged) 0xff.

Lemma damaged_card_byte h : byte (damaged_card h).
Proof.
  unfold damaged_card.
  destruct (nth_in_or_default (length h - 8) (0 :: wires damaged) 0xff) as [Hin| ->]; [|done].
  eapply List.Forall_forall in Hin; [exact Hin|]. apply (bool_decide_unpack _). by vm_compute.
Qed.

Example sd_copy_refines_copied_witness :
  wp (sd_copy (B := wire_board damaged_card) 100 34 5)
     (fun r' s' => r' = (-2, replicate 512 7 ++ replicate 512 9) /\ True
        /\ exists k', fst s' = ((frame 18 34 1 ++ dummies 1) ++ dummies (length (wires damaged)))
                               ++ frame 12 0 1 ++ dummies (1 + k')) ([], []).
Proof.
  apply (sd_copy_refines_copied (wire_board damaged_card) damaged_card
           (wire_board_spec damaged_card damaged_card_byte) 100 34 5 1 damaged
           (-2, replicate 512 7 ++ replicate 512 9) ([], [])).
  - exact I.
  - split_and!; [lia|lia|by vm_compute|lia|left; by vm_compute].
  - by vm_compute.
  - repeat constructor; by apply (bool_decide_unpack _); vm_compute.
  - by vm_compute.
  - lia.
  - repeat constructor; simpl; lia.
  - simpl; lia.
Defined.

(** [crc16] is the CCITT checksum: on every register and byte it gives what
    shifting the eight bits, most significant first, through the 16-bit
    feedback register with polynomial 0x1021 gives. *)
Theorem crc16_is_ccitt crc data :
  0 <= crc < 65536 -> byte data -> crc16 crc data = crc_bits crc data.
Proof. apply crc16_crc_bits. Qed.

Example crc16_is_ccitt_witness : 
  crc16_of (string_bytes "123456789") = 0x31c3 /\ crc16 0x1234 0xab = crc_bits 0x1234 0xab.
Proof. split; [by vm_compute|apply crc16_is_ccitt; unfold byte; lia]. Defined.

(** C37: what a correct checksum excludes: two blocks that differ only within
    two neighbouring bytes (so in a burst of up to 9 bits at least, wherever it
    falls, and up to 16 on a byte boundary) never have the same CRC-16. *)
Theorem crc16_detects_bursts pre x1 x2 y1 y2 post :
  byte x1 -> byte x2 -> byte y1 -> byte y2 ->
  crc16_of (pre ++ x1 :: x2 :: post) = crc16_of (pre ++ y1 :: y2 :: post) ->
  x1 = y1 /\ x2 = y2.
Proof.
  intros Hx1 Hx2 Hy1 Hy2. unfold crc16_of. rewrite !foldl_app. cbn [foldl].
  generalize (foldl crc16 0 pre). intros s H. apply (crc16_pair s); [done..|].
  assert (0 <= crc16 (crc16 s x1) x2 < 65536 /\ 0 <= crc16 (crc16 s y1) y2 < 65536) as [Ha Hb]
    by (split; apply crc16_range).
  revert H Ha Hb. generalize (crc16 (crc16 s x1) x2) (crc16 (crc16 s y1) y2).
  induction post as [|z post IH]; intros a b H Ha Hb; [done|].
  apply IH in H; [|apply crc16_range..]. by apply (crc16_injective a b z).
Qed.

Example crc16_detects_bursts_witness : 3 = 3 /\ 4 = 4.
Proof.
  apply (crc16_detects_bursts [1; 2] 3 4 3 4 [5]); [unfold byte; lia..|by vm_compute].
Defined.
