(* ===== verification/PitonBoot.v ===== *)
(** * The boot ROM of the OpenPiton platform

    [openpiton/bootrom/linux/src/]: the SD controller of that platform maps the
    card in memory, so [sd.c] is a copy loop with a progress message; [gpt.c]
    is the loader of BootGpt.v.  [sd_copy] returns, as in BootSd.v, the bytes
    it stores at [dst]. *)

From Stdlib Require Import ZArith Lia String.
From stdpp Require Import base tactics list numbers.
From S2P Require Import Prelude Mmio Ns16550 BootUart BootSpi BootGpt.

Definition PITON_SD_BASE_ADDR : Z := 0xf000000000.
Definition PITON_SD_LENGTH : Z := 0xff0300000.

(** The blocks of the mapping. *)
Definition PITON_SD_BLOCKS : Z := PITON_SD_LENGTH / 512.

Section Driver.
#[local] Existing Instance Piton.uart_map.
Context (dev : device) (fuel : nat).

Abbreviation print str := (piton_print_uart dev fuel 0 str).
Abbreviation print_dec z := (piton_print_uart_dec dev fuel z 1).

Definition piton_init_sd : M trace Z :=
  print (string_bytes "initializing SD... " ++ crlf ++ [0]) ;;;
  ret 0.

(** The progress message, over the previous one of [num_chars] characters. *)
Definition show_progress (num_chars blk size : Z) : M trace Z :=
  foreach (seqZ 0 num_chars) (fun _ => print [8; 0] ;;; ret tt) ;;;
  n <- print (cstr "copying block ") ;;
  let num_chars := u32 n in
  n <- print_dec blk ;;
  let num_chars := u32 (num_chars + n) in
  n <- print (cstr " of ") ;;
  let num_chars := u32 (num_chars + n) in
  n <- print_dec size ;;
  let num_chars := u32 (num_chars + n) in
  n <- print (cstr " blocks (") ;;
  let num_chars := u32 (num_chars + n) in
  n <- print_dec (u32 (blk * 100) / size) ;;
  let num_chars := u32 (num_chars + n) in
  n <- print (cstr " %)") ;;
  ret (u32 (num_chars + n)).

(** [*(p++) = *(addr++)]; [w] is what has been stored. *)
Definition copy_word (st : Z * list Z) (_ : Z) : M trace (Z * list Z) :=
  let '(addr, w) := st in
  v <- load64 dev addr ;;
  ret (u64 (addr + 8), w ++ le_split 8 v).

Definition piton_copy_block (size : Z) (st : Z * (Z * list Z)) (blk : Z)
    : M trace (Z * (Z * list Z)) :=
  let '(num_chars, p) := st in
  num_chars <- (if blk mod 100 =? 0 then show_progress num_chars blk size else ret num_chars) ;;
  p <- foldM (seqZ 0 64) copy_word p ;;
  ret (num_chars, p).

Definition piton_sd_copy (src_lba size : Z) : M trace (Z * list Z) :=
  let raw_addr := u64 (PITON_SD_BASE_ADDR + u64 (Z.shiftl src_lba 9)) in
  st <- foldM (seqZ 0 size) (piton_copy_block size) (0, (raw_addr, [])) ;;
  let '(_, (_, w)) := st in
  print (crlf ++ [0]) ;;;
  ret (0, w).

Definition piton_console : Console trace := {|
  board_print str := print str ;;; ret tt;
  board_print_int z := piton_print_uart_int dev fuel z ;;; ret tt;
  board_print_addr z := piton_print_uart_addr dev fuel z ;;; ret tt;
  board_print_byte z := piton_print_uart_byte dev fuel z ;;; ret tt
|}.

Definition piton_storage : Storage trace := {|
  storage_init := piton_init_sd;
  storage_copy := piton_sd_copy
|}.

Definition piton_announce : M trace unit :=
  print (cstr "copying boot image ") ;;;
  print (crlf ++ [0]) ;;;
  ret tt.

Definition piton_gpt_find_boot_partition (size : Z) : M trace (Z * list Z) :=
  @find_boot_partition _ piton_console piton_storage piton_announce size.

(** [UART_FREQ] and [info] come from the build.  Returns the image too, which
    the start-up code jumps to. *)
Definition piton_main (UART_FREQ : Z) (info : list Z) : M trace (Z * list Z) :=
  piton_init_uart UART_FREQ 115200 ;;;
  print info ;;;
  print (string_bytes "sd initialized!" ++ crlf ++ [0]) ;;;
  r <- piton_gpt_find_boot_partition (2 * 16384) ;;
  let '(_, image) := r in
  ret (0, image).
End Driver.

(** ** What is shown *)

Definition progress_message (blk size : Z) : list Z :=
  string_bytes "copying block " ++ dec_text 10 blk 1 ++ string_bytes " of "
  ++ dec_text 10 size 1 ++ string_bytes " blocks (" ++ dec_text 10 (u32 (blk * 100) / size) 1
  ++ string_bytes " %)".

(** The messages of the blocks [blks], the first one over [prev] characters:
    each erases the one before, character by character. *)
Fixpoint progress (size : Z) (prev : nat) (blks : list Z) : list Z :=
  match blks with
  | [] => []
  | blk :: blks =>
      if blk mod 100 =? 0 then
        replicate prev 8 ++ progress_message blk size
        ++ progress size (length (progress_message blk size)) blks
      else progress size prev blks
  end.

Lemma progress_length blk size : (length (progress_message blk size) <= 100)%nat.
Proof.
  unfold progress_message. rewrite !length_app.
  pose proof (dec_text_length 10 blk 1). pose proof (dec_text_length 10 size 1).
  pose proof (dec_text_length 10 (u32 (blk * 100) / size) 1). cbn [string_bytes length]. lia.
Qed.

Section Spec.
#[local] Existing Instance Piton.uart_map.
Context (dev : device) (n fuel : nat) (u0 : ns16550).
Context (live : uart_live dev n) (enough : (n <= fuel)%nat).

(** From [t] to [t'] the UART sent [text]; there may be other loads. *)
Definition shows (text : list Z) (t t' : trace) : Prop :=
  uart_after u0 t' = push_line (uart_after u0 t) text.

Lemma shows_nil t : shows [] t t.
Proof using. unfold shows. by rewrite push_line_nil. Qed.

Lemma shows_trans x y t1 t2 t3 : shows x t1 t2 -> shows y t2 t3 -> shows (x ++ y) t1 t3.
Proof using. unfold shows. intros H1 H2. by rewrite H2, H1, push_line_app. Qed.

Lemma shows_dlab x t t' :
  shows x t t' -> dlab (uart_after u0 t) = false -> dlab (uart_after u0 t') = false.
Proof using. intros -> Hd. exact Hd. Qed.

Lemma prints_shows x t t' : prints u0 x t t' -> shows x t t'.
Proof using. by intros [H _]. Qed.

Lemma print_shows num text rest t :
  Forall (fun c => 0 < c < 256) text -> dlab (uart_after u0 t) = false ->
  0 <= num -> num + Z.of_nat (length text) < 2147483648 ->
  wp (piton_print_uart dev fuel num (text ++ 0 :: rest))
     (fun r t' => shows text t t' /\ r = num + Z.of_nat (length text)) t.
Proof using live enough.
  intros HF. revert num t. induction HF as [|c text Hc HF IH]; intros num t Hd Hnum Hlen; simpl.
  - apply wp_ret. split; [apply shows_nil|lia].
  - destruct (Z.eqb_spec c 0) as [->|_]; [lia|].
    apply wp_bind. eapply wp_mono; [by eapply write_serial_prints|].
    intros [] t1 P1%prints_shows. cbn [length] in Hlen. rewrite s32_id by lia.
    eapply wp_mono; [apply IH; [by eapply shows_dlab|lia|lia]|].
    intros r t2 [P2 ->]. rewrite !u8_id in P1 by (try apply u8_range; lia).
    split; [by apply (shows_trans [c] text _ t1)|lia].
Qed.

Lemma dec_shows v t :
  0 <= v < 4294967296 -> dlab (uart_after u0 t) = false ->
  wp (piton_print_uart_dec dev fuel v 1)
     (fun r t' => shows (dec_text 10 v 1) t t' /\ r = Z.of_nat (length (dec_text 10 v 1))) t.
Proof using live enough.
  intros Hv Hd. eapply wp_mono; [by apply (piton_print_uart_dec_run dev n fuel u0 live enough)|].
  by intros r t' [HP%prints_shows ->].
Qed.

Lemma erase_shows k t :
  dlab (uart_after u0 t) = false ->
  wp (foreach (seqZ 0 (Z.of_nat k)) (fun _ => piton_print_uart dev fuel 0 [8; 0] ;;; ret tt))
     (fun _ t' => shows (replicate k 8) t t') t.
Proof using live enough.
  intros Hd. eapply wp_mono.
  - apply (wp_foreach _ _ (fun done t' => shows (replicate (length done) 8) t t')).
    + apply shows_nil.
    + intros done x todo t1 _ P1. apply wp_bind.
      eapply wp_mono; [by apply (print_shows 0 [8] []); [|by eapply shows_dlab| |]; [repeat constructor| |]|].
      intros r t2 [P2 _]. apply wp_ret. rewrite length_app. rewrite replicate_add.
      by eapply shows_trans.
  - intros [] t'. by rewrite length_seqZ, Nat2Z.id.
Qed.

(** Showing one thing after the other. *)
Lemma shows_bind {A B} (m : M trace A) (k : A -> M trace B) x y t (Q : A -> Prop) (R : B -> Prop) :
  dlab (uart_after u0 t) = false ->
  wp m (fun a t' => shows x t t' /\ Q a) t ->
  (forall a t', dlab (uart_after u0 t') = false -> Q a ->
     wp (k a) (fun b t'' => shows y t' t'' /\ R b) t') ->
  wp (bind m k) (fun b t' => shows (x ++ y) t t' /\ R b) t.
Proof using.
  intros Hd Hm Hk. apply wp_bind. eapply wp_mono; [exact Hm|].
  intros a t' [HP HQ]. eapply wp_mono; [by apply Hk; [eapply shows_dlab|]|].
  intros b t'' [HP' HR]. split; [by eapply shows_trans|done].
Qed.

Lemma print_literal s t :
  Forall (fun c => 0 < c < 256) (string_bytes s) -> (length (string_bytes s) <= 100)%nat ->
  dlab (uart_after u0 t) = false ->
  wp (piton_print_uart dev fuel 0 (cstr s))
     (fun r t' => shows (string_bytes s) t t' /\ r = Z.of_nat (length (string_bytes s))) t.
Proof using live enough.
  intros HF Hlen Hd. eapply wp_mono; [apply (print_shows 0 (string_bytes s) []); try done; lia|].
  intros r t' [HP ->]. split; [done|lia].
Qed.

Ltac literal := apply print_literal; [apply (bool_decide_unpack _); by vm_compute|simpl; clear; lia|done].

Lemma show_progress_shows k blk size t :
  dlab (uart_after u0 t) = false -> 0 <= blk < size -> size < 4294967296 ->
  wp (show_progress dev fuel (Z.of_nat k) blk size)
     (fun r t' => shows (replicate k 8 ++ progress_message blk size) t t'
                  /\ r = Z.of_nat (length (progress_message blk size))) t.
Proof using live enough.
  intros Hd Hblk Hsize. unfold show_progress.
  assert (0 <= u32 (blk * 100) / size < 4294967296) as Hpct.
  { pose proof (u32_range (blk * 100)). split; [apply Z.div_pos; lia|].
    apply Z.div_lt_upper_bound; nia. }
  pose proof (progress_length blk size) as Hlen. unfold progress_message in *.
  rewrite !length_app in *.
  apply (shows_bind _ _ _ _ _ (fun _ => True)); [done| |].
  { eapply wp_mono; [by apply erase_shows|done]. }
  clear t Hd. intros _ t Hd _.
  eapply shows_bind; [done|literal|]. clear t Hd. intros r t Hd ->.
  eapply shows_bind; [done|apply dec_shows; [lia|done]|]. clear t Hd. intros r t Hd ->.
  eapply shows_bind; [done|literal|]. clear t Hd. intros r t Hd ->.
  eapply shows_bind; [done|apply dec_shows; [lia|done]|]. clear t Hd. intros r t Hd ->.
  eapply shows_bind; [done|literal|]. clear t Hd. intros r t Hd ->.
  eapply shows_bind; [done|apply dec_shows; [lia|done]|]. clear t Hd. intros r t Hd ->.
  apply wp_bind. eapply wp_mono; [literal|]. intros r t' [HP ->]. apply wp_ret. split; [done|].
  repeat match goal with |- context [u32 ?a] => rewrite (u32_id a) by lia end. lia.
Qed.

(** ** The copy *)

Context (disk : Z -> list Z).
Context (disk_ok : forall lba, length (disk lba) = 512%nat /\ bytes (disk lba)).

(** The controller shows block [lba] at [PITON_SD_BASE_ADDR + 512 * lba]. *)
Context (mapped : forall t lba j, 0 <= lba < PITON_SD_BLOCKS -> (j < 64)%nat ->
  dev t (PITON_SD_BASE_ADDR + 512 * lba + 8 * Z.of_nat j)
  = le_combine (slice (8 * j) 8 (disk lba))).

Lemma word_at lba j t :
  0 <= lba < PITON_SD_BLOCKS -> (j < 64)%nat ->
  le_split 8 (u64 (dev t (PITON_SD_BASE_ADDR + 512 * lba + 8 * Z.of_nat j)))
  = slice (8 * j) 8 (disk lba).
Proof using disk_ok mapped.
  intros Hlba Hj. destruct (disk_ok lba) as [Hlen Hb].
  assert (length (slice (8 * j) 8 (disk lba)) = 8%nat) as Hs
    by (apply slice_length; rewrite Hlen; clear -Hj; lia).
  pose proof (slice_bytes (8 * j) 8 _ Hb) as Hsb.
  pose proof (le_combine_range _ Hsb) as Hr. rewrite Hs in Hr.
  rewrite mapped, u64_id by done. rewrite <-Hs at 1. by apply le_split_combine.
Qed.

Lemma block_copied lba w t :
  0 <= lba < PITON_SD_BLOCKS ->
  wp (foldM (seqZ 0 64) (copy_word dev) (PITON_SD_BASE_ADDR + 512 * lba, w))
     (fun p t' => p = (PITON_SD_BASE_ADDR + 512 * (lba + 1), w ++ disk lba) /\ shows [] t t') t.
Proof using disk_ok mapped.
  intros Hlba. eapply wp_mono.
  - apply (wp_foldM _ _ (fun done p t' =>
      p = (PITON_SD_BASE_ADDR + 512 * lba + 8 * Z.of_nat (length done),
           w ++ take (8 * length done) (disk lba)) /\ shows [] t t')).
    + split; [|apply shows_nil]. simpl. by rewrite Z.add_0_r, app_nil_r.
    + intros done x todo p t1 Hsplit [-> P1]. unfold copy_word, load64, bind, wp, ret.
      assert (length done < 64)%nat as Hlt.
      { apply (f_equal length) in Hsplit. rewrite length_seqZ, length_app in Hsplit.
        simpl in Hsplit. clear -Hsplit. lia. }
      split; [|exact P1]. rewrite word_at by done. rewrite length_app. simpl length.
      f_equal.
      * unfold PITON_SD_BASE_ADDR. change PITON_SD_BLOCKS with 133699584 in Hlba.
        clear -Hlba Hlt. rewrite u64_id by lia. lia.
      * rewrite <-(assoc_L (++)). f_equal. unfold slice.
        replace (8 * (length done + 1))%nat with (8 * length done + 8)%nat by (clear; lia).
        apply take_take_drop.
  - intros p t'. rewrite length_seqZ. intros [-> HP]. split; [|done].
    rewrite take_ge by (rewrite (proj1 (disk_ok lba)); clear; lia). f_equal. clear. lia.
Qed.

Lemma blocks_copied size l k lba w t :
  0 <= lba -> 0 <= size < 4294967296 -> lba + size <= PITON_SD_BLOCKS -> dlab (uart_after u0 t) = false ->
  (exists b, l = seqZ b (size - b) /\ 0 <= b <= size) ->
  wp (foldM l (piton_copy_block dev fuel size)
        (Z.of_nat k, (PITON_SD_BASE_ADDR + 512 * (lba + (size - Z.of_nat (length l))), w)))
     (fun st t' => snd (snd st)
                   = w ++ concat (disk <$> seqZ (lba + (size - Z.of_nat (length l))) (Z.of_nat (length l)))
                   /\ shows (progress size k l) t t') t.
Proof using live enough disk_ok mapped.
  intros Hlba Hsize Hend. revert k w t. induction l as [|blk l IH]; intros k w t Hd (b & Hl & Hb).
  - apply wp_ret. simpl. rewrite app_nil_r. split; [done|apply shows_nil].
  - assert (b < size) as Hbs.
    { destruct (decide (b = size)) as [->|]; [by rewrite Z.sub_diag in Hl|lia]. }
    rewrite seqZ_cons in Hl by lia. injection Hl as -> Hl.
    assert (Z.of_nat (length l) = size - b - 1) as Hlen
      by (rewrite Hl, length_seqZ; clear -Hbs Hb; lia).
    cbn [foldM progress]. unfold piton_copy_block at 1.
    replace (size - Z.of_nat (length (b :: l))) with b by (cbn [length]; lia).
    assert (forall k' w' t1, dlab (uart_after u0 t1) = false ->
      wp (p <- foldM (seqZ 0 64) (copy_word dev) (PITON_SD_BASE_ADDR + 512 * (lba + b), w') ;;
          ret (Z.of_nat k', p))
       (fun st t' => st = (Z.of_nat k', (PITON_SD_BASE_ADDR + 512 * (lba + (b + 1)), w' ++ disk (lba + b)))
          /\ shows [] t1 t') t1) as Hblk.
    { intros k' w' t1 Hd1. apply wp_bind. eapply wp_mono; [by apply block_copied; lia|].
      intros p t2 [-> P2]. apply wp_ret. split; [|done]. do 3 f_equal. lia. }
    (* the rest of the blocks *)
    assert (forall k' t1, dlab (uart_after u0 t1) = false ->
      wp (foldM l (piton_copy_block dev fuel size)
            (Z.of_nat k', (PITON_SD_BASE_ADDR + 512 * (lba + (b + 1)), w ++ disk (lba + b))))
       (fun st t' => snd (snd st) = w ++ concat (disk <$> seqZ (lba + b) (Z.of_nat (length (b :: l))))
          /\ shows (progress size k' l) t1 t') t1) as Hrest.
    { intros k' t1 Hd1. replace (b + 1) with (size - Z.of_nat (length l)) by lia.
      eapply wp_mono; [apply IH; [done|]|].
      - exists (b + 1). rewrite Hl. split; [f_equal; lia|lia].
      - intros st t2 [-> P2]. split; [|done]. rewrite <-(assoc_L (++)). f_equal.
        rewrite (seqZ_cons (lba + b)) by (cbn [length]; lia). cbn [fmap list_fmap concat].
        do 4 f_equal; cbn [length]; lia. }
    apply wp_bind. apply wp_bind. destruct (b mod 100 =? 0).
    + eapply wp_mono; [by apply show_progress_shows; [|lia..]|]. intros r t1 [P1 ->].
      assert (dlab (uart_after u0 t1) = false) as Hd1 by (by eapply shows_dlab).
      eapply wp_mono; [by apply Hblk|]. intros st t2 [-> P2].
      eapply wp_mono; [by eapply Hrest, shows_dlab|]. intros st t3 [-> P3]. split; [done|].
      rewrite (assoc_L (++)). eapply shows_trans; [exact P1|].
      apply (shows_trans [] _ _ t2); done.
    + apply wp_ret. eapply wp_mono; [by apply Hblk|]. intros st t2 [-> P2].
      eapply wp_mono; [by eapply Hrest, shows_dlab|]. intros st t3 [-> P3]. split; [done|].
      apply (shows_trans [] _ _ t2); done.
Qed.

Lemma piton_sd_copy_reads lba size t :
  0 <= lba < 2 ^ 32 -> 0 <= size < 4294967296 -> lba + size <= PITON_SD_BLOCKS ->
  dlab (uart_after u0 t) = false ->
  wp (piton_sd_copy dev fuel lba size)
     (fun r t' => r = (0, concat (disk <$> seqZ lba size))
                  /\ shows (progress size 0 (seqZ 0 size) ++ crlf) t t') t.
Proof using live enough disk_ok mapped.
  intros Hlba Hsize Hend Hd. unfold piton_sd_copy.
  assert (u64 (PITON_SD_BASE_ADDR + u64 (Z.shiftl lba 9)) = PITON_SD_BASE_ADDR + 512 * lba) as ->.
  { rewrite Z.shiftl_mul_pow2 by (clear; lia). change (2 ^ 9) with 512. change (2 ^ 32) with 4294967296 in Hlba.
    unfold PITON_SD_BASE_ADDR. clear -Hlba. rewrite (u64_id (lba * 512)) by lia.
    rewrite u64_id by lia. lia. }
  pose proof (blocks_copied size (seqZ 0 size) 0 lba [] t ltac:(lia) Hsize Hend Hd
    ltac:(exists 0; rewrite Z.sub_0_r; split; [done|clear -Hsize; lia])) as H.
  rewrite length_seqZ, Z2Nat.id, Z.sub_diag, Z.add_0_r in H by (clear -Hsize; lia).
  apply wp_bind. eapply wp_mono; [exact H|]. intros [x [y w]] t1 [Hw P1]. cbn [snd] in Hw. subst w.
  apply wp_bind. eapply wp_mono.
  { apply (print_shows 0 crlf []); [apply (bool_decide_unpack _); by vm_compute|by eapply shows_dlab
      |clear; lia|simpl; clear; lia]. }
  intros r t2 [P2 _]. apply wp_ret. split; [done|]. by eapply shows_trans.
Qed.

Abbreviation usable := (fun t => dlab (uart_after u0 t) = false).

Lemma piton_print_usable num text rest t :
  Forall (fun c => 0 < c < 256) text -> usable t ->
  wp (piton_print_uart dev fuel num (text ++ 0 :: rest)) (fun _ t' => usable t') t.
Proof using live enough.
  intros HF. revert num t. induction HF as [|c text Hc HF IH]; intros num t Hd; simpl; [by apply wp_ret|].
  destruct (Z.eqb_spec c 0) as [->|_]; [lia|].
  apply wp_bind. eapply wp_mono; [by eapply write_serial_prints|].
  intros [] t1 P1%prints_shows. apply IH. by eapply shows_dlab.
Qed.

Lemma usable_then {A B} (m : M trace A) (b : B) t :
  wp m (fun _ t' => usable t') t -> wp (m ;;; ret b) (fun _ t' => usable t') t.
Proof using. intros H. apply wp_bind. eapply wp_mono; [exact H|]. intros a t' Hd. by apply wp_ret. Qed.

Lemma piton_bytes_usable z m t :
  usable t ->
  wp (foreach (reverse (seqZ 0 (Z.of_nat m)))
       (fun i => print_hex dev fuel (u8 (Z.land (Z.shiftr z (i * 8)) 0xff))))
     (fun _ t' => usable t') t.
Proof using live enough.
  intros Hd. eapply wp_mono; [by apply (print_bytes_prints dev n fuel u0 live enough)|].
  intros [] t' HP%prints_shows. by eapply shows_dlab.
Qed.

#[export] Instance piton_storage_spec :
  StorageSpec (piton_console dev fuel) (piton_storage dev fuel) disk 4294967295 PITON_SD_BLOCKS.
Proof using live enough disk_ok mapped u0.
  refine {| unmounted := usable; mounted := usable |}.
  - intros t Hd. unfold storage_init, piton_storage, piton_init_sd. apply wp_bind.
    eapply wp_mono; [rewrite (assoc_L (++)); apply piton_print_usable;
      [apply (bool_decide_unpack _); by vm_compute|done]|].
    intros r t' Hd'. by apply wp_ret.
  - intros lba size t Hd Hlba Hsize Hroom.
    eapply wp_mono; [apply piton_sd_copy_reads; try done; clear -Hsize; lia|].
    intros r t' [-> HP]. split; [done|]. by eapply shows_dlab.
  - intros text rest t Hd HF. by apply usable_then, piton_print_usable.
  - intros z t Hd. by apply usable_then, (usable_then _ 8), (piton_bytes_usable z 4).
  - intros z t Hd. by apply usable_then, (usable_then _ 16), (piton_bytes_usable z 8).
  - intros z t Hd Hz. apply usable_then, (usable_then _ 2). eapply wp_mono; [by apply (print_hex_prints dev n fuel u0 live enough)|].
    intros [] t' HP%prints_shows. by eapply shows_dlab.
Defined.
End Spec.

(** ** Properties *)

(** A platform that answers at once, with [disk] mapped. *)
Definition piton_device (disk : Z -> list Z) : device := fun _ a =>
  if a =? @uart_lsr Piton.uart_map then 0x60
  else
    let off := a - PITON_SD_BASE_ADDR in
    le_combine (slice (Z.to_nat (off mod 512)) 8 (disk (off / 512))).

Lemma piton_device_live disk : @uart_live Piton.uart_map (piton_device disk) 1.
Proof. intros t. exists O. split; [lia|done]. Qed.

Lemma piton_device_mapped disk t lba j :
  0 <= lba < PITON_SD_BLOCKS -> (j < 64)%nat ->
  piton_device disk t (PITON_SD_BASE_ADDR + 512 * lba + 8 * Z.of_nat j)
  = le_combine (slice (8 * j) 8 (disk lba)).
Proof.
  change PITON_SD_BLOCKS with 133699584. intros Hlba Hj. unfold piton_device.
  destruct (Z.eqb_spec (PITON_SD_BASE_ADDR + 512 * lba + 8 * Z.of_nat j) (@uart_lsr Piton.uart_map))
    as [E|_]; [exfalso; change (@uart_lsr Piton.uart_map) with 1099255955461 in E; unfold PITON_SD_BASE_ADDR in E; clear -E Hlba Hj; lia|].
  replace (PITON_SD_BASE_ADDR + 512 * lba + 8 * Z.of_nat j - PITON_SD_BASE_ADDR)
    with (8 * Z.of_nat j + lba * 512) by lia.
  rewrite Z.mod_add, Z.div_add, Z.mod_small, Z.div_small by lia.
  do 2 f_equal. lia.
Qed.

(** The copy loop of the OpenPiton platform.  It stores exactly the [size]
    blocks of the card that start at [src_lba], and what it shows is the
    sequence of progress messages, one every 100 blocks, each one preceded by
    as many backspaces as the message before it has characters. *)
Theorem piton_sd_copy_shows_progress dev n fuel u0 disk lba size t :
  @uart_live Piton.uart_map dev n -> (n <= fuel)%nat ->
  (forall b, length (disk b) = 512%nat /\ bytes (disk b)) ->
  (forall t b j, 0 <= b < PITON_SD_BLOCKS -> (j < 64)%nat ->
     dev t (PITON_SD_BASE_ADDR + 512 * b + 8 * Z.of_nat j) = le_combine (slice (8 * j) 8 (disk b))) ->
  0 <= lba < 2 ^ 32 -> 0 <= size < 2 ^ 32 -> lba + size <= PITON_SD_BLOCKS ->
  dlab (@uart_after Piton.uart_map u0 t) = false ->
  wp (piton_sd_copy dev fuel lba size)
     (fun r t' => r = (0, concat (disk <$> seqZ lba size))
        /\ line (@uart_after Piton.uart_map u0 t')
           = line (@uart_after Piton.uart_map u0 t) ++ progress size 0 (seqZ 0 size) ++ crlf) t.
Proof.
  intros Hlive Hn Hdisk Hmap Hlba Hsize Hroom Hd.
  eapply wp_mono; [by apply (piton_sd_copy_reads dev n fuel u0 Hlive Hn disk Hdisk Hmap)|].
  intros r t' [-> HP]. split; [done|]. unfold shows in HP. by rewrite HP.
Qed.

Definition piton_disk (lba : Z) : list Z :=
  if lba =? 1 then replicate 72 0 ++ le_split 8 2 ++ replicate 432 0
  else if lba =? 2 then replicate 32 0 ++ le_split 8 34 ++ replicate 472 0
  else replicate 512 (u8 lba).

Lemma piton_disk_ok lba : length (piton_disk lba) = 512%nat /\ bytes (piton_disk lba).
Proof.
  unfold piton_disk. destruct (lba =? 1); [|destruct (lba =? 2)].
  1, 2: split; [by vm_compute|apply (bool_decide_unpack _); by vm_compute].
  split; [by rewrite length_replicate|]. apply Forall_replicate. apply u8_range.
Qed.

Example piton_sd_copy_shows_progress_witness :
  wp (piton_sd_copy (piton_device piton_disk) 1 7 2)
     (fun r t' => r = (0, replicate 512 7 ++ replicate 512 8)
        /\ line (@uart_after Piton.uart_map reset_uart t')
           = string_bytes "copying block 0 of 2 blocks (0 %)" ++ crlf) [].
Proof.
  apply (piton_sd_copy_shows_progress (piton_device piton_disk) 1 1 reset_uart piton_disk 7 2 []);
    [apply piton_device_live|lia|apply piton_disk_ok|apply piton_device_mapped|lia|lia| |done].
  by vm_compute.
Defined.

(** C38: booting on OpenPiton.  With a card that holds a GPT disk mapped in
    memory, [main] loads the first 32768 blocks of its first partition. *)
Theorem piton_main_loads_first_partition dev n fuel disk freq info :
  @uart_live Piton.uart_map dev n -> (n <= fuel)%nat ->
  (forall b, length (disk b) = 512%nat /\ bytes (disk b)) ->
  (forall t b j, 0 <= b < PITON_SD_BLOCKS -> (j < 64)%nat ->
     dev t (PITON_SD_BASE_ADDR + 512 * b + 8 * Z.of_nat j) = le_combine (slice (8 * j) 8 (disk b))) ->
  table_lba disk < PITON_SD_BLOCKS -> boot_lba disk + 32768 <= PITON_SD_BLOCKS ->
  Forall (fun c => 0 < c < 256) info ->
  wp (piton_main dev fuel freq (info ++ [0]))
     (fun r _ => r = (0, concat (disk <$> seqZ (boot_lba disk) 32768))) [].
Proof.
  intros Hlive Hn Hdisk Hmap Htable Hboot Hinfo. unfold piton_main, piton_init_uart.
  change (u32 (Z.shiftl 115200 4) =? 0) with false. cbv iota.
  pose (sto := piton_storage_spec dev n fuel reset_uart Hlive Hn disk Hdisk Hmap).
  apply wp_bind. eapply wp_eq; [reflexivity|].
  wp_call ltac:(by apply (piton_print_usable dev n fuel reset_uart)). intros r1 t1 Hd1.
  wp_call ltac:(apply (piton_print_usable dev n fuel reset_uart Hlive Hn 0
    (string_bytes "sd initialized!" ++ crlf) []); [apply (bool_decide_unpack _); by vm_compute|done]).
  intros r2 t2 Hd2. unfold piton_gpt_find_boot_partition.
  change PITON_SD_BLOCKS with 133699584 in *.
  wp_call ltac:(apply (boot_partition_found (spec := sto)); [done| |apply Hdisk|lia..]).
  { intros t Hd. unfold piton_announce.
    wp_call ltac:(by apply (piton_print_usable dev n fuel reset_uart Hlive Hn 0
      (string_bytes "copying boot image ") []); [apply (bool_decide_unpack _); vm_compute|]).
    intros r3 t3 Hd3. apply (usable_then _ _ tt).
    by apply (piton_print_usable dev n fuel reset_uart Hlive Hn 0 crlf []);
      [apply (bool_decide_unpack _); vm_compute|]. }
  intros r t' [-> _]. by apply wp_ret.
Qed.

Example piton_main_loads_first_partition_witness :
  wp (piton_main (piton_device piton_disk) 1 30000000 (string_bytes "OpenPiton" ++ [0]))
     (fun r _ => r = (0, concat (piton_disk <$> seqZ 34 32768))) [].
Proof.
  apply (piton_main_loads_first_partition (piton_device piton_disk) 1 1 piton_disk 30000000
           (string_bytes "OpenPiton"));
    [apply piton_device_live|lia|apply piton_disk_ok|apply piton_device_mapped|by vm_compute
    |by vm_compute|apply (bool_decide_unpack _); by vm_compute].
Defined.
