(* ===== verification/Plic.v ===== *)
(** * The interrupt controller of the board support package

    [sw/bsp/hal/plic.h]: the structure laid over the registers of the platform
    level interrupt controller, and the functions that access it.  The
    addresses are computed from the structure as it is declared; the machine
    register [mhartid] is a parameter.  The last part is the register map of the
    repository's controller, and what the functions reach of it. *)

From Stdlib Require Import ZArith Lia String.
From stdpp Require Import base tactics list numbers strings.
From S2P Require Import Prelude Mmio.

(** ** The registers *)

Definition MAX_PLIC_INT : Z := 30.
Definition NoInterrupt_IRQHandler : Z := 0.
Definition UART_0_PLIC_IRQHandler : Z := 1.
Definition PLIC_SET_UP_REGISTERS : Z := 2.
Definition PLIC_NUM_SOURCES : Z := 30.
Definition NUM_CLAIM_REGS : Z := 2.
Definition TARGET_OFFSET_HART0_M : Z := 0.
Definition TARGET_OFFSET_HART0_S : Z := 1.
Definition PLIC_BASE_ADDR : Z := 0x0C000000.

(** A structure of arrays of 32-bit words: names and lengths, in order. *)
Definition layout := list (string * Z).

Fixpoint offset_of (l : layout) (f : string) : option Z :=
  match l with
  | [] => None
  | (g, n) :: l => if bool_decide (g = f) then Some 0 else (fun o => 4 * n + o) <$> offset_of l f
  end.

Definition size_of (l : layout) : Z := foldr (fun f s => 4 * snd f + s) 0 l.

Definition IRQ_Target_Type : layout :=
  [("PRIORITY_THRESHOLD", 1); ("CLAIM_COMPLETE", 1); ("reserved", 0x1000 / 4 - 2)]%string.

Definition PLIC_Type : layout :=
  [("RESERVED0", 1);
   ("SOURCE_PRIORITY", PLIC_NUM_SOURCES);
   ("RESERVED1", 0x1000 / 4 - (PLIC_NUM_SOURCES + 1));
   ("PENDING_ARRAY", PLIC_SET_UP_REGISTERS);
   ("RESERVED2", 0x1000 / 4 - PLIC_SET_UP_REGISTERS);
   ("HART0_MMODE_ENA", PLIC_SET_UP_REGISTERS);
   ("RESERVED3a", 0x80 / 4 - PLIC_SET_UP_REGISTERS);
   ("HART0_SMODE_ENA", PLIC_SET_UP_REGISTERS);
   ("RESERVED3", 0x80 / 4 - PLIC_SET_UP_REGISTERS);
   ("RESERVED4", (0x200000 - 0x2000) / 4 - PLIC_SET_UP_REGISTERS);
   ("TARGET", NUM_CLAIM_REGS * (size_of IRQ_Target_Type / 4))]%string.

Definition field (f : string) : Z := PLIC_BASE_ADDR + default 0 (offset_of PLIC_Type f).
Definition target_field (i : Z) (f : string) : Z :=
  field "TARGET" + i * size_of IRQ_Target_Type + default 0 (offset_of IRQ_Target_Type f).

Definition SOURCE_PRIORITY (i : Z) : Z := field "SOURCE_PRIORITY" + 4 * i.
Definition HART0_MMODE_ENA (i : Z) : Z := field "HART0_MMODE_ENA" + 4 * i.
Definition HART0_SMODE_ENA (i : Z) : Z := field "HART0_SMODE_ENA" + 4 * i.
Definition PRIORITY_THRESHOLD (i : Z) : Z := target_field i "PRIORITY_THRESHOLD".
Definition CLAIM_COMPLETE (i : Z) : Z := target_field i "CLAIM_COMPLETE".

Definition mie : Z := 0x304.
Definition MIP_MEIP : Z := Z.shiftl 1 11.

(** ** The functions *)

Section Functions.
Context (dev : device) (hart_id : Z) (fuel : nat).

Definition clear_enables : M trace unit :=
  foreach (seqZ 0 PLIC_SET_UP_REGISTERS) (fun inc =>
    store32 (HART0_MMODE_ENA inc) 0 ;;;
    store32 (HART0_SMODE_ENA inc) 0).

Definition PLIC_init : M trace unit :=
  clear_enables ;;;
  store32 (PRIORITY_THRESHOLD TARGET_OFFSET_HART0_M) 0 ;;;
  store32 (PRIORITY_THRESHOLD TARGET_OFFSET_HART0_S) 7 ;;;
  set_csr mie MIP_MEIP.

(** An access to a word of an array of [PLIC_SET_UP_REGISTERS]. *)
Definition enable_word (IRQn : Z) : M trace Z :=
  let i := IRQn / 32 in
  if (0 <=? i) && (i <? PLIC_SET_UP_REGISTERS) then ret (HART0_MMODE_ENA i) else undefined.

Definition PLIC_EnableIRQ (IRQn : Z) : M trace unit :=
  if hart_id =? 0 then
    reg <- enable_word IRQn ;;
    current <- load32 dev reg ;;
    store32 reg (Z.lor current (u32 (Z.shiftl 1 (IRQn mod 32))))
  else ret tt.

Definition PLIC_DisableIRQ (IRQn : Z) : M trace unit :=
  if hart_id =? 0 then
    reg <- enable_word IRQn ;;
    current <- load32 dev reg ;;
    store32 reg (Z.land current (u32 (Z.lnot (u32 (Z.shiftl 1 (IRQn mod 32))))))
  else ret tt.

Definition PLIC_SetPriority (IRQn priority : Z) : M trace unit :=
  if (NoInterrupt_IRQHandler <? IRQn) && (IRQn <? PLIC_NUM_SOURCES) then
    store32 (SOURCE_PRIORITY (IRQn - 1)) priority
  else ret tt.

Definition PLIC_GetPriority (IRQn : Z) : M trace Z :=
  if (NoInterrupt_IRQHandler <? IRQn) && (IRQn <? PLIC_NUM_SOURCES) then
    load32 dev (SOURCE_PRIORITY (IRQn - 1))
  else ret 0.

Definition PLIC_ClaimIRQ : M trace Z := load32 dev (CLAIM_COMPLETE hart_id).

Definition PLIC_CompleteIRQ (source : Z) : M trace unit :=
  store32 (CLAIM_COMPLETE hart_id) source.

Definition PLIC_SetPriority_Threshold (threshold : Z) : M trace unit :=
  store32 (PRIORITY_THRESHOLD hart_id) threshold.

(** The delay between completing and claiming has no effect. *)
Definition PLIC_ClearPendingIRQ : M trace unit :=
  int_num <- PLIC_ClaimIRQ ;;
  loop fuel (fun int_num =>
    if int_num =? NoInterrupt_IRQHandler then ret (inr tt) else
    PLIC_CompleteIRQ int_num ;;;
    int_num <- PLIC_ClaimIRQ ;;
    ret (inl int_num)) int_num.

Definition PLIC_init_on_reset : M trace unit :=
  foreach (seqZ 0 PLIC_NUM_SOURCES) (fun inc => store32 (SOURCE_PRIORITY inc) 0) ;;;
  foreach (seqZ 0 NUM_CLAIM_REGS) (fun inc => store32 (PRIORITY_THRESHOLD inc) 7) ;;;
  clear_enables ;;;
  PLIC_ClearPendingIRQ.
End Functions.

(** ** Registers that hold what is written to them *)

(** The last value stored at [a], [init] before the first. *)
Fixpoint last_store (init : Z -> Z) (t : trace) (a : Z) : Z :=
  match t with
  | [] => init a
  | Wr b v :: t => if b =? a then v else last_store init t a
  | _ :: t => last_store init t a
  end.

(** The registers of [l] are memory. *)
Definition holds (dev : device) (init : Z -> Z) (l : list Z) : Prop :=
  forall t a, a ∈ l -> dev t a = last_store init t a.

Definition enable_registers : list Z := [HART0_MMODE_ENA 0; HART0_MMODE_ENA 1].
Definition priority_registers : list Z := SOURCE_PRIORITY <$> seqZ 0 PLIC_NUM_SOURCES.

(** Interrupt [n] is enabled for machine mode. *)
Definition enabled (init : Z -> Z) (t : trace) (n : Z) : bool :=
  Z.testbit (u32 (last_store init t (HART0_MMODE_ENA (n / 32)))) (n mod 32).

Lemma u32_testbit z i : 0 <= i < 32 -> Z.testbit (u32 z) i = Z.testbit z i.
Proof. intros Hi. unfold u32. apply (Z.mod_pow2_bits_low z 32 i). lia. Qed.

Lemma one_bit n i : 0 <= n < 32 -> 0 <= i < 32 -> Z.testbit (u32 (Z.shiftl 1 n)) i = (i =? n).
Proof.
  intros Hn Hi. rewrite u32_testbit, Z.shiftl_1_l by lia.
  destruct (Z.eqb_spec i n) as [->|Hne]; [by apply Z.pow2_bits_true; lia|].
  apply Z.pow2_bits_false. lia.
Qed.

Lemma irq_split n k :
  0 <= n -> 0 <= k -> n / 32 = k / 32 -> n mod 32 = k mod 32 -> n = k.
Proof. intros. pose proof (Z.div_mod n 32). pose proof (Z.div_mod k 32). lia. Qed.

Lemma mmode_inj i j : HART0_MMODE_ENA i = HART0_MMODE_ENA j -> i = j.
Proof. unfold HART0_MMODE_ENA. lia. Qed.

Lemma mmode_registers n : 0 <= n < 64 -> HART0_MMODE_ENA (n / 32) ∈ enable_registers.
Proof.
  intros Hn. unfold enable_registers.
  assert (n / 32 = 0 \/ n / 32 = 1) as [-> | ->] by divlia;
    rewrite !elem_of_cons; auto.
Qed.

(** A read-modify-write of an enable word by [f] acts on the enabled set. *)
Lemma enable_update dev init n f g t :
  holds dev init enable_registers -> 0 <= n < 64 ->
  (forall v i, 0 <= i < 32 -> Z.testbit (u32 (f v)) i = g i (Z.testbit v i)) ->
  wp (reg <- enable_word n ;; current <- load32 dev reg ;; store32 reg (f current))
     (fun _ t' => forall k, 0 <= k < 64 ->
        enabled init t' k = if k / 32 =? n / 32 then g (k mod 32) (enabled init t k)
                            else enabled init t k) t.
Proof.
  intros Hdev Hn Hf. unfold enable_word.
  assert (0 <= n / 32 < 2) as Hi by divlia.
  rewrite (proj2 (Z.leb_le 0 (n / 32))), (proj2 (Z.ltb_lt (n / 32) PLIC_SET_UP_REGISTERS))
    by (unfold PLIC_SET_UP_REGISTERS; lia). cbn [andb].
  apply wp_bind, wp_ret. unfold load32, store32, bind, wp. intros k Hk. unfold enabled.
  cbn [last_store].
  assert (0 <= k mod 32 < 32) as Hm by (by apply Z.mod_pos_bound).
  destruct (Z.eqb_spec (k / 32) (n / 32)) as [->|Hne].
  - rewrite Z.eqb_refl, u32_testbit, Hf by done.
    by rewrite (Hdev t _ (mmode_registers n Hn)).
  - destruct (Z.eqb_spec (HART0_MMODE_ENA (n / 32)) (HART0_MMODE_ENA (k / 32))) as [E|_]; [|done].
    apply mmode_inj in E. congruence.
Qed.

(** ** Properties *)

(** A controller whose registers are memory, zero at first. *)
Definition memory_device : device := fun t a => last_store (fun _ => 0) t a.

(** On hart 0, [PLIC_EnableIRQ] adds exactly its interrupt to those enabled
    for machine mode and [PLIC_DisableIRQ] takes exactly that one away, whatever
    else is enabled; on another hart neither touches a register. *)
Theorem PLIC_enable_disable_exact dev init hart_id n t :
  holds dev init enable_registers -> 0 <= n <= MAX_PLIC_INT ->
  wp (PLIC_EnableIRQ dev hart_id n)
     (fun _ t' => if hart_id =? 0
                  then forall k, 0 <= k < 64 -> enabled init t' k = (k =? n) || enabled init t k
                  else t' = t) t
  /\ wp (PLIC_DisableIRQ dev hart_id n)
     (fun _ t' => if hart_id =? 0
                  then forall k, 0 <= k < 64 -> enabled init t' k = negb (k =? n) && enabled init t k
                  else t' = t) t.
Proof.
  unfold MAX_PLIC_INT. intros Hdev Hn. unfold PLIC_EnableIRQ, PLIC_DisableIRQ.
  destruct (hart_id =? 0); [|by split; apply wp_ret].
  assert (forall k, 0 <= k < 64 -> k / 32 = n / 32 -> (k mod 32 =? n mod 32) = (k =? n)) as Hsame.
  { intros k Hk Hd. apply eq_true_iff_eq. rewrite !Z.eqb_eq. split; [|by intros ->].
    intros Hm. apply irq_split; lia || done. }
  assert (forall k, k / 32 <> n / 32 -> (k =? n) = false) as Hdiff
    by (intros k Hd; apply Z.eqb_neq; congruence).
  assert (0 <= n mod 32 < 32) as Hm by (by apply Z.mod_pos_bound).
  split; (eapply wp_mono; [eapply (enable_update dev init n); [done|lia|] |]).
  - intros v i Hi. rewrite u32_testbit, Z.lor_spec, one_bit by done.
    exact (eq_refl ((fun i b => b || (i =? n mod 32)) i (Z.testbit v i))).
  - intros [] t' Ht k Hk. rewrite Ht by done. destruct (Z.eqb_spec (k / 32) (n / 32)) as [E|E].
    + by rewrite Hsame, orb_comm.
    + by rewrite Hdiff.
  - intros v i Hi. rewrite u32_testbit, Z.land_spec, u32_testbit, Z.lnot_spec, one_bit by (done || lia).
    exact (eq_refl ((fun i b => b && negb (i =? n mod 32)) i (Z.testbit v i))).
  - intros [] t' Ht k Hk. rewrite Ht by done. destruct (Z.eqb_spec (k / 32) (n / 32)) as [E|E].
    + by rewrite Hsame, andb_comm.
    + by rewrite Hdiff.
Qed.

Example PLIC_enable_disable_exact_witness :
  wp (PLIC_EnableIRQ memory_device 0 UART_0_PLIC_IRQHandler)
     (fun _ t' => forall k, 0 <= k < 64 ->
        enabled (fun _ => 0) t' k = (k =? 1) || enabled (fun _ => 0) [] k) []
  /\ wp (PLIC_DisableIRQ memory_device 0 UART_0_PLIC_IRQHandler)
     (fun _ t' => forall k, 0 <= k < 64 ->
        enabled (fun _ => 0) t' k = negb (k =? 1) && enabled (fun _ => 0) [] k) [].
Proof.
  apply (PLIC_enable_disable_exact memory_device (fun _ => 0) 0 1 []); [done|unfold MAX_PLIC_INT; lia].
Defined.

(** Priorities: what [PLIC_SetPriority] sets for a source below 30
    [PLIC_GetPriority] reads back.  Source 30 is valid for the enumeration
    ([MAX_PLIC_INT]) but fails the guard of both: it can be enabled, and its
    priority can neither be set nor read. *)
Theorem PLIC_priority_roundtrip dev init n p t :
  holds dev init priority_registers -> 0 < n <= MAX_PLIC_INT ->
  wp (PLIC_SetPriority n p ;;; PLIC_GetPriority dev n)
     (fun r t' => if n <? MAX_PLIC_INT then r = u32 p else r = 0 /\ t' = t) t.
Proof.
  unfold MAX_PLIC_INT. intros Hdev Hn. unfold PLIC_SetPriority, PLIC_GetPriority.
  change NoInterrupt_IRQHandler with 0. change PLIC_NUM_SOURCES with 30.
  rewrite (proj2 (Z.ltb_lt 0 n)) by lia. cbn [andb]. destruct (Z.ltb_spec n 30).
  - unfold store32, load32, bind, wp. rewrite Hdev.
    + cbn [last_store]. rewrite Z.eqb_refl. unfold u32. by rewrite Z.mod_mod.
    + unfold priority_registers. apply list_elem_of_fmap. exists (n - 1). split; [done|].
      apply elem_of_seqZ. unfold PLIC_NUM_SOURCES. lia.
  - by apply wp_bind, wp_ret, wp_ret.
Qed.

Example PLIC_priority_roundtrip_witness :
  wp (PLIC_SetPriority 7 3 ;;; PLIC_GetPriority memory_device 7) (fun r _ => r = 3) [].
Proof.
  apply (PLIC_priority_roundtrip memory_device (fun _ => 0) 7 3 []); [done|unfold MAX_PLIC_INT; lia].
Defined.

(** Where the structure puts the registers: priorities, enables of machine
    and supervisor mode, and then, because [RESERVED4] counts from 0x2000 and
    not from the end of the enables, the thresholds and claim registers 0xf8
    bytes past 0x0c200000, where the controller has them. *)
Theorem PLIC_Type_addresses i :
  SOURCE_PRIORITY i = 0x0c000004 + 4 * i
  /\ HART0_MMODE_ENA i = 0x0c002000 + 4 * i
  /\ HART0_SMODE_ENA i = 0x0c002080 + 4 * i
  /\ PRIORITY_THRESHOLD i = 0x0c200000 + 0x1000 * i + 0xf8
  /\ CLAIM_COMPLETE i = 0x0c200004 + 0x1000 * i + 0xf8.
Proof.
  unfold SOURCE_PRIORITY, HART0_MMODE_ENA, HART0_SMODE_ENA, PRIORITY_THRESHOLD, CLAIM_COMPLETE,
    target_field.
  change (field "SOURCE_PRIORITY") with 0x0c000004. change (field "HART0_MMODE_ENA") with 0x0c002000.
  change (field "HART0_SMODE_ENA") with 0x0c002080. change (field "TARGET") with 0x0c2000f8.
  change (size_of IRQ_Target_Type) with 0x1000. simpl default. lia.
Qed.

(** ** The controller of the repository

    [src/rv_plic/rtl]: the register map of plic_regmap.sv, and what a store does
    to the registers of plic_top.sv, of 30 sources and 2 targets. *)

Inductive plic_reg := Prio (n : Z) | Ip | Ie (target : Z) | Threshold (target : Z) | Cc (target : Z).

Definition regmap (a : Z) : option plic_reg :=
  if (0x0c000000 <=? a) && (a <=? 0x0c000078) && (a mod 4 =? 0) then Some (Prio ((a - 0x0c000000) / 4))
  else if a =? 0x0c001000 then Some Ip
  else if a =? 0x0c002000 then Some (Ie 0)
  else if a =? 0x0c002080 then Some (Ie 1)
  else if a =? 0x0c200000 then Some (Threshold 0)
  else if a =? 0x0c201000 then Some (Threshold 1)
  else if a =? 0x0c200004 then Some (Cc 0)
  else if a =? 0x0c201004 then Some (Cc 1)
  else None.

(** An access to a claim register: a read takes the interrupt, a write says that
    one is served. *)
Inductive cc_access := Claimed (target : Z) | Completed (target id : Z).

Record controller := {
  prio_q : Z -> Z; ie_q : Z -> Z; threshold_q : Z -> Z; cc_log : list cc_access
}.

Definition set_reg (f : Z -> Z) (i v : Z) : Z -> Z := fun j => if j =? i then v else f j.

Definition plic_write (c : controller) (a v : Z) : controller :=
  let '{| prio_q := p; ie_q := e; threshold_q := h; cc_log := l |} := c in
  match regmap a with
  | Some (Prio n) =>
      {| prio_q := if n =? 0 then p else set_reg p n (v mod 8); ie_q := e; threshold_q := h; cc_log := l |}
  | Some (Ie k) => {| prio_q := p; ie_q := set_reg e k (Z.land v 0x7ffffffe); threshold_q := h; cc_log := l |}
  | Some (Threshold k) => {| prio_q := p; ie_q := e; threshold_q := set_reg h k (v mod 8); cc_log := l |}
  | Some (Cc k) => {| prio_q := p; ie_q := e; threshold_q := h; cc_log := l ++ [Completed k (v mod 32)] |}
  | Some Ip | None => c
  end.

Definition plic_read (c : controller) (a : Z) : controller :=
  match regmap a with
  | Some (Cc k) =>
      {| prio_q := prio_q c; ie_q := ie_q c; threshold_q := threshold_q c; cc_log := cc_log c ++ [Claimed k] |}
  | _ => c
  end.

(** The controller after the accesses [t], from [c0]. *)
Fixpoint plic_after (c0 : controller) (t : trace) : controller :=
  match t with
  | [] => c0
  | Wr a v :: t => plic_write (plic_after c0 t) a v
  | Rd a _ :: t => plic_read (plic_after c0 t) a
  | SetCsr _ _ :: t => plic_after c0 t
  end.

(** The window of the controller on the bus. *)
Definition PLIC_END : Z := 0x10000000.

(** A read of the controller outside its register map has data 0. *)
Definition unmapped_zero (dev : device) : Prop :=
  forall t a, PLIC_BASE_ADDR <= a < PLIC_END -> regmap a = None -> dev t a = 0.

Lemma claim_unmapped h : 0 <= h -> regmap (CLAIM_COMPLETE h) = None.
Proof.
  intros Hh. destruct (PLIC_Type_addresses h) as (_ & _ & _ & _ & ->). unfold regmap.
  rewrite (proj2 (Z.leb_gt _ 0x0c000078)), andb_false_r by lia. cbn [andb].
  repeat match goal with |- (if ?a =? ?b then _ else _) = _ => destruct (Z.eqb_spec a b); [lia|] end. done.
Qed.

Lemma threshold_unmapped h : 0 <= h -> regmap (PRIORITY_THRESHOLD h) = None.
Proof.
  intros Hh. destruct (PLIC_Type_addresses h) as (_ & _ & _ & -> & _). unfold regmap.
  rewrite (proj2 (Z.leb_gt _ 0x0c000078)), andb_false_r by lia. cbn [andb].
  repeat match goal with |- (if ?a =? ?b then _ else _) = _ => destruct (Z.eqb_spec a b); [lia|] end. done.
Qed.

Lemma plic_write_unmapped c a v : regmap a = None -> plic_write c a v = c.
Proof. intros E. unfold plic_write. rewrite E. by destruct c. Qed.
Lemma plic_read_unmapped c a : regmap a = None -> plic_read c a = c.
Proof. intros E. unfold plic_read. by rewrite E. Qed.

Section Controller.
Context (dev : device) (zero : unmapped_zero dev) (c0 : controller) (hart_id : Z) (hart : 0 <= hart_id < NUM_CLAIM_REGS).

Lemma claim_reads_zero t :
  wp (PLIC_ClaimIRQ dev hart_id) (fun r t' => r = 0 /\ plic_after c0 t' = plic_after c0 t) t.
Proof using zero hart.
  unfold PLIC_ClaimIRQ, load32, wp. split.
  - rewrite zero; [done| |apply claim_unmapped; lia].
    destruct (PLIC_Type_addresses hart_id) as (_ & _ & _ & _ & ->).
    unfold PLIC_BASE_ADDR, PLIC_END, NUM_CLAIM_REGS in *. lia.
  - cbn [plic_after]. by rewrite plic_read_unmapped by (apply claim_unmapped; lia).
Qed.

Lemma clear_pending_nothing fuel t :
  (0 < fuel)%nat ->
  wp (PLIC_ClearPendingIRQ dev hart_id fuel) (fun _ t' => plic_after c0 t' = plic_after c0 t) t.
Proof using zero hart.
  intros Hf. unfold PLIC_ClearPendingIRQ. apply wp_bind. eapply wp_mono; [apply claim_reads_zero|].
  intros r t' [-> E]. destruct fuel as [|fuel]; [lia|]. cbn [loop]. by apply wp_bind, wp_ret, wp_ret.
Qed.

Lemma clear_enables_spec t :
  wp clear_enables (fun _ t' => let c := plic_after c0 t in let c' := plic_after c0 t' in
    ie_q c' 0 = 0 /\ ie_q c' 1 = 0 /\ prio_q c' = prio_q c /\ threshold_q c' = threshold_q c /\ cc_log c' = cc_log c) t.
Proof using.
  unfold clear_enables. eapply wp_eq; [reflexivity|]. cbv zeta. cbn [plic_after].
  destruct (plic_after c0 t) as [p e h l]. split_and!; reflexivity.
Qed.

Lemma clear_priorities_spec t :
  wp (foreach (seqZ 0 PLIC_NUM_SOURCES) (fun inc => store32 (SOURCE_PRIORITY inc) 0))
     (fun _ t' => let c := plic_after c0 t in let c' := plic_after c0 t' in
        (forall n, 1 <= n <= 30 -> prio_q c' n = 0) /\ ie_q c' = ie_q c /\ threshold_q c' = threshold_q c /\ cc_log c' = cc_log c) t.
Proof using.
  eapply wp_eq; [reflexivity|]. cbv zeta. cbn [plic_after]. destruct (plic_after c0 t) as [p e h l].
  split; [|split_and!; reflexivity]. intros n Hn.
  assert (n ∈ seqZ 1 30) as Hin by (apply elem_of_seqZ; lia). clear Hn. revert n Hin. apply Forall_forall.
  repeat (apply Forall_cons; split; [reflexivity|]). by apply Forall_nil.
Qed.

Lemma thresholds_missed t :
  wp (foreach (seqZ 0 NUM_CLAIM_REGS) (fun inc => store32 (PRIORITY_THRESHOLD inc) 7))
     (fun _ t' => plic_after c0 t' = plic_after c0 t) t.
Proof using.
  eapply wp_eq; [reflexivity|]. cbn [plic_after].
  by rewrite !plic_write_unmapped by (apply threshold_unmapped; done || lia).
Qed.
End Controller.

(** C36: initialisation against the controller of the repository, as its register
    map has it.  [PLIC_init_on_reset] returns with every priority 0 and nothing
    enabled for either target; but it clears no pending interrupt and sets no
    threshold: no claim register is read or written and the thresholds are as
    before, since the structure puts these registers where the map has none.  For
    the same reason [PLIC_init] sets no threshold, [PLIC_ClaimIRQ] reads 0
    whatever is pending, and [PLIC_CompleteIRQ] and [PLIC_SetPriority_Threshold]
    change nothing. *)
Theorem PLIC_init_on_controller dev c0 hart_id fuel t :
  unmapped_zero dev -> 0 <= hart_id < NUM_CLAIM_REGS -> (0 < fuel)%nat ->
  let c := plic_after c0 t in
  wp (PLIC_init_on_reset dev hart_id fuel)
     (fun _ t' => let c' := plic_after c0 t' in
        (forall n, 1 <= n <= 30 -> prio_q c' n = 0) /\ ie_q c' 0 = 0 /\ ie_q c' 1 = 0
        /\ threshold_q c' = threshold_q c /\ cc_log c' = cc_log c) t
  /\ wp PLIC_init
     (fun _ t' => let c' := plic_after c0 t' in
        ie_q c' 0 = 0 /\ ie_q c' 1 = 0 /\ prio_q c' = prio_q c
        /\ threshold_q c' = threshold_q c /\ cc_log c' = cc_log c) t
  /\ wp (PLIC_ClaimIRQ dev hart_id) (fun r t' => r = 0 /\ plic_after c0 t' = c) t
  /\ (forall source, wp (PLIC_CompleteIRQ hart_id source) (fun _ t' => plic_after c0 t' = c) t)
  /\ (forall level, wp (PLIC_SetPriority_Threshold hart_id level) (fun _ t' => plic_after c0 t' = c) t).
Proof.
  intros Hz Hh Hf c. subst c. split; [|split; [|split; [|split]]].
  - unfold PLIC_init_on_reset. apply wp_bind. eapply wp_mono; [apply (clear_priorities_spec c0)|].
    intros [] t1 (Hp1 & _ & H1 & L1). apply wp_bind. eapply wp_mono; [apply (thresholds_missed c0)|].
    intros [] t2 E2. apply wp_bind. eapply wp_mono; [apply (clear_enables_spec c0)|]. rewrite E2.
    intros [] t3 (I0 & I1 & P3 & H3 & L3). eapply wp_mono; [by apply (clear_pending_nothing dev Hz c0)|].
    intros [] t4 E4. cbv zeta. rewrite E4, P3, H3, L3. done.
  - unfold PLIC_init. apply wp_bind. eapply wp_mono; [apply (clear_enables_spec c0)|].
    intros [] t1 (I0 & I1 & P1 & H1 & L1). eapply wp_eq; [reflexivity|]. cbv zeta. cbn [plic_after].
    rewrite !plic_write_unmapped by (apply threshold_unmapped; done || lia). done.
  - by apply claim_reads_zero.
  - intros source. eapply wp_eq; [reflexivity|]. cbn [plic_after]. by rewrite plic_write_unmapped by (apply claim_unmapped; lia).
  - intros level. eapply wp_eq; [reflexivity|]. cbn [plic_after].
    by rewrite plic_write_unmapped by (apply threshold_unmapped; lia).
Qed.

(** The controller after reset with interrupt 5 pending. *)
Definition reset_controller : controller :=
  {| prio_q := fun _ => 0; ie_q := fun _ => 0; threshold_q := fun _ => 0; cc_log := [] |}.
Definition plic_device : device := fun t a =>
  let c := plic_after reset_controller t in
  match regmap a with
  | Some (Prio n) => prio_q c n
  | Some Ip => 0x20
  | Some (Ie k) => ie_q c k
  | Some (Threshold k) => threshold_q c k
  | Some (Cc _) => if bool_decide (cc_log c = []) then 5 else 0
  | None => 0
  end.

Example PLIC_init_on_controller_witness :
  wp (PLIC_init_on_reset plic_device 0 1)
     (fun _ t' => let c' := plic_after reset_controller t' in
        ie_q c' 0 = 0 /\ threshold_q c' = (fun _ => 0) /\ cc_log c' = [] /\ plic_device t' 0x0c200004 = 5) [].
Proof.
  destruct (PLIC_init_on_controller plic_device reset_controller 0 1 []) as [H _];
    [|unfold NUM_CLAIM_REGS; lia|lia|].
  - intros t a _ E. unfold plic_device. by rewrite E.
  - eapply wp_mono; [exact H|]. intros [] t' (_ & I0 & _ & Ht & Hc). cbv zeta. split_and!; [done|done|done|].
    unfold plic_device. change (regmap 0x0c200004) with (Some (Cc 0)). cbv iota. by rewrite Hc.
Defined.
