(* ===== verification/UartDriver.v ===== *)
(** * The UART driver of the board support package

    [sw/bsp/drivers/uart/uart.c] and [uart.h]: configuration, polled and
    interrupt driven transmission, reception, and the interrupt handlers.  A
    driver function runs on the instance structure and the device registers;
    the handlers a program may register are a parameter. *)

From Stdlib Require Import ZArith Lia String.
From stdpp Require Import base tactics list numbers.
From S2P Require Import Prelude Mmio Ns16550 BootUart Plic.

(** ** Registers and constants *)

Definition FPGA_UART_0_FREQUENCY : Z := 25000000.
Definition FPGA_UART_0_BASE : Z := 0x10000000.

(** [UART_TypeDef] over the registers of [g_uart_0]: each of the three unions
    takes four bytes, and so does each register with its padding. *)
Module Bsp.
#[export] Instance uart_map : UartMap := {|
  uart_thr := FPGA_UART_0_BASE + 0; uart_ier := FPGA_UART_0_BASE + 4;
  uart_fcr := FPGA_UART_0_BASE + 8; uart_lcr := FPGA_UART_0_BASE + 12;
  uart_mcr := FPGA_UART_0_BASE + 16; uart_lsr := FPGA_UART_0_BASE + 20 |}.
End Bsp.
#[local] Existing Instance Bsp.uart_map.

Definition uart_rbr : Z := FPGA_UART_0_BASE + 0.
Definition uart_iir : Z := FPGA_UART_0_BASE + 8.
Definition uart_msr : Z := FPGA_UART_0_BASE + 24.

Definition TX_COMPLETE : Z := 0.
Definition TX_FIFO_SIZE : Z := 16.
Definition FCR_TRIG_LEVEL_MASK : Z := 0xC0.
Definition IIRF_MASK : Z := 0x0F.
Definition UART_DATA_READY : Z := 0x01.
Definition IIRF_MODEM_STATUS : Z := 0x00.
Definition IIRF_THRE : Z := 0x02.
Definition IIRF_RX_DATA : Z := 0x04.
Definition IIRF_RX_LINE_STATUS : Z := 0x06.
Definition IIRF_DATA_TIMEOUT : Z := 0x0C.

Definition UART_115200_BAUD : Z := 115200.
Definition UART_DATA_8_BITS : Z := 0x03.
Definition UART_NO_PARITY : Z := 0x00.
Definition UART_ONE_STOP_BIT : Z := 0x00.
Definition UART_OVERUN_ERROR : Z := 0x02.
Definition UART_PARITY_ERROR : Z := 0x04.
Definition UART_FRAMING_ERROR : Z := 0x08.
Definition UART_BREAK_ERROR : Z := 0x10.
Definition UART_FIFO_ERROR : Z := 0x80.
Definition STATUS_ERROR_MASK : Z :=
  Z.lor UART_OVERUN_ERROR (Z.lor UART_PARITY_ERROR (Z.lor UART_FRAMING_ERROR
    (Z.lor UART_BREAK_ERROR UART_FIFO_ERROR))).
Definition UART_THRE : Z := 0x20.
Definition UART_TEMT : Z := 0x40.
Definition UART_INVALID_IRQ : Z := 65535.
Definition UART_FIFO_INVALID_TRIG_LEVEL : Z := 0xC1.
Definition SB_MASK : Z := Z.shiftl 1 6.
Definition DLAB_MASK : Z := Z.shiftl 1 7.
Definition RXRDY_TXRDYN_EN_MASK : Z := Z.shiftl 1 0.
Definition CLEAR_RX_FIFO_MASK : Z := Z.shiftl 1 1.
Definition CLEAR_TX_FIFO_MASK : Z := Z.shiftl 1 2.
Definition FIFO_RX_TRIGGER_LEVEL_14_MASK : Z := Z.shiftl 3 6.
Definition ERBFI_MASK : Z := Z.shiftl 1 0.
Definition ETBEI_MASK : Z := Z.shiftl 1 1.
Definition EDSSI_MASK : Z := Z.shiftl 1 3.

(** ** The instance structure *)

(** A handler: the driver's own, or one of the program's. *)
Inductive handler := Default_tx | User (id : Z).

(** [tx_buffer] is what the pointer points to, [None] for a null pointer. *)
Record uart_instance := {
  baudrate : Z;
  lineconfig : Z;
  status : Z;
  tx_buffer : option (list Z);
  tx_buff_size : Z;
  tx_idx : Z;
  linests_handler : option handler;
  rx_handler : option handler;
  tx_handler : option handler;
  modemsts_handler : option handler
}.

Definition state : Type := uart_instance * trace.

(** Register accesses leave the structure alone. *)
Definition hw {A} (m : M trace A) : M state A := fun '(u, t) =>
  match m t with
  | Ok (a, t') => Ok (a, (u, t'))
  | NoFuel => NoFuel
  | Ub => Ub
  end.

Definition this : M state uart_instance := fun '(u, t) => Ok (u, (u, t)).
Definition update (f : uart_instance -> uart_instance) : M state unit :=
  fun '(u, t) => Ok (tt, (f u, t)).

Definition set_baudrate (v : Z) (u : uart_instance) : uart_instance := {|
  baudrate := v; lineconfig := lineconfig u; status := status u; tx_buffer := tx_buffer u;
  tx_buff_size := tx_buff_size u; tx_idx := tx_idx u; linests_handler := linests_handler u;
  rx_handler := rx_handler u; tx_handler := tx_handler u; modemsts_handler := modemsts_handler u |}.
Definition set_status (v : Z) (u : uart_instance) : uart_instance := {|
  baudrate := baudrate u; lineconfig := lineconfig u; status := v; tx_buffer := tx_buffer u;
  tx_buff_size := tx_buff_size u; tx_idx := tx_idx u; linests_handler := linests_handler u;
  rx_handler := rx_handler u; tx_handler := tx_handler u; modemsts_handler := modemsts_handler u |}.
Definition set_tx (b : option (list Z)) (n i : Z) (u : uart_instance) : uart_instance := {|
  baudrate := baudrate u; lineconfig := lineconfig u; status := status u; tx_buffer := b;
  tx_buff_size := n; tx_idx := i; linests_handler := linests_handler u;
  rx_handler := rx_handler u; tx_handler := tx_handler u; modemsts_handler := modemsts_handler u |}.
Definition set_tx_h (h : option handler) (u : uart_instance) : uart_instance := {|
  baudrate := baudrate u; lineconfig := lineconfig u; status := status u; tx_buffer := tx_buffer u;
  tx_buff_size := tx_buff_size u; tx_idx := tx_idx u; linests_handler := linests_handler u;
  rx_handler := rx_handler u; tx_handler := h; modemsts_handler := modemsts_handler u |}.
Definition set_rx_h (h : option handler) (u : uart_instance) : uart_instance := {|
  baudrate := baudrate u; lineconfig := lineconfig u; status := status u; tx_buffer := tx_buffer u;
  tx_buff_size := tx_buff_size u; tx_idx := tx_idx u; linests_handler := linests_handler u;
  rx_handler := h; tx_handler := tx_handler u; modemsts_handler := modemsts_handler u |}.
Definition set_modem_h (h : option handler) (u : uart_instance) : uart_instance := {|
  baudrate := baudrate u; lineconfig := lineconfig u; status := status u; tx_buffer := tx_buffer u;
  tx_buff_size := tx_buff_size u; tx_idx := tx_idx u; linests_handler := linests_handler u;
  rx_handler := rx_handler u; tx_handler := tx_handler u; modemsts_handler := h |}.

Section Driver.
Context (dev : device) (hart_id : Z) (fuel : nat).
(** What the handlers registered by the program do. *)
Context (user : Z -> M state unit).

Definition rd (a : Z) : M state Z := hw (load8 dev a).
Definition wr (a v : Z) : M state unit := hw (store8 a v).

(** [status = LSR; this_uart->status |= status] *)
Definition read_lsr_sticky : M state Z :=
  s <- rd uart_lsr ;;
  update (fun u => set_status (Z.lor (status u) s) u) ;;;
  ret s.

Definition enable_irq : M state unit :=
  hw (PLIC_EnableIRQ dev hart_id UART_0_PLIC_IRQHandler).
Definition disable_irq : M state unit :=
  hw (PLIC_DisableIRQ dev hart_id UART_0_PLIC_IRQHandler).

Definition config_baud_divisors (baud : Z) : M state unit :=
  update (set_baudrate baud) ;;;
  if baud =? 0 then undefined else
  let pclk_freq := FPGA_UART_0_FREQUENCY in
  let baud_value_by_128 := u32 (u64 (8 * pclk_freq) / baud) in
  let baud_value_by_64 := baud_value_by_128 / 2 in
  let baud_value := baud_value_by_64 / 64 in
  if baud_value <=? 65535 then
    wr uart_lcr DLAB_MASK ;;;
    wr uart_ier (u8 (Z.shiftr baud_value 8)) ;;;
    wr uart_thr (u8 baud_value) ;;;
    wr uart_lcr 0
  else ret tt.

Definition global_init (baud_rate line_config : Z) : M state unit :=
  wr uart_ier 0 ;;;
  wr uart_fcr 0 ;;;
  wr uart_fcr (Z.lor FIFO_RX_TRIGGER_LEVEL_14_MASK (Z.lor CLEAR_RX_FIFO_MASK
                (Z.lor CLEAR_TX_FIFO_MASK RXRDY_TXRDYN_EN_MASK))) ;;;
  wr uart_mcr 0 ;;;
  config_baud_divisors baud_rate ;;;
  wr uart_lcr line_config ;;;
  update (fun _ => {| baudrate := baud_rate; lineconfig := line_config; status := 0;
                      tx_buffer := None; tx_buff_size := TX_COMPLETE; tx_idx := 0;
                      linests_handler := None; rx_handler := None; tx_handler := None;
                      modemsts_handler := None |}).

Definition UART_init (baud_rate line_config : Z) : M state unit :=
  global_init baud_rate line_config ;;;
  update (set_tx_h (Some Default_tx)).

Definition wait_thre : M state unit :=
  poll fuel (s <- rd uart_lsr ;; ret (Z.land s UART_THRE =? 0)).

(** [pbuff] is [None] for a null pointer; reading past its end is undefined. *)
Definition UART_polled_tx (pbuff : option (list Z)) (tx_size : Z) : M state unit :=
  match pbuff with
  | Some buf =>
      if 0 <? tx_size then
        loop fuel (fun char_idx =>
          wait_thre ;;;
          c <- of_option (buf !! Z.to_nat char_idx) ;;
          wr uart_thr c ;;;
          let char_idx := u32 (char_idx + 1) in
          ret (if char_idx <? tx_size then inl char_idx else inr tt)) 0
      else ret tt
  | None => ret tt
  end.

Definition UART_polled_tx_string (p_sz_string : option (list Z)) : M state unit :=
  match p_sz_string with
  | Some str =>
      c <- of_option (str !! O) ;;
      loop fuel (fun '(char_idx, data_byte) =>
        if data_byte =? 0 then ret (inr tt) else
        wait_thre ;;;
        wr uart_thr data_byte ;;;
        let char_idx := u32 (char_idx + 1) in
        c <- of_option (str !! Z.to_nat char_idx) ;;
        ret (inl (char_idx, c))) (0, c)
  | None => ret tt
  end.

Definition ier_set (mask : Z) : M state unit :=
  i <- rd uart_ier ;; wr uart_ier (Z.lor i mask).

Definition UART_irq_tx (pbuff : option (list Z)) (tx_size : Z) : M state unit :=
  if (0 <? tx_size) && bool_decide (pbuff <> None) then
    update (set_tx pbuff tx_size 0) ;;;
    update (set_tx_h (Some Default_tx)) ;;;
    ier_set ETBEI_MASK ;;;
    enable_irq
  else ret tt.

Definition UART_tx_complete : M state Z :=
  s <- read_lsr_sticky ;;
  u <- this ;;
  ret (if (TX_COMPLETE =? tx_buff_size u) && negb (Z.land s UART_TEMT =? 0) then 1 else 0).

(** Returns the number of bytes and the bytes stored at [rx_buff]. *)
Definition UART_get_rx (rx_buff_null : bool) (buff_size : Z) : M state (Z * list Z) :=
  if negb rx_buff_null && (0 <? buff_size) then
    s <- read_lsr_sticky ;;
    loop fuel (fun '(s, rx_size, out) =>
      if negb (Z.land s UART_DATA_READY =? 0) && (rx_size <? buff_size) then
        b <- rd uart_rbr ;;
        s <- read_lsr_sticky ;;
        ret (inl (s, rx_size + 1, out ++ [b]))
      else ret (inr (rx_size, out))) (s, 0, [])
  else ret (0, []).

Definition UART_enable_irq (irq_mask : Z) : M state unit :=
  enable_irq ;;;
  if irq_mask <? UART_INVALID_IRQ then ier_set (u8 (Z.land irq_mask IIRF_MASK)) else ret tt.

Definition UART_set_rx_handler (h : option handler) (trigger_level : Z) : M state unit :=
  if bool_decide (h <> None) && (trigger_level <? UART_FIFO_INVALID_TRIG_LEVEL) then
    update (set_rx_h h) ;;;
    f <- rd uart_fcr ;;
    wr uart_fcr (Z.lor (Z.land f (u8 (Z.lnot FCR_TRIG_LEVEL_MASK))) (u8 trigger_level)) ;;;
    ier_set ERBFI_MASK ;;;
    enable_irq
  else ret tt.

Definition UART_set_tx_handler (h : option handler) : M state unit :=
  if bool_decide (h <> None) then
    update (set_tx_h h) ;;;
    update (fun u => set_tx None 0 (tx_idx u) u) ;;;
    ier_set ETBEI_MASK ;;;
    enable_irq
  else ret tt.

Definition UART_set_modemstatus_handler (h : option handler) : M state unit :=
  if bool_decide (h <> None) then
    update (set_modem_h h) ;;;
    ier_set EDSSI_MASK ;;;
    enable_irq
  else ret tt.

(** The number of bytes put in the FIFO. *)
Definition UART_fill_tx_fifo (buf : option (list Z)) (tx_size : Z) : M state Z :=
  match buf with
  | Some buf =>
      if 0 <? tx_size then
        s <- read_lsr_sticky ;;
        if negb (Z.land s UART_THRE =? 0) then
          let fill_size := if tx_size <? TX_FIFO_SIZE then tx_size else TX_FIFO_SIZE in
          foreach (seqZ 0 fill_size) (fun i =>
            c <- of_option (buf !! Z.to_nat i) ;; wr uart_thr c) ;;;
          ret fill_size
        else ret 0
      else ret 0
  | None => ret 0
  end.

Definition UART_get_rx_status : M state Z :=
  s <- rd uart_lsr ;;
  update (fun u => set_status (Z.lor (status u) s) u) ;;;
  u <- this ;;
  let r := Z.land (status u) STATUS_ERROR_MASK in
  update (set_status 0) ;;;
  ret r.

Definition UART_get_modem_status : M state Z := rd uart_msr.

Definition UART_get_tx_status : M state Z :=
  s <- read_lsr_sticky ;; ret (Z.land s (Z.lor UART_THRE UART_TEMT)).

Definition UART_set_break : M state unit :=
  l <- rd uart_lcr ;; wr uart_lcr (Z.lor l SB_MASK).
Definition UART_clear_break : M state unit :=
  l <- rd uart_lcr ;; wr uart_lcr (Z.land l (Z.lnot SB_MASK)).

Definition default_tx_handler : M state unit :=
  u <- this ;;
  match tx_buffer u with
  | Some buf =>
      if 0 <? tx_buff_size u then
        s <- read_lsr_sticky ;;
        (if negb (Z.land s UART_THRE =? 0) then
           let tx_remain := u32 (tx_buff_size u - tx_idx u) in
           let fill_size := if tx_remain <? TX_FIFO_SIZE then tx_remain else TX_FIFO_SIZE in
           foreach (seqZ 0 fill_size) (fun _ =>
             u <- this ;;
             c <- of_option (buf !! Z.to_nat (tx_idx u)) ;;
             wr uart_thr c ;;;
             update (fun u => set_tx (tx_buffer u) (tx_buff_size u) (u32 (tx_idx u + 1)) u))
         else ret tt) ;;;
        u <- this ;;
        if tx_idx u =? tx_buff_size u then
          update (fun u => set_tx (tx_buffer u) TX_COMPLETE (tx_idx u) u) ;;;
          i <- rd uart_ier ;;
          wr uart_ier (Z.land i (Z.lnot ETBEI_MASK))
        else ret tt
      else ret tt
  | None => ret tt
  end.

Definition call (h : option handler) : M state unit :=
  match h with
  | None => ret tt
  | Some Default_tx => default_tx_handler
  | Some (User id) => user id
  end.

Definition uart_isr : M state unit :=
  r <- rd uart_iir ;;
  let iirf := Z.land r IIRF_MASK in
  u <- this ;;
  if iirf =? IIRF_MODEM_STATUS then call (modemsts_handler u)
  else if iirf =? IIRF_THRE then call (tx_handler u)
  else if (iirf =? IIRF_RX_DATA) || (iirf =? IIRF_DATA_TIMEOUT) then call (rx_handler u)
  else if iirf =? IIRF_RX_LINE_STATUS then call (linests_handler u)
  else ret tt.
End Driver.

(** ** Reasoning about the two parts of the state *)

Lemma wp_hw {A} (m : M trace A) (Q : A -> state -> Prop) u t :
  wp m (fun a t' => Q a (u, t')) t -> wp (hw m) Q (u, t).
Proof. unfold wp, hw. by destruct (m t) as [[a t']| |]. Qed.

Lemma wp_update f (Q : unit -> state -> Prop) u t : Q tt (f u, t) -> wp (update f) Q (u, t).
Proof. done. Qed.

Lemma wp_this (Q : uart_instance -> state -> Prop) u t : Q u (u, t) -> wp this Q (u, t).
Proof. done. Qed.

Lemma u8_testbit z i : 0 <= i < 8 -> Z.testbit (u8 z) i = Z.testbit z i.
Proof. intros Hi. unfold u8. apply (Z.mod_pow2_bits_low z 8 i). lia. Qed.

Section Spec.
Context (dev : device) (hart_id : Z) (n fuel : nat) (u0 : ns16550).

Abbreviation regs t := (uart_after u0 t).

Lemma wp_wr a v (Q : unit -> state -> Prop) u t :
  Q tt (u, Wr a (u8 v) :: t) -> wp (wr a v) Q (u, t).
Proof using. intros H. by apply wp_hw. Qed.

Lemma wp_rd a (Q : Z -> state -> Prop) u t :
  Q (u8 (dev t a)) (u, Rd a (dev t a) :: t) -> wp (rd dev a) Q (u, t).
Proof using. intros H. by apply wp_hw. Qed.

Lemma wp_sticky (Q : Z -> state -> Prop) u t :
  let s := u8 (dev t uart_lsr) in
  Q s (set_status (Z.lor (status u) s) u, Rd uart_lsr (dev t uart_lsr) :: t) ->
  wp (read_lsr_sticky dev) Q (u, t).
Proof using. intros s H. unfold read_lsr_sticky. apply wp_bind, wp_rd. done. Qed.

(** The interrupt enable of the PLIC is not a register of the UART. *)
Lemma wp_enable_irq (Q : unit -> state -> Prop) u t :
  (forall t', regs t' = regs t -> Q tt (u, t')) -> wp (enable_irq dev hart_id) Q (u, t).
Proof using.
  intros HQ. unfold enable_irq. apply wp_hw. unfold PLIC_EnableIRQ.
  destruct (hart_id =? 0); [|by apply wp_ret, HQ].
  change (enable_word UART_0_PLIC_IRQHandler) with (ret (S := trace) (HART0_MMODE_ENA 0)).
  apply wp_bind, wp_ret. unfold load32, store32, bind, wp. apply HQ. cbn [uart_after].
  apply uart_write_other. apply (bool_decide_unpack _). by vm_compute.
Qed.

(** *** Configuration *)

Lemma baud_value_exact baud :
  0 < baud < 2 ^ 32 ->
  u32 (u64 (8 * FPGA_UART_0_FREQUENCY) / baud) / 2 / 64 = FPGA_UART_0_FREQUENCY / (16 * baud).
Proof using.
  change (2 ^ 32) with 4294967296. change (u64 (8 * FPGA_UART_0_FREQUENCY)) with 200000000.
  intros Hb. assert (0 <= 200000000 / baud <= 200000000).
  { split; [apply Z.div_pos; lia|apply Z.div_le_upper_bound; nia]. }
  rewrite u32_id by lia. rewrite !Z.div_div by lia. change FPGA_UART_0_FREQUENCY with 25000000.
  replace (baud * (2 * 64)) with (16 * baud * 8) by lia.
  rewrite <-Z.div_div by lia. rewrite (Z.div_div 200000000), Z.mul_comm by lia.
  rewrite <-Z.div_div by lia. done.
Qed.

Lemma UART_init_run baud line_config u t :
  0 < baud < 2 ^ 32 -> 0 <= line_config < 256 -> dlab (regs t) = false ->
  wp (UART_init baud line_config)
     (fun _ '(u', t') =>
        u' = {| baudrate := baud; lineconfig := line_config; status := 0; tx_buffer := None;
                tx_buff_size := 0; tx_idx := 0; linests_handler := None; rx_handler := None;
                tx_handler := Some Default_tx; modemsts_handler := None |}
        /\ ier (regs t') = 0 /\ fcr (regs t') = 0xC7 /\ mcr (regs t') = 0
        /\ lcr (regs t') = line_config /\ line (regs t') = line (regs t)
        /\ divisor (regs t') = (if 24 <=? baud then FPGA_UART_0_FREQUENCY / (16 * baud)
                                else divisor (regs t))) (u, t).
Proof using.
  intros Hb Hl Hd. unfold UART_init, global_init, config_baud_divisors.
  unfold hw, wr, update, store8, bind, wp. rewrite (baud_value_exact baud Hb).
  destruct (Z.eqb_spec baud 0); [lia|]. change FPGA_UART_0_FREQUENCY with 25000000.
  change (2 ^ 32) with 4294967296 in Hb.
  assert (0 <= 25000000 / (16 * baud)
          /\ (25000000 / (16 * baud) <=? 65535) = (24 <=? baud)) as [Hv Hv'].
  { split; [apply Z.div_pos; lia|]. apply eq_true_iff_eq. rewrite !Z.leb_le. split; intros H.
    - apply Z.nlt_ge. intros Hlt.
      assert (65535 + 1 <= 25000000 / (16 * baud)) by (apply Z.div_le_lower_bound; lia). lia.
    - rewrite <-Z.lt_succ_r. apply Z.div_lt_upper_bound; lia. }
  rewrite Hv'. generalize dependent (25000000 / (16 * baud)). intros v Hv Hv'.
  rewrite (u8_id line_config) by done.
  destruct (24 <=? baud) eqn:E; unfold ret; (split; [done|]); cbn [uart_after];
    destruct (regs t) as [l m i f c d o]; unfold dlab, lcr in Hd;
    rewrite uart_write_ier by done; uart_regs; cbn [ier fcr mcr lcr line]; split_and!; try done.
  unfold divisor. cbn [dll dlm]. apply Z.leb_le in Hv'. unfold u8.
  rewrite Z.shiftr_div_pow2 by done. change (2 ^ 8) with 256. divlia.
Qed.

(** *** Transmission *)

Lemma wait_loop (Q : unit -> state -> Prop) u k f t :
  (k < f)%nat -> lsr_ready (dev (after_loads dev uart_lsr k t) uart_lsr) = true ->
  (forall t', regs t' = regs t -> Q tt (u, t')) ->
  wp (wait_thre dev f) Q (u, t).
Proof using.
  unfold wait_thre, poll. revert t k. induction f as [|f IH]; intros t k Hk Hok HQ; [lia|].
  cbn [loop]. apply wp_bind, wp_bind, wp_bind, wp_rd, wp_ret, wp_ret.
  destruct (lsr_ready (dev t uart_lsr)) eqn:E; unfold lsr_ready in E;
    change (Z.land (u8 (dev t uart_lsr)) UART_THRE) with (Z.land (u8 (dev t uart_lsr)) 32).
  - apply negb_true_iff in E. rewrite E. by apply wp_ret, HQ.
  - apply negb_false_iff in E. rewrite E. destruct k as [|k].
    + cbn [after_loads] in Hok. unfold lsr_ready in Hok. by rewrite E in Hok.
    + eapply (IH _ k); [lia|exact Hok|done].
Qed.

Context (live : uart_live dev n) (enough : (n <= fuel)%nat).

Lemma wait_thre_spec (Q : unit -> state -> Prop) u t :
  (forall t', regs t' = regs t -> Q tt (u, t')) -> wp (wait_thre dev fuel) Q (u, t).
Proof using live enough.
  intros HQ. destruct (live t) as (k & Hk & Hok). eapply wait_loop; [|done|done]. lia.
Qed.

(** The line after [text] more bytes, nothing else changed. *)
Definition sends (text : list Z) (t t' : trace) : Prop := regs t' = push_line (regs t) text.

Lemma sends_trans x y t1 t2 t3 : sends x t1 t2 -> sends y t2 t3 -> sends (x ++ y) t1 t3.
Proof using. unfold sends. intros H1 H2. by rewrite H2, H1, push_line_app. Qed.

Lemma sends_thr c t t' :
  dlab (regs t) = false -> byte c -> regs t' = regs t -> sends [c] t (Wr uart_thr (u8 c) :: t').
Proof using.
  intros Hd Hc Ht. unfold sends. cbn [uart_after].
  by rewrite Ht, uart_write_thr, u8_id by done.
Qed.

Lemma sends_dlab x t t' : sends x t t' -> dlab (regs t) = false -> dlab (regs t') = false.
Proof using. intros -> Hd. exact Hd. Qed.

Lemma polled_tx_sends buf size u t :
  bytes buf -> 0 < size <= Z.of_nat (length buf) -> size < 2 ^ 32 -> size <= Z.of_nat fuel ->
  dlab (regs t) = false ->
  wp (UART_polled_tx dev fuel (Some buf) size)
     (fun _ '(u', t') => u' = u /\ sends (take (Z.to_nat size) buf) t t') (u, t).
Proof using live enough.
  intros Hbuf Hsize Hmax Hfuel Hd. change (2 ^ 32) with 4294967296 in Hmax.
  unfold UART_polled_tx. rewrite (proj2 (Z.ltb_lt 0 size)) by lia.
  apply (wp_loop _ (fun i '(u', t') => u' = u /\ 0 <= i < size
      /\ sends (take (Z.to_nat i) buf) t t')
    _ (fun i _ => Z.to_nat (size - i - 1))).
  - split_and!; [done|lia|lia|]. unfold sends. by rewrite push_line_nil.
  - lia.
  - intros i [u' t1] (-> & Hi & Hs). apply wp_bind, wait_thre_spec. intros t2 Ht2.
    destruct (lookup_lt_is_Some_2 buf (Z.to_nat i)) as [c Hc]; [lia|]. rewrite Hc.
    apply wp_bind, wp_ret, wp_bind, wp_wr, wp_ret. rewrite u32_id by lia.
    assert (sends (take (Z.to_nat (i + 1)) buf) t (Wr uart_thr (u8 c) :: t2)) as Hs'.
    { replace (Z.to_nat (i + 1)) with (S (Z.to_nat i)) by lia. rewrite (take_S_r _ _ _ Hc).
      eapply sends_trans; [exact Hs|]. apply sends_thr; [by eapply sends_dlab| |done].
      by eapply Forall_lookup_1 in Hbuf. }
    destruct (Z.ltb_spec (i + 1) size).
    + split; [|lia]. split_and!; [done|lia|lia|done].
    + replace (Z.to_nat size) with (Z.to_nat (i + 1)) by lia. done.
Qed.

Lemma string_tx_sends text rest u t :
  Forall (fun c => 0 < c < 256) text -> Z.of_nat (length text) < 2 ^ 32 - 1 ->
  (length text < fuel)%nat -> dlab (regs t) = false ->
  wp (UART_polled_tx_string dev fuel (Some (text ++ 0 :: rest)))
     (fun _ '(u', t') => u' = u /\ sends text t t') (u, t).
Proof using live enough.
  intros HF Hmax Hfuel Hd. change (2 ^ 32) with 4294967296 in Hmax. unfold UART_polled_tx_string.
  destruct (lookup_lt_is_Some_2 (text ++ 0 :: rest) 0) as [c0 Hc0];
    [rewrite length_app; simpl; clear; lia|].
  rewrite Hc0. apply wp_bind, wp_ret.
  apply (wp_loop _ (fun st '(u', t') => u' = u /\ exists k, (k <= length text)%nat
      /\ fst st = Z.of_nat k /\ (text ++ 0 :: rest) !! k = Some (snd st)
      /\ sends (take k text) t t')
    _ (fun st _ => (length text - Z.to_nat (fst st))%nat)).
  - split; [done|]. exists O. split_and!; [lia|done|done|]. unfold sends. by rewrite push_line_nil.
  - simpl. lia.
  - intros [i c] [u' t1] (-> & k & Hk & Hi & Hc & Hs). cbn [fst snd] in *. subst i.
    destruct (decide (k = length text)) as [->|Hne].
    + rewrite lookup_app_r, Nat.sub_diag in Hc by done. injection Hc as <-.
      apply wp_ret. split; [done|]. by rewrite firstn_all in Hs.
    + assert (k < length text)%nat as Hlt by lia.
      rewrite lookup_app_l in Hc by done.
      assert (0 < c < 256) as Hrange by (eapply Forall_lookup_1 in HF; [|exact Hc]; done).
      destruct (Z.eqb_spec c 0); [lia|]. apply wp_bind, wait_thre_spec. intros t2 Ht2.
      apply wp_bind, wp_wr. rewrite u32_id by lia.
      replace (Z.to_nat (Z.of_nat k + 1)) with (S k) by lia.
      destruct (lookup_lt_is_Some_2 (text ++ 0 :: rest) (S k)) as [c' Hc'];
        [rewrite length_app; simpl; lia|].
      rewrite Hc'. apply wp_bind, wp_ret, wp_ret. cbn [fst snd]. split; [|lia].
      split; [done|]. exists (S k). split_and!; [lia|lia|done|].
      rewrite (take_S_r _ _ _ Hc). eapply sends_trans; [exact Hs|].
      apply sends_thr; [by eapply sends_dlab|unfold byte; lia|done].
Qed.

End Spec.

(** *** Transmission by interrupts

    The transmitter of a 16550: a FIFO of 16 bytes, or one holding register when
    the FIFOs are off, that drains as time passes; a byte stored when it is full is
    lost.  [pending t] is how many bytes wait in it after the accesses [t]. *)

Definition tx_depth (u : ns16550) : nat := if Z.testbit (fcr u) 0 then 16 else 1.

(** The bytes that were not lost, oldest first. *)
Fixpoint accepted (pending : trace -> nat) (u0 : ns16550) (t : trace) : list Z :=
  match t with
  | [] => []
  | Wr a v :: t =>
      if (a =? uart_thr) && negb (dlab (uart_after u0 t)) && (pending t <? tx_depth (uart_after u0 t))%nat
      then accepted pending u0 t ++ [v] else accepted pending u0 t
  | Rd _ _ :: t | SetCsr _ _ :: t => accepted pending u0 t
  end.

(** Interrupt enables other than that of the transmitter. *)
Definition OTHER_IRQS : Z := 0x0D.
Definition IIRF_NONE : Z := 0x01.

(** The line status says that the FIFO is empty when and only when it is; only a
    store to the transmit register fills it; the enables read back; and with the
    other interrupts off the identification is the transmitter's or none.  It may
    be the transmitter's while bytes still wait, late or spurious. *)
Record transmitter (dev : device) (u0 : ns16550) (pending : trace -> nat) : Prop := {
  tx_thre t : Z.land (u8 (dev t uart_lsr)) UART_THRE <> 0 <-> pending t = O;
  tx_push t v : (pending (Wr uart_thr v :: t) <= S (pending t))%nat;
  tx_drain e t : (forall v, e <> Wr uart_thr v) -> (pending (e :: t) <= pending t)%nat;
  tx_ier t : dlab (uart_after u0 t) = false -> u8 (dev t uart_ier) = u8 (ier (uart_after u0 t));
  tx_iir t : Z.land (ier (uart_after u0 t)) OTHER_IRQS = 0 ->
             Z.land (u8 (dev t uart_iir)) IIRF_MASK ∈ [IIRF_THRE; IIRF_NONE]
}.

(** What the rest of the program does between two interrupts: anything but store
    to a register of the UART. *)
Definition elsewhere (e : event) : Prop :=
  match e with
  | Wr a _ => a ∉ [uart_thr; uart_ier; uart_fcr; uart_lcr; uart_mcr]
  | Rd _ _ | SetCsr _ _ => True
  end.

Section Interrupts.
Context (dev : device) (user : Z -> M state unit).

(** The interrupt at [t] is the transmitter's, and the handler finds it empty. *)
Definition grants (t : trace) : bool :=
  (Z.land (u8 (dev t uart_iir)) IIRF_MASK =? IIRF_THRE)
  && negb (Z.land (u8 (dev (Rd uart_iir (dev t uart_iir) :: t) uart_lsr)) UART_THRE =? 0).

Definition idle (ev : trace) : M state trace := fun '(u, t) => Ok (ev ++ t, (u, ev ++ t)).

(** The handler, entered after each of [evs]; how many of the entries found work. *)
Fixpoint interrupts (evs : list trace) : M state nat :=
  match evs with
  | [] => ret O
  | ev :: evs =>
      t <- idle ev ;;
      uart_isr dev user ;;;
      n <- interrupts evs ;;
      ret ((if grants t then 1 else 0) + n)%nat
  end.
End Interrupts.

Section Irq.
Context (dev : device) (hart_id : Z) (u0 : ns16550) (pending : trace -> nat).

Abbreviation regs t := (uart_after u0 t).
Abbreviation taken t := (accepted pending u0 t).

Context (user : Z -> M state unit) (law : transmitter dev u0 pending).

Lemma regs_ier v t :
  dlab (regs t) = false ->
  regs (Wr uart_ier v :: t)
  = {| dll := dll (regs t); dlm := dlm (regs t); ier := v; fcr := fcr (regs t); lcr := lcr (regs t);
       mcr := mcr (regs t); line := line (regs t) |}.
Proof using.
  intros Hd. cbn [uart_after]. destruct (regs t) as [l m i f c d o]. unfold dlab, lcr in Hd.
  by rewrite uart_write_ier.
Qed.

(** What transmission needs of the registers. *)
Definition tx_ready (t : trace) : Prop :=
  dlab (regs t) = false /\ Z.testbit (fcr (regs t)) 0 = true /\ Z.land (ier (regs t)) OTHER_IRQS = 0.

Lemma other_irqs_set v : Z.land (u8 (Z.lor (u8 v) ETBEI_MASK)) OTHER_IRQS = Z.land v OTHER_IRQS.
Proof using.
  apply Z.bits_inj'. intros i Hi. rewrite !Z.land_spec. destruct (Z.ltb_spec i 8).
  - rewrite u8_testbit, Z.lor_spec, u8_testbit by lia. unfold ETBEI_MASK, OTHER_IRQS.
    assert (i = 1 \/ i <> 1) as [->|Hne] by lia; [by rewrite !andb_false_r|].
    rewrite Z.shiftl_1_l, Z.pow2_bits_false, orb_false_r by lia. done.
  - rewrite (Z.bits_above_log2 OTHER_IRQS), !andb_false_r by (unfold OTHER_IRQS; simpl; lia). done.
Qed.

Lemma other_irqs_clear v : Z.land (u8 (Z.land (u8 v) (Z.lnot ETBEI_MASK))) OTHER_IRQS = Z.land v OTHER_IRQS.
Proof using.
  apply Z.bits_inj'. intros i Hi. rewrite !Z.land_spec. destruct (Z.ltb_spec i 8).
  - rewrite u8_testbit, Z.land_spec, u8_testbit, Z.lnot_spec by lia. unfold ETBEI_MASK, OTHER_IRQS.
    assert (i = 1 \/ i <> 1) as [->|Hne] by lia; [by rewrite !andb_false_r|].
    rewrite Z.shiftl_1_l, Z.pow2_bits_false, andb_true_r by lia. done.
  - rewrite (Z.bits_above_log2 OTHER_IRQS), !andb_false_r by (unfold OTHER_IRQS; simpl; lia). done.
Qed.

Lemma accepted_other a v t : a <> uart_thr -> taken (Wr a v :: t) = taken t.
Proof using. intros Ha. cbn [accepted]. by rewrite (proj2 (Z.eqb_neq _ _) Ha). Qed.

Lemma elsewhere_keeps ev t : Forall elsewhere ev -> regs (ev ++ t) = regs t /\ taken (ev ++ t) = taken t.
Proof using.
  induction 1 as [|[a v|a v|c v] ev He _ [IH1 IH2]]; [done|done| |done]. cbn [app uart_after elsewhere] in *. split.
  - rewrite uart_write_other by done. exact IH1.
  - rewrite accepted_other; [exact IH2|]. intros ->. apply He. by left.
Qed.

(** The first [i] bytes of the [N] of [buf] are out, after those of [l0]. *)
Definition sent_upto (buf : list Z) (N i : Z) (l0 : list Z) (st : state) : Prop :=
  let '(u, t) := st in
  tx_buffer u = Some buf /\ tx_handler u = Some Default_tx /\ tx_ready t
  /\ taken t = l0 ++ take (Z.to_nat i) buf
  /\ (if i <? N then tx_buff_size u = N /\ tx_idx u = i /\ Z.testbit (ier (regs t)) 1 = true
      else tx_buff_size u = 0 /\ Z.testbit (ier (regs t)) 1 = false).

(** A handler that finds the FIFO empty can store 16 bytes without loss. *)
Lemma fill_sends buf i k u t :
  bytes buf -> 0 <= i -> i + Z.of_nat k <= Z.of_nat (length buf) -> i + Z.of_nat k < 2 ^ 32 ->
  tx_idx u = i -> tx_ready t -> pending t = O -> (k <= 16)%nat ->
  wp (foreach (seqZ 0 (Z.of_nat k)) (fun _ =>
        u <- this ;;
        c <- of_option (buf !! Z.to_nat (tx_idx u)) ;;
        wr uart_thr c ;;;
        update (fun u => set_tx (tx_buffer u) (tx_buff_size u) (u32 (tx_idx u + 1)) u)))
     (fun _ '(u', t') => u' = set_tx (tx_buffer u) (tx_buff_size u) (i + Z.of_nat k) u
        /\ tx_ready t' /\ ier (regs t') = ier (regs t)
        /\ taken t' = taken t ++ take k (drop (Z.to_nat i) buf)) (u, t).
Proof using law.
  intros Hbuf Hi Hk Hmax Hidx Hr Hp H16. change (2 ^ 32) with 4294967296 in Hmax. eapply wp_mono.
  - apply (wp_foreach _ _ (fun done '(u', t') =>
      u' = set_tx (tx_buffer u) (tx_buff_size u) (i + Z.of_nat (length done)) u
      /\ tx_ready t' /\ ier (regs t') = ier (regs t) /\ (pending t' <= length done)%nat
      /\ taken t' = taken t ++ take (length done) (drop (Z.to_nat i) buf))).
    + split; [|simpl; rewrite Hp, app_nil_r; done].
      simpl. rewrite Z.add_0_r, <-Hidx. by destruct u.
    + intros done x todo [u' t1] Hsplit (-> & (Hd & Hf & Ho) & Hier & Hpend & Hacc).
      assert (length done < k)%nat as Hlt.
      { apply (f_equal length) in Hsplit. rewrite length_seqZ, length_app in Hsplit.
        simpl in Hsplit. clear -Hsplit. lia. }
      apply wp_bind, wp_this. cbn [tx_idx set_tx].
      destruct (lookup_lt_is_Some_2 buf (Z.to_nat (i + Z.of_nat (length done)))) as [c Hc];
        [clear -Hlt Hk Hi; lia|].
      rewrite Hc. apply wp_bind, wp_ret, wp_bind, wp_wr, wp_update. split; [|split; [|split; [|split]]].
      * unfold set_tx. cbn [tx_buffer tx_buff_size tx_idx]. rewrite length_app, u32_id
          by (clear -Hlt Hk Hi Hmax; lia). cbn [length]. f_equal. clear. lia.
      * unfold tx_ready. cbn [uart_after]. by rewrite uart_write_thr by done.
      * cbn [uart_after]. by rewrite uart_write_thr by done.
      * pose proof (tx_push _ _ _ law t1 (u8 c)). rewrite length_app. cbn [length]. lia.
      * cbn [accepted]. rewrite Z.eqb_refl, Hd. unfold tx_depth. rewrite Hf.
        rewrite (proj2 (Nat.ltb_lt _ _)) by lia. cbn [negb andb]. rewrite Hacc, length_app, Nat.add_1_r.
        assert (drop (Z.to_nat i) buf !! length done = Some c) as Hc'
          by (rewrite lookup_drop, <-Hc; f_equal; clear -Hi; lia).
        rewrite (take_S_r _ _ _ Hc'), (assoc_L (++)). do 2 f_equal. apply u8_id.
        by eapply Forall_lookup_1 in Hbuf.
  - intros [] [u' t']. rewrite length_seqZ, Nat2Z.id. intros (? & ? & ? & _ & ?). done.
Qed.

Lemma handler_step buf N i l0 u t :
  bytes buf -> 0 < N <= Z.of_nat (length buf) -> N < 2 ^ 32 -> 0 <= i <= N ->
  sent_upto buf N i l0 (u, t) ->
  wp (default_tx_handler dev) (fun _ st' =>
    sent_upto buf N (if Z.land (u8 (dev t uart_lsr)) UART_THRE =? 0 then i else Z.min N (i + 16)) l0 st') (u, t).
Proof using law.
  intros Hbuf HN Hmax Hi (Hb & Hh & Hr & Hline & Hcase).
  change (2 ^ 32) with 4294967296 in Hmax.
  unfold default_tx_handler. apply wp_bind, wp_this. rewrite Hb.
  destruct (Z.ltb_spec i N) as [Hlt|Hge].
  - destruct Hcase as (Hsize & Hidx & Hier). rewrite Hsize, (proj2 (Z.ltb_lt 0 N)) by lia.
    apply wp_bind, wp_sticky. set (s := Z.lor (status u) _). clearbody s.
    pose proof (tx_thre _ _ _ law t) as Hthre.
    assert (pending (Rd uart_lsr (dev t uart_lsr) :: t) <= pending t)%nat as Hdrain by by apply (tx_drain _ _ _ law).
    destruct (Z.eqb_spec (Z.land (u8 (dev t uart_lsr)) UART_THRE) 0) as [Ez|Enz]; cbn [negb].
    { apply wp_bind, wp_ret, wp_bind, wp_this. cbn [set_status tx_idx tx_buff_size]. rewrite Hidx, Hsize.
      destruct (Z.eqb_spec i N); [lia|]. apply wp_ret. unfold sent_upto. rewrite (proj2 (Z.ltb_lt _ _)) by lia. done. }
    apply Hthre in Enz.
    set (t2 := Rd uart_lsr (dev t uart_lsr) :: t) in *. assert (pending t2 = O) as Hp2 by lia.
    change (tx_ready t) with (tx_ready t2) in Hr. change (taken t) with (taken t2) in Hline.
    change (regs t) with (regs t2) in *. clearbody t2.
    rewrite Hidx, u32_id by lia.
    set (k := Z.to_nat (Z.min (N - i) 16)).
    assert ((if N - i <? TX_FIFO_SIZE then N - i else TX_FIFO_SIZE) = Z.of_nat k) as ->
      by (unfold k, TX_FIFO_SIZE; destruct (Z.ltb_spec (N - i) 16); lia).
    assert (i + Z.of_nat k = Z.min N (i + 16)) as Hnext by (unfold k; lia).
    apply wp_bind. eapply wp_mono.
    { apply (fill_sends buf i k (set_status s u) t2); done || lia. }
    intros [] [u3 t3] (-> & Hr3 & Hier3 & Hacc). apply wp_bind, wp_this. cbn [set_status set_tx tx_idx tx_buff_size].
    rewrite Hnext, Hsize.
    assert (taken t3 = l0 ++ take (Z.to_nat (Z.min N (i + 16))) buf) as Hline3.
    { rewrite Hacc, Hline, <-(assoc_L (++)), take_take_drop. do 2 f_equal. lia. }
    destruct (Z.eqb_spec (Z.min N (i + 16)) N) as [Hend|Hmore].
    + apply wp_bind, wp_update, wp_bind, wp_rd, wp_wr. unfold sent_upto, tx_ready.
      destruct Hr3 as (Hd3 & Hf3 & Ho3). rewrite (tx_ier _ _ _ law t3) by done.
      rewrite accepted_other by done. cbn [accepted].
      set (t4 := Rd uart_ier (dev t3 uart_ier) :: t3). change (regs t3) with (regs t4) in *. 
      rewrite regs_ier by done. unfold dlab in *. cbn [lcr fcr ier].
      unfold set_tx, set_status. cbn [tx_buffer tx_handler tx_buff_size].
      rewrite Hend, Z.ltb_irrefl. split_and!; try done; [by rewrite other_irqs_clear|by rewrite Hend in Hline3|].
      rewrite u8_testbit, Z.land_spec, Z.lnot_spec by lia. by rewrite andb_false_r.
    + apply wp_ret. unfold sent_upto. rewrite (proj2 (Z.ltb_lt _ _)) by lia.
      split_and!; try done. by rewrite Hier3.
  - destruct Hcase as [Hsize Hier]. rewrite Hsize. apply wp_ret. unfold sent_upto.
    assert ((if Z.land (u8 (dev t uart_lsr)) UART_THRE =? 0 then i else Z.min N (i + 16)) = N) as ->
      by (destruct (_ =? 0); lia).
    rewrite Z.ltb_irrefl. replace i with N in Hline by lia. done.
Qed.

Lemma isr_step buf N i l0 u t :
  bytes buf -> 0 < N <= Z.of_nat (length buf) -> N < 2 ^ 32 -> 0 <= i <= N ->
  sent_upto buf N i l0 (u, t) ->
  wp (uart_isr dev user) (fun _ st' => sent_upto buf N (if grants dev t then Z.min N (i + 16) else i) l0 st') (u, t).
Proof using law.
  intros Hbuf HN Hmax Hi Hs. unfold uart_isr. apply wp_bind, wp_rd, wp_bind, wp_this.
  pose proof Hs as (Hb & Hh & (Hd & Hf & Ho) & Hline & Hcase).
  unfold grants. pose proof (tx_iir _ _ _ law t Ho) as Hiir.
  rewrite !elem_of_cons in Hiir. destruct Hiir as [Hiir|[Hiir|Hno]]; [| |by apply not_elem_of_nil in Hno].
  - rewrite Hiir. cbn [Z.eqb Pos.eqb IIRF_THRE IIRF_MODEM_STATUS andb]. rewrite Hh. cbn [call].
    eapply wp_mono; [by apply (handler_step buf N i l0)|]. intros [] st'. by destruct (_ =? 0).
  - rewrite Hiir. cbn [Z.eqb Pos.eqb IIRF_THRE IIRF_NONE IIRF_MODEM_STATUS IIRF_RX_DATA IIRF_DATA_TIMEOUT
      IIRF_RX_LINE_STATUS andb orb]. by apply wp_ret.
Qed.

Lemma interrupts_send buf N evs i l0 st :
  bytes buf -> 0 < N <= Z.of_nat (length buf) -> N < 2 ^ 32 -> 0 <= i <= N ->
  Forall (Forall elsewhere) evs -> sent_upto buf N i l0 st ->
  wp (interrupts dev user evs)
     (fun n st' => sent_upto buf N (Z.min N (i + 16 * Z.of_nat n)) l0 st') st.
Proof using law.
  intros Hbuf HN Hmax Hi HF. revert i st Hi. induction HF as [|ev evs Hev _ IH]; intros i [u t] Hi Hs.
  - apply wp_ret. by replace (Z.min N (i + 16 * Z.of_nat 0)) with i by lia.
  - cbn [interrupts]. apply wp_bind. unfold wp at 1, idle.
    assert (sent_upto buf N i l0 (u, ev ++ t)) as Hs'.
    { destruct (elsewhere_keeps ev t Hev) as [E1 E2]. unfold sent_upto, tx_ready in *. by rewrite E1, E2. }
    apply wp_bind. eapply wp_mono; [by apply (isr_step buf N i l0)|].
    intros [] st1 Hs1. cbv beta in Hs1. set (j := if grants dev (ev ++ t) then Z.min N (i + 16) else i) in *.
    assert (0 <= j <= N) as Hj by (unfold j; destruct (grants dev (ev ++ t)); lia).
    apply wp_bind. eapply wp_mono; [exact (IH j st1 Hj Hs1)|]. intros n st2 Hs2. apply wp_ret.
    assert (Z.min N (i + 16 * Z.of_nat ((if grants dev (ev ++ t) then 1 else 0) + n)) = Z.min N (j + 16 * Z.of_nat n)) as ->;
      [|exact Hs2]. unfold j. destruct (grants dev (ev ++ t)); lia.
Qed.

(** The interrupt enable of the PLIC is not a register of the UART. *)
Lemma enable_irq_elsewhere (Q : unit -> state -> Prop) u t :
  (forall ev, Forall elsewhere ev -> Q tt (u, ev ++ t)) -> wp (enable_irq dev hart_id) Q (u, t).
Proof using.
  intros HQ. unfold enable_irq. apply wp_hw. unfold PLIC_EnableIRQ.
  destruct (hart_id =? 0); [|by apply wp_ret, (HQ [])].
  change (enable_word UART_0_PLIC_IRQHandler) with (ret (S := trace) (HART0_MMODE_ENA 0)).
  apply wp_bind, wp_ret. unfold load32, store32, bind, wp. eapply (HQ [_; _]).
  repeat constructor. apply (bool_decide_unpack _). by vm_compute.
Qed.

Lemma irq_tx_starts buf N u t :
  0 < N -> tx_ready t ->
  wp (UART_irq_tx dev hart_id (Some buf) N)
     (fun _ st => sent_upto buf N 0 (taken t) st) (u, t).
Proof using law.
  intros HN (Hd & Hf & Ho). unfold UART_irq_tx. rewrite (proj2 (Z.ltb_lt 0 N)) by lia.
  rewrite bool_decide_eq_true_2 by done. cbn [andb].
  apply wp_bind, wp_update, wp_bind, wp_update, wp_bind. unfold ier_set.
  apply wp_bind, wp_rd, wp_wr, enable_irq_elsewhere. intros ev Hev. unfold sent_upto, tx_ready.
  destruct (elsewhere_keeps ev (Wr uart_ier (u8 (Z.lor (u8 (dev t uart_ier)) ETBEI_MASK))
    :: Rd uart_ier (dev t uart_ier) :: t) Hev) as [-> ->].
  rewrite (tx_ier _ _ _ law t Hd), accepted_other by done. cbn [accepted].
  set (t1 := Rd uart_ier (dev t uart_ier) :: t). change (regs t) with (regs t1) in *.
  rewrite regs_ier by done. unfold dlab in *. cbn [lcr fcr ier].
  cbn [set_tx set_tx_h tx_buffer tx_handler tx_buff_size tx_idx].
  rewrite (proj2 (Z.ltb_lt 0 N)), app_nil_r by lia. split_and!; try done; [by rewrite other_irqs_set|].
  rewrite u8_testbit, Z.lor_spec by lia. by rewrite orb_true_r.
Qed.
End Irq.

(** *** Reception *)

(** A receive FIFO: [queue t] is what has arrived and not been read; the low bit
    of the line status says that there is something. *)
Record rx_fifo (dev : device) (queue : trace -> list Z) : Prop := {
  rx_ready t : Z.land (u8 (dev t uart_lsr)) UART_DATA_READY
               = match queue t with [] => 0 | _ => 1 end;
  rx_first t b q : queue t = b :: q -> u8 (dev t uart_rbr) = b;
  rx_pop t v : queue (Rd uart_rbr v :: t) = tail (queue t);
  rx_status t v : queue (Rd uart_lsr v :: t) = queue t
}.

Section Rx.
Context (dev : device) (fuel : nat) (queue : trace -> list Z) (fifo : rx_fifo dev queue).

Lemma get_rx_loop size got f s u t t0 :
  s = u8 (dev t0 uart_lsr) -> t = Rd uart_lsr (dev t0 uart_lsr) :: t0 ->
  0 <= size -> Z.of_nat (length got) <= size -> (length (queue t) < f)%nat ->
  wp (loop f (fun '(s, rx_size, out) =>
        if negb (Z.land s UART_DATA_READY =? 0) && (rx_size <? size) then
          b <- rd dev uart_rbr ;;
          s <- read_lsr_sticky dev ;;
          ret (inl (s, rx_size + 1, out ++ [b]))
        else ret (inr (rx_size, out))) (s, Z.of_nat (length got), got))
     (fun r '(u', t') =>
        let out := got ++ take (Z.to_nat size - length got) (queue t) in
        r = (Z.of_nat (length out), out)
        /\ queue t' = drop (Z.to_nat size - length got) (queue t)) (u, t).
Proof using fifo.
  revert got s u t t0. induction f as [|f IH]; intros got s u t t0 Hs Ht Hsize Hgot Hf; [lia|].
  cbn [loop]. assert (queue t0 = queue t) as Hq by (by rewrite Ht, (rx_status _ _ fifo)).
  rewrite Hs, (rx_ready _ _ fifo), Hq.
  destruct (queue t) as [|b q] eqn:E.
  { apply wp_bind, wp_ret, wp_ret. rewrite take_nil, drop_nil, app_nil_r. done. }
  destruct (Z.ltb_spec (Z.of_nat (length got)) size) as [Hlt|Hge].
  - cbn [Z.eqb Pos.eqb negb andb]. apply wp_bind, wp_bind, wp_rd, wp_bind, wp_sticky, wp_ret.
    set (t1 := Rd uart_rbr (dev t uart_rbr) :: t). rewrite (rx_first _ _ fifo t b q E).
    set (t2 := Rd uart_lsr (dev t1 uart_lsr) :: t1).
    assert (queue t2 = q) as E2
      by (unfold t2, t1; by rewrite (rx_status _ _ fifo), (rx_pop _ _ fifo), E).
    replace (Z.of_nat (length got) + 1) with (Z.of_nat (length (got ++ [b])))
      by (rewrite length_app; simpl; lia).
    eapply wp_mono.
    + eapply (IH (got ++ [b]) _ _ t2 t1); [done|done|done|rewrite length_app; simpl; lia|].
      rewrite E2. cbn [length] in Hf. lia.
    + intros r [u' t'] [-> ->]. rewrite E2.
      replace (Z.to_nat size - length (got ++ [b]))%nat with (Z.to_nat size - length got - 1)%nat
        by (rewrite length_app; simpl; lia).
      assert (exists m, (Z.to_nat size - length got)%nat = S m) as [m ->]
        by (exists (Z.to_nat size - length got - 1)%nat; lia).
      rewrite Nat.sub_succ, Nat.sub_0_r, <-(assoc_L (++)). done.
  - rewrite andb_false_r. apply wp_bind, wp_ret, wp_ret.
    replace (Z.to_nat size - length got)%nat with O by lia.
    cbn [take firstn drop skipn]. by rewrite app_nil_r.
Qed.
End Rx.

(** ** Properties *)

(** A UART that transmits at once and whose interrupt enables read back; it
    asks for a byte to send whenever its identification register is read. *)
Definition ready_uart : device := fun t a =>
  if a =? uart_lsr then 0x60
  else if a =? uart_ier then ier (uart_after reset_uart t)
  else if a =? uart_iir then 0xC2 else 0.

Lemma ready_uart_live : uart_live ready_uart 1.
Proof. intros t. exists O. split; [lia|done]. Qed.

(** [UART_init] programs the line configuration asked for, an empty and
    enabled FIFO, no interrupt, and the divisor clock / (16 baud), through the
    doubled quotients of the source, for every rate the 16-bit latch can
    hold (24 baud and more); nothing is sent and the instance starts idle. *)
Theorem UART_init_configures u0 baud line_config u t :
  0 < baud < 2 ^ 32 -> 0 <= line_config < 256 -> dlab (uart_after u0 t) = false ->
  wp (UART_init baud line_config)
     (fun _ '(u', t') =>
        let r := uart_after u0 t' in
        lcr r = line_config /\ fcr r = 0xC7 /\ mcr r = 0 /\ ier r = 0
        /\ divisor r = (if 24 <=? baud then FPGA_UART_0_FREQUENCY / (16 * baud)
                        else divisor (uart_after u0 t))
        /\ line r = line (uart_after u0 t)
        /\ tx_buff_size u' = TX_COMPLETE /\ tx_handler u' = Some Default_tx
        /\ rx_handler u' = None /\ status u' = 0) (u, t).
Proof.
  intros Hb Hl Hd. eapply wp_mono; [by apply (UART_init_run u0)|].
  intros [] [u' t'] (-> & ? & ? & ? & ? & ? & ?). by split_and!.
Qed.

Definition fresh_instance : uart_instance := {|
  baudrate := 0; lineconfig := 0; status := 0; tx_buffer := None; tx_buff_size := 0; tx_idx := 0;
  linests_handler := None; rx_handler := None; tx_handler := None; modemsts_handler := None |}.

Example UART_init_configures_witness :
  wp (UART_init 115200 3)
     (fun _ '(_, t') => divisor (uart_after reset_uart t') = 13) (fresh_instance, []).
Proof.
  eapply wp_mono; [apply (UART_init_configures reset_uart 115200 3 fresh_instance []); [lia|lia|done]|].
  intros [] [u' t'] (_ & _ & _ & _ & -> & _). by vm_compute.
Defined.

(** The polled functions return with exactly the bytes asked for on the
    line, in order: the first [tx_size] of the buffer, or the string up to its
    closing zero. *)
Theorem UART_polled_tx_sends dev n fuel u0 u t :
  uart_live dev n -> (n <= fuel)%nat -> dlab (uart_after u0 t) = false ->
  (forall buf size, bytes buf -> 0 < size <= Z.of_nat (length buf) -> size < 2 ^ 32 ->
     size <= Z.of_nat fuel ->
     wp (UART_polled_tx dev fuel (Some buf) size)
        (fun _ '(u', t') => u' = u
           /\ line (uart_after u0 t') = line (uart_after u0 t) ++ take (Z.to_nat size) buf) (u, t))
  /\ (forall text rest, Forall (fun c => 0 < c < 256) text ->
        Z.of_nat (length text) < 2 ^ 32 - 1 -> (length text < fuel)%nat ->
        wp (UART_polled_tx_string dev fuel (Some (text ++ 0 :: rest)))
           (fun _ '(u', t') => u' = u
              /\ line (uart_after u0 t') = line (uart_after u0 t) ++ text) (u, t)).
Proof.
  intros Hlive Hn Hd. split.
  - intros buf size Hbuf Hsize Hmax Hfuel.
    eapply wp_mono; [by apply (polled_tx_sends dev n fuel u0)|].
    intros [] [u' t'] [-> Hs]. split; [done|]. by rewrite Hs.
  - intros text rest HF Hmax Hfuel.
    eapply wp_mono; [by apply (string_tx_sends dev n fuel u0)|].
    intros [] [u' t'] [-> Hs]. split; [done|]. by rewrite Hs.
Qed.

Example UART_polled_tx_sends_witness :
  wp (UART_polled_tx ready_uart 9 (Some [72; 105; 33]) 2)
     (fun _ '(u', t') => u' = fresh_instance /\ line (uart_after reset_uart t') = [72; 105])
     (fresh_instance, []).
Proof.
  destruct (UART_polled_tx_sends ready_uart 1 9 reset_uart fresh_instance [] ready_uart_live)
    as [H _]; [lia|done|].
  apply (H [72; 105; 33] 2); [repeat constructor; lia|simpl; lia|lia|lia].
Defined.

(** C35: interrupt driven transmission on a 16550 with its FIFOs on and no other
    interrupt enabled.  After [UART_irq_tx], and whatever time and accesses to other
    devices pass between entries of the handler, every entry for the transmitter
    that finds the FIFO empty puts the next 16 bytes of the buffer in it (or what
    is left), and every other entry, spurious or too early, nothing: no byte is
    lost or sent twice.  As long as bytes are left the transmit interrupt stays
    enabled; the entry that sends the last one disables it and marks the transfer
    complete, and more entries send nothing more. *)
Theorem UART_irq_tx_sends_in_blocks dev hart_id user u0 pending buf N evs u t :
  transmitter dev u0 pending -> tx_ready u0 t -> Forall (Forall elsewhere) evs ->
  bytes buf -> 0 < N <= Z.of_nat (length buf) -> N < 2 ^ 32 ->
  wp (UART_irq_tx dev hart_id (Some buf) N ;;; interrupts dev user evs)
     (fun n '(u', t') =>
        let sent := Z.min N (16 * Z.of_nat n) in
        accepted pending u0 t' = accepted pending u0 t ++ take (Z.to_nat sent) buf
        /\ Z.testbit (ier (uart_after u0 t')) 1 = (sent <? N)
        /\ tx_buff_size u' = (if sent <? N then N else TX_COMPLETE)) (u, t).
Proof.
  intros Hlaw Hr Hevs Hbuf HN Hmax.
  apply wp_bind. eapply wp_mono; [by apply (irq_tx_starts dev hart_id u0 pending Hlaw buf N); [lia|]|].
  intros [] st Hst. eapply wp_mono;
    [apply (interrupts_send dev u0 pending user Hlaw buf N evs 0); try done; lia|].
  intros n [u' t'] (_ & _ & _ & Hline & Hcase). rewrite Z.add_0_l in *. split; [done|].
  destruct (Z.min N (16 * Z.of_nat n) <? N); tauto.
Qed.

(** A UART that sends a byte of its FIFO at each access to another device. *)
Fixpoint in_fifo (t : trace) : nat :=
  match t with
  | [] => O
  | Wr a _ :: t => if a =? uart_thr then S (in_fifo t) else in_fifo t
  | Rd a _ :: t => if a <? FPGA_UART_0_BASE then pred (in_fifo t) else in_fifo t
  | SetCsr _ _ :: t => in_fifo t
  end.
Definition fifo_on : ns16550 :=
  {| dll := 13; dlm := 0; ier := 0; fcr := 0xC7; lcr := 3; mcr := 0; line := [] |}.
Definition fifo_uart : device := fun t a =>
  let r := uart_after fifo_on t in
  if a =? uart_lsr then match in_fifo t with O => 0x60 | _ => 0 end
  else if a =? uart_ier then ier r
  else if a =? uart_iir then
    match in_fifo t with O => if Z.testbit (ier r) 1 then 0xC2 else 0xC1 | _ => 0xC1 end
  else 0.

Lemma fifo_uart_law : transmitter fifo_uart fifo_on in_fifo.
Proof.
  split.
  - intros t. unfold fifo_uart. cbn [Z.eqb]. rewrite Z.eqb_refl. by destruct (in_fifo t).
  - intros t v. cbn [in_fifo]. by rewrite Z.eqb_refl.
  - intros [a v|a v|c v] t He; cbn [in_fifo]; [destruct (_ <? _); lia| |lia].
    destruct (Z.eqb_spec a uart_thr) as [->|_]; [by destruct (He v)|lia].
  - done.
  - intros t _. unfold fifo_uart. change (uart_iir =? uart_lsr) with false. change (uart_iir =? uart_ier) with false.
    rewrite Z.eqb_refl. destruct (in_fifo t); [destruct (Z.testbit _ _)|]; apply (bool_decide_unpack _); by vm_compute.
Qed.

(** Twenty bytes; the second entry comes when only three of the first sixteen are
    out, the third when all are. *)
Example UART_irq_tx_sends_in_blocks_witness :
  wp (UART_irq_tx fifo_uart 0 (Some (replicate 20 65)) 20 ;;;
      interrupts fifo_uart (fun _ => ret tt) [[]; replicate 3 (Rd 0 0); replicate 13 (Rd 0 0)])
     (fun n '(u', t') => accepted in_fifo fifo_on t' = take (Z.to_nat (Z.min 20 (16 * Z.of_nat n))) (replicate 20 65)
        /\ Z.testbit (ier (uart_after fifo_on t')) 1 = (Z.min 20 (16 * Z.of_nat n) <? 20)
        /\ tx_buff_size u' = (if Z.min 20 (16 * Z.of_nat n) <? 20 then 20 else TX_COMPLETE)) (fresh_instance, [])
  /\ match (UART_irq_tx fifo_uart 0 (Some (replicate 20 65)) 20 ;;;
      interrupts fifo_uart (fun _ => ret tt) [[]; replicate 3 (Rd 0 0); replicate 13 (Rd 0 0)]) (fresh_instance, []) with
     | Ok (n, (u', t')) => n = 2%nat /\ in_fifo t' = 4%nat | _ => False end.
Proof.
  split; [|vm_compute; split; reflexivity].
  apply (UART_irq_tx_sends_in_blocks fifo_uart 0 (fun _ => ret tt) fifo_on in_fifo (replicate 20 65) 20
           [[]; replicate 3 (Rd 0 0); replicate 13 (Rd 0 0)] fresh_instance []);
    [apply fifo_uart_law|by split_and!|repeat constructor|by apply Forall_replicate|simpl; lia|lia].
Defined.

(** [UART_get_rx] returns the bytes in_fifo in the receive FIFO, in order
    and at most [buff_size] of them, and takes exactly those out of it. *)
Theorem UART_get_rx_drains dev fuel queue size u t :
  rx_fifo dev queue -> 0 <= size -> (length (queue t) < fuel)%nat ->
  wp (UART_get_rx dev fuel false size)
     (fun r '(u', t') =>
        r = (Z.min size (Z.of_nat (length (queue t))), take (Z.to_nat size) (queue t))
        /\ queue t' = drop (Z.to_nat size) (queue t)) (u, t).
Proof.
  intros Hfifo Hsize Hf. unfold UART_get_rx. cbn [negb andb].
  destruct (Z.ltb_spec 0 size) as [Hpos|Hneg].
  - apply wp_bind, wp_sticky. set (t1 := Rd uart_lsr _ :: t).
    assert (queue t1 = queue t) as Hq by apply (rx_status _ _ Hfifo).
    eapply wp_mono.
    + apply (get_rx_loop dev queue Hfifo size [] fuel _ _ t1 t); [done|done|done|simpl; lia|by rewrite Hq].
    + intros r [u' t'] [-> ->]. cbn [length app]. rewrite Nat.sub_0_r, Hq. split; [|done].
      f_equal. rewrite length_take. lia.
  - apply wp_ret. replace (Z.to_nat size) with O by lia.
    replace (Z.min size (Z.of_nat (length (queue t)))) with 0 by lia. done.
Qed.

(** Three bytes have arrived. *)
Definition rx_abc (t : trace) : list Z := drop (length (inputs uart_rbr t)) [65; 66; 67].
Definition rx_device : device := fun t a =>
  if a =? uart_lsr then match rx_abc t with [] => 0 | _ => 1 end else hd 0 (rx_abc t).

Lemma rx_device_fifo : rx_fifo rx_device rx_abc.
Proof.
  assert (forall k, Forall byte (drop k [65; 66; 67])) as HF
    by (intros k; apply Forall_drop; repeat constructor; lia).
  split.
  - intros t. unfold rx_device. simpl. by destruct (rx_abc t).
  - intros t b q Hq. unfold rx_device. simpl. rewrite Hq. simpl. apply u8_id.
    specialize (HF (length (inputs uart_rbr t))). fold (rx_abc t) in HF. rewrite Hq in HF.
    by inversion HF.
  - intros t v. unfold rx_abc. cbn [inputs]. rewrite Z.eqb_refl, length_app, Nat.add_1_r.
    destruct (length (inputs uart_rbr t)) as [|[|[|k]]]; [done..|]. simpl. by rewrite !drop_nil.
  - done.
Qed.

Example UART_get_rx_drains_witness :
  wp (UART_get_rx rx_device 4 false 2)
     (fun r '(_, t') => r = (2, [65; 66]) /\ rx_abc t' = [67]) (fresh_instance, []).
Proof.
  apply (UART_get_rx_drains rx_device 4 rx_abc 2 fresh_instance []);
    [apply rx_device_fifo|lia|simpl; lia].
Defined.

(** [UART_set_rx_handler] and the FIFO control register.  The register is
    write only, a read of its address gives the interrupt identification; so
    what the driver stores has the trigger level asked for, and for the other
    bits those of the identification: the FIFOs stay enabled only if no
    interrupt is pending (bit 0 of the identification set), and are turned off
    otherwise. *)
Theorem UART_set_rx_handler_fcr dev hart_id u0 h trigger u t :
  trigger ∈ [0x00; 0x40; 0x80; 0xC0] -> dlab (uart_after u0 t) = false ->
  let iir := u8 (dev t uart_iir) in
  wp (UART_set_rx_handler dev hart_id (Some h) trigger)
     (fun _ '(u', t') =>
        rx_handler u' = Some h
        /\ fcr (uart_after u0 t') = Z.lor (Z.land iir 0x3F) trigger
        /\ Z.testbit (fcr (uart_after u0 t')) 0 = Z.testbit iir 0) (u, t).
Proof.
  intros Htrig Hd iir. unfold UART_set_rx_handler. rewrite bool_decide_eq_true_2 by done.
  assert (0 <= trigger <= 0xC0 /\ Z.testbit trigger 0 = false) as [Htr Hbit].
  { rewrite !elem_of_cons in Htrig. destruct Htrig as [->|[->|[->|[->|Hno]]]]; try done.
    by apply not_elem_of_nil in Hno. }
  rewrite (proj2 (Z.ltb_lt _ _)) by (unfold UART_FIFO_INVALID_TRIG_LEVEL; lia). cbn [andb].
  apply wp_bind, wp_update, wp_bind, wp_rd, wp_bind, wp_wr, wp_bind. unfold ier_set.
  apply wp_bind, wp_rd, wp_wr, (wp_enable_irq _ _ u0). intros t' Ht'. split; [done|].
  change (u8 (dev t uart_fcr)) with iir in *. change (u8 (Z.lnot FCR_TRIG_LEVEL_MASK)) with 0x3F in *.
  rewrite (u8_id trigger) in * by lia.
  assert (0 <= Z.lor (Z.land iir 0x3F) trigger < 256) as Hrange.
  { split.
    - apply Z.lor_nonneg. split; [apply Z.land_nonneg; right; lia|lia].
    - assert (Z.lor (Z.land iir 0x3F) trigger = u8 (Z.lor (Z.land iir 0x3F) trigger)) as ->;
        [|apply u8_range].
      apply Z.bits_inj'. intros i Hi. destruct (Z.ltb_spec i 8).
      + by rewrite u8_testbit.
      + unfold u8. change 256 with (2 ^ 8). rewrite Z.mod_pow2_bits_high by lia.
        rewrite Z.lor_spec, Z.land_spec.
        rewrite (Z.bits_above_log2 trigger), (Z.bits_above_log2 0x3F), andb_false_r; try done; try lia.
        * simpl. lia.
        * destruct (decide (trigger = 0)) as [->|]; [simpl; lia|].
          assert (Z.log2 trigger < 8) by (apply Z.log2_lt_pow2; lia). lia. }
  assert (fcr (uart_after u0 t') = Z.lor (Z.land iir 0x3F) trigger) as Hfcr.
  { rewrite Ht'. rewrite (u8_id (Z.lor (Z.land iir 0x3F) trigger)) by exact Hrange. cbn [uart_after].
    destruct (uart_after u0 t) as [l m i f c d o]. unfold dlab, lcr in Hd.
    rewrite uart_write_fcr, uart_write_ier by done. done. }
  split; [exact Hfcr|]. rewrite Hfcr, Z.lor_spec, Z.land_spec, Hbit. simpl. by rewrite andb_true_r, orb_false_r.
Qed.

Example UART_set_rx_handler_fcr_witness :
  wp (UART_set_rx_handler ready_uart 0 (Some (User 1)) 0x80)
     (fun _ '(u', t') => rx_handler u' = Some (User 1)
        /\ fcr (uart_after reset_uart t') = 0x82
        /\ Z.testbit (fcr (uart_after reset_uart t')) 0 = false) (fresh_instance, []).
Proof.
  apply (UART_set_rx_handler_fcr ready_uart 0 reset_uart (User 1) 0x80 fresh_instance []);
    [apply (bool_decide_unpack _); by vm_compute|done].
Defined.
