(* ===== verification/Syscalls.v ===== *)
(** * System calls for newlib

    [sw/bsp/hal/syscalls.c], as the applications build it: standard output
    through the UART ([STDIO_THRU_UART]), on the 32-bit core.  The constants of
    newlib's headers (error numbers, [S_IFCHR]) and the symbols of the linker
    script are parameters. *)

From Stdlib Require Import ZArith Lia String.
From stdpp Require Import base tactics list numbers.
From S2P Require Import Prelude Mmio Ns16550 BootUart Plic UartDriver.

Definition STDOUT_REG : Z := 0x10000000.
Definition EXIT_REG : Z := 0x80040000.
Definition STDOUT_FILENO : Z := 1.
Definition STDIO_BAUD_RATE : Z := UART_115200_BAUD.

(** The static variables of the file, [errno], and the UART below. *)
Record system := {
  errno : Z;
  brk : Z;
  g_stdio_uart_init_done : bool;
  g_uart_0 : uart_instance;
  accesses : trace
}.

Definition set_errno (e : Z) : M system unit := modify (fun s =>
  {| errno := e; brk := brk s; g_stdio_uart_init_done := g_stdio_uart_init_done s;
     g_uart_0 := g_uart_0 s; accesses := accesses s |}).
Definition set_brk (b : Z) : M system unit := modify (fun s =>
  {| errno := errno s; brk := b; g_stdio_uart_init_done := g_stdio_uart_init_done s;
     g_uart_0 := g_uart_0 s; accesses := accesses s |}).
Definition set_done (d : bool) : M system unit := modify (fun s =>
  {| errno := errno s; brk := brk s; g_stdio_uart_init_done := d;
     g_uart_0 := g_uart_0 s; accesses := accesses s |}).

(** A call of the UART driver. *)
Definition uart {A} (m : M state A) : M system A := fun s =>
  match m (g_uart_0 s, accesses s) with
  | Ok (a, (u, t)) =>
      Ok (a, {| errno := errno s; brk := brk s;
                g_stdio_uart_init_done := g_stdio_uart_init_done s; g_uart_0 := u; accesses := t |})
  | NoFuel => NoFuel
  | Ub => Ub
  end.

(** The errors the file reports. *)
Record errors := {
  ENOSYS : Z; ENOMEM : Z; EAGAIN : Z; EINVAL : Z; EMLINK : Z; ENOENT : Z; ECHILD : Z
}.

(** The calls [handle_syscall] tells apart by [a7]; the numbers are newlib's. *)
Inductive syscall :=
| SYS_exit | SYS_read | SYS_write | SYS_getpid | SYS_kill | SYS_open | SYS_openat | SYS_close
| SYS_lseek | SYS_brk | SYS_link | SYS_unlink | SYS_chdir | SYS_getcwd | SYS_stat | SYS_fstat
| SYS_lstat | SYS_fstatat | SYS_access | SYS_faccessat | SYS_gettimeofday | SYS_times
| SYS_other.

#[export] Instance syscall_eq_dec : EqDecision syscall.
Proof. solve_decision. Defined.

Section Calls.
Context (dev : device) (fuel : nat) (E : errors) (S_IFCHR : Z).
(** The heap's bounds and the stack pointer at the call. *)
Context (heap_end sp : Z).

Definition fail (e : Z) : M system Z := set_errno e ;;; ret (-1).

Definition __syscall_error (a0 : Z) : M system Z := fail (- a0).

Definition unimplemented_syscall : M system unit :=
  foreach (string_bytes "Unimplemented system call called!" ++ [10])
    (fun c => uart (hw (store32 STDOUT_REG c))).

Definition nanosleep : M system Z := fail (ENOSYS E).
Definition _access : M system Z := fail (ENOSYS E).
Definition _chdir : M system Z := fail (ENOSYS E).
Definition _chmod : M system Z := fail (ENOSYS E).
Definition _chown : M system Z := fail (ENOSYS E).
Definition _close : M system Z := ret (-1).
Definition _execve : M system Z := fail (ENOMEM E).
Definition _faccessat : M system Z := fail (ENOSYS E).
Definition _fork : M system Z := fail (EAGAIN E).
(** The status and [st->st_mode]. *)
Definition _fstat : M system (Z * Z) := ret (0, S_IFCHR).
Definition _fstatat : M system Z := fail (ENOSYS E).
Definition _ftime : M system Z := fail (ENOSYS E).
(** Returns a null pointer. *)
Definition _getcwd : M system Z := set_errno (- ENOSYS E) ;;; ret 0.
Definition _getpid : M system Z := ret 1.
Definition _gettimeofday : M system Z := fail (- ENOSYS E).
Definition _isatty (file : Z) : M system Z := ret (if file =? STDOUT_FILENO then 1 else 0).
Definition _kill : M system Z := fail (EINVAL E).
Definition _link : M system Z := fail (EMLINK E).
Definition _lseek : M system Z := ret 0.
Definition _lstat : M system Z := fail (ENOSYS E).
Definition _open : M system Z := ret (-1).
Definition _openat : M system Z := fail (ENOSYS E).
Definition _read : M system Z := ret 0.
Definition _stat : M system (Z * Z) := ret (0, S_IFCHR).
Definition _sysconf : M system Z := ret (-1).
Definition _times : M system Z := ret (-1).
Definition _unlink : M system Z := fail (ENOENT E).
Definition _utime : M system Z := fail (ENOSYS E).
Definition _wait : M system Z := fail (ECHILD E).

(** [file] is not looked at.  [ptr] is what the pointer points to. *)
Definition _write (file : Z) (ptr : option (list Z)) (len : Z) : M system Z :=
  s <- get ;;
  (if negb (g_stdio_uart_init_done s) then
     uart (UART_init STDIO_BAUD_RATE
             (Z.lor UART_DATA_8_BITS (Z.lor UART_NO_PARITY UART_ONE_STOP_BIT))) ;;;
     set_done true
   else ret tt) ;;;
  uart (UART_polled_tx dev fuel ptr len) ;;;
  ret len.

Definition _brk (addr : Z) : M system Z := set_brk addr ;;; ret 0.

(** Pointers are 32-bit and compare as unsigned; -1 is their last value. *)
Definition _sbrk (incr : Z) : M system Z :=
  s <- get ;;
  let old_brk := brk s in
  let new_brk := u32 (brk s + incr) in
  set_brk new_brk ;;;
  if (new_brk <? sp) && (new_brk <? heap_end) then
    set_brk new_brk ;;;
    ret old_brk
  else
    set_errno (ENOMEM E) ;;;
    ret (u32 (-1)).

(** [_exit] does not return. *)
Inductive call_end := Returned | Exited.

Definition _exit (exit_status : Z) : M system call_end :=
  uart (hw (store32 EXIT_REG exit_status)) ;;; ret Exited.

Definition void {A} (m : M system A) : M system call_end := m ;;; ret Returned.

(** [buffer] is what [a1] points to, for the calls that read memory.  The
    results of the calls are dropped. *)
Definition handle_syscall (a0 a1 a2 a3 : Z) (buffer : option (list Z)) (syscall_id : syscall)
    : M system call_end :=
  match syscall_id with
  | SYS_exit => _exit a0
  | SYS_read => void _read
  | SYS_write => void (_write a0 buffer a2)
  | SYS_getpid => void _getpid
  | SYS_kill => void _kill
  | SYS_open => void _open
  | SYS_openat => void _openat
  | SYS_close => void _close
  | SYS_lseek => void _lseek
  | SYS_brk => void (_brk a0)
  | SYS_link => void _link
  | SYS_unlink => void _unlink
  | SYS_chdir => void _chdir
  | SYS_getcwd => void _getcwd
  | SYS_stat => void _stat
  | SYS_fstat => void _fstat
  | SYS_lstat => void _lstat
  | SYS_fstatat => void _fstatat
  | SYS_access => void _access
  | SYS_faccessat => void _faccessat
  | SYS_gettimeofday => void _gettimeofday
  | SYS_times => void _times
  | SYS_other => void unimplemented_syscall
  end.
End Calls.

(** ** Properties *)

Lemma wp_uart {A} (m : M state A) (Q : A -> system -> Prop) s :
  wp m (fun a '(u, t) => Q a {| errno := errno s; brk := brk s;
        g_stdio_uart_init_done := g_stdio_uart_init_done s; g_uart_0 := u; accesses := t |})
     (g_uart_0 s, accesses s) ->
  wp (uart m) Q s.
Proof. unfold wp, uart. by destruct (m (g_uart_0 s, accesses s)) as [[a [u t]]| |]. Qed.

Abbreviation regs u0 s := (@uart_after Bsp.uart_map u0 (accesses s)).

(** [_write] sends exactly the first [len] bytes of its buffer and returns
    [len]; the first call also configures the UART, for 115200 baud and 8 data
    bits, and no later call does.  Whatever the file descriptor, the bytes go
    to the console. *)
Theorem write_sends dev n fuel u0 file buf len s :
  @uart_live Bsp.uart_map dev n -> (n <= fuel)%nat -> dlab (regs u0 s) = false ->
  bytes buf -> 0 < len <= Z.of_nat (length buf) -> len < 2 ^ 32 -> len <= Z.of_nat fuel ->
  wp (_write dev fuel file (Some buf) len)
     (fun r s' =>
        r = len /\ g_stdio_uart_init_done s' = true
        /\ line (regs u0 s') = line (regs u0 s) ++ take (Z.to_nat len) buf
        /\ (if g_stdio_uart_init_done s then g_uart_0 s' = g_uart_0 s
            else divisor (regs u0 s') = 13 /\ lcr (regs u0 s') = 3)
        /\ errno s' = errno s /\ brk s' = brk s) s.
Proof.
  intros Hlive Hn Hd Hbuf Hlen Hmax Hfuel. unfold _write. apply wp_bind.
  eapply wp_eq; [reflexivity|]. apply wp_bind.
  destruct (g_stdio_uart_init_done s) eqn:E; cbn [negb].
  - apply wp_ret, wp_bind, wp_uart.
    eapply wp_mono; [by apply (polled_tx_sends dev n fuel u0 Hlive Hn)|].
    intros [] [u t] [-> Hs]. apply wp_ret. cbn. rewrite Hs. by split_and!.
  - apply wp_bind, wp_uart.
    eapply wp_mono; [apply (UART_init_run u0); [done|done|exact Hd]|].
    intros [] [u t] (-> & _ & _ & _ & Hl & Hline & Hdiv).
    eapply wp_eq; [reflexivity|]. apply wp_bind, wp_uart. cbn [accesses g_uart_0].
    assert (dlab (@uart_after Bsp.uart_map u0 t) = false) as Hd' by (unfold dlab; by rewrite Hl).
    eapply wp_mono; [by apply (polled_tx_sends dev n fuel u0 Hlive Hn)|].
    intros [] [u' t'] [-> Hs]. apply wp_ret. cbn [accesses errno brk g_stdio_uart_init_done].
    rewrite Hs. unfold push_line, divisor in *. cbn [line dll dlm lcr]. rewrite Hline, Hdiv, Hl.
    by split_and!.
Qed.

Definition boot_system : system := {|
  errno := 0; brk := 0x1000; g_stdio_uart_init_done := false; g_uart_0 := fresh_instance;
  accesses := [] |}.

Example write_sends_witness :
  wp (_write ready_uart 9 2 (Some [72; 105; 33]) 2)
     (fun r s' => r = 2 /\ g_stdio_uart_init_done s' = true
        /\ line (regs reset_uart s') = [72; 105]
        /\ (divisor (regs reset_uart s') = 13 /\ lcr (regs reset_uart s') = 3)
        /\ errno s' = 0 /\ brk s' = 0x1000) boot_system.
Proof.
  apply (write_sends ready_uart 1 9 reset_uart 2 [72; 105; 33] 2 boot_system);
    [apply ready_uart_live|lia|done|repeat constructor; lia|simpl; lia|lia|lia].
Defined.

(** [_sbrk].  A request that stays below the stack and the end of the heap
    returns the old break and moves it; one that does not returns -1 with
    [ENOMEM], and has moved the break all the same, so that from then on a
    request for nothing fails too. *)
Theorem sbrk_moves_break E heap_end sp incr s :
  0 <= brk s -> 0 <= incr -> brk s + incr < 2 ^ 32 ->
  let fits := (brk s + incr <? sp) && (brk s + incr <? heap_end) in
  wp (_sbrk E heap_end sp incr)
     (fun r s' =>
        brk s' = brk s + incr
        /\ (if fits then r = brk s /\ errno s' = errno s
            else r = 0xFFFFFFFF /\ errno s' = ENOMEM E
                 /\ wp (_sbrk E heap_end sp 0)
                       (fun r' s'' => r' = 0xFFFFFFFF /\ brk s'' = brk s') s')
        /\ accesses s' = accesses s) s.
Proof.
  intros Hb Hi Hmax fits. change (2 ^ 32) with 4294967296 in Hmax.
  unfold _sbrk, bind, get, set_brk, set_errno, modify, ret, wp.
  rewrite (u32_id (brk s + incr)) by lia. fold fits.
  destruct fits eqn:E1; cbn [errno brk accesses]; [done|].
  rewrite Z.add_0_r, (u32_id (brk s + incr)) by lia. fold fits. rewrite E1. done.
Qed.

Definition some_errors : errors := {|
  ENOSYS := 88; ENOMEM := 12; EAGAIN := 11; EINVAL := 22; EMLINK := 31; ENOENT := 2; ECHILD := 10 |}.

Example sbrk_moves_break_witness :
  wp (_sbrk some_errors 0x2000 0x9000 0x1800)
     (fun r s' => brk s' = 0x2800
        /\ (r = 0xFFFFFFFF /\ errno s' = 12
            /\ wp (_sbrk some_errors 0x2000 0x9000 0)
                  (fun r' s'' => r' = 0xFFFFFFFF /\ brk s'' = brk s') s')
        /\ accesses s' = []) boot_system.
Proof.
  apply (sbrk_moves_break some_errors 0x2000 0x9000 0x1800 boot_system); simpl; lia.
Defined.
