(* ===== verification/CArray.v ===== *)
(** * C arrays and counted loops

    What the benchmarks of sw/app share: arrays indexed by C integers, whose
    accesses outside the array are undefined, and [for] loops that count. *)

From Stdlib Require Import ZArith Lia.
From stdpp Require Import base tactics list numbers.
From S2P Require Import Prelude.

(** ** Element access

    [getZ] and [setZ] are the total versions the specifications use; [fetch]
    and [rd] and [wr] are the accesses of the code, undefined out of bounds. *)

Section Access.
Context {A : Type} `{Inhabited A}.

Definition getZ (l : list A) (i : Z) : A := l !!! Z.to_nat i.
Definition setZ (l : list A) (i : Z) (v : A) : list A := <[Z.to_nat i := v]> l.
Definition lenZ (l : list A) : Z := Z.of_nat (length l).
Definition in_range (l : list A) (i : Z) : bool := (0 <=? i) && (i <? lenZ l).

Definition fetch (l : list A) (i : Z) : option A :=
  if in_range l i then Some (getZ l i) else None.

Definition rd (i : Z) : M (list A) A :=
  fun l => if in_range l i then Ok (getZ l i, l) else Ub.
Definition wr (i : Z) (v : A) : M (list A) unit :=
  fun l => if in_range l i then Ok (tt, setZ l i v) else Ub.

Lemma in_range_true l i : 0 <= i < lenZ l -> in_range l i = true.
Proof. intros. unfold in_range. apply andb_true_intro. lia. Qed.

Lemma lenZ_nonneg l : 0 <= lenZ l.
Proof. unfold lenZ. lia. Qed.

Lemma setZ_length l i v : lenZ (setZ l i v) = lenZ l.
Proof. unfold lenZ, setZ. by rewrite length_insert. Qed.

Lemma getZ_setZ l i v : 0 <= i < lenZ l -> getZ (setZ l i v) i = v.
Proof. unfold lenZ, getZ, setZ. intros. apply list_lookup_total_insert_eq. lia. Qed.

Lemma getZ_setZ_ne l i j v : 0 <= i -> 0 <= j -> i <> j -> getZ (setZ l i v) j = getZ l j.
Proof. unfold getZ, setZ. intros. apply list_lookup_total_insert_ne. lia. Qed.

Lemma getZ_lookup l i : 0 <= i < lenZ l -> l !! Z.to_nat i = Some (getZ l i).
Proof. unfold lenZ, getZ. intros. apply list_lookup_lookup_total_lt. lia. Qed.

Lemma lookup_getZ l (k : nat) x : l !! k = Some x -> getZ l (Z.of_nat k) = x.
Proof. unfold getZ. rewrite Nat2Z.id. apply list_lookup_total_correct. Qed.

Lemma fetch_Some l i : 0 <= i < lenZ l -> fetch l i = Some (getZ l i).
Proof. intros. unfold fetch. by rewrite in_range_true. Qed.

Lemma setZ_get l i : setZ l i (getZ l i) = l.
Proof.
  unfold setZ, getZ. destruct (l !! Z.to_nat i) eqn:E.
  - rewrite (list_lookup_total_correct _ _ _ E). by apply list_insert_id.
  - apply list_insert_ge. by apply lookup_ge_None.
Qed.

(** Two arrays with the same elements are the same. *)
Lemma getZ_ext l k :
  lenZ l = lenZ k -> (forall i, 0 <= i < lenZ l -> getZ l i = getZ k i) -> l = k.
Proof.
  intros Hlen Hget. apply list_eq. intros i.
  destruct (decide (i < length l)%nat) as [Hi|Hi].
  - assert (getZ l (Z.of_nat i) = getZ k (Z.of_nat i)) as E
      by (apply Hget; unfold lenZ; lia).
    unfold getZ in E. rewrite Nat2Z.id in E.
    rewrite !list_lookup_lookup_total_lt, E; [done| |lia]. unfold lenZ in *. lia.
  - rewrite !lookup_ge_None_2; [done| |lia]. unfold lenZ in *. lia.
Qed.

Lemma wp_at (Q : A -> list A -> Prop) l i :
  0 <= i < lenZ l -> Q (getZ l i) l -> wp (rd i) Q l.
Proof. intros. unfold wp, rd. by rewrite in_range_true. Qed.

Lemma wp_put (Q : unit -> list A -> Prop) l i v :
  0 <= i < lenZ l -> Q tt (setZ l i v) -> wp (wr i v) Q l.
Proof. intros. unfold wp, wr. by rewrite in_range_true. Qed.

(** Exchanging two elements permutes the array. *)
Lemma swap_Permutation l i j :
  0 <= i < lenZ l -> 0 <= j < lenZ l ->
  setZ (setZ l i (getZ l j)) j (getZ l i) ≡ₚ l.
Proof.
  intros Hi Hj. destruct (decide (i = j)) as [->|Hne].
  { by rewrite !setZ_get. }
  unfold setZ, getZ.
  assert (Hi' : l !! Z.to_nat i = Some (getZ l i)) by by apply getZ_lookup.
  assert (Hj' : l !! Z.to_nat j = Some (getZ l j)) by by apply getZ_lookup.
  fold (getZ l i). fold (getZ l j).
  generalize dependent (getZ l i). generalize dependent (getZ l j).
  assert (Z.to_nat i <> Z.to_nat j) as Hn by lia. revert Hn. clear.
  generalize (Z.to_nat i) as p, (Z.to_nat j) as q. intros p q Hpq y Hy x Hx.
  assert (<[p:=y]> l !! q = Some y) as Hy' by by rewrite list_lookup_insert_ne.
  rewrite <-(list_insert_id l p x Hx) at 2.
  rewrite <-(list_insert_id l p x Hx) at 1. rewrite list_insert_insert_eq.
  assert (Hp := lookup_lt_Some _ _ _ Hx). assert (Hq := lookup_lt_Some _ _ _ Hy).
  clear Hy'.
  apply Permutation_inj; split; [by rewrite !length_insert|].
  exists (fun k => if decide (k = p) then q else if decide (k = q) then p else k).
  split.
  { intros a b. repeat case_decide; congruence. }
  intros k. repeat case_decide; subst.
  - rewrite list_lookup_insert_ne by done. rewrite list_lookup_insert_eq by done.
    by rewrite list_lookup_insert_ne.
  - rewrite list_lookup_insert_eq by (by rewrite length_insert).
    by rewrite list_lookup_insert_eq.
  - by rewrite !list_lookup_insert_ne.
Qed.
End Access.

Lemma lenZ_cons {A} (x : A) l : lenZ (x :: l) = lenZ l + 1.
Proof. unfold lenZ. simpl. lia. Qed.

Lemma lenZ_app {A} (l k : list A) : lenZ (l ++ k) = lenZ l + lenZ k.
Proof. unfold lenZ. rewrite length_app. lia. Qed.

Lemma getZ_app_l {A} `{Inhabited A} (l k : list A) i :
  0 <= i < lenZ l -> getZ (l ++ k) i = getZ l i.
Proof. intros Hi. unfold getZ, lenZ in *. apply lookup_total_app_l. lia. Qed.

Lemma getZ_app_r {A} `{Inhabited A} (l k : list A) i :
  lenZ l <= i -> getZ (l ++ k) i = getZ k (i - lenZ l).
Proof.
  intros Hi. unfold getZ, lenZ in *. rewrite lookup_total_app_r by lia. f_equal. lia.
Qed.

Lemma take_getZ {A} `{Inhabited A} (l : list A) i :
  0 <= i < lenZ l -> take (Z.to_nat (i + 1)) l = take (Z.to_nat i) l ++ [getZ l i].
Proof.
  intros Hi. replace (Z.to_nat (i + 1)) with (S (Z.to_nat i)) by lia.
  apply take_S_r. by apply getZ_lookup.
Qed.

Lemma drop_getZ {A} `{Inhabited A} (l : list A) i :
  0 <= i < lenZ l -> drop (Z.to_nat i) l = getZ l i :: drop (Z.to_nat (i + 1)) l.
Proof.
  intros Hi. replace (Z.to_nat (i + 1)) with (S (Z.to_nat i)) by lia.
  apply drop_S. by apply getZ_lookup.
Qed.

Create Rewrite HintDb array.
#[export] Hint Rewrite @setZ_length @setZ_get : array.
#[export] Hint Rewrite @getZ_setZ using (rewrite ?setZ_length; lia) : array.
#[export] Hint Rewrite @getZ_setZ_ne using lia : array.

(** One access at the head of the goal. *)
Ltac wp_array :=
  wp_seq;
  lazymatch goal with
  | |- wp (rd _) _ _ => apply wp_at; [rewrite ?setZ_length|]
  | |- wp (wr _ _) _ _ => apply wp_put; [rewrite ?setZ_length|]
  | |- wp (ret _) _ _ => apply wp_ret
  end.

(** ** [for (i = a; i < b; i++)] *)

Definition for_ {S} (a b : Z) (f : Z -> M S unit) : M S unit := foreach (seqZ a (b - a)) f.

Lemma wp_for {S} (a b : Z) (f : Z -> M S unit) (I : Z -> S -> Prop)
    (Q : unit -> S -> Prop) s :
  a <= b -> I a s ->
  (forall i s, a <= i < b -> I i s -> wp (f i) (fun _ s' => I (i + 1) s') s) ->
  (forall s, I b s -> Q tt s) ->
  wp (for_ a b f) Q s.
Proof.
  intros Hab HI Hstep HQ. unfold for_.
  eapply wp_mono;
    [apply (wp_foreach _ _ (fun done s => I (a + Z.of_nat (length done)) s))|].
  - by rewrite Z.add_0_r.
  - intros pre i todo s' E HI'.
    assert (seqZ a (b - a) !! length pre = Some i) as Hi.
    { rewrite E. by apply list_lookup_middle. }
    apply lookup_seqZ in Hi as [-> Hlt].
    eapply wp_mono; [apply Hstep; [lia|done]|].
    intros [] s'' HI''. rewrite length_app. cbn [length].
    by replace (a + Z.of_nat (length pre + 1)%nat) with (a + Z.of_nat (length pre) + 1) by lia.
  - intros [] s' HI'. apply HQ. rewrite length_seqZ in HI'.
    by replace (a + Z.of_nat (Z.to_nat (b - a))) with b in HI' by lia.
Qed.

Lemma for_nil {S} a b (f : Z -> M S unit) s : b <= a -> for_ a b f s = Ok (tt, s).
Proof. intros. unfold for_. by rewrite seqZ_nil by lia. Qed.

(** ** Programs over a part of a larger state *)

Definition zoom {S T A} (view : S -> T) (put : T -> S -> S) (m : M T A) : M S A :=
  fun s => match m (view s) with
           | Ok (a, t) => Ok (a, put t s)
           | NoFuel => NoFuel
           | Ub => Ub
           end.

Lemma wp_zoom {S T A} (view : S -> T) put (m : M T A) (Q : A -> S -> Prop) s :
  wp m (fun a t => Q a (put t s)) (view s) -> wp (zoom view put m) Q s.
Proof. unfold wp, zoom. by destruct (m (view s)) as [[a t]| |]. Qed.

(** A loop with an invariant indexed by the rounds it may still make. *)
Lemma wp_loop_indexed {S A B} (body : A -> M S (A + B)) (I : nat -> A -> S -> Prop)
    (Q : B -> S -> Prop) fuel k a s :
  I k a s -> (k < fuel)%nat ->
  (forall k a s, I k a s ->
     wp (body a) (fun r s' => match r with
                              | inl a' => exists k', (k' < k)%nat /\ I k' a' s'
                              | inr b => Q b s'
                              end) s) ->
  wp (loop fuel body a) Q s.
Proof.
  intros HI Hk Hbody. revert k a s HI Hk.
  induction fuel as [|fuel IH]; intros k a s HI Hk; [lia|simpl].
  apply wp_bind. eapply wp_mono; [by apply (Hbody k)|].
  intros [a'|b] s' H; [|by apply wp_ret].
  destruct H as (k' & Hlt & HI'). apply (IH k'); [done|lia].
Qed.

(** ** Loops that advance by more than one, and loops with locals *)

(** The values of [i] in [for (i = lo; i < hi; i += d)]. *)
Definition steps (lo hi d : Z) : list Z :=
  map (fun q => lo + q * d) (seqZ 0 ((hi - lo + d - 1) / d)).

Definition for_by {S} (lo hi d : Z) (f : Z -> M S unit) : M S unit :=
  foreach (steps lo hi d) f.

Lemma steps_rounds lo hi d :
  0 < d -> lo <= hi -> hi <= lo + lenZ (steps lo hi d) * d < hi + d.
Proof.
  intros Hd Hlo. unfold steps, lenZ. rewrite length_map, length_seqZ.
  pose proof (Z.div_mod (hi - lo + d - 1) d ltac:(lia)).
  pose proof (Z.mod_pos_bound (hi - lo + d - 1) d Hd).
  rewrite Z2Nat.id by (apply Z.div_pos; lia). lia.
Qed.

Lemma steps_at lo hi d pre i todo :
  0 < d -> steps lo hi d = pre ++ i :: todo ->
  i = lo + lenZ pre * d /\ lo + lenZ pre * d < hi.
Proof.
  intros Hd E. assert (steps lo hi d !! length pre = Some i) as Hi
    by (rewrite E; by apply list_lookup_middle).
  apply list_lookup_fmap_Some in Hi as (q & -> & Hq). apply lookup_seqZ in Hq as [-> Hlt].
  split; [done|]. fold (lenZ pre) in *. pose proof (lenZ_nonneg pre).
  pose proof (Z.div_mod (hi - lo + d - 1) d ltac:(lia)).
  pose proof (Z.mod_pos_bound (hi - lo + d - 1) d Hd).
  assert (lenZ pre * d <= ((hi - lo + d - 1) / d - 1) * d); [|lia].
  apply Z.mul_le_mono_nonneg_r; lia.
Qed.

Lemma wp_for_by {S} (lo hi d : Z) (f : Z -> M S unit) (I : Z -> S -> Prop)
    (Q : unit -> S -> Prop) s :
  0 < d -> lo <= hi -> I 0 s ->
  (forall q s, 0 <= q -> lo + q * d < hi -> I q s ->
     wp (f (lo + q * d)) (fun _ s' => I (q + 1) s') s) ->
  (forall q s, 0 <= q -> hi <= lo + q * d < hi + d -> I q s -> Q tt s) ->
  wp (for_by lo hi d f) Q s.
Proof.
  intros Hd Hlo HI Hstep HQ.
  eapply wp_mono; [apply (wp_foreach _ _ (fun done s => I (lenZ done) s)); [done|]|].
  - intros pre i todo s' E HI'. apply steps_at in E as [-> Hlt]; [|done].
    eapply wp_mono; [apply Hstep; [apply lenZ_nonneg|done..]|].
    intros [] s'' HI''. by rewrite lenZ_app.
  - intros [] s' HI'. eapply HQ; [|by apply steps_rounds|exact HI']. apply lenZ_nonneg.
Qed.

Lemma wp_fold_by {S A} (lo hi d : Z) (f : A -> Z -> M S A) (I : Z -> A -> S -> Prop)
    (Q : A -> S -> Prop) acc s :
  0 < d -> lo <= hi -> I 0 acc s ->
  (forall q acc s, 0 <= q -> lo + q * d < hi -> I q acc s ->
     wp (f acc (lo + q * d)) (fun acc' s' => I (q + 1) acc' s') s) ->
  (forall q acc s, 0 <= q -> hi <= lo + q * d < hi + d -> I q acc s -> Q acc s) ->
  wp (foldM (steps lo hi d) f acc) Q s.
Proof.
  intros Hd Hlo HI Hstep HQ.
  eapply wp_mono; [apply (wp_foldM _ _ (fun done acc s => I (lenZ done) acc s)); [done|]|].
  - intros pre i todo acc' s' E HI'. apply steps_at in E as [-> Hlt]; [|done].
    eapply wp_mono; [apply Hstep; [apply lenZ_nonneg|done..]|].
    intros acc'' s'' HI''. by rewrite lenZ_app.
  - intros acc' s' HI'. eapply HQ; [|by apply steps_rounds|exact HI']. apply lenZ_nonneg.
Qed.

(** After [for (i = lo; i < lo + k * d; i += d)], [k] rounds are done. *)
Lemma by_rounds lo k d q : 0 < d -> lo + k * d <= lo + q * d < lo + k * d + d -> q = k.
Proof. intros. nia. Qed.

(** [for (i = a; i < b; i++)] with locals [acc]. *)
Lemma wp_fold_for {S A} (a b : Z) (f : A -> Z -> M S A) (I : Z -> A -> S -> Prop)
    (Q : A -> S -> Prop) acc s :
  a <= b -> I a acc s ->
  (forall i acc s, a <= i < b -> I i acc s -> wp (f acc i) (fun acc' s' => I (i + 1) acc' s') s) ->
  (forall acc s, I b acc s -> Q acc s) ->
  wp (foldM (seqZ a (b - a)) f acc) Q s.
Proof.
  intros Hab HI Hstep HQ.
  eapply wp_mono;
    [apply (wp_foldM _ _ (fun done acc s => I (a + lenZ done) acc s))|].
  - unfold lenZ. simpl. by rewrite Z.add_0_r.
  - intros pre i todo acc' s' E HI'.
    assert (seqZ a (b - a) !! length pre = Some i) as Hi.
    { rewrite E. by apply list_lookup_middle. }
    apply lookup_seqZ in Hi as [-> Hlt].
    eapply wp_mono; [apply Hstep; [lia|done]|].
    intros acc'' s'' HI''. rewrite lenZ_app, Z.add_assoc. exact HI''.
  - intros acc' s' HI'. apply HQ. unfold lenZ in HI'. rewrite length_seqZ in HI'.
    by replace (a + Z.of_nat (Z.to_nat (b - a))) with b in HI' by lia.
Qed.

(** Two nested loops over blocks of [bm] by [bn], row by row. *)
Lemma wp_blocks {S} nI nJ bm bn (f : Z -> Z -> M S unit) (I : Z -> Z -> S -> Prop)
    (Q : unit -> S -> Prop) s :
  0 <= nI -> 0 <= nJ -> 0 < bm -> 0 < bn -> I 0 0 s ->
  (forall i j s, 0 <= i < nI -> 0 <= j < nJ -> I i j s ->
     wp (f (0 + i * bm) (0 + j * bn)) (fun _ s' => I i (j + 1) s') s) ->
  (forall i s, 0 <= i < nI -> I i nJ s -> I (i + 1) 0 s) ->
  (forall s, I nI 0 s -> Q tt s) ->
  wp (for_by 0 (nI * bm) bm (fun i => for_by 0 (nJ * bn) bn (f i))) Q s.
Proof.
  intros HnI HnJ Hbm Hbn HI Hstep Hrow HQ.
  apply (wp_for_by _ _ _ _ (fun i s => I i 0 s)); [done|nia|done| |].
  - intros i s' Hi Hi' HI'. assert (i < nI) as Hlt by nia.
    apply (wp_for_by _ _ _ _ (fun j s => I i j s)); [done|nia|done| |].
    + intros j s'' Hj Hj' HI''. apply Hstep; [lia|nia|done].
    + intros j s'' Hj Hj' HI''. assert (j = nJ) as -> by nia. by apply Hrow.
  - intros i s' Hi Hi' HI'. assert (i = nI) as -> by nia. by apply HQ.
Qed.
