(* ===== verification/Bench.v ===== *)
(** * The benchmarks' common code (sw/app/common/util.h)

    The self check [verify], the pseudo random generator [lfsr], the length of
    an instruction, the counters every benchmark reads around the part it
    measures, and the shape of every [main]. *)

From Stdlib Require Import ZArith Lia String.
From stdpp Require Import base tactics list numbers.
From S2P Require Import Prelude CArray.

(** ** verify *)

(** [for (i = 0; i < n/2*2; i += 2)], from [i] on, for [k] more rounds. *)
Fixpoint verify_pairs (k : nat) (i : Z) (test reference : list Z) : option Z :=
  match k with
  | O => Some 0
  | S k =>
      t0 ← fetch test i; t1 ← fetch test (i + 1);
      v0 ← fetch reference i; v1 ← fetch reference (i + 1);
      if negb (t0 =? v0) then Some (i + 1)
      else if negb (t1 =? v1) then Some (i + 2)
      else verify_pairs k (i + 2) test reference
  end.

Definition verify (n : Z) (test reference : list Z) : option Z :=
  r ← verify_pairs (Z.to_nat (Z.quot n 2)) 0 test reference;
  if negb (r =? 0) then Some r
  else if negb (Z.rem n 2 =? 0) then
    t ← fetch test (n - 1); v ← fetch reference (n - 1);
    if negb (t =? v) then Some n else Some 0
  else Some 0.

(** ** verifyDouble, over any type of numbers with the C [==] *)

Section Double.
Context {D : Type} `{Inhabited D} (eqb : D -> D -> bool).

Fixpoint verifyDouble_pairs (k : nat) (i : Z) (test reference : list D) : option Z :=
  match k with
  | O => Some 0
  | S k =>
      t0 ← fetch test i; t1 ← fetch test (i + 1);
      v0 ← fetch reference i; v1 ← fetch reference (i + 1);
      let eq1 := eqb t0 v0 in
      let eq2 := eqb t1 v1 in
      if negb (eq1 && eq2) then Some (i + 1 + (if eq1 then 1 else 0))
      else verifyDouble_pairs k (i + 2) test reference
  end.

Definition verifyDouble (n : Z) (test reference : list D) : option Z :=
  r ← verifyDouble_pairs (Z.to_nat (Z.quot n 2)) 0 test reference;
  if negb (r =? 0) then Some r
  else if negb (Z.rem n 2 =? 0) then
    t ← fetch test (n - 1); v ← fetch reference (n - 1);
    if negb (eqb t v) then Some n else Some 0
  else Some 0.
End Double.

(** ** lfsr, on a 64-bit word *)

Definition lfsr (x : Z) : Z :=
  let bit := Z.land (Z.lxor x (Z.shiftr x 1)) 1 in
  Z.lor (Z.shiftr x 1) (u64 (Z.shiftl bit 62)).

(** ** insn_len: the halfword at [pc] tells *)

Definition insn_len (halfword_at : Z -> Z) (pc : Z) : Z :=
  if Z.land (halfword_at pc) 3 =? 0 then 2 else 4.

(** ** The counters

    [read_csr] is the machine: the value of a counter at its [k]-th reading. *)

Definition NUM_COUNTERS : Z := 2.

Record stats := Stats {
  counters : list Z;
  counter_names : list (option string);
  readings : nat;
}.

Definition reset_stats : stats := Stats [0; 0] [None; None] 0.

Section Counters.
Context (read_csr : nat -> string -> Z).

(** [READ_CTR(name)], with [i] counters already read; the loop on
    [i >= NUM_COUNTERS] never ends once entered. *)
Definition READ_CTR (name : string) (enable : bool) (i : Z) : M stats Z :=
  fun s =>
    if NUM_COUNTERS <=? i then NoFuel
    else
      let csr := u32 (read_csr (readings s) name) in
      let s := Stats (counters s) (counter_names s) (S (readings s)) in
      if enable then Ok (i + 1, Stats (setZ (counters s) i csr) (counter_names s) (readings s))
      else
        let csr := u32 (csr - getZ (counters s) i) in
        let names := setZ (counter_names s) i (Some name) in
        Ok (i + 1, Stats (setZ (counters s) i csr) names (readings s)).

Definition setStats (enable : bool) : M stats unit :=
  i <- READ_CTR "mcycle" enable 0 ;;
  _ <- READ_CTR "minstret" enable i ;;
  ret tt.

(** A benchmark: its data, and the counters. *)
Record bench (D : Type) := App { data : D; hpm : stats }.
Arguments App {D}. Arguments data {D}. Arguments hpm {D}.

Definition on_data {D A} : M D A -> M (bench D) A :=
  zoom data (fun d s => App d (hpm s)).
Definition on_stats {D A} : M stats A -> M (bench D) A :=
  zoom hpm (fun h s => App (data s) h).

(** The shape of every [main]: a first run to fill the caches (PREALLOCATE),
    then the measured one. *)
Definition measured {D} (work : M D unit) : M (bench D) unit :=
  on_stats (setStats true) ;;;
  on_data work ;;;
  on_stats (setStats false).

(** What the two counters hold in the end: what went by during the run. *)
Definition elapsed (k : nat) (name : string) : Z :=
  u32 (read_csr (2 + k)%nat name - read_csr k name).

Definition measures (before after : stats) : Prop :=
  counters after = [elapsed (readings before) "mcycle";
                    elapsed (1 + readings before) "minstret"] /\
  counter_names after = [Some "mcycle"%string; Some "minstret"%string] /\
  readings after = (4 + readings before)%nat.

Lemma setStats_on c0 c1 ns k :
  setStats true (Stats [c0; c1] ns k) =
  Ok (tt, Stats [u32 (read_csr k "mcycle"); u32 (read_csr (S k) "minstret")] ns (S (S k))).
Proof. done. Qed.

Lemma setStats_off c0 c1 n0 n1 k :
  setStats false (Stats [c0; c1] [n0; n1] k) =
  Ok (tt, Stats [u32 (u32 (read_csr k "mcycle") - c0); u32 (u32 (read_csr (S k) "minstret") - c1)]
                [Some "mcycle"%string; Some "minstret"%string] (S (S k))).
Proof. done. Qed.

Lemma measured_ok {D} (work : M D unit) (Q : unit -> bench D -> Prop) d h :
  length (counters h) = 2%nat -> length (counter_names h) = 2%nat ->
  wp work (fun _ d' => forall h', measures h h' -> Q tt (App d' h')) d ->
  wp (measured work) Q (App d h).
Proof.
  intros Hc Hn Hw. destruct h as [cs ns k]. simpl in Hc, Hn.
  destruct cs as [|c0 [|c1 [|]]]; try discriminate.
  destruct ns as [|n0 [|n1 [|]]]; try discriminate.
  unfold measured. wp_seq. apply wp_zoom. eapply wp_eq; [apply setStats_on|].
  wp_seq. apply wp_zoom. eapply wp_mono; [exact Hw|].
  intros [] d' HQ. apply wp_zoom. eapply wp_eq; [apply setStats_off|].
  apply HQ. unfold measures, elapsed. simpl.
  split_and!; [|done|done]. repeat (f_equal; try (unfold u32; divlia)).
Qed.
End Counters.
Arguments App {D}. Arguments data {D}. Arguments hpm {D}.

(** ** verify returns the position of the first difference *)

(** [k] is one more than the position of the first difference among the first
    [n] elements, or 0 if there is none. *)
Definition first_difference {D} `{Inhabited D} (eqb : D -> D -> bool) (n : Z)
    (test reference : list D) (k : Z) : Prop :=
  0 <= k <= n /\
  (k <> 0 -> eqb (getZ test (k - 1)) (getZ reference (k - 1)) = false) /\
  (forall i, 0 <= i < (if k =? 0 then n else k - 1) ->
     eqb (getZ test i) (getZ reference i) = true).

Section VerifyProof.
Context {D : Type} `{Inhabited D} (eqb : D -> D -> bool).
Context (test reference : list D).

Let same (i : Z) : Prop := eqb (getZ test i) (getZ reference i) = true.

Lemma verifyDouble_pairs_spec k i :
  0 <= i -> i + 2 * Z.of_nat k <= lenZ test -> i + 2 * Z.of_nat k <= lenZ reference ->
  (forall j, 0 <= j < i -> same j) ->
  exists r, verifyDouble_pairs eqb k i test reference = Some r /\
  ((r = 0 /\ forall j, 0 <= j < i + 2 * Z.of_nat k -> same j) \/
   (0 < r <= i + 2 * Z.of_nat k /\ eqb (getZ test (r - 1)) (getZ reference (r - 1)) = false /\
    forall j, 0 <= j < r - 1 -> same j)).
Proof.
  revert i. induction k as [|k IH]; intros i Hi Ht Hr Hsame.
  { exists 0. split; [done|left]. split; [done|]. intros j Hj. apply Hsame. lia. }
  simpl. rewrite !fetch_Some by lia. simpl.
  destruct (eqb (getZ test i) _) eqn:E1; simpl.
  2: { exists (i + 1 + 0). split; [done|right]. replace (i + 1 + 0 - 1) with i by lia.
       split_and!; [lia..|done|]. intros j Hj. apply Hsame. lia. }
  assert (forall j, 0 <= j < i + 1 -> same j) as Hsame1.
  { intros j Hj. destruct (decide (j = i)) as [->|]; [done|]. apply Hsame. lia. }
  destruct (eqb (getZ test (i + 1)) _) eqn:E2; simpl.
  2: { exists (i + 1 + 1). split; [done|right].
       replace (i + 1 + 1 - 1) with (i + 1) by lia. by split_and!; [lia..|done|]. }
  destruct (IH (i + 2)) as (r & -> & Hcase); [lia..| |].
  { intros j Hj. destruct (decide (j = i + 1)) as [->|]; [done|]. apply Hsame1. lia. }
  exists r. split; [done|].
  replace (i + 2 + 2 * Z.of_nat k) with (i + 2 * Z.of_nat (S k)) in Hcase by lia.
  done.
Qed.

Lemma verifyDouble_spec n :
  0 <= n -> n <= lenZ test -> n <= lenZ reference ->
  exists k, verifyDouble eqb n test reference = Some k /\
            first_difference eqb n test reference k.
Proof.
  intros Hn Ht Hr.
  assert (n = 2 * (n ÷ 2) + Z.rem n 2) as Hdiv by (apply Z.quot_rem'; lia).
  assert (0 <= Z.rem n 2 < 2) as Hrem by (apply Z.rem_bound_pos; lia).
  assert (0 <= n ÷ 2) as Hquot by (apply Z.quot_pos; lia).
  destruct (verifyDouble_pairs_spec (Z.to_nat (n ÷ 2)) 0) as (r & E & Hcase); [lia..|].
  unfold verifyDouble, first_difference. rewrite E. simpl.
  destruct Hcase as [(-> & Hall)|(Hr0 & Hd & Hall)].
  2: { replace (r =? 0) with false by lia. exists r. simpl.
       replace (r =? 0) with false by lia.
       split; [done|]. split_and!; [lia..|done|]. intros i Hi. apply Hall. lia. }
  destruct (Z.eqb_spec (Z.rem n 2) 0) as [E0|E0]; simpl.
  { exists 0. split; [done|]. split_and!; [lia..|done|]. simpl. intros i Hi. apply Hall. lia. }
  rewrite !fetch_Some by lia. simpl. destruct (eqb _ _) eqn:El; simpl.
  - exists 0. split; [done|]. split_and!; [lia..|done|]. simpl. intros i Hi.
    destruct (decide (i = n - 1)) as [->|]; [done|]. apply Hall. lia.
  - exists n. split; [done|]. replace (n =? 0) with false by lia.
    split_and!; [lia..|done|]. intros i Hi. apply Hall. lia.
Qed.
End VerifyProof.

Lemma verify_pairs_Double k i test reference :
  verify_pairs k i test reference = verifyDouble_pairs Z.eqb k i test reference.
Proof.
  revert i. induction k as [|k IH]; intros i; [done|]. simpl.
  destruct (fetch test i) as [t0|], (fetch test (i + 1)) as [t1|],
    (fetch reference i) as [v0|], (fetch reference (i + 1)) as [v1|]; simpl; try done.
  rewrite IH. destruct (t0 =? v0); simpl; [|by rewrite Z.add_0_r].
  destruct (t1 =? v1); simpl; [done|]. by rewrite <-Z.add_assoc.
Qed.

Lemma verify_Double n test reference :
  verify n test reference = verifyDouble Z.eqb n test reference.
Proof. unfold verify, verifyDouble. by rewrite verify_pairs_Double. Qed.

(** [verify] answers 0 exactly on a match. *)
Lemma verify_match n test :
  0 <= n -> n <= lenZ test -> verify n test test = Some 0.
Proof.
  intros Hn Ht. rewrite verify_Double.
  destruct (verifyDouble_spec Z.eqb test test n) as (k & -> & _ & Hd & _); [done..|].
  destruct (decide (k = 0)) as [->|Hk]; [done|]. apply Hd in Hk. lia.
Qed.

(** [verify] and [verifyDouble], unrolled by two with a tail for an odd
    length, stay inside the arrays and answer one more than the position of the
    first difference, or 0 if the arrays agree. *)
Theorem verify_first_difference n test reference :
  0 <= n -> n <= lenZ test -> n <= lenZ reference ->
  exists k, verify n test reference = Some k /\
            first_difference Z.eqb n test reference k.
Proof. intros. rewrite verify_Double. by apply verifyDouble_spec. Qed.

Lemma verify_first_difference_witness :
  exists k, verify 3 [4; 5; 6] [4; 5; 7] = Some k /\
            first_difference Z.eqb 3 [4; 5; 6] [4; 5; 7] k.
Proof. apply (verify_first_difference 3 [4; 5; 6] [4; 5; 7]); vm_compute; discriminate. Defined.

(** ** The shape of the benchmarks' [main] *)

Section Main.
Context (read_csr : nat -> string -> Z).
Context {D : Type} (work : M D unit) (check : D -> option Z).

Definition bench_main : M (bench D) Z :=
  on_data work ;;;
  measured read_csr work ;;;
  s <- get ;;
  of_option (check (data s)).

Definition fresh (h : stats) : Prop :=
  length (counters h) = 2%nat /\ length (counter_names h) = 2%nat.

(** A benchmark whose work brings any data that satisfies [Pre] to data that
    satisfies [Post], a case of [Pre], ends, answers what its check says of such
    data, and leaves in its counters what went by in the second run. *)
Lemma bench_main_ok (Pre Post : D -> Prop) (Q : Z -> Prop) d h :
  fresh h -> Pre d ->
  (forall d, Pre d -> wp work (fun _ d' => Post d') d) ->
  (forall d, Post d -> Pre d) ->
  (forall d, Post d -> exists r, check d = Some r /\ Q r) ->
  wp bench_main (fun r s => Q r /\ Post (data s) /\ measures read_csr h (hpm s)) (App d h).
Proof.
  intros [Hc Hn] Hpre Hwork Hpost Hcheck. unfold bench_main.
  wp_seq. apply wp_zoom. eapply wp_mono; [by apply Hwork|]. intros [] d1 Hd1.
  wp_seq. apply measured_ok; [done..|].
  eapply wp_mono; [by apply Hwork, Hpost|]. intros [] d2 Hd2 h' Hm.
  wp_seq. eapply wp_eq; [done|]. cbn [data].
  destruct (Hcheck _ Hd2) as (r & Hr & HQ). rewrite Hr. by apply wp_ret.
Qed.
End Main.

Lemma fresh_reset : fresh reset_stats.
Proof. done. Qed.
