(* ===== verification/Kernels.v ===== *)
(** * The small kernels: median, multiply, vvadd and spmv

    Each kernel, its [main], and what the [main] returns: the verdict of
    [verify] on the values the kernel is meant to compute. *)

From Stdlib Require Import ZArith Lia String.
From stdpp Require Import base tactics list numbers.
From S2P Require Import Prelude CArray Bench.

(** Signed addition, undefined where it overflows [int]. *)
Definition int_add (a b : Z) : option Z :=
  if (-2147483648 <=? a + b) && (a + b <? 2147483648) then Some (a + b) else None.

Definition int (z : Z) : Prop := -2147483648 <= z < 2147483648.

Lemma int_add_Some a b : int (a + b) -> int_add a b = Some (a + b).
Proof.
  unfold int, int_add. intros.
  by replace ((-2147483648 <=? a + b) && (a + b <? 2147483648)) with true by lia.
Qed.

(** ** median (sw/app/median) *)

Definition median (n : Z) (input : list Z) : M (list Z) unit :=
  wr 0 0 ;;;
  wr (n - 1) 0 ;;;
  for_ 1 (n - 1) (fun i =>
    A <- of_option (fetch input (i - 1)) ;;
    B <- of_option (fetch input i) ;;
    C <- of_option (fetch input (i + 1)) ;;
    if A <? B then
      if B <? C then wr i B
      else if C <? A then wr i A
      else wr i C
    else
      if A <? C then wr i A
      else if C <? B then wr i B
      else wr i C).

Definition median_main (read_csr : nat -> string -> Z) (DATA_SIZE : Z)
    (input_data verify_data : list Z) : M (bench (list Z)) Z :=
  bench_main read_csr (median DATA_SIZE input_data)
    (fun results_data => verify DATA_SIZE results_data verify_data).

(** ** multiply (sw/app/multiply)

    A shift to the left keeps the low 32 bits (what the compiler used here
    documents); an addition that overflows is undefined. *)

Fixpoint multiply_loop (k : nat) (x y result : Z) : option Z :=
  match k with
  | O => Some result
  | S k =>
      result ← (if Z.land x 1 =? 1 then int_add result y else Some result);
      multiply_loop k (Z.shiftr x 1) (s32 (Z.shiftl y 1)) result
  end.

Definition multiply (x y : Z) : option Z := multiply_loop 32 x y 0.

Definition multiply_all (n : Z) (input_data1 input_data2 : list Z) : M (list Z) unit :=
  for_ 0 n (fun i =>
    x <- of_option (fetch input_data1 i) ;;
    y <- of_option (fetch input_data2 i) ;;
    r <- of_option (multiply x y) ;;
    wr i r).

Definition multiply_main (read_csr : nat -> string -> Z) (DATA_SIZE : Z)
    (input_data1 input_data2 verify_data : list Z) : M (bench (list Z)) Z :=
  bench_main read_csr (multiply_all DATA_SIZE input_data1 input_data2)
    (fun results_data => verify DATA_SIZE results_data verify_data).

(** ** vvadd (sw/app/vvadd) *)

Definition vvadd (n : Z) (a b : list Z) : M (list Z) unit :=
  for_ 0 n (fun i =>
    x <- of_option (fetch a i) ;;
    y <- of_option (fetch b i) ;;
    r <- of_option (int_add x y) ;;
    wr i r).

Definition vvadd_main (read_csr : nat -> string -> Z) (DATA_SIZE : Z)
    (input1_data input2_data verify_data : list Z) : M (bench (list Z)) Z :=
  bench_main read_csr (vvadd DATA_SIZE input1_data input2_data)
    (fun results_data => verify DATA_SIZE results_data verify_data).

(** ** A kernel that fills its results with a function of the index *)

Lemma wp_fetch {S A B} `{Inhabited A} (l : list A) i (k : A -> M S B) (Q : B -> S -> Prop) s :
  0 <= i < lenZ l -> wp (k (getZ l i)) Q s ->
  wp (a <- of_option (fetch l i) ;; k a) Q s.
Proof. intros. rewrite fetch_Some by done. apply wp_bind, wp_ret. done. Qed.

Definition filled {A} `{Inhabited A} (lo hi : Z) (f : Z -> A) (r : list A) : Prop :=
  forall i, lo <= i < hi -> getZ r i = f i.

Lemma wp_fill {A} `{Inhabited A} lo hi n (f : Z -> A) (body : Z -> M (list A) unit) r :
  0 <= lo <= hi -> hi <= n -> lenZ r = n ->
  (forall i r Q, lo <= i < hi -> lenZ r = n -> Q tt (setZ r i (f i)) -> wp (body i) Q r) ->
  wp (for_ lo hi body)
     (fun _ r' => lenZ r' = n /\ filled lo hi f r' /\
                  forall j, 0 <= j < n -> ~ (lo <= j < hi) -> getZ r' j = getZ r j) r.
Proof.
  intros Hlo Hhi Hr Hbody.
  apply wp_for with (I := fun i r' => lenZ r' = n /\ filled lo i f r' /\
    forall j, 0 <= j < n -> ~ (lo <= j < i) -> getZ r' j = getZ r j); [lia| |..].
  - split_and!; [done| |done]. intros i Hi. lia.
  - intros i r' Hi (Hlen & Hfill & Hkeep). apply Hbody; [done..|].
    rewrite setZ_length. split_and!; [done|..].
    + intros j Hj. destruct (decide (j = i)) as [->|].
      * apply getZ_setZ. lia.
      * rewrite getZ_setZ_ne by lia. apply Hfill. lia.
    + intros j Hj Hout. rewrite getZ_setZ_ne by lia. apply Hkeep; lia.
  - done.
Qed.

Lemma filled_map {A} `{Inhabited A} n (f : Z -> A) r :
  0 <= n -> lenZ r = n -> filled 0 n f r -> r = map f (seqZ 0 n).
Proof.
  intros Hn Hr Hf.
  assert (lenZ (map f (seqZ 0 n)) = n) as Hlen.
  { unfold lenZ. rewrite length_map, length_seqZ. lia. }
  apply getZ_ext; [by rewrite Hlen|]. intros i Hi. rewrite Hf by lia.
  symmetry. unfold getZ. apply list_lookup_total_correct.
  apply list_lookup_fmap_Some. exists i. split; [done|].
  apply lookup_seqZ. split; lia.
Qed.

Lemma filled_check n f r reference :
  0 <= n -> lenZ r = n -> n <= lenZ reference -> filled 0 n f r ->
  exists k, verify n r reference = Some k /\
            first_difference Z.eqb n (map f (seqZ 0 n)) reference k.
Proof.
  intros Hn Hr Href Hf. apply filled_map in Hf as <-; [|done..].
  rewrite verify_Double. apply verifyDouble_spec; lia.
Qed.

(** The [main] of a kernel that fills its results with [f]. *)
Lemma fill_main_ok read_csr n f (work : M (list Z) unit) verify_data results h :
  0 <= n -> n <= lenZ verify_data -> lenZ results = n -> fresh h ->
  (forall r, lenZ r = n -> wp work (fun _ r' => lenZ r' = n /\ filled 0 n f r') r) ->
  wp (bench_main read_csr work (fun r => verify n r verify_data))
     (fun k s => first_difference Z.eqb n (map f (seqZ 0 n)) verify_data k
                 /\ measures read_csr h (hpm s))
     (App results h).
Proof.
  intros Hn Href Hr Hh Hwork.
  eapply wp_mono;
    [apply (bench_main_ok read_csr _ _ (fun r => lenZ r = n)
       (fun r => lenZ r = n /\ filled 0 n f r)
       (first_difference Z.eqb n (map f (seqZ 0 n)) verify_data));
     [done|done|exact Hwork|naive_solver|]|naive_solver].
  intros r [Hlen Hfill]. by apply filled_check.
Qed.

(** ** The median filter *)

(** The middle one of three. *)
Definition middle (a b c : Z) : Z := Z.max (Z.min a b) (Z.min (Z.max a b) c).

Definition median_at (n : Z) (input : list Z) (i : Z) : Z :=
  if (i =? 0) || (i =? n - 1) then 0
  else middle (getZ input (i - 1)) (getZ input i) (getZ input (i + 1)).

Lemma median_fills n input r :
  1 <= n -> lenZ input = n -> lenZ r = n ->
  wp (median n input)
     (fun _ r' => lenZ r' = n /\ filled 0 n (median_at n input) r') r.
Proof.
  intros Hn Hin Hr. unfold median. wp_array; [lia|]. wp_array; [lia|].
  destruct (decide (n = 1)) as [->|Hn1].
  { eapply wp_eq; [by apply for_nil|]. rewrite !setZ_length. split; [done|].
    intros i Hi. replace i with 0 by lia. apply getZ_setZ. rewrite setZ_length. lia. }
  eapply wp_mono; [apply (wp_fill 1 (n - 1) n (median_at n input)); [lia|lia|by rewrite !setZ_length|]|].
  - intros i r0 Q Hi Hr0 HQ.
    apply wp_fetch; [lia|]. apply wp_fetch; [lia|]. apply wp_fetch; [lia|].
    unfold median_at, middle in HQ.
    replace ((i =? 0) || (i =? n - 1)) with false in HQ by lia.
    revert HQ. generalize (getZ input (i - 1)) (getZ input i) (getZ input (i + 1)).
    intros a b c HQ.
    repeat case_match; (apply wp_put; [lia|]);
      (eapply eq_ind; [exact HQ|]); do 2 f_equal; lia.
  - intros [] r' (Hlen & Hfill & Hkeep). split; [done|].
    intros i Hi. destruct (decide (1 <= i < n - 1)); [by apply Hfill|].
    rewrite Hkeep by lia. unfold median_at.
    replace ((i =? 0) || (i =? n - 1)) with true by lia.
    destruct (decide (i = n - 1)) as [->|].
    + apply getZ_setZ. rewrite setZ_length. lia.
    + rewrite getZ_setZ_ne by lia. replace i with 0 by lia. apply getZ_setZ. lia.
Qed.

(** The median benchmark ends within its arrays, whatever its result buffer
    held, and returns what [verify] says of the three point median of the input
    with its ends zeroed: 0 if the reference data is that filter, else one more
    than the first position where it is not. *)
Theorem median_main_checks read_csr n input_data verify_data results h :
  1 <= n -> lenZ input_data = n -> n <= lenZ verify_data -> lenZ results = n -> fresh h ->
  wp (median_main read_csr n input_data verify_data)
     (fun k s => first_difference Z.eqb n (map (median_at n input_data) (seqZ 0 n)) verify_data k
                 /\ measures read_csr h (hpm s))
     (App results h).
Proof.
  intros Hn Hin Href Hr Hh. apply fill_main_ok; [lia|done..|].
  intros r Hlen. by apply median_fills.
Qed.

Lemma median_main_checks_witness :
  wp (median_main (fun k _ => Z.of_nat k) 5 [3; 9; 4; 4; 1] [0; 4; 4; 4; 0])
     (fun k s => first_difference Z.eqb 5
                   (map (median_at 5 [3; 9; 4; 4; 1]) (seqZ 0 5)) [0; 4; 4; 4; 0] k
                 /\ measures (fun k _ => Z.of_nat k) reset_stats (hpm s))
     (App [0; 0; 0; 0; 0] reset_stats).
Proof.
  apply (median_main_checks (fun k _ => Z.of_nat k) 5 [3; 9; 4; 4; 1]);
    [lia|done|done|done|done].
Defined.

(** ** Multiplication *)

Lemma double_bound h m y r z :
  0 <= h -> 0 <= m -> r + (2 * h + m) * y = z -> int z ->
  (0 <= y /\ 0 <= r) \/ (y <= 0 /\ r <= 0) ->
  (0 < m -> int y /\ int (r + m * y)) /\ (0 < h -> int (2 * y)).
Proof. unfold int. intros. split; intros; nia. Qed.

Lemma multiply_loop_product k x y r z :
  0 <= x < 2 ^ Z.of_nat k -> int z -> r + x * y = z ->
  (0 <= y /\ 0 <= r) \/ (y <= 0 /\ r <= 0) ->
  multiply_loop k x (s32 y) r = Some z.
Proof.
  revert x y r. induction k as [|k IH]; intros x y r Hx Hz Hr Hsign.
  { assert (x = 0) as -> by (change (2 ^ Z.of_nat 0) with 1 in Hx; lia). simpl. f_equal. lia. }
  rewrite Nat2Z.inj_succ, Z.pow_succ_r in Hx by lia.
  assert (x = 2 * (x / 2) + x mod 2) as Ex by (apply Z.div_mod; lia).
  assert (0 <= x mod 2 < 2) as Hm by (apply Z.mod_pos_bound; lia).
  assert (s32 (Z.shiftl (s32 y) 1) = s32 (2 * y)) as Es.
  { rewrite Z.shiftl_mul_pow2 by lia. change (2 ^ 1) with 2. unfold s32. divlia. }
  cbn [multiply_loop]. rewrite Es, land_1, Z.shiftr_div_pow2 by lia. change (2 ^ 1) with 2.
  clear Es. set (h := x / 2) in *. clearbody h.
  destruct (double_bound h (x mod 2) y r z) as [Hbit _];
    [clear -Ex Hx Hm; lia|lia|by rewrite <-Ex|done|done|].
  destruct (Z.eqb_spec (x mod 2) 1) as [E1|E1].
  - rewrite E1 in *. destruct Hbit as [Hy Hry]; [lia|]. rewrite Z.mul_1_l in Hry.
    rewrite (s32_id y) by (unfold int in Hy; lia).
    rewrite int_add_Some by done. simpl. subst x. apply IH; [lia|done|lia|lia].
  - assert (x mod 2 = 0) as E0 by lia. rewrite E0 in *. simpl.
    subst x. apply IH; [lia|done|lia|lia].
Qed.

Lemma multiply_product x y : 0 <= x < 2147483648 -> int y -> int (x * y) -> multiply x y = Some (x * y).
Proof.
  intros Hx Hy Hxy. unfold multiply. rewrite <-(s32_id y) at 1 by done.
  apply multiply_loop_product; [change (2 ^ Z.of_nat 32) with 4294967296; lia|done|lia|lia].
Qed.

Definition product_at (a b : list Z) (i : Z) : Z := getZ a i * getZ b i.

Definition multipliable (n : Z) (a b : list Z) : Prop :=
  forall i, 0 <= i < n ->
    0 <= getZ a i < 2147483648 /\ int (getZ b i) /\ int (getZ a i * getZ b i).

(** The multiply benchmark, whose inputs are not negative and whose products
    are representable, runs without a signed overflow and returns what [verify]
    says of the products: the shift and add loop multiplies. *)
Theorem multiply_main_checks read_csr n input_data1 input_data2 verify_data results h :
  0 <= n -> lenZ input_data1 = n -> lenZ input_data2 = n -> n <= lenZ verify_data ->
  lenZ results = n -> multipliable n input_data1 input_data2 -> fresh h ->
  wp (multiply_main read_csr n input_data1 input_data2 verify_data)
     (fun k s => first_difference Z.eqb n
                   (map (product_at input_data1 input_data2) (seqZ 0 n)) verify_data k
                 /\ measures read_csr h (hpm s))
     (App results h).
Proof.
  intros Hn H1 H2 Href Hr Hmul Hh. apply fill_main_ok; [done..|]. intros r Hlen.
  eapply wp_mono;
    [apply (wp_fill 0 n n (product_at input_data1 input_data2)); [lia|lia|done|]|naive_solver].
  intros i r0 Q Hi Hr0 HQ. destruct (Hmul i Hi) as (Hx & Hy & Hxy).
  apply wp_fetch; [lia|]. apply wp_fetch; [lia|].
  rewrite multiply_product by done. apply wp_bind, wp_ret, wp_put; [lia|done].
Qed.

Lemma multiply_main_checks_witness :
  wp (multiply_main (fun _ _ => 7) 2 [41; 454] [195; -3] [7995; -1362])
     (fun k s => first_difference Z.eqb 2
                   (map (product_at [41; 454] [195; -3]) (seqZ 0 2)) [7995; -1362] k
                 /\ measures (fun _ _ => 7) reset_stats (hpm s))
     (App [0; 0] reset_stats).
Proof.
  apply (multiply_main_checks (fun _ _ => 7) 2); try done.
  intros i Hi. assert (i = 0 \/ i = 1) as [-> | ->] by lia; split_and!; vm_compute; try split; congruence.
Defined.

(** ** Vector addition *)

Definition sum_at (a b : list Z) (i : Z) : Z := getZ a i + getZ b i.

Lemma vvadd_fills n a b r :
  0 <= n -> lenZ a = n -> lenZ b = n -> lenZ r = n ->
  (forall i, 0 <= i < n -> int (getZ a i + getZ b i)) ->
  wp (vvadd n a b) (fun _ r' => lenZ r' = n /\ filled 0 n (sum_at a b) r') r.
Proof.
  intros Hn Ha Hb Hr Hsum. eapply wp_mono;
    [apply (wp_fill 0 n n (sum_at a b)); [lia|lia|done|]|naive_solver].
  intros i r0 Q Hi Hr0 HQ. apply wp_fetch; [lia|]. apply wp_fetch; [lia|].
  rewrite int_add_Some by auto. apply wp_bind, wp_ret, wp_put; [lia|done].
Qed.

Lemma vvadd_main_checks read_csr n a b verify_data results h :
  0 <= n -> lenZ a = n -> lenZ b = n -> n <= lenZ verify_data -> lenZ results = n ->
  (forall i, 0 <= i < n -> int (getZ a i + getZ b i)) -> fresh h ->
  wp (vvadd_main read_csr n a b verify_data)
     (fun k s => first_difference Z.eqb n (map (sum_at a b) (seqZ 0 n)) verify_data k
                 /\ measures read_csr h (hpm s))
     (App results h).
Proof.
  intros Hn Ha Hb Href Hr Hsum Hh. apply fill_main_ok; [done..|].
  intros r Hlen. by apply vvadd_fills.
Qed.

(** ** spmv (sw/app/spmv), over any type of numbers

    [D], [zero], [add] and [mul] are the doubles of the machine. *)

Section Spmv.
Context {D : Type} `{Inhabited D} (zero : D) (add mul : D -> D -> D).

(** [yi += val[k] * x[idx[k]]] *)
Definition accumulate (val x : list D) (idx : list Z) (k : Z) (yi : D) : option D :=
  v ← fetch val k; j ← fetch idx k; xj ← fetch x j; Some (add yi (mul v xj)).

(** [for (k = ptr[i]; k < ptr[i+1]-3; k += 4)], for at most [fuel] rounds. *)
Fixpoint spmv_quads (fuel : nat) (val x : list D) (idx : list Z) (k stop : Z)
    (yi : D * D * D * D) : option (Z * (D * D * D * D)) :=
  match fuel with
  | O => None
  | S fuel =>
      let '(yi0, yi1, yi2, yi3) := yi in
      if k <? stop - 3 then
        yi0 ← accumulate val x idx (k + 0) yi0;
        yi1 ← accumulate val x idx (k + 1) yi1;
        yi2 ← accumulate val x idx (k + 2) yi2;
        yi3 ← accumulate val x idx (k + 3) yi3;
        spmv_quads fuel val x idx (k + 4) stop (yi0, yi1, yi2, yi3)
      else Some (k, yi)
  end.

Fixpoint spmv_rest (fuel : nat) (val x : list D) (idx : list Z) (k stop : Z) (yi0 : D) : option D :=
  match fuel with
  | O => None
  | S fuel =>
      if k <? stop then
        yi0 ← accumulate val x idx k yi0; spmv_rest fuel val x idx (k + 1) stop yi0
      else Some yi0
  end.

Definition spmv_row (fuel : nat) (val x : list D) (idx : list Z) (k stop : Z) : option D :=
  '(k, (yi0, yi1, yi2, yi3)) ← spmv_quads fuel val x idx k stop (zero, zero, zero, zero);
  yi0 ← spmv_rest fuel val x idx k stop yi0;
  Some (add (add yi0 yi1) (add yi2 yi3)).

Definition spmv (fuel : nat) (r : Z) (val : list D) (idx : list Z) (x : list D) (ptr : list Z) :
    M (list D) unit :=
  for_ 0 r (fun i =>
    k <- of_option (fetch ptr i) ;;
    stop <- of_option (fetch ptr (i + 1)) ;;
    yi <- of_option (spmv_row fuel val x idx k stop) ;;
    wr i yi).

Definition spmv_main (eqb : D -> D -> bool) (read_csr : nat -> string -> Z) (fuel : nat) (R : Z)
    (val : list D) (idx : list Z) (x : list D) (ptr : list Z) (verify_data : list D) :
    M (bench (list D)) Z :=
  bench_main read_csr (spmv fuel R val idx x ptr)
    (fun y => verifyDouble eqb R y verify_data).
End Spmv.

(** Where the addition is exact, a row is the sum of its products: this is the
    case of doubles whose partial sums are integers below 2^53, as the data of
    the benchmark is. *)
Section SpmvExact.
Context {D : Type} `{Inhabited D} (zero : D) (add mul : D -> D -> D).
Context (add_assoc : Assoc (=) add) (add_comm : Comm (=) add) (add_zero : LeftId (=) zero add).
Context (val x : list D) (idx : list Z).

Definition term (k : Z) : D := mul (getZ val k) (getZ x (getZ idx k)).

Definition row_sum (lo hi : Z) : D := foldr (fun k acc => add (term k) acc) zero (seqZ lo (hi - lo)).

Definition row_ok (lo hi : Z) : Prop :=
  forall k, lo <= k < hi -> 0 <= k < lenZ val /\ k < lenZ idx /\ 0 <= getZ idx k < lenZ x.

Lemma row_sum_cons lo hi : lo < hi -> row_sum lo hi = add (term lo) (row_sum (lo + 1) hi).
Proof.
  intros. unfold row_sum. rewrite seqZ_cons by lia. cbn [foldr].
  by replace (hi - (lo + 1)) with (Z.pred (hi - lo)) by lia.
Qed.

Lemma accumulate_ok lo hi k yi :
  row_ok lo hi -> lo <= k < hi -> accumulate add mul val x idx k yi = Some (add yi (term k)).
Proof.
  intros Hok Hk. destruct (Hok k Hk) as (? & ? & ?). unfold accumulate.
  by rewrite !fetch_Some by (rewrite ?fetch_Some; lia); simpl; rewrite fetch_Some by lia.
Qed.

Definition total (y : D * D * D * D) : D :=
  let '(y0, y1, y2, y3) := y in add (add y0 y1) (add y2 y3).

Lemma total_step y0 y1 y2 y3 a b c d s :
  add (total (add y0 a, add y1 b, add y2 c, add y3 d)) s =
  add (total (y0, y1, y2, y3)) (add a (add b (add c (add d s)))).
Proof.
  assert (forall p q r : D, add p (add q r) = add q (add p r)) as swap.
  { intros p q r. by rewrite !(assoc_L add), (comm_L add p q). }
  simpl. rewrite <-!(assoc_L add). f_equal.
  rewrite (swap a y1). f_equal. rewrite (swap b y2), (swap a y2). f_equal.
  by rewrite (swap c y3), (swap b y3), (swap a y3).
Qed.

Lemma spmv_quads_ok lo fuel k hi y :
  row_ok lo hi -> lo <= k -> Z.max 0 (hi - k) < Z.of_nat fuel ->
  exists k' y', spmv_quads add mul fuel val x idx k hi y = Some (k', y') /\
    k <= k' /\ k' <= Z.max k hi /\
    add (total y') (row_sum k' hi) = add (total y) (row_sum k hi).
Proof.
  intros Hok. revert k y. induction fuel as [|fuel IH]; intros k [[[y0 y1] y2] y3] Hk Hf.
  { lia. }
  cbn [spmv_quads]. destruct (Z.ltb_spec k (hi - 3)) as [Hlt|]; [|by exists k, (y0, y1, y2, y3); split_and!; [|lia..|]].
  rewrite Z.add_0_r. do 4 (rewrite (accumulate_ok lo hi) by (done || lia); cbn [mbind option_bind]).
  destruct (IH (k + 4) (add y0 (term k), add y1 (term (k + 1)),
     add y2 (term (k + 2)), add y3 (term (k + 3)))) as (k' & y' & E & ? & ? & Hsum); [lia..|].
  exists k', y'. split_and!; [done|lia..|]. rewrite Hsum, total_step.
  rewrite (row_sum_cons k hi), (row_sum_cons (k + 1) hi), (row_sum_cons (k + 1 + 1) hi),
    (row_sum_cons (k + 1 + 1 + 1) hi) by lia.
  by rewrite <-!Z.add_assoc.
Qed.

Lemma spmv_rest_ok lo fuel k hi yi :
  row_ok lo hi -> lo <= k -> Z.max 0 (hi - k) < Z.of_nat fuel ->
  spmv_rest add mul fuel val x idx k hi yi = Some (add yi (row_sum k hi)).
Proof.
  intros Hok. revert k yi. induction fuel as [|fuel IH]; intros k yi Hk Hf; [lia|].
  cbn [spmv_rest]. destruct (Z.ltb_spec k hi).
  - rewrite (accumulate_ok lo hi) by (done || lia). cbn [mbind option_bind].
    rewrite IH by lia. rewrite (row_sum_cons k hi) by lia. by rewrite (assoc_L add).
  - unfold row_sum. rewrite seqZ_nil by lia. simpl.
    by rewrite (comm_L add), (left_id_L zero add).
Qed.

Lemma spmv_row_ok fuel lo hi :
  row_ok lo hi -> Z.max 0 (hi - lo) < Z.of_nat fuel ->
  spmv_row zero add mul fuel val x idx lo hi = Some (row_sum lo hi).
Proof.
  intros Hok Hf. unfold spmv_row.
  destruct (spmv_quads_ok lo fuel lo hi (zero, zero, zero, zero))
    as (k' & [[[y0 y1] y2] y3] & E & Hk' & Hk'' & Hsum); [done|lia..|].
  rewrite E. cbn [mbind option_bind].
  rewrite (spmv_rest_ok lo) by (done || lia). cbn [mbind option_bind]. f_equal.
  simpl in Hsum. rewrite !(left_id_L zero add) in Hsum. rewrite <-Hsum.
  rewrite <-!(assoc_L add). f_equal. rewrite (comm_L add (row_sum _ _)).
  by rewrite <-!(assoc_L add).
Qed.
End SpmvExact.

(** On numbers whose addition is exact, the sparse product, unrolled by four
    with four accumulators and a tail, stays inside its arrays and computes for
    every row the sum of its products; [nnz] rounds bound its loops. *)
Theorem spmv_multiplies {D} `{Inhabited D} (zero : D) (add mul : D -> D -> D)
    (val x : list D) (idx ptr : list Z) R y fuel :
  Assoc (=) add -> Comm (=) add -> LeftId (=) zero add ->
  0 <= R -> R < lenZ ptr -> lenZ y = R ->
  (forall i, 0 <= i < R -> row_ok val x idx (getZ ptr i) (getZ ptr (i + 1)) /\
                           Z.max 0 (getZ ptr (i + 1) - getZ ptr i) < Z.of_nat fuel) ->
  wp (spmv zero add mul fuel R val idx x ptr)
     (fun _ y' => y' = map (fun i => row_sum zero add mul val x idx
                                      (getZ ptr i) (getZ ptr (i + 1))) (seqZ 0 R)) y.
Proof.
  intros Ha Hc Hz HR Hptr Hy Hrow. unfold spmv.
  eapply wp_mono; [apply (wp_fill 0 R R (fun i => row_sum zero add mul val x idx
                                      (getZ ptr i) (getZ ptr (i + 1)))); [lia|lia|done|]|].
  - intros i r Q Hi Hr HQ. destruct (Hrow i Hi) as [Hok Hf].
    apply wp_fetch; [lia|]. apply wp_fetch; [lia|].
    rewrite spmv_row_ok by done. apply wp_bind, wp_ret, wp_put; [lia|done].
  - intros [] y' (Hlen & Hfill & _). by apply filled_map.
Qed.

Lemma spmv_multiplies_witness :
  wp (spmv 0 Z.add Z.mul 7 2 [1; 2; 3; 4; 5; 6] [0; 1; 2; 0; 1; 2] [10; 20; 30] [0; 5; 6])
     (fun _ y => y = map (fun i => row_sum 0 Z.add Z.mul [1; 2; 3; 4; 5; 6] [10; 20; 30]
                                     [0; 1; 2; 0; 1; 2] (getZ [0; 5; 6] i) (getZ [0; 5; 6] (i + 1)))
                         (seqZ 0 2)) [0; 0].
Proof.
  apply spmv_multiplies; try done; try apply _.
  intros i Hi. assert (i = 0 \/ i = 1) as [-> | ->] by lia; (split; [|done]);
    intros k Hk;
    change (getZ [0; 5; 6] 0) with 0 in Hk; change (getZ [0; 5; 6] (0 + 1)) with 5 in Hk;
    change (getZ [0; 5; 6] 1) with 5 in Hk; change (getZ [0; 5; 6] (1 + 1)) with 6 in Hk;
    assert (k = 0 \/ k = 1 \/ k = 2 \/ k = 3 \/ k = 4 \/ k = 5) as Hc by lia;
    repeat destruct Hc as [->|Hc]; subst; split_and!; vm_compute; congruence.
Defined.
