(* ===== verification/Sorting.v ===== *)
(** * Sorted arrays and permutations of a part of an array

    What the sorting benchmarks promise: the array is sorted, and a permutation
    of what it was. *)

From Stdlib Require Import ZArith Lia.
From stdpp Require Import base tactics list numbers sorting.
From S2P Require Import Prelude CArray Bench.

(** The elements from [lo] up to [hi] are in order. *)
Definition sorted (lo hi : Z) (l : list Z) : Prop :=
  forall i j, lo <= i <= j -> j < hi -> getZ l i <= getZ l j.

(** [k] is [l] with the elements from [lo] up to [hi] permuted. *)
Definition perm_within (lo hi : Z) (l k : list Z) : Prop :=
  k ≡ₚ l /\ forall i, 0 <= i < lenZ l -> ~ (lo <= i < hi) -> getZ k i = getZ l i.

#[export] Instance perm_within_preorder lo hi : PreOrder (perm_within lo hi).
Proof.
  split; [done|]. intros l k m [P E] [P' E']. split; [by rewrite P'|].
  intros i Hi Hout. rewrite E', E; [done..| |done].
  unfold lenZ in *. by rewrite (Permutation_length P).
Qed.

Lemma perm_within_len lo hi l k : perm_within lo hi l k -> lenZ k = lenZ l.
Proof. intros [P _]. unfold lenZ. by rewrite (Permutation_length P). Qed.

Lemma perm_within_weaken lo hi lo' hi' l k :
  lo' <= lo -> hi <= hi' -> perm_within lo hi l k -> perm_within lo' hi' l k.
Proof. intros ?? [P E]. split; [done|]. intros i Hi Hout. apply E; lia. Qed.

Lemma perm_within_swap lo hi l i j :
  0 <= lo -> hi <= lenZ l -> lo <= i < hi -> lo <= j < hi ->
  perm_within lo hi l (setZ (setZ l i (getZ l j)) j (getZ l i)).
Proof.
  intros Hlo Hhi Hi Hj. split; [apply swap_Permutation; lia|].
  intros k Hk Hout. by rewrite !getZ_setZ_ne by lia.
Qed.

(** The part itself is permuted. *)
Lemma perm_within_slice lo hi l k :
  0 <= lo <= hi -> hi <= lenZ l -> perm_within lo hi l k ->
  slice (Z.to_nat lo) (Z.to_nat (hi - lo)) k ≡ₚ slice (Z.to_nat lo) (Z.to_nat (hi - lo)) l.
Proof.
  intros Hlo Hhi Hp. pose proof (perm_within_len _ _ _ _ Hp) as Hlen.
  destruct Hp as [P E]. unfold slice.
  set (p := Z.to_nat lo). set (n := Z.to_nat (hi - lo)).
  assert (take p k = take p l) as Ht.
  { apply list_eq. intros i. destruct (decide (i < p)%nat) as [Hi|Hi].
    - rewrite !lookup_take_lt by done.
      specialize (E (Z.of_nat i)). unfold getZ in E. rewrite Nat2Z.id in E.
      rewrite !list_lookup_lookup_total_lt by (unfold lenZ in *; lia).
      rewrite E; [done|unfold lenZ in *; lia|lia].
    - by rewrite !lookup_take_ge by lia. }
  assert (drop n (drop p k) = drop n (drop p l)) as Hd.
  { rewrite !drop_drop. apply list_eq. intros i. rewrite !lookup_drop.
    destruct (decide (p + n + i < length l)%nat) as [Hi|Hi].
    - specialize (E (Z.of_nat (p + n + i))). unfold getZ in E. rewrite Nat2Z.id in E.
      rewrite !list_lookup_lookup_total_lt by (unfold lenZ in *; lia).
      rewrite E; [done|unfold lenZ in *; lia|lia].
    - rewrite !lookup_ge_None_2; [done| |]; unfold lenZ in *; lia. }
  apply (Permutation_app_inv_r (drop n (drop p l))). rewrite take_drop. rewrite <-Hd at 1.
  rewrite take_drop. apply (Permutation_app_inv_l (take p l)). rewrite take_drop.
  rewrite <-Ht. by rewrite take_drop.
Qed.

Lemma slice_elem (l : list Z) lo n x :
  0 <= lo -> lo + Z.of_nat n <= lenZ l ->
  x ∈ slice (Z.to_nat lo) n l <-> exists i, lo <= i < lo + Z.of_nat n /\ getZ l i = x.
Proof.
  intros Hlo Hn. unfold slice, lenZ in *. rewrite list_elem_of_lookup. split.
  - intros [i Hi]. apply lookup_take_Some in Hi as [Hi Hin]. rewrite lookup_drop in Hi.
    exists (lo + Z.of_nat i). split; [lia|]. apply lookup_getZ in Hi.
    by replace (lo + Z.of_nat i) with (Z.of_nat (Z.to_nat lo + i)) by lia.
  - intros (i & Hi & <-). exists (Z.to_nat (i - lo)).
    rewrite lookup_take_lt by lia. rewrite lookup_drop.
    replace (Z.to_nat lo + Z.to_nat (i - lo))%nat with (Z.to_nat i) by lia.
    apply getZ_lookup. unfold lenZ. lia.
Qed.

(** What holds of every element of the part still does. *)
Lemma perm_within_all (P : Z -> Prop) lo hi l k :
  0 <= lo -> hi <= lenZ l -> perm_within lo hi l k ->
  (forall i, lo <= i < hi -> P (getZ l i)) -> forall i, lo <= i < hi -> P (getZ k i).
Proof.
  intros Hlo Hhi Hp HP i Hi.
  pose proof (perm_within_len _ _ _ _ Hp) as Hlen.
  apply perm_within_slice in Hp; [|lia..].
  assert (getZ k i ∈ slice (Z.to_nat lo) (Z.to_nat (hi - lo)) k) as Hin.
  { apply slice_elem; [lia..|]. exists i. split; [lia|done]. }
  rewrite Hp in Hin. apply slice_elem in Hin as (j & Hj & <-); [|lia..].
  apply HP. lia.
Qed.

(** Two sorted arrays that are permutations of each other are equal. *)
Lemma sorted_StronglySorted l : sorted 0 (lenZ l) l -> StronglySorted Z.le l.
Proof.
  induction l as [|x l IH]; intros Hs; constructor.
  - apply IH. intros i j Hij Hj. specialize (Hs (i + 1) (j + 1)). unfold getZ, lenZ in *.
    simpl in *. replace (Z.to_nat (i + 1)) with (S (Z.to_nat i)) in Hs by lia.
    replace (Z.to_nat (j + 1)) with (S (Z.to_nat j)) in Hs by lia. apply Hs; lia.
  - apply Forall_lookup. intros i y Hy. specialize (Hs 0 (Z.of_nat i + 1)).
    unfold getZ, lenZ in Hs. replace (Z.to_nat (Z.of_nat i + 1)) with (S i) in Hs by lia.
    simpl in Hs. rewrite (list_lookup_total_correct _ _ _ Hy) in Hs.
    pose proof (lookup_lt_Some _ _ _ Hy). apply Hs; lia.
Qed.

Lemma sorted_unique l k :
  l ≡ₚ k -> sorted 0 (lenZ l) l -> sorted 0 (lenZ k) k -> l = k.
Proof.
  intros P Hl Hk. by apply (StronglySorted_unique Z.le);
    [apply sorted_StronglySorted..|].
Qed.

Lemma StronglySorted_sorted l : StronglySorted Z.le l -> sorted 0 (lenZ l) l.
Proof.
  induction 1 as [|x l Hl IH Hx]; intros i j Hij Hj; [unfold lenZ in Hj; simpl in Hj; lia|].
  rewrite lenZ_cons in Hj. change (x :: l) with ([x] ++ l).
  destruct (decide (i = 0)) as [->|].
  - rewrite getZ_app_l by done. destruct (decide (j = 0)) as [->|]; [by rewrite getZ_app_l|].
    rewrite getZ_app_r by (change (lenZ [x]) with 1; lia). change (getZ [x] 0) with x.
    rewrite Forall_forall in Hx. apply Hx, list_elem_of_lookup.
    exists (Z.to_nat (j - lenZ [x])). apply getZ_lookup. change (lenZ [x]) with 1. lia.
  - rewrite !getZ_app_r by (change (lenZ [x]) with 1; lia). change (lenZ [x]) with 1.
    apply IH; lia.
Qed.

(** [verify] on two sorted arrays tells whether they have the same elements. *)
Lemma verify_sorted n A V :
  lenZ A = n -> lenZ V = n -> sorted 0 n A -> sorted 0 n V ->
  exists k, verify n A V = Some k /\ (k = 0 <-> V ≡ₚ A).
Proof.
  intros LA LV SA SV. pose proof (lenZ_nonneg A).
  destruct (verifyDouble_spec Z.eqb A V n) as (k & Hk & _ & Hd & Hall); [lia..|].
  exists k. split; [by rewrite verify_Double|]. split.
  - intros ->. cbn in Hall. apply Permutation_refl'. symmetry. apply getZ_ext; [lia|].
    intros i Hi. apply Z.eqb_eq, Hall. lia.
  - intros P. destruct (decide (k = 0)) as [|Hk0]; [done|]. apply Hd in Hk0.
    assert (V = A) as -> by (apply sorted_unique; rewrite ?LV, ?LA; done).
    by rewrite Z.eqb_refl in Hk0.
Qed.

Lemma StronglySorted_weaken (R R' : Z -> Z -> Prop) l :
  (forall x y, R x y -> R' x y) -> StronglySorted R l -> StronglySorted R' l.
Proof.
  intros HR. induction 1 as [|x l Hl IH Hx]; constructor; [done|].
  eapply Forall_impl; [exact Hx|]. auto.
Qed.
