(* ===== verification/Qsort.v ===== *)
(** * Quicksort (sw/app/qsort)

    The pointers of the code are offsets into [arr]; [stack] is its array of
    pending subarrays and [stackp] the offset of the top of it.  A run of a
    [while] loop is bounded by [fuel]. *)

From Stdlib Require Import ZArith Lia String.
From stdpp Require Import base tactics list numbers sorting.
From S2P Require Import Prelude CArray Bench Sorting.

Definition INSERTION_THRESHOLD : Z := 10.
Definition NSTACK : Z := 50.

Definition SWAP (p q : Z) : M (list Z) unit :=
  temp <- rd p ;; b <- rd q ;; wr p b ;;; wr q temp.

Definition SWAP_IF_GREATER (p q : Z) : M (list Z) unit :=
  a <- rd p ;; b <- rd q ;; if b <? a then SWAP p q else ret tt.

Section Fuel.
Context (fuel : nat).

(** [while (value < *(j-1)) { *j = *(j-1); if (--j == arr) break; }] *)
Definition insertion_shift (arr value j : Z) : M (list Z) Z :=
  loop fuel (fun j =>
    x <- rd (j - 1) ;;
    if value <? x then
      wr j x ;;;
      if j - 1 =? arr then ret (inr (j - 1)) else ret (inl (j - 1))
    else ret (inr j)) j.

Definition insertion_sort (n arr : Z) : M (list Z) unit :=
  for_ (arr + 1) (arr + n) (fun i =>
    value <- rd i ;;
    j <- insertion_shift arr value i ;;
    wr j value).

(** [while ( *i++ < a);] and [while ( *(j-- - 2) > a);] *)
Definition scan_up (a i : Z) : M (list Z) Z :=
  loop fuel (fun i => x <- rd i ;; ret (if x <? a then inl (i + 1) else inr (i + 1))) i.

Definition scan_down (a j : Z) : M (list Z) Z :=
  loop fuel (fun j => x <- rd (j - 2) ;; ret (if a <? x then inl (j - 1) else inr (j - 1))) j.

(** The innermost loop: [i] and [j] where the pointers crossed. *)
Definition partition (a i j : Z) : M (list Z) (Z * Z) :=
  loop fuel (fun ij : Z * Z =>
    i <- scan_up a ij.1 ;;
    j <- scan_down a ij.2 ;;
    if j <? i then ret (inr (i, j))
    else SWAP (i - 1) (j - 1) ;;; ret (inl (i, j))) (i, j).

(** The locals of the outer loop. *)
Record frame := Frame { f_l : Z; f_ir : Z; f_stackp : Z; f_stack : list Z }.

Definition upd (l : list Z) (i v : Z) : option (list Z) :=
  if in_range l i then Some (setZ l i v) else None.

(** The large subarray is split: the bounds of the larger part are pushed. *)
Definition split (f : frame) : M (list Z) frame :=
  let '(Frame l ir stackp stack) := f in
  SWAP ((l + ir) / 2 - 1) l ;;;
  SWAP_IF_GREATER (l - 1) (ir - 1) ;;;
  SWAP_IF_GREATER l (ir - 1) ;;;
  SWAP_IF_GREATER (l - 1) l ;;;
  a <- rd l ;;
  ij <- partition a (l + 1) ir ;;
  let '(i, j) := ij in
  x <- rd (j - 1) ;;
  wr l x ;;;
  wr (j - 1) a ;;;
  let stackp := stackp + 2 in
  if j - l <=? ir - i + 1 then
    stack <- of_option (upd stack stackp ir) ;;
    stack <- of_option (upd stack (stackp - 1) i) ;;
    ret (Frame l (j - 1) stackp stack)
  else
    stack <- of_option (upd stack stackp (j - 1)) ;;
    stack <- of_option (upd stack (stackp - 1) l) ;;
    ret (Frame i ir stackp stack).

Definition sort_round (f : frame) : M (list Z) (frame + unit) :=
  let '(Frame l ir stackp stack) := f in
  if ir - l <? INSERTION_THRESHOLD then
    insertion_sort (ir - l + 1) (l - 1) ;;;
    if stackp =? 0 then ret (inr tt)
    else
      ir <- of_option (fetch stack stackp) ;;
      l <- of_option (fetch stack (stackp - 1)) ;;
      ret (inl (Frame l ir (stackp - 2) stack))
  else
    f <- split f ;; ret (inl f).

(** [stack] is the uninitialised array of the frame. *)
Definition sort (stack : list Z) (n : Z) : M (list Z) unit :=
  loop fuel sort_round (Frame 1 n 0 stack).

(** [main], on the two arrays [input_data] and [verify_data]; the answer 1 is
    that of the first check, the others are those of the last. *)
Definition qsort_main (read_csr : nat -> string -> Z) (stack : list Z) (DATA_SIZE : Z) :
    M (bench (list Z * list Z)) Z :=
  let on_input := zoom (fst : list Z * list Z -> list Z) (fun a d => (a, d.2)) in
  let on_verify := zoom (snd : list Z * list Z -> list Z) (fun a d => (d.1, a)) in
  on_data (on_verify (sort stack DATA_SIZE)) ;;;
  s <- get ;;
  first <- of_option (verify DATA_SIZE (data s).1 (data s).1) ;;
  if negb (first =? 0) then ret 1
  else
    measured read_csr (on_input (sort stack DATA_SIZE)) ;;;
    s <- get ;;
    of_option (verify DATA_SIZE (data s).1 (data s).2).
End Fuel.

(** [static void selection_sort], which nothing calls. *)
Definition selection_sort (n arr : Z) : M (list Z) unit :=
  for_ arr (arr + n - 1) (fun i =>
    for_ (i + 1) (arr + n) (fun j => SWAP_IF_GREATER i j)).

(** ** Exchanges *)

Definition swapped (l : list Z) (p q : Z) : list Z := setZ (setZ l p (getZ l q)) q (getZ l p).

Lemma wp_SWAP (Q : unit -> list Z -> Prop) l p q :
  0 <= p < lenZ l -> 0 <= q < lenZ l -> Q tt (swapped l p q) -> wp (SWAP p q) Q l.
Proof. intros. unfold SWAP. do 4 (wp_array; [done|]). done. Qed.

Lemma swapped_len l p q : lenZ (swapped l p q) = lenZ l.
Proof. unfold swapped. by rewrite !setZ_length. Qed.

Lemma getZ_swapped l p q k :
  0 <= p < lenZ l -> 0 <= q < lenZ l -> 0 <= k ->
  getZ (swapped l p q) k =
    if k =? q then getZ l p else if k =? p then getZ l q else getZ l k.
Proof.
  intros Hp Hq Hk. unfold swapped.
  destruct (Z.eqb_spec k q) as [->|]; [rewrite getZ_setZ; [done|rewrite setZ_length; lia]|].
  rewrite getZ_setZ_ne by lia.
  destruct (Z.eqb_spec k p) as [->|]; [by rewrite getZ_setZ|].
  by rewrite getZ_setZ_ne by lia.
Qed.

Lemma perm_within_swapped lo hi l p q :
  0 <= lo -> hi <= lenZ l -> lo <= p < hi -> lo <= q < hi ->
  perm_within lo hi l (swapped l p q).
Proof. apply perm_within_swap. Qed.

(** The pair is in order afterwards, the rest as it was. *)
Lemma wp_SWAP_IF_GREATER (Q : unit -> list Z -> Prop) l p q :
  0 <= p < lenZ l -> 0 <= q < lenZ l -> p <> q ->
  (forall k,
     (forall lo hi, 0 <= lo -> hi <= lenZ l -> lo <= p < hi -> lo <= q < hi ->
        perm_within lo hi l k) ->
     (forall m, 0 <= m -> m <> p -> m <> q -> getZ k m = getZ l m) ->
     getZ k p = Z.min (getZ l p) (getZ l q) ->
     getZ k q = Z.max (getZ l p) (getZ l q) -> Q tt k) ->
  wp (SWAP_IF_GREATER p q) Q l.
Proof.
  intros Hp Hq Hne HQ. unfold SWAP_IF_GREATER. do 2 (wp_array; [done|]).
  destruct (Z.ltb_spec (getZ l q) (getZ l p)).
  - apply wp_SWAP; [done..|].
    apply HQ; [intros; by apply perm_within_swapped| |
      rewrite getZ_swapped, ?Z.eqb_refl by lia; replace (p =? q) with false by lia; lia..].
    intros m Hm Hmp Hmq. rewrite getZ_swapped by lia.
    replace (m =? q) with false by lia. by replace (m =? p) with false by lia.
  - by apply wp_ret, HQ; [|done|lia..].
Qed.

(** ** Insertion sort *)

(** With [value] put at [j], the elements from [arr] to [i] are in order, but
    for those before [j] against [value]. *)
Definition inserting (arr i j value : Z) (l : list Z) : Prop :=
  (forall p q, arr <= p < q -> q <= i -> p <> j -> q <> j -> getZ l p <= getZ l q) /\
  (forall q, j < q <= i -> value <= getZ l q).

Lemma inserted_sorted arr i j value l :
  0 <= arr <= j -> j <= i < lenZ l -> inserting arr i j value l ->
  j = arr \/ getZ l (j - 1) <= value ->
  sorted arr (i + 1) (setZ l j value).
Proof.
  intros Harr Hj [Hin Hafter] Hbefore p q Hpq Hq.
  destruct (decide (p = q)) as [->|]; [done|].
  destruct (decide (p = j)) as [->|]; [|destruct (decide (q = j)) as [->|]].
  - rewrite getZ_setZ, getZ_setZ_ne by lia. apply Hafter. lia.
  - rewrite getZ_setZ_ne, getZ_setZ by lia. destruct Hbefore as [|Hb]; [lia|].
    destruct (decide (p = j - 1)) as [->|]; [done|].
    transitivity (getZ l (j - 1)); [|done]. apply Hin; lia.
  - rewrite !getZ_setZ_ne by lia. apply Hin; lia.
Qed.

(** One step to the left is an exchange of neighbours. *)
Lemma shift_swapped l j value :
  0 < j < lenZ l ->
  setZ (setZ l j (getZ l (j - 1))) (j - 1) value = swapped (setZ l j value) j (j - 1).
Proof.
  intros Hj. apply getZ_ext; [by rewrite swapped_len, !setZ_length|].
  intros k Hk. rewrite !setZ_length in Hk.
  rewrite getZ_swapped by (rewrite ?setZ_length; lia).
  destruct (Z.eqb_spec k (j - 1)) as [->|]; [by autorewrite with array|].
  rewrite (getZ_setZ_ne _ (j - 1)) by lia.
  destruct (Z.eqb_spec k j) as [->|]; by autorewrite with array.
Qed.

Lemma inserting_step arr i j value l :
  0 <= arr < j -> j <= i < lenZ l -> value < getZ l (j - 1) ->
  inserting arr i j value l -> inserting arr i (j - 1) value (setZ l j (getZ l (j - 1))).
Proof.
  intros Harr Hj Hlt [Hin Hafter]. split.
  - intros p q Hp Hq Hpj Hqj.
    destruct (decide (p = j)) as [->|]; [|destruct (decide (q = j)) as [->|]].
    + rewrite getZ_setZ, getZ_setZ_ne by lia. apply Hin; lia.
    + rewrite getZ_setZ, getZ_setZ_ne by lia. apply Hin; lia.
    + rewrite !getZ_setZ_ne by lia. apply Hin; lia.
  - intros q Hq. destruct (decide (q = j)) as [->|].
    + rewrite getZ_setZ; lia.
    + rewrite getZ_setZ_ne by lia. apply Hafter; lia.
Qed.

Lemma insertion_shift_ok fuel arr i value l :
  0 <= arr < i -> i < lenZ l -> (Z.to_nat i < fuel)%nat -> getZ l i = value ->
  sorted arr i l ->
  wp (insertion_shift fuel arr value i)
     (fun j l' => arr <= j <= i /\ perm_within arr (i + 1) l (setZ l' j value) /\
                  sorted arr (i + 1) (setZ l' j value) /\ lenZ l' = lenZ l) l.
Proof.
  intros Harr Hi Hfuel Hval Hsort. unfold insertion_shift.
  apply wp_loop with
    (I := fun j l' => arr < j <= i /\ lenZ l' = lenZ l /\
            perm_within arr (i + 1) l (setZ l' j value) /\ inserting arr i j value l')
    (m := fun j _ => Z.to_nat j); [|lia|].
  - rewrite <-Hval at 1. rewrite setZ_get. split_and!; [lia..|done|done|].
    split; [|lia]. intros p q Hp Hq Hpi Hqi. apply Hsort; lia.
  - clear Hsort Hfuel. intros j l' (Hj & Hlen & Hperm & Hin1 & Hin2).
    wp_array; [lia|]. destruct (Z.ltb_spec value (getZ l' (j - 1))) as [Hlt|Hge].
    + wp_array; [lia|].
      assert (inserting arr i (j - 1) value (setZ l' j (getZ l' (j - 1)))) as Hin
        by (apply inserting_step; done || lia).
      assert (perm_within arr (i + 1) l
                (setZ (setZ l' j (getZ l' (j - 1))) (j - 1) value)) as Hperm'.
      { rewrite shift_swapped by lia. etransitivity; [exact Hperm|].
        apply perm_within_swapped; rewrite ?setZ_length; lia. }
      destruct (Z.eqb_spec (j - 1) arr) as [Ej|Ej]; apply wp_ret; rewrite setZ_length.
      * split_and!; [lia..|done| |done].
        apply inserted_sorted; rewrite ?setZ_length; auto; lia.
      * split_and!; [lia|lia|done|done|done|lia].
    + apply wp_ret. split_and!; [lia..|done| |done].
      apply inserted_sorted; [lia..|done|by right].
Qed.

(** [insertion_sort] sorts its subarray and touches nothing else. *)
Lemma insertion_sort_ok fuel n arr l :
  0 <= arr -> 0 <= n -> arr + n <= lenZ l -> (Z.to_nat (arr + n) <= fuel)%nat ->
  wp (insertion_sort fuel n arr)
     (fun _ l' => perm_within arr (arr + n) l l' /\ sorted arr (arr + n) l') l.
Proof.
  intros Harr Hn Hlen Hfuel. unfold insertion_sort.
  destruct (decide (n = 0)) as [->|Hn0].
  { eapply wp_eq; [apply for_nil; lia|]. split; [done|]. intros i j. lia. }
  apply wp_for with (I := fun i l' => perm_within arr (arr + n) l l' /\ sorted arr i l').
  - lia.
  - split; [done|]. intros i j Hij Hj. by replace i with j by lia.
  - intros i l' Hi [Hperm Hsort]. pose proof (perm_within_len _ _ _ _ Hperm) as Hl'.
    wp_array; [lia|].
    wp_call ltac:(apply insertion_shift_ok; [lia|lia|lia|done|done]).
    intros j l'' (Hj & Hp & Hs & Hl''). apply wp_put; [lia|].
    split; [|done]. etransitivity; [exact Hperm|].
    eapply perm_within_weaken; [| |exact Hp]; lia.
  - intros l' [Hperm Hsort]. done.
Qed.

(** ** Partitioning *)

(** The scans stop at the latest on a sentinel at [k]. *)
Lemma scan_up_ok fuel a i k l :
  0 <= i <= k -> k < lenZ l -> a <= getZ l k -> (Z.to_nat (k - i) < fuel)%nat ->
  wp (scan_up fuel a i)
     (fun i' l' => l' = l /\ i < i' <= k + 1 /\ a <= getZ l (i' - 1) /\
                   forall p, i <= p < i' - 1 -> getZ l p < a) l.
Proof.
  intros Hi Hk Ha Hfuel. unfold scan_up.
  apply wp_loop with
    (I := fun i' l' => l' = l /\ i <= i' <= k /\ forall p, i <= p < i' -> getZ l p < a)
    (m := fun i' _ => Z.to_nat (k - i')); [split_and!; done || lia|done|].
  clear Hfuel. intros i' l' (-> & Hi' & Hbelow). wp_array; [lia|]. apply wp_ret.
  destruct (Z.ltb_spec (getZ l i') a) as [Hlt|Hge].
  - assert (i' <> k) by (intros ->; lia). split_and!; [done|lia|lia| |lia].
    intros p Hp. destruct (decide (p = i')) as [->|]; [done|]. apply Hbelow. lia.
  - replace (i' + 1 - 1) with i' by lia. split_and!; [done|lia|lia|done|done].
Qed.

Lemma scan_down_ok fuel a j k l :
  0 <= k <= j - 2 -> j - 2 < lenZ l -> getZ l k <= a -> (Z.to_nat (j - k) < fuel)%nat ->
  wp (scan_down fuel a j)
     (fun j' l' => l' = l /\ k + 1 <= j' < j /\ getZ l (j' - 1) <= a /\
                   forall p, j' - 1 < p <= j - 2 -> a < getZ l p) l.
Proof.
  intros Hj Hk Ha Hfuel. unfold scan_down.
  apply wp_loop with
    (I := fun j' l' => l' = l /\ k + 2 <= j' <= j /\
                       forall p, j' - 2 < p <= j - 2 -> a < getZ l p)
    (m := fun j' _ => Z.to_nat (j' - k)); [split_and!; done || lia|done|].
  clear Hfuel. intros j' l' (-> & Hj' & Habove). wp_array; [lia|]. apply wp_ret.
  destruct (Z.ltb_spec a (getZ l (j' - 2))) as [Hlt|Hge].
  - assert (j' - 2 <> k) by (intros <-; lia). split_and!; [done|lia|lia| |lia].
    intros p Hp. destruct (decide (p = j' - 2)) as [->|]; [done|]. apply Habove. lia.
  - replace (j' - 1 - 1) with (j' - 2) by lia. split_and!; [done|lia|lia|done|].
    intros p Hp. apply Habove. lia.
Qed.

(** The elements of a subarray on the two sides of [a]. *)
Definition below (lo hi a : Z) (l : list Z) : Prop := forall k, lo <= k < hi -> getZ l k <= a.
Definition above (lo hi a : Z) (l : list Z) : Prop := forall k, lo <= k < hi -> a <= getZ l k.

Lemma partition_ok fuel a l ir A :
  1 <= l -> l + 2 <= ir -> ir <= lenZ A -> (Z.to_nat ir < fuel)%nat ->
  getZ A (l - 1) <= a -> getZ A l = a -> a <= getZ A (ir - 1) ->
  wp (partition fuel a (l + 1) ir)
     (fun ij A' => let '(i, j) := ij in
        perm_within (l - 1) ir A A' /\ getZ A' l = a /\ l + 2 <= i <= ir /\
        l + 1 <= j < i /\ j < ir /\
        below (l - 1) (i - 1) a A' /\ above j ir a A' /\ getZ A' (j - 1) <= a) A.
Proof.
  intros Hl Hir Hlen Hfuel Hlo Hmid Hhi. unfold partition.
  apply wp_loop with
    (I := fun ij A' => let '(i, j) := ij in
       perm_within (l - 1) ir A A' /\ getZ A' l = a /\ l + 1 <= i <= j /\ l + 2 <= j <= ir /\
       (i < j \/ j < ir) /\ below (l - 1) i a A' /\ above (j - 1) ir a A')
    (m := fun ij _ => Z.to_nat (ij.2 - ij.1)); [|simpl; lia|].
  { split_and!; [done|done|lia|lia|lia|lia|lia| |].
    - intros k Hk. assert (k = l - 1 \/ k = l) as [-> | ->] by lia; lia.
    - intros k Hk. by replace k with (ir - 1) by lia. }
  intros [i j] A' (Hperm & Ha & Hi & Hj & Hij & Hbelow & Habove).
  pose proof (perm_within_len _ _ _ _ Hperm) as HA. cbn [fst snd].
  wp_call ltac:(apply (scan_up_ok _ _ _ (Z.max i (j - 1))); [lia|lia|apply Habove; lia|lia]).
  intros i' ? (-> & Hi' & Hat & Hup).
  assert (below (l - 1) (i' - 1) a A') as Hbelow'.
  { intros k Hk. destruct (decide (k < i)); [apply Hbelow; lia|].
    specialize (Hup k). lia. }
  wp_call ltac:(apply (scan_down_ok _ _ _ (Z.min (j - 2) (i' - 2)));
    [lia|lia|apply Hbelow'; lia|lia]).
  intros j' ? (-> & Hj' & Hat' & Hdown).
  assert (above j' ir a A') as Habove'.
  { intros k Hk. destruct (decide (j - 1 <= k)); [apply Habove; lia|].
    specialize (Hdown k). lia. }
  destruct (Z.ltb_spec j' i') as [Hcross|Hgo].
  { apply wp_ret. by split_and!; [|lia..| | |]. }
  wp_seq. apply wp_SWAP; [lia..|]. apply wp_ret. cbn [fst snd].
  split_and!; [|rewrite getZ_swapped by lia|lia..| | |lia].
  - etransitivity; [exact Hperm|]. apply perm_within_swapped; lia.
  - replace (l =? j' - 1) with false by lia. by replace (l =? i' - 1) with false by lia.
  - intros k Hk. rewrite getZ_swapped by lia.
    destruct (Z.eqb_spec k (j' - 1)) as [->|]; [replace (i' - 1) with (j' - 1) in * by lia; lia|].
    destruct (Z.eqb_spec k (i' - 1)) as [->|]; [lia|]. apply Hbelow'. lia.
  - intros k Hk. rewrite getZ_swapped by lia.
    destruct (Z.eqb_spec k (j' - 1)) as [->|]; [lia|].
    destruct (Z.eqb_spec k (i' - 1)) as [->|]; [lia|]. apply Habove'. lia.
Qed.

(** ** One split *)

(** Three elements in order around the pivot, by exchanges. *)
Lemma median_of_three {B} (m : M (list Z) B) (Q : B -> list Z -> Prop) l ir A :
  1 <= l -> l + 2 <= ir -> ir <= lenZ A ->
  (forall A', perm_within (l - 1) ir A A' ->
     getZ A' (l - 1) <= getZ A' l -> getZ A' l <= getZ A' (ir - 1) -> wp m Q A') ->
  wp (SWAP ((l + ir) / 2 - 1) l ;;;
      SWAP_IF_GREATER (l - 1) (ir - 1) ;;;
      SWAP_IF_GREATER l (ir - 1) ;;;
      SWAP_IF_GREATER (l - 1) l ;;; m) Q A.
Proof.
  intros Hl Hir Hlen HQ.
  assert (l <= (l + ir) / 2 <= ir) as Hm by divlia.
  wp_seq. apply wp_SWAP; [lia..|]. rename A into A0. set (A := swapped A0 _ _).
  assert (perm_within (l - 1) ir A0 A) as P0 by (apply perm_within_swapped; lia).
  pose proof (perm_within_len _ _ _ _ P0) as L0.
  wp_seq. apply wp_SWAP_IF_GREATER; [lia..|]. intros A1 P1 _ N1 M1.
  specialize (P1 (l - 1) ir). pose proof (perm_within_len _ _ _ _ (P1 ltac:(lia) ltac:(lia) ltac:(lia) ltac:(lia))) as L1.
  wp_seq. apply wp_SWAP_IF_GREATER; [lia..|]. intros A2 P2 E2 N2 M2.
  specialize (P2 (l - 1) ir). pose proof (perm_within_len _ _ _ _ (P2 ltac:(lia) ltac:(lia) ltac:(lia) ltac:(lia))) as L2.
  wp_seq. apply wp_SWAP_IF_GREATER; [lia..|]. intros A3 P3 E3 N3 M3.
  apply HQ; [|lia|].
  - transitivity A; [done|]. transitivity A1; [apply P1; lia|].
    transitivity A2; [apply P2; lia|]. apply P3; lia.
  - rewrite M3, (E3 (ir - 1)), N2, M2, (E2 (l - 1)) by lia. lia.
Qed.

(** A split puts the pivot in its place, the smaller elements on its left and
    the greater ones on its right; the larger side goes on the stack. *)
Lemma split_ok fuel l ir stackp stack A :
  1 <= l -> l + 10 <= ir -> ir <= lenZ A -> (Z.to_nat ir < fuel)%nat ->
  0 <= stackp -> stackp + 2 < lenZ stack ->
  wp (split fuel (Frame l ir stackp stack))
     (fun f A' => exists i j a,
        perm_within (l - 1) ir A A' /\ l + 2 <= i <= ir /\ l + 1 <= j < i /\
        below (l - 1) (i - 1) a A' /\ above (j - 1) ir a A' /\
        (j - l <= ir - i + 1 /\
         f = Frame l (j - 1) (stackp + 2) (setZ (setZ stack (stackp + 2) ir) (stackp + 1) i) \/
         ir - i + 1 < j - l /\
         f = Frame i ir (stackp + 2) (setZ (setZ stack (stackp + 2) (j - 1)) (stackp + 1) l))) A.
Proof.
  intros Hl Hir Hlen Hfuel Hsp Hstack. unfold split.
  apply median_of_three; [lia..|]. intros A1 P1 Hlo Hhi.
  pose proof (perm_within_len _ _ _ _ P1) as L1.
  wp_array; [lia|]. wp_call ltac:(apply partition_ok; [lia|lia|lia|lia|done|done|done]).
  intros [i j] A2 (P2 & Ha & Hi & Hj & Hjir & Hbelow & Habove & Hat).
  pose proof (perm_within_len _ _ _ _ P2) as L2.
  wp_array; [lia|]. wp_array; [lia|]. wp_array; [lia|].
  set (a := getZ A1 l) in *. rewrite <-Ha at 1. fold (swapped A2 l (j - 1)).
  assert (perm_within (l - 1) ir A (swapped A2 l (j - 1))) as P.
  { etransitivity; [exact P1|]. etransitivity; [exact P2|]. apply perm_within_swapped; lia. }
  assert (below (l - 1) (i - 1) a (swapped A2 l (j - 1))) as Hb.
  { intros k Hk. rewrite getZ_swapped by lia.
    destruct (Z.eqb_spec k (j - 1)); [lia|]. destruct (Z.eqb_spec k l); [lia|]. by apply Hbelow. }
  assert (above (j - 1) ir a (swapped A2 l (j - 1))) as Hab.
  { intros k Hk. rewrite getZ_swapped by lia.
    destruct (Z.eqb_spec k (j - 1)); [lia|]. destruct (Z.eqb_spec k l); [lia|]. apply Habove. lia. }
  generalize dependent (swapped A2 l (j - 1)). intros A3 P Hb Hab.
  unfold upd. replace (stackp + 2 - 1) with (stackp + 1) by lia.
  destruct (Z.leb_spec (j - l) (ir - i + 1)) as [Hle|Hgt];
    rewrite (in_range_true stack) by lia; (eapply wp_bind, wp_ret);
    rewrite in_range_true by (rewrite setZ_length; lia); (eapply wp_bind, wp_ret);
    apply wp_ret; exists i, j, a; split_and!; (done || lia || auto).
Qed.

(** ** Pending subarrays

    A subarray is a pair [(lo, hi)]; the outer loop keeps the array in order but
    inside the pending ones. *)

Definition seg : Type := Z * Z.
Definition in_seg (p : Z) (s : seg) : Prop := s.1 <= p < s.2.
Definition seg_ok (n : Z) (s : seg) : Prop := 0 <= s.1 <= s.2 /\ s.2 <= n.
Definition disjoint_segs (s t : seg) : Prop := s.2 <= t.1 \/ t.2 <= s.1.

Definition ordered_but (segs : list seg) (A : list Z) : Prop :=
  forall p q, 0 <= p < q -> q < lenZ A ->
    (exists s, s ∈ segs /\ in_seg p s /\ in_seg q s) \/ getZ A p <= getZ A q.

Lemma ordered_but_mono segs segs' A :
  segs ⊆ segs' -> ordered_but segs A -> ordered_but segs' A.
Proof.
  intros Hsub Ho p q Hp Hq. destruct (Ho p q Hp Hq) as [(s & Hs & ?)|]; [left|by right].
  exists s. split; [by apply Hsub|done].
Qed.

(** Permuting a pending subarray keeps the order of its elements with the rest. *)
Lemma ordered_outside cur segs A A' p q :
  seg_ok (lenZ A) cur -> Forall (disjoint_segs cur) segs ->
  ordered_but (cur :: segs) A -> perm_within cur.1 cur.2 A A' ->
  0 <= p < q -> q < lenZ A -> ~ (in_seg p cur /\ in_seg q cur) ->
  (exists s, s ∈ segs /\ in_seg p s /\ in_seg q s) \/ getZ A' p <= getZ A' q.
Proof.
  intros [Hcur Hcurn] Hdis Ho Hperm Hp Hq Hnot. rewrite Forall_forall in Hdis.
  assert (forall p q, 0 <= p < q -> q < lenZ A -> ~ (in_seg p cur /\ in_seg q cur) ->
            in_seg p cur \/ in_seg q cur -> getZ A p <= getZ A q) as Hone.
  { intros p' q' Hp' Hq' Hnot' Hin.
    destruct (Ho p' q' Hp' Hq') as [(s & Hs & Hps & Hqs)|]; [|done]. exfalso.
    apply elem_of_cons in Hs as [->|Hs]; [by apply Hnot'|].
    specialize (Hdis s Hs). unfold disjoint_segs, in_seg in *. lia. }
  pose proof (proj2 Hperm) as Hout. unfold in_seg in *.
  destruct (decide (cur.1 <= p < cur.2)) as [Hpc|Hpc];
    [|destruct (decide (cur.1 <= q < cur.2)) as [Hqc|Hqc]].
  - right. rewrite (Hout q) by lia.
    apply (perm_within_all (fun x => x <= getZ A q) _ _ _ _ (proj1 Hcur) Hcurn Hperm); [|done].
    intros i Hi. apply Hone; lia.
  - right. rewrite (Hout p) by lia.
    apply (perm_within_all (fun x => getZ A p <= x) _ _ _ _ (proj1 Hcur) Hcurn Hperm); [|done].
    intros i Hi. apply Hone; lia.
  - rewrite !Hout by lia. destruct (Ho p q Hp Hq) as [(s & Hs & Hps & Hqs)|]; [|by right].
    apply elem_of_cons in Hs as [->|Hs]; [unfold in_seg in *; lia|]. left. by exists s.
Qed.

Lemma ordered_sorted cur segs A A' :
  seg_ok (lenZ A) cur -> Forall (disjoint_segs cur) segs ->
  ordered_but (cur :: segs) A -> perm_within cur.1 cur.2 A A' -> sorted cur.1 cur.2 A' ->
  ordered_but segs A'.
Proof.
  intros Hok Hdis Ho Hperm Hsort p q Hp Hq.
  rewrite (perm_within_len _ _ _ _ Hperm) in Hq.
  destruct (decide (cur.1 <= p /\ q < cur.2)) as [[Hpc Hqc]|Hn].
  - right. apply Hsort; lia.
  - eapply ordered_outside; [done..|]. unfold in_seg. lia.
Qed.

Lemma ordered_split lo hi i j a segs A A' :
  seg_ok (lenZ A) (lo, hi) -> Forall (disjoint_segs (lo, hi)) segs ->
  ordered_but ((lo, hi) :: segs) A -> perm_within lo hi A A' ->
  below lo (i - 1) a A' -> above (j - 1) hi a A' ->
  ordered_but ((lo, j - 1) :: (i - 1, hi) :: segs) A'.
Proof.
  intros Hok Hdis Ho Hperm Hb Hab p q Hp Hq.
  rewrite (perm_within_len _ _ _ _ Hperm) in Hq.
  destruct (decide (lo <= p /\ q < hi)) as [[Hpc Hqc]|Hn].
  - destruct (decide (q < j - 1)); [left; exists (lo, j - 1)|].
    { split; [by left|]. unfold in_seg. simpl. lia. }
    destruct (decide (i - 1 <= p)); [left; exists (i - 1, hi)|].
    { split; [by right; left|]. unfold in_seg. simpl. lia. }
    right. transitivity a; [apply Hb|apply Hab]; lia.
  - destruct (ordered_outside (lo, hi) segs A A' p q) as [(s & Hs & ?)|];
      [done..|unfold in_seg; simpl; lia| |by right].
    left. exists s. split; [by right; right|done].
Qed.

Lemma ordered_nil A : ordered_but [] A -> sorted 0 (lenZ A) A.
Proof.
  intros Ho p q Hp Hq. destruct (decide (p = q)) as [->|]; [done|].
  destruct (Ho p q) as [(s & Hs & _)|]; [lia..| |done]. by apply not_elem_of_nil in Hs.
Qed.

(** ** The outer loop *)

(** The pending subarrays, top first, as [stack] holds them. *)
Fixpoint holds (stack : list Z) (segs : list seg) : Prop :=
  match segs with
  | [] => True
  | s :: segs =>
      getZ stack (2 * lenZ segs + 2) = s.2 /\ getZ stack (2 * lenZ segs + 1) = s.1 + 1 /\
      holds stack segs
  end.

(** A subarray with [d] others below it has at most [n / 2^d] elements. *)
Fixpoint halving (n : Z) (segs : list seg) : Prop :=
  match segs with
  | [] => True
  | s :: segs => (s.2 - s.1) * 2 ^ lenZ segs <= n /\ halving n segs
  end.

Definition weight (segs : list seg) : nat :=
  list_sum (map (fun s : seg => 2 * Z.to_nat (s.2 - s.1) + 1)%nat segs).

(** The state of the outer loop, [cur] being the current subarray. *)
Record pending (n : Z) (A0 : list Z) (cur : seg) (segs : list seg) (f : frame)
    (A : list Z) : Prop := {
  pending_frame : f_l f = cur.1 + 1 /\ f_ir f = cur.2 /\ f_stackp f = 2 * lenZ segs;
  pending_stack : lenZ (f_stack f) = NSTACK /\ 2 * lenZ segs < NSTACK /\ holds (f_stack f) segs;
  pending_perm : A ≡ₚ A0 /\ lenZ A = n;
  pending_ok : Forall (seg_ok n) (cur :: segs);
  pending_disjoint : ForallOrdPairs disjoint_segs (cur :: segs);
  pending_ordered : ordered_but (cur :: segs) A;
  pending_halving : halving n (cur :: segs);
}.

Lemma holds_set stack segs k v :
  2 * lenZ segs < k -> holds stack segs -> holds (setZ stack k v) segs.
Proof.
  induction segs as [|s segs IH]; [done|]. intros Hk (H1 & H2 & H3). simpl.
  assert (lenZ (s :: segs) = lenZ segs + 1) by (unfold lenZ; simpl; lia).
  pose proof (lenZ_nonneg segs).
  rewrite !getZ_setZ_ne by lia. split_and!; [done..|]. apply IH; [lia|done].
Qed.

Lemma holds_push stack segs s :
  2 * lenZ segs + 2 < lenZ stack -> holds stack segs ->
  holds (setZ (setZ stack (2 * lenZ segs + 2) s.2) (2 * lenZ segs + 1) (s.1 + 1)) (s :: segs).
Proof.
  intros Hlen Hh. pose proof (lenZ_nonneg segs). simpl.
  rewrite (getZ_setZ_ne _ _ (2 * lenZ segs + 2)) by lia.
  rewrite !getZ_setZ by (rewrite ?setZ_length; lia).
  split_and!; [done..|]. apply holds_set; [lia|]. apply holds_set; [lia|done].
Qed.

(** The stack is never full when a large subarray is split. *)
Lemma halving_depth n cur segs :
  n < 11 * 2 ^ 24 -> halving n (cur :: segs) -> 11 <= cur.2 - cur.1 -> lenZ segs <= 23.
Proof.
  intros Hn [Hh _] Hcur. apply Z.nlt_ge. intros Hd.
  assert (2 ^ 24 <= 2 ^ lenZ segs) by (apply Z.pow_le_mono_r; lia). nia.
Qed.

(** A split of [cur] into [big], pushed, and [small]. *)
Lemma pending_split n A0 cur big small segs f A A' stack :
  pending n A0 cur segs f A -> perm_within cur.1 cur.2 A A' ->
  ordered_but (small :: big :: segs) A' ->
  seg_ok n big -> seg_ok n small -> disjoint_segs small big ->
  cur.1 <= big.1 -> big.2 <= cur.2 -> cur.1 <= small.1 -> small.2 <= cur.2 ->
  small.2 - small.1 <= big.2 - big.1 ->
  big.2 - big.1 + (small.2 - small.1) < cur.2 - cur.1 ->
  lenZ stack = NSTACK -> 2 * lenZ segs + 2 < NSTACK -> holds stack (big :: segs) ->
  pending n A0 small (big :: segs)
    (Frame (small.1 + 1) small.2 (2 * lenZ segs + 2) stack) A' /\
  (weight (small :: big :: segs) < weight (cur :: segs))%nat.
Proof.
  intros [Hf _ [Hp Hn] Hok Hdis Ho [Hhc Hhalf]] Hperm Ho' Hbig Hsmall Hsb H1 H2 H3 H4 Hle Hsum
    Hstack Hroom Hholds.
  inversion Hok as [|? ? Hcur Hsegs]; subst. inversion Hdis as [|? ? Hd Hds]; subst.
  unfold seg_ok in *. split; [split|].
  - simpl. rewrite lenZ_cons. split_and!; lia.
  - rewrite lenZ_cons. split_and!; [done|lia|done].
  - split; [by rewrite <-Hp, (proj1 Hperm)|]. by apply (perm_within_len cur.1 cur.2).
  - constructor; [done|]. by constructor.
  - constructor; [constructor; [done|]|constructor; [|done]];
      (eapply Forall_impl; [exact Hd|]; intros s; unfold disjoint_segs; lia).
  - done.
  - cbn [halving] in *. rewrite lenZ_cons, Z.pow_add_r, Z.pow_1_r by (pose proof (lenZ_nonneg segs); lia).
    pose proof (Z.pow_nonneg 2 (lenZ segs)). split_and!; [nia|nia|done].
  - unfold weight. cbn [map list_sum foldr]. lia.
Qed.

(** [cur] is sorted, and the next subarray comes off the stack. *)
Lemma pending_pop n A0 cur s segs f A A' :
  pending n A0 cur (s :: segs) f A -> perm_within cur.1 cur.2 A A' -> sorted cur.1 cur.2 A' ->
  pending n A0 s segs (Frame (s.1 + 1) s.2 (2 * lenZ segs) (f_stack f)) A' /\
  (weight (s :: segs) < weight (cur :: s :: segs))%nat.
Proof.
  intros [Hf (Hs & Hroom & Hh) [Hp Hn] Hok Hdis Ho [Hhc Hhalf]] Hperm Hsort.
  inversion Hok as [|? ? Hcur Hsegs]; subst. inversion Hdis as [|? ? Hd Hds]; subst.
  split; [split|].
  - done.
  - rewrite lenZ_cons in Hroom. split_and!; [done|lia|apply Hh].
  - split; [by rewrite <-Hp, (proj1 Hperm)|]. by apply (perm_within_len cur.1 cur.2).
  - done.
  - done.
  - by eapply ordered_sorted.
  - done.
  - unfold weight. cbn [map list_sum foldr]. lia.
Qed.

Lemma sort_round_ok fuel n A0 cur segs f A :
  n < 11 * 2 ^ 24 -> (Z.to_nat n < fuel)%nat -> pending n A0 cur segs f A ->
  wp (sort_round fuel f)
     (fun r A' => match r with
                  | inl f' => exists cur' segs', pending n A0 cur' segs' f' A' /\
                                (weight (cur' :: segs') < weight (cur :: segs))%nat
                  | inr _ => A' ≡ₚ A0 /\ sorted 0 n A'
                  end) A.
Proof.
  intros Hn Hfuel Hpend. pose proof Hpend as [Hf (Hs & Hroom & Hh) [Hp Hlen] Hok Hdis Ho Hhalf].
  destruct f as [l ir stackp stack]. cbn [f_l f_ir f_stackp f_stack] in *.
  destruct Hf as (-> & -> & ->). inversion Hok as [|? ? [Hcur Hcurn] Hsegs]; subst.
  unfold sort_round, INSERTION_THRESHOLD. destruct (Z.ltb_spec (cur.2 - (cur.1 + 1)) 10).
  - replace (cur.2 - (cur.1 + 1) + 1) with (cur.2 - cur.1) by lia.
    replace (cur.1 + 1 - 1) with cur.1 by lia.
    wp_call ltac:(apply insertion_sort_ok; lia).
    replace (cur.1 + (cur.2 - cur.1)) with cur.2 by lia. intros [] A' [Hperm Hsort].
    destruct segs as [|s segs].
    + apply wp_ret. split; [by rewrite <-Hp, (proj1 Hperm)|].
      rewrite <-(perm_within_len _ _ _ _ Hperm). apply ordered_nil.
      eapply ordered_sorted; [done|by inversion Hdis|done..].
    + destruct (pending_pop _ _ _ _ _ _ _ _ Hpend Hperm Hsort) as [Hpop Hw].
      destruct Hh as (H2 & H1 & _). rewrite lenZ_cons in *.
      replace (2 * (lenZ segs + 1) =? 0) with false by (pose proof (lenZ_nonneg segs); lia).
      unfold NSTACK in *. pose proof (lenZ_nonneg segs).
      replace (2 * (lenZ segs + 1)) with (2 * lenZ segs + 2) by lia.
      replace (2 * lenZ segs + 2 - 1) with (2 * lenZ segs + 1) by lia.
      rewrite !fetch_Some by lia. rewrite H1, H2.
      do 2 (eapply wp_bind, wp_ret). apply wp_ret.
      replace (2 * lenZ segs + 2 - 2) with (2 * lenZ segs) by lia.
      by exists s, segs.
  - pose proof (lenZ_nonneg segs) as Hnn.
    assert (lenZ segs <= 23) as Hdepth by (eapply halving_depth; [exact Hn|exact Hhalf|lia]).
    unfold NSTACK in *.
    wp_call ltac:(apply split_ok; [lia|lia|lia|lia|lia|rewrite Hs; lia]).
    intros f' A' (i & j & a & Hperm & Hi & Hj & Hb & Hab & Hcase). apply wp_ret.
    replace (cur.1 + 1 - 1) with cur.1 in * by lia.
    assert (ordered_but ((cur.1, j - 1) :: (i - 1, cur.2) :: segs) A') as Ho'.
    { destruct cur as [lo hi]. simpl in *. eapply ordered_split; [done|by inversion Hdis|done..]. }
    assert (2 * lenZ segs + 2 < lenZ stack) as Hpush by (rewrite Hs; lia).
    destruct Hcase as [[Hle ->]|[Hlt ->]].
    + pose proof (holds_push stack segs (i - 1, cur.2) Hpush Hh) as Hholds.
      cbn [fst snd] in Hholds. replace (i - 1 + 1) with i in Hholds by lia.
      exists (cur.1, j - 1), ((i - 1, cur.2) :: segs).
      apply (pending_split _ A0 cur (i - 1, cur.2) (cur.1, j - 1) segs _ A A' _ Hpend Hperm Ho');
        unfold seg_ok, disjoint_segs, NSTACK; cbn [fst snd];
        (lia || exact Hholds || by rewrite !setZ_length).
    + pose proof (holds_push stack segs (cur.1, j - 1) Hpush Hh) as Hholds.
      cbn [fst snd] in Hholds.
      exists (i - 1, cur.2), ((cur.1, j - 1) :: segs).
      replace (Frame i cur.2) with (Frame (i - 1 + 1) cur.2) by (f_equal; lia).
      assert (ordered_but ((i - 1, cur.2) :: (cur.1, j - 1) :: segs) A') as Ho''.
      { eapply ordered_but_mono; [|exact Ho']. intros t. rewrite !elem_of_cons. tauto. }
      apply (pending_split _ A0 cur (cur.1, j - 1) (i - 1, cur.2) segs _ A A' _ Hpend Hperm Ho'');
        unfold seg_ok, disjoint_segs, NSTACK; cbn [fst snd];
        (lia || exact Hholds || by rewrite !setZ_length).
Qed.

(** ** sort *)

Lemma quick_sorts fuel stack n A :
  lenZ stack = NSTACK -> lenZ A = n -> n < 11 * 2 ^ 24 -> (2 * Z.to_nat n + 1 < fuel)%nat ->
  wp (sort fuel stack n) (fun _ A' => A' ≡ₚ A /\ sorted 0 n A') A.
Proof.
  intros Hs HA Hn Hfuel. pose proof (lenZ_nonneg A). unfold sort.
  apply wp_loop_indexed with (k := weight [(0, n)])
    (I := fun k f A' => exists cur segs, k = weight (cur :: segs) /\ pending n A cur segs f A').
  - exists (0, n), []. split; [done|]. split; [done| |done| | | |].
    + unfold NSTACK. split_and!; done.
    + constructor; [unfold seg_ok; simpl; lia|done].
    + by repeat constructor.
    + intros p q Hp Hq. left. exists (0, n). split; [by left|]. unfold in_seg. simpl. lia.
    + split; [|done]. change (2 ^ lenZ []) with 1. simpl. lia.
  - unfold weight. cbn [map list_sum foldr fst snd]. lia.
  - intros k f A' (cur & segs & -> & Hpend).
    eapply wp_mono; [apply (sort_round_ok fuel n A cur segs); [done|lia|done]|].
    intros [f'|[]] A''; [|done]. intros (cur' & segs' & Hp & Hw). eauto 10.
Qed.

(** ** main *)

(** C28: the quicksort benchmark ends, inside its arrays and its stack of 50
    pointers for any size below 11 * 2^24, whatever the stack held: the input is
    sorted and permuted, and the answer is 0 exactly if the reference data is a
    permutation of the input. *)
Theorem qsort_main_checks fuel read_csr stack n input_data verify_data h :
  lenZ stack = NSTACK -> n < 11 * 2 ^ 24 -> (2 * Z.to_nat n + 1 < fuel)%nat ->
  lenZ input_data = n -> lenZ verify_data = n -> fresh h ->
  wp (qsort_main fuel read_csr stack n)
     (fun r s => (r = 0 <-> verify_data ≡ₚ input_data) /\
                 (data s).1 ≡ₚ input_data /\ sorted 0 n (data s).1 /\
                 measures read_csr h (hpm s))
     (App (input_data, verify_data) h).
Proof.
  intros Hs Hn Hfuel Hin Hver [Hc Hnm]. unfold qsort_main.
  pose proof (lenZ_nonneg input_data).
  wp_seq. do 2 apply wp_zoom. eapply wp_mono; [by apply quick_sorts|].
  intros [] V [PV SV]. cbn [data fst snd hpm]. wp_seq. eapply wp_eq; [done|]. cbn [data fst].
  rewrite verify_match by lia. wp_seq. apply wp_ret. simpl negb. cbv iota.
  wp_seq. apply measured_ok; [done..|]. apply wp_zoom.
  eapply wp_mono; [by apply quick_sorts|].
  intros [] A [PA SA] h' Hm. cbn [fst snd]. wp_seq. eapply wp_eq; [done|]. cbn [data fst snd].
  assert (lenZ A = n /\ lenZ V = n) as [LA LV].
  { unfold lenZ in *. by rewrite (Permutation_length PA), (Permutation_length PV). }
  destruct (verify_sorted n A V) as (k & Hk & Hiff); [done..|].
  rewrite Hk. apply wp_ret. cbn [data fst hpm]. split_and!; [|done..]. by rewrite <-PV, <-PA.
Qed.

Lemma qsort_main_checks_witness :
  wp (qsort_main 30 (fun k _ => Z.of_nat (k * k)) (replicate 50 0) 12)
     (fun r s => (r = 0 <-> [1; 2; 3; 4; 5; 6; 7; 8; 9; 10; 11; 11] ≡ₚ
                            [11; 3; 5; 7; 1; 2; 11; 10; 9; 4; 6; 8]) /\
                 (data s).1 ≡ₚ [11; 3; 5; 7; 1; 2; 11; 10; 9; 4; 6; 8] /\
                 sorted 0 12 (data s).1 /\
                 measures (fun k _ => Z.of_nat (k * k)) reset_stats (hpm s))
     (App ([11; 3; 5; 7; 1; 2; 11; 10; 9; 4; 6; 8],
           [1; 2; 3; 4; 5; 6; 7; 8; 9; 10; 11; 11]) reset_stats).
Proof. apply qsort_main_checks; try done; lia. Defined.

(** It runs: the partition of twelve elements, by evaluation. *)
Example sort_runs :
  sort 30 (replicate 50 0) 12 [11; 3; 5; 7; 1; 2; 11; 10; 9; 4; 6; 8] =
  Ok (tt, [1; 2; 3; 4; 5; 6; 7; 8; 9; 10; 11; 11]).
Proof. vm_compute. reflexivity. Qed.
