(* ===== verification/Rsort.v ===== *)
(** * Radix sort (sw/app/rsort)

    Four passes over the bytes of the elements, from the least significant;
    each counts the bytes, turns the counts into end positions, and distributes
    the elements from the last to the first.  [arr] and [scratch] change places
    after every pass. *)

From Stdlib Require Import ZArith Lia String.
From stdpp Require Import base tactics list numbers sorting.
From S2P Require Import Prelude CArray Bench Sorting.

Definition LOG_BASE : Z := 8.
Definition BASE : Z := 256.

(** What [arr] and [scratch] point to, and the buckets. *)
Record rs := Rs { arr : list Z; scratch : list Z; bucket : list Z }.

Definition on_arr {A} : M (list Z) A -> M rs A :=
  zoom arr (fun a s => Rs a (scratch s) (bucket s)).
Definition on_scratch {A} : M (list Z) A -> M rs A :=
  zoom scratch (fun a s => Rs (arr s) a (bucket s)).
Definition on_bucket {A} : M (list Z) A -> M rs A :=
  zoom bucket (fun a s => Rs (arr s) (scratch s) a).

(** [(a >> log_exp) % BASE] *)
Definition digit (log_exp a : Z) : Z := Z.shiftr a log_exp mod BASE.

(** [(( *(ptr) += (inc)) - (inc))], of a [size_t] *)
Definition fetch_add (b inc : Z) : M rs Z :=
  old <- on_bucket (rd b) ;;
  on_bucket (wr b (u32 (old + inc))) ;;;
  ret (u32 (u32 (old + inc) - inc)).

Section Pass.
Context (fuel : nat) (n log_exp : Z).

Definition clear : M rs unit := for_ 0 BASE (fun b => on_bucket (wr b 0)).

(** [&arr[n-3]] points outside the array, unless there are three elements. *)
Definition count_quads (p : Z) : M rs Z :=
  if n <? 3 then undefined
  else loop fuel (fun p =>
    if p <? n - 3 then
      a0 <- on_arr (rd p) ;; a1 <- on_arr (rd (p + 1)) ;;
      a2 <- on_arr (rd (p + 2)) ;; a3 <- on_arr (rd (p + 3)) ;;
      fetch_add (digit log_exp a0) 1 ;;;
      fetch_add (digit log_exp a1) 1 ;;;
      fetch_add (digit log_exp a2) 1 ;;;
      fetch_add (digit log_exp a3) 1 ;;;
      ret (inl (p + 4))
    else ret (inr p)) p.

Definition count_rest (p : Z) : M rs unit :=
  loop fuel (fun p =>
    if p <? n then
      a <- on_arr (rd p) ;;
      c <- on_bucket (rd (digit log_exp a)) ;;
      on_bucket (wr (digit log_exp a) (u32 (c + 1))) ;;;
      ret (inl (p + 1))
    else ret (inr tt)) p.

Definition prefix_sums : M rs unit :=
  prev <- on_bucket (rd 0) ;;
  old <- fetch_add 1 prev ;;
  loop fuel (fun bp : Z * Z =>
    let '(b, prev) := bp in
    if b <? BASE then
      old0 <- fetch_add (b + 0) prev ;;
      let prev := u32 (prev + old0) in
      old1 <- fetch_add (b + 1) prev ;;
      let prev := u32 (prev + old1) in
      ret (inl (b + 2, prev))
    else ret (inr tt)) (2, u32 (prev + old)).

Definition distribute_quads (p : Z) : M rs Z :=
  loop fuel (fun p =>
    if 3 <=? p then
      a0 <- on_arr (rd (p - 0)) ;; a1 <- on_arr (rd (p - 1)) ;;
      a2 <- on_arr (rd (p - 2)) ;; a3 <- on_arr (rd (p - 3)) ;;
      s0 <- fetch_add (digit log_exp a0) (-1) ;;
      s1 <- fetch_add (digit log_exp a1) (-1) ;;
      s2 <- fetch_add (digit log_exp a2) (-1) ;;
      s3 <- fetch_add (digit log_exp a3) (-1) ;;
      on_scratch (wr (s0 - 1) a0) ;;;
      on_scratch (wr (s1 - 1) a1) ;;;
      on_scratch (wr (s2 - 1) a2) ;;;
      on_scratch (wr (s3 - 1) a3) ;;;
      ret (inl (p - 4))
    else ret (inr p)) p.

Definition distribute_rest (p : Z) : M rs unit :=
  loop fuel (fun p =>
    if 0 <=? p then
      a <- on_arr (rd p) ;;
      c <- on_bucket (rd (digit log_exp a)) ;;
      let c := u32 (c - 1) in
      on_bucket (wr (digit log_exp a) c) ;;;
      on_scratch (wr c a) ;;;
      ret (inl (p - 1))
    else ret (inr tt)) p.

Definition pass : M rs unit :=
  clear ;;;
  p <- count_quads 0 ;;
  count_rest p ;;;
  prefix_sums ;;;
  p <- distribute_quads (n - 1) ;;
  distribute_rest p ;;;
  modify (fun s => Rs (scratch s) (arr s) (bucket s)).
End Pass.

(** [exchanged] tells whether [arr] points to [scratchIn]; the last copy goes
    from what [scratch] points to. *)
Definition sort (fuel : nat) (n : Z) : M rs unit :=
  exchanged <- loop fuel (fun st : Z * bool =>
    let '(log_exp, exchanged) := st in
    if log_exp <? 32 then
      pass fuel n log_exp ;;;
      ret (inl (log_exp + LOG_BASE, negb exchanged))
    else ret (inr exchanged)) (0, false) ;;
  if exchanged : bool then
    modify (fun s => Rs (take (Z.to_nat n) (scratch s) ++ drop (Z.to_nat n) (arr s))
                        (scratch s) (bucket s)) ;;;
    modify (fun s => Rs (scratch s) (arr s) (bucket s))
  else ret tt.

(** [main], on [input_data], [verify_data] and [scratch]; [buckets] is the
    uninitialised array of the frame of [sort]. *)
Record arrays := Arrays { input_data : list Z; verify_data : list Z; scratch_data : list Z }.

Definition sort_input (fuel : nat) (buckets : list Z) (n : Z) : M arrays unit :=
  zoom (fun d => Rs (input_data d) (scratch_data d) buckets)
       (fun s d => Arrays (arr s) (verify_data d) (scratch s)) (sort fuel n).

Definition sort_verify (fuel : nat) (buckets : list Z) (n : Z) : M arrays unit :=
  zoom (fun d => Rs (verify_data d) (scratch_data d) buckets)
       (fun s d => Arrays (input_data d) (arr s) (scratch s)) (sort fuel n).

Definition rsort_main (fuel : nat) (read_csr : nat -> string -> Z) (buckets : list Z)
    (DATA_SIZE : Z) : M (bench arrays) Z :=
  on_data (sort_verify fuel buckets DATA_SIZE) ;;;
  s <- get ;;
  first <- of_option (verify DATA_SIZE (input_data (data s)) (input_data (data s))) ;;
  if negb (first =? 0) then ret 1
  else
    measured read_csr (sort_input fuel buckets DATA_SIZE) ;;;
    s <- get ;;
    of_option (verify DATA_SIZE (input_data (data s)) (verify_data (data s))).

(** ** Grouping by digit *)

Section Groups.
Context (dig : Z -> Z).

(** How many elements have the digit [d], and a digit up to [d]. *)
Definition cnt (d : Z) (L : list Z) : Z := lenZ (filter (fun x => dig x = d) L).
Definition upto (d : Z) (L : list Z) : Z := lenZ (filter (fun x => dig x <= d) L).

Fixpoint groups (D : nat) (L : list Z) : list Z :=
  match D with
  | O => []
  | S D => groups D L ++ filter (fun x => dig x = Z.of_nat D) L
  end.

Lemma cnt_cons d x L : cnt d (x :: L) = (if dig x =? d then 1 else 0) + cnt d L.
Proof.
  unfold cnt. rewrite filter_cons. destruct (Z.eqb_spec (dig x) d);
    case_decide; try done; rewrite ?lenZ_cons; lia.
Qed.

Lemma cnt_snoc d x L : cnt d (L ++ [x]) = cnt d L + (if dig x =? d then 1 else 0).
Proof.
  unfold cnt. rewrite filter_app, filter_cons, filter_nil. unfold lenZ. rewrite length_app.
  destruct (Z.eqb_spec (dig x) d); case_decide; try done; simpl; lia.
Qed.

Lemma cnt_nonneg d L : 0 <= cnt d L.
Proof. apply lenZ_nonneg. Qed.

Lemma upto_cons d x L : upto d (x :: L) = (if dig x <=? d then 1 else 0) + upto d L.
Proof.
  unfold upto. rewrite filter_cons. destruct (Z.leb_spec (dig x) d);
    case_decide; try lia; rewrite ?lenZ_cons; lia.
Qed.

Lemma upto_step d L : upto d L = upto (d - 1) L + cnt d L.
Proof.
  induction L as [|x L IH]; [done|]. rewrite !upto_cons, cnt_cons.
  destruct (Z.leb_spec (dig x) d), (Z.leb_spec (dig x) (d - 1)), (Z.eqb_spec (dig x) d); lia.
Qed.

Lemma upto_mono d e L : d <= e -> upto d L <= upto e L.
Proof.
  intros. induction L as [|x L IH]; [done|]. rewrite !upto_cons.
  destruct (Z.leb_spec (dig x) d), (Z.leb_spec (dig x) e); lia.
Qed.

Lemma upto_none d L : Forall (fun x => d < dig x) L -> upto d L = 0.
Proof.
  induction 1 as [|x L Hx HL IH]; [done|]. rewrite upto_cons, IH.
  by replace (dig x <=? d) with false by lia.
Qed.

Lemma upto_all d L : Forall (fun x => dig x <= d) L -> upto d L = lenZ L.
Proof.
  induction 1 as [|x L Hx HL IH]; [done|]. rewrite upto_cons, IH, lenZ_cons.
  replace (dig x <=? d) with true by lia. lia.
Qed.

Lemma cnt_app d L K : cnt d (L ++ K) = cnt d L + cnt d K.
Proof. unfold cnt, lenZ. rewrite filter_app, length_app. lia. Qed.

Lemma groups_length D L : lenZ (groups D L) = upto (Z.of_nat D - 1) L - upto (-1) L.
Proof.
  induction D as [|D IH]; simpl groups.
  - change (Z.of_nat 0 - 1) with (-1). change (lenZ (@nil Z)) with 0. lia.
  - unfold lenZ in *. rewrite length_app, Nat2Z.inj_add, IH.
    rewrite (upto_step (Z.of_nat (S D) - 1)).
    replace (Z.of_nat (S D) - 1) with (Z.of_nat D) by lia. unfold cnt, lenZ. lia.
Qed.

Lemma groups_digits D L x : x ∈ groups D L -> dig x < Z.of_nat D.
Proof.
  induction D as [|D IH]; simpl; [by intros ?%not_elem_of_nil|].
  rewrite elem_of_app, list_elem_of_filter. intros [?%IH|[? _]]; lia.
Qed.

(** The groups are a permutation of the list. *)
Lemma groups_filter D L :
  Forall (fun x => 0 <= dig x) L -> groups D L ≡ₚ filter (fun x => dig x < Z.of_nat D) L.
Proof.
  intros HL. induction D as [|D IH]; simpl.
  - induction HL as [|x L Hx HL IH]; [done|]. rewrite filter_cons.
    case_decide; [simpl in *; lia|]. apply IH.
  - rewrite IH. clear IH HL. induction L as [|x L IH]; [done|]. rewrite !filter_cons.
    repeat case_decide; try lia.
    + rewrite <-IH. done.
    + rewrite <-IH. by rewrite Permutation_middle.
    + done.
Qed.

Lemma groups_Permutation D L :
  Forall (fun x => 0 <= dig x < Z.of_nat D) L -> groups D L ≡ₚ L.
Proof.
  intros HL. rewrite groups_filter by (eapply Forall_impl; [exact HL|]; simpl; lia).
  induction HL as [|x L Hx HL IH]; [done|]. rewrite filter_cons. case_decide; [|lia].
  by rewrite IH.
Qed.

(** Grouping is stable: what was ordered by [R] is ordered by the digit, then by [R]. *)
Lemma groups_sorted (R : Z -> Z -> Prop) D L :
  StronglySorted R L ->
  StronglySorted (fun x y => dig x < dig y \/ (dig x = dig y /\ R x y)) (groups D L).
Proof.
  intros HL. induction D as [|D IH]; simpl; [constructor|].
  apply StronglySorted_app_2; [|done|].
  - intros x y Hx%groups_digits [Hy _]%list_elem_of_filter. left. lia.
  - clear IH. induction HL as [|x L HL IH Hx]; [constructor|]. rewrite filter_cons.
    case_decide as Hd; [|done]. constructor; [done|].
    apply Forall_forall. intros y [Hy Hin]%list_elem_of_filter.
    right. split; [lia|]. rewrite Forall_forall in Hx. by apply Hx.
Qed.
End Groups.

(** ** One pass *)

Section PassProof.
Context (fuel : nat) (n e : Z) (L : list Z).
Context (Hn : 3 <= n) (Hn32 : n < 4294967296) (HL : lenZ L = n) (Hfuel : (Z.to_nat n < fuel)%nat).

#[local] Abbreviation dig := (digit e).

Lemma digit_range x : 0 <= dig x < 256.
Proof. unfold digit, BASE. by apply Z.mod_pos_bound. Qed.

Lemma wp_on_arr (Q : Z -> rs -> Prop) S B p :
  0 <= p < n -> Q (getZ L p) (Rs L S B) -> wp (on_arr (rd p)) Q (Rs L S B).
Proof. intros Hp HQ. apply wp_zoom, wp_at; [simpl; lia|done]. Qed.

Lemma wp_rd_bucket (Q : Z -> rs -> Prop) S B b :
  0 <= b < lenZ B -> Q (getZ B b) (Rs L S B) -> wp (on_bucket (rd b)) Q (Rs L S B).
Proof. intros Hb HQ. apply wp_zoom, wp_at; done. Qed.

Lemma wp_wr_bucket (Q : unit -> rs -> Prop) S B b v :
  0 <= b < lenZ B -> Q tt (Rs L S (setZ B b v)) -> wp (on_bucket (wr b v)) Q (Rs L S B).
Proof. intros Hb HQ. apply wp_zoom, wp_put; done. Qed.

Lemma wp_wr_scratch (Q : unit -> rs -> Prop) S B b v :
  0 <= b < lenZ S -> Q tt (Rs L (setZ S b v) B) -> wp (on_scratch (wr b v)) Q (Rs L S B).
Proof. intros Hb HQ. apply wp_zoom, wp_put; done. Qed.

Lemma wp_fetch_add (Q : Z -> rs -> Prop) S B b inc :
  0 <= b < lenZ B -> 0 <= getZ B b < 4294967296 -> 0 <= getZ B b + inc < 4294967296 ->
  Q (getZ B b) (Rs L S (setZ B b (getZ B b + inc))) ->
  wp (fetch_add b inc) Q (Rs L S B).
Proof.
  intros Hb Hold Hnew HQ. unfold fetch_add.
  wp_seq. apply wp_rd_bucket; [done|]. wp_seq. apply wp_wr_bucket; [done|]. apply wp_ret.
  rewrite (u32_id (_ + _)) by done.
  replace (u32 (getZ B b + inc - inc)) with (getZ B b); [done|].
  replace (getZ B b + inc - inc) with (getZ B b) by lia. by rewrite u32_id.
Qed.

(** The first [p] elements are counted. *)
Definition counted (p : Z) (B : list Z) : Prop :=
  lenZ B = 256 /\ forall d, 0 <= d < 256 -> getZ B d = cnt dig d (take (Z.to_nat p) L).

Lemma counted_step p B :
  0 <= p < n -> counted p B ->
  0 <= dig (getZ L p) < lenZ B /\ 0 <= getZ B (dig (getZ L p)) < 4294967295 /\
  counted (p + 1) (setZ B (dig (getZ L p)) (getZ B (dig (getZ L p)) + 1)).
Proof.
  intros Hp [HB Hc]. pose proof (digit_range (getZ L p)) as Hd.
  split; [lia|]. split.
  - rewrite Hc by done. pose proof (cnt_nonneg dig (dig (getZ L p)) (take (Z.to_nat p) L)).
    assert (cnt dig (dig (getZ L p)) (take (Z.to_nat p) L) <= p); [|lia].
    unfold cnt, lenZ. etransitivity; [apply Nat2Z.inj_le, length_filter|].
    rewrite length_take. lia.
  - split; [by rewrite setZ_length|]. intros d Hd'. rewrite take_getZ, cnt_snoc by lia.
    rewrite <-Hc by done. destruct (Z.eqb_spec (dig (getZ L p)) d) as [<-|].
    + rewrite getZ_setZ by lia. done.
    + rewrite getZ_setZ_ne by lia. lia.
Qed.

(** One increment of the counting loops. *)
Lemma count_one (Q : Z -> rs -> Prop) S B p :
  0 <= p < n -> counted p B ->
  (forall old B', counted (p + 1) B' -> Q old (Rs L S B')) ->
  wp (fetch_add (dig (getZ L p)) 1) Q (Rs L S B).
Proof.
  intros Hp Hc HQ. destruct (counted_step p B Hp Hc) as (Hd & Hv & Hc').
  apply wp_fetch_add; [done|lia|lia|by apply HQ].
Qed.

Lemma count_quads_ok S B :
  counted 0 B ->
  wp (count_quads fuel n e 0)
     (fun p s => exists B', s = Rs L S B' /\ counted p B' /\ 0 <= p <= n) (Rs L S B).
Proof.
  intros HB. unfold count_quads. replace (n <? 3) with false by lia.
  apply wp_loop with (I := fun p s => exists B', s = Rs L S B' /\ counted p B' /\ 0 <= p <= n)
    (m := fun p _ => Z.to_nat (n - p)); [exists B; split_and!; done || lia|lia|].
  intros p s (B' & -> & Hc & Hp). destruct (Z.ltb_spec p (n - 3)) as [Hlt|].
  2: { apply wp_ret. by exists B'. }
  do 4 (wp_seq; apply wp_on_arr; [lia|]).
  wp_seq. apply (count_one _ _ _ p); [lia|done|]. intros _ B1 H1.
  wp_seq. apply (count_one _ _ _ (p + 1)); [lia|done|]. intros _ B2 H2.
  replace (p + 1 + 1) with (p + 2) in H2 by lia.
  wp_seq. apply (count_one _ _ _ (p + 2)); [lia|done|]. intros _ B3 H3.
  replace (p + 2 + 1) with (p + 3) in H3 by lia.
  wp_seq. apply (count_one _ _ _ (p + 3)); [lia|done|]. intros _ B4 H4.
  replace (p + 3 + 1) with (p + 4) in H4 by lia.
  apply wp_ret. split; [|lia]. exists B4. split_and!; [done|done|lia|lia].
Qed.

Lemma count_rest_ok S B p :
  counted p B -> 0 <= p <= n ->
  wp (count_rest fuel n e p)
     (fun _ s => exists B', s = Rs L S B' /\ counted n B') (Rs L S B).
Proof.
  intros HB Hp0. unfold count_rest.
  apply wp_loop with (I := fun p s => exists B', s = Rs L S B' /\ counted p B' /\ 0 <= p <= n)
    (m := fun p _ => Z.to_nat (n - p)); [exists B; split_and!; done || lia|lia|].
  clear p HB Hp0. intros p s (B' & -> & Hc & Hp). destruct (Z.ltb_spec p n) as [Hlt|].
  2: { apply wp_ret. exists B'. by replace n with p by lia. }
  destruct (counted_step p B') as (Hd & Hv & Hc'); [lia|done|].
  wp_seq. apply wp_on_arr; [lia|]. wp_seq. apply wp_rd_bucket; [done|].
  wp_seq. apply wp_wr_bucket; [done|]. rewrite u32_id by lia. apply wp_ret.
  split; [|lia]. exists (setZ B' (dig (getZ L p)) (getZ B' (dig (getZ L p)) + 1)).
  split_and!; [done|done|lia|lia].
Qed.

Lemma digits_range : Forall (fun x => 0 <= dig x < Z.of_nat 256) L.
Proof. apply Forall_forall. intros x _. pose proof (digit_range x) as H. clear -H. lia. Qed.

Lemma upto_minus1 : upto dig (-1) L = 0.
Proof.
  apply upto_none. eapply Forall_impl; [exact digits_range|]. simpl. lia.
Qed.

Lemma upto_bound d : 0 <= upto dig d L <= n.
Proof.
  unfold upto, lenZ in *. split; [lia|]. rewrite <-HL. apply Nat2Z.inj_le, length_filter.
Qed.

(** The buckets below [b] hold the number of elements up to their digit. *)
Definition summed (b : Z) (B : list Z) : Prop :=
  lenZ B = 256 /\ forall d, 0 <= d < 256 ->
    getZ B d = if d <? b then upto dig d L else cnt dig d L.

Lemma summed_step (Q : Z -> rs -> Prop) S B b :
  0 < b < 256 -> summed b B ->
  (forall B', summed (b + 1) B' -> Q (cnt dig b L) (Rs L S B')) ->
  wp (fetch_add b (upto dig (b - 1) L)) Q (Rs L S B).
Proof.
  intros Hb [HB Hs] HQ.
  assert (getZ B b = cnt dig b L) as Hold by (rewrite Hs by lia; by replace (b <? b) with false by lia).
  pose proof (upto_step dig b L) as Hstep. pose proof (upto_bound b). pose proof (upto_bound (b - 1)).
  pose proof (cnt_nonneg dig b L).
  apply wp_fetch_add; rewrite ?Hold; [lia..|]. apply HQ. split; [by rewrite setZ_length|].
  intros d Hd. destruct (decide (d = b)) as [->|].
  - rewrite getZ_setZ by lia. replace (b <? b + 1) with true by lia. lia.
  - rewrite getZ_setZ_ne, Hs by lia.
    destruct (Z.ltb_spec d b), (Z.ltb_spec d (b + 1)); done || lia.
Qed.

Lemma prefix_sums_ok S B :
  (256 <= fuel)%nat -> counted n B ->
  wp (prefix_sums fuel) (fun _ s => exists B', s = Rs L S B' /\ summed 256 B') (Rs L S B).
Proof.
  intros Hf [HB Hc]. rewrite take_ge in Hc by (unfold lenZ in HL; lia).
  assert (summed 1 B) as Hs.
  { split; [done|]. intros d Hd. rewrite Hc by done.
    destruct (Z.ltb_spec d 1); [|done]. replace d with 0 by lia.
    rewrite (upto_step dig 0). change (0 - 1) with (-1). rewrite upto_minus1. lia. }
  assert (getZ B 0 = upto dig 0 L) as E0 by (rewrite (proj2 Hs) by lia; done).
  unfold prefix_sums. wp_seq. apply wp_rd_bucket; [lia|]. rewrite E0.
  wp_seq. apply (summed_step _ _ _ 1); [lia|done|]. intros B1 Hs1.
  assert (forall b, 0 < b -> u32 (upto dig (b - 1) L + cnt dig b L) = upto dig b L) as Hadd.
  { intros b Hb. rewrite <-upto_step. apply u32_id. pose proof (upto_bound b). lia. }
  change (upto dig 0 L) with (upto dig (1 - 1) L). rewrite Hadd by lia.
  apply wp_loop with
    (I := fun bp s => exists B', s = Rs L S B' /\ summed bp.1 B' /\ 2 <= bp.1 <= 256 /\
            Z.even bp.1 = true /\ bp.2 = upto dig (bp.1 - 1) L)
    (m := fun bp _ => Z.to_nat (256 - bp.1)); [by exists B1|simpl; lia|].
  intros [b prev] s (B' & -> & Hb & Hr & Hev & Hprev). cbn [fst snd] in *. subst prev. unfold BASE.
  destruct (Z.ltb_spec b 256).
  2: { apply wp_ret. exists B'. by replace b with 256 in Hb by lia. }
  assert (b <> 255) by (intros ->; done).
  rewrite Z.add_0_r. wp_seq. apply summed_step; [lia|done|]. intros B2 Hs2.
  rewrite Hadd by lia. wp_seq.
  replace b with (b + 1 - 1) at 2 by lia. apply summed_step; [lia|done|]. intros B3 Hs3.
  replace (upto dig b L) with (upto dig (b + 1 - 1) L) by (f_equal; lia).
  rewrite Hadd by lia. apply wp_ret. cbn [fst snd]. split; [|lia]. exists B3.
  replace (b + 2) with (b + 1 + 1) by lia. split_and!; [done|done|lia|lia| |f_equal; lia].
  by rewrite <-Z.add_assoc, Z.even_add, Hev.
Qed.

(** The elements after position [p] are in their places: those of digit [d] from
    where bucket [d] points, in their order. *)
Definition placed (p : Z) (S B : list Z) : Prop :=
  lenZ B = 256 /\ lenZ S = n /\
  forall d, 0 <= d < 256 ->
    let todo := filter (fun x => dig x = d) (drop (Z.to_nat (p + 1)) L) in
    getZ B d = upto dig d L - lenZ todo /\
    forall k, 0 <= k < lenZ todo -> getZ S (getZ B d + k) = getZ todo k.

(** Where the next element goes: below the end of its group, above its start. *)
Lemma placed_room p S B :
  0 <= p < n -> placed p S B ->
  let d := dig (getZ L p) in
  upto dig (d - 1) L < getZ B d <= upto dig d L.
Proof.
  intros Hp (HB & HS & Hpl). cbv zeta. set (d := dig (getZ L p)).
  pose proof (digit_range (getZ L p)) as Hd. fold d in Hd.
  destruct (Hpl d Hd) as [Hb _]. fold (cnt dig d (drop (Z.to_nat (p + 1)) L)) in Hb.
  pose proof (upto_step dig d L) as Hs.
  assert (cnt dig d L = cnt dig d (take (Z.to_nat p) L) + cnt dig d (drop (Z.to_nat p) L)) as Hc.
  { by rewrite <-cnt_app, take_drop. }
  rewrite drop_getZ, cnt_cons in Hc by lia. fold d in Hc. rewrite Z.eqb_refl in Hc.
  pose proof (cnt_nonneg dig d (take (Z.to_nat p) L)).
  pose proof (cnt_nonneg dig d (drop (Z.to_nat (p + 1)) L)). lia.
Qed.

Lemma placed_step p S B :
  0 <= p < n -> placed p S B ->
  let x := getZ L p in let c := getZ B (dig x) - 1 in
  placed (p - 1) (setZ S c x) (setZ B (dig x) c).
Proof.
  intros Hp Hpl. cbv zeta. set (x := getZ L p). set (c := getZ B (dig x) - 1).
  destruct (placed_room p S B Hp Hpl) as [Hlo Hhi]. fold x in Hlo, Hhi.
  destruct Hpl as (HB & HS & Hpl). pose proof (digit_range x) as Hx.
  pose proof (upto_bound (dig x)). pose proof (upto_bound (dig x - 1)).
  unfold placed. rewrite !setZ_length. split_and!; [done..|]. intros d Hd.
  destruct (Hpl d Hd) as [Hb Hk]. cbv zeta in *.
  replace (p - 1 + 1) with p by lia. rewrite (drop_getZ L p) by lia. fold x.
  set (todo := filter (fun y => dig y = d) (drop (Z.to_nat (p + 1)) L)) in *.
  rewrite filter_cons. fold todo. destruct (decide (dig x = d)) as [Ed|Ed].
  - subst d. rewrite getZ_setZ by lia. rewrite lenZ_cons. split; [lia|].
    intros k Hk'. destruct (decide (k = 0)) as [->|].
    + rewrite Z.add_0_r. rewrite getZ_setZ by lia. done.
    + rewrite getZ_setZ_ne by lia. change (x :: todo) with ([x] ++ todo).
      rewrite getZ_app_r by (unfold lenZ; simpl; lia).
      change (lenZ [x]) with 1. rewrite <-Hk by lia. f_equal. lia.
  - rewrite getZ_setZ_ne by lia. split; [done|]. intros k Hk'. rewrite <-Hk by done.
    pose proof (upto_step dig d L). pose proof (upto_bound (d - 1)).
    assert (cnt dig d L = cnt dig d (take (Z.to_nat (p + 1)) L) + lenZ todo) as Hc.
    { unfold todo. fold (cnt dig d (drop (Z.to_nat (p + 1)) L)). by rewrite <-cnt_app, take_drop. }
    pose proof (cnt_nonneg dig d (take (Z.to_nat (p + 1)) L)).
    apply getZ_setZ_ne; [lia|lia|].
    destruct (decide (d < dig x)).
    + pose proof (upto_mono dig d (dig x - 1) L). lia.
    + pose proof (upto_mono dig (dig x) (d - 1) L). lia.
Qed.

Lemma placed_init S B : lenZ S = n -> summed 256 B -> placed (n - 1) S B.
Proof.
  intros HS [HB Hs]. split_and!; [done..|]. intros d Hd.
  rewrite drop_ge by (unfold lenZ in HL; lia). rewrite filter_nil. cbv zeta.
  rewrite Hs by done. replace (d <? 256) with true by lia.
  split; [unfold lenZ; simpl; lia|]. intros k Hk. unfold lenZ in Hk. simpl in Hk. lia.
Qed.

(** When all are placed, the array is grouped. *)
Lemma placed_groups S B : placed (-1) S B -> S = groups dig 256 L.
Proof.
  intros (HB & HS & Hpl). change (Z.to_nat (-1 + 1)) with O in Hpl. rewrite drop_0 in Hpl.
  assert (forall D, (D <= 256)%nat -> forall i, 0 <= i < upto dig (Z.of_nat D - 1) L ->
            getZ S i = getZ (groups dig D L) i) as Hall.
  { induction D as [|D IH]; intros HD i Hi.
    { change (Z.of_nat 0 - 1) with (-1) in Hi. rewrite upto_minus1 in Hi. lia. }
    replace (Z.of_nat (Datatypes.S D) - 1) with (Z.of_nat D) in Hi by lia.
    simpl groups. pose proof (groups_length dig D L) as Hg. rewrite upto_minus1, Z.sub_0_r in Hg.
    destruct (decide (i < upto dig (Z.of_nat D - 1) L)).
    - rewrite getZ_app_l by lia. apply IH; lia.
    - rewrite getZ_app_r by lia. destruct (Hpl (Z.of_nat D)) as [Hb Hk]; [lia|].
      cbv zeta in *. rewrite <-Hk by (rewrite (upto_step dig (Z.of_nat D)) in Hi; unfold cnt in Hi; lia).
      f_equal. rewrite Hb, Hg. rewrite (upto_step dig (Z.of_nat D)). unfold cnt. lia. }
  assert (upto dig 255 L = n) as Hfull.
  { rewrite <-HL. apply upto_all. eapply Forall_impl; [exact digits_range|]. simpl. lia. }
  assert (lenZ (groups dig 256 L) = n) as Hlen.
  { rewrite groups_length, upto_minus1. change (Z.of_nat 256 - 1) with 255. lia. }
  apply getZ_ext; [lia|]. intros i Hi. apply Hall; [lia|].
  change (Z.of_nat 256 - 1) with 255. lia.
Qed.

(** Taking a place, in the loop by four: the bucket first. *)
Lemma distribute_one (Q : Z -> rs -> Prop) S0 S B p :
  0 <= p < n -> placed p S B ->
  (1 <= getZ B (dig (getZ L p)) <= n ->
   Q (getZ B (dig (getZ L p)))
     (Rs L S0 (setZ B (dig (getZ L p)) (getZ B (dig (getZ L p)) - 1)))) ->
  wp (fetch_add (dig (getZ L p)) (-1)) Q (Rs L S0 B).
Proof.
  intros Hp Hpl HQ. destruct (placed_room p S B Hp Hpl) as [Hlo Hhi].
  destruct Hpl as (HB & _). pose proof (digit_range (getZ L p)).
  pose proof (upto_bound (dig (getZ L p))). pose proof (upto_bound (dig (getZ L p) - 1)).
  apply wp_fetch_add; [lia..|]. apply HQ. lia.
Qed.

Lemma distribute_quads_ok S B :
  placed (n - 1) S B ->
  wp (distribute_quads fuel e (n - 1))
     (fun p s => exists S' B', s = Rs L S' B' /\ placed p S' B' /\ -1 <= p < n) (Rs L S B).
Proof.
  intros HB. unfold distribute_quads.
  apply wp_loop with
    (I := fun p s => exists S' B', s = Rs L S' B' /\ placed p S' B' /\ -1 <= p < n)
    (m := fun p _ => Z.to_nat (p + 1)); [exists S, B; split_and!; done || lia|lia|].
  intros p s (S0 & B0 & -> & H0 & Hp). destruct (Z.leb_spec 3 p) as [Hle|].
  2: { apply wp_ret. by exists S0, B0. }
  rewrite Z.sub_0_r. do 4 (wp_seq; apply wp_on_arr; [lia|]).
  pose proof (proj1 (proj2 H0)) as HS.
  wp_seq. apply (distribute_one _ _ S0); [lia|done|]. intros R0.
  apply placed_step in H0; [|lia]. cbv zeta in H0.
  wp_seq. eapply (distribute_one _ _ _ _ (p - 1)); [lia|exact H0|]. intros R1.
  apply placed_step in H0; [|lia]. cbv zeta in H0. replace (p - 1 - 1) with (p - 2) in H0 by lia.
  wp_seq. eapply (distribute_one _ _ _ _ (p - 2)); [lia|exact H0|]. intros R2.
  apply placed_step in H0; [|lia]. cbv zeta in H0. replace (p - 2 - 1) with (p - 3) in H0 by lia.
  wp_seq. eapply (distribute_one _ _ _ _ (p - 3)); [lia|exact H0|]. intros R3.
  apply placed_step in H0; [|lia]. cbv zeta in H0. replace (p - 3 - 1) with (p - 4) in H0 by lia.
  do 4 (wp_seq; apply wp_wr_scratch; [rewrite ?setZ_length; lia|]).
  apply wp_ret. split; [|lia]. eexists _, _. split; [reflexivity|]. split; [exact H0|lia].
Qed.

Lemma distribute_rest_ok S B p :
  placed p S B -> -1 <= p < n ->
  wp (distribute_rest fuel e p)
     (fun _ s => exists S' B', s = Rs L S' B' /\ placed (-1) S' B') (Rs L S B).
Proof.
  intros HB Hp0. unfold distribute_rest.
  apply wp_loop with
    (I := fun p s => exists S' B', s = Rs L S' B' /\ placed p S' B' /\ -1 <= p < n)
    (m := fun p _ => Z.to_nat (p + 1)); [exists S, B; split_and!; done || lia|lia|].
  clear p HB Hp0. intros p s (S0 & B0 & -> & H0 & Hp). destruct (Z.leb_spec 0 p) as [Hle|].
  2: { apply wp_ret. exists S0, B0. by replace (-1) with p by lia. }
  destruct (placed_room p S0 B0) as [Hlo Hhi]; [lia|done|].
  pose proof (digit_range (getZ L p)). pose proof (upto_bound (dig (getZ L p))).
  pose proof (upto_bound (dig (getZ L p) - 1)). destruct (H0) as (HB0 & HS0 & _).
  wp_seq. apply wp_on_arr; [lia|]. wp_seq. apply wp_rd_bucket; [lia|].
  rewrite u32_id by lia. wp_seq. apply wp_wr_bucket; [lia|]. wp_seq. apply wp_wr_scratch; [lia|].
  apply wp_ret. split; [|lia]. eexists _, _. split; [reflexivity|].
  split; [apply placed_step; [lia|done]|lia].
Qed.

Lemma clear_ok S B :
  lenZ B = 256 -> wp clear (fun _ s => exists B', s = Rs L S B' /\ counted 0 B') (Rs L S B).
Proof.
  intros HB. unfold clear, BASE.
  apply wp_for with (I := fun b s => exists B', s = Rs L S B' /\ lenZ B' = 256 /\
                                       forall d, 0 <= d < b -> getZ B' d = 0).
  - lia.
  - exists B. split_and!; [done..|lia].
  - intros b s Hb (B' & -> & HB' & Hz). apply wp_wr_bucket; [lia|].
    exists (setZ B' b 0). rewrite setZ_length. split_and!; [done..|]. intros d Hd.
    destruct (decide (d = b)) as [->|]; [apply getZ_setZ; lia|].
    rewrite getZ_setZ_ne by lia. apply Hz. lia.
  - intros s (B' & -> & HB' & Hz). exists B'. do 2 (split; [done|]). intros d Hd. by rewrite Hz.
Qed.

(** A pass groups the elements by their digit, and exchanges the arrays. *)
Lemma pass_ok S B :
  (256 <= fuel)%nat -> lenZ S = n -> lenZ B = 256 ->
  wp (pass fuel n e)
     (fun _ s => exists B', s = Rs (groups dig 256 L) L B' /\ lenZ B' = 256) (Rs L S B).
Proof.
  intros Hf HS HB. unfold pass.
  wp_call ltac:(by apply clear_ok). intros [] s (B1 & -> & H1).
  wp_call ltac:(by apply count_quads_ok). intros p s (B2 & -> & H2 & Hp).
  wp_call ltac:(by apply count_rest_ok). intros [] s (B3 & -> & H3).
  wp_call ltac:(by apply prefix_sums_ok). intros [] s (B4 & -> & H4).
  wp_call ltac:(by apply distribute_quads_ok, placed_init). intros q s (S5 & B5 & -> & H5 & Hq).
  wp_call ltac:(by apply distribute_rest_ok). intros [] s (S6 & B6 & -> & H6).
  eapply wp_eq; [done|]. cbn. exists B6. split; [|apply H6]. by rewrite (placed_groups S6 B6).
Qed.
End PassProof.

(** ** The four passes *)

Definition unsigned (x : Z) : Prop := 0 <= x < 4294967296.

Definition low_le (e x y : Z) : Prop := x mod 2 ^ e <= y mod 2 ^ e.

(** Sorted by the low [e] bits, then grouped by the next eight: sorted by [e+8]. *)
Lemma radix_step e L :
  0 <= e -> StronglySorted (low_le e) L ->
  StronglySorted (low_le (e + 8)) (groups (digit e) 256 L).
Proof.
  intros He HL. eapply StronglySorted_weaken; [|by apply groups_sorted].
  intros x y Hxy. unfold low_le, digit, BASE in *.
  rewrite !Z.shiftr_div_pow2 in Hxy by done. rewrite Z.pow_add_r by lia.
  assert (0 < 2 ^ e) by (apply Z.pow_pos_nonneg; lia).
  rewrite !Z.rem_mul_r by (change (2 ^ 8) with 256; lia). change (2 ^ 8) with 256.
  pose proof (Z.mod_pos_bound x (2 ^ e)). pose proof (Z.mod_pos_bound y (2 ^ e)).
  destruct Hxy as [Hlt|[-> Hle]]; [|lia]. nia.
Qed.

Lemma sorted_low L :
  Forall unsigned L -> StronglySorted (low_le 32) L -> sorted 0 (lenZ L) L.
Proof.
  intros HL HS. apply StronglySorted_sorted.
  induction HS as [|x L HS IH Hx]; inversion HL as [|? ? Hux HuL]; subst; constructor; [by apply IH|].
  apply Forall_forall. intros y Hy. rewrite Forall_forall in Hx, HuL.
  specialize (Hx y Hy). specialize (HuL y Hy). unfold low_le, unsigned in *.
  change (2 ^ 32) with 4294967296 in Hx. rewrite !Z.mod_small in Hx by lia. done.
Qed.

Lemma radix_sorts fuel n A S B :
  3 <= n -> n < 4294967296 -> (Z.to_nat n < fuel)%nat -> (256 <= fuel)%nat ->
  lenZ A = n -> lenZ S = n -> lenZ B = 256 -> Forall unsigned A ->
  wp (sort fuel n)
     (fun _ s => arr s ≡ₚ A /\ sorted 0 n (arr s) /\ lenZ (scratch s) = n) (Rs A S B).
Proof.
  intros Hn Hn32 Hf Hf' HA HS HB HU. unfold sort.
  wp_seq. apply wp_loop with
    (I := fun st s => exists L S' B' k, s = Rs L S' B' /\ st = (8 * k, Z.odd k) /\ 0 <= k <= 4 /\
       L ≡ₚ A /\ lenZ S' = n /\ lenZ B' = 256 /\ StronglySorted (low_le (8 * k)) L)
    (m := fun st _ => Z.to_nat (32 - st.1)); [|simpl; lia|].
  - exists A, S, B, 0. split_and!; [done|done|lia|lia|done|done|done|].
    clear. induction A as [|x A IH]; constructor; [done|]. apply Forall_forall.
    intros y _. unfold low_le. by rewrite !Z.mod_1_r.
  - intros st s (L & S' & B' & k & -> & -> & Hk & HP & HS' & HB' & Hsort).
    assert (lenZ L = n) as HL by (unfold lenZ in *; by rewrite (Permutation_length HP)).
    destruct (Z.ltb_spec (8 * k) 32).
    + wp_seq. eapply wp_mono; [by apply (pass_ok fuel n (8 * k) L)|].
      intros [] s (B'' & -> & HB''). apply wp_ret. cbn [fst]. unfold LOG_BASE. split; [|lia].
      eexists _, _, _, (k + 1). split; [reflexivity|].
      split; [f_equal; [lia|]; rewrite Z.odd_add; by destruct (Z.odd k)|].
      split; [lia|]. split.
      { rewrite <-HP. apply groups_Permutation, digits_range. }
      split; [done|]. split; [done|]. replace (8 * (k + 1)) with (8 * k + 8) by lia.
      apply radix_step; [lia|done].
    + replace k with 4 in * by lia. apply wp_ret. simpl Z.odd. cbv iota. apply wp_ret. cbn.
      split_and!; [done| |done]. rewrite <-HL. apply sorted_low; [|done]. by rewrite HP.
Qed.

(** C29: the radix sort benchmark, for three elements or more, ends inside its
    arrays: the input is sorted and permuted by its four passes, and the answer
    is 0 exactly if the reference data is a permutation of the input. *)
Theorem rsort_main_checks fuel read_csr buckets n input reference scratch0 h :
  3 <= n -> n < 4294967296 -> (Z.to_nat n < fuel)%nat -> (256 <= fuel)%nat ->
  lenZ input = n -> lenZ reference = n -> lenZ scratch0 = n -> lenZ buckets = 256 ->
  Forall unsigned input -> Forall unsigned reference -> fresh h ->
  wp (rsort_main fuel read_csr buckets n)
     (fun r s => (r = 0 <-> reference ≡ₚ input) /\
                 input_data (data s) ≡ₚ input /\ sorted 0 n (input_data (data s)) /\
                 measures read_csr h (hpm s))
     (App (Arrays input reference scratch0) h).
Proof.
  intros Hn Hn32 Hf Hf' Hin Href Hsc HB HU HU' [Hc Hnm]. unfold rsort_main.
  wp_seq. do 2 apply wp_zoom. eapply wp_mono; [by apply radix_sorts|].
  intros [] [V S1 B1] (PV & SV & HS1). cbn [data hpm arr scratch input_data verify_data scratch_data] in *.
  wp_seq. eapply wp_eq; [done|]. cbn [data input_data].
  rewrite verify_match by lia. wp_seq. apply wp_ret. simpl negb. cbv iota.
  wp_seq. apply measured_ok; [done..|]. apply wp_zoom. cbn [input_data scratch_data].
  eapply wp_mono; [by apply radix_sorts|].
  intros [] [A S2 B2] (PA & SA & HS2) h' Hm. cbn [arr scratch verify_data] in *.
  wp_seq. eapply wp_eq; [done|]. cbn [data input_data verify_data].
  destruct (verify_sorted n A V) as (k & Hk & Hiff);
    [unfold lenZ in *; by rewrite (Permutation_length PA)|
     unfold lenZ in *; by rewrite (Permutation_length PV)|done..|].
  rewrite Hk. apply wp_ret. cbn [data input_data hpm]. split_and!; [|done..]. by rewrite <-PV, <-PA.
Qed.

Lemma rsort_main_checks_witness :
  wp (rsort_main 256 (fun k _ => Z.of_nat (3 * k)) (replicate 256 1) 5)
     (fun r s => (r = 0 <-> [7; 300; 5; 70000; 4000000000] ≡ₚ [4000000000; 5; 300; 70000; 7]) /\
                 input_data (data s) ≡ₚ [4000000000; 5; 300; 70000; 7] /\
                 sorted 0 5 (input_data (data s)) /\
                 measures (fun k _ => Z.of_nat (3 * k)) reset_stats (hpm s))
     (App (Arrays [4000000000; 5; 300; 70000; 7] [7; 300; 5; 70000; 4000000000] [0; 0; 0; 0; 0])
          reset_stats).
Proof.
  apply rsort_main_checks; try done; try lia;
    repeat (apply Forall_cons; split; [unfold unsigned; lia|]); apply Forall_nil; exact I.
Defined.
