(* ===== verification/Towers.v ===== *)
(** * Towers of Hanoi (sw/app/towers)

    The nodes of the lists live in one pool; a pointer to a node is its index,
    and the null pointer is -1.  The free list and the three pegs are lists in
    that pool, named by [peg]. *)

From Stdlib Require Import ZArith Lia String.
From stdpp Require Import base tactics list numbers.
From S2P Require Import Prelude CArray Bench.

Record Node := MkNode { node_val : Z; next : Z }.
Record List := MkList { size : Z; head : Z }.

#[export] Instance Node_inhabited : Inhabited Node := populate (MkNode 0 0).

Inductive peg := pegA | pegB | pegC.
#[export] Instance peg_eq_dec : EqDecision peg.
Proof. solve_decision. Defined.

(** The three lists of [struct Towers], and access to one by its name. *)
Record lists := MkLists { listA : List; listB : List; listC : List }.

Definition list_of (p : peg) (ls : lists) : List :=
  match p with pegA => listA ls | pegB => listB ls | pegC => listC ls end.

Definition upd_list (p : peg) (v : List) (ls : lists) : lists :=
  match p with
  | pegA => MkLists v (listB ls) (listC ls)
  | pegB => MkLists (listA ls) v (listC ls)
  | pegC => MkLists (listA ls) (listB ls) v
  end.

(** [g_nodePool], [g_nodeFreeList] and [struct Towers]. *)
Record towers := MkTowers {
  g_nodePool : list Node;
  g_nodeFreeList : List;
  numDiscs : Z;
  numMoves : Z;
  pegs : lists;
}.

Definition null : Z := -1.

(** ** List operations *)

Definition load (p : Z) : M towers Node :=
  fun s => match fetch (g_nodePool s) p with Some v => Ok (v, s) | None => Ub end.

Definition store (p : Z) (v : Node) : M towers unit :=
  fun s => if in_range (g_nodePool s) p then
             Ok (tt, MkTowers (setZ (g_nodePool s) p v) (g_nodeFreeList s)
                       (numDiscs s) (numMoves s) (pegs s))
           else Ub.

Definition get_list (l : peg) : M towers List := fun s => Ok (list_of l (pegs s), s).
Definition put_list (l : peg) (v : List) : M towers unit :=
  modify (fun s => MkTowers (g_nodePool s) (g_nodeFreeList s) (numDiscs s) (numMoves s)
                     (upd_list l v (pegs s))).
Definition get_free : M towers List := fun s => Ok (g_nodeFreeList s, s).
Definition put_free (v : List) : M towers unit :=
  modify (fun s => MkTowers (g_nodePool s) v (numDiscs s) (numMoves s) (pegs s)).

Definition list_getSize (l : peg) : M towers Z := v <- get_list l ;; ret (size v).

Definition list_init (l : peg) : M towers unit := put_list l (MkList 0 null).

Definition list_push (l : peg) (val : Z) : M towers unit :=
  (* pop the next free node off the free list *)
  free <- get_free ;;
  let newNode := head free in
  node <- load newNode ;;
  put_free (MkList (size free) (next node)) ;;;
  (* push the new node onto the given list *)
  v <- get_list l ;;
  node <- load newNode ;;
  store newNode (MkNode (node_val node) (head v)) ;;;
  put_list l (MkList (size v) newNode) ;;;
  (* assign the value *)
  node <- load newNode ;;
  store newNode (MkNode val (next node)) ;;;
  put_list l (MkList (size v + 1) newNode).

Definition list_pop (l : peg) : M towers Z :=
  v <- get_list l ;;
  node <- load (head v) ;;
  let val := node_val node in
  let freedNode := head v in
  put_list l (MkList (size v) (next node)) ;;;
  free <- get_free ;;
  node <- load freedNode ;;
  store freedNode (MkNode (node_val node) (head free)) ;;;
  put_free (MkList (size free) freedNode) ;;;
  v <- get_list l ;;
  put_list l (MkList (size v - 1) (head v)) ;;;
  ret val.

Definition list_clear (fuel : nat) (l : peg) : M towers unit :=
  loop fuel (fun _ : unit =>
    n <- list_getSize l ;;
    if 0 <? n then list_pop l ;;; ret (inl tt) else ret (inr tt)) tt.

(** ** Towers *)

Definition set_numbers (discs moves : Z) : M towers unit :=
  modify (fun s => MkTowers (g_nodePool s) (g_nodeFreeList s) discs moves (pegs s)).

Definition towers_init (n : Z) : M towers unit :=
  set_numbers n 0 ;;;
  list_init pegA ;;; list_init pegB ;;; list_init pegC ;;;
  for_ 0 n (fun i => list_push pegA (n - i)).

Definition towers_clear (fuel : nat) : M towers unit :=
  list_clear fuel pegA ;;; list_clear fuel pegB ;;; list_clear fuel pegC ;;;
  s <- get ;;
  towers_init (numDiscs s).

(** The case [n == 1]. *)
Definition move (startPeg destPeg : peg) : M towers unit :=
  val <- list_pop startPeg ;;
  list_push destPeg val ;;;
  s <- get ;;
  set_numbers (numDiscs s) (numMoves s + 1).

(** [towers_solve_h], a recursion on [n]; from [n] below 1 the code does not
    return. *)
Fixpoint towers_solve_h (n : nat) (startPeg tempPeg destPeg : peg) : M towers unit :=
  match n with
  | O => out_of_fuel
  | S O => move startPeg destPeg
  | S m =>
      towers_solve_h m startPeg destPeg tempPeg ;;;
      move startPeg destPeg ;;;
      towers_solve_h m tempPeg startPeg destPeg
  end.

Definition towers_solve : M towers unit :=
  s <- get ;; towers_solve_h (Z.to_nat (numDiscs s)) pegA pegB pegC.

(** The loop over the discs of peg C, from the pointer [ptr]. *)
Definition verify_discs (fuel : nat) (ptr : Z) : M towers bool :=
  loop fuel (fun st : Z * Z =>
    let '(ptr, discs) := st in
    if ptr =? null then ret (inr true)
    else
      node <- load ptr ;;
      if negb (node_val node =? discs + 1) then ret (inr false)
      else ret (inl (next node, discs + 1))) (ptr, 0).

Definition towers_verify (fuel : nat) : M towers Z :=
  a <- list_getSize pegA ;;
  if negb (a =? 0) then ret 2 else
  b <- list_getSize pegB ;;
  if negb (b =? 0) then ret 3 else
  c <- list_getSize pegC ;;
  s <- get ;;
  if negb (c =? numDiscs s) then ret 4 else
  ok <- verify_discs fuel (head (listC (pegs s))) ;;
  if negb ok then ret 5 else
  if negb (numMoves s =? s32 (Z.shiftl 1 (numDiscs s)) - 1) then ret 6 else ret 0.

(** [main]: the free list links the pool; [NUM_DISCS] is 7. *)
Definition NUM_DISCS : Z := 7.

Definition init_pool (n : Z) : M towers unit :=
  put_free (MkList 0 null) ;;;
  put_free (MkList 0 0) ;;;
  put_free (MkList n 0) ;;;
  last <- load (n - 1) ;;
  store (n - 1) (MkNode (node_val last) null) ;;;
  last <- load (n - 1) ;;
  store (n - 1) (MkNode 99 (next last)) ;;;
  for_ 0 (n - 1) (fun i =>
    node <- load i ;;
    store i (MkNode (node_val node) (i + 1)) ;;;
    node <- load i ;;
    store i (MkNode i (next node))).

Definition towers_main (fuel : nat) (read_csr : nat -> string -> Z) (n : Z) : M (bench towers) Z :=
  on_data (init_pool n) ;;;
  on_data (towers_init n) ;;;
  on_data towers_solve ;;;
  on_data (towers_clear fuel) ;;;
  measured read_csr towers_solve ;;;
  on_data (towers_verify fuel).

(** ** Lists in the pool *)

(** [ns] are the nodes of the list that starts at [p]. *)
Fixpoint chain (pool : list Node) (p : Z) (ns : list Z) : Prop :=
  match ns with
  | [] => p = null
  | i :: ns => p = i /\ 0 <= i < lenZ pool /\ chain pool (next (getZ pool i)) ns
  end.

Definition values (pool : list Node) (ns : list Z) : list Z :=
  map (fun i => node_val (getZ pool i)) ns.

Lemma chain_bounds pool p ns i : chain pool p ns -> i ∈ ns -> 0 <= i < lenZ pool.
Proof.
  revert p. induction ns as [|j ns IH]; intros p Hc Hi; [by apply not_elem_of_nil in Hi|].
  destruct Hc as (-> & Hj & Hc). apply elem_of_cons in Hi as [->|Hi]; [done|by eapply IH].
Qed.

(** Writing a node leaves the lists it is not in alone. *)
Lemma chain_set pool p ns i v :
  0 <= i -> i ∉ ns -> chain pool p ns -> chain (setZ pool i v) p ns.
Proof.
  intros Hi. revert p. induction ns as [|j ns IH]; intros p Hni Hc; [done|].
  destruct Hc as (-> & Hj & Hc). apply not_elem_of_cons in Hni as [Hne Hni].
  split; [done|]. rewrite setZ_length, getZ_setZ_ne by lia. split; [done|]. by apply IH.
Qed.

Lemma values_set pool ns i v :
  0 <= i -> i ∉ ns -> (forall j, j ∈ ns -> 0 <= j) -> values (setZ pool i v) ns = values pool ns.
Proof.
  intros Hi Hni Hpos. apply map_ext_in. intros j Hj. apply list_elem_of_In in Hj.
  rewrite getZ_setZ_ne; [done|done|by apply Hpos|]. intros ->. done.
Qed.

(** The nodes of the free list and of the pegs. *)
Record layout := Layout { free_nodes : list Z; nodes : peg -> list Z }.

Definition all_nodes (f : layout) : list Z :=
  free_nodes f ++ nodes f pegA ++ nodes f pegB ++ nodes f pegC.

Definition put {A} (l : peg) (v : A) (f : peg -> A) (q : peg) : A := if decide (q = l) then v else f q.

(** The pegs hold [vals], and [k] nodes are free. *)
Record holds (k : Z) (vals : peg -> list Z) (s : towers) (f : layout) : Prop := {
  holds_free : chain (g_nodePool s) (head (g_nodeFreeList s)) (free_nodes f);
  holds_count : lenZ (free_nodes f) = k;
  holds_peg l : chain (g_nodePool s) (head (list_of l (pegs s))) (nodes f l) /\
                size (list_of l (pegs s)) = lenZ (nodes f l) /\
                values (g_nodePool s) (nodes f l) = vals l;
  holds_nodup : NoDup (all_nodes f);
}.

Lemma all_nodes_push l i fr ns :
  all_nodes (Layout fr (put l (i :: ns l) ns)) ≡ₚ all_nodes (Layout (i :: fr) ns).
Proof.
  unfold all_nodes, put. cbn [free_nodes nodes].
  destruct l; repeat case_decide; try done; simpl;
    by rewrite <-!Permutation_middle.
Qed.

Lemma NoDup_all_nodes f i :
  NoDup (all_nodes f) -> i ∈ free_nodes f ->
  forall l, i ∉ nodes f l.
Proof.
  unfold all_nodes. intros Hnd Hi l Hl. apply list.NoDup_app in Hnd. destruct Hnd as (_ & Hdis & _).
  apply (Hdis i Hi). rewrite !elem_of_app. destruct l; tauto.
Qed.

(** ** Push and pop *)

Lemma upd_upd_list l v w ls : upd_list l v (upd_list l w ls) = upd_list l v ls.
Proof. by destruct l. Qed.
Lemma list_of_upd l v ls : list_of l (upd_list l v ls) = v.
Proof. by destruct l. Qed.
Lemma list_of_upd_ne l q v ls : q <> l -> list_of q (upd_list l v ls) = list_of q ls.
Proof. by destruct l, q. Qed.

Lemma list_push_runs l val pool fr nd nm ls :
  0 <= head fr < lenZ pool ->
  list_push l val (MkTowers pool fr nd nm ls) =
  Ok (tt, MkTowers (setZ pool (head fr) (MkNode val (head (list_of l ls))))
            (MkList (size fr) (next (getZ pool (head fr)))) nd nm
            (upd_list l (MkList (size (list_of l ls) + 1) (head fr)) ls)).
Proof.
  intros Hi. set (i := head fr) in *.
  assert (forall v, setZ (setZ pool i v) i (MkNode val (head (list_of l ls))) =
            setZ pool i (MkNode val (head (list_of l ls)))) as Hset.
  { intros v. unfold setZ. apply list_insert_insert_eq. }
  unfold list_push, bind, get_free, load, put_free, get_list, store, put_list, modify. cbn.
  fold i. rewrite fetch_Some by done. cbn. rewrite fetch_Some by done. cbn.
  rewrite in_range_true by done. cbn. rewrite fetch_Some by (by rewrite setZ_length). cbn.
  rewrite getZ_setZ by done. cbn. rewrite in_range_true by (by rewrite setZ_length). cbn.
  by rewrite Hset, upd_upd_list.
Qed.

Lemma list_pop_runs l pool fr nd nm ls :
  0 <= head (list_of l ls) < lenZ pool ->
  list_pop l (MkTowers pool fr nd nm ls) =
  let i := head (list_of l ls) in
  Ok (node_val (getZ pool i),
      MkTowers (setZ pool i (MkNode (node_val (getZ pool i)) (head fr)))
        (MkList (size fr) i) nd nm
        (upd_list l (MkList (size (list_of l ls) - 1) (next (getZ pool i))) ls)).
Proof.
  intros Hi. cbv zeta. set (i := head (list_of l ls)) in *.
  unfold list_pop, bind, get_free, load, put_free, get_list, store, put_list, modify, ret. cbn.
  fold i. rewrite fetch_Some by done. cbn. rewrite fetch_Some by done. cbn.
  rewrite in_range_true by done. cbn. by rewrite list_of_upd, upd_upd_list.
Qed.

(** What every operation leaves alone: the numbers of discs and moves. *)
Definition numbers (d m : Z) (s : towers) : Prop := numDiscs s = d /\ numMoves s = m.

Definition towers_at (pool_size k d m : Z) (vals : peg -> list Z) (s : towers) : Prop :=
  lenZ (g_nodePool s) = pool_size /\ (exists f, holds k vals s f) /\ numbers d m s.

Lemma list_push_ok n k d m vals l val s :
  0 < k -> towers_at n k d m vals s ->
  wp (list_push l val)
     (fun _ s' => towers_at n (k - 1) d m (put l (val :: vals l) vals) s') s.
Proof.
  intros Hk (Hpool & ([fr ns] & Hh) & Hnum). destruct s as [pool free nd nm ls].
  destruct Hh as [Hf Hc Hp Hnd]. cbn [g_nodePool g_nodeFreeList pegs free_nodes nodes] in *.
  destruct fr as [|i fr]; [unfold lenZ in Hc; simpl in Hc; lia|].
  destruct Hf as (Hhead & Hi & Hf).
  pose proof (NoDup_all_nodes _ i Hnd ltac:(by left)) as Hni. cbn [nodes] in Hni.
  assert (i ∉ fr) as Hifr.
  { unfold all_nodes in Hnd. simpl in Hnd. apply list.NoDup_cons in Hnd as [Hnd _].
    rewrite elem_of_app in Hnd. tauto. }
  eapply wp_eq; [apply list_push_runs; by rewrite Hhead|]. rewrite Hhead.
  destruct (Hp l) as (Hl1 & Hl2 & Hl3).
  split; [by cbn; rewrite setZ_length|]. split; [|done].
  exists (Layout fr (put l (i :: ns l) ns)). split; cbn [g_nodePool g_nodeFreeList pegs free_nodes nodes head].
  - apply chain_set; [lia|done|done].
  - rewrite lenZ_cons in Hc. lia.
  - intros q. unfold put. destruct (decide (q = l)) as [->|Hq].
    + rewrite list_of_upd. cbn [head size]. rewrite lenZ_cons. split_and!; [|lia|].
      * split; [done|]. rewrite setZ_length, getZ_setZ by done. split; [done|].
        apply chain_set; [lia|apply Hni|done].
      * cbn [values map]. rewrite getZ_setZ by done. cbn [node_val]. f_equal.
        rewrite <-Hl3. apply values_set; [lia|apply Hni|]. intros j Hj.
        by eapply chain_bounds in Hl1 as []; [|exact Hj].
    + rewrite list_of_upd_ne by done. destruct (Hp q) as (Hq1 & Hq2 & Hq3). split_and!; [|done|].
      * apply chain_set; [lia|apply Hni|done].
      * rewrite <-Hq3. apply values_set; [lia|apply Hni|]. intros j Hj.
        by eapply chain_bounds in Hq1 as []; [|exact Hj].
  - by rewrite all_nodes_push.
Qed.

Lemma all_nodes_pop l i fr ns ns' :
  ns l = i :: ns' ->
  all_nodes (Layout (i :: fr) (put l ns' ns)) ≡ₚ all_nodes (Layout fr ns).
Proof.
  intros E. unfold all_nodes, put. cbn [free_nodes nodes].
  destruct l; repeat case_decide; try done; rewrite E; simpl;
    by rewrite <-!Permutation_middle.
Qed.

(** The head of the free list is in no other list. *)
Lemma NoDup_free_head i fr ns :
  NoDup (all_nodes (Layout (i :: fr) ns)) -> (i ∉ fr) /\ (forall q, i ∉ ns q).
Proof.
  intros Hnd. split; [|intros q; by apply (NoDup_all_nodes _ i Hnd); left].
  unfold all_nodes in Hnd. simpl in Hnd. apply list.NoDup_cons in Hnd as [Hnd _].
  rewrite elem_of_app in Hnd. tauto.
Qed.

Lemma list_pop_ok n k d m vals l val rest s :
  vals l = val :: rest -> towers_at n k d m vals s ->
  wp (list_pop l)
     (fun v s' => v = val /\ towers_at n (k + 1) d m (put l rest vals) s') s.
Proof.
  intros Hvals (Hpool & ([fr ns] & Hh) & Hnum). destruct s as [pool free nd nm ls].
  destruct Hh as [Hf Hc Hp Hnd]. cbn [g_nodePool g_nodeFreeList pegs free_nodes nodes] in *.
  destruct (Hp l) as (Hl1 & Hl2 & Hl3). rewrite Hvals in Hl3.
  destruct (ns l) as [|i nl] eqn:El; [done|]. destruct Hl1 as (Hhead & Hi & Hl1).
  cbn [values map] in Hl3. injection Hl3 as Hval Hl3.
  pose proof (all_nodes_pop l i fr ns nl El) as Hperm. rewrite <-Hperm in Hnd.
  destruct (NoDup_free_head _ _ _ Hnd) as [Hifr Hni].
  eapply wp_eq; [apply list_pop_runs; by rewrite Hhead|]. rewrite Hhead. split; [done|].
  split; [by cbn; rewrite setZ_length|]. split; [|done].
  exists (Layout (i :: fr) (put l nl ns)). split; cbn [g_nodePool g_nodeFreeList pegs free_nodes nodes head].
  - split; [done|]. rewrite setZ_length, getZ_setZ by done. split; [done|].
    apply chain_set; [lia|done|done].
  - rewrite lenZ_cons. lia.
  - intros q. specialize (Hni q). unfold put in *. destruct (decide (q = l)) as [->|Hq].
    + rewrite list_of_upd. cbn [head size]. rewrite lenZ_cons in Hl2. split_and!; [|lia|].
      * apply chain_set; [lia|done|done].
      * rewrite <-Hl3. apply values_set; [lia|done|]. intros j Hj.
        by eapply chain_bounds in Hl1 as []; [|exact Hj].
    + rewrite list_of_upd_ne by done. destruct (Hp q) as (Hq1 & Hq2 & Hq3). split_and!; [|done|].
      * apply chain_set; [lia|done|done].
      * rewrite <-Hq3. apply values_set; [lia|done|]. intros j Hj.
        by eapply chain_bounds in Hq1 as []; [|exact Hj].
  - done.
Qed.

Lemma towers_at_ext n k d m vals vals' s :
  (forall l, vals l = vals' l) -> towers_at n k d m vals s -> towers_at n k d m vals' s.
Proof.
  intros E (Hpool & (f & [Hf Hc Hp Hnd]) & Hnum). split; [done|]. split; [|done].
  exists f. split; [done|done| |done]. intros l. rewrite <-E. apply Hp.
Qed.

Lemma set_numbers_ok n k d m d' m' vals s :
  towers_at n k d m vals s ->
  wp (set_numbers d' m') (fun _ s' => towers_at n k d' m' vals s') s.
Proof.
  intros (Hpool & (f & [Hf Hc Hp Hnd]) & _). split; [done|]. split; [|done].
  exists f. by split.
Qed.

(** ** Solving *)

Lemma move_ok n k d m vals start dest val rest s :
  vals start = val :: rest -> start <> dest -> 0 <= k -> towers_at n k d m vals s ->
  wp (move start dest)
     (fun _ s' => towers_at n k d (m + 1) (put dest (val :: vals dest) (put start rest vals)) s') s.
Proof.
  intros Hvals Hne Hk Hs. unfold move.
  wp_call ltac:(by eapply list_pop_ok). intros v s1 [-> Hs1].
  wp_call ltac:(apply list_push_ok; [|exact Hs1]; lia). intros [] s2 Hs2.
  wp_seq. eapply wp_eq; [done|]. rewrite (proj1 (proj2 (proj2 Hs2))), (proj2 (proj2 (proj2 Hs2))).
  eapply wp_mono; [by eapply set_numbers_ok|]. intros [] s3 Hs3.
  replace (k + 1 - 1) with k in Hs3 by lia. eapply towers_at_ext; [|exact Hs3].
  intros q. unfold put. repeat case_decide; congruence.
Qed.

Lemma towers_solve_h_S m start temp dest :
  (0 < m)%nat ->
  towers_solve_h (S m) start temp dest =
  (towers_solve_h m start dest temp ;;; move start dest ;;; towers_solve_h m temp start dest).
Proof. by destruct m; [lia|]. Qed.

(** [towers_solve_h] moves the top [n] discs, in their order, in [2^n - 1] moves. *)
Lemma towers_solve_h_ok n k d discs :
  0 <= k -> (0 < length discs)%nat ->
  forall start temp dest rest m vals s,
  start <> temp -> start <> dest -> temp <> dest ->
  vals start = discs ++ rest -> towers_at n k d m vals s ->
  wp (towers_solve_h (length discs) start temp dest)
     (fun _ s' => towers_at n k d (m + (2 ^ lenZ discs - 1))
                    (put dest (discs ++ vals dest) (put start rest vals)) s') s.
Proof.
  intros Hk. induction discs as [|disc discs IH] using rev_ind; intros Hlen; [simpl in Hlen; lia|].
  intros start temp dest rest m vals s Hst Hsd Htd Hvals Hs. rewrite <-(assoc_L (++)) in Hvals.
  destruct (decide (length discs = 0)%nat) as [E|E].
  { apply nil_length_inv in E as ->. change (lenZ ([] ++ [disc])) with 1.
    change (2 ^ 1 - 1) with 1. by apply (move_ok n k d m vals start dest disc rest). }
  assert (0 < length discs)%nat as Hpos by lia. specialize (IH Hpos).
  rewrite length_app. cbn [length]. rewrite Nat.add_1_r, towers_solve_h_S by done.
  wp_call ltac:(eapply (IH start dest temp); [done..|exact Hvals|exact Hs]).
  intros [] s1 Hs1.
  wp_call ltac:(eapply (move_ok _ _ _ _ _ start dest disc rest); [|done|exact Hk|exact Hs1];
    unfold put; simpl; repeat case_decide; congruence).
  intros [] s2 Hs2.
  eapply wp_mono; [eapply (IH temp start dest (vals temp)); [done..| |exact Hs2]|].
  { unfold put. repeat case_decide; congruence. }
  intros [] s3 Hs3. rewrite lenZ_app. change (lenZ [disc]) with 1.
  pose proof (lenZ_nonneg discs). rewrite Z.pow_add_r by lia. change (2 ^ 1) with 2.
  replace (m + (2 ^ lenZ discs * 2 - 1)) with (m + (2 ^ lenZ discs - 1) + 1 + (2 ^ lenZ discs - 1)) by lia.
  eapply towers_at_ext; [|exact Hs3]. intros q. unfold put.
  rewrite <-(assoc_L (++)). repeat case_decide; simpl; congruence.
Qed.

(** ** Clearing and setting up *)

Lemma list_getSize_ok n k d m vals l s :
  towers_at n k d m vals s ->
  wp (list_getSize l) (fun v s' => v = lenZ (vals l) /\ s' = s) s.
Proof.
  intros (_ & (f & Hh) & _). destruct (holds_peg _ _ _ _ Hh l) as (_ & Hsize & Hv).
  unfold wp, list_getSize, get_list, bind, ret. split; [|done].
  rewrite Hsize, <-Hv. unfold values, lenZ. by rewrite length_map.
Qed.

Lemma list_clear_ok fuel n k d m vals l s :
  (length (vals l) < fuel)%nat -> towers_at n k d m vals s ->
  wp (list_clear fuel l)
     (fun _ s' => towers_at n (k + lenZ (vals l)) d m (put l [] vals) s') s.
Proof.
  intros Hfuel Hs. unfold list_clear.
  apply wp_loop_indexed with (k := length (vals l))
    (I := fun left _ s' => exists rest, length rest = left /\
       towers_at n (k + lenZ (vals l) - lenZ rest) d m (put l rest vals) s'); [|done|].
  - exists (vals l). split; [done|]. rewrite Z.add_simpl_r.
    eapply towers_at_ext; [|exact Hs]. intros q. unfold put. by case_decide; subst.
  - intros left [] s' (rest & Hrest & Hs').
    wp_call ltac:(by eapply (list_getSize_ok _ _ _ _ _ l)). intros v ? [-> ->].
    unfold put at 1. rewrite decide_True by done. destruct rest as [|val rest].
    + cbn. apply wp_ret. rewrite Z.sub_0_r in Hs'. exact Hs'.
    + rewrite lenZ_cons in *. pose proof (lenZ_nonneg rest).
      replace (0 <? lenZ rest + 1) with true by lia.
      wp_call ltac:(eapply (list_pop_ok _ _ _ _ _ l val rest); [|exact Hs'];
        unfold put; by rewrite decide_True).
      intros v s'' [-> Hs'']. apply wp_ret. simpl in Hrest.
      exists (length rest). split; [lia|]. exists rest. split; [done|].
      replace (k + lenZ (vals l) - lenZ rest)
        with (k + lenZ (vals l) - (lenZ rest + 1) + 1) by lia.
      eapply towers_at_ext; [|exact Hs'']. intros q. unfold put. by repeat case_decide.
Qed.

(** A free list of [k] nodes, whatever the pegs hold. *)
Definition free_list (n k : Z) (s : towers) : Prop :=
  lenZ (g_nodePool s) = n /\
  exists fr, chain (g_nodePool s) (head (g_nodeFreeList s)) fr /\ NoDup fr /\ lenZ fr = k.

Lemma towers_at_free n k d m vals s : towers_at n k d m vals s -> free_list n k s.
Proof.
  intros (Hn & (f & [Hf Hc Hp Hnd]) & _). split; [done|]. exists (free_nodes f).
  split; [done|]. split; [|done]. unfold all_nodes in Hnd.
  by apply list.NoDup_app in Hnd as [Hnd _].
Qed.

Definition stacked (n : Z) : peg -> list Z := put pegA (seqZ 1 n) (fun _ => []).

Lemma towers_init_ok size k n s :
  0 <= n <= k -> free_list size k s ->
  wp (towers_init n) (fun _ s' => towers_at size (k - n) n 0 (stacked n) s') s.
Proof.
  intros Hn (Hsize & fr & Hchain & Hnd & Hk). unfold towers_init.
  do 4 (wp_seq; eapply wp_eq; [done|]).
  apply wp_for with (I := fun i s' =>
    towers_at size (k - i) n 0 (put pegA (seqZ (n - i + 1) i) (fun _ => [])) s').
  - lia.
  - split; [done|]. split; [|done]. exists (Layout fr (fun _ => [])).
    split; cbn; [done|lia| |by rewrite !app_nil_r].
    intros l. unfold put. by destruct l.
  - intros i s' Hi Hs'. eapply wp_mono; [apply list_push_ok; [|exact Hs']; lia|].
    intros [] s'' Hs''. replace (k - (i + 1)) with (k - i - 1) by lia.
    eapply towers_at_ext; [|exact Hs'']. intros q. unfold put.
    rewrite (decide_True (P := pegA = pegA)) by done. case_decide; [|done].
    rewrite (seqZ_cons (n - (i + 1) + 1)) by lia. f_equal; [lia|]. f_equal; lia.
  - intros s' Hs'. replace (n - n + 1) with 1 in Hs' by lia. exact Hs'.
Qed.

Lemma towers_clear_ok fuel size k d m vals s :
  (forall l, length (vals l) < fuel)%nat -> 0 <= d ->
  d <= k + lenZ (vals pegA) + lenZ (vals pegB) + lenZ (vals pegC) ->
  towers_at size k d m vals s ->
  wp (towers_clear fuel)
     (fun _ s' => towers_at size (k + lenZ (vals pegA) + lenZ (vals pegB) + lenZ (vals pegC) - d)
                    d 0 (stacked d) s') s.
Proof.
  intros Hfuel Hd Hroom Hs. unfold towers_clear.
  wp_call ltac:(eapply list_clear_ok; [|exact Hs]; apply Hfuel). intros [] s1 Hs1.
  wp_call ltac:(eapply list_clear_ok; [|exact Hs1]; apply Hfuel). intros [] s2 Hs2.
  wp_call ltac:(eapply list_clear_ok; [|exact Hs2]; apply Hfuel). intros [] s3 Hs3.
  wp_seq. eapply wp_eq; [done|]. rewrite (proj1 (proj2 (proj2 Hs3))).
  apply towers_init_ok; [|by eapply towers_at_free]. cbn in *. lia.
Qed.

(** The pool, linked into the free list. *)
Lemma chain_seqZ pool n :
  lenZ pool = n -> (forall j, 0 <= j < n - 1 -> next (getZ pool j) = j + 1) ->
  next (getZ pool (n - 1)) = null ->
  forall (k : nat), Z.of_nat k < n -> chain pool (n - 1 - Z.of_nat k) (seqZ (n - 1 - Z.of_nat k) (Z.of_nat k + 1)).
Proof.
  intros Hn Hlink Hlast. induction k as [|k IH]; intros Hk.
  - change (Z.of_nat 0 + 1) with 1. rewrite seqZ_cons by lia. rewrite Z.sub_0_r.
    split; [done|]. split; [lia|]. cbn. exact Hlast.
  - rewrite seqZ_cons by lia. split; [done|]. split; [lia|].
    rewrite Hlink by lia. replace (n - 1 - Z.of_nat (S k) + 1) with (n - 1 - Z.of_nat k) by lia.
    replace (Z.succ (n - 1 - Z.of_nat (S k))) with (n - 1 - Z.of_nat k) by lia.
    replace (Z.pred (Z.of_nat (S k) + 1)) with (Z.of_nat k + 1) by lia. apply IH. lia.
Qed.

Lemma wp_load (Q : Node -> towers -> Prop) s p :
  0 <= p < lenZ (g_nodePool s) -> Q (getZ (g_nodePool s) p) s -> wp (load p) Q s.
Proof. intros Hp HQ. unfold wp, load. by rewrite fetch_Some. Qed.

Lemma wp_store (Q : unit -> towers -> Prop) s p v :
  0 <= p < lenZ (g_nodePool s) ->
  Q tt (MkTowers (setZ (g_nodePool s) p v) (g_nodeFreeList s) (numDiscs s) (numMoves s) (pegs s)) ->
  wp (store p v) Q s.
Proof. intros Hp HQ. unfold wp, store. by rewrite in_range_true. Qed.

Lemma init_pool_ok n s :
  1 <= n -> lenZ (g_nodePool s) = n -> wp (init_pool n) (fun _ s' => free_list n n s') s.
Proof.
  intros Hn Hlen. unfold init_pool. do 3 (wp_seq; eapply wp_eq; [done|]).
  wp_seq. apply wp_load; [cbn; lia|]. wp_seq. apply wp_store; [cbn; lia|].
  wp_seq. apply wp_load; [cbn; rewrite setZ_length; lia|].
  wp_seq. apply wp_store; [cbn; rewrite setZ_length; lia|]. cbn.
  apply wp_for with (I := fun i s' => lenZ (g_nodePool s') = n /\ head (g_nodeFreeList s') = 0 /\
    (forall j, 0 <= j < i -> next (getZ (g_nodePool s') j) = j + 1) /\
    next (getZ (g_nodePool s') (n - 1)) = null).
  - lia.
  - cbn. rewrite !setZ_length. split_and!; [done|done|lia|].
    rewrite !getZ_setZ by (rewrite ?setZ_length; lia). done.
  - intros i s' Hi (Hl & Hh & Hlink & Hlast).
    wp_seq. apply wp_load; [lia|]. wp_seq. apply wp_store; [lia|].
    wp_seq. apply wp_load; [cbn; rewrite setZ_length; lia|].
    apply wp_store; [cbn; rewrite setZ_length; lia|]. cbn. rewrite !setZ_length.
    rewrite !(getZ_setZ_ne _ _ (n - 1)) by lia.
    split_and!; [done|done| |done]. intros j Hj. destruct (decide (j = i)) as [->|].
    + rewrite !getZ_setZ by (rewrite ?setZ_length; lia). done.
    + rewrite !getZ_setZ_ne by lia. apply Hlink. lia.
  - intros s' (Hl & Hh & Hlink & Hlast). split; [done|]. exists (seqZ 0 n).
    split; [|split; [apply NoDup_seqZ|unfold lenZ; rewrite length_seqZ; lia]].
    pose proof (chain_seqZ _ n Hl Hlink Hlast (Z.to_nat (n - 1)) ltac:(lia)) as Hc.
    replace (n - 1 - Z.of_nat (Z.to_nat (n - 1))) with 0 in Hc by lia.
    replace (Z.of_nat (Z.to_nat (n - 1)) + 1) with n in Hc by lia. by rewrite Hh.
Qed.

(** ** Verifying *)

Lemma verify_discs_ok fuel n k d m vals s :
  vals pegC = seqZ 1 d -> 0 <= d -> (Z.to_nat d < fuel)%nat -> towers_at n k d m vals s ->
  wp (verify_discs fuel (head (listC (pegs s)))) (fun ok s' => ok = true /\ s' = s) s.
Proof.
  intros Hvals Hd Hfuel (_ & (f & Hh) & _).
  destruct (holds_peg _ _ _ _ Hh pegC) as (Hc & _ & Hv). rewrite Hvals in Hv. cbn [list_of] in Hc.
  unfold verify_discs.
  apply wp_loop with
    (I := fun st s' => s' = s /\ 0 <= st.2 <= d /\ exists ns, chain (g_nodePool s) st.1 ns /\
            values (g_nodePool s) ns = seqZ (st.2 + 1) (d - st.2))
    (m := fun st _ => Z.to_nat (d - st.2)).
  - split; [done|]. split; [simpl; lia|]. exists (nodes f pegC). split; [done|].
    simpl. by rewrite Z.sub_0_r.
  - simpl. lia.
  - intros [p discs] s' (-> & Hdiscs & ns & Hns & Hv'). cbn [fst snd] in *.
    destruct ns as [|i ns]; cbn [chain] in Hns.
    + subst p. by apply wp_ret.
    + destruct Hns as (-> & Hi & Hns). replace (i =? null) with false by (unfold null; lia).
      destruct (decide (discs = d)) as [->|].
      { rewrite Z.sub_diag in Hv'. done. }
      wp_seq. apply wp_load; [done|]. rewrite (seqZ_cons (discs + 1)) in Hv' by lia.
      cbn [values map] in Hv'. injection Hv' as Hval Hv'. rewrite Hval, Z.eqb_refl.
      apply wp_ret. cbn [fst snd]. split; [|lia]. split; [done|]. split; [lia|].
      exists ns. split; [done|]. unfold values. rewrite Hv'. f_equal; lia.
Qed.

Lemma towers_verify_ok fuel n k d m vals s :
  vals pegA = [] -> vals pegB = [] -> vals pegC = seqZ 1 d -> 0 <= d <= 30 -> m = 2 ^ d - 1 ->
  (Z.to_nat d < fuel)%nat -> towers_at n k d m vals s ->
  wp (towers_verify fuel) (fun r s' => r = 0 /\ s' = s) s.
Proof.
  intros HA HB HC Hd Hm Hfuel Hs. unfold towers_verify.
  wp_call ltac:(by eapply list_getSize_ok). intros ? ? [-> ->]. rewrite HA.
  change (negb (lenZ (@nil Z) =? 0)) with false. cbv iota.
  wp_call ltac:(by eapply list_getSize_ok). intros ? ? [-> ->]. rewrite HB.
  change (negb (lenZ (@nil Z) =? 0)) with false. cbv iota.
  wp_call ltac:(by eapply list_getSize_ok). intros ? ? [-> ->]. rewrite HC.
  wp_seq. eapply wp_eq; [done|]. destruct (Hs) as (_ & _ & Hnd & Hnm). rewrite Hnd, Hnm, Hm.
  assert (lenZ (seqZ 1 d) = d) as -> by (unfold lenZ; rewrite length_seqZ; lia).
  rewrite Z.eqb_refl. cbn [negb].
  wp_call ltac:(apply (verify_discs_ok fuel n k d m vals s); [done|lia|lia|done]). intros ? ? [-> ->]. cbn [negb].
  rewrite Z.shiftl_mul_pow2, Z.mul_1_l by lia.
  assert (0 < 2 ^ d <= 2 ^ 30) by (split; [apply Z.pow_pos_nonneg; lia|apply Z.pow_le_mono_r; lia]).
  change (2 ^ 30) with 1073741824 in *. rewrite s32_id, Z.eqb_refl by lia. by apply wp_ret.
Qed.

Lemma put_eq {A} l (v : A) f : put l v f l = v.
Proof. unfold put. by rewrite decide_True. Qed.
Lemma put_ne {A} l q (v : A) f : q <> l -> put l v f q = f q.
Proof. intros. unfold put. by rewrite decide_False. Qed.

(** ** main *)

(** C30: the towers benchmark ends and returns 0 for any number of discs from 1
    to 30, whatever its memory held: twice the discs go from peg A to peg C, in
    order, in 2^n - 1 moves, and no list operation leaves the pool. *)
Theorem towers_main_solves fuel read_csr n mem h :
  1 <= n <= 30 -> lenZ (g_nodePool mem) = n -> (Z.to_nat n < fuel)%nat -> fresh h ->
  wp (towers_main fuel read_csr n)
     (fun r s => r = 0 /\
        towers_at n 0 n (2 ^ n - 1) (put pegC (seqZ 1 n) (fun _ => [])) (data s) /\
        measures read_csr h (hpm s))
     (App mem h).
Proof.
  intros Hn Hmem Hfuel [Hc Hnm].
  assert (length (seqZ 1 n) = Z.to_nat n) as Hlen by apply length_seqZ.
  assert (lenZ (seqZ 1 n) = n) as HlenZ by (unfold lenZ; lia).
  assert (forall s, towers_at n 0 n 0 (stacked n) s ->
    wp towers_solve (fun _ s' => towers_at n 0 n (2 ^ n - 1)
                                   (put pegC (seqZ 1 n) (fun _ => [])) s') s) as Hsolve.
  { intros s Hs. unfold towers_solve. wp_seq. eapply wp_eq; [done|].
    rewrite (proj1 (proj2 (proj2 Hs))), <-Hlen. eapply wp_mono.
    - apply (towers_solve_h_ok n 0 n (seqZ 1 n)) with (rest := []) (vals := stacked n) (m := 0);
        [done|lia|done..|by rewrite app_nil_r|done].
    - intros [] s' Hs'. rewrite HlenZ in Hs'. eapply towers_at_ext; [|exact Hs'].
      intros q. unfold put, stacked, put. destruct q; by rewrite ?app_nil_r. }
  unfold towers_main.
  wp_seq. apply wp_zoom. eapply wp_mono; [apply init_pool_ok; [lia|done]|]. intros [] s1 H1.
  wp_seq. apply wp_zoom. eapply wp_mono; [apply (towers_init_ok n n n); [lia|exact H1]|].
  intros [] s2 H2. rewrite Z.sub_diag in H2.
  wp_seq. apply wp_zoom. eapply wp_mono; [by apply Hsolve|]. intros [] s3 H3.
  wp_seq. apply wp_zoom. eapply wp_mono.
  { eapply towers_clear_ok; [..|exact H3]; [|lia|].
    - intros l. unfold put. case_decide; [rewrite Hlen; lia|simpl; lia].
    - rewrite put_eq, !put_ne by done. rewrite HlenZ. change (lenZ []) with 0. lia. }
  intros [] s4 H4. rewrite put_eq, !put_ne in H4 by done. rewrite HlenZ in H4.
  change (lenZ []) with 0 in H4. replace (0 + 0 + 0 + n - n) with 0 in H4 by lia.
  wp_seq. apply measured_ok; [done..|]. eapply wp_mono; [by apply Hsolve|].
  intros [] s5 H5 h' Hm. apply wp_zoom. eapply wp_mono.
  { apply (towers_verify_ok fuel n 0 n (2 ^ n - 1) (put pegC (seqZ 1 n) (fun _ => [])));
      [by rewrite put_ne|by rewrite put_ne|by rewrite put_eq|lia|done|done|exact H5]. }
  intros r s6 [-> ->]. done.
Qed.

Lemma towers_main_solves_witness :
  wp (towers_main 8 (fun k _ => Z.of_nat k) NUM_DISCS)
     (fun r s => r = 0 /\
        towers_at NUM_DISCS 0 NUM_DISCS (2 ^ NUM_DISCS - 1)
          (put pegC (seqZ 1 NUM_DISCS) (fun _ => [])) (data s) /\
        measures (fun k _ => Z.of_nat k) reset_stats (hpm s))
     (App (MkTowers (replicate 7 (MkNode 5 5)) (MkList 0 0) 0 0
             (MkLists (MkList 1 1) (MkList 2 2) (MkList 3 3))) reset_stats).
Proof. apply (towers_main_solves 8); unfold NUM_DISCS; simpl; done || lia. Defined.
