(* ===== verification/Barrier.v ===== *)
(** * The barrier of the benchmarks (sw/app/common/util.h)

    [barrier] lets [ncores] threads wait for each other, with a counter, a sense
    and a sense per thread.  Its statements are the steps of a transition system
    in which the threads interleave freely: each step is one access to the shared
    variables, which are [volatile] and, for the counter, atomic. *)

From Stdlib Require Import ZArith Lia.
From stdpp Require Import base tactics list numbers.
From S2P Require Import Prelude.

(** ** The transition system *)

(** Where a thread is: outside of [barrier]; inside, before the addition to
    [count]; having added last, before [count = 0] and before
    [sense = threadsense]; in the [while] loop. *)
Inductive place := Outside | Arriving | Resetting | Releasing | Spinning.

#[export] Instance place_eq_dec : EqDecision place.
Proof. solve_decision. Defined.

(** A thread: its place and its [threadsense], and how many calls it has
    entered and left so far, which the code does not keep. *)
Record thread := Thread { at_ : place; threadsense : Z; entered : nat; left_ : nat }.

Record barrier_state := State { sense : Z; count : Z; threads : list thread }.

(** C's [!]. *)
Definition lnot (x : Z) : Z := if x =? 0 then 1 else 0.

Section Barrier.
Context (ncores : Z).

(** The statements of [barrier], on the shared variables and one thread. *)
Inductive action := Enter | Arrive | Reset_count | Set_sense | Leave.

Definition act (a : action) (sense count : Z) (t : thread) : option (Z * Z * thread) :=
  match a, at_ t with
  | Enter, Outside =>
      (* threadsense = !threadsense *)
      Some (sense, count, Thread Arriving (lnot (threadsense t)) (S (entered t)) (left_ t))
  | Arrive, Arriving =>
      (* if (__sync_fetch_and_add(&count, 1) == ncores-1) *)
      let next := if count =? ncores - 1 then Resetting else Spinning in
      Some (sense, s32 (count + 1), Thread next (threadsense t) (entered t) (left_ t))
  | Reset_count, Resetting =>
      (* count = 0 *)
      Some (sense, 0, Thread Releasing (threadsense t) (entered t) (left_ t))
  | Set_sense, Releasing =>
      (* sense = threadsense *)
      Some (threadsense t, count, Thread Outside (threadsense t) (entered t) (S (left_ t)))
  | Leave, Spinning =>
      (* while(sense != threadsense) ; *)
      if sense =? threadsense t
      then Some (sense, count, Thread Outside (threadsense t) (entered t) (S (left_ t)))
      else None
  | _, _ => None
  end.

(** One thread takes a step.  A round of the [while] loop that finds the senses
    different changes nothing and is left out. *)
Inductive step : barrier_state -> barrier_state -> Prop :=
| step_thread i a t t' s c s' c' ts :
    ts !! i = Some t -> act a s c t = Some (s', c', t') ->
    step (State s c ts) (State s' c' (<[i := t']> ts)).

(** The static variables are zero at the start, and no thread is inside. *)
Definition initial : barrier_state :=
  State 0 0 (replicate (Z.to_nat ncores) (Thread Outside 0 0 0)).

Inductive reachable : barrier_state -> Prop :=
| reachable_initial : reachable initial
| reachable_step s s' : reachable s -> step s s' -> reachable s'.

(** ** The invariant *)

(** How many threads of a list have a property. *)
Definition tally (f : thread -> bool) (ts : list thread) : Z :=
  foldr (fun t n => (if f t then 1 else 0) + n) 0 ts.

Lemma tally_insert f ts i t t' :
  ts !! i = Some t ->
  tally f (<[i := t']> ts) =
    tally f ts - (if f t then 1 else 0) + (if f t' then 1 else 0).
Proof.
  revert i. induction ts as [|u ts IH]; intros [|i] Hi; simplify_eq/=; [lia|].
  rewrite (IH i) by done. lia.
Qed.

Lemma tally_bounds f ts : 0 <= tally f ts <= Z.of_nat (length ts).
Proof. induction ts as [|u ts IH]; simpl; [lia|]. case_match; lia. Qed.

Lemma tally_all f ts :
  tally f ts = Z.of_nat (length ts) -> Forall (fun t => f t = true) ts.
Proof.
  induction ts as [|u ts IH]; simpl; [done|]. pose proof (tally_bounds f ts).
  destruct (f u) eqn:E; intros H'; [|lia]. constructor; [done|]. apply IH. lia.
Qed.

Lemma tally_pos f ts i t : ts !! i = Some t -> f t = true -> 1 <= tally f ts.
Proof.
  revert i. induction ts as [|u ts IH]; intros [|i] Hi Hf; simplify_eq/=.
  - rewrite Hf. pose proof (tally_bounds f ts). lia.
  - apply IH in Hi; [|done]. case_match; lia.
Qed.

Lemma tally_zero f ts : (forall t, t ∈ ts -> f t = false) -> tally f ts = 0.
Proof.
  induction ts as [|u ts IH]; intros H; simpl; [done|].
  rewrite H by left. rewrite IH; [lia|]. intros t Ht. apply H. by right.
Qed.

(** Waiting in the current round; last of the round. *)
Definition waiting (r : nat) (t : thread) : bool :=
  bool_decide (at_ t = Spinning) && bool_decide (entered t = S r).
Definition last (p : place) (t : thread) : bool := bool_decide (at_ t = p).

Definition parity (n : nat) : Z := Z.of_nat n mod 2.

Lemma lnot_parity n : lnot (parity n) = parity (S n).
Proof. unfold lnot, parity. destruct (Z.eqb_spec (Z.of_nat n mod 2) 0); divlia. Qed.

(** A thread in a state where [r] rounds are complete. *)
Definition thread_ok (r : nat) (t : thread) : Prop :=
  threadsense t = parity (entered t) /\
  match at_ t with
  | Outside => entered t = r /\ left_ t = r
  | Spinning => entered t = S (left_ t) /\ (left_ t = r \/ S (left_ t) = r)
  | _ => entered t = S r /\ left_ t = r
  end.

(** [r] rounds are complete; the counter is the number of threads that have
    arrived, except between [count = 0] and the release, when all have. *)
Record inv (r : nat) (s : barrier_state) : Prop := {
  inv_len : Z.of_nat (length (threads s)) = ncores;
  inv_sense : sense s = parity r;
  inv_threads : forall i t, threads s !! i = Some t -> thread_ok r t;
  inv_last : tally (last Resetting) (threads s) + tally (last Releasing) (threads s) <= 1;
  inv_count :
    count s + ncores * tally (last Releasing) (threads s) =
      tally (waiting r) (threads s) + tally (last Resetting) (threads s) +
      tally (last Releasing) (threads s);
  inv_full :
    tally (waiting r) (threads s) < ncores /\
    (1 <= tally (last Resetting) (threads s) + tally (last Releasing) (threads s) ->
     tally (waiting r) (threads s) = ncores - 1);
}.

Hypothesis some_cores : 0 < ncores < 2147483648.

Lemma inv_initial : inv 0 initial.
Proof.
  unfold initial. split; simpl.
  - rewrite length_replicate. lia.
  - done.
  - intros i t Hi. apply lookup_replicate in Hi as [-> _]. by split.
  - rewrite !tally_zero; [lia|..]; intros t Ht; apply elem_of_replicate in Ht as [-> _]; done.
  - rewrite !tally_zero; [lia|..]; intros t Ht; apply elem_of_replicate in Ht as [-> _]; done.
  - rewrite !tally_zero; [lia|..]; intros t Ht; apply elem_of_replicate in Ht as [-> _]; done.
Qed.

Lemma tally_places r ts :
  tally (waiting r) ts + tally (last Resetting) ts + tally (last Releasing) ts +
  tally (last Arriving) ts <= Z.of_nat (length ts).
Proof.
  clear some_cores. induction ts as [|[p s e l] ts IH]; simpl; [lia|].
  unfold waiting at 1, last at 1 3 5. simpl.
  repeat case_bool_decide; simpl; congruence || lia.
Qed.

Lemma tally_not f ts i t :
  ts !! i = Some t -> f t = false -> tally f ts <= Z.of_nat (length ts) - 1.
Proof.
  clear some_cores. revert i. induction ts as [|u ts IH]; intros [|i] Hi Hf; simplify_eq/=.
  - rewrite Hf. pose proof (tally_bounds f ts). lia.
  - apply IH in Hi; [|done]. case_match; lia.
Qed.

(** If all threads but one are counted, and one is not, the others are. *)
Lemma tally_all_but f ts i j t u :
  ts !! i = Some t -> f t = false -> tally f ts = Z.of_nat (length ts) - 1 ->
  ts !! j = Some u -> i <> j -> f u = true.
Proof.
  clear some_cores. intros Hi Ht Hall Hj Hne. destruct (f u) eqn:Hu; [done|]. exfalso.
  revert i j Hi Hj Hne Hall. induction ts as [|v ts IH]; intros [|i] [|j] Hi Hj Hne Hall;
    simplify_eq/=.
  - rewrite Ht in Hall. pose proof (tally_not f ts j u Hj Hu). lia.
  - rewrite Hu in Hall. pose proof (tally_not f ts i t Hi Ht). lia.
  - apply (IH i j); [done..|lia|]. pose proof (tally_not f ts i t Hi Ht).
    destruct (f v); lia.
Qed.

Lemma inv_step r s s' : inv r s -> step s s' -> inv r s' \/ inv (S r) s'.
Proof.
  intros [Hlen Hsense Hth Hlast Hcount [Hfull Hfull']] Hstep.
  destruct Hstep as [i a t t' sn c sn' c' ts Hi Hact]. cbn [threads sense count] in *.
  destruct (Hth i t Hi) as [Hts Hok].
  pose proof (tally_places r ts) as Hplaces. rewrite Hlen in Hplaces.
  assert (Htally : forall f, tally f (<[i := t']> ts) =
    tally f ts - (if f t then 1 else 0) + (if f t' then 1 else 0)).
  { intros f. by apply tally_insert. }
  assert (Hothers : forall r' j u, (forall u, ts !! j = Some u -> thread_ok r' u) ->
    thread_ok r' t' -> <[i := t']> ts !! j = Some u -> thread_ok r' u).
  { intros r' j u Hj Ht' Hl. apply list_lookup_insert_Some in Hl as [(_ & <- & _)|[_ ?]]; auto. }
  destruct a, t as [p tsn e l]; destruct p; cbn [act at_ threadsense entered left_] in *;
    try discriminate.
  - (* enter *)
    injection Hact as <- <- <-. destruct Hok as [-> ->]. left.
    split; cbn [threads sense count]; rewrite ?length_insert, ?Htally; try done;
      unfold waiting, last in *; cbn [at_ entered] in *;
      rewrite ?bool_decide_eq_false_2 by congruence; simpl; try lia.
    intros j u. apply Hothers; [by intros; eapply Hth|].
    split; [by rewrite Hts, lnot_parity|done].
  - (* arrive *)
    destruct Hok as [-> ->]. left.
    assert (1 <= tally (last Arriving) ts) as Harr by (by eapply tally_pos).
    pose proof (tally_bounds (waiting r) ts).
    pose proof (tally_bounds (last Resetting) ts). pose proof (tally_bounds (last Releasing) ts).
    assert (tally (last Resetting) ts = 0 /\ tally (last Releasing) ts = 0) as [Hr Hl] by lia.
    rewrite Hr, Hl in *. rewrite Z.mul_0_r in Hcount.
    rewrite (s32_id (c + 1)) in Hact by lia.
    destruct (Z.eqb_spec c (ncores - 1)) as [Hc|Hc]; injection Hact as <- <- <-;
      (split; cbn [threads sense count]; rewrite ?length_insert, ?Htally, ?Hr, ?Hl; try done;
       unfold waiting, last in *; cbn [at_ entered] in *;
       rewrite ?(bool_decide_eq_true_2 (S r = S r)) by done;
       rewrite ?bool_decide_eq_false_2 by congruence; simpl; try lia);
      intros j u; apply Hothers; try (by intros; eapply Hth); repeat split; auto.
  - (* count = 0 *)
    injection Hact as <- <- <-. destruct Hok as [-> ->]. left.
    assert (1 <= tally (last Resetting) ts) as Hres by (by eapply tally_pos).
    pose proof (tally_bounds (last Releasing) ts).
    assert (tally (last Resetting) ts = 1 /\ tally (last Releasing) ts = 0) as [Hr Hl] by lia.
    specialize (Hfull' ltac:(lia)). rewrite Hr, Hl in *.
    split; cbn [threads sense count]; rewrite ?length_insert, ?Htally, ?Hr, ?Hl; try done;
      unfold waiting, last in *; cbn [at_ entered] in *;
      rewrite ?(bool_decide_eq_true_2 (S r = S r)) by done;
      rewrite ?bool_decide_eq_false_2 by congruence; simpl; try lia.
    intros j u. apply Hothers; [by intros; eapply Hth|]. by split.
  - (* sense = threadsense *)
    injection Hact as <- <- <-. destruct Hok as [-> ->]. right.
    assert (1 <= tally (last Releasing) ts) as Hrel by (by eapply tally_pos).
    pose proof (tally_bounds (last Resetting) ts).
    assert (tally (last Resetting) ts = 0 /\ tally (last Releasing) ts = 1) as [Hr Hl] by lia.
    specialize (Hfull' ltac:(lia)). rewrite Hr, Hl in *.
    assert (Hall : forall j u, i <> j -> ts !! j = Some u -> waiting r u = true).
    { intros j u Hne Hj. eapply (tally_all_but (waiting r) ts i j); [done|done|lia|done..]. }
    assert (Hth' : forall j u,
      <[i := Thread Outside tsn (S r) (S r)]> ts !! j = Some u ->
        thread_ok (S r) u /\ entered u = S r).
    { intros j u Hj. apply list_lookup_insert_Some in Hj as [(_ & <- & _)|[Hne Hj]].
      - by repeat split.
      - pose proof (Hall j u Hne Hj) as Hw. destruct (Hth j u Hj) as [Hs Ho].
        unfold waiting in Hw. apply andb_true_iff in Hw as [Hp He].
        apply bool_decide_eq_true in Hp, He. split; [split; [done|]|done].
        rewrite Hp in *. lia. }
    assert (Hnone : tally (waiting (S r)) (<[i := Thread Outside tsn (S r) (S r)]> ts) = 0).
    { apply tally_zero. intros u Hu. apply list_elem_of_lookup in Hu as [j Hj].
      destruct (Hth' j u Hj) as [_ Ho]. unfold waiting.
      rewrite (bool_decide_eq_false_2 (entered u = _)) by lia. by rewrite andb_false_r. }
    split; cbn [threads sense count]; rewrite ?Hnone, ?length_insert, ?Htally, ?Hr, ?Hl;
      try done; unfold last in *; cbn [at_] in *;
      rewrite ?(bool_decide_eq_true_2 (S r = S r)) by done;
      rewrite ?bool_decide_eq_false_2 by congruence; simpl; try lia.
    intros j u Hj. by apply (Hth' j u).
  - (* leave *)
    destruct (Z.eqb_spec sn tsn) as [Heq|]; [|done]. injection Hact as <- <- <-. left.
    assert (e = r /\ S l = r) as [-> Hl].
    { destruct Hok as [-> Hl]. rewrite Hsense, Hts in Heq.
      destruct Hl as [->|<-]; [|done]. unfold parity in Heq. exfalso. divlia. }
    split; cbn [threads sense count]; rewrite ?length_insert, ?Htally; try done;
      unfold waiting, last in *; cbn [at_ entered] in *;
      rewrite ?(bool_decide_eq_false_2 (r = S r)) by lia;
      rewrite ?bool_decide_eq_false_2 by congruence; simpl; rewrite ?andb_false_r; try lia.
    intros j u. apply Hothers; [by intros; eapply Hth|]. by split.
Qed.

Lemma reachable_inv s : reachable s -> exists r, inv r s.
Proof.
  induction 1 as [|s s' _ [r Hinv] Hstep]; [exists O; apply inv_initial|].
  destruct (inv_step r s s' Hinv Hstep); eauto.
Qed.

(** A step other than entering the barrier. *)
Definition advances (s : barrier_state) : Prop :=
  exists i a t r, a <> Enter /\ threads s !! i = Some t /\ act a (sense s) (count s) t = Some r.

Lemma inv_advances r s :
  inv r s -> (forall i t, threads s !! i = Some t -> at_ t <> Outside) -> advances s.
Proof.
  intros [Hlen Hsense Hth Hlast Hcount [Hfull _]] Hin.
  destruct (decide (Exists (fun t => waiting r t = false) (threads s))) as [Hex|Hall].
  - apply Exists_exists in Hex as (t & Ht & Hw). apply list_elem_of_In in Ht. apply list_elem_of_lookup in Ht as [i Hi].
    destruct (Hth i t Hi) as [Hts Hok]. specialize (Hin i t Hi).
    exists i. destruct t as [[] ts e l]; cbn [at_ threadsense entered left_] in *; [done|..].
    + exists Arrive. by do 2 eexists.
    + exists Reset_count. by do 2 eexists.
    + exists Set_sense. by do 2 eexists.
    + exists Leave. do 2 eexists. split; [done|]. split; [done|]. cbn [act at_ threadsense].
      unfold waiting in Hw. cbn [at_ entered] in Hw.
      rewrite bool_decide_eq_true_2 in Hw by done. apply bool_decide_eq_false in Hw.
      assert (e = r) as -> by lia. by rewrite Hsense, Hts, Z.eqb_refl.
  - exfalso. assert (tally (waiting r) (threads s) = ncores) as E; [|lia].
    rewrite <-Hlen. apply not_Exists_Forall in Hall; [|apply _]. clear -Hall.
    induction Hall as [|t ts Ht _ IH]; [done|]. apply not_false_is_true in Ht.
    simpl. rewrite Ht, IH. lia.
Qed.
End Barrier.

(** C23: [barrier] synchronises: in every reachable state, whatever the
    interleaving, a thread that has left its k-th call finds that every thread
    has entered its own k-th call; no thread is more than one call ahead of
    what any other has left; and the threads never block: as long as they are
    all inside, one of them can make a step. *)
Theorem barrier_synchronises ncores s :
  0 < ncores < 2147483648 -> reachable ncores s ->
  (forall i j t u, threads s !! i = Some t -> threads s !! j = Some u ->
     (left_ t <= entered u)%nat /\ (entered t <= S (S (left_ u)))%nat) /\
  ((forall i t, threads s !! i = Some t -> at_ t <> Outside) -> advances ncores s).
Proof.
  intros Hn Hs. apply reachable_inv in Hs as [r Hinv]; [|done].
  split; [|by apply (inv_advances _ r)].
  intros i j t u Hi Hj.
  destruct (inv_threads _ _ _ Hinv i t Hi) as [_ Ht].
  destruct (inv_threads _ _ _ Hinv j u Hj) as [_ Hu].
  destruct (at_ t), (at_ u); lia.
Qed.

(** Two threads; the second one has released the first, which still spins. *)
Definition released : barrier_state :=
  State 1 0 [Thread Spinning 1 1 0; Thread Outside 1 1 1].

Lemma reachable_released : reachable 2 released.
Proof.
  assert (forall s i a t t' sn' c', reachable 2 s -> threads s !! i = Some t ->
    act 2 a (sense s) (count s) t = Some (sn', c', t') ->
    reachable 2 (State sn' c' (<[i := t']> (threads s)))) as Hgo.
  { intros [sn c ts] i a t t' sn' c' Hs Hi Ha. eapply reachable_step; [exact Hs|].
    eapply step_thread; [exact Hi|exact Ha]. }
  pose proof (reachable_initial 2) as H.
  eapply (Hgo _ 0%nat Enter) in H; [|reflexivity|reflexivity]. cbn in H.
  eapply (Hgo _ 1%nat Enter) in H; [|reflexivity|reflexivity]. cbn in H.
  eapply (Hgo _ 0%nat Arrive) in H; [|reflexivity|reflexivity]. cbn in H.
  eapply (Hgo _ 1%nat Arrive) in H; [|reflexivity|reflexivity]. cbn in H.
  eapply (Hgo _ 1%nat Reset_count) in H; [|reflexivity|reflexivity]. cbn in H.
  eapply (Hgo _ 1%nat Set_sense) in H; [|reflexivity|reflexivity]. exact H.
Qed.

Example barrier_synchronises_witness :
  reachable 2 released /\
  (forall t u, threads released !! 1%nat = Some t -> threads released !! 0%nat = Some u ->
     (left_ t <= entered u)%nat).
Proof.
  split; [exact reachable_released|]. intros t u Ht Hu.
  exact (proj1 (proj1 (barrier_synchronises 2 released ltac:(lia) reachable_released)
    1%nat 0%nat t u Ht Hu)).
Defined.
