(* ===== verification/Pmp.v ===== *)
(** * The test of physical memory protection (sw/app/pmp/pmp.c)

    The program sets a PMP entry, predicts for every access to a page whether the
    hardware must refuse it, makes the access and compares.  The hardware is a
    parameter: whether there is a PMP, and which loads it allows for given
    registers.  [exit] ends the program with a code. *)

From Stdlib Require Import ZArith Lia.
From stdpp Require Import base tactics list numbers.
From S2P Require Import Prelude CArray.

(** ** Constants (encoding.h) *)

Definition PMP_R : Z := 1.
Definition PMP_A : Z := 24.
Definition PMP_TOR : Z := 8.
Definition PMP_NA4 : Z := 16.
Definition PMP_NAPOT : Z := 24.
Definition PMP_SHIFT : Z := 2.
Definition PTE_V : Z := 1.
Definition PTE_R : Z := 2.
Definition PTE_W : Z := 4.
Definition PTE_A : Z := 64.
Definition PTE_D : Z := 128.
Definition PTE_PPN_SHIFT : Z := 10.
Definition RISCV_PGSHIFT : Z := 12.
Definition RISCV_PGSIZE : Z := 4096.
Definition SCRATCH : Z := RISCV_PGSIZE.
Definition GRANULE : Z := 4.
Definition max_exhaustive : Z := 32.

(** ** Programs that may exit *)

(** The registers, the words of the page tables by address, and
    [trap_expected]. *)
Record state := State {
  sptbr : Z; pmpcfg0 : Z; pmpaddr0 : Z; pmpaddr1 : Z; pmpaddr2 : Z;
  tables : Z -> Z; trap_expected : bool;
}.

Definition X (A : Type) : Type := state -> Z + (A * state).
Definition xret {A} (a : A) : X A := fun s => inr (a, s).
Definition xbind {A B} (m : X A) (k : A -> X B) : X B :=
  fun s => match m s with inl code => inl code | inr (a, s) => k a s end.
Definition exit {A} (code : Z) : X A := fun _ => inl code.
Definition upd (f : state -> state) : X unit := fun s => inr (tt, f s).
Fixpoint each {A} (l : list A) (f : A -> X unit) : X unit :=
  match l with
  | [] => xret tt
  | a :: l => xbind (f a) (fun _ => each l f)
  end.

Definition set_trap_expected (b : bool) (s : state) : state :=
  State (sptbr s) (pmpcfg0 s) (pmpaddr0 s) (pmpaddr1 s) (pmpaddr2 s) (tables s) b.
Definition store_word (a v : Z) (s : state) : state :=
  State (sptbr s) (pmpcfg0 s) (pmpaddr0 s) (pmpaddr1 s) (pmpaddr2 s)
    (fun k => if k =? a then v else tables s k) (trap_expected s).
Definition set_sptbr (v : Z) (s : state) : state :=
  State v (pmpcfg0 s) (pmpaddr0 s) (pmpaddr1 s) (pmpaddr2 s) (tables s) (trap_expected s).

(** [for (x = a; x < b; x += step)]. *)
Definition steps (a b step : Z) : list Z :=
  map (fun k => a + step * k) (seqZ 0 ((b - a + step - 1) / step)).

Record pmpcfg_t := { cfg : Z; a0 : Z; a1 : Z }.

Section Pmp.
(** The width of the machine, and the physical address of the page. *)
Context (xlen : Z) (scratch : Z).
(** The hardware: whether it has a PMP, and the loads it allows for given
    registers and page tables. *)
Context (pmp_implemented : bool) (load_allowed : state -> Z -> Z -> bool).

Definition up (z : Z) : Z := z mod 2 ^ xlen.

Definition in_page (va : Z) : bool := (SCRATCH <=? va) && (va <? SCRATCH + RISCV_PGSIZE).
Definition va2pa (va : Z) : X Z :=
  if in_page va then xret (up (va - SCRATCH + scratch)) else exit 3.

(** The loop of [pmp_ok] that decodes a NAPOT address: [i] runs over the bits. *)
Fixpoint napot (n : nat) (i a range : Z) : Z * Z :=
  match n with
  | O => (a, range)
  | S n =>
      if Z.land a i =? 0 then (a, range)
      else napot n (up (Z.shiftl i 1)) (Z.land a (Z.lnot i)) (up (Z.shiftl range 1))
  end.

(** The addresses an entry covers, in bytes. *)
Definition entry_range (p : pmpcfg_t) : Z * Z :=
  let '(lo, hi) :=
    if Z.land (cfg p) PMP_A =? PMP_TOR then (a0 p, a1 p)
    else
      let '(a, range) :=
        if Z.land (cfg p) PMP_A =? PMP_NAPOT then napot (Z.to_nat xlen) 1 (a1 p) 2
        else (a1 p, 1) in
      (a, up (a + range)) in
  (up (lo * GRANULE), up (hi * GRANULE)).

Definition pmp_ok (p : pmpcfg_t) (addr size : Z) : X bool :=
  if Z.land (cfg p) PMP_A =? 0 then xret true
  else
    let '(lo, hi) := entry_range p in
    xbind (va2pa addr) (fun addr =>
    let hits := foldl (fun hits i =>
      if (lo <=? up (addr + i)) && (up (addr + i) <? hi) then hits + GRANULE else hits)
      0 (steps 0 size GRANULE) in
    xret ((hits =? 0) || (size <=? hits))).

(** A load that the hardware refuses traps to [handle_trap]. *)
Definition handle_trap : X unit :=
  fun s => if trap_expected s then inr (tt, set_trap_expected false s) else inl 1.

Definition test_one (addr size : Z) : X unit :=
  fun s => if load_allowed (set_trap_expected false s) addr size then inr (tt, s)
           else handle_trap s.

(** [for (size = 1; size <= sizeof(uintptr_t); size *= 2)]. *)
Definition sizes : list Z := if xlen =? 64 then [1; 2; 4; 8] else [1; 2; 4].

(** The body of that loop. *)
Definition test_size (p : pmpcfg_t) (addr size : Z) : X unit :=
  if negb (Z.land addr (size - 1) =? 0) then xret tt
  else
    xbind (pmp_ok p addr size) (fun ok =>
    xbind (upd (set_trap_expected (negb ok))) (fun _ =>
    xbind (test_one addr size) (fun _ =>
    fun s => if trap_expected s then inl 2 else inr (tt, s)))).

Definition test_all_sizes (p : pmpcfg_t) (addr : Z) : X unit :=
  each sizes (fun size => test_size p addr size).

Definition test_range_once (p : pmpcfg_t) (base range : Z) : X unit :=
  each (steps base (base + range) GRANULE) (fun addr => test_all_sizes p addr).

Definition set_pmp (p : pmpcfg_t) : X pmpcfg_t :=
  fun s =>
    let cfg0 := Z.land (pmpcfg0 s) (Z.lnot 65280) in
    inr (p, State (sptbr s) (up (Z.lor (Z.land (up (Z.shiftl (cfg p) 8)) 65280) cfg0)) (a0 p) (a1 p)
              (pmpaddr2 s) (tables s) (trap_expected s)).

Definition range_entry (base range : Z) : pmpcfg_t :=
  {| cfg := Z.lor PMP_TOR PMP_R; a0 := Z.shiftr base PMP_SHIFT;
     a1 := Z.shiftr (up (base + range)) PMP_SHIFT |}.
Definition set_pmp_range (base range : Z) : X pmpcfg_t := set_pmp (range_entry base range).

Definition napot_entry (base range : Z) : pmpcfg_t :=
  {| cfg := Z.lor PMP_R (if GRANULE <? range then PMP_NAPOT else PMP_NA4); a0 := 0;
     a1 := Z.shiftr (up (base + (range / 2 - 1))) PMP_SHIFT |}.
Definition set_pmp_napot (base range : Z) : X pmpcfg_t := set_pmp (napot_entry base range).

Definition is_napot (addr range : Z) : bool :=
  (Z.land range (range - 1) =? 0) && (Z.land addr (range - 1) =? 0).

Definition test_range (addr range : Z) : X unit :=
  xbind (va2pa addr) (fun pa =>
  xbind (set_pmp_range pa range) (fun p =>
  xbind (test_range_once p addr range) (fun _ =>
  if is_napot addr range then
    xbind (va2pa addr) (fun pa =>
    xbind (set_pmp_napot pa range) (fun p =>
    test_range_once p addr range))
  else xret tt))).

Definition test_ranges (addr size : Z) : X unit :=
  each (steps GRANULE (size + 1) GRANULE) (fun range => test_range addr range).

Definition exhaustive_test (addr size : Z) : X unit :=
  each (steps addr (addr + size) GRANULE) (fun base => test_ranges base (size - (base - addr))).

(** The page tables: where they are (the last two are one on a 32-bit machine),
    and the mode field of [sptbr], which encoding.h does not define. *)
Context (l1pt l2pt l3pt_64 satp_mode : Z).
Definition l3pt : Z := if xlen =? 64 then l3pt_64 else l2pt.
Definition word_bytes : Z := xlen / 8.

(** A pointer to the next table, and the entry of a page. *)
Definition pte_table (pa : Z) : Z :=
  Z.lor (up (Z.shiftl (Z.shiftr pa RISCV_PGSHIFT) PTE_PPN_SHIFT)) PTE_V.
Definition pte_page (pa : Z) : Z :=
  Z.lor (up (Z.shiftl (Z.shiftr pa RISCV_PGSHIFT) PTE_PPN_SHIFT))
    (Z.lor PTE_A (Z.lor PTE_D (Z.lor PTE_V (Z.lor PTE_R PTE_W)))).

(** On a machine without a PMP the first access to its registers is an illegal
    instruction, and [handle_trap] exits. *)
Definition init_pt : X unit :=
  xbind (upd (store_word l1pt (pte_table l2pt))) (fun _ =>
  xbind (upd (store_word (l3pt + word_bytes * (SCRATCH / RISCV_PGSIZE)) (pte_page scratch))) (fun _ =>
  xbind (if xlen =? 64 then upd (store_word l2pt (pte_table l3pt)) else xret tt) (fun _ =>
  xbind (upd (set_sptbr (Z.lor (Z.shiftr l1pt RISCV_PGSHIFT) satp_mode))) (fun _ =>
  if pmp_implemented then
    upd (fun s => State (sptbr s) (Z.shiftl (Z.lor PMP_NAPOT PMP_R) 16) (pmpaddr0 s) (pmpaddr1 s)
                    (2 ^ xlen - 1) (tables s) (trap_expected s))
  else exit 0)))).

Definition main : X unit :=
  xbind init_pt (fun _ =>
  xbind (exhaustive_test SCRATCH max_exhaustive) (fun _ =>
  xbind (exhaustive_test (SCRATCH + RISCV_PGSIZE - max_exhaustive) max_exhaustive) (fun _ =>
  xbind (test_range SCRATCH RISCV_PGSIZE) (fun _ =>
  xbind (test_range SCRATCH (RISCV_PGSIZE / 2)) (fun _ =>
  test_range (SCRATCH + RISCV_PGSIZE / 2) (RISCV_PGSIZE / 2)))))).

Definition exit_code {A} (m : X A) (s : state) : Z :=
  match m s with inl code => code | inr _ => 0 end.
End Pmp.

(** ** What the program should predict *)

(** A load of [size] bytes is refused when some, but not all, of its bytes are in
    the range of the entry. *)
Definition access_ok (lo hi pa size : Z) : bool :=
  ((lo <=? pa) && (pa + size <=? hi)) || ((pa + size <=? lo) || (hi <=? pa)).

(** The tests [main] makes: all ranges in the first and in the last 32 bytes of
    the page, the page and its halves. *)
Definition exhaustive_ranges (addr size : Z) : list (Z * Z) :=
  base ← steps addr (addr + size) GRANULE;
  range ← steps GRANULE (size - (base - addr) + 1) GRANULE;
  [(base, range)].
Definition main_ranges : list (Z * Z) :=
  exhaustive_ranges SCRATCH max_exhaustive ++
  exhaustive_ranges (SCRATCH + RISCV_PGSIZE - max_exhaustive) max_exhaustive ++
  [(SCRATCH, RISCV_PGSIZE); (SCRATCH, RISCV_PGSIZE / 2);
   (SCRATCH + RISCV_PGSIZE / 2, RISCV_PGSIZE / 2)].

(** A range is in the page, made of granules, and a power of two when it is
    also tested as a NAPOT entry. *)
Definition range_ok (ar : Z * Z) : bool :=
  let '(addr, range) := ar in
  (SCRATCH <=? addr) && (addr + range <=? SCRATCH + RISCV_PGSIZE) && (0 <? range) &&
  (addr mod 4 =? 0) && (range mod 4 =? 0) &&
  (negb (is_napot addr range) ||
   (range =? 4 * 2 ^ Z.log2 (range / 4)) && (0 <=? Z.log2 (range / 4)) && (addr mod range =? 0)).

Lemma main_ranges_ok : forallb range_ok main_ranges = true.
Proof. vm_compute. reflexivity. Qed.

(** ** Bits of a NAPOT address *)

Lemma land_pow2 a i : 0 <= i -> (Z.land a (2 ^ i) =? 0) = negb (Z.testbit a i).
Proof.
  intros Hi. destruct (Z.testbit a i) eqn:E; simpl.
  - apply Z.eqb_neq. intros H. apply (f_equal (fun z => Z.testbit z i)) in H.
    rewrite Z.land_spec, E, Z.pow2_bits_true, Z.bits_0 in H by done. done.
  - apply Z.eqb_eq, Z.bits_inj'. intros n Hn. rewrite Z.land_spec, Z.bits_0.
    destruct (decide (n = i)) as [->|Hne]; [by rewrite E|].
    by rewrite Z.pow2_bits_false, andb_false_r by done.
Qed.

Lemma land_lnot_pow2 a i : 0 <= i -> Z.testbit a i = true -> Z.land a (Z.lnot (2 ^ i)) = a - 2 ^ i.
Proof.
  intros Hi E. rewrite <-Z.ldiff_land. symmetry. apply Z.sub_nocarry_ldiff.
  apply Z.bits_inj'. intros n Hn. rewrite Z.ldiff_spec, Z.bits_0.
  destruct (decide (n = i)) as [->|Hne]; [by rewrite E, andb_false_r|].
  by rewrite Z.pow2_bits_false by done.
Qed.

Lemma testbit_low_ones c i j :
  0 <= i -> 0 <= j ->
  Z.testbit (c * 2 ^ (i + j + 1) + (2 ^ j - 1) * 2 ^ i) i = negb (j =? 0).
Proof.
  intros Hi Hj. rewrite Z.testbit_odd, Z.shiftr_div_pow2 by done.
  replace (c * 2 ^ (i + j + 1) + (2 ^ j - 1) * 2 ^ i) with ((c * 2 ^ (j + 1) + (2 ^ j - 1)) * 2 ^ i).
  2:{ replace (i + j + 1) with (i + (j + 1)) by lia. rewrite (Z.pow_add_r 2 i) by lia. ring. }
  rewrite Z.div_mul by (apply Z.pow_nonzero; lia).
  rewrite (Z.pow_add_r 2 j 1) by lia. change (2 ^ 1) with 2.
  destruct (Z.eqb_spec j 0) as [->|Hj0].
  - replace (c * (2 ^ 0 * 2) + (2 ^ 0 - 1)) with (2 * c) by (change (2 ^ 0) with 1; lia).
    rewrite Z.odd_mul. done.
  - replace (c * (2 ^ j * 2) + (2 ^ j - 1)) with (2 * (c * 2 ^ j + 2 ^ (j - 1) - 1) + 1).
    + by rewrite Z.odd_add_mul_2, Z.odd_1 || rewrite Z.add_comm, Z.odd_add_mul_2.
    + replace (2 ^ j) with (2 * 2 ^ (j - 1)); [lia|]. rewrite <-Z.pow_succ_r by lia. f_equal. lia.
Qed.

Section Facts.
Context (xlen scratch : Z).
Hypothesis width : xlen = 32 \/ xlen = 64.
Hypothesis page : scratch mod 4096 = 0 /\ 0 <= scratch /\ scratch + 4096 < 2 ^ xlen.

Lemma up_id z : 0 <= z < 2 ^ xlen -> up xlen z = z.
Proof. apply Z.mod_small. Qed.

(** The decoding loop strips the [j] low ones. *)
Lemma napot_ones n i j c r :
  0 <= i -> 0 <= j -> i + j < xlen -> j < Z.of_nat n -> 0 < r -> r * 2 ^ j < 2 ^ xlen ->
  napot xlen n (2 ^ i) (c * 2 ^ (i + j + 1) + (2 ^ j - 1) * 2 ^ i) r =
    (c * 2 ^ (i + j + 1), r * 2 ^ j).
Proof.
  clear width page. revert i j r. induction n as [|n IH]; intros i j r Hi Hj Hij Hn Hr Hlt; [lia|].
  cbn [napot]. rewrite land_pow2, testbit_low_ones, negb_involutive by done.
  destruct (Z.eqb_spec j 0) as [->|Hj0].
  - f_equal; change (2 ^ 0) with 1; lia.
  - rewrite land_lnot_pow2 by
      (done || rewrite testbit_low_ones by done; by rewrite (proj2 (Z.eqb_neq _ _))).
    rewrite !Z.shiftl_mul_pow2 by lia. change (2 ^ 1) with 2.
    assert (2 ^ j = 2 * 2 ^ (j - 1)) as Ej
      by (rewrite <-Z.pow_succ_r by lia; f_equal; lia).
    pose proof (Z.pow_pos_nonneg 2 (j - 1)).
    rewrite !up_id; [|nia|].
    2:{ split; [lia|]. replace (2 ^ i * 2) with (2 ^ (i + 1))
          by (rewrite Z.pow_add_r by lia; done).
        apply Z.pow_lt_mono_r; lia. }
    replace (2 ^ i * 2) with (2 ^ (i + 1)) by (rewrite Z.pow_add_r by lia; done).
    replace (c * 2 ^ (i + j + 1) + (2 ^ j - 1) * 2 ^ i - 2 ^ i)
      with (c * 2 ^ (i + 1 + (j - 1) + 1) + (2 ^ (j - 1) - 1) * 2 ^ (i + 1)).
    2:{ replace (i + 1 + (j - 1) + 1) with (i + j + 1) by lia.
        rewrite (Z.pow_add_r 2 i 1) by lia. change (2 ^ 1) with 2. rewrite Ej. ring. }
    rewrite IH by (lia || nia).
    f_equal; [f_equal; f_equal; lia|]. rewrite Ej. ring.
Qed.

Lemma range_entry_range base range :
  0 <= base -> 0 < range -> base + range < 2 ^ xlen -> base mod 4 = 0 -> range mod 4 = 0 ->
  entry_range xlen (range_entry xlen base range) = (base, base + range).
Proof.
  clear width page. intros Hb Hr Hlt Hb4 Hr4. unfold entry_range, range_entry. cbn [cfg a0 a1].
  change (Z.land (Z.lor PMP_TOR PMP_R) PMP_A =? PMP_TOR) with true. cbn iota.
  unfold PMP_SHIFT, GRANULE. rewrite !Z.shiftr_div_pow2 by lia. change (2 ^ 2) with 4.
  rewrite (up_id (base + range)) by lia.
  replace (base / 4 * 4) with base by divlia.
  replace ((base + range) / 4 * 4) with (base + range) by divlia.
  by rewrite !up_id by lia.
Qed.

Lemma napot_entry_range base j :
  0 <= base -> 0 <= j -> base + 4 * 2 ^ j < 2 ^ xlen -> base mod (4 * 2 ^ j) = 0 ->
  entry_range xlen (napot_entry xlen base (4 * 2 ^ j)) = (base, base + 4 * 2 ^ j).
Proof.
  clear page. intros Hb Hj Hlt Hal. unfold entry_range, napot_entry. cbn [cfg a0 a1].
  unfold PMP_SHIFT, GRANULE.
  pose proof (Z.pow_pos_nonneg 2 j ltac:(lia) Hj).
  destruct (Z.div_exact base (4 * 2 ^ j)) as [_ Hc]; [lia|]. specialize (Hc Hal).
  set (c := base / (4 * 2 ^ j)) in *.
  destruct (Z.eqb_spec j 0) as [->|Hj0].
  - change (4 * 2 ^ 0) with 4 in *. change (4 <? 4) with false. cbn iota.
    change (Z.land (Z.lor PMP_R PMP_NA4) PMP_A) with 16.
    change (16 =? PMP_TOR) with false. change (16 =? PMP_NAPOT) with false. cbn iota.
    change (4 / 2 - 1) with 1. rewrite (up_id (base + 1)) by lia.
    rewrite Z.shiftr_div_pow2 by lia. change (2 ^ 2) with 4.
    replace ((base + 1) / 4) with c by divlia.
    rewrite (up_id (c + 1)), !up_id by lia. apply f_equal2; lia.
  - assert (2 ^ j = 2 * 2 ^ (j - 1)) as Ej
      by (rewrite <-Z.pow_succ_r by lia; f_equal; lia).
    pose proof (Z.pow_pos_nonneg 2 (j - 1) ltac:(lia) ltac:(lia)).
    rewrite (proj2 (Z.ltb_lt 4 _)) by lia.
    change (Z.land (Z.lor PMP_R PMP_NAPOT) PMP_A) with 24.
    change (24 =? PMP_TOR) with false. change (24 =? PMP_NAPOT) with true. cbn iota.
    replace (4 * 2 ^ j / 2) with (4 * 2 ^ (j - 1)) by (rewrite Ej; divlia).
    rewrite up_id by lia. rewrite Z.shiftr_div_pow2 by lia. change (2 ^ 2) with 4.
    replace ((base + (4 * 2 ^ (j - 1) - 1)) / 4)
      with (c * 2 ^ (0 + (j - 1) + 1) + (2 ^ (j - 1) - 1) * 2 ^ 0).
    2:{ change (2 ^ 0) with 1. replace (0 + (j - 1) + 1) with j by lia.
        apply (Z.div_unique _ _ _ 3); lia. }
    assert (2 ^ j < 2 ^ xlen) as Hjx by nia.
    apply Z.pow_lt_mono_r_iff in Hjx as Hjx'; [|lia|lia].
    change 1 with (2 ^ 0) at 1. rewrite napot_ones by lia.
    replace (0 + (j - 1) + 1) with j by lia.
    replace (2 * 2 ^ (j - 1)) with (2 ^ j) by lia.
    rewrite (up_id (c * 2 ^ j + 2 ^ j)) by nia.
    rewrite !up_id by nia. apply f_equal2; nia.
Qed.

(** ** The prediction *)

Lemma access_granule lo hi pa size :
  lo mod 4 = 0 -> hi mod 4 = 0 -> size = 1 \/ size = 2 \/ size = 4 -> pa mod size = 0 ->
  access_ok lo hi pa size = true.
Proof.
  clear width page. intros Hlo Hhi Hs Hpa. unfold access_ok.
  destruct (Z.leb_spec lo pa), (Z.leb_spec (pa + size) hi), (Z.leb_spec (pa + size) lo),
    (Z.leb_spec hi pa); try done; exfalso; destruct Hs as [->|[->| ->]]; divlia.
Qed.

Lemma pmp_ok_spec p lo hi addr size s :
  Z.land (cfg p) PMP_A <> 0 -> entry_range xlen p = (lo, hi) ->
  0 <= lo -> lo < hi < 2 ^ xlen -> lo mod 4 = 0 -> hi mod 4 = 0 ->
  in_page addr = true -> size ∈ sizes xlen -> addr mod size = 0 ->
  pmp_ok xlen scratch p addr size s =
    inr (access_ok lo hi (addr - SCRATCH + scratch) size, s).
Proof.
  intros Hcfg Hrange Hlo Hhi Hl4 Hh4 Hpage Hsize Hal. unfold pmp_ok.
  rewrite (proj2 (Z.eqb_neq _ _)), Hrange by done. unfold xbind, va2pa. rewrite Hpage.
  unfold in_page, SCRATCH, RISCV_PGSIZE in *. unfold xret.
  apply andb_true_iff in Hpage as [Hp1%Z.leb_le Hp2%Z.ltb_lt].
  rewrite (up_id (addr - 4096 + scratch)) by lia.
  set (pa := addr - 4096 + scratch).
  assert (size = 1 \/ size = 2 \/ size = 4 \/ size = 8) as Hs.
  { unfold sizes in Hsize. destruct (xlen =? 64); rewrite !list.elem_of_cons in Hsize;
      (repeat destruct Hsize as [->|Hsize]; try by apply list.elem_of_nil in Hsize); lia. }
  assert (pa mod size = 0) as Hpa.
  { unfold pa. destruct page as [Hsc _]. clear -Hs Hsc Hal.
    repeat destruct Hs as [->|Hs]; try subst size; divlia. }
  f_equal. f_equal.
  destruct Hs as [Hs|[Hs|[Hs|Hs]]].
  4:{ subst size. change (steps 0 8 GRANULE) with [0; 4]. cbn [foldl].
      assert (addr + 8 <= 8192) by (clear -Hal Hp2; divlia).
      rewrite Z.add_0_r, !up_id by (unfold pa; lia). unfold GRANULE, access_ok.
      clearbody pa. destruct Hhi as [Hhi _]. clear -Hpa Hl4 Hh4 Hhi.
      apply Z.div_exact in Hpa, Hl4, Hh4; [|lia..].
      set (k := pa / 8) in *. set (a := lo / 4) in *. set (b := hi / 4) in *.
      clearbody k a b. subst pa lo hi.
      destruct (Z.leb_spec (4 * a) (8 * k)), (Z.ltb_spec (8 * k) (4 * b)),
        (Z.leb_spec (4 * a) (8 * k + 4)), (Z.ltb_spec (8 * k + 4) (4 * b)),
        (Z.leb_spec (8 * k + 8) (4 * b)), (Z.leb_spec (8 * k + 8) (4 * a)),
        (Z.leb_spec (4 * b) (8 * k)); cbn; try done; exfalso; lia. }
  all: rewrite access_granule by (done || auto); subst size;
    match goal with |- context [steps 0 ?n GRANULE] =>
      change (steps 0 n GRANULE) with [0] end; cbn [foldl];
    by destruct (_ && _).
Qed.
End Facts.

(** ** The verdict of the program *)

Section Verdict.
Context (xlen scratch : Z) (pmp_implemented : bool) (load_allowed : state -> Z -> Z -> bool).
Hypothesis width : xlen = 32 \/ xlen = 64.
Hypothesis page : scratch mod 4096 = 0 /\ 0 <= scratch /\ scratch + 4096 < 2 ^ xlen.

(** The registers once an entry is set, and no trap expected. *)
Definition configured (p : pmpcfg_t) (s : state) : state :=
  let cfg0 := Z.land (pmpcfg0 s) (Z.lnot 65280) in
  State (sptbr s) (up xlen (Z.lor (Z.land (up xlen (Z.shiftl (cfg p) 8)) 65280) cfg0)) (a0 p) (a1 p)
    (pmpaddr2 s) (tables s) false.

(** States that the settings of the entry do not tell apart. *)
Definition same (s s' : state) : Prop :=
  trap_expected s' = false /\ forall p, configured p s' = configured p s.

Lemma same_trans s s' s'' : same s s' -> same s' s'' -> same s s''.
Proof. intros [_ H1] [H2 H3]. split; [done|]. intros p. by rewrite H3. Qed.

(** A part of the program goes on, in a state with [I], when [b] holds, and
    otherwise exits with the code of a failure. *)
Definition verdict (I : state -> Prop) (r : Z + (unit * state)) (b : bool) : Prop :=
  if b then exists s', r = inr (tt, s') /\ I s' else r = inl 1 \/ r = inl 2.

Lemma verdict_bind (I J : state -> Prop) (m k : X unit) b b' s :
  verdict I (m s) b -> (forall s', I s' -> verdict J (k s') b') ->
  verdict J (xbind m (fun _ => k) s) (b && b').
Proof.
  unfold verdict, xbind. destruct b; simpl.
  - intros (s' & -> & Hs) Hk. by apply Hk.
  - intros [-> | ->] _; auto.
Qed.

Lemma verdict_each {A} (I : state -> Prop) (l : list A) (f : A -> X unit) (P : A -> bool) s :
  I s -> (forall a s', a ∈ l -> I s' -> verdict I (f a s') (P a)) ->
  verdict I (each l f s) (forallb P l).
Proof.
  intros Hs Hf. revert s Hs. induction l as [|a l IH]; intros s Hs; cbn [each forallb].
  - by exists s.
  - apply (verdict_bind I).
    + apply Hf; [left|done].
    + intros s' Hs'. apply IH; [|done]. intros b s'' Hb. apply Hf. by right.
Qed.

(** The comparison at one address: for the sizes it is aligned for. *)
Definition agrees_at (s : state) (lo hi addr : Z) : bool :=
  forallb (fun size =>
    negb (Z.land addr (size - 1) =? 0) ||
    Bool.eqb (load_allowed s addr size) (access_ok lo hi (addr - SCRATCH + scratch) size))
    (sizes xlen).

Lemma configured_trap p s : trap_expected (configured p s) = false.
Proof. done. Qed.

Lemma set_trap_configured b p s :
  set_trap_expected false (set_trap_expected b (configured p s)) = configured p s.
Proof. done. Qed.

Lemma aligned addr size :
  size ∈ sizes xlen -> Z.land addr (size - 1) = 0 -> addr mod size = 0.
Proof.
  clear. intros Hs. assert (size = 2 ^ 0 \/ size = 2 ^ 1 \/ size = 2 ^ 2 \/ size = 2 ^ 3) as Hp.
  { unfold sizes in Hs. destruct (xlen =? 64); rewrite !list.elem_of_cons in Hs;
      (repeat destruct Hs as [->|Hs]; try by apply list.elem_of_nil in Hs); auto. }
  intros Hl. destruct Hp as [->|[->|[->| ->]]];
    match goal with |- _ mod 2 ^ ?n = 0 => rewrite <-(Z.land_ones addr n) by lia end; exact Hl.
Qed.

Lemma test_all_sizes_verdict p lo hi addr s :
  Z.land (cfg p) PMP_A <> 0 -> entry_range xlen p = (lo, hi) ->
  0 <= lo -> lo < hi < 2 ^ xlen -> lo mod 4 = 0 -> hi mod 4 = 0 -> in_page addr = true ->
  verdict (eq (configured p s))
    (test_all_sizes xlen scratch load_allowed p addr (configured p s))
    (agrees_at (configured p s) lo hi addr).
Proof.
  intros Hcfg Hrange Hlo Hhi Hl4 Hh4 Hpage. unfold test_all_sizes, agrees_at.
  apply verdict_each; [done|]. intros size s' Hsz <-. unfold test_size.
  destruct (Z.eqb_spec (Z.land addr (size - 1)) 0) as [Hal|Hal]; cbn [negb orb]; [|by eexists].
  apply (aligned addr size Hsz) in Hal. unfold xbind at 1.
  rewrite (pmp_ok_spec xlen scratch width page p lo hi) by done.
  unfold xbind, upd, test_one, handle_trap. rewrite set_trap_configured.
  destruct (load_allowed (configured p s) addr size), (access_ok _ _ _ _); simpl; auto;
    by eexists.
Qed.

(** All addresses of a range, with the entry [p] set. *)
Definition agrees_with (s : state) (p : pmpcfg_t) (addr range : Z) : bool :=
  let pa := addr - SCRATCH + scratch in
  forallb (agrees_at (configured p s) pa (pa + range)) (steps addr (addr + range) GRANULE).

Definition agrees (s : state) (addr range : Z) : bool :=
  let pa := addr - SCRATCH + scratch in
  agrees_with s (range_entry xlen pa range) addr range &&
  (negb (is_napot addr range) || agrees_with s (napot_entry xlen pa range) addr range).

Lemma up_land z : up xlen z = Z.land z (Z.ones xlen).
Proof. clear page. symmetry. apply Z.land_ones. lia. Qed.

Lemma configured_configured p q s : configured q (configured p s) = configured q s.
Proof.
  clear page. unfold configured. cbn [sptbr pmpcfg0 pmpaddr2 tables]. f_equal.
  rewrite !up_land. apply Z.bits_inj'. intros n Hn.
  rewrite !Z.land_spec, !Z.lor_spec, !Z.land_spec, !Z.lor_spec, !Z.land_spec, Z.lnot_spec by done.
  destruct (Z.testbit 65280 n), (Z.testbit (Z.ones xlen) n), (Z.testbit (pmpcfg0 s) n),
    (Z.testbit (Z.shiftl (cfg p) 8) n), (Z.testbit (Z.shiftl (cfg q) 8) n); reflexivity.
Qed.

Lemma same_configured p s s' : same s s' -> same s (configured p s').
Proof.
  clear page. intros [_ H]. split; [done|]. intros q. by rewrite configured_configured.
Qed.

Lemma steps_bounds a b step x : 0 < step -> x ∈ steps a b step -> a <= x < b.
Proof.
  clear. intros Hs Hx. unfold steps in Hx. apply list_elem_of_In, in_map_iff in Hx as (k & <- & Hk).
  apply list_elem_of_In, elem_of_seqZ in Hk. destruct Hk as [Hk0 Hk]. split; [nia|].
  assert (step * ((b - a + step - 1) / step) <= b - a + step - 1) by (apply Z.mul_div_le; lia).
  nia.
Qed.

Lemma set_pmp_configured p s :
  trap_expected s = false -> set_pmp xlen p s = inr (p, configured p s).
Proof. clear. intros H. unfold set_pmp, configured. by rewrite H. Qed.

Lemma range_ok_bounds addr range :
  range_ok (addr, range) = true ->
  4096 <= addr /\ addr + range <= 8192 /\ 0 < range /\ addr mod 4 = 0 /\ range mod 4 = 0.
Proof.
  clear. unfold range_ok, SCRATCH, RISCV_PGSIZE. intros H.
  repeat (apply andb_true_iff in H as [H ?]).
  repeat match goal with
         | H : (_ <=? _) = true |- _ => apply Z.leb_le in H
         | H : (_ <? _) = true |- _ => apply Z.ltb_lt in H
         | H : (_ =? _) = true |- _ => apply Z.eqb_eq in H
         | H : (_ || _) = true |- _ => clear H
         end. auto.
Qed.

Lemma range_ok_napot addr range :
  range_ok (addr, range) = true -> is_napot addr range = true ->
  exists j, 0 <= j /\ range = 4 * 2 ^ j /\ addr mod range = 0.
Proof.
  clear. unfold range_ok. intros H Hn. apply andb_true_iff in H as [_ H].
  rewrite Hn in H. cbn [negb orb] in H. repeat (apply andb_true_iff in H as [H ?]).
  exists (Z.log2 (range / 4)). split; [by apply Z.leb_le|]. split; by apply Z.eqb_eq.
Qed.

(** The page is aligned for every power of two up to its size. *)
Lemma page_aligned addr j :
  0 <= j -> 4 * 2 ^ j <= 4096 -> addr mod (4 * 2 ^ j) = 0 ->
  (addr - 4096 + scratch) mod (4 * 2 ^ j) = 0.
Proof.
  intros Hj Hle Ha. destruct page as [Hsc _]. clear -Hsc Hj Hle Ha.
  assert (j <= 10) as Hj'.
  { apply Z.nlt_ge. intros Hlt. assert (2 ^ 11 <= 2 ^ j) by (apply Z.pow_le_mono_r; lia). lia. }
  apply Z.mod_divide; [pose proof (Z.pow_pos_nonneg 2 j); lia|].
  assert (4 * 2 ^ j | 4096) as Hd.
  { exists (2 ^ (10 - j)). change 4096 with (4 * 2 ^ 10).
    replace 10 with ((10 - j) + j) at 1 by lia. rewrite Z.pow_add_r by lia. ring. }
  apply Z.divide_add_r.
  - apply Z.divide_sub_r; [|done]. apply Z.mod_divide; [pose proof (Z.pow_pos_nonneg 2 j); lia|done].
  - apply (Z.divide_trans _ 4096); [done|]. apply Z.mod_divide; [done|done].
Qed.

Lemma range_once_verdict p addr range s s' :
  Z.land (cfg p) PMP_A <> 0 ->
  entry_range xlen p = (addr - SCRATCH + scratch, addr - SCRATCH + scratch + range) ->
  range_ok (addr, range) = true -> same s s' ->
  verdict (same s) (test_range_once xlen scratch load_allowed p addr range (configured p s'))
    (agrees_with s p addr range).
Proof.
  intros Hcfg Hr Hok Hs. apply range_ok_bounds in Hok as (Hb1 & Hb2 & Hb3 & Hb4 & Hb5).
  unfold SCRATCH, RISCV_PGSIZE in *.
  unfold test_range_once, agrees_with.
  assert (Hc : configured p s' = configured p s) by apply Hs. rewrite Hc.
  enough (verdict (eq (configured p s))
    (each (steps addr (addr + range) GRANULE)
       (fun addr => test_all_sizes xlen scratch load_allowed p addr) (configured p s))
    (forallb (agrees_at (configured p s) (addr - 4096 + scratch) (addr - 4096 + scratch + range))
       (steps addr (addr + range) GRANULE))) as Hv.
  { unfold verdict in *. destruct (forallb _ _); [|done]. destruct Hv as (s'' & -> & <-).
    eexists. split; [done|]. rewrite <-Hc. by apply same_configured. }
  apply verdict_each; [done|]. intros a s'' Ha <-. apply steps_bounds in Ha; [|done].
  destruct page as (Hsc & Hsc0 & Hsc1).
  apply test_all_sizes_verdict; try done; try lia.
  - divlia.
  - divlia.
  - unfold in_page, SCRATCH, RISCV_PGSIZE. apply andb_true_iff. lia.
Qed.

Lemma test_range_verdict addr range s s' :
  range_ok (addr, range) = true -> same s s' ->
  verdict (same s) (test_range xlen scratch load_allowed addr range s') (agrees s addr range).
Proof.
  intros Hok Hs. pose proof Hok as (Hb1 & Hb2 & Hb3 & Hb4 & Hb5)%range_ok_bounds.
  assert (in_page addr = true) as Hpage.
  { unfold in_page, SCRATCH, RISCV_PGSIZE. apply andb_true_iff. lia. }
  pose proof page_aligned as Hal.
  destruct page as (Hsc & Hsc0 & Hsc1).
  unfold test_range, agrees. unfold xbind at 1. unfold va2pa at 1. rewrite Hpage.
  unfold xret, SCRATCH, RISCV_PGSIZE. rewrite (up_id xlen (addr - 4096 + scratch)) by lia.
  set (pa := addr - 4096 + scratch).
  unfold xbind at 1. unfold set_pmp_range. rewrite set_pmp_configured by apply Hs.
  apply (verdict_bind (same s)).
  - apply range_once_verdict; [done| |done|done].
    apply range_entry_range; unfold SCRATCH, RISCV_PGSIZE; try lia; divlia.
  - intros s1 Hs1. destruct (is_napot addr range) eqn:En; cbn [negb orb]; [|by eexists].
    unfold xbind, va2pa, set_pmp_napot. rewrite Hpage. unfold xret, SCRATCH, RISCV_PGSIZE.
    rewrite (up_id xlen (addr - 4096 + scratch)) by lia. fold pa. rewrite set_pmp_configured by apply Hs1.
    destruct (range_ok_napot addr range Hok En) as (j & Hj & Hrj & Hmod).
    apply range_once_verdict; [| |done|done].
    { unfold napot_entry. cbn [cfg]. by destruct (GRANULE <? range). }
    unfold SCRATCH, RISCV_PGSIZE. fold pa. rewrite Hrj in *. apply napot_entry_range; try done; try lia.
    apply Hal; [done|lia|done].
Qed.

Lemma forallb_bind {A B} (P : B -> bool) (f : A -> list B) l :
  forallb P (l ≫= f) = forallb (fun a => forallb P (f a)) l.
Proof. clear. induction l as [|a l IH]; [done|]. csimpl. by rewrite forallb_app, IH. Qed.

Lemma exhaustive_verdict addr size s s' :
  forallb range_ok (exhaustive_ranges addr size) = true -> same s s' ->
  verdict (same s) (exhaustive_test xlen scratch load_allowed addr size s')
    (forallb (fun '(addr, range) => agrees s addr range) (exhaustive_ranges addr size)).
Proof.
  unfold exhaustive_ranges, exhaustive_test. rewrite !forallb_bind.
  intros Hok Hs. rewrite forallb_forall in Hok.
  apply verdict_each; [done|]. intros base s1 Hbase Hs1.
  apply list_elem_of_In, Hok in Hbase. clear Hok. rewrite forallb_bind in Hbase |- *.
  rewrite forallb_forall in Hbase. unfold test_ranges.
  apply verdict_each; [done|]. intros range s2 Hrange Hs2.
  apply list_elem_of_In, Hbase in Hrange. cbn [forallb] in Hrange |- *.
  rewrite andb_true_r in *. by apply test_range_verdict.
Qed.

Context (l1pt l2pt l3pt_64 satp_mode : Z).
#[local] Abbreviation program :=
  (main xlen scratch pmp_implemented load_allowed l1pt l2pt l3pt_64 satp_mode).

(** The state [init_pt] leaves: the tables, and the second entry open. *)
Definition prepared (s : state) : state :=
  let l3 := l3pt xlen l2pt l3pt_64 in
  let s := store_word l1pt (pte_table xlen l2pt) s in
  let s := store_word (l3 + word_bytes xlen * (SCRATCH / RISCV_PGSIZE)) (pte_page xlen scratch) s in
  let s := if xlen =? 64 then store_word l2pt (pte_table xlen l3) s else s in
  let s := set_sptbr (Z.lor (Z.shiftr l1pt RISCV_PGSHIFT) satp_mode) s in
  State (sptbr s) (Z.shiftl (Z.lor PMP_NAPOT PMP_R) 16) (pmpaddr0 s) (pmpaddr1 s) (2 ^ xlen - 1)
    (tables s) (trap_expected s).

Lemma main_verdict s :
  pmp_implemented = true -> trap_expected s = false ->
  verdict (same (prepared s)) (program s)
    (forallb (fun '(addr, range) => agrees (prepared s) addr range) main_ranges).
Proof.
  intros Hpmp Ht. unfold main, init_pt. rewrite Hpmp.
  set (k := fun _ => xbind (exhaustive_test _ _ _ SCRATCH max_exhaustive) _).
  assert (E : forall (m : X unit), m s = inr (tt, prepared s) -> xbind m k s = k tt (prepared s)).
  { intros m Hm. unfold xbind. by rewrite Hm. }
  rewrite E by (unfold prepared, xbind, upd, xret; by destruct (xlen =? 64)). clear E.
  unfold k, main_ranges. pose proof main_ranges_ok as Hok. unfold main_ranges in Hok.
  rewrite !forallb_app in *. apply andb_true_iff in Hok as [Ho1 Hok].
  apply andb_true_iff in Hok as [Ho2 Ho3]. cbn [forallb] in *.
  repeat (apply andb_true_iff in Ho3 as [? Ho3]). rewrite andb_true_r.
  assert (Hs : same (prepared s) (prepared s)).
  { split; [|done]. unfold prepared. by destruct (xlen =? 64). }
  apply (verdict_bind (same (prepared s))); [by apply exhaustive_verdict|]. intros s1 Hs1.
  apply (verdict_bind (same (prepared s))); [by apply exhaustive_verdict|]. intros s2 Hs2.
  apply (verdict_bind (same (prepared s))); [by apply test_range_verdict|]. intros s3 Hs3.
  apply (verdict_bind (same (prepared s))); [by apply test_range_verdict|]. intros s4 Hs4.
  by apply test_range_verdict.
Qed.

(** The hardware decides as the range of the entry says, for every access the
    program makes. *)
Definition hardware_agrees (s : state) : Prop :=
  forall addr range p a size,
    (addr, range) ∈ main_ranges ->
    let pa := addr - SCRATCH + scratch in
    p = range_entry xlen pa range \/ is_napot addr range = true /\ p = napot_entry xlen pa range ->
    a ∈ steps addr (addr + range) GRANULE -> size ∈ sizes xlen -> Z.land a (size - 1) = 0 ->
    load_allowed (configured p s) a size =
      access_ok pa (pa + range) (a - SCRATCH + scratch) size.

Lemma agrees_at_iff s lo hi addr :
  agrees_at s lo hi addr = true <->
  forall size, size ∈ sizes xlen -> Z.land addr (size - 1) = 0 ->
    load_allowed s addr size = access_ok lo hi (addr - SCRATCH + scratch) size.
Proof.
  clear. unfold agrees_at. rewrite forallb_forall. split.
  - intros H size Hs Hal. apply list_elem_of_In, H in Hs. rewrite Hal in Hs.
    by apply Bool.eqb_prop in Hs.
  - intros H size Hs. apply list_elem_of_In in Hs.
    destruct (Z.eqb_spec (Z.land addr (size - 1)) 0) as [Hal|]; [|done].
    rewrite (H size Hs Hal). apply Bool.eqb_reflx.
Qed.

Lemma agrees_with_iff s p addr range :
  agrees_with s p addr range = true <->
  forall a size, a ∈ steps addr (addr + range) GRANULE -> size ∈ sizes xlen ->
    Z.land a (size - 1) = 0 ->
    load_allowed (configured p s) a size =
      access_ok (addr - SCRATCH + scratch) (addr - SCRATCH + scratch + range)
        (a - SCRATCH + scratch) size.
Proof.
  clear. unfold agrees_with. rewrite forallb_forall. split.
  - intros H a size Ha. apply list_elem_of_In, H in Ha. rewrite agrees_at_iff in Ha. auto.
  - intros H a Ha. apply list_elem_of_In in Ha. apply agrees_at_iff. auto.
Qed.

Lemma hardware_agrees_iff s :
  forallb (fun '(addr, range) => agrees s addr range) main_ranges = true <-> hardware_agrees s.
Proof.
  clear. rewrite forallb_forall. unfold agrees. split.
  - intros H addr range p a size Hin pa Hp. apply list_elem_of_In, H in Hin.
    apply andb_true_iff in Hin as [H1 H2]. destruct Hp as [->|[Hn ->]].
    + by apply agrees_with_iff.
    + rewrite Hn in H2. by apply agrees_with_iff.
  - intros H [addr range] Hin. apply list_elem_of_In in Hin. apply andb_true_iff. split.
    + apply agrees_with_iff. intros a size. apply H; auto.
    + destruct (is_napot addr range) eqn:En; [|done]. apply agrees_with_iff.
      intros a size. apply H; auto.
Qed.
End Verdict.

(** C34: the PMP test exits with 0 exactly if the machine has no PMP, or if for
    each of its TOR and NAPOT entries, and every aligned load it makes, the
    hardware refuses the load exactly when some but not all of its bytes are in
    the range: [pmp_ok], which decodes the address registers, predicts that.
    Otherwise it exits with 1 or 2.  On a 32-bit machine no load is ever to be
    refused, so that a machine whose PMP does nothing passes. *)
Theorem pmp_test_verdict xlen scratch pmp_implemented load_allowed l1pt l2pt l3pt_64 satp_mode s :
  xlen = 32 \/ xlen = 64 ->
  scratch mod 4096 = 0 /\ 0 <= scratch /\ scratch + 4096 < 2 ^ xlen ->
  trap_expected s = false ->
  let code := exit_code
    (main xlen scratch pmp_implemented load_allowed l1pt l2pt l3pt_64 satp_mode) s in
  (code = 0 <->
     pmp_implemented = false \/
     hardware_agrees xlen scratch load_allowed
       (prepared xlen scratch l1pt l2pt l3pt_64 satp_mode s)) /\
  code ∈ [0; 1; 2] /\
  (xlen = 32 -> (forall s a size, load_allowed s a size = true) -> code = 0).
Proof.
  intros Hw Hp Ht code.
  set (sp := prepared xlen scratch l1pt l2pt l3pt_64 satp_mode s).
  destruct pmp_implemented eqn:Epmp; last first.
  { assert (code = 0) as -> by (unfold code, main, init_pt, xbind, upd, xret;
      by destruct (xlen =? 64)).
    split; [split; auto|]. split; [left|done]. }
  pose proof (main_verdict xlen scratch true load_allowed Hw Hp l1pt l2pt l3pt_64 satp_mode s
    eq_refl Ht) as Hv. fold sp in Hv.
  assert (Hiff : code = 0 <-> hardware_agrees xlen scratch load_allowed sp).
  { rewrite <-hardware_agrees_iff. unfold verdict in Hv. unfold code, exit_code.
    destruct (forallb _ _); [destruct Hv as (s' & -> & _); done|].
    split; [|done]. by destruct Hv as [-> | ->]. }
  split; [rewrite Hiff; intuition congruence|]. split.
  - unfold code, exit_code. unfold verdict in Hv.
    destruct (forallb _ _); [destruct Hv as (s' & -> & _); left|].
    destruct Hv as [-> | ->]; [right; left|right; right; left].
  - intros H32 Hall. apply Hiff. intros addr range p a size Hin pa Hpp Ha Hsz Hal.
    rewrite Hall. symmetry.
    pose proof main_ranges_ok as Hok. rewrite forallb_forall in Hok.
    apply list_elem_of_In, Hok, range_ok_bounds in Hin as (Hb1 & Hb2 & Hb3 & Hb4 & Hb5).
    apply (aligned xlen) in Hal; [|done]. destruct Hp as (Hp1 & _).
    rewrite H32 in Hsz. cbn [sizes Z.eqb] in Hsz. change (sizes 32) with [1; 2; 4] in Hsz.
    rewrite !list.elem_of_cons in Hsz.
    assert (size = 1 \/ size = 2 \/ size = 4) as Hs.
    { destruct Hsz as [?|[?|[?|Hn]]]; auto. by apply list.elem_of_nil in Hn. }
    unfold pa, SCRATCH, RISCV_PGSIZE.
    apply access_granule; [| |done|].
    + clear -Hp1 Hb4. divlia.
    + clear -Hp1 Hb4 Hb5. divlia.
    + clear -Hs Hal Hp1. destruct Hs as [->|[->| ->]]; divlia.
Qed.

(** A 32-bit machine with a PMP that allows what it should. *)
Example pmp_test_verdict_witness :
  (2147483648 mod 4096 = 0 /\ 0 <= 2147483648 /\ 2147483648 + 4096 < 2 ^ 32) /\
  exit_code (main 32 2147483648 true (fun _ _ _ => true) 2147487744 2147491840 0 2147483648)
    (State 0 0 0 0 0 (fun _ => 0) false) = 0.
Proof.
  split; [split; [reflexivity|split; [discriminate|reflexivity]]|].
  destruct (pmp_test_verdict 32 2147483648 true (fun _ _ _ => true) 2147487744 2147491840 0
    2147483648 (State 0 0 0 0 0 (fun _ => 0) false)) as (_ & _ & H).
  - left. reflexivity.
  - split; [reflexivity|split; [discriminate|reflexivity]].
  - reflexivity.
  - apply H; reflexivity.
Defined.
