(* ===== verification/Dhrystone.v ===== *)
(** * The Dhrystone benchmark (sw/app/dhrystone)

    The procedures of dhrystone.c and dhrystone_main.c over a record of the
    global variables.  [int] and [long] are 32 bits, and an operation that
    overflows is undefined.  A parameter passed by address and only written is
    the result of the function. *)

From Stdlib Require Import ZArith Lia String Ascii.
From stdpp Require Import base tactics list numbers.
From S2P Require Import Prelude CArray.

(** ** Data (dhrystone.h) *)

Inductive Enumeration := Ident_1 | Ident_2 | Ident_3 | Ident_4 | Ident_5.

#[export] Instance Enumeration_eq_dec : EqDecision Enumeration.
Proof. solve_decision. Defined.

Definition NUMBER_OF_RUNS : Z := 500.
Definition HZ : Z := 1000000.
Definition Too_Small_Time : Z := 1.
Definition Mic_secs_Per_Second : Z := 1000000.

(** [Str_30] and a [strcpy] into one: 31 bytes with the terminator. *)
Definition Str_30 := list Z.
Definition Str_30_size : Z := 31.

(** The record, with the only variant that is used.  A pointer is 0 ([Null]) or
    the number of a record. *)
Record Rec_Type := {
  Ptr_Comp : Z;
  Discr : Enumeration;
  Enum_Comp : Enumeration;
  Int_Comp : Z;
  Str_Comp : Str_30;
}.

#[export] Instance Rec_Type_inhabited : Inhabited Rec_Type :=
  populate {| Ptr_Comp := 0; Discr := Ident_1; Enum_Comp := Ident_1; Int_Comp := 0;
              Str_Comp := [] |}.

(** The global variables, and the records. *)
Record globals := {
  Ptr_Glob : Z;
  Next_Ptr_Glob : Z;
  Int_Glob : Z;
  Bool_Glob : Z;
  Ch_1_Glob : Z;
  Ch_2_Glob : Z;
  Arr_1_Glob : list Z;
  Arr_2_Glob : list (list Z);
  records : list Rec_Type;
}.

Definition P := M globals.

Definition set_Int_Glob v (g : globals) : globals :=
  {| Ptr_Glob := Ptr_Glob g; Next_Ptr_Glob := Next_Ptr_Glob g; Int_Glob := v;
     Bool_Glob := Bool_Glob g; Ch_1_Glob := Ch_1_Glob g; Ch_2_Glob := Ch_2_Glob g;
     Arr_1_Glob := Arr_1_Glob g; Arr_2_Glob := Arr_2_Glob g; records := records g |}.
Definition set_Bool_Glob v (g : globals) : globals :=
  {| Ptr_Glob := Ptr_Glob g; Next_Ptr_Glob := Next_Ptr_Glob g; Int_Glob := Int_Glob g;
     Bool_Glob := v; Ch_1_Glob := Ch_1_Glob g; Ch_2_Glob := Ch_2_Glob g;
     Arr_1_Glob := Arr_1_Glob g; Arr_2_Glob := Arr_2_Glob g; records := records g |}.
Definition set_Ch_1_Glob v (g : globals) : globals :=
  {| Ptr_Glob := Ptr_Glob g; Next_Ptr_Glob := Next_Ptr_Glob g; Int_Glob := Int_Glob g;
     Bool_Glob := Bool_Glob g; Ch_1_Glob := v; Ch_2_Glob := Ch_2_Glob g;
     Arr_1_Glob := Arr_1_Glob g; Arr_2_Glob := Arr_2_Glob g; records := records g |}.
Definition set_Ch_2_Glob v (g : globals) : globals :=
  {| Ptr_Glob := Ptr_Glob g; Next_Ptr_Glob := Next_Ptr_Glob g; Int_Glob := Int_Glob g;
     Bool_Glob := Bool_Glob g; Ch_1_Glob := Ch_1_Glob g; Ch_2_Glob := v;
     Arr_1_Glob := Arr_1_Glob g; Arr_2_Glob := Arr_2_Glob g; records := records g |}.
Definition set_Arr_1_Glob v (g : globals) : globals :=
  {| Ptr_Glob := Ptr_Glob g; Next_Ptr_Glob := Next_Ptr_Glob g; Int_Glob := Int_Glob g;
     Bool_Glob := Bool_Glob g; Ch_1_Glob := Ch_1_Glob g; Ch_2_Glob := Ch_2_Glob g;
     Arr_1_Glob := v; Arr_2_Glob := Arr_2_Glob g; records := records g |}.
Definition set_Arr_2_Glob v (g : globals) : globals :=
  {| Ptr_Glob := Ptr_Glob g; Next_Ptr_Glob := Next_Ptr_Glob g; Int_Glob := Int_Glob g;
     Bool_Glob := Bool_Glob g; Ch_1_Glob := Ch_1_Glob g; Ch_2_Glob := Ch_2_Glob g;
     Arr_1_Glob := Arr_1_Glob g; Arr_2_Glob := v; records := records g |}.
Definition set_records v (g : globals) : globals :=
  {| Ptr_Glob := Ptr_Glob g; Next_Ptr_Glob := Next_Ptr_Glob g; Int_Glob := Int_Glob g;
     Bool_Glob := Bool_Glob g; Ch_1_Glob := Ch_1_Glob g; Ch_2_Glob := Ch_2_Glob g;
     Arr_1_Glob := Arr_1_Glob g; Arr_2_Glob := Arr_2_Glob g; records := v |}.

(** Reading a global. *)
Definition glob {A} (f : globals -> A) : P A := g <- get ;; ret (f g).

(** The result of an [int] operation, and C's division. *)
Definition int (z : Z) : P Z :=
  if (-2147483648 <=? z) && (z <=? 2147483647) then ret z else undefined.
Definition idiv (a b : Z) : P Z := if b =? 0 then undefined else int (Z.quot a b).

(** [*p] of a record pointer, and an assignment to it. *)
Definition deref (p : Z) : P Rec_Type := rs <- glob records ;; of_option (fetch rs (p - 1)).
Definition assign (p : Z) (r : Rec_Type) : P unit :=
  rs <- glob records ;;
  if in_range rs (p - 1) then modify (set_records (setZ rs (p - 1) r)) else undefined.

(** Elements of the two arrays. *)
Definition arr1 (i : Z) : P Z := a <- glob Arr_1_Glob ;; of_option (fetch a i).
Definition set_arr1 (i v : Z) : P unit :=
  a <- glob Arr_1_Glob ;;
  if in_range a i then modify (set_Arr_1_Glob (setZ a i v)) else undefined.
Definition arr2 (i j : Z) : P Z :=
  a <- glob Arr_2_Glob ;; of_option (row ← fetch a i; fetch row j).
Definition set_arr2 (i j v : Z) : P unit :=
  a <- glob Arr_2_Glob ;;
  row <- of_option (fetch a i) ;;
  if in_range row j then modify (set_Arr_2_Glob (setZ a i (setZ row j v))) else undefined.

(** [strcpy] to a [Str_30], and the sign of [strcmp]. *)
Definition strcpy (s : string) : P Str_30 :=
  let bs := string_bytes s ++ [0] in
  if lenZ bs <=? Str_30_size then ret bs else undefined.

Fixpoint strcmp (s t : list Z) : option Z :=
  match s, t with
  | a :: s, b :: t =>
      if negb (a =? b) then Some (a - b) else if a =? 0 then Some 0 else strcmp s t
  | _, _ => None
  end.

Definition with_Ptr_Comp p (r : Rec_Type) : Rec_Type :=
  {| Ptr_Comp := p; Discr := Discr r; Enum_Comp := Enum_Comp r; Int_Comp := Int_Comp r;
     Str_Comp := Str_Comp r |}.
Definition with_Int_Comp v (r : Rec_Type) : Rec_Type :=
  {| Ptr_Comp := Ptr_Comp r; Discr := Discr r; Enum_Comp := Enum_Comp r; Int_Comp := v;
     Str_Comp := Str_Comp r |}.
Definition with_Enum_Comp e (r : Rec_Type) : Rec_Type :=
  {| Ptr_Comp := Ptr_Comp r; Discr := Discr r; Enum_Comp := e; Int_Comp := Int_Comp r;
     Str_Comp := Str_Comp r |}.

(** [p->field = v]. *)
Definition update (p : Z) (f : Rec_Type -> Rec_Type) : P unit := r <- deref p ;; assign p (f r).

(** ** dhrystone.c *)

Definition Func_3 (Enum_Par_Val : Enumeration) : bool := bool_decide (Enum_Par_Val = Ident_3).

(** The value [*Enum_Ref_Par] ends with. *)
Definition Proc_6 (Enum_Val_Par : Enumeration) : P Enumeration :=
  let Enum_Ref := Enum_Val_Par in
  let Enum_Ref := if negb (Func_3 Enum_Val_Par) then Ident_4 else Enum_Ref in
  match Enum_Val_Par with
  | Ident_1 => ret Ident_1
  | Ident_2 => i <- glob Int_Glob ;; ret (if 100 <? i then Ident_1 else Ident_4)
  | Ident_3 => ret Ident_2
  | Ident_4 => ret Enum_Ref
  | Ident_5 => ret Ident_3
  end.

Definition Proc_7 (Int_1_Par_Val Int_2_Par_Val : Z) : P Z :=
  Int_Loc <- int (Int_1_Par_Val + 2) ;;
  int (Int_2_Par_Val + Int_Loc).

Definition Proc_8 (Int_1_Par_Val Int_2_Par_Val : Z) : P unit :=
  Int_Loc <- int (Int_1_Par_Val + 5) ;;
  set_arr1 Int_Loc Int_2_Par_Val ;;;
  v <- arr1 Int_Loc ;;
  set_arr1 (Int_Loc + 1) v ;;;
  set_arr1 (Int_Loc + 30) Int_Loc ;;;
  for_ Int_Loc (Int_Loc + 2) (fun Int_Index => set_arr2 Int_Loc Int_Index Int_Loc) ;;;
  v <- arr2 Int_Loc (Int_Loc - 1) ;;
  v <- int (v + 1) ;;
  set_arr2 Int_Loc (Int_Loc - 1) v ;;;
  v <- arr1 Int_Loc ;;
  set_arr2 (Int_Loc + 20) Int_Loc v ;;;
  modify (set_Int_Glob 5).

Definition Func_1 (Ch_1_Par_Val Ch_2_Par_Val : Z) : P Enumeration :=
  let Ch_1_Loc := Ch_1_Par_Val in
  let Ch_2_Loc := Ch_1_Loc in
  if negb (Ch_2_Loc =? Ch_2_Par_Val) then ret Ident_1
  else modify (set_Ch_1_Glob Ch_1_Loc) ;;; ret Ident_2.

Section Fuel.
Context (fuel : nat).

(** [Ch_Loc] has no value before the loop's body sets it. *)
Definition Func_2 (Str_1_Par_Ref Str_2_Par_Ref : Str_30) : P bool :=
  r <-
    loop fuel (fun '(Int_Loc, Ch_Loc) =>
      if Int_Loc <=? 2 then
        c1 <- of_option (fetch Str_1_Par_Ref Int_Loc) ;;
        c2 <- of_option (fetch Str_2_Par_Ref (Int_Loc + 1)) ;;
        e <- Func_1 c1 c2 ;;
        if decide (e = Ident_1) then ret (inl (Int_Loc + 1, Some 65))
        else ret (inl (Int_Loc, Ch_Loc))
      else ret (inr (Int_Loc, Ch_Loc))) (2, None : option Z) ;;
  let '(Int_Loc, Ch_Loc) := r in
  Ch_Loc <- of_option Ch_Loc ;;
  let Int_Loc := if (87 <=? Ch_Loc) && (Ch_Loc <? 90) then 7 else Int_Loc in
  if Ch_Loc =? 82 then ret true
  else
    c <- of_option (strcmp Str_1_Par_Ref Str_2_Par_Ref) ;;
    if 0 <? c then
      Int_Loc <- int (Int_Loc + 7) ;;
      modify (set_Int_Glob Int_Loc) ;;; ret true
    else ret false.

(** ** dhrystone_main.c *)

(** [Ptr_Ref_Par] is the [Ptr_Comp] of the record [rec]. *)
Definition Proc_3 (rec : Z) : P unit :=
  p <- glob Ptr_Glob ;;
  (if negb (p =? 0) then r <- deref p ;; update rec (with_Ptr_Comp (Ptr_Comp r)) else ret tt) ;;;
  i <- glob Int_Glob ;;
  v <- Proc_7 10 i ;;
  p <- glob Ptr_Glob ;;
  update p (with_Int_Comp v).

Definition Proc_1 (Ptr_Val_Par : Z) : P unit :=
  r <- deref Ptr_Val_Par ;;
  let Next_Record := Ptr_Comp r in
  p <- glob Ptr_Glob ;;
  rg <- deref p ;;
  assign Next_Record rg ;;;
  update Ptr_Val_Par (with_Int_Comp 5) ;;;
  r <- deref Ptr_Val_Par ;;
  update Next_Record (with_Int_Comp (Int_Comp r)) ;;;
  r <- deref Ptr_Val_Par ;;
  update Next_Record (with_Ptr_Comp (Ptr_Comp r)) ;;;
  Proc_3 Next_Record ;;;
  n <- deref Next_Record ;;
  if decide (Discr n = Ident_1) then
    update Next_Record (with_Int_Comp 6) ;;;
    r <- deref Ptr_Val_Par ;;
    e <- Proc_6 (Enum_Comp r) ;;
    update Next_Record (with_Enum_Comp e) ;;;
    p <- glob Ptr_Glob ;;
    rg <- deref p ;;
    update Next_Record (with_Ptr_Comp (Ptr_Comp rg)) ;;;
    n <- deref Next_Record ;;
    v <- Proc_7 (Int_Comp n) 10 ;;
    update Next_Record (with_Int_Comp v)
  else
    r <- deref Ptr_Val_Par ;;
    n <- deref (Ptr_Comp r) ;;
    assign Ptr_Val_Par n.

(** The [do] loop goes round again on an [Enum_Loc] that has no value yet. *)
Definition Proc_2 (Int_Par : Z) : P Z :=
  Int_Loc <- int (Int_Par + 10) ;;
  c <- glob Ch_1_Glob ;;
  if c =? 65 then
    Int_Loc <- int (Int_Loc - 1) ;;
    i <- glob Int_Glob ;;
    int (Int_Loc - i)
  else undefined.

Definition Proc_4 : P unit :=
  c <- glob Ch_1_Glob ;;
  let Bool_Loc := if c =? 65 then 1 else 0 in
  b <- glob Bool_Glob ;;
  modify (set_Bool_Glob (Z.lor Bool_Loc b)) ;;;
  modify (set_Ch_2_Glob 66).

Definition Proc_5 : P unit :=
  modify (set_Ch_1_Glob 65) ;;;
  modify (set_Bool_Glob 0).

(** The locals of [main] that a run leaves behind. *)
Record main_locals := {
  Int_1_Loc : Z;
  Int_2_Loc : Z;
  Int_3_Loc : Z;
  Enum_Loc : Enumeration;
  Str_2_Loc : Str_30;
}.

(** The loop over [Ch_Index]. *)
Definition char_loop (Run_Index : Z) (l : main_locals) : P main_locals :=
  loop fuel (fun '(Ch_Index, l) =>
    c2 <- glob Ch_2_Glob ;;
    if Ch_Index <=? c2 then
      e <- Func_1 Ch_Index 67 ;;
      if decide (Enum_Loc l = e) then
        e <- Proc_6 Ident_1 ;;
        s <- strcpy "DHRYSTONE PROGRAM, 3'RD STRING" ;;
        modify (set_Int_Glob Run_Index) ;;;
        ret (inl (Ch_Index + 1,
          {| Int_1_Loc := Int_1_Loc l; Int_2_Loc := Run_Index; Int_3_Loc := Int_3_Loc l;
             Enum_Loc := e; Str_2_Loc := s |}))
      else ret (inl (Ch_Index + 1, l))
    else ret (inr l)) (65, l).

(** One run through Dhrystone: the body of the loop over [Run_Index]. *)
Definition one_run (Str_1_Loc : Str_30) (Run_Index : Z) (l : main_locals) : P main_locals :=
  Proc_5 ;;;
  Proc_4 ;;;
  s2 <- strcpy "DHRYSTONE PROGRAM, 2'ND STRING" ;;
  b <- Func_2 Str_1_Loc s2 ;;
  modify (set_Bool_Glob (if b then 0 else 1)) ;;;
  r <-
    loop fuel (fun '(i1, i3) =>
      if i1 <? 3 then
        m <- int (5 * i1) ;;
        _ <- int (m - 3) ;;
        i3 <- Proc_7 i1 3 ;;
        ret (inl (i1 + 1, i3))
      else ret (inr (i1, i3))) (2, Int_3_Loc l) ;;
  let '(i1, i3) := r in
  Proc_8 i1 i3 ;;;
  p <- glob Ptr_Glob ;;
  Proc_1 p ;;;
  l <- char_loop Run_Index
         {| Int_1_Loc := i1; Int_2_Loc := 3; Int_3_Loc := i3; Enum_Loc := Ident_2;
            Str_2_Loc := s2 |} ;;
  i2 <- int (Int_2_Loc l * Int_1_Loc l) ;;
  i1 <- idiv i2 (Int_3_Loc l) ;;
  d <- int (i2 - Int_3_Loc l) ;;
  m <- int (7 * d) ;;
  i2 <- int (m - i1) ;;
  i1 <- Proc_2 i1 ;;
  ret {| Int_1_Loc := i1; Int_2_Loc := i2; Int_3_Loc := Int_3_Loc l; Enum_Loc := Enum_Loc l;
         Str_2_Loc := Str_2_Loc l |}.

(** The loop over [Run_Index]. *)
Definition runs (Str_1_Loc : Str_30) (Number_Of_Runs : Z) (l : main_locals) : P main_locals :=
  foldM (seqZ 1 Number_Of_Runs) (fun l Run_Index => one_run Str_1_Loc Run_Index l) l.
End Fuel.

Section Main.
Context (fuel : nat).
(** The readings of the cycle counter before and after the k-th measurement,
    and what the two records hold when they are allocated. *)
Context (clock : Z -> Z * Z) (junk1 junk2 : Rec_Type).

(** The initialisations; the two records are numbered in the order of their
    allocation. *)
Definition init : P Str_30 :=
  modify (fun g =>
    {| Ptr_Glob := 2; Next_Ptr_Glob := 1; Int_Glob := Int_Glob g; Bool_Glob := Bool_Glob g;
       Ch_1_Glob := Ch_1_Glob g; Ch_2_Glob := Ch_2_Glob g; Arr_1_Glob := Arr_1_Glob g;
       Arr_2_Glob := Arr_2_Glob g; records := [junk1; junk2] |}) ;;;
  p <- glob Ptr_Glob ;;
  n <- glob Next_Ptr_Glob ;;
  s <- strcpy "DHRYSTONE PROGRAM, SOME STRING" ;;
  assign p {| Ptr_Comp := n; Discr := Ident_1; Enum_Comp := Ident_3; Int_Comp := 40;
              Str_Comp := s |} ;;;
  s1 <- strcpy "DHRYSTONE PROGRAM, 1'ST STRING" ;;
  set_arr2 8 7 10 ;;;
  ret s1.

(** The loop [while (!Done)]: the number of runs, the time and the locals it
    ends with. *)
Definition measure (Str_1_Loc : Str_30) (l : main_locals) : P (Z * Z * main_locals) :=
  loop fuel (fun '(attempt, Number_Of_Runs, l) =>
    l <- runs fuel Str_1_Loc Number_Of_Runs l ;;
    User_Time <- int (s32 (snd (clock attempt)) - s32 (fst (clock attempt))) ;;
    if User_Time <? Too_Small_Time then
      n <- int (Number_Of_Runs * 10) ;;
      ret (inl (attempt + 1, n, l))
    else ret (inr (Number_Of_Runs, User_Time, l))) (0, NUMBER_OF_RUNS, l).

Record results := { Microseconds : Z; Dhrystones_Per_Second : Z; final_locals : main_locals }.

Definition main (l : main_locals) : P results :=
  s1 <- init ;;
  r <- measure s1 l ;;
  let '(Number_Of_Runs, User_Time, l) := r in
  q <- idiv User_Time Number_Of_Runs ;;
  m <- int (q * Mic_secs_Per_Second) ;;
  us <- idiv m HZ ;;
  n <- int (HZ * Number_Of_Runs) ;;
  dps <- idiv n User_Time ;;
  ret {| Microseconds := us; Dhrystones_Per_Second := dps; final_locals := l |}.
End Main.

(** The global variables when the program starts. *)
Definition initial_globals : globals :=
  {| Ptr_Glob := 0; Next_Ptr_Glob := 0; Int_Glob := 0; Bool_Glob := 0; Ch_1_Glob := 0;
     Ch_2_Glob := 0; Arr_1_Glob := replicate 50 0; Arr_2_Glob := replicate 50 (replicate 50 0);
     records := [] |}.

(** ** The strings *)

Definition str_1 : Str_30 := string_bytes "DHRYSTONE PROGRAM, 1'ST STRING" ++ [0].
Definition str_2 : Str_30 := string_bytes "DHRYSTONE PROGRAM, 2'ND STRING" ++ [0].
Definition str_some : Str_30 := string_bytes "DHRYSTONE PROGRAM, SOME STRING" ++ [0].

(** ** Lemmas on the accesses *)

Lemma wp_int (Q : Z -> globals -> Prop) z g :
  -2147483648 <= z <= 2147483647 -> Q z g -> wp (int z) Q g.
Proof.
  intros Hz HQ. unfold int. by rewrite !(proj2 (Z.leb_le _ _)) by lia.
Qed.

Lemma wp_arr1 (Q : Z -> globals -> Prop) i g :
  0 <= i < lenZ (Arr_1_Glob g) -> Q (getZ (Arr_1_Glob g) i) g -> wp (arr1 i) Q g.
Proof. intros Hi HQ. unfold wp, arr1, glob, bind, get, ret, of_option. by rewrite fetch_Some. Qed.

Lemma wp_set_arr1 (Q : unit -> globals -> Prop) i v g :
  0 <= i < lenZ (Arr_1_Glob g) -> Q tt (set_Arr_1_Glob (setZ (Arr_1_Glob g) i v) g) ->
  wp (set_arr1 i v) Q g.
Proof.
  intros Hi HQ. unfold wp, set_arr1, glob, bind, get, ret, modify. by rewrite in_range_true.
Qed.

(** A 50 by 50 array. *)
Definition square (a : list (list Z)) : Prop := lenZ a = 50 /\ Forall (fun r => lenZ r = 50) a.

Lemma square_row a i : square a -> 0 <= i < 50 -> lenZ (getZ a i) = 50.
Proof.
  intros [Hl Hr] Hi. rewrite Forall_lookup in Hr. apply (Hr (Z.to_nat i)).
  apply getZ_lookup. lia.
Qed.

Definition get2 (a : list (list Z)) (i j : Z) : Z := getZ (getZ a i) j.
Definition set2 (a : list (list Z)) (i j v : Z) : list (list Z) := setZ a i (setZ (getZ a i) j v).

Lemma square_set a i j v : square a -> 0 <= i < 50 -> square (set2 a i j v).
Proof.
  intros Hs Hi. pose proof (square_row a i Hs Hi). destruct Hs as [Hl Hr]. split.
  - unfold set2. by rewrite setZ_length.
  - apply Forall_insert; [done|]. by rewrite setZ_length.
Qed.

Lemma get2_set2 a i j v : square a -> 0 <= i < 50 -> 0 <= j < 50 -> get2 (set2 a i j v) i j = v.
Proof.
  intros Hs Hi Hj. pose proof (square_row a i Hs Hi). destruct Hs as [Hl _].
  unfold get2, set2. rewrite getZ_setZ by lia. apply getZ_setZ. lia.
Qed.

Lemma get2_set2_ne a i j i' j' v :
  square a -> 0 <= i < 50 -> 0 <= i' -> 0 <= j -> 0 <= j' -> i <> i' \/ j <> j' ->
  get2 (set2 a i j v) i' j' = get2 a i' j'.
Proof.
  intros [Hl _] Hi Hi' Hj Hj' Hne. unfold get2, set2. destruct (decide (i = i')) as [<-|Hd].
  - rewrite getZ_setZ by lia. apply getZ_setZ_ne; lia.
  - by rewrite getZ_setZ_ne by lia.
Qed.

Lemma wp_arr2 (Q : Z -> globals -> Prop) i j g :
  square (Arr_2_Glob g) -> 0 <= i < 50 -> 0 <= j < 50 -> Q (get2 (Arr_2_Glob g) i j) g ->
  wp (arr2 i j) Q g.
Proof.
  intros Hs Hi Hj HQ. pose proof (square_row _ i Hs Hi). destruct Hs as [Hl _].
  unfold wp, arr2, glob, bind, get, ret, of_option. rewrite fetch_Some by lia.
  cbn [mbind option_bind]. by rewrite fetch_Some by lia.
Qed.

Lemma wp_set_arr2 (Q : unit -> globals -> Prop) i j v g :
  square (Arr_2_Glob g) -> 0 <= i < 50 -> 0 <= j < 50 ->
  Q tt (set_Arr_2_Glob (set2 (Arr_2_Glob g) i j v) g) -> wp (set_arr2 i j v) Q g.
Proof.
  intros Hs Hi Hj HQ. pose proof (square_row _ i Hs Hi). destruct Hs as [Hl _].
  unfold wp, set_arr2, glob, bind, get, ret, of_option, modify.
  rewrite fetch_Some by lia. unfold ret. by rewrite in_range_true by lia.
Qed.

Lemma wp_idiv (Q : Z -> globals -> Prop) a b q g :
  b <> 0 -> Z.quot a b = q -> -2147483648 <= q <= 2147483647 -> Q q g -> wp (idiv a b) Q g.
Proof.
  intros Hb <- Hq HQ. unfold idiv. rewrite (proj2 (Z.eqb_neq _ _)) by done. by apply wp_int.
Qed.

(** [wp_step] runs the operation at the head of the goal. *)
Ltac wp_step :=
  wp_seq;
  lazymatch goal with
  | |- wp (int _) _ _ => apply wp_int; [lia|]
  | |- wp (arr1 _) _ _ => apply wp_arr1; [cbn; rewrite ?setZ_length; lia|]
  | |- wp (set_arr1 _ _) _ _ => apply wp_set_arr1; [cbn; rewrite ?setZ_length; lia|]
  | |- wp (arr2 _ _) _ _ => apply wp_arr2; [auto|lia|lia|]
  | |- wp (set_arr2 _ _ _) _ _ => apply wp_set_arr2; [auto|lia|lia|]
  | |- wp (ret _) _ _ => apply wp_ret
  | |- wp (glob _) _ _ => eapply wp_eq; [reflexivity|]
  | |- wp (modify _) _ _ => eapply wp_eq; [reflexivity|]
  end.

(** ** One run *)

(** The globals between two runs: [n] runs are done. *)
Record ready (n : Z) (g : globals) : Prop := {
  ready_ptr : Ptr_Glob g = 2;
  ready_next : Next_Ptr_Glob g = 1;
  ready_arr1 : lenZ (Arr_1_Glob g) = 50;
  ready_arr2 : square (Arr_2_Glob g);
  ready_count : get2 (Arr_2_Glob g) 8 7 = 10 + n;
  ready_records : exists r i,
    records g = [r; {| Ptr_Comp := 1; Discr := Ident_1; Enum_Comp := Ident_3; Int_Comp := i;
                       Str_Comp := str_some |}];
}.

(** What the end of the program announces as the final values. *)
Record final_globals (g : globals) : Prop := {
  final_Int_Glob : Int_Glob g = 5;
  final_Bool_Glob : Bool_Glob g = 1;
  final_Ch_1_Glob : Ch_1_Glob g = 65;
  final_Ch_2_Glob : Ch_2_Glob g = 66;
  final_Arr_1_Glob : getZ (Arr_1_Glob g) 8 = 7;
  final_records :
    records g =
      [{| Ptr_Comp := 1; Discr := Ident_1; Enum_Comp := Ident_2; Int_Comp := 18;
          Str_Comp := str_some |};
       {| Ptr_Comp := 1; Discr := Ident_1; Enum_Comp := Ident_3; Int_Comp := 17;
          Str_Comp := str_some |}];
}.

Definition final_main_locals : main_locals :=
  {| Int_1_Loc := 5; Int_2_Loc := 13; Int_3_Loc := 7; Enum_Loc := Ident_2; Str_2_Loc := str_2 |}.

(** The arrays after [Proc_8], which is called with 3 and 7. *)
Lemma Proc_8_ok n g :
  lenZ (Arr_1_Glob g) = 50 -> square (Arr_2_Glob g) -> get2 (Arr_2_Glob g) 8 7 = 10 + n ->
  -2147483648 <= 11 + n <= 2147483647 ->
  wp (Proc_8 3 7) (fun _ g' => exists a1 a2,
    g' = set_Int_Glob 5 (set_Arr_2_Glob a2 (set_Arr_1_Glob a1 g)) /\
    lenZ a1 = 50 /\ getZ a1 8 = 7 /\ square a2 /\ get2 a2 8 7 = 11 + n) g.
Proof.
  intros H1 H2 Hn Hr. unfold Proc_8.
  wp_step. wp_step. wp_step. wp_step. wp_step. cbn [Arr_1_Glob set_Arr_1_Glob].
  rewrite getZ_setZ by lia.
  set (a1 := setZ (setZ (setZ (Arr_1_Glob g) 8 7) 9 7) 38 8).
  assert (lenZ a1 = 50 /\ getZ a1 8 = 7) as [Hl1 H8].
  { unfold a1. split; [by rewrite !setZ_length|].
    rewrite !getZ_setZ_ne by lia. apply getZ_setZ. lia. }
  change (for_ _ _ _) with (set_arr2 8 8 8 ;;; set_arr2 8 9 8 ;;; ret tt).
  set (g1 := set_Arr_1_Glob _ _).
  assert (Eg : g1 = set_Arr_1_Glob a1 g) by done. clearbody g1. subst g1.
  set (b1 := set2 (Arr_2_Glob g) 8 8 8).
  assert (square b1) as Hb1 by (apply square_set; [done|lia]).
  set (b2 := set2 b1 8 9 8).
  assert (square b2) as Hb2 by (apply square_set; [done|lia]).
  assert (get2 b2 8 7 = 10 + n) as H7 by (unfold b2, b1; rewrite !get2_set2_ne; done || lia).
  wp_seq. do 2 (wp_step; cbn [Arr_2_Glob set_Arr_1_Glob set_Arr_2_Glob]). wp_step.
  wp_step. cbn [Arr_2_Glob set_Arr_1_Glob set_Arr_2_Glob]. change (3 + 5 - 1) with 7.
  fold b1. fold b2. change (3 + 5) with 8. rewrite H7.
  wp_step. wp_step. cbn [Arr_2_Glob set_Arr_1_Glob set_Arr_2_Glob]. fold b1. fold b2.
  set (b3 := set2 b2 8 7 _).
  assert (square b3) as Hb3 by (apply square_set; [done|lia]).
  wp_step. cbn [Arr_1_Glob set_Arr_1_Glob set_Arr_2_Glob]. rewrite H8.
  wp_step. wp_step. cbn [Arr_2_Glob set_Arr_1_Glob set_Arr_2_Glob].
  exists a1, (set2 b3 28 8 7). split; [done|]. split; [done|]. split; [done|].
  split; [apply square_set; [done|lia]|].
  rewrite get2_set2_ne by (done || lia). unfold b3. rewrite get2_set2 by (done || lia). lia.
Qed.

(** The record operations, on the two records. *)
Lemma Proc_1_ok g r i :
  Ptr_Glob g = 2 -> Int_Glob g = 5 ->
  records g = [r; {| Ptr_Comp := 1; Discr := Ident_1; Enum_Comp := Ident_3; Int_Comp := i;
                     Str_Comp := str_some |}] ->
  Proc_1 (Ptr_Glob g) g = Ok (tt, set_records
    [{| Ptr_Comp := 1; Discr := Ident_1; Enum_Comp := Ident_2; Int_Comp := 18;
        Str_Comp := str_some |};
     {| Ptr_Comp := 1; Discr := Ident_1; Enum_Comp := Ident_3; Int_Comp := 17;
        Str_Comp := str_some |}] g).
Proof. destruct g; cbn. intros -> -> ->. reflexivity. Qed.

Lemma Func_2_ok fuel g : (2 <= fuel)%nat -> Func_2 fuel str_1 str_2 g = Ok (false, g).
Proof. destruct fuel as [|[|fuel]]; [lia|lia|]. reflexivity. Qed.

Lemma char_loop_ok fuel idx l g :
  (3 <= fuel)%nat -> Ch_2_Glob g = 66 -> Enum_Loc l = Ident_2 ->
  char_loop fuel idx l g = Ok (l, g).
Proof.
  destruct fuel as [|[|[|fuel]]]; [lia..|]. destruct g, l; cbn. intros _ -> ->. reflexivity.
Qed.

Lemma Proc_4_ok g :
  Ch_1_Glob g = 65 -> Bool_Glob g = 0 ->
  Proc_4 g = Ok (tt, set_Ch_2_Glob 66 (set_Bool_Glob 1 g)).
Proof. destruct g; cbn. intros -> ->. reflexivity. Qed.

(** A loop left in its first round. *)
Lemma wp_loop_once {S A B} (body : A -> M S (A + B)) (Q : B -> S -> Prop) fuel a s :
  (0 < fuel)%nat ->
  wp (body a) (fun r s' => match r with inr b => Q b s' | inl _ => False end) s ->
  wp (loop fuel body a) Q s.
Proof.
  destruct fuel; [lia|]. intros _ H. simpl. apply wp_bind. eapply wp_mono; [exact H|].
  intros [a'|b] s'; [done|]. apply wp_ret.
Qed.

Section Runs.
Context (fuel : nat).
Hypothesis enough_fuel : (3 <= fuel)%nat.

Lemma one_run_ok n idx l g :
  ready n g -> -2147483648 <= 11 + n <= 2147483647 ->
  wp (one_run fuel str_1 idx l)
     (fun l' g' => ready (n + 1) g' /\ final_globals g' /\ l' = final_main_locals) g.
Proof.
  intros [Hp Hnx H1 H2 Hc (r & i & Hrec)] Hn. unfold one_run.
  wp_seq. eapply wp_eq; [reflexivity|]. wp_seq. eapply wp_eq; [by apply Proc_4_ok|]. wp_seq.
  eapply (wp_eq _ _ _ str_2); [reflexivity|]. wp_seq.
  eapply wp_eq; [apply Func_2_ok; lia|]. wp_step. wp_seq.
  eapply (wp_eq _ _ _ (3, 7)).
  { clear -enough_fuel. destruct fuel as [|[|f]]; [lia..|reflexivity]. }
  wp_seq. set (g0 := set_Bool_Glob _ _).
  eapply wp_mono; [apply (Proc_8_ok n); by try destruct g|].
  intros [] g' (a1 & a2 & -> & Hl1 & H8 & Hs & Hc').
  wp_step. wp_seq. eapply wp_eq.
  { eapply (Proc_1_ok _ r i); by destruct g. }
  wp_seq. eapply wp_eq; [by apply char_loop_ok|]. cbn [Int_2_Loc Int_1_Loc Int_3_Loc Enum_Loc Str_2_Loc].
  wp_step. wp_seq.
  eapply (wp_eq _ _ _ 1); [reflexivity|]. wp_step. wp_step. wp_step. wp_seq.
  eapply (wp_eq _ _ _ 5); [reflexivity|]. wp_step.
  split; [split|split; [split|]]; try (by destruct g).
  - cbn. lia.
  - by eexists _, _.
Qed.

Lemma runs_ok n l g :
  ready 0 g -> 0 < n -> 10 + n <= 2147483647 ->
  wp (runs fuel str_1 n l)
     (fun l' g' => ready n g' /\ final_globals g' /\ l' = final_main_locals) g.
Proof.
  intros Hr Hn Hmax. unfold runs.
  eapply wp_mono; [apply (wp_foldM _ _ (fun done l g => ready (lenZ done) g /\
    (done <> [] -> final_globals g /\ l = final_main_locals)))|].
  - by split.
  - intros pre x todo l' g' E [Hr' _]. apply (f_equal lenZ) in E.
    rewrite lenZ_app, lenZ_cons in E. unfold lenZ at 1 in E. rewrite length_seqZ in E.
    pose proof (lenZ_nonneg todo). pose proof (lenZ_nonneg pre).
    eapply wp_mono; [apply (one_run_ok (lenZ pre)); [done|lia]|].
    intros l'' g'' (H1 & H2 & H3). split; [|done]. by rewrite lenZ_app.
  - intros l' g' [Hr' Hf]. unfold lenZ in Hr'. rewrite length_seqZ in Hr'.
    rewrite Z2Nat.id in Hr' by lia. split; [done|]. apply Hf.
    rewrite seqZ_cons by lia. done.
Qed.

Context (clock : Z -> Z * Z) (junk1 junk2 : Rec_Type).

Lemma init_ok :
  wp (init junk1 junk2) (fun s1 g => s1 = str_1 /\ ready 0 g) initial_globals.
Proof.
  clear enough_fuel. eapply wp_eq; [reflexivity|]. split; [done|]. split; cbn; try done.
  - split; [done|]. repeat constructor.
  - by eexists _, _.
Qed.

(** The first measurement. *)
Definition first_time : Z := s32 (snd (clock 0)) - s32 (fst (clock 0)).

Lemma main_returns l :
  1 <= first_time <= 1073999 ->
  wp (main fuel clock junk1 junk2 l)
     (fun r g =>
        final_globals g /\ get2 (Arr_2_Glob g) 8 7 = NUMBER_OF_RUNS + 10 /\
        final_locals r = final_main_locals /\
        Microseconds r = first_time / 500 /\ Dhrystones_Per_Second r = 500000000 / first_time)
     initial_globals.
Proof.
  intros HT. unfold main. wp_call ltac:(apply init_ok). intros s1 g [-> Hg].
  unfold measure. wp_seq. apply wp_loop_once; [lia|]. wp_seq. eapply wp_mono; [apply runs_ok; [done|by vm_compute..]|].
  intros l' g' (Hr & Hf & ->). fold first_time. wp_step.
  rewrite (proj2 (Z.ltb_ge _ _)) by (unfold Too_Small_Time; lia). wp_step. cbv beta iota.
  assert (0 <= first_time / 500 <= 2147) as Hq by divlia.
  assert (0 <= 1000000 * 500 / first_time <= 500000000) as Hd.
  { split; [apply Z.div_pos; lia|]. apply Z.div_le_upper_bound; nia. }
  unfold NUMBER_OF_RUNS, Mic_secs_Per_Second, HZ.
  wp_seq. apply (wp_idiv _ _ _ (first_time / 500)); [lia|by rewrite Z.quot_div_nonneg by lia|lia|].
  wp_step. wp_seq.
  apply (wp_idiv _ _ _ (first_time / 500)); [lia|by rewrite Z.quot_mul by lia|lia|].
  wp_step. wp_seq.
  apply (wp_idiv _ _ _ (1000000 * 500 / first_time));
    [lia|by rewrite Z.quot_div_nonneg by lia|lia|].
  wp_step. cbn [Microseconds Dhrystones_Per_Second final_locals].
  split; [done|]. split; [rewrite (ready_count _ _ Hr); unfold NUMBER_OF_RUNS; lia|]. done.
Qed.

Lemma wlp_int (Q : Z -> globals -> Prop) z g :
  (-2147483648 <= z <= 2147483647 -> Q z g) -> wlp (int z) Q g.
Proof.
  clear. intros HQ a s'. unfold int.
  destruct (Z.leb_spec (-2147483648) z), (Z.leb_spec z 2147483647); simpl; try done.
  intros [= <- <-]. apply HQ. lia.
Qed.

(** Another measurement multiplies the number of runs by ten. *)
Lemma measure_runs s1 l g :
  wlp (measure fuel clock s1 l) (fun '(n, t, _) _ =>
    (n = 500 /\ t = first_time /\ 1 <= t) \/ 5000 <= n) g.
Proof.
  clear enough_fuel. unfold measure.
  apply (wlp_loop _ (fun '(k, n, _) _ => 0 <= k /\ (k = 0 /\ n = 500 \/ 0 < k /\ 5000 <= n))).
  { by split; [|left]. }
  intros [[k n] l'] g' [Hk Hn]. apply wlp_bind.
  eapply wlp_mono; [intros ? ? _; exact I|]. intros l'' g'' _.
  apply wlp_bind, wlp_int. intros Hr.
  destruct (Z.ltb_spec (s32 (snd (clock k)) - s32 (fst (clock k))) Too_Small_Time) as [H|H].
  - apply wlp_bind, wlp_int. intros _. apply wlp_ret. split; [lia|]. right. lia.
  - apply wlp_ret. destruct Hn as [[-> ->]|[_ ?]]; [left|by right].
    unfold first_time, Too_Small_Time in *. lia.
Qed.

Lemma main_undefined l :
  ~ 1 <= first_time <= 1073999 ->
  wlp (main fuel clock junk1 junk2 l) (fun _ _ => False) initial_globals.
Proof.
  intros HT. unfold main. apply wlp_bind. intros s1 g _. apply wlp_bind.
  eapply wlp_mono; [apply measure_runs|]. intros [[n t] l'] g' Hn.
  apply wlp_bind. unfold idiv.
  destruct Hn as [(-> & -> & Ht)|Hn].
  - change (500 =? 0) with false. apply wlp_int. intros _. apply wlp_bind, wlp_int.
    rewrite Z.quot_div_nonneg by lia. unfold Mic_secs_Per_Second. intros Hq. exfalso.
    assert (2148 <= first_time / 500) by (apply Z.div_le_lower_bound; lia). lia.
  - rewrite (proj2 (Z.eqb_neq n 0)) by lia. apply wlp_int. intros _. apply wlp_bind, wlp_int.
    intros _. change (HZ =? 0) with false. apply wlp_bind, wlp_int. intros _.
    apply wlp_bind, wlp_int. unfold HZ. lia.
Qed.
End Runs.

(** When the first measurement takes between 1 and 1073999 ticks, the
    benchmark ends with the values its last lines announce for every variable
    (500 runs, so 510 in the element that counts them) and prints the time per
    run and the runs per second; in every other case it has no defined result,
    because [(User_Time / Number_Of_Runs) * 1000000] or, after another
    measurement with ten times the runs, [HZ * Number_Of_Runs] overflows. *)
Theorem main_final_values fuel clock junk1 junk2 l :
  (3 <= fuel)%nat ->
  (1 <= first_time clock <= 1073999 ->
   wp (main fuel clock junk1 junk2 l)
      (fun r g =>
         final_globals g /\ get2 (Arr_2_Glob g) 8 7 = NUMBER_OF_RUNS + 10 /\
         final_locals r = final_main_locals /\
         Microseconds r = first_time clock / 500 /\
         Dhrystones_Per_Second r = 500000000 / first_time clock)
      initial_globals) /\
  (~ 1 <= first_time clock <= 1073999 ->
   forall r, main fuel clock junk1 junk2 l initial_globals <> Ok r).
Proof.
  intros Hf. split; [by apply main_returns|].
  intros HT [r g] E. by apply (main_undefined fuel Hf clock junk1 junk2 l HT r g).
Qed.

Example main_final_values_witness :
  exists r g,
    main 3 (fun _ => (1000, 201000)) inhabitant inhabitant final_main_locals initial_globals =
      Ok (r, g) /\
    get2 (Arr_2_Glob g) 8 7 = 510 /\ Microseconds r = 400 /\ Dhrystones_Per_Second r = 2500.
Proof.
  destruct (main_final_values 3 (fun _ => (1000, 201000)) inhabitant inhabitant
    final_main_locals (le_n 3)) as [H _].
  assert (1 <= first_time (fun _ => (1000, 201000)) <= 1073999) as HT
    by (split; vm_compute; discriminate).
  destruct (wp_run _ _ _ (H HT)) as (r & g & E & _ & H7 & _ & Hus & Hd).
  exists r, g. split; [exact E|]. split; [exact H7|]. split; [exact Hus|exact Hd].
Defined.
