(* ===== verification/PerfBaseline.v ===== *)
(** * The Zephyr performance baseline (zephyr-docker/workspace/perf_baseline)

    The four functions of funclib.c and the program of testapp.c that calls them.
    [double] is IEEE binary64, by the Standard Library's specification of floating
    point; [int] is 32 bits, with the behaviour on overflow as a parameter, since
    C leaves it undefined and the compiler used here wraps around. *)

From Stdlib Require Import ZArith Lia SpecFloat.
From stdpp Require Import base tactics list numbers.
From S2P Require Import Prelude.

(** ** double *)

Definition double := spec_float.
Definition double_of_Z (z : Z) : double := binary_normalize 53 1024 z 0 false.
Definition dadd : double -> double -> double := SFadd 53 1024.
Definition dsub : double -> double -> double := SFsub 53 1024.
Definition dmul : double -> double -> double := SFmul 53 1024.
Definition ddiv : double -> double -> double := SFdiv 53 1024.
Definition dlt (x y : double) : bool := SFltb x y.

(** The constants: 1.25 and 1.5 are exact in binary. *)
Definition d1_25 : double := ddiv (double_of_Z 5) (double_of_Z 4).
Definition d1_5 : double := ddiv (double_of_Z 3) (double_of_Z 2).

(** The conversion to [int]: towards zero, undefined outside of its range. *)
Definition int_of_double (x : double) : option Z :=
  match x with
  | S754_zero _ => Some 0
  | S754_finite s m e =>
      let n := if 0 <=? e then Z.pos m * 2 ^ e else Z.pos m / 2 ^ (- e) in
      let n := if s then - n else n in
      if (-2147483648 <=? n) && (n <=? 2147483647) then Some n else None
  | _ => None
  end.

(** ** int: what an operation gives when its result does not fit *)

Class int_overflow := fits : Z -> option Z.

(** As the standard has it, and as the compiler does. *)
Definition iso_int : int_overflow :=
  fun z => if (-2147483648 <=? z) && (z <=? 2147483647) then Some z else None.
Definition wrapping_int : int_overflow := fun z => Some (s32 z).

(** ** funclib.c *)

(** [for (i = 0; i < n; i++)] with a [break]: the [i] it ends with. *)
Fixpoint count_rounds {A} (round : A -> option A) (n : nat) (i : Z) (a : A) : Z :=
  match n with
  | O => i
  | S n => match round a with
           | None => i
           | Some a => count_rounds round n (i + 1) a
           end
  end.

Definition func1 (arg1 : double) : double :=
  let ratio := d1_25 in
  let thresold := double_of_Z 1 in
  let min := double_of_Z 10000 in
  let val := if dlt arg1 min then min else arg1 in
  let round val :=
    let val := ddiv val ratio in
    if dlt val thresold then None else Some (dadd val d1_5) in
  double_of_Z (count_rounds round 1000 0 val).

Definition func2 (arg1 : double) : double :=
  let ratio := d1_25 in
  let thresold := double_of_Z 10000 in
  let max := double_of_Z 10 in
  let val := if dlt max arg1 then max else arg1 in
  let round val :=
    let val := dmul val ratio in
    if dlt thresold val then None else Some (dsub val d1_5) in
  double_of_Z (count_rounds round 1000 0 val).

Definition func3 (arg1 : double) : double :=
  let val := arg1 in
  let val := func1 val in
  let val := func2 val in
  val.

Section Program.
Context `{int_overflow}.

(** One round of [func4]'s loop. *)
Definition syracuse_step (val : Z) : option Z :=
  if Z.rem val 2 =? 0 then Some (Z.quot val 2)
  else v ← fits (3 * val); fits (v + 1).

Fixpoint syracuse (fuel : nat) (val i : Z) : outcome Z :=
  match fuel with
  | O => NoFuel
  | S fuel =>
      if val =? 1 then Ok i
      else match syracuse_step val with
           | None => Ub
           | Some val =>
               match fits (i + 1) with
               | None => Ub
               | Some i => syracuse fuel val i
               end
           end
  end.

Definition func4 (fuel : nat) (arg : double) : outcome double :=
  match int_of_double arg with
  | None => Ub
  | Some val =>
      match syracuse fuel val 0 with
      | Ok i => Ok (double_of_Z i)
      | NoFuel => NoFuel
      | Ub => Ub
      end
  end.

(** ** testapp.c *)

Definition FUNCTION_NUMBER : Z := 4.

(** [ftable[index](value)]. *)
Definition ftable (fuel : nat) (index : Z) (value : double) : outcome double :=
  match index with
  | 0 => Ok (func1 value)
  | 1 => Ok (func2 value)
  | 2 => Ok (func3 value)
  | 3 => func4 fuel value
  | _ => Ub
  end.

(** The two allocations: a [buff_ptr_t] on the stack, of which the program uses
    [buffer] as a double, and one on the heap, where [pfunc] is used as well.
    [malloc_ok] says whether [malloc] succeeds. *)
Context (malloc_ok : bool) (fuel : nat).

(** The loop of [main_func] from [i] on, with the heap buffer's value. *)
Fixpoint call_functions (n : nat) (i first_func_call : Z) (value buffer : double) :
    outcome double :=
  match n with
  | O => Ok buffer
  | S n =>
      let cur_index := (first_func_call + i) mod FUNCTION_NUMBER in
      match ftable fuel cur_index value with
      | Ok x => call_functions n (i + 1) first_func_call value (dadd buffer x)
      | e => e
      end
  end.

Definition main_func (value : double) (first_func_call : Z) : outcome double :=
  if malloc_ok then
    call_functions (Z.to_nat FUNCTION_NUMBER) 0 first_func_call value (double_of_Z 0)
  else Ub.

(** [main_func_rec], on the number of calls still below this one:
    [depth - curdepth]. *)
Fixpoint main_func_rec (below : nat) (value : double) (first_func_call : Z) : outcome double :=
  let buffer := double_of_Z 0 in
  match (match below with
         | O => Ok buffer
         | S below =>
             match main_func_rec below value ((first_func_call + 1) mod FUNCTION_NUMBER) with
             | Ok x => Ok (dadd buffer x)
             | e => e
             end
         end) with
  | Ok buffer =>
      match main_func value first_func_call with
      | Ok tmp => Ok (dadd buffer tmp)
      | e => e
      end
  | e => e
  end.

(** [main]'s loop. *)
Fixpoint sum_calls (n : nat) (depth : Z) (value sum : double) : outcome double :=
  match n with
  | O => Ok sum
  | S n =>
      match main_func_rec (Z.to_nat (depth - 1)) value 0 with
      | Ok x => sum_calls n depth value (dadd sum x)
      | e => e
      end
  end.

Definition MAX_DEPTH : Z := 100.
Definition MAX_CALLS : Z := 10000.

(** [main] for given parameters: [None] when it exits with an error, else the
    sum and the cycles it prints. *)
Definition run (depth callsnb : Z) (value : double) (start stop : Z) :
    outcome (option (double * Z)) :=
  if (depth <? 1) || (MAX_DEPTH <? depth) then Ok None
  else if (callsnb <? 1) || (MAX_CALLS <? callsnb) then Ok None
  else
    match sum_calls (Z.to_nat callsnb) depth value (double_of_Z 0) with
    | Ok sum => Ok (Some (sum, u64 (stop - start)))
    | NoFuel => NoFuel
    | Ub => Ub
    end.

Definition main (start stop : Z) : outcome (option (double * Z)) :=
  run 12 50 (double_of_Z 63728127) start stop.
End Program.

(** ** func4 against the unbounded sequence *)

Definition collatz (v : Z) : Z := if Z.even v then v / 2 else 3 * v + 1.

(** [v] reaches 1 after [n] steps, the first time, without leaving [int]. *)
Inductive reaches_one : Z -> Z -> Prop :=
| reaches_here : reaches_one 1 0
| reaches_later v n :
    1 < v -> collatz v <= 2147483647 -> reaches_one (collatz v) n -> reaches_one v (n + 1).

Lemma reaches_one_nonneg v n : reaches_one v n -> 0 <= n.
Proof. induction 1; lia. Qed.

Lemma collatz_step (O : int_overflow) v :
  O = iso_int \/ O = wrapping_int -> 1 < v <= 2147483647 -> collatz v <= 2147483647 ->
  @syracuse_step O v = Some (collatz v).
Proof.
  intros HO Hv Hc. unfold syracuse_step, collatz in *.
  rewrite Z.rem_mod_nonneg, Z.quot_div_nonneg, Zmod_even by lia.
  destruct (Z.even v); [done|]. cbn iota. change (1 =? 0) with false. cbn iota.
  destruct HO as [->| ->]; unfold fits, iso_int, wrapping_int.
  - rewrite !(proj2 (Z.leb_le _ _)) by lia. simpl.
    by rewrite !(proj2 (Z.leb_le _ _)) by lia.
  - simpl. by rewrite !s32_id by (rewrite ?s32_id; lia).
Qed.

(** [func4] counts the steps of the sequence, as long as it fits an [int]; both
    readings of overflow agree there. *)
Lemma syracuse_counts (O : int_overflow) v n fuel i :
  O = iso_int \/ O = wrapping_int -> reaches_one v n -> v <= 2147483647 ->
  0 <= i -> i + n <= 2147483647 -> (Z.to_nat n < fuel)%nat ->
  @syracuse O fuel v i = Ok (i + n).
Proof.
  intros HO Hr. revert fuel i. induction Hr as [|v n Hv Hc Hr IH]; intros fuel i Hmax Hi Hn Hf.
  - destruct fuel; [lia|]. simpl. by rewrite Z.add_0_r.
  - apply reaches_one_nonneg in Hr as Hn0. destruct fuel as [|fuel]; [lia|]. simpl.
    destruct (Z.eqb_spec v 1); [lia|].
    rewrite (collatz_step O) by (done || lia).
    assert (@fits O (i + 1) = Some (i + 1)) as ->.
    { destruct HO as [->| ->]; unfold fits, iso_int, wrapping_int; [|by rewrite s32_id by lia].
      by rewrite !(proj2 (Z.leb_le _ _)) by lia. }
    rewrite IH by lia. f_equal. lia.
Qed.

(** ** The program *)

(** More fuel does not change an answer. *)
Lemma syracuse_more (O : int_overflow) k fuel v i :
  @syracuse O fuel v i <> NoFuel -> @syracuse O (fuel + k) v i = @syracuse O fuel v i.
Proof.
  revert v i. induction fuel as [|fuel IH]; intros v i; simpl; [done|].
  destruct (v =? 1); [done|]. destruct (syracuse_step v); [|done].
  destruct (fits (i + 1)); [|done]. apply IH.
Qed.

Lemma func4_more (O : int_overflow) fuel fuel' x :
  (fuel <= fuel')%nat -> @func4 O fuel x <> NoFuel -> @func4 O fuel' x = @func4 O fuel x.
Proof.
  intros Hle. unfold func4. destruct (int_of_double x) as [v|]; [|done].
  replace fuel' with (fuel + (fuel' - fuel))%nat by lia. intros Hn.
  rewrite syracuse_more; [done|]. intros E. by rewrite E in Hn.
Qed.

Definition seed : double := double_of_Z 63728127.

Lemma func1_seed : func1 seed = double_of_Z 1000.
Proof. vm_compute. reflexivity. Qed.
Lemma func2_seed : func2 seed = double_of_Z 35.
Proof. vm_compute. reflexivity. Qed.
Lemma func3_seed : func3 seed = double_of_Z 35.
Proof. vm_compute. reflexivity. Qed.
Lemma func4_seed_wrapping fuel :
  (378 <= fuel)%nat -> @func4 wrapping_int fuel seed = Ok (double_of_Z 377).
Proof.
  intros Hf. rewrite (func4_more wrapping_int 378 fuel); [vm_compute; reflexivity|exact Hf|].
  vm_compute. discriminate.
Qed.
Lemma func4_seed_iso fuel : (378 <= fuel)%nat -> @func4 iso_int fuel seed = Ub.
Proof.
  intros Hf. rewrite (func4_more iso_int 378 fuel); [vm_compute; reflexivity|exact Hf|].
  vm_compute. discriminate.
Qed.

(** What each entry of the table returns. *)
Definition entry (index : Z) : Z :=
  match index with 0 => 1000 | 3 => 377 | _ => 35 end.

Lemma ftable_seed fuel index :
  (378 <= fuel)%nat -> 0 <= index < 4 ->
  @ftable wrapping_int fuel index seed = Ok (double_of_Z (entry index)).
Proof.
  intros Hf Hi.
  assert (index = 0 \/ index = 1 \/ index = 2 \/ index = 3) as Hcase by lia.
  destruct Hcase as [->|[->|[->| ->]]]; cbn [ftable entry].
  - by rewrite func1_seed.
  - by rewrite func2_seed.
  - by rewrite func3_seed.
  - by rewrite func4_seed_wrapping.
Qed.

(** One call of each function, in any rotation. *)
Lemma main_func_seed fuel k :
  (378 <= fuel)%nat -> 0 <= k < 4 ->
  @main_func wrapping_int true fuel seed k = Ok (double_of_Z 1447).
Proof.
  intros Hf Hk. unfold main_func. change (Z.to_nat FUNCTION_NUMBER) with 4%nat.
  cbn [call_functions].
  rewrite !ftable_seed by (exact Hf || (apply Z.mod_pos_bound; reflexivity)).
  assert (k = 0 \/ k = 1 \/ k = 2 \/ k = 3) as Hcase by lia.
  destruct Hcase as [->|[->|[->| ->]]]; f_equal; vm_compute; reflexivity.
Qed.

(** The recursion adds one [main_func] for every level. *)
Fixpoint levels (below : nat) : double :=
  dadd (match below with O => double_of_Z 0 | S b => dadd (double_of_Z 0) (levels b) end)
    (double_of_Z 1447).

Lemma main_func_rec_seed fuel below k :
  (378 <= fuel)%nat -> 0 <= k < 4 ->
  @main_func_rec wrapping_int true fuel below seed k = Ok (levels below).
Proof.
  intros Hf. revert k. induction below as [|below IH]; intros k Hk; cbn [main_func_rec levels].
  - by rewrite main_func_seed.
  - rewrite IH by (apply Z.mod_pos_bound; reflexivity). by rewrite main_func_seed.
Qed.

Lemma sum_calls_seed fuel n sum :
  (378 <= fuel)%nat ->
  @sum_calls wrapping_int true fuel n 12 seed sum =
    Ok (Nat.iter n (fun s => dadd s (levels 11)) sum).
Proof.
  intros Hf. revert sum. induction n as [|n IH]; intros sum; [done|]. cbn [sum_calls].
  change (Z.to_nat (12 - 1)) with 11%nat. rewrite main_func_rec_seed by done.
  by rewrite IH, Nat.iter_succ_r.
Qed.

(** Below any level the first function called is reached; with the standard's
    [int] the fourth function has no value. *)
Lemma main_func_iso fuel k :
  (378 <= fuel)%nat -> 0 <= k < 4 -> @main_func iso_int true fuel seed k = Ub.
Proof.
  intros Hf Hk. unfold main_func. change (Z.to_nat FUNCTION_NUMBER) with 4%nat.
  assert (k = 0 \/ k = 1 \/ k = 2 \/ k = 3) as Hcase by lia.
  assert (E : @ftable iso_int fuel 3 seed = Ub) by by apply func4_seed_iso.
  destruct Hcase as [->|[->|[->| ->]]]; cbn [call_functions].
  - change ((0 + 0) mod FUNCTION_NUMBER) with 0. change ((0 + (0 + 1)) mod FUNCTION_NUMBER) with 1.
    change ((0 + (0 + 1 + 1)) mod FUNCTION_NUMBER) with 2.
    change ((0 + (0 + 1 + 1 + 1)) mod FUNCTION_NUMBER) with 3. by rewrite E.
  - change ((1 + 0) mod FUNCTION_NUMBER) with 1. change ((1 + (0 + 1)) mod FUNCTION_NUMBER) with 2.
    change ((1 + (0 + 1 + 1)) mod FUNCTION_NUMBER) with 3. by rewrite E.
  - change ((2 + 0) mod FUNCTION_NUMBER) with 2. change ((2 + (0 + 1)) mod FUNCTION_NUMBER) with 3.
    by rewrite E.
  - change ((3 + 0) mod FUNCTION_NUMBER) with 3. by rewrite E.
Qed.

Lemma main_func_rec_iso fuel below k :
  (378 <= fuel)%nat -> 0 <= k < 4 -> @main_func_rec iso_int true fuel below seed k = Ub.
Proof.
  intros Hf. revert k. induction below as [|below IH]; intros k Hk; cbn [main_func_rec].
  - by rewrite main_func_iso.
  - by rewrite IH by (apply Z.mod_pos_bound; reflexivity).
Qed.

(** With an [int] that wraps around the program prints the sum 868200 (what
    the run recorded in attack1.txt printed) and the cycles between its two
    readings of the counter; by the C standard it has no defined behaviour,
    since [func4] overflows an [int] on the seed value.  378 rounds of its loop
    are enough. *)
Theorem main_computes fuel start stop :
  (378 <= fuel)%nat ->
  @main wrapping_int true fuel start stop =
    Ok (Some (double_of_Z 868200, u64 (stop - start))) /\
  @main iso_int true fuel start stop = Ub.
Proof.
  intros Hf. unfold main, run. fold seed.
  change ((12 <? 1) || (MAX_DEPTH <? 12)) with false.
  change ((50 <? 1) || (MAX_CALLS <? 50)) with false. cbn iota.
  change (Z.to_nat 50) with 50%nat. split.
  - rewrite sum_calls_seed by done.
    replace (Nat.iter 50 (fun s => dadd s (levels 11)) (double_of_Z 0)) with (double_of_Z 868200)
      by (vm_compute; reflexivity). done.
  - cbn [sum_calls]. change (Z.to_nat (12 - 1)) with 11%nat.
    by rewrite main_func_rec_iso.
Qed.

Example main_computes_witness :
  (378 <= 378)%nat /\
  @main wrapping_int true 378 1000 608034130 = Ok (Some (double_of_Z 868200, 608033130)).
Proof.
  split; [lia|]. exact (proj1 (main_computes 378 1000 608034130 (le_n 378))).
Defined.
