(* ===== verification/Grid.v ===== *)
(** * Matrices inside arrays

    A C matrix is a region of an array: rows of [ld] elements that start at an
    offset.  [upd] says how an operation changes each element of such a region;
    the lemmas compose operations on the parts of a matrix. *)

From Stdlib Require Import ZArith Lia.
From stdpp Require Import base tactics list numbers.
From S2P Require Import Prelude CArray.

(** Element ([r], [s]) of the matrix at [c] with rows of [ld]. *)
Definition addr (c ld r s : Z) : Z := c + r * ld + s.

Definition in_box (m n r s : Z) : bool :=
  (0 <=? r) && (r <? m) && (0 <=? s) && (s <? n).

Lemma in_box_true m n r s : in_box m n r s = true <-> 0 <= r < m /\ 0 <= s < n.
Proof. unfold in_box. rewrite !andb_true_iff. lia. Qed.

Lemma in_box_false m n r s : in_box m n r s = false <-> ~ (0 <= r < m /\ 0 <= s < n).
Proof. rewrite <-in_box_true. by destruct (in_box m n r s). Qed.

Lemma addr_inj c ld r s r' s' :
  0 <= s < ld -> 0 <= s' < ld -> addr c ld r s = addr c ld r' s' -> r = r' /\ s = s'.
Proof.
  unfold addr. intros Hs Hs' E.
  apply (Z.div_mod_unique ld); [by left..|lia].
Qed.

Lemma addr_shift c ld i j r s :
  addr (c + i * ld + j) ld r s = addr c ld (i + r) (j + s).
Proof. unfold addr. lia. Qed.

(** Every element of an [m] by [n] matrix is in the array. *)
Definition valid {T} (l : list T) (c ld m n : Z) : Prop :=
  forall r s, 0 <= r < m -> 0 <= s < n -> 0 <= addr c ld r s < lenZ l.

Lemma valid_sub {T} (l : list T) c ld m n c' i j m' n' :
  valid l c ld m n -> c' = c + i * ld + j ->
  0 <= i -> 0 <= j -> i + m' <= m -> j + n' <= n -> valid l c' ld m' n'.
Proof. intros Hv -> Hi Hj Hm Hn r s Hr Hs. rewrite addr_shift. apply Hv; lia. Qed.

Lemma valid_len {T} (l l' : list T) c ld m n :
  lenZ l' = lenZ l -> valid l c ld m n -> valid l' c ld m n.
Proof. intros E Hv r s Hr Hs. rewrite E. by apply Hv. Qed.

Section Grid.
Context {T : Type} `{Inhabited T}.

Definition el (l : list T) (c ld r s : Z) : T := getZ l (addr c ld r s).

(** Each element [x] of [l] becomes a [y] of [l'] with [R r s x y]. *)
Definition upd (c ld : Z) (R : Z -> Z -> T -> T -> Prop) (l l' : list T) : Prop :=
  lenZ l' = lenZ l /\
  forall r s, 0 <= s < ld -> 0 <= addr c ld r s < lenZ l -> R r s (el l c ld r s) (el l' c ld r s).

(** A change of the elements of a region, or of a box; the others stay. *)
Definition region (D : Z -> Z -> bool) (R : Z -> Z -> T -> T -> Prop) (r s : Z) (x y : T) : Prop :=
  if D r s then R r s x y else y = x.

Definition boxed (m n : Z) : (Z -> Z -> T -> T -> Prop) -> Z -> Z -> T -> T -> Prop :=
  region (in_box m n).

Lemma boxed_in m n R r s x y :
  boxed m n R r s x y -> 0 <= r < m -> 0 <= s < n -> R r s x y.
Proof. unfold boxed, region. intros Hb Hr Hs. by rewrite (proj2 (in_box_true _ _ _ _) (conj Hr Hs)) in Hb. Qed.

Lemma boxed_out m n R r s x y :
  boxed m n R r s x y -> ~ (0 <= r < m /\ 0 <= s < n) -> y = x.
Proof. unfold boxed, region. intros Hb Hn. by rewrite (proj2 (in_box_false _ _ _ _) Hn) in Hb. Qed.

Lemma boxed_intro m n R r s x y :
  (0 <= r < m -> 0 <= s < n -> R r s x y) ->
  (~ (0 <= r < m /\ 0 <= s < n) -> y = x) -> boxed m n R r s x y.
Proof.
  unfold boxed, region. intros Hin Hout. destruct (in_box m n r s) eqn:E.
  - apply in_box_true in E as []. by apply Hin.
  - apply in_box_false in E. by apply Hout.
Qed.

Lemma upd_len c ld R l l' : upd c ld R l l' -> lenZ l' = lenZ l.
Proof. by intros []. Qed.

Lemma upd_refl c ld R l : (forall r s x, R r s x x) -> upd c ld R l l.
Proof. intros HR. split; [done|]. intros. apply HR. Qed.

Lemma upd_mono c ld (R R' : Z -> Z -> T -> T -> Prop) l l' :
  (forall r s x y, 0 <= s < ld -> R r s x y -> R' r s x y) -> upd c ld R l l' -> upd c ld R' l l'.
Proof. intros HR [Hl Hu]. split; [done|]. intros r s Hs Ha. by apply HR, Hu. Qed.

Lemma upd_trans c ld (R R' R'' : Z -> Z -> T -> T -> Prop) l l1 l2 :
  upd c ld R l l1 -> upd c ld R' l1 l2 ->
  (forall r s x y z, 0 <= s < ld -> R r s x y -> R' r s y z -> R'' r s x z) ->
  upd c ld R'' l l2.
Proof.
  intros [Hl Hu] [Hl' Hu'] HR. split; [congruence|]. intros r s Hs Ha.
  eapply HR; [done|by apply Hu|]. apply Hu'; [done|lia].
Qed.

(** An operation on a block at row [i] and column [j], seen from the whole. *)
Lemma upd_shift c ld m n R i j l l' :
  0 <= j -> 0 <= n -> j + n <= ld ->
  upd (c + i * ld + j) ld (boxed m n R) l l' ->
  upd c ld (fun r s => boxed m n R (r - i) (s - j)) l l'.
Proof.
  intros Hj H0 Hn [Hl Hu]. split; [done|]. intros r s Hs Ha.
  destruct (decide (j <= s)) as [Hjs|Hjs].
  - specialize (Hu (r - i) (s - j) ltac:(lia)). unfold el in Hu. rewrite !addr_shift in Hu.
    replace (i + (r - i)) with r in Hu by lia. replace (j + (s - j)) with s in Hu by lia.
    by apply Hu.
  - specialize (Hu (r - i - 1) (s - j + ld) ltac:(lia)). unfold el in Hu.
    rewrite !addr_shift in Hu.
    replace (addr c ld (i + (r - i - 1)) (j + (s - j + ld))) with (addr c ld r s) in Hu
      by (unfold addr; lia).
    specialize (Hu Ha). apply boxed_intro; [lia|]. intros _.
    apply boxed_out in Hu; [done|lia].
Qed.

(** The same, where the block's change is the one meant for the whole. *)
Lemma upd_block c ld m n (R R' : Z -> Z -> T -> T -> Prop) i j l l' :
  0 <= j -> 0 <= n -> j + n <= ld ->
  upd (c + i * ld + j) ld (boxed m n R') l l' ->
  (forall r s x y, 0 <= r < m -> 0 <= s < n -> R' r s x y -> R (i + r) (j + s) x y) ->
  upd c ld (region (fun r s => in_box m n (r - i) (s - j)) R) l l'.
Proof.
  intros Hj H0 Hn Hu HR. apply upd_shift in Hu; [|done..].
  eapply upd_mono; [|exact Hu]. unfold boxed, region. intros r s x y Hs Hb.
  destruct (in_box m n (r - i) (s - j)) eqn:E; [|done].
  apply in_box_true in E as [Hr Hs']. apply HR in Hb; [|done..].
  by replace (i + (r - i)) with r in Hb by lia; replace (j + (s - j)) with s in Hb by lia.
Qed.

(** Changes of two regions that do not meet. *)
Lemma upd_union c ld D1 D2 D (R : Z -> Z -> T -> T -> Prop) l l1 l2 :
  upd c ld (region D1 R) l l1 -> upd c ld (region D2 R) l1 l2 ->
  (forall r s, 0 <= s < ld -> D r s = D1 r s || D2 r s) ->
  (forall r s, 0 <= s < ld -> D1 r s && D2 r s = false) ->
  upd c ld (region D R) l l2.
Proof.
  intros H1 H2 HD Hdis. eapply upd_trans; [exact H1|exact H2|].
  unfold region. intros r s x y z Hs Hxy Hyz. specialize (Hdis r s Hs). rewrite HD by done.
  destruct (D1 r s), (D2 r s); simpl in *; by subst.
Qed.

Lemma upd_region_ext c ld D D' (R : Z -> Z -> T -> T -> Prop) l l' :
  (forall r s, 0 <= s < ld -> D r s = D' r s) ->
  upd c ld (region D R) l l' -> upd c ld (region D' R) l l'.
Proof.
  intros HD. apply upd_mono. unfold region. intros r s x y Hs. by rewrite HD.
Qed.

Lemma upd_nothing c ld D (R : Z -> Z -> T -> T -> Prop) l :
  (forall r s, 0 <= s < ld -> D r s = false) -> upd c ld (region D R) l l.
Proof. intros HD. split; [done|]. intros r s Hs Ha. unfold region. by rewrite HD. Qed.

Lemma upd_write c ld (R : Z -> Z -> T -> T -> Prop) i j v l :
  0 <= j < ld -> 0 <= addr c ld i j < lenZ l -> R i j (el l c ld i j) v ->
  upd c ld (region (fun r s => (r =? i) && (s =? j)) R) l (setZ l (addr c ld i j) v).
Proof.
  intros Hj Ha HR. split; [apply setZ_length|]. intros r s Hs Ha'. unfold el, region in *.
  destruct ((r =? i) && (s =? j)) eqn:E.
  { apply andb_true_iff in E as [->%Z.eqb_eq ->%Z.eqb_eq]. by rewrite getZ_setZ. }
  apply getZ_setZ_ne; [apply Ha|apply Ha'|]. intros Heq.
  apply addr_inj in Heq as [-> ->]; [|done..]. by rewrite !Z.eqb_refl in E.
Qed.

(** Two nested loops that write each element of a matrix once. *)
Lemma wp_each_element m n c ld (R : Z -> Z -> T -> T -> Prop)
    (f : Z -> Z -> M (list T) unit) l :
  0 <= m -> 0 <= n <= ld -> valid l c ld m n ->
  (forall i j l', 0 <= i < m -> 0 <= j < n -> lenZ l' = lenZ l ->
     wp (f i j) (fun _ l'' => exists v, l'' = setZ l' (addr c ld i j) v /\
                                        R i j (el l' c ld i j) v) l') ->
  wp (for_ 0 m (fun i => for_ 0 n (fun j => f i j)))
     (fun _ l' => upd c ld (boxed m n R) l l') l.
Proof.
  intros Hm Hn Hl Hf.
  apply (wp_for _ _ _ (fun i l' => upd c ld (region (in_box i n) R) l l')); [done| | |done].
  { apply upd_nothing. intros r s Hs. unfold in_box. lia. }
  intros i l1 Hi Hu.
  apply (wp_for _ _ _ (fun j l' => upd c ld (region (fun r s =>
    in_box i n r s || ((r =? i) && (0 <=? s) && (s <? j))) R) l l')); [lia| | |].
  { eapply upd_region_ext; [|exact Hu]. intros r s Hs. unfold in_box. lia. }
  - clear l1 Hu. intros j l1 Hj Hu. pose proof (upd_len _ _ _ _ _ Hu) as Hlen.
    eapply wp_mono; [apply Hf; [done..|exact Hlen]|]. intros [] l2 (v & -> & HR).
    eapply upd_union; [exact Hu|apply (upd_write _ _ R); [lia|rewrite Hlen; by apply Hl|exact HR]|..];
      intros r s Hs; unfold in_box; lia.
  - intros l2 Hu2. eapply upd_region_ext; [|exact Hu2]. intros r s Hs. unfold in_box. lia.
Qed.
End Grid.

(** The pairs ([i], [j]) of a box, row by row. *)
Definition cells (m n : Z) : list (Z * Z) :=
  flat_map (fun i => map (pair i) (seqZ 0 n)) (seqZ 0 m).

Lemma elem_of_cells m n i j : (i, j) ∈ cells m n <-> 0 <= i < m /\ 0 <= j < n.
Proof.
  unfold cells. rewrite list_elem_of_In, in_flat_map. split.
  - intros (i' & Hi & Hj). apply list_elem_of_In, elem_of_seqZ in Hi.
    apply list_elem_of_In, list_elem_of_fmap in Hj as (j' & [= -> ->] & Hj).
    apply elem_of_seqZ in Hj. lia.
  - intros [Hi Hj]. exists i. split; [apply list_elem_of_In, elem_of_seqZ; lia|].
    apply list_elem_of_In, list_elem_of_fmap. exists j. split; [done|apply elem_of_seqZ; lia].
Qed.

Lemma NoDup_pairs (xs js : list Z) :
  NoDup xs -> NoDup js -> NoDup (flat_map (fun i => map (pair i) js) xs).
Proof.
  intros His Hjs. induction xs as [|i xs IH]; simpl; [by constructor|].
  apply list.NoDup_cons in His as [Hi His]. apply list.NoDup_app. split_and!; [|..|by apply IH].
  - apply NoDup_fmap; [|done]. by intros ?? [= ->].
  - intros [a b] Hx Hy. apply list_elem_of_fmap in Hx as (? & [= -> _] & _).
    apply list_elem_of_In, in_flat_map in Hy as (i' & Hi' & Hy).
    apply list_elem_of_In, list_elem_of_fmap in Hy as (? & [= -> _] & _).
    by apply Hi, list_elem_of_In.
Qed.

Lemma NoDup_cells m n : NoDup (cells m n).
Proof. apply NoDup_pairs; apply NoDup_seqZ. Qed.

(** Going through the cells, the next one is new. *)
Lemma NoDup_cells_new m n pre x todo : cells m n = pre ++ x :: todo -> x ∉ pre.
Proof.
  intros E. pose proof (NoDup_cells m n) as Hnd. rewrite E in Hnd.
  apply list.NoDup_app in Hnd as (_ & Hd & _). intros Hin. apply (Hd _ Hin). left.
Qed.

Lemma bool_decide_snoc (pre : list (Z * Z)) i j r s :
  bool_decide ((r, s) ∈ pre ++ [(i, j)]) =
    bool_decide ((r, s) ∈ pre) || ((r =? i) && (s =? j)).
Proof.
  apply Bool.eq_iff_eq_true. rewrite orb_true_iff, !bool_decide_eq_true, list.elem_of_app,
    list.list_elem_of_singleton, andb_true_iff, !Z.eqb_eq.
  split; (intros [?|E]; [by left|right]); [by injection E as -> ->|by destruct E as [-> ->]].
Qed.
