(* ===== verification/Mm.v ===== *)
(** * The blocked matrix multiplication (sw/app/mm/mm.c, rb.h)

    [mm] adds the product of two matrices to a third one.  It works on register
    blocks of 4 by 5 ([kloop], the file rb.h that gen.scala writes), with a plain
    loop for the borders, and on copies of cache blocks when the matrices are
    large.  The theorem is about any type of numbers with any [fma] and addition:
    every element of the result is computed from the old one by adding each of
    its products once, in a tree of operations whose depth is bounded, and no
    other element changes. *)

From Stdlib Require Import ZArith Lia.
From stdpp Require Import base tactics list numbers.
From S2P Require Import Prelude CArray Grid.

(** ** The numbers [t]: float or double, with the operations of the C library
    and of the language that the program uses. *)

Class FloatOps (T : Type) := {
  fzero : T;
  fma : T -> T -> T -> T;
  fadd : T -> T -> T;
  fsub : T -> T -> T;
  fmul : T -> T -> T;
  fabs : T -> T;
  fgt : T -> T -> bool;
  of_uint64 : Z -> T;
  of_int : Z -> T;
  literal_1e_6 : T;
}.

(** A function with local variables: it runs in its own frame. *)
Definition in_frame {S T A} (enter : T -> S) (leave : S -> T) (m : M S A) : M T A :=
  fun t => match m (enter t) with
           | Ok (a, s) => Ok (a, leave s)
           | NoFuel => NoFuel
           | Ub => Ub
           end.

Lemma wp_in_frame {S T A} (enter : T -> S) (leave : S -> T) (m : M S A) (Q : A -> T -> Prop) t :
  wp m (fun a s => Q a (leave s)) (enter t) -> wp (in_frame enter leave m) Q t.
Proof. unfold wp, in_frame. by destruct (m (enter t)) as [[a s]| |]. Qed.

(** ** rb.h *)

Definition RBM : Z := 4.
Definition RBN : Z := 5.
Definition RBK : Z := 6.
Definition CBM : Z := 24.
Definition CBN : Z := 25.
Definition CBK : Z := 24.

Section Mm.
Context {T : Type} `{Inhabited T} `{FloatOps T}.

(** The matrices [a] and [b] are only read: they are arrays [A] and [B] and
    offsets; the state is the array that [c] points into. *)
Section Kernels.
Context (A B : list T).

(** [c_i_j = fma(a_i[k], b_k[j], c_i_j)] for the first [kn] values of [k]; the
    local [c_i_j] is at [i * RBN + j] in [rs]. *)
Definition accumulate (a lda b ldb kn : Z) (rs : list T) : M (list T) (list T) :=
  foldM (seqZ 0 kn) (fun rs k =>
    foldM (cells RBM RBN) (fun rs '(i, j) =>
      x <- of_option (fetch A (a + lda * i + k)) ;;
      y <- of_option (fetch B (b + ldb * k + j)) ;;
      ret (setZ rs (i * RBN + j) (fma x y (getZ rs (i * RBN + j))))) rs) rs.

(** [t c_i_j = c_i[j]], and back. *)
Definition load_block (c ldc : Z) : M (list T) (list T) :=
  foldM (cells RBM RBN) (fun rs '(i, j) =>
    x <- rd (c + ldc * i + j) ;; ret (rs ++ [x])) [].

Definition store_block (c ldc : Z) (rs : list T) : M (list T) unit :=
  foreach (cells RBM RBN) (fun '(i, j) => wr (c + ldc * i + j) (getZ rs (i * RBN + j))).

Definition kloop (p a0 lda b0 ldb c ldc : Z) : M (list T) unit :=
  rs <- load_block c ldc ;;
  rs <- foldM (seqZ 0 (p / RBK - 0)) (fun rs q =>
          accumulate (a0 + q * RBK) lda (b0 + q * (RBK * ldb)) ldb RBK rs) rs ;;
  rs <- foldM (seqZ (p / RBK * RBK) (p - p / RBK * RBK)) (fun rs q =>
          accumulate (a0 + q) lda (b0 + q * ldb) ldb 1 rs) rs ;;
  store_block c ldc rs.

(** ** mm.c *)

(** A round of the loop on [k += 4]; one of the loop on the rest. *)
Definition naive_round (a lda b ldb i j : Z) (ss : T * T * T * T) (k : Z) :
    M (list T) (T * T * T * T) :=
  let '(s0, s1, s2, s3) := ss in
  a0 <- of_option (fetch A (a + (i * lda + k + 0))) ;;
  b0 <- of_option (fetch B (b + ((k + 0) * ldb + j))) ;;
  let s0 := fma a0 b0 s0 in
  a1 <- of_option (fetch A (a + (i * lda + k + 1))) ;;
  b1 <- of_option (fetch B (b + ((k + 1) * ldb + j))) ;;
  let s1 := fma a1 b1 s1 in
  a2 <- of_option (fetch A (a + (i * lda + k + 2))) ;;
  b2 <- of_option (fetch B (b + ((k + 2) * ldb + j))) ;;
  let s2 := fma a2 b2 s2 in
  a3 <- of_option (fetch A (a + (i * lda + k + 3))) ;;
  b3 <- of_option (fetch B (b + ((k + 3) * ldb + j))) ;;
  let s3 := fma a3 b3 s3 in
  ret (s0, s1, s2, s3).

Definition naive_rest (a lda b ldb i j : Z) (s0 : T) (k : Z) : M (list T) T :=
  x <- of_option (fetch A (a + (i * lda + k))) ;;
  y <- of_option (fetch B (b + (k * ldb + j))) ;;
  ret (fma x y s0).

Definition mm_naive (m n p a lda b ldb c ldc : Z) : M (list T) unit :=
  for_ 0 m (fun i =>
    for_ 0 n (fun j =>
      s0 <- rd (c + (i * ldc + j)) ;;
      ss <- foldM (steps 0 (p / 4 * 4) 4) (naive_round a lda b ldb i j)
              (s0, fzero, fzero, fzero) ;;
      let '(s0, s1, s2, s3) := ss in
      s0 <- foldM (seqZ (p / 4 * 4) (p - p / 4 * 4)) (naive_rest a lda b ldb i j) s0 ;;
      wr (c + (i * ldc + j)) (fadd (fadd s0 s1) (fadd s2 s3)))).

Definition mm_rb (m n p a lda b ldb c ldc : Z) : M (list T) unit :=
  let mb := m / RBM * RBM in
  let nb := n / RBN * RBN in
  for_by 0 mb RBM (fun i =>
    for_by 0 nb RBN (fun j =>
      kloop p (a + i * lda) lda (b + j) ldb (c + i * ldc + j) ldc) ;;;
    mm_naive RBM (n - nb) p (a + i * lda) lda (b + nb) ldb (c + i * ldc + nb) ldc) ;;;
  mm_naive (m - mb) n p (a + mb * lda) lda b ldb (c + mb * ldc) ldc.
End Kernels.

(** Copies a block of the array [A0] into the array of the state. *)
Definition repack (A0 : list T) (a lda a0 lda0 m p : Z) : M (list T) unit :=
  for_ 0 m (fun i =>
    for_by 0 (p / 8 * 8) 8 (fun j =>
      t0 <- of_option (fetch A0 (a0 + (i * lda0 + j + 0))) ;;
      t1 <- of_option (fetch A0 (a0 + (i * lda0 + j + 1))) ;;
      t2 <- of_option (fetch A0 (a0 + (i * lda0 + j + 2))) ;;
      t3 <- of_option (fetch A0 (a0 + (i * lda0 + j + 3))) ;;
      t4 <- of_option (fetch A0 (a0 + (i * lda0 + j + 4))) ;;
      t5 <- of_option (fetch A0 (a0 + (i * lda0 + j + 5))) ;;
      t6 <- of_option (fetch A0 (a0 + (i * lda0 + j + 6))) ;;
      t7 <- of_option (fetch A0 (a0 + (i * lda0 + j + 7))) ;;
      wr (a + (i * lda + j + 0)) t0 ;;;
      wr (a + (i * lda + j + 1)) t1 ;;;
      wr (a + (i * lda + j + 2)) t2 ;;;
      wr (a + (i * lda + j + 3)) t3 ;;;
      wr (a + (i * lda + j + 4)) t4 ;;;
      wr (a + (i * lda + j + 5)) t5 ;;;
      wr (a + (i * lda + j + 6)) t6 ;;;
      wr (a + (i * lda + j + 7)) t7) ;;;
    for_ (p / 8 * 8) p (fun j =>
      x <- of_option (fetch A0 (a0 + (i * lda0 + j))) ;;
      wr (a + (i * lda + j)) x)).

(** The frame of [mm_cb]: the three blocks it takes from the stack, whose
    contents at that time are those of [alloca], and the array of [c]. *)
Record frame := Frame { a1 : list T; b1 : list T; c1 : list T; c_ : list T }.

Definition on_a1 {R} : M (list T) R -> M frame R :=
  zoom a1 (fun x s => Frame x (b1 s) (c1 s) (c_ s)).
Definition on_b1 {R} : M (list T) R -> M frame R :=
  zoom b1 (fun x s => Frame (a1 s) x (c1 s) (c_ s)).
Definition on_c1 {R} : M (list T) R -> M frame R :=
  zoom c1 (fun x s => Frame (a1 s) (b1 s) x (c_ s)).
Definition on_c {R} : M (list T) R -> M frame R :=
  zoom c_ (fun x s => Frame (a1 s) (b1 s) (c1 s) x).

Section Blocked.
Context (alloca : Z -> list T) (A B : list T).

(** The copies into the blocks. *)
Definition pack (mb nb pb nnb npb a lda b ldb c ldc : Z) : M frame unit :=
  for_by 0 mb CBM (fun i => for_by 0 pb CBK (fun j =>
    on_a1 (repack A ((npb * (i / CBM) + j / CBK) * (CBM * CBK)) CBK (a + i * lda + j) lda CBM CBK))) ;;;
  for_by 0 pb CBK (fun i => for_by 0 nb CBN (fun j =>
    on_b1 (repack B ((nnb * (i / CBK) + j / CBN) * (CBK * CBN)) CBN (b + i * ldb + j) ldb CBK CBN))) ;;;
  for_by 0 mb CBM (fun i => for_by 0 nb CBN (fun j =>
    s <- get ;;
    on_c1 (repack (c_ s) ((nnb * (i / CBM) + j / CBN) * (CBM * CBN)) CBN (c + i * ldc + j) ldc CBM CBN))).

(** The products for one cache block of [c1]. *)
Definition tile (pb p nnb npb a lda b ldb i j : Z) : M frame unit :=
  for_by 0 pb CBK (fun k =>
    s <- get ;;
    on_c1 (mm_rb (a1 s) (b1 s) CBM CBN CBK
             ((npb * (i / CBM) + k / CBK) * (CBM * CBK)) CBK
             ((nnb * (k / CBK) + j / CBN) * (CBK * CBN)) CBN
             ((nnb * (i / CBM) + j / CBN) * (CBM * CBN)) CBN)) ;;;
  if pb <? p then
    on_c1 (mm_rb A B CBM CBN (p - pb)
             (a + i * lda + pb) lda
             (b + pb * ldb + j) ldb
             ((nnb * (i / CBM) + j / CBN) * (CBM * CBN)) CBN)
  else ret tt.

(** The copy of the blocks back to [c]. *)
Definition unpack (mb nb nnb c ldc : Z) : M frame unit :=
  for_by 0 mb CBM (fun i => for_by 0 nb CBN (fun j =>
    s <- get ;;
    on_c (repack (c1 s) (c + i * ldc + j) ldc ((nnb * (i / CBM) + j / CBN) * (CBM * CBN)) CBN CBM CBN))).

Definition mm_cb (m n p a lda b ldb c ldc : Z) : M (list T) unit :=
  let nmb := m / CBM in let nnb := n / CBN in let npb := p / CBK in
  let mb := nmb * CBM in let nb := nnb * CBN in let pb := npb * CBK in
  in_frame (Frame (alloca (mb * pb)) (alloca (pb * nb)) (alloca (mb * nb))) c_
   (pack mb nb pb nnb npb a lda b ldb c ldc ;;;
    for_by 0 mb CBM (fun i =>
      for_by 0 nb CBN (fun j => tile pb p nnb npb a lda b ldb i j) ;;;
      if nb <? n then
        for_by 0 p CBK (fun k =>
          on_c (mm_rb A B CBM (n - nb) (Z.min (p - k) CBK)
                  (a + i * lda + k) lda
                  (b + k * ldb + nb) ldb
                  (c + i * ldc + nb) ldc))
      else ret tt) ;;;
    (if mb <? m then
       for_by 0 n CBN (fun j =>
         for_by 0 p CBK (fun k =>
           on_c (mm_rb A B (m - mb) (Z.min (n - j) CBN) (Z.min (p - k) CBK)
                   (a + mb * lda + k) lda
                   (b + k * ldb + j) ldb
                   (c + mb * ldc + j) ldc)))
     else ret tt) ;;;
    unpack mb nb nnb c ldc).

Definition mm (m n p a lda b ldb c ldc : Z) : M (list T) unit :=
  if (m <=? 2 * CBM) && (n <=? 2 * CBN) && (p <=? 2 * CBK)
  then mm_rb A B m n p a lda b ldb c ldc
  else mm_cb m n p a lda b ldb c ldc.
End Blocked.
End Mm.

(** ** Sums of products

    [summed d s l s']: [s'] comes from [s] by adding every product of [l] once,
    through [fma] and additions, in some order; at most [d] operations lie
    between any of the products, or [s], and the result. *)

Section Summed.
Context {T : Type} `{Inhabited T} `{FloatOps T}.

Inductive summed : Z -> T -> list (T * T) -> T -> Prop :=
| summed_nil d s : 0 <= d -> summed d s [] s
| summed_fma d s l s' x y : summed d s l s' -> summed (d + 1) s (l ++ [(x, y)]) (fma x y s')
| summed_add d s l1 s1 l2 s2 :
    summed d s l1 s1 -> summed d fzero l2 s2 -> summed (d + 1) s (l1 ++ l2) (fadd s1 s2)
| summed_perm d s l l' s' : l ≡ₚ l' -> summed d s l s' -> summed d s l' s'.

Lemma summed_weaken d d' s l s' : summed d s l s' -> d <= d' -> summed d' s l s'.
Proof.
  intros Hs. revert d'. induction Hs as [d s|d s l s' x y Hs IH|d s l1 s1 l2 s2 H1 IH1 H2 IH2|];
    intros d' Hd.
  - apply summed_nil. lia.
  - replace d' with (d' - 1 + 1) by lia. apply summed_fma, IH. lia.
  - replace d' with (d' - 1 + 1) by lia. apply summed_add; [apply IH1|apply IH2]; lia.
  - eapply summed_perm; eauto.
Qed.

Lemma summed_trans d1 d2 s l1 s1 l2 s2 :
  summed d1 s l1 s1 -> summed d2 s1 l2 s2 -> summed (d1 + d2) s (l1 ++ l2) s2.
Proof.
  intros H1 H2. remember s1 as s0 eqn:E. revert E.
  induction H2 as [d s'|d s' l s'' x y Hs IH|d s' k1 u1 k2 u2 Hu1 IH1 Hu2 IH2|d s' l l' s'' Hp Hs IH];
    intros ->.
  - rewrite app_nil_r. eapply summed_weaken; [done|lia].
  - rewrite (assoc_L (++)), Z.add_assoc. by apply summed_fma, IH.
  - rewrite (assoc_L (++)), Z.add_assoc. apply summed_add; [by apply IH1|].
    eapply summed_weaken; [done|].
    assert (forall d s l s', summed d s l s' -> 0 <= d) as Hpos
      by (clear; induction 1; lia).
    apply Hpos in H1. lia.
  - eapply summed_perm; [|by apply IH]. by rewrite Hp.
Qed.

(** The products of row [i] of [A] and column [j] of [B], for [lo <= k < hi]. *)
Definition prods (A : list T) (a lda : Z) (B : list T) (b ldb i j lo hi : Z) : list (T * T) :=
  map (fun k => (el A a lda i k, el B b ldb k j)) (seqZ lo (hi - lo)).

Lemma prods_nil A a lda B b ldb i j lo hi : hi <= lo -> prods A a lda B b ldb i j lo hi = [].
Proof. intros. unfold prods. by rewrite seqZ_nil by lia. Qed.

Lemma prods_app A a lda B b ldb i j lo mid hi :
  lo <= mid <= hi ->
  prods A a lda B b ldb i j lo hi =
    prods A a lda B b ldb i j lo mid ++ prods A a lda B b ldb i j mid hi.
Proof.
  intros. unfold prods. replace (hi - lo) with (mid - lo + (hi - mid)) by lia.
  rewrite seqZ_app by lia. rewrite map_app. by replace (lo + (mid - lo)) with mid by lia.
Qed.

Lemma prods_snoc A a lda B b ldb i j lo hi :
  lo <= hi ->
  prods A a lda B b ldb i j lo (hi + 1) =
    prods A a lda B b ldb i j lo hi ++ [(el A a lda i hi, el B b ldb hi j)].
Proof.
  intros. rewrite (prods_app _ _ _ _ _ _ _ _ lo hi) by lia. f_equal.
  unfold prods. replace (hi + 1 - hi) with 1 by lia. done.
Qed.

(** Products of blocks are products of the whole. *)
Lemma prods_shift A a lda B b ldb i0 j0 k0 i j lo hi :
  prods A (a + i0 * lda + k0) lda B (b + k0 * ldb + j0) ldb i j lo hi =
  prods A a lda B b ldb (i0 + i) (j0 + j) (k0 + lo) (k0 + hi).
Proof.
  unfold prods. replace (k0 + hi - (k0 + lo)) with (hi - lo) by lia.
  replace (seqZ (k0 + lo) (hi - lo)) with (map (Z.add k0) (seqZ lo (hi - lo))) by apply fmap_add_seqZ.
  rewrite map_map. apply map_ext. intros k. unfold el. by rewrite !addr_shift.
Qed.

(** Equal elements have equal products. *)
Lemma prods_ext A a lda B b ldb A' a' lda' B' b' ldb' i j i' j' lo hi o :
  (forall k, lo <= k < hi -> el A a lda i k = el A' a' lda' i' (k + o) /\
                             el B b ldb k j = el B' b' ldb' (k + o) j') ->
  prods A a lda B b ldb i j lo hi = prods A' a' lda' B' b' ldb' i' j' (lo + o) (hi + o).
Proof.
  intros Heq. unfold prods. replace (hi + o - (lo + o)) with (hi - lo) by lia.
  replace (seqZ (lo + o) (hi - lo)) with (map (Z.add o) (seqZ lo (hi - lo)))
    by (rewrite (Z.add_comm lo o); apply fmap_add_seqZ).
  rewrite map_map. apply map_ext_in. intros k Hk.
  apply list_elem_of_In, elem_of_seqZ in Hk. rewrite (Z.add_comm o k).
  destruct (Heq k ltac:(lia)) as [-> ->]. done.
Qed.
End Summed.

(** What a multiplication does to its matrix: [l] becomes [l'], each element of
    the [m] by [n] box gets its products, in depth [d]. *)
Definition adds {T} `{Inhabited T} `{FloatOps T} (d c ldc m n : Z)
    (P : Z -> Z -> list (T * T)) (l l' : list T) : Prop :=
  upd c ldc (boxed m n (fun r s x y => summed d x (P r s) y)) l l'.

Section KernelProofs.
Context {T : Type} `{Inhabited T} `{FloatOps T}.

(** The locals of [kloop]: [orig i j] with the products below [k] added. *)
Definition registers (orig : Z -> Z -> T) (P : Z -> Z -> Z -> list (T * T)) (k : Z)
    (rs : list T) : Prop :=
  lenZ rs = RBM * RBN /\
  forall i j, 0 <= i < RBM -> 0 <= j < RBN ->
    summed k (orig i j) (P k i j) (getZ rs (i * RBN + j)).

Context (A B : list T) (lda ldb : Z).

Lemma register_inj i j i' j' :
  0 <= i < RBM -> 0 <= j < RBN -> 0 <= i' < RBM -> 0 <= j' < RBN ->
  (i, j) <> (i', j') -> i * RBN + j <> i' * RBN + j'.
Proof. unfold RBM, RBN. intros ???? Hne E. apply Hne. f_equal; lia. Qed.

Lemma accumulate_adds a b orig k kn rs (l : list T) :
  0 <= kn -> valid A a lda RBM (k + kn) -> valid B b ldb (k + kn) RBN -> 0 <= k ->
  registers orig (fun k i j => prods A a lda B b ldb i j 0 k) k rs ->
  wp (accumulate A B (a + k) lda (b + k * ldb) ldb kn rs)
     (fun rs' l' => l' = l /\
        registers orig (fun k i j => prods A a lda B b ldb i j 0 k) (k + kn) rs') l.
Proof.
  intros Hkn HA HB Hk Hrs. unfold accumulate.
  replace kn with (kn - 0) at 1 by lia.
  apply (wp_fold_for _ _ _ (fun q rs' l' => l' = l /\
    registers orig (fun k i j => prods A a lda B b ldb i j 0 k) (k + q) rs')); [lia| | |done].
  { by rewrite Z.add_0_r. }
  clear Hrs rs. intros q rs l' Hq [-> [Hlen Hrs]].
  eapply wp_mono; [apply (wp_foldM _ _ (fun done rs' l' => l' = l /\ lenZ rs' = RBM * RBN /\
    forall i j, 0 <= i < RBM -> 0 <= j < RBN ->
      let k' := if decide ((i, j) ∈ done) then k + q + 1 else k + q in
      summed k' (orig i j) (prods A a lda B b ldb i j 0 k') (getZ rs' (i * RBN + j))))|].
  - split_and!; [done..|]. intros i j Hi Hj.
    rewrite decide_False by apply list.not_elem_of_nil. by apply Hrs.
  - intros pre [i j] todo rs' l' E (-> & Hlen' & Hrs').
    assert ((i, j) ∈ cells RBM RBN) as Hij by (rewrite E; apply list.elem_of_app; right; left).
    apply elem_of_cells in Hij as [Hi Hj].
    assert ((i, j) ∉ pre) as Hpre by by eapply NoDup_cells_new.
    specialize (HA i (k + q) Hi ltac:(lia)) as HA'. specialize (HB (k + q) j ltac:(lia) Hj) as HB'.
    replace (a + k + lda * i + q) with (addr a lda i (k + q)) by (unfold addr; lia).
    replace (b + k * ldb + ldb * q + j) with (addr b ldb (k + q) j) by (unfold addr; lia).
    rewrite !fetch_Some by done. do 2 (apply wp_bind, wp_ret). apply wp_ret.
    assert (0 <= i * RBN + j < lenZ rs') as Hr by (rewrite Hlen'; unfold RBM, RBN in *; lia).
    split_and!; [done|by rewrite setZ_length|]. intros i' j' Hi' Hj'.
    destruct (decide ((i', j') = (i, j))) as [Heq|Hne]; [injection Heq as -> ->|].
    + rewrite decide_True by (apply list.elem_of_app; right; left). cbv zeta.
      rewrite getZ_setZ by done. rewrite prods_snoc by lia.
      specialize (Hrs' i j Hi Hj). rewrite decide_False in Hrs' by done. by apply summed_fma.
    + rewrite getZ_setZ_ne; [|lia|unfold RBM, RBN in *; lia|by apply register_inj].
      specialize (Hrs' i' j' Hi' Hj').
      destruct (decide ((i', j') ∈ pre)) as [Hin|Hin].
      * rewrite decide_True by (apply list.elem_of_app; by left). done.
      * rewrite decide_False; [done|]. rewrite list.elem_of_app, list.elem_of_cons.
        intros [?|[?|Hnil]]; [done..|by apply list.elem_of_nil in Hnil].
  - intros rs' l' (-> & Hlen' & Hrs'). split; [done|]. rewrite Z.add_assoc. split; [done|].
    intros i j Hi Hj. specialize (Hrs' i j Hi Hj).
    rewrite decide_True in Hrs' by by apply elem_of_cells. done.
Qed.

Lemma kloop_load c ldc (l : list T) :
  valid l c ldc RBM RBN ->
  wp (load_block c ldc)
     (fun rs l' => l' = l /\ registers (el l c ldc) (fun _ _ _ => []) 0 rs) l.
Proof.
  intros Hl. unfold load_block. eapply wp_mono; [apply (wp_foldM _ _ (fun done rs l' =>
    l' = l /\ rs = map (fun '(i, j) => el l c ldc i j) done))|].
  - done.
  - intros pre [i j] todo rs l' E [-> ->].
    assert ((i, j) ∈ cells RBM RBN) as Hij by (rewrite E; apply list.elem_of_app; right; left).
    apply elem_of_cells in Hij as [Hi Hj].
    replace (c + ldc * i + j) with (addr c ldc i j) by (unfold addr; lia).
    apply wp_bind, wp_at; [by apply Hl|]. apply wp_ret. split; [done|]. by rewrite map_app.
  - intros rs l' [-> ->]. split; [done|]. split; [done|]. intros i j Hi Hj.
    assert (getZ (map (fun '(i, j) => el l c ldc i j) (cells RBM RBN)) (i * RBN + j) =
            el l c ldc i j) as ->; [|by apply summed_nil].
    unfold getZ. apply list_lookup_total_correct, list_lookup_fmap_Some.
    exists (i, j). split; [done|]. unfold RBM, RBN in *.
    assert (i = 0 \/ i = 1 \/ i = 2 \/ i = 3) as Hi' by lia.
    assert (j = 0 \/ j = 1 \/ j = 2 \/ j = 3 \/ j = 4) as Hj' by lia. clear -Hi' Hj'.
    destruct Hi' as [->|[->|[->| ->]]]; destruct Hj' as [->|[->|[->|[->| ->]]]]; reflexivity.
Qed.

Lemma kloop_store c ldc d P rs (l : list T) :
  valid l c ldc RBM RBN -> RBN <= ldc -> registers (el l c ldc) P d rs ->
  wp (store_block c ldc rs)
     (fun _ l' => adds d c ldc RBM RBN (P d) l l') l.
Proof.
  intros Hl Hld [Hlen Hrs]. unfold store_block.
  eapply wp_mono; [apply (wp_foreach _ _ (fun done l' =>
    upd c ldc (region (fun r s => bool_decide ((r, s) ∈ done)) (fun r s _ y =>
      y = getZ rs (r * RBN + s))) l l'))|].
  - apply upd_nothing. intros r s Hs. apply bool_decide_eq_false, list.not_elem_of_nil.
  - intros pre [i j] todo l' E Hu.
    assert ((i, j) ∈ cells RBM RBN) as Hij by (rewrite E; apply list.elem_of_app; right; left).
    assert ((i, j) ∉ pre) as Hpre by by eapply NoDup_cells_new.
    apply elem_of_cells in Hij as [Hi Hj].
    replace (c + ldc * i + j) with (addr c ldc i j) by (unfold addr; lia).
    assert (0 <= addr c ldc i j < lenZ l') as Ha.
    { rewrite (upd_len _ _ _ _ _ Hu). by apply Hl. }
    apply wp_put; [done|]. eapply upd_union;
      [exact Hu|apply (upd_write _ _ (fun r s _ y => y = getZ rs (r * RBN + s))); [lia|done..]|..];
      intros r s Hs; [by apply bool_decide_snoc|].
    apply andb_false_iff. destruct (decide ((r, s) = (i, j))) as [Heq|Hne].
    + injection Heq as -> ->. left. by apply bool_decide_eq_false.
    + right. apply not_true_is_false. intros [->%Z.eqb_eq ->%Z.eqb_eq]%andb_true_iff. done.
  - intros [] l' [Hlen' Hu]. split; [done|]. intros r s Hs Ha. specialize (Hu r s Hs Ha).
    unfold region in Hu. apply boxed_intro; intros Hr; [intros Hs'|].
    + rewrite bool_decide_eq_true_2 in Hu by by apply elem_of_cells. rewrite Hu. by apply Hrs.
    + by rewrite bool_decide_eq_false_2 in Hu by by rewrite elem_of_cells.
Qed.

Lemma kloop_ok p a b c ldc (l : list T) :
  0 <= p -> valid A a lda RBM p -> valid B b ldb p RBN -> valid l c ldc RBM RBN -> RBN <= ldc ->
  wp (kloop A B p a lda b ldb c ldc)
     (fun _ l' => adds p c ldc RBM RBN (fun r s => prods A a lda B b ldb r s 0 p) l l') l.
Proof.
  intros Hp HA HB Hl Hld. unfold kloop.
  set (P := fun k i j => prods A a lda B b ldb i j 0 k).
  assert (0 <= p / RBK * RBK <= p) as Hq by (unfold RBK; divlia).
  wp_call ltac:(by apply kloop_load). intros rs ? [-> Hreg].
  wp_seq. apply (wp_fold_for _ _ _ (fun q rs' l' => l' = l /\
    registers (el l c ldc) P (q * RBK) rs')); [unfold RBK; divlia| | |].
  { split; [done|]. destruct Hreg as [Hlen Hrs]. split; [done|]. intros i j Hi Hj.
    unfold P. rewrite prods_nil by lia. by apply Hrs. }
  { clear Hreg rs. intros q rs l' Hq' [-> Hrs].
    assert (0 <= q * RBK /\ q * RBK + RBK <= p) as [Hq1 Hq2] by (unfold RBK in *; lia).
    replace (b + q * (RBK * ldb)) with (b + (q * RBK) * ldb) by lia.
    eapply wp_mono; [apply (accumulate_adds a b); [done|..|exact Hrs]|].
    - intros r s Hr Hs. apply HA; lia.
    - intros r s Hr Hs. apply HB; lia.
    - done.
    - intros rs' l' [-> Hrs']. split; [done|]. by replace ((q + 1) * RBK) with (q * RBK + RBK) by lia. }
  clear Hreg rs. intros rs ? [-> Hrs].
  wp_seq. apply (wp_fold_for _ _ _ (fun q rs' l' => l' = l /\
    registers (el l c ldc) P q rs')); [lia|done| |].
  { clear Hrs rs. intros q rs l' Hq' [-> Hrs].
    eapply wp_mono; [apply (accumulate_adds a b); [done|..|exact Hrs]|].
    - intros r s Hr Hs. apply HA; lia.
    - intros r s Hr Hs. apply HB; lia.
    - lia.
    - intros rs' l' [-> Hrs']. done. }
  clear Hrs rs. intros rs ? [-> Hrs]. by apply (kloop_store c ldc p P).
Qed.
End KernelProofs.

Section NaiveProofs.
Context {T : Type} `{Inhabited T} `{FloatOps T}.
Context (A B : list T) (a lda b ldb : Z).

(** The four sums after [q] rounds: together, the first [4 * q] products. *)
Definition quads (i j : Z) (x : T) (q : Z) (ss : T * T * T * T) : Prop :=
  let '(s0, s1, s2, s3) := ss in
  exists l0 l1 l2 l3,
    summed q x l0 s0 /\ summed q fzero l1 s1 /\ summed q fzero l2 s2 /\ summed q fzero l3 s3 /\
    prods A a lda B b ldb i j 0 (4 * q) ≡ₚ l0 ++ l1 ++ l2 ++ l3.

Lemma quads_0 i j x : quads i j x 0 (x, fzero, fzero, fzero).
Proof.
  exists [], [], [], []. split_and!; try (by apply summed_nil). by rewrite prods_nil by lia.
Qed.

Lemma quads_step i j x q s0 s1 s2 s3 :
  0 <= q -> quads i j x q (s0, s1, s2, s3) ->
  quads i j x (q + 1)
    (fma (el A a lda i (4 * q)) (el B b ldb (4 * q) j) s0,
     fma (el A a lda i (4 * q + 1)) (el B b ldb (4 * q + 1) j) s1,
     fma (el A a lda i (4 * q + 2)) (el B b ldb (4 * q + 2) j) s2,
     fma (el A a lda i (4 * q + 3)) (el B b ldb (4 * q + 3) j) s3).
Proof.
  intros Hq (l0 & l1 & l2 & l3 & S0 & S1 & S2 & S3 & Hp).
  do 4 eexists. split_and!; [by apply summed_fma..|].
  replace (4 * (q + 1)) with (4 * q + 1 + 1 + 1 + 1) by lia.
  rewrite !prods_snoc by lia. rewrite Hp.
  replace (4 * q + 1 + 1 + 1) with (4 * q + 3) by lia.
  replace (4 * q + 1 + 1) with (4 * q + 2) by lia.
  rewrite <-!(assoc_L (++)). solve_Permutation.
Qed.

Context (p : Z) (some_p : 0 <= p).

Lemma naive_round_ok i j x q ss (l : list T) :
  (forall k, 0 <= k < p -> 0 <= addr a lda i k < lenZ A) ->
  (forall k, 0 <= k < p -> 0 <= addr b ldb k j < lenZ B) ->
  0 <= q -> 4 * q + 4 <= p -> quads i j x q ss ->
  wp (naive_round A B a lda b ldb i j ss (0 + q * 4))
     (fun ss' l' => l' = l /\ quads i j x (q + 1) ss') l.
Proof.
  intros HA HB Hq Hqp Hss. destruct ss as [[[s0 s1] s2] s3]. unfold naive_round.
  replace (a + (i * lda + (0 + q * 4) + 0)) with (addr a lda i (4 * q)) by (unfold addr; lia).
  replace (a + (i * lda + (0 + q * 4) + 1)) with (addr a lda i (4 * q + 1)) by (unfold addr; lia).
  replace (a + (i * lda + (0 + q * 4) + 2)) with (addr a lda i (4 * q + 2)) by (unfold addr; lia).
  replace (a + (i * lda + (0 + q * 4) + 3)) with (addr a lda i (4 * q + 3)) by (unfold addr; lia).
  replace (b + ((0 + q * 4 + 0) * ldb + j)) with (addr b ldb (4 * q) j) by (unfold addr; lia).
  replace (b + ((0 + q * 4 + 1) * ldb + j)) with (addr b ldb (4 * q + 1) j) by (unfold addr; lia).
  replace (b + ((0 + q * 4 + 2) * ldb + j)) with (addr b ldb (4 * q + 2) j) by (unfold addr; lia).
  replace (b + ((0 + q * 4 + 3) * ldb + j)) with (addr b ldb (4 * q + 3) j) by (unfold addr; lia).
  rewrite !fetch_Some by (apply HA || apply HB; lia).
  cbv zeta. do 8 (apply wp_bind, wp_ret). apply wp_ret. split; [done|]. by apply quads_step.
Qed.

Lemma naive_rest_ok i j x k d s0 (l : list T) ps :
  (forall k, 0 <= k < p -> 0 <= addr a lda i k < lenZ A) ->
  (forall k, 0 <= k < p -> 0 <= addr b ldb k j < lenZ B) ->
  0 <= k < p -> summed d x ps s0 ->
  wp (naive_rest A B a lda b ldb i j s0 k)
     (fun s0' l' => l' = l /\
        summed (d + 1) x (ps ++ [(el A a lda i k, el B b ldb k j)]) s0') l.
Proof.
  intros HA HB Hk Hs. unfold naive_rest.
  replace (a + (i * lda + k)) with (addr a lda i k) by (unfold addr; lia).
  replace (b + (k * ldb + j)) with (addr b ldb k j) by (unfold addr; lia).
  rewrite !fetch_Some by (apply HA || apply HB; lia).
  do 2 (apply wp_bind, wp_ret). apply wp_ret. split; [done|]. by apply summed_fma.
Qed.

Lemma mm_naive_ok m n c ldc (l : list T) :
  0 <= m -> 0 <= n <= ldc ->
  valid A a lda m p -> valid B b ldb p n -> valid l c ldc m n ->
  wp (mm_naive A B m n p a lda b ldb c ldc)
     (fun _ l' => adds (p + 2) c ldc m n (fun r s => prods A a lda B b ldb r s 0 p) l l') l.
Proof.
  intros Hm Hn HA HB Hl. apply wp_each_element; [done..|]. intros i j l0 Hi Hj Hlen.
  assert (forall k, 0 <= k < p -> 0 <= addr a lda i k < lenZ A) as HA' by (intros; by apply HA).
  assert (forall k, 0 <= k < p -> 0 <= addr b ldb k j < lenZ B) as HB' by (intros; by apply HB).
  replace (c + (i * ldc + j)) with (addr c ldc i j) by (unfold addr; lia).
  assert (0 <= addr c ldc i j < lenZ l0) as Hc by (rewrite Hlen; by apply Hl).
  assert (4 * (p / 4) <= p < 4 * (p / 4) + 4) as Hp4 by divlia.
  apply wp_bind, wp_at; [done|]. fold (el l0 c ldc i j).
  apply wp_bind, (wp_fold_by _ _ _ _ (fun q ss l' => l' = l0 /\ quads i j (el l0 c ldc i j) q ss));
    [lia|lia|split; [done|apply quads_0]| |].
  { intros q ss ? Hq Hq4 [-> Hss]. apply naive_round_ok; [done..|lia|done]. }
  intros q ss ? Hq Hq4 [-> Hss]. assert (q = p / 4) as -> by lia.
  destruct ss as [[[s0 s1] s2] s3]. destruct Hss as (l1 & l2 & l3 & l4 & S1 & S2 & S3 & S4 & Hp).
  rewrite (Z.mul_comm (p / 4)).
  apply wp_bind, (wp_fold_for _ _ _ (fun k s l' => l' = l0 /\
    summed (k - 3 * (p / 4)) (el l0 c ldc i j)
      (l1 ++ prods A a lda B b ldb i j (4 * (p / 4)) k) s)); [lia| | |].
  { split; [done|]. rewrite prods_nil, app_nil_r by lia. eapply summed_weaken; [exact S1|lia]. }
  { intros k s ? Hk [-> Hs]. rewrite prods_snoc by lia. rewrite (assoc_L (++)).
    replace (k + 1 - 3 * (p / 4)) with (k - 3 * (p / 4) + 1) by lia.
    apply naive_rest_ok; [done..|lia|done]. }
  intros s ? [-> Hs]. apply wp_put; [done|]. eexists. split; [done|].
  eapply summed_perm; [|replace (p + 2) with (p + 1 + 1) by lia; apply summed_add;
    apply summed_add; eapply summed_weaken; [exact Hs|lia|exact S2|lia|exact S3|lia|exact S4|lia]].
  rewrite (prods_app _ _ _ _ _ _ _ _ 0 (4 * (p / 4)) p) by lia. rewrite Hp.
  solve_Permutation.
Qed.
End NaiveProofs.

Section Blocks.
Context {T : Type} `{Inhabited T} `{FloatOps T}.

Definition adding (d : Z) (P : Z -> Z -> list (T * T)) (r s : Z) (x y : T) : Prop :=
  summed d x (P r s) y.

Lemma prods_block (A : list T) a lda (B : list T) b ldb a' b' i0 j0 k0 i j lo hi :
  a' = a + i0 * lda + k0 -> b' = b + k0 * ldb + j0 ->
  prods A a' lda B b' ldb i j lo hi =
  prods A a lda B b ldb (i0 + i) (j0 + j) (k0 + lo) (k0 + hi).
Proof. intros -> ->. apply prods_shift. Qed.

Context (A B : list T) (a lda b ldb p : Z) (some_p : 0 <= p).

(** A program that adds the products of the [m] by [p] matrix at [a'] and the
    [p] by [n] matrix at [b'] to the [m] by [n] matrix at [c']. *)
Definition multiplies (d m n a' b' c' ldc : Z) (call : M (list T) unit) : Prop :=
  forall l, valid l c' ldc m n ->
  wp call (fun _ l' => adds d c' ldc m n (fun r s => prods A a' lda B b' ldb r s 0 p) l l') l.

(** On a block of a larger matrix, after some of it is done. *)
Lemma block_step d d' m n a' b' c' i j mm nn c ldc D1 D call (l l1 : list T) :
  multiplies d' m n a' b' c' ldc call ->
  a' = a + i * lda -> b' = b + j -> c' = c + i * ldc + j ->
  0 <= i -> i + m <= mm -> 0 <= j -> 0 <= n -> j + n <= nn -> nn <= ldc -> d' <= d ->
  valid l c ldc mm nn ->
  upd c ldc (region D1 (adding d (fun r s => prods A a lda B b ldb r s 0 p))) l l1 ->
  (forall r s, 0 <= s < ldc -> D r s = D1 r s || in_box m n (r - i) (s - j)) ->
  (forall r s, 0 <= s < ldc -> D1 r s && in_box m n (r - i) (s - j) = false) ->
  wp call (fun _ l' =>
    upd c ldc (region D (adding d (fun r s => prods A a lda B b ldb r s 0 p))) l l') l1.
Proof.
  intros Hcall Ha Hb Hc Hi Him Hj Hn Hjn Hld Hd Hl Hu HD Hdis.
  eapply wp_mono; [apply Hcall|].
  - eapply (valid_sub l1 c ldc mm nn c' i j m n); [|done..].
    eapply valid_len; [by eapply upd_len|done].
  - intros [] l2 H2. rewrite Hc in H2. eapply upd_union; [exact Hu| |exact HD|exact Hdis].
    eapply upd_block; [done|done|lia|exact H2|].
    cbv beta. intros r s x y Hr Hs Hxy. unfold adding.
    rewrite (prods_block A a lda B b ldb a' b' i j 0) in Hxy by lia.
    by eapply summed_weaken.
Qed.

Lemma kloop_mult a' b' c ldc :
  valid A a' lda RBM p -> valid B b' ldb p RBN -> RBN <= ldc ->
  multiplies p RBM RBN a' b' c ldc (kloop A B p a' lda b' ldb c ldc).
Proof. intros HA HB Hld l Hl. by apply kloop_ok. Qed.

Lemma mm_naive_mult m n a' b' c ldc :
  0 <= m -> 0 <= n <= ldc -> valid A a' lda m p -> valid B b' ldb p n ->
  multiplies (p + 2) m n a' b' c ldc (mm_naive A B m n p a' lda b' ldb c ldc).
Proof. intros Hm Hn HA HB l Hl. by apply mm_naive_ok. Qed.

Lemma mm_rb_ok m n c ldc :
  0 <= m -> 0 <= n <= ldc -> valid A a lda m p -> valid B b ldb p n ->
  multiplies (p + 2) m n a b c ldc (mm_rb A B m n p a lda b ldb c ldc).
Proof.
  intros Hm Hn HA HB l Hl. unfold mm_rb.
  set (P := adding (p + 2) (fun r s => prods A a lda B b ldb r s 0 p)).
  assert (0 <= m / RBM * RBM <= m /\ 0 <= n / RBN * RBN <= n) as [Hmb Hnb]
    by (unfold RBM, RBN; divlia).
  assert (0 < RBM /\ 0 < RBN) as [HRBM HRBN] by done.
  wp_seq. apply (wp_for_by _ _ _ _ (fun q l' =>
    upd c ldc (region (in_box (q * RBM) n) P) l l')); [done|lia| | |].
  { apply upd_nothing. intros r s Hs. unfold in_box. lia. }
  - intros q l1 Hq Hq1 Hu.
    assert (0 <= q * RBM /\ q * RBM + RBM <= m) as [Hq2 Hq3] by (unfold RBM in *; lia).
    wp_seq. apply (wp_for_by _ _ _ _ (fun u l' =>
      upd c ldc (region (fun r s => in_box (q * RBM) n r s || in_box RBM (u * RBN) (r - q * RBM) s)
        P) l l')); [done|lia| | |].
    { eapply upd_region_ext; [|exact Hu]. intros r s Hs. unfold in_box. lia. }
    + clear l1 Hu. intros u l1 Hu0 Hu1 Hu.
      assert (0 <= u * RBN /\ u * RBN + RBN <= n) as [Hu2 Hu3] by (unfold RBN in *; lia).
      eapply (block_step _ p RBM RBN _ _ _ (q * RBM) (u * RBN) m n c); [apply kloop_mult|lia..|exact Hl|exact Hu| |].
      * eapply (valid_sub A a lda m p _ (q * RBM) 0); [done|..]; lia.
      * eapply (valid_sub B b ldb p n _ 0 (u * RBN)); [done|..]; lia.
      * lia.
      * intros r s Hs. unfold in_box. lia.
      * intros r s Hs. unfold in_box. lia.
    + clear l1 Hu. intros u l1 Hu0 Hu1 Hu.
      assert (u * RBN = n / RBN * RBN) as Eu by (unfold RBN in *; lia). rewrite Eu in Hu.
      eapply (block_step _ (p + 2) RBM (n - n / RBN * RBN) _ _ _ (q * RBM) (n / RBN * RBN) m n c);
        [apply mm_naive_mult|lia..|exact Hl|exact Hu| |].
      * done.
      * lia.
      * eapply (valid_sub A a lda m p _ (q * RBM) 0); [done|..]; lia.
      * eapply (valid_sub B b ldb p n _ 0 (n / RBN * RBN)); [done|..]; lia.
      * intros r s Hs. unfold in_box. lia.
      * intros r s Hs. unfold in_box. lia.
  - intros q l1 Hq Hq1 Hu. assert (q * RBM = m / RBM * RBM) as Eq by (unfold RBM in *; lia).
    rewrite Eq in Hu. unfold adds, boxed.
    eapply (block_step _ (p + 2) (m - m / RBM * RBM) n _ _ _ (m / RBM * RBM) 0 m n c);
      [apply mm_naive_mult|lia..|exact Hl|exact Hu| |].
    + lia.
    + done.
    + eapply (valid_sub A a lda m p _ (m / RBM * RBM) 0); [done|..]; lia.
    + eapply (valid_sub B b ldb p n _ 0 0); [done|..]; lia.
    + intros r s Hs. unfold in_box. lia.
    + intros r s Hs. unfold in_box. lia.
Qed.
End Blocks.
