(* ===== verification/MmBlocked.v ===== *)
(** * The blocked matrix multiplication is a multiplication

    The copies into cache blocks, the products of blocks, the borders and the
    copy back: [mm] adds each product once, for every size. *)

From Stdlib Require Import ZArith Lia.
From stdpp Require Import base tactics list numbers.
From S2P Require Import Prelude CArray Grid Mm.

Section Copy.
Context {T : Type} `{Inhabited T}.

(** ** repack *)

Section Repack.
Context (A0 : list T) (a lda a0 lda0 m p : Z) (l : list T).
Context (some_m : 0 <= m) (some_p : 0 <= p <= lda).
Context (valid_A0 : valid A0 a0 lda0 m p) (valid_l : valid l a lda m p).

(** The rows above [i], and row [i] up to column [j], are copied. *)
Definition copied_to (i j : Z) (l' : list T) : Prop :=
  upd a lda (region (fun r s => in_box i p r s || ((r =? i) && (0 <=? s) && (s <? j)))
    (fun r s _ y => y = el A0 a0 lda0 r s)) l l'.

Lemma copy_one i j j' (Q : unit -> list T -> Prop) l' :
  copied_to i j l' -> 0 <= i < m -> 0 <= j < p -> j' = j + 1 ->
  (forall l'', copied_to i j' l'' -> Q tt l'') ->
  wp (wr (a + (i * lda + j)) (el A0 a0 lda0 i j)) Q l'.
Proof.
  intros Hu Hi Hj -> HQ. replace (a + (i * lda + j)) with (addr a lda i j) by (unfold addr; lia).
  assert (0 <= addr a lda i j < lenZ l') as Ha.
  { rewrite (upd_len _ _ _ _ _ Hu). by apply valid_l. }
  apply wp_put; [done|]. apply HQ.
  eapply upd_union; [exact Hu|apply (upd_write _ _ (fun r s _ y => y = el A0 a0 lda0 r s));
    [lia|done..]|..]; intros r s Hs; unfold in_box; lia.
Qed.

Lemma fetch_el i j : 0 <= i < m -> 0 <= j < p ->
  fetch A0 (a0 + (i * lda0 + j)) = Some (el A0 a0 lda0 i j).
Proof.
  intros Hi Hj. replace (a0 + (i * lda0 + j)) with (addr a0 lda0 i j) by (unfold addr; lia).
  apply fetch_Some. by apply valid_A0.
Qed.

Lemma repack_ok :
  wp (repack A0 a lda a0 lda0 m p)
     (fun _ l' => upd a lda (boxed m p (fun r s _ y => y = el A0 a0 lda0 r s)) l l') l.
Proof.
  unfold repack.
  apply (wp_for _ _ _ (fun i l' => copied_to i 0 l')); [done| | |].
  { apply upd_nothing. intros r s Hs. unfold in_box. lia. }
  - intros i l1 Hi Hu. assert (0 <= p / 8 * 8 <= p) as Hp8 by divlia.
    apply wp_bind, (wp_for_by _ _ _ _ (fun q l' => copied_to i (q * 8) l')); [done|lia|exact Hu| |].
    + clear l1 Hu. intros q l1 Hq Hq1 Hu.
      assert (0 <= q * 8 /\ q * 8 + 8 <= p) as [Hq2 Hq3] by lia.
      rewrite <-!Z.add_assoc. rewrite !fetch_el by lia.
      do 8 (apply wp_bind, wp_ret).
      rewrite Z.add_0_l, Z.add_0_r. set (j := q * 8) in *.
      apply wp_bind, (copy_one i j (j + 1)); [done|lia..|]. clear l1 Hu. intros l1 Hu.
      apply wp_bind, (copy_one i (j + 1) (j + 2)); [done|lia..|]. clear l1 Hu. intros l1 Hu.
      apply wp_bind, (copy_one i (j + 2) (j + 3)); [done|lia..|]. clear l1 Hu. intros l1 Hu.
      apply wp_bind, (copy_one i (j + 3) (j + 4)); [done|lia..|]. clear l1 Hu. intros l1 Hu.
      apply wp_bind, (copy_one i (j + 4) (j + 5)); [done|lia..|]. clear l1 Hu. intros l1 Hu.
      apply wp_bind, (copy_one i (j + 5) (j + 6)); [done|lia..|]. clear l1 Hu. intros l1 Hu.
      apply wp_bind, (copy_one i (j + 6) (j + 7)); [done|lia..|]. clear l1 Hu. intros l1 Hu.
      apply (copy_one i (j + 7) ((q + 1) * 8)); [done|lia..|]. done.
    + clear l1 Hu. intros q l1 Hq Hq1 Hu. assert (q * 8 = p / 8 * 8) as Eq by lia.
      rewrite Eq in Hu.
      apply (wp_for _ _ _ (fun j l' => copied_to i j l')); [lia|exact Hu| |].
      * clear l1 Hu. intros j l1 Hj Hu. rewrite fetch_el by lia. apply wp_bind, wp_ret.
        apply (copy_one i j (j + 1)); [done|lia..|done].
      * clear l1 Hu. intros l1 Hu. eapply upd_region_ext; [|exact Hu].
        intros r s Hs. unfold in_box. lia.
  - intros l' Hu. eapply upd_region_ext; [|exact Hu]. intros r s Hs. unfold in_box. lia.
Qed.
End Repack.
End Copy.

(** ** Copies of a matrix in blocks

    Block ([i], [j]) of a matrix cut in blocks of [bm] by [bn], [nJ] to a row, is
    stored at [block_at nJ bm bn i j], by rows of [bn]. *)

Definition block_at (nJ bm bn i j : Z) : Z := (nJ * i + j) * (bm * bn).

Section Blocks.
Context {T : Type} `{Inhabited T}.
Context (nI nJ bm bn : Z) (some_I : 0 <= nI) (some_J : 0 <= nJ).
Context (some_bm : 0 < bm) (some_bn : 0 < bn).

(** Row [r] of block ([i], [j]), as a row of [bn] elements. *)
Definition block_row (i j r : Z) : Z := (nJ * i + j) * bm + r.

Lemma block_row_inj i j r i' j' r' :
  0 <= j < nJ -> 0 <= j' < nJ -> 0 <= r < bm -> 0 <= r' < bm ->
  block_row i j r = block_row i' j' r' -> i = i' /\ j = j' /\ r = r'.
Proof.
  unfold block_row. intros Hj Hj' Hr Hr' E.
  destruct (addr_inj 0 bm (nJ * i + j) r (nJ * i' + j') r') as [E' ->]; [done..|unfold addr; lia|].
  destruct (addr_inj 0 nJ i j i' j') as [-> ->]; [done..|unfold addr; lia|done].
Qed.

Lemma block_addr i j r s :
  addr (block_at nJ bm bn i j) bn r s = addr 0 bn (block_row i j r) s.
Proof. unfold addr, block_at, block_row. lia. Qed.

Lemma block_el (l : list T) i j r s :
  el l (block_at nJ bm bn i j) bn r s = el l 0 bn (block_row i j r) s.
Proof. unfold el. by rewrite block_addr. Qed.

Lemma block_valid (l : list T) i j :
  lenZ l = (nI * bm) * (nJ * bn) -> 0 <= i < nI -> 0 <= j < nJ ->
  valid l (block_at nJ bm bn i j) bn bm bn.
Proof.
  intros Hl Hi Hj r s Hr Hs. unfold addr, block_at. rewrite Hl.
  assert (0 <= nJ * i + j) by nia. split; [nia|].
  assert (nJ * i + j + 1 <= nJ * nI) by nia.
  assert (r * bn + s < bm * bn) by nia. nia.
Qed.

(** [R i j r s x y] for the element of each of the blocks below ([i0], [j0]). *)
Definition on_blocks (i0 j0 : Z) (R : Z -> Z -> Z -> Z -> T -> T -> Prop) (l l' : list T) : Prop :=
  upd 0 bn (region (fun k _ => (0 <=? k) && (k <? block_row i0 j0 0)) (fun k s x y =>
    forall i j r, 0 <= j < nJ -> 0 <= r < bm -> k = block_row i j r -> R i j r s x y)) l l'.

Lemma on_blocks_0 R l : on_blocks 0 0 R l l.
Proof. apply upd_nothing. intros r s Hs. unfold block_row. lia. Qed.

Lemma on_blocks_row i R l l' : on_blocks i nJ R l l' -> on_blocks (i + 1) 0 R l l'.
Proof. apply upd_region_ext. intros r s Hs. unfold block_row. do 2 f_equal. lia. Qed.

(** A change of the next block. *)
Lemma on_blocks_next i j (R : Z -> Z -> Z -> Z -> T -> T -> Prop) R' l l1 l2 :
  0 <= i -> 0 <= j < nJ -> on_blocks i j R l l1 ->
  upd (block_at nJ bm bn i j) bn (boxed bm bn R') l1 l2 ->
  (forall r s x y, 0 <= r < bm -> 0 <= s < bn -> R' r s x y -> R i j r s x y) ->
  on_blocks i (j + 1) R l l2.
Proof.
  intros Hi Hj Hu H2 HR.
  assert (block_at nJ bm bn i j = 0 + block_row i j 0 * bn + 0) as E
    by (unfold block_at, block_row; lia).
  rewrite E in H2. eapply upd_union; [exact Hu|eapply (upd_block 0 bn bm bn _ R' (block_row i j 0) 0); [lia..|exact H2|]|..].
  - cbv beta. intros r s x y Hr Hs HR' i' j' r' Hj' Hr' Heq.
    replace (block_row i j 0 + r) with (block_row i j r) in Heq by (unfold block_row; lia).
    apply block_row_inj in Heq as (<- & <- & <-); [|done..]. by apply HR.
  - intros k s Hs. unfold in_box, block_row.
    assert (0 <= (nJ * i + j) * bm) by nia.
    replace ((nJ * i + (j + 1)) * bm + 0) with ((nJ * i + j) * bm + bm) by lia. lia.
  - intros k s Hs. unfold in_box, block_row. lia.
Qed.

Lemma on_blocks_at R l l' i j r s :
  on_blocks nI 0 R l l' -> lenZ l = (nI * bm) * (nJ * bn) ->
  0 <= i < nI -> 0 <= j < nJ -> 0 <= r < bm -> 0 <= s < bn ->
  R i j r s (el l (block_at nJ bm bn i j) bn r s) (el l' (block_at nJ bm bn i j) bn r s).
Proof.
  intros [Hl Hu] Hlen Hi Hj Hr Hs. rewrite !block_el.
  pose proof (block_valid l i j Hlen Hi Hj r s Hr Hs) as Ha. rewrite block_addr in Ha.
  specialize (Hu (block_row i j r) s Hs Ha). unfold region in Hu.
  replace ((0 <=? block_row i j r) && (block_row i j r <? block_row nI 0 0)) with true in Hu.
  2: { symmetry. apply andb_true_iff. unfold block_row.
       assert (0 <= nJ * i + j) by nia. assert (nJ * i + j + 1 <= nJ * nI) by nia.
       assert ((nJ * i + j + 1) * bm <= nJ * nI * bm) by nia. nia. }
  by apply Hu.
Qed.

(** [l] holds the matrix of [src] at [c0] in blocks. *)
Definition packed (src : list T) (c0 ld0 : Z) (l : list T) : Prop :=
  lenZ l = (nI * bm) * (nJ * bn) /\
  forall i j r s, 0 <= i < nI -> 0 <= j < nJ -> 0 <= r < bm -> 0 <= s < bn ->
    el l (block_at nJ bm bn i j) bn r s = el src c0 ld0 (i * bm + r) (j * bn + s).

Definition packing (src : list T) (c0 ld0 : Z) (i j r s : Z) (_ y : T) : Prop :=
  y = el src c0 ld0 (i * bm + r) (j * bn + s).

Lemma pack_block src c0 ld0 i j l l1 :
  valid src c0 ld0 (nI * bm) (nJ * bn) -> lenZ l = (nI * bm) * (nJ * bn) ->
  0 <= i < nI -> 0 <= j < nJ -> on_blocks i j (packing src c0 ld0) l l1 ->
  wp (repack src (block_at nJ bm bn i j) bn (c0 + i * bm * ld0 + j * bn) ld0 bm bn)
     (fun _ l2 => on_blocks i (j + 1) (packing src c0 ld0) l l2) l1.
Proof.
  intros Hv Hlen Hi Hj Hu. pose proof (upd_len _ _ _ _ _ Hu) as Hl1.
  eapply wp_mono; [apply repack_ok; [lia|lia| |]|].
  - eapply (valid_sub src c0 ld0 _ _ _ (i * bm) (j * bn)); [exact Hv|lia|nia..].
  - apply block_valid; [congruence|done..].
  - intros [] l2 H2. eapply on_blocks_next; [lia|done|exact Hu|exact H2|].
    cbv beta. intros r s x y Hr Hs ->. unfold packing, el. by rewrite addr_shift.
Qed.

Lemma packed_blocks src c0 ld0 l l' :
  on_blocks nI 0 (packing src c0 ld0) l l' -> lenZ l = (nI * bm) * (nJ * bn) ->
  packed src c0 ld0 l'.
Proof.
  intros Hu Hl. split; [by rewrite (upd_len _ _ _ _ _ Hu)|]. intros i j r s Hi Hj Hr Hs.
  exact (on_blocks_at _ _ _ i j r s Hu Hl Hi Hj Hr Hs).
Qed.
End Blocks.

(** ** Products in chunks *)

(** A bound on the depth of what the blocks add: each chunk of [CBK] products
    takes at most 2 operations more than its length. *)
Definition depth (p : Z) : Z := p + 2 * (p / CBK + 1).

Section Chunks.
Context {T : Type} `{Inhabited T} `{FloatOps T}.

Lemma adds_0 c ldc m n P (l : list T) :
  (forall r s, 0 <= r < m -> 0 <= s < n -> P r s = []) -> adds 0 c ldc m n P l l.
Proof.
  intros HP. split; [done|]. intros r s Hs Ha. apply boxed_intro; [|done].
  intros Hr Hs'. rewrite HP by done. by apply summed_nil.
Qed.

Lemma adds_trans d d1 d2 c ldc m n P P1 P2 (l l1 l2 : list T) :
  adds d1 c ldc m n P1 l l1 -> adds d2 c ldc m n P2 l1 l2 ->
  (forall r s, 0 <= r < m -> 0 <= s < n -> P r s = P1 r s ++ P2 r s) -> d1 + d2 <= d ->
  adds d c ldc m n P l l2.
Proof.
  intros H1 H2 HP Hd. eapply upd_trans; [exact H1|exact H2|].
  intros r s x y z Hs Hxy Hyz. apply boxed_intro.
  - intros Hr Hs'. apply boxed_in in Hxy; [|done..]. apply boxed_in in Hyz; [|done..].
    rewrite HP by done. eapply summed_weaken; [by eapply summed_trans|done].
  - intros Hout. apply boxed_out in Hxy; [|done]. apply boxed_out in Hyz; [|done]. congruence.
Qed.

Lemma adds_mono d d' c ldc m n P P' (l l' : list T) :
  adds d c ldc m n P l l' -> d <= d' ->
  (forall r s, 0 <= r < m -> 0 <= s < n -> P r s = P' r s) -> adds d' c ldc m n P' l l'.
Proof.
  intros Ha Hd HP. eapply upd_mono; [|exact Ha]. intros r s x y Hs Hxy.
  apply boxed_intro; intros Hr; [intros Hs'|by eapply boxed_out].
  apply boxed_in in Hxy; [|done..]. rewrite <-HP by done. by eapply summed_weaken.
Qed.

Context (A B : list T) (lda ldb : Z).

Lemma prods_chunk (a b i j k w : Z) :
  prods A (a + k) lda B (b + k * ldb) ldb i j 0 w = prods A a lda B b ldb i j k (k + w).
Proof. rewrite (prods_block A a lda B b ldb _ _ 0 0 k) by lia. f_equal; lia. Qed.

Lemma chunks_ok p m n a b j c ldc :
  0 <= p -> 0 <= m -> 0 <= n <= ldc -> valid A a lda m p -> valid B (b + j) ldb p n ->
  multiplies A B lda ldb p (depth p) m n a (b + j) c ldc
    (for_by 0 p CBK (fun k =>
       mm_rb A B m n (Z.min (p - k) CBK) (a + k) lda (b + k * ldb + j) ldb c ldc)).
Proof.
  intros Hp Hm Hn HA HB l Hl. assert (0 < CBK) as HK by done.
  set (P := fun hi r s => prods A a lda B (b + j) ldb r s 0 hi).
  apply (wp_for_by _ _ _ _ (fun q l' =>
    adds (Z.min (q * CBK) p + 2 * q) c ldc m n (P (Z.min (q * CBK) p)) l l')); [done..| | |].
  { rewrite Z.min_l by lia. apply adds_0. intros r s _ _. apply prods_nil. lia. }
  - intros q l1 Hq Hq1 Hu. rewrite Z.add_0_l in *.
    replace (b + q * CBK * ldb + j) with (b + j + q * CBK * ldb) by lia.
    eapply wp_mono; [apply mm_rb_ok; [lia|done|done|..]|].
    + eapply (valid_sub A a lda m p _ 0 (q * CBK)); [done|lia..].
    + eapply (valid_sub B (b + j) ldb p n _ (q * CBK) 0); [done|lia..].
    + eapply valid_len; [by eapply upd_len|done].
    + intros [] l2 H2. eapply adds_trans; [exact Hu|exact H2| |].
      * intros r s _ _. unfold P. rewrite prods_chunk.
        rewrite (prods_app _ _ _ _ _ _ _ _ 0 (Z.min (q * CBK) p)) by lia.
        rewrite (Z.min_l (q * CBK)) by lia. do 2 f_equal. lia.
      * lia.
  - intros q l' Hq Hq1 Hu. eapply adds_mono; [exact Hu| |].
    + unfold depth, CBK in *. assert (q <= p / 24 + 1) by divlia. lia.
    + intros r s _ _. by rewrite Z.min_r by lia.
Qed.
End Chunks.

(** ** One cache block *)

Section Tile.
Context {T : Type} `{Inhabited T} `{FloatOps T}.
Context (A B : list T) (p a lda b ldb nmb nnb : Z) (some_p : 0 <= p).
Let npb : Z := p / CBK.
Let pb : Z := npb * CBK.
Let mb : Z := nmb * CBM.
Let nb : Z := nnb * CBN.
Context (some_m : 0 <= nmb) (some_n : 0 <= nnb).
Context (valid_A : valid A a lda mb p) (valid_B : valid B b ldb p nb).

Lemma index_block (i d : Z) : 0 < d -> (0 + i * d) / d = i.
Proof. intros. rewrite Z.add_0_l. apply Z.div_mul. lia. Qed.

(** The products of blocks of the copies are products of the matrices. *)
Lemma packed_prods A1 B1 i j k r s :
  packed nmb npb CBM CBK A a lda A1 -> packed npb nnb CBK CBN B b ldb B1 ->
  0 <= i < nmb -> 0 <= j < nnb -> 0 <= k < npb -> 0 <= r < CBM -> 0 <= s < CBN ->
  prods A1 (block_at npb CBM CBK i k) CBK B1 (block_at nnb CBK CBN k j) CBN r s 0 CBK =
  prods A a lda B b ldb (i * CBM + r) (j * CBN + s) (k * CBK) (k * CBK + CBK).
Proof.
  intros [_ HA1] [_ HB1] Hi Hj Hk Hr Hs.
  rewrite (prods_ext A1 _ _ B1 _ _ A a lda B b ldb r s (i * CBM + r) (j * CBN + s) 0 CBK (k * CBK)).
  - f_equal; lia.
  - intros k' Hk'. rewrite HA1, HB1 by done. by rewrite (Z.add_comm k').
Qed.

Lemma tile_ok i j (f : frame) :
  0 <= i < nmb -> 0 <= j < nnb ->
  packed nmb npb CBM CBK A a lda (a1 f) -> packed npb nnb CBK CBN B b ldb (b1 f) ->
  lenZ (c1 f) = nmb * CBM * (nnb * CBN) ->
  wp (tile A B pb p nnb npb a lda b ldb (0 + i * CBM) (0 + j * CBN))
     (fun _ f' => exists l', f' = Frame (a1 f) (b1 f) l' (c_ f) /\
        adds (depth p) (block_at nnb CBM CBN i j) CBN CBM CBN
          (fun r s => prods A a lda B b ldb (i * CBM + r) (j * CBN + s) 0 p) (c1 f) l') f.
Proof.
  intros Hi Hj HA1 HB1 Hc1. unfold tile.
  assert (0 < CBM /\ 0 < CBN /\ 0 < CBK) as (HM & HN & HK) by done.
  assert (0 <= npb /\ 0 <= pb <= p /\ p < pb + CBK) as (Hnpb & Hpb & Hpb') by (unfold pb, npb, CBK; divlia).
  rewrite !index_block by done. rewrite !Z.add_0_l.
  fold (block_at nnb CBM CBN i j).
  set (P := fun hi r s => prods A a lda B b ldb (i * CBM + r) (j * CBN + s) 0 hi).
  assert (forall l : list T, lenZ l = lenZ (c1 f) -> valid l (block_at nnb CBM CBN i j) CBN CBM CBN) as Hvc.
  { intros l Hl. apply (block_valid nmb nnb CBM CBN); [done..|congruence|done|done]. }
  apply wp_bind, (wp_for_by _ _ _ _ (fun q f' => exists l',
    f' = Frame (a1 f) (b1 f) l' (c_ f) /\
    adds (q * (CBK + 2)) (block_at nnb CBM CBN i j) CBN CBM CBN (P (q * CBK)) (c1 f) l'));
    [done|lia| | |].
  { exists (c1 f). split; [by destruct f|]. apply adds_0. intros r s _ _. apply prods_nil. lia. }
  - intros q f' Hq Hq1 (l1 & -> & Hu). rewrite index_block by done.
    assert (0 <= q < npb) as Hq' by (unfold pb in *; nia).
    apply wp_bind, wp_eq with (1 := eq_refl). apply wp_zoom. cbn [a1 b1 c1 c_].
    fold (block_at npb CBM CBK i q) (block_at nnb CBK CBN q j).
    eapply wp_mono; [apply mm_rb_ok; [done|done|done|..]|].
    + apply (block_valid nmb npb CBM CBK); [done..|apply HA1|done|done].
    + apply (block_valid npb nnb CBK CBN); [done..|apply HB1|done|done].
    + apply Hvc. by eapply upd_len.
    + intros [] l2 H2. exists l2. split; [done|]. eapply adds_trans; [exact Hu|exact H2| |lia].
      intros r s Hr Hs. cbv beta. rewrite packed_prods by done. unfold P.
      rewrite (prods_app _ _ _ _ _ _ _ _ 0 (q * CBK)) by lia. do 2 f_equal. lia.
  - intros q f' Hq Hq1 (l1 & -> & Hu). assert (q = npb) as -> by (unfold pb in *; nia).
    fold pb in Hu. destruct (Z.ltb_spec pb p) as [Hlt|Hge].
    + apply wp_zoom. cbn [a1 b1 c1 c_].
      eapply wp_mono; [apply mm_rb_ok; [lia|done|done|..]|].
      * eapply (valid_sub A a lda mb p _ (i * CBM) pb); [done|lia|nia|lia|unfold mb; nia|lia].
      * eapply (valid_sub B b ldb p nb _ pb (j * CBN)); [done|lia|lia|nia|lia|unfold nb; nia].
      * apply Hvc. by eapply upd_len.
      * intros [] l2 H2. exists l2. split; [done|]. eapply adds_trans; [exact Hu|exact H2| |].
        -- intros r s Hr Hs. cbv beta. rewrite (prods_app _ _ _ _ _ _ _ _ 0 pb) by lia.
           unfold P. f_equal. symmetry.
           rewrite (prods_block A a lda B b ldb _ _ (i * CBM) (j * CBN) pb) by lia.
           f_equal; lia.
        -- unfold depth. fold npb. unfold pb in *. lia.
    + apply wp_ret. exists l1. split; [done|]. assert (pb = p) as Epb by lia.
      eapply adds_mono; [exact Hu| |].
      * unfold depth. fold npb. unfold pb in *. lia.
      * intros r s _ _. unfold P. by rewrite Epb.
Qed.
End Tile.

(** ** Loops over the part [c] of the frame *)

Section OnC.
Context {T : Type}.

Lemma foreach_on_c {X} (xs : list X) (g : X -> M (list T) unit) s :
  foreach xs (fun x => on_c (g x)) s = on_c (foreach xs g) s.
Proof.
  revert s. induction xs as [|x xs IH]; intros s; simpl; [by destruct s|].
  unfold bind at 1. unfold on_c, zoom, bind. destruct (g x (c_ s)) as [[[] t]| |]; [|done..].
  fold (@on_c T). rewrite IH. unfold on_c, zoom. simpl.
  by destruct (foreach xs g t) as [[[] u]| |].
Qed.

Lemma for_by_on_c lo hi d (g : Z -> M (list T) unit) s :
  for_by lo hi d (fun k => on_c (g k)) s = on_c (for_by lo hi d g) s.
Proof. apply foreach_on_c. Qed.

Lemma for_by_ext {S} lo hi d (f g : Z -> M S unit) s :
  (forall k s, f k s = g k s) -> for_by lo hi d f s = for_by lo hi d g s.
Proof. intros Hfg. apply foreach_ext. intros; apply Hfg. Qed.
End OnC.

Section Cb.
Context {T : Type} `{Inhabited T} `{FloatOps T}.
Context (alloca : Z -> list T) (A B : list T) (m n p a lda b ldb c ldc : Z).
Let nmb : Z := m / CBM.
Let nnb : Z := n / CBN.
Let npb : Z := p / CBK.
Let mb : Z := nmb * CBM.
Let nb : Z := nnb * CBN.
Let pb : Z := npb * CBK.
Context (alloca_size : forall k, 0 <= k -> lenZ (alloca k) = k).
Context (some_m : 0 <= m) (some_n : 0 <= n <= ldc) (some_p : 0 <= p).
Context (valid_A : valid A a lda m p) (valid_B : valid B b ldb p n).
Context (l : list T) (valid_l : valid l c ldc m n).

Let P (r s : Z) : list (T * T) := prods A a lda B b ldb r s 0 p.

Lemma cache_blocks :
  (0 < CBM /\ 0 < CBN /\ 0 < CBK) /\ (0 <= nmb /\ 0 <= nnb /\ 0 <= npb) /\
  (0 <= mb <= m /\ 0 <= nb <= n /\ 0 <= pb <= p).
Proof.
  unfold mb, nb, pb, nmb, nnb, npb, CBM, CBN, CBK. clear -some_m some_n some_p. divlia.
Qed.

Lemma pack_ok :
  wp (pack A B mb nb pb nnb npb a lda b ldb c ldc)
     (fun _ f => packed nmb npb CBM CBK A a lda (a1 f) /\ packed npb nnb CBK CBN B b ldb (b1 f) /\
                 packed nmb nnb CBM CBN l c ldc (c1 f) /\ c_ f = l)
     (Frame (alloca (mb * pb)) (alloca (pb * nb)) (alloca (mb * nb)) l).
Proof.
  destruct cache_blocks as ((HM & HN & HK) & (Hnm & Hnn & Hnp) & Hmb & Hnb & Hpb).
  assert (Hla : lenZ (alloca (mb * pb)) = mb * pb) by (apply alloca_size; nia).
  assert (Hlb : lenZ (alloca (pb * nb)) = pb * nb) by (apply alloca_size; nia).
  assert (Hlc : lenZ (alloca (mb * nb)) = mb * nb) by (apply alloca_size; nia).
  assert (HvA : valid A a lda mb pb).
  { intros r s Hr Hs. apply valid_A; lia. }
  assert (HvB : valid B b ldb pb nb).
  { intros r s Hr Hs. apply valid_B; lia. }
  assert (HvC : valid l c ldc mb nb).
  { intros r s Hr Hs. apply valid_l; lia. }
  revert Hla Hlb Hlc. generalize (alloca (mb * pb)) as x0, (alloca (pb * nb)) as y0, (alloca (mb * nb)) as z0.
  intros x0 y0 z0 Hla Hlb Hlc. unfold pack.
  apply wp_bind, (wp_blocks nmb npb CBM CBK _ (fun i j f => exists x, f = Frame x y0 z0 l /\
    on_blocks npb CBM CBK i j (packing CBM CBK A a lda) x0 x)); [done..| | | |].
  { exists x0. split; [done|]. apply on_blocks_0. }
  { intros i j f Hi Hj (x & -> & Hu). rewrite !index_block, !Z.add_0_l by done.
    apply wp_zoom. cbn [a1 b1 c1 c_]. fold (block_at npb CBM CBK i j).
    eapply wp_mono; [by eapply (pack_block nmb npb)|]. intros [] x' Hu'. by exists x'. }
  { intros i f Hi (x & -> & Hu). exists x. split; [done|]. by apply on_blocks_row. }
  intros f (x & -> & HxA). apply packed_blocks in HxA; [|done..].
  apply wp_bind, (wp_blocks npb nnb CBK CBN _ (fun i j f => exists y, f = Frame x y z0 l /\
    on_blocks nnb CBK CBN i j (packing CBK CBN B b ldb) y0 y)); [done..| | | |].
  { exists y0. split; [done|]. apply on_blocks_0. }
  { intros i j f Hi Hj (y & -> & Hu). rewrite !index_block, !Z.add_0_l by done.
    apply wp_zoom. cbn [a1 b1 c1 c_]. fold (block_at nnb CBK CBN i j).
    eapply wp_mono; [by eapply (pack_block npb nnb)|]. intros [] y' Hu'. by exists y'. }
  { intros i f Hi (y & -> & Hu). exists y. split; [done|]. by apply on_blocks_row. }
  intros f (y & -> & HyB). apply packed_blocks in HyB; [|done..].
  apply (wp_blocks nmb nnb CBM CBN _ (fun i j f => exists z, f = Frame x y z l /\
    on_blocks nnb CBM CBN i j (packing CBM CBN l c ldc) z0 z)); [done..| | | |].
  { exists z0. split; [done|]. apply on_blocks_0. }
  { intros i j f Hi Hj (z & -> & Hu). rewrite !index_block, !Z.add_0_l by done.
    apply wp_bind, wp_eq with (1 := eq_refl). apply wp_zoom. cbn [a1 b1 c1 c_].
    fold (block_at nnb CBM CBN i j).
    eapply wp_mono; [by eapply (pack_block nmb nnb)|]. intros [] z' Hu'. by exists z'. }
  { intros i f Hi (z & -> & Hu). exists z. split; [done|]. by apply on_blocks_row. }
  intros f (z & -> & HzC). apply packed_blocks in HzC; [|done..]. done.
Qed.

(** The products of the blocks, and of the columns to their right. *)
Definition block_sums (i j r s : Z) (x y : T) : Prop :=
  summed (depth p) x (P (i * CBM + r) (j * CBN + s)) y.

Lemma blocks_ok (f : frame) :
  packed nmb npb CBM CBK A a lda (a1 f) -> packed npb nnb CBK CBN B b ldb (b1 f) ->
  lenZ (c1 f) = nmb * CBM * (nnb * CBN) -> c_ f = l ->
  wp (for_by 0 mb CBM (fun i =>
        for_by 0 nb CBN (fun j => tile A B pb p nnb npb a lda b ldb i j) ;;;
        if nb <? n then
          for_by 0 p CBK (fun k =>
            on_c (mm_rb A B CBM (n - nb) (Z.min (p - k) CBK)
                    (a + i * lda + k) lda (b + k * ldb + nb) ldb (c + i * ldc + nb) ldc))
        else ret tt))
     (fun _ f' => exists c1' c', f' = Frame (a1 f) (b1 f) c1' c' /\
        on_blocks nnb CBM CBN nmb 0 block_sums (c1 f) c1' /\
        upd c ldc (region (fun r s => in_box mb n r s && (nb <=? s)) (adding (depth p) P)) l c') f.
Proof.
  destruct cache_blocks as ((HM & HN & HK) & (Hnm & Hnn & Hnp) & Hmb & Hnb & Hpb).
  intros HA1 HB1 Hc1 Hc.
  assert (HvA : valid A a lda mb p) by (intros r s Hr Hs; apply valid_A; lia).
  assert (HvB : valid B b ldb p nb) by (intros r s Hr Hs; apply valid_B; lia).
  apply (wp_for_by _ _ _ _ (fun q f' => exists c1' c', f' = Frame (a1 f) (b1 f) c1' c' /\
    on_blocks nnb CBM CBN q 0 block_sums (c1 f) c1' /\
    upd c ldc (region (fun r s => in_box (q * CBM) n r s && (nb <=? s)) (adding (depth p) P)) l c'));
    [done|lia| | |].
  { exists (c1 f), l. split; [rewrite <-Hc; by destruct f|]. split; [apply on_blocks_0|].
    apply upd_nothing. intros r s Hs. unfold in_box. lia. }
  - intros q f' Hq Hq1 (c1' & c' & -> & Hb & Hu).
    assert (0 <= q < nmb) as Hq2 by (unfold mb in *; nia).
    assert (0 <= q * CBM /\ q * CBM + CBM <= mb) as [Hq3 Hq4] by (unfold mb in *; nia).
    apply wp_bind, (wp_for_by _ _ _ _ (fun u f' => exists c1', f' = Frame (a1 f) (b1 f) c1' c' /\
      on_blocks nnb CBM CBN q u block_sums (c1 f) c1')); [done|lia|by exists c1'| |].
    { clear c1' Hb. intros u f' Hu0 Hu1 (c1' & -> & Hb).
      assert (0 <= u < nnb) as Hu2 by (unfold nb in *; nia).
      eapply wp_mono; [apply (tile_ok A B p a lda b ldb nmb nnb); try done|].
      { cbn [c1]. rewrite <-Hc1. by eapply upd_len. }
      intros [] f' (l' & -> & Ha). cbn [a1 b1 c1 c_] in *. exists l'. split; [done|].
      eapply on_blocks_next; [lia..|exact Hb|exact Ha|done]. }
    clear c1' Hb. intros u f' Hu0 Hu1 (c1' & -> & Hb).
    assert (u = nnb) as -> by (unfold nb in *; nia). apply on_blocks_row in Hb.
    destruct (Z.ltb_spec nb n) as [Hlt|Hge].
    + apply (wp_ext _ _ _ _ (for_by_on_c 0 p CBK _ _)). apply wp_zoom. cbn [c_].
      eapply wp_mono; [eapply (block_step A B a lda b ldb p (depth p) (depth p) CBM (n - nb)
        _ _ _ (q * CBM) nb m n c ldc); [apply chunks_ok|lia..|exact valid_l|exact Hu| |]|].
      * done.
      * lia.
      * lia.
      * eapply (valid_sub A a lda m p _ (q * CBM) 0); [done|lia..].
      * eapply (valid_sub B b ldb p n _ 0 nb); [done|lia..].
      * intros r s Hs. instantiate (1 := fun r s => in_box ((q + 1) * CBM) n r s && (nb <=? s)).
        unfold in_box. lia.
      * intros r s Hs. unfold in_box. lia.
      * intros [] l2 H2. by exists c1', l2.
    + apply wp_ret. exists c1', c'. split; [done|]. split; [done|].
      eapply upd_region_ext; [|exact Hu]. intros r s Hs. unfold in_box. lia.
  - intros q f' Hq Hq1 (c1' & c' & -> & Hb & Hu). assert (q = nmb) as -> by (unfold mb in *; nia).
    exists c1', c'. done.
Qed.

(** The rows below. *)
Lemma bottom_ok l1 :
  upd c ldc (region (fun r s => in_box mb n r s && (nb <=? s)) (adding (depth p) P)) l l1 ->
  wp (for_by 0 n CBN (fun j =>
        for_by 0 p CBK (fun k =>
          mm_rb A B (m - mb) (Z.min (n - j) CBN) (Z.min (p - k) CBK)
            (a + mb * lda + k) lda (b + k * ldb + j) ldb (c + mb * ldc + j) ldc)))
     (fun _ l2 => upd c ldc (region (fun r s => in_box m n r s && ((nb <=? s) || (mb <=? r)))
                              (adding (depth p) P)) l l2) l1.
Proof.
  destruct cache_blocks as ((HM & HN & HK) & (Hnm & Hnn & Hnp) & Hmb & Hnb & Hpb).
  intros Hu.
  apply (wp_for_by _ _ _ _ (fun q l2 => upd c ldc (region (fun r s =>
    in_box mb n r s && (nb <=? s) || in_box (m - mb) (Z.min (q * CBN) n) (r - mb) s)
    (adding (depth p) P)) l l2)); [done|lia| | |].
  { eapply upd_region_ext; [|exact Hu]. intros r s Hs. unfold in_box. lia. }
  - clear l1 Hu. intros q l1 Hq Hq1 Hu.
    eapply (block_step A B a lda b ldb p (depth p) (depth p) (m - mb) (Z.min (n - (0 + q * CBN)) CBN)
        _ _ _ mb (0 + q * CBN) m n c ldc); [apply chunks_ok|lia..|exact valid_l|exact Hu| |].
    + done.
    + lia.
    + lia.
    + eapply (valid_sub A a lda m p _ mb 0); [done|lia..].
    + eapply (valid_sub B b ldb p n _ 0 (0 + q * CBN)); [done|lia..].
    + intros r s Hs. unfold in_box. lia.
    + intros r s Hs. unfold in_box. lia.
  - clear l1 Hu. intros q l1 Hq Hq1 Hu. eapply upd_region_ext; [|exact Hu].
    intros r s Hs. unfold in_box. lia.
Qed.

(** The copy back. *)
Lemma unpack_ok (f : frame (T := T)) :
  lenZ (c1 f) = nmb * CBM * (nnb * CBN) -> valid (c_ f) c ldc m n ->
  wp (unpack mb nb nnb c ldc)
     (fun _ f' => upd c ldc (boxed mb nb (fun r s _ y => forall i j r' s',
        0 <= i < nmb -> 0 <= j < nnb -> 0 <= r' < CBM -> 0 <= s' < CBN ->
        r = i * CBM + r' -> s = j * CBN + s' ->
        y = el (c1 f) (block_at nnb CBM CBN i j) CBN r' s')) (c_ f) (c_ f')) f.
Proof.
  destruct cache_blocks as ((HM & HN & HK) & (Hnm & Hnn & Hnp) & Hmb & Hnb & Hpb).
  intros Hc1 Hv. set (U := fun r s (_ y : T) => _).
  apply (wp_blocks nmb nnb CBM CBN _ (fun i j f' => exists x, f' = Frame (a1 f) (b1 f) (c1 f) x /\
    upd c ldc (region (fun r s => in_box (i * CBM) nb r s || in_box CBM (j * CBN) (r - i * CBM) s) U)
      (c_ f) x)); [done..| | | |].
  - exists (c_ f). split; [by destruct f|]. apply upd_nothing. intros r s Hs. unfold in_box. lia.
  - intros i j f' Hi Hj (x & -> & Hu). rewrite !index_block, !Z.add_0_l by done.
    apply wp_bind, wp_eq with (1 := eq_refl). apply wp_zoom. cbn [a1 b1 c1 c_].
    fold (block_at nnb CBM CBN i j).
    assert (0 <= i * CBM /\ i * CBM + CBM <= mb) as [Hi1 Hi2] by (unfold mb; nia).
    assert (0 <= j * CBN /\ j * CBN + CBN <= nb) as [Hj1 Hj2] by (unfold nb; nia).
    eapply wp_mono; [apply repack_ok; [done|lia|..]|].
    + apply (block_valid nmb nnb CBM CBN); done.
    + eapply (valid_sub x c ldc m n _ (i * CBM) (j * CBN)); [|lia..].
      eapply valid_len; [by eapply upd_len|done].
    + intros [] x' Hx'. exists x'. split; [done|].
      eapply upd_union; [exact Hu|eapply (upd_block c ldc CBM CBN _ _ (i * CBM) (j * CBN));
        [lia..|exact Hx'|]|..].
      * intros r s y z Hr Hs Hz. unfold U. intros i' j' r' s' Hi' Hj' Hr' Hs' Er Es.
        destruct (addr_inj 0 CBM i r i' r') as [<- <-]; [done..|unfold addr; lia|].
        destruct (addr_inj 0 CBN j s j' s') as [<- <-]; [done..|unfold addr; lia|]. done.
      * intros r s Hs. unfold in_box. lia.
      * intros r s Hs. unfold in_box. lia.
  - intros i f' Hi (x & -> & Hu). exists x. split; [done|]. eapply upd_region_ext; [|exact Hu].
    intros r s Hs. unfold in_box. fold nb. lia.
  - intros f' (x & -> & Hu). cbn [c_]. eapply upd_region_ext; [|exact Hu].
    intros r s Hs. unfold in_box. fold mb. lia.
Qed.

Lemma mm_cb_ok :
  wp (mm_cb alloca A B m n p a lda b ldb c ldc)
     (fun _ l' => adds (depth p) c ldc m n P l l') l.
Proof.
  destruct cache_blocks as ((HM & HN & HK) & (Hnm & Hnn & Hnp) & Hmb & Hnb & Hpb).
  unfold mm_cb. apply wp_in_frame. fold nmb nnb npb. fold mb nb pb.
  wp_call ltac:(apply pack_ok). intros [] f (HA1 & HB1 & HC1 & Hc).
  wp_call ltac:(apply (blocks_ok f); [done..|apply HC1|done]).
  intros [] f' (c1' & c' & -> & Hb & Hu).
  assert (Hlen1 : lenZ c1' = nmb * CBM * (nnb * CBN)).
  { destruct HC1 as [<- _]. by eapply upd_len. }
  assert (Hrest : forall l2,
    upd c ldc (region (fun r s => in_box m n r s && ((nb <=? s) || (mb <=? r)))
      (adding (depth p) P)) l l2 ->
    wp (unpack mb nb nnb c ldc) (fun _ s => adds (depth p) c ldc m n P l (c_ s))
       (Frame (a1 f) (b1 f) c1' l2)).
  { intros l2 Hu2. pose proof (upd_len _ _ _ _ _ Hu2) as Hl2.
    eapply wp_mono; [apply unpack_ok; [done|]|].
    { eapply valid_len; [exact Hl2|done]. }
    cbn [a1 b1 c1 c_]. intros [] [x1 x2 x3 l3] [Hl3 Hu3]. cbn [c_] in *.
    split; [congruence|]. intros r s Hs Ha.
    destruct Hu2 as [_ Hu2]. specialize (Hu2 r s Hs Ha). specialize (Hu3 r s Hs ltac:(lia)).
    apply boxed_intro; [intros Hr Hs'|intros Hout].
    - destruct (decide (r < mb /\ s < nb)) as [[Hrb Hsb]|Hside].
      + apply boxed_in in Hu3; [|lia..].
        pose proof (Z.div_mod r CBM ltac:(lia)) as Er. pose proof (Z.mod_pos_bound r CBM HM) as Hrm.
        pose proof (Z.div_mod s CBN ltac:(lia)) as Es. pose proof (Z.mod_pos_bound s CBN HN) as Hsm.
        assert (0 <= r / CBM < nmb) as Hi.
        { split; [apply Z.div_pos; lia|apply Z.div_lt_upper_bound; unfold mb in *; lia]. }
        assert (0 <= s / CBN < nnb) as Hj.
        { split; [apply Z.div_pos; lia|apply Z.div_lt_upper_bound; unfold nb in *; lia]. }
        rewrite (Hu3 (r / CBM) (s / CBN) (r mod CBM) (s mod CBN)) by (done || lia).
        pose proof (on_blocks_at nmb nnb CBM CBN Hnm Hnn HM HN block_sums _ _
          (r / CBM) (s / CBN) (r mod CBM) (s mod CBN) Hb (proj1 HC1) Hi Hj Hrm Hsm) as Hsum.
        unfold block_sums in Hsum. rewrite (proj2 HC1) in Hsum by done.
        replace (r / CBM * CBM + r mod CBM) with r in Hsum by lia.
        by replace (s / CBN * CBN + s mod CBN) with s in Hsum by lia.
      + apply boxed_out in Hu3; [|lia]. rewrite Hu3. unfold region, adding in Hu2.
        replace (in_box m n r s && ((nb <=? s) || (mb <=? r))) with true in Hu2; [done|].
        unfold in_box. lia.
    - apply boxed_out in Hu3; [|lia]. rewrite Hu3. unfold region in Hu2.
      by rewrite (proj2 (in_box_false m n r s) Hout) in Hu2. }
  destruct (Z.ltb_spec mb m) as [Hlt|Hge].
  - wp_seq.
    eapply wp_ext; [apply for_by_ext; intros j s; apply for_by_on_c|].
    eapply wp_ext; [apply for_by_on_c|]. apply wp_zoom. cbn [c_].
    eapply wp_mono; [by apply bottom_ok|]. intros [] l2 Hu2. by apply Hrest.
  - apply wp_bind, wp_ret. apply Hrest. eapply upd_region_ext; [|exact Hu].
    intros r s Hs. unfold in_box. lia.
Qed.
End Cb.

(** [mm] as a change of its matrix. *)
Lemma mm_adds {T} `{Inhabited T} `{FloatOps T} (alloca : Z -> list T) (A B : list T)
    m n p a lda b ldb c ldc (l : list T) :
  (forall k, 0 <= k -> lenZ (alloca k) = k) ->
  0 <= m -> 0 <= n <= ldc -> 0 <= p ->
  valid A a lda m p -> valid B b ldb p n -> valid l c ldc m n ->
  wp (mm alloca A B m n p a lda b ldb c ldc)
     (fun _ l' => adds (depth p) c ldc m n (fun r s => prods A a lda B b ldb r s 0 p) l l') l.
Proof.
  intros Hal Hm Hn Hp HA HB Hl. unfold mm.
  destruct ((m <=? 2 * CBM) && (n <=? 2 * CBN) && (p <=? 2 * CBK)).
  - eapply wp_mono; [by apply mm_rb_ok|]. intros [] l' Ha. eapply adds_mono; [exact Ha| |done].
    unfold depth, CBK. divlia.
  - by apply mm_cb_ok.
Qed.

(** C25: [mm] multiplies: for matrices of any size inside their arrays, it ends,
    no access is out of bounds, every element of the [m] by [n] matrix [c]
    becomes a sum of its old value and of each product of its row of [a] and its
    column of [b], taken once, in a tree of at most [depth p] operations on a
    path; and no other element of the array changes, whatever the numbers, their
    [fma] and their addition. *)
Theorem mm_multiplies {T} `{Inhabited T} `{FloatOps T} (alloca : Z -> list T) (A B : list T)
    m n p a lda b ldb c ldc (l : list T) :
  (forall k, 0 <= k -> lenZ (alloca k) = k) ->
  0 <= m -> 0 <= n <= ldc -> 0 <= p ->
  valid A a lda m p -> valid B b ldb p n -> valid l c ldc m n ->
  wp (mm alloca A B m n p a lda b ldb c ldc)
     (fun _ l' => lenZ l' = lenZ l /\
        forall r s, 0 <= s < ldc -> 0 <= addr c ldc r s < lenZ l ->
          if in_box m n r s
          then summed (depth p) (el l c ldc r s) (prods A a lda B b ldb r s 0 p) (el l' c ldc r s)
          else el l' c ldc r s = el l c ldc r s) l.
Proof.
  intros. by apply mm_adds.
Qed.

(** Exact numbers. *)
Definition exact_int : FloatOps Z := {|
  fzero := 0; fma x y z := x * y + z; fadd := Z.add; fsub := Z.sub; fmul := Z.mul;
  fabs := Z.abs; fgt x y := y <? x; of_uint64 z := z; of_int z := z; literal_1e_6 := 0;
|}.

Lemma summed_exact d s ps s' :
  @summed Z exact_int d s ps s' -> s' = s + foldr (fun '(x, y) t => x * y + t) 0 ps.
Proof.
  assert (forall l k : list (Z * Z), foldr (fun '(x, y) t => x * y + t) 0 (l ++ k) =
    foldr (fun '(x, y) t => x * y + t) 0 l + foldr (fun '(x, y) t => x * y + t) 0 k) as Happ.
  { induction l as [|[x y] l IH]; intros k; simpl; [done|]. rewrite IH. lia. }
  induction 1 as [d s|d s l s' x y _ IH|d s l1 s1 l2 s2 _ IH1 _ IH2|d s l l' s' Hp _ IH].
  - simpl. lia.
  - rewrite Happ. simpl. cbn [fma exact_int]. lia.
  - rewrite Happ. cbn [fadd exact_int]. cbn [fzero exact_int] in IH2. lia.
  - rewrite IH. f_equal. clear -Hp Happ.
    induction Hp as [|[x y] l l' _ IH|[x y] [x' y'] l|? ? ? _ IH1 _ IH2]; simpl; lia.
Qed.

(** A row times a 1 by 2 matrix, inside a larger array. *)
Lemma mm_multiplies_witness :
  let alloca := fun k => replicate (Z.to_nat k) 7 in
  (forall k, 0 <= k -> lenZ (alloca k) = k) /\
  wp (mm (H0 := exact_int) alloca [2; 3] [5; 6] 2 2 1 0 1 0 2 1 3)
     (fun _ l' => el l' 1 3 1 1 = 107 + 18 /\ el l' 1 3 0 2 = 103) [100; 101; 102; 103; 106; 107].
Proof.
  assert (forall k, 0 <= k -> lenZ (replicate (Z.to_nat k) 7) = k) as Hal.
  { intros k Hk. unfold lenZ. rewrite length_replicate. lia. }
  split; [exact Hal|].
  eapply wp_mono; [apply (mm_multiplies (H0 := exact_int)); [exact Hal|lia..| | |]|].
  - intros r s Hr Hs. unfold addr, lenZ. cbn [length]. lia.
  - intros r s Hr Hs. unfold addr, lenZ. cbn [length]. lia.
  - intros r s Hr Hs. unfold addr, lenZ. cbn [length]. lia.
  - intros [] l' [_ Hu]. split.
    + specialize (Hu 1 1 ltac:(lia) ltac:(unfold addr, lenZ; cbn [length]; lia)). cbn [in_box] in Hu.
      apply summed_exact in Hu. exact Hu.
    + exact (Hu 0 2 ltac:(lia) ltac:(unfold addr, lenZ; cbn [length]; lia)).
Defined.
