(* ===== verification/MmMain.v ===== *)
(** * The matrix multiplication benchmark (sw/app/mm/mm_main.c)

    [thread_entry] fills two matrices with pseudo random numbers, adds their
    product eight times to a third one and compares it with eight times a
    product computed in the plain way, up to a relative error of 1e-6.  For any
    floating point numbers whose operations round with a relative error of at most
    2^-53, as IEEE 754 asks of a double, the comparison succeeds everywhere. *)

From Stdlib Require Import ZArith Lia String Rbase Rbasic_fun Lra.
From stdpp Require Import base tactics list numbers.
From S2P Require Import Prelude CArray Bench Grid Mm MmBlocked.

#[local] Open Scope Z_scope.

(** ** The program *)

Section Program.
Context {T : Type} `{Inhabited T} `{FloatOps T}.
Context (alloca : Z -> list T) (read_csr : nat -> string -> Z).

Definition R_ : Z := 8.

(** The local variables: the arrays, and the seed. *)
Record locals := Locals { la : list T; lb : list T; lc : list T; seed : Z }.

Definition on_la {X} : M (list T * Z) X -> M locals X :=
  zoom (fun s => (la s, seed s)) (fun '(x, z) s => Locals x (lb s) (lc s) z).
Definition on_lb {X} : M (list T * Z) X -> M locals X :=
  zoom (fun s => (lb s, seed s)) (fun '(x, z) s => Locals (la s) x (lc s) z).
Definition on_lc {X} : M (list T) X -> M locals X :=
  zoom lc (fun x s => Locals (la s) (lb s) x (seed s)).

(** [x[i*n+j] = (t)(s = lfsr(s))] for every element. *)
Definition fill (m n : Z) : M (list T * Z) unit :=
  for_ 0 m (fun i => for_ 0 n (fun j =>
    modify (fun '(x, s) => (x, lfsr s)) ;;;
    s <- get ;;
    zoom fst (fun x s => (x, snd s)) (wr (i * n + j) (of_uint64 (snd s))))).

(** One element of the check: [s], and whether it is too far from [c]. *)
Definition check_sum (a b : list T) (n p i j : Z) : M (list T) T :=
  s <- foldM (seqZ 0 (p - 0)) (fun s k =>
         x <- of_option (fetch a (i * p + k)) ;;
         y <- of_option (fetch b (k * n + j)) ;;
         ret (fadd s (fmul x y))) (of_int 0) ;;
  ret (fmul s (of_int R_)).

Definition differs (a b : list T) (n p i j : Z) : M (list T) bool :=
  s <- check_sum a b n p i j ;;
  c <- rd (i * n + j) ;;
  ret (fgt (fabs (fsub c s)) (fabs (fmul literal_1e_6 s))).

(** The position the program reports before [exit(1)], if there is one. *)
Definition check (a b : list T) (m n p : Z) : M (list T) (option (Z * Z)) :=
  foldM (cells m n) (fun found '(i, j) =>
    match found with
    | Some _ => ret found
    | None => d <- differs a b n p i j ;; ret (if d : bool then Some (i, j) else None)
    end) None.

(** What is printed, and the position of a wrong element. *)
Record report := Report {
  instructions : Z; cycles : Z; flops : Z; Mflops : Z; mismatch : option (Z * Z) }.

Definition exit_code (r : report) : Z :=
  match mismatch r with Some _ => 1 | None => 0 end.

(** The counters around the last of the [R] products; round [i] reads them for
    the [4 * i]-th to [4 * i + 3]-th time. *)
Definition round (m n p : Z) (_ : Z * Z) (i : Z) : M locals (Z * Z) :=
  let k := Z.to_nat (4 * i) in
  let instret := u32 (- read_csr k "minstret") in
  let cycles := u32 (- read_csr (k + 1)%nat "mcycle") in
  s <- get ;;
  on_lc (mm alloca (la s) (lb s) m n p 0 p 0 n 0 n) ;;;
  ret (u32 (instret + read_csr (k + 2)%nat "minstret"), u32 (cycles + read_csr (k + 3)%nat "mcycle")).

Definition thread_entry : M locals report :=
  modify (fun s => Locals (la s) (lb s) (lc s) 3735928559) ;;;
  let m := CBM in let n := CBN in let p := CBK in
  on_la (fill m p) ;;;
  on_lb (fill p n) ;;;
  on_lc (modify (fun _ => replicate (Z.to_nat (m * n)) fzero)) ;;;
  counters <- foldM (seqZ 0 (R_ - 0)) (round m n p) (0, 0) ;;
  let '(instret, cycles) := counters in
  if cycles =? 0 then undefined
  else
    s <- get ;;
    found <- on_lc (check (la s) (lb s) m n p) ;;
    ret (Report (s32 instret) (s32 cycles) (2 * m * n * p) (s32 (2000 * m * n * p / cycles)) found).
End Program.

(** ** Rounding

    [value] is the number a finite [x] stands for.  The laws are those of
    IEEE 754 for a double, in the range where nothing overflows or underflows. *)

#[local] Open Scope R_scope.

Definition unit_roundoff : R := / IZR (2 ^ 53).
Definition tiny : R := / IZR (2 ^ 1022).
Definition huge : R := IZR (2 ^ 1023).

(** [y] is [x] rounded; [x] is zero or in the normal range. *)
Definition close (x y : R) : Prop := Rabs (y - x) <= unit_roundoff * Rabs x.
Definition normal (x : R) : Prop := x = 0 \/ tiny <= Rabs x <= huge.

Class Rounding (T : Type) `{FloatOps T} := {
  value : T -> R;
  finite : T -> Prop;
  zero_value : finite fzero /\ value fzero = 0;
  fma_close x y z : finite x -> finite y -> finite z ->
    normal (value x * value y + value z) ->
    finite (fma x y z) /\ close (value x * value y + value z) (value (fma x y z));
  fadd_close x y : finite x -> finite y -> normal (value x + value y) ->
    finite (fadd x y) /\ close (value x + value y) (value (fadd x y));
  fsub_close x y : finite x -> finite y -> Rabs (value x - value y) <= huge ->
    finite (fsub x y) /\ close (value x - value y) (value (fsub x y));
  fmul_close x y : finite x -> finite y -> normal (value x * value y) ->
    finite (fmul x y) /\ close (value x * value y) (value (fmul x y));
  fabs_value x : finite x -> finite (fabs x) /\ value (fabs x) = Rabs (value x);
  fgt_value x y : finite x -> finite y -> (fgt x y = true <-> value x > value y);
  of_uint64_close z : (0 <= z < 2 ^ 64)%Z -> finite (of_uint64 z) /\ close (IZR z) (value (of_uint64 z));
  of_int_value z : (- 2 ^ 31 <= z < 2 ^ 31)%Z -> finite (of_int z) /\ value (of_int z) = IZR z;
  literal_close : finite literal_1e_6 /\ close (/ 1000000) (value literal_1e_6);
}.

Lemma unit_roundoff_small : 0 < unit_roundoff <= / 1000000000000000.
Proof.
  unfold unit_roundoff. split; [apply Rinv_0_lt_compat, IZR_lt; reflexivity|].
  apply Rinv_le_contravar; [lra|]. apply IZR_le. vm_compute. discriminate.
Qed.

Lemma tiny_small : tiny <= / 1000000000000000000000000.
Proof.
  unfold tiny. apply Rinv_le_contravar; [lra|]. apply IZR_le. vm_compute. discriminate.
Qed.

Lemma huge_large : IZR (2 ^ 200) <= huge.
Proof. apply IZR_le. vm_compute. discriminate. Qed.

Lemma Rabs_between x y : Rabs x <= y -> - y <= x <= y.
Proof. unfold Rabs. destruct (Rcase_abs x); lra. Qed.

Lemma Rabs_le x y : - y <= x <= y -> Rabs x <= y.
Proof. unfold Rabs. destruct (Rcase_abs x); lra. Qed.

(** [x] approximates [X] up to a relative error [e]. *)
Definition approx (e X x : R) : Prop := 0 <= X /\ Rabs (x - X) <= e * X.

(** Numbers that neither underflow nor overflow. *)
Definition moderate (X : R) : Prop := (X = 0 \/ / 1000000000 <= X) /\ X <= IZR (2 ^ 199).

Lemma approx_range e X x : approx e X x -> e <= / 2 -> X / 2 <= x <= 2 * X.
Proof.
  intros [HX Hx] He. apply Rabs_between in Hx. assert (e * X <= / 2 * X) by nra. lra.
Qed.

Lemma approx_normal e X x : approx e X x -> e <= / 2 -> moderate X -> normal x.
Proof.
  intros Ha He [HX HX']. pose proof (approx_range _ _ _ Ha He) as Hr.
  pose proof tiny_small. pose proof huge_large.
  assert (IZR (2 ^ 200) = 2 * IZR (2 ^ 199)) as E by (rewrite <-mult_IZR; reflexivity).
  destruct HX as [->|HX]; [left; lra|right]. rewrite Rabs_right by lra.
  assert (/ 1000000000000000000000000 <= / 1000000000 / 2) by lra. lra.
Qed.

Lemma approx_round e X x y :
  approx e X x -> 0 <= e <= / 2 -> close x y -> approx (e + 2 * unit_roundoff) X y.
Proof.
  intros [HX Hx] He Hy. split; [done|]. unfold close in Hy.
  pose proof unit_roundoff_small as [Hu _].
  assert (Rabs x <= 2 * X) as Hax.
  { apply Rabs_between in Hx. apply Rabs_le. assert (e * X <= / 2 * X) by nra. lra. }
  replace (y - X) with ((y - x) + (x - X)) by lra.
  eapply Rle_trans; [apply Rabs_triang|]. nra.
Qed.

Lemma approx_plus e X x Y y : approx e X x -> approx e Y y -> approx e (X + Y) (x + y).
Proof.
  intros [HX Hx] [HY Hy]. split; [lra|].
  replace (x + y - (X + Y)) with ((x - X) + (y - Y)) by lra.
  eapply Rle_trans; [apply Rabs_triang|]. lra.
Qed.

Lemma approx_refl e X : 0 <= X -> 0 <= e -> approx e X X.
Proof. intros. split; [done|]. rewrite Rminus_diag, Rabs_R0. nra. Qed.

Lemma approx_weaken e e' X x : approx e X x -> e <= e' -> approx e' X x.
Proof. intros [HX Hx] He. split; [done|]. nra. Qed.

Lemma approx_scale e X x k : approx e X x -> 0 <= k -> approx e (k * X) (k * x).
Proof.
  intros [HX Hx] Hk. split; [nra|]. replace (k * x - k * X) with (k * (x - X)) by lra.
  rewrite Rabs_mult, (Rabs_right k) by lra. nra.
Qed.

Section Accuracy.
Context {T : Type} `{Inhabited T} `{FloatOps T} `{!Rounding T}.

Definition total (l : list (T * T)) : R :=
  foldr (fun '(x, y) t => value x * value y + t) 0 l.

(** Zero, or large enough. *)
Definition sizeable (X : R) : Prop := X = 0 \/ / 1000000000 <= X.

Definition term_ok (xy : T * T) : Prop :=
  finite xy.1 /\ finite xy.2 /\ sizeable (value xy.1 * value xy.2).

Lemma sizeable_plus X Y : sizeable X -> sizeable Y -> sizeable (X + Y).
Proof. unfold sizeable. lra. Qed.

Lemma sizeable_nonneg X : sizeable X -> 0 <= X.
Proof. unfold sizeable. lra. Qed.

Lemma total_app l k : total (l ++ k) = total l + total k.
Proof. induction l as [|[x y] l IH]; simpl; [lra|]. rewrite IH. lra. Qed.

Lemma total_perm l k : l ≡ₚ k -> total l = total k.
Proof. induction 1 as [|[x y] l l' _ IH|[x y] [x' y'] l|l l' l'' _ IH1 _ IH2]; simpl; lra. Qed.

Lemma total_sizeable l : Forall term_ok l -> sizeable (total l).
Proof.
  induction 1 as [|[x y] l (_ & _ & Hxy) _ IH]; simpl; [by left|]. by apply sizeable_plus.
Qed.

Definition error (d : Z) : R := 2 * IZR d * unit_roundoff.

Lemma error_S d : error (d + 1) = error d + 2 * unit_roundoff.
Proof. unfold error. rewrite plus_IZR. lra. Qed.

Lemma error_nonneg d : (0 <= d)%Z -> 0 <= error d.
Proof.
  intros Hd%IZR_le. unfold error. pose proof unit_roundoff_small as [Hu _]. nra.
Qed.

Lemma summed_nonneg d s l s' : summed d s l s' -> (0 <= d)%Z.
Proof. induction 1; lia. Qed.

(** A sum of products is within its depth's error of the exact one. *)
Lemma summed_close d s l s' :
  summed d s l s' -> Forall term_ok l -> finite s -> sizeable (value s) ->
  value s + total l <= IZR (2 ^ 199) -> error d <= / 2 ->
  finite s' /\ approx (error d) (value s + total l) (value s').
Proof.
  pose proof unit_roundoff_small as [Hu _]. destruct zero_value as [Hz Hz0].
  induction 1 as [d s Hd|d s l s' x y Hs IH|d s l1 s1 l2 s2 H1 IH1 H2 IH2|d s l l' s' Hp Hs IH];
    intros Hok Hfs Hv Htop He.
  - split; [done|]. simpl. rewrite Rplus_0_r. apply approx_refl; [by apply sizeable_nonneg|].
    by apply error_nonneg.
  - apply Forall_app in Hok as [Hok Hxy]. apply Forall_singleton in Hxy as (Hx & Hy & Hxy).
    cbn [fst snd] in *. rewrite error_S in *. rewrite total_app in *. simpl in *.
    apply summed_nonneg in Hs as Hd. pose proof (error_nonneg d Hd) as He0.
    pose proof (sizeable_nonneg _ Hxy) as Hxy0.
    pose proof (total_sizeable _ Hok) as Ht. pose proof (sizeable_plus _ _ Hv Ht) as Hvt.
    destruct IH as [Hf Ha]; [done|done|done|lra|lra|].
    assert (approx (error d) (value x * value y + (value s + total l))
             (value x * value y + value s')) as Hb.
    { apply approx_plus; [by apply approx_refl|done]. }
    destruct (fma_close x y s') as [Hff Hc]; [done..| |].
    { eapply approx_normal; [exact Hb|lra|]. split; [by apply sizeable_plus|lra]. }
    split; [done|]. replace (value s + (total l + (value x * value y + 0)))
      with (value x * value y + (value s + total l)) by lra.
    eapply approx_round; [exact Hb|lra|exact Hc].
  - apply Forall_app in Hok as [Hok1 Hok2]. rewrite error_S in *. rewrite total_app in *.
    apply summed_nonneg in H1 as Hd. pose proof (error_nonneg d Hd) as He0.
    pose proof (total_sizeable _ Hok1) as Ht1. pose proof (total_sizeable _ Hok2) as Ht2.
    pose proof (sizeable_nonneg _ Ht1). pose proof (sizeable_nonneg _ Ht2).
    pose proof (sizeable_nonneg _ Hv).
    destruct IH1 as [Hf1 Ha1]; [done|done|done|lra|lra|].
    destruct IH2 as [Hf2 Ha2]; [done|done|by left|lra|lra|].
    rewrite Hz0, Rplus_0_l in Ha2.
    pose proof (approx_plus _ _ _ _ _ Ha1 Ha2) as Hb.
    destruct (fadd_close s1 s2) as [Hff Hc]; [done..| |].
    { eapply approx_normal; [exact Hb|lra|].
      split; [by apply sizeable_plus; [apply sizeable_plus|]|lra]. }
    split; [done|]. rewrite <-Rplus_assoc. eapply approx_round; [exact Hb|lra|exact Hc].
  - rewrite <-(total_perm _ _ Hp) in *. apply IH; [by rewrite Hp|done..].
Qed.
End Accuracy.

(** ** The data *)

#[local] Open Scope Z_scope.

Lemma lor_below n x y : 0 <= n -> 0 <= x < 2 ^ n -> 0 <= y < 2 ^ n -> 0 <= Z.lor x y < 2 ^ n.
Proof.
  intros Hn Hx Hy. split; [apply Z.lor_nonneg; lia|].
  destruct (decide (Z.lor x y = 0)) as [->|Hne]; [by apply Z.pow_pos_nonneg|].
  assert (0 < Z.lor x y) as Hpos by (pose proof (proj2 (Z.lor_nonneg x y) (conj (proj1 Hx) (proj1 Hy))); lia).
  apply Z.log2_lt_pow2; [done|]. rewrite Z.log2_lor by lia.
  destruct (decide (x = 0)) as [->|], (decide (y = 0)) as [->|]; [by destruct Hne|..].
  - rewrite Z.max_r by (apply Z.log2_nonneg). apply Z.log2_lt_pow2; lia.
  - rewrite Z.max_l by (apply Z.log2_nonneg). apply Z.log2_lt_pow2; lia.
  - apply Z.max_lub_lt; apply Z.log2_lt_pow2; lia.
Qed.

Lemma lfsr_range x : 0 <= x < 2 ^ 64 -> 0 <= lfsr x < 2 ^ 64.
Proof.
  intros Hx. unfold lfsr. apply lor_below; [done| |unfold u64; divlia].
  rewrite Z.shiftr_div_pow2 by done. split; [apply Z.div_pos; lia|].
  apply Z.div_lt_upper_bound; lia.
Qed.

Section Data.
Context {T : Type} `{Inhabited T} `{FloatOps T} `{!Rounding T}.

#[local] Open Scope R_scope.

(** A random number: zero or at least a half, and at most 2^65. *)
Definition datum (x : T) : Prop :=
  finite x /\ (value x = 0 \/ / 2 <= value x) /\ value x <= IZR (2 ^ 65).

Lemma of_uint64_datum z : (0 <= z < 2 ^ 64)%Z -> datum (of_uint64 z).
Proof.
  intros Hz. destruct (of_uint64_close z Hz) as [Hf Hc]. split; [done|].
  pose proof unit_roundoff_small as Hu. unfold close in Hc.
  assert (0 <= IZR z <= IZR (2 ^ 64)) as Hz' by (split; apply IZR_le; lia).
  rewrite (Rabs_right (IZR z)) in Hc by lra. apply Rabs_between in Hc.
  assert (unit_roundoff * IZR z <= / 2 * IZR z) by nra.
  assert (IZR (2 ^ 65) = 2 * IZR (2 ^ 64)) as E by (rewrite <-mult_IZR; reflexivity).
  split; [|lra]. destruct (decide (z = 0)%Z) as [->|Hne]; [left; lra|right].
  assert (1 <= IZR z) by (apply IZR_le; lia). lra.
Qed.

Lemma datum_term x y : datum x -> datum y ->
  term_ok (x, y) /\ value x * value y <= IZR (2 ^ 130).
Proof.
  intros (Hx & Hx0 & Hx1) (Hy & Hy0 & Hy1).
  assert (IZR (2 ^ 130) = IZR (2 ^ 65) * IZR (2 ^ 65)) as -> by (rewrite <-mult_IZR; reflexivity).
  assert (0 <= value x /\ 0 <= value y) as [Hpx Hpy] by lra.
  split; [|by apply Rmult_le_compat]. split_and!; [done..|]. unfold sizeable. cbn [fst snd].
  destruct Hx0 as [->|Hx0]; [left; lra|]. destruct Hy0 as [->|Hy0]; [left; lra|right].
  assert (/ 2 * / 2 <= value x * value y) by (apply Rmult_le_compat; lra). lra.
Qed.

(** The products of two matrices of data. *)
Lemma data_prods a lda b ldb A B i j lo hi :
  (0 <= hi - lo)%Z ->
  (forall k, (lo <= k < hi)%Z -> datum (el A a lda i k) /\ datum (el B b ldb k j)) ->
  Forall term_ok (prods A a lda B b ldb i j lo hi) /\
  total (prods A a lda B b ldb i j lo hi) <= IZR (hi - lo) * IZR (2 ^ 130).
Proof.
  intros Hle Hd. unfold prods.
  assert (forall ks : list Z, (forall k, k ∈ ks -> (lo <= k < hi)%Z) ->
    Forall term_ok (map (fun k => (el A a lda i k, el B b ldb k j)) ks) /\
    total (map (fun k => (el A a lda i k, el B b ldb k j)) ks) <= IZR (lenZ ks) * IZR (2 ^ 130)) as Hall.
  { induction ks as [|k ks IH]; intros Hks; simpl; [split; [constructor|]; change (lenZ []) with 0%Z; lra|].
    destruct IH as [IH1 IH2]; [intros k' Hk'; apply Hks; by right|].
    destruct (Hd k) as [Hx Hy]; [apply Hks; left|]. destruct (datum_term _ _ Hx Hy) as [Ht Hb].
    split; [by constructor|]. rewrite lenZ_cons, plus_IZR. lra. }
  destruct (Hall (seqZ lo (hi - lo))) as [H1 H2].
  { intros k Hk. apply elem_of_seqZ in Hk. lia. }
  split; [done|]. unfold lenZ in H2. rewrite length_seqZ, Z2Nat.id in H2 by lia. done.
Qed.
End Data.

(** ** The program *)

Section Main.
Context {T : Type} `{Inhabited T} `{FloatOps T} `{!Rounding T}.
#[local] Open Scope Z_scope.

Lemma fill_ok m n (x : list T) s :
  0 <= m -> 0 <= n -> lenZ x = m * n -> 0 <= s < 2 ^ 64 ->
  wp (fill m n) (fun _ '(x', s') => 0 <= s' < 2 ^ 64 /\ lenZ x' = m * n /\
       forall i j, 0 <= i < m -> 0 <= j < n -> datum (el x' 0 n i j)) (x, s).
Proof.
  intros Hm Hn Hx Hs. unfold fill.
  set (Inv := fun k (st : list T * Z) => 0 <= st.2 < 2 ^ 64 /\ lenZ st.1 = m * n /\
    forall i, 0 <= i < k -> datum (getZ st.1 i)).
  apply (wp_for _ _ _ (fun i st => Inv (i * n) st)); [done| | |].
  - unfold Inv. split; [done|]. split; [done|]. intros i Hi. lia.
  - intros i st Hi HI.
    apply (wp_for _ _ _ (fun j st => Inv (i * n + j) st)); [done|by rewrite Z.add_0_r| |].
    + clear st HI. intros j [y z] Hj (Hz & Hy & Hd). cbn [fst snd] in *.
      apply wp_bind. unfold wp at 1, modify. apply wp_bind. unfold wp at 1, get.
      apply wp_zoom. cbn [fst snd]. apply lfsr_range in Hz.
      apply wp_put; [rewrite Hy; nia|]. unfold Inv. cbn [fst snd]. split; [done|]. split; [by rewrite setZ_length|].
      cbn [fst]. intros k Hk. destruct (decide (k = i * n + j)) as [->|Hne].
      * rewrite getZ_setZ by (rewrite Hy; nia). by apply of_uint64_datum.
      * rewrite getZ_setZ_ne by nia. apply Hd. lia.
    + intros st' HI'. by replace ((i + 1) * n) with (i * n + n) by lia.
  - intros [y z] (Hz & Hy & Hd). cbn [fst snd] in *. split; [done|]. split; [done|].
    intros i j Hi Hj. unfold el, addr. apply Hd. nia.
Qed.

(** ** The check *)

#[local] Open Scope R_scope.

Lemma error_small d : (d <= 10000)%Z -> error d <= / 10000000000.
Proof.
  intros Hd%IZR_le. unfold error. pose proof unit_roundoff_small as [Hu Hu']. nra.
Qed.

(** Two approximations of the same number are not found different. *)
Lemma far_apart X e e' (c s : T) :
  e <= / 10000000000 -> e' <= / 10000000000 ->
  sizeable X -> X <= IZR (2 ^ 199) -> finite c -> finite s ->
  approx e X (value c) -> approx e' X (value s) ->
  ~ fgt (fabs (fsub c s)) (fabs (fmul literal_1e_6 s)) = true.
Proof.
  intros He He' HX HX' Hfc Hfs Hc Hs.
  pose proof unit_roundoff_small as [Hu Hu']. pose proof huge_large as Hh.
  pose proof tiny_small as Ht. pose proof (sizeable_nonneg _ HX) as HX0.
  assert (IZR (2 ^ 200) = 2 * IZR (2 ^ 199)) as E by (rewrite <-mult_IZR; reflexivity).
  destruct Hc as [_ Hc]. destruct Hs as [_ Hs].
  apply Rabs_between in Hc, Hs.
  assert (e * X <= / 10000000000 * X) as HeX by (apply Rmult_le_compat_r; lra).
  assert (e' * X <= / 10000000000 * X) as HeX' by (apply Rmult_le_compat_r; lra).
  destruct (fsub_close c s) as [Hfd Hcd]; [done..|apply Rabs_le; lra|].
  destruct literal_close as [Hfl Hcl]. unfold close in Hcl.
  rewrite (Rabs_right (/ 1000000)) in Hcl by lra. apply Rabs_between in Hcl.
  assert (/ 1000000 - / 100000000 <= value literal_1e_6 <= / 100000) as Hlit by lra.
  assert (3 / 4 * X <= value s <= 2 * X) as Hs2 by lra.
  assert (- (/ 4000000000 * X) <= value c - value s <= / 4000000000 * X) as Hdiff by lra.
  clear Hcl HeX HeX' Hc Hs.
  assert (/ 2000000 * X <= value literal_1e_6 * value s <= X) as Hprod.
  { split; [apply Rle_trans with (/ 1500000 * (3 / 4 * X)); [lra|]|
            apply Rle_trans with (/ 100000 * (2 * X)); [|lra]];
    apply Rmult_le_compat; lra. }
  destruct (fmul_close literal_1e_6 s) as [Hfm Hcm]; [done..| |].
  { destruct HX as [->|HX]; [left; lra|right]. rewrite Rabs_right by lra. lra. }
  destruct (fabs_value _ Hfd) as [Hf1 E1]. destruct (fabs_value _ Hfm) as [Hf2 E2].
  rewrite fgt_value, E1, E2 by done. apply Rle_not_gt.
  unfold close in Hcd, Hcm. rewrite (Rabs_right (_ * _)) in Hcm by lra.
  apply Rabs_between in Hcm. apply Rle_trans with (/ 4000000 * X); [|eapply Rle_trans; [|apply Rle_abs]].
  - assert (Rabs (value c - value s) <= / 4000000000 * X) as Hab by (apply Rabs_le; lra).
    assert (unit_roundoff * Rabs (value c - value s) <= 1 * (/ 4000000000 * X)) as Hab2.
    { apply Rmult_le_compat; [lra|apply Rabs_pos|lra|done]. }
    apply Rabs_between in Hcd. apply Rabs_le. lra.
  - assert (unit_roundoff * (value literal_1e_6 * value s) <=
            / 2 * (value literal_1e_6 * value s)) by (apply Rmult_le_compat_r; lra).
    lra.
Qed.

#[local] Open Scope Z_scope.

Section Check.
Context (a b : list T) (m n p : Z) (some_p : 0 <= p <= 100).
Context (len_a : lenZ a = m * p) (len_b : lenZ b = p * n).
Context (data_a : forall i j, 0 <= i < m -> 0 <= j < p -> datum (el a 0 p i j)).
Context (data_b : forall i j, 0 <= i < p -> 0 <= j < n -> datum (el b 0 n i j)).

(** The exact sums, and their products by the number of rounds. *)
Definition exact_sum (i j k : Z) : R := total (prods a 0 p b 0 n i j 0 k).

Lemma exact_sum_ok i j k :
  0 <= i < m -> 0 <= j < n -> 0 <= k <= p ->
  sizeable (exact_sum i j k) /\ (exact_sum i j k <= IZR (2 ^ 137))%R.
Proof.
  intros Hi Hj Hk. destruct (data_prods 0 p 0 n a b i j 0 k) as [Hok Hle]; [lia| |].
  { intros k' Hk'. split; [apply data_a; lia|apply data_b; lia]. }
  split; [by apply total_sizeable|]. eapply Rle_trans; [exact Hle|].
  rewrite <-mult_IZR. apply IZR_le. rewrite Z.sub_0_r.
  assert (k * 2 ^ 130 <= 100 * 2 ^ 130) by (apply Z.mul_le_mono_nonneg_r; lia). 
  eapply Z.le_trans; [eassumption|]. vm_compute. discriminate.
Qed.

Lemma check_sum_ok i j (c : list T) :
  0 <= i < m -> 0 <= j < n ->
  wp (check_sum a b n p i j) (fun s c' => c' = c /\ finite s /\
       approx (error (p + 2)) (8 * exact_sum i j p)%R (value s)) c.
Proof.
  intros Hi Hj. unfold check_sum. pose proof unit_roundoff_small as [Hu Hu'].
  destruct (of_int_value 0) as [Hf0 H0']; [lia|]. destruct (of_int_value 8) as [Hf8 H8]; [lia|].
  apply wp_bind, (wp_fold_for _ _ _ (fun k s c' => c' = c /\ finite s /\
    approx (error (k + 1)) (exact_sum i j k) (value s))); [lia| | |].
  - split_and!; [done..|]. unfold exact_sum. rewrite prods_nil, H0' by lia.
    apply approx_refl; [simpl; lra|by apply error_nonneg].
  - intros k s c' Hk (-> & Hf & Ha).
    pose proof (data_a i k Hi Hk) as Hx. pose proof (data_b k j Hk Hj) as Hy.
    destruct (datum_term _ _ Hx Hy) as [(Hfx & Hfy & Hxy) _]. cbn [fst snd] in *.
    destruct (exact_sum_ok i j k) as [Hs _]; [done..|lia|].
    destruct (exact_sum_ok i j (k + 1)) as [Hs1 Hle]; [done..|lia|].
    assert (exact_sum i j (k + 1) = exact_sum i j k + value (el a 0 p i k) * value (el b 0 n k j))%R
      as E.
    { unfold exact_sum. rewrite prods_snoc, total_app by lia. simpl. lra. }
    assert (error (k + 1) <= / 4)%R as He by (pose proof (error_small (k + 1) ltac:(lia)); lra).
    assert (IZR (2 ^ 137) <= IZR (2 ^ 199))%R as Htop by (apply IZR_le; vm_compute; discriminate).
    pose proof (sizeable_nonneg _ Hs). pose proof (sizeable_nonneg _ Hxy).
    assert (0 <= error k)%R as Hek by (apply error_nonneg; lia).
    assert (0 <= error (k + 1))%R as Hek1 by (apply error_nonneg; lia).
    replace (i * p + k) with (addr 0 p i k) by (unfold addr; lia).
    replace (k * n + j) with (addr 0 n k j) by (unfold addr; lia).
    rewrite !fetch_Some by (unfold addr; nia). do 2 (apply wp_bind, wp_ret).
    apply wp_ret. split; [done|]. fold (el a 0 p i k) (el b 0 n k j).
    destruct (fmul_close (el a 0 p i k) (el b 0 n k j)) as [Hfm Hcm]; [done..| |].
    { eapply approx_normal; [by apply (approx_refl 0); [|lra]|lra|]. split; [done|lra]. }
    assert (approx (error (k + 1)) (value (el a 0 p i k) * value (el b 0 n k j))
              (value (fmul (el a 0 p i k) (el b 0 n k j)))) as Hat.
    { eapply approx_weaken; [by eapply approx_round; [apply (approx_refl 0); [|lra]|lra|exact Hcm]|].
      rewrite error_S. lra. }
    pose proof (approx_plus _ _ _ _ _ Ha Hat) as Hb. rewrite <-E in Hb.
    destruct (fadd_close s (fmul (el a 0 p i k) (el b 0 n k j))) as [Hfa Hca]; [done..| |].
    { eapply approx_normal; [exact Hb|lra|]. split; [done|lra]. }
    split; [done|]. rewrite error_S. eapply approx_round; [exact Hb|lra|exact Hca].
  - intros s c' (-> & Hf & Ha). destruct (exact_sum_ok i j p) as [Hs Hle]; [done..|lia|].
    assert (error (p + 1) <= / 4)%R as He by (pose proof (error_small (p + 1) ltac:(lia)); lra).
    assert (8 * IZR (2 ^ 137) <= IZR (2 ^ 199))%R as Htop.
    { rewrite <-mult_IZR. apply IZR_le. vm_compute. discriminate. }
    pose proof (sizeable_nonneg _ Hs).
    assert (0 <= error (p + 1))%R as Hep by (apply error_nonneg; lia).
    apply wp_ret. split; [done|].
    pose proof (approx_scale _ _ _ 8 Ha ltac:(lra)) as Hb.
    destruct (fmul_close s (of_int R_)) as [Hfm Hcm]; [done..| |].
    { unfold R_. rewrite H8, Rmult_comm. eapply approx_normal; [exact Hb|lra|].
      split; [unfold sizeable in Hs; lra|lra]. }
    split; [done|]. replace (p + 2) with (p + 1 + 1) by lia. rewrite error_S.
    unfold R_ in *. rewrite H8, Rmult_comm in Hcm. eapply approx_round; [exact Hb|lra|exact Hcm].
Qed.

(** An element of [c] that holds the exact sum up to rounding passes. *)
Lemma differs_ok i j (c : list T) :
  0 <= i < m -> 0 <= j < n -> lenZ c = m * n ->
  finite (el c 0 n i j) -> approx (error 1000) (8 * exact_sum i j p)%R (value (el c 0 n i j)) ->
  wp (differs a b n p i j) (fun d c' => c' = c /\ d = false) c.
Proof.
  intros Hi Hj Hc Hfc Hac. unfold differs. wp_call ltac:(by apply check_sum_ok).
  intros s ? (-> & Hfs & Has). destruct (exact_sum_ok i j p) as [Hs Hle]; [done..|lia|].
  replace (i * n + j) with (addr 0 n i j) by (unfold addr; lia).
  apply wp_bind, wp_at; [unfold addr; nia|]. fold (el c 0 n i j). apply wp_ret. split; [done|].
  apply not_true_is_false. intros Hgt. revert Hgt.
  apply (far_apart (8 * exact_sum i j p)%R (error 1000) (error (p + 2))); try done.
  - apply error_small. lia.
  - apply error_small. lia.
  - unfold sizeable in *. lra.
  - assert (8 * IZR (2 ^ 137) <= IZR (2 ^ 199))%R; [|lra].
    rewrite <-mult_IZR. apply IZR_le. vm_compute. discriminate.
Qed.
End Check.

(** ** The rounds *)

(** After [q] rounds, [q] times the products. *)
Definition accumulated (a b : list T) (m n p q : Z) (c : list T) : Prop :=
  lenZ c = m * n /\
  forall i j, 0 <= i < m -> 0 <= j < n -> exists ps,
    summed (depth p * q) fzero ps (el c 0 n i j) /\ Forall term_ok ps /\
    total ps = (IZR q * exact_sum a b n p i j p)%R.

Lemma accumulated_0 a b m n p :
  0 <= m * n -> accumulated a b m n p 0 (replicate (Z.to_nat (m * n)) fzero).
Proof.
  intros Hmn. split; [unfold lenZ; rewrite length_replicate; lia|].
  intros i j Hi Hj. exists []. split_and!; [|constructor|simpl; lra].
  rewrite Z.mul_0_r. assert (el (replicate (Z.to_nat (m * n)) fzero) 0 n i j = fzero) as ->.
  { unfold el, getZ. apply list_lookup_total_correct, lookup_replicate_2. unfold addr. nia. }
  by apply summed_nil.
Qed.

Lemma accumulated_round alloca a b m n p q c :
  (forall k, 0 <= k -> lenZ (alloca k) = k) ->
  0 <= m -> 0 <= n -> 0 <= p -> 0 <= q -> lenZ a = m * p -> lenZ b = p * n ->
  (forall i j, 0 <= i < m -> 0 <= j < p -> datum (el a 0 p i j)) ->
  (forall i j, 0 <= i < p -> 0 <= j < n -> datum (el b 0 n i j)) ->
  accumulated a b m n p q c ->
  wp (mm alloca a b m n p 0 p 0 n 0 n) (fun _ c' => accumulated a b m n p (q + 1) c') c.
Proof.
  intros Hal Hm Hn Hp Hq Ha Hb Hda Hdb [Hc Hacc].
  eapply wp_mono; [apply mm_adds; [exact Hal|lia..| | |]|].
  - intros r s Hr Hs. unfold addr. rewrite Ha. nia.
  - intros r s Hr Hs. unfold addr. rewrite Hb. nia.
  - intros r s Hr Hs. unfold addr. rewrite Hc. nia.
  - intros [] c' [Hc' Hu]. split; [congruence|]. intros i j Hi Hj.
    destruct (Hacc i j Hi Hj) as (ps & Hs & Hok & Ht).
    specialize (Hu i j Hj ltac:(unfold addr; rewrite Hc; nia)).
    apply boxed_in in Hu; [|done..].
    exists (ps ++ prods a 0 p b 0 n i j 0 p).
    destruct (data_prods 0 p 0 n a b i j 0 p) as [Hok' _]; [lia| |].
    { intros k Hk. split; [by apply Hda|by apply Hdb]. }
    split; [|split].
    + replace (depth p * (q + 1)) with (depth p * q + depth p) by lia. by eapply summed_trans.
    + by apply Forall_app.
    + rewrite total_app, Ht, plus_IZR. unfold exact_sum. lra.
Qed.
End Main.

Section Thread.
Context {T : Type} `{Inhabited T} `{FloatOps T} `{!Rounding T}.

Lemma check_ok (a b : list T) m n p q c :
  0 <= p <= 100 -> 0 < q <= 8 -> lenZ a = m * p -> lenZ b = p * n ->
  (forall i j, 0 <= i < m -> 0 <= j < p -> datum (el a 0 p i j)) ->
  (forall i j, 0 <= i < p -> 0 <= j < n -> datum (el b 0 n i j)) ->
  q = 8 -> depth p * q <= 1000 -> accumulated a b m n p q c ->
  wp (check a b m n p) (fun found c' => c' = c /\ found = None) c.
Proof.
  intros Hp Hq Ha Hb Hda Hdb -> Hd [Hc Hacc]. unfold check.
  eapply wp_mono; [apply (wp_foldM _ _ (fun _ found c' => c' = c /\ found = None)); [done|]|done].
  intros pre [i j] todo found c' E [-> ->].
  assert ((i, j) ∈ cells m n) as Hij by (rewrite E; apply list.elem_of_app; right; left).
  apply elem_of_cells in Hij as [Hi Hj].
  destruct (Hacc i j Hi Hj) as (ps & Hs & Hok & Ht). destruct zero_value as [Hz Hz0].
  destruct (exact_sum_ok a b m n p Hp Hda Hdb i j p) as [Hsz Hle]; [done..|lia|].
  apply summed_close in Hs as [Hf Hap]; [|done|done|by left| |].
  - rewrite Hz0, Ht, Rplus_0_l in Hap.
    wp_call ltac:(apply (differs_ok a b m n p); try done).
    + eapply approx_weaken; [exact Hap|]. unfold error. apply Rmult_le_compat_r.
      { pose proof unit_roundoff_small. lra. }
      apply Rmult_le_compat_l; [lra|]. apply IZR_le. lia.
    + intros d ? [-> ->]. by apply wp_ret.
  - rewrite Hz0, Ht, Rplus_0_l. eapply Rle_trans; [apply Rmult_le_compat_l, Hle; lra|].
    rewrite <-mult_IZR. apply IZR_le. vm_compute. discriminate.
  - pose proof (error_small (depth p * 8) ltac:(lia)). lra.
Qed.

Lemma counter_difference x y : u32 (u32 (- x) + y) = u32 (y - x).
Proof. unfold u32. divlia. Qed.

(** C26: [thread_entry] ends with [exit(0)]: whatever the floating point numbers,
    if their operations round like those of a double, every element of [c] passes
    the comparison; the flops are those of one product, and the cycles and
    instructions are what went by in the last round. *)
Theorem mm_main_passes (alloca : Z -> list T) (read_csr : nat -> string -> Z) (s : locals) :
  (forall k, 0 <= k -> lenZ (alloca k) = k) ->
  lenZ (la s) = CBM * CBK -> lenZ (lb s) = CBK * CBN ->
  let elapsed k name := u32 (read_csr (k + 2)%nat name - read_csr k name) in
  elapsed 29%nat "mcycle"%string <> 0 ->
  wp (thread_entry alloca read_csr)
     (fun r _ => exit_code r = 0 /\ flops r = 28800 /\
        instructions r = s32 (elapsed 28%nat "minstret"%string) /\
        cycles r = s32 (elapsed 29%nat "mcycle"%string) /\
        Mflops r = s32 (28800000 / elapsed 29%nat "mcycle"%string)) s.
Proof.
  intros Hal Hla Hlb elapsed Hcyc. unfold thread_entry.
  apply wp_bind. unfold wp at 1, modify. destruct s as [a0 b0 c0 z0]. cbn [la lb lc seed] in *.
  apply wp_bind, wp_zoom. cbn [la lb lc seed].
  eapply wp_mono; [apply fill_ok; [done|done|done|done]|]. intros [] [a z1] (Hz1 & Ha & Hda).
  apply wp_bind, wp_zoom. cbn [la lb lc seed].
  eapply wp_mono; [apply fill_ok; [done|done|done|done]|]. intros [] [b z2] (Hz2 & Hb & Hdb).
  apply wp_bind, wp_zoom. cbn [la lb lc seed]. unfold wp at 1, modify.
  apply wp_bind, (wp_fold_for _ _ _ (fun q cs st => exists c, st = Locals a b c z2 /\
    accumulated a b CBM CBN CBK q c /\
    (q = 8 -> cs = (elapsed 28%nat "minstret"%string, elapsed 29%nat "mcycle"%string)))); [done| | |].
  - eexists. split; [done|]. split; [by apply accumulated_0|done].
  - intros q cs st Hq (c & -> & Hacc & _). unfold round.
    apply wp_bind, wp_eq with (1 := eq_refl). apply wp_bind, wp_zoom. cbn [la lb lc seed].
    eapply wp_mono; [apply (accumulated_round alloca a b CBM CBN CBK q c); try done; lia|].
    intros [] c' Hacc'. apply wp_ret. exists c'. split; [done|]. split; [done|].
    intros Hq8. assert (q = 7) as -> by lia. rewrite !counter_difference. done.
  - intros cs st (c & -> & Hacc & Hcs). rewrite Hcs by done.
    rewrite (proj2 (Z.eqb_neq _ 0) Hcyc).
    apply wp_bind, wp_eq with (1 := eq_refl). apply wp_bind, wp_zoom. cbn [la lb lc seed].
    eapply wp_mono; [by eapply (check_ok a b CBM CBN CBK R_)|].
    intros found ? [-> ->]. apply wp_ret. done.
Qed.
End Thread.

(** Real numbers, which need no rounding. *)
#[export] Instance R_inhabited : Inhabited R := populate 0%R.

Definition exact_real : FloatOps R := {|
  fzero := 0%R; fma x y z := (x * y + z)%R; fadd := Rplus; fsub := Rminus; fmul := Rmult;
  fabs := Rabs; fgt x y := if Rlt_dec y x then true else false;
  of_uint64 := IZR; of_int := IZR; literal_1e_6 := (/ 1000000)%R;
|}.

Lemma close_refl x : close x x.
Proof.
  unfold close. rewrite Rminus_diag, Rabs_R0. pose proof unit_roundoff_small as [Hu _].
  apply Rmult_le_pos; [lra|apply Rabs_pos].
Qed.

Definition exact_rounding : @Rounding R exact_real.
Proof.
  refine (@Build_Rounding R exact_real (fun x => x) (fun _ => True) _ _ _ _ _ _ _ _ _ _);
    intros; cbn; try (split; [done|]; by apply close_refl || done); try done.
  destruct (Rlt_dec y x); split; intros; [done..|exfalso; lra].
Defined.

Lemma mm_main_passes_witness :
  let fresh := Locals (replicate 576 0%R) (replicate 600 0%R) [] 0 in
  let tick := fun k (_ : string) => Z.of_nat k in
  wp (thread_entry (H0 := exact_real) (fun k => replicate (Z.to_nat k) 0%R) tick)
     (fun r _ => exit_code r = 0 /\ cycles r = 2 /\ Mflops r = 14400000) fresh.
Proof.
  intros fresh tick. eapply wp_mono.
  - apply (mm_main_passes (H0 := exact_real) (Rounding0 := exact_rounding)
      (fun k => replicate (Z.to_nat k) 0%R) tick fresh).
    + intros k Hk. unfold lenZ. rewrite length_replicate. lia.
    + unfold lenZ, fresh. cbn [la]. rewrite length_replicate. reflexivity.
    + unfold lenZ, fresh. cbn [lb]. rewrite length_replicate. reflexivity.
    + vm_compute. discriminate.
  - intros r s' (He & _ & _ & Hc & Hm). split; [exact He|]. split; [rewrite Hc|rewrite Hm]; reflexivity.
Defined.
