(* ===== verification/Phases.v ===== *)
(** * Threads that share memory between barriers

    The multi-threaded benchmarks run one program on every core.  Here a program
    is the sequence of its accesses to the shared array and of its calls of
    [barrier]; the threads interleave freely, and the barrier is the one of
    Barrier.v, statement by statement.

    A contract gives the owner of each element between two barriers and the
    contents at each of them.  If every thread keeps to the contract, seen alone,
    then so does every interleaving: no access is out of bounds, nothing blocks,
    every execution ends, and the threads exit with the codes of the contract. *)

From Stdlib Require Import ZArith Lia.
From stdpp Require Import base tactics list numbers.
From S2P Require Import Prelude CArray Barrier.

(** ** Programs and machines *)

(** The rest of a thread: its next access, [barrier], or [exit]. *)
Inductive cmd (D : Type) : Type :=
| Read (a : Z) (k : D -> cmd D)
| Write (a : Z) (v : D) (k : cmd D)
| Sync (k : cmd D)
| Exit (code : Z)
| Undefined.
Arguments Read {D}. Arguments Write {D}. Arguments Sync {D}. Arguments Exit {D}.
Arguments Undefined {D}.

Record machine (D : Type) := Machine { sync : barrier_state; mem : list D; progs : list (cmd D) }.
Arguments Machine {D}. Arguments sync {D}. Arguments mem {D}. Arguments progs {D}.

Section Machine.
Context {D : Type} `{Inhabited D} (ncores : Z).

(** A thread inside of [barrier] makes the barrier's steps; outside, its own. *)
Inductive mstep : machine D -> machine D -> Prop :=
| step_read i t a k v b m ps :
    threads b !! i = Some t -> at_ t = Outside -> ps !! i = Some (Read a k) ->
    fetch m a = Some v ->
    mstep (Machine b m ps) (Machine b m (<[i := k v]> ps))
| step_write i t a v k b m ps :
    threads b !! i = Some t -> at_ t = Outside -> ps !! i = Some (Write a v k) ->
    in_range m a = true ->
    mstep (Machine b m ps) (Machine b (setZ m a v) (<[i := k]> ps))
| step_sync i t t' k sn c sn' c' ts m ps :
    ts !! i = Some t -> ps !! i = Some (Sync k) ->
    act ncores Enter sn c t = Some (sn', c', t') ->
    mstep (Machine (State sn c ts) m ps) (Machine (State sn' c' (<[i := t']> ts)) m (<[i := k]> ps))
| step_barrier i a t t' sn c sn' c' ts m ps :
    a <> Enter -> ts !! i = Some t -> act ncores a sn c t = Some (sn', c', t') ->
    mstep (Machine (State sn c ts) m ps) (Machine (State sn' c' (<[i := t']> ts)) m ps).

Inductive runs (m0 : list D) (ps0 : list (cmd D)) : machine D -> Prop :=
| runs_initial : runs m0 ps0 (Machine (initial ncores) m0 ps0)
| runs_step s s' : runs m0 ps0 s -> mstep s s' -> runs m0 ps0 s'.

(** The next access of a thread is undefined. *)
Definition faulty (s : machine D) : Prop :=
  exists i t c, threads (sync s) !! i = Some t /\ at_ t = Outside /\ progs s !! i = Some c /\
    match c with
    | Read a _ | Write a _ _ => in_range (mem s) a = false
    | Undefined => True
    | _ => False
    end.

(** All threads have exited, with codes that satisfy [P]. *)
Definition all_exit (P : nat -> Z -> Prop) (s : machine D) : Prop :=
  forall i c, progs s !! i = Some c -> exists code, c = Exit code /\ P i code.

(** ** Contracts *)

(** [owner r a]: the only thread that may access [a] between its [r]-th call of
    [barrier] and the next, or [None] if all may read it; [contents r a]: what is
    there when these calls return; [exit_ok i code]: how thread [i] may exit. *)
Record contract := Contract {
  phases : nat;
  owner : nat -> Z -> option nat;
  contents : nat -> Z -> D;
  exit_ok : nat -> Z -> Prop;
}.

Context (C : contract) (n : Z).

(** An element only changes in a phase in which a thread owns it. *)
Definition well_formed : Prop :=
  forall r a, (r < phases C)%nat -> 0 <= a < n ->
    (exists j, owner C r a = Some j /\ Z.of_nat j < ncores) \/ contents C (S r) a = contents C r a.

Definition current (r : nat) (written : Z -> bool) (a : Z) : D :=
  if written a then contents C (S r) a else contents C r a.

(** Everything the thread had to write in the phase is written. *)
Definition all_written (r i : nat) (written : Z -> bool) : Prop :=
  forall a, 0 <= a < n -> owner C r a = Some i -> written a = false ->
    contents C (S r) a = contents C r a.

(** Thread [i], in phase [r], keeps to the contract from here on, if [written] is
    what it has written in the phase. *)
Fixpoint keeps (r i : nat) (written : Z -> bool) (c : cmd D) : Prop :=
  match c with
  | Read a k =>
      0 <= a < n /\ (owner C r a = Some i \/ owner C r a = None) /\
      keeps r i written (k (current r written a))
  | Write a v k =>
      0 <= a < n /\ owner C r a = Some i /\ v = contents C (S r) a /\
      keeps r i (fun b => (b =? a) || written b) k
  | Sync k => (r < phases C)%nat /\ all_written r i written /\ keeps (S r) i (fun _ => false) k
  | Exit code => r = phases C /\ (forall a, written a = false) /\ exit_ok C i code
  | Undefined => False
  end.

(** ** The invariant *)

(** Thread [i] when [r] rounds of the barrier are complete. *)
Definition thread_keeps (r i : nat) (t : thread) (c : cmd D) (written : Z -> bool) : Prop :=
  (forall a, written a = true -> owner C r a = Some i) /\
  ((entered t = r /\ keeps r i written c) \/
   (entered t = S r /\ (r < phases C)%nat /\ all_written r i written /\
    keeps (S r) i (fun _ => false) c)).

Record minv (r : nat) (ws : nat -> Z -> bool) (s : machine D) : Prop := {
  minv_barrier : inv ncores r (sync s);
  minv_phase : (r <= phases C)%nat;
  minv_len : lenZ (mem s) = n;
  minv_progs : Z.of_nat (length (progs s)) = ncores;
  minv_threads : forall i t c, threads (sync s) !! i = Some t -> progs s !! i = Some c ->
    thread_keeps r i t c (ws i);
  minv_mem : forall a, 0 <= a < n ->
    getZ (mem s) a = match owner C r a with
                     | Some j => if Z.of_nat j <? ncores then current r (ws j) a else contents C r a
                     | None => contents C r a
                     end;
}.

Hypothesis some_cores : 0 < ncores < 2147483648.
Hypothesis C_wf : well_formed.

Lemma minv_initial m0 ps0 :
  lenZ m0 = n -> Z.of_nat (length ps0) = ncores ->
  (forall a, 0 <= a < n -> getZ m0 a = contents C 0 a) ->
  (forall i c, ps0 !! i = Some c -> keeps 0 i (fun _ => false) c) ->
  minv 0 (fun _ _ => false) (Machine (initial ncores) m0 ps0).
Proof.
  intros Hm Hps Hcont Hk. split; cbn [sync mem progs].
  - by apply inv_initial.
  - lia.
  - done.
  - done.
  - intros i t c Ht Hc. apply lookup_replicate in Ht as [-> _].
    split; [done|]. left. split; [done|]. by apply Hk.
  - intros a Ha. rewrite Hcont by done. unfold current.
    destruct (owner C 0 a); [by destruct (_ <? _)|done].
Qed.

(** A thread outside of the barrier is in the current phase. *)
Lemma outside_keeps r ws s i t c :
  minv r ws s -> threads (sync s) !! i = Some t -> at_ t = Outside -> progs s !! i = Some c ->
  entered t = r /\ (forall a, ws i a = true -> owner C r a = Some i) /\ keeps r i (ws i) c.
Proof.
  intros Hi Ht Ho Hc. destruct (minv_threads _ _ _ Hi i t c Ht Hc) as [Hw Hk].
  destruct (inv_threads _ _ _ (minv_barrier _ _ _ Hi) i t Ht) as [_ Hok]. rewrite Ho in Hok.
  destruct Hok as [He _]. destruct Hk as [[_ Hk]|[He' _]]; [by split_and!|lia].
Qed.

Lemma thread_index r ws s i t :
  minv r ws s -> threads (sync s) !! i = Some t -> Z.of_nat i < ncores.
Proof.
  intros Hi Ht. apply lookup_lt_Some in Ht. pose proof (inv_len _ _ _ (minv_barrier _ _ _ Hi)). lia.
Qed.

Lemma minv_read r ws i t a k v b m ps :
  minv r ws (Machine b m ps) ->
  threads b !! i = Some t -> at_ t = Outside -> ps !! i = Some (Read a k) -> fetch m a = Some v ->
  minv r ws (Machine b m (<[i := k v]> ps)).
Proof.
  intros Hi Ht Ho Hc Hv.
  destruct (outside_keeps _ _ _ _ _ _ Hi Ht Ho Hc) as (He & Hw & Ha & Hown & Hk).
  pose proof (thread_index _ _ _ _ _ Hi Ht) as Hin.
  destruct Hi as [Hb Hp Hl Hn Hth Hm]. cbn [sync mem progs] in *.
  assert (v = current r (ws i) a) as ->.
  { rewrite fetch_Some in Hv by lia. injection Hv as <-. rewrite Hm by done.
    destruct Hown as [Hown|Hown]; rewrite Hown.
    - by rewrite (proj2 (Z.ltb_lt _ _)) by done.
    - unfold current. destruct (ws i a) eqn:E; [|done]. apply Hw in E. congruence. }
  split; cbn [sync mem progs]; [done..|by rewrite length_insert| |done].
  intros j u c Hu Hcj. apply list_lookup_insert_Some in Hcj as [(<- & <- & _)|[Hne Hcj]].
  - assert (u = t) as -> by congruence. split; [done|]. by left.
  - by eapply Hth.
Qed.

(** Only what is written matters. *)
Lemma keeps_ext r i w w' c : (forall a, w a = w' a) -> keeps r i w c -> keeps r i w' c.
Proof.
  revert r w w'. induction c as [a k IH|a v k IH|k IH|code|]; intros r w w' Hw; simpl.
  - intros (Ha & Ho & Hk). split_and!; [lia|lia|done|]. unfold current in *. rewrite <-Hw.
    by eapply IH.
  - intros (Ha & Ho & Hv & Hk). split_and!; [lia|lia|done..|]. eapply IH; [|exact Hk].
    intros b. cbv beta. by rewrite Hw.
  - intros (Hr & Haw & Hk). split_and!; [done| |done]. intros a Ha Ho Hwa. apply Haw; [done..|].
    by rewrite Hw.
  - intros (Hr & Hn & Hx). split_and!; [done| |done]. intros a. by rewrite <-Hw.
  - done.
Qed.

Lemma minv_write r ws i t a v k b m ps :
  minv r ws (Machine b m ps) ->
  threads b !! i = Some t -> at_ t = Outside -> ps !! i = Some (Write a v k) ->
  minv r (fun j => if decide (j = i) then fun c => (c =? a) || ws i c else ws j)
    (Machine b (setZ m a v) (<[i := k]> ps)).
Proof.
  intros Hi Ht Ho Hc.
  destruct (outside_keeps _ _ _ _ _ _ Hi Ht Ho Hc) as (He & Hw & Ha & Hown & -> & Hk).
  pose proof (thread_index _ _ _ _ _ Hi Ht) as Hin.
  destruct Hi as [Hb Hp Hl Hn Hth Hm]. cbn [sync mem progs] in *.
  split; cbn [sync mem progs]; [done|done|by rewrite setZ_length|by rewrite length_insert|..].
  - intros j u c Hu Hcj. apply list_lookup_insert_Some in Hcj as [(<- & <- & _)|[Hne Hcj]].
    + assert (u = t) as -> by congruence. split.
      * intros c. cbv beta. rewrite decide_True by done. intros [->%Z.eqb_eq|Hc']%orb_true_iff; [done|by apply Hw].
      * left. split; [done|]. cbv beta. by rewrite decide_True by done.
    + specialize (Hth j u c Hu Hcj). cbv beta. by rewrite decide_False by done.
  - intros c Hc'. destruct (decide (c = a)) as [->|Hne].
    + rewrite getZ_setZ by lia. rewrite Hown, (proj2 (Z.ltb_lt _ _)) by done. unfold current.
      by rewrite decide_True, Z.eqb_refl by done.
    + rewrite getZ_setZ_ne by lia. rewrite Hm by done. unfold current.
      destruct (owner C r c) as [j|]; [|done]. destruct (decide (j = i)) as [->|]; [|done].
      by rewrite (proj2 (Z.eqb_neq c a)) by done.
Qed.

Lemma parity_S r : parity (S r) <> parity r.
Proof. unfold parity. divlia. Qed.

Lemma minv_sync r ws i t t' k sn c sn' c' ts m ps :
  minv r ws (Machine (State sn c ts) m ps) ->
  ts !! i = Some t -> ps !! i = Some (Sync k) ->
  act ncores Enter sn c t = Some (sn', c', t') ->
  minv r ws (Machine (State sn' c' (<[i := t']> ts)) m (<[i := k]> ps)).
Proof.
  intros Hi Ht Hc Hact.
  assert (at_ t = Outside /\ sn' = sn /\ t' = Thread Arriving (lnot (threadsense t)) (S (entered t)) (left_ t))
    as (Ho & -> & Et').
  { unfold act in Hact. destruct (at_ t); [|discriminate..]. by injection Hact as <- <- <-. }
  destruct (outside_keeps _ _ _ _ _ _ Hi Ht Ho Hc) as (He & Hw & Hr & Haw & Hk).
  destruct Hi as [Hb Hp Hl Hn Hth Hm]. cbn [sync mem progs threads] in *.
  split; cbn [sync mem progs threads]; [|done..|by rewrite length_insert| |done].
  - destruct (inv_step ncores some_cores r _ _ Hb (step_thread ncores i Enter t t' sn c sn c' ts Ht Hact))
      as [Hb'|Hb']; [done|].
    pose proof (inv_sense _ _ _ Hb) as E1. pose proof (inv_sense _ _ _ Hb') as E2.
    cbn [sense] in *. exfalso. apply (parity_S r). congruence.
  - intros j u d Hu Hd.
    apply list_lookup_insert_Some in Hd as [(<- & <- & _)|[Hne Hd]].
    + apply list_lookup_insert_Some in Hu as [(_ & <- & _)|[? _]]; [|done].
      split; [done|]. right. subst t'. cbn [entered]. by rewrite He.
    + rewrite list_lookup_insert_ne in Hu by done. by eapply Hth.
Qed.

(** The barrier's own steps: a new phase starts when the last thread releases. *)
Lemma minv_barrier_step r ws i a t t' sn c sn' c' ts m ps :
  minv r ws (Machine (State sn c ts) m ps) ->
  a <> Enter -> ts !! i = Some t -> act ncores a sn c t = Some (sn', c', t') ->
  minv r ws (Machine (State sn' c' (<[i := t']> ts)) m ps) \/
  minv (S r) (fun _ _ => false) (Machine (State sn' c' (<[i := t']> ts)) m ps).
Proof.
  intros [Hb Hp Hl Hn Hth Hm] Ha Ht Hact. cbn [sync mem progs threads] in *.
  assert (entered t' = entered t) as He.
  { unfold act in Hact. destruct a, (at_ t); try discriminate; try done;
      repeat case_match; try discriminate; by injection Hact as <- <- <-. }
  assert (forall j u, <[i := t']> ts !! j = Some u -> exists u0, ts !! j = Some u0 /\
    entered u = entered u0) as Hsame.
  { intros j u Hu. apply list_lookup_insert_Some in Hu as [(<- & <- & _)|[_ Hu]]; eauto. }
  pose proof (step_thread ncores i a t t' sn c sn' c' ts Ht Hact) as Hst.
  destruct (inv_step ncores some_cores r _ _ Hb Hst) as [Hb'|Hb']; [left|right].
  - split; cbn [sync mem progs threads]; [done..| |done].
    intros j u d Hu Hd. apply Hsame in Hu as (u0 & Hu0 & Hu). specialize (Hth j u0 d Hu0 Hd).
    unfold thread_keeps in *. by rewrite Hu.
  - assert (forall j u d, <[i := t']> ts !! j = Some u -> ps !! j = Some d ->
      entered u = S r /\ (r < phases C)%nat /\ all_written r j (ws j) /\
      keeps (S r) j (fun _ => false) d) as Hnew.
    { intros j u d Hu Hd. destruct (inv_threads _ _ _ Hb' j u Hu) as [_ Hok].
      apply Hsame in Hu as (u0 & Hu0 & Hu). destruct (inv_threads _ _ _ Hb j u0 Hu0) as [_ Hok0].
      destruct (Hth j u0 d Hu0 Hd) as [_ [[He0 _]|(He0 & Hk)]].
      - exfalso. destruct (at_ u), (at_ u0); lia.
      - by rewrite Hu. }
    assert (0 < Z.of_nat (length ps)) as Hps by lia.
    destruct ps as [|d0 ps0] eqn:Eps; [simpl in Hps; lia|]. rewrite <-Eps in *.
    destruct (lookup_lt_is_Some_2 (<[i := t']> ts) 0) as [u0 Hu0].
    { rewrite length_insert. pose proof (inv_len _ _ _ Hb) as Hlt. cbn [threads] in Hlt. lia. }
    destruct (Hnew 0%nat u0 d0 Hu0 ltac:(by rewrite Eps)) as (_ & Hr & _).
    split; cbn [sync mem progs threads]; [done|lia|done|done|..].
    + intros j u d Hu Hd. destruct (Hnew j u d Hu Hd) as (Hen & _ & _ & Hk).
      split; [done|]. by left.
    + intros b Hbn. rewrite Hm by done.
      assert (match owner C r b with
              | Some j => if Z.of_nat j <? ncores then current r (ws j) b else contents C r b
              | None => contents C r b
              end = contents C (S r) b) as ->.
      { destruct (owner C r b) as [j|] eqn:Eo.
        - destruct (Z.ltb_spec (Z.of_nat j) ncores) as [Hj|Hj].
          + destruct (lookup_lt_is_Some_2 (<[i := t']> ts) j) as [u Hu].
            { rewrite length_insert. pose proof (inv_len _ _ _ Hb) as Hlt. cbn [threads] in Hlt. lia. }
            destruct (lookup_lt_is_Some_2 ps j) as [d Hd]; [lia|].
            destruct (Hnew j u d Hu Hd) as (_ & _ & Haw & _). unfold current.
            destruct (ws j b) eqn:Ew; [done|]. symmetry. by apply Haw.
          + symmetry. destruct (C_wf r b Hr Hbn) as [(j' & Eo' & Hj')|E]; [|done].
            rewrite Eo in Eo'. injection Eo' as <-. lia.
        - symmetry. destruct (C_wf r b Hr Hbn) as [(j' & Eo' & _)|E]; [congruence|done]. }
      unfold current. destruct (owner C (S r) b); [by destruct (_ <? _)|done].
Qed.

Lemma minv_step r ws s s' : minv r ws s -> mstep s s' -> exists r' ws', minv r' ws' s'.
Proof.
  intros Hi Hst. revert Hi. destruct Hst as [i t a k v b m ps Ht Ho Hc Hv|i t a v k b m ps Ht Ho Hc Hv|
    i t t' k sn c sn' c' ts m ps Ht Hc Hact|i a t t' sn c sn' c' ts m ps Ha Ht Hact]; intros Hi.
  - exists r, ws. by eapply minv_read.
  - eexists r, _. by eapply minv_write.
  - exists r, ws. by eapply minv_sync.
  - destruct (minv_barrier_step _ _ _ _ _ _ _ _ _ _ _ _ _ Hi Ha Ht Hact); eauto.
Qed.

(** ** Safety, the end, and progress *)

Definition finished (s : machine D) : Prop := all_exit (exit_ok C) s.

Lemma minv_safe r ws s : minv r ws s -> ~ faulty s.
Proof.
  intros Hi (i & t & c & Ht & Ho & Hc & Hf).
  destruct (outside_keeps _ _ _ _ _ _ Hi Ht Ho Hc) as (_ & _ & Hk).
  pose proof (minv_len _ _ _ Hi) as Hl.
  destruct c as [a k|a v k|k|code|]; try done; destruct Hk as [Ha _];
    rewrite in_range_true in Hf by lia; discriminate.
Qed.

(** The thread of a program. *)
Lemma minv_thread r ws s i c :
  minv r ws s -> progs s !! i = Some c -> exists t, threads (sync s) !! i = Some t.
Proof.
  intros Hi Hc. apply lookup_lt_is_Some_2. apply lookup_lt_Some in Hc.
  pose proof (inv_len _ _ _ (minv_barrier _ _ _ Hi)). pose proof (minv_progs _ _ _ Hi). lia.
Qed.

Lemma minv_program r ws s i t :
  minv r ws s -> threads (sync s) !! i = Some t -> exists c, progs s !! i = Some c.
Proof.
  intros Hi Ht. apply lookup_lt_is_Some_2. apply lookup_lt_Some in Ht.
  pose proof (inv_len _ _ _ (minv_barrier _ _ _ Hi)). pose proof (minv_progs _ _ _ Hi). lia.
Qed.

Lemma minv_finished r ws s :
  minv r ws s -> finished s -> forall a, 0 <= a < n -> getZ (mem s) a = contents C (phases C) a.
Proof.
  intros Hi Hfin a Ha. rewrite (minv_mem _ _ _ Hi) by done.
  assert (forall i, Z.of_nat i < ncores -> exists t,
    (r = phases C /\ forall b, ws i b = false) \/
    (entered t = S r /\ S r = phases C /\ all_written r i (ws i))) as Hall.
  { intros i Hin. destruct (lookup_lt_is_Some_2 (progs s) i) as [c Hc].
    { pose proof (minv_progs _ _ _ Hi). lia. }
    destruct (minv_thread _ _ _ _ _ Hi Hc) as [t Ht]. exists t.
    destruct (Hfin i c Hc) as (code & -> & _).
    destruct (minv_threads _ _ _ Hi i t _ Ht Hc) as [Hw [(_ & Hr & Hn & _)|(He & _ & Haw & Hr & _)]];
      [left|right]; done. }
  assert (contents C r a = contents C (phases C) a \/ S r = phases C) as Hcase.
  { destruct (Hall 0%nat ltac:(lia)) as [t [[-> _]|(_ & Hr & _)]]; [by left|by right]. }
  destruct (owner C r a) as [j|] eqn:Eo.
  - destruct (Z.ltb_spec (Z.of_nat j) ncores) as [Hj|Hj].
    + unfold current. destruct (Hall j Hj) as [t [[-> Hw]|(_ & Hr & Haw)]]; [by rewrite Hw|].
      rewrite <-Hr. destruct (ws j a) eqn:Ew; [done|]. symmetry. by apply Haw.
    + destruct Hcase as [|Hr]; [done|]. rewrite <-Hr.
      destruct (C_wf r a ltac:(lia) Ha) as [(j' & Eo' & Hj')|]; [|done].
      rewrite Eo in Eo'. injection Eo' as <-. lia.
  - destruct Hcase as [|Hr]; [done|]. rewrite <-Hr.
    destruct (C_wf r a ltac:(lia) Ha) as [(j' & Eo' & _)|]; [congruence|done].
Qed.

Definition is_exit (c : cmd D) : bool := match c with Exit _ => true | _ => false end.

(** A thread outside of the barrier that has not exited makes its step. *)
Lemma outside_steps r ws s i t c :
  minv r ws s -> threads (sync s) !! i = Some t -> at_ t = Outside -> progs s !! i = Some c ->
  is_exit c = false -> exists s', mstep s s'.
Proof.
  intros Hi Ht Ho Hc Hx. destruct (outside_keeps _ _ _ _ _ _ Hi Ht Ho Hc) as (_ & _ & Hk).
  pose proof (minv_len _ _ _ Hi) as Hl. destruct s as [[sn ct ts] m ps]. cbn in *.
  destruct c as [a k|a v k|k|code|]; try done.
  - destruct Hk as [Ha _]. eexists. eapply step_read; [done..|]. apply fetch_Some. lia.
  - destruct Hk as [Ha _]. eexists. eapply step_write; [done..|]. apply in_range_true. lia.
  - eexists. eapply step_sync; [done..|]. unfold act. by rewrite Ho.
Qed.

(** Once a thread has exited, the others leave the barrier. *)
Lemma inside_steps r ws s i t c :
  minv r ws s -> r = phases C -> threads (sync s) !! i = Some t -> progs s !! i = Some c ->
  at_ t <> Outside -> exists s', mstep s s'.
Proof.
  intros Hi Hr Ht Hc Ho. destruct (minv_threads _ _ _ Hi i t c Ht Hc) as [_ [(He & _)|(_ & Hlt & _)]];
    [|lia].
  destruct (inv_threads _ _ _ (minv_barrier _ _ _ Hi) i t Ht) as [Hts Hok].
  assert (at_ t = Spinning) as Hsp.
  { destruct (at_ t); [done|..|done]; lia. }
  pose proof (inv_sense _ _ _ (minv_barrier _ _ _ Hi)) as Hsn.
  destruct s as [[sn ct ts] m ps]. cbn [sync mem progs threads sense] in *.
  eexists. eapply (step_barrier i Leave); [done|done|]. unfold act. rewrite Hsp.
  by rewrite Hsn, Hts, He, Z.eqb_refl.
Qed.

Lemma minv_progress r ws s : minv r ws s -> finished s \/ exists s', mstep s s'.
Proof.
  intros Hi.
  destruct (decide (Exists (fun '(t, c) => at_ t = Outside /\ is_exit c = false)
    (zip (threads (sync s)) (progs s)))) as [Hex|Hnex].
  { right. apply list.Exists_exists in Hex as ([t c] & Hin & Ho & Hx).
    apply list_elem_of_lookup in Hin as [i Hin]. apply lookup_zip_with_Some in Hin as (t' & c' & E & Ht & Hc).
    injection E as <- <-. by eapply outside_steps. }
  assert (forall i t c, threads (sync s) !! i = Some t -> progs s !! i = Some c ->
    at_ t = Outside -> is_exit c = true) as Hexit.
  { intros i t c Ht Hc Ho. destruct (is_exit c) eqn:Hx; [done|]. exfalso. apply Hnex.
    apply list.Exists_exists. exists (t, c). split; [|done].
    apply list_elem_of_lookup. exists i. apply lookup_zip_with_Some. eauto. }
  destruct (decide (Exists (fun t => at_ t = Outside) (threads (sync s)))) as [Hout|Hin].
  - apply list.Exists_exists in Hout as (t & Hin & Ho). apply list_elem_of_lookup in Hin as [i Ht].
    destruct (minv_program _ _ _ _ _ Hi Ht) as [c Hc].
    pose proof (Hexit i t c Ht Hc Ho) as Hx. destruct c as [| | |code|]; try done.
    destruct (outside_keeps _ _ _ _ _ _ Hi Ht Ho Hc) as (_ & _ & Hr & _).
    destruct (decide (Exists (fun t => at_ t <> Outside) (threads (sync s)))) as [Hsome|Hnone].
    + right. apply list.Exists_exists in Hsome as (u & Hin & Hu).
      apply list_elem_of_lookup in Hin as [j Hj]. destruct (minv_program _ _ _ _ _ Hi Hj) as [d Hd].
      by eapply inside_steps.
    + left. intros j d Hd. destruct (minv_thread _ _ _ _ _ Hi Hd) as [u Hu].
      assert (at_ u = Outside) as Hou.
      { destruct (decide (at_ u = Outside)) as [|Hne]; [done|]. exfalso. apply Hnone.
        apply list.Exists_exists. exists u. split; [|done]. by eapply list_elem_of_lookup_2. }
      pose proof (Hexit j u d Hu Hd Hou) as Hxd. destruct d as [| | |code'|]; try done.
      exists code'. split; [done|].
      by destruct (outside_keeps _ _ _ _ _ _ Hi Hu Hou Hd) as (_ & _ & _ & _ & Hx').
  - right. destruct (inv_advances ncores r (sync s) (minv_barrier _ _ _ Hi)) as
      (i & a & t & [[sn' c'] t'] & Ha & Ht & Hact).
    { intros i t Ht Ho. apply Hin. apply list.Exists_exists. exists t. split; [|done].
      by eapply list_elem_of_lookup_2. }
    destruct s as [[sn ct ts] m ps]. cbn [sync threads sense count] in *.
    eexists. by eapply (step_barrier i a).
Qed.

End Machine.

(** ** Every execution ends *)

Section Termination.
Context {D : Type} `{Inhabited D} (ncores : Z).

(** How far a thread is from leaving the barrier. *)
Definition rank (p : place) : nat :=
  match p with Outside => 0 | Spinning => 1 | Releasing => 1 | Resetting => 2 | Arriving => 3 end.

(** One step of a thread: its program goes on, or it moves inside the barrier. *)
Inductive tstep : cmd D * place -> cmd D * place -> Prop :=
| tstep_read a k v p : tstep (k v, p) (Read a k, p)
| tstep_write a v k p : tstep (k, p) (Write a v k, p)
| tstep_sync k p p' : tstep (k, p') (Sync k, p)
| tstep_barrier c p p' : (rank p' < rank p)%nat -> tstep (c, p') (c, p).

Lemma Acc_tstep c p : Acc tstep (c, p).
Proof.
  revert p. induction c as [a k IH|a v k IH|k IH|code|]; intros p;
    lazymatch goal with |- Acc _ (?c, _) =>
      assert (forall m p, (rank p < m)%nat -> Acc tstep (c, p)) as Hall;
        [clear p; induction m as [|m IHm]; intros p Hp; [lia|]|by eapply (Hall (S (rank p))); lia]
    end;
    constructor; intros [c' p'] Hst; inversion Hst; subst; auto; apply IHm; lia.
Qed.

(** One of the threads makes a step. *)
Inductive lstep {X} (R : X -> X -> Prop) : list X -> list X -> Prop :=
| lstep_at l i x y : l !! i = Some x -> R y x -> lstep R (<[i := y]> l) l.

Lemma Acc_lstep {X} (R : X -> X -> Prop) l : Forall (Acc R) l -> Acc (lstep R) l.
Proof.
  induction 1 as [|x l Hx _ Hl].
  { constructor. intros l' Hs. inversion Hs; subst. done. }
  revert l Hl. induction Hx as [x _ IHx]. intros l Hl. pose proof Hl as Hl0.
  induction Hl as [l _ IHl]. constructor. intros l' Hs. inversion Hs as [? i z y Hz HR]; subst.
  destruct i as [|i]; simpl in *.
  - injection Hz as <-. by apply IHx.
  - apply IHl; [by econstructor|]. destruct Hl0 as [Hl0]. apply Hl0. by econstructor.
Qed.

(** The steps of the machine, seen as those of its threads. *)
Definition view (s : machine D) : list (cmd D * place) :=
  zip (progs s) (at_ <$> threads (sync s)).

Lemma view_insert i c t (ts : list thread) (ps : list (cmd D)) :
  zip (<[i := c]> ps) (at_ <$> <[i := t]> ts) = <[i := (c, at_ t)]> (zip ps (at_ <$> ts)).
Proof. by rewrite list_fmap_insert, insert_zip_with. Qed.

Lemma view_lookup i c t (ts : list thread) (ps : list (cmd D)) :
  ts !! i = Some t -> ps !! i = Some c -> zip ps (at_ <$> ts) !! i = Some (c, at_ t).
Proof.
  intros Ht Hc. apply lookup_zip_with_Some. exists c, (at_ t). split_and!; [done..|].
  by rewrite list_lookup_fmap, Ht.
Qed.

Lemma mstep_lengths (s s' : machine D) :
  mstep ncores s s' -> length (threads (sync s)) = length (progs s) ->
  length (threads (sync s')) = length (progs s').
Proof. destruct 1; cbn; rewrite ?length_insert; done. Qed.

Lemma mstep_view (s s' : machine D) :
  length (threads (sync s)) = length (progs s) -> mstep ncores s s' ->
  lstep tstep (view s') (view s).
Proof.
  intros Hlen Hst. unfold view.
  destruct Hst as [i t a k v b m ps Ht Ho Hc Hv|i t a v k b m ps Ht Ho Hc Hv|
    i t t' k sn c sn' c' ts m ps Ht Hc Hact|i a t t' sn c sn' c' ts m ps Ha Ht Hact];
    cbn [sync mem progs threads] in *.
  - rewrite <-(list_insert_id (threads b) i t Ht) at 1. rewrite view_insert.
    econstructor; [by apply view_lookup|constructor].
  - rewrite <-(list_insert_id (threads b) i t Ht) at 1. rewrite view_insert.
    econstructor; [by apply view_lookup|constructor].
  - rewrite view_insert. econstructor; [by apply view_lookup|constructor].
  - destruct (lookup_lt_is_Some_2 ps i) as [d Hd].
    { rewrite <-Hlen. by eapply lookup_lt_Some. }
    rewrite <-(list_insert_id ps i d Hd) at 1. rewrite view_insert.
    econstructor; [by apply view_lookup|]. constructor.
    unfold act in Hact. destruct a, (at_ t); try done; repeat case_match; try done;
      injection Hact as <- <- <-; simpl; try lia.
    all: by repeat case_match; simpl; lia.
Qed.

Lemma mstep_ends (s : machine D) :
  length (threads (sync s)) = length (progs s) -> Acc (fun s' s => mstep ncores s s') s.
Proof.
  assert (Acc (lstep tstep) (view s)) as Hacc.
  { apply Acc_lstep, list.Forall_forall. intros [c p] _. apply Acc_tstep. }
  remember (view s) as l eqn:E. revert s E.
  induction Hacc as [l _ IH]. intros s -> Hlen. constructor. intros s' Hst.
  eapply IH; [by apply mstep_view|done|by eapply mstep_lengths].
Qed.
End Termination.

(** ** Soundness of contracts *)

(** Threads that keep to a contract, each seen alone: in every interleaving no
    access is out of bounds, some thread can make a step until all have exited,
    with the codes and the contents of the contract, and no execution is
    infinite. *)
Lemma contract_sound {D} `{Inhabited D} ncores (C : contract) n (m0 : list D) ps0 s :
  0 < ncores < 2147483648 -> well_formed ncores C n ->
  lenZ m0 = n -> Z.of_nat (length ps0) = ncores ->
  (forall a, 0 <= a < n -> getZ m0 a = contents C 0 a) ->
  (forall i c, ps0 !! i = Some c -> keeps C n 0 i (fun _ => false) c) ->
  runs ncores m0 ps0 s ->
  ~ faulty s /\
  (finished C s \/ exists s', mstep ncores s s') /\
  (finished C s -> forall a, 0 <= a < n -> getZ (mem s) a = contents C (phases C) a) /\
  Acc (fun s' s => mstep ncores s s') s.
Proof.
  intros Hn Hwf Hm Hps Hcont Hk Hs.
  assert (exists r ws, minv ncores C n r ws s) as (r & ws & Hi).
  { induction Hs as [|s s' _ (r & ws & IH) Hst].
    - do 2 eexists. by apply minv_initial.
    - by eapply minv_step. }
  split_and!.
  - by eapply minv_safe.
  - by eapply minv_progress.
  - by eapply minv_finished.
  - apply mstep_ends. pose proof (inv_len _ _ _ (minv_barrier _ _ _ _ _ _ Hi)).
    pose proof (minv_progs _ _ _ _ _ _ Hi). lia.
Qed.
