(* ===== verification/MtBench.v ===== *)
(** * The multi-threaded benchmarks (sw/app/mt-vvadd, sw/app/mt-matmul)

    Every core runs [thread_entry]; the cores share [results_data] and meet at
    the barrier.  Each access to the shared array is one step of the machine of
    Phases.v.  [mt-vvadd] adds two vectors, each core its share of the elements;
    [mt-matmul] multiplies two matrices, each core a block of rows. *)

From Stdlib Require Import ZArith Lia.
From stdpp Require Import base tactics list numbers.
From S2P Require Import Prelude CArray Bench Kernels Grid Barrier Phases.

(** ** Programs *)

Section Programs.
Context {D : Type} `{Inhabited D} (add : D -> D -> D) (eqb : D -> D -> bool).

(** An array that is only read, or the shared one. *)
Inductive array := Const (l : list D) | Shared.

Definition load (x : array) (i : Z) (k : D -> cmd D) : cmd D :=
  match x with
  | Const l => match fetch l i with Some v => k v | None => Undefined end
  | Shared => Read i k
  end.

(** [for (i = coreid; i < n; i += ncores) z[i] = x[i] + y[i]], with [z] shared. *)
Definition vvadd (coreid ncores n : Z) (x y : array) (rest : cmd D) : cmd D :=
  foldr (fun i rest =>
    load x i (fun a => load y i (fun b => Write i (add a b) rest))) rest (steps coreid n ncores).

(** [verifyDouble] on the shared array. *)
Fixpoint verifyDouble_from (k : nat) (i : Z) (reference : list D)
    (return_ : Z -> cmd D) (rest : cmd D) : cmd D :=
  match k with
  | O => rest
  | S k =>
      Read i (fun t0 => Read (i + 1) (fun t1 =>
        load (Const reference) i (fun v0 => load (Const reference) (i + 1) (fun v1 =>
          let eq1 := eqb t0 v0 in
          let eq2 := eqb t1 v1 in
          if negb (eq1 && eq2) then return_ (i + 1 + (if eq1 then 1 else 0))
          else verifyDouble_from k (i + 2) reference return_ rest))))
  end.

Definition verifyDouble_shared (n : Z) (reference : list D) (return_ : Z -> cmd D) : cmd D :=
  verifyDouble_from (Z.to_nat (Z.quot n 2)) 0 reference return_
    (if negb (Z.rem n 2 =? 0) then
       Read (n - 1) (fun t => load (Const reference) (n - 1) (fun v =>
         if negb (eqb t v) then return_ n else return_ 0))
     else return_ 0).

(** [thread_entry] of mt-vvadd. *)
Definition check_first (cid n : Z) (reference : list D) (rest : cmd D) : cmd D :=
  if cid =? 0 then
    verifyDouble_shared n reference (fun res => if negb (res =? 0) then Exit res else rest)
  else rest.

Definition copy_input (cid n : Z) (input1 : list D) (rest : cmd D) : cmd D :=
  if cid =? 0 then
    foldr (fun i rest => load (Const input1) i (fun v => Write i v rest)) rest (seqZ 0 n)
  else rest.

Definition vvadd_thread (n : Z) (input1 input2 verify_data : list D) (cid nc : Z) : cmd D :=
  Sync (
  vvadd cid nc n (Const input1) (Const input2) (
  Sync (
  check_first cid n verify_data (
  copy_input cid n input1 (
  Sync (
  vvadd cid nc n Shared (Const input2) (
  Sync (
  check_first cid n verify_data (
  Sync (
  Exit 0)))))))))).
End Programs.

(** The program of every core. *)
Definition cores {D} (nc : Z) (thread_entry : Z -> Z -> cmd D) : list (cmd D) :=
  map (fun cid => thread_entry cid nc) (seqZ 0 nc).

(** [verify] on the shared array. *)
Fixpoint verify_from (k : nat) (i : Z) (reference : list Z)
    (return_ : Z -> cmd Z) (rest : cmd Z) : cmd Z :=
  match k with
  | O => rest
  | S k =>
      Read i (fun t0 => Read (i + 1) (fun t1 =>
        load (Const reference) i (fun v0 => load (Const reference) (i + 1) (fun v1 =>
          if negb (t0 =? v0) then return_ (i + 1)
          else if negb (t1 =? v1) then return_ (i + 2)
          else verify_from k (i + 2) reference return_ rest))))
  end.

Definition verify_shared (n : Z) (reference : list Z) (return_ : Z -> cmd Z) : cmd Z :=
  verify_from (Z.to_nat (Z.quot n 2)) 0 reference return_
    (if negb (Z.rem n 2 =? 0) then
       Read (n - 1) (fun t => load (Const reference) (n - 1) (fun v =>
         if negb (t =? v) then return_ n else return_ 0))
     else return_ 0).

(** [int] multiplication, undefined where it overflows. *)
Definition int_mul (a b : Z) : option Z :=
  if (-2147483648 <=? a * b) && (a * b <? 2147483648) then Some (a * b) else None.

(** [sum += A[j*lda + k] * B[k*lda + i]] for every [k]. *)
Fixpoint matmul_sum (A B : list Z) (lda i j : Z) (ks : list Z) (sum : Z) : option Z :=
  match ks with
  | [] => Some sum
  | k :: ks =>
      x ← fetch A (j * lda + k); y ← fetch B (k * lda + i);
      xy ← int_mul x y; sum ← int_add sum xy;
      matmul_sum A B lda i j ks sum
  end.

Definition matmul (coreid ncores lda : Z) (A B : list Z) (rest : cmd Z) : cmd Z :=
  let block := lda / ncores in
  let start := block * coreid in
  foldr (fun i rest =>
    foldr (fun j rest =>
      match matmul_sum A B lda i j (seqZ 0 lda) 0 with
      | Some sum => Write (i + j * lda) sum rest
      | None => Undefined
      end) rest (seqZ start block)) rest (seqZ 0 lda).

Definition matmul_thread (lda : Z) (A B verify_data : list Z) (cid nc : Z) : cmd Z :=
  matmul cid nc lda A B (Sync (verify_shared (lda * lda) verify_data (fun res => Exit res))).

(** ** Loops that keep to a contract *)

Section Keeps.
Context {D : Type} `{Inhabited D} (C : contract (D := D)) (n : Z) (r i : nat).

(** A loop whose rounds each write one element of the thread, once. *)
Lemma keeps_loop {X} (body : X -> cmd D -> cmd D) (at_ : X -> Z) l w rest :
  NoDup (at_ <$> l) ->
  (forall x, x ∈ l -> w (at_ x) = false) ->
  (forall x w rest, x ∈ l -> w (at_ x) = false ->
     keeps C n r i (fun b => (b =? at_ x) || w b) rest -> keeps C n r i w (body x rest)) ->
  keeps C n r i (fun b => bool_decide (b ∈ at_ <$> l) || w b) rest ->
  keeps C n r i w (foldr body rest l).
Proof.
  intros Hnd Hw Hbody Hrest. revert w Hw Hrest.
  induction l as [|x l IH]; intros w Hw Hrest; cbn [foldr fmap list_fmap] in *.
  { eapply keeps_ext; [|exact Hrest]. intros b. cbv beta.
    by rewrite bool_decide_eq_false_2 by apply list.not_elem_of_nil. }
  apply list.NoDup_cons in Hnd as [Hx Hnd].
  apply Hbody; [left|by apply Hw; left|]. apply IH; [done|..].
  - intros y w' rest' Hy. apply Hbody. by right.
  - intros y Hy. apply orb_false_iff. split; [|by apply Hw; right].
    apply Z.eqb_neq. intros E. apply Hx. rewrite <-E. by apply list_elem_of_fmap_2.
  - eapply keeps_ext; [|exact Hrest]. intros b. cbv beta. rewrite orb_assoc. f_equal.
    apply Bool.eq_iff_eq_true. rewrite orb_true_iff, !bool_decide_eq_true, Z.eqb_eq, list.elem_of_cons.
    tauto.
Qed.

(** The self check, where the thread may read all the elements: [vals]. *)
Section Verify.
Context (eqb : D -> D -> bool) (reference vals : list D) (w : Z -> bool).
Context (readable : forall a, 0 <= a < n -> owner C r a = Some i \/ owner C r a = None).
Context (len_vals : lenZ vals = n) (len_reference : n <= lenZ reference).
Context (contents_vals : forall a, 0 <= a < n -> current C r w a = getZ vals a).

Lemma keeps_verifyDouble_from k a return_ rest res :
  0 <= a -> a + 2 * Z.of_nat k <= n ->
  verifyDouble_pairs eqb k a vals reference = Some res ->
  (res <> 0 -> keeps C n r i w (return_ res)) -> (res = 0 -> keeps C n r i w rest) ->
  keeps C n r i w (verifyDouble_from eqb k a reference return_ rest).
Proof.
  revert a. induction k as [|k IH]; intros a Ha Hk E Hret Hrest.
  { simpl in *. injection E as <-. by apply Hrest. }
  cbn [verifyDouble_pairs verifyDouble_from load keeps] in *.
  rewrite !fetch_Some in * by lia. cbn [mbind option_bind] in E.
  split; [lia|]. split; [apply readable; lia|]. split; [lia|]. split; [apply readable; lia|].
  cbv zeta in *. rewrite !contents_vals by lia.
  destruct (eqb (getZ vals a) _); simpl in *.
  - destruct (eqb (getZ vals (a + 1)) _); simpl in *; [|injection E as <-; apply Hret; lia].
    apply IH; [lia|lia|done..].
  - injection E as <-. apply Hret. lia.
Qed.

Lemma keeps_verifyDouble return_ res :
  0 <= n -> verifyDouble eqb n vals reference = Some res ->
  keeps C n r i w (return_ res) ->
  keeps C n r i w (verifyDouble_shared eqb n reference return_).
Proof.
  intros Hn E Hret. unfold verifyDouble in E. unfold verifyDouble_shared.
  pose proof (Z.quot_rem' n 2) as Hdiv. pose proof (Z.rem_bound_pos n 2 Hn ltac:(lia)) as Hrem.
  pose proof (Z.quot_pos n 2 Hn ltac:(lia)) as Hq.
  destruct (verifyDouble_pairs eqb (Z.to_nat (n ÷ 2)) 0 vals reference) as [p|] eqn:Ep; [|done].
  cbn [mbind option_bind] in E.
  eapply keeps_verifyDouble_from; [done|lia|exact Ep|..].
  - intros Hp. rewrite (proj2 (Z.eqb_neq p 0) Hp) in E. simpl in E. by injection E as ->.
  - intros ->. rewrite Z.eqb_refl in E. simpl in E.
    destruct (Z.eqb_spec (Z.rem n 2) 0) as [E0|E0]; simpl in *; [by injection E as <-|].
    split; [lia|]. split; [apply readable; lia|]. unfold load.
    rewrite !fetch_Some in * by lia. cbn [mbind option_bind] in E. rewrite contents_vals by lia.
    by destruct (eqb _ _); simpl in *; injection E as <-.
Qed.
End Verify.
End Keeps.

Lemma keeps_verify_from (C : contract (D := Z)) n r i w k a reference return_ rest :
  keeps C n r i w (verifyDouble_from Z.eqb k a reference return_ rest) ->
  keeps C n r i w (verify_from k a reference return_ rest).
Proof.
  revert a. induction k as [|k IH]; intros a; [done|].
  cbn [verifyDouble_from verify_from keeps load].
  intros (Ha & Ho & Ha' & Ho' & Hk). split; [done|]. split; [done|]. split; [done|]. split; [done|].
  revert Hk. cbv zeta. destruct (fetch reference a) as [v0|]; [|done].
  destruct (fetch reference (a + 1)) as [v1|]; [|done].
  destruct (_ =? v0); simpl; [|by rewrite Z.add_0_r].
  destruct (_ =? v1); simpl; [apply IH|]. by rewrite <-Z.add_assoc.
Qed.

Lemma keeps_verify (C : contract (D := Z)) n r i w reference vals return_ res :
  (forall a, 0 <= a < n -> owner C r a = Some i \/ owner C r a = None) ->
  lenZ vals = n -> n <= lenZ reference -> 0 <= n ->
  (forall a, 0 <= a < n -> current C r w a = getZ vals a) ->
  verify n vals reference = Some res -> keeps C n r i w (return_ res) ->
  keeps C n r i w (verify_shared n reference return_).
Proof.
  intros Hro Hv Href Hn Hc E Hret. rewrite verify_Double in E.
  apply keeps_verify_from. by eapply (keeps_verifyDouble C n r i Z.eqb reference vals w).
Qed.

(** The rounds of a loop that advances by [d]. *)
Lemma elem_of_steps lo hi d a :
  0 < d -> a ∈ steps lo hi d <-> exists q, 0 <= q /\ a = lo + q * d /\ a < hi.
Proof.
  intros Hd. unfold steps. split.
  - intros Ha. apply list_elem_of_fmap in Ha as (q & -> & Hq). apply elem_of_seqZ in Hq.
    exists q. split; [lia|]. split; [done|].
    pose proof (Z.mul_div_le (hi - lo + d - 1) d Hd). nia.
  - intros (q & Hq & -> & Hlt). apply list_elem_of_fmap. exists q. split; [done|].
    apply elem_of_seqZ. split; [done|]. rewrite Z.add_0_l.
    apply Z.lt_le_trans with (q + 1); [lia|]. apply Z.div_le_lower_bound; lia.
Qed.

Lemma NoDup_steps lo hi d : 0 < d -> NoDup (steps lo hi d).
Proof.
  intros Hd. unfold steps. apply NoDup_fmap_2; [|apply NoDup_seqZ]. intros q q' E. nia.
Qed.

(** ** mt-vvadd *)

Section VvaddProof.
Context {D : Type} `{Inhabited D} (add : D -> D -> D) (eqb : D -> D -> bool).

(** What an operand reads at [a] in phase [r], if the thread has not written it. *)
Definition operand (C : contract) (r : nat) (x : array) (a : Z) : D :=
  match x with Const l => getZ l a | Shared => contents C r a end.
Definition operand_ok (n : Z) (x : array (D := D)) : Prop :=
  match x with Const l => n <= lenZ l | Shared => True end.

Lemma keeps_load C n r i w x a k :
  0 <= a < n -> owner C r a = Some i -> w a = false -> operand_ok n x ->
  keeps C n r i w (k (operand C r x a)) -> keeps C n r i w (load x a k).
Proof.
  intros Ha Ho Hw Hx Hk. destruct x as [l|]; simpl in *.
  - by rewrite fetch_Some by lia.
  - unfold current. rewrite Hw. split; [lia|]. split; [by left|done].
Qed.

Lemma keeps_vvadd C n nc r i x y rest :
  0 < nc -> Z.of_nat i < nc -> (r < phases C)%nat ->
  (forall a, 0 <= a < n -> owner C r a = Some (Z.to_nat (a mod nc))) ->
  operand_ok n x -> operand_ok n y ->
  (forall a, 0 <= a < n -> add (operand C r x a) (operand C r y a) = contents C (S r) a) ->
  keeps C n (S r) i (fun _ => false) rest ->
  keeps C n r i (fun _ => false) (vvadd add (Z.of_nat i) nc n x y (Sync rest)).
Proof.
  intros Hnc Hi Hr Hown Hx Hy Hsum Hrest. unfold vvadd.
  assert (forall a, a ∈ steps (Z.of_nat i) n nc <-> 0 <= a < n /\ a mod nc = Z.of_nat i) as Hin.
  { intros a. rewrite elem_of_steps by done. split.
    - intros (q & Hq & -> & Hlt). split; [lia|]. rewrite Z.mod_add by lia. apply Z.mod_small. lia.
    - intros [Ha Hm]. exists (a / nc). split; [apply Z.div_pos; lia|].
      pose proof (Z.div_mod a nc ltac:(lia)). split; [lia|lia]. }
  apply (keeps_loop C n r i _ id).
  - rewrite list_fmap_id. by apply NoDup_steps.
  - done.
  - intros a w rest' Ha Hw Hk. apply Hin in Ha as [Ha Hm]. unfold id in *.
    assert (owner C r a = Some i) as Ho by (rewrite Hown, Hm, Nat2Z.id by done; done).
    apply keeps_load; [done..|]. apply keeps_load; [done..|].
    simpl. split; [lia|]. split; [done|]. split; [by apply Hsum|done].
  - rewrite list_fmap_id. simpl. split; [done|]. split; [|done].
    intros a Ha Ho Hw. exfalso. apply orb_false_iff in Hw as [Hw _].
    apply bool_decide_eq_false in Hw. apply Hw, Hin. split; [done|].
    rewrite Hown in Ho by done. injection Ho as <-. rewrite Z2Nat.id; [done|].
    apply Z.mod_pos_bound. lia.
Qed.

Context (n nc : Z) (x y verify_data m0 : list D).
Context (some_cores : 0 < nc < 2147483648) (some_n : 0 <= n).
Context (len_x : n <= lenZ x) (len_y : n <= lenZ y) (len_v : n <= lenZ verify_data).
Context (len_m : lenZ m0 = n).

Definition sum_at (a : Z) : D := add (getZ x a) (getZ y a).
Context (data_ok : forall a, 0 <= a < n -> eqb (sum_at a) (getZ verify_data a) = true).

(** The five phases: before the first barrier; the sum; the check and the copy by
    core 0; the sum in place; the check; the exit. *)
Definition vvadd_contract : contract := {|
  phases := 5;
  owner r a := match r with
               | 1 | 3 => Some (Z.to_nat (a mod nc))
               | 2 | 4 => Some 0
               | _ => None
               end%nat;
  contents r a := match r with
                  | 0 | 1 => getZ m0 a
                  | 3 => getZ x a
                  | _ => sum_at a
                  end%nat;
  exit_ok _ code := code = 0;
|}.

Lemma vvadd_contract_wf : well_formed nc vvadd_contract n.
Proof.
  intros r a Hr Ha. simpl in Hr. pose proof (Z.mod_pos_bound a nc ltac:(lia)).
  do 5 (destruct r as [|r]; [simpl; first [by right|left; eexists; split; [done|lia]]|]). lia.
Qed.

(** The check finds no difference in phases 2 and 4. *)
Lemma keeps_check_first r rest i :
  r = 2%nat \/ r = 4%nat -> keeps vvadd_contract n r i (fun _ => false) rest ->
  keeps vvadd_contract n r i (fun _ => false)
    (check_first eqb (Z.of_nat i) n verify_data rest).
Proof.
  intros Hr Hrest. unfold check_first. destruct (Z.eqb_spec (Z.of_nat i) 0) as [Hi|]; [|done].
  assert (i = 0%nat) as -> by lia.
  set (vals := map sum_at (seqZ 0 n)).
  assert (lenZ vals = n) as Hlen by (unfold vals, lenZ; rewrite length_map, length_seqZ; lia).
  assert (forall a, 0 <= a < n -> getZ vals a = sum_at a) as Hvals.
  { intros a Ha. unfold getZ, vals. apply list_lookup_total_correct, list_lookup_fmap_Some.
    exists a. split; [done|]. apply lookup_seqZ. lia. }
  destruct (verifyDouble_spec eqb vals verify_data n) as (k & Hk & Hk0 & Hd & _); [lia..|].
  eapply (keeps_verifyDouble _ n r 0 eqb verify_data vals); [|done|done| |done|exact Hk|].
  - intros a Ha. left. by destruct Hr as [->| ->].
  - intros a Ha. rewrite Hvals by done. unfold current. by destruct Hr as [->| ->].
  - destruct (Z.eqb_spec k 0) as [->|Hne]; simpl; [done|]. exfalso.
    specialize (Hd Hne). rewrite Hvals, data_ok in Hd by lia. done.
Qed.

Lemma vvadd_thread_keeps i :
  Z.of_nat i < nc ->
  keeps vvadd_contract n 0 i (fun _ => false)
    (vvadd_thread add eqb n x y verify_data (Z.of_nat i) nc).
Proof.
  intros Hi. unfold vvadd_thread. cbn [keeps]. split; [simpl; lia|]. split; [done|].
  apply keeps_vvadd; [lia|done|simpl; lia|done|done|done|done|].
  apply keeps_check_first; [by left|]. unfold copy_input.
  assert (Hlater : keeps vvadd_contract n 3 i (fun _ => false)
    (vvadd add (Z.of_nat i) nc n Shared (Const y)
      (Sync (check_first eqb (Z.of_nat i) n verify_data (Sync (Exit 0)))))).
  { apply keeps_vvadd; [lia|done|simpl; lia|done|done|done|done|].
    apply keeps_check_first; [by right|]. cbn [keeps]. split; [simpl; lia|].
    split; [by intros a|]. done. }
  destruct (Z.eqb_spec (Z.of_nat i) 0) as [Hi0|Hne].
  - assert (i = 0%nat) as -> by lia.
    apply (keeps_loop vvadd_contract n 2 0 _ id).
    + rewrite list_fmap_id. apply NoDup_seqZ.
    + done.
    + intros a w rest Ha Hw Hk. apply elem_of_seqZ in Ha. unfold load.
      rewrite fetch_Some by lia. simpl. split; [lia|]. by split_and!.
    + rewrite list_fmap_id. cbn [keeps]. split; [simpl; lia|]. split; [|done].
      intros a Ha _ Hw. exfalso. apply orb_false_iff in Hw as [Hw _].
      apply bool_decide_eq_false in Hw. apply Hw, elem_of_seqZ. lia.
  - cbn [keeps]. split; [simpl; lia|]. split; [|done].
    intros a Ha Ho. simpl in Ho. injection Ho as <-. lia.
Qed.
End VvaddProof.

(** C24: mt-vvadd: on any number of cores and in every interleaving, no access is
    out of bounds, no core blocks, every execution ends, all cores exit with 0
    and [results_data] holds the sums, in the first addition and in the one in
    place, if the reference data is right. *)
Theorem mt_vvadd_adds {D} `{Inhabited D} (add : D -> D -> D) (eqb : D -> D -> bool)
    n nc (x y verify_data m0 : list D) s :
  0 < nc < 2147483648 -> 0 <= n ->
  n <= lenZ x -> n <= lenZ y -> n <= lenZ verify_data -> lenZ m0 = n ->
  (forall a, 0 <= a < n -> eqb (add (getZ x a) (getZ y a)) (getZ verify_data a) = true) ->
  runs nc m0 (cores nc (vvadd_thread add eqb n x y verify_data)) s ->
  ~ faulty s /\
  (all_exit (fun _ code => code = 0) s \/ exists s', mstep nc s s') /\
  (all_exit (fun _ code => code = 0) s ->
     forall a, 0 <= a < n -> getZ (mem s) a = add (getZ x a) (getZ y a)) /\
  Acc (fun s' s => mstep nc s s') s.
Proof.
  intros Hnc Hn Hx Hy Hv Hm Hdata Hs.
  apply (contract_sound nc (vvadd_contract add nc x y m0) n) in Hs; [exact Hs|done|..].
  - by apply vvadd_contract_wf.
  - done.
  - unfold cores. rewrite length_map, length_seqZ. lia.
  - done.
  - intros i c Hc. apply list_lookup_fmap_Some in Hc as (cid & -> & Hc).
    apply lookup_seqZ in Hc as [-> Hi]. by apply vvadd_thread_keeps.
Qed.

Lemma mt_vvadd_adds_witness :
  let s := Machine (initial 2) [0; 0; 0]
             (cores 2 (vvadd_thread Z.add Z.eqb 3 [1; 2; 3] [10; 20; 30] [11; 22; 33])) in
  ~ faulty s /\ Acc (fun s' s => mstep 2 s s') s.
Proof.
  intros s.
  destruct (mt_vvadd_adds Z.add Z.eqb 3 2 [1; 2; 3] [10; 20; 30] [11; 22; 33] [0; 0; 0] s)
    as (Hf & _ & _ & Hacc); try (unfold lenZ; cbn; lia).
  - intros a Ha. assert (a = 0 \/ a = 1 \/ a = 2) as [->|[->| ->]] by lia; reflexivity.
  - apply runs_initial.
  - exact (conj Hf Hacc).
Defined.

(** ** mt-matmul *)

(** Row [j] of [A] times column [i] of [B]. *)
Definition dot (A B : list Z) (lda i j : Z) : Z :=
  foldr Z.add 0 (map (fun k => getZ A (j * lda + k) * getZ B (k * lda + i)) (seqZ 0 lda)).

(** What the element at [a] becomes: the cores only compute the first
    [nc * (lda / nc)] rows. *)
Definition product_at (nc lda : Z) (A B m0 : list Z) (a : Z) : Z :=
  if a / lda <? nc * (lda / nc) then dot A B lda (a mod lda) (a / lda) else getZ m0 a.

Definition product (nc lda : Z) (A B m0 : list Z) : list Z :=
  map (product_at nc lda A B m0) (seqZ 0 (lda * lda)).

Section MatmulProof.
Context (nc lda bound : Z) (A B verify_data m0 : list Z).
Context (some_cores : 0 < nc < 2147483648) (some_lda : 0 <= lda) (some_bound : 0 <= bound).
Context (len_A : lda * lda <= lenZ A) (len_B : lda * lda <= lenZ B).
Context (len_v : lda * lda <= lenZ verify_data) (len_m : lenZ m0 = lda * lda).
Context (small_A : forall a, 0 <= a < lda * lda -> -bound <= getZ A a <= bound).
Context (small_B : forall a, 0 <= a < lda * lda -> -bound <= getZ B a <= bound).
Context (no_overflow : lda * (bound * bound) < 2147483648).

Let block : Z := lda / nc.

Lemma matmul_sum_ok i j ks sum :
  0 <= i < lda -> 0 <= j < lda -> (forall k, k ∈ ks -> 0 <= k < lda) -> lenZ ks <= lda ->
  - ((lda - lenZ ks) * (bound * bound)) <= sum <= (lda - lenZ ks) * (bound * bound) ->
  matmul_sum A B lda i j ks sum =
    Some (sum + foldr Z.add 0 (map (fun k => getZ A (j * lda + k) * getZ B (k * lda + i)) ks)).
Proof.
  intros Hi Hj. revert sum. induction ks as [|k ks IH]; intros sum Hks Hlen Hsum; simpl.
  { by rewrite Z.add_0_r. }
  assert (0 <= k < lda) as Hk by (apply Hks; left).
  rewrite lenZ_cons in *. pose proof (lenZ_nonneg ks).
  assert (0 <= j * lda + k < lda * lda) as Ha by nia.
  assert (0 <= k * lda + i < lda * lda) as Hb by nia.
  rewrite !fetch_Some by lia. cbn [mbind option_bind].
  pose proof (small_A _ Ha) as HA. pose proof (small_B _ Hb) as HB.
  set (x := getZ A (j * lda + k)) in *. set (y := getZ B (k * lda + i)) in *.
  assert (- (bound * bound) <= x * y <= bound * bound) as Hxy by nia.
  assert (0 <= bound * bound) as Hbb by nia.
  assert ((lda - (lenZ ks + 1)) * (bound * bound) + bound * bound =
          (lda - lenZ ks) * (bound * bound)) as Hstep by lia.
  assert ((lda - lenZ ks) * (bound * bound) <= lda * (bound * bound)) as Htop by nia.
  assert (bound * bound <= lda * (bound * bound)) as Hone by nia.
  assert (int_mul x y = Some (x * y)) as ->.
  { unfold int_mul. by replace ((-2147483648 <=? x * y) && (x * y <? 2147483648)) with true by lia. }
  cbn [mbind option_bind]. rewrite int_add_Some by (unfold int; lia). cbn [mbind option_bind].
  rewrite IH; [f_equal; lia| |lia|lia]. intros k' Hk'. apply Hks. by right.
Qed.

Lemma matmul_dot i j :
  0 <= i < lda -> 0 <= j < lda -> matmul_sum A B lda i j (seqZ 0 lda) 0 = Some (dot A B lda i j).
Proof.
  intros Hi Hj. rewrite matmul_sum_ok; [done|done|done|..].
  - intros k Hk. apply elem_of_seqZ in Hk. lia.
  - unfold lenZ. rewrite length_seqZ. lia.
  - unfold lenZ. rewrite length_seqZ, Z2Nat.id by lia. lia.
Qed.

(** One phase of products, each row owned by the core whose block it is in; then
    the check, in which everyone reads. *)
Definition matmul_contract : contract := {|
  phases := 1;
  owner r a := match r with
               | O => if a / lda <? nc * block then Some (Z.to_nat (a / lda / block)) else None
               | _ => None
               end;
  contents r a := match r with O => getZ m0 a | _ => product_at nc lda A B m0 a end;
  exit_ok _ code :=
    first_difference Z.eqb (lda * lda) (product nc lda A B m0) verify_data code;
|}.

Lemma row_bounds a : 0 <= a < lda * lda -> 0 <= a / lda < lda /\ 0 <= a mod lda < lda /\ 0 < lda.
Proof.
  intros Ha. assert (0 < lda) by nia. split; [|split; [by apply Z.mod_pos_bound|done]].
  split; [apply Z.div_pos; lia|apply Z.div_lt_upper_bound; lia].
Qed.

Lemma block_bounds : 0 <= block /\ nc * block <= lda.
Proof. unfold block. split; [apply Z.div_pos; lia|apply Z.mul_div_le; lia]. Qed.

Lemma matmul_contract_wf : well_formed nc matmul_contract (lda * lda).
Proof.
  intros r a Hr Ha. simpl in Hr. assert (r = O) as -> by lia. simpl.
  destruct (row_bounds a Ha) as (Hrow & _ & _). destruct block_bounds as [Hb _].
  unfold product_at. fold block. destruct (Z.ltb_spec (a / lda) (nc * block)); [left|by right].
  eexists. split; [done|]. assert (0 < block) by nia.
  rewrite Z2Nat.id by (apply Z.div_pos; lia). apply Z.div_lt_upper_bound; lia.
Qed.

Lemma matmul_thread_keeps c :
  Z.of_nat c < nc ->
  keeps matmul_contract (lda * lda) 0 c (fun _ => false)
    (matmul_thread lda A B verify_data (Z.of_nat c) nc).
Proof.
  intros Hc. destruct block_bounds as [Hb Hble]. unfold matmul_thread, matmul. fold block.
  set (rest := Sync _).
  set (row := seqZ (block * Z.of_nat c) block).
  assert (forall l, foldr (fun i rest => foldr (fun j rest =>
      match matmul_sum A B lda i j (seqZ 0 lda) 0 with
      | Some sum => Write (i + j * lda) sum rest
      | None => Undefined
      end) rest row) rest l =
    foldr (fun '(i, j) rest =>
      match matmul_sum A B lda i j (seqZ 0 lda) 0 with
      | Some sum => Write (i + j * lda) sum rest
      | None => Undefined
      end) rest (flat_map (fun i => map (pair i) row) l)) as ->.
  { induction l as [|i l IH]; simpl; [done|]. rewrite foldr_app, <-IH.
    generalize (foldr (fun i rest => foldr (fun j rest =>
      match matmul_sum A B lda i j (seqZ 0 lda) 0 with
      | Some sum => Write (i + j * lda) sum rest
      | None => Undefined
      end) rest row) rest l) as acc. intros acc. clear.
    induction row as [|j row IH]; simpl; [done|]. by rewrite IH. }
  assert (forall i j, (i, j) ∈ flat_map (fun i => map (pair i) row) (seqZ 0 lda) <->
    0 <= i < lda /\ block * Z.of_nat c <= j < block * Z.of_nat c + block) as Hin.
  { intros i j. rewrite list_elem_of_In, in_flat_map. split.
    - intros (i' & Hi & Hj). apply list_elem_of_In, elem_of_seqZ in Hi.
      apply list_elem_of_In, list_elem_of_fmap in Hj as (j' & [= -> ->] & Hj).
      apply elem_of_seqZ in Hj. lia.
    - intros [Hi Hj]. exists i. split; [apply list_elem_of_In, elem_of_seqZ; lia|].
      apply list_elem_of_In, list_elem_of_fmap. exists j. split; [done|apply elem_of_seqZ; lia]. }
  assert (forall j, block * Z.of_nat c <= j < block * Z.of_nat c + block ->
    0 <= j < nc * block) as Hj by (intros; nia).
  assert (forall i j, 0 <= i < lda -> (i + j * lda) / lda = j /\ (i + j * lda) mod lda = i) as Hdiv.
  { intros i j Hi. rewrite Z.div_add, Z.mod_add by lia. split; [|by apply Z.mod_small].
    by rewrite Z.div_small. }
  apply (keeps_loop matmul_contract (lda * lda) 0 c _ (fun '(i, j) => i + j * lda)).
  - apply NoDup_fmap_2_strong; [|apply NoDup_pairs; apply NoDup_seqZ].
    intros [i j] [i' j'] H1 H2 E. apply Hin in H1 as [H1 _], H2 as [H2 _].
    destruct (Hdiv i j H1) as [E1 E2]. destruct (Hdiv i' j' H2) as [E1' E2'].
    f_equal; congruence.
  - done.
  - intros [i j] w rest' Hx Hw Hk. apply Hin in Hx as [Hi Hjb]. pose proof (Hj j Hjb) as Hjn.
    destruct (Hdiv i j Hi) as [Hd Hm]. rewrite matmul_dot by lia.
    cbn [keeps]. split; [nia|]. split; [|split; [|done]].
    + simpl. rewrite Hd. rewrite (proj2 (Z.ltb_lt _ _)) by lia. do 2 f_equal.
      assert (j / block = Z.of_nat c) as ->; [|by rewrite Nat2Z.id].
      symmetry. apply (Z.div_unique j block _ (j - block * Z.of_nat c)); [left; lia|lia].
    + simpl. unfold product_at. fold block. rewrite Hd, Hm.
      by rewrite (proj2 (Z.ltb_lt _ _)) by lia.
  - set (w := fun b => _ || false). unfold rest. cbn [keeps]. split; [simpl; lia|]. split.
    + intros a Ha Ho Hw. exfalso. destruct (row_bounds a Ha) as (Hrow & Hcol & Hlda).
      simpl in Ho. destruct (Z.ltb_spec (a / lda) (nc * block)) as [Hlt|]; [|done].
      injection Ho as Ho. assert (0 < block) as Hpos by nia.
      pose proof (Z.div_pos (a / lda) block ltac:(lia) Hpos) as Hdb.
      pose proof (Z.div_mod (a / lda) block ltac:(lia)) as Eb.
      pose proof (Z.mod_pos_bound (a / lda) block Hpos) as Hmb.
      unfold w in Hw. apply orb_false_iff in Hw as [Hw _]. apply bool_decide_eq_false in Hw.
      apply Hw. apply list_elem_of_fmap. exists (a mod lda, a / lda). split.
      * pose proof (Z.div_mod a lda ltac:(lia)). lia.
      * apply Hin. split; [lia|]. subst c. rewrite Z2Nat.id by done. lia.
    + assert (lenZ (product nc lda A B m0) = lda * lda) as Hlen.
      { unfold product, lenZ. rewrite length_map, length_seqZ. nia. }
      assert (forall a, 0 <= a < lda * lda ->
        getZ (product nc lda A B m0) a = product_at nc lda A B m0 a) as Hget.
      { intros a Ha. unfold getZ, product. apply list_lookup_total_correct, list_lookup_fmap_Some.
        exists a. split; [done|]. apply lookup_seqZ. lia. }
      destruct (verifyDouble_spec Z.eqb (product nc lda A B m0) verify_data (lda * lda))
        as (k & Hk & Hfd); [nia|lia|lia|].
      eapply (keeps_verify _ _ _ _ _ verify_data (product nc lda A B m0)); [| |done|nia| |..].
      * intros a Ha. by right.
      * done.
      * intros a Ha. rewrite Hget by done. done.
      * rewrite verify_Double. exact Hk.
      * cbn [keeps]. split; [done|]. split; [done|exact Hfd].
Qed.
End MatmulProof.

(** C27: mt-matmul: on any number of cores and in every interleaving, no access is
    out of bounds, no [int] overflows, no core blocks and every execution ends;
    the first [nc * (lda / nc)] rows of [results_data] are those of the product,
    the rows that are left when [nc] does not divide [lda] keep what they had,
    and every core exits with the position of the first difference from the
    reference data, or 0. *)
Theorem mt_matmul_multiplies nc lda bound (A B verify_data m0 : list Z) s :
  0 < nc < 2147483648 -> 0 <= lda -> 0 <= bound ->
  lda * lda <= lenZ A -> lda * lda <= lenZ B -> lda * lda <= lenZ verify_data ->
  lenZ m0 = lda * lda ->
  (forall a, 0 <= a < lda * lda -> -bound <= getZ A a <= bound) ->
  (forall a, 0 <= a < lda * lda -> -bound <= getZ B a <= bound) ->
  lda * (bound * bound) < 2147483648 ->
  runs nc m0 (cores nc (matmul_thread lda A B verify_data)) s ->
  let exits := all_exit (fun _ code =>
    first_difference Z.eqb (lda * lda) (product nc lda A B m0) verify_data code) in
  ~ faulty s /\
  (exits s \/ exists s', mstep nc s s') /\
  (exits s -> forall i j, 0 <= i < lda -> 0 <= j < lda ->
     getZ (mem s) (i + j * lda) =
       if j <? nc * (lda / nc) then dot A B lda i j else getZ m0 (i + j * lda)) /\
  Acc (fun s' s => mstep nc s s') s.
Proof.
  intros Hnc Hlda Hbd HA HB Hv Hm HsA HsB Hov Hs exits.
  apply (contract_sound nc (matmul_contract nc lda A B verify_data m0) (lda * lda)) in Hs
    as (Hf & Hp & Hfin & Hacc); [|done|..].
  - split; [done|]. split; [done|]. split; [|done]. intros Hex i j Hi Hj.
    rewrite (Hfin Hex) by nia. simpl. unfold product_at.
    rewrite Z.div_add, Z.mod_add, Z.div_small, Z.mod_small by lia. done.
  - by apply (matmul_contract_wf nc lda bound).
  - done.
  - unfold cores. rewrite length_map, length_seqZ. lia.
  - done.
  - intros i c Hc. apply list_lookup_fmap_Some in Hc as (cid & -> & Hc).
    apply lookup_seqZ in Hc as [-> Hi]. by apply (matmul_thread_keeps nc lda bound).
Qed.

Lemma mt_matmul_multiplies_witness :
  let s := Machine (initial 2) [0; 0; 0; 0]
             (cores 2 (matmul_thread 2 [1; 2; 3; 4] [5; 6; 7; 8] [19; 22; 43; 50])) in
  ~ faulty s /\ Acc (fun s' s => mstep 2 s s') s.
Proof.
  intros s.
  destruct (mt_matmul_multiplies 2 2 8 [1; 2; 3; 4] [5; 6; 7; 8] [19; 22; 43; 50] [0; 0; 0; 0] s)
    as (Hf & _ & _ & Hacc); try (unfold lenZ; cbn; lia).
  - intros a Ha. assert (a = 0 \/ a = 1 \/ a = 2 \/ a = 3) as [->|[->|[->| ->]]] by lia;
      vm_compute; split; discriminate.
  - intros a Ha. assert (a = 0 \/ a = 1 \/ a = 2 \/ a = 3) as [->|[->|[->| ->]]] by lia;
      vm_compute; split; discriminate.
  - apply runs_initial.
  - exact (conj Hf Hacc).
Defined.
