(* ===== verification/Ripe.v ===== *)
(** * RIPE: the attack form and the shellcode (zephyr-docker/workspace/ripe)

    The parameters of an attack, the test that decides which combinations are
    possible, and the three instructions written over the buffer.  The target is
    a 32-bit machine: [long], [size_t] and the pointers are 32 bits. *)

From Stdlib Require Import ZArith Lia String Ascii.
From stdpp Require Import base tactics list numbers.
From S2P Require Import Prelude CArray.

(** ** Parameters (ripe_attack_parameters.h) *)

Inductive technique := DIRECT | INDIRECT.

Inductive inject_param :=
| INJECTED_CODE_NO_NOP | RETURN_INTO_LIBC | RETURN_ORIENTED_PROGRAMMING | DATA_ONLY.

Inductive code_ptr :=
| RET_ADDR | FUNC_PTR_STACK_VAR | FUNC_PTR_STACK_PARAM
| FUNC_PTR_HEAP | FUNC_PTR_BSS | FUNC_PTR_DATA
| LONGJMP_BUF_STACK_VAR | LONGJMP_BUF_STACK_PARAM
| LONGJMP_BUF_HEAP | LONGJMP_BUF_BSS | LONGJMP_BUF_DATA
| STRUCT_FUNC_PTR_STACK | STRUCT_FUNC_PTR_HEAP
| STRUCT_FUNC_PTR_DATA | STRUCT_FUNC_PTR_BSS | VAR_BOF | VAR_IOF | VAR_LEAK.

Inductive location := STACK | HEAP | BSS | DATA.

Inductive function :=
| MEMCPY | STRCPY | STRNCPY | SPRINTF | SNPRINTF | STRCAT | STRNCAT | SSCANF | HOMEBREW.

#[export] Instance technique_eq_dec : EqDecision technique. Proof. solve_decision. Defined.
#[export] Instance inject_param_eq_dec : EqDecision inject_param. Proof. solve_decision. Defined.
#[export] Instance code_ptr_eq_dec : EqDecision code_ptr. Proof. solve_decision. Defined.
#[export] Instance location_eq_dec : EqDecision location. Proof. solve_decision. Defined.
#[export] Instance function_eq_dec : EqDecision function. Proof. solve_decision. Defined.

Definition opt_techniques : list string := ["direct"; "indirect"]%string.
Definition opt_inject_params : list string :=
  ["shellcode"; "returnintolibc"; "rop"; "dataonly"]%string.
Definition opt_code_ptrs : list string :=
  ["ret"; "funcptrstackvar"; "funcptrstackparam"; "funcptrheap"; "funcptrbss"; "funcptrdata";
   "longjmpstackvar"; "longjmpstackparam"; "longjmpheap"; "longjmpbss"; "longjmpdata";
   "structfuncptrstack"; "structfuncptrheap"; "structfuncptrdata"; "structfuncptrbss";
   "bof"; "iof"; "leak"]%string.
Definition opt_locations : list string := ["stack"; "heap"; "bss"; "data"]%string.
Definition opt_funcs : list string :=
  ["memcpy"; "strcpy"; "strncpy"; "sprintf"; "snprintf"; "strcat"; "strncat"; "sscanf";
   "homebrew"]%string.

(** The numbers of the enumerators. *)
Definition technique_number (t : technique) : Z :=
  match t with DIRECT => 100 | INDIRECT => 101 end.
Definition inject_param_number (i : inject_param) : Z :=
  match i with
  | INJECTED_CODE_NO_NOP => 200 | RETURN_INTO_LIBC => 201
  | RETURN_ORIENTED_PROGRAMMING => 202 | DATA_ONLY => 203
  end.
Definition code_ptr_number (c : code_ptr) : Z :=
  match c with
  | RET_ADDR => 300 | FUNC_PTR_STACK_VAR => 301 | FUNC_PTR_STACK_PARAM => 302
  | FUNC_PTR_HEAP => 303 | FUNC_PTR_BSS => 304 | FUNC_PTR_DATA => 305
  | LONGJMP_BUF_STACK_VAR => 306 | LONGJMP_BUF_STACK_PARAM => 307
  | LONGJMP_BUF_HEAP => 308 | LONGJMP_BUF_BSS => 309 | LONGJMP_BUF_DATA => 310
  | STRUCT_FUNC_PTR_STACK => 311 | STRUCT_FUNC_PTR_HEAP => 312
  | STRUCT_FUNC_PTR_DATA => 313 | STRUCT_FUNC_PTR_BSS => 314
  | VAR_BOF => 315 | VAR_IOF => 316 | VAR_LEAK => 317
  end.
Definition location_number (l : location) : Z :=
  match l with STACK => 400 | HEAP => 401 | BSS => 402 | DATA => 403 end.
Definition function_number (f : function) : Z :=
  match f with
  | MEMCPY => 500 | STRCPY => 501 | STRNCPY => 502 | SPRINTF => 503 | SNPRINTF => 504
  | STRCAT => 505 | STRNCAT => 506 | SSCANF => 507 | HOMEBREW => 508
  end.

Record ATTACK_FORM := {
  technique_of : technique;
  inject_param_of : inject_param;
  code_ptr_of : code_ptr;
  location_of : location;
  function_of : function;
}.

#[export] Instance string_inhabited : Inhabited string := populate EmptyString.

(** The names [print_current_test_parameters] prints. *)
Definition print_current_test_parameters (a : ATTACK_FORM) : option (list string) :=
  t ← fetch opt_techniques (technique_number (technique_of a) - 100);
  i ← fetch opt_inject_params (inject_param_number (inject_param_of a) - 200);
  c ← fetch opt_code_ptrs (code_ptr_number (code_ptr_of a) - 300);
  l ← fetch opt_locations (location_number (location_of a) - 400);
  f ← fetch opt_funcs (function_number (function_of a) - 500);
  Some [t; i; c; l; f].

(** The attack [main] chooses for [ATTACK_NR]. *)
Definition attack_of (attack_nr : Z) : option ATTACK_FORM :=
  match attack_nr with
  | 1 => Some (Build_ATTACK_FORM DIRECT INJECTED_CODE_NO_NOP RET_ADDR STACK MEMCPY)
  | 2 => Some (Build_ATTACK_FORM DIRECT INJECTED_CODE_NO_NOP FUNC_PTR_STACK_VAR STACK MEMCPY)
  | 3 => Some (Build_ATTACK_FORM INDIRECT INJECTED_CODE_NO_NOP FUNC_PTR_STACK_VAR STACK MEMCPY)
  | 4 => Some (Build_ATTACK_FORM DIRECT DATA_ONLY VAR_LEAK HEAP SPRINTF)
  | 5 => Some (Build_ATTACK_FORM DIRECT RETURN_INTO_LIBC RET_ADDR STACK MEMCPY)
  | 6 => Some (Build_ATTACK_FORM INDIRECT RETURN_INTO_LIBC FUNC_PTR_HEAP HEAP MEMCPY)
  | 7 => Some (Build_ATTACK_FORM INDIRECT RETURN_INTO_LIBC STRUCT_FUNC_PTR_HEAP HEAP HOMEBREW)
  | 8 => Some (Build_ATTACK_FORM INDIRECT RETURN_INTO_LIBC LONGJMP_BUF_HEAP HEAP MEMCPY)
  | 9 => Some (Build_ATTACK_FORM DIRECT RETURN_ORIENTED_PROGRAMMING RET_ADDR STACK MEMCPY)
  | 10 =>
      Some (Build_ATTACK_FORM DIRECT RETURN_ORIENTED_PROGRAMMING STRUCT_FUNC_PTR_HEAP HEAP SPRINTF)
  | _ => None
  end.

(** ** is_attack_possible *)

Section Possible.
Context (attack : ATTACK_FORM).

#[local] Abbreviation tech t := (bool_decide (technique_of attack = t)).
#[local] Abbreviation inject i := (bool_decide (inject_param_of attack = i)).
#[local] Abbreviation ptr c := (bool_decide (code_ptr_of attack = c)).
#[local] Abbreviation loc l := (bool_decide (location_of attack = l)).
#[local] Abbreviation func f := (bool_decide (function_of attack = f)).

(** The last test, on the location: an attack on another segment is indirect. *)
Definition possible_from_location : bool :=
  match location_of attack with
  | STACK =>
      if tech DIRECT then
        if ptr FUNC_PTR_HEAP || ptr FUNC_PTR_BSS || ptr FUNC_PTR_DATA ||
           ptr LONGJMP_BUF_HEAP || ptr LONGJMP_BUF_DATA || ptr LONGJMP_BUF_BSS ||
           ptr STRUCT_FUNC_PTR_HEAP || ptr STRUCT_FUNC_PTR_DATA || ptr STRUCT_FUNC_PTR_BSS
        then false
        else if ptr FUNC_PTR_STACK_PARAM &&
                (func STRCAT || func SNPRINTF || func SSCANF || func HOMEBREW)
        then false
        else true
      else true
  | HEAP =>
      if tech DIRECT &&
         (ptr RET_ADDR || ptr FUNC_PTR_STACK_VAR || ptr FUNC_PTR_STACK_PARAM ||
          ptr FUNC_PTR_BSS || ptr FUNC_PTR_DATA || ptr LONGJMP_BUF_STACK_VAR ||
          ptr LONGJMP_BUF_STACK_PARAM || ptr LONGJMP_BUF_BSS || ptr LONGJMP_BUF_DATA ||
          ptr STRUCT_FUNC_PTR_STACK || ptr STRUCT_FUNC_PTR_DATA || ptr STRUCT_FUNC_PTR_BSS)
      then false else true
  | DATA =>
      if tech DIRECT &&
         (ptr RET_ADDR || ptr FUNC_PTR_STACK_VAR || ptr FUNC_PTR_STACK_PARAM ||
          ptr FUNC_PTR_BSS || ptr FUNC_PTR_HEAP || ptr LONGJMP_BUF_STACK_VAR ||
          ptr LONGJMP_BUF_STACK_PARAM || ptr LONGJMP_BUF_HEAP || ptr LONGJMP_BUF_BSS ||
          ptr STRUCT_FUNC_PTR_STACK || ptr STRUCT_FUNC_PTR_HEAP || ptr STRUCT_FUNC_PTR_BSS)
      then false else true
  | BSS =>
      if tech DIRECT &&
         (ptr RET_ADDR || ptr FUNC_PTR_STACK_VAR || ptr FUNC_PTR_STACK_PARAM ||
          ptr FUNC_PTR_DATA || ptr FUNC_PTR_HEAP || ptr LONGJMP_BUF_STACK_VAR ||
          ptr LONGJMP_BUF_STACK_PARAM || ptr LONGJMP_BUF_HEAP || ptr LONGJMP_BUF_DATA ||
          ptr STRUCT_FUNC_PTR_STACK || ptr STRUCT_FUNC_PTR_HEAP || ptr STRUCT_FUNC_PTR_DATA)
      then false
      else if tech INDIRECT && ptr LONGJMP_BUF_HEAP &&
              (negb (func MEMCPY) && negb (func STRNCPY) && negb (func HOMEBREW))
      then false else true
  end.

Definition is_attack_possible : bool :=
  if inject INJECTED_CODE_NO_NOP && (negb (func MEMCPY) && negb (func HOMEBREW)) then false
  else if inject RETURN_ORIENTED_PROGRAMMING && negb (tech DIRECT) then false
  else if inject DATA_ONLY then
    if negb (ptr VAR_BOF) && negb (ptr VAR_IOF) && negb (ptr VAR_LEAK) then false
    else if (ptr VAR_LEAK || ptr VAR_IOF) && tech INDIRECT then false
    else if loc HEAP && tech INDIRECT then false
    else possible_from_location
  else if ptr VAR_BOF || ptr VAR_IOF || ptr VAR_LEAK then false
  else possible_from_location.
End Possible.

(** ** Hexadecimal strings *)

(** A lower case digit, as printf writes it. *)
Definition hexchar (d : Z) : Z := if d <? 10 then 48 + d else 87 + d.

Fixpoint hex_digits (n : nat) (v : Z) : list Z :=
  match n with
  | O => []
  | S n => if v <? 16 then [hexchar v] else hex_digits n (v / 16) ++ [hexchar (v mod 16)]
  end.

(** [snprintf(str, 9, "%8x", val)]: padded on the left with spaces to eight
    characters, and the terminator. *)
Definition printf_8x (val : Z) : list Z :=
  let digits := hex_digits 8 val in
  take 8 (replicate (8 - length digits) 32 ++ digits) ++ [0].

Definition hex_to_string (val : Z) : list Z :=
  map (fun c => if c =? 32 then 48 else c) (printf_8x val).

Definition bin4b : list string :=
  ["0000"; "0001"; "0010"; "0011"; "0100"; "0101"; "0110"; "0111";
   "1000"; "1001"; "1010"; "1011"; "1100"; "1101"; "1110"; "1111"]%string.

Definition hex_to_bin (c : Z) : option (list Z) :=
  if (48 <=? c) && (c <=? 57) then string_bytes <$> fetch bin4b (c - 48)
  else if (97 <=? c) && (c <=? 102) then string_bytes <$> fetch bin4b (10 + c - 97)
  else None.

(** [strtoul(s, 0, base)], on a string of digits of the base. *)
Definition char_digit (c : Z) : Z := if c <=? 57 then c - 48 else c - 87.

Definition strtoul (s : list Z) (base : Z) : Z :=
  Z.min 4294967295 (foldl (fun acc c => acc * base + char_digit c) 0 s).

(** ** The shellcode *)

Definition jalr_s : list Z := string_bytes "000300e7".

(** The four bytes of an instruction, the loop over [insn_bytes] written out. *)
Definition format_instruction (insn : Z) : list Z :=
  let insn_bytes := [Z.land (Z.shiftr insn 24) 255; Z.land (Z.shiftr insn 16) 255;
                     Z.land (Z.shiftr insn 8) 255; Z.land insn 255] in
  map (fun i => getZ insn_bytes i) [3; 2; 1; 0].

(** [strncat(bin, hex_to_bin(c), 4)] over the characters [cs]. *)
Fixpoint append_bin (bin cs : list Z) : option (list Z) :=
  match cs with
  | [] => Some bin
  | c :: cs => b ← hex_to_bin c; append_bin (bin ++ take 4 b) cs
  end.

Definition build_shellcode (shellcode_target : Z) : option (list Z) :=
  let attack_addr :=
    if 2048 <=? Z.land shellcode_target 4095
    then hex_to_string (u32 (shellcode_target + 4096))
    else hex_to_string shellcode_target in
  let low_bits := take 3 (drop 5 attack_addr) in
  let high_bits := take 5 attack_addr in
  let jalr_val := strtoul jalr_s 16 in
  lui_bin ← append_bin [] high_bits;
  let lui_bin := lui_bin ++ string_bytes "001100110111" in
  let lui_val := strtoul lui_bin 2 in
  addi_bin ← append_bin [] low_bits;
  let addi_bin := addi_bin ++ string_bytes "00110000001100010011" in
  let addi_val := strtoul addi_bin 2 in
  Some (format_instruction lui_val ++ format_instruction addi_val ++ format_instruction jalr_val).

(** ** What three instructions do on a 32-bit RISC-V hart *)

Record hart := { pc : Z; regs : Z -> Z }.

Definition set_reg (r v : Z) (rs : Z -> Z) : Z -> Z :=
  fun k => if k =? 0 then 0 else if k =? r then u32 v else rs k.

Definition sext12 (imm : Z) : Z := if imm <? 2048 then imm else imm - 4096.

(** LUI, ADDI and JALR, decoded from the instruction's fields. *)
Definition exec_insn (insn : Z) (h : hart) : option hart :=
  let opcode := insn mod 128 in
  let rd := insn / 128 mod 32 in
  let funct3 := insn / 4096 mod 8 in
  let rs1 := insn / 32768 mod 32 in
  let imm_i := sext12 (insn / 1048576) in
  if opcode =? 55 then
    Some {| pc := u32 (pc h + 4); regs := set_reg rd (insn / 4096 * 4096) (regs h) |}
  else if (opcode =? 19) && (funct3 =? 0) then
    Some {| pc := u32 (pc h + 4); regs := set_reg rd (regs h rs1 + imm_i) (regs h) |}
  else if (opcode =? 103) && (funct3 =? 0) then
    Some {| pc := 2 * (u32 (regs h rs1 + imm_i) / 2); regs := set_reg rd (pc h + 4) (regs h) |}
  else None.

(** [n] instructions of the code loaded at [base]. *)
Fixpoint exec_code (n : nat) (code : list Z) (base : Z) (h : hart) : option hart :=
  match n with
  | O => Some h
  | S n =>
      h' ← exec_insn (le_combine (slice (Z.to_nat (u32 (pc h - base))) 4 code)) h;
      exec_code n code base h'
  end.

(** ** Nibbles *)

Fixpoint nibbles (n : nat) (v : Z) : list Z :=
  match n with
  | O => []
  | S n => nibbles n (v / 16) ++ [v mod 16]
  end.

Definition nibble (d : Z) : Prop := 0 <= d < 16.

Lemma nibbles_length n v : length (nibbles n v) = n.
Proof. revert v. induction n; intros; simpl; rewrite ?length_app, ?IHn; simpl; lia. Qed.

Lemma nibbles_nibble n v : Forall nibble (nibbles n v).
Proof.
  revert v. induction n as [|n IH]; intros; simpl; [done|].
  apply Forall_app. split; [apply IH|]. repeat constructor; unfold nibble; divlia.
Qed.

Lemma nibbles_zero n : nibbles n 0 = replicate n 0.
Proof. induction n; cbn [nibbles]; [done|]. rewrite Zdiv_0_l, Zmod_0_l, IHn. symmetry. apply replicate_S_end. Qed.

Lemma nibbles_app n m v : nibbles (n + m) v = nibbles n (v / 16 ^ Z.of_nat m) ++ nibbles m v.
Proof.
  revert v. induction m as [|m IH]; intros v.
  - simpl. by rewrite Nat.add_0_r, Z.div_1_r, app_nil_r.
  - rewrite Nat.add_succ_r. simpl. rewrite IH, <-(assoc_L (++)). do 2 f_equal.
    rewrite Nat2Z.inj_succ, Z.pow_succ_r, <-Z.div_div by lia. done.
Qed.

Lemma fmap_replicate_map {A B} (f : A -> B) n x : map f (replicate n x) = replicate n (f x).
Proof. apply fmap_replicate. Qed.

(** The value of the nibbles, most significant first. *)
Lemma nibbles_value n v acc :
  0 <= v < 16 ^ Z.of_nat n ->
  foldl (fun acc d => acc * 16 + d) acc (nibbles n v) = acc * 16 ^ Z.of_nat n + v.
Proof.
  revert v. induction n as [|n IH]; intros v Hv; [simpl in *; lia|].
  rewrite Nat2Z.inj_succ, Z.pow_succ_r in * by lia. simpl.
  rewrite foldl_app, IH by (split; [divlia|apply Z.div_lt_upper_bound; lia]). simpl. divlia.
Qed.

Lemma hexchar_digit d : nibble d -> 48 <= hexchar d <= 57 \/ 97 <= hexchar d <= 102.
Proof. unfold nibble, hexchar. destruct (Z.ltb_spec d 10); lia. Qed.

Lemma hex_digits_nibbles n v :
  (0 < n)%nat -> 0 <= v < 16 ^ Z.of_nat n ->
  (length (hex_digits n v) <= n)%nat /\
  replicate (n - length (hex_digits n v)) 48 ++ hex_digits n v = map hexchar (nibbles n v).
Proof.
  revert v. induction n as [|n IH]; intros v Hn Hv; [lia|].
  rewrite Nat2Z.inj_succ, Z.pow_succ_r in Hv by lia. simpl.
  destruct (Z.ltb_spec v 16) as [Hs|Hs].
  - rewrite (Z.div_small v), (Z.mod_small v) by lia. rewrite nibbles_zero, map_app, fmap_replicate_map.
    simpl. by rewrite Nat.sub_0_r.
  - destruct n as [|n]; [simpl in Hv; lia|].
    destruct (IH (v / 16)) as [Hlen Heq]; [lia|split; [divlia|apply Z.div_lt_upper_bound; lia]|].
    rewrite length_app, map_app, <-Heq, (assoc_L (++)). change (length [_]) with 1%nat.
    split; [lia|]. do 3 f_equal. lia.
Qed.

Lemma hex_digits_no_space n v :
  0 <= v -> Forall (fun c => c <> 32) (hex_digits n v).
Proof.
  revert v. induction n as [|n IH]; intros v Hv; simpl; [done|].
  assert (forall d, nibble d -> hexchar d <> 32) as H.
  { intros d Hd. apply hexchar_digit in Hd. lia. }
  destruct (Z.ltb_spec v 16).
  - constructor; [apply H; unfold nibble; lia|done].
  - apply Forall_app. split; [apply IH; divlia|].
    constructor; [apply H; unfold nibble; divlia|done].
Qed.

(** [hex_to_string] writes the eight hexadecimal digits. *)
Lemma hex_to_string_digits v :
  0 <= v < 4294967296 -> hex_to_string v = map hexchar (nibbles 8 v) ++ [0].
Proof.
  intros Hv. unfold hex_to_string, printf_8x.
  destruct (hex_digits_nibbles 8 v) as [Hlen Heq]; [lia|simpl; lia|].
  rewrite take_ge by (rewrite length_app, length_replicate; lia).
  rewrite map_app. f_equal. rewrite <-Heq, map_app, fmap_replicate_map. f_equal.
  rewrite <-(map_id (hex_digits 8 v)) at 2. apply map_ext_in. intros c Hc.
  pose proof (hex_digits_no_space 8 v ltac:(lia)) as Hns.
  rewrite Forall_forall in Hns. apply Hns in Hc. by destruct (Z.eqb_spec c 32).
Qed.

(** The four characters of a digit in base 2. *)
Lemma hex_to_bin_value d :
  nibble d ->
  exists b, hex_to_bin (hexchar d) = Some b /\ take 4 b = b /\
    forall acc, foldl (fun acc c => acc * 2 + char_digit c) acc b = acc * 16 + d.
Proof.
  unfold nibble. intros Hd.
  assert (d = 0 \/ d = 1 \/ d = 2 \/ d = 3 \/ d = 4 \/ d = 5 \/ d = 6 \/ d = 7 \/ d = 8 \/
          d = 9 \/ d = 10 \/ d = 11 \/ d = 12 \/ d = 13 \/ d = 14 \/ d = 15) as H by lia.
  repeat destruct H as [->|H]; subst; (eexists; split; [vm_compute; reflexivity|]);
    (split; [reflexivity|]); intros acc; unfold char_digit; simpl; lia.
Qed.

Lemma append_bin_value ds bin :
  Forall nibble ds ->
  exists out, append_bin bin (map hexchar ds) = Some out /\
    forall acc, foldl (fun acc c => acc * 2 + char_digit c) acc out =
      foldl (fun acc d => acc * 16 + d)
        (foldl (fun acc c => acc * 2 + char_digit c) acc bin) ds.
Proof.
  intros Hds. revert bin. induction Hds as [|d ds Hd Hds IH]; intros bin; simpl; [by eexists|].
  destruct (hex_to_bin_value d Hd) as (b & -> & Htake & Hb). simpl.
  destruct (IH (bin ++ take 4 b)) as (out & Hout & Hval). exists out. split; [done|].
  intros acc. by rewrite Hval, foldl_app, Htake, Hb.
Qed.

(** The instruction word: the digits, then the constant bits. *)
Lemma strtoul_bin n v tail :
  0 <= v < 16 ^ Z.of_nat n ->
  exists bin, append_bin [] (map hexchar (nibbles n v)) = Some bin /\
    strtoul (bin ++ tail) 2 =
      Z.min 4294967295 (foldl (fun acc c => acc * 2 + char_digit c) v tail).
Proof.
  intros Hv. destruct (append_bin_value (nibbles n v) []) as (bin & Hbin & Hval).
  { apply nibbles_nibble. }
  exists bin. split; [done|]. unfold strtoul. rewrite foldl_app, Hval. simpl.
  by rewrite nibbles_value.
Qed.

Lemma lui_tail v :
  foldl (fun acc c => acc * 2 + char_digit c) v (string_bytes "001100110111") = v * 4096 + 823.
Proof.
  change (string_bytes "001100110111") with [48; 48; 49; 49; 48; 48; 49; 49; 48; 49; 49; 49].
  unfold char_digit. simpl. lia.
Qed.

Lemma addi_tail v :
  foldl (fun acc c => acc * 2 + char_digit c) v (string_bytes "00110000001100010011") =
  v * 1048576 + 197395.
Proof.
  change (string_bytes "00110000001100010011") with [48; 48; 49; 49; 48; 48; 48; 48; 48; 48; 49; 49; 48; 48; 48; 49; 48; 48; 49; 49].
  unfold char_digit. simpl. lia.
Qed.

Lemma format_instruction_le insn :
  0 <= insn < 4294967296 -> format_instruction insn = le_split 4 insn.
Proof.
  intros Hi. unfold format_instruction. cbn [map]. unfold getZ. simpl.
  rewrite !land_255, !Z.shiftr_div_pow2 by lia. simpl.
  rewrite !Z.div_div by lia. done.
Qed.

Lemma jalr_value : strtoul jalr_s 16 = 196839.
Proof. reflexivity. Qed.

(** The operands of LUI and ADDI: the upper part is rounded, since ADDI adds a
    signed constant. *)
Definition lui_operand (target : Z) : Z := u32 (target + 2048) / 4096.
Definition addi_operand (target : Z) : Z := target mod 4096.

Lemma lui_operand_range target : 0 <= lui_operand target < 1048576.
Proof. unfold lui_operand, u32. divlia. Qed.
Lemma addi_operand_range target : 0 <= addi_operand target < 4096.
Proof. unfold addi_operand. divlia. Qed.

(** The bytes of the three instructions. *)
Definition shellcode_bytes (target : Z) : list Z :=
  le_split 4 (lui_operand target * 4096 + 823) ++
  le_split 4 (addi_operand target * 1048576 + 197395) ++
  le_split 4 196839.

Lemma shellcode_bytes_length target : length (shellcode_bytes target) = 12%nat.
Proof. unfold shellcode_bytes. by rewrite !length_app, !le_split_length. Qed.

Lemma build_shellcode_bytes target :
  0 <= target < 4294967296 ->
  build_shellcode target = Some (shellcode_bytes target).
Proof.
  intros Ht. unfold build_shellcode.
  set (v := if 2048 <=? Z.land target 4095 then u32 (target + 4096) else target).
  replace (if 2048 <=? _ then _ else _) with (map hexchar (nibbles 8 v) ++ [0]); last first.
  { rewrite <-hex_to_string_digits; [subst v; by case_match|].
    subst v. case_match; [apply u32_range|lia]. }
  assert (Hland : Z.land target 4095 = target mod 4096) by by apply (Z.land_ones target 12).
  assert (0 <= v < 4294967296 /\ v mod 4096 = addi_operand target /\
          v / 4096 = lui_operand target) as (Hv & Hlo & Hhi).
  { subst v. rewrite Hland. unfold addi_operand, lui_operand, u32. clear -Ht.
    destruct (Z.leb_spec 2048 (target mod 4096)); divlia. }
  change 8%nat with (5 + 3)%nat. rewrite nibbles_app, map_app, <-(assoc_L (++)).
  change (16 ^ Z.of_nat 3) with 4096. rewrite Hhi.
  set (hi := map hexchar (nibbles 5 _)).
  replace (nibbles 3 v) with (nibbles 3 (addi_operand target)); last first.
  { rewrite <-Hlo. cbn [nibbles app]. clearbody v. clear -Hv. rewrite !Z.div_div by lia.
    repeat (apply f_equal2; [divlia|]). done. }
  set (lo := map hexchar (nibbles 3 _)).
  rewrite (take_app_length' hi), (drop_app_length' hi), (take_app_length' lo)
    by (unfold hi, lo; by rewrite length_map, nibbles_length).
  destruct (strtoul_bin 5 (lui_operand target)
    (string_bytes "001100110111")) as (bh & Hbh & Hvh); [apply lui_operand_range|].
  fold hi in Hbh. rewrite Hbh. cbn [mbind option_bind].
  pose proof (lui_operand_range target). pose proof (addi_operand_range target).
  destruct (strtoul_bin 3 (addi_operand target) (string_bytes "00110000001100010011"))
    as (bl & Hbl & Hvl); [simpl; lia|].
  fold lo in Hbl. rewrite Hbl. cbn [mbind option_bind].
  rewrite Hvh, Hvl, lui_tail, addi_tail, jalr_value, !Z.min_r by lia.
  by rewrite !format_instruction_le by lia.
Qed.

Lemma exec_lui hi h :
  0 <= hi < 1048576 ->
  exec_insn (hi * 4096 + 823) h =
    Some {| pc := u32 (pc h + 4); regs := set_reg 6 (hi * 4096) (regs h) |}.
Proof.
  intros. unfold exec_insn.
  replace ((hi * 4096 + 823) mod 128) with 55 by divlia.
  replace ((hi * 4096 + 823) / 128 mod 32) with 6 by divlia.
  by replace ((hi * 4096 + 823) / 4096) with hi by divlia.
Qed.

Lemma exec_addi lo h :
  0 <= lo < 4096 ->
  exec_insn (lo * 1048576 + 197395) h =
    Some {| pc := u32 (pc h + 4); regs := set_reg 6 (regs h 6 + sext12 lo) (regs h) |}.
Proof.
  intros. unfold exec_insn.
  replace ((lo * 1048576 + 197395) mod 128) with 19 by divlia.
  replace ((lo * 1048576 + 197395) / 128 mod 32) with 6 by divlia.
  replace ((lo * 1048576 + 197395) / 4096 mod 8) with 0 by divlia.
  replace ((lo * 1048576 + 197395) / 32768 mod 32) with 6 by divlia.
  by replace ((lo * 1048576 + 197395) / 1048576) with lo by divlia.
Qed.

Lemma exec_jalr h :
  exec_insn 196839 h =
    Some {| pc := 2 * (u32 (regs h 6 + 0) / 2); regs := set_reg 1 (pc h + 4) (regs h) |}.
Proof. reflexivity. Qed.

Lemma lui_addi_target target :
  0 <= target < 4294967296 ->
  u32 (u32 (lui_operand target * 4096) + sext12 (addi_operand target)) = target.
Proof.
  intros Ht. unfold lui_operand, addi_operand, u32, sext12.
  destruct (Z.ltb_spec (target mod 4096) 2048); divlia.
Qed.

(** Run from its first byte, the code reaches the target. *)
Lemma shellcode_bytes_jump target h :
  0 <= target < 4294967296 ->
  exists h',
    exec_code 3 (shellcode_bytes target) (pc h) h = Some h' /\
    pc h' = 2 * (target / 2) /\ regs h' 6 = target /\ regs h' 1 = u32 (pc h + 12) /\
    forall r, r <> 0 -> r <> 1 -> r <> 6 -> regs h' r = regs h r.
Proof.
  intros Ht. unfold shellcode_bytes.
  pose proof (lui_operand_range target) as Hhi. pose proof (addi_operand_range target) as Hlo.
  cbn [exec_code].
  replace (u32 (pc h - pc h)) with 0 by (unfold u32; divlia).
  change (slice (Z.to_nat 0) 4 _) with (le_split 4 (lui_operand target * 4096 + 823)).
  rewrite le_combine_split, exec_lui by (simpl; lia). cbn [mbind option_bind pc].
  replace (u32 (u32 (pc h + 4) - pc h)) with 4 by (unfold u32; divlia).
  change (slice (Z.to_nat 4) 4 _) with (le_split 4 (addi_operand target * 1048576 + 197395)).
  rewrite le_combine_split, exec_addi by (simpl; lia). cbn [mbind option_bind pc].
  replace (u32 (u32 (u32 (pc h + 4) + 4) - pc h)) with 8 by (unfold u32; divlia).
  change (slice (Z.to_nat 8) 4 _) with (le_split 4 196839).
  rewrite le_combine_split, exec_jalr by (simpl; lia). cbn [mbind option_bind].
  eexists. split; [done|]. cbn [pc regs]. unfold set_reg. simpl.
  rewrite lui_addi_target by done.
  split; [by rewrite Z.add_0_r, u32_id|]. split; [done|].
  split; [unfold u32; divlia|].
  intros r H0 H1 H6. by rewrite !(proj2 (Z.eqb_neq _ _)).
Qed.

(** C33: [build_shellcode] never fails, and the twelve bytes it writes load the
    address of the target into register x6 with LUI and ADDI and jump there with
    JALR: run at any place, on any hart, three instructions reach the target
    (with bit 0 cleared, as JALR does), leave the return address in x1 and touch
    no other register.  Holds for every 32-bit address, those whose low part is
    negative as an immediate included. *)
Theorem build_shellcode_jumps target h :
  0 <= target < 4294967296 ->
  exists code,
    build_shellcode target = Some code /\ lenZ code = 12 /\
    exists h',
      exec_code 3 code (pc h) h = Some h' /\
      pc h' = 2 * (target / 2) /\ regs h' 6 = target /\ regs h' 1 = u32 (pc h + 12) /\
      forall r, r <> 0 -> r <> 1 -> r <> 6 -> regs h' r = regs h r.
Proof.
  intros Ht. eexists. split; [by apply build_shellcode_bytes|].
  split; [unfold lenZ; by rewrite shellcode_bytes_length|]. by apply shellcode_bytes_jump.
Qed.

Example build_shellcode_jumps_witness :
  (0 <= 2147489792 < 4294967296) /\ exists code h',
    build_shellcode 2147489792 = Some code /\
    exec_code 3 code 4096 {| pc := 4096; regs := fun _ => 7 |} = Some h' /\ pc h' = 2147489792.
Proof.
  split; [lia|].
  destruct (build_shellcode_jumps 2147489792 {| pc := 4096; regs := fun _ => 7 |} ltac:(lia))
    as (code & Hc & _ & h' & Hx & Hp & _).
  exists code, h'. split; [done|]. split; [done|]. rewrite Hp. reflexivity.
Defined.

(** ** Which attacks are possible *)

(** The segment a code pointer lives in; a data-only target has none. *)
Definition segment (c : code_ptr) : option location :=
  match c with
  | RET_ADDR | FUNC_PTR_STACK_VAR | FUNC_PTR_STACK_PARAM | LONGJMP_BUF_STACK_VAR
  | LONGJMP_BUF_STACK_PARAM | STRUCT_FUNC_PTR_STACK => Some STACK
  | FUNC_PTR_HEAP | LONGJMP_BUF_HEAP | STRUCT_FUNC_PTR_HEAP => Some HEAP
  | FUNC_PTR_BSS | LONGJMP_BUF_BSS | STRUCT_FUNC_PTR_BSS => Some BSS
  | FUNC_PTR_DATA | LONGJMP_BUF_DATA | STRUCT_FUNC_PTR_DATA => Some DATA
  | VAR_BOF | VAR_IOF | VAR_LEAK => None
  end.

Definition valid_attack (a : ATTACK_FORM) : Prop :=
  (inject_param_of a = INJECTED_CODE_NO_NOP -> function_of a ∈ [MEMCPY; HOMEBREW]) /\
  (inject_param_of a = RETURN_ORIENTED_PROGRAMMING -> technique_of a = DIRECT) /\
  (inject_param_of a = DATA_ONLY <-> segment (code_ptr_of a) = None) /\
  (code_ptr_of a ∈ [VAR_IOF; VAR_LEAK] -> technique_of a = DIRECT) /\
  (inject_param_of a = DATA_ONLY -> location_of a = HEAP -> technique_of a = DIRECT) /\
  (technique_of a = DIRECT -> segment (code_ptr_of a) ∈ [None; Some (location_of a)]) /\
  (technique_of a = DIRECT -> location_of a = STACK -> code_ptr_of a = FUNC_PTR_STACK_PARAM ->
     function_of a ∉ [STRCAT; SNPRINTF; SSCANF; HOMEBREW]) /\
  (technique_of a = INDIRECT -> location_of a = BSS -> code_ptr_of a = LONGJMP_BUF_HEAP ->
     function_of a ∈ [MEMCPY; STRNCPY; HOMEBREW]).

#[export] Instance valid_attack_dec a : Decision (valid_attack a).
Proof. unfold valid_attack. apply _. Defined.

(** Every combination of parameters. *)
Definition attack_forms : list ATTACK_FORM :=
  t ← [DIRECT; INDIRECT];
  i ← [INJECTED_CODE_NO_NOP; RETURN_INTO_LIBC; RETURN_ORIENTED_PROGRAMMING; DATA_ONLY];
  c ← [RET_ADDR; FUNC_PTR_STACK_VAR; FUNC_PTR_STACK_PARAM; FUNC_PTR_HEAP; FUNC_PTR_BSS;
       FUNC_PTR_DATA; LONGJMP_BUF_STACK_VAR; LONGJMP_BUF_STACK_PARAM; LONGJMP_BUF_HEAP;
       LONGJMP_BUF_BSS; LONGJMP_BUF_DATA; STRUCT_FUNC_PTR_STACK; STRUCT_FUNC_PTR_HEAP;
       STRUCT_FUNC_PTR_DATA; STRUCT_FUNC_PTR_BSS; VAR_BOF; VAR_IOF; VAR_LEAK];
  l ← [STACK; HEAP; BSS; DATA];
  f ← [MEMCPY; STRCPY; STRNCPY; SPRINTF; SNPRINTF; STRCAT; STRNCAT; SSCANF; HOMEBREW];
  [Build_ATTACK_FORM t i c l f].

Ltac elements := repeat constructor.

Lemma attack_forms_all a : a ∈ attack_forms.
Proof.
  destruct a as [t i c l f]. unfold attack_forms.
  apply list_elem_of_bind. exists t. split; [|destruct t; elements].
  apply list_elem_of_bind. exists i. split; [|destruct i; elements].
  apply list_elem_of_bind. exists c. split; [|destruct c; elements].
  apply list_elem_of_bind. exists l. split; [|destruct l; elements].
  apply list_elem_of_bind. exists f. split; [|destruct f; elements].
  elements.
Qed.

(** A boolean property of an attack holds when it holds of every combination. *)
Lemma check_attacks (P : ATTACK_FORM -> bool) : forallb P attack_forms = true -> forall a, P a = true.
Proof.
  intros H a. rewrite forallb_forall in H. apply H, list_elem_of_In, attack_forms_all.
Qed.

Lemma is_attack_possible_valid a : is_attack_possible a = true <-> valid_attack a.
Proof.
  rewrite <-(bool_decide_eq_true (valid_attack a)).
  enough (Bool.eqb (is_attack_possible a) (bool_decide (valid_attack a)) = true) as H
    by (apply Bool.eqb_prop in H; by rewrite H).
  revert a. apply check_attacks. vm_compute. reflexivity.
Qed.

(** [is_attack_possible] accepts exactly the valid combinations: shellcode
    only with a copy that passes zeros, ROP only direct, data-only exactly for
    the targets that are variables, integer overflows and leaks only direct, a
    direct attack only on a code pointer of the segment of the buffer, and the
    two exceptions for the stack parameter and for the heap's jump buffer
    reached from BSS.  The names printed for an attack always exist, and each of
    the ten attacks of [main] is accepted. *)
Theorem is_attack_possible_iff a :
  (is_attack_possible a = true <-> valid_attack a) /\
  (exists names, print_current_test_parameters a = Some names) /\
  forall nr b, attack_of nr = Some b -> is_attack_possible b = true.
Proof.
  split; [apply is_attack_possible_valid|]. split.
  - destruct a as [[] [] [] [] []]; by eexists.
  - intros nr b. unfold attack_of. intros H.
    repeat case_match; try discriminate; injection H as <-; reflexivity.
Qed.

Example is_attack_possible_iff_witness :
  exists a, attack_of 10 = Some a /\ is_attack_possible a = true /\ valid_attack a.
Proof.
  eexists. split; [reflexivity|].
  destruct (is_attack_possible_iff
    (Build_ATTACK_FORM DIRECT RETURN_ORIENTED_PROGRAMMING STRUCT_FUNC_PTR_HEAP HEAP SPRINTF))
    as (H1 & _ & H2).
  split; [exact (H2 10 _ eq_refl)|]. apply H1. exact (H2 10 _ eq_refl).
Defined.
