(* ===== verification/RipeAttack.v ===== *)
(** * RIPE: performing an attack (zephyr-docker/workspace/ripe)

    [perform_attack] prepares the pointers, builds a payload, overflows a buffer
    with it and uses the code pointer it has overwritten.  The memory is a flat
    array of bytes, because what the program does is to write past its objects;
    where the compiler and the allocator place the objects is a parameter
    ([layout]).  What steers the program after the overflow is in that memory
    too and is read back from it: the static [attack], the local [buffer], whose
    address is taken, the block of the payload and the records of [malloc], which
    takes and returns the memory.  Locals whose address is not taken are
    registers.  So is [payload]: each field is assigned again before the only
    use that follows an overflow.  Of the build, stack canaries are left out. *)

From Stdlib Require Import ZArith Lia String Ascii.
From stdpp Require Import base tactics list numbers sets.
From S2P Require Import Prelude CArray Ripe.

(** ** Memory *)

Definition mem := Z -> Z.

Definition store (a : Z) (bs : list Z) (m : mem) : mem :=
  fun k => if (a <=? k) && (k <? a + lenZ bs) then getZ bs (k - a) else m k.
Definition load (a : Z) (n : nat) (m : mem) : list Z := map m (seqZ a (Z.of_nat n)).
Definition store32 (a v : Z) (m : mem) : mem := store a (le_split 4 v) m.
Definition load32 (a : Z) (m : mem) : Z := le_combine (load a 4 m).

(** The first zero byte from [a]. *)
Fixpoint strlen (fuel : nat) (a : Z) (m : mem) : outcome Z :=
  match fuel with
  | O => NoFuel
  | S fuel =>
      if m a =? 0 then Ok 0
      else match strlen fuel (a + 1) m with Ok n => Ok (n + 1) | e => e end
  end.

(** A string in a byte array: up to the first zero, which must be there. *)
Fixpoint cstring (bs : list Z) : option (list Z) :=
  match bs with
  | [] => None
  | b :: bs => if b =? 0 then Some [] else cons b <$> cstring bs
  end.

(** ** Where the objects are *)

Record layout := {
  (** the static [attack], and the local [buffer] *)
  attack_addr : Z; buffer_addr : Z;
  (** code *)
  dummy_function : Z; shellcode_target : Z; ret2libc_target : Z; rop_target : Z;
  (** the frame of perform_attack *)
  ret_addr_ptr : Z; stack_func_ptr_param : Z; stack_jmp_buffer_param : Z;
  stack_jmp_buffer : Z; stack_func_ptr : Z; stack_mem_ptr : Z; stack_mem_ptr_aux : Z;
  stack_flag : Z; stack_secret : Z; stack_buffer : Z; stack_struct : Z;
  (** the frames of set_low_buf and dop_target *)
  low_buf : Z; auth_loc : Z;
  (** what malloc returns *)
  heap_struct : Z; heap_buffer1 : Z; heap_buffer2 : Z; heap_buffer3 : Z; heap_flag : Z;
  heap_func_block : Z; heap_jmp_block : Z;
  (** .bss *)
  bss_func_ptr : Z; bss_flag : Z; bss_mem_ptr_aux : Z; bss_mem_ptr : Z; bss_secret : Z;
  bss_buffer : Z; bss_jmp_buffer : Z; bss_struct : Z;
  (** .data *)
  data_struct : Z; data_buffer1 : Z; data_buffer2 : Z; data_secret : Z; data_flag : Z;
  data_mem_ptr_aux : Z; data_mem_ptr : Z; data_func_ptr : Z; data_jmp_buffer : Z;
  dop_dest : Z;
}.

(** The fields of [struct attackme] start at these offsets. *)
Definition func_ptr_offset : Z := 256.

Definition data_secret_value : list Z := string_bytes "success. Secret data leaked." ++ [10; 0].

(** ** The attack form in memory *)

(** [struct attack_form]: five words. *)
Definition form_bytes (a : ATTACK_FORM) : list Z :=
  le_split 4 (technique_number (technique_of a)) ++
  le_split 4 (inject_param_number (inject_param_of a)) ++
  le_split 4 (code_ptr_number (code_ptr_of a)) ++
  le_split 4 (location_number (location_of a)) ++
  le_split 4 (function_number (function_of a)).

(** The enumerator a word stands for: [None] is a value no case of a [switch]
    mentions. *)
Definition technique_at (L : layout) (m : mem) : option technique :=
  let v := load32 (attack_addr L) m in
  List.find (fun t => technique_number t =? v) [DIRECT; INDIRECT].
Definition inject_param_at (L : layout) (m : mem) : option inject_param :=
  let v := load32 (attack_addr L + 4) m in
  List.find (fun i => inject_param_number i =? v)
    [INJECTED_CODE_NO_NOP; RETURN_INTO_LIBC; RETURN_ORIENTED_PROGRAMMING; DATA_ONLY].
Definition code_ptr_at (L : layout) (m : mem) : option code_ptr :=
  let v := load32 (attack_addr L + 8) m in
  List.find (fun c => code_ptr_number c =? v)
    [RET_ADDR; FUNC_PTR_STACK_VAR; FUNC_PTR_STACK_PARAM; FUNC_PTR_HEAP; FUNC_PTR_BSS;
     FUNC_PTR_DATA; LONGJMP_BUF_STACK_VAR; LONGJMP_BUF_STACK_PARAM; LONGJMP_BUF_HEAP;
     LONGJMP_BUF_BSS; LONGJMP_BUF_DATA; STRUCT_FUNC_PTR_STACK; STRUCT_FUNC_PTR_HEAP;
     STRUCT_FUNC_PTR_DATA; STRUCT_FUNC_PTR_BSS; VAR_BOF; VAR_IOF; VAR_LEAK].
Definition location_at (L : layout) (m : mem) : option location :=
  let v := load32 (attack_addr L + 12) m in
  List.find (fun l => location_number l =? v) [STACK; HEAP; BSS; DATA].
Definition function_at (L : layout) (m : mem) : option function :=
  let v := load32 (attack_addr L + 16) m in
  List.find (fun f => function_number f =? v)
    [MEMCPY; STRCPY; STRNCPY; SPRINTF; SNPRINTF; STRCAT; STRNCAT; SSCANF; HOMEBREW].

(** ** build_payload *)

(** [payload.buffer] is [None] until [build_payload] sets it, and if it is null. *)
Record CHARPAYLOAD := { size : Z; overflow_ptr : Z; payload_buffer : option Z }.

(** Writing into the allocated block, undefined outside it. *)
Definition put (off : Z) (bs buf : list Z) : option (list Z) :=
  if (0 <=? off) && (off + lenZ bs <=? lenZ buf)
  then Some (take (Z.to_nat off) buf ++ bs ++ drop (Z.to_nat (off + lenZ bs)) buf)
  else None.

Definition size_shellcode_nonop : Z := 12.

Section Payload.
(** [attack.inject_param] and [attack.code_ptr] as they are at the call. *)
Context (inject : option inject_param) (ptr : option code_ptr) (shellcode_nonop : list Z).
(** [malloc] keeps its records in memory: the block, and the memory after it. *)
Context (malloc : mem -> Z -> option (Z * mem)).

(** The part after the [switch], with the code to inject chosen. *)
Definition fill_payload (p : CHARPAYLOAD) (shellcode : list Z) (size_shellcode : Z) (m : mem) :
    outcome (bool * CHARPAYLOAD * mem) :=
  match malloc m (size p) with
  | None =>
      Ok (false, {| size := size p; overflow_ptr := overflow_ptr p; payload_buffer := None |}, m)
  | Some (block, m) =>
      let bytes_to_pad := u32 (size p - size_shellcode - 4 - 1) in
      let buf := load block (Z.to_nat (size p)) m in
      match
        buf ← put 0 (take (Z.to_nat size_shellcode) shellcode) buf;
        (if size_shellcode + bytes_to_pad <=? lenZ buf then
           buf ← put size_shellcode (replicate (Z.to_nat bytes_to_pad) 65) buf;
           buf ← (if bool_decide (ptr = Some VAR_IOF) then Some buf
                  else put (size_shellcode + bytes_to_pad) (le_split 4 (overflow_ptr p)) buf);
           put (size p - 1) [0] buf
         else None)
      with
      | Some buf =>
          Ok (true, {| size := size p; overflow_ptr := overflow_ptr p;
                       payload_buffer := Some block |}, store block buf m)
      | None => Ub
      end
  end.

(** With no case of the [switch], the code to copy is not initialised. *)
Definition build_payload (p : CHARPAYLOAD) (m : mem) : outcome (bool * CHARPAYLOAD * mem) :=
  match inject with
  | Some INJECTED_CODE_NO_NOP =>
      if size p <? size_shellcode_nonop + 4 then Ok (false, p, m)
      else fill_payload p shellcode_nonop size_shellcode_nonop m
  | Some DATA_ONLY =>
      let sz := if bool_decide (ptr = Some VAR_IOF) then 256 + 4 + 1 else size p in
      let p := {| size := sz; overflow_ptr := overflow_ptr p;
                  payload_buffer := payload_buffer p |} in
      if bool_decide (ptr = Some VAR_LEAK) then
        let sz := u32 (size p + 32 - 4) in
        match payload_buffer p with
        | Some buf =>
            Ok (true, {| size := 4; overflow_ptr := overflow_ptr p; payload_buffer := Some buf |},
                store buf [Z.land sz 255; u8 (sz / 256); 65; 0] m)
        | None => Ub
        end
      else if size p <? 4 then Ok (false, p, m)
      else fill_payload p (string_bytes "dummy") 0 m
  | Some RETURN_ORIENTED_PROGRAMMING | Some RETURN_INTO_LIBC =>
      if size p <? 4 then Ok (false, p, m)
      else fill_payload p (string_bytes "dummy") 0 m
  | None => Ub
  end.
End Payload.

(** ** The overflow *)

Section Copy.
Context (fuel : nat).

(** [strcat(buffer, bs)]: after the string that is there. *)
Definition append_string (buffer : Z) (s : list Z) (m : mem) : outcome mem :=
  match strlen fuel buffer m with
  | Ok n => Ok (store (buffer + n) (s ++ [0]) m)
  | NoFuel => NoFuel
  | Ub => Ub
  end.

(** The loop of [homebrew_memcpy]. *)
Fixpoint homebrew_memcpy (d s : Z) (length : nat) (m : mem) {struct length} : mem :=
  match length with
  | O => m
  | S length => homebrew_memcpy (d + 1) (s + 1) length (store d [m s] m)
  end.

(** Two ranges of addresses, each a start and a length, that do not meet. *)
Definition apart (r s : Z * Z) : bool := (r.1 + r.2 <=? s.1) || (s.1 + s.2 <=? r.1).

(** The function [attack.function] copies the payload with, from its block [src]
    of [sz] bytes.  The library functions are undefined when they copy between
    blocks that overlap; a string must end within its block. *)
Definition overflow (f : function) (buffer src sz : Z) (m : mem) : outcome mem :=
  let payload := load src (Z.to_nat sz) m in
  let library k := if apart (buffer, sz) (src, sz) then k tt else Ub in
  let with_string k :=
    library (fun _ => match cstring payload with Some s => k s | None => Ub end) in
  match f with
  | MEMCPY => library (fun _ => Ok (store buffer (take (Z.to_nat (sz - 1)) payload) m))
  | STRCPY | SPRINTF => with_string (fun s => Ok (store buffer (s ++ [0]) m))
  | STRNCPY =>
      with_string (fun s =>
        let s := take (Z.to_nat sz) s in
        Ok (store buffer (s ++ replicate (Z.to_nat sz - length s) 0) m))
  | SNPRINTF =>
      with_string (fun s => Ok (store buffer (take (Z.to_nat (sz - 1)) s ++ [0]) m))
  | STRCAT => with_string (fun s => append_string buffer s m)
  | STRNCAT => with_string (fun s => append_string buffer (take (Z.to_nat sz) s) m)
  | SSCANF => Ok m
  | HOMEBREW => Ok (homebrew_memcpy buffer src (Z.to_nat (sz - 1)) m)
  end.
End Copy.

(** ** perform_attack *)

(** How control leaves [perform_attack]: [exit(code)], a return to the address
    in its frame, a call through a function pointer, [longjmp] to the address in
    the jump buffer, [dop_target]'s verdict, or the bytes [data_leak] prints. *)
Inductive ending :=
| Exited (code : Z)
| Returned (pc : Z)
| Called (pc : Z)
| Longjmped (pc : Z)
| Dop (success : bool)
| Leaked (output : list Z).

Record locals := {
  buffer : Z;
  heap_func_ptr : Z;
  heap_jmp_buffer : option Z;
  heap_mem_ptr_aux : option Z;
  heap_mem_ptr : option Z;
  heap_secret : option Z;
}.

Definition at_buffer (b : Z) : locals :=
  {| buffer := b; heap_func_ptr := 0; heap_jmp_buffer := None; heap_mem_ptr_aux := None;
     heap_mem_ptr := None; heap_secret := None |}.

(** The buffer's locals once the heap pointers are set to a block of the heap. *)
Definition with_heap (b f j : Z) : locals :=
  {| buffer := b; heap_func_ptr := f; heap_jmp_buffer := Some j; heap_mem_ptr_aux := None;
     heap_mem_ptr := None; heap_secret := None |}.

Section Attack.
Context (L : layout) (attack : ATTACK_FORM).
(** [setjmp] stores [setjmp_image]; [longjmp] resumes at the word at [jmp_pc]. *)
Context (setjmp_image : list Z) (jmp_pc : Z).
Context (malloc : mem -> Z -> option (Z * mem)) (fuel : nat).

#[local] Abbreviation tech t := (bool_decide (technique_of attack = t)).
#[local] Abbreviation inject i := (bool_decide (inject_param_of attack = i)).
#[local] Abbreviation ptr c := (bool_decide (code_ptr_of attack = c)).

(** The initialisations before the [switch] on the location. *)
Definition init_targets (m : mem) : mem :=
  let m := store (stack_secret L) data_secret_value m in
  let m := store32 (stack_struct L + func_ptr_offset) (dummy_function L) m in
  store32 (heap_struct L + func_ptr_offset) (dummy_function L) m.

Definition init_bss (m : mem) : mem :=
  store (bss_secret L) data_secret_value (store (bss_buffer L) [97] m).

(** The [switch] on the location: the buffer and the pointers that go with it,
    [None] when the heap buffers are in the wrong order. *)
Definition choose_buffer (m : mem) : option (locals * mem) :=
  match location_of attack with
  | STACK =>
      let b :=
        if ptr STRUCT_FUNC_PTR_STACK && tech DIRECT then stack_struct L
        else if ptr FUNC_PTR_STACK_PARAM && tech DIRECT then low_buf L
        else stack_buffer L in
      let m := if inject DATA_ONLY then store32 (stack_mem_ptr L) (stack_flag L) m else m in
      Some (with_heap b (heap_buffer1 L) (heap_buffer1 L), m)
  | HEAP =>
      if ptr STRUCT_FUNC_PTR_HEAP && tech DIRECT then Some (at_buffer (heap_struct L), m)
      else if (heap_buffer1 L <? heap_buffer2 L) && (heap_buffer2 L <? heap_buffer3 L) then
        let leak := ptr VAR_LEAK in
        let m := if leak then store (heap_buffer2 L) data_secret_value m else m in
        Some ({| buffer := heap_buffer1 L; heap_func_ptr := heap_func_block L;
                 heap_jmp_buffer := Some (heap_jmp_block L);
                 heap_mem_ptr_aux := Some (heap_buffer2 L);
                 heap_mem_ptr :=
                   Some (if inject DATA_ONLY then heap_flag L else heap_buffer3 L);
                 heap_secret := if leak then Some (heap_buffer2 L) else None |}, m)
      else None
  | DATA =>
      if ptr STRUCT_FUNC_PTR_DATA then Some (at_buffer (data_struct L), m)
      else
        let b := if (ptr FUNC_PTR_DATA || ptr VAR_BOF) && tech DIRECT
                 then data_buffer2 L else data_buffer1 L in
        let m := if inject DATA_ONLY
                 then store32 (data_mem_ptr L) (data_flag L) (store32 (data_flag L) 0 m)
                 else m in
        Some (with_heap b (heap_buffer1 L) (heap_buffer1 L), m)
  | BSS =>
      if ptr STRUCT_FUNC_PTR_BSS then Some (at_buffer (bss_struct L), m)
      else
        let m := store32 (bss_flag L) 0 m in
        let m := store32 (bss_mem_ptr_aux L) (dummy_function L) m in
        let m := store32 (bss_mem_ptr L) (dummy_function L) m in
        let m := if inject DATA_ONLY then store32 (bss_mem_ptr L) (bss_flag L) m else m in
        Some ({| buffer := bss_buffer L; heap_func_ptr := heap_buffer1 L;
                 heap_jmp_buffer := None; heap_mem_ptr_aux := None;
                 heap_mem_ptr := None; heap_secret := None |}, m)
  end.

Definition init_heap_func_ptr (l : locals) (m : mem) : mem :=
  if heap_func_ptr l =? 0 then m else store32 (heap_func_ptr l) (dummy_function L) m.

(** Where each code pointer is; [None] reads a pointer that was never set. *)
Definition code_ptr_addr (c : code_ptr) (l : locals) : option Z :=
  match c with
  | RET_ADDR => Some (ret_addr_ptr L)
  | FUNC_PTR_STACK_VAR => Some (stack_func_ptr L)
  | FUNC_PTR_STACK_PARAM => Some (stack_func_ptr_param L)
  | FUNC_PTR_HEAP => Some (heap_func_ptr l)
  | FUNC_PTR_BSS => Some (bss_func_ptr L)
  | FUNC_PTR_DATA => Some (data_func_ptr L)
  | LONGJMP_BUF_STACK_VAR => Some (stack_jmp_buffer L)
  | LONGJMP_BUF_STACK_PARAM => Some (stack_jmp_buffer_param L)
  | LONGJMP_BUF_HEAP => heap_jmp_buffer l
  | LONGJMP_BUF_DATA => Some (data_jmp_buffer L)
  | LONGJMP_BUF_BSS => Some (bss_jmp_buffer L)
  | STRUCT_FUNC_PTR_STACK => Some (stack_struct L + func_ptr_offset)
  | STRUCT_FUNC_PTR_HEAP => Some (heap_struct L + 256)
  | STRUCT_FUNC_PTR_DATA => Some (data_struct L + func_ptr_offset)
  | STRUCT_FUNC_PTR_BSS => Some (bss_struct L + func_ptr_offset)
  | VAR_BOF | VAR_IOF | VAR_LEAK => Some (dop_dest L)
  end.

(** The address the first overflow reaches: [target_addr], and
    [target_addr_aux], set for an indirect attack only. *)
Definition target_addr (l : locals) : option Z :=
  match technique_of attack with
  | DIRECT =>
      match code_ptr_of attack with
      | VAR_BOF | VAR_IOF =>
          Some match location_of attack with
               | STACK => stack_flag L
               | HEAP => heap_flag L
               | DATA => data_flag L
               | BSS => bss_flag L
               end
      | VAR_LEAK =>
          match location_of attack with
          | STACK => Some (stack_secret L)
          | HEAP => heap_secret l
          | DATA => Some (data_secret L)
          | BSS => Some (bss_secret L)
          end
      | c => code_ptr_addr c l
      end
  | INDIRECT =>
      match location_of attack with
      | STACK => Some (stack_mem_ptr L)
      | HEAP => heap_mem_ptr l
      | DATA => Some (data_mem_ptr L)
      | BSS => Some (bss_mem_ptr L)
      end
  end.

Definition target_addr_aux (l : locals) : option Z :=
  match location_of attack with
  | STACK => Some (stack_mem_ptr_aux L)
  | HEAP => heap_mem_ptr_aux l
  | DATA => Some (data_mem_ptr_aux L)
  | BSS => Some (bss_mem_ptr_aux L)
  end.

(** The [switch] that calls [setjmp] on the chosen buffer. *)
Definition set_longjmp_buffers (l : locals) (m : mem) : option mem :=
  match code_ptr_of attack with
  | LONGJMP_BUF_STACK_VAR | LONGJMP_BUF_STACK_PARAM | LONGJMP_BUF_HEAP
  | LONGJMP_BUF_DATA | LONGJMP_BUF_BSS =>
      b ← code_ptr_addr (code_ptr_of attack) l; Some (store b setjmp_image m)
  | _ => Some m
  end.

(** [payload.overflow_ptr]. *)
Definition choose_overflow_ptr (l : locals) : option Z :=
  match technique_of attack with
  | DIRECT =>
      Some match inject_param_of attack with
           | RETURN_INTO_LIBC => ret2libc_target L
           | RETURN_ORIENTED_PROGRAMMING => rop_target L
           | INJECTED_CODE_NO_NOP => buffer l
           | DATA_ONLY => 3735928559
           end
  | INDIRECT => code_ptr_addr (code_ptr_of attack) l
  end.

(** The second general pointer, read for the write through the first: nothing is
    written for a location no case mentions. *)
Definition aux_pointer (l : locals) (m : mem) : outcome (option Z) :=
  match location_at L m with
  | Some STACK => Ok (Some (load32 (stack_mem_ptr_aux L) m))
  | Some HEAP =>
      match heap_mem_ptr_aux l with Some a => Ok (Some (load32 a m)) | None => Ub end
  | Some DATA => Ok (Some (load32 (data_mem_ptr_aux L) m))
  | Some BSS => Ok (Some (load32 (bss_mem_ptr_aux L) m))
  | None => Ok None
  end.

(** What an indirect attack does through the overwritten general pointer. *)
Definition indirect_writes (l : locals) (shellcode : list Z) (target : Z) (p : CHARPAYLOAD)
    (m : mem) : outcome mem :=
  let m := match function_at L m with
           | Some SSCANF =>
               let m := store32 target (u32 (Z.shiftl (load32 target m) 8)) m in
               store32 target (Z.shiftr (load32 target m) 8) m
           | _ => m
           end in
  match inject_param_at L m with
  | Some RETURN_INTO_LIBC =>
      match target_addr_aux l with
      | None => Ub
      | Some aux =>
          let p := {| size := u32 (aux - load32 (buffer_addr L) m + 4 + 1);
                      overflow_ptr := ret2libc_target L; payload_buffer := payload_buffer p |} in
          match build_payload (inject_param_at L m) (code_ptr_at L m) shellcode malloc p m with
          | Ok (_, {| size := sz; payload_buffer := Some src |}, m) =>
              match overflow fuel MEMCPY (load32 (buffer_addr L) m) src sz m with
              | Ok m =>
                  match aux_pointer l m with
                  | Ok (Some v) => Ok (store32 (load32 target m) v m)
                  | Ok None => Ok m
                  | NoFuel => NoFuel
                  | Ub => Ub
                  end
              | e => e
              end
          | Ok _ => Ub
          | NoFuel => NoFuel
          | Ub => Ub
          end
      end
  | Some INJECTED_CODE_NO_NOP =>
      Ok (store32 (load32 target m) (load32 (buffer_addr L) m) m)
  | _ => Ok m
  end.

(** [iof]: the hash table write with a length that wraps. *)
Definition iof (buf iv : Z) (m : mem) : outcome mem :=
  match strlen fuel buf m with
  | Ok n =>
      let len := u8 n in
      match malloc m len with
      | Some (map, m) =>
          let key := u32 (iv - map) in
          let key := Z.land key (u32 (u16 len - 1)) in
          Ok (store (u32 (map + key)) [161] m)
      | None => Ub
      end
  | NoFuel => NoFuel
  | Ub => Ub
  end.

Definition dop_target (buf auth : Z) (m : mem) : outcome (ending * mem) :=
  let m := store32 (auth_loc L) auth m in
  match
    (if bool_decide (code_ptr_at L m = Some VAR_IOF) then iof buf (auth_loc L) m else Ok m)
  with
  | Ok m => Ok (Dop (negb (load32 (auth_loc L) m =? 0)), m)
  | NoFuel => NoFuel
  | Ub => Ub
  end.

Definition data_leak (buf : Z) (m : mem) : outcome (ending * mem) :=
  let sz := u16 (m buf + m (buf + 1) * 256) in
  match malloc m sz with
  | Some (msg, m) =>
      if apart (msg, sz) (buf + 2, sz) then
        let m := store msg (load (buf + 2) (Z.to_nat sz) m) m in
        Ok (Leaked (List.filter (fun c => 32 <=? c) (load msg (Z.to_nat sz) m)), m)
      else Ub
  | None => Ub
  end.

(** [lj_func]. *)
Definition lj_func (lj_buf : Z) (m : mem) : ending := Longjmped (load32 (lj_buf + jmp_pc) m).

(** The address the last [switch] uses: [None] for a pointer that was never set. *)
Definition use_pointer (a : option Z) (how : Z -> ending) (m : mem) : outcome (ending * mem) :=
  match a with Some a => Ok (how a, m) | None => Ub end.

(** The last [switch]: the use of the code pointer.  Without a case,
    [perform_attack] returns. *)
Definition execute_attack (l : locals) (m : mem) : outcome (ending * mem) :=
  let return_to_caller := Ok (Returned (load32 (ret_addr_ptr L) m), m) in
  match code_ptr_at L m with
  | Some RET_ADDR | None => return_to_caller
  | Some ((FUNC_PTR_STACK_VAR | FUNC_PTR_STACK_PARAM | FUNC_PTR_HEAP | FUNC_PTR_BSS
          | FUNC_PTR_DATA | STRUCT_FUNC_PTR_STACK | STRUCT_FUNC_PTR_HEAP | STRUCT_FUNC_PTR_DATA
          | STRUCT_FUNC_PTR_BSS) as c) =>
      use_pointer (code_ptr_addr c l) (fun a => Called (load32 a m)) m
  | Some ((LONGJMP_BUF_STACK_VAR | LONGJMP_BUF_STACK_PARAM | LONGJMP_BUF_HEAP
          | LONGJMP_BUF_DATA | LONGJMP_BUF_BSS) as c) =>
      use_pointer (code_ptr_addr c l) (fun b => lj_func b m) m
  | Some (VAR_BOF | VAR_IOF) =>
      let buf := load32 (buffer_addr L) m in
      match location_at L m with
      | Some STACK => dop_target buf (load32 (load32 (stack_mem_ptr L) m) m) m
      | Some HEAP =>
          match heap_mem_ptr l with
          | Some p => dop_target buf (load32 p m) m
          | None => Ub
          end
      | Some DATA => dop_target buf (load32 (load32 (data_mem_ptr L) m) m) m
      | Some BSS => dop_target buf (load32 (load32 (bss_mem_ptr L) m) m) m
      | None => return_to_caller
      end
  | Some VAR_LEAK => data_leak (load32 (buffer_addr L) m) m
  end.

(** From the overflow on, [attack] and [buffer] are what the memory holds. *)
Definition after_overflow (l : locals) (shellcode : list Z) (target : Z) (p : CHARPAYLOAD)
    (m : mem) : outcome (ending * mem) :=
  match technique_at L m with
  | Some DIRECT => execute_attack l m
  | Some INDIRECT =>
      match indirect_writes l shellcode target p m with
      | Ok m => execute_attack l m
      | NoFuel => NoFuel
      | Ub => Ub
      end
  | None => Ok (Exited 1, m)
  end.

(** From the size of the payload on. *)
Definition strike (l : locals) (shellcode : list Z) (target ovf : Z) (m : mem) :
    outcome (ending * mem) :=
  if target <=? buffer l then Ok (Exited 1, m)
  else
    let p := {| size := u32 (target + 4 - buffer l + 1); overflow_ptr := ovf;
                payload_buffer := None |} in
    let m := store (buffer l) [0] m in
    match build_payload (Some (inject_param_of attack)) (Some (code_ptr_of attack)) shellcode
            malloc p m with
    | Ok (false, _, m) => Ok (Exited 1, m)
    | Ok (true, p, m) =>
        match payload_buffer p with
        | None => Ub
        | Some src =>
            match overflow fuel (function_of attack) (buffer l) src (size p) m with
            | Ok m => after_overflow l shellcode target p m
            | NoFuel => NoFuel
            | Ub => Ub
            end
        end
    | NoFuel => NoFuel
    | Ub => Ub
    end.

Definition perform_attack (m : mem) : outcome (ending * mem) :=
  let m := init_targets m in
  if (heap_buffer1 L =? 0) || (heap_buffer2 L =? 0) then Ok (Exited 1, m)
  else
    let m := init_bss m in
    match build_shellcode (shellcode_target L), choose_buffer m with
    | None, _ => Ub
    | Some _, None => Ok (Exited 1, m)
    | Some shellcode, Some (l, m) =>
        let m := store32 (buffer_addr L) (buffer l) m in
        let m := init_heap_func_ptr l m in
        match
          t ← target_addr l; m ← set_longjmp_buffers l m; o ← choose_overflow_ptr l;
          Some (t, o, m)
        with
        | Some (t, o, m) => strike l shellcode t o m
        | None => Ub
        end
    end.

Definition ATTACK_IMPOSSIBLE : Z := -900.

(** [attack] is the form [main] has stored at [attack_addr]. *)
Definition try_attack (m : mem) : outcome (ending * mem) :=
  if is_attack_possible attack then perform_attack m else Ok (Exited ATTACK_IMPOSSIBLE, m).
End Attack.

(** [main], for an [ATTACK_NR]. *)
Definition main_attack (L : layout) (attack_nr : Z) (setjmp_image : list Z) (jmp_pc : Z)
    (malloc : mem -> Z -> option (Z * mem)) (fuel : nat) (m : mem) :
    option (outcome (ending * mem)) :=
  attack ← attack_of attack_nr;
  Some (try_attack L attack setjmp_image jmp_pc malloc fuel
          (store (attack_addr L) (form_bytes attack) m)).

(** ** Memory lemmas *)

(** The bytes [bs] are in the memory from [a]. *)
Definition holds (m : mem) (a : Z) (bs : list Z) : Prop :=
  forall i, 0 <= i < lenZ bs -> m (a + i) = getZ bs i.

Lemma store_in a bs m k : a <= k < a + lenZ bs -> store a bs m k = getZ bs (k - a).
Proof.
  intros. unfold store. by rewrite (proj2 (Z.leb_le _ _)), (proj2 (Z.ltb_lt _ _)) by lia.
Qed.

Lemma store_out a bs m k : k < a \/ a + lenZ bs <= k -> store a bs m k = m k.
Proof.
  intros. unfold store. destruct (Z.leb_spec a k), (Z.ltb_spec k (a + lenZ bs)); simpl; lia || done.
Qed.

Lemma store_holds a bs m : holds (store a bs m) a bs.
Proof. intros i Hi. rewrite store_in by lia. f_equal. lia. Qed.

Lemma holds_app m a bs cs : holds m a (bs ++ cs) <-> holds m a bs /\ holds m (a + lenZ bs) cs.
Proof.
  unfold holds. split.
  - intros H. split; intros i Hi.
    + rewrite H by (rewrite lenZ_app; pose proof (lenZ_nonneg cs); lia).
      by apply getZ_app_l.
    + rewrite <-Z.add_assoc, H by (rewrite lenZ_app; pose proof (lenZ_nonneg bs); lia).
      rewrite getZ_app_r by lia. f_equal. lia.
  - intros [H1 H2] i Hi. rewrite lenZ_app in Hi. destruct (decide (i < lenZ bs)).
    + rewrite getZ_app_l by lia. apply H1. lia.
    + rewrite getZ_app_r by lia. rewrite <-H2 by lia. f_equal. lia.
Qed.

Lemma load_holds m a bs : holds m a bs -> load a (length bs) m = bs.
Proof.
  revert a. induction bs as [|b bs IH]; intros a H; [done|].
  apply (holds_app m a [b] bs) in H as [H1 H2]. unfold load. cbn [length].
  rewrite Nat2Z.inj_succ, seqZ_cons by lia. simpl. f_equal.
  - rewrite <-(Z.add_0_r a). by apply (H1 0).
  - rewrite Z.pred_succ. by apply IH.
Qed.

Lemma load32_holds m a v : 0 <= v < 4294967296 -> holds m a (le_split 4 v) -> load32 a m = v.
Proof.
  intros Hv H. apply load_holds in H. unfold load32.
  rewrite le_split_length in H. rewrite H. by apply le_combine_split.
Qed.

Lemma load32_store32 a v m : 0 <= v < 4294967296 -> load32 a (store32 a v m) = v.
Proof. intros. apply load32_holds; [done|]. apply store_holds. Qed.

(** ** build_payload *)

Lemma put_Some off bs buf :
  0 <= off -> off + lenZ bs <= lenZ buf ->
  put off bs buf =
    Some (take (Z.to_nat off) buf ++ bs ++ drop (Z.to_nat (off + lenZ bs)) buf).
Proof.
  intros. unfold put. by rewrite (proj2 (Z.leb_le _ _)), (proj2 (Z.leb_le _ _)) by lia.
Qed.

Lemma put_length off bs buf buf' : put off bs buf = Some buf' -> lenZ buf' = lenZ buf.
Proof.
  unfold put. destruct (Z.leb_spec 0 off), (Z.leb_spec (off + lenZ bs) (lenZ buf)); simpl;
    [|done..]. intros [= <-]. unfold lenZ in *.
  rewrite !length_app, length_take, length_drop. lia.
Qed.

(** Writing after what has been written. *)
Lemma put_front pre bs rest :
  lenZ bs <= lenZ rest ->
  put (lenZ pre) bs (pre ++ rest) = Some ((pre ++ bs) ++ drop (length bs) rest).
Proof.
  intros Hlen. pose proof (lenZ_nonneg pre).
  rewrite put_Some by (rewrite ?lenZ_app; lia). f_equal.
  unfold lenZ in *. rewrite Nat2Z.id, take_app_length, Z2Nat.inj_add, !Nat2Z.id by lia.
  by rewrite drop_app_add, (assoc_L (++)).
Qed.

(** The payload: the code, padding, the pointer and the terminator. *)
Definition payload_bytes (code : list Z) (sz ovf : Z) : list Z :=
  code ++ replicate (Z.to_nat (sz - lenZ code - 5)) 65 ++ le_split 4 ovf ++ [0].

Lemma payload_bytes_length code sz ovf :
  lenZ code + 5 <= sz -> lenZ (payload_bytes code sz ovf) = sz.
Proof.
  intros. unfold payload_bytes. rewrite !lenZ_app. unfold lenZ.
  rewrite length_replicate, le_split_length. simpl. unfold lenZ in *. lia.
Qed.

Section PayloadFacts.
Context (ptr : option code_ptr) (malloc : mem -> Z -> option (Z * mem)).
Hypothesis no_iof : ptr <> Some VAR_IOF.

Lemma load_length a n m : lenZ (load a n m) = Z.of_nat n.
Proof. unfold load, lenZ. rewrite length_map, length_seqZ. lia. Qed.

Lemma fill_payload_layout p shellcode n m block m1 :
  malloc m (size p) = Some (block, m1) -> 0 <= n <= lenZ shellcode ->
  n + 5 <= size p < 4294967296 ->
  fill_payload ptr malloc p shellcode n m =
    Ok (true, {| size := size p; overflow_ptr := overflow_ptr p; payload_buffer := Some block |},
        store block
          (payload_bytes (take (Z.to_nat n) shellcode) (size p) (overflow_ptr p)) m1).
Proof.
  intros Hok Hn Hsz. unfold fill_payload. rewrite Hok.
  set (code := take (Z.to_nat n) shellcode).
  assert (lenZ code = n) as Hcode.
  { unfold code, lenZ in *. rewrite length_take. lia. }
  rewrite (u32_id (_ - _)) by lia.
  set (pad := size p - n - 4 - 1). set (buf := load block (Z.to_nat (size p)) m1).
  assert (lenZ buf = size p) as Hbuf.
  { unfold buf. rewrite load_length. lia. }
  replace (put 0 code buf) with (Some (code ++ drop (length code) buf))
    by (symmetry; apply (put_front [] code buf); lia).
  cbn [mbind option_bind].
  set (rest := drop (length code) buf).
  assert (lenZ rest = size p - n) as Hrest.
  { unfold rest. unfold lenZ in *. rewrite length_drop. lia. }
  rewrite (proj2 (Z.leb_le _ _)) by (rewrite lenZ_app; lia).
  rewrite <-Hcode at 1.
  assert (lenZ (replicate (Z.to_nat pad) 65) = pad) as Hpad.
  { unfold lenZ. rewrite length_replicate. lia. }
  rewrite put_front by lia. cbn [mbind option_bind].
  rewrite bool_decide_eq_false_2 by done.
  replace (n + pad) with (lenZ (code ++ replicate (Z.to_nat pad) 65))
    by (rewrite lenZ_app; lia).
  assert (forall v, lenZ (le_split 4 v) = 4) as Hsplit.
  { intros. unfold lenZ. by rewrite le_split_length. }
  rewrite put_front; last first.
  { rewrite Hsplit. unfold lenZ in *. rewrite length_drop. lia. }
  cbn [mbind option_bind].
  replace (size p - 1)
    with (lenZ ((code ++ replicate (Z.to_nat pad) 65) ++ le_split 4 (overflow_ptr p)))
    by (rewrite !lenZ_app, Hsplit; lia).
  rewrite put_front; last first.
  { unfold lenZ in *. rewrite !length_drop, le_split_length. simpl. lia. }
  rewrite drop_ge; last first.
  { rewrite !length_drop, le_split_length. unfold lenZ in *. simpl. lia. }
  rewrite app_nil_r, <-!(assoc_L (++)). unfold payload_bytes. rewrite Hcode.
  unfold pad.
  by replace (size p - n - 4 - 1) with (size p - n - 5) by lia.
Qed.

(** What a non-data payload is, for any injection but "dataonly". *)
Lemma build_payload_layout inject shellcode p m block m1 :
  inject <> DATA_ONLY -> malloc m (size p) = Some (block, m1) -> lenZ shellcode = 12 ->
  17 <= size p < 4294967296 ->
  build_payload (Some inject) ptr shellcode malloc p m =
    Ok (true, {| size := size p; overflow_ptr := overflow_ptr p; payload_buffer := Some block |},
        store block
          (payload_bytes (if decide (inject = INJECTED_CODE_NO_NOP) then shellcode else [])
             (size p) (overflow_ptr p)) m1).
Proof.
  intros Hi Hok Hlen Hsz. unfold build_payload.
  destruct inject; [| | |done].
  - unfold size_shellcode_nonop. rewrite (proj2 (Z.ltb_ge _ _)) by lia.
    erewrite fill_payload_layout by (done || lia). rewrite decide_True by done.
    by rewrite take_ge by (unfold lenZ in Hlen; lia).
  - rewrite (proj2 (Z.ltb_ge _ _)) by lia.
    erewrite fill_payload_layout by (done || (change (lenZ _) with 5; lia)).
    by rewrite decide_False by done.
  - rewrite (proj2 (Z.ltb_ge _ _)) by lia.
    erewrite fill_payload_layout by (done || (change (lenZ _) with 5; lia)).
    by rewrite decide_False by done.
Qed.
End PayloadFacts.

(** The guard of the injected payload lets one size too many through: with no
    room for the terminator the padding's length wraps around. *)
Lemma build_payload_size_16 ptr shellcode malloc ovf m block m1 :
  malloc m 16 = Some (block, m1) ->
  build_payload (Some INJECTED_CODE_NO_NOP) ptr shellcode malloc
    {| size := 16; overflow_ptr := ovf; payload_buffer := None |} m = Ub.
Proof.
  intros Hm. unfold build_payload. cbn [size].
  change (16 <? size_shellcode_nonop + 4) with false. cbn iota.
  unfold fill_payload. cbn [size]. rewrite Hm.
  change (u32 (16 - size_shellcode_nonop - 4 - 1)) with 4294967295.
  destruct (put 0 _ _) as [buf|] eqn:E; [|done]. cbn [mbind option_bind].
  apply put_length in E. rewrite (proj2 (Z.leb_gt _ _)); [done|].
  rewrite E, load_length. unfold size_shellcode_nonop. lia.
Qed.

(** ** The overflow functions *)

(** The functions that copy a pointer: the string functions stop at a zero. *)
Definition copies (f : function) (v : Z) : Prop :=
  match f with
  | MEMCPY | HOMEBREW => True
  | SSCANF => False
  | _ => v mod 256 <> 0 /\ v / 256 mod 256 <> 0 /\ v / 65536 mod 256 <> 0
  end.

Lemma cstring_app pre bs :
  Forall (fun b => b <> 0) pre -> cstring (pre ++ bs) = (fun s => pre ++ s) <$> cstring bs.
Proof.
  induction 1 as [|b pre Hb Hpre IH]; simpl; [by destruct (cstring bs)|].
  rewrite (proj2 (Z.eqb_neq _ _)), IH by done. by destruct (cstring bs).
Qed.

Lemma load_S a n m : load a (S n) m = m a :: load (a + 1) n m.
Proof. unfold load. rewrite Nat2Z.inj_succ, seqZ_cons by lia. simpl. by rewrite Z.pred_succ. Qed.

(** From a block apart, it copies what the block held. *)
Lemma homebrew_memcpy_store d s n m k :
  apart (d, Z.of_nat n) (s, Z.of_nat n) = true ->
  homebrew_memcpy d s n m k = store d (load s n m) m k.
Proof.
  revert d s m. induction n as [|n IH]; intros d s m Hap.
  - by rewrite store_out by (change (lenZ (load s 0 m)) with 0; lia).
  - unfold apart in Hap. cbn [fst snd] in Hap.
    apply orb_true_iff in Hap. rewrite !Z.leb_le in Hap.
    cbn [homebrew_memcpy]. rewrite IH, load_S.
    2:{ unfold apart. cbn [fst snd]. apply orb_true_iff. rewrite !Z.leb_le. lia. }
    assert (load (s + 1) n (store d [m s] m) = load (s + 1) n m) as ->.
    { unfold load. apply map_ext_in. intros a Ha. apply list_elem_of_In, elem_of_seqZ in Ha.
      apply store_out. change (lenZ [m s]) with 1. lia. }
    destruct (decide (k = d)) as [->|Hk].
    { rewrite store_out by lia. rewrite !store_in by (rewrite ?lenZ_cons; pose proof (load_length (s + 1) n m); change (lenZ []) with 0; lia).
      by rewrite Z.sub_diag. }
    pose proof (load_length (s + 1) n m) as Hl.
    destruct (decide (d < k < d + 1 + Z.of_nat n)).
    + rewrite !store_in by (rewrite ?lenZ_cons; lia).
      unfold getZ. replace (Z.to_nat (k - d)) with (S (Z.to_nat (k - (d + 1)))) by lia. done.
    + rewrite !store_out by (rewrite ?lenZ_cons; change (lenZ []) with 0; lia). done.
Qed.

Lemma strlen_zero fuel a m : (0 < fuel)%nat -> m a = 0 -> strlen fuel a m = Ok 0.
Proof. destruct fuel; [lia|]. intros _ H. simpl. by rewrite H. Qed.

(** What the string functions see of a payload that ends with a pointer. *)
Lemma cstring_payload pre v :
  Forall (fun b => b <> 0) pre -> copies STRCPY v ->
  exists s, cstring (pre ++ le_split 4 v ++ [0]) = Some s /\
    (s ++ [0] = pre ++ le_split 4 v /\ length s = (length pre + 3)%nat \/
     s = pre ++ le_split 4 v).
Proof.
  intros Hpre (Ha & Hb & Hc). rewrite cstring_app by done.
  cbn [le_split app cstring]. rewrite !Z.div_div by lia.
  rewrite (proj2 (Z.eqb_neq _ _)) by done. change (256 * 256) with 65536.
  rewrite (proj2 (Z.eqb_neq (v / 256 mod 256) _)) by done.
  rewrite (proj2 (Z.eqb_neq (v / 65536 mod 256) _)) by done.
  destruct (Z.eqb_spec (v / (65536 * 256) mod 256) 0) as [->|Hd]; cbn [fmap option_fmap option_map].
  - eexists. split; [done|]. left. rewrite <-(assoc_L (++)), length_app. done.
  - rewrite (proj2 (Z.eqb_eq 0 0)) by done. eexists. split; [done|]. by right.
Qed.

(** Every copying function writes the payload, with or without its terminator. *)
Lemma overflow_copies fuel f b src pre v m :
  (0 < fuel)%nat -> (f <> MEMCPY -> m b = 0) -> copies f v ->
  Forall (fun c => c <> 0) pre \/ f = MEMCPY \/ f = HOMEBREW ->
  apart (b, lenZ pre + 5) (src, lenZ pre + 5) = true ->
  holds m src (pre ++ le_split 4 v ++ [0]) ->
  exists m', overflow fuel f b src (lenZ pre + 5) m = Ok m' /\
    holds m' b (pre ++ le_split 4 v) /\
    forall k, k < b \/ b + lenZ pre + 5 <= k -> m' k = m k.
Proof.
  intros Hfuel Hb Hcopies Hpre Hap Hsrc.
  assert (Hload : load src (Z.to_nat (lenZ pre + 5)) m = pre ++ le_split 4 v ++ [0]).
  { rewrite <-(load_holds _ _ _ Hsrc) at 1. f_equal. rewrite !length_app, le_split_length.
    unfold lenZ. simpl. lia. }
  assert (Hlen : lenZ (pre ++ le_split 4 v) = lenZ pre + 4).
  { rewrite lenZ_app. unfold lenZ. by rewrite le_split_length. }
  assert (Hstore : forall bs, bs = pre ++ le_split 4 v \/ bs = (pre ++ le_split 4 v) ++ [0] ->
    holds (store b bs m) b (pre ++ le_split 4 v) /\
    forall k, k < b \/ b + lenZ pre + 5 <= k -> store b bs m k = m k).
  { intros bs Hbs. split.
    - destruct Hbs as [->| ->]; [apply store_holds|].
      by apply (holds_app _ _ _ [0]), store_holds.
    - intros k Hk. apply store_out.
      destruct Hbs as [->| ->]; rewrite ?(lenZ_app (_ ++ _)), Hlen; [lia|].
      change (lenZ [0]) with 1. lia. }
  assert (Htake : take (Z.to_nat (lenZ pre + 5 - 1)) (pre ++ le_split 4 v ++ [0]) =
                  pre ++ le_split 4 v).
  { rewrite (assoc_L (++)). apply take_app_length'. unfold lenZ in *. lia. }
  destruct (decide (f = MEMCPY)) as [->|Hm].
  { eexists. split; [|apply Hstore; left; reflexivity].
    unfold overflow. by rewrite Hap, Hload, Htake. }
  specialize (Hb Hm). destruct (decide (f = HOMEBREW)) as [->|Hh].
  { exists (homebrew_memcpy b src (Z.to_nat (lenZ pre + 5 - 1)) m). split; [done|].
    assert (Hm' : forall k, homebrew_memcpy b src (Z.to_nat (lenZ pre + 5 - 1)) m k =
                            store b (pre ++ le_split 4 v) m k).
    { intros k. pose proof (lenZ_nonneg pre). rewrite homebrew_memcpy_store.
      - do 2 f_equal. rewrite (assoc_L (++)) in Hsrc. apply holds_app in Hsrc as [Hsrc _].
        rewrite <-(load_holds _ _ _ Hsrc) at 1. f_equal. unfold lenZ in *. lia.
      - rewrite Z2Nat.id by lia. revert Hap. unfold apart. cbn [fst snd].
        rewrite !orb_true_iff, !Z.leb_le. lia. }
    destruct (Hstore (pre ++ le_split 4 v)) as [H1 H2]; [by left|]. split.
    - intros i Hi. rewrite Hm'. by apply H1.
    - intros k Hk. rewrite Hm'. by apply H2. }
  destruct Hpre as [Hpre|[?|?]]; [|done..].
  assert (Hc : copies STRCPY v) by (destruct f; done).
  destruct (cstring_payload pre v Hpre Hc) as (s & Hs & Hor).
  assert (Hw : s ++ [0] = pre ++ le_split 4 v \/ s ++ [0] = (pre ++ le_split 4 v) ++ [0]).
  { destruct Hor as [[? _]| ->]; [by left|by right]. }
  assert (Hsl : lenZ pre + 3 <= lenZ s <= lenZ pre + 4).
  { destruct Hor as [[_ Hl]| ->]; unfold lenZ in *; lia. }
  assert (Hts : forall n, lenZ pre + 4 <= n -> take (Z.to_nat n) s = s).
  { intros n Hn. apply take_ge. unfold lenZ in *. lia. }
  destruct f; try done; unfold overflow, append_string; cbv zeta;
    rewrite ?(strlen_zero fuel b m), ?Hap, ?Hload, ?Hs, ?Z.add_0_r, ?Hts by lia || done;
    (eexists; split; [reflexivity|]); try (by apply Hstore).
  apply Hstore. destruct Hor as [[<- Hl]|Hp].
  - right. rewrite <-(assoc_L (++)). do 2 f_equal.
    replace (Z.to_nat (lenZ pre + 5) - length s)%nat with 2%nat
      by (unfold lenZ in *; lia). done.
  - right. rewrite Hp at 1. f_equal.
    replace (Z.to_nat (lenZ pre + 5) - length s)%nat with 1%nat
      by (subst s; unfold lenZ in *; lia). done.
Qed.

(** ** Buffers and targets of the direct attacks *)

Definition transfer (c : code_ptr) (v : Z) : ending :=
  match c with
  | RET_ADDR => Returned v
  | LONGJMP_BUF_STACK_VAR | LONGJMP_BUF_STACK_PARAM | LONGJMP_BUF_HEAP
  | LONGJMP_BUF_DATA | LONGJMP_BUF_BSS => Longjmped v
  | _ => Called v
  end.

(** The buffer a direct attack on a code pointer overflows, and the pointer. *)
Definition direct_buffer (L : layout) (c : code_ptr) : Z :=
  match c with
  | STRUCT_FUNC_PTR_STACK => stack_struct L
  | FUNC_PTR_STACK_PARAM => low_buf L
  | RET_ADDR | FUNC_PTR_STACK_VAR | LONGJMP_BUF_STACK_VAR | LONGJMP_BUF_STACK_PARAM =>
      stack_buffer L
  | STRUCT_FUNC_PTR_HEAP => heap_struct L
  | FUNC_PTR_HEAP | LONGJMP_BUF_HEAP => heap_buffer1 L
  | STRUCT_FUNC_PTR_DATA => data_struct L
  | FUNC_PTR_DATA => data_buffer2 L
  | LONGJMP_BUF_DATA => data_buffer1 L
  | STRUCT_FUNC_PTR_BSS => bss_struct L
  | _ => bss_buffer L
  end.

Definition direct_target (L : layout) (c : code_ptr) : Z :=
  match c with
  | RET_ADDR => ret_addr_ptr L
  | FUNC_PTR_STACK_VAR => stack_func_ptr L
  | FUNC_PTR_STACK_PARAM => stack_func_ptr_param L
  | FUNC_PTR_HEAP => heap_func_block L
  | FUNC_PTR_BSS => bss_func_ptr L
  | FUNC_PTR_DATA => data_func_ptr L
  | LONGJMP_BUF_STACK_VAR => stack_jmp_buffer L
  | LONGJMP_BUF_STACK_PARAM => stack_jmp_buffer_param L
  | LONGJMP_BUF_HEAP => heap_jmp_block L
  | LONGJMP_BUF_DATA => data_jmp_buffer L
  | LONGJMP_BUF_BSS => bss_jmp_buffer L
  | STRUCT_FUNC_PTR_STACK => stack_struct L + 256
  | STRUCT_FUNC_PTR_HEAP => heap_struct L + 256
  | STRUCT_FUNC_PTR_DATA => data_struct L + 256
  | STRUCT_FUNC_PTR_BSS => bss_struct L + 256
  | VAR_BOF | VAR_IOF | VAR_LEAK => 0
  end.

(** Where the attack wants control to go. *)
Definition attack_goal (L : layout) (a : ATTACK_FORM) : Z :=
  match inject_param_of a with
  | INJECTED_CODE_NO_NOP => direct_buffer L (code_ptr_of a)
  | RETURN_INTO_LIBC => ret2libc_target L
  | _ => rop_target L
  end.

(** *** What lies where *)

Definition within (k : Z) (r : Z * Z) : Prop := r.1 <= k < r.1 + r.2.

(** [m'] has the bytes of [m] in the regions. *)
Definition agree (rs : list (Z * Z)) (m m' : mem) : Prop :=
  forall r k, r ∈ rs -> within k r -> m' k = m k.

(** [jmp_buf]: the fourteen registers of setjmp.h. *)
Definition jmp_buf_size : Z := 56.

(** What steers the program after the overflow. *)
Definition control (L : layout) : list (Z * Z) := [(attack_addr L, 20); (buffer_addr L, 4)].

(** The objects the program writes, and their sizes. *)
Definition objects (L : layout) : list (Z * Z) := [
  (ret_addr_ptr L, 4); (stack_func_ptr_param L, 4); (stack_jmp_buffer_param L, jmp_buf_size);
  (stack_jmp_buffer L, jmp_buf_size); (stack_func_ptr L, 4); (stack_mem_ptr L, 4);
  (stack_mem_ptr_aux L, 4); (stack_secret L, 32); (stack_struct L, 260);
  (heap_struct L, 260); (heap_buffer1 L, 260); (heap_buffer2 L, 260); (heap_buffer3 L, 260);
  (heap_func_block L, 4); (heap_jmp_block L, jmp_buf_size);
  (bss_func_ptr L, 4); (bss_flag L, 4); (bss_mem_ptr_aux L, 4); (bss_mem_ptr L, 4);
  (bss_secret L, 32); (bss_buffer L, 256); (bss_jmp_buffer L, jmp_buf_size);
  (bss_struct L, 260);
  (data_struct L, 260); (data_flag L, 4); (data_mem_ptr_aux L, 256); (data_mem_ptr L, 256);
  (data_func_ptr L, 4); (data_jmp_buffer L, jmp_buf_size)].

(** [attack], [buffer] and the records of [malloc] are apart from each other, from
    the objects and from the bytes [over] that are overflowed. *)
Definition placed (L : layout) (records : list (Z * Z)) (over : Z * Z) : bool :=
  apart (attack_addr L, 20) (buffer_addr L, 4) &&
  forallb (fun r => forallb (apart r) records) (control L) &&
  forallb (fun o => forallb (apart o) (control L ++ records)) (over :: objects L).

(** What [malloc] promises as long as its records are left alone: [ready n]
    requests of up to [limit] bytes get a block apart from its records and from
    the regions [used], and nothing else changes. *)
Record allocator (malloc : mem -> Z -> option (Z * mem)) (records used : list (Z * Z))
    (limit : Z) (ready : nat -> mem -> Prop) : Prop := {
  ready_agree n m m' : agree records m m' -> ready n m -> ready n m';
  malloc_block n m sz :
    ready (S n) m -> 0 < sz <= limit -> exists block m',
      malloc m sz = Some (block, m') /\ ready n m' /\
      (forall r, r ∈ used ++ records -> apart (block, sz) r = true) /\
      forall k, (forall r, r ∈ (block, sz) :: records -> ~ within k r) -> m' k = m k;
}.

(** The blocks the program checks are in the order it wants. *)
Definition heap_ordered (L : layout) : Prop :=
  0 < heap_buffer1 L < heap_buffer2 L /\ heap_buffer2 L < heap_buffer3 L.

Lemma apart_sym r s : apart r s = apart s r.
Proof. unfold apart. apply orb_comm. Qed.

Lemma apart_spec r s :
  apart r s = true -> r.1 + r.2 <= s.1 \/ s.1 + s.2 <= r.1.
Proof. unfold apart. by rewrite orb_true_iff, !Z.leb_le. Qed.

Lemma apart_within r s k : apart r s = true -> within k r -> ~ within k s.
Proof. intros H%apart_spec. unfold within. lia. Qed.

Lemma apart_inside r s a n :
  apart r s = true -> r.1 <= a -> a + n <= r.1 + r.2 -> apart (a, n) s = true.
Proof.
  intros H%apart_spec Ha Hn. unfold apart. cbn [fst snd]. rewrite orb_true_iff, !Z.leb_le. lia.
Qed.

Lemma agree_refl rs m : agree rs m m.
Proof. done. Qed.

Lemma agree_trans rs m m' m'' : agree rs m m' -> agree rs m' m'' -> agree rs m m''.
Proof. intros H1 H2 r k Hr Hk. by rewrite (H2 r), (H1 r). Qed.

Lemma agree_sub rs rs' m m' : rs' ⊆ rs -> agree rs m m' -> agree rs' m m'.
Proof. intros Hs H r k Hr. apply H. by apply Hs. Qed.

Lemma agree_store rs a bs m m' :
  (forall r, r ∈ rs -> apart (a, lenZ bs) r = true) -> agree rs m m' ->
  agree rs m (store a bs m').
Proof.
  intros Hap H r k Hr Hk. rewrite store_out; [by apply (H r)|].
  specialize (Hap r Hr). apply apart_spec in Hap. cbn [fst snd] in Hap. unfold within in Hk. lia.
Qed.

Lemma agree_holds rs m m' a n bs :
  agree rs m m' -> (a, n) ∈ rs -> lenZ bs <= n -> holds m a bs -> holds m' a bs.
Proof.
  intros H Hr Hn Hh i Hi. rewrite (H (a, n)); [by apply Hh|done|].
  unfold within. cbn [fst snd]. lia.
Qed.

Lemma le_split_4 v : lenZ (le_split 4 v) = 4.
Proof. unfold lenZ. by rewrite le_split_length. Qed.

Section Placed.
Context (L : layout) (records : list (Z * Z)) (over : Z * Z).
Hypothesis place : placed L records over = true.

Lemma placed_spec :
  apart (attack_addr L, 20) (buffer_addr L, 4) = true /\
  (forall r s, r ∈ control L -> s ∈ records -> apart r s = true) /\
  (forall r s, r ∈ over :: objects L -> s ∈ control L ++ records -> apart r s = true).
Proof.
  unfold placed in place. rewrite !andb_true_iff, !forallb_forall in place.
  destruct place as [[H1 H2] H3]. split; [done|]. split; intros r s Hr Hs.
  - apply list_elem_of_In in Hr, Hs. specialize (H2 r Hr). rewrite forallb_forall in H2. auto.
  - apply list_elem_of_In in Hr, Hs. specialize (H3 r Hr). rewrite forallb_forall in H3. auto.
Qed.

(** A write into an object leaves [attack], [buffer] and the records. *)
Lemma object_store a bs m m' :
  Exists (fun o => o.1 <= a /\ a + lenZ bs <= o.1 + o.2) (objects L) ->
  agree (control L ++ records) m m' -> agree (control L ++ records) m (store a bs m').
Proof.
  intros (o & Ho & H1 & H2)%Exists_exists Hag. apply agree_store; [|done].
  intros r Hr. apply (apart_inside o); [|done..].
  apply placed_spec; [by right|done].
Qed.
End Placed.

(** The payload without its terminator. *)
Definition payload_prefix (code : list Z) (n : Z) : list Z :=
  code ++ replicate (Z.to_nat (n - lenZ code)) 65.

Lemma payload_prefix_length code n : lenZ code <= n -> lenZ (payload_prefix code n) = n.
Proof.
  intros. unfold payload_prefix. rewrite lenZ_app. unfold lenZ in *.
  rewrite length_replicate. lia.
Qed.

Lemma payload_bytes_prefix code n v :
  payload_bytes code (n + 5) v = payload_prefix code n ++ le_split 4 v ++ [0].
Proof.
  unfold payload_bytes, payload_prefix. rewrite <-(assoc_L (++)).
  by replace (n + 5 - lenZ code - 5) with (n - lenZ code) by lia.
Qed.

Lemma payload_prefix_nonzero n : Forall (fun b => b <> 0) (payload_prefix [] n).
Proof. apply Forall_replicate. done. Qed.

(** *** The form read back *)

Lemma form_bytes_words m a (attack : ATTACK_FORM) :
  holds m a (form_bytes attack) ->
  load32 a m = technique_number (technique_of attack) /\
  load32 (a + 4) m = inject_param_number (inject_param_of attack) /\
  load32 (a + 8) m = code_ptr_number (code_ptr_of attack) /\
  load32 (a + 12) m = location_number (location_of attack) /\
  load32 (a + 16) m = function_number (function_of attack).
Proof.
  unfold form_bytes. rewrite !holds_app, !le_split_4, <-!Z.add_assoc.
  change (4 + (4 + (4 + 4))) with 16. change (4 + (4 + 4)) with 12. change (4 + 4) with 8.
  intros (H1 & H2 & H3 & H4 & H5).
  split_and!; (apply load32_holds; [|done]);
    [destruct (technique_of attack)|destruct (inject_param_of attack)
    |destruct (code_ptr_of attack)|destruct (location_of attack)
    |destruct (function_of attack)]; cbn; lia.
Qed.

Lemma form_at L m (attack : ATTACK_FORM) :
  holds m (attack_addr L) (form_bytes attack) ->
  technique_at L m = Some (technique_of attack) /\
  inject_param_at L m = Some (inject_param_of attack) /\
  code_ptr_at L m = Some (code_ptr_of attack) /\
  location_at L m = Some (location_of attack) /\
  function_at L m = Some (function_of attack).
Proof.
  intros (H1 & H2 & H3 & H4 & H5)%form_bytes_words.
  unfold technique_at, inject_param_at, code_ptr_at, location_at, function_at.
  rewrite H1, H2, H3, H4, H5.
  split_and!; [destruct (technique_of attack)|destruct (inject_param_of attack)
    |destruct (code_ptr_of attack)|destruct (location_of attack)
    |destruct (function_of attack)]; reflexivity.
Qed.

Lemma data_secret_length : lenZ data_secret_value = 30.
Proof. reflexivity. Qed.

Lemma attack_sub L (records : list (Z * Z)) :
  (attack_addr L, 20) :: records ⊆ control L ++ records.
Proof.
  intros x [->|Hx]%list.elem_of_cons; apply elem_of_app; [left; by left|by right].
Qed.

Lemma records_sub r (records : list (Z * Z)) : records ⊆ r :: records.
Proof. intros x Hx. by right. Qed.

Lemma buffer_in L (records : list (Z * Z)) : (buffer_addr L, 4) ∈ control L ++ records.
Proof. apply elem_of_app. left. right. by left. Qed.

(** The object a write falls into. *)
Ltac in_objects :=
  rewrite ?le_split_4, ?data_secret_length; change (lenZ [97]) with 1 in *; unfold objects;
  repeat first
    [ solve [apply Exists_cons_hd; unfold func_ptr_offset, jmp_buf_size; cbn; lia]
    | apply Exists_cons_tl ].

Section Setup.
Context (L : layout) (attack : ATTACK_FORM) (setjmp_image : list Z).
Context (records : list (Z * Z)) (over : Z * Z).
Hypothesis place : placed L records over = true.
Hypothesis image_size : lenZ setjmp_image = jmp_buf_size.

Ltac keep :=
  repeat (apply (object_store L records over place); [rewrite ?image_size; in_objects|]);
  apply agree_refl || assumption.

Lemma init_targets_agree m : agree (control L ++ records) m (init_targets L m).
Proof. unfold init_targets, store32. keep. Qed.

Lemma init_bss_agree m : agree (control L ++ records) m (init_bss L m).
Proof. unfold init_bss. keep. Qed.

Lemma choose_buffer_agree m l m1 :
  choose_buffer L attack m = Some (l, m1) ->
  agree (control L ++ records) m m1 /\
  (heap_func_ptr l = 0 \/ heap_func_ptr l = heap_buffer1 L \/
   heap_func_ptr l = heap_func_block L) /\
  (heap_jmp_buffer l = None \/ heap_jmp_buffer l = Some (heap_buffer1 L) \/
   heap_jmp_buffer l = Some (heap_jmp_block L)).
Proof.
  unfold choose_buffer, at_buffer, with_heap, store32.
  intros E. repeat (case_match; try discriminate);
    apply (inj Some), pair_equal_spec in E as [<- <-]; (split; [keep|]); cbn [heap_func_ptr heap_jmp_buffer]; auto.
Qed.

Lemma init_heap_func_ptr_agree m0 m l :
  heap_func_ptr l = 0 \/ heap_func_ptr l = heap_buffer1 L \/
    heap_func_ptr l = heap_func_block L ->
  agree (control L ++ records) m0 m ->
  agree (control L ++ records) m0 (init_heap_func_ptr L l m).
Proof.
  intros Hl H. unfold init_heap_func_ptr, store32.
  destruct (Z.eqb_spec (heap_func_ptr l) 0); [done|].
  destruct Hl as [?|[->| ->]]; [done| |]; keep.
Qed.

Lemma set_longjmp_buffers_agree m0 m l m1 :
  heap_jmp_buffer l = None \/ heap_jmp_buffer l = Some (heap_buffer1 L) \/
    heap_jmp_buffer l = Some (heap_jmp_block L) ->
  agree (control L ++ records) m0 m ->
  set_longjmp_buffers L attack setjmp_image l m = Some m1 ->
  agree (control L ++ records) m0 m1.
Proof.
  intros Hl H. unfold set_longjmp_buffers, code_ptr_addr.
  destruct (code_ptr_of attack); cbn [mbind option_bind]; try (intros [= <-]; keep).
  destruct Hl as [->|[->| ->]]; cbn [mbind option_bind]; [done| |]; intros [= <-]; keep.
Qed.

(** At the strike, [attack] and [buffer] are in memory and [malloc] can serve. *)
Definition intact (ready : nat -> mem -> Prop) (n : nat) (l : locals) (m : mem) : Prop :=
  holds m (attack_addr L) (form_bytes attack) /\
  holds m (buffer_addr L) (le_split 4 (buffer l)) /\ ready n m.

Lemma form_bytes_length : lenZ (form_bytes attack) = 20.
Proof. reflexivity. Qed.

Lemma setup_intact malloc used limit ready n m l m1 m2 :
  allocator malloc records used limit ready ->
  holds m (attack_addr L) (form_bytes attack) -> ready n m ->
  choose_buffer L attack (init_bss L (init_targets L m)) = Some (l, m1) ->
  set_longjmp_buffers L attack setjmp_image l
    (init_heap_func_ptr L l (store32 (buffer_addr L) (buffer l) m1)) = Some m2 ->
  intact ready n l m2.
Proof.
  intros Ha Hm Hr E1 E2.
  destruct (placed_spec L records over place) as (Hcc & Hcr & _).
  apply choose_buffer_agree in E1 as (H1 & Hf & Hj).
  set (m1' := store32 (buffer_addr L) (buffer l) m1) in *.
  assert (H2 : agree (control L ++ records) m1' m2).
  { eapply set_longjmp_buffers_agree; [done| |done].
    apply init_heap_func_ptr_agree; [done|apply agree_refl]. }
  assert (H0 : agree (control L ++ records) m m1).
  { eapply agree_trans; [apply init_targets_agree|]. eapply agree_trans; [apply init_bss_agree|done]. }
  assert (H1' : agree ((attack_addr L, 20) :: records) m m1').
  { apply agree_store.
    - intros r [->|Hr']%list.elem_of_cons; rewrite le_split_4; [by rewrite apart_sym|].
      apply Hcr; [|done]. unfold control. right. by left.
    - eapply agree_sub; [apply attack_sub|exact H0]. }
  assert (H : agree ((attack_addr L, 20) :: records) m m2).
  { eapply agree_trans; [exact H1'|]. eapply agree_sub; [apply attack_sub|exact H2]. }
  split_and!.
  - eapply agree_holds; [exact H|by left|by rewrite form_bytes_length|done].
  - eapply (agree_holds _ m1' _ _ 4); [exact H2|apply buffer_in|by rewrite le_split_4|apply store_holds].
  - eapply (ready_agree _ _ _ _ _ Ha); [|exact Hr]. eapply agree_sub; [apply records_sub|exact H].
Qed.
End Setup.

(** *** The strike *)

(** The code a payload starts with. *)
Definition injected (attack : ATTACK_FORM) (shellcode : list Z) : list Z :=
  if decide (inject_param_of attack = INJECTED_CODE_NO_NOP) then shellcode else [].

Section Strike.
Context (L : layout) (attack : ATTACK_FORM) (jmp_pc : Z).
Context (malloc : mem -> Z -> option (Z * mem)) (fuel : nat).
Context (records : list (Z * Z)) (ready : nat -> mem -> Prop) (b t : Z).
Hypothesis place : placed L records (b, t + 5 - b) = true.
Hypothesis alloc :
  allocator malloc records (control L ++ [(b, t + 5 - b)]) (t + 5 - b) ready.
Hypothesis room : 0 <= b /\ b + 12 <= t /\ t + 5 < 4294967296.
Hypothesis not_data : inject_param_of attack <> DATA_ONLY.
Hypothesis pointer : segment (code_ptr_of attack) <> None.

#[local] Abbreviation intact := (intact L attack ready).

Lemma over_apart r : r ∈ control L ++ records -> apart (b, t + 5 - b) r = true.
Proof using place. intros Hr. destruct (placed_spec _ _ _ place) as (_ & _ & Ho). by apply Ho; [left|]. Qed.

Lemma overflow_agree m m' :
  (forall k, k < b \/ t + 5 <= k -> m' k = m k) -> agree (control L ++ records) m m'.
Proof using place.
  intros H r k Hr Hk. apply H. apply over_apart, apart_spec in Hr.
  unfold within in Hk. cbn [fst snd] in *. lia.
Qed.

Lemma intact_agree n l m m' : agree (control L ++ records) m m' -> intact n l m -> intact n l m'.
Proof using alloc.
  intros Hag (H1 & H2 & H3). split_and!.
  - eapply agree_holds; [exact Hag|by left|by rewrite form_bytes_length|done].
  - eapply (agree_holds _ m _ _ 4); [exact Hag|apply buffer_in|by rewrite le_split_4|done].
  - eapply (ready_agree _ _ _ _ _ alloc); [|exact H3]. intros r k Hr. apply Hag.
    apply elem_of_app. by right.
Qed.

(** [build_payload] in a memory where [malloc] can serve. *)
Lemma payload_built shellcode p n m :
  lenZ shellcode = 12 -> 17 <= size p <= t + 5 - b -> ready (S n) m ->
  exists src m',
    build_payload (Some (inject_param_of attack)) (Some (code_ptr_of attack)) shellcode
      malloc p m =
      Ok (true, {| size := size p; overflow_ptr := overflow_ptr p; payload_buffer := Some src |},
          m') /\
    holds m' src
      (payload_prefix (injected attack shellcode) (size p - 5) ++
       le_split 4 (overflow_ptr p) ++ [0]) /\
    apart (b, t + 5 - b) (src, size p) = true /\
    agree (control L ++ [(b, t + 5 - b)]) m m' /\ ready n m'.
Proof using place alloc room not_data pointer.
  intros Hlen Hsz Hr.
  destruct (malloc_block _ _ _ _ _ alloc n m (size p) Hr) as (src & m1 & E & Hr1 & Hap & Hfr);
    [lia|].
  rewrite (build_payload_layout _ malloc) with (block := src) (m1 := m1);
    [|intros [= Ec]; by rewrite Ec in pointer|done|done|done|lia].
  set (bs := payload_bytes _ _ _).
  assert (Hbl : lenZ bs = size p).
  { apply payload_bytes_length. case_decide; [lia|]. change (lenZ []) with 0. lia. }
  exists src, (store src bs m1). split; [done|]. split.
  { replace (_ ++ _ ++ [0]) with bs; [apply store_holds|].
    unfold bs. rewrite <-payload_bytes_prefix. f_equal. lia. }
  split; [rewrite apart_sym; apply Hap; rewrite !elem_of_app; left; right; by left|]. split.
  - apply agree_store.
    { intros r Hr'. rewrite Hbl. apply Hap, elem_of_app. by left. }
    intros r k Hr' Hk. apply Hfr. intros r' [->|Hr'']%list.elem_of_cons Hk'.
    + refine (apart_within _ _ _ _ Hk' Hk). apply Hap, elem_of_app. by left.
    + refine (apart_within _ _ _ _ Hk Hk').
      apply elem_of_app in Hr' as [Hr'| ->%list_elem_of_singleton].
      * destruct (placed_spec _ _ _ place) as (_ & Hcr & _). by apply Hcr.
      * apply over_apart, elem_of_app. by right.
  - eapply (ready_agree _ _ _ _ _ alloc); [|exact Hr1]. apply agree_store; [|done].
    intros r Hr'. rewrite Hbl. apply Hap, elem_of_app. by right.
Qed.

(** The payload is built and written, and what steers the program is whole. *)
Lemma first_overflow l shellcode v n m :
  (0 < fuel)%nat -> buffer l = b -> lenZ shellcode = 12 -> copies (function_of attack) v ->
  (inject_param_of attack = INJECTED_CODE_NO_NOP ->
     function_of attack = MEMCPY \/ function_of attack = HOMEBREW) ->
  intact (S n) l m ->
  exists p m',
    strike L attack jmp_pc malloc fuel l shellcode t v m =
      after_overflow L attack jmp_pc malloc fuel l shellcode t p m' /\
    holds m' b (payload_prefix (injected attack shellcode) (t - b) ++ le_split 4 v) /\
    intact n l m'.
Proof using place alloc room not_data pointer.
  intros Hfuel Hb Hlen Hcopies Hf Hin. unfold strike. rewrite Hb.
  rewrite (proj2 (Z.leb_gt _ _)) by lia. rewrite u32_id by lia.
  replace (t + 4 - b + 1) with (t + 5 - b) by lia.
  assert (Hin0 : intact (S n) l (store b [0] m)).
  { refine (intact_agree _ _ _ _ _ Hin). apply overflow_agree. intros k Hk.
    apply store_out. change (lenZ [0]) with 1. lia. }
  destruct Hin0 as (H1 & H2 & H3).
  destruct (payload_built shellcode
    {| size := t + 5 - b; overflow_ptr := v; payload_buffer := None |} n (store b [0] m) Hlen)
    as (src & m1 & -> & Hsrc & Hap & Hag & Hr1); [cbn; lia|done|].
  cbn [size overflow_ptr payload_buffer] in *.
  set (code := injected attack shellcode) in *.
  assert (Hcl : 0 <= lenZ code <= 12).
  { unfold code, injected. case_decide; [|change (lenZ []) with 0]; lia. }
  replace (t + 5 - b - 5) with (t - b) in Hsrc by lia.
  assert (Hpl : lenZ (payload_prefix code (t - b)) = t - b) by (apply payload_prefix_length; lia).
  assert (Hm1 : m1 b = 0).
  { rewrite (Hag (b, t + 5 - b)).
    - by rewrite store_in, Z.sub_diag by (change (lenZ [0]) with 1; lia).
    - apply elem_of_app. right. by left.
    - unfold within. cbn [fst snd]. lia. }
  destruct (overflow_copies fuel (function_of attack) b src (payload_prefix code (t - b)) v m1)
    as (m2 & E & Hh & Hfr); try done.
  { unfold code, injected. case_decide as Hd; [right; by apply Hf|left; apply payload_prefix_nonzero]. }
  { rewrite Hpl. by replace (t - b + 5) with (t + 5 - b) by lia. }
  rewrite Hpl in E, Hfr. replace (t - b + 5) with (t + 5 - b) in E by lia. rewrite E.
  eexists _, m2. split; [done|]. split; [done|].
  refine (intact_agree _ _ m1 _ _ _).
  { apply overflow_agree. intros k Hk. apply Hfr. lia. }
  assert (Hc : agree (control L) (store b [0] m) m1).
  { intros r k Hr. apply Hag, elem_of_app. by left. }
  split_and!; [| |done].
  - eapply agree_holds; [exact Hc|by left|by rewrite form_bytes_length|done].
  - eapply (agree_holds _ _ _ _ 4); [exact Hc|by right; left|by rewrite le_split_4|done].
Qed.

(** The use of the code pointer transfers control to its value. *)
Lemma execute_transfer l m g v :
  0 <= v < 4294967296 ->
  (forall v, transfer (code_ptr_of attack) v = Longjmped v -> jmp_pc = 0) ->
  code_ptr_addr L (code_ptr_of attack) l = Some g -> holds m g (le_split 4 v) ->
  holds m (attack_addr L) (form_bytes attack) ->
  execute_attack L jmp_pc malloc fuel l m = Ok (transfer (code_ptr_of attack) v, m).
Proof using pointer.
  intros Hv Hj Ht Hh Hform. apply load32_holds in Hh; [|done].
  apply form_at in Hform as (_ & _ & Hc & _). unfold execute_attack, use_pointer. rewrite Hc.
  destruct (code_ptr_of attack); cbn [transfer segment] in *; try done;
    try (rewrite Ht); unfold lj_func;
    try (rewrite (Hj v eq_refl), Z.add_0_r); cbn [code_ptr_addr] in Ht; congruence.
Qed.

Lemma strike_direct l shellcode v n m :
  (0 < fuel)%nat -> buffer l = b -> lenZ shellcode = 12 -> copies (function_of attack) v ->
  (inject_param_of attack = INJECTED_CODE_NO_NOP ->
     function_of attack = MEMCPY \/ function_of attack = HOMEBREW) ->
  intact (S n) l m -> technique_of attack = DIRECT -> 0 <= v < 4294967296 ->
  (forall v, transfer (code_ptr_of attack) v = Longjmped v -> jmp_pc = 0) ->
  code_ptr_addr L (code_ptr_of attack) l = Some t ->
  exists m',
    strike L attack jmp_pc malloc fuel l shellcode t v m =
      Ok (transfer (code_ptr_of attack) v, m') /\
    (inject_param_of attack = INJECTED_CODE_NO_NOP -> holds m' b shellcode).
Proof using place alloc room not_data pointer.
  intros Hfuel Hb Hlen Hcopies Hf Hin Htech Hv Hj Ht.
  destruct (first_overflow l shellcode v n m) as (p & m' & -> & Hh & H1 & H2 & H3); try done.
  assert (lenZ (injected attack shellcode) <= 12) as Hcl.
  { unfold injected. case_decide; [|change (lenZ []) with 0]; lia. }
  apply holds_app in Hh as [Hpre Hptr]. rewrite payload_prefix_length in Hptr by lia.
  replace (b + (t - b)) with t in Hptr by lia.
  exists m'. split.
  - unfold after_overflow. destruct (form_at _ _ _ H1) as (-> & _). rewrite Htech.
    by apply (execute_transfer _ _ t).
  - intros Hinj. apply holds_app in Hpre as [Hpre _]. unfold injected in Hpre.
    by rewrite decide_True in Hpre.
Qed.
End Strike.

(** ** A direct attack *)

(** What the [switch]es choose. *)
Lemma direct_setup L attack setjmp_image m :
  heap_ordered L -> technique_of attack = DIRECT -> inject_param_of attack <> DATA_ONLY ->
  is_attack_possible attack = true ->
  exists l m1,
    choose_buffer L attack m = Some (l, m1) /\
    target_addr L attack l = Some (direct_target L (code_ptr_of attack)) /\
    code_ptr_addr L (code_ptr_of attack) l = Some (direct_target L (code_ptr_of attack)) /\
    choose_overflow_ptr L attack l = Some (attack_goal L attack) /\
    buffer l = direct_buffer L (code_ptr_of attack) /\
    forall m', exists m2, set_longjmp_buffers L attack setjmp_image l m' = Some m2.
Proof.
  intros [Hh1 Hh2] Ht Hi Hp. apply is_attack_possible_valid in Hp.
  assert (Hlt1 : (heap_buffer1 L <? heap_buffer2 L) = true) by (apply Z.ltb_lt; clear -Hh1 Hh2; lia).
  assert (Hlt2 : (heap_buffer2 L <? heap_buffer3 L) = true) by (apply Z.ltb_lt; clear -Hh1 Hh2; lia).
  destruct attack as [t i c l f].
  destruct Hp as (_ & _ & Hdata & _ & _ & Hseg & _).
  cbn [technique_of inject_param_of code_ptr_of location_of function_of] in *. subst t.
  specialize (Hseg eq_refl).
  assert (segment c = Some l) as Hs.
  { rewrite !list.elem_of_cons in Hseg. destruct Hseg as [E|[E|E]]; [|done|by apply list.elem_of_nil in E].
    by rewrite <-Hdata in E. }
  clear Hseg.
  assert (Hd : bool_decide (i = DATA_ONLY) = false) by by apply bool_decide_eq_false.
  destruct c; cbn [segment] in Hs; (discriminate Hs || injection Hs as <-);
    unfold choose_buffer; cbn -[store32 store init_heap_func_ptr];
    rewrite ?Hd, ?Hlt1, ?Hlt2; cbn -[store32 store init_heap_func_ptr];
    (do 2 eexists); split_and!; try reflexivity;
    first [intros m'; eexists; reflexivity | destruct i; done].
Qed.


(** *** An example *)

(** A memory map: code, stack, heap, .bss and .data apart. *)
Definition layout_with (attack : Z) : layout := {|
  attack_addr := attack; buffer_addr := 2148532100;
  dummy_function := 2147487744; shellcode_target := 2147489280; ret2libc_target := 2147487748;
  rop_target := 2164261121;
  ret_addr_ptr := 2148534300; stack_func_ptr_param := 2148534304;
  stack_jmp_buffer_param := 2148535000; stack_jmp_buffer := 2148533260;
  stack_func_ptr := 2148533240; stack_mem_ptr := 2148533244; stack_mem_ptr_aux := 2148533236;
  stack_flag := 2148533248; stack_secret := 2148532180; stack_buffer := 2148532212;
  stack_struct := 2148533320; low_buf := 2148530000; auth_loc := 2148531900;
  heap_struct := 2149580816; heap_buffer1 := 2149581080; heap_buffer2 := 2149581348;
  heap_buffer3 := 2149581616; heap_flag := 2149581884; heap_func_block := 2149581892;
  heap_jmp_block := 2149581900;
  bss_func_ptr := 2147516900; bss_flag := 2147516904; bss_mem_ptr_aux := 2147516908;
  bss_mem_ptr := 2147516912; bss_secret := 2147516420; bss_buffer := 2147516452;
  bss_jmp_buffer := 2147516920; bss_struct := 2147517100;
  data_struct := 2147508000; data_buffer1 := 2147508260; data_buffer2 := 2147508516;
  data_secret := 2147508524; data_flag := 2147508556; data_mem_ptr_aux := 2147508560;
  data_mem_ptr := 2147508816; data_func_ptr := 2147509072; data_jmp_buffer := 2147509076;
  dop_dest := 2147509300;
|}.

Definition demo_layout : layout := layout_with 2147517400.

Lemma demo_heap : heap_ordered demo_layout.
Proof. unfold heap_ordered. cbn. lia. Qed.

(** An allocator whose record is the address of the next block. *)
Definition brk_addr : Z := 2147518000.
Definition arena : Z * Z := (2149590000, 100000).

Definition bump (m : mem) (n : Z) : option (Z * mem) :=
  let a := load32 brk_addr m in
  if a + n <=? arena.1 + arena.2 then Some (a, store32 brk_addr (a + n) m) else None.

Definition bump_ready (limit : Z) (n : nat) (m : mem) : Prop :=
  arena.1 <= load32 brk_addr m /\
  load32 brk_addr m + Z.of_nat n * limit <= arena.1 + arena.2.

Lemma agree_load32 rs m m' a : agree rs m m' -> (a, 4) ∈ rs -> load32 a m' = load32 a m.
Proof.
  intros H Ha. unfold load32, load. f_equal. apply map_ext_in.
  intros k Hk%list_elem_of_In%elem_of_seqZ. apply (H (a, 4)); [done|].
  unfold within. cbn [fst snd]. lia.
Qed.

Lemma bump_allocator used limit :
  forallb (apart arena) ((brk_addr, 4) :: used) = true ->
  allocator bump [(brk_addr, 4)] used limit (bump_ready limit).
Proof.
  intros Hap. split.
  - intros n m m' Hag. unfold bump_ready.
    by rewrite (agree_load32 _ m m' brk_addr Hag) by by left.
  - intros n m sz [H1 H2] Hsz. unfold bump. set (a := load32 brk_addr m) in *.
    rewrite Nat2Z.inj_succ, Z.mul_succ_l in H2.
    assert (0 <= Z.of_nat n * limit) by (apply Z.mul_nonneg_nonneg; lia).
    rewrite (proj2 (Z.leb_le _ _)) by lia.
    unfold arena in H1, H2. cbn [fst snd] in H1, H2.
    eexists _, _. split; [done|]. split.
    { unfold bump_ready. rewrite load32_store32 by lia. unfold arena. cbn [fst snd]. lia. }
    split.
    + intros r Hr. apply (apart_inside arena); unfold arena; cbn [fst snd]; [|lia..].
      rewrite forallb_forall in Hap. apply Hap, list_elem_of_In.
      apply elem_of_app in Hr as [Hr| ->%list_elem_of_singleton]; [by right|by left].
    + intros k Hk. apply store_out. rewrite le_split_4.
      assert (~ within k (brk_addr, 4)) as Hn by (apply Hk; right; by left).
      unfold within in Hn. cbn [fst snd] in Hn. lia.
Qed.

Definition demo_image : list Z := replicate 56 0.
Definition demo_mem : mem := store32 brk_addr arena.1 (fun _ => 0).


(** A form of the attack that lies between the buffer and the target is lost in the
    overflow: no case of the [switch] on the technique matches. *)
Example overwritten_form_exits :
  match main_attack (layout_with 2148533400) 5 demo_image 0 bump 1 demo_mem with
  | Some (Ok (e, _)) => e = Exited 1
  | _ => False
  end.
Proof. vm_compute. reflexivity. Qed.

(** ** An indirect attack *)

Definition indirect_buffer (L : layout) (a : ATTACK_FORM) : Z :=
  match location_of a with
  | STACK => stack_buffer L
  | HEAP => heap_buffer1 L
  | DATA => if decide (code_ptr_of a = STRUCT_FUNC_PTR_DATA) then data_struct L
            else data_buffer1 L
  | BSS => if decide (code_ptr_of a = STRUCT_FUNC_PTR_BSS) then bss_struct L else bss_buffer L
  end.

(** The general pointer the overflow sets, and the one below it that the second
    overflow sets. *)
Definition general_ptr (L : layout) (loc : location) : Z :=
  match loc with
  | STACK => stack_mem_ptr L
  | HEAP => heap_buffer3 L
  | DATA => data_mem_ptr L
  | BSS => bss_mem_ptr L
  end.
Definition general_ptr_aux (L : layout) (loc : location) : Z :=
  match loc with
  | STACK => stack_mem_ptr_aux L
  | HEAP => heap_buffer2 L
  | DATA => data_mem_ptr_aux L
  | BSS => bss_mem_ptr_aux L
  end.

(** Where an indirect attack finds the code pointer: a pointer or jump buffer on
    the heap is in the first buffer when the attack starts elsewhere. *)
Definition indirect_target (L : layout) (a : ATTACK_FORM) : Z :=
  match code_ptr_of a with
  | FUNC_PTR_HEAP | LONGJMP_BUF_HEAP =>
      if decide (location_of a = HEAP) then direct_target L (code_ptr_of a) else heap_buffer1 L
  | c => direct_target L c
  end.

(** The code pointer is one of the program's objects. *)
Lemma indirect_target_object L attack :
  segment (code_ptr_of attack) <> None ->
  Exists (fun o => o.1 <= indirect_target L attack /\ indirect_target L attack + 4 <= o.1 + o.2)
    (objects L).
Proof.
  intros Hs. unfold indirect_target, direct_target.
  destruct (code_ptr_of attack); try (by destruct Hs); try case_decide; in_objects.
Qed.

Lemma indirect_setup L attack setjmp_image m :
  heap_ordered L -> technique_of attack = INDIRECT -> inject_param_of attack <> DATA_ONLY ->
  is_attack_possible attack = true ->
  ~ (location_of attack = BSS /\ code_ptr_of attack = LONGJMP_BUF_HEAP) ->
  exists l m1,
    choose_buffer L attack m = Some (l, m1) /\
    target_addr L attack l = Some (general_ptr L (location_of attack)) /\
    target_addr_aux L attack l = Some (general_ptr_aux L (location_of attack)) /\
    code_ptr_addr L (code_ptr_of attack) l = Some (indirect_target L attack) /\
    buffer l = indirect_buffer L attack /\
    forall m', exists m2, set_longjmp_buffers L attack setjmp_image l m' = Some m2.
Proof.
  intros [Hh1 Hh2] Ht Hi Hp. apply is_attack_possible_valid in Hp.
  assert (Hlt1 : (heap_buffer1 L <? heap_buffer2 L) = true)
    by (apply Z.ltb_lt; clear -Hh1 Hh2; lia).
  assert (Hlt2 : (heap_buffer2 L <? heap_buffer3 L) = true)
    by (apply Z.ltb_lt; clear -Hh1 Hh2; lia).
  destruct attack as [t i c l f].
  destruct Hp as (_ & _ & Hdata & _ & _ & _).
  cbn [technique_of inject_param_of code_ptr_of location_of function_of] in *. subst t.
  intros Hbss.
  assert (Hd : bool_decide (i = DATA_ONLY) = false) by by apply bool_decide_eq_false.
  assert (Hseg : segment c <> None) by by rewrite <-Hdata.
  unfold choose_buffer. cbn -[store32 store init_heap_func_ptr]. rewrite ?Hd.
  destruct l; rewrite ?Hlt1, ?Hlt2;
    (destruct c; try (by destruct Hseg); try (by destruct Hbss));
    cbn -[store32 store init_heap_func_ptr];
    (do 2 eexists); split_and!; first [intros m'; eexists; reflexivity | reflexivity].
Qed.

(** The address the attack leaves in the code pointer. *)
Definition indirect_goal (L : layout) (attack : ATTACK_FORM) : Z :=
  match inject_param_of attack with
  | RETURN_INTO_LIBC => ret2libc_target L
  | _ => indirect_buffer L attack
  end.

Section IndirectFacts.
Context (L : layout) (attack : ATTACK_FORM) (jmp_pc : Z).
Context (malloc : mem -> Z -> option (Z * mem)) (fuel : nat).
Context (records : list (Z * Z)) (ready : nat -> mem -> Prop) (b aux t g : Z).
Hypothesis place : placed L records (b, t + 5 - b) = true.
Hypothesis alloc :
  allocator malloc records (control L ++ [(b, t + 5 - b)]) (t + 5 - b) ready.
Hypothesis room : 0 <= b /\ b + 12 <= aux /\ aux + 4 <= t /\ t + 5 < 4294967296.
Hypothesis not_data : inject_param_of attack <> DATA_ONLY.
Hypothesis pointer : segment (code_ptr_of attack) <> None.
Hypothesis object : Exists (fun o => o.1 <= g /\ g + 4 <= o.1 + o.2) (objects L).
Hypothesis buffer_b : b = indirect_buffer L attack.
Hypothesis goal_range : 0 <= indirect_goal L attack < 4294967296.

#[local] Abbreviation intact := (intact L attack ready).

Lemma room_direct : 0 <= b /\ b + 12 <= t /\ t + 5 < 4294967296.
Proof using room. lia. Qed.

Lemma aux_pointer_at l m :
  holds m (attack_addr L) (form_bytes attack) -> target_addr_aux L attack l = Some aux ->
  aux_pointer L l m = Ok (Some (load32 aux m)).
Proof using.
  clear room. intros (_ & _ & _ & Hl & _)%form_at. unfold target_addr_aux, aux_pointer. rewrite Hl.
  destruct (location_of attack); [intros [= <-]|intros ->|intros [= <-]|intros [= <-]]; done.
Qed.

(** A word written to the code pointer: the attack form stays. *)
Lemma write_through v m :
  holds m (attack_addr L) (form_bytes attack) ->
  holds (store32 g v m) g (le_split 4 v) /\
  holds (store32 g v m) (attack_addr L) (form_bytes attack).
Proof using place object.
  intros Hf. split; [apply store_holds|].
  assert (Hag : agree (control L ++ records) m (store32 g v m)).
  { apply (object_store _ _ _ place); [by rewrite le_split_4|done]. }
  eapply agree_holds; [exact Hag|by left|by rewrite form_bytes_length|done].
Qed.

(** The second overflow, up to the second general pointer. *)
Lemma second_overflow p shellcode n l m :
  inject_param_of attack = RETURN_INTO_LIBC -> lenZ shellcode = 12 -> buffer l = b ->
  size p = aux - b + 5 -> overflow_ptr p = ret2libc_target L ->
  intact (S n) l m -> holds m t (le_split 4 g) ->
  exists src m1 m2,
    build_payload (Some RETURN_INTO_LIBC) (Some (code_ptr_of attack)) shellcode malloc p m =
      Ok (true, {| size := size p; overflow_ptr := overflow_ptr p; payload_buffer := Some src |},
          m1) /\
    holds m1 (buffer_addr L) (le_split 4 b) /\
    overflow fuel MEMCPY b src (size p) m1 = Ok m2 /\
    holds m2 aux (le_split 4 (ret2libc_target L)) /\ holds m2 t (le_split 4 g) /\
    holds m2 (attack_addr L) (form_bytes attack).
Proof using place alloc room not_data pointer.
  intros Hi Hlen Hlb Hsz Hov (H1 & H2 & H3) Ht.
  destruct (payload_built L attack malloc records ready b t place alloc room_direct not_data
    pointer shellcode p n m Hlen) as (src & m1 & E & Hsrc & Hap & Hag & _); [lia|done|].
  rewrite Hi in E. rewrite Hov in Hsrc.
  unfold injected in Hsrc. rewrite decide_False in Hsrc by by rewrite Hi.
  replace (size p - 5) with (aux - b) in Hsrc by lia.
  assert (Hpl : lenZ (payload_prefix [] (aux - b)) = aux - b).
  { apply payload_prefix_length. change (lenZ []) with 0. lia. }
  assert (Hin1 : holds m1 (attack_addr L) (form_bytes attack)).
  { eapply agree_holds; [exact Hag|by left|by rewrite form_bytes_length|done]. }
  exists src, m1, (store b (payload_prefix [] (aux - b) ++ le_split 4 (ret2libc_target L)) m1).
  split; [by rewrite Hov in E |- *|]. split; [|split; [|split; [|split]]].
  - rewrite <-Hlb. eapply (agree_holds _ m _ _ 4); [exact Hag|by right; left|by rewrite le_split_4|done].
  - unfold overflow. rewrite (apart_inside (b, t + 5 - b)) by (done || (cbn [fst snd]; lia)).
    do 2 f_equal. rewrite Hsz. rewrite (assoc_L (++)) in Hsrc.
    apply load_holds in Hsrc.
    replace (Z.to_nat (aux - b + 5)) with (length ((payload_prefix [] (aux - b) ++
      le_split 4 (ret2libc_target L)) ++ [0])).
    + rewrite Hsrc. apply take_app_length'. rewrite length_app, le_split_length.
      unfold lenZ in Hpl. lia.
    + rewrite !length_app, le_split_length. unfold lenZ in Hpl. simpl. lia.
  - pose proof (store_holds b (payload_prefix [] (aux - b) ++ le_split 4 (ret2libc_target L)) m1)
      as Hs.
    apply holds_app in Hs as [_ Hs]. rewrite Hpl in Hs.
    by replace (b + (aux - b)) with aux in Hs by lia.
  - intros i Hi'. rewrite le_split_4 in Hi'.
    rewrite store_out by (rewrite lenZ_app, Hpl, le_split_4; lia).
    rewrite (Hag (b, t + 5 - b)); [apply Ht; by rewrite le_split_4| |].
    + apply elem_of_app. right. by left.
    + unfold within. cbn [fst snd]. lia.
  - refine (agree_holds _ m1 _ _ _ _ (overflow_agree L records b t place m1 _ _) _ _ Hin1).
    + intros k Hk. apply store_out. rewrite lenZ_app, Hpl, le_split_4. lia.
    + by left.
    + by rewrite form_bytes_length.
Qed.

(** The write through the general pointer, after the first overflow. *)
Lemma indirect_writes_goal l shellcode p n m :
  function_of attack <> SSCANF ->
  inject_param_of attack = RETURN_INTO_LIBC \/
    inject_param_of attack = INJECTED_CODE_NO_NOP ->
  lenZ shellcode = 12 -> target_addr_aux L attack l = Some aux -> buffer l = b ->
  0 <= g < 4294967296 -> holds m t (le_split 4 g) -> intact (S n) l m ->
  exists m',
    indirect_writes L attack malloc fuel l shellcode t p m = Ok m' /\
    holds m' g (le_split 4 (indirect_goal L attack)) /\
    holds m' (attack_addr L) (form_bytes attack) /\
    (inject_param_of attack = INJECTED_CODE_NO_NOP ->
       forall k, k < g \/ g + 4 <= k -> m' k = m k).
Proof using place alloc room not_data pointer object buffer_b goal_range.
  intros Hf Hi Hlen Haux Hlb Hg Ht Hin. pose proof Hin as (H1 & H2 & _).
  pose proof (form_at _ _ _ H1) as (_ & Ei & Ec & _ & Ef).
  rewrite Hlb in H2. apply load32_holds in H2; [|lia].
  unfold indirect_writes. rewrite Ef.
  replace (match Some (function_of attack) with Some SSCANF => _ | _ => m end) with m
    by (destruct (function_of attack); done).
  rewrite Ei, Ec. destruct Hi as [Hi|Hi]; rewrite Hi.
  - rewrite Haux, H2. rewrite u32_id by lia.
    set (q := {| size := _; overflow_ptr := _; payload_buffer := _ |}).
    destruct (second_overflow q shellcode n l m) as (src & m1 & m2 & -> & Hb1 & E2 & Ha & Ht2 & Hf2);
      try done; [unfold q; cbn [size]; lia|].
    cbn iota. apply load32_holds in Hb1; [|lia]. rewrite Hb1, E2.
    rewrite aux_pointer_at by done.
    unfold indirect_goal in *. rewrite Hi in *.
    rewrite (load32_holds m2 aux (ret2libc_target L)) by done.
    rewrite (load32_holds m2 t g) by done.
    eexists. split; [done|].
    destruct (write_through (ret2libc_target L) m2 Hf2) as [Hw1 Hw2]. by split_and!.
  - rewrite H2, (load32_holds m t g) by done.
    eexists. split; [done|]. unfold indirect_goal. rewrite Hi, <-buffer_b.
    destruct (write_through b m H1) as [Hw1 Hw2]. split_and!; [done..|].
    intros _ k Hk. apply store_out. rewrite le_split_4. lia.
Qed.

(** Both overflows of an indirect strike, and the use of the code pointer. *)
Lemma strike_indirect l shellcode n m :
  (0 < fuel)%nat -> buffer l = b -> lenZ shellcode = 12 -> copies (function_of attack) g ->
  (inject_param_of attack = INJECTED_CODE_NO_NOP ->
     function_of attack = MEMCPY \/ function_of attack = HOMEBREW) ->
  inject_param_of attack = RETURN_INTO_LIBC \/
    inject_param_of attack = INJECTED_CODE_NO_NOP ->
  intact (S (S n)) l m -> technique_of attack = INDIRECT -> 0 <= g < 4294967296 ->
  (forall v, transfer (code_ptr_of attack) v = Longjmped v -> jmp_pc = 0) ->
  code_ptr_addr L (code_ptr_of attack) l = Some g -> target_addr_aux L attack l = Some aux ->
  exists m',
    strike L attack jmp_pc malloc fuel l shellcode t g m =
      Ok (transfer (code_ptr_of attack) (indirect_goal L attack), m') /\
    (inject_param_of attack = INJECTED_CODE_NO_NOP ->
       g + 4 <= b \/ b + 12 <= g -> holds m' b shellcode).
Proof using place alloc room not_data pointer object buffer_b goal_range.
  intros Hfuel Hb Hlen Hc Hf Hi Hin Htech Hg Hj Hca Haux.
  destruct (first_overflow L attack jmp_pc malloc fuel records ready b t place alloc room_direct
    not_data pointer l shellcode g (S n) m) as (p & m1 & -> & Hh & Hin1); try done.
  assert (lenZ (injected attack shellcode) <= 12) as Hcl.
  { unfold injected. case_decide; [|change (lenZ []) with 0]; lia. }
  apply holds_app in Hh as [Hpre Hptr]. rewrite payload_prefix_length in Hptr by lia.
  replace (b + (t - b)) with t in Hptr by lia.
  pose proof Hin1 as (Hform & _).
  unfold after_overflow. destruct (form_at _ _ _ Hform) as (-> & _). rewrite Htech.
  destruct (indirect_writes_goal l shellcode p n m1) as (m2 & -> & Hgl & Hf2 & Hfr); try done.
  { intros Es. by rewrite Es in Hc. }
  exists m2. split; [by apply (execute_transfer L attack jmp_pc malloc fuel pointer l m2 g)|].
  intros Hsh Hgb i Hr. rewrite Hfr by (done || lia).
  apply holds_app in Hpre as [Hpre _]. unfold injected in Hpre.
  rewrite decide_True in Hpre by done. by apply Hpre.
Qed.
End IndirectFacts.



(** ** Combinations that are accepted but not carried out *)

(** The heap's jump buffer from BSS: [heap_jmp_buffer] is never set there. *)
Lemma bss_longjmp_heap_undefined L attack setjmp_image jmp_pc malloc fuel m :
  technique_of attack = INDIRECT -> location_of attack = BSS ->
  code_ptr_of attack = LONGJMP_BUF_HEAP ->
  heap_buffer1 L <> 0 -> heap_buffer2 L <> 0 -> 0 <= shellcode_target L < 4294967296 ->
  perform_attack L attack setjmp_image jmp_pc malloc fuel m = Ub.
Proof.
  intros Ht Hl Hc H1 H2 Hs. unfold perform_attack.
  rewrite !(proj2 (Z.eqb_neq _ 0)) by done. cbn [orb].
  rewrite build_shellcode_bytes by done. unfold choose_buffer. rewrite Hl, Hc.
  rewrite bool_decide_eq_false_2 by done.
  unfold target_addr, set_longjmp_buffers, code_ptr_addr. by rewrite Ht, Hl, Hc.
Qed.

(** A leak (attack 4 of [main]) writes its packet through a payload buffer that
    is never allocated. *)
Lemma leak_payload_undefined shellcode malloc sz ovf m :
  build_payload (Some DATA_ONLY) (Some VAR_LEAK) shellcode malloc
    {| size := sz; overflow_ptr := ovf; payload_buffer := None |} m = Ub.
Proof. reflexivity. Qed.
