(* ===== verification/Ieee.v ===== *)
(** * IEEE 754 binary formats and rounding

    The reference that the SoftFloat files are verified against: the values of
    the bit patterns of a format as real numbers, the five rounding directions,
    and what it means that a bit pattern and flags are the correctly rounded
    result for an exact real number.  Nothing here mentions an algorithm.

    [agrees g y s] relates a real number to the integer significand an algorithm
    carries for it (with its sticky bit): both lie on the same side of every
    multiple of [2 ^ g], which is all that rounding looks at. *)

From Stdlib Require Import ZArith Lia Reals Lra.
From stdpp Require Import base tactics list numbers.
From S2P Require Import Prelude.

(** ** Powers of two *)

Definition bpow (e : Z) : R := powerRZ 2 e.

Lemma bpow_gt_0 e : (0 < bpow e)%R.
Proof. apply powerRZ_lt. lra. Qed.

Lemma bpow_neq_0 e : bpow e <> 0%R.
Proof. pose proof (bpow_gt_0 e). lra. Qed.

Lemma bpow_add a b : bpow (a + b) = (bpow a * bpow b)%R.
Proof. apply powerRZ_add. lra. Qed.

Lemma bpow_0 : bpow 0 = 1%R.
Proof. reflexivity. Qed.

Lemma bpow_IZR n : 0 <= n -> bpow n = IZR (2 ^ n).
Proof.
  intros Hn. unfold bpow. rewrite <-(Z2Nat.id n) by done.
  by rewrite <-pow_powerRZ, pow_IZR.
Qed.

Lemma bpow_opp a : (bpow (- a) * bpow a = 1)%R.
Proof. rewrite <-bpow_add. by rewrite Z.add_opp_diag_l. Qed.

Lemma bpow_le a b : a <= b -> (bpow a <= bpow b)%R.
Proof.
  intros Hab. replace b with (a + (b - a)) by lia. rewrite bpow_add.
  pose proof (bpow_gt_0 a). rewrite (bpow_IZR (b - a)) by lia.
  assert (1 <= IZR (2 ^ (b - a)))%R.
  { apply IZR_le. pose proof (Z.pow_pos_nonneg 2 (b - a)). lia. }
  nra.
Qed.

Lemma bpow_lt a b : a < b -> (bpow a < bpow b)%R.
Proof.
  intros Hab. apply Rlt_le_trans with (bpow (a + 1)); [|apply bpow_le; lia].
  rewrite bpow_add. pose proof (bpow_gt_0 a). rewrite (bpow_IZR 1) by lia.
  change (IZR (2 ^ 1)) with 2%R. lra.
Qed.

Lemma bpow_lt_inv a b : (bpow a < bpow b)%R -> a < b.
Proof.
  intros H. destruct (Z_lt_le_dec a b) as [|Hba]; [done|].
  apply bpow_le in Hba. lra.
Qed.

(** Comparisons after a change of scale. *)
Lemma scale_lt e a b : (a * bpow e < b * bpow e)%R <-> (a < b)%R.
Proof. pose proof (bpow_gt_0 e). split; intros; nra. Qed.
Lemma scale_le e a b : (a * bpow e <= b * bpow e)%R <-> (a <= b)%R.
Proof. pose proof (bpow_gt_0 e). split; intros; nra. Qed.
Lemma scale_eq e a b : (a * bpow e = b * bpow e)%R <-> a = b.
Proof.
  split; [|by intros ->]. intros H. apply Rmult_eq_reg_r with (bpow e); [done|].
  apply bpow_neq_0.
Qed.

Lemma IZR_bpow k n : 0 <= n -> IZR (k * 2 ^ n) = (IZR k * bpow n)%R.
Proof. intros. by rewrite mult_IZR, bpow_IZR. Qed.

(** ** Formats *)

(** [prec] counts the hidden bit; F32 is 24 and 8. *)
Record format := Format { prec : Z; ewidth : Z }.

Definition F16 : format := Format 11 5.
Definition F32 : format := Format 24 8.
Definition F64 : format := Format 53 11.
Definition F128 : format := Format 113 15.

Class ValidFormat (F : format) : Prop := {
  prec_valid : 2 <= prec F;
  ewidth_valid : 2 <= ewidth F;
}.
#[export] Instance F16_valid : ValidFormat F16.
Proof. split; simpl; lia. Qed.
#[export] Instance F32_valid : ValidFormat F32.
Proof. split; simpl; lia. Qed.
#[export] Instance F64_valid : ValidFormat F64.
Proof. split; simpl; lia. Qed.
#[export] Instance F128_valid : ValidFormat F128.
Proof. split; simpl; lia. Qed.

(** The smallest positive value is [2 ^ emin]; finite values lie below
    [2 ^ emax]. *)
Definition emax (F : format) : Z := 2 ^ (ewidth F - 1).
Definition emin (F : format) : Z := 3 - emax F - prec F.

(** The fields of a bit pattern: the sign, and the magnitude (exponent field and
    fraction together). *)
Definition sign_of (F : format) (u : Z) : bool :=
  Z.testbit u (prec F + ewidth F - 1).
Definition mag (F : format) (u : Z) : Z := u mod 2 ^ (prec F + ewidth F - 1).
Definition expo (F : format) (u : Z) : Z := mag F u / 2 ^ (prec F - 1).
Definition frac (F : format) (u : Z) : Z := u mod 2 ^ (prec F - 1).

Definition inf_mag (F : format) : Z := (2 ^ ewidth F - 1) * 2 ^ (prec F - 1).
Definition signed (F : format) (s : bool) (m : Z) : Z :=
  Z.b2z s * 2 ^ (prec F + ewidth F - 1) + m.
Definition zero (F : format) (s : bool) : Z := signed F s 0.
Definition infinity (F : format) (s : bool) : Z := signed F s (inf_mag F).

(** The canonical NaN: positive, quiet, no payload. *)
Definition default_nan (F : format) : Z := inf_mag F + 2 ^ (prec F - 2).

Definition is_pattern (F : format) (u : Z) : Prop := 0 <= u < 2 ^ (prec F + ewidth F).
Definition is_nan (F : format) (u : Z) : bool := inf_mag F <? mag F u.
Definition is_inf (F : format) (u : Z) : bool := mag F u =? inf_mag F.
Definition is_finite (F : format) (u : Z) : bool := mag F u <? inf_mag F.
Definition is_zero (F : format) (u : Z) : bool := mag F u =? 0.

(** A signaling NaN has the first bit of its fraction clear. *)
Definition is_snan (F : format) (u : Z) : bool :=
  is_nan F u && negb (Z.testbit u (prec F - 2)).

(** The magnitude of a finite pattern, subnormal or normal, and its value. *)
Definition absval (F : format) (u : Z) : R :=
  if decide (expo F u = 0) then (IZR (frac F u) * bpow (emin F))%R
  else (IZR (2 ^ (prec F - 1) + frac F u) * bpow (expo F u - 1 + emin F))%R.
Definition value (F : format) (u : Z) : R :=
  if sign_of F u then (- absval F u)%R else absval F u.

(** ** Rounding directions *)

Inductive mode := RNE | RTZ | RDN | RUP | RMM.

(** [n] is the integer that [y], the magnitude of a number with sign [s], rounds
    to: to nearest with ties to even or away from zero, towards zero, down, up. *)
Definition rounds (m : mode) (s : bool) (y : R) (n : Z) : Prop :=
  match m with
  | RNE => (IZR n - / 2 <= y <= IZR n + / 2)%R /\
           (y = IZR n - / 2 \/ y = IZR n + / 2 -> Z.even n = true)%R
  | RMM => (IZR n - / 2 <= y < IZR n + / 2)%R
  | RTZ => (IZR n <= y < IZR n + 1)%R
  | RDN => if s then (IZR n - 1 < y <= IZR n)%R else (IZR n <= y < IZR n + 1)%R
  | RUP => if s then (IZR n <= y < IZR n + 1)%R else (IZR n - 1 < y <= IZR n)%R
  end.

Lemma rounds_unique m s y n n' : rounds m s y n -> rounds m s y n' -> n = n'.
Proof.
  assert (forall a b, (IZR a < IZR b + 1 -> IZR b < IZR a + 1 -> a = b)%R) as Hone.
  { intros a b H1 H2. rewrite <-plus_IZR in H1, H2. apply lt_IZR in H1, H2. lia. }
  intros H H'. destruct m, s; simpl in H, H'; try (apply Hone; lra).
  all: destruct H as [H He], H' as [H' He'].
  all: destruct (Z_lt_le_dec n n') as [Hlt|Hle];
    [|destruct (Z_lt_le_dec n' n) as [Hlt|]; [|lia]].
  all: assert (IZR (Z.min n n') + 1 <= IZR (Z.max n n'))%R as Hs
    by (rewrite <-plus_IZR; apply IZR_le; lia).
  all: rewrite ?Z.min_l, ?Z.max_r, ?Z.min_r, ?Z.max_l in Hs by lia.
  all: assert (Z.even n = true) as E by (apply He; lra).
  all: assert (Z.even n' = true) as E' by (apply He'; lra).
  all: apply Z.even_spec in E as [a ->], E' as [b ->].
  all: assert (IZR (2 * Z.max a b) = IZR (2 * Z.min a b) + 1)%R as Heq
    by (destruct (Z.max_spec a b) as [[? ->]|[? ->]], (Z.min_spec a b) as [[? ->]|[? ->]];
        lra || (exfalso; lia)).
  all: rewrite <-plus_IZR in Heq; apply eq_IZR in Heq; lia.
Qed.

(** An exact integer rounds to itself. *)
Lemma rounds_IZR m s n : rounds m s (IZR n) n.
Proof. destruct m, s; simpl; split; try lra; intros [?|?]; lra. Qed.

(** Rounding moves by less than one, and not at all past an integer. *)
Lemma rounds_bounds m s y n a b :
  rounds m s y n -> (IZR a <= y <= IZR b)%R -> a <= n <= b.
Proof.
  intros H Hy. assert (IZR n - 1 < y < IZR n + 1)%R by (destruct m, s; simpl in H; lra).
  split.
  - apply Z.lt_succ_r, lt_IZR. unfold Z.succ. rewrite plus_IZR. lra.
  - apply Z.lt_succ_r, lt_IZR. unfold Z.succ. rewrite plus_IZR. lra.
Qed.

(** ** Correctly rounded results *)

Definition flag_inexact : Z := 1.
Definition flag_underflow : Z := 2.
Definition flag_overflow : Z := 4.
Definition flag_divbyzero : Z := 8.
Definition flag_invalid : Z := 16.
Definition flag_if (b : bool) (f : Z) : Z := if b then f else 0.

(** The exponent of the last place a positive [x] is rounded at. *)
Definition last_place (F : format) (x : R) (e : Z) : Prop :=
  emin F <= e /\ (x < bpow (e + prec F))%R /\
  (e = emin F \/ (bpow (e + prec F - 1) <= x)%R).

(** Tininess, detected after rounding: [x] rounded to [prec] digits, as if there
    was no bound on the exponent, is below the smallest normal number. *)
Definition tiny (F : format) (m : mode) (s : bool) (x : R) : Prop :=
  exists e n, (bpow (e + prec F - 1) <= x < bpow (e + prec F))%R /\
    rounds m s (x * bpow (- e)) n /\ (IZR n * bpow e < bpow (emin F + prec F - 1))%R.

(** What an overflow gives: infinity, or the largest finite number. *)
Definition overflow_result (F : format) (m : mode) (s : bool) : Z :=
  let to_inf := match m with RNE | RMM => true | RTZ => false | RDN => s | RUP => negb s end in
  signed F s (if to_inf then inf_mag F else inf_mag F - 1).

(** The pattern [u] and the flags [fl] are the result of rounding the exact
    number with sign [s] and magnitude [x > 0]. *)
Inductive rounded (F : format) (m : mode) (s : bool) (x : R) : Z -> Z -> Prop :=
| rounded_finite e n u ix un :
    last_place F x e -> rounds m s (x * bpow (- e)) n ->
    (IZR n * bpow e < bpow (emax F))%R ->
    is_pattern F u -> is_finite F u = true ->
    sign_of F u = s -> absval F u = (IZR n * bpow e)%R ->
    (ix = true <-> x <> IZR n * bpow e)%R ->
    (un = true <-> (x <> IZR n * bpow e)%R /\ tiny F m s x) ->
    rounded F m s x u (Z.lor (flag_if ix flag_inexact) (flag_if un flag_underflow))
| rounded_overflow e n :
    last_place F x e -> rounds m s (x * bpow (- e)) n ->
    (bpow (emax F) <= IZR n * bpow e)%R ->
    rounded F m s x (overflow_result F m s) (Z.lor flag_overflow flag_inexact).

(** The result for an exact real number [r] of any sign; [zs] is the sign that
    an exact zero gets. *)
Definition rounds_to (F : format) (m : mode) (zs : bool) (r : R) (u fl : Z) : Prop :=
  (r = 0%R /\ u = zero F zs /\ fl = 0) \/
  ((0 < r)%R /\ rounded F m false r u fl) \/ ((r < 0)%R /\ rounded F m true (- r) u fl).

(** ** Significands that stand for a real number *)

Definition agrees (g : Z) (y : R) (s : Z) : Prop :=
  forall k : Z, ((IZR (k * 2 ^ g) < y)%R <-> k * 2 ^ g < s) /\
                ((y < IZR (k * 2 ^ g))%R <-> s < k * 2 ^ g).

Lemma agrees_exact g s : agrees g (IZR s) s.
Proof. intros k. split; (split; [apply lt_IZR|apply IZR_lt]). Qed.

Lemma agrees_mono g g' y s : 0 <= g <= g' -> agrees g y s -> agrees g' y s.
Proof.
  intros Hg H k. replace (k * 2 ^ g') with (k * 2 ^ (g' - g) * 2 ^ g); [apply H|].
  rewrite <-Z.mul_assoc, <-Z.pow_add_r by lia. do 2 f_equal. lia.
Qed.

Lemma agrees_lt g y s k : agrees g y s -> (IZR (k * 2 ^ g) < y)%R <-> k * 2 ^ g < s.
Proof. intros H. apply (H k). Qed.
Lemma agrees_gt g y s k : agrees g y s -> (y < IZR (k * 2 ^ g))%R <-> s < k * 2 ^ g.
Proof. intros H. apply (H k). Qed.
Lemma agrees_le g y s k : agrees g y s -> (IZR (k * 2 ^ g) <= y)%R <-> k * 2 ^ g <= s.
Proof.
  intros H. pose proof (agrees_gt _ _ _ k H) as Hk. split; intros Hle.
  - apply Z.nlt_ge. intros Hlt. apply Hk in Hlt. lra.
  - apply Rnot_lt_le. intros Hlt. apply Hk in Hlt. lia.
Qed.
Lemma agrees_ge g y s k : agrees g y s -> (y <= IZR (k * 2 ^ g))%R <-> s <= k * 2 ^ g.
Proof.
  intros H. pose proof (agrees_lt _ _ _ k H) as Hk. split; intros Hle.
  - apply Z.nlt_ge. intros Hlt. apply Hk in Hlt. lra.
  - apply Rnot_lt_le. intros Hlt. apply Hk in Hlt. lia.
Qed.

(** A significand that is itself a multiple is exact. *)
Lemma agrees_multiple g y s k : agrees g y s -> s = k * 2 ^ g -> y = IZR s.
Proof.
  intros H ->. apply Rle_antisym.
  - apply (agrees_ge _ _ _ k H). lia.
  - apply (agrees_le _ _ _ k H). lia.
Qed.

Lemma agrees_add g y s k :
  0 <= g -> agrees g y s -> agrees g (y + IZR (k * 2 ^ g)) (s + k * 2 ^ g).
Proof.
  intros Hg H j. pose proof (H (j - k)) as [H1 H2].
  rewrite Z.mul_sub_distr_r, minus_IZR in H1, H2. split.
  - transitivity (j * 2 ^ g - k * 2 ^ g < s); [rewrite <-H1; split; lra|lia].
  - transitivity (s < j * 2 ^ g - k * 2 ^ g); [rewrite <-H2; split; lra|lia].
Qed.

Lemma agrees_opp g y s : agrees g y s -> agrees g (- y) (- s).
Proof.
  intros H j. pose proof (H (- j)) as [H1 H2].
  rewrite Z.mul_opp_l, opp_IZR in H1, H2. split.
  - transitivity (s < - (j * 2 ^ g)); [rewrite <-H2; split; lra|lia].
  - transitivity (- (j * 2 ^ g) < s); [rewrite <-H1; split; lra|lia].
Qed.

Lemma agrees_shiftl g y s d :
  0 <= g -> 0 <= d -> agrees g y s -> agrees (g + d) (y * bpow d) (s * 2 ^ d).
Proof.
  intros Hg Hd H k. pose proof (H k) as [H1 H2].
  rewrite Z.pow_add_r, Z.mul_assoc by lia. rewrite (IZR_bpow _ d), !scale_lt by done.
  pose proof (Z.pow_pos_nonneg 2 d).
  by rewrite <-!Z.mul_lt_mono_pos_r by lia.
Qed.

(** A right shift that keeps the lost bits as a sticky last bit. *)
Definition jam_shift (s d : Z) : Z :=
  Z.lor (s / 2 ^ d) (Z.b2z (negb (s mod 2 ^ d =? 0))).

Lemma lor_1 q : Z.lor q 1 = if Z.even q then q + 1 else q.
Proof.
  destruct (Z.even q) eqn:E.
  - apply Z.even_spec in E as [a ->].
    rewrite Z.add_nocarry_lxor, Z.lxor_lor; try done;
      apply Z.bits_inj'; intros n Hn; rewrite Z.land_spec, Z.bits_0;
      (destruct (decide (n = 0)) as [->|]; [by rewrite Z.testbit_even_0|]);
      replace (Z.testbit 1 n) with false by (symmetry; apply Z.bits_above_log2; simpl; lia);
      apply andb_false_r.
  - assert (Z.odd q = true) as E' by (by rewrite <-Z.negb_even, E).
    apply Z.odd_spec in E' as [a ->].
    apply Z.bits_inj'; intros n Hn. rewrite Z.lor_spec.
    destruct (decide (n = 0)) as [->|].
    + by rewrite Z.testbit_odd_0.
    + replace (Z.testbit 1 n) with false by (symmetry; apply Z.bits_above_log2; simpl; lia).
      apply orb_false_r.
Qed.

Lemma jam_shift_cases s d :
  0 <= d ->
  (s = 2 ^ d * (s / 2 ^ d) /\ jam_shift s d = s / 2 ^ d) \/
  (2 ^ d * (s / 2 ^ d) < s < 2 ^ d * (s / 2 ^ d) + 2 ^ d /\
   Z.odd (jam_shift s d) = true /\ s / 2 ^ d <= jam_shift s d <= s / 2 ^ d + 1).
Proof.
  intros Hd. unfold jam_shift. pose proof (Z.pow_pos_nonneg 2 d).
  pose proof (Z.div_mod s (2 ^ d)). pose proof (Z.mod_pos_bound s (2 ^ d)).
  destruct (Z.eqb_spec (s mod 2 ^ d) 0) as [E|E]; simpl.
  - left. rewrite Z.lor_0_r. lia.
  - right. split; [lia|]. rewrite lor_1. destruct (Z.even (s / 2 ^ d)) eqn:Ev.
    + split; [|lia]. rewrite <-Z.negb_even, Z.add_1_r, Z.even_succ, <-Z.negb_even, Ev. done.
    + split; [|lia]. by rewrite <-Z.negb_even, Ev.
Qed.

(** Multiples of [2 ^ g], for [g >= 1], do not tell the shifted significand with
    its sticky bit from the exact quotient. *)
Lemma agrees_jam_shift g g' y s d :
  0 <= g -> 0 <= d -> 1 <= g' -> g <= g' + d ->
  agrees g y s -> agrees g' (y * bpow (- d)) (jam_shift s d).
Proof.
  intros Hg Hd Hg' Hgd H k. apply (agrees_mono _ (g' + d)) in H; [|lia].
  pose proof (H k) as [H1 H2].
  rewrite Z.pow_add_r, Z.mul_assoc in H1, H2 by lia.
  rewrite <-(scale_lt d), <-(scale_lt d (y * _)).
  rewrite Rmult_assoc, bpow_opp, Rmult_1_r, <-IZR_bpow, H1, H2 by lia.
  pose proof (Z.pow_pos_nonneg 2 d ltac:(lia) Hd) as Hp.
  assert (exists j, k * 2 ^ g' = 2 * j) as [j ->].
  { exists (k * 2 ^ (g' - 1)). replace g' with (g' - 1 + 1) at 1 by lia.
    rewrite Z.pow_add_r by lia. lia. }
  destruct (jam_shift_cases s d Hd) as [[E ->]|(Hb & Ho & Hq)].
  - split; nia.
  - apply Z.odd_spec in Ho as [i Hi]. set (q := s / 2 ^ d) in *. split; split; intros; nia.
Qed.

(** ** Rounding a significand *)

(** The increment the mode adds before the last [rb] bits are dropped. *)
Definition increment (m : mode) (s : bool) (rb : Z) : Z :=
  match m with
  | RNE | RMM => 2 ^ (rb - 1)
  | RTZ => 0
  | RDN => if s then 2 ^ rb - 1 else 0
  | RUP => if s then 0 else 2 ^ rb - 1
  end.
Definition round_sig (m : mode) (s : bool) (rb sig : Z) : Z :=
  let n := (sig + increment m s rb) / 2 ^ rb in
  match m with
  | RNE => if sig mod 2 ^ rb =? 2 ^ (rb - 1) then n - n mod 2 else n
  | _ => n
  end.

(** Comparisons of [y / 2 ^ rb] with half-integers. *)
Lemma half_le rb y k :
  1 <= rb -> (IZR k * / 2 <= y * bpow (- rb))%R <-> (IZR (k * 2 ^ (rb - 1)) <= y)%R.
Proof.
  intros. rewrite <-(scale_le rb), Rmult_assoc, (Rmult_assoc y), bpow_opp, Rmult_1_r.
  replace (/ 2 * bpow rb)%R with (bpow (rb - 1)); [by rewrite IZR_bpow by lia|].
  replace rb with (rb - 1 + 1) at 2 by lia. rewrite bpow_add, (bpow_IZR 1) by lia.
  change (IZR (2 ^ 1)) with 2%R. lra.
Qed.
Lemma half_ge rb y k :
  1 <= rb -> (y * bpow (- rb) <= IZR k * / 2)%R <-> (y <= IZR (k * 2 ^ (rb - 1)))%R.
Proof.
  intros. rewrite <-(scale_le rb), Rmult_assoc, (Rmult_assoc _ (/ 2)), bpow_opp, Rmult_1_r.
  replace (/ 2 * bpow rb)%R with (bpow (rb - 1)); [by rewrite IZR_bpow by lia|].
  replace rb with (rb - 1 + 1) at 2 by lia. rewrite bpow_add, (bpow_IZR 1) by lia.
  change (IZR (2 ^ 1)) with 2%R. lra.
Qed.

(** Rounding [y / 2 ^ rb], by comparisons of [y] with multiples of
    [2 ^ (rb - 1)]. *)
Lemma rounds_scaled m s rb y n :
  1 <= rb ->
  rounds m s (y * bpow (- rb)) n <->
  let le a := (IZR (a * 2 ^ (rb - 1)) <= y)%R in
  let ge a := (y <= IZR (a * 2 ^ (rb - 1)))%R in
  match m with
  | RNE => le (2 * n - 1) /\ ge (2 * n + 1) /\
           (ge (2 * n - 1) \/ le (2 * n + 1) -> Z.even n = true)
  | RMM => le (2 * n - 1) /\ ~ le (2 * n + 1)
  | RTZ => le (2 * n) /\ ~ le (2 * n + 2)
  | RDN => if s then ~ ge (2 * n - 2) /\ ge (2 * n) else le (2 * n) /\ ~ le (2 * n + 2)
  | RUP => if s then le (2 * n) /\ ~ le (2 * n + 2) else ~ ge (2 * n - 2) /\ ge (2 * n)
  end.
Proof.
  intros Hrb. cbv beta zeta.
  assert (forall k, IZR (2 * n + k) * / 2 = IZR n + IZR k * / 2)%R as Hk.
  { intros. rewrite plus_IZR, mult_IZR. lra. }
  pose proof (Hk 0) as H0. rewrite Z.add_0_r in H0.
  pose proof (Hk (-1)) as H1. pose proof (Hk (-2)) as H2.
  change (2 * n + -1) with (2 * n - 1) in H1. change (2 * n + -2) with (2 * n - 2) in H2.
  destruct m, s; unfold rounds; rewrite <-?half_le, <-?half_ge by done;
    rewrite ?Hk, ?H0, ?H1, ?H2.
  all: try (split; (intros [? ?] || intros (? & ?)); split; lra).
  all: split; [intros [? He]|intros (? & ? & He)]; split_and!; try lra.
  all: intros [?|?]; apply He; lra.
Qed.

Lemma rounds_agrees m sg rb y s n :
  1 <= rb -> agrees (rb - 1) y s ->
  rounds m sg (y * bpow (- rb)) n <-> rounds m sg (IZR s * bpow (- rb)) n.
Proof.
  intros Hrb H. rewrite !rounds_scaled by done. cbv beta zeta.
  pose proof (fun k => agrees_le _ _ _ k H) as Hle. pose proof (fun k => agrees_ge _ _ _ k H) as Hge.
  assert (forall k, (IZR (k * 2 ^ (rb - 1)) <= IZR s)%R <-> k * 2 ^ (rb - 1) <= s) as Hle'.
  { intros; split; [apply le_IZR|apply IZR_le]. }
  assert (forall k, (IZR s <= IZR (k * 2 ^ (rb - 1)))%R <-> s <= k * 2 ^ (rb - 1)) as Hge'.
  { intros; split; [apply le_IZR|apply IZR_le]. }
  destruct m, sg; by rewrite ?Hle, ?Hge, ?Hle', ?Hge'.
Qed.

Lemma round_sig_rounds m sg rb y s :
  1 <= rb -> agrees (rb - 1) y s -> rounds m sg (y * bpow (- rb)) (round_sig m sg rb s).
Proof.
  intros Hrb H. apply (rounds_agrees _ _ _ _ s); [done..|]. rewrite rounds_scaled by done.
  cbv beta zeta. unfold round_sig, increment.
  assert (2 ^ rb = 2 * 2 ^ (rb - 1)) as ->.
  { rewrite <-Z.pow_succ_r by lia. f_equal. lia. }
  pose proof (Z.pow_pos_nonneg 2 (rb - 1)). set (h := 2 ^ (rb - 1)) in *.
  assert (forall a b, (IZR a <= IZR b)%R <-> a <= b) as Hz.
  { intros; split; [apply le_IZR|apply IZR_le]. }
  assert (forall c, exists q r, s + c = 2 * h * q + r /\ 0 <= r < 2 * h /\ (s + c) / (2 * h) = q) as Hdiv.
  { intros c. exists ((s + c) / (2 * h)), ((s + c) mod (2 * h)). split; [by apply Z.div_mod; lia|].
    split; [apply Z.mod_pos_bound; lia|done]. }
  destruct m, sg; rewrite ?Hz;
    match goal with |- context [(?a + ?c) / _] => destruct (Hdiv c) as (q & r & Hq & Hr & ->) end.
  1,2: destruct (Hdiv 0) as (q0 & r0 & Hq0 & Hr0 & _); rewrite Z.add_0_r in Hq0;
    assert (s mod (2 * h) = r0) as -> by (symmetry; apply Z.mod_unique with q0; lia);
    destruct (Z.eqb_spec r0 h) as [->|Hne].
  all: try (split_and!; nia).
  1,3: assert (q = q0 + 1) as -> by nia; pose proof (Z.mod_pos_bound (q0 + 1) 2);
    split_and!; [nia|nia|intros _; rewrite Z.even_sub, Zmod_even;
                 by destruct (Z.even (q0 + 1))].
  all: split_and!; [nia|nia|]; intros [?|?]; [|nia].
  all: exfalso; apply Hne; assert (q = q0 + 1) by nia; nia.
Qed.

Lemma round_sig_lt m sg rb sig b :
  1 <= rb -> Z.even b = true ->
  round_sig m sg rb sig < b <-> sig + increment m sg rb < b * 2 ^ rb.
Proof.
  intros Hrb Hb. unfold round_sig. pose proof (Z.pow_pos_nonneg 2 rb).
  set (t := sig + increment m sg rb). set (n := t / 2 ^ rb).
  assert (n < b <-> t < b * 2 ^ rb) as Hn.
  { unfold n. rewrite (Z.mul_comm b). pose proof (Z.div_mod t (2 ^ rb)).
    pose proof (Z.mod_pos_bound t (2 ^ rb)). split; intros; nia. }
  rewrite <-Hn. destruct m; try done. case_match; [|done].
  apply Z.even_spec in Hb as [a ->]. divlia.
Qed.

Lemma round_sig_nonneg m sg rb sig : 1 <= rb -> 0 <= sig -> 0 <= round_sig m sg rb sig.
Proof.
  intros Hrb Hs. pose proof (round_sig_lt m sg rb sig 0 Hrb eq_refl) as H.
  assert (0 <= increment m sg rb).
  { pose proof (Z.pow_pos_nonneg 2 rb). pose proof (Z.pow_nonneg 2 (rb - 1)).
    unfold increment. destruct m, sg; lia. }
  lia.
Qed.

Section Patterns.
Context (F : format) `{ValidFormat F}.
Local Notation p := (prec F).
Local Notation w := (ewidth F).

Lemma pow_width : 2 ^ (p + w - 1) = 2 ^ w * 2 ^ (p - 1).
Proof. pose proof prec_valid. pose proof ewidth_valid. rewrite <-Z.pow_add_r by lia. f_equal. lia. Qed.

Lemma pow_prec : 2 ^ p = 2 * 2 ^ (p - 1).
Proof. pose proof prec_valid. rewrite <-Z.pow_succ_r by lia. f_equal. lia. Qed.

Lemma pow_prec_pos : 0 < 2 ^ (p - 1).
Proof. pose proof prec_valid. apply Z.pow_pos_nonneg; lia. Qed.

Lemma pow_ewidth : 2 ^ w = 2 * emax F /\ 2 <= emax F.
Proof.
  pose proof ewidth_valid. unfold emax. split.
  - rewrite <-Z.pow_succ_r by lia. f_equal. lia.
  - change 2 with (2 ^ 1) at 1. apply Z.pow_le_mono_r; lia.
Qed.

Lemma inf_mag_lt : inf_mag F < 2 ^ (p + w - 1).
Proof. rewrite pow_width. unfold inf_mag. pose proof pow_prec_pos. nia. Qed.

Lemma signed_mag s n : 0 <= n < 2 ^ (p + w - 1) -> mag F (signed F s n) = n.
Proof.
  intros Hn. unfold mag, signed. rewrite Z.add_comm, Z.mod_add by lia. by apply Z.mod_small.
Qed.

Lemma signed_sign s n : 0 <= n < 2 ^ (p + w - 1) -> sign_of F (signed F s n) = s.
Proof.
  intros Hn. pose proof prec_valid. pose proof ewidth_valid.
  unfold sign_of, signed. rewrite Z.testbit_eqb by lia.
  rewrite (Z.add_comm _ n), Z.div_add, Z.div_small by lia. by destruct s.
Qed.

Lemma signed_pattern s n : 0 <= n < 2 ^ (p + w - 1) -> is_pattern F (signed F s n).
Proof.
  intros Hn. pose proof prec_valid. pose proof ewidth_valid.
  assert (2 ^ (p + w) = 2 * 2 ^ (p + w - 1)) as Hpow.
  { rewrite <-Z.pow_succ_r by lia. f_equal. lia. }
  unfold is_pattern, signed. destruct s; simpl Z.b2z; lia.
Qed.

(** Every pattern is its sign and its magnitude. *)
Lemma signed_eta u : is_pattern F u -> u = signed F (sign_of F u) (mag F u).
Proof.
  intros Hu. pose proof prec_valid. pose proof ewidth_valid.
  unfold is_pattern, signed, sign_of, mag in *.
  assert (2 ^ (p + w) = 2 * 2 ^ (p + w - 1)) as Hpow.
  { rewrite <-Z.pow_succ_r by lia. f_equal. lia. }
  pose proof (Z.pow_pos_nonneg 2 (p + w - 1) ltac:(lia) ltac:(lia)).
  rewrite Z.testbit_spec' by lia. set (h := 2 ^ (p + w - 1)) in *.
  pose proof (Z.div_mod u h ltac:(lia)).
  assert (0 <= u / h < 2) by (split; [apply Z.div_pos|apply Z.div_lt_upper_bound]; lia).
  rewrite (Z.mod_small (u / h)) by lia. lia.
Qed.

Lemma mag_range u : 0 <= mag F u < 2 ^ (p + w - 1).
Proof. pose proof prec_valid. pose proof ewidth_valid. apply Z.mod_pos_bound, Z.pow_pos_nonneg; lia. Qed.

Lemma frac_range u : 0 <= frac F u < 2 ^ (p - 1).
Proof. apply Z.mod_pos_bound, pow_prec_pos. Qed.

Lemma mag_eq u : mag F u = expo F u * 2 ^ (p - 1) + frac F u.
Proof.
  pose proof pow_prec_pos. unfold expo.
  rewrite (Z.div_mod (mag F u) (2 ^ (p - 1))) at 1 by lia. unfold frac, mag.
  rewrite pow_width, Z.mul_comm. f_equal. rewrite (Z.mul_comm (2 ^ w)).
  pose proof ewidth_valid. pose proof (Z.pow_pos_nonneg 2 w ltac:(lia) ltac:(lia)).
  rewrite Z.rem_mul_r by lia. by rewrite Z.mul_comm, Z.mod_add, Z.mod_mod by lia.
Qed.

Lemma expo_range u : 0 <= expo F u < 2 ^ w.
Proof.
  pose proof pow_prec_pos. pose proof (mag_range u) as Hm. rewrite pow_width in Hm.
  unfold expo. split; [by apply Z.div_pos; lia|]. apply Z.div_lt_upper_bound; lia.
Qed.

(** The fields of a magnitude that is put together from them. *)
Lemma signed_fields s e f :
  0 <= e < 2 ^ w -> 0 <= f < 2 ^ (p - 1) ->
  let u := signed F s (e * 2 ^ (p - 1) + f) in expo F u = e /\ frac F u = f.
Proof.
  intros He Hf u. pose proof pow_prec_pos.
  assert (mag F u = e * 2 ^ (p - 1) + f) as Hm by (apply signed_mag; rewrite pow_width; nia).
  unfold expo. rewrite Hm. split.
  - rewrite Z.add_comm, Z.div_add, Z.div_small; lia.
  - pose proof (mag_eq u) as Hq. pose proof (frac_range u).
    assert (expo F u = e); [|nia]. unfold expo. rewrite Hm, Z.add_comm, Z.div_add, Z.div_small; lia.
Qed.

(** The value of an exponent and a significand put together, whether the hidden
    bit is in the significand (and adds one to the exponent field) or not. *)
Lemma absval_signed s e n :
  0 <= e -> 0 <= n <= 2 ^ p -> e = 0 \/ 2 ^ (p - 1) <= n ->
  e * 2 ^ (p - 1) + n < inf_mag F ->
  absval F (signed F s (e * 2 ^ (p - 1) + n)) = (IZR n * bpow (e + emin F))%R.
Proof.
  intros He Hn Hd Hlt. pose proof pow_prec_pos. pose proof pow_prec. unfold inf_mag in Hlt.
  pose proof (Z.div_mod n (2 ^ (p - 1)) ltac:(lia)). pose proof (Z.mod_pos_bound n (2 ^ (p - 1)) ltac:(lia)).
  set (q := n / 2 ^ (p - 1)) in *. set (r := n mod 2 ^ (p - 1)) in *.
  clearbody q r. assert (0 <= q <= 2) by nia.
  destruct (signed_fields s (e + q) r) as [E1 E2]; [nia|lia|].
  replace (e * 2 ^ (p - 1) + n) with ((e + q) * 2 ^ (p - 1) + r) by nia.
  unfold absval. rewrite E1, E2. case_decide as Hz.
  - assert (q = 0 /\ e = 0) as [-> ->] by lia. by replace n with r by lia.
  - assert (q = 0 \/ q = 1 \/ q = 2) as [->|[->| ->]] by lia; [exfalso; lia| |].
    + replace n with (2 ^ (p - 1) + r) by lia. do 2 f_equal. lia.
    + assert (n = 2 * 2 ^ (p - 1) /\ r = 0) as [-> ->] by lia. rewrite Z.add_0_r, mult_IZR. replace (e + 2 - 1 + emin F) with (1 + (e + emin F)) by lia.
      rewrite bpow_add, (bpow_IZR 1) by lia. change (IZR (2 ^ 1)) with 2%R. lra.
Qed.

(** Such a pair is finite exactly when its value is below [2 ^ emax]. *)
Lemma inf_mag_threshold e n :
  0 <= e -> 0 <= n <= 2 ^ p -> e = 0 \/ 2 ^ (p - 1) <= n ->
  e * 2 ^ (p - 1) + n < inf_mag F <-> (IZR n * bpow (e + emin F) < bpow (emax F))%R.
Proof.
  intros He Hn Hd. pose proof pow_prec_pos. pose proof pow_prec. pose proof prec_valid.
  destruct pow_ewidth as [Hw Hx]. unfold inf_mag. rewrite Hw. unfold emin.
  set (h := 2 ^ (p - 1)) in *.
  assert (bpow p = IZR (2 ^ p)) as Hbp by (apply bpow_IZR; lia).
  assert (bpow (p - 1) = IZR h) as Hbh by (apply bpow_IZR; lia).
  destruct (Z_lt_le_dec e (2 * emax F - 3)) as [Hlt|Hge].
  - split; [intros _|intros _; nia].
    apply Rle_lt_trans with (bpow p * bpow (e + (3 - emax F - p)))%R.
    + apply Rmult_le_compat_r; [apply Rlt_le, bpow_gt_0|]. rewrite Hbp. apply IZR_le. lia.
    + rewrite <-bpow_add. apply bpow_lt. lia.
  - destruct (decide (e = 2 * emax F - 3)) as [->|Hne].
    + replace (2 * emax F - 3 + (3 - emax F - p)) with (emax F + - p) by lia.
      replace (bpow (emax F)) with (bpow p * bpow (emax F + - p))%R
        by (rewrite <-bpow_add; f_equal; lia).
      rewrite scale_lt, Hbp. split; [intros; apply IZR_lt; nia|]. intros Hr. apply lt_IZR in Hr. nia.
    + split; [intros; nia|]. intros Hr. exfalso.
      assert (bpow (emax F) <= bpow (p - 1) * bpow (e + (3 - emax F - p)))%R.
      { rewrite <-bpow_add. apply bpow_le. lia. }
      assert (IZR h * bpow (e + (3 - emax F - p)) <= IZR n * bpow (e + (3 - emax F - p)))%R.
      { apply Rmult_le_compat_r; [apply Rlt_le, bpow_gt_0|]. apply IZR_le. lia. }
      rewrite Hbh in *. lra.
Qed.
End Patterns.

(** ** From a significand to the correctly rounded result *)

Section Results.
Context (F : format) `{ValidFormat F} (m : mode) (s : bool) (rb : Z).
Hypothesis rb_ge : 2 <= rb.
Local Notation p := (prec F).

Definition inexact_bits (sig : Z) : bool := negb (sig mod 2 ^ rb =? 0).

Lemma pow_sig : 2 ^ (p + rb) = 2 ^ p * 2 ^ rb /\ 2 ^ (p + rb - 1) = 2 ^ (p - 1) * 2 ^ rb /\
  2 ^ rb = 2 * 2 ^ (rb - 1).
Proof.
  pose proof prec_valid. rewrite <-!Z.pow_add_r by lia. split_and!; [done|f_equal; lia|].
  rewrite <-Z.pow_succ_r by lia. f_equal. lia.
Qed.

Lemma agrees_scale_le y sig a :
  agrees (rb - 1) y sig -> (IZR (a * 2 ^ rb) <= y)%R <-> a * 2 ^ rb <= sig.
Proof.
  intros Ha. destruct pow_sig as (_ & _ & ->).
  replace (a * (2 * 2 ^ (rb - 1))) with (2 * a * 2 ^ (rb - 1)) by lia. by apply agrees_le.
Qed.
Lemma agrees_scale_gt y sig a :
  agrees (rb - 1) y sig -> (y < IZR (a * 2 ^ rb))%R <-> sig < a * 2 ^ rb.
Proof.
  intros Ha. destruct pow_sig as (_ & _ & ->).
  replace (a * (2 * 2 ^ (rb - 1))) with (2 * a * 2 ^ (rb - 1)) by lia. by apply agrees_gt.
Qed.

Lemma inexact_iff y sig n :
  agrees (rb - 1) y sig -> rounds m s (y * bpow (- rb)) n ->
  inexact_bits sig = true <-> (y * bpow (- rb) <> IZR n)%R.
Proof.
  intros Ha Hn. unfold inexact_bits. rewrite negb_true_iff, Z.eqb_neq.
  pose proof (Z.pow_pos_nonneg 2 rb ltac:(lia) ltac:(lia)).
  split.
  - intros Hs E. apply Hs. assert (y = IZR (n * 2 ^ rb)) as Hy.
    { apply (scale_eq (- rb)). rewrite E, IZR_bpow, Rmult_assoc, (Rmult_comm (bpow rb)), bpow_opp by lia. lra. }
    assert (n * 2 ^ rb <= sig) by (apply (agrees_scale_le y); [done|lra]).
    assert (~ sig < (n + 1) * 2 ^ rb -> False).
    { intros Hge. apply Hge, (agrees_scale_gt y); [done|]. rewrite Hy. apply IZR_lt. nia. }
    assert (sig <= n * 2 ^ rb).
    { destruct pow_sig as (_ & _ & E2). rewrite E2 in *.
      replace (n * (2 * 2 ^ (rb - 1))) with (2 * n * 2 ^ (rb - 1)) in * by lia.
      apply (agrees_ge _ y); [done|]. lra. }
    replace sig with (n * 2 ^ rb) by lia. apply Z.mod_mul. lia.
  - intros Hy Hs. apply Hy. pose proof (Z.div_mod sig (2 ^ rb) ltac:(lia)) as Hd.
    rewrite Hs, Z.add_0_r in Hd.
    assert (y = IZR sig) as ->.
    { destruct pow_sig as (_ & _ & E2).
      apply (agrees_multiple _ _ _ (2 * (sig / 2 ^ rb)) Ha). rewrite Hd at 1. rewrite E2 at 1. lia. }
    assert (IZR sig * bpow (- rb) = IZR (sig / 2 ^ rb))%R as Hq.
    { rewrite Hd at 1. rewrite Z.mul_comm, IZR_bpow, Rmult_assoc, (Rmult_comm (bpow rb)), bpow_opp by lia. lra. }
    rewrite Hq in *. f_equal. eapply rounds_unique; [apply rounds_IZR|done].
Qed.

(** Rounding a significand and putting the result together. *)
Lemma rounded_sig y sig e tn x :
  agrees (rb - 1) y sig -> 0 <= e -> 0 <= sig < 2 ^ (p + rb) ->
  e = 0 \/ 2 ^ (p + rb - 1) <= sig ->
  x = (y * bpow (e - rb + emin F))%R -> (tn = true <-> tiny F m s x) ->
  let n := round_sig m s rb sig in
  let ix := inexact_bits sig in
  rounded F m s x
    (if e * 2 ^ (p - 1) + n <? inf_mag F then signed F s (e * 2 ^ (p - 1) + n)
     else overflow_result F m s)
    (if e * 2 ^ (p - 1) + n <? inf_mag F
     then Z.lor (flag_if ix flag_inexact) (flag_if (ix && tn) flag_underflow)
     else Z.lor flag_overflow flag_inexact).
Proof.
  intros Ha He Hs Hd Hx Htn n ix. pose proof prec_valid. pose proof (pow_prec F).
  pose proof (pow_prec_pos F). destruct pow_sig as (E1 & E2 & E3).
  assert (rounds m s (y * bpow (- rb)) n) as Hn by (apply round_sig_rounds; [lia|done]).
  assert (x * bpow (- (e + emin F)) = y * bpow (- rb))%R as Hxy.
  { rewrite Hx, Rmult_assoc, <-bpow_add. do 2 f_equal. lia. }
  assert (y * bpow (- rb) * bpow (e + emin F) = x)%R as Hyx.
  { rewrite Hx, Rmult_assoc, <-bpow_add. do 2 f_equal. lia. }
  assert (bpow (p + rb) = IZR (2 ^ p * 2 ^ rb)) as Hb1 by (rewrite bpow_IZR, E1 by lia; done).
  assert (bpow (p - 1 + rb) = IZR (2 ^ (p - 1) * 2 ^ rb)) as Hb2.
  { rewrite bpow_IZR by lia. rewrite <-E2. do 2 f_equal. lia. }
  assert (last_place F x (e + emin F)) as Hlp.
  { split; [lia|]. rewrite <-Hyx. replace (e + emin F + p - 1) with (p - 1 + (e + emin F)) by lia.
    replace (e + emin F + p) with (p + (e + emin F)) by lia.
    rewrite (bpow_add p (e + emin F)), (bpow_add (p - 1) (e + emin F)), scale_lt, scale_le.
    rewrite <-(scale_lt rb), <-(scale_le rb), <-!bpow_add.
    rewrite Hb1, Hb2, Rmult_assoc, bpow_opp, Rmult_1_r.
    rewrite (agrees_scale_le y sig), (agrees_scale_gt y sig) by done. lia. }
  assert (0 <= n <= 2 ^ p) as Hnr.
  { split; [apply round_sig_nonneg; lia|].
    assert (0 <= n <= 2 ^ p); [|lia]. apply (rounds_bounds _ _ _ _ _ _ Hn).
    split; apply (scale_le rb); rewrite Rmult_assoc, bpow_opp, Rmult_1_r, <-IZR_bpow by lia;
      [apply (agrees_scale_le y sig); [done|lia]|].
    apply Rlt_le, (agrees_scale_gt y sig); [done|lia]. }
  assert (e = 0 \/ 2 ^ (p - 1) <= n) as Hdn.
  { destruct Hd as [|Hd]; [by left|right].
    assert (2 ^ (p - 1) <= n <= 2 ^ p); [|lia]. apply (rounds_bounds _ _ _ _ _ _ Hn).
    split; apply (scale_le rb); rewrite Rmult_assoc, bpow_opp, Rmult_1_r, <-IZR_bpow by lia;
      [apply (agrees_scale_le y sig); [done|lia]|].
    apply Rlt_le, (agrees_scale_gt y sig); [done|lia]. }
  pose proof (inf_mag_threshold F e n He Hnr Hdn) as Hth.
  destruct (Z.ltb_spec (e * 2 ^ (p - 1) + n) (inf_mag F)) as [Hlt|Hge].
  - pose proof (inf_mag_lt F). assert (0 <= e * 2 ^ (p - 1) + n < 2 ^ (p + ewidth F - 1)) by nia.
    assert (ix = true <-> x <> IZR n * bpow (e + emin F))%R as Hix.
    { unfold ix. rewrite (inexact_iff y sig n), <-Hyx, scale_eq by done. done. }
    apply (rounded_finite _ _ _ _ (e + emin F) n); [done|by rewrite Hxy|by apply Hth| | | | |done|].
    + by apply signed_pattern.
    + apply Z.ltb_lt. by rewrite signed_mag.
    + by apply signed_sign.
    + by apply absval_signed.
    + by rewrite andb_true_iff, Hix, Htn.
  - apply (rounded_overflow _ _ _ _ (e + emin F) n); [done|by rewrite Hxy|].
    apply Rnot_lt_le. rewrite <-Hth. lia.
Qed.

(** A normalised significand: how far it is below the normal numbers. *)
Lemma tiny_sig y sig e x :
  agrees (rb - 1) y sig -> 2 ^ (p + rb - 1) <= sig < 2 ^ (p + rb) ->
  x = (y * bpow (e - rb + emin F))%R ->
  tiny F m s x <-> e < -1 \/ e = -1 /\ sig + increment m s rb < 2 ^ (p + rb).
Proof.
  intros Ha Hs Hx. pose proof prec_valid. pose proof (pow_prec F).
  pose proof (pow_prec_pos F). destruct pow_sig as (E1 & E2 & E3).
  set (n := round_sig m s rb sig).
  assert (rounds m s (y * bpow (- rb)) n) as Hn by (apply round_sig_rounds; [lia|done]).
  assert (IZR (2 ^ (p - 1)) <= y * bpow (- rb) < IZR (2 ^ p))%R as Hy.
  { split; [apply (scale_le rb)|apply (scale_lt rb)]; rewrite Rmult_assoc, bpow_opp, Rmult_1_r, <-IZR_bpow by lia;
    [apply (agrees_scale_le y sig)|apply (agrees_scale_gt y sig)]; done || lia. }
  assert (x = y * bpow (- rb) * bpow (e + emin F))%R as Hyx.
  { rewrite Hx, Rmult_assoc, <-bpow_add. do 2 f_equal. lia. }
  assert (x * bpow (- (e + emin F)) = y * bpow (- rb))%R as Hxy.
  { rewrite Hx, Rmult_assoc, <-bpow_add. do 2 f_equal. lia. }
  rewrite <-!bpow_IZR in Hy by lia.
  assert (bpow (e + emin F + p - 1) <= x < bpow (e + emin F + p))%R as Hxr.
  { replace (e + emin F + p - 1) with (p - 1 + (e + emin F)) by lia.
    replace (e + emin F + p) with (p + (e + emin F)) by lia.
    rewrite Hyx, !(bpow_add _ (e + emin F)), scale_lt, scale_le. done. }
  assert (2 ^ (p - 1) <= n <= 2 ^ p) as Hnr.
  { apply (rounds_bounds _ _ _ _ _ _ Hn). rewrite <-!bpow_IZR by lia. lra. }
  transitivity (IZR n * bpow (e + emin F) < bpow (emin F + p - 1))%R.
  { split; [|intros; exists (e + emin F), n; by rewrite Hxy].
    intros (e' & n' & Hr & Hn' & Hlt).
    assert (e' = e + emin F) as ->.
    { assert (e' + p - 1 < e + emin F + p) by (apply bpow_lt_inv; lra).
      assert (e + emin F + p - 1 < e' + p) by (apply bpow_lt_inv; lra). lia. }
    rewrite Hxy in Hn'. by rewrite (rounds_unique _ _ _ _ _ Hn Hn'). }
  assert (n < 2 ^ p <-> sig + increment m s rb < 2 ^ (p + rb)) as Hinc.
  { unfold n. rewrite round_sig_lt; [by rewrite E1|lia|]. rewrite pow_prec by done. apply Z.even_even. }
  rewrite <-Hinc. replace (emin F + p - 1) with (p - 1 - e + (e + emin F)) by lia.
  rewrite (bpow_add (p - 1 - e) (e + emin F)), scale_lt. split.
  - intros Hlt. destruct (decide (e < -1)); [by left|right].
    destruct (decide (e = -1)) as [->|].
    + split; [done|]. replace (p - 1 - -1) with p in Hlt by lia.
      rewrite bpow_IZR in Hlt by lia. by apply lt_IZR.
    + exfalso. assert (bpow (p - 1 - e) <= bpow (p - 1))%R by (apply bpow_le; lia).
      rewrite (bpow_IZR (p - 1)) in * by lia. assert (IZR (2 ^ (p - 1)) <= IZR n)%R by (apply IZR_le; lia).
      lra.
  - intros [He|[-> Hlt]].
    + assert (bpow p < bpow (p - 1 - e))%R by (apply bpow_lt; lia).
      rewrite (bpow_IZR p) in * by lia. assert (IZR n <= IZR (2 ^ p))%R by (apply IZR_le; lia). lra.
    + replace (p - 1 - -1) with p by lia. rewrite bpow_IZR by lia. by apply IZR_lt.
Qed.

(** What rounding and packing a normalised significand gives. *)
Definition pack_result (e sig : Z) : Z * Z :=
  let out := fun e sig tn =>
    let n := round_sig m s rb sig in
    let ix := inexact_bits sig in
    if e * 2 ^ (p - 1) + n <? inf_mag F
    then (signed F s (e * 2 ^ (p - 1) + n),
          Z.lor (flag_if ix flag_inexact) (flag_if (ix && tn) flag_underflow))
    else (overflow_result F m s, Z.lor flag_overflow flag_inexact) in
  if e <? 0
  then out 0 (jam_shift sig (- e)) ((e <? -1) || (sig + increment m s rb <? 2 ^ (p + rb)))
  else out e sig false.

Lemma pack_result_rounded y sig e x :
  agrees (rb - 1) y sig -> 2 ^ (p + rb - 1) <= sig < 2 ^ (p + rb) ->
  x = (y * bpow (e - rb + emin F))%R ->
  rounded F m s x (pack_result e sig).1 (pack_result e sig).2.
Proof.
  intros Ha Hs Hx. pose proof prec_valid. pose proof (tiny_sig _ _ _ _ Ha Hs Hx) as Ht.
  unfold pack_result. destruct (Z.ltb_spec e 0) as [He|He].
  - set (tn := (e <? -1) || (sig + increment m s rb <? 2 ^ (p + rb))).
    assert (tn = true <-> tiny F m s x) as Htn.
    { rewrite Ht. unfold tn. rewrite orb_true_iff, !Z.ltb_lt. lia. }
    pose proof (jam_shift_cases sig (- e) ltac:(lia)) as Hj.
    assert (0 <= jam_shift sig (- e) < 2 ^ (p + rb)) as Hr.
    { pose proof (Z.pow_le_mono_r 2 1 (- e) ltac:(lia) ltac:(lia)).
      change (2 ^ 1) with 2 in *. set (d := 2 ^ (- e)) in *. set (q := sig / d) in *. nia. }
    pose proof (rounded_sig (y * bpow e) (jam_shift sig (- e)) 0 tn x) as Hres.
    cbv zeta in Hres. case_match; cbn [fst snd]; apply Hres; try done; try lia.
    1,3: replace e with (- - e) at 1 by lia; apply (agrees_jam_shift (rb - 1)); done || lia.
    all: rewrite Hx, Rmult_assoc, <-bpow_add; do 2 f_equal; lia.
  - pose proof (rounded_sig y sig e false x) as Hres. cbv zeta in Hres.
    assert (false = true <-> tiny F m s x) by (rewrite Ht; lia).
    rewrite andb_false_r in *. case_match; cbn [fst snd]; apply Hres; done || lia.
Qed.

(** A result that needs no rounding. *)
Lemma rounded_exact e n x :
  0 <= e -> 0 <= n < 2 ^ p -> e = 0 \/ 2 ^ (p - 1) <= n ->
  e * 2 ^ (p - 1) + n < inf_mag F -> x = (IZR n * bpow (e + emin F))%R ->
  rounded F m s x (signed F s (e * 2 ^ (p - 1) + n)) 0.
Proof.
  clear rb_ge rb. intros He Hn Hd Hlt ->. pose proof prec_valid. pose proof (pow_prec_pos F).
  pose proof (inf_mag_lt F).
  assert (0 <= e * 2 ^ (p - 1) + n < 2 ^ (p + ewidth F - 1)) by nia.
  apply (rounded_finite _ _ _ _ (e + emin F) n _ false false).
  - split; [lia|].
    replace (e + emin F + p - 1) with (p - 1 + (e + emin F)) by lia.
    replace (e + emin F + p) with (p + (e + emin F)) by lia.
    rewrite !(bpow_add _ (e + emin F)), scale_lt, scale_le, !bpow_IZR by lia.
    split; [apply IZR_lt; lia|]. destruct Hd as [->|]; [by left|right; by apply IZR_le].
  - rewrite Rmult_assoc, (Rmult_comm (bpow _)), bpow_opp, Rmult_1_r. apply rounds_IZR.
  - apply (inf_mag_threshold F); done || lia.
  - by apply signed_pattern.
  - apply Z.ltb_lt. by rewrite signed_mag.
  - by apply signed_sign.
  - apply absval_signed; done || lia.
  - split; [done|]. by intros [].
  - split; [done|]. by intros [[] _].
Qed.
End Results.

(** ** Classes of patterns by their fields *)

Section Classes.
Context (F : format) `{ValidFormat F}.

Lemma expo_div u : expo F u = (u / 2 ^ (prec F - 1)) mod 2 ^ ewidth F.
Proof.
  pose proof (pow_prec_pos F). pose proof (mag_eq F u) as Hm. pose proof (frac_range F u).
  pose proof ewidth_valid. pose proof (Z.pow_pos_nonneg 2 (ewidth F) ltac:(lia) ltac:(lia)).
  unfold mag, frac in *. rewrite (pow_width F), (Z.mul_comm (2 ^ ewidth F)), Z.rem_mul_r in Hm by lia.
  nia.
Qed.

Lemma is_nan_fields u :
  is_nan F u = (expo F u =? 2 ^ ewidth F - 1) && negb (frac F u =? 0).
Proof.
  pose proof (mag_eq F u). pose proof (frac_range F u). pose proof (expo_range F u).
  unfold is_nan, inf_mag. apply Bool.eq_iff_eq_true.
  rewrite andb_true_iff, negb_true_iff, Z.ltb_lt, Z.eqb_eq, Z.eqb_neq. split; [split|]; nia.
Qed.

Lemma is_inf_fields u : is_inf F u = (expo F u =? 2 ^ ewidth F - 1) && (frac F u =? 0).
Proof.
  pose proof (mag_eq F u). pose proof (frac_range F u). pose proof (expo_range F u).
  unfold is_inf, inf_mag. apply Bool.eq_iff_eq_true.
  rewrite andb_true_iff, !Z.eqb_eq. split.
  - intros E. apply (Z.div_mod_unique (2 ^ (prec F - 1))); lia.
  - intros [E1 E2]. rewrite (mag_eq F u), E1, E2. lia.
Qed.

Lemma is_finite_fields u : is_finite F u = negb (expo F u =? 2 ^ ewidth F - 1).
Proof.
  pose proof (mag_eq F u). pose proof (frac_range F u). pose proof (expo_range F u).
  unfold is_finite, inf_mag. apply Bool.eq_iff_eq_true.
  rewrite negb_true_iff, Z.ltb_lt, Z.eqb_neq. nia.
Qed.

Lemma is_zero_fields u : is_zero F u = (expo F u =? 0) && (frac F u =? 0).
Proof.
  pose proof (mag_eq F u). pose proof (frac_range F u). pose proof (expo_range F u).
  pose proof (pow_prec_pos F). unfold is_zero. apply Bool.eq_iff_eq_true.
  rewrite andb_true_iff, !Z.eqb_eq. split.
  - intros E. apply (Z.div_mod_unique (2 ^ (prec F - 1))); lia.
  - intros [E1 E2]. rewrite (mag_eq F u), E1, E2. lia.
Qed.

(** A finite pattern as a significand and an exponent. *)
Definition sig_of (u : Z) : Z := if expo F u =? 0 then frac F u else 2 ^ (prec F - 1) + frac F u.
Definition exp_of (u : Z) : Z := Z.max (expo F u) 1.

Lemma absval_sig u : absval F u = (IZR (sig_of u) * bpow (exp_of u - 1 + emin F))%R.
Proof.
  pose proof (expo_range F u). unfold absval, sig_of, exp_of.
  case_decide as Hz; destruct (Z.eqb_spec (expo F u) 0) as [E|E]; try done.
  - by rewrite E.
  - by rewrite Z.max_l by lia.
Qed.

Lemma sig_of_range u : 0 <= sig_of u < 2 ^ prec F.
Proof. pose proof (frac_range F u). rewrite (pow_prec F). unfold sig_of. case_match; lia. Qed.

Lemma absval_nonneg u : (0 <= absval F u)%R.
Proof.
  rewrite absval_sig. apply Rmult_le_pos; [|apply Rlt_le, bpow_gt_0].
  apply IZR_le, sig_of_range.
Qed.

Lemma absval_pos u : is_zero F u = false -> (0 < absval F u)%R.
Proof.
  intros Hz. rewrite absval_sig. apply Rmult_lt_0_compat; [|apply bpow_gt_0].
  apply IZR_lt. rewrite is_zero_fields in Hz. unfold sig_of.
  pose proof (frac_range F u). pose proof (pow_prec_pos F).
  destruct (Z.eqb_spec (expo F u) 0); [|lia]. cbn [andb] in Hz. apply Z.eqb_neq in Hz. lia.
Qed.

Lemma absval_zero u : is_zero F u = true -> absval F u = 0%R.
Proof.
  rewrite is_zero_fields, andb_true_iff, !Z.eqb_eq. intros [E1 E2].
  rewrite absval_sig. unfold sig_of. rewrite E1, E2. apply Rmult_0_l.
Qed.
End Classes.

(** ** The operations of the standard

    Each relation gives the pattern and the flags that IEEE 754 prescribes (with
    RISC-V's canonical NaN): NaNs first, then infinities, then the exact result
    of the finite case, rounded. *)

Definition nan_result (F : format) (invalid : bool) (u fl : Z) : Prop :=
  u = default_nan F /\ fl = flag_if invalid flag_invalid.

Definition ieee_add (F : format) (m : mode) (a b u fl : Z) : Prop :=
  if is_nan F a || is_nan F b then nan_result F (is_snan F a || is_snan F b) u fl
  else if is_inf F a
  then if is_inf F b && negb (eqb (sign_of F a) (sign_of F b)) then nan_result F true u fl
       else u = a /\ fl = 0
  else if is_inf F b then u = b /\ fl = 0
  else rounds_to F m
         (if eqb (sign_of F a) (sign_of F b) then sign_of F a
          else match m with RDN => true | _ => false end)
         (value F a + value F b) u fl.

(** Subtraction adds the operand with the other sign. *)
Definition neg (F : format) (u : Z) : Z := signed F (negb (sign_of F u)) (mag F u).
Definition ieee_sub (F : format) (m : mode) (a b u fl : Z) : Prop :=
  ieee_add F m a (neg F b) u fl.

Definition ieee_mul (F : format) (m : mode) (a b u fl : Z) : Prop :=
  let s := xorb (sign_of F a) (sign_of F b) in
  if is_nan F a || is_nan F b then nan_result F (is_snan F a || is_snan F b) u fl
  else if is_inf F a || is_inf F b
  then if is_zero F a || is_zero F b then nan_result F true u fl
       else u = infinity F s /\ fl = 0
  else rounds_to F m s (value F a * value F b) u fl.

Definition ieee_div (F : format) (m : mode) (a b u fl : Z) : Prop :=
  let s := xorb (sign_of F a) (sign_of F b) in
  if is_nan F a || is_nan F b then nan_result F (is_snan F a || is_snan F b) u fl
  else if is_inf F a
  then if is_inf F b then nan_result F true u fl else u = infinity F s /\ fl = 0
  else if is_inf F b then u = zero F s /\ fl = 0
  else if is_zero F b
  then if is_zero F a then nan_result F true u fl
       else u = infinity F s /\ fl = flag_divbyzero
  else rounds_to F m s (value F a / value F b) u fl.

(** The magnitude and the sign of the exact result, apart. *)
Lemma rounds_to_signed (F : format) m zs s x u fl :
  (0 < x)%R -> rounded F m s x u fl ->
  rounds_to F m zs (if s then - x else x) u fl.
Proof.
  intros Hx H. right. destruct s; [right|left].
  - split; [lra|]. by rewrite Ropp_involutive.
  - done.
Qed.
