(* ===== verification/SoftFloat.v ===== *)
(** * Berkeley SoftFloat: state, primitives, and the fields of a pattern

    The simulator's floating point (tb/riscv-isa-sim/softfloat): the global state
    of softfloat_state.c, the primitives of primitives.h and s_*.c, the macros of
    internals.h and specialize.h, each with what it computes.  The configuration
    is that of platform.h (inline primitives, fast 64-bit integers); the fast
    integer types are those of a 64-bit host, 64 bits wide. *)

From Stdlib Require Import ZArith Lia Reals Lra.
From stdpp Require Import base tactics list numbers.
From S2P Require Import Prelude Ieee.

(** ** The state *)

Record softfloat_state := SoftfloatState {
  softfloat_roundingMode : Z;
  softfloat_detectTininess : Z;
  softfloat_exceptionFlags : Z;
}.

Definition softfloat_tininess_beforeRounding : Z := 0.
Definition softfloat_tininess_afterRounding : Z := 1.

Definition softfloat_round_near_even : Z := 0.
Definition softfloat_round_minMag : Z := 1.
Definition softfloat_round_min : Z := 2.
Definition softfloat_round_max : Z := 3.
Definition softfloat_round_near_maxMag : Z := 4.

Definition softfloat_flag_inexact : Z := 1.
Definition softfloat_flag_underflow : Z := 2.
Definition softfloat_flag_overflow : Z := 4.
Definition softfloat_flag_infinite : Z := 8.
Definition softfloat_flag_invalid : Z := 16.

Definition init_state : softfloat_state :=
  SoftfloatState softfloat_round_near_even softfloat_tininess_afterRounding 0.

Definition softfloat_raiseFlags (flags : Z) (st : softfloat_state) : softfloat_state :=
  SoftfloatState (softfloat_roundingMode st) (softfloat_detectTininess st)
    (Z.lor (softfloat_exceptionFlags st) flags).

(** ** Primitives *)

Definition softfloat_shortShiftRightJam64 (a dist : Z) : Z :=
  Z.lor (Z.shiftr a dist)
    (Z.b2z (negb (Z.land a (u64 (Z.shiftl 1 dist) - 1) =? 0))).

Definition softfloat_shiftRightJam32 (a dist : Z) : Z :=
  let a := u32 a in
  if dist <? 31
  then Z.lor (Z.shiftr a dist)
         (Z.b2z (negb (u32 (Z.shiftl a (Z.land (- dist) 31)) =? 0)))
  else Z.b2z (negb (a =? 0)).

Definition softfloat_shiftRightJam64 (a dist : Z) : Z :=
  let a := u64 a in
  if dist <? 63
  then Z.lor (Z.shiftr a dist)
         (Z.b2z (negb (u64 (Z.shiftl a (Z.land (- dist) 63)) =? 0)))
  else Z.b2z (negb (a =? 0)).

Definition softfloat_countLeadingZeros8_table : list Z := [
  8; 7; 6; 6; 5; 5; 5; 5; 4; 4; 4; 4; 4; 4; 4; 4;
  3; 3; 3; 3; 3; 3; 3; 3; 3; 3; 3; 3; 3; 3; 3; 3;
  2; 2; 2; 2; 2; 2; 2; 2; 2; 2; 2; 2; 2; 2; 2; 2;
  2; 2; 2; 2; 2; 2; 2; 2; 2; 2; 2; 2; 2; 2; 2; 2;
  1; 1; 1; 1; 1; 1; 1; 1; 1; 1; 1; 1; 1; 1; 1; 1;
  1; 1; 1; 1; 1; 1; 1; 1; 1; 1; 1; 1; 1; 1; 1; 1;
  1; 1; 1; 1; 1; 1; 1; 1; 1; 1; 1; 1; 1; 1; 1; 1;
  1; 1; 1; 1; 1; 1; 1; 1; 1; 1; 1; 1; 1; 1; 1; 1;
  0; 0; 0; 0; 0; 0; 0; 0; 0; 0; 0; 0; 0; 0; 0; 0;
  0; 0; 0; 0; 0; 0; 0; 0; 0; 0; 0; 0; 0; 0; 0; 0;
  0; 0; 0; 0; 0; 0; 0; 0; 0; 0; 0; 0; 0; 0; 0; 0;
  0; 0; 0; 0; 0; 0; 0; 0; 0; 0; 0; 0; 0; 0; 0; 0;
  0; 0; 0; 0; 0; 0; 0; 0; 0; 0; 0; 0; 0; 0; 0; 0;
  0; 0; 0; 0; 0; 0; 0; 0; 0; 0; 0; 0; 0; 0; 0; 0;
  0; 0; 0; 0; 0; 0; 0; 0; 0; 0; 0; 0; 0; 0; 0; 0;
  0; 0; 0; 0; 0; 0; 0; 0; 0; 0; 0; 0; 0; 0; 0; 0].
Definition softfloat_countLeadingZeros8 (a : Z) : Z :=
  nth (Z.to_nat a) softfloat_countLeadingZeros8_table 0.

Definition softfloat_countLeadingZeros32 (a : Z) : Z :=
  let a := u32 a in
  let count := 0 in
  let '(count, a) := if a <? 0x10000 then (16, u32 (Z.shiftl a 16)) else (count, a) in
  let '(count, a) := if a <? 0x1000000 then (count + 8, u32 (Z.shiftl a 8)) else (count, a) in
  count + softfloat_countLeadingZeros8 (Z.shiftr a 24).

Definition softfloat_countLeadingZeros64 (a : Z) : Z :=
  let a := u64 a in
  let count := 0 in
  let a32 := u32 (Z.shiftr a 32) in
  let '(count, a32) := if a32 =? 0 then (32, u32 a) else (count, a32) in
  let '(count, a32) := if a32 <? 0x10000 then (count + 16, u32 (Z.shiftl a32 16)) else (count, a32) in
  let '(count, a32) := if a32 <? 0x1000000 then (count + 8, u32 (Z.shiftl a32 8)) else (count, a32) in
  count + softfloat_countLeadingZeros8 (Z.shiftr a32 24).

(** The halves of a 128-bit number, the high one first. *)
Record uint128 := Uint128 { v64 : Z; v0 : Z }.

Definition softfloat_add128 (a64 a0 b64 b0 : Z) : uint128 :=
  let z0 := u64 (a0 + b0) in
  Uint128 (u64 (a64 + b64 + Z.b2z (z0 <? a0))) z0.

Definition softfloat_sub128 (a64 a0 b64 b0 : Z) : uint128 :=
  Uint128 (u64 (a64 - b64 - Z.b2z (a0 <? b0))) (u64 (a0 - b0)).

Definition softfloat_mul64To128 (a b : Z) : uint128 :=
  let a32 := u32 (Z.shiftr a 32) in
  let a0 := u32 a in
  let b32 := u32 (Z.shiftr b 32) in
  let b0 := u32 b in
  let z0 := u64 (a0 * b0) in
  let mid1 := u64 (a32 * b0) in
  let mid := u64 (mid1 + u64 (a0 * b32)) in
  let z64 := u64 (a32 * b32) in
  let z64 := u64 (z64 + Z.lor (u64 (Z.shiftl (Z.b2z (mid <? mid1)) 32)) (Z.shiftr mid 32)) in
  let mid := u64 (Z.shiftl mid 32) in
  let z0 := u64 (z0 + mid) in
  Uint128 (u64 (z64 + Z.b2z (z0 <? mid))) z0.

(** ** The fields of single precision *)

Definition signF32UI (a : Z) : bool := negb (Z.shiftr (u32 a) 31 =? 0).
Definition expF32UI (a : Z) : Z := Z.land (Z.shiftr a 23) 0xFF.
Definition fracF32UI (a : Z) : Z := Z.land a 0x007FFFFF.
Definition packToF32UI (sign : bool) (exp sig : Z) : Z :=
  u64 (u32 (u32 (Z.shiftl (Z.b2z sign) 31) + u32 (Z.shiftl (u32 exp) 23)) + sig).
Definition isNaNF32UI (a : Z) : bool :=
  (Z.land (Z.lnot a) 0x7F800000 =? 0) && negb (Z.land a 0x007FFFFF =? 0).
Definition defaultNaNF32UI : Z := 0x7FC00000.
Definition softfloat_isSigNaNF32UI (uiA : Z) : bool :=
  (Z.land uiA 0x7FC00000 =? 0x7F800000) && negb (Z.land uiA 0x003FFFFF =? 0).

Record exp16_sig32 := ExpSig32 { exp32 : Z; sig32 : Z }.
Definition softfloat_normSubnormalF32Sig (sig : Z) : exp16_sig32 :=
  let shiftDist := s8 (softfloat_countLeadingZeros32 sig - 8) in
  ExpSig32 (1 - shiftDist) (u64 (Z.shiftl sig shiftDist)).

Definition softfloat_propagateNaNF32UI (uiA uiB : Z) (st : softfloat_state) : Z * softfloat_state :=
  let st := if softfloat_isSigNaNF32UI uiA || softfloat_isSigNaNF32UI uiB
            then softfloat_raiseFlags softfloat_flag_invalid st else st in
  (defaultNaNF32UI, st).

(** The NaNs of one format as those of another: all become the default NaN. *)
Definition softfloat_f32UIToCommonNaN (uiA : Z) (st : softfloat_state) : softfloat_state :=
  if Z.land uiA 0x00400000 =? 0 then softfloat_raiseFlags softfloat_flag_invalid st else st.
Definition softfloat_commonNaNToF32UI : Z := defaultNaNF32UI.

(** ** The fields of double precision *)

Definition signF64UI (a : Z) : bool := negb (Z.shiftr (u64 a) 63 =? 0).
Definition expF64UI (a : Z) : Z := Z.land (Z.shiftr a 52) 0x7FF.
Definition fracF64UI (a : Z) : Z := Z.land a 0x000FFFFFFFFFFFFF.
Definition packToF64UI (sign : bool) (exp sig : Z) : Z :=
  u64 (u64 (Z.shiftl (Z.b2z sign) 63) + u64 (Z.shiftl (u64 exp) 52) + sig).
Definition isNaNF64UI (a : Z) : bool :=
  (Z.land (Z.lnot a) 0x7FF0000000000000 =? 0) && negb (Z.land a 0x000FFFFFFFFFFFFF =? 0).
Definition defaultNaNF64UI : Z := 0x7FF8000000000000.
Definition softfloat_isSigNaNF64UI (uiA : Z) : bool :=
  (Z.land uiA 0x7FF8000000000000 =? 0x7FF0000000000000) &&
  negb (Z.land uiA 0x0007FFFFFFFFFFFF =? 0).

Record exp16_sig64 := ExpSig64 { exp64 : Z; sig64 : Z }.
Definition softfloat_normSubnormalF64Sig (sig : Z) : exp16_sig64 :=
  let shiftDist := s8 (softfloat_countLeadingZeros64 sig - 11) in
  ExpSig64 (1 - shiftDist) (u64 (Z.shiftl sig shiftDist)).

Definition softfloat_propagateNaNF64UI (uiA uiB : Z) (st : softfloat_state) : Z * softfloat_state :=
  let st := if softfloat_isSigNaNF64UI uiA || softfloat_isSigNaNF64UI uiB
            then softfloat_raiseFlags softfloat_flag_invalid st else st in
  (defaultNaNF64UI, st).

Definition softfloat_f64UIToCommonNaN (uiA : Z) (st : softfloat_state) : softfloat_state :=
  if Z.land uiA 0x0008000000000000 =? 0 then softfloat_raiseFlags softfloat_flag_invalid st else st.
Definition softfloat_commonNaNToF64UI : Z := defaultNaNF64UI.

(** ** What the primitives compute *)

Lemma raise_0 st : softfloat_raiseFlags 0 st = st.
Proof. destruct st. unfold softfloat_raiseFlags. cbn. by rewrite Z.lor_0_r. Qed.

Lemma raise_raise a b st :
  softfloat_raiseFlags b (softfloat_raiseFlags a st) = softfloat_raiseFlags (Z.lor a b) st.
Proof. unfold softfloat_raiseFlags. cbn. by rewrite Z.lor_assoc. Qed.

Lemma land_ones_mod a n : 0 <= n -> Z.land a (2 ^ n - 1) = a mod 2 ^ n.
Proof. intros. rewrite <-Z.land_ones by done. f_equal. rewrite Z.ones_equiv. lia. Qed.

Lemma shortShiftRightJam64_jam a dist :
  0 <= dist < 64 -> softfloat_shortShiftRightJam64 a dist = jam_shift a dist.
Proof.
  intros Hd. unfold softfloat_shortShiftRightJam64, jam_shift.
  rewrite Z.shiftr_div_pow2, Z.shiftl_1_l by lia.
  assert (u64 (2 ^ dist) = 2 ^ dist) as ->.
  { unfold u64. apply Z.mod_small. split; [lia|]. apply (Z.pow_lt_mono_r 2 dist 64); lia. }
  by rewrite land_ones_mod by lia.
Qed.

(** The bits that a shift right by [d] of a [w]-bit word drops, found by the
    complementary shift left. *)
Lemma dropped_bits a d w :
  0 <= d <= w -> ((a * 2 ^ (w - d)) mod 2 ^ w =? 0) = (a mod 2 ^ d =? 0).
Proof.
  intros Hd. replace (2 ^ w) with (2 ^ d * 2 ^ (w - d)) by (rewrite <-Z.pow_add_r by lia; f_equal; lia).
  pose proof (Z.pow_pos_nonneg 2 d). pose proof (Z.pow_pos_nonneg 2 (w - d)).
  rewrite Z.mul_mod_distr_r by lia. apply Bool.eq_iff_eq_true. rewrite !Z.eqb_eq. nia.
Qed.

Lemma jam_shift_small a d : 0 <= a < 2 ^ d -> 0 <= d -> jam_shift a d = Z.b2z (negb (a =? 0)).
Proof. intros Ha Hd. unfold jam_shift. by rewrite Z.div_small, Z.mod_small. Qed.

Lemma jam_shift_1 a d : 0 <= a < 2 ^ (d + 1) -> 0 <= d -> jam_shift a d = Z.b2z (negb (a =? 0)).
Proof.
  intros Ha Hd. rewrite Z.pow_add_r in Ha by lia. pose proof (Z.pow_pos_nonneg 2 d).
  unfold jam_shift. pose proof (Z.div_mod a (2 ^ d)). pose proof (Z.mod_pos_bound a (2 ^ d)).
  assert (0 <= a / 2 ^ d < 2) by (split; [apply Z.div_pos|apply Z.div_lt_upper_bound]; lia).
  assert (a / 2 ^ d = 0 \/ a / 2 ^ d = 1) as [Hq|Hq] by lia; rewrite Hq in *.
  - replace (a mod 2 ^ d) with a by lia. done.
  - destruct (Z.eqb_spec a 0); [lia|]. by destruct (_ =? _).
Qed.

Lemma neg_land_31 d : 1 <= d <= 31 -> Z.land (- d) 31 = 32 - d.
Proof. intros. change 31 with (Z.ones 5). rewrite Z.land_ones by done. change (2 ^ 5) with 32. divlia. Qed.
Lemma neg_land_63 d : 1 <= d <= 63 -> Z.land (- d) 63 = 64 - d.
Proof. intros. change 63 with (Z.ones 6). rewrite Z.land_ones by done. change (2 ^ 6) with 64. divlia. Qed.

Lemma shiftRightJam32_jam a dist :
  0 <= a < 4294967296 -> 1 <= dist -> softfloat_shiftRightJam32 a dist = jam_shift a dist.
Proof.
  intros Ha Hd. unfold softfloat_shiftRightJam32. cbv zeta. rewrite u32_id by lia.
  destruct (Z.ltb_spec dist 31).
  - rewrite neg_land_31, Z.shiftl_mul_pow2, Z.shiftr_div_pow2 by lia. unfold u32, jam_shift.
    change 4294967296 with (2 ^ 32). by rewrite dropped_bits by lia.
  - symmetry. apply jam_shift_1; [|lia]. split; [lia|].
    apply Z.lt_le_trans with (2 ^ 32); [by apply Ha|]. apply Z.pow_le_mono_r; lia.
Qed.

Lemma shiftRightJam64_jam a dist :
  0 <= a < 18446744073709551616 -> 1 <= dist -> softfloat_shiftRightJam64 a dist = jam_shift a dist.
Proof.
  intros Ha Hd. unfold softfloat_shiftRightJam64. cbv zeta. rewrite u64_id by lia.
  destruct (Z.ltb_spec dist 63).
  - rewrite neg_land_63, Z.shiftl_mul_pow2, Z.shiftr_div_pow2 by lia. unfold u64, jam_shift.
    change 18446744073709551616 with (2 ^ 64). by rewrite dropped_bits by lia.
  - symmetry. apply jam_shift_1; [|lia]. split; [lia|].
    apply Z.lt_le_trans with (2 ^ 64); [by apply Ha|]. apply Z.pow_le_mono_r; lia.
Qed.

Lemma countLeadingZeros8_log2 a : 0 < a < 256 -> softfloat_countLeadingZeros8 a = 7 - Z.log2 a.
Proof.
  intros Ha. assert (forallb (fun n => softfloat_countLeadingZeros8 (Z.of_nat n) =? 7 - Z.log2 (Z.of_nat n))
    (seq 1 255) = true) as H by (vm_compute; reflexivity).
  rewrite forallb_forall in H. specialize (H (Z.to_nat a)).
  rewrite Z2Nat.id in H by lia. apply Z.eqb_eq, H. apply in_seq. lia.
Qed.

(** The part the 32- and 64-bit versions share. *)
Lemma countLeadingZeros_tail a c :
  0 < a < 4294967296 ->
  (let '(count, a) := if a <? 0x10000 then (c + 16, u32 (Z.shiftl a 16)) else (c, a) in
   let '(count, a) := if a <? 0x1000000 then (count + 8, u32 (Z.shiftl a 8)) else (count, a) in
   count + softfloat_countLeadingZeros8 (Z.shiftr a 24)) = c + 31 - Z.log2 a.
Proof.
  intros Ha.
  assert (forall b d, 0 < b < 4294967296 ->
    (let '(count, a) := if b <? 0x1000000 then (d + 8, u32 (Z.shiftl b 8)) else (d, b) in
     count + softfloat_countLeadingZeros8 (Z.shiftr a 24)) = d + 31 - Z.log2 b \/ b < 65536) as H8.
  { intros b d Hb. destruct (Z_lt_le_dec b 65536); [by right|left].
    destruct (Z.ltb_spec b 0x1000000).
    - rewrite u32_id by (rewrite Z.shiftl_mul_pow2 by lia; lia).
      rewrite countLeadingZeros8_log2.
      + rewrite Z.log2_shiftr, Z.log2_shiftl by (rewrite ?Z.shiftl_mul_pow2 by lia; lia).
        assert (16 <= Z.log2 b) by (apply Z.log2_le_pow2; lia). lia.
      + rewrite Z.shiftr_div_pow2, Z.shiftl_mul_pow2 by lia. divlia.
    - rewrite countLeadingZeros8_log2.
      + rewrite Z.log2_shiftr by lia. assert (24 <= Z.log2 b) by (apply Z.log2_le_pow2; lia). lia.
      + rewrite Z.shiftr_div_pow2 by lia. divlia. }
  destruct (Z.ltb_spec a 0x10000).
  - rewrite u32_id by (rewrite Z.shiftl_mul_pow2 by lia; lia).
    destruct (H8 (Z.shiftl a 16) (c + 16)) as [->|Hl].
    + rewrite Z.shiftl_mul_pow2 by lia. lia.
    + rewrite Z.log2_shiftl by lia. lia.
    + rewrite Z.shiftl_mul_pow2 in Hl by lia. lia.
  - destruct (H8 a c Ha) as [->|]; lia.
Qed.

Lemma countLeadingZeros32_log2 a :
  0 < a < 4294967296 -> softfloat_countLeadingZeros32 a = 31 - Z.log2 a.
Proof.
  intros Ha. unfold softfloat_countLeadingZeros32. cbv zeta. rewrite u32_id by lia.
  by apply (countLeadingZeros_tail a 0).
Qed.

Lemma countLeadingZeros64_log2 a :
  0 < a < 18446744073709551616 -> softfloat_countLeadingZeros64 a = 63 - Z.log2 a.
Proof.
  intros Ha. unfold softfloat_countLeadingZeros64. cbv zeta. rewrite u64_id by lia.
  rewrite Z.shiftr_div_pow2 by lia. change (2 ^ 32) with 4294967296.
  rewrite u32_id by divlia. destruct (Z.eqb_spec (a / 4294967296) 0).
  - assert (a < 4294967296) by divlia. rewrite u32_id by lia.
    rewrite (countLeadingZeros_tail a 32) by lia. lia.
  - rewrite (countLeadingZeros_tail _ 0) by divlia.
    change 4294967296 with (2 ^ 32). rewrite <-Z.shiftr_div_pow2 by lia.
    assert (32 <= Z.log2 a) by (apply Z.log2_le_pow2; divlia). rewrite Z.log2_shiftr by lia. lia.
Qed.

(** Words put together from disjoint parts. *)
Lemma lor_disjoint a b n : 0 <= n -> 0 <= b < 2 ^ n -> Z.lor (a * 2 ^ n) b = a * 2 ^ n + b.
Proof.
  intros Hn Hb. assert (Z.land (a * 2 ^ n) b = 0) as H0.
  { apply Z.bits_inj'. intros i Hi. rewrite Z.land_spec, Z.bits_0.
    destruct (Z_lt_le_dec i n).
    - by rewrite Z.mul_pow2_bits_low.
    - rewrite andb_comm. destruct (decide (b = 0)) as [->|]; [by rewrite Z.bits_0|].
      rewrite (Z.bits_above_log2 b); [done|lia|].
      apply Z.lt_le_trans with n; [apply Z.log2_lt_pow2; lia|done]. }
  by rewrite Z.add_nocarry_lxor, Z.lxor_lor.
Qed.

(** The product of 64-bit words, in halves. *)
Lemma mul64To128_product a b :
  0 <= a < 2 ^ 64 -> 0 <= b < 2 ^ 64 ->
  let z := softfloat_mul64To128 a b in
  v64 z * 2 ^ 64 + v0 z = a * b /\ 0 <= v0 z < 2 ^ 64 /\ 0 <= v64 z < 2 ^ 64.
Proof.
  intros Ha Hb.
  assert (exists a1 a0, a = a1 * 2 ^ 32 + a0 /\ 0 <= a0 < 2 ^ 32 /\ 0 <= a1 < 2 ^ 32 /\
    u32 (Z.shiftr a 32) = a1 /\ u32 a = a0) as (a1 & a0 & -> & Ha0 & Ha1 & E1 & E2).
  { exists (a / 2 ^ 32), (a mod 2 ^ 32). rewrite Z.shiftr_div_pow2 by lia. unfold u32.
    change (2 ^ 64) with (2 ^ 32 * 2 ^ 32) in Ha. split_and!; try divlia. }
  assert (exists b1 b0, b = b1 * 2 ^ 32 + b0 /\ 0 <= b0 < 2 ^ 32 /\ 0 <= b1 < 2 ^ 32 /\
    u32 (Z.shiftr b 32) = b1 /\ u32 b = b0) as (b1 & b0 & -> & Hb0 & Hb1 & E3 & E4).
  { exists (b / 2 ^ 32), (b mod 2 ^ 32). rewrite Z.shiftr_div_pow2 by lia. unfold u32.
    change (2 ^ 64) with (2 ^ 32 * 2 ^ 32) in Hb. split_and!; try divlia. }
  unfold softfloat_mul64To128. rewrite E1, E2, E3, E4. clear E1 E2 E3 E4 Ha Hb.
  assert (forall x y, 0 <= x < 2 ^ 32 -> 0 <= y < 2 ^ 32 -> 0 <= x * y <= (2 ^ 32 - 1) * (2 ^ 32 - 1))
    as Hp by (intros; nia).
  pose proof (Hp a0 b0 Ha0 Hb0) as H00. pose proof (Hp a1 b0 Ha1 Hb0) as H10.
  pose proof (Hp a0 b1 Ha0 Hb1) as H01. pose proof (Hp a1 b1 Ha1 Hb1) as H11.
  replace ((a1 * 2 ^ 32 + a0) * (b1 * 2 ^ 32 + b0))
    with (a1 * b1 * 2 ^ 64 + (a1 * b0 + a0 * b1) * 2 ^ 32 + a0 * b0) by ring.
  generalize dependent (a0 * b0). generalize dependent (a1 * b0).
  generalize dependent (a0 * b1). generalize dependent (a1 * b1).
  clear. intros p11 H11 p01 H01 p10 H10 p00 H00. change (2 ^ 32) with 4294967296 in *.
  rewrite (u64_id p00), (u64_id p10), (u64_id p01), (u64_id p11) by lia.
  cbn [v64 v0]. change (2 ^ 64) with 18446744073709551616.
  set (mid := u64 (p10 + p01)).
  set (c := Z.b2z (mid <? p10)).
  assert (p10 + p01 = c * 18446744073709551616 + mid /\ 0 <= mid < 18446744073709551616 /\ 0 <= c <= 1)
    as (Hmid & Hmr & Hcr).
  { unfold c, mid, u64. destruct (Z.ltb_spec ((p10 + p01) mod 18446744073709551616) p10);
      cbn [Z.b2z]; divlia. }
  clearbody mid c.
  assert (Z.lor (u64 (Z.shiftl c 32)) (Z.shiftr mid 32) = c * 4294967296 + mid / 4294967296) as ->.
  { rewrite Z.shiftl_mul_pow2, Z.shiftr_div_pow2 by lia. change (2 ^ 32) with 4294967296.
    rewrite u64_id by lia. apply (lor_disjoint c _ 32); divlia. }
  rewrite Z.shiftl_mul_pow2 by lia. change (2 ^ 32) with 4294967296.
  assert (u64 (mid * 4294967296) = (mid mod 4294967296) * 4294967296) as ->.
  { unfold u64. change 18446744073709551616 with (4294967296 * 4294967296).
    by rewrite Z.mul_mod_distr_r. }
  set (lo := mid mod 4294967296). set (hi := mid / 4294967296).
  assert (mid = hi * 4294967296 + lo /\ 0 <= lo < 4294967296 /\ 0 <= hi < 4294967296) as (Hm & Hlo & Hhi)
    by (unfold hi, lo; divlia).
  clearbody lo hi. rewrite (u64_id (p11 + _)) by lia.
  unfold u64. destruct (Z.ltb_spec ((p00 + lo * 4294967296) mod 18446744073709551616) (lo * 4294967296));
    cbn [Z.b2z]; split_and!; divlia.
Qed.

(** ** The macros as the fields of Ieee.v *)

Lemma shiftr_bit a k : 0 <= k -> 0 <= a < 2 ^ (k + 1) -> negb (Z.shiftr a k =? 0) = Z.testbit a k.
Proof.
  intros Hk Ha. rewrite Z.pow_add_r in Ha by lia. pose proof (Z.pow_pos_nonneg 2 k).
  rewrite Z.shiftr_div_pow2, Z.testbit_eqb by lia.
  assert (0 <= a / 2 ^ k < 2) by (split; [apply Z.div_pos|apply Z.div_lt_upper_bound]; lia).
  rewrite (Z.mod_small (a / 2 ^ k)) by lia.
  destruct (Z.eqb_spec (a / 2 ^ k) 0), (Z.eqb_spec (a / 2 ^ k) 1); done || lia.
Qed.

Lemma land_high a m k : 0 <= k -> Z.land a (m * 2 ^ k) = Z.land (a / 2 ^ k) m * 2 ^ k.
Proof.
  intros Hk. rewrite <-!Z.shiftl_mul_pow2, <-Z.shiftr_div_pow2 by done.
  apply Z.bits_inj'. intros n Hn. rewrite Z.land_spec, !Z.shiftl_spec by done.
  destruct (Z_lt_le_dec n k).
  - by rewrite !(Z.testbit_neg_r _ (n - k)), andb_false_r by lia.
  - rewrite Z.land_spec, Z.shiftr_spec by lia. do 2 f_equal. lia.
Qed.

Lemma lnot_land_high a w k :
  0 <= k -> 0 <= w -> (Z.land (Z.lnot a) ((2 ^ w - 1) * 2 ^ k) =? 0) = ((a / 2 ^ k) mod 2 ^ w =? 2 ^ w - 1).
Proof.
  intros Hk Hw. rewrite land_high, land_ones_mod by done.
  rewrite <-!Z.shiftr_div_pow2, <-Z.lnot_shiftr by done. unfold Z.lnot.
  pose proof (Z.pow_pos_nonneg 2 k). pose proof (Z.pow_pos_nonneg 2 w).
  set (x := Z.shiftr a k). apply Bool.eq_iff_eq_true. rewrite !Z.eqb_eq.
  pose proof (Z.div_mod x (2 ^ w)). pose proof (Z.mod_pos_bound x (2 ^ w)).
  assert (Z.pred (- x) mod 2 ^ w = 2 ^ w - 1 - x mod 2 ^ w) as ->; [|nia].
  symmetry. apply Z.mod_unique with (- (x / 2 ^ w) - 1); lia.
Qed.

Lemma snan_bits F `{ValidFormat F} a :
  is_snan F a = ((a / 2 ^ (prec F - 2)) mod 2 ^ (ewidth F + 1) =? 2 ^ (ewidth F + 1) - 2) &&
                negb (a mod 2 ^ (prec F - 2) =? 0).
Proof.
  pose proof (prec_valid (F := F)). pose proof (ewidth_valid (F := F)).
  unfold is_snan. rewrite is_nan_fields, expo_div, Z.testbit_eqb by done || lia. unfold frac.
  rewrite (Z.pow_add_r 2 (ewidth F) 1) by lia. change (2 ^ 1) with 2.
  replace (2 ^ (prec F - 1)) with (2 ^ (prec F - 2) * 2)
    by (rewrite Z.mul_comm, <-Z.pow_succ_r by lia; f_equal; lia).
  pose proof (Z.pow_pos_nonneg 2 (prec F - 2) ltac:(lia) ltac:(lia)).
  pose proof (Z.pow_pos_nonneg 2 (ewidth F) ltac:(lia) ltac:(lia)).
  rewrite <-Z.div_div, Z.rem_mul_r, (Z.mul_comm (2 ^ ewidth F) 2), (Z.rem_mul_r (_ / _) 2) by lia.
  set (h := 2 ^ (prec F - 2)) in *. set (W := 2 ^ ewidth F) in *. set (q := a / h) in *.
  pose proof (Z.mod_pos_bound a h). pose proof (Z.mod_pos_bound q 2). pose proof (Z.mod_pos_bound (q / 2) W).
  apply Bool.eq_iff_eq_true.
  rewrite !andb_true_iff, !negb_true_iff, !Z.eqb_eq, !Z.eqb_neq. nia.
Qed.

Lemma signF32UI_sign a : is_pattern F32 a -> signF32UI a = sign_of F32 a.
Proof. intros Ha. unfold is_pattern in Ha. cbn in Ha. unfold signF32UI. rewrite u32_id by lia. by apply shiftr_bit. Qed.
Lemma expF32UI_expo a : expF32UI a = expo F32 a.
Proof. unfold expF32UI. rewrite expo_div by apply _. cbn. rewrite Z.shiftr_div_pow2 by done. by apply (land_ones_mod _ 8). Qed.
Lemma fracF32UI_frac a : fracF32UI a = frac F32 a.
Proof. by apply (land_ones_mod _ 23). Qed.
Lemma isNaNF32UI_nan a : isNaNF32UI a = is_nan F32 a.
Proof.
  rewrite is_nan_fields, expo_div by apply _. unfold isNaNF32UI. f_equal.
  - apply (lnot_land_high a 8 23); done.
  - change 0x007FFFFF with (2 ^ 23 - 1). by rewrite land_ones_mod.
Qed.
Lemma isSigNaNF32UI_snan a : softfloat_isSigNaNF32UI a = is_snan F32 a.
Proof.
  rewrite snan_bits by apply _. unfold softfloat_isSigNaNF32UI. f_equal.
  - change 0x7FC00000 with ((2 ^ 9 - 1) * 2 ^ 22). change 0x7F800000 with (510 * 2 ^ 22).
    rewrite land_high, land_ones_mod by done. cbn [prec ewidth F32].
    change (24 - 2) with 22. change (8 + 1) with 9.
    apply Bool.eq_iff_eq_true. rewrite !Z.eqb_eq. lia.
  - change 0x003FFFFF with (2 ^ 22 - 1). by rewrite land_ones_mod.
Qed.

Lemma signF64UI_sign a : is_pattern F64 a -> signF64UI a = sign_of F64 a.
Proof. intros Ha. unfold is_pattern in Ha. cbn in Ha. unfold signF64UI. rewrite u64_id by lia. by apply shiftr_bit. Qed.
Lemma expF64UI_expo a : expF64UI a = expo F64 a.
Proof. unfold expF64UI. rewrite expo_div by apply _. cbn. rewrite Z.shiftr_div_pow2 by done. by apply (land_ones_mod _ 11). Qed.
Lemma fracF64UI_frac a : fracF64UI a = frac F64 a.
Proof. by apply (land_ones_mod _ 52). Qed.
Lemma isNaNF64UI_nan a : isNaNF64UI a = is_nan F64 a.
Proof.
  rewrite is_nan_fields, expo_div by apply _. unfold isNaNF64UI. f_equal.
  - apply (lnot_land_high a 11 52); done.
  - change 0x000FFFFFFFFFFFFF with (2 ^ 52 - 1). by rewrite land_ones_mod.
Qed.
Lemma isSigNaNF64UI_snan a : softfloat_isSigNaNF64UI a = is_snan F64 a.
Proof.
  rewrite snan_bits by apply _. unfold softfloat_isSigNaNF64UI. f_equal.
  - change 0x7FF8000000000000 with ((2 ^ 12 - 1) * 2 ^ 51).
    change 0x7FF0000000000000 with (4094 * 2 ^ 51).
    rewrite land_high, land_ones_mod by done. cbn [prec ewidth F64].
    change (53 - 2) with 51. change (11 + 1) with 12.
    apply Bool.eq_iff_eq_true. rewrite !Z.eqb_eq. lia.
  - change 0x0007FFFFFFFFFFFF with (2 ^ 51 - 1). by rewrite land_ones_mod.
Qed.

(** Packing a sign, an exponent and a significand whose hidden bit adds one to
    the exponent field. *)
Lemma packF32 s e n :
  0 <= e <= 255 -> 0 <= n -> e * 2 ^ 23 + n < 2 ^ 31 ->
  packToF32UI s e n = signed F32 s (e * 2 ^ 23 + n).
Proof.
  intros He Hn Hlt. unfold packToF32UI, signed. cbn [prec ewidth F32].
  rewrite !Z.shiftl_mul_pow2 by done. cbn -[Z.mul Z.add u32 u64] in *.
  rewrite (u32_id e) by lia. rewrite (u32_id (e * _)) by lia.
  destruct s; cbn [Z.b2z]; rewrite !u32_id, u64_id by (rewrite ?u32_id; lia); lia.
Qed.
Lemma packF64 s e n :
  0 <= e <= 2047 -> 0 <= n -> e * 2 ^ 52 + n < 2 ^ 63 ->
  packToF64UI s e n = signed F64 s (e * 2 ^ 52 + n).
Proof.
  intros He Hn Hlt. unfold packToF64UI, signed. cbn [prec ewidth F64].
  rewrite !Z.shiftl_mul_pow2 by done. cbn -[Z.mul Z.add u32 u64] in *.
  rewrite (u64_id e) by lia. rewrite (u64_id (e * _)) by lia.
  destruct s; cbn [Z.b2z]; rewrite !u64_id by (rewrite ?u64_id; lia); lia.
Qed.

(** A subnormal fraction with its leading bit shifted to the hidden one. *)
Lemma normSubnormalF32Sig_value f :
  0 < f < 2 ^ 23 ->
  let z := softfloat_normSubnormalF32Sig f in
  exists d, 1 <= d <= 23 /\ exp32 z = 1 - d /\ sig32 z = f * 2 ^ d /\ 2 ^ 23 <= sig32 z < 2 ^ 24.
Proof.
  intros Hf. unfold softfloat_normSubnormalF32Sig. cbn [exp32 sig32].
  rewrite countLeadingZeros32_log2 by lia. pose proof (Z.log2_spec f ltac:(lia)) as Hl.
  assert (0 <= Z.log2 f < 23) by (split; [apply Z.log2_nonneg|apply Z.log2_lt_pow2; lia]).
  exists (23 - Z.log2 f). replace (31 - Z.log2 f - 8) with (23 - Z.log2 f) by lia.
  unfold s8. rewrite Z.mod_small by lia. rewrite Z.add_simpl_r, Z.shiftl_mul_pow2 by lia.
  assert (2 ^ 23 = 2 ^ Z.log2 f * 2 ^ (23 - Z.log2 f)) as Hp by (rewrite <-Z.pow_add_r by lia; f_equal; lia).
  rewrite Z.pow_succ_r in Hl by lia.
  assert (2 ^ 23 <= f * 2 ^ (23 - Z.log2 f) < 2 ^ 24) by (change (2 ^ 24) with (2 * 2 ^ 23); nia).
  rewrite u64_id by lia. split_and!; lia.
Qed.
Lemma normSubnormalF64Sig_value f :
  0 < f < 2 ^ 52 ->
  let z := softfloat_normSubnormalF64Sig f in
  exists d, 1 <= d <= 52 /\ exp64 z = 1 - d /\ sig64 z = f * 2 ^ d /\ 2 ^ 52 <= sig64 z < 2 ^ 53.
Proof.
  intros Hf. unfold softfloat_normSubnormalF64Sig. cbn [exp64 sig64].
  rewrite countLeadingZeros64_log2 by lia. pose proof (Z.log2_spec f ltac:(lia)) as Hl.
  assert (0 <= Z.log2 f < 52) by (split; [apply Z.log2_nonneg|apply Z.log2_lt_pow2; lia]).
  exists (52 - Z.log2 f). replace (63 - Z.log2 f - 11) with (52 - Z.log2 f) by lia.
  unfold s8. rewrite Z.mod_small by lia. rewrite Z.add_simpl_r, Z.shiftl_mul_pow2 by lia.
  assert (2 ^ 52 = 2 ^ Z.log2 f * 2 ^ (52 - Z.log2 f)) as Hp by (rewrite <-Z.pow_add_r by lia; f_equal; lia).
  rewrite Z.pow_succ_r in Hl by lia.
  assert (2 ^ 52 <= f * 2 ^ (52 - Z.log2 f) < 2 ^ 53) by (change (2 ^ 53) with (2 * 2 ^ 52); nia).
  rewrite u64_id by lia. split_and!; lia.
Qed.
