(* ===== verification/SoftRound.v ===== *)
(** * SoftFloat: rounding and packing

    softfloat_roundPackToF32, softfloat_roundPackToF64 and the versions that
    normalise first: every arithmetic operation ends in one of them.  For a
    significand that stands for a real number they give the correctly rounded
    result and its flags, in every rounding mode. *)

From Stdlib Require Import ZArith Lia Reals Lra.
From stdpp Require Import base tactics list numbers.
From S2P Require Import Prelude Ieee SoftFloat.

Definition softfloat_roundPackToF32 (sign : bool) (exp sig : Z) (st : softfloat_state)
    : Z * softfloat_state :=
  let roundingMode := softfloat_roundingMode st in
  let roundNearEven := roundingMode =? softfloat_round_near_even in
  let roundIncrement :=
    if negb roundNearEven && negb (roundingMode =? softfloat_round_near_maxMag)
    then if roundingMode =? (if sign then softfloat_round_min else softfloat_round_max)
         then 0x7F else 0
    else 0x40 in
  let finish := fun exp sig roundBits st =>
    let sig := Z.shiftr (u64 (sig + roundIncrement)) 7 in
    let st := if negb (roundBits =? 0) then softfloat_raiseFlags softfloat_flag_inexact st else st in
    let sig := Z.land sig (Z.lnot (Z.b2z ((Z.lxor roundBits 0x40 =? 0) && roundNearEven))) in
    let exp := if sig =? 0 then 0 else exp in
    (u32 (packToF32UI sign exp sig), st) in
  let roundBits := Z.land sig 0x7F in
  if 0xFD <=? u32 exp then
    if exp <? 0 then
      let isTiny :=
        (softfloat_detectTininess st =? softfloat_tininess_beforeRounding)
        || (exp <? -1) || (u64 (sig + roundIncrement) <? 0x80000000) in
      let sig := softfloat_shiftRightJam32 sig (- exp) in
      let roundBits := Z.land sig 0x7F in
      let st := if isTiny && negb (roundBits =? 0)
                then softfloat_raiseFlags softfloat_flag_underflow st else st in
      finish 0 sig roundBits st
    else if (0xFD <? exp) || (0x80000000 <=? u64 (sig + roundIncrement)) then
      (u32 (packToF32UI sign 0xFF 0 - Z.b2z (roundIncrement =? 0)),
       softfloat_raiseFlags (Z.lor softfloat_flag_overflow softfloat_flag_inexact) st)
    else finish exp sig roundBits st
  else finish exp sig roundBits st.

Definition softfloat_normRoundPackToF32 (sign : bool) (exp sig : Z) (st : softfloat_state)
    : Z * softfloat_state :=
  let shiftDist := s8 (softfloat_countLeadingZeros32 sig - 1) in
  let exp := exp - shiftDist in
  if (7 <=? shiftDist) && (u32 exp <? 0xFD) then
    (u32 (packToF32UI sign (if sig =? 0 then 0 else exp) (u64 (Z.shiftl sig (shiftDist - 7)))), st)
  else softfloat_roundPackToF32 sign exp (u64 (Z.shiftl sig shiftDist)) st.

Definition softfloat_roundPackToF64 (sign : bool) (exp sig : Z) (st : softfloat_state)
    : Z * softfloat_state :=
  let roundingMode := softfloat_roundingMode st in
  let roundNearEven := roundingMode =? softfloat_round_near_even in
  let roundIncrement :=
    if negb roundNearEven && negb (roundingMode =? softfloat_round_near_maxMag)
    then if roundingMode =? (if sign then softfloat_round_min else softfloat_round_max)
         then 0x3FF else 0
    else 0x200 in
  let finish := fun exp sig roundBits st =>
    let sig := Z.shiftr (u64 (sig + roundIncrement)) 10 in
    let st := if negb (roundBits =? 0) then softfloat_raiseFlags softfloat_flag_inexact st else st in
    let sig := Z.land sig (Z.lnot (Z.b2z ((Z.lxor roundBits 0x200 =? 0) && roundNearEven))) in
    let exp := if sig =? 0 then 0 else exp in
    (u64 (packToF64UI sign exp sig), st) in
  let roundBits := Z.land sig 0x3FF in
  if 0x7FD <=? u16 exp then
    if exp <? 0 then
      let isTiny :=
        (softfloat_detectTininess st =? softfloat_tininess_beforeRounding)
        || (exp <? -1) || (u64 (sig + roundIncrement) <? 0x8000000000000000) in
      let sig := softfloat_shiftRightJam64 sig (- exp) in
      let roundBits := Z.land sig 0x3FF in
      let st := if isTiny && negb (roundBits =? 0)
                then softfloat_raiseFlags softfloat_flag_underflow st else st in
      finish 0 sig roundBits st
    else if (0x7FD <? exp) || (0x8000000000000000 <=? u64 (sig + roundIncrement)) then
      (u64 (packToF64UI sign 0x7FF 0 - Z.b2z (roundIncrement =? 0)),
       softfloat_raiseFlags (Z.lor softfloat_flag_overflow softfloat_flag_inexact) st)
    else finish exp sig roundBits st
  else finish exp sig roundBits st.

Definition softfloat_normRoundPackToF64 (sign : bool) (exp sig : Z) (st : softfloat_state)
    : Z * softfloat_state :=
  let shiftDist := s8 (softfloat_countLeadingZeros64 sig - 1) in
  let exp := exp - shiftDist in
  if (10 <=? shiftDist) && (u32 exp <? 0x7FD) then
    (u64 (packToF64UI sign (if sig =? 0 then 0 else exp) (u64 (Z.shiftl sig (shiftDist - 10)))), st)
  else softfloat_roundPackToF64 sign exp (u64 (Z.shiftl sig shiftDist)) st.

(** ** The state the operations run in *)

Definition mode_code (m : mode) : Z :=
  match m with
  | RNE => softfloat_round_near_even
  | RTZ => softfloat_round_minMag
  | RDN => softfloat_round_min
  | RUP => softfloat_round_max
  | RMM => softfloat_round_near_maxMag
  end.

(** The rounding mode is [m]; tininess is detected after rounding, as
    softfloat_state.c has it. *)
Definition in_mode (m : mode) (st : softfloat_state) : Prop :=
  softfloat_roundingMode st = mode_code m /\
  softfloat_detectTininess st = softfloat_tininess_afterRounding.

(** [returns r spec st]: the call's value and flags satisfy [spec], and nothing
    else of the state changes. *)
Definition returns (r : Z * softfloat_state) (spec : Z -> Z -> Prop) (st : softfloat_state) : Prop :=
  exists u fl, r = (u, softfloat_raiseFlags fl st) /\ spec u fl.

Lemma returns_mono r (P Q : Z -> Z -> Prop) st :
  returns r P st -> (forall u fl, P u fl -> Q u fl) -> returns r Q st.
Proof. intros (u & fl & -> & HP) HPQ. exists u, fl. auto. Qed.

Lemma returns_pure (u : Z) (P : Z -> Z -> Prop) st : P u 0 -> returns (u, st) P st.
Proof. intros. exists u, 0. by rewrite raise_0. Qed.

Lemma returns_raise (u fl : Z) (P : Z -> Z -> Prop) st :
  P u fl -> returns (u, softfloat_raiseFlags fl st) P st.
Proof. intros. by exists u, fl. Qed.

(** ** Rounding *)

(** The increment the code computes is the one of the mode. *)
Lemma increment_code m (sign : bool) rb :
  2 <= rb ->
  (if negb (mode_code m =? softfloat_round_near_even) && negb (mode_code m =? softfloat_round_near_maxMag)
   then if mode_code m =? (if sign then softfloat_round_min else softfloat_round_max)
        then 2 ^ rb - 1 else 0
   else 2 ^ (rb - 1)) = increment m sign rb.
Proof. by destruct m, sign. Qed.

Lemma increment_range m sign rb : 2 <= rb -> 0 <= increment m sign rb < 2 ^ rb.
Proof.
  intros. pose proof (Z.pow_pos_nonneg 2 (rb - 1)).
  assert (2 ^ rb = 2 * 2 ^ (rb - 1)) as -> by (rewrite <-Z.pow_succ_r by lia; f_equal; lia).
  unfold increment. assert (2 ^ rb = 2 * 2 ^ (rb - 1)) as -> by (rewrite <-Z.pow_succ_r by lia; f_equal; lia).
  destruct m, sign; lia.
Qed.

(** Dropping the round bits, and clearing the last bit of a tie to even. *)
Lemma round_sig_code m sign rb sig :
  2 <= rb -> 0 <= sig ->
  Z.land (Z.shiftr (sig + increment m sign rb) rb)
    (Z.lnot (Z.b2z ((Z.lxor (Z.land sig (2 ^ rb - 1)) (2 ^ (rb - 1)) =? 0)
                    && (mode_code m =? softfloat_round_near_even)))) = round_sig m sign rb sig.
Proof.
  intros Hrb Hs. rewrite land_ones_mod, Z.shiftr_div_pow2 by lia. unfold round_sig.
  set (n := (sig + increment m sign rb) / 2 ^ rb).
  assert ((Z.lxor (sig mod 2 ^ rb) (2 ^ (rb - 1)) =? 0) = (sig mod 2 ^ rb =? 2 ^ (rb - 1))) as ->.
  { apply Bool.eq_iff_eq_true. rewrite !Z.eqb_eq. apply Z.lxor_eq_0_iff. }
  destruct m; rewrite ?andb_false_r; try apply Z.land_m1_r.
  rewrite andb_true_r. case_match; [|apply Z.land_m1_r].
  change (Z.lnot (Z.b2z true)) with (Z.lnot (Z.ones 1)). rewrite <-Z.ldiff_land, Z.ldiff_ones_r by done.
  rewrite Z.shiftr_div_pow2, Z.shiftl_mul_pow2 by done. change (2 ^ 1) with 2. divlia.
Qed.

Lemma overflow_code m sign F rb :
  2 <= rb -> overflow_result F m sign = infinity F sign - Z.b2z (increment m sign rb =? 0).
Proof.
  intros Hrb. unfold overflow_result, infinity, signed.
  assert ((2 ^ (rb - 1) =? 0) = false) as E1 by (apply Z.eqb_neq; pose proof (Z.pow_pos_nonneg 2 (rb - 1)); lia).
  assert ((2 ^ rb - 1 =? 0) = false) as E2.
  { apply Z.eqb_neq. pose proof (Z.pow_le_mono_r 2 2 rb). change (2 ^ 2) with 4 in *. lia. }
  destruct m, sign; unfold increment; rewrite ?E1, ?E2; cbn [Z.b2z negb Z.eqb]; lia.
Qed.

Lemma raise_if (b : bool) f st :
  (if b then softfloat_raiseFlags f st else st) = softfloat_raiseFlags (flag_if b f) st.
Proof. destruct b; [done|]. by rewrite raise_0. Qed.

Lemma jam_shift_range s d B :
  0 <= d -> 0 <= s < 2 * B -> 1 <= d -> 0 <= jam_shift s d <= B.
Proof.
  intros Hd Hs Hd1. pose proof (jam_shift_cases s d Hd) as Hj.
  pose proof (Z.pow_le_mono_r 2 1 d ltac:(lia) Hd1). change (2 ^ 1) with 2 in *.
  set (D := 2 ^ d) in *. set (q := s / D) in *. assert (0 <= q) by (apply Z.div_pos; lia).
  assert (q < B) by (apply Z.div_lt_upper_bound; nia). lia.
Qed.

(** Bits shifted out do not carry past the top. *)
Lemma jam_shift_pow d n s :
  0 <= d -> 2 <= n -> 2 ^ (d + n - 1) <= s < 2 ^ (d + n) -> 2 ^ (n - 1) <= jam_shift s d < 2 ^ n.
Proof.
  intros Hd Hn Hs. pose proof (jam_shift_cases s d Hd) as Hj. pose proof (Z.pow_pos_nonneg 2 d).
  assert (2 ^ (d + n - 1) = 2 ^ d * 2 ^ (n - 1)) as E1 by (rewrite <-Z.pow_add_r by lia; f_equal; lia).
  assert (2 ^ (d + n) = 2 ^ d * 2 ^ n) as E2 by (rewrite <-Z.pow_add_r by lia; f_equal; lia).
  assert (2 ^ n = 2 * 2 ^ (n - 1)) as E3 by (rewrite <-Z.pow_succ_r by lia; f_equal; lia).
  rewrite E1, E2 in Hs. assert (2 ^ (n - 1) <= s / 2 ^ d < 2 ^ n).
  { split; [apply Z.div_le_lower_bound; lia|apply Z.div_lt_upper_bound; lia]. }
  destruct Hj as [[_ ->]|(_ & [i Hi]%Z.odd_spec & Hj)]; lia.
Qed.

(** An integer shifted right with its sticky bit stands for the exact quotient. *)
Lemma agrees_jam g d s : 1 <= g -> 0 <= d -> agrees g (IZR s * bpow (- d)) (jam_shift s d).
Proof.
  intros Hg Hd. apply (agrees_mono 1); [lia|].
  apply (agrees_jam_shift 0 1 (IZR s) s d); [lia..|apply agrees_exact].
Qed.

Lemma round_sig_range m sign rb sig b :
  2 <= rb -> 0 <= sig < b * 2 ^ rb -> 0 <= round_sig m sign rb sig <= b.
Proof.
  intros Hrb Hs. split; [apply round_sig_nonneg; lia|].
  pose proof (increment_range m sign rb Hrb). pose proof (Z.pow_pos_nonneg 2 rb).
  assert ((sig + increment m sign rb) / 2 ^ rb < b + 1) by (apply Z.div_lt_upper_bound; nia).
  unfold round_sig. cbv zeta. pose proof (Z.mod_pos_bound ((sig + increment m sign rb) / 2 ^ rb) 2).
  destruct m; try case_match; lia.
Qed.

Lemma round_sig_norm m sign rb sig h :
  2 <= rb -> Z.even h = true -> h * 2 ^ rb <= sig -> h <= round_sig m sign rb sig.
Proof.
  intros Hrb Hh Hs. pose proof (increment_range m sign rb Hrb).
  pose proof (round_sig_lt m sign rb sig h ltac:(lia) Hh). lia.
Qed.

(** The three ways out of rounding and packing. *)
Section PackResult.
Context (F : format) `{ValidFormat F} (m : mode) (s : bool) (rb : Z).
Hypothesis rb_ge : 2 <= rb.
Hypothesis prec_ge : 3 <= prec F.
Context (e sig : Z).
Hypothesis sig_norm : 2 ^ (prec F - 1) * 2 ^ rb <= sig < 2 ^ prec F * 2 ^ rb.

Lemma pow_hidden : Z.even (2 ^ (prec F - 1)) = true /\ Z.even (2 ^ prec F) = true.
Proof.
  split; [|rewrite (pow_prec F); apply Z.even_even].
  replace (prec F - 1) with (Z.succ (prec F - 2)) by lia. rewrite Z.pow_succ_r by lia. apply Z.even_even.
Qed.

Lemma inf_mag_hidden : inf_mag F = (2 ^ ewidth F - 1) * 2 ^ (prec F - 1) /\ 4 <= 2 ^ ewidth F.
Proof.
  pose proof (ewidth_valid (F := F)). split; [done|]. change 4 with (2 ^ 2).
  apply Z.pow_le_mono_r; lia.
Qed.

Lemma pack_result_subnormal :
  e < 0 ->
  let sig' := jam_shift sig (- e) in
  let ix := inexact_bits rb sig' in
  0 <= sig' < 2 ^ prec F * 2 ^ rb /\ round_sig m s rb sig' <= 2 ^ (prec F - 1) /\
  pack_result F m s rb e sig =
    (signed F s (round_sig m s rb sig'),
     Z.lor (flag_if ix flag_inexact)
       (flag_if (ix && ((e <? -1) || (sig + increment m s rb <? 2 ^ prec F * 2 ^ rb)))
          flag_underflow)).
Proof.
  intros He sig' ix. pose proof (pow_prec_pos F). pose proof (pow_prec F).
  destruct inf_mag_hidden as [Hinf Hw]. pose proof (Z.pow_pos_nonneg 2 rb).
  assert (0 <= sig' <= 2 ^ (prec F - 1) * 2 ^ rb) as Hj by (apply jam_shift_range; lia).
  assert (round_sig m s rb sig' <= 2 ^ (prec F - 1)) as Hn.
  { destruct (Z_le_gt_dec (round_sig m s rb sig') (2 ^ (prec F - 1))); [done|exfalso].
    destruct (decide (sig' = 2 ^ (prec F - 1) * 2 ^ rb)) as [E|].
    - revert g. unfold round_sig. rewrite E, Z.mod_mul by lia. cbv zeta.
      pose proof (increment_range m s rb rb_ge). pose proof (Z.pow_pos_nonneg 2 (rb - 1)).
      rewrite Z.add_comm, Z.div_add, Z.div_small by lia.
      destruct m; try lia. case_match; lia.
    - pose proof (round_sig_range m s rb sig' (2 ^ (prec F - 1)) rb_ge). lia. }
  split; [nia|]. split; [done|].
  unfold pack_result. rewrite (proj2 (Z.ltb_lt e 0)) by done. fold sig' ix.
  rewrite (proj2 (Z.ltb_lt _ (inf_mag F))) by nia.
  pose proof (prec_valid (F := F)). by rewrite Z.mul_0_l, Z.add_0_l, Z.pow_add_r by lia.
Qed.

Lemma pack_result_normal :
  0 <= e -> e < 2 ^ ewidth F - 3 \/ e = 2 ^ ewidth F - 3 /\ sig + increment m s rb < 2 ^ prec F * 2 ^ rb ->
  2 ^ (prec F - 1) <= round_sig m s rb sig /\
  e * 2 ^ (prec F - 1) + round_sig m s rb sig < inf_mag F /\
  pack_result F m s rb e sig =
    (signed F s (e * 2 ^ (prec F - 1) + round_sig m s rb sig),
     flag_if (inexact_bits rb sig) flag_inexact).
Proof.
  intros He Hlt. pose proof (pow_prec_pos F). pose proof (pow_prec F).
  destruct inf_mag_hidden as [Hinf Hw]. destruct pow_hidden as [Hh Hp].
  pose proof (round_sig_norm m s rb sig _ rb_ge Hh ltac:(lia)).
  pose proof (Z.pow_pos_nonneg 2 rb).
  pose proof (round_sig_range m s rb sig (2 ^ prec F) rb_ge ltac:(lia)).
  pose proof (round_sig_lt m s rb sig (2 ^ prec F) ltac:(lia) Hp).
  assert (e * 2 ^ (prec F - 1) + round_sig m s rb sig < inf_mag F) by nia.
  split; [done|]. split; [done|].
  unfold pack_result. rewrite (proj2 (Z.ltb_ge e 0)) by done.
  rewrite (proj2 (Z.ltb_lt _ (inf_mag F))) by done. by rewrite andb_false_r, Z.lor_0_r.
Qed.

Lemma pack_result_overflow :
  2 ^ ewidth F - 3 < e \/ e = 2 ^ ewidth F - 3 /\ 2 ^ prec F * 2 ^ rb <= sig + increment m s rb ->
  pack_result F m s rb e sig = (overflow_result F m s, Z.lor flag_overflow flag_inexact).
Proof.
  intros Hlt. pose proof (pow_prec_pos F). pose proof (pow_prec F).
  destruct inf_mag_hidden as [Hinf Hw]. destruct pow_hidden as [Hh Hp].
  pose proof (round_sig_norm m s rb sig _ rb_ge Hh ltac:(lia)).
  pose proof (round_sig_lt m s rb sig (2 ^ prec F) ltac:(lia) Hp).
  unfold pack_result. rewrite (proj2 (Z.ltb_ge e 0)) by lia.
  by rewrite (proj2 (Z.ltb_ge _ (inf_mag F))) by nia.
Qed.
End PackResult.

Lemma signed_F32_range s n : 0 <= n < 2 ^ 31 -> 0 <= signed F32 s n < 4294967296.
Proof. intros Hn. by apply (signed_pattern F32). Qed.
Lemma signed_F64_range s n : 0 <= n < 2 ^ 63 -> 0 <= signed F64 s n < 18446744073709551616.
Proof. intros Hn. by apply (signed_pattern F64). Qed.

Lemma land_bits32 a : Z.land a 127 = a mod 2 ^ 7.
Proof. by apply (land_ones_mod _ 7). Qed.

(** The end of the function, with the exponent and significand it gets to. *)
Lemma finish_F32 m sign e sg st :
  0 <= sg < 2 ^ 31 -> 0 <= e <= 253 -> e = 0 \/ 0 < round_sig m sign 7 sg ->
  e * 2 ^ 23 + round_sig m sign 7 sg < 2 ^ 31 ->
  (let sig := Z.land (Z.shiftr (u64 (sg + increment m sign 7)) 7)
     (Z.lnot (Z.b2z ((Z.lxor (Z.land sg 127) 64 =? 0)
                     && (mode_code m =? softfloat_round_near_even)))) in
   (u32 (packToF32UI sign (if sig =? 0 then 0 else e) sig),
    softfloat_raiseFlags (flag_if (negb (Z.land sg 127 =? 0)) softfloat_flag_inexact) st)) =
  (signed F32 sign (e * 2 ^ 23 + round_sig m sign 7 sg),
   softfloat_raiseFlags (flag_if (inexact_bits 7 sg) flag_inexact) st).
Proof.
  intros Hsg He Hn Hlt. pose proof (round_sig_nonneg m sign 7 sg ltac:(lia) ltac:(lia)).
  pose proof (increment_range m sign 7 ltac:(lia)) as Hi. change (2 ^ 7) with 128 in Hi.
  rewrite u64_id by lia. cbv zeta. rewrite (round_sig_code m sign 7) by lia.
  unfold inexact_bits. rewrite (land_bits32 sg). f_equal.
  replace (if _ =? 0 then 0 else e) with e by (destruct (Z.eqb_spec (round_sig m sign 7 sg) 0); lia).
  rewrite packF32 by lia. apply u32_id, signed_F32_range. lia.
Qed.

Lemma overflow_F32 m sign :
  u32 (packToF32UI sign 255 0 - Z.b2z (increment m sign 7 =? 0)) = overflow_result F32 m sign.
Proof.
  rewrite packF32, (overflow_code m sign F32 7) by lia. apply u32_id.
  destruct sign, (_ =? 0); vm_compute; split; congruence.
Qed.

Lemma roundPackToF32_pack m sign exp sig st :
  in_mode m st -> -4294965000 < exp < 4294967296 -> 2 ^ 30 <= sig < 2 ^ 31 ->
  softfloat_roundPackToF32 sign exp sig st =
  ((pack_result F32 m sign 7 exp sig).1,
   softfloat_raiseFlags (pack_result F32 m sign 7 exp sig).2 st).
Proof.
  intros [Hm Ht] Hexp Hsig. unfold softfloat_roundPackToF32.
  rewrite Hm, Ht. cbv zeta. pose proof (increment_code m sign 7 ltac:(lia)) as Hic.
  change (2 ^ 7 - 1) with 127 in Hic. change (2 ^ (7 - 1)) with 64 in Hic.
  rewrite Hic, !raise_if. clear Hic.
  pose proof (increment_range m sign 7 ltac:(lia)) as Hi. change (2 ^ 7) with 128 in Hi.
  pose proof (finish_F32 m sign) as Hfin. cbv zeta in Hfin. pose proof (overflow_F32 m sign) as Hpo.
  change (2 ^ 30) with 1073741824 in *. change (2 ^ 31) with 2147483648 in *.
  assert (2 ^ (prec F32 - 1) * 2 ^ 7 <= sig < 2 ^ prec F32 * 2 ^ 7) as Hnorm by (cbn; lia).
  assert (u64 (sig + increment m sign 7) = sig + increment m sign 7) as Hu by (apply u64_id; lia).
  pose proof (pack_result_subnormal F32 m sign 7 ltac:(lia) ltac:(cbn; lia) exp sig Hnorm) as Hsub.
  pose proof (pack_result_normal F32 m sign 7 ltac:(lia) ltac:(cbn; lia) exp sig Hnorm) as Hnor.
  pose proof (pack_result_overflow F32 m sign 7 ltac:(lia) ltac:(cbn; lia) exp sig Hnorm) as Hov.
  cbn [prec ewidth F32] in Hsub, Hnor, Hov.
  change (2 ^ 8 - 3) with 253 in *. change (2 ^ 24 * 2 ^ 7) with 2147483648 in *.
  change (24 - 1) with 23 in *. change (inf_mag F32) with (255 * 2 ^ 23) in *.
  destruct (Z.ltb_spec exp 0) as [Hneg|Hpos].
  - assert (u32 exp = exp + 4294967296) as ->
      by (unfold u32; symmetry; apply Z.mod_unique with (-1); lia).
    rewrite (proj2 (Z.leb_le _ _)) by lia. destruct (Hsub Hneg) as (Hj & Hn & ->). cbn [fst snd].
    rewrite shiftRightJam32_jam by lia. rewrite Hu, Hfin by lia.
    f_equal. rewrite raise_raise. f_equal. rewrite Z.lor_comm. do 2 f_equal.
    unfold inexact_bits. rewrite land_bits32. apply andb_comm.
  - destruct (Z.leb_spec 253 (u32 exp)) as [Hge|Hlt]; rewrite u32_id in * by lia.
    + destruct (Z.ltb_spec 253 exp) as [Hgt|Hle]; cbn [orb].
      * by rewrite Hov, Hpo by lia.
      * destruct (Z.leb_spec 2147483648 (u64 (sig + increment m sign 7))) as [Hb|Hb]; rewrite Hu in Hb.
        -- by rewrite Hov, Hpo by lia.
        -- destruct Hnor as (? & ? & ->); [lia|lia|]. cbn [fst snd]. by rewrite Hfin by lia.
    + destruct Hnor as (? & ? & ->); [lia|lia|]. cbn [fst snd]. by rewrite Hfin by lia.
Qed.

Lemma land_bits64 a : Z.land a 1023 = a mod 2 ^ 10.
Proof. by apply (land_ones_mod _ 10). Qed.

(** The end of the function, with the exponent and significand it gets to. *)
Lemma finish_F64 m sign e sg st :
  0 <= sg < 2 ^ 63 -> 0 <= e <= 2045 -> e = 0 \/ 0 < round_sig m sign 10 sg ->
  e * 2 ^ 52 + round_sig m sign 10 sg < 2 ^ 63 ->
  (let sig := Z.land (Z.shiftr (u64 (sg + increment m sign 10)) 10)
     (Z.lnot (Z.b2z ((Z.lxor (Z.land sg 1023) 512 =? 0)
                     && (mode_code m =? softfloat_round_near_even)))) in
   (u64 (packToF64UI sign (if sig =? 0 then 0 else e) sig),
    softfloat_raiseFlags (flag_if (negb (Z.land sg 1023 =? 0)) softfloat_flag_inexact) st)) =
  (signed F64 sign (e * 2 ^ 52 + round_sig m sign 10 sg),
   softfloat_raiseFlags (flag_if (inexact_bits 10 sg) flag_inexact) st).
Proof.
  intros Hsg He Hn Hlt. pose proof (round_sig_nonneg m sign 10 sg ltac:(lia) ltac:(lia)).
  pose proof (increment_range m sign 10 ltac:(lia)) as Hi. change (2 ^ 10) with 1024 in Hi.
  rewrite u64_id by lia. cbv zeta. rewrite (round_sig_code m sign 10) by lia.
  unfold inexact_bits. rewrite (land_bits64 sg). f_equal.
  replace (if _ =? 0 then 0 else e) with e by (destruct (Z.eqb_spec (round_sig m sign 10 sg) 0); lia).
  rewrite packF64 by lia. apply u64_id, signed_F64_range. lia.
Qed.

Lemma overflow_F64 m sign :
  u64 (packToF64UI sign 2047 0 - Z.b2z (increment m sign 10 =? 0)) = overflow_result F64 m sign.
Proof.
  rewrite packF64, (overflow_code m sign F64 10) by lia. apply u64_id.
  destruct sign, (_ =? 0); vm_compute; split; congruence.
Qed.

Lemma roundPackToF64_pack m sign exp sig st :
  in_mode m st -> -60000 < exp < 65536 -> 2 ^ 62 <= sig < 2 ^ 63 ->
  softfloat_roundPackToF64 sign exp sig st =
  ((pack_result F64 m sign 10 exp sig).1,
   softfloat_raiseFlags (pack_result F64 m sign 10 exp sig).2 st).
Proof.
  intros [Hm Ht] Hexp Hsig. unfold softfloat_roundPackToF64.
  rewrite Hm, Ht. cbv zeta. pose proof (increment_code m sign 10 ltac:(lia)) as Hic.
  change (2 ^ 10 - 1) with 1023 in Hic. change (2 ^ (10 - 1)) with 512 in Hic.
  rewrite Hic, !raise_if. clear Hic.
  pose proof (increment_range m sign 10 ltac:(lia)) as Hi. change (2 ^ 10) with 1024 in Hi.
  pose proof (finish_F64 m sign) as Hfin. cbv zeta in Hfin. pose proof (overflow_F64 m sign) as Hpo.
  change (2 ^ 62) with 4611686018427387904 in *. change (2 ^ 63) with 9223372036854775808 in *.
  assert (2 ^ (prec F64 - 1) * 2 ^ 10 <= sig < 2 ^ prec F64 * 2 ^ 10) as Hnorm by (cbn; lia).
  assert (u64 (sig + increment m sign 10) = sig + increment m sign 10) as Hu by (apply u64_id; lia).
  pose proof (pack_result_subnormal F64 m sign 10 ltac:(lia) ltac:(cbn; lia) exp sig Hnorm) as Hsub.
  pose proof (pack_result_normal F64 m sign 10 ltac:(lia) ltac:(cbn; lia) exp sig Hnorm) as Hnor.
  pose proof (pack_result_overflow F64 m sign 10 ltac:(lia) ltac:(cbn; lia) exp sig Hnorm) as Hov.
  cbn [prec ewidth F64] in Hsub, Hnor, Hov.
  change (2 ^ 11 - 3) with 2045 in *. change (2 ^ 53 * 2 ^ 10) with 9223372036854775808 in *.
  change (53 - 1) with 52 in *. change (inf_mag F64) with (2047 * 2 ^ 52) in *.
  destruct (Z.ltb_spec exp 0) as [Hneg|Hpos].
  - assert (u16 exp = exp + 65536) as ->
      by (unfold u16; symmetry; apply Z.mod_unique with (-1); lia).
    rewrite (proj2 (Z.leb_le _ _)) by lia. destruct (Hsub Hneg) as (Hj & Hn & ->). cbn [fst snd].
    rewrite shiftRightJam64_jam by lia. rewrite Hu, Hfin by lia.
    f_equal. rewrite raise_raise. f_equal. rewrite Z.lor_comm. do 2 f_equal.
    unfold inexact_bits. rewrite land_bits64. apply andb_comm.
  - destruct (Z.leb_spec 2045 (u16 exp)) as [Hge|Hlt]; rewrite u16_id in * by lia.
    + destruct (Z.ltb_spec 2045 exp) as [Hgt|Hle]; cbn [orb].
      * by rewrite Hov, Hpo by lia.
      * destruct (Z.leb_spec 9223372036854775808 (u64 (sig + increment m sign 10))) as [Hb|Hb]; rewrite Hu in Hb.
        -- by rewrite Hov, Hpo by lia.
        -- destruct Hnor as (? & ? & ->); [lia|lia|]. cbn [fst snd]. by rewrite Hfin by lia.
    + destruct Hnor as (? & ? & ->); [lia|lia|]. cbn [fst snd]. by rewrite Hfin by lia.
Qed.


Lemma roundPackToF32_rounded m sign exp sig y x st :
  in_mode m st -> -4294965000 < exp < 4294967296 -> 2 ^ 30 <= sig < 2 ^ 31 ->
  agrees 6 y sig -> x = (y * bpow (exp - 7 + emin F32))%R ->
  returns (softfloat_roundPackToF32 sign exp sig st) (rounded F32 m sign x) st.
Proof.
  intros Hst Hexp Hsig Ha Hx. rewrite (roundPackToF32_pack m) by done.
  apply returns_raise, (pack_result_rounded F32 m sign 7 ltac:(lia) y); done.
Qed.

(** The significand is exact, or long enough that its last bit may be sticky. *)
Lemma normRoundPackToF32_rounded m sign exp sig y x st :
  in_mode m st -> -4294964900 < exp < 4294967296 -> 0 < sig < 2 ^ 31 ->
  y = IZR sig \/ (agrees 1 y sig /\ 2 ^ 25 <= sig) ->
  x = (y * bpow (exp - 7 + emin F32))%R ->
  returns (softfloat_normRoundPackToF32 sign exp sig st) (rounded F32 m sign x) st.
Proof.
  intros Hst Hexp Hsig Hy Hx. unfold softfloat_normRoundPackToF32.
  rewrite countLeadingZeros32_log2 by lia. pose proof (Z.log2_spec sig ltac:(lia)) as Hl.
  assert (0 <= Z.log2 sig <= 30) by (split; [apply Z.log2_nonneg|apply Z.lt_succ_r, Z.log2_lt_pow2; lia]).
  set (d := 30 - Z.log2 sig). replace (31 - Z.log2 sig - 1) with d by lia.
  unfold s8. rewrite Z.mod_small, Z.add_simpl_r by lia.
  assert (2 ^ 30 = 2 ^ Z.log2 sig * 2 ^ d) as Hp by (rewrite <-Z.pow_add_r by lia; f_equal; lia).
  rewrite Z.pow_succ_r in Hl by lia. pose proof (Z.pow_pos_nonneg 2 d ltac:(lia) ltac:(lia)).
  assert (2 ^ 30 <= sig * 2 ^ d < 2 ^ 31) as Hr by (change (2 ^ 31) with (2 * 2 ^ 30); nia).
  assert (y * bpow d * bpow (exp - d - 7 + emin F32) = x)%R as Hxd.
  { rewrite Hx, Rmult_assoc, <-bpow_add. do 2 f_equal. lia. }
  destruct ((7 <=? d) && (u32 (exp - d) <? 253)) eqn:E.
  - apply andb_true_iff in E as [E1%Z.leb_le E2%Z.ltb_lt].
    assert (0 <= exp - d < 253) as He.
    { unfold u32 in E2. destruct (Z_lt_le_dec (exp - d) 0); [|rewrite Z.mod_small in E2; lia].
      rewrite <-(Z.mod_unique (exp - d) 4294967296 (-1) (exp - d + 4294967296)) in E2; lia. }
    rewrite (proj2 (Z.eqb_neq sig 0)) by lia. rewrite Z.shiftl_mul_pow2 by lia.
    assert (2 ^ d = 2 ^ (d - 7) * 2 ^ 7) as Hd by (rewrite <-Z.pow_add_r by lia; f_equal; lia).
    assert (2 ^ 23 <= sig * 2 ^ (d - 7) < 2 ^ 24) as Hn.
    { rewrite Hd in Hr. change (2 ^ 30) with (2 ^ 23 * 2 ^ 7) in Hr.
      change (2 ^ 31) with (2 ^ 24 * 2 ^ 7) in Hr. nia. }
    rewrite (u64_id (sig * _)) by lia. rewrite packF32 by lia. rewrite u32_id by (apply signed_F32_range; lia).
    apply returns_pure, (rounded_exact F32 m sign (exp - d) (sig * 2 ^ (d - 7)));
      [lia|cbn [prec F32]; lia|right; cbn [prec F32]; lia|unfold inf_mag; cbn [prec ewidth F32]; lia|].
    assert (y = IZR sig) as ->.
    { destruct Hy as [|[_ Hs]]; [done|]. exfalso.
      assert (25 <= Z.log2 sig) by (apply Z.log2_le_pow2; lia). lia. }
    rewrite IZR_bpow by lia. rewrite Hx, Rmult_assoc, <-bpow_add. do 2 f_equal. lia.
  - rewrite Z.shiftl_mul_pow2, u64_id by lia.
    apply (roundPackToF32_rounded m _ _ _ (y * bpow d)%R); [done|lia|done| |done].
    destruct Hy as [->|[Ha Hs]].
    + apply (agrees_mono 0); [lia|]. rewrite <-IZR_bpow by lia. apply agrees_exact.
    + assert (25 <= Z.log2 sig) by (apply Z.log2_le_pow2; lia).
      apply (agrees_mono (1 + d)); [lia|]. apply agrees_shiftl; done || lia.
Qed.

Lemma roundPackToF64_rounded m sign exp sig y x st :
  in_mode m st -> -60000 < exp < 65536 -> 2 ^ 62 <= sig < 2 ^ 63 ->
  agrees 9 y sig -> x = (y * bpow (exp - 10 + emin F64))%R ->
  returns (softfloat_roundPackToF64 sign exp sig st) (rounded F64 m sign x) st.
Proof.
  intros Hst Hexp Hsig Ha Hx. rewrite (roundPackToF64_pack m) by done.
  apply returns_raise, (pack_result_rounded F64 m sign 10 ltac:(lia) y); done.
Qed.

(** The significand is exact, or long enough that its last bit may be sticky. *)
Lemma normRoundPackToF64_rounded m sign exp sig y x st :
  in_mode m st -> -59900 < exp < 65536 -> 0 < sig < 2 ^ 63 ->
  y = IZR sig \/ (agrees 1 y sig /\ 2 ^ 54 <= sig) ->
  x = (y * bpow (exp - 10 + emin F64))%R ->
  returns (softfloat_normRoundPackToF64 sign exp sig st) (rounded F64 m sign x) st.
Proof.
  intros Hst Hexp Hsig Hy Hx. unfold softfloat_normRoundPackToF64.
  rewrite countLeadingZeros64_log2 by lia. pose proof (Z.log2_spec sig ltac:(lia)) as Hl.
  assert (0 <= Z.log2 sig <= 62) by (split; [apply Z.log2_nonneg|apply Z.lt_succ_r, Z.log2_lt_pow2; lia]).
  set (d := 62 - Z.log2 sig). replace (63 - Z.log2 sig - 1) with d by lia.
  unfold s8. rewrite Z.mod_small, Z.add_simpl_r by lia.
  assert (2 ^ 62 = 2 ^ Z.log2 sig * 2 ^ d) as Hp by (rewrite <-Z.pow_add_r by lia; f_equal; lia).
  rewrite Z.pow_succ_r in Hl by lia. pose proof (Z.pow_pos_nonneg 2 d ltac:(lia) ltac:(lia)).
  assert (2 ^ 62 <= sig * 2 ^ d < 2 ^ 63) as Hr by (change (2 ^ 63) with (2 * 2 ^ 62); nia).
  assert (y * bpow d * bpow (exp - d - 10 + emin F64) = x)%R as Hxd.
  { rewrite Hx, Rmult_assoc, <-bpow_add. do 2 f_equal. lia. }
  destruct ((10 <=? d) && (u32 (exp - d) <? 2045)) eqn:E.
  - apply andb_true_iff in E as [E1%Z.leb_le E2%Z.ltb_lt].
    assert (0 <= exp - d < 2045) as He.
    { unfold u32 in E2. destruct (Z_lt_le_dec (exp - d) 0); [|rewrite Z.mod_small in E2; lia].
      rewrite <-(Z.mod_unique (exp - d) 4294967296 (-1) (exp - d + 4294967296)) in E2; lia. }
    rewrite (proj2 (Z.eqb_neq sig 0)) by lia. rewrite Z.shiftl_mul_pow2 by lia.
    assert (2 ^ d = 2 ^ (d - 10) * 2 ^ 10) as Hd by (rewrite <-Z.pow_add_r by lia; f_equal; lia).
    assert (2 ^ 52 <= sig * 2 ^ (d - 10) < 2 ^ 53) as Hn.
    { rewrite Hd in Hr. change (2 ^ 62) with (2 ^ 52 * 2 ^ 10) in Hr.
      change (2 ^ 63) with (2 ^ 53 * 2 ^ 10) in Hr. nia. }
    rewrite (u64_id (sig * _)) by lia. rewrite packF64 by lia. rewrite u64_id by (apply signed_F64_range; lia).
    apply returns_pure, (rounded_exact F64 m sign (exp - d) (sig * 2 ^ (d - 10)));
      [lia|cbn [prec F64]; lia|right; cbn [prec F64]; lia|unfold inf_mag; cbn [prec ewidth F64]; lia|].
    assert (y = IZR sig) as ->.
    { destruct Hy as [|[_ Hs]]; [done|]. exfalso.
      assert (54 <= Z.log2 sig) by (apply Z.log2_le_pow2; lia). lia. }
    rewrite IZR_bpow by lia. rewrite Hx, Rmult_assoc, <-bpow_add. do 2 f_equal. lia.
  - rewrite Z.shiftl_mul_pow2, u64_id by lia.
    apply (roundPackToF64_rounded m _ _ _ (y * bpow d)%R); [done|lia|done| |done].
    destruct Hy as [->|[Ha Hs]].
    + apply (agrees_mono 0); [lia|]. rewrite <-IZR_bpow by lia. apply agrees_exact.
    + assert (54 <= Z.log2 sig) by (apply Z.log2_le_pow2; lia).
      apply (agrees_mono (1 + d)); [lia|]. apply agrees_shiftl; done || lia.
Qed.

(** ** Operands with the significand shifted left *)

Section Operands.
Context (F : format) `{ValidFormat F}.

(** The fraction of a subnormal number is shifted once more, so that the same
    power of two scales both. *)
Definition shifted (k u : Z) : Z :=
  if expo F u =? 0 then frac F u * 2 ^ (k + 1) else (2 ^ (prec F - 1) + frac F u) * 2 ^ k.

Lemma absval_shifted k u :
  0 <= k -> absval F u = (IZR (shifted k u) * bpow (expo F u - 1 - k + emin F))%R.
Proof.
  intros Hk. unfold absval, shifted. case_decide as Hz.
  - rewrite (proj2 (Z.eqb_eq _ 0)), Hz by done. rewrite IZR_bpow, Rmult_assoc, <-bpow_add by lia.
    do 2 f_equal. lia.
  - rewrite (proj2 (Z.eqb_neq _ 0)) by done. rewrite IZR_bpow, Rmult_assoc, <-bpow_add by lia.
    do 2 f_equal. lia.
Qed.

Lemma shifted_range k u : 0 <= k -> 0 <= shifted k u < 2 ^ (prec F + k).
Proof.
  intros Hk. pose proof (frac_range F u). pose proof (prec_valid (F := F)).
  rewrite Z.pow_add_r, (pow_prec F) by lia. pose proof (Z.pow_pos_nonneg 2 k).
  unfold shifted. rewrite (Z.pow_add_r 2 k 1) by lia. change (2 ^ 1) with 2. case_match; nia.
Qed.

(** Two operands on the scale of the first. *)
Lemma absval_apart k a b :
  0 <= k ->
  let d := expo F a - expo F b in
  let scale := bpow (expo F a - (k + 1) + emin F) in
  absval F a = (IZR (shifted k a) * scale)%R /\
  absval F b = (IZR (shifted k b) * bpow (- d) * scale)%R.
Proof.
  intros Hk d scale. split.
  - rewrite (absval_shifted k) by done. unfold scale. do 2 f_equal. lia.
  - rewrite (absval_shifted k), Rmult_assoc by done. unfold scale, d. rewrite <-bpow_add.
    do 2 f_equal. lia.
Qed.

Lemma shifted_normal k u : expo F u <> 0 -> shifted k u = (2 ^ (prec F - 1) + frac F u) * 2 ^ k.
Proof. intros Hu. unfold shifted. by rewrite (proj2 (Z.eqb_neq _ 0)). Qed.

(** The result of adding finite numbers of signs [s] and [s']. *)
Lemma ieee_add_finite m a b (s : bool) x u fl :
  is_finite F a = true -> is_finite F b = true ->
  (value F a + value F b = if s then - x else x)%R -> (0 < x)%R -> rounded F m s x u fl ->
  ieee_add F m a b u fl.
Proof.
  intros Ha Hb Hv Hx Hr. unfold ieee_add.
  rewrite (is_finite_fields F), negb_true_iff in Ha, Hb.
  rewrite !(is_nan_fields F), !(is_inf_fields F), Ha, Hb. cbn [andb orb].
  rewrite Hv. by apply rounds_to_signed.
Qed.

Lemma ieee_add_zero m a b u :
  is_finite F a = true -> is_finite F b = true -> (value F a + value F b = 0)%R ->
  u = zero F (if eqb (sign_of F a) (sign_of F b) then sign_of F a
              else match m with RDN => true | _ => false end) ->
  ieee_add F m a b u 0.
Proof.
  intros Ha Hb Hv Hu. unfold ieee_add.
  rewrite (is_finite_fields F), negb_true_iff in Ha, Hb.
  rewrite !(is_nan_fields F), !(is_inf_fields F), Ha, Hb. cbn [andb orb]. by left.
Qed.

Lemma ieee_add_nan m a b :
  is_nan F a || is_nan F b = true ->
  ieee_add F m a b (default_nan F) (flag_if (is_snan F a || is_snan F b) flag_invalid).
Proof. intros Hn. unfold ieee_add. by rewrite Hn. Qed.

Lemma ieee_add_inf_l m a b :
  is_nan F a = false -> is_nan F b = false -> is_inf F a = true ->
  sign_of F a = sign_of F b \/ is_inf F b = false -> ieee_add F m a b a 0.
Proof.
  intros Ha Hb Hi Hs. unfold ieee_add. rewrite Ha, Hb, Hi. cbn [orb].
  destruct Hs as [->| ->]; [|done]. by rewrite eqb_reflx, andb_false_r.
Qed.

Lemma ieee_add_inf_r m a b :
  is_nan F b = false -> is_finite F a = true -> is_inf F b = true -> ieee_add F m a b b 0.
Proof.
  intros Hb Ha Hi. unfold ieee_add. rewrite (is_finite_fields F), negb_true_iff in Ha.
  by rewrite (is_nan_fields F a), (is_inf_fields F a), Ha, Hb, Hi.
Qed.

(** A pattern with another sign. *)
Lemma with_sign s u :
  let v := signed F s (mag F u) in
  is_pattern F v /\ sign_of F v = s /\ mag F v = mag F u /\ expo F v = expo F u /\
  frac F v = frac F u /\ is_nan F v = is_nan F u /\ is_snan F v = is_snan F u /\
  is_inf F v = is_inf F u /\ is_finite F v = is_finite F u /\ absval F v = absval F u.
Proof.
  intros v. pose proof (mag_range F u) as Hm.
  assert (mag F v = mag F u) as E by (by apply signed_mag).
  assert (expo F v = expo F u) as Ee by (unfold expo; by rewrite E).
  assert (frac F v = frac F u) as Ef.
  { pose proof (mag_eq F u). pose proof (mag_eq F v). rewrite E, Ee in *. lia. }
  split; [by apply signed_pattern|]. split; [by apply signed_sign|].
  rewrite !(is_nan_fields F), !(is_inf_fields F), !(is_finite_fields F), !(absval_shifted 0) by done.
  unfold shifted. rewrite Ee, Ef. split_and!; try done.
  unfold is_snan. rewrite !(is_nan_fields F), Ee, Ef. f_equal. f_equal.
  unfold frac in Ef. pose proof (prec_valid (F := F)).
  rewrite <-(Z.mod_pow2_bits_low v (prec F - 1)), <-(Z.mod_pow2_bits_low u (prec F - 1)) by lia.
  by rewrite Ef.
Qed.
End Operands.

Lemma scaled_sum_pos a b d e :
  0 < a -> 0 <= b -> (0 < (IZR a + IZR b * bpow d) * bpow e)%R.
Proof.
  intros Ha Hb. apply Rmult_lt_0_compat; [|apply bpow_gt_0].
  assert (0 < IZR a)%R by (by apply IZR_lt).
  assert (0 <= IZR b * bpow d)%R by (apply Rmult_le_pos; [by apply IZR_le|apply Rlt_le, bpow_gt_0]). lra.
Qed.

(** The end of every operation that meets a NaN. *)
Lemma propagateNaNF32UI_returns a b st (P : Z -> Z -> Prop) :
  P (default_nan F32) (flag_if (is_snan F32 a || is_snan F32 b) flag_invalid) ->
  returns (let '(uiZ, st) := softfloat_propagateNaNF32UI a b st in (u32 uiZ, st)) P st.
Proof.
  intros HP. unfold softfloat_propagateNaNF32UI.
  rewrite raise_if, !isSigNaNF32UI_snan. by apply returns_raise.
Qed.
Lemma propagateNaNF64UI_returns a b st (P : Z -> Z -> Prop) :
  P (default_nan F64) (flag_if (is_snan F64 a || is_snan F64 b) flag_invalid) ->
  returns (let '(uiZ, st) := softfloat_propagateNaNF64UI a b st in (u64 uiZ, st)) P st.
Proof.
  intros HP. unfold softfloat_propagateNaNF64UI.
  rewrite raise_if, !isSigNaNF64UI_snan. by apply returns_raise.
Qed.

(** ** Shared ends and beginnings of the operations *)

(** A significand that may be one place short, with a sticky last bit. *)
Lemma shortRoundPackF32 m s e sigZ y st :
  in_mode m st -> -4294964900 < e < 4294967296 -> 2 ^ 29 <= sigZ < 2 ^ 31 -> agrees 1 y sigZ ->
  returns (if sigZ <? 2 ^ 30 then softfloat_roundPackToF32 s (e - 1) (sigZ * 2) st
           else softfloat_roundPackToF32 s e sigZ st)
    (rounded F32 m s (y * bpow (e - 7 + emin F32))%R) st.
Proof.
  intros Hst He Hsig Ha. destruct (Z.ltb_spec sigZ (2 ^ 30)).
  - apply (roundPackToF32_rounded m _ _ _ (y * bpow 1)%R); [done|lia|lia| |].
    + apply (agrees_mono (1 + 1)); [lia|]. by apply (agrees_shiftl 1 _ _ 1).
    + rewrite (Rmult_assoc _ (bpow 1)), <-bpow_add. do 2 f_equal. lia.
  - apply (roundPackToF32_rounded m _ _ _ y); [done|lia|lia| |done].
    apply (agrees_mono 1); [lia|done].
Qed.

(** A finite operand other than zero, its hidden bit set and its exponent
    adjusted when it was subnormal. *)
Lemma norm_operandF32 u :
  is_finite F32 u = true -> is_zero F32 u = false ->
  let z := if expo F32 u =? 0 then softfloat_normSubnormalF32Sig (frac F32 u)
           else ExpSig32 (expo F32 u) (frac F32 u) in
  let S := Z.lor (sig32 z) (2 ^ 23) in
  2 ^ 23 <= S < 2 ^ 24 /\ - 23 < exp32 z < 255 /\
  absval F32 u = (IZR S * bpow (exp32 z - 1 + emin F32))%R.
Proof.
  intros Hf Hz z. pose proof (frac_range F32 u) as Hfr. pose proof (expo_range F32 u) as Her.
  rewrite is_finite_fields in Hf by apply _. rewrite is_zero_fields in Hz by apply _.
  rewrite negb_true_iff, Z.eqb_neq in Hf. cbn [prec ewidth F32] in *. unfold z.
  change (24 - 1) with 23 in *. change (2 ^ 8) with (255 + 1) in *.
  destruct (Z.eqb_spec (expo F32 u) 0) as [E|E]; cbn [andb] in Hz.
  - apply Z.eqb_neq in Hz.
    destruct (normSubnormalF32Sig_value (frac F32 u) ltac:(lia)) as (d & Hd & -> & Hs & Hr).
    assert (Z.lor (sig32 (softfloat_normSubnormalF32Sig (frac F32 u))) (2 ^ 23) =
      sig32 (softfloat_normSubnormalF32Sig (frac F32 u))) as ->.
    { set (g := sig32 _) in *. replace g with (1 * 2 ^ 23 + (g - 2 ^ 23)) at 1 2 by lia.
      rewrite <-(lor_disjoint 1 _ 23) by lia. rewrite (Z.lor_comm (1 * _)), <-Z.lor_assoc.
      by rewrite Z.lor_diag. }
    split; [lia|]. split; [lia|]. unfold absval. rewrite decide_True, Hs, IZR_bpow, Rmult_assoc, <-bpow_add by lia.
    do 2 f_equal. lia.
  - rewrite Z.lor_comm. cbn [sig32 exp32].
    replace (Z.lor (2 ^ 23) (frac F32 u)) with (2 ^ 23 + frac F32 u)
      by (symmetry; apply (lor_disjoint 1 _ 23); lia).
    split; [lia|]. split; [lia|]. unfold absval. by rewrite decide_False.
Qed.

(** A significand that may be one place short, with a sticky last bit. *)
Lemma shortRoundPackF64 m s e sigZ y st :
  in_mode m st -> -59900 < e < 65536 -> 2 ^ 61 <= sigZ < 2 ^ 63 -> agrees 1 y sigZ ->
  returns (if sigZ <? 2 ^ 62 then softfloat_roundPackToF64 s (e - 1) (sigZ * 2) st
           else softfloat_roundPackToF64 s e sigZ st)
    (rounded F64 m s (y * bpow (e - 10 + emin F64))%R) st.
Proof.
  intros Hst He Hsig Ha. destruct (Z.ltb_spec sigZ (2 ^ 62)).
  - apply (roundPackToF64_rounded m _ _ _ (y * bpow 1)%R); [done|lia|lia| |].
    + apply (agrees_mono (1 + 1)); [lia|]. by apply (agrees_shiftl 1 _ _ 1).
    + rewrite (Rmult_assoc _ (bpow 1)), <-bpow_add. do 2 f_equal. lia.
  - apply (roundPackToF64_rounded m _ _ _ y); [done|lia|lia| |done].
    apply (agrees_mono 1); [lia|done].
Qed.

(** A finite operand other than zero, its hidden bit set and its exponent
    adjusted when it was subnormal. *)
Lemma norm_operandF64 u :
  is_finite F64 u = true -> is_zero F64 u = false ->
  let z := if expo F64 u =? 0 then softfloat_normSubnormalF64Sig (frac F64 u)
           else ExpSig64 (expo F64 u) (frac F64 u) in
  let S := Z.lor (sig64 z) (2 ^ 52) in
  2 ^ 52 <= S < 2 ^ 53 /\ - 52 < exp64 z < 2047 /\
  absval F64 u = (IZR S * bpow (exp64 z - 1 + emin F64))%R.
Proof.
  intros Hf Hz z. pose proof (frac_range F64 u) as Hfr. pose proof (expo_range F64 u) as Her.
  rewrite is_finite_fields in Hf by apply _. rewrite is_zero_fields in Hz by apply _.
  rewrite negb_true_iff, Z.eqb_neq in Hf. cbn [prec ewidth F64] in *. unfold z.
  change (53 - 1) with 52 in *. change (2 ^ 11) with (2047 + 1) in *.
  destruct (Z.eqb_spec (expo F64 u) 0) as [E|E]; cbn [andb] in Hz.
  - apply Z.eqb_neq in Hz.
    destruct (normSubnormalF64Sig_value (frac F64 u) ltac:(lia)) as (d & Hd & -> & Hs & Hr).
    assert (Z.lor (sig64 (softfloat_normSubnormalF64Sig (frac F64 u))) (2 ^ 52) =
      sig64 (softfloat_normSubnormalF64Sig (frac F64 u))) as ->.
    { set (g := sig64 _) in *. replace g with (1 * 2 ^ 52 + (g - 2 ^ 52)) at 1 2 by lia.
      rewrite <-(lor_disjoint 1 _ 52) by lia. rewrite (Z.lor_comm (1 * _)), <-Z.lor_assoc.
      by rewrite Z.lor_diag. }
    split; [lia|]. split; [lia|]. unfold absval. rewrite decide_True, Hs, IZR_bpow, Rmult_assoc, <-bpow_add by lia.
    do 2 f_equal. lia.
  - rewrite Z.lor_comm. cbn [sig64 exp64].
    replace (Z.lor (2 ^ 52) (frac F64 u)) with (2 ^ 52 + frac F64 u)
      by (symmetry; apply (lor_disjoint 1 _ 52); lia).
    split; [lia|]. split; [lia|]. unfold absval. by rewrite decide_False.
Qed.
