(* ===== verification/SoftAdd.v ===== *)
(** * SoftFloat: addition and subtraction

    f32_add, f32_sub, f64_add and f64_sub with the functions on magnitudes they
    are made of.  For every pair of patterns and every rounding mode the result
    and the flags are those of IEEE 754. *)

From Stdlib Require Import ZArith Lia Reals Lra.
From stdpp Require Import base tactics list numbers.
From S2P Require Import Prelude Ieee SoftFloat SoftRound.

Definition softfloat_addMagsF32 (uiA uiB : Z) (st : softfloat_state) : Z * softfloat_state :=
  let expA := expF32UI uiA in
  let sigA := fracF32UI uiA in
  let expB := expF32UI uiB in
  let sigB := fracF32UI uiB in
  let expDiff := expA - expB in
  let propagateNaN :=
    let '(uiZ, st) := softfloat_propagateNaNF32UI uiA uiB st in (u32 uiZ, st) in
  if expDiff =? 0 then
    if expA =? 0 then (u32 (uiA + sigB), st)
    else if expA =? 0xFF then
      if negb (Z.lor sigA sigB =? 0) then propagateNaN else (u32 uiA, st)
    else
      let signZ := signF32UI uiA in
      let expZ := expA in
      let sigZ := 0x01000000 + sigA + sigB in
      if (Z.land sigZ 1 =? 0) && (expZ <? 0xFE)
      then (u32 (packToF32UI signZ expZ (Z.shiftr sigZ 1)), st)
      else softfloat_roundPackToF32 signZ expZ (Z.shiftl sigZ 6) st
  else
    let finish := fun signZ expZ sigA sigB =>
      let sigZ := 0x20000000 + sigA + sigB in
      if sigZ <? 0x40000000
      then softfloat_roundPackToF32 signZ (expZ - 1) (Z.shiftl sigZ 1) st
      else softfloat_roundPackToF32 signZ expZ sigZ st in
    let signZ := signF32UI uiA in
    let sigA := Z.shiftl sigA 6 in
    let sigB := Z.shiftl sigB 6 in
    if expDiff <? 0 then
      if expB =? 0xFF then
        if negb (sigB =? 0) then propagateNaN else (u32 (packToF32UI signZ 0xFF 0), st)
      else
        let sigA := sigA + (if negb (expA =? 0) then 0x20000000 else sigA) in
        finish signZ expB (softfloat_shiftRightJam32 sigA (- expDiff)) sigB
    else
      if expA =? 0xFF then
        if negb (sigA =? 0) then propagateNaN else (u32 uiA, st)
      else
        let sigB := sigB + (if negb (expB =? 0) then 0x20000000 else sigB) in
        finish signZ expA sigA (softfloat_shiftRightJam32 sigB expDiff).

Definition softfloat_subMagsF32 (uiA uiB : Z) (st : softfloat_state) : Z * softfloat_state :=
  let expA := expF32UI uiA in
  let sigA := fracF32UI uiA in
  let expB := expF32UI uiB in
  let sigB := fracF32UI uiB in
  let expDiff := expA - expB in
  let propagateNaN :=
    let '(uiZ, st) := softfloat_propagateNaNF32UI uiA uiB st in (u32 uiZ, st) in
  if expDiff =? 0 then
    if expA =? 0xFF then
      if negb (Z.lor sigA sigB =? 0) then propagateNaN
      else (u32 defaultNaNF32UI, softfloat_raiseFlags softfloat_flag_invalid st)
    else
      let sigDiff := sigA - sigB in
      if sigDiff =? 0 then
        (u32 (packToF32UI (softfloat_roundingMode st =? softfloat_round_min) 0 0), st)
      else
        let expA := if negb (expA =? 0) then expA - 1 else expA in
        let signZ := signF32UI uiA in
        let '(signZ, sigDiff) :=
          if sigDiff <? 0 then (negb signZ, - sigDiff) else (signZ, sigDiff) in
        let shiftDist := s8 (softfloat_countLeadingZeros32 sigDiff - 8) in
        let expZ := expA - shiftDist in
        let '(shiftDist, expZ) := if expZ <? 0 then (s8 expA, 0) else (shiftDist, expZ) in
        (u32 (packToF32UI signZ expZ (Z.shiftl sigDiff shiftDist)), st)
  else
    let signZ := signF32UI uiA in
    let sigA := Z.shiftl sigA 7 in
    let sigB := Z.shiftl sigB 7 in
    if expDiff <? 0 then
      let signZ := negb signZ in
      if expB =? 0xFF then
        if negb (sigB =? 0) then propagateNaN else (u32 (packToF32UI signZ 0xFF 0), st)
      else
        let expZ := expB - 1 in
        let sigX := Z.lor sigB 0x40000000 in
        let sigY := sigA + (if negb (expA =? 0) then 0x40000000 else sigA) in
        softfloat_normRoundPackToF32 signZ expZ
          (u64 (sigX - softfloat_shiftRightJam32 sigY (- expDiff))) st
    else
      if expA =? 0xFF then
        if negb (sigA =? 0) then propagateNaN else (u32 uiA, st)
      else
        let expZ := expA - 1 in
        let sigX := Z.lor sigA 0x40000000 in
        let sigY := sigB + (if negb (expB =? 0) then 0x40000000 else sigB) in
        softfloat_normRoundPackToF32 signZ expZ
          (u64 (sigX - softfloat_shiftRightJam32 sigY expDiff)) st.

Definition f32_add (a b : Z) (st : softfloat_state) : Z * softfloat_state :=
  if signF32UI (Z.lxor a b) then softfloat_subMagsF32 a b st
  else softfloat_addMagsF32 a b st.

Definition f32_sub (a b : Z) (st : softfloat_state) : Z * softfloat_state :=
  if signF32UI (Z.lxor a b) then softfloat_addMagsF32 a b st
  else softfloat_subMagsF32 a b st.

Definition softfloat_addMagsF64 (uiA uiB : Z) (signZ : bool) (st : softfloat_state)
    : Z * softfloat_state :=
  let expA := expF64UI uiA in
  let sigA := fracF64UI uiA in
  let expB := expF64UI uiB in
  let sigB := fracF64UI uiB in
  let expDiff := expA - expB in
  let propagateNaN :=
    let '(uiZ, st) := softfloat_propagateNaNF64UI uiA uiB st in (u64 uiZ, st) in
  if expDiff =? 0 then
    if expA =? 0 then (u64 (uiA + sigB), st)
    else if expA =? 0x7FF then
      if negb (Z.lor sigA sigB =? 0) then propagateNaN else (u64 uiA, st)
    else
      let sigZ := 0x0020000000000000 + sigA + sigB in
      softfloat_roundPackToF64 signZ expA (u64 (Z.shiftl sigZ 9)) st
  else
    let finish := fun expZ sigA sigB =>
      let sigZ := u64 (0x2000000000000000 + sigA + sigB) in
      if sigZ <? 0x4000000000000000
      then softfloat_roundPackToF64 signZ (expZ - 1) (u64 (Z.shiftl sigZ 1)) st
      else softfloat_roundPackToF64 signZ expZ sigZ st in
    let sigA := Z.shiftl sigA 9 in
    let sigB := Z.shiftl sigB 9 in
    if expDiff <? 0 then
      if expB =? 0x7FF then
        if negb (sigB =? 0) then propagateNaN else (u64 (packToF64UI signZ 0x7FF 0), st)
      else
        let sigA := if negb (expA =? 0) then u64 (sigA + 0x2000000000000000)
                    else u64 (Z.shiftl sigA 1) in
        finish expB (softfloat_shiftRightJam64 sigA (- expDiff)) sigB
    else
      if expA =? 0x7FF then
        if negb (sigA =? 0) then propagateNaN else (u64 uiA, st)
      else
        let sigB := if negb (expB =? 0) then u64 (sigB + 0x2000000000000000)
                    else u64 (Z.shiftl sigB 1) in
        finish expA sigA (softfloat_shiftRightJam64 sigB expDiff).

Definition softfloat_subMagsF64 (uiA uiB : Z) (signZ : bool) (st : softfloat_state)
    : Z * softfloat_state :=
  let expA := expF64UI uiA in
  let sigA := fracF64UI uiA in
  let expB := expF64UI uiB in
  let sigB := fracF64UI uiB in
  let expDiff := expA - expB in
  let propagateNaN :=
    let '(uiZ, st) := softfloat_propagateNaNF64UI uiA uiB st in (u64 uiZ, st) in
  if expDiff =? 0 then
    if expA =? 0x7FF then
      if negb (Z.lor sigA sigB =? 0) then propagateNaN
      else (u64 defaultNaNF64UI, softfloat_raiseFlags softfloat_flag_invalid st)
    else
      let sigDiff := sigA - sigB in
      if sigDiff =? 0 then
        (u64 (packToF64UI (softfloat_roundingMode st =? softfloat_round_min) 0 0), st)
      else
        let expA := if negb (expA =? 0) then expA - 1 else expA in
        let '(signZ, sigDiff) :=
          if sigDiff <? 0 then (negb signZ, - sigDiff) else (signZ, sigDiff) in
        let shiftDist := s8 (softfloat_countLeadingZeros64 sigDiff - 11) in
        let expZ := expA - shiftDist in
        let '(shiftDist, expZ) := if expZ <? 0 then (s8 expA, 0) else (shiftDist, expZ) in
        (u64 (packToF64UI signZ expZ (Z.shiftl sigDiff shiftDist)), st)
  else
    let sigA := Z.shiftl sigA 10 in
    let sigB := Z.shiftl sigB 10 in
    if expDiff <? 0 then
      let signZ := negb signZ in
      if expB =? 0x7FF then
        if negb (sigB =? 0) then propagateNaN else (u64 (packToF64UI signZ 0x7FF 0), st)
      else
        let sigA := u64 (sigA + (if negb (expA =? 0) then 0x4000000000000000 else sigA)) in
        let sigA := softfloat_shiftRightJam64 sigA (- expDiff) in
        let sigB := Z.lor sigB 0x4000000000000000 in
        softfloat_normRoundPackToF64 signZ (expB - 1) (u64 (sigB - sigA)) st
    else
      if expA =? 0x7FF then
        if negb (sigA =? 0) then propagateNaN else (u64 uiA, st)
      else
        let sigB := u64 (sigB + (if negb (expB =? 0) then 0x4000000000000000 else sigB)) in
        let sigB := softfloat_shiftRightJam64 sigB expDiff in
        let sigA := Z.lor sigA 0x4000000000000000 in
        softfloat_normRoundPackToF64 signZ (expA - 1) (u64 (sigA - sigB)) st.

Definition f64_add (a b : Z) (st : softfloat_state) : Z * softfloat_state :=
  let signA := signF64UI a in
  let signB := signF64UI b in
  if eqb signA signB then softfloat_addMagsF64 a b signA st
  else softfloat_subMagsF64 a b signA st.

Definition f64_sub (a b : Z) (st : softfloat_state) : Z * softfloat_state :=
  let signA := signF64UI a in
  let signB := signF64UI b in
  if eqb signA signB then softfloat_subMagsF64 a b signA st
  else softfloat_addMagsF64 a b signA st.

(** ** Operands of different exponents *)

(** The sum of significands [d] places apart. *)
Lemma finish_addF32 m s e big S d st :
  in_mode m st -> 1 <= e <= 254 -> 2 ^ 29 <= big < 2 ^ 30 -> Z.even big = true ->
  0 <= S < 2 ^ 30 -> 1 <= d ->
  let sigZ := big + jam_shift S d in
  returns (if sigZ <? 1073741824 then softfloat_roundPackToF32 s (e - 1) (Z.shiftl sigZ 1) st
           else softfloat_roundPackToF32 s e sigZ st)
    (rounded F32 m s ((IZR big + IZR S * bpow (- d)) * bpow (e - 7 + emin F32))%R) st.
Proof.
  intros Hst He Hbig Hev HS Hd sigZ.
  assert (0 <= jam_shift S d <= 2 ^ 29) as Hj by (apply jam_shift_range; [lia|lia|done]).
  assert (agrees 1 (IZR big + IZR S * bpow (- d)) sigZ) as Ha.
  { apply Z.even_spec in Hev as [k Hk]. unfold sigZ.
    replace big with (k * 2 ^ 1) by lia. rewrite Rplus_comm, Z.add_comm.
    apply agrees_add; [done|]. apply (agrees_jam_shift 0); [lia..|]. apply agrees_exact. }
  change (2 ^ 29) with 536870912 in *. change (2 ^ 30) with 1073741824 in *.
  destruct (Z.ltb_spec sigZ 1073741824).
  - rewrite Z.shiftl_mul_pow2 by lia. change (2 ^ 1) with 2. 
    apply (roundPackToF32_rounded m _ _ _ ((IZR big + IZR S * bpow (- d)) * bpow 1)%R);
      [done|lia|change (2 ^ 30) with 1073741824; change (2 ^ 31) with 2147483648; lia| |].
    + apply (agrees_mono (1 + 1)); [lia|]. by apply (agrees_shiftl 1 _ _ 1).
    + rewrite (Rmult_assoc _ (bpow 1)), <-bpow_add. do 2 f_equal. lia.
  - apply (roundPackToF32_rounded m _ _ _ (IZR big + IZR S * bpow (- d))%R);
      [done|lia|change (2 ^ 30) with 1073741824; change (2 ^ 31) with 2147483648; lia| |done].
    apply (agrees_mono 1); [lia|done].
Qed.

(** The difference of significands [d] places apart. *)
Lemma finish_subF32 m s e big S d st :
  in_mode m st -> 1 <= e <= 254 -> 2 ^ 30 <= big < 2 ^ 31 -> Z.even big = true ->
  0 <= S < 2 ^ 31 - 2 -> Z.even S = true -> 1 <= d ->
  (0 < (IZR big - IZR S * bpow (- d)) * bpow (e - 1 - 7 + emin F32))%R /\
  returns (softfloat_normRoundPackToF32 s (e - 1) (u64 (big - jam_shift S d)) st)
    (rounded F32 m s ((IZR big - IZR S * bpow (- d)) * bpow (e - 1 - 7 + emin F32))%R) st.
Proof.
  intros Hst He Hbig Hev HS HevS Hd.
  assert (0 <= jam_shift S d <= 2 ^ 30) as Hj by (apply jam_shift_range; [lia|lia|done]).
  assert (agrees 1 (IZR big - IZR S * bpow (- d)) (big - jam_shift S d)) as Ha.
  { apply Z.even_spec in Hev as [k Hk]. unfold Rminus. rewrite <-Z.add_opp_l, Rplus_comm.
    replace big with (k * 2 ^ 1) by lia.
    apply agrees_add, agrees_opp; [done|]. apply (agrees_jam_shift 0); [lia..|]. apply agrees_exact. }
  apply Z.even_spec in HevS as [h Hh].
  assert (0 < big - jam_shift S d) as Hpos.
  { destruct (decide (d = 1)) as [->|].
    - pose proof (jam_shift_cases S 1 ltac:(lia)) as Hc. change (2 ^ 1) with 2 in Hc. lia.
    - destruct (jam_shift_range S (d - 1) (2 ^ 30)); [lia..|].
      pose proof (jam_shift_cases S d ltac:(lia)) as Hc.
      assert (4 <= 2 ^ d) by (apply (Z.pow_le_mono_r 2 2 d); lia). nia. }
  rewrite u64_id by lia.
  assert (0 < IZR big - IZR S * bpow (- d))%R as Hr.
  { apply (agrees_lt _ _ _ 0 Ha). lia. }
  split; [apply Rmult_lt_0_compat; [done|apply bpow_gt_0]|].
  apply (normRoundPackToF32_rounded m _ _ _ (IZR big - IZR S * bpow (- d))%R); [done|lia|lia| |done].
  destruct (decide (d = 1)) as [->|]; [left|right].
  - pose proof (jam_shift_cases S 1 ltac:(lia)) as Hc. change (2 ^ 1) with 2 in Hc.
    replace (jam_shift S 1) with h by lia. rewrite minus_IZR, Hh. f_equal.
    replace (2 * h) with (h * 2 ^ 1) by lia.
    rewrite IZR_bpow, Rmult_assoc, <-bpow_add by lia. rewrite Z.add_opp_diag_r, bpow_0. lra.
  - split; [done|]. pose proof (jam_shift_cases S d ltac:(lia)) as Hc.
    assert (4 <= 2 ^ d) by (apply (Z.pow_le_mono_r 2 2 d); lia).
    set (q := S / 2 ^ d) in *. assert (q < 2 ^ 29) by (apply Z.div_lt_upper_bound; nia).
    change (2 ^ 30) with (2 * 2 ^ 29) in *. assert (2 ^ 25 <= 2 ^ 29 - 1) by done. lia.
Qed.

(** The sum of significands [d] places apart. *)
Lemma finish_addF64 m s e big S d st :
  in_mode m st -> 1 <= e <= 2046 -> 2 ^ 61 <= big < 2 ^ 62 -> Z.even big = true ->
  0 <= S < 2 ^ 62 -> 1 <= d ->
  let sigZ := big + jam_shift S d in
  returns (if sigZ <? 4611686018427387904 then softfloat_roundPackToF64 s (e - 1) (u64 (Z.shiftl sigZ 1)) st
           else softfloat_roundPackToF64 s e sigZ st)
    (rounded F64 m s ((IZR big + IZR S * bpow (- d)) * bpow (e - 10 + emin F64))%R) st.
Proof.
  intros Hst He Hbig Hev HS Hd sigZ.
  assert (0 <= jam_shift S d <= 2 ^ 61) as Hj by (apply jam_shift_range; [lia|lia|done]).
  assert (agrees 1 (IZR big + IZR S * bpow (- d)) sigZ) as Ha.
  { apply Z.even_spec in Hev as [k Hk]. unfold sigZ.
    replace big with (k * 2 ^ 1) by lia. rewrite Rplus_comm, Z.add_comm.
    apply agrees_add; [done|]. apply (agrees_jam_shift 0); [lia..|]. apply agrees_exact. }
  change (2 ^ 61) with 2305843009213693952 in *. change (2 ^ 62) with 4611686018427387904 in *.
  destruct (Z.ltb_spec sigZ 4611686018427387904).
  - rewrite Z.shiftl_mul_pow2 by lia. change (2 ^ 1) with 2. rewrite u64_id by lia.
    apply (roundPackToF64_rounded m _ _ _ ((IZR big + IZR S * bpow (- d)) * bpow 1)%R);
      [done|lia|change (2 ^ 62) with 4611686018427387904; change (2 ^ 63) with 9223372036854775808; lia| |].
    + apply (agrees_mono (1 + 1)); [lia|]. by apply (agrees_shiftl 1 _ _ 1).
    + rewrite (Rmult_assoc _ (bpow 1)), <-bpow_add. do 2 f_equal. lia.
  - apply (roundPackToF64_rounded m _ _ _ (IZR big + IZR S * bpow (- d))%R);
      [done|lia|change (2 ^ 62) with 4611686018427387904; change (2 ^ 63) with 9223372036854775808; lia| |done].
    apply (agrees_mono 1); [lia|done].
Qed.

(** The difference of significands [d] places apart. *)
Lemma finish_subF64 m s e big S d st :
  in_mode m st -> 1 <= e <= 2046 -> 2 ^ 62 <= big < 2 ^ 63 -> Z.even big = true ->
  0 <= S < 2 ^ 63 - 2 -> Z.even S = true -> 1 <= d ->
  (0 < (IZR big - IZR S * bpow (- d)) * bpow (e - 1 - 10 + emin F64))%R /\
  returns (softfloat_normRoundPackToF64 s (e - 1) (u64 (big - jam_shift S d)) st)
    (rounded F64 m s ((IZR big - IZR S * bpow (- d)) * bpow (e - 1 - 10 + emin F64))%R) st.
Proof.
  intros Hst He Hbig Hev HS HevS Hd.
  assert (0 <= jam_shift S d <= 2 ^ 62) as Hj by (apply jam_shift_range; [lia|lia|done]).
  assert (agrees 1 (IZR big - IZR S * bpow (- d)) (big - jam_shift S d)) as Ha.
  { apply Z.even_spec in Hev as [k Hk]. unfold Rminus. rewrite <-Z.add_opp_l, Rplus_comm.
    replace big with (k * 2 ^ 1) by lia.
    apply agrees_add, agrees_opp; [done|]. apply (agrees_jam_shift 0); [lia..|]. apply agrees_exact. }
  apply Z.even_spec in HevS as [h Hh].
  assert (0 < big - jam_shift S d) as Hpos.
  { destruct (decide (d = 1)) as [->|].
    - pose proof (jam_shift_cases S 1 ltac:(lia)) as Hc. change (2 ^ 1) with 2 in Hc. lia.
    - destruct (jam_shift_range S (d - 1) (2 ^ 62)); [lia..|].
      pose proof (jam_shift_cases S d ltac:(lia)) as Hc.
      assert (4 <= 2 ^ d) by (apply (Z.pow_le_mono_r 2 2 d); lia). nia. }
  rewrite u64_id by lia.
  assert (0 < IZR big - IZR S * bpow (- d))%R as Hr.
  { apply (agrees_lt _ _ _ 0 Ha). lia. }
  split; [apply Rmult_lt_0_compat; [done|apply bpow_gt_0]|].
  apply (normRoundPackToF64_rounded m _ _ _ (IZR big - IZR S * bpow (- d))%R); [done|lia|lia| |done].
  destruct (decide (d = 1)) as [->|]; [left|right].
  - pose proof (jam_shift_cases S 1 ltac:(lia)) as Hc. change (2 ^ 1) with 2 in Hc.
    replace (jam_shift S 1) with h by lia. rewrite minus_IZR, Hh. f_equal.
    replace (2 * h) with (h * 2 ^ 1) by lia.
    rewrite IZR_bpow, Rmult_assoc, <-bpow_add by lia. rewrite Z.add_opp_diag_r, bpow_0. lra.
  - split; [done|]. pose proof (jam_shift_cases S d ltac:(lia)) as Hc.
    assert (4 <= 2 ^ d) by (apply (Z.pow_le_mono_r 2 2 d); lia).
    set (q := S / 2 ^ d) in *. assert (q < 2 ^ 61) by (apply Z.div_lt_upper_bound; nia).
    change (2 ^ 62) with (2 * 2 ^ 61) in *. assert (2 ^ 54 <= 2 ^ 61 - 1) by done. lia.
Qed.

(** ** Magnitudes, F32 *)

Section MagsF32.
Context (m : mode) (a b : Z) (st : softfloat_state).
Hypothesis Hst : in_mode m st.
Hypothesis Ha : is_pattern F32 a.
Hypothesis Hb : is_pattern F32 b.

Lemma u32_pattern c : is_pattern F32 c -> u32 c = c.
Proof. intros Hc. apply u32_id, Hc. Qed.

Lemma frac_lt_F32 c : 0 <= frac F32 c < 2 ^ 23.
Proof. apply (frac_range F32). Qed.
Lemma expo_lt_F32 c : 0 <= expo F32 c <= 255.
Proof. pose proof (expo_range F32 c). cbn in *. lia. Qed.

Lemma inf_pattern_F32 s c : expo F32 c = 255 -> frac F32 c = 0 ->
  u32 (packToF32UI s 255 0) = signed F32 s (mag F32 c).
Proof.
  intros E E0. rewrite packF32 by lia. rewrite (mag_eq F32), E, E0.
  apply u32_id, signed_F32_range. cbn [prec F32]. lia.
Qed.

(** A sum with an infinity or a NaN, the other operand taken with sign [s]. *)
Lemma addMagsF32_special :
  expo F32 a = 255 \/ expo F32 b = 255 ->
  returns (softfloat_addMagsF32 a b  st)
    (ieee_add F32 m a (signed F32 (sign_of F32 a) (mag F32 b))) st.
Proof.
  intros He. unfold softfloat_addMagsF32.
  rewrite !expF32UI_expo, !fracF32UI_frac, !signF32UI_sign by done. cbv zeta.
  destruct (with_sign F32 (sign_of F32 a) b) as (Hp' & Hs' & _ & He' & Hf' & Hn' & Hsn' & Hi' & _).
  pose proof (expo_lt_F32 a). pose proof (expo_lt_F32 b).
  pose proof (frac_lt_F32 a). pose proof (frac_lt_F32 b).
  set (b' := signed F32 (sign_of F32 a) (mag F32 b)) in *.
  pose proof (is_nan_fields F32 a) as HnA. pose proof (is_inf_fields F32 a) as HiA.
  pose proof (is_finite_fields F32 a) as HfA. pose proof (is_nan_fields F32 b) as HnB.
  pose proof (is_inf_fields F32 b) as HiB. cbn [ewidth F32] in *. change (2 ^ 8 - 1) with 255 in *.
  assert (is_nan F32 a || is_nan F32 b = true ->
    returns (let '(uiZ, st) := softfloat_propagateNaNF32UI a b st in (u32 uiZ, st))
      (ieee_add F32 m a b') st) as Hnan.
  { intros Hn. apply propagateNaNF32UI_returns. rewrite <-Hsn'.
    apply ieee_add_nan. by rewrite Hn'. }
  destruct (Z.eqb_spec (expo F32 a) 255) as [E|E]; cbn [andb negb] in HnA, HiA, HfA.
  - rewrite E in *. replace (255 =? 0) with false by done.
    destruct (Z.eqb_spec (255 - expo F32 b) 0) as [Hd|Hd].
    + rewrite (proj2 (Z.eqb_eq (expo F32 b) 255)) in * by lia. cbn [andb negb] in HnB, HiB.
      destruct (Z.eqb_spec (Z.lor (frac F32 a) (frac F32 b)) 0) as [Hz|Hz]; cbn [negb].
      * apply Z.lor_eq_0_iff in Hz as [Hz1 Hz2]. rewrite Hz1, Hz2 in *.
        rewrite u32_pattern by done. apply returns_pure, ieee_add_inf_l; try done; [by rewrite Hn', HnB|by left].
      * apply Hnan. rewrite HnA, HnB. rewrite Z.lor_eq_0_iff in Hz.
        destruct (Z.eqb_spec (frac F32 a) 0), (Z.eqb_spec (frac F32 b) 0); done || tauto.
    + rewrite (proj2 (Z.ltb_ge (255 - expo F32 b) 0)) by lia.
      rewrite (proj2 (Z.eqb_neq (expo F32 b) 255)) in * by lia. cbn [andb negb] in HnB, HiB.
      rewrite Z.shiftl_mul_pow2 by done.
      destruct (Z.eqb_spec (frac F32 a * 2 ^ 6) 0) as [Hz|Hz]; cbn [negb].
      * assert (frac F32 a = 0) as Hz1 by lia. rewrite Hz1 in *.
        rewrite u32_pattern by done. apply returns_pure, ieee_add_inf_l; try done; [by rewrite Hn', HnB|right; by rewrite Hi', HiB].
      * apply Hnan. rewrite HnA, HnB. destruct (Z.eqb_spec (frac F32 a) 0); done || lia.
  - destruct He as [|E2]; [done|]. rewrite E2 in *. cbn [andb negb] in *.
    replace (255 =? 255) with true in * by done. cbn [andb negb] in *.
    rewrite (proj2 (Z.eqb_neq (expo F32 a - 255) 0)), (proj2 (Z.ltb_lt (expo F32 a - 255) 0)) by lia.
    rewrite Z.shiftl_mul_pow2 by done.
    destruct (Z.eqb_spec (frac F32 b * 2 ^ 6) 0) as [Hz|Hz]; cbn [negb].
    + assert (frac F32 b = 0) as Hz1 by lia. rewrite Hz1 in *.
      rewrite (inf_pattern_F32 _ b) by done. fold b'.
      apply returns_pure, ieee_add_inf_r; [apply _|by rewrite Hn', HnB|done|by rewrite Hi', HiB].
    + apply Hnan. rewrite HnA, HnB. destruct (Z.eqb_spec (frac F32 b) 0); done || lia.
Qed.
Lemma shifted_big_F32 c : expo F32 c <> 0 ->
  2 ^ 29 <= shifted F32 6 c < 2 ^ 30.
Proof.
  intros Hc. rewrite shifted_normal by (apply _ || done). pose proof (frac_lt_F32 c).
  cbn [prec F32]. change (24 - 1) with 23. lia.
Qed.

Lemma shifted_even_F32 c : expo F32 c <> 0 -> Z.even (shifted F32 6 c) = true.
Proof.
  intros Hc. rewrite shifted_normal by (apply _ || done).
  replace (2 ^ 6) with (2 * 2 ^ (6 - 1)) by done. rewrite Z.mul_assoc, (Z.mul_comm _ 2), <-Z.mul_assoc.
  apply Z.even_even.
Qed.

(** A sum of finite magnitudes. *)
Lemma addMagsF32_finite :
  expo F32 a <> 255 -> expo F32 b <> 255 ->
  let s := sign_of F32 a in
  let x := (absval F32 a + absval F32 b)%R in
  returns (softfloat_addMagsF32 a b  st)
    (fun u fl => (x = 0%R /\ u = zero F32 s /\ fl = 0) \/ ((0 < x)%R /\ rounded F32 m s x u fl)) st.
Proof.
  intros HA HB s x. unfold softfloat_addMagsF32.
  rewrite !expF32UI_expo, !fracF32UI_frac, !signF32UI_sign by done. cbv zeta. fold s.
  pose proof (expo_lt_F32 a). pose proof (expo_lt_F32 b).
  pose proof (frac_lt_F32 a). pose proof (frac_lt_F32 b).
  rewrite (proj2 (Z.eqb_neq (expo F32 a) 255)), (proj2 (Z.eqb_neq (expo F32 b) 255)) by done.
  assert (forall P Q : Z -> Z -> Prop, (0 < x)%R -> forall r, returns r Q st ->
    (forall u fl, Q u fl -> P u fl) -> returns r (fun u fl => (x = 0%R /\ u = zero F32 s /\ fl = 0) \/
      ((0 < x)%R /\ P u fl)) st) as Hret.
  { intros P Q Hx r Hr HPQ. eapply returns_mono; [exact Hr|]. intros u fl HQ. right. auto. }
  destruct (Z.eqb_spec (expo F32 a - expo F32 b) 0) as [Hd|Hd].
  - assert (expo F32 b = expo F32 a) as Hba by lia.
    destruct (Z.eqb_spec (expo F32 a) 0) as [E|E].
    + assert (x = IZR (frac F32 a + frac F32 b) * bpow (0 + emin F32))%R as Hx.
      { unfold x, absval. rewrite !decide_True by congruence. rewrite plus_IZR, Z.add_0_l. lra. }
      assert (a + frac F32 b = signed F32 s (0 * 2 ^ 23 + (frac F32 a + frac F32 b))) as ->.
      { rewrite (signed_eta F32 a Ha) at 1. rewrite (mag_eq F32 a), E. unfold signed. fold s. lia. }
      rewrite u32_id by (apply signed_F32_range; lia). apply returns_pure.
      destruct (decide (frac F32 a + frac F32 b = 0)) as [Hz|Hz].
      * left. rewrite Hx, Hz. split; [lra|done].
      * right. assert (0 < x)%R by (rewrite Hx; apply Rmult_lt_0_compat; [apply IZR_lt; lia|apply bpow_gt_0]).
        split; [done|]. apply (rounded_exact F32 m s 0);
          [done|cbn [prec F32]; lia|by left|unfold inf_mag; cbn [prec ewidth F32]; lia|done].
    + set (S := 16777216 + frac F32 a + frac F32 b).
      assert (x = IZR S * bpow (expo F32 a - 1 + emin F32))%R as Hx.
      { unfold x, absval. rewrite !decide_False by congruence. rewrite Hba. cbn [prec F32].
        replace S with (2 ^ 23 + frac F32 a + (2 ^ 23 + frac F32 b)) by (unfold S; lia).
        change (24 - 1) with 23. rewrite (plus_IZR (_ + _) (_ + _)). lra. }
      assert (2 ^ 24 <= S < 2 * 2 ^ 24) as HS by (unfold S; lia). clearbody S.
      assert (0 < x)%R by (rewrite Hx; apply Rmult_lt_0_compat; [apply IZR_lt; lia|apply bpow_gt_0]).
      destruct ((Z.land S 1 =? 0) && (expo F32 a <? 254)) eqn:Ef.
      { apply andb_true_iff in Ef as [Ef1%Z.eqb_eq Ef2%Z.ltb_lt]. rewrite land_1 in Ef1.
        rewrite Z.shiftr_div_pow2 by lia. change (2 ^ 1) with 2.
        assert (S = S / 2 * 2 ^ 1 /\ 2 ^ 23 <= S / 2 < 2 ^ 24) as [HS2 HSr] by divlia.
        rewrite packF32 by lia. rewrite u32_id by (apply signed_F32_range; lia).
        apply returns_pure. right. split; [done|].
        apply (rounded_exact F32 m s); [lia|cbn [prec F32]; lia|right; cbn [prec F32]; lia|
          unfold inf_mag; cbn [prec ewidth F32]; lia|].
        rewrite HS2 in Hx. rewrite Hx, IZR_bpow, Rmult_assoc, <-bpow_add by lia.
        do 2 f_equal. lia. }
      rewrite Z.shiftl_mul_pow2 by lia.
      eapply (Hret _ (rounded F32 m s x)); [done| |done].
      apply (roundPackToF32_rounded m _ _ _ (IZR (S * 2 ^ 6))); [done|lia|lia| |].
      * apply (agrees_mono 0); [lia|]. apply agrees_exact.
      * rewrite Hx, IZR_bpow, Rmult_assoc, <-bpow_add by lia. do 2 f_equal. lia.
  - rewrite !Z.shiftl_mul_pow2 by done.
    pose proof (shifted_range F32 6 a ltac:(lia)) as HSa. pose proof (shifted_range F32 6 b ltac:(lia)) as HSb.
    cbn [prec F32] in HSa, HSb. change (24 + 6) with 30 in *.
    destruct (Z.ltb_spec (expo F32 a - expo F32 b) 0) as [Hlt|Hge].
    + destruct (absval_apart F32 6 b a ltac:(lia)) as [Eb Ea]. change (6 + 1) with 7 in Ea, Eb.
      pose proof (shifted_normal F32 6 b ltac:(lia)) as HN. cbn [prec F32] in HN. change (24 - 1) with 23 in HN.
      assert (frac F32 a * 2 ^ 6 + (if negb (expo F32 a =? 0) then 536870912 else frac F32 a * 2 ^ 6) = shifted F32 6 a) as ->.
      { unfold shifted. cbn [prec F32]. destruct (Z.eqb_spec (expo F32 a) 0); cbn [negb]; lia. }
      rewrite shiftRightJam32_jam by lia.
      replace (- (expo F32 a - expo F32 b)) with (expo F32 b - expo F32 a) by lia.
      pose proof (finish_addF32 m s (expo F32 b) _ _ (expo F32 b - expo F32 a) st Hst ltac:(lia)
        (shifted_big_F32 b ltac:(lia)) (shifted_even_F32 b ltac:(lia)) HSa ltac:(lia)) as Hfin.
      cbv zeta in Hfin. rewrite Z.shiftl_mul_pow2 in Hfin by lia.
      set (J := jam_shift _ _) in *.
      assert (0 <= J <= 2 ^ 29) as HJ by (apply jam_shift_range; lia).
      replace (536870912 + J + frac F32 b * 2 ^ 6) with (shifted F32 6 b + J) by lia.
      assert (x = (IZR (shifted F32 6 b) + IZR (shifted F32 6 a) * bpow (- (expo F32 b - expo F32 a))) *
        bpow (expo F32 b - 7 + emin F32))%R as Hx by (unfold x; rewrite Ea, Eb; lra).
      eapply (Hret _ _); [|exact Hfin|intros u fl; by rewrite Hx].
      rewrite Hx. by apply scaled_sum_pos; [lia|lia].
    + destruct (absval_apart F32 6 a b ltac:(lia)) as [Ea Eb]. change (6 + 1) with 7 in Ea, Eb.
      pose proof (shifted_normal F32 6 a ltac:(lia)) as HN. cbn [prec F32] in HN. change (24 - 1) with 23 in HN.
      assert (frac F32 b * 2 ^ 6 + (if negb (expo F32 b =? 0) then 536870912 else frac F32 b * 2 ^ 6) = shifted F32 6 b) as ->.
      { unfold shifted. cbn [prec F32]. destruct (Z.eqb_spec (expo F32 b) 0); cbn [negb]; lia. }
      rewrite shiftRightJam32_jam by lia.
      pose proof (finish_addF32 m s (expo F32 a) _ _ (expo F32 a - expo F32 b) st Hst ltac:(lia)
        (shifted_big_F32 a ltac:(lia)) (shifted_even_F32 a ltac:(lia)) HSb ltac:(lia)) as Hfin.
      cbv zeta in Hfin. rewrite Z.shiftl_mul_pow2 in Hfin by lia.
      set (J := jam_shift _ _) in *.
      assert (0 <= J <= 2 ^ 29) as HJ by (apply jam_shift_range; lia).
      replace (536870912 + frac F32 a * 2 ^ 6 + J) with (shifted F32 6 a + J) by lia.
      assert (x = (IZR (shifted F32 6 a) + IZR (shifted F32 6 b) * bpow (- (expo F32 a - expo F32 b))) *
        bpow (expo F32 a - 7 + emin F32))%R as Hx by (unfold x; rewrite Ea, Eb; lra).
      eapply (Hret _ _); [|exact Hfin|intros u fl; by rewrite Hx].
      rewrite Hx. by apply scaled_sum_pos; [lia|lia].
Qed.
(** ** Differences *)

(** A difference of infinities or NaNs, the second operand taken with the
    opposite sign. *)
Lemma subMagsF32_special :
  expo F32 a = 255 \/ expo F32 b = 255 ->
  returns (softfloat_subMagsF32 a b  st)
    (ieee_add F32 m a (signed F32 (negb (sign_of F32 a)) (mag F32 b))) st.
Proof.
  intros He. unfold softfloat_subMagsF32.
  rewrite !expF32UI_expo, !fracF32UI_frac, !signF32UI_sign by done. cbv zeta.
  destruct (with_sign F32 (negb (sign_of F32 a)) b) as (Hp' & Hs' & _ & He' & Hf' & Hn' & Hsn' & Hi' & _).
  pose proof (expo_lt_F32 a). pose proof (expo_lt_F32 b).
  pose proof (frac_lt_F32 a). pose proof (frac_lt_F32 b).
  set (b' := signed F32 (negb (sign_of F32 a)) (mag F32 b)) in *.
  pose proof (is_nan_fields F32 a) as HnA. pose proof (is_inf_fields F32 a) as HiA.
  pose proof (is_finite_fields F32 a) as HfA. pose proof (is_nan_fields F32 b) as HnB.
  pose proof (is_inf_fields F32 b) as HiB. cbn [ewidth F32] in *. change (2 ^ 8 - 1) with 255 in *.
  assert (is_nan F32 a || is_nan F32 b = true ->
    returns (let '(uiZ, st) := softfloat_propagateNaNF32UI a b st in (u32 uiZ, st))
      (ieee_add F32 m a b') st) as Hnan.
  { intros Hn. apply propagateNaNF32UI_returns. rewrite <-Hsn'.
    apply ieee_add_nan. by rewrite Hn'. }
  rewrite !Z.shiftl_mul_pow2 by done.
  destruct (Z.eqb_spec (expo F32 a) 255) as [E|E]; cbn [andb negb] in HnA, HiA, HfA.
  - rewrite E in *. destruct (Z.eqb_spec (255 - expo F32 b) 0) as [Hd|Hd].
    + rewrite (proj2 (Z.eqb_eq (expo F32 b) 255)) in * by lia. cbn [andb negb] in HnB, HiB.
      destruct (Z.eqb_spec (Z.lor (frac F32 a) (frac F32 b)) 0) as [Hz|Hz]; cbn [negb].
      * apply Z.lor_eq_0_iff in Hz as [Hz1 Hz2]. rewrite Hz1, Hz2 in *.
        apply returns_raise. unfold ieee_add. rewrite Hn', Hi', HnA, HnB, HiA, HiB, Hs'.
        by destruct (sign_of F32 a).
      * apply Hnan. rewrite HnA, HnB. rewrite Z.lor_eq_0_iff in Hz.
        destruct (Z.eqb_spec (frac F32 a) 0), (Z.eqb_spec (frac F32 b) 0); done || tauto.
    + rewrite (proj2 (Z.ltb_ge (255 - expo F32 b) 0)) by lia.
      rewrite (proj2 (Z.eqb_neq (expo F32 b) 255)) in * by lia. cbn [andb negb] in HnB, HiB.
      destruct (Z.eqb_spec (frac F32 a * 2 ^ 7) 0) as [Hz|Hz]; cbn [negb].
      * assert (frac F32 a = 0) as Hz1 by lia. rewrite Hz1 in *.
        rewrite u32_pattern by done.
        apply returns_pure, ieee_add_inf_l; try done; [by rewrite Hn', HnB|right; by rewrite Hi', HiB].
      * apply Hnan. rewrite HnA, HnB. destruct (Z.eqb_spec (frac F32 a) 0); done || lia.
  - destruct He as [|E2]; [done|]. rewrite E2 in *. cbn [andb negb] in *.
    replace (255 =? 255) with true in * by done. cbn [andb negb] in *.
    rewrite (proj2 (Z.eqb_neq (expo F32 a - 255) 0)), (proj2 (Z.ltb_lt (expo F32 a - 255) 0)) by lia.
    destruct (Z.eqb_spec (frac F32 b * 2 ^ 7) 0) as [Hz|Hz]; cbn [negb].
    + assert (frac F32 b = 0) as Hz1 by lia. rewrite Hz1 in *.
      rewrite (inf_pattern_F32 _ b) by done. fold b'.
      apply returns_pure, ieee_add_inf_r; [apply _|by rewrite Hn', HnB|done|by rewrite Hi', HiB].
    + apply Hnan. rewrite HnA, HnB. destruct (Z.eqb_spec (frac F32 b) 0); done || lia.
Qed.

(** A difference of equal exponents is exact. *)
Lemma cancel_F32 sgn D e :
  0 < D < 2 ^ 23 -> 0 <= e <= 253 + 1 ->
  returns
    (let shiftDist := s8 (softfloat_countLeadingZeros32 D - 8) in
     let expZ := e - shiftDist in
     let '(shiftDist, expZ) := if expZ <? 0 then (s8 e, 0) else (shiftDist, expZ) in
     (u32 (packToF32UI sgn expZ (Z.shiftl D shiftDist)), st))
    (rounded F32 m sgn (IZR D * bpow (e + emin F32))%R) st.
Proof.
  intros HD He. rewrite countLeadingZeros32_log2 by lia. pose proof (Z.log2_spec D ltac:(lia)) as Hl.
  assert (0 <= Z.log2 D < 23) by (split; [apply Z.log2_nonneg|apply Z.log2_lt_pow2; lia]).
  replace (31 - Z.log2 D - 8) with (23 - Z.log2 D) by lia. set (d := 23 - Z.log2 D).
  assert (s8 d = d) as -> by (unfold s8; rewrite Z.mod_small; lia). cbv zeta.
  rewrite Z.pow_succ_r in Hl by lia.
  assert (forall k, 0 <= k <= d -> D * 2 ^ k < 2 ^ 24 /\ (k = d -> 2 ^ 23 <= D * 2 ^ k)) as Hk.
  { intros k Hk. assert (2 ^ k <= 2 ^ d) by (apply Z.pow_le_mono_r; lia).
    pose proof (Z.pow_pos_nonneg 2 k ltac:(lia) ltac:(lia)).
    assert (2 ^ 23 = 2 ^ Z.log2 D * 2 ^ d) by (rewrite <-Z.pow_add_r by lia; f_equal; lia).
    change (2 ^ 24) with (2 * 2 ^ 23). split; [nia|]. intros ->. nia. }
  assert (forall k, 0 <= k <= d -> 0 <= e - k -> k = d \/ e - k = 0 ->
    returns (u32 (packToF32UI sgn (e - k) (Z.shiftl D k)), st)
      (rounded F32 m sgn (IZR D * bpow (e + emin F32))%R) st) as Hpack.
  { intros k Hkd Hek Hor. destruct (Hk k Hkd) as [Hlt Hge].
    assert (0 < D * 2 ^ k) by (apply Z.mul_pos_pos; [lia|apply Z.pow_pos_nonneg; lia]).
    rewrite Z.shiftl_mul_pow2 by lia. rewrite packF32 by lia.
    rewrite u32_id by (apply signed_F32_range; lia). apply returns_pure.
    apply (rounded_exact F32 m sgn);
      [lia|cbn [prec F32]; lia|cbn [prec F32]; change (24 - 1) with 23; lia
      |unfold inf_mag; cbn [prec ewidth F32]; lia|].
    rewrite IZR_bpow, Rmult_assoc, <-bpow_add by lia. do 2 f_equal. lia. }
  destruct (Z.ltb_spec (e - d) 0) as [Hn|Hn].
  - assert (s8 e = e) as -> by (unfold s8; rewrite Z.mod_small; lia).
    replace 0 with (e - e) at 1 by lia. apply Hpack; lia.
  - apply Hpack; lia.
Qed.

Lemma shifted_sub_F32 c : expo F32 c <> 0 ->
  Z.lor (frac F32 c * 2 ^ 7) 1073741824 = shifted F32 7 c /\
  2 ^ 30 <= shifted F32 7 c < 2 ^ 31.
Proof.
  intros Hc. rewrite shifted_normal by (apply _ || done). pose proof (frac_lt_F32 c).
  cbn [prec F32]. change (24 - 1) with 23. rewrite Z.lor_comm.
  rewrite (lor_disjoint 1 _ 30) by lia. lia.
Qed.

Lemma shifted_even'_F32 c :
  Z.even (shifted F32 7 c) = true /\ 0 <= shifted F32 7 c < 2 ^ 31 - 2.
Proof.
  pose proof (frac_lt_F32 c). unfold shifted. cbn [prec F32]. change (24 - 1) with 23.
  destruct (Z.eqb_spec (expo F32 c) 0); (split; [|lia]).
  - replace (2 ^ (7 + 1)) with (2 * 2 ^ 7) by done.
    rewrite Z.mul_assoc, (Z.mul_comm _ 2), <-Z.mul_assoc. apply Z.even_even.
  - replace (2 ^ 7) with (2 * 2 ^ (7 - 1)) by done.
    rewrite Z.mul_assoc, (Z.mul_comm _ 2), <-Z.mul_assoc. apply Z.even_even.
Qed.

(** A difference of finite magnitudes. *)
Lemma subMagsF32_finite :
  expo F32 a <> 255 -> expo F32 b <> 255 ->
  let s := sign_of F32 a in
  let r := (absval F32 a - absval F32 b)%R in
  returns (softfloat_subMagsF32 a b  st)
    (fun u fl =>
       (r = 0%R /\ u = zero F32 (match m with RDN => true | _ => false end) /\ fl = 0) \/
       ((0 < r)%R /\ rounded F32 m s r u fl) \/
       ((r < 0)%R /\ rounded F32 m (negb s) (- r) u fl)) st.
Proof.
  intros HA HB s r. unfold softfloat_subMagsF32.
  rewrite !expF32UI_expo, !fracF32UI_frac, !signF32UI_sign by done. fold s.
  pose proof (expo_lt_F32 a). pose proof (expo_lt_F32 b).
  pose proof (frac_lt_F32 a). pose proof (frac_lt_F32 b).
  rewrite (proj2 (Z.eqb_neq (expo F32 a) 255)), (proj2 (Z.eqb_neq (expo F32 b) 255)) by done.
  destruct (Z.eqb_spec (expo F32 a - expo F32 b) 0) as [Hd|Hd].
  - assert (expo F32 b = expo F32 a) as Hba by lia.
    set (e := if negb (expo F32 a =? 0) then expo F32 a - 1 else expo F32 a).
    assert (0 <= e <= 253 + 1) as He by (unfold e; destruct (Z.eqb_spec (expo F32 a) 0); cbn [negb]; lia).
    assert (r = IZR (frac F32 a - frac F32 b) * bpow (e + emin F32))%R as Hr.
    { unfold r, e, absval. rewrite Hba, minus_IZR. destruct (Z.eqb_spec (expo F32 a) 0) as [E|E]; cbn [negb].
      - rewrite !decide_True, E, Z.add_0_l by done. lra.
      - rewrite !decide_False, !plus_IZR by done. lra. }
    cbv zeta. destruct (Z.eqb_spec (frac F32 a - frac F32 b) 0) as [Hz|Hz].
    + apply returns_pure. left. split; [rewrite Hr, Hz; lra|]. split; [|done].
      destruct Hst as [-> _]. rewrite packF32 by lia. rewrite u32_id by (apply signed_F32_range; lia).
      by destruct m.
    + fold e. destruct (Z.ltb_spec (frac F32 a - frac F32 b) 0) as [Hn|Hn].
      * eapply returns_mono; [apply (cancel_F32 (negb s) (- (frac F32 a - frac F32 b)) e); lia|].
        intros u fl Hu. right; right. rewrite opp_IZR, Ropp_mult_distr_l_reverse, <-Hr in Hu. split; [|done].
        rewrite Hr. pose proof (bpow_gt_0 (e + emin F32)). apply IZR_lt in Hn. nra.
      * eapply returns_mono; [apply (cancel_F32 s (frac F32 a - frac F32 b) e); lia|].
        intros u fl Hu. right; left. rewrite <-Hr in Hu. split; [|done].
        rewrite Hr. apply Rmult_lt_0_compat; [apply IZR_lt; lia|apply bpow_gt_0].
  - cbv zeta. rewrite !Z.shiftl_mul_pow2 by done.
    destruct (shifted_even'_F32 a) as [HevA HSA], (shifted_even'_F32 b) as [HevB HSB].
    destruct (Z.ltb_spec (expo F32 a - expo F32 b) 0) as [Hlt|Hge].
    + destruct (absval_apart F32 7 b a ltac:(lia)) as [Eb Ea].
      destruct (shifted_sub_F32 b ltac:(lia)) as [-> Hbig].
      assert (frac F32 a * 2 ^ 7 + (if negb (expo F32 a =? 0) then 1073741824 else frac F32 a * 2 ^ 7) = shifted F32 7 a) as ->.
      { unfold shifted. cbn [prec F32]. destruct (Z.eqb_spec (expo F32 a) 0); cbn [negb]; lia. }
      rewrite shiftRightJam32_jam by lia.
      replace (- (expo F32 a - expo F32 b)) with (expo F32 b - expo F32 a) by lia.
      destruct (finish_subF32 m (negb s) (expo F32 b) _ (shifted F32 7 a) (expo F32 b - expo F32 a) st Hst
        ltac:(lia) Hbig HevB HSA HevA ltac:(lia)) as [Hpos Hres].
      assert (- r = (IZR (shifted F32 7 b) - IZR (shifted F32 7 a) * bpow (- (expo F32 b - expo F32 a))) *
        bpow (expo F32 b - 1 - 7 + emin F32))%R as Hr.
      { unfold r. rewrite Ea, Eb.
        replace (expo F32 b - 1 - 7 + emin F32) with (expo F32 b - (7 + 1) + emin F32) by lia. lra. }
      eapply returns_mono; [exact Hres|]. intros u fl Hu. right; right. rewrite <-Hr in *. split; [lra|done].
    + destruct (absval_apart F32 7 a b ltac:(lia)) as [Ea Eb].
      destruct (shifted_sub_F32 a ltac:(lia)) as [-> Hbig].
      assert (frac F32 b * 2 ^ 7 + (if negb (expo F32 b =? 0) then 1073741824 else frac F32 b * 2 ^ 7) = shifted F32 7 b) as ->.
      { unfold shifted. cbn [prec F32]. destruct (Z.eqb_spec (expo F32 b) 0); cbn [negb]; lia. }
      rewrite shiftRightJam32_jam by lia.
      destruct (finish_subF32 m s (expo F32 a) _ (shifted F32 7 b) (expo F32 a - expo F32 b) st Hst
        ltac:(lia) Hbig HevA HSB HevB ltac:(lia)) as [Hpos Hres].
      assert (r = (IZR (shifted F32 7 a) - IZR (shifted F32 7 b) * bpow (- (expo F32 a - expo F32 b))) *
        bpow (expo F32 a - 1 - 7 + emin F32))%R as Hr.
      { unfold r. rewrite Ea, Eb.
        replace (expo F32 a - 1 - 7 + emin F32) with (expo F32 a - (7 + 1) + emin F32) by lia. lra. }
      eapply returns_mono; [exact Hres|]. intros u fl Hu. right; left. rewrite <-Hr in *. split; [lra|done].
Qed.
Lemma not_special_F32 c : expo F32 c <> 255 -> is_finite F32 c = true.
Proof. intros Hc. rewrite is_finite_fields by apply _. by apply negb_true_iff, Z.eqb_neq. Qed.

Lemma addMagsF32_ieee :
  returns (softfloat_addMagsF32 a b  st)
    (ieee_add F32 m a (signed F32 (sign_of F32 a) (mag F32 b))) st.
Proof.
  destruct (decide (expo F32 a = 255)); [apply addMagsF32_special; by left|].
  destruct (decide (expo F32 b = 255)); [apply addMagsF32_special; by right|].
  eapply returns_mono; [by apply addMagsF32_finite|]. cbv zeta. intros u fl Hu.
  destruct (with_sign F32 (sign_of F32 a) b) as (_ & Hs' & _ & _ & _ & _ & _ & _ & Hfi' & Hav').
  set (b' := signed F32 (sign_of F32 a) (mag F32 b)) in *.
  assert (is_finite F32 b' = true) by (rewrite Hfi'; by apply not_special_F32).
  assert (value F32 a + value F32 b' = (if sign_of F32 a then - (absval F32 a + absval F32 b)
    else absval F32 a + absval F32 b))%R as Hv.
  { unfold value. rewrite Hs', Hav'. destruct (sign_of F32 a); lra. }
  destruct Hu as [(Hz & -> & ->)|[Hx Hr]].
  - apply ieee_add_zero; [apply _|by apply not_special_F32|done| |by rewrite Hs', eqb_reflx].
    rewrite Hv, Hz. destruct (sign_of F32 a); lra.
  - by eapply ieee_add_finite; [apply _|apply not_special_F32| |exact Hv| |].
Qed.

Lemma subMagsF32_ieee :
  returns (softfloat_subMagsF32 a b  st)
    (ieee_add F32 m a (signed F32 (negb (sign_of F32 a)) (mag F32 b))) st.
Proof.
  destruct (decide (expo F32 a = 255)); [apply subMagsF32_special; by left|].
  destruct (decide (expo F32 b = 255)); [apply subMagsF32_special; by right|].
  eapply returns_mono; [by apply subMagsF32_finite|]. cbv zeta. intros u fl Hu.
  destruct (with_sign F32 (negb (sign_of F32 a)) b) as (_ & Hs' & _ & _ & _ & _ & _ & _ & Hfi' & Hav').
  set (b' := signed F32 (negb (sign_of F32 a)) (mag F32 b)) in *.
  assert (is_finite F32 b' = true) by (rewrite Hfi'; by apply not_special_F32).
  set (r := (absval F32 a - absval F32 b)%R) in *.
  assert (value F32 a + value F32 b' = if sign_of F32 a then - r else r)%R as Hv.
  { unfold value, r. rewrite Hs', Hav'. destruct (sign_of F32 a); simpl; lra. }
  destruct Hu as [(Hz & -> & ->)|[[Hx Hr]|[Hx Hr]]].
  - apply ieee_add_zero; [apply _|by apply not_special_F32|done| |].
    + rewrite Hv, Hz. destruct (sign_of F32 a); lra.
    + rewrite Hs'. by destruct (sign_of F32 a).
  - by eapply ieee_add_finite; [apply _|apply not_special_F32| |exact Hv| |].
  - eapply ieee_add_finite; [apply _|by apply not_special_F32|done| | |exact Hr]; [|lra].
    rewrite Hv. destruct (sign_of F32 a); simpl; lra.
Qed.
End MagsF32.

(** ** Magnitudes, F64 *)

Section MagsF64.
Context (m : mode) (a b : Z) (st : softfloat_state).
Hypothesis Hst : in_mode m st.
Hypothesis Ha : is_pattern F64 a.
Hypothesis Hb : is_pattern F64 b.

Lemma u64_pattern c : is_pattern F64 c -> u64 c = c.
Proof. intros Hc. apply u64_id, Hc. Qed.

Lemma frac_lt_F64 c : 0 <= frac F64 c < 2 ^ 52.
Proof. apply (frac_range F64). Qed.
Lemma expo_lt_F64 c : 0 <= expo F64 c <= 2047.
Proof. pose proof (expo_range F64 c). cbn in *. lia. Qed.

Lemma inf_pattern_F64 s c : expo F64 c = 2047 -> frac F64 c = 0 ->
  u64 (packToF64UI s 2047 0) = signed F64 s (mag F64 c).
Proof.
  intros E E0. rewrite packF64 by lia. rewrite (mag_eq F64), E, E0.
  apply u64_id, signed_F64_range. cbn [prec F64]. lia.
Qed.

(** A sum with an infinity or a NaN, the other operand taken with sign [s]. *)
Lemma addMagsF64_special :
  expo F64 a = 2047 \/ expo F64 b = 2047 ->
  returns (softfloat_addMagsF64 a b (sign_of F64 a) st)
    (ieee_add F64 m a (signed F64 (sign_of F64 a) (mag F64 b))) st.
Proof.
  intros He. unfold softfloat_addMagsF64.
  rewrite !expF64UI_expo, !fracF64UI_frac. cbv zeta.
  destruct (with_sign F64 (sign_of F64 a) b) as (Hp' & Hs' & _ & He' & Hf' & Hn' & Hsn' & Hi' & _).
  pose proof (expo_lt_F64 a). pose proof (expo_lt_F64 b).
  pose proof (frac_lt_F64 a). pose proof (frac_lt_F64 b).
  set (b' := signed F64 (sign_of F64 a) (mag F64 b)) in *.
  pose proof (is_nan_fields F64 a) as HnA. pose proof (is_inf_fields F64 a) as HiA.
  pose proof (is_finite_fields F64 a) as HfA. pose proof (is_nan_fields F64 b) as HnB.
  pose proof (is_inf_fields F64 b) as HiB. cbn [ewidth F64] in *. change (2 ^ 11 - 1) with 2047 in *.
  assert (is_nan F64 a || is_nan F64 b = true ->
    returns (let '(uiZ, st) := softfloat_propagateNaNF64UI a b st in (u64 uiZ, st))
      (ieee_add F64 m a b') st) as Hnan.
  { intros Hn. apply propagateNaNF64UI_returns. rewrite <-Hsn'.
    apply ieee_add_nan. by rewrite Hn'. }
  destruct (Z.eqb_spec (expo F64 a) 2047) as [E|E]; cbn [andb negb] in HnA, HiA, HfA.
  - rewrite E in *. replace (2047 =? 0) with false by done.
    destruct (Z.eqb_spec (2047 - expo F64 b) 0) as [Hd|Hd].
    + rewrite (proj2 (Z.eqb_eq (expo F64 b) 2047)) in * by lia. cbn [andb negb] in HnB, HiB.
      destruct (Z.eqb_spec (Z.lor (frac F64 a) (frac F64 b)) 0) as [Hz|Hz]; cbn [negb].
      * apply Z.lor_eq_0_iff in Hz as [Hz1 Hz2]. rewrite Hz1, Hz2 in *.
        rewrite u64_pattern by done. apply returns_pure, ieee_add_inf_l; try done; [by rewrite Hn', HnB|by left].
      * apply Hnan. rewrite HnA, HnB. rewrite Z.lor_eq_0_iff in Hz.
        destruct (Z.eqb_spec (frac F64 a) 0), (Z.eqb_spec (frac F64 b) 0); done || tauto.
    + rewrite (proj2 (Z.ltb_ge (2047 - expo F64 b) 0)) by lia.
      rewrite (proj2 (Z.eqb_neq (expo F64 b) 2047)) in * by lia. cbn [andb negb] in HnB, HiB.
      rewrite Z.shiftl_mul_pow2 by done.
      destruct (Z.eqb_spec (frac F64 a * 2 ^ 9) 0) as [Hz|Hz]; cbn [negb].
      * assert (frac F64 a = 0) as Hz1 by lia. rewrite Hz1 in *.
        rewrite u64_pattern by done. apply returns_pure, ieee_add_inf_l; try done; [by rewrite Hn', HnB|right; by rewrite Hi', HiB].
      * apply Hnan. rewrite HnA, HnB. destruct (Z.eqb_spec (frac F64 a) 0); done || lia.
  - destruct He as [|E2]; [done|]. rewrite E2 in *. cbn [andb negb] in *.
    replace (2047 =? 2047) with true in * by done. cbn [andb negb] in *.
    rewrite (proj2 (Z.eqb_neq (expo F64 a - 2047) 0)), (proj2 (Z.ltb_lt (expo F64 a - 2047) 0)) by lia.
    rewrite Z.shiftl_mul_pow2 by done.
    destruct (Z.eqb_spec (frac F64 b * 2 ^ 9) 0) as [Hz|Hz]; cbn [negb].
    + assert (frac F64 b = 0) as Hz1 by lia. rewrite Hz1 in *.
      rewrite (inf_pattern_F64 _ b) by done. fold b'.
      apply returns_pure, ieee_add_inf_r; [apply _|by rewrite Hn', HnB|done|by rewrite Hi', HiB].
    + apply Hnan. rewrite HnA, HnB. destruct (Z.eqb_spec (frac F64 b) 0); done || lia.
Qed.
Lemma shifted_big_F64 c : expo F64 c <> 0 ->
  2 ^ 61 <= shifted F64 9 c < 2 ^ 62.
Proof.
  intros Hc. rewrite shifted_normal by (apply _ || done). pose proof (frac_lt_F64 c).
  cbn [prec F64]. change (53 - 1) with 52. lia.
Qed.

Lemma shifted_even_F64 c : expo F64 c <> 0 -> Z.even (shifted F64 9 c) = true.
Proof.
  intros Hc. rewrite shifted_normal by (apply _ || done).
  replace (2 ^ 9) with (2 * 2 ^ (9 - 1)) by done. rewrite Z.mul_assoc, (Z.mul_comm _ 2), <-Z.mul_assoc.
  apply Z.even_even.
Qed.

(** A sum of finite magnitudes. *)
Lemma addMagsF64_finite :
  expo F64 a <> 2047 -> expo F64 b <> 2047 ->
  let s := sign_of F64 a in
  let x := (absval F64 a + absval F64 b)%R in
  returns (softfloat_addMagsF64 a b (sign_of F64 a) st)
    (fun u fl => (x = 0%R /\ u = zero F64 s /\ fl = 0) \/ ((0 < x)%R /\ rounded F64 m s x u fl)) st.
Proof.
  intros HA HB s x. unfold softfloat_addMagsF64.
  rewrite !expF64UI_expo, !fracF64UI_frac. cbv zeta. fold s.
  pose proof (expo_lt_F64 a). pose proof (expo_lt_F64 b).
  pose proof (frac_lt_F64 a). pose proof (frac_lt_F64 b).
  rewrite (proj2 (Z.eqb_neq (expo F64 a) 2047)), (proj2 (Z.eqb_neq (expo F64 b) 2047)) by done.
  assert (forall P Q : Z -> Z -> Prop, (0 < x)%R -> forall r, returns r Q st ->
    (forall u fl, Q u fl -> P u fl) -> returns r (fun u fl => (x = 0%R /\ u = zero F64 s /\ fl = 0) \/
      ((0 < x)%R /\ P u fl)) st) as Hret.
  { intros P Q Hx r Hr HPQ. eapply returns_mono; [exact Hr|]. intros u fl HQ. right. auto. }
  destruct (Z.eqb_spec (expo F64 a - expo F64 b) 0) as [Hd|Hd].
  - assert (expo F64 b = expo F64 a) as Hba by lia.
    destruct (Z.eqb_spec (expo F64 a) 0) as [E|E].
    + assert (x = IZR (frac F64 a + frac F64 b) * bpow (0 + emin F64))%R as Hx.
      { unfold x, absval. rewrite !decide_True by congruence. rewrite plus_IZR, Z.add_0_l. lra. }
      assert (a + frac F64 b = signed F64 s (0 * 2 ^ 52 + (frac F64 a + frac F64 b))) as ->.
      { rewrite (signed_eta F64 a Ha) at 1. rewrite (mag_eq F64 a), E. unfold signed. fold s. lia. }
      rewrite u64_id by (apply signed_F64_range; lia). apply returns_pure.
      destruct (decide (frac F64 a + frac F64 b = 0)) as [Hz|Hz].
      * left. rewrite Hx, Hz. split; [lra|done].
      * right. assert (0 < x)%R by (rewrite Hx; apply Rmult_lt_0_compat; [apply IZR_lt; lia|apply bpow_gt_0]).
        split; [done|]. apply (rounded_exact F64 m s 0);
          [done|cbn [prec F64]; lia|by left|unfold inf_mag; cbn [prec ewidth F64]; lia|done].
    + set (S := 9007199254740992 + frac F64 a + frac F64 b).
      assert (x = IZR S * bpow (expo F64 a - 1 + emin F64))%R as Hx.
      { unfold x, absval. rewrite !decide_False by congruence. rewrite Hba. cbn [prec F64].
        replace S with (2 ^ 52 + frac F64 a + (2 ^ 52 + frac F64 b)) by (unfold S; lia).
        change (53 - 1) with 52. rewrite (plus_IZR (_ + _) (_ + _)). lra. }
      assert (2 ^ 53 <= S < 2 * 2 ^ 53) as HS by (unfold S; lia). clearbody S.
      assert (0 < x)%R by (rewrite Hx; apply Rmult_lt_0_compat; [apply IZR_lt; lia|apply bpow_gt_0]).
      rewrite Z.shiftl_mul_pow2, u64_id by lia.
      eapply (Hret _ (rounded F64 m s x)); [done| |done].
      apply (roundPackToF64_rounded m _ _ _ (IZR (S * 2 ^ 9))); [done|lia|lia| |].
      * apply (agrees_mono 0); [lia|]. apply agrees_exact.
      * rewrite Hx, IZR_bpow, Rmult_assoc, <-bpow_add by lia. do 2 f_equal. lia.
  - rewrite !Z.shiftl_mul_pow2 by done.
    pose proof (shifted_range F64 9 a ltac:(lia)) as HSa. pose proof (shifted_range F64 9 b ltac:(lia)) as HSb.
    cbn [prec F64] in HSa, HSb. change (53 + 9) with 62 in *.
    destruct (Z.ltb_spec (expo F64 a - expo F64 b) 0) as [Hlt|Hge].
    + destruct (absval_apart F64 9 b a ltac:(lia)) as [Eb Ea]. change (9 + 1) with 10 in Ea, Eb.
      pose proof (shifted_normal F64 9 b ltac:(lia)) as HN. cbn [prec F64] in HN. change (53 - 1) with 52 in HN.
      assert ((if negb (expo F64 a =? 0) then u64 (frac F64 a * 2 ^ 9 + 2305843009213693952) else u64 (frac F64 a * 2 ^ 9 * 2 ^ 1)) = shifted F64 9 a) as ->.
      { unfold shifted. cbn [prec F64]. destruct (Z.eqb_spec (expo F64 a) 0); cbn [negb]; rewrite u64_id by lia; lia. }
      rewrite shiftRightJam64_jam by lia.
      replace (- (expo F64 a - expo F64 b)) with (expo F64 b - expo F64 a) by lia.
      pose proof (finish_addF64 m s (expo F64 b) _ _ (expo F64 b - expo F64 a) st Hst ltac:(lia)
        (shifted_big_F64 b ltac:(lia)) (shifted_even_F64 b ltac:(lia)) HSa ltac:(lia)) as Hfin.
      cbv zeta in Hfin. rewrite Z.shiftl_mul_pow2 in Hfin by lia.
      set (J := jam_shift _ _) in *.
      assert (0 <= J <= 2 ^ 61) as HJ by (apply jam_shift_range; lia).
      replace (2305843009213693952 + J + frac F64 b * 2 ^ 9) with (shifted F64 9 b + J) by lia.
      rewrite u64_id by lia. assert (x = (IZR (shifted F64 9 b) + IZR (shifted F64 9 a) * bpow (- (expo F64 b - expo F64 a))) *
        bpow (expo F64 b - 10 + emin F64))%R as Hx by (unfold x; rewrite Ea, Eb; lra).
      eapply (Hret _ _); [|exact Hfin|intros u fl; by rewrite Hx].
      rewrite Hx. by apply scaled_sum_pos; [lia|lia].
    + destruct (absval_apart F64 9 a b ltac:(lia)) as [Ea Eb]. change (9 + 1) with 10 in Ea, Eb.
      pose proof (shifted_normal F64 9 a ltac:(lia)) as HN. cbn [prec F64] in HN. change (53 - 1) with 52 in HN.
      assert ((if negb (expo F64 b =? 0) then u64 (frac F64 b * 2 ^ 9 + 2305843009213693952) else u64 (frac F64 b * 2 ^ 9 * 2 ^ 1)) = shifted F64 9 b) as ->.
      { unfold shifted. cbn [prec F64]. destruct (Z.eqb_spec (expo F64 b) 0); cbn [negb]; rewrite u64_id by lia; lia. }
      rewrite shiftRightJam64_jam by lia.
      pose proof (finish_addF64 m s (expo F64 a) _ _ (expo F64 a - expo F64 b) st Hst ltac:(lia)
        (shifted_big_F64 a ltac:(lia)) (shifted_even_F64 a ltac:(lia)) HSb ltac:(lia)) as Hfin.
      cbv zeta in Hfin. rewrite Z.shiftl_mul_pow2 in Hfin by lia.
      set (J := jam_shift _ _) in *.
      assert (0 <= J <= 2 ^ 61) as HJ by (apply jam_shift_range; lia).
      replace (2305843009213693952 + frac F64 a * 2 ^ 9 + J) with (shifted F64 9 a + J) by lia.
      rewrite u64_id by lia. assert (x = (IZR (shifted F64 9 a) + IZR (shifted F64 9 b) * bpow (- (expo F64 a - expo F64 b))) *
        bpow (expo F64 a - 10 + emin F64))%R as Hx by (unfold x; rewrite Ea, Eb; lra).
      eapply (Hret _ _); [|exact Hfin|intros u fl; by rewrite Hx].
      rewrite Hx. by apply scaled_sum_pos; [lia|lia].
Qed.
(** ** Differences *)

(** A difference of infinities or NaNs, the second operand taken with the
    opposite sign. *)
Lemma subMagsF64_special :
  expo F64 a = 2047 \/ expo F64 b = 2047 ->
  returns (softfloat_subMagsF64 a b (sign_of F64 a) st)
    (ieee_add F64 m a (signed F64 (negb (sign_of F64 a)) (mag F64 b))) st.
Proof.
  intros He. unfold softfloat_subMagsF64.
  rewrite !expF64UI_expo, !fracF64UI_frac. cbv zeta.
  destruct (with_sign F64 (negb (sign_of F64 a)) b) as (Hp' & Hs' & _ & He' & Hf' & Hn' & Hsn' & Hi' & _).
  pose proof (expo_lt_F64 a). pose proof (expo_lt_F64 b).
  pose proof (frac_lt_F64 a). pose proof (frac_lt_F64 b).
  set (b' := signed F64 (negb (sign_of F64 a)) (mag F64 b)) in *.
  pose proof (is_nan_fields F64 a) as HnA. pose proof (is_inf_fields F64 a) as HiA.
  pose proof (is_finite_fields F64 a) as HfA. pose proof (is_nan_fields F64 b) as HnB.
  pose proof (is_inf_fields F64 b) as HiB. cbn [ewidth F64] in *. change (2 ^ 11 - 1) with 2047 in *.
  assert (is_nan F64 a || is_nan F64 b = true ->
    returns (let '(uiZ, st) := softfloat_propagateNaNF64UI a b st in (u64 uiZ, st))
      (ieee_add F64 m a b') st) as Hnan.
  { intros Hn. apply propagateNaNF64UI_returns. rewrite <-Hsn'.
    apply ieee_add_nan. by rewrite Hn'. }
  rewrite !Z.shiftl_mul_pow2 by done.
  destruct (Z.eqb_spec (expo F64 a) 2047) as [E|E]; cbn [andb negb] in HnA, HiA, HfA.
  - rewrite E in *. destruct (Z.eqb_spec (2047 - expo F64 b) 0) as [Hd|Hd].
    + rewrite (proj2 (Z.eqb_eq (expo F64 b) 2047)) in * by lia. cbn [andb negb] in HnB, HiB.
      destruct (Z.eqb_spec (Z.lor (frac F64 a) (frac F64 b)) 0) as [Hz|Hz]; cbn [negb].
      * apply Z.lor_eq_0_iff in Hz as [Hz1 Hz2]. rewrite Hz1, Hz2 in *.
        apply returns_raise. unfold ieee_add. rewrite Hn', Hi', HnA, HnB, HiA, HiB, Hs'.
        by destruct (sign_of F64 a).
      * apply Hnan. rewrite HnA, HnB. rewrite Z.lor_eq_0_iff in Hz.
        destruct (Z.eqb_spec (frac F64 a) 0), (Z.eqb_spec (frac F64 b) 0); done || tauto.
    + rewrite (proj2 (Z.ltb_ge (2047 - expo F64 b) 0)) by lia.
      rewrite (proj2 (Z.eqb_neq (expo F64 b) 2047)) in * by lia. cbn [andb negb] in HnB, HiB.
      destruct (Z.eqb_spec (frac F64 a * 2 ^ 10) 0) as [Hz|Hz]; cbn [negb].
      * assert (frac F64 a = 0) as Hz1 by lia. rewrite Hz1 in *.
        rewrite u64_pattern by done.
        apply returns_pure, ieee_add_inf_l; try done; [by rewrite Hn', HnB|right; by rewrite Hi', HiB].
      * apply Hnan. rewrite HnA, HnB. destruct (Z.eqb_spec (frac F64 a) 0); done || lia.
  - destruct He as [|E2]; [done|]. rewrite E2 in *. cbn [andb negb] in *.
    replace (2047 =? 2047) with true in * by done. cbn [andb negb] in *.
    rewrite (proj2 (Z.eqb_neq (expo F64 a - 2047) 0)), (proj2 (Z.ltb_lt (expo F64 a - 2047) 0)) by lia.
    destruct (Z.eqb_spec (frac F64 b * 2 ^ 10) 0) as [Hz|Hz]; cbn [negb].
    + assert (frac F64 b = 0) as Hz1 by lia. rewrite Hz1 in *.
      rewrite (inf_pattern_F64 _ b) by done. fold b'.
      apply returns_pure, ieee_add_inf_r; [apply _|by rewrite Hn', HnB|done|by rewrite Hi', HiB].
    + apply Hnan. rewrite HnA, HnB. destruct (Z.eqb_spec (frac F64 b) 0); done || lia.
Qed.

(** A difference of equal exponents is exact. *)
Lemma cancel_F64 sgn D e :
  0 < D < 2 ^ 52 -> 0 <= e <= 2045 + 1 ->
  returns
    (let shiftDist := s8 (softfloat_countLeadingZeros64 D - 11) in
     let expZ := e - shiftDist in
     let '(shiftDist, expZ) := if expZ <? 0 then (s8 e, 0) else (shiftDist, expZ) in
     (u64 (packToF64UI sgn expZ (Z.shiftl D shiftDist)), st))
    (rounded F64 m sgn (IZR D * bpow (e + emin F64))%R) st.
Proof.
  intros HD He. rewrite countLeadingZeros64_log2 by lia. pose proof (Z.log2_spec D ltac:(lia)) as Hl.
  assert (0 <= Z.log2 D < 52) by (split; [apply Z.log2_nonneg|apply Z.log2_lt_pow2; lia]).
  replace (63 - Z.log2 D - 11) with (52 - Z.log2 D) by lia. set (d := 52 - Z.log2 D).
  assert (s8 d = d) as -> by (unfold s8; rewrite Z.mod_small; lia). cbv zeta.
  rewrite Z.pow_succ_r in Hl by lia.
  assert (forall k, 0 <= k <= d -> D * 2 ^ k < 2 ^ 53 /\ (k = d -> 2 ^ 52 <= D * 2 ^ k)) as Hk.
  { intros k Hk. assert (2 ^ k <= 2 ^ d) by (apply Z.pow_le_mono_r; lia).
    pose proof (Z.pow_pos_nonneg 2 k ltac:(lia) ltac:(lia)).
    assert (2 ^ 52 = 2 ^ Z.log2 D * 2 ^ d) by (rewrite <-Z.pow_add_r by lia; f_equal; lia).
    change (2 ^ 53) with (2 * 2 ^ 52). split; [nia|]. intros ->. nia. }
  assert (forall k, 0 <= k <= d -> 0 <= e - k -> k = d \/ e - k = 0 ->
    returns (u64 (packToF64UI sgn (e - k) (Z.shiftl D k)), st)
      (rounded F64 m sgn (IZR D * bpow (e + emin F64))%R) st) as Hpack.
  { intros k Hkd Hek Hor. destruct (Hk k Hkd) as [Hlt Hge].
    assert (0 < D * 2 ^ k) by (apply Z.mul_pos_pos; [lia|apply Z.pow_pos_nonneg; lia]).
    rewrite Z.shiftl_mul_pow2 by lia. rewrite packF64 by lia.
    rewrite u64_id by (apply signed_F64_range; lia). apply returns_pure.
    apply (rounded_exact F64 m sgn);
      [lia|cbn [prec F64]; lia|cbn [prec F64]; change (53 - 1) with 52; lia
      |unfold inf_mag; cbn [prec ewidth F64]; lia|].
    rewrite IZR_bpow, Rmult_assoc, <-bpow_add by lia. do 2 f_equal. lia. }
  destruct (Z.ltb_spec (e - d) 0) as [Hn|Hn].
  - assert (s8 e = e) as -> by (unfold s8; rewrite Z.mod_small; lia).
    replace 0 with (e - e) at 1 by lia. apply Hpack; lia.
  - apply Hpack; lia.
Qed.

Lemma shifted_sub_F64 c : expo F64 c <> 0 ->
  Z.lor (frac F64 c * 2 ^ 10) 4611686018427387904 = shifted F64 10 c /\
  2 ^ 62 <= shifted F64 10 c < 2 ^ 63.
Proof.
  intros Hc. rewrite shifted_normal by (apply _ || done). pose proof (frac_lt_F64 c).
  cbn [prec F64]. change (53 - 1) with 52. rewrite Z.lor_comm.
  rewrite (lor_disjoint 1 _ 62) by lia. lia.
Qed.

Lemma shifted_even'_F64 c :
  Z.even (shifted F64 10 c) = true /\ 0 <= shifted F64 10 c < 2 ^ 63 - 2.
Proof.
  pose proof (frac_lt_F64 c). unfold shifted. cbn [prec F64]. change (53 - 1) with 52.
  destruct (Z.eqb_spec (expo F64 c) 0); (split; [|lia]).
  - replace (2 ^ (10 + 1)) with (2 * 2 ^ 10) by done.
    rewrite Z.mul_assoc, (Z.mul_comm _ 2), <-Z.mul_assoc. apply Z.even_even.
  - replace (2 ^ 10) with (2 * 2 ^ (10 - 1)) by done.
    rewrite Z.mul_assoc, (Z.mul_comm _ 2), <-Z.mul_assoc. apply Z.even_even.
Qed.

(** A difference of finite magnitudes. *)
Lemma subMagsF64_finite :
  expo F64 a <> 2047 -> expo F64 b <> 2047 ->
  let s := sign_of F64 a in
  let r := (absval F64 a - absval F64 b)%R in
  returns (softfloat_subMagsF64 a b (sign_of F64 a) st)
    (fun u fl =>
       (r = 0%R /\ u = zero F64 (match m with RDN => true | _ => false end) /\ fl = 0) \/
       ((0 < r)%R /\ rounded F64 m s r u fl) \/
       ((r < 0)%R /\ rounded F64 m (negb s) (- r) u fl)) st.
Proof.
  intros HA HB s r. unfold softfloat_subMagsF64.
  rewrite !expF64UI_expo, !fracF64UI_frac. fold s.
  pose proof (expo_lt_F64 a). pose proof (expo_lt_F64 b).
  pose proof (frac_lt_F64 a). pose proof (frac_lt_F64 b).
  rewrite (proj2 (Z.eqb_neq (expo F64 a) 2047)), (proj2 (Z.eqb_neq (expo F64 b) 2047)) by done.
  destruct (Z.eqb_spec (expo F64 a - expo F64 b) 0) as [Hd|Hd].
  - assert (expo F64 b = expo F64 a) as Hba by lia.
    set (e := if negb (expo F64 a =? 0) then expo F64 a - 1 else expo F64 a).
    assert (0 <= e <= 2045 + 1) as He by (unfold e; destruct (Z.eqb_spec (expo F64 a) 0); cbn [negb]; lia).
    assert (r = IZR (frac F64 a - frac F64 b) * bpow (e + emin F64))%R as Hr.
    { unfold r, e, absval. rewrite Hba, minus_IZR. destruct (Z.eqb_spec (expo F64 a) 0) as [E|E]; cbn [negb].
      - rewrite !decide_True, E, Z.add_0_l by done. lra.
      - rewrite !decide_False, !plus_IZR by done. lra. }
    cbv zeta. destruct (Z.eqb_spec (frac F64 a - frac F64 b) 0) as [Hz|Hz].
    + apply returns_pure. left. split; [rewrite Hr, Hz; lra|]. split; [|done].
      destruct Hst as [-> _]. rewrite packF64 by lia. rewrite u64_id by (apply signed_F64_range; lia).
      by destruct m.
    + fold e. destruct (Z.ltb_spec (frac F64 a - frac F64 b) 0) as [Hn|Hn].
      * eapply returns_mono; [apply (cancel_F64 (negb s) (- (frac F64 a - frac F64 b)) e); lia|].
        intros u fl Hu. right; right. rewrite opp_IZR, Ropp_mult_distr_l_reverse, <-Hr in Hu. split; [|done].
        rewrite Hr. pose proof (bpow_gt_0 (e + emin F64)). apply IZR_lt in Hn. nra.
      * eapply returns_mono; [apply (cancel_F64 s (frac F64 a - frac F64 b) e); lia|].
        intros u fl Hu. right; left. rewrite <-Hr in Hu. split; [|done].
        rewrite Hr. apply Rmult_lt_0_compat; [apply IZR_lt; lia|apply bpow_gt_0].
  - cbv zeta. rewrite !Z.shiftl_mul_pow2 by done.
    destruct (shifted_even'_F64 a) as [HevA HSA], (shifted_even'_F64 b) as [HevB HSB].
    destruct (Z.ltb_spec (expo F64 a - expo F64 b) 0) as [Hlt|Hge].
    + destruct (absval_apart F64 10 b a ltac:(lia)) as [Eb Ea].
      destruct (shifted_sub_F64 b ltac:(lia)) as [-> Hbig].
      assert (u64 (frac F64 a * 2 ^ 10 + (if negb (expo F64 a =? 0) then 4611686018427387904 else frac F64 a * 2 ^ 10)) = shifted F64 10 a) as ->.
      { unfold shifted. cbn [prec F64]. destruct (Z.eqb_spec (expo F64 a) 0); cbn [negb]; rewrite u64_id by lia; lia. }
      rewrite shiftRightJam64_jam by lia.
      replace (- (expo F64 a - expo F64 b)) with (expo F64 b - expo F64 a) by lia.
      destruct (finish_subF64 m (negb s) (expo F64 b) _ (shifted F64 10 a) (expo F64 b - expo F64 a) st Hst
        ltac:(lia) Hbig HevB HSA HevA ltac:(lia)) as [Hpos Hres].
      assert (- r = (IZR (shifted F64 10 b) - IZR (shifted F64 10 a) * bpow (- (expo F64 b - expo F64 a))) *
        bpow (expo F64 b - 1 - 10 + emin F64))%R as Hr.
      { unfold r. rewrite Ea, Eb.
        replace (expo F64 b - 1 - 10 + emin F64) with (expo F64 b - (10 + 1) + emin F64) by lia. lra. }
      eapply returns_mono; [exact Hres|]. intros u fl Hu. right; right. rewrite <-Hr in *. split; [lra|done].
    + destruct (absval_apart F64 10 a b ltac:(lia)) as [Ea Eb].
      destruct (shifted_sub_F64 a ltac:(lia)) as [-> Hbig].
      assert (u64 (frac F64 b * 2 ^ 10 + (if negb (expo F64 b =? 0) then 4611686018427387904 else frac F64 b * 2 ^ 10)) = shifted F64 10 b) as ->.
      { unfold shifted. cbn [prec F64]. destruct (Z.eqb_spec (expo F64 b) 0); cbn [negb]; rewrite u64_id by lia; lia. }
      rewrite shiftRightJam64_jam by lia.
      destruct (finish_subF64 m s (expo F64 a) _ (shifted F64 10 b) (expo F64 a - expo F64 b) st Hst
        ltac:(lia) Hbig HevA HSB HevB ltac:(lia)) as [Hpos Hres].
      assert (r = (IZR (shifted F64 10 a) - IZR (shifted F64 10 b) * bpow (- (expo F64 a - expo F64 b))) *
        bpow (expo F64 a - 1 - 10 + emin F64))%R as Hr.
      { unfold r. rewrite Ea, Eb.
        replace (expo F64 a - 1 - 10 + emin F64) with (expo F64 a - (10 + 1) + emin F64) by lia. lra. }
      eapply returns_mono; [exact Hres|]. intros u fl Hu. right; left. rewrite <-Hr in *. split; [lra|done].
Qed.
Lemma not_special_F64 c : expo F64 c <> 2047 -> is_finite F64 c = true.
Proof. intros Hc. rewrite is_finite_fields by apply _. by apply negb_true_iff, Z.eqb_neq. Qed.

Lemma addMagsF64_ieee :
  returns (softfloat_addMagsF64 a b (sign_of F64 a) st)
    (ieee_add F64 m a (signed F64 (sign_of F64 a) (mag F64 b))) st.
Proof.
  destruct (decide (expo F64 a = 2047)); [apply addMagsF64_special; by left|].
  destruct (decide (expo F64 b = 2047)); [apply addMagsF64_special; by right|].
  eapply returns_mono; [by apply addMagsF64_finite|]. cbv zeta. intros u fl Hu.
  destruct (with_sign F64 (sign_of F64 a) b) as (_ & Hs' & _ & _ & _ & _ & _ & _ & Hfi' & Hav').
  set (b' := signed F64 (sign_of F64 a) (mag F64 b)) in *.
  assert (is_finite F64 b' = true) by (rewrite Hfi'; by apply not_special_F64).
  assert (value F64 a + value F64 b' = (if sign_of F64 a then - (absval F64 a + absval F64 b)
    else absval F64 a + absval F64 b))%R as Hv.
  { unfold value. rewrite Hs', Hav'. destruct (sign_of F64 a); lra. }
  destruct Hu as [(Hz & -> & ->)|[Hx Hr]].
  - apply ieee_add_zero; [apply _|by apply not_special_F64|done| |by rewrite Hs', eqb_reflx].
    rewrite Hv, Hz. destruct (sign_of F64 a); lra.
  - by eapply ieee_add_finite; [apply _|apply not_special_F64| |exact Hv| |].
Qed.

Lemma subMagsF64_ieee :
  returns (softfloat_subMagsF64 a b (sign_of F64 a) st)
    (ieee_add F64 m a (signed F64 (negb (sign_of F64 a)) (mag F64 b))) st.
Proof.
  destruct (decide (expo F64 a = 2047)); [apply subMagsF64_special; by left|].
  destruct (decide (expo F64 b = 2047)); [apply subMagsF64_special; by right|].
  eapply returns_mono; [by apply subMagsF64_finite|]. cbv zeta. intros u fl Hu.
  destruct (with_sign F64 (negb (sign_of F64 a)) b) as (_ & Hs' & _ & _ & _ & _ & _ & _ & Hfi' & Hav').
  set (b' := signed F64 (negb (sign_of F64 a)) (mag F64 b)) in *.
  assert (is_finite F64 b' = true) by (rewrite Hfi'; by apply not_special_F64).
  set (r := (absval F64 a - absval F64 b)%R) in *.
  assert (value F64 a + value F64 b' = if sign_of F64 a then - r else r)%R as Hv.
  { unfold value, r. rewrite Hs', Hav'. destruct (sign_of F64 a); simpl; lra. }
  destruct Hu as [(Hz & -> & ->)|[[Hx Hr]|[Hx Hr]]].
  - apply ieee_add_zero; [apply _|by apply not_special_F64|done| |].
    + rewrite Hv, Hz. destruct (sign_of F64 a); lra.
    + rewrite Hs'. by destruct (sign_of F64 a).
  - by eapply ieee_add_finite; [apply _|apply not_special_F64| |exact Hv| |].
  - eapply ieee_add_finite; [apply _|by apply not_special_F64|done| | |exact Hr]; [|lra].
    rewrite Hv. destruct (sign_of F64 a); simpl; lra.
Qed.
End MagsF64.

Lemma sign_xor F `{ValidFormat F} a b :
  sign_of F (Z.lxor a b) = xorb (sign_of F a) (sign_of F b).
Proof. unfold sign_of. apply Z.lxor_spec. Qed.

Lemma lxor_pattern F a b : is_pattern F a -> is_pattern F b -> is_pattern F (Z.lxor a b).
Proof.
  unfold is_pattern. intros Ha Hb. assert (0 <= Z.lxor a b) by (apply Z.lxor_nonneg; lia).
  split; [done|]. destruct (Z_lt_le_dec 0 (prec F + ewidth F)) as [Hp|Hp].
  - destruct (decide (Z.lxor a b = 0)) as [->|]; [apply Z.pow_pos_nonneg; lia|].
    apply Z.log2_lt_pow2; [lia|]. eapply Z.le_lt_trans; [apply Z.log2_lxor; lia|].
    assert (forall c, 0 <= c < 2 ^ (prec F + ewidth F) -> Z.log2 c < prec F + ewidth F) as Hl.
    { intros c Hc. destruct (decide (c = 0)) as [->|]; [done|]. apply Z.log2_lt_pow2; lia. }
    apply Z.max_lub_lt; auto.
  - assert (2 ^ (prec F + ewidth F) <= 1).
    { destruct (decide (prec F + ewidth F = 0)) as [->|]; [done|]. rewrite Z.pow_neg_r; lia. }
    assert (a = 0) as -> by lia. assert (b = 0) as -> by lia. rewrite Z.lxor_0_l. lia.
Qed.

(** In every rounding mode and for all operands, [f32_add] gives the result and
    the flags of IEEE 754: the exact sum, rounded once; infinities, NaNs and
    the sign of an exact zero included. *)
Theorem f32_add_returns m a b st :
  in_mode m st -> is_pattern F32 a -> is_pattern F32 b ->
  returns (f32_add a b st) (ieee_add F32 m a b) st.
Proof.
  intros Hst Ha Hb. unfold f32_add.
  rewrite signF32UI_sign, sign_xor by (by apply lxor_pattern || apply _).
  pose proof (signed_eta F32 b Hb) as Hbe.
  pose proof (addMagsF32_ieee m a b st Hst Ha) as Hadd.
  pose proof (subMagsF32_ieee m a b st Hst Ha) as Hsub.
  destruct (sign_of F32 a), (sign_of F32 b); cbn [xorb negb] in *; by rewrite Hbe at 2.
Qed.

(** [f32_sub] is IEEE 754 subtraction: the sum with the negated operand. *)
Theorem f32_sub_returns m a b st :
  in_mode m st -> is_pattern F32 a -> is_pattern F32 b ->
  returns (f32_sub a b st) (ieee_sub F32 m a b) st.
Proof.
  intros Hst Ha Hb. unfold f32_sub, ieee_sub, neg.
  rewrite signF32UI_sign, sign_xor by (by apply lxor_pattern || apply _).
  pose proof (addMagsF32_ieee m a b st Hst Ha) as Hadd.
  pose proof (subMagsF32_ieee m a b st Hst Ha) as Hsub.
  by destruct (sign_of F32 a), (sign_of F32 b).
Qed.

(** [f64_add] is IEEE 754 addition in double precision. *)
Theorem f64_add_returns m a b st :
  in_mode m st -> is_pattern F64 a -> is_pattern F64 b ->
  returns (f64_add a b st) (ieee_add F64 m a b) st.
Proof.
  intros Hst Ha Hb. unfold f64_add. rewrite !signF64UI_sign by done.
  pose proof (signed_eta F64 b Hb) as Hbe.
  pose proof (addMagsF64_ieee m a b st Hst Ha) as Hadd.
  pose proof (subMagsF64_ieee m a b st Hst Ha) as Hsub.
  destruct (sign_of F64 a), (sign_of F64 b); cbn [eqb negb] in *; by rewrite Hbe at 2.
Qed.

(** [f64_sub] is IEEE 754 subtraction in double precision. *)
Theorem f64_sub_returns m a b st :
  in_mode m st -> is_pattern F64 a -> is_pattern F64 b ->
  returns (f64_sub a b st) (ieee_sub F64 m a b) st.
Proof.
  intros Hst Ha Hb. unfold f64_sub, ieee_sub, neg. rewrite !signF64UI_sign by done.
  pose proof (addMagsF64_ieee m a b st Hst Ha) as Hadd.
  pose proof (subMagsF64_ieee m a b st Hst Ha) as Hsub.
  by destruct (sign_of F64 a), (sign_of F64 b).
Qed.

