(* ===== verification/SoftMul.v ===== *)
(** * SoftFloat: multiplication and division

    f32_mul, f64_mul and f32_div.  The product of the significands, or their
    quotient with a sticky last bit where it could be a tie, is rounded once. *)

From Stdlib Require Import ZArith Lia Reals Lra.
From stdpp Require Import base tactics list numbers.
From S2P Require Import Prelude Ieee SoftFloat SoftRound.

Definition f32_mul (a b : Z) (st : softfloat_state) : Z * softfloat_state :=
  let signA := signF32UI a in
  let expA := expF32UI a in
  let sigA := fracF32UI a in
  let signB := signF32UI b in
  let expB := expF32UI b in
  let sigB := fracF32UI b in
  let signZ := xorb signA signB in
  let propagateNaN :=
    let '(uiZ, st) := softfloat_propagateNaNF32UI a b st in (u32 uiZ, st) in
  let infArg := fun magBits =>
    if magBits =? 0 then (u32 defaultNaNF32UI, softfloat_raiseFlags softfloat_flag_invalid st)
    else (u32 (packToF32UI signZ 0xFF 0), st) in
  let zero := (u32 (packToF32UI signZ 0 0), st) in
  if expA =? 0xFF then
    if negb (sigA =? 0) || ((expB =? 0xFF) && negb (sigB =? 0)) then propagateNaN
    else infArg (Z.lor expB sigB)
  else if expB =? 0xFF then
    if negb (sigB =? 0) then propagateNaN else infArg (Z.lor expA sigA)
  else if (expA =? 0) && (sigA =? 0) then zero
  else
    let normA := if expA =? 0 then softfloat_normSubnormalF32Sig sigA else ExpSig32 expA sigA in
    if (expB =? 0) && (sigB =? 0) then zero
    else
      let normB := if expB =? 0 then softfloat_normSubnormalF32Sig sigB else ExpSig32 expB sigB in
      let expZ := exp32 normA + exp32 normB - 0x7F in
      let sigA := Z.shiftl (Z.lor (sig32 normA) 0x00800000) 7 in
      let sigB := Z.shiftl (Z.lor (sig32 normB) 0x00800000) 8 in
      let sigZ := softfloat_shortShiftRightJam64 (u64 (sigA * sigB)) 32 in
      if sigZ <? 0x40000000
      then softfloat_roundPackToF32 signZ (expZ - 1) (Z.shiftl sigZ 1) st
      else softfloat_roundPackToF32 signZ expZ sigZ st.

Definition f64_mul (a b : Z) (st : softfloat_state) : Z * softfloat_state :=
  let signA := signF64UI a in
  let expA := expF64UI a in
  let sigA := fracF64UI a in
  let signB := signF64UI b in
  let expB := expF64UI b in
  let sigB := fracF64UI b in
  let signZ := xorb signA signB in
  let propagateNaN :=
    let '(uiZ, st) := softfloat_propagateNaNF64UI a b st in (u64 uiZ, st) in
  let infArg := fun magBits =>
    if magBits =? 0 then (u64 defaultNaNF64UI, softfloat_raiseFlags softfloat_flag_invalid st)
    else (u64 (packToF64UI signZ 0x7FF 0), st) in
  let zero := (u64 (packToF64UI signZ 0 0), st) in
  if expA =? 0x7FF then
    if negb (sigA =? 0) || ((expB =? 0x7FF) && negb (sigB =? 0)) then propagateNaN
    else infArg (Z.lor expB sigB)
  else if expB =? 0x7FF then
    if negb (sigB =? 0) then propagateNaN else infArg (Z.lor expA sigA)
  else if (expA =? 0) && (sigA =? 0) then zero
  else
    let normA := if expA =? 0 then softfloat_normSubnormalF64Sig sigA else ExpSig64 expA sigA in
    if (expB =? 0) && (sigB =? 0) then zero
    else
      let normB := if expB =? 0 then softfloat_normSubnormalF64Sig sigB else ExpSig64 expB sigB in
      let expZ := exp64 normA + exp64 normB - 0x3FF in
      let sigA := u64 (Z.shiftl (Z.lor (sig64 normA) 0x0010000000000000) 10) in
      let sigB := u64 (Z.shiftl (Z.lor (sig64 normB) 0x0010000000000000) 11) in
      let sig128Z := softfloat_mul64To128 sigA sigB in
      let sigZ := Z.lor (v64 sig128Z) (Z.b2z (negb (v0 sig128Z =? 0))) in
      if sigZ <? 0x4000000000000000
      then softfloat_roundPackToF64 signZ (expZ - 1) (u64 (Z.shiftl sigZ 1)) st
      else softfloat_roundPackToF64 signZ expZ sigZ st.

Definition f32_div (a b : Z) (st : softfloat_state) : Z * softfloat_state :=
  let signA := signF32UI a in
  let expA := expF32UI a in
  let sigA := fracF32UI a in
  let signB := signF32UI b in
  let expB := expF32UI b in
  let sigB := fracF32UI b in
  let signZ := xorb signA signB in
  let propagateNaN :=
    let '(uiZ, st) := softfloat_propagateNaNF32UI a b st in (u32 uiZ, st) in
  let invalid := (u32 defaultNaNF32UI, softfloat_raiseFlags softfloat_flag_invalid st) in
  let infinity := fun st => (u32 (packToF32UI signZ 0xFF 0), st) in
  let zero := (u32 (packToF32UI signZ 0 0), st) in
  if expA =? 0xFF then
    if negb (sigA =? 0) then propagateNaN
    else if expB =? 0xFF then
      if negb (sigB =? 0) then propagateNaN else invalid
    else infinity st
  else if expB =? 0xFF then
    if negb (sigB =? 0) then propagateNaN else zero
  else if (expB =? 0) && (sigB =? 0) then
    if Z.lor expA sigA =? 0 then invalid
    else infinity (softfloat_raiseFlags softfloat_flag_infinite st)
  else
    let normB := if expB =? 0 then softfloat_normSubnormalF32Sig sigB else ExpSig32 expB sigB in
    if (expA =? 0) && (sigA =? 0) then zero
    else
      let normA := if expA =? 0 then softfloat_normSubnormalF32Sig sigA else ExpSig32 expA sigA in
      let expZ := exp32 normA - exp32 normB + 0x7E in
      let sigA := Z.lor (sig32 normA) 0x00800000 in
      let sigB := Z.lor (sig32 normB) 0x00800000 in
      let '(expZ, sig64A) :=
        if sigA <? sigB then (expZ - 1, u64 (Z.shiftl sigA 31)) else (expZ, u64 (Z.shiftl sigA 30)) in
      let sigZ := sig64A / sigB in
      let sigZ := if Z.land sigZ 0x3F =? 0
                  then Z.lor sigZ (Z.b2z (negb (u64 (sigB * sigZ) =? sig64A))) else sigZ in
      softfloat_roundPackToF32 signZ expZ sigZ st.

(** ** Multiplication *)

(** The value of a product or a quotient from the magnitudes. *)
Lemma value_mul F a b :
  (value F a * value F b =
   if xorb (sign_of F a) (sign_of F b) then - (absval F a * absval F b) else absval F a * absval F b)%R.
Proof. unfold value. destruct (sign_of F a), (sign_of F b); cbn [xorb]; lra. Qed.
Lemma value_div F a b :
  (value F a / value F b =
   if xorb (sign_of F a) (sign_of F b) then - (absval F a / absval F b) else absval F a / absval F b)%R.
Proof.
  unfold value, Rdiv. destruct (sign_of F a), (sign_of F b); cbn [xorb]; rewrite ?Rinv_opp; lra.
Qed.

Section MulCases.
Context (F : format) `{ValidFormat F} (m : mode).

Lemma ieee_mul_nan a b :
  is_nan F a || is_nan F b = true ->
  ieee_mul F m a b (default_nan F) (flag_if (is_snan F a || is_snan F b) flag_invalid).
Proof. intros Hn. unfold ieee_mul. by rewrite Hn. Qed.

Lemma ieee_mul_finite a b u fl :
  is_finite F a = true -> is_finite F b = true ->
  (is_zero F a || is_zero F b = true -> u = zero F (xorb (sign_of F a) (sign_of F b)) /\ fl = 0) ->
  (is_zero F a = false -> is_zero F b = false ->
   rounded F m (xorb (sign_of F a) (sign_of F b)) (absval F a * absval F b) u fl) ->
  ieee_mul F m a b u fl.
Proof.
  intros Ha Hb H0 Hr. unfold ieee_mul. rewrite (is_finite_fields F), negb_true_iff in Ha, Hb.
  rewrite !(is_nan_fields F), !(is_inf_fields F), Ha, Hb. cbn [andb orb].
  destruct (is_zero F a) eqn:Za, (is_zero F b) eqn:Zb; cbn [orb] in H0.
  4: { rewrite value_mul. apply rounds_to_signed; [|auto].
       apply Rmult_lt_0_compat; by apply (absval_pos F). }
  all: left; destruct H0 as [-> ->]; [done|]; split; [|done]; rewrite value_mul.
  all: rewrite ?(absval_zero F a), ?(absval_zero F b) by done; case_match; lra.
Qed.

Lemma ieee_div_nan a b :
  is_nan F a || is_nan F b = true ->
  ieee_div F m a b (default_nan F) (flag_if (is_snan F a || is_snan F b) flag_invalid).
Proof. intros Hn. unfold ieee_div. by rewrite Hn. Qed.

Lemma ieee_div_finite a b u fl :
  is_finite F a = true -> is_finite F b = true -> is_zero F b = false ->
  (is_zero F a = true -> u = zero F (xorb (sign_of F a) (sign_of F b)) /\ fl = 0) ->
  (is_zero F a = false ->
   rounded F m (xorb (sign_of F a) (sign_of F b)) (absval F a / absval F b) u fl) ->
  ieee_div F m a b u fl.
Proof.
  intros Ha Hb Zb H0 Hr. unfold ieee_div. rewrite (is_finite_fields F), negb_true_iff in Ha, Hb.
  rewrite !(is_nan_fields F), !(is_inf_fields F), Ha, Hb, Zb. cbn [andb orb].
  assert (0 < absval F b)%R by (by apply (absval_pos F)).
  destruct (is_zero F a) eqn:Za.
  - left. destruct H0 as [-> ->]; [done|]. split; [|done]. rewrite value_div.
    rewrite (absval_zero F a) by done. unfold Rdiv. case_match; lra.
  - rewrite value_div. apply rounds_to_signed; [|auto].
    apply Rdiv_lt_0_compat; [by apply (absval_pos F)|done].
Qed.
End MulCases.

Lemma lor_eqb_0 a b : (Z.lor a b =? 0) = (a =? 0) && (b =? 0).
Proof. apply Bool.eq_iff_eq_true. rewrite andb_true_iff, !Z.eqb_eq. apply Z.lor_eq_0_iff. Qed.

Lemma pack_inf_F32 s : u32 (packToF32UI s 255 0) = infinity F32 s.
Proof. rewrite packF32 by lia. apply u32_id, signed_F32_range. vm_compute. split; congruence. Qed.
Lemma pack_zero_F32 s : u32 (packToF32UI s 0 0) = zero F32 s.
Proof. rewrite packF32 by lia. apply u32_id, signed_F32_range. vm_compute. split; congruence. Qed.

Lemma f32_mul_finite m a b st :
  in_mode m st -> is_pattern F32 a -> is_pattern F32 b ->
  is_finite F32 a = true -> is_finite F32 b = true ->
  returns (f32_mul a b st) (ieee_mul F32 m a b) st.
Proof.
  intros Hst Ha Hb Fa Fb. unfold f32_mul.
  rewrite !signF32UI_sign, !expF32UI_expo, !fracF32UI_frac by done. cbv zeta.
  pose proof (is_zero_fields F32 a) as Za. pose proof (is_zero_fields F32 b) as Zb.
  pose proof Fa as Ea. pose proof Fb as Eb. rewrite (is_finite_fields F32), negb_true_iff in Ea, Eb.
  cbn [ewidth F32] in Ea, Eb. change (2 ^ 8 - 1) with 255 in *. rewrite Ea, Eb, <-Za, <-Zb.
  set (s := xorb (sign_of F32 a) (sign_of F32 b)). rewrite pack_zero_F32.
  destruct (is_zero F32 a) eqn:Ka.
  { apply returns_pure, ieee_mul_finite; try done. by rewrite Ka. }
  destruct (is_zero F32 b) eqn:Kb.
  { apply returns_pure, ieee_mul_finite; try done. by rewrite Kb. }
  destruct (norm_operandF32 a Fa Ka) as (HSA & HeA & Hva).
  destruct (norm_operandF32 b Fb Kb) as (HSB & HeB & Hvb).
  set (nA := if expo F32 a =? 0 then _ else _) in *. set (nB := if expo F32 b =? 0 then _ else _) in *.
  change 8388608 with (2 ^ 23).
  set (SA := Z.lor (sig32 nA) (2 ^ 23)) in *. set (SB := Z.lor (sig32 nB) (2 ^ 23)) in *.
  rewrite !Z.shiftl_mul_pow2 by done.
  assert (2 ^ 23 * 2 ^ 23 <= SA * SB < 2 ^ 24 * 2 ^ 24) as HP by nia.
  assert (0 <= SA * 2 ^ 7 * (SB * 2 ^ (7 + 1)) < 2 ^ 32 * 2 ^ 31) as HPr
    by (replace (SA * 2 ^ 7 * (SB * 2 ^ (7 + 1))) with (SA * SB * (2 ^ 7 * 2 ^ (7 + 1))) by ring; lia).
  set (prod := SA * 2 ^ 7 * (SB * 2 ^ (7 + 1))) in *.
  assert (prod = SA * SB * (2 ^ 7 * 2 ^ (7 + 1))) as HPd by (unfold prod; ring).
  change (7 + 1) with 8 in *. rewrite u64_id by lia. rewrite shortShiftRightJam64_jam by lia.
  set (sigZ := jam_shift prod 32).
  assert (2 ^ 29 <= sigZ < 2 ^ 31) as Hsig.
  { pose proof (jam_shift_cases prod 32 ltac:(lia)) as Hj. fold sigZ in Hj.
    assert (2 ^ 29 <= prod / 2 ^ 32 < 2 ^ 31 - 1).
    { split; [apply Z.div_le_lower_bound; lia|apply Z.div_lt_upper_bound; [lia|]].
      rewrite HPd. assert (SA <= 2 ^ 24 - 1 /\ SB <= 2 ^ 24 - 1) by lia.
      assert (SA * SB <= (2 ^ 24 - 1) * (2 ^ 24 - 1)) by (apply Z.mul_le_mono_nonneg; lia). lia. }
    lia. }
  assert (agrees 1 (IZR prod * bpow (- 32)) sigZ) as Hag
    by (apply (agrees_jam_shift 0 1 (IZR prod) prod 32); [lia..|apply agrees_exact]).
  change 1073741824 with (2 ^ 30). change (2 ^ 1) with 2.
  eapply returns_mono;
    [apply (shortRoundPackF32 m s (exp32 nA + exp32 nB - 127) sigZ (IZR prod * bpow (- 32))); [done|lia|done|done]|].
  cbv beta. intros u fl Hr. apply ieee_mul_finite; try done; [by rewrite Ka, Kb|]. intros _ _. fold s.
  replace (absval F32 a * absval F32 b)%R
    with (IZR prod * bpow (- 32) * bpow (exp32 nA + exp32 nB - 127 - 7 + emin F32))%R; [done|].
  rewrite Hva, Hvb, HPd, mult_IZR, (mult_IZR SA SB), <-Z.pow_add_r, <-bpow_IZR by lia.
  rewrite !Rmult_assoc, (Rmult_comm (bpow _) (IZR SB * _)), !Rmult_assoc, <-!bpow_add.
  do 3 f_equal. change (emin F32) with (-149). lia.
Qed.

(** In every rounding mode and for all operands, [f32_mul] gives the result and
    the flags of IEEE 754 multiplication: the exact product, rounded once. *)
Theorem f32_mul_returns m a b st :
  in_mode m st -> is_pattern F32 a -> is_pattern F32 b ->
  returns (f32_mul a b st) (ieee_mul F32 m a b) st.
Proof.
  intros Hst Ha Hb.
  destruct (is_finite F32 a && is_finite F32 b) eqn:Hf.
  { apply andb_true_iff in Hf as [? ?]. by apply f32_mul_finite. }
  rewrite !(is_finite_fields F32) in Hf. cbn [ewidth F32] in Hf. change (2 ^ 8 - 1) with 255 in *.
  pose proof (ieee_mul_nan F32 m a b) as Hnan. unfold f32_mul.
  rewrite !signF32UI_sign, !expF32UI_expo, !fracF32UI_frac by done. cbv zeta.
  rewrite pack_inf_F32, !lor_eqb_0. rewrite !(is_nan_fields F32) in Hnan.
  cbn [ewidth F32] in Hnan. change (2 ^ 8 - 1) with 255 in *.
  pose proof (propagateNaNF32UI_returns a b st (ieee_mul F32 m a b)) as Hprop.
  assert (forall u fl, (if (expo F32 a =? 255) && negb (frac F32 a =? 0) || (expo F32 b =? 255) && negb (frac F32 b =? 0)
     then False else if (expo F32 a =? 0) && (frac F32 a =? 0) || (expo F32 b =? 0) && (frac F32 b =? 0)
     then nan_result F32 true u fl
     else u = infinity F32 (xorb (sign_of F32 a) (sign_of F32 b)) /\ fl = 0) -> ieee_mul F32 m a b u fl) as Hinf.
  { intros u fl Hu. unfold ieee_mul. rewrite !(is_nan_fields F32), !(is_inf_fields F32), !(is_zero_fields F32).
    cbn [ewidth F32]. change (2 ^ 8 - 1) with 255. case_match; [done|].
    destruct (expo F32 a =? 255), (frac F32 a =? 0), (expo F32 b =? 255), (frac F32 b =? 0); done. }
  assert ((expo F32 a =? 255) = true -> (expo F32 a =? 0) = false) as HA0.
  { rewrite Z.eqb_eq. by intros ->. }
  assert ((expo F32 b =? 255) = true -> (expo F32 b =? 0) = false) as HB0.
  { rewrite Z.eqb_eq. by intros ->. }
  destruct (expo F32 a =? 255), (frac F32 a =? 0), (expo F32 b =? 255), (frac F32 b =? 0);
    try discriminate Hf; rewrite ?HA0, ?HB0 in * by done; cbn [andb orb negb] in *;
    try (apply Hprop, Hnan; reflexivity);
    try (apply returns_pure, Hinf; done); try (apply returns_raise, Hinf; done).
  all: destruct (expo F32 a =? 0), (expo F32 b =? 0); cbn [andb orb] in *;
    (apply returns_pure, Hinf; done) || (apply returns_raise, Hinf; done).
Qed.

Lemma pack_inf_F64 s : u64 (packToF64UI s 2047 0) = infinity F64 s.
Proof. rewrite packF64 by lia. apply u64_id, signed_F64_range. vm_compute. split; congruence. Qed.
Lemma pack_zero_F64 s : u64 (packToF64UI s 0 0) = zero F64 s.
Proof. rewrite packF64 by lia. apply u64_id, signed_F64_range. vm_compute. split; congruence. Qed.

Lemma f64_mul_finite m a b st :
  in_mode m st -> is_pattern F64 a -> is_pattern F64 b ->
  is_finite F64 a = true -> is_finite F64 b = true ->
  returns (f64_mul a b st) (ieee_mul F64 m a b) st.
Proof.
  intros Hst Ha Hb Fa Fb. unfold f64_mul.
  rewrite !signF64UI_sign, !expF64UI_expo, !fracF64UI_frac by done. cbv zeta.
  pose proof (is_zero_fields F64 a) as Za. pose proof (is_zero_fields F64 b) as Zb.
  pose proof Fa as Ea. pose proof Fb as Eb. rewrite (is_finite_fields F64), negb_true_iff in Ea, Eb.
  cbn [ewidth F64] in Ea, Eb. change (2 ^ 11 - 1) with 2047 in *. rewrite Ea, Eb, <-Za, <-Zb.
  set (s := xorb (sign_of F64 a) (sign_of F64 b)). rewrite pack_zero_F64.
  destruct (is_zero F64 a) eqn:Ka.
  { apply returns_pure, ieee_mul_finite; try done. by rewrite Ka. }
  destruct (is_zero F64 b) eqn:Kb.
  { apply returns_pure, ieee_mul_finite; try done. by rewrite Kb. }
  destruct (norm_operandF64 a Fa Ka) as (HSA & HeA & Hva).
  destruct (norm_operandF64 b Fb Kb) as (HSB & HeB & Hvb).
  set (nA := if expo F64 a =? 0 then _ else _) in *. set (nB := if expo F64 b =? 0 then _ else _) in *.
  change 4503599627370496 with (2 ^ 52).
  set (SA := Z.lor (sig64 nA) (2 ^ 52)) in *. set (SB := Z.lor (sig64 nB) (2 ^ 52)) in *.
  rewrite !Z.shiftl_mul_pow2 by done.
  assert (2 ^ 52 * 2 ^ 52 <= SA * SB < 2 ^ 53 * 2 ^ 53) as HP by nia.
  assert (0 <= SA * 2 ^ 10 * (SB * 2 ^ (10 + 1)) < 2 ^ 64 * 2 ^ 63) as HPr
    by (replace (SA * 2 ^ 10 * (SB * 2 ^ (10 + 1))) with (SA * SB * (2 ^ 10 * 2 ^ (10 + 1))) by ring; lia).
  set (prod := SA * 2 ^ 10 * (SB * 2 ^ (10 + 1))) in *.
  assert (prod = SA * SB * (2 ^ 10 * 2 ^ (10 + 1))) as HPd by (unfold prod; ring).
  change (10 + 1) with 11 in *. rewrite !u64_id by lia.
  destruct (mul64To128_product (SA * 2 ^ 10) (SB * 2 ^ 11) ltac:(lia) ltac:(lia)) as (Hp & H0 & H64).
  fold prod in Hp.
  assert (Z.lor (v64 (softfloat_mul64To128 (SA * 2 ^ 10) (SB * 2 ^ 11)))
    (Z.b2z (negb (v0 (softfloat_mul64To128 (SA * 2 ^ 10) (SB * 2 ^ 11)) =? 0))) = jam_shift prod 64) as ->.
  { unfold jam_shift. rewrite <-Hp, Z.add_comm, Z.div_add, Z.mod_add, Z.div_small, Z.mod_small by lia.
    done. }
  set (sigZ := jam_shift prod 64).
  assert (2 ^ 61 <= sigZ < 2 ^ 63) as Hsig.
  { pose proof (jam_shift_cases prod 64 ltac:(lia)) as Hj. fold sigZ in Hj.
    assert (2 ^ 61 <= prod / 2 ^ 64 < 2 ^ 63 - 1).
    { split; [apply Z.div_le_lower_bound; lia|apply Z.div_lt_upper_bound; [lia|]].
      rewrite HPd. assert (SA <= 2 ^ 53 - 1 /\ SB <= 2 ^ 53 - 1) by lia.
      assert (SA * SB <= (2 ^ 53 - 1) * (2 ^ 53 - 1)) by (apply Z.mul_le_mono_nonneg; lia). lia. }
    lia. }
  assert (agrees 1 (IZR prod * bpow (- 64)) sigZ) as Hag
    by (apply (agrees_jam_shift 0 1 (IZR prod) prod 64); [lia..|apply agrees_exact]).
  change 4611686018427387904 with (2 ^ 62). change (2 ^ 1) with 2.
  rewrite u64_id by lia.
  eapply returns_mono;
    [apply (shortRoundPackF64 m s (exp64 nA + exp64 nB - 1023) sigZ (IZR prod * bpow (- 64))); [done|lia|done|done]|].
  cbv beta. intros u fl Hr. apply ieee_mul_finite; try done; [by rewrite Ka, Kb|]. intros _ _. fold s.
  replace (absval F64 a * absval F64 b)%R
    with (IZR prod * bpow (- 64) * bpow (exp64 nA + exp64 nB - 1023 - 10 + emin F64))%R; [done|].
  rewrite Hva, Hvb, HPd, mult_IZR, (mult_IZR SA SB), <-Z.pow_add_r, <-bpow_IZR by lia.
  rewrite !Rmult_assoc, (Rmult_comm (bpow _) (IZR SB * _)), !Rmult_assoc, <-!bpow_add.
  do 3 f_equal. change (emin F64) with (-1074). lia.
Qed.

(** In every rounding mode and for all operands, [f64_mul] gives the result and
    the flags of IEEE 754 multiplication: the exact product, rounded once. *)
Theorem f64_mul_returns m a b st :
  in_mode m st -> is_pattern F64 a -> is_pattern F64 b ->
  returns (f64_mul a b st) (ieee_mul F64 m a b) st.
Proof.
  intros Hst Ha Hb.
  destruct (is_finite F64 a && is_finite F64 b) eqn:Hf.
  { apply andb_true_iff in Hf as [? ?]. by apply f64_mul_finite. }
  rewrite !(is_finite_fields F64) in Hf. cbn [ewidth F64] in Hf. change (2 ^ 11 - 1) with 2047 in *.
  pose proof (ieee_mul_nan F64 m a b) as Hnan. unfold f64_mul.
  rewrite !signF64UI_sign, !expF64UI_expo, !fracF64UI_frac by done. cbv zeta.
  rewrite pack_inf_F64, !lor_eqb_0. rewrite !(is_nan_fields F64) in Hnan.
  cbn [ewidth F64] in Hnan. change (2 ^ 11 - 1) with 2047 in *.
  pose proof (propagateNaNF64UI_returns a b st (ieee_mul F64 m a b)) as Hprop.
  assert (forall u fl, (if (expo F64 a =? 2047) && negb (frac F64 a =? 0) || (expo F64 b =? 2047) && negb (frac F64 b =? 0)
     then False else if (expo F64 a =? 0) && (frac F64 a =? 0) || (expo F64 b =? 0) && (frac F64 b =? 0)
     then nan_result F64 true u fl
     else u = infinity F64 (xorb (sign_of F64 a) (sign_of F64 b)) /\ fl = 0) -> ieee_mul F64 m a b u fl) as Hinf.
  { intros u fl Hu. unfold ieee_mul. rewrite !(is_nan_fields F64), !(is_inf_fields F64), !(is_zero_fields F64).
    cbn [ewidth F64]. change (2 ^ 11 - 1) with 2047. case_match; [done|].
    destruct (expo F64 a =? 2047), (frac F64 a =? 0), (expo F64 b =? 2047), (frac F64 b =? 0); done. }
  assert ((expo F64 a =? 2047) = true -> (expo F64 a =? 0) = false) as HA0.
  { rewrite Z.eqb_eq. by intros ->. }
  assert ((expo F64 b =? 2047) = true -> (expo F64 b =? 0) = false) as HB0.
  { rewrite Z.eqb_eq. by intros ->. }
  destruct (expo F64 a =? 2047), (frac F64 a =? 0), (expo F64 b =? 2047), (frac F64 b =? 0);
    try discriminate Hf; rewrite ?HA0, ?HB0 in * by done; cbn [andb orb negb] in *;
    try (apply Hprop, Hnan; reflexivity);
    try (apply returns_pure, Hinf; done); try (apply returns_raise, Hinf; done).
  all: destruct (expo F64 a =? 0), (expo F64 b =? 0); cbn [andb orb] in *;
    (apply returns_pure, Hinf; done) || (apply returns_raise, Hinf; done).
Qed.

(** ** Division *)

Lemma quotient_cmp a b c :
  0 < b -> ((IZR c < IZR a / IZR b)%R <-> c * b < a) /\ ((IZR a / IZR b < IZR c)%R <-> a < c * b).
Proof.
  intros Hb. assert (0 < IZR b)%R as Hb' by (by apply IZR_lt).
  assert (IZR a = IZR a / IZR b * IZR b)%R as Ha by (field; lra).
  split; split; intros H.
  - apply lt_IZR. rewrite mult_IZR, Ha. by apply Rmult_lt_compat_r.
  - apply IZR_lt in H. rewrite mult_IZR, Ha in H. by apply Rmult_lt_reg_r in H.
  - apply lt_IZR. rewrite mult_IZR, Ha. by apply Rmult_lt_compat_r.
  - apply IZR_lt in H. rewrite mult_IZR, Ha in H. by apply Rmult_lt_reg_r in H.
Qed.

(** A quotient that is made odd when it could pass for a tie stands for the
    exact one. *)
Lemma agrees_quotient g a b q :
  0 < b -> 1 <= g -> q = a / b ->
  agrees g (IZR a / IZR b)
    (if q mod 2 ^ g =? 0 then Z.lor q (Z.b2z (negb (b * q =? a))) else q).
Proof.
  intros Hb Hg Hq k. destruct (quotient_cmp a b (k * 2 ^ g) Hb) as [-> ->].
  assert (2 ^ g = 2 * 2 ^ (g - 1)) as Hp by (rewrite <-Z.pow_succ_r by lia; f_equal; lia).
  pose proof (Z.pow_pos_nonneg 2 (g - 1) ltac:(lia) ltac:(lia)).
  assert (b * q <= a < b * q + b) as Hqr.
  { pose proof (Z.div_mod a b ltac:(lia)). pose proof (Z.mod_pos_bound a b Hb). subst q. lia. }
  set (M := k * 2 ^ g). destruct (Z.eqb_spec (q mod 2 ^ g) 0) as [E|E].
  - pose proof (Z.div_mod q (2 ^ g) ltac:(lia)) as Hd. rewrite E, Hp in Hd.
    set (j := q / (2 * 2 ^ (g - 1))) in *. clearbody j.
    destruct (Z.eqb_spec (b * q) a) as [Ex|Ex]; cbn [negb Z.b2z].
    + rewrite Z.lor_0_r. split; nia.
    + rewrite lor_1. replace (Z.even q) with true.
      2: { symmetry. rewrite Hd, Z.add_0_r, <-Z.mul_assoc. apply Z.even_even. }
      assert (M <> q + 1) by (unfold M; rewrite Hp; lia).
      split; nia.
  - assert (M <> q) by (intros <-; apply E; unfold M; apply Z.mod_mul; lia). split; nia.
Qed.

(** The significand of the quotient of normalised significands, and the binary
    place it is computed to. *)
Lemma quotient_sig p n SA SB :
  1 <= n -> 2 ^ (p - 1) <= SA < 2 ^ p -> 2 ^ (p - 1) <= SB < 2 ^ p -> 1 <= p ->
  let c := if SA <? SB then 1 else 0 in
  2 ^ n <= SA * 2 ^ (n + c) / SB < 2 ^ (n + 1).
Proof.
  intros Hn HA HB Hp c. replace (2 ^ p) with (2 * 2 ^ (p - 1)) in *
    by (rewrite <-Z.pow_succ_r by lia; f_equal; lia).
  pose proof (Z.pow_pos_nonneg 2 n ltac:(lia) ltac:(lia)).
  pose proof (Z.pow_pos_nonneg 2 (p - 1) ltac:(lia) ltac:(lia)).
  rewrite (Z.pow_add_r 2 n 1) by lia. change (2 ^ 1) with 2.
  unfold c. destruct (Z.ltb_spec SA SB); rewrite ?Z.add_0_r, ?(Z.pow_add_r 2 n 1) by lia;
    (split; [apply Z.div_le_lower_bound|apply Z.div_lt_upper_bound]); change (2 ^ 1) with 2; nia.
Qed.

Lemma f32_div_finite m a b st :
  in_mode m st -> is_pattern F32 a -> is_pattern F32 b ->
  is_finite F32 a = true -> is_finite F32 b = true -> is_zero F32 b = false ->
  returns (f32_div a b st) (ieee_div F32 m a b) st.
Proof.
  intros Hst Ha Hb Fa Fb Kb. unfold f32_div.
  rewrite !signF32UI_sign, !expF32UI_expo, !fracF32UI_frac by done. cbv zeta.
  pose proof (is_zero_fields F32 a) as Za. pose proof (is_zero_fields F32 b) as Zb.
  pose proof Fa as Ea. pose proof Fb as Eb. rewrite (is_finite_fields F32), negb_true_iff in Ea, Eb.
  cbn [ewidth F32] in Ea, Eb. change (2 ^ 8 - 1) with 255 in *. rewrite Ea, Eb, <-Za, <-Zb, Kb.
  set (s := xorb (sign_of F32 a) (sign_of F32 b)). rewrite pack_zero_F32.
  destruct (is_zero F32 a) eqn:Ka.
  { apply returns_pure, ieee_div_finite; try done. by rewrite Ka. }
  destruct (norm_operandF32 a Fa Ka) as (HSA & HeA & Hva).
  destruct (norm_operandF32 b Fb Kb) as (HSB & HeB & Hvb).
  set (nA := if expo F32 a =? 0 then _ else _) in *. set (nB := if expo F32 b =? 0 then _ else _) in *.
  change 8388608 with (2 ^ 23).
  set (SA := Z.lor (sig32 nA) (2 ^ 23)) in *. set (SB := Z.lor (sig32 nB) (2 ^ 23)) in *.
  clearbody nA nB SA SB.
  pose proof (quotient_sig 24 30 SA SB ltac:(lia) HSA HSB ltac:(lia)) as Hq.
  cbv zeta in Hq. change (30 + 1) with 31 in Hq.
  set (c := if SA <? SB then 1 else 0) in *.
  assert ((if SA <? SB then (exp32 nA - exp32 nB + 126 - 1, u64 (Z.shiftl SA 31))
           else (exp32 nA - exp32 nB + 126, u64 (Z.shiftl SA 30))) =
          (exp32 nA - exp32 nB + 126 - c, SA * 2 ^ (30 + c))) as ->.
  { unfold c. destruct (SA <? SB); rewrite Z.shiftl_mul_pow2, u64_id by lia; f_equal; lia. }
  set (num := SA * 2 ^ (30 + c)) in *. set (q := num / SB) in *.
  assert (0 <= c <= 1) as Hc by (unfold c; case_match; lia). clearbody c.
  pose proof (agrees_quotient 6 num SB q ltac:(lia) ltac:(lia) eq_refl) as Hag.
  assert (0 <= SB * q < 2 ^ 24 * 2 ^ 31) as Hbq.
  { split; [apply Z.mul_nonneg_nonneg; lia|]. apply Z.mul_lt_mono_nonneg; lia. }
  rewrite (u64_id (SB * q)) by (split; [lia|]; eapply Z.lt_le_trans; [apply Hbq|]; by vm_compute).
  change (Z.land q 63) with (Z.land q (2 ^ 6 - 1)). rewrite land_ones_mod by lia.
  set (sigZ := if q mod 2 ^ 6 =? 0 then _ else q) in *.
  assert (2 ^ 30 <= sigZ < 2 ^ 31) as Hsig.
  { unfold sigZ. destruct (Z.eqb_spec (q mod 2 ^ 6) 0); [|done].
    destruct (_ =? num); cbn [negb Z.b2z]; [by rewrite Z.lor_0_r|].
    rewrite lor_1. destruct (Z.even q); [|done]. split; [lia|].
    pose proof (Z.div_mod q (2 ^ 6)). lia. }
  eapply returns_mono;
    [eapply (fun x => roundPackToF32_rounded m s _ sigZ (IZR num / IZR SB)%R x st Hst); [lia|done|done|reflexivity]|].
  cbv beta. intros u fl Hr. apply ieee_div_finite; try done; [by rewrite Ka|]. intros _. fold s.
  replace (absval F32 a / absval F32 b)%R
    with (IZR num / IZR SB * bpow (exp32 nA - exp32 nB + 126 - c - 7 + emin F32))%R; [done|].
  rewrite Hva, Hvb. unfold num. rewrite IZR_bpow by lia.
  assert (0 < IZR SB)%R by (apply IZR_lt; lia).
  pose proof (bpow_gt_0 (exp32 nB - 1 + emin F32)).
  replace (exp32 nA - 1 + emin F32)
    with (30 + c + (exp32 nA - exp32 nB + 126 - c - 7 + emin F32) + (exp32 nB - 1 + emin F32))
    by (change (emin F32) with (-149); lia).
  rewrite !(bpow_add (30 + c + _)), (bpow_add (30 + c)). field. lra.
Qed.

(** In every rounding mode and for all operands, [f32_div] gives the result and
    the flags of IEEE 754 division, a division by zero included. *)
Theorem f32_div_returns m a b st :
  in_mode m st -> is_pattern F32 a -> is_pattern F32 b ->
  returns (f32_div a b st) (ieee_div F32 m a b) st.
Proof.
  intros Hst Ha Hb.
  destruct (is_finite F32 a && (is_finite F32 b && negb (is_zero F32 b))) eqn:Hf.
  { apply andb_true_iff in Hf as [? [? ?%negb_true_iff]%andb_true_iff]. by apply f32_div_finite. }
  rewrite !(is_finite_fields F32), (is_zero_fields F32) in Hf. cbn [ewidth F32] in Hf. change (2 ^ 8 - 1) with 255 in *.
  pose proof (ieee_div_nan F32 m a b) as Hnan. unfold f32_div.
  rewrite !signF32UI_sign, !expF32UI_expo, !fracF32UI_frac by done. cbv zeta.
  rewrite pack_inf_F32, pack_zero_F32, !lor_eqb_0. rewrite !(is_nan_fields F32) in Hnan.
  cbn [ewidth F32] in Hnan. change (2 ^ 8 - 1) with 255 in *.
  pose proof (propagateNaNF32UI_returns a b st (ieee_div F32 m a b)) as Hprop.
  set (s := xorb (sign_of F32 a) (sign_of F32 b)).
  assert (forall u fl, (if (expo F32 a =? 255) && negb (frac F32 a =? 0) || (expo F32 b =? 255) && negb (frac F32 b =? 0)
     then False
     else if (expo F32 a =? 255) && (frac F32 a =? 0)
     then if (expo F32 b =? 255) && (frac F32 b =? 0) then nan_result F32 true u fl else u = infinity F32 s /\ fl = 0
     else if (expo F32 b =? 255) && (frac F32 b =? 0) then u = zero F32 s /\ fl = 0
     else if (expo F32 b =? 0) && (frac F32 b =? 0)
     then if (expo F32 a =? 0) && (frac F32 a =? 0) then nan_result F32 true u fl
          else u = infinity F32 s /\ fl = flag_divbyzero
     else False) -> ieee_div F32 m a b u fl) as Hinf.
  { intros u fl Hu. unfold ieee_div. rewrite !(is_nan_fields F32), !(is_inf_fields F32), !(is_zero_fields F32).
    cbn [ewidth F32]. change (2 ^ 8 - 1) with 255. fold s. case_match; [done|].
    repeat case_match; done. }
  assert ((expo F32 a =? 255) = true -> (expo F32 a =? 0) = false) as HA0 by (rewrite Z.eqb_eq; by intros ->).
  assert ((expo F32 b =? 255) = true -> (expo F32 b =? 0) = false) as HB0 by (rewrite Z.eqb_eq; by intros ->).
  destruct (expo F32 a =? 255), (frac F32 a =? 0), (expo F32 b =? 255), (frac F32 b =? 0);
    try discriminate Hf; rewrite ?HA0, ?HB0 in * by done; cbn [andb orb negb] in *;
    try (apply Hprop, Hnan; reflexivity);
    try (apply returns_pure, Hinf; done); try (apply returns_raise, Hinf; done).
  all: destruct (expo F32 a =? 0), (expo F32 b =? 0); cbn [andb orb negb] in *; try discriminate Hf;
    (apply returns_pure, Hinf; done) || (apply returns_raise, Hinf; done).
Qed.

