(* ===== verification/SoftCompare.v ===== *)
(** * SoftFloat: comparisons and classification

    f32_eq, f32_lt, f32_le, their signaling and quiet variants, the f64 ones,
    f32_classify and f64_classify.  A comparison takes and returns the state,
    since it may raise the invalid flag.  The theorems say that the integer
    comparisons on the bit patterns are the order of the extended real numbers
    they stand for, and which NaNs raise the flag. *)

From Stdlib Require Import ZArith Lia Reals Lra.
From stdpp Require Import base tactics list numbers.
From S2P Require Import Prelude Ieee SoftFloat.

(** ** 32-bit comparisons: f32_eq.c, f32_eq_signaling.c, f32_lt.c, f32_lt_quiet.c, f32_le.c, f32_le_quiet.c *)

(** The sign bits shifted out of, or masked out of, both operands. *)
Definition f32_both_zero (uiA uiB : Z) : bool := u32 (Z.shiftl (Z.lor uiA uiB) 1) =? 0.

(** What the quiet comparisons do with a NaN, and the signaling ones. *)
Definition f32_quiet_nan (a b : Z) (st : softfloat_state) : bool * softfloat_state :=
  (false, if softfloat_isSigNaNF32UI a || softfloat_isSigNaNF32UI b
          then softfloat_raiseFlags softfloat_flag_invalid st else st).

Definition f32_eq (a b : Z) (st : softfloat_state) : bool * softfloat_state :=
  if isNaNF32UI a || isNaNF32UI b then f32_quiet_nan a b st
  else ((a =? b) || f32_both_zero a b, st).

Definition f32_eq_signaling (a b : Z) (st : softfloat_state) : bool * softfloat_state :=
  if isNaNF32UI a || isNaNF32UI b
  then (false, softfloat_raiseFlags softfloat_flag_invalid st)
  else ((a =? b) || f32_both_zero a b, st).

Definition f32_lt (a b : Z) (st : softfloat_state) : bool * softfloat_state :=
  if isNaNF32UI a || isNaNF32UI b
  then (false, softfloat_raiseFlags softfloat_flag_invalid st)
  else
    let signA := signF32UI a in
    let signB := signF32UI b in
    (if negb (eqb signA signB) then signA && negb (f32_both_zero a b)
     else negb (a =? b) && xorb signA (a <? b), st).

Definition f32_lt_quiet (a b : Z) (st : softfloat_state) : bool * softfloat_state :=
  if isNaNF32UI a || isNaNF32UI b then f32_quiet_nan a b st
  else
    let signA := signF32UI a in
    let signB := signF32UI b in
    (if negb (eqb signA signB) then signA && negb (f32_both_zero a b)
     else negb (a =? b) && xorb signA (a <? b), st).

Definition f32_le (a b : Z) (st : softfloat_state) : bool * softfloat_state :=
  if isNaNF32UI a || isNaNF32UI b
  then (false, softfloat_raiseFlags softfloat_flag_invalid st)
  else
    let signA := signF32UI a in
    let signB := signF32UI b in
    (if negb (eqb signA signB) then signA || f32_both_zero a b
     else (a =? b) || xorb signA (a <? b), st).

Definition f32_le_quiet (a b : Z) (st : softfloat_state) : bool * softfloat_state :=
  if isNaNF32UI a || isNaNF32UI b then f32_quiet_nan a b st
  else
    let signA := signF32UI a in
    let signB := signF32UI b in
    (if negb (eqb signA signB) then signA || f32_both_zero a b
     else (a =? b) || xorb signA (a <? b), st).

Definition f32_isSignalingNaN (a : Z) : bool := softfloat_isSigNaNF32UI a.

Definition f32_classify (a : Z) : Z :=
  let infOrNaN := expF32UI a =? 0xFF in
  let subnormalOrZero := expF32UI a =? 0 in
  let sign := signF32UI a in
  let fracZero := fracF32UI a =? 0 in
  let isNaN := isNaNF32UI a in
  let isSNaN := softfloat_isSigNaNF32UI a in
  let bit := fun (b : bool) (n : Z) => Z.shiftl (Z.b2z b) n in
  Z.lor (bit (sign && infOrNaN && fracZero) 0)
 (Z.lor (bit (sign && negb infOrNaN && negb subnormalOrZero) 1)
 (Z.lor (bit (sign && subnormalOrZero && negb fracZero) 2)
 (Z.lor (bit (sign && subnormalOrZero && fracZero) 3)
 (Z.lor (bit (negb sign && infOrNaN && fracZero) 7)
 (Z.lor (bit (negb sign && negb infOrNaN && negb subnormalOrZero) 6)
 (Z.lor (bit (negb sign && subnormalOrZero && negb fracZero) 5)
 (Z.lor (bit (negb sign && subnormalOrZero && fracZero) 4)
 (Z.lor (bit (isNaN && isSNaN) 8)
        (bit (isNaN && negb isSNaN) 9))))))))).

(** ** 64-bit comparisons: f64_eq.c, f64_eq_signaling.c, f64_lt.c, f64_lt_quiet.c, f64_le.c, f64_le_quiet.c *)

(** The sign bits shifted out of, or masked out of, both operands. *)
Definition f64_both_zero (uiA uiB : Z) : bool := Z.land (Z.lor uiA uiB) 0x7FFFFFFFFFFFFFFF =? 0.

(** What the quiet comparisons do with a NaN, and the signaling ones. *)
Definition f64_quiet_nan (a b : Z) (st : softfloat_state) : bool * softfloat_state :=
  (false, if softfloat_isSigNaNF64UI a || softfloat_isSigNaNF64UI b
          then softfloat_raiseFlags softfloat_flag_invalid st else st).

Definition f64_eq (a b : Z) (st : softfloat_state) : bool * softfloat_state :=
  if isNaNF64UI a || isNaNF64UI b then f64_quiet_nan a b st
  else ((a =? b) || f64_both_zero a b, st).

Definition f64_eq_signaling (a b : Z) (st : softfloat_state) : bool * softfloat_state :=
  if isNaNF64UI a || isNaNF64UI b
  then (false, softfloat_raiseFlags softfloat_flag_invalid st)
  else ((a =? b) || f64_both_zero a b, st).

Definition f64_lt (a b : Z) (st : softfloat_state) : bool * softfloat_state :=
  if isNaNF64UI a || isNaNF64UI b
  then (false, softfloat_raiseFlags softfloat_flag_invalid st)
  else
    let signA := signF64UI a in
    let signB := signF64UI b in
    (if negb (eqb signA signB) then signA && negb (f64_both_zero a b)
     else negb (a =? b) && xorb signA (a <? b), st).

Definition f64_lt_quiet (a b : Z) (st : softfloat_state) : bool * softfloat_state :=
  if isNaNF64UI a || isNaNF64UI b then f64_quiet_nan a b st
  else
    let signA := signF64UI a in
    let signB := signF64UI b in
    (if negb (eqb signA signB) then signA && negb (f64_both_zero a b)
     else negb (a =? b) && xorb signA (a <? b), st).

Definition f64_le (a b : Z) (st : softfloat_state) : bool * softfloat_state :=
  if isNaNF64UI a || isNaNF64UI b
  then (false, softfloat_raiseFlags softfloat_flag_invalid st)
  else
    let signA := signF64UI a in
    let signB := signF64UI b in
    (if negb (eqb signA signB) then signA || f64_both_zero a b
     else (a =? b) || xorb signA (a <? b), st).

Definition f64_le_quiet (a b : Z) (st : softfloat_state) : bool * softfloat_state :=
  if isNaNF64UI a || isNaNF64UI b then f64_quiet_nan a b st
  else
    let signA := signF64UI a in
    let signB := signF64UI b in
    (if negb (eqb signA signB) then signA || f64_both_zero a b
     else (a =? b) || xorb signA (a <? b), st).

Definition f64_isSignalingNaN (a : Z) : bool := softfloat_isSigNaNF64UI a.

Definition f64_classify (a : Z) : Z :=
  let infOrNaN := expF64UI a =? 0x7FF in
  let subnormalOrZero := expF64UI a =? 0 in
  let sign := signF64UI a in
  let fracZero := fracF64UI a =? 0 in
  let isNaN := isNaNF64UI a in
  let isSNaN := softfloat_isSigNaNF64UI a in
  let bit := fun (b : bool) (n : Z) => Z.shiftl (Z.b2z b) n in
  Z.lor (bit (sign && infOrNaN && fracZero) 0)
 (Z.lor (bit (sign && negb infOrNaN && negb subnormalOrZero) 1)
 (Z.lor (bit (sign && subnormalOrZero && negb fracZero) 2)
 (Z.lor (bit (sign && subnormalOrZero && fracZero) 3)
 (Z.lor (bit (negb sign && infOrNaN && fracZero) 7)
 (Z.lor (bit (negb sign && negb infOrNaN && negb subnormalOrZero) 6)
 (Z.lor (bit (negb sign && subnormalOrZero && negb fracZero) 5)
 (Z.lor (bit (negb sign && subnormalOrZero && fracZero) 4)
 (Z.lor (bit (isNaN && isSNaN) 8)
        (bit (isNaN && negb isSNaN) 9))))))))).

(** ** The order of the extended real numbers *)

(** A pattern that is not a NaN stands for a real number or an infinity. *)
Definition ext_lt (F : format) (a b : Z) : Prop :=
  if is_inf F a then sign_of F a = true /\ b <> a
  else if is_inf F b then sign_of F b = false
  else (value F a < value F b)%R.
Definition ext_eq (F : format) (a b : Z) : Prop :=
  if is_inf F a || is_inf F b then a = b else value F a = value F b.
Definition ext_le (F : format) (a b : Z) : Prop := ext_lt F a b \/ ext_eq F a b.

(** The result [r] of a comparison by [P]: an unordered pair is false, and raises
    the invalid flag if [sig] says so. *)
Definition compares (F : format) (P : format -> Z -> Z -> Prop) (sig : bool)
    (a b : Z) (r : bool) (fl : Z) : Prop :=
  if is_nan F a || is_nan F b then r = false /\ fl = flag_if sig flag_invalid
  else (r = true <-> P F a b) /\ fl = 0.
Definition any_snan (F : format) (a b : Z) : bool := is_snan F a || is_snan F b.

(** The class of a pattern, as the bit that the FCLASS instructions set. *)
Definition class_bit (F : format) (u : Z) : Z :=
  let s := sign_of F u in
  if is_nan F u then (if is_snan F u then 8 else 9)
  else if is_inf F u then (if s then 0 else 7)
  else if is_zero F u then (if s then 3 else 4)
  else if expo F u =? 0 then (if s then 2 else 5)
  else if s then 1 else 6.

Definition compare_returns (r : bool * softfloat_state) (spec : bool -> Z -> Prop)
    (st : softfloat_state) : Prop :=
  exists fl, spec r.1 fl /\ r.2 = softfloat_raiseFlags fl st.

(** ** Bit patterns in order *)

Section Order.
Context (F : format) `{ValidFormat F}.

Lemma mag_sig u : mag F u = (exp_of F u - 1) * 2 ^ (prec F - 1) + sig_of F u.
Proof.
  rewrite (mag_eq F u). pose proof (expo_range F u). unfold exp_of, sig_of.
  destruct (Z.eqb_spec (expo F u) 0) as [E|E]; [rewrite E|rewrite Z.max_l by lia]; lia.
Qed.

Lemma absval_mag_lt a b : mag F a < mag F b -> (absval F a < absval F b)%R.
Proof.
  rewrite !mag_sig, !absval_sig by done. pose proof (pow_prec_pos F). pose proof (pow_prec F) as Hp.
  pose proof (sig_of_range F a) as Ha. pose proof (sig_of_range F b) as Hb. pose proof prec_valid.
  assert (forall u, exp_of F u <> 1 -> 2 ^ (prec F - 1) <= sig_of F u) as Hn.
  { intros u. pose proof (expo_range F u). pose proof (frac_range F u). unfold exp_of, sig_of. intros.
    destruct (Z.eqb_spec (expo F u) 0); lia. }
  pose proof (Hn a) as Hna. specialize (Hn b).
  assert (1 <= exp_of F a /\ 1 <= exp_of F b) by (unfold exp_of; lia). rewrite Hp in *.
  set (h := 2 ^ (prec F - 1)) in *. intros Hlt.
  assert (exp_of F a <= exp_of F b) as Hle.
  { apply Z.nlt_ge. intros Hgt. assert (h <= sig_of F a) by (apply Hna; lia). nia. }
  destruct (decide (exp_of F a = exp_of F b)) as [E|E].
  - rewrite E in *. apply scale_lt, IZR_lt. nia.
  - apply Rlt_le_trans with (IZR (2 ^ prec F) * bpow (exp_of F a - 1 + emin F))%R.
    + apply scale_lt, IZR_lt. lia.
    + apply Rle_trans with (IZR h * bpow (exp_of F b - 1 + emin F))%R.
      * unfold h. rewrite <-!bpow_IZR by lia. rewrite <-!bpow_add. apply bpow_le. lia.
      * apply scale_le, IZR_le. lia.
Qed.

Lemma absval_mag_eq a b : mag F a = mag F b -> absval F a = absval F b.
Proof.
  intros E. assert (expo F a = expo F b) as Ex by (unfold expo; by rewrite E).
  assert (frac F a = frac F b) as Ef by (rewrite !mag_eq, Ex in E by done; lia).
  unfold absval. by rewrite Ex, Ef.
Qed.

(** The order of the values is the order of the sign-magnitude integers. *)
Definition key (u : Z) : Z := if sign_of F u then - mag F u else mag F u.

Lemma absval_mag_iff a b : (absval F a < absval F b)%R <-> mag F a < mag F b.
Proof.
  split; [|apply absval_mag_lt]. intros Hlt.
  destruct (Z.lt_trichotomy (mag F a) (mag F b)) as [|[E|E]]; [done| |].
  - apply absval_mag_eq in E. lra.
  - apply absval_mag_lt in E. lra.
Qed.

Lemma value_key_lt a b : (value F a < value F b)%R <-> key a < key b.
Proof.
  pose proof (absval_nonneg F a). pose proof (absval_nonneg F b).
  pose proof (mag_range F a). pose proof (mag_range F b).
  pose proof (absval_mag_iff a b) as I1. pose proof (absval_mag_iff b a) as I2.
  assert (forall u, absval F u = 0%R <-> mag F u = 0) as Hz.
  { intros u. pose proof (absval_pos F u) as Hp. pose proof (absval_zero F u) as Hu0.
    unfold is_zero in *. destruct (Z.eqb_spec (mag F u) 0) as [E|E]; [by rewrite Hu0|].
    specialize (Hp eq_refl). split; [lra|done]. }
  pose proof (Hz a) as Hza. pose proof (Hz b) as Hzb.
  unfold value, key. destruct (sign_of F a), (sign_of F b).
  - rewrite <-Z.opp_lt_mono, <-I2. lra.
  - split.
    + intros Hlt. assert (mag F a <> 0 \/ mag F b <> 0); [|lia].
      destruct (decide (mag F a = 0)) as [E|]; [right|by left]. apply Hza in E. rewrite <-Hzb. lra.
    + intros Hlt. assert (absval F a <> 0 \/ absval F b <> 0)%R; [|lra].
      destruct (decide (mag F a = 0)) as [E|E]; [right; rewrite Hzb; lia|left; by rewrite Hza].
  - split; [lra|lia].
  - apply I1.
Qed.

Lemma value_key_eq a b : value F a = value F b <-> key a = key b.
Proof.
  pose proof (value_key_lt a b) as I1. pose proof (value_key_lt b a) as I2. split; intros E.
  - apply Z.le_antisymm; apply Z.nlt_ge; rewrite <-?I1, <-?I2; lra.
  - apply Rle_antisym; apply Rnot_lt_le; rewrite ?I1, ?I2; lia.
Qed.

Lemma key_range u : is_nan F u = false -> - inf_mag F <= key u <= inf_mag F.
Proof. unfold is_nan. rewrite Z.ltb_ge. pose proof (mag_range F u). unfold key. case_match; lia. Qed.

Lemma key_inf u : is_inf F u = true -> key u = if sign_of F u then - inf_mag F else inf_mag F.
Proof. unfold is_inf, key. rewrite Z.eqb_eq. by intros ->. Qed.

Lemma key_finite u : is_nan F u = false -> is_inf F u = false -> - inf_mag F < key u < inf_mag F.
Proof.
  unfold is_nan, is_inf. rewrite Z.ltb_ge, Z.eqb_neq. pose proof (mag_range F u).
  unfold key. case_match; lia.
Qed.

Lemma inf_mag_pos : 0 < inf_mag F.
Proof.
  unfold inf_mag. pose proof (pow_prec_pos F). destruct (pow_ewidth F) as [-> ?]. nia.
Qed.

Lemma ext_lt_key a b :
  is_pattern F a -> is_pattern F b -> is_nan F a = false -> is_nan F b = false ->
  ext_lt F a b <-> key a < key b.
Proof.
  intros Ha Hb Na Nb. pose proof inf_mag_pos. unfold ext_lt.
  destruct (is_inf F a) eqn:Ia; [|destruct (is_inf F b) eqn:Ib; [|by apply value_key_lt]].
  - pose proof (key_range b Nb). rewrite (key_inf a Ia). unfold is_inf in Ia. apply Z.eqb_eq in Ia.
    destruct (sign_of F a) eqn:Sa.
    + assert (b = a <-> key b = - inf_mag F) as ->; [|split; [lia|]; intros; split; [done|lia]].
      split; [intros ->; unfold key; by rewrite Sa, Ia|]. intros Hk.
      rewrite (signed_eta F a), (signed_eta F b), Sa, Ia by done. unfold key in Hk.
      pose proof (mag_range F b). destruct (sign_of F b); [f_equal; lia|exfalso; lia].
    + split; [by intros []|lia].
  - pose proof (key_finite a Na Ia). rewrite (key_inf b Ib). destruct (sign_of F b); split; try done; lia.
Qed.

Lemma ext_eq_key a b :
  is_pattern F a -> is_pattern F b -> is_nan F a = false -> is_nan F b = false ->
  ext_eq F a b <-> key a = key b.
Proof.
  intros Ha Hb Na Nb. pose proof inf_mag_pos. unfold ext_eq.
  destruct (is_inf F a || is_inf F b) eqn:I; [|apply value_key_eq].
  split; [by intros ->|]. intros Hk.
  assert (is_inf F a = true /\ is_inf F b = true) as [Ia Ib].
  { destruct (is_inf F a) eqn:Ia, (is_inf F b) eqn:Ib; try done.
    - rewrite (key_inf a Ia) in Hk. pose proof (key_finite b Nb Ib). case_match; lia.
    - rewrite (key_inf b Ib) in Hk. pose proof (key_finite a Na Ia). case_match; lia. }
  rewrite (key_inf a Ia), (key_inf b Ib) in Hk. unfold is_inf in *. apply Z.eqb_eq in Ia, Ib.
  rewrite (signed_eta F a), (signed_eta F b), Ia, Ib by done.
  destruct (sign_of F a), (sign_of F b); done || (exfalso; lia).
Qed.

(** The integer comparisons of the code, on the patterns themselves. *)
Definition bits_zero (a b : Z) : bool := (mag F a =? 0) && (mag F b =? 0).
Definition bits_eq (a b : Z) : bool := (a =? b) || bits_zero a b.
Definition bits_lt (a b : Z) : bool :=
  if negb (eqb (sign_of F a) (sign_of F b)) then sign_of F a && negb (bits_zero a b)
  else negb (a =? b) && xorb (sign_of F a) (a <? b).
Definition bits_le (a b : Z) : bool :=
  if negb (eqb (sign_of F a) (sign_of F b)) then sign_of F a || bits_zero a b
  else (a =? b) || xorb (sign_of F a) (a <? b).

Lemma signed_split a :
  is_pattern F a -> a = Z.b2z (sign_of F a) * 2 ^ (prec F + ewidth F - 1) + mag F a.
Proof. intros. by apply (signed_eta F). Qed.

Lemma bits_eq_key a b : is_pattern F a -> is_pattern F b -> bits_eq a b = true <-> key a = key b.
Proof.
  intros Ha Hb. apply signed_split in Ha, Hb. pose proof (mag_range F a). pose proof (mag_range F b).
  unfold bits_eq, bits_zero, key. rewrite orb_true_iff, andb_true_iff, !Z.eqb_eq.
  destruct (sign_of F a), (sign_of F b); cbn [Z.b2z] in *; lia.
Qed.

Lemma bits_lt_key a b : is_pattern F a -> is_pattern F b -> bits_lt a b = true <-> key a < key b.
Proof.
  intros Ha Hb. apply signed_split in Ha, Hb. pose proof (mag_range F a). pose proof (mag_range F b).
  unfold bits_lt, bits_zero, key.
  destruct (sign_of F a), (sign_of F b), (Z.ltb_spec a b); cbn [Z.b2z negb eqb xorb andb] in *;
    rewrite ?andb_true_iff, ?negb_true_iff, ?andb_false_iff, ?Z.eqb_neq; lia.
Qed.

Lemma bits_le_key a b : is_pattern F a -> is_pattern F b -> bits_le a b = true <-> key a <= key b.
Proof.
  intros Ha Hb. apply signed_split in Ha, Hb. pose proof (mag_range F a). pose proof (mag_range F b).
  unfold bits_le, bits_zero, key.
  destruct (sign_of F a), (sign_of F b), (Z.ltb_spec a b); cbn [Z.b2z negb eqb xorb orb] in *;
    rewrite ?orb_true_iff, ?andb_true_iff, ?Z.eqb_eq; lia.
Qed.

(** A comparison that tests for NaNs and then compares the bits. *)
Lemma compare_bits (P : format -> Z -> Z -> Prop) (sig : bool) test a b st st' :
  is_pattern F a -> is_pattern F b ->
  st' = (if sig then softfloat_raiseFlags softfloat_flag_invalid st else st) ->
  (is_nan F a = false -> is_nan F b = false -> test = true <-> P F a b) ->
  compare_returns
    (if is_nan F a || is_nan F b then (false, st') else (test, st))
    (compares F P sig a b) st.
Proof.
  intros Ha Hb -> Ht. unfold compare_returns, compares. destruct (is_nan F a || is_nan F b) eqn:N.
  - exists (flag_if sig flag_invalid). split; [done|]. destruct sig; [done|]. symmetry. apply raise_0.
  - apply orb_false_iff in N as [Na Nb]. exists 0. split; [|symmetry; apply raise_0].
    split; [by apply Ht|done].
Qed.
End Order.

(** ** 32-bit comparisons *)

Lemma f32_both_zero_bits a b : f32_both_zero a b = bits_zero F32 a b.
Proof.
  unfold f32_both_zero, bits_zero, mag. change (prec F32 + ewidth F32 - 1) with 31.
  apply Bool.eq_iff_eq_true. rewrite andb_true_iff, !Z.eqb_eq, <-Z.lor_eq_0_iff.
  rewrite <-!Z.land_ones, <-Z.land_lor_distr_l, Z.land_ones by lia.
  rewrite Z.shiftl_mul_pow2 by lia. unfold u32. change 4294967296 with (2 ^ 31 * 2).
  change (2 ^ 1) with 2. rewrite Zmult_mod_distr_r. lia.
Qed.

Lemma f32_quiet_nan_flag a b st :
  f32_quiet_nan a b st =
  (false, if any_snan F32 a b then softfloat_raiseFlags softfloat_flag_invalid st else st).
Proof. unfold f32_quiet_nan, any_snan. by rewrite !isSigNaNF32UI_snan. Qed.

Lemma f32_lt_bits a b :
  is_pattern F32 a -> is_pattern F32 b ->
  (if negb (eqb (signF32UI a) (signF32UI b)) then signF32UI a && negb (f32_both_zero a b)
   else negb (a =? b) && xorb (signF32UI a) (a <? b)) = bits_lt F32 a b.
Proof. intros. unfold bits_lt. by rewrite !signF32UI_sign, f32_both_zero_bits by done. Qed.

Lemma f32_le_bits a b :
  is_pattern F32 a -> is_pattern F32 b ->
  (if negb (eqb (signF32UI a) (signF32UI b)) then signF32UI a || f32_both_zero a b
   else (a =? b) || xorb (signF32UI a) (a <? b)) = bits_le F32 a b.
Proof. intros. unfold bits_le. by rewrite !signF32UI_sign, f32_both_zero_bits by done. Qed.

(** [f32_eq] and [f32_eq_signaling] compute equality of the extended real
    numbers, false on a NaN; the first raises the invalid flag for a signaling NaN
    only, the second for any. *)
Theorem f32_eq_ieee a b st :
  is_pattern F32 a -> is_pattern F32 b ->
  compare_returns (f32_eq a b st) (compares F32 ext_eq (any_snan F32 a b) a b) st /\
  compare_returns (f32_eq_signaling a b st) (compares F32 ext_eq true a b) st.
Proof.
  intros Ha Hb. unfold f32_eq, f32_eq_signaling.
  rewrite !isNaNF32UI_nan, f32_quiet_nan_flag, !f32_both_zero_bits.
  change ((a =? b) || bits_zero F32 a b) with (bits_eq F32 a b).
  split; (eapply (compare_bits F32); [done..|]); intros; by rewrite bits_eq_key, ext_eq_key by done.
Qed.

(** [f32_lt] and [f32_lt_quiet] compute the strict order of the extended real
    numbers, with the invalid flag for any NaN, or for a signaling one only. *)
Theorem f32_lt_ieee a b st :
  is_pattern F32 a -> is_pattern F32 b ->
  compare_returns (f32_lt a b st) (compares F32 ext_lt true a b) st /\
  compare_returns (f32_lt_quiet a b st) (compares F32 ext_lt (any_snan F32 a b) a b) st.
Proof.
  intros Ha Hb. unfold f32_lt, f32_lt_quiet. cbv zeta.
  rewrite !isNaNF32UI_nan, f32_quiet_nan_flag, !f32_lt_bits by done.
  split; (eapply (compare_bits F32); [done..|]); intros; by rewrite bits_lt_key, ext_lt_key by done.
Qed.

(** [f32_le] and [f32_le_quiet] compute the order of the extended real
    numbers, with the invalid flag for any NaN, or for a signaling one only. *)
Theorem f32_le_ieee a b st :
  is_pattern F32 a -> is_pattern F32 b ->
  compare_returns (f32_le a b st) (compares F32 ext_le true a b) st /\
  compare_returns (f32_le_quiet a b st) (compares F32 ext_le (any_snan F32 a b) a b) st.
Proof.
  intros Ha Hb. unfold f32_le, f32_le_quiet. cbv zeta.
  rewrite !isNaNF32UI_nan, f32_quiet_nan_flag, !f32_le_bits by done.
  split; (eapply (compare_bits F32); [done..|]); intros; unfold ext_le; rewrite bits_le_key, ext_lt_key, ext_eq_key by done; lia.
Qed.

(** [f32_classify] sets exactly the bit of the operand's class, of the ten that
    the FCLASS instructions know. *)
Theorem f32_classify_class a : is_pattern F32 a -> f32_classify a = 2 ^ class_bit F32 a.
Proof.
  intros Ha. unfold f32_classify, class_bit. cbv zeta.
  rewrite isNaNF32UI_nan, isSigNaNF32UI_snan, signF32UI_sign, expF32UI_expo, fracF32UI_frac by done.
  rewrite (is_nan_fields F32), (is_inf_fields F32), (is_zero_fields F32).
  cbn [ewidth F32]. change (2 ^ 8 - 1) with 255. change 0xFF with 255.
  assert ((expo F32 a =? 255) = true -> (expo F32 a =? 0) = false) as H0 by (rewrite Z.eqb_eq; by intros ->).
  destruct (expo F32 a =? 255); [rewrite H0 by done|destruct (expo F32 a =? 0)];
    destruct (frac F32 a =? 0), (sign_of F32 a), (is_snan F32 a); reflexivity.
Qed.

(** ** 64-bit comparisons *)

Lemma f64_both_zero_bits a b : f64_both_zero a b = bits_zero F64 a b.
Proof.
  unfold f64_both_zero, bits_zero, mag. change (prec F64 + ewidth F64 - 1) with 63.
  apply Bool.eq_iff_eq_true. rewrite andb_true_iff, !Z.eqb_eq, <-Z.lor_eq_0_iff.
  rewrite <-!Z.land_ones, <-Z.land_lor_distr_l by lia. done.
Qed.

Lemma f64_quiet_nan_flag a b st :
  f64_quiet_nan a b st =
  (false, if any_snan F64 a b then softfloat_raiseFlags softfloat_flag_invalid st else st).
Proof. unfold f64_quiet_nan, any_snan. by rewrite !isSigNaNF64UI_snan. Qed.

Lemma f64_lt_bits a b :
  is_pattern F64 a -> is_pattern F64 b ->
  (if negb (eqb (signF64UI a) (signF64UI b)) then signF64UI a && negb (f64_both_zero a b)
   else negb (a =? b) && xorb (signF64UI a) (a <? b)) = bits_lt F64 a b.
Proof. intros. unfold bits_lt. by rewrite !signF64UI_sign, f64_both_zero_bits by done. Qed.

Lemma f64_le_bits a b :
  is_pattern F64 a -> is_pattern F64 b ->
  (if negb (eqb (signF64UI a) (signF64UI b)) then signF64UI a || f64_both_zero a b
   else (a =? b) || xorb (signF64UI a) (a <? b)) = bits_le F64 a b.
Proof. intros. unfold bits_le. by rewrite !signF64UI_sign, f64_both_zero_bits by done. Qed.

(** [f64_eq] and [f64_eq_signaling] compute equality of the extended real
    numbers, false on a NaN; the first raises the invalid flag for a signaling NaN
    only, the second for any. *)
Theorem f64_eq_ieee a b st :
  is_pattern F64 a -> is_pattern F64 b ->
  compare_returns (f64_eq a b st) (compares F64 ext_eq (any_snan F64 a b) a b) st /\
  compare_returns (f64_eq_signaling a b st) (compares F64 ext_eq true a b) st.
Proof.
  intros Ha Hb. unfold f64_eq, f64_eq_signaling.
  rewrite !isNaNF64UI_nan, f64_quiet_nan_flag, !f64_both_zero_bits.
  change ((a =? b) || bits_zero F64 a b) with (bits_eq F64 a b).
  split; (eapply (compare_bits F64); [done..|]); intros; by rewrite bits_eq_key, ext_eq_key by done.
Qed.

(** [f64_lt] and [f64_lt_quiet] compute the strict order of the extended real
    numbers, with the invalid flag for any NaN, or for a signaling one only. *)
Theorem f64_lt_ieee a b st :
  is_pattern F64 a -> is_pattern F64 b ->
  compare_returns (f64_lt a b st) (compares F64 ext_lt true a b) st /\
  compare_returns (f64_lt_quiet a b st) (compares F64 ext_lt (any_snan F64 a b) a b) st.
Proof.
  intros Ha Hb. unfold f64_lt, f64_lt_quiet. cbv zeta.
  rewrite !isNaNF64UI_nan, f64_quiet_nan_flag, !f64_lt_bits by done.
  split; (eapply (compare_bits F64); [done..|]); intros; by rewrite bits_lt_key, ext_lt_key by done.
Qed.

(** [f64_le] and [f64_le_quiet] compute the order of the extended real
    numbers, with the invalid flag for any NaN, or for a signaling one only. *)
Theorem f64_le_ieee a b st :
  is_pattern F64 a -> is_pattern F64 b ->
  compare_returns (f64_le a b st) (compares F64 ext_le true a b) st /\
  compare_returns (f64_le_quiet a b st) (compares F64 ext_le (any_snan F64 a b) a b) st.
Proof.
  intros Ha Hb. unfold f64_le, f64_le_quiet. cbv zeta.
  rewrite !isNaNF64UI_nan, f64_quiet_nan_flag, !f64_le_bits by done.
  split; (eapply (compare_bits F64); [done..|]); intros; unfold ext_le; rewrite bits_le_key, ext_lt_key, ext_eq_key by done; lia.
Qed.

(** [-0 <= +0], and a quiet NaN is not comparable. *)
Lemma f64_le_ieee_witness :
  f64_le 0x8000000000000000 0 init_state = (true, init_state) /\
  compare_returns (f64_le 0x8000000000000000 0x7FF8000000000000 init_state)
    (compares F64 ext_le true 0x8000000000000000 0x7FF8000000000000) init_state /\
  compare_returns (f64_le_quiet 0x8000000000000000 0x7FF8000000000000 init_state)
    (compares F64 ext_le (any_snan F64 0x8000000000000000 0x7FF8000000000000)
       0x8000000000000000 0x7FF8000000000000) init_state.
Proof. split; [reflexivity|]. apply f64_le_ieee; unfold is_pattern; simpl; lia. Defined.

(** [f64_classify] sets exactly the bit of the operand's class, of the ten that
    the FCLASS instructions know. *)
Theorem f64_classify_class a : is_pattern F64 a -> f64_classify a = 2 ^ class_bit F64 a.
Proof.
  intros Ha. unfold f64_classify, class_bit. cbv zeta.
  rewrite isNaNF64UI_nan, isSigNaNF64UI_snan, signF64UI_sign, expF64UI_expo, fracF64UI_frac by done.
  rewrite (is_nan_fields F64), (is_inf_fields F64), (is_zero_fields F64).
  cbn [ewidth F64]. change (2 ^ 11 - 1) with 2047. change 0x7FF with 2047.
  assert ((expo F64 a =? 2047) = true -> (expo F64 a =? 0) = false) as H0 by (rewrite Z.eqb_eq; by intros ->).
  destruct (expo F64 a =? 2047); [rewrite H0 by done|destruct (expo F64 a =? 0)];
    destruct (frac F64 a =? 0), (sign_of F64 a), (is_snan F64 a); reflexivity.
Qed.

(** Minus infinity is of class 0. *)
Lemma f64_classify_class_witness :
  f64_classify 0xFFF0000000000000 = 1 /\
  f64_classify 0xFFF0000000000000 = 2 ^ class_bit F64 0xFFF0000000000000.
Proof. split; [reflexivity|]. apply f64_classify_class; try (by split); unfold is_pattern; simpl; lia. Defined.
