(* ===== verification/SoftConv.v ===== *)
(** * SoftFloat: conversions from integers and between formats

    i32_to_f32, ui32_to_f32, i64_to_f32, ui64_to_f32, the same four to f64, and
    f32_to_f64 and f64_to_f32.  Each is the correctly rounded value of its
    operand; the conversions to a wider format are exact. *)

From Stdlib Require Import ZArith Lia Reals Lra.
From stdpp Require Import base tactics list numbers.
From S2P Require Import Prelude Ieee SoftFloat SoftRound.

Definition i32_to_f32 (a : Z) (st : softfloat_state) : Z * softfloat_state :=
  let sign := a <? 0 in
  if Z.land a 0x7FFFFFFF =? 0 then (if sign then u32 (packToF32UI true 0x9E 0) else 0, st)
  else
    let absA := if sign then u64 (- u64 a) else u64 a in
    softfloat_normRoundPackToF32 sign 0x9C absA st.

Definition ui32_to_f32 (a : Z) (st : softfloat_state) : Z * softfloat_state :=
  if a =? 0 then (0, st)
  else if negb (Z.land a 0x80000000 =? 0)
  then softfloat_roundPackToF32 false 0x9D (Z.lor (Z.shiftr a 1) (Z.land a 1)) st
  else softfloat_normRoundPackToF32 false 0x9C a st.

Definition i64_to_f32 (a : Z) (st : softfloat_state) : Z * softfloat_state :=
  let sign := a <? 0 in
  let absA := if sign then u64 (- u64 a) else u64 a in
  let shiftDist := s8 (softfloat_countLeadingZeros64 absA - 40) in
  if 0 <=? shiftDist then
    (u32 (if negb (a =? 0)
          then packToF32UI sign (0x95 - shiftDist) (u64 (Z.shiftl absA shiftDist)) else 0), st)
  else
    let shiftDist := s8 (shiftDist + 7) in
    let sig := if shiftDist <? 0 then softfloat_shortShiftRightJam64 absA (- shiftDist)
               else u64 (Z.shiftl absA shiftDist) in
    softfloat_roundPackToF32 sign (0x9C - shiftDist) sig st.

Definition ui64_to_f32 (a : Z) (st : softfloat_state) : Z * softfloat_state :=
  let shiftDist := s8 (softfloat_countLeadingZeros64 a - 40) in
  if 0 <=? shiftDist then
    (u32 (if negb (a =? 0)
          then packToF32UI false (0x95 - shiftDist) (u64 (Z.shiftl a shiftDist)) else 0), st)
  else
    let shiftDist := s8 (shiftDist + 7) in
    let sig := if shiftDist <? 0 then softfloat_shortShiftRightJam64 a (- shiftDist)
               else u64 (Z.shiftl a shiftDist) in
    softfloat_roundPackToF32 false (0x9C - shiftDist) sig st.

Definition i32_to_f64 (a : Z) (st : softfloat_state) : Z * softfloat_state :=
  let uiZ :=
    if a =? 0 then 0
    else
      let sign := a <? 0 in
      let absA := if sign then u64 (- u64 a) else u64 a in
      let shiftDist := s8 (softfloat_countLeadingZeros32 absA + 21) in
      packToF64UI sign (0x432 - shiftDist) (u64 (Z.shiftl absA shiftDist)) in
  (u64 uiZ, st).

Definition ui32_to_f64 (a : Z) (st : softfloat_state) : Z * softfloat_state :=
  let uiZ :=
    if a =? 0 then 0
    else
      let shiftDist := s8 (softfloat_countLeadingZeros32 a + 21) in
      packToF64UI false (0x432 - shiftDist) (u64 (Z.shiftl a shiftDist)) in
  (u64 uiZ, st).

Definition i64_to_f64 (a : Z) (st : softfloat_state) : Z * softfloat_state :=
  let sign := a <? 0 in
  if Z.land a 0x7FFFFFFFFFFFFFFF =? 0 then (if sign then u64 (packToF64UI true 0x43E 0) else 0, st)
  else
    let absA := if sign then u64 (- u64 a) else u64 a in
    softfloat_normRoundPackToF64 sign 0x43C absA st.

Definition ui64_to_f64 (a : Z) (st : softfloat_state) : Z * softfloat_state :=
  if a =? 0 then (0, st)
  else if negb (Z.land a 0x8000000000000000 =? 0)
  then softfloat_roundPackToF64 false 0x43D (softfloat_shortShiftRightJam64 a 1) st
  else softfloat_normRoundPackToF64 false 0x43C a st.

Definition f32_to_f64 (a : Z) (st : softfloat_state) : Z * softfloat_state :=
  let sign := signF32UI a in
  let exp := expF32UI a in
  let frac := fracF32UI a in
  if exp =? 0xFF then
    if negb (frac =? 0)
    then (u64 softfloat_commonNaNToF64UI, softfloat_f32UIToCommonNaN a st)
    else (u64 (packToF64UI sign 0x7FF 0), st)
  else if (exp =? 0) && (frac =? 0) then (u64 (packToF64UI sign 0 0), st)
  else
    let normExpSig := softfloat_normSubnormalF32Sig frac in
    let '(exp, frac) := if exp =? 0 then (exp32 normExpSig - 1, sig32 normExpSig) else (exp, frac) in
    (u64 (packToF64UI sign (exp + 0x380) (u64 (Z.shiftl frac 29))), st).

Definition f64_to_f32 (a : Z) (st : softfloat_state) : Z * softfloat_state :=
  let sign := signF64UI a in
  let exp := expF64UI a in
  let frac := fracF64UI a in
  if exp =? 0x7FF then
    if negb (frac =? 0)
    then (u32 softfloat_commonNaNToF32UI, softfloat_f64UIToCommonNaN a st)
    else (u32 (packToF32UI sign 0xFF 0), st)
  else
    let frac32 := softfloat_shortShiftRightJam64 frac 22 in
    if Z.lor exp frac32 =? 0 then (u32 (packToF32UI sign 0 0), st)
    else softfloat_roundPackToF32 sign (exp - 0x381) (Z.lor frac32 0x40000000) st.

(** ** What they should give *)

Definition ieee_of_int (F : format) (m : mode) (n : Z) (u fl : Z) : Prop :=
  rounds_to F m false (IZR n) u fl.

Definition ieee_convert (F G : format) (m : mode) (a u fl : Z) : Prop :=
  if is_nan F a then nan_result G (is_snan F a) u fl
  else if is_inf F a then u = infinity G (sign_of F a) /\ fl = 0
  else rounds_to G m (sign_of F a) (value F a) u fl.

(** ** Integers *)

Lemma of_int_zero F m : ieee_of_int F m 0 0 0.
Proof. left. split_and!; done. Qed.

(** The magnitude and the sign, apart. *)
Lemma of_int_signed F m (s : bool) n u fl :
  0 < n -> rounded F m s (IZR n) u fl -> ieee_of_int F m (if s then - n else n) u fl.
Proof.
  intros Hn Hr. unfold ieee_of_int. apply (IZR_lt 0) in Hn.
  pose proof (rounds_to_signed F m false s (IZR n) u fl Hn Hr). destruct s; by rewrite ?opp_IZR.
Qed.

(** The same as a value: nothing is rounded. *)
Definition exactly (F : format) (r : R) (u fl : Z) : Prop :=
  is_finite F u = true /\ value F u = r /\ fl = 0.

Lemma pack_value F `{ValidFormat F} (s : bool) e n :
  0 <= e -> 0 <= n < 2 ^ prec F -> e = 0 \/ 2 ^ (prec F - 1) <= n -> e + 1 < 2 ^ ewidth F - 1 ->
  let x := (IZR n * bpow (e + emin F))%R in
  exactly F (if s then - x else x) (signed F s (e * 2 ^ (prec F - 1) + n)) 0.
Proof.
  intros He Hn Hd Hlt x. pose proof (pow_prec F). pose proof (pow_prec_pos F). pose proof (inf_mag_lt F).
  assert (0 <= e * 2 ^ (prec F - 1) + n < inf_mag F) as Hm by (unfold inf_mag; nia).
  split_and!; [apply Z.ltb_lt; rewrite signed_mag; lia| |done].
  unfold value. rewrite signed_sign, absval_signed by (done || lia). done.
Qed.

(** The magnitude, computed without overflow. *)
Lemma u64_abs a :
  - 2 ^ 63 <= a < 2 ^ 63 -> (if a <? 0 then u64 (- u64 a) else u64 a) = Z.abs a.
Proof.
  intros Ha. unfold u64. destruct (Z.ltb_spec a 0).
  - rewrite <-Z.sub_0_l, Zminus_mod_idemp_r, Z.sub_0_l, Z.mod_small; lia.
  - rewrite Z.mod_small; lia.
Qed.

(** A normalised significand that is exact. *)
Lemma pack_exact F `{ValidFormat F} m s e n (x : R) :
  0 <= e -> 2 ^ (prec F - 1) <= n < 2 ^ prec F -> e + 1 < 2 ^ ewidth F - 1 ->
  x = (IZR n * bpow (e + emin F))%R ->
  rounded F m s x (signed F s (e * 2 ^ (prec F - 1) + n)) 0.
Proof.
  intros He Hn Hlt Hx. pose proof (pow_prec F). pose proof (pow_prec_pos F).
  apply rounded_exact; try lia; try done. unfold inf_mag. nia.
Qed.

(** ** Integers of 32 bits into F32 *)

(** [normRoundPack] on an integer below 2^31. *)
Lemma normRoundPackF32_int m (s : bool) n st :
  in_mode m st -> 0 < n < 2 ^ 31 ->
  returns (softfloat_normRoundPackToF32 s 0x9C n st) (ieee_of_int F32 m (if s then - n else n)) st.
Proof.
  intros Hst Hn. eapply returns_mono.
  - apply (normRoundPackToF32_rounded m s _ n (IZR n) (IZR n)); [done|lia|lia|by left|].
    change (0x9C - 7 + emin F32) with 0. rewrite bpow_0. lra.
  - intros u fl Hr. apply of_int_signed; [lia|done].
Qed.

Lemma low_bits_zero32 a : - 2 ^ 31 <= a < 2 ^ 31 -> Z.land a 0x7FFFFFFF = 0 -> a = 0 \/ a = - 2 ^ 31.
Proof. intros Ha. change 0x7FFFFFFF with (2 ^ 31 - 1). rewrite land_ones_mod by lia. divlia. Qed.

(** [i32_to_f32] gives the correctly rounded value of every 32-bit signed
    integer, the most negative one included. *)
Theorem i32_to_f32_rounded m a st :
  in_mode m st -> - 2 ^ 31 <= a < 2 ^ 31 ->
  returns (i32_to_f32 a st) (ieee_of_int F32 m a) st.
Proof.
  intros Hst Ha. unfold i32_to_f32. cbv zeta.
  destruct (Z.eqb_spec (Z.land a 0x7FFFFFFF) 0) as [E|E].
  - destruct (low_bits_zero32 a Ha E) as [->| ->].
    + apply returns_pure, of_int_zero.
    + apply returns_pure. change (- 2 ^ 31) with (if true then - (2 ^ 31) else 2 ^ 31).
      apply of_int_signed; [done|].
      replace (u32 (packToF32UI true 0x9E 0)) with (signed F32 true ((0x9E - 1) * 2 ^ (prec F32 - 1) + 2 ^ (prec F32 - 1)))
        by (by vm_compute).
      apply pack_exact; [apply _|lia|by vm_compute|by vm_compute|].
      rewrite <-!bpow_IZR, <-bpow_add by (vm_compute; congruence). f_equal.
  - rewrite u64_abs by lia. pose proof (normRoundPackF32_int m (a <? 0) (Z.abs a) st Hst) as Hr.
    assert (a <> - 2 ^ 31) by (intros ->; done). assert (a <> 0) by (intros ->; done).
    replace (if a <? 0 then - Z.abs a else Z.abs a) with a in Hr by (case_match; lia).
    apply Hr. lia.
Qed.

(** [ui32_to_f32] gives the correctly rounded value of every 32-bit unsigned
    integer. *)
Theorem ui32_to_f32_rounded m a st :
  in_mode m st -> 0 <= a < 2 ^ 32 ->
  returns (ui32_to_f32 a st) (ieee_of_int F32 m a) st.
Proof.
  intros Hst Ha. unfold ui32_to_f32.
  destruct (Z.eqb_spec a 0) as [->|Hz]; [apply returns_pure, of_int_zero|].
  change 0x80000000 with (1 * 2 ^ 31). rewrite land_high, (Z.land_ones _ 1) by lia.
  assert (0 <= a / 2 ^ 31 <= 1) as Hq by divlia. rewrite Z.mod_small by (change (2 ^ 1) with 2; lia).
  destruct (Z.eqb_spec (a / 2 ^ 31 * 2 ^ 31) 0) as [E|E]; cbn [negb].
  - apply (normRoundPackF32_int m false a st Hst). divlia.
  - assert (2 ^ 31 <= a) as Hge by divlia.
    assert (Z.lor (Z.shiftr a 1) (Z.land a 1) = jam_shift a 1) as ->.
    { unfold jam_shift. rewrite Z.shiftr_div_pow2 by lia. f_equal.
      change 1 with (2 ^ 1 - 1) at 1. rewrite land_ones_mod by lia. change (2 ^ 1) with 2.
      destruct (Z.eqb_spec (a mod 2) 0) as [->|]; [done|]. cbn [negb Z.b2z]. divlia. }
    eapply returns_mono.
    + apply (roundPackToF32_rounded m false 0x9D (jam_shift a 1) (IZR a * bpow (- 1)) (IZR a)); [done|lia| | |].
      * apply (jam_shift_pow 1 31); [lia..|]. split; [done|apply Ha].
      * by apply (agrees_jam _ 1).
      * rewrite Rmult_assoc, <-bpow_add. change (- 1 + (0x9D - 7 + emin F32)) with 0. rewrite bpow_0. lra.
    + intros u fl Hr. apply (of_int_signed _ _ false); [lia|done].
Qed.

(** ** Integers of 64 bits into F64 *)

(** [normRoundPack] on an integer below 2^63. *)
Lemma normRoundPackF64_int m (s : bool) n st :
  in_mode m st -> 0 < n < 2 ^ 63 ->
  returns (softfloat_normRoundPackToF64 s 0x43C n st) (ieee_of_int F64 m (if s then - n else n)) st.
Proof.
  intros Hst Hn. eapply returns_mono.
  - apply (normRoundPackToF64_rounded m s _ n (IZR n) (IZR n)); [done|lia|lia|by left|].
    change (0x43C - 10 + emin F64) with 0. rewrite bpow_0. lra.
  - intros u fl Hr. apply of_int_signed; [lia|done].
Qed.

Lemma low_bits_zero64 a : - 2 ^ 63 <= a < 2 ^ 63 -> Z.land a 0x7FFFFFFFFFFFFFFF = 0 -> a = 0 \/ a = - 2 ^ 63.
Proof. intros Ha. change 0x7FFFFFFFFFFFFFFF with (2 ^ 63 - 1). rewrite land_ones_mod by lia. divlia. Qed.

(** [i64_to_f64] gives the correctly rounded value of every 64-bit signed
    integer, the most negative one included. *)
Theorem i64_to_f64_rounded m a st :
  in_mode m st -> - 2 ^ 63 <= a < 2 ^ 63 ->
  returns (i64_to_f64 a st) (ieee_of_int F64 m a) st.
Proof.
  intros Hst Ha. unfold i64_to_f64. cbv zeta.
  destruct (Z.eqb_spec (Z.land a 0x7FFFFFFFFFFFFFFF) 0) as [E|E].
  - destruct (low_bits_zero64 a Ha E) as [->| ->].
    + apply returns_pure, of_int_zero.
    + apply returns_pure. change (- 2 ^ 63) with (if true then - (2 ^ 63) else 2 ^ 63).
      apply of_int_signed; [done|].
      replace (u64 (packToF64UI true 0x43E 0)) with (signed F64 true ((0x43E - 1) * 2 ^ (prec F64 - 1) + 2 ^ (prec F64 - 1)))
        by (by vm_compute).
      apply pack_exact; [apply _|lia|by vm_compute|by vm_compute|].
      rewrite <-!bpow_IZR, <-bpow_add by (vm_compute; congruence). f_equal.
  - rewrite u64_abs by lia. pose proof (normRoundPackF64_int m (a <? 0) (Z.abs a) st Hst) as Hr.
    assert (a <> - 2 ^ 63) by (intros ->; done). assert (a <> 0) by (intros ->; done).
    replace (if a <? 0 then - Z.abs a else Z.abs a) with a in Hr by (case_match; lia).
    apply Hr. lia.
Qed.

(** [ui64_to_f64] gives the correctly rounded value of every 64-bit unsigned
    integer. *)
Theorem ui64_to_f64_rounded m a st :
  in_mode m st -> 0 <= a < 2 ^ 64 ->
  returns (ui64_to_f64 a st) (ieee_of_int F64 m a) st.
Proof.
  intros Hst Ha. unfold ui64_to_f64.
  destruct (Z.eqb_spec a 0) as [->|Hz]; [apply returns_pure, of_int_zero|].
  change 0x8000000000000000 with (1 * 2 ^ 63). rewrite land_high, (Z.land_ones _ 1) by lia.
  assert (0 <= a / 2 ^ 63 <= 1) as Hq by divlia. rewrite Z.mod_small by (change (2 ^ 1) with 2; lia).
  destruct (Z.eqb_spec (a / 2 ^ 63 * 2 ^ 63) 0) as [E|E]; cbn [negb].
  - apply (normRoundPackF64_int m false a st Hst). divlia.
  - assert (2 ^ 63 <= a) as Hge by divlia.
    rewrite shortShiftRightJam64_jam by lia.
    eapply returns_mono.
    + apply (roundPackToF64_rounded m false 0x43D (jam_shift a 1) (IZR a * bpow (- 1)) (IZR a)); [done|lia| | |].
      * apply (jam_shift_pow 1 63); [lia..|]. split; [done|apply Ha].
      * by apply (agrees_jam _ 1).
      * rewrite Rmult_assoc, <-bpow_add. change (- 1 + (0x43D - 10 + emin F64)) with 0. rewrite bpow_0. lra.
    + intros u fl Hr. apply (of_int_signed _ _ false); [lia|done].
Qed.

(** ** Integers of one width into the other format *)

Lemma norm_jam n :
  0 < n ->
  let d := 30 - Z.log2 n in
  let sig := if d <? 0 then jam_shift n (- d) else n * 2 ^ d in
  2 ^ 30 <= sig < 2 ^ 31 /\ agrees 6 (IZR n * bpow d) sig.
Proof.
  intros Hn d sig. pose proof (Z.log2_spec n Hn) as Hl. unfold Z.succ in Hl. pose proof (Z.log2_nonneg n).
  unfold sig. destruct (Z.ltb_spec d 0).
  - split.
    + apply (jam_shift_pow (- d) 31); [lia..|].
      replace (- d + 31 - 1) with (Z.log2 n) by lia. replace (- d + 31) with (Z.log2 n + 1) by lia. done.
    + replace d with (- - d) at 1 by lia. apply agrees_jam; lia.
  - split.
    + assert (2 ^ Z.log2 n * 2 ^ d = 2 ^ 30) by (rewrite <-Z.pow_add_r by lia; f_equal; lia).
      assert (2 ^ (Z.log2 n + 1) * 2 ^ d = 2 ^ 31) by (rewrite <-Z.pow_add_r by lia; f_equal; lia).
      pose proof (Z.pow_pos_nonneg 2 d). nia.
    + rewrite <-IZR_bpow by lia. apply (agrees_mono 0); [lia|]. apply agrees_exact.
Qed.

Lemma s8_small z : -128 <= z < 128 -> s8 z = z.
Proof. intros. unfold s8. rewrite Z.mod_small; lia. Qed.

(** What [i64_to_f32] and [ui64_to_f32] do with a magnitude. *)
Lemma wide_int_to_f32 m (s : bool) n st :
  in_mode m st -> 0 < n < 2 ^ 64 ->
  returns
    (let shiftDist := s8 (softfloat_countLeadingZeros64 n - 40) in
     if 0 <=? shiftDist then
       (u32 (packToF32UI s (0x95 - shiftDist) (u64 (Z.shiftl n shiftDist))), st)
     else
       let shiftDist := s8 (shiftDist + 7) in
       let sig := if shiftDist <? 0 then softfloat_shortShiftRightJam64 n (- shiftDist)
                  else u64 (Z.shiftl n shiftDist) in
       softfloat_roundPackToF32 s (0x9C - shiftDist) sig st)
    (ieee_of_int F32 m (if s then - n else n)) st.
Proof.
  intros Hst Hn. rewrite countLeadingZeros64_log2 by lia.
  pose proof (Z.log2_nonneg n). assert (Z.log2 n < 64) by (apply Z.log2_lt_pow2; lia).
  cbv zeta. rewrite (s8_small (63 - Z.log2 n - 40)) by lia. set (sd := 63 - Z.log2 n - 40) in *.
  pose proof (Z.log2_spec n ltac:(lia)) as Hl. unfold Z.succ in Hl.
  destruct (Z.leb_spec 0 sd).
  - assert (2 ^ 23 <= n * 2 ^ sd < 2 ^ 24) as Hsig.
    { assert (2 ^ Z.log2 n * 2 ^ sd = 2 ^ 23) by (rewrite <-Z.pow_add_r by lia; f_equal; lia).
      assert (2 ^ (Z.log2 n + 1) * 2 ^ sd = 2 ^ 24) by (rewrite <-Z.pow_add_r by lia; f_equal; lia).
      pose proof (Z.pow_pos_nonneg 2 sd). nia. }
    rewrite Z.shiftl_mul_pow2, u64_id by lia. apply returns_pure, of_int_signed; [lia|].
    rewrite packF32 by lia. rewrite u32_id.
    + apply (pack_exact F32); [lia|done|cbn [ewidth F32]; lia|]. rewrite IZR_bpow, Rmult_assoc, <-bpow_add by lia.
      replace (sd + (149 - sd + emin F32)) with 0 by (change (emin F32) with (-149); lia).
      rewrite bpow_0. lra.
    + apply signed_F32_range. cbn [prec F32]. lia.
  - rewrite (s8_small (sd + 7)) by lia. destruct (norm_jam n ltac:(lia)) as [Hsig Hag].
    set (d := 30 - Z.log2 n) in *. replace (sd + 7) with d by lia.
    set (sig := if d <? 0 then jam_shift n (- d) else n * 2 ^ d) in *.
    assert ((if d <? 0 then softfloat_shortShiftRightJam64 n (- d) else u64 (Z.shiftl n d)) = sig) as ->.
    { unfold sig. destruct (Z.ltb_spec d 0); [by rewrite shortShiftRightJam64_jam by lia|].
      rewrite Z.shiftl_mul_pow2, u64_id by lia. done. }
    eapply returns_mono.
    + apply (roundPackToF32_rounded m s _ sig (IZR n * bpow d) (IZR n)); [done|lia|done|done|].
      rewrite Rmult_assoc, <-bpow_add.
      replace (d + (156 - d - 7 + emin F32)) with 0 by (change (emin F32) with (-149); lia). rewrite bpow_0. lra.
    + intros u fl Hr. apply of_int_signed; [lia|done].
Qed.

(** [i64_to_f32] and [ui64_to_f32] give the correctly rounded value of every
    64-bit integer. *)
Theorem i64_to_f32_rounded m a st :
  in_mode m st ->
  (- 2 ^ 63 <= a < 2 ^ 63 -> returns (i64_to_f32 a st) (ieee_of_int F32 m a) st) /\
  (0 <= a < 2 ^ 64 -> returns (ui64_to_f32 a st) (ieee_of_int F32 m a) st).
Proof.
  intros Hst. split; intros Ha; [unfold i64_to_f32|unfold ui64_to_f32]; cbv zeta.
  - rewrite u64_abs by done. destruct (Z.eqb_spec a 0) as [->|Hz]; [apply returns_pure, of_int_zero|].
    pose proof (wide_int_to_f32 m (a <? 0) (Z.abs a) st Hst ltac:(lia)) as Hr.
    replace (if a <? 0 then - Z.abs a else Z.abs a) with a in Hr by (case_match; lia). apply Hr.
  - destruct (Z.eqb_spec a 0) as [->|Hz]; [apply returns_pure, of_int_zero|].
    apply (wide_int_to_f32 m false a st Hst). lia.
Qed.

Lemma small_int_to_f64 (s : bool) n st :
  0 < n < 2 ^ 32 ->
  returns
    (let shiftDist := s8 (softfloat_countLeadingZeros32 n + 21) in
     (u64 (packToF64UI s (0x432 - shiftDist) (u64 (Z.shiftl n shiftDist))), st))
    (exactly F64 (IZR (if s then - n else n))) st.
Proof.
  intros Hn. rewrite countLeadingZeros32_log2 by lia.
  pose proof (Z.log2_nonneg n). assert (Z.log2 n < 32) by (apply Z.log2_lt_pow2; lia).
  cbv zeta. rewrite (s8_small (31 - Z.log2 n + 21)) by lia. set (sd := 31 - Z.log2 n + 21) in *.
  pose proof (Z.log2_spec n ltac:(lia)) as Hl. unfold Z.succ in Hl.
  assert (2 ^ 52 <= n * 2 ^ sd < 2 ^ 53) as Hsig.
  { assert (2 ^ Z.log2 n * 2 ^ sd = 2 ^ 52) by (rewrite <-Z.pow_add_r by lia; f_equal; lia).
    assert (2 ^ (Z.log2 n + 1) * 2 ^ sd = 2 ^ 53) by (rewrite <-Z.pow_add_r by lia; f_equal; lia).
    pose proof (Z.pow_pos_nonneg 2 sd). nia. }
  rewrite Z.shiftl_mul_pow2, (u64_id (n * 2 ^ sd)) by lia. apply returns_pure.
  rewrite packF64 by lia. rewrite u64_id by (apply signed_F64_range; cbn [prec F64]; lia).
  replace (IZR (if s then - n else n))
    with (let x := IZR (n * 2 ^ sd) * bpow (1074 - sd + emin F64) in if s then - x else x)%R.
  { apply (pack_value F64); cbn [ewidth prec F64]; lia. }
  cbv zeta. rewrite IZR_bpow, Rmult_assoc, <-bpow_add by lia.
  replace (sd + (1074 - sd + emin F64)) with 0 by (change (emin F64) with (-1074); lia).
  rewrite bpow_0, Rmult_1_r. destruct s; by rewrite ?opp_IZR.
Qed.

Lemma zero_exactly F `{ValidFormat F} s : exactly F 0 (zero F s) 0.
Proof.
  pose proof (mag_range F (zero F s)). destruct (pow_ewidth F). pose proof (pow_prec_pos F).
  assert (0 < inf_mag F) by (unfold inf_mag; nia). pose proof (inf_mag_lt F).
  assert (mag F (zero F s) = 0) as E by (apply signed_mag; lia).
  split_and!; [by apply Z.ltb_lt; rewrite E| |done].
  unfold value. rewrite absval_zero by (try apply Z.eqb_eq; done). case_match; lra.
Qed.

(** [i32_to_f64] and [ui32_to_f64] are exact in every rounding mode. *)
Theorem i32_to_f64_exact a st :
  (- 2 ^ 31 <= a < 2 ^ 31 -> returns (i32_to_f64 a st) (exactly F64 (IZR a)) st) /\
  (0 <= a < 2 ^ 32 -> returns (ui32_to_f64 a st) (exactly F64 (IZR a)) st).
Proof.
  pose proof (returns_pure 0 (exactly F64 0) st (zero_exactly F64 false)) as H0.
  split; intros Ha; [unfold i32_to_f64|unfold ui32_to_f64]; cbv zeta.
  - rewrite u64_abs by lia. destruct (Z.eqb_spec a 0) as [->|Hz]; [done|].
    pose proof (small_int_to_f64 (a <? 0) (Z.abs a) st ltac:(lia)) as Hr.
    replace (if a <? 0 then - Z.abs a else Z.abs a) with a in Hr by (case_match; lia). apply Hr.
  - destruct (Z.eqb_spec a 0) as [->|Hz]; [done|]. apply (small_int_to_f64 false a st). lia.
Qed.

(** ** Between the formats *)

Lemma quiet_bit a k : 0 <= k -> (Z.land a (1 * 2 ^ k) =? 0) = negb (Z.testbit a k).
Proof.
  intros Hk. rewrite land_high, (Z.land_ones _ 1) by lia. change (2 ^ 1) with 2.
  rewrite Z.testbit_odd, Z.shiftr_div_pow2, Zmod_odd by lia. pose proof (Z.pow_pos_nonneg 2 k).
  destruct (Z.odd (a / 2 ^ k)); cbn [negb]; [apply Z.eqb_neq|apply Z.eqb_eq]; lia.
Qed.

Lemma f32UIToCommonNaN_flag a st :
  is_nan F32 a = true ->
  softfloat_f32UIToCommonNaN a st = softfloat_raiseFlags (flag_if (is_snan F32 a) flag_invalid) st.
Proof.
  intros Hn. unfold softfloat_f32UIToCommonNaN, is_snan. rewrite Hn.
  change 4194304 with (1 * 2 ^ 22). rewrite quiet_bit by lia. apply raise_if.
Qed.

Lemma f64UIToCommonNaN_flag a st :
  is_nan F64 a = true ->
  softfloat_f64UIToCommonNaN a st = softfloat_raiseFlags (flag_if (is_snan F64 a) flag_invalid) st.
Proof.
  intros Hn. unfold softfloat_f64UIToCommonNaN, is_snan. rewrite Hn.
  change 0x0008000000000000 with (1 * 2 ^ 51). rewrite quiet_bit by lia. apply raise_if.
Qed.

(** A conversion that loses nothing: the value, and the sign of a zero, stay. *)
Definition ieee_widen (F G : format) (a u fl : Z) : Prop :=
  if is_nan F a then nan_result G (is_snan F a) u fl
  else if is_inf F a then u = infinity G (sign_of F a) /\ fl = 0
  else exactly G (value F a) u fl /\ sign_of G u = sign_of F a.

(** [f32_to_f64] is exact: every single precision number keeps its value,
    subnormals included, infinities and zeros their signs. *)
Theorem f32_to_f64_exact a st :
  is_pattern F32 a -> returns (f32_to_f64 a st) (ieee_widen F32 F64 a) st.
Proof.
  intros Ha. unfold f32_to_f64. cbv zeta. unfold ieee_widen.
  rewrite signF32UI_sign, expF32UI_expo, fracF32UI_frac by done.
  pose proof (f32UIToCommonNaN_flag a st) as Hc. pose proof (norm_operandF32 a) as Hno.
  pose proof (zero_exactly F64 (sign_of F32 a)) as Hz0. pose proof (absval_zero F32 a) as Hv0.
  rewrite (is_finite_fields F32), (is_zero_fields F32) in Hno. rewrite (is_zero_fields F32) in Hv0.
  rewrite (is_nan_fields F32) in *. rewrite (is_inf_fields F32). cbn [ewidth F32] in *. change (2 ^ 8 - 1) with 255 in *.
  pose proof (expo_range F32 a) as Her. pose proof (frac_range F32 a) as Hfr. cbn [prec ewidth F32] in Her, Hfr.
  destruct (Z.eqb_spec (expo F32 a) 255) as [E|E]; cbn [andb negb] in *.
  { destruct (Z.eqb_spec (frac F32 a) 0) as [E'|E']; cbn [negb] in *.
    - apply returns_pure. split; [|done]. by destruct (sign_of F32 a).
    - rewrite Hc by done. by apply returns_raise. }
  clear Hc. destruct ((expo F32 a =? 0) && (frac F32 a =? 0)) eqn:Z0; cbn [negb] in *.
  { apply returns_pure. unfold value. rewrite Hv0 by done.
    replace (u64 (packToF64UI (sign_of F32 a) 0 0)) with (zero F64 (sign_of F32 a)) by (by destruct (sign_of F32 a)).
    replace (if sign_of F32 a then (- 0)%R else 0%R) with 0%R by (destruct (sign_of F32 a); rewrite ?Ropp_0; done).
    split; [done|]. by destruct (sign_of F32 a). }
  specialize (Hno eq_refl eq_refl). set (z := if expo F32 a =? 0 then _ else _) in *.
  destruct Hno as (HS & He & Hv). set (SH := Z.lor (sig32 z) (2 ^ 23)) in *.
  assert ((let '(exp, frac) :=
             if expo F32 a =? 0
             then (exp32 (softfloat_normSubnormalF32Sig (frac F32 a)) - 1, sig32 (softfloat_normSubnormalF32Sig (frac F32 a)))
             else (expo F32 a, frac F32 a) in
           (u64 (packToF64UI (sign_of F32 a) (exp + 896) (u64 (Z.shiftl frac 29))), st)) =
          (signed F64 (sign_of F32 a) ((exp32 z + 895) * 2 ^ 52 + SH * 2 ^ 29), st)) as ->.
  { unfold SH, z in *. destruct (Z.eqb_spec (expo F32 a) 0) as [Ez|Ez]; cbn [andb sig32 exp32] in *.
    - apply Z.eqb_neq in Z0.
      destruct (normSubnormalF32Sig_value (frac F32 a) ltac:(lia)) as (d & Hd & He' & _ & Hr).
      set (n := softfloat_normSubnormalF32Sig (frac F32 a)) in *. clearbody n z.
      assert (Z.lor (sig32 n) (2 ^ 23) = sig32 n) as ->.
      { replace (sig32 n) with (1 * 2 ^ 23 + (sig32 n - 2 ^ 23)) at 1 2 by lia.
        rewrite <-(lor_disjoint 1 _ 23) by lia. rewrite (Z.lor_comm (1 * _)), <-Z.lor_assoc.
        by rewrite Z.lor_diag. }
      rewrite Z.shiftl_mul_pow2, (u64_id (sig32 n * _)) by lia. rewrite packF64 by lia.
      rewrite u64_id by (apply signed_F64_range; lia). do 2 f_equal. lia.
    - rewrite Z.shiftl_mul_pow2, (u64_id (frac F32 a * _)) by lia. rewrite packF64 by lia.
      rewrite u64_id by (apply signed_F64_range; lia). do 2 f_equal.
      replace (Z.lor (frac F32 a) (2 ^ 23)) with (frac F32 a + 2 ^ 23); [lia|].
      rewrite Z.lor_comm, Z.add_comm. symmetry. apply (lor_disjoint 1 _ 23); lia. }
  apply returns_pure. split.
  - pose proof (pack_value F64 (sign_of F32 a) (exp32 z + 895) (SH * 2 ^ 29)) as Hp. cbv zeta in Hp.
    unfold value. rewrite Hv.
    replace (IZR (SH * 2 ^ 29) * bpow (exp32 z + 895 + emin F64))%R
      with (IZR SH * bpow (exp32 z - 1 + emin F32))%R in Hp.
    { apply Hp; cbn [ewidth prec F64]; lia. }
    rewrite IZR_bpow, Rmult_assoc, <-bpow_add by lia. do 2 f_equal. change (emin F64) with (-1074). change (emin F32) with (-149). lia.
  - apply (signed_sign F64). cbn [prec ewidth F64]. lia.
Qed.

(** Far below the subnormal numbers only the sticky bit is left. *)
Lemma pack_result_deep m s e sig e' sig' :
  e <= -40 -> e' <= -40 -> 0 < sig < 2 ^ 31 -> 0 < sig' < 2 ^ 31 ->
  pack_result F32 m s 7 e sig = pack_result F32 m s 7 e' sig'.
Proof.
  assert (forall e sig, e <= -40 -> 0 < sig < 2 ^ 31 -> jam_shift sig (- e) = 1) as Hj.
  { intros x y Hx Hy. rewrite jam_shift_small; [|split; [lia|]|lia].
    - by rewrite (proj2 (Z.eqb_neq y 0)) by lia.
    - apply Z.lt_le_trans with (2 ^ 31); [lia|]. apply Z.pow_le_mono_r; lia. }
  intros He He' Hs Hs'. unfold pack_result.
  rewrite !(proj2 (Z.ltb_lt _ 0)), !(proj2 (Z.ltb_lt _ (-1))) by lia. by rewrite !Hj.
Qed.

Lemma f64_to_f32_finite m a st :
  in_mode m st -> is_pattern F64 a -> is_finite F64 a = true -> is_zero F64 a = false ->
  returns (softfloat_roundPackToF32 (sign_of F64 a) (expo F64 a - 0x381)
             (Z.lor (jam_shift (frac F64 a) 22) 0x40000000) st)
    (rounded F32 m (sign_of F64 a) (absval F64 a)) st.
Proof.
  intros Hst Ha Hf Hz. rewrite (is_finite_fields F64), negb_true_iff, Z.eqb_neq in Hf.
  rewrite (is_zero_fields F64) in Hz. cbn [ewidth F64] in Hf. change (2 ^ 11 - 1) with 2047 in Hf.
  pose proof (expo_range F64 a) as Her. pose proof (frac_range F64 a) as Hfr. cbn [prec ewidth F64] in Her, Hfr.
  change (53 - 1) with 52 in Hfr. change (2 ^ 11) with 2048 in Her.
  assert (Z.lor (jam_shift (frac F64 a) 22) (2 ^ 30) = jam_shift (2 ^ 52 + frac F64 a) 22) as Hj.
  { unfold jam_shift. replace (2 ^ 52 + frac F64 a) with (frac F64 a + 2 ^ 30 * 2 ^ 22) by lia.
    rewrite Z.div_add, Z.mod_add by lia. set (q := frac F64 a / 2 ^ 22).
    assert (0 <= q < 2 ^ 30) by (unfold q; divlia).
    replace (q + 2 ^ 30) with (Z.lor (1 * 2 ^ 30) q) by (rewrite lor_disjoint by lia; lia).
    rewrite <-!Z.lor_assoc. rewrite (Z.lor_comm (1 * _)), <-!Z.lor_assoc. f_equal. }
  change 0x40000000 with (2 ^ 30). rewrite Hj.
  assert (2 ^ 30 <= jam_shift (2 ^ 52 + frac F64 a) 22 < 2 ^ 31) as Hsig by (apply (jam_shift_pow 22 31); lia).
  unfold absval. case_decide as Ex.
  - rewrite Ex in Hz |- *. cbn [andb Z.eqb] in Hz. apply Z.eqb_neq in Hz.
    rewrite (roundPackToF32_pack m) by (done || lia).
    destruct (norm_jam (frac F64 a) ltac:(lia)) as [Hs' Hag].
    pose proof (Z.log2_nonneg (frac F64 a)).
    assert (Z.log2 (frac F64 a) < 52) by (apply Z.log2_lt_pow2; lia).
    set (d := 30 - Z.log2 (frac F64 a)) in *. set (sig' := if d <? 0 then _ else _) in *.
    rewrite (pack_result_deep m _ _ _ (-918 - d) sig') by lia.
    apply returns_raise, (pack_result_rounded F32 m _ 7 ltac:(lia) (IZR (frac F64 a) * bpow d)); [done|done|].
    rewrite Rmult_assoc, <-bpow_add. do 2 f_equal. change (emin F64) with (-1074). change (emin F32) with (-149). lia.
  - apply (roundPackToF32_rounded m _ _ _ (IZR (2 ^ 52 + frac F64 a) * bpow (- 22))); [done|lia|done| |].
    + by apply (agrees_jam 6 22).
    + change (prec F64 - 1) with 52. rewrite Rmult_assoc, <-bpow_add. do 2 f_equal.
      change (emin F64) with (-1074). change (emin F32) with (-149). lia.
Qed.

(** [f64_to_f32] is the correctly rounded conversion of double to single
    precision, with the flags of IEEE 754. *)
Theorem f64_to_f32_returns m a st :
  in_mode m st -> is_pattern F64 a ->
  returns (f64_to_f32 a st) (ieee_convert F64 F32 m a) st.
Proof.
  intros Hst Ha. unfold f64_to_f32. cbv zeta. unfold ieee_convert.
  rewrite signF64UI_sign, expF64UI_expo, fracF64UI_frac by done.
  rewrite shortShiftRightJam64_jam by (pose proof (frac_range F64 a); cbn [prec F64] in *; lia).
  pose proof (f64UIToCommonNaN_flag a st) as Hc. pose proof (f64_to_f32_finite m a st Hst Ha) as Hfin.
  pose proof (absval_zero F64 a) as Hv0. pose proof (absval_pos F64 a) as Hp.
  rewrite (is_finite_fields F64), (is_zero_fields F64) in Hfin. rewrite (is_zero_fields F64) in Hv0, Hp.
  rewrite (is_nan_fields F64) in *. rewrite (is_inf_fields F64). cbn [ewidth F64] in *. change (2 ^ 11 - 1) with 2047 in *.
  pose proof (frac_range F64 a) as Hfr. cbn [prec F64] in Hfr.
  destruct (Z.eqb_spec (expo F64 a) 2047) as [E|E]; cbn [andb negb] in *.
  { destruct (Z.eqb_spec (frac F64 a) 0) as [E'|E']; cbn [negb] in *.
    - apply returns_pure. split; [|done]. by destruct (sign_of F64 a).
    - rewrite Hc by done. by apply returns_raise. }
  assert ((Z.lor (expo F64 a) (jam_shift (frac F64 a) 22) =? 0) = (expo F64 a =? 0) && (frac F64 a =? 0)) as ->.
  { apply Bool.eq_iff_eq_true. rewrite andb_true_iff, !Z.eqb_eq, Z.lor_eq_0_iff.
    pose proof (jam_shift_cases (frac F64 a) 22 ltac:(lia)) as Hj. split; intros [-> ?]; (split; [done|]).
    - destruct Hj as [[Hj Hq]|(_ & Ho & _)]; [rewrite Hj, <-Hq; lia|]. by rewrite H in Ho.
    - by rewrite H. }
  destruct ((expo F64 a =? 0) && (frac F64 a =? 0)); cbn [negb] in *.
  { apply returns_pure. left. unfold value. rewrite Hv0 by done.
    split_and!; [case_match; lra|by destruct (sign_of F64 a)|done]. }
  eapply returns_mono; [by apply Hfin|]. intros u fl Hr. apply rounds_to_signed; [by apply Hp|done].
Qed.

