(* ===== verification/SoftToInt.v ===== *)
(** * SoftFloat: conversions to integers

    f32_to_i32, f32_to_ui32, f32_to_i64, f32_to_ui64, the same four from f64, and
    the rounding they end with (s_roundToI32.c and its siblings).  The theorem of
    each: the operand is rounded to an integer in the direction asked for; what
    does not fit, or is not a number, gives the bound the RISC-V instructions
    give and the invalid flag. *)

From Stdlib Require Import ZArith Lia Reals Lra.
From stdpp Require Import base tactics list numbers.
From S2P Require Import Prelude Ieee SoftFloat SoftRound.

(** specialize.h: the results that do not fit, as numbers of the result's type. *)
Definition ui32_fromPosOverflow : Z := 0xFFFFFFFF.
Definition ui32_fromNegOverflow : Z := 0.
Definition ui32_fromNaN : Z := 0xFFFFFFFF.
Definition i32_fromPosOverflow : Z := 0x7FFFFFFF.
Definition i32_fromNegOverflow : Z := - 0x7FFFFFFF - 1.
Definition i32_fromNaN : Z := 0x7FFFFFFF.
Definition ui64_fromPosOverflow : Z := 0xFFFFFFFFFFFFFFFF.
Definition ui64_fromNegOverflow : Z := 0.
Definition ui64_fromNaN : Z := 0xFFFFFFFFFFFFFFFF.
Definition i64_fromPosOverflow : Z := 0x7FFFFFFFFFFFFFFF.
Definition i64_fromNegOverflow : Z := - 0x7FFFFFFFFFFFFFFF - 1.
Definition i64_fromNaN : Z := 0x7FFFFFFFFFFFFFFF.

(** A significand and the bits shifted out below it. *)
Record uint64_extra := Uint64Extra { extra : Z; v : Z }.

Definition softfloat_shiftRightJam64Extra (a extra dist : Z) : uint64_extra :=
  let dist := u64 dist in
  let v := if dist <? 64 then Z.shiftr a dist else 0 in
  let e := if dist <? 64 then u64 (Z.shiftl a (Z.land (- dist) 63))
           else if dist =? 64 then a else Z.b2z (negb (a =? 0)) in
  Uint64Extra (Z.lor e (Z.b2z (negb (extra =? 0)))) v.

(** ** Rounding to 32 bits: 12 bits of the significand lie below the point *)

Definition roundIncrement12 (sign : bool) (roundingMode : Z) : Z :=
  if negb (roundingMode =? softfloat_round_near_even)
     && negb (roundingMode =? softfloat_round_near_maxMag)
  then if roundingMode =? (if sign then softfloat_round_min else softfloat_round_max)
       then 0xFFF else 0
  else 0x800.

Definition softfloat_roundToI32 (sign : bool) (sig roundingMode : Z) (exact : bool)
    (st : softfloat_state) : Z * softfloat_state :=
  let invalid := (if sign then i32_fromNegOverflow else i32_fromPosOverflow,
                  softfloat_raiseFlags softfloat_flag_invalid st) in
  let roundNearEven := roundingMode =? softfloat_round_near_even in
  let roundBits := Z.land sig 0xFFF in
  let sig := u64 (sig + roundIncrement12 sign roundingMode) in
  if negb (Z.land sig 0xFFFFF00000000000 =? 0) then invalid
  else
    let sig32 := Z.shiftr sig 12 in
    let sig32 := Z.land sig32 (Z.lnot (Z.b2z ((Z.lxor roundBits 0x800 =? 0) && roundNearEven))) in
    let z := s32 (if sign then u64 (- sig32) else sig32) in
    if negb (z =? 0) && xorb (z <? 0) sign then invalid
    else (z, if exact && negb (roundBits =? 0) then softfloat_raiseFlags softfloat_flag_inexact st else st).

Definition softfloat_roundToUI32 (sign : bool) (sig roundingMode : Z) (exact : bool)
    (st : softfloat_state) : Z * softfloat_state :=
  let invalid := (if sign then ui32_fromNegOverflow else ui32_fromPosOverflow,
                  softfloat_raiseFlags softfloat_flag_invalid st) in
  let roundNearEven := roundingMode =? softfloat_round_near_even in
  let roundBits := Z.land sig 0xFFF in
  let sig := u64 (sig + roundIncrement12 sign roundingMode) in
  if negb (Z.land sig 0xFFFFF00000000000 =? 0) then invalid
  else
    let z := Z.shiftr sig 12 in
    let z := Z.land z (Z.lnot (Z.b2z ((Z.lxor roundBits 0x800 =? 0) && roundNearEven))) in
    if sign && negb (z =? 0) then invalid
    else (z, if exact && negb (roundBits =? 0) then softfloat_raiseFlags softfloat_flag_inexact st else st).

(** ** Rounding to 64 bits: the bits below the point are a word of their own *)

Definition doIncrement (sign : bool) (roundingMode sigExtra : Z) : bool :=
  if negb (roundingMode =? softfloat_round_near_even)
     && negb (roundingMode =? softfloat_round_near_maxMag)
  then (roundingMode =? (if sign then softfloat_round_min else softfloat_round_max))
       && negb (sigExtra =? 0)
  else 0x8000000000000000 <=? sigExtra.

Definition softfloat_roundToI64 (sign : bool) (sig sigExtra roundingMode : Z) (exact : bool)
    (st : softfloat_state) : Z * softfloat_state :=
  let invalid := (if sign then i64_fromNegOverflow else i64_fromPosOverflow,
                  softfloat_raiseFlags softfloat_flag_invalid st) in
  let roundNearEven := roundingMode =? softfloat_round_near_even in
  let inc := doIncrement sign roundingMode sigExtra in
  let sig1 := u64 (sig + 1) in
  if inc && (sig1 =? 0) then invalid
  else
    let sig := if inc
               then Z.land sig1 (Z.lnot (Z.b2z ((Z.land sigExtra 0x7FFFFFFFFFFFFFFF =? 0) && roundNearEven)))
               else sig in
    let z := s64 (if sign then u64 (- sig) else sig) in
    if negb (z =? 0) && xorb (z <? 0) sign then invalid
    else (z, if exact && negb (sigExtra =? 0) then softfloat_raiseFlags softfloat_flag_inexact st else st).

Definition softfloat_roundToUI64 (sign : bool) (sig sigExtra roundingMode : Z) (exact : bool)
    (st : softfloat_state) : Z * softfloat_state :=
  let invalid := (if sign then ui64_fromNegOverflow else ui64_fromPosOverflow,
                  softfloat_raiseFlags softfloat_flag_invalid st) in
  let roundNearEven := roundingMode =? softfloat_round_near_even in
  let inc := doIncrement sign roundingMode sigExtra in
  let sig1 := u64 (sig + 1) in
  if inc && (sig1 =? 0) then invalid
  else
    let sig := if inc
               then Z.land sig1 (Z.lnot (Z.b2z ((Z.land sigExtra 0x7FFFFFFFFFFFFFFF =? 0) && roundNearEven)))
               else sig in
    if sign && negb (sig =? 0) then invalid
    else (sig, if exact && negb (sigExtra =? 0) then softfloat_raiseFlags softfloat_flag_inexact st else st).

(** ** From f32 *)

Definition f32_to_i32 (a roundingMode : Z) (exact : bool) (st : softfloat_state) : Z * softfloat_state :=
  let sign := signF32UI a in
  let exp := expF32UI a in
  let sig := fracF32UI a in
  let sign := if (exp =? 0xFF) && negb (sig =? 0) then false else sign in
  let sig := if negb (exp =? 0) then Z.lor sig 0x00800000 else sig in
  let sig64 := u64 (Z.shiftl sig 32) in
  let shiftDist := 0xAA - exp in
  let sig64 := if 0 <? shiftDist then softfloat_shiftRightJam64 sig64 shiftDist else sig64 in
  softfloat_roundToI32 sign sig64 roundingMode exact st.

Definition f32_to_i64 (a roundingMode : Z) (exact : bool) (st : softfloat_state) : Z * softfloat_state :=
  let sign := signF32UI a in
  let exp := expF32UI a in
  let sig := fracF32UI a in
  let shiftDist := 0xBE - exp in
  if shiftDist <? 0 then
    (if (exp =? 0xFF) && negb (sig =? 0) then i64_fromNaN
     else if sign then i64_fromNegOverflow else i64_fromPosOverflow,
     softfloat_raiseFlags softfloat_flag_invalid st)
  else
    let sig := if negb (exp =? 0) then Z.lor sig 0x00800000 else sig in
    let sig64 := u64 (Z.shiftl sig 40) in
    let sig64Extra := if negb (shiftDist =? 0) then softfloat_shiftRightJam64Extra sig64 0 shiftDist
                      else Uint64Extra 0 sig64 in
    softfloat_roundToI64 sign (v sig64Extra) (extra sig64Extra) roundingMode exact st.

Definition f32_to_ui32 (a roundingMode : Z) (exact : bool) (st : softfloat_state) : Z * softfloat_state :=
  let sign := signF32UI a in
  let exp := expF32UI a in
  let sig := fracF32UI a in
  let sign := if (exp =? 0xFF) && negb (sig =? 0) then false else sign in
  let sig := if negb (exp =? 0) then Z.lor sig 0x00800000 else sig in
  let sig64 := u64 (Z.shiftl sig 32) in
  let shiftDist := 0xAA - exp in
  let sig64 := if 0 <? shiftDist then softfloat_shiftRightJam64 sig64 shiftDist else sig64 in
  softfloat_roundToUI32 sign sig64 roundingMode exact st.

Definition f32_to_ui64 (a roundingMode : Z) (exact : bool) (st : softfloat_state) : Z * softfloat_state :=
  let sign := signF32UI a in
  let exp := expF32UI a in
  let sig := fracF32UI a in
  let shiftDist := 0xBE - exp in
  if shiftDist <? 0 then
    (if (exp =? 0xFF) && negb (sig =? 0) then ui64_fromNaN
     else if sign then ui64_fromNegOverflow else ui64_fromPosOverflow,
     softfloat_raiseFlags softfloat_flag_invalid st)
  else
    let sig := if negb (exp =? 0) then Z.lor sig 0x00800000 else sig in
    let sig64 := u64 (Z.shiftl sig 40) in
    let sig64Extra := if negb (shiftDist =? 0) then softfloat_shiftRightJam64Extra sig64 0 shiftDist
                      else Uint64Extra 0 sig64 in
    softfloat_roundToUI64 sign (v sig64Extra) (extra sig64Extra) roundingMode exact st.

(** ** From f64 *)

Definition f64_to_i32 (a roundingMode : Z) (exact : bool) (st : softfloat_state) : Z * softfloat_state :=
  let sign := signF64UI a in
  let exp := expF64UI a in
  let sig := fracF64UI a in
  let sign := if (exp =? 0x7FF) && negb (sig =? 0) then false else sign in
  let sig := if negb (exp =? 0) then Z.lor sig 0x0010000000000000 else sig in
  let shiftDist := 0x427 - exp in
  let sig := if 0 <? shiftDist then softfloat_shiftRightJam64 sig shiftDist else sig in
  softfloat_roundToI32 sign sig roundingMode exact st.

Definition f64_to_i64 (a roundingMode : Z) (exact : bool) (st : softfloat_state) : Z * softfloat_state :=
  let sign := signF64UI a in
  let exp := expF64UI a in
  let sig := fracF64UI a in
  let sig := if negb (exp =? 0) then Z.lor sig 0x0010000000000000 else sig in
  let shiftDist := 0x433 - exp in
  if shiftDist <? -11 then
    (if (exp =? 0x7FF) && negb (fracF64UI a =? 0) then i64_fromNaN
     else if sign then i64_fromNegOverflow else i64_fromPosOverflow,
     softfloat_raiseFlags softfloat_flag_invalid st)
  else
    let sigExtra := if shiftDist <=? 0 then Uint64Extra 0 (u64 (Z.shiftl sig (- shiftDist)))
                    else softfloat_shiftRightJam64Extra sig 0 shiftDist in
    softfloat_roundToI64 sign (v sigExtra) (extra sigExtra) roundingMode exact st.

Definition f64_to_ui32 (a roundingMode : Z) (exact : bool) (st : softfloat_state) : Z * softfloat_state :=
  let sign := signF64UI a in
  let exp := expF64UI a in
  let sig := fracF64UI a in
  let sign := if (exp =? 0x7FF) && negb (sig =? 0) then false else sign in
  let sig := if negb (exp =? 0) then Z.lor sig 0x0010000000000000 else sig in
  let shiftDist := 0x427 - exp in
  let sig := if 0 <? shiftDist then softfloat_shiftRightJam64 sig shiftDist else sig in
  softfloat_roundToUI32 sign sig roundingMode exact st.

Definition f64_to_ui64 (a roundingMode : Z) (exact : bool) (st : softfloat_state) : Z * softfloat_state :=
  let sign := signF64UI a in
  let exp := expF64UI a in
  let sig := fracF64UI a in
  let sig := if negb (exp =? 0) then Z.lor sig 0x0010000000000000 else sig in
  let shiftDist := 0x433 - exp in
  if shiftDist <? -11 then
    (if (exp =? 0x7FF) && negb (fracF64UI a =? 0) then ui64_fromNaN
     else if sign then ui64_fromNegOverflow else ui64_fromPosOverflow,
     softfloat_raiseFlags softfloat_flag_invalid st)
  else
    let sigExtra := if shiftDist <=? 0 then Uint64Extra 0 (u64 (Z.shiftl sig (- shiftDist)))
                    else softfloat_shiftRightJam64Extra sig 0 shiftDist in
    softfloat_roundToUI64 sign (v sigExtra) (extra sigExtra) roundingMode exact st.

(** ** What they should give *)

(** An integer of a type with bounds [lo] and [hi]. *)
Definition ieee_to_int (F : format) (lo hi : Z) (m : mode) (exact : bool) (a z fl : Z) : Prop :=
  if is_nan F a then z = hi /\ fl = flag_invalid
  else if is_inf F a then z = (if sign_of F a then lo else hi) /\ fl = flag_invalid
  else exists n,
    rounds m (sign_of F a) (absval F a) n /\
    let r := if sign_of F a then - n else n in
    if (lo <=? r) && (r <=? hi)
    then z = r /\ exists ix : bool, (ix = true <-> absval F a <> IZR n) /\ fl = flag_if (exact && ix) flag_inexact
    else z = (if sign_of F a then lo else hi) /\ fl = flag_invalid.

(** The same for a magnitude [y] with the sign [s]. *)
Definition int_result (lo hi : Z) (m : mode) (exact s : bool) (y : R) (z fl : Z) : Prop :=
  exists n, rounds m s y n /\
    let r := if s then - n else n in
    if (lo <=? r) && (r <=? hi)
    then z = r /\ exists ix : bool, (ix = true <-> y <> IZR n) /\ fl = flag_if (exact && ix) flag_inexact
    else z = (if s then lo else hi) /\ fl = flag_invalid.

(** ** The rounding routines *)

Lemma wrap_fits h (s : bool) n :
  0 <= n < 2 * h ->
  let r := if s then - n else n in
  let z := (r + h) mod (2 * h) - h in
  let fits := (- h <=? r) && (r <=? h - 1) in
  negb (z =? 0) && xorb (z <? 0) s = negb fits /\ (fits = true -> z = r).
Proof.
  intros Hn r z fits.
  assert (z = if s then (if n <=? h then - n else 2 * h - n) else (if n <? h then n else n - 2 * h)) as Hz.
  { unfold z, r. destruct s; [destruct (Z.leb_spec n h)|destruct (Z.ltb_spec n h)].
    - rewrite Z.mod_small by lia. lia.
    - rewrite <-(Z.mod_unique (- n + h) (2 * h) (-1) (2 * h - n + h)) by lia. lia.
    - rewrite Z.mod_small by lia. lia.
    - rewrite <-(Z.mod_unique (n + h) (2 * h) 1 (n - h)) by lia. lia. }
  clearbody z. subst z. unfold fits, r.
  destruct s; [destruct (Z.leb_spec n h)|destruct (Z.ltb_spec n h)];
    match goal with |- negb (?z =? 0) && _ = negb ((?a <=? ?b) && (?b <=? ?c)) /\ _ =>
      destruct (Z.eqb_spec z 0), (Z.ltb_spec z 0), (Z.leb_spec a b), (Z.leb_spec b c) end;
    cbn; split; done || lia || (exfalso; lia).
Qed.

Lemma s32_fits (s : bool) n :
  0 <= n < 2 ^ 32 ->
  let r := if s then - n else n in
  let z := s32 (if s then u64 (- n) else n) in
  let fits := (- 2 ^ 31 <=? r) && (r <=? 2 ^ 31 - 1) in
  negb (z =? 0) && xorb (z <? 0) s = negb fits /\ (fits = true -> z = r).
Proof.
  intros Hn r z fits. replace z with ((r + 2 ^ 31) mod (2 * 2 ^ 31) - 2 ^ 31); [apply wrap_fits; lia|].
  unfold z, s32, u64, r. destruct s; [|done]. f_equal.
  change 4294967296 with (2 * 2 ^ 31). change 2147483648 with (2 ^ 31).
  change 18446744073709551616 with (2 * 2 ^ 31 * 2 ^ 32).
  rewrite <-(Zplus_mod_idemp_l (- n)), <-(Zplus_mod_idemp_l (_ mod (_ * 2 ^ 32))), (Z.rem_mul_r (- n) (2 * 2 ^ 31)) by lia.
  rewrite (Z.mul_comm (2 * 2 ^ 31) (_ mod _)), Z.mod_add, Z.mod_mod by lia. done.
Qed.

Lemma s64_fits (s : bool) n :
  0 <= n < 2 ^ 64 ->
  let r := if s then - n else n in
  let z := s64 (if s then u64 (- n) else n) in
  let fits := (- 2 ^ 63 <=? r) && (r <=? 2 ^ 63 - 1) in
  negb (z =? 0) && xorb (z <? 0) s = negb fits /\ (fits = true -> z = r).
Proof.
  intros Hn r z fits. replace z with ((r + 2 ^ 63) mod (2 * 2 ^ 63) - 2 ^ 63); [apply wrap_fits; lia|].
  unfold z, s64, u64, r. destruct s; [|done]. f_equal. symmetry. apply Zplus_mod_idemp_l.
Qed.

(** The result of the code, once it has the rounded magnitude. *)
Lemma int_result_fits lo hi m exact (s : bool) y n (ix : bool) z st :
  rounds m s y n -> (ix = true <-> y <> IZR n) ->
  let r := if s then - n else n in
  let fits := (lo <=? r) && (r <=? hi) in
  (fits = true -> z = r) ->
  returns
    (if negb fits then (if s then lo else hi, softfloat_raiseFlags softfloat_flag_invalid st)
     else (z, if exact && ix then softfloat_raiseFlags softfloat_flag_inexact st else st))
    (int_result lo hi m exact s y) st.
Proof.
  intros Hn Hix r fits Hz. destruct fits eqn:E; cbn [negb].
  - rewrite raise_if. apply returns_raise. exists n. split; [done|]. cbv zeta. fold r. fold fits. rewrite E.
    split; [by apply Hz|by exists ix].
  - apply returns_raise. exists n. split; [done|]. cbv zeta. fold r. fold fits. by rewrite E.
Qed.

(** A magnitude too large for the type, given in units of [2 ^ (- rb)]. *)
Lemma int_result_overflow lo hi m exact (s : bool) rb b y st :
  2 <= rb -> Z.even b = true -> b * 2 ^ rb <= y -> hi < b -> - b < lo ->
  returns (if s then lo else hi, softfloat_raiseFlags softfloat_flag_invalid st)
    (int_result lo hi m exact s (IZR y * bpow (- rb))) st.
Proof.
  intros Hrb Hb Hy Hhi Hlo. set (n := round_sig m s rb y).
  assert (rounds m s (IZR y * bpow (- rb)) n) as Hn
    by (apply round_sig_rounds; [lia|apply agrees_exact]).
  pose proof (inexact_iff F64 m s rb Hrb (IZR y) y n (agrees_exact _ y) Hn) as Hix.
  pose proof (round_sig_norm m s rb y b Hrb Hb Hy) as Hge. fold n in Hge.
  pose proof (int_result_fits lo hi m exact s _ n _ 0 st Hn Hix) as Hr. cbv zeta in Hr.
  assert ((lo <=? if s then - n else n) && ((if s then - n else n) <=? hi) = false) as E.
  { apply andb_false_iff. rewrite !Z.leb_gt. destruct s; [left|right]; lia. }
  rewrite E in Hr. by apply Hr.
Qed.

Lemma roundIncrement12_increment m s : roundIncrement12 s (mode_code m) = increment m s 12.
Proof. apply (increment_code m s 12). lia. Qed.

Lemma over44 sig : 0 <= sig < 2 ^ 64 -> (Z.land sig 0xFFFFF00000000000 =? 0) = (sig <? 2 ^ 44).
Proof.
  intros Hs. change 0xFFFFF00000000000 with ((2 ^ 20 - 1) * 2 ^ 44).
  rewrite land_high, land_ones_mod by lia.
  rewrite Z.mod_small by (split; [apply Z.div_pos; lia|apply Z.div_lt_upper_bound; lia]).
  apply Bool.eq_iff_eq_true. rewrite Z.eqb_eq, Z.ltb_lt. split.
  - intros E. pose proof (Z.div_mod sig (2 ^ 44)). pose proof (Z.mod_pos_bound sig (2 ^ 44)). lia.
  - intros Hlt. rewrite Z.div_small by lia. done.
Qed.

Lemma tie_bit sig : Z.land sig 0xFFF = sig mod 2 ^ 12.
Proof. apply (land_ones_mod sig 12). lia. Qed.

(** Rounding at twelve bits, shared by the two 32-bit routines. *)
Lemma round12 m s sig y :
  0 <= sig < 2 ^ 63 -> agrees 11 y sig ->
  let n := round_sig m s 12 sig in
  rounds m s (y * bpow (- 12)) n /\ 0 <= n /\
  (negb (Z.land sig 0xFFF =? 0) = true <-> (y * bpow (- 12))%R <> IZR n) /\
  u64 (sig + increment m s 12) = sig + increment m s 12 /\ (sig + increment m s 12 < 2 ^ 44 <-> n < 2 ^ 32).
Proof.
  intros Hs Ha n. pose proof (increment_range m s 12 ltac:(lia)) as Hi. change (2 ^ 12) with 4096 in Hi.
  assert (rounds m s (y * bpow (- 12)) n) as Hn by (apply round_sig_rounds; [lia|done]).
  split_and!; [done|apply round_sig_nonneg; lia| |apply u64_id; lia|].
  - rewrite tie_bit. by apply (inexact_iff F32 m s 12 ltac:(lia) y sig n).
  - symmetry. apply (round_sig_lt m s 12 sig (2 ^ 32)); [lia|done].
Qed.

Lemma roundToI32_result m exact s sig y st :
  0 <= sig < 2 ^ 63 -> agrees 11 y sig ->
  returns (softfloat_roundToI32 s sig (mode_code m) exact st)
    (int_result (- 2 ^ 31) (2 ^ 31 - 1) m exact s (y * bpow (- 12))) st.
Proof.
  intros Hs Ha. destruct (round12 m s sig y Hs Ha) as (Hn & Hn0 & Hix & Hu & Hlt).
  pose proof (round_sig_code m s 12 sig ltac:(lia) ltac:(lia)) as Hc.
  unfold softfloat_roundToI32. cbv zeta. rewrite roundIncrement12_increment, Hu.
  pose proof (increment_range m s 12 ltac:(lia)) as Hi. change (2 ^ 12) with 4096 in Hi.
  rewrite over44 by lia. change (2 ^ 12 - 1) with 4095 in Hc. change (2 ^ (12 - 1)) with 2048 in Hc. rewrite Hc.
  set (n := round_sig m s 12 sig) in *.
  pose proof (int_result_fits (- 2 ^ 31) (2 ^ 31 - 1) m exact s _ n _ (s32 (if s then u64 (- n) else n)) st Hn Hix) as Hr.
  cbv zeta in Hr. destruct (Z.ltb_spec (sig + increment m s 12) (2 ^ 44)) as [Hl|Hl]; cbn [negb].
  - destruct (s32_fits s n ltac:(lia)) as [-> Hz]. by apply Hr.
  - assert ((- 2 ^ 31 <=? if s then - n else n) && ((if s then - n else n) <=? 2 ^ 31 - 1) = false) as E.
    { apply andb_false_iff. rewrite !Z.leb_gt. destruct s; [left|right]; lia. }
    rewrite E in Hr. by apply Hr.
Qed.

Lemma roundToUI32_result m exact s sig y st :
  0 <= sig < 2 ^ 63 -> agrees 11 y sig ->
  returns (softfloat_roundToUI32 s sig (mode_code m) exact st)
    (int_result 0 (2 ^ 32 - 1) m exact s (y * bpow (- 12))) st.
Proof.
  intros Hs Ha. destruct (round12 m s sig y Hs Ha) as (Hn & Hn0 & Hix & Hu & Hlt).
  pose proof (round_sig_code m s 12 sig ltac:(lia) ltac:(lia)) as Hc.
  unfold softfloat_roundToUI32. cbv zeta. rewrite roundIncrement12_increment, Hu.
  pose proof (increment_range m s 12 ltac:(lia)) as Hi. change (2 ^ 12) with 4096 in Hi.
  rewrite over44 by lia. change (2 ^ 12 - 1) with 4095 in Hc. change (2 ^ (12 - 1)) with 2048 in Hc. rewrite Hc.
  set (n := round_sig m s 12 sig) in *.
  pose proof (int_result_fits 0 (2 ^ 32 - 1) m exact s _ n _ n st Hn Hix) as Hr.
  cbv zeta in Hr. destruct (Z.ltb_spec (sig + increment m s 12) (2 ^ 44)) as [Hl|Hl]; cbn [negb].
  - replace (s && negb (n =? 0)) with (negb ((0 <=? if s then - n else n) && ((if s then - n else n) <=? 2 ^ 32 - 1))).
    + apply Hr. destruct s; lia.
    + destruct s; cbn [andb]; lia.
  - assert ((0 <=? if s then - n else n) && ((if s then - n else n) <=? 2 ^ 32 - 1) = false) as E.
    { apply andb_false_iff. rewrite !Z.leb_gt. destruct s; [left|right]; lia. }
    rewrite E in Hr. apply Hr. done.
Qed.

(** ** Rounding at a word *)

Lemma word_increment m s sig ext :
  0 <= ext < 2 ^ 64 ->
  (sig * 2 ^ 64 + ext + increment m s 64) / 2 ^ 64 = sig + Z.b2z (doIncrement s (mode_code m) ext).
Proof.
  intros He. rewrite <-Z.add_assoc, Z.add_comm, Z.div_add, Z.add_comm by lia. f_equal.
  assert (forall b : bool, (b = true <-> 2 ^ 64 <= ext + increment m s 64) ->
    ext + increment m s 64 < 2 * 2 ^ 64 -> 0 <= increment m s 64 -> (ext + increment m s 64) / 2 ^ 64 = Z.b2z b) as Hb.
  { intros b Hb Hlt H0. destruct b; cbn [Z.b2z].
    - symmetry. apply Z.div_unique with (ext + increment m s 64 - 2 ^ 64); [|lia].
      assert (2 ^ 64 <= ext + increment m s 64) by (by apply Hb). lia.
    - apply Z.div_small. destruct (Z_lt_le_dec (ext + increment m s 64) (2 ^ 64)) as [|Hge]; [lia|].
      by apply Hb in Hge. }
  apply Hb; unfold increment; change (2 ^ (64 - 1)) with 0x8000000000000000;
    [unfold doIncrement|..]; destruct m, s; 
    cbn [mode_code softfloat_round_near_even softfloat_round_minMag softfloat_round_min softfloat_round_max
         softfloat_round_near_maxMag Z.eqb Pos.eqb negb andb];
    rewrite ?Z.leb_le, ?negb_true_iff, ?Z.eqb_neq; try lia.
  all: split; [done|lia].
Qed.

Lemma round64 m s sig ext y :
  0 <= sig < 2 ^ 64 -> 0 <= ext < 2 ^ 64 -> agrees 63 y (sig * 2 ^ 64 + ext) ->
  let inc := doIncrement s (mode_code m) ext in
  let n := round_sig m s 64 (sig * 2 ^ 64 + ext) in
  rounds m s (y * bpow (- 64)) n /\ 0 <= n <= 2 ^ 64 /\
  (negb (ext =? 0) = true <-> (y * bpow (- 64))%R <> IZR n) /\
  (inc && (u64 (sig + 1) =? 0) = true <-> n = 2 ^ 64) /\
  (n < 2 ^ 64 ->
   (if inc then Z.land (u64 (sig + 1)) (Z.lnot (Z.b2z ((Z.land ext 0x7FFFFFFFFFFFFFFF =? 0)
                      && (mode_code m =? softfloat_round_near_even)))) else sig) = n).
Proof.
  intros Hs He Ha inc n.
  assert (rounds m s (y * bpow (- 64)) n) as Hn by (apply round_sig_rounds; [lia|done]).
  assert ((sig * 2 ^ 64 + ext) mod 2 ^ 64 = ext) as Hmod.
  { rewrite Z.add_comm, Z.mod_add, Z.mod_small; lia. }
  assert (0 <= n <= 2 ^ 64) as Hnr by (apply (round_sig_range m s 64); lia).
  split_and!; [done|lia..| | |].
  - rewrite <-(inexact_iff F64 m s 64 ltac:(lia) y _ n Ha Hn). unfold inexact_bits. by rewrite Hmod.
  - assert (n < 2 ^ 64 <-> sig + Z.b2z inc < 2 ^ 64) as Hlt.
    { unfold n. rewrite (round_sig_lt m s 64 _ (2 ^ 64)) by (lia || done).
      pose proof (word_increment m s sig ext He) as Hw. fold inc in Hw. rewrite <-Hw.
      pose proof (Z.div_mod (sig * 2 ^ 64 + ext + increment m s 64) (2 ^ 64) ltac:(lia)).
      pose proof (Z.mod_pos_bound (sig * 2 ^ 64 + ext + increment m s 64) (2 ^ 64) ltac:(lia)). lia. }
    rewrite andb_true_iff, Z.eqb_eq. unfold u64. destruct inc; cbn [Z.b2z] in Hlt.
    + split; [intros [_ E]|intros ->].
      * enough (sig + 1 = 2 ^ 64) by lia. destruct (decide (sig + 1 < 2 ^ 64)); [|lia].
        rewrite Z.mod_small in E by lia. lia.
      * split; [done|]. replace (sig + 1) with (2 ^ 64) by lia. done.
    + split; [by intros []|lia].
  - intros Hlt. unfold n, round_sig in *. rewrite word_increment in * by done. rewrite Hmod in *.
    fold inc in Hlt |- *. destruct inc eqn:E; cbn [Z.b2z] in *.
    + assert (sig + 1 <= 2 ^ 64) by lia.
      assert (mode_code m = 0 <-> m = RNE) as Hm by (by destruct m).
      change 0x7FFFFFFFFFFFFFFF with (2 ^ 63 - 1). rewrite land_ones_mod by lia.
      unfold softfloat_round_near_even.
      assert (m = RNE -> (ext mod 2 ^ 63 =? 0) = (ext =? 2 ^ (64 - 1))) as Ht.
      { intros ->. unfold inc, doIncrement in E. cbn in E. apply Z.leb_le in E.
        apply Bool.eq_iff_eq_true. rewrite !Z.eqb_eq. change (2 ^ (64 - 1)) with (2 ^ 63). divlia. }
      assert (forall x, Z.land x (Z.lnot (Z.b2z true)) = x - x mod 2) as Hclr.
      { intros x. change (Z.lnot (Z.b2z true)) with (Z.lnot (Z.ones 1)). rewrite <-Z.ldiff_land, Z.ldiff_ones_r by done.
        rewrite Z.shiftr_div_pow2, Z.shiftl_mul_pow2 by done. change (2 ^ 1) with 2. divlia. }
      assert (sig + 1 < 2 ^ 64) as Hs1.
      { destruct m; try lia. destruct (ext =? _); [|lia]. destruct (decide (sig + 1 = 2 ^ 64)) as [E1|]; [|lia].
        rewrite E1 in Hlt. change (2 ^ 64 mod 2) with 0 in Hlt. lia. }
      rewrite u64_id by lia. destruct (Z.eqb_spec (mode_code m) 0) as [E0|E0].
      * apply Hm in E0 as ->. rewrite Ht by done. rewrite andb_true_r.
        destruct (ext =? 2 ^ (64 - 1)); [apply Hclr|apply Z.land_m1_r].
      * rewrite andb_false_r. destruct m; try done; apply Z.land_m1_r.
    + rewrite Z.add_0_r. destruct m; try done. destruct (Z.eqb_spec ext (2 ^ (64 - 1))) as [Ee|]; [|done].
      unfold inc, doIncrement in E. cbn in E. apply Z.leb_gt in E. change (2 ^ (64 - 1)) with (2 ^ 63) in Ee. lia.
Qed.

Lemma roundToI64_result m exact s sig ext y st :
  0 <= sig < 2 ^ 64 -> 0 <= ext < 2 ^ 64 -> agrees 63 y (sig * 2 ^ 64 + ext) ->
  returns (softfloat_roundToI64 s sig ext (mode_code m) exact st)
    (int_result (- 2 ^ 63) (2 ^ 63 - 1) m exact s (y * bpow (- 64))) st.
Proof.
  intros Hs He Ha. destruct (round64 m s sig ext y Hs He Ha) as (Hn & Hnr & Hix & Hov & Hc).
  unfold softfloat_roundToI64. cbv zeta in *. set (n := round_sig m s 64 (sig * 2 ^ 64 + ext)) in *.
  set (inc := doIncrement s (mode_code m) ext) in *.
  pose proof (fun z => int_result_fits (- 2 ^ 63) (2 ^ 63 - 1) m exact s _ n _ z st Hn Hix) as Hr. cbv zeta in Hr.
  destruct (inc && (u64 (sig + 1) =? 0)) eqn:Eo.
  - assert (n = 2 ^ 64) as E by (by apply Hov). specialize (Hr 0).
    assert ((- 2 ^ 63 <=? if s then - n else n) && ((if s then - n else n) <=? 2 ^ 63 - 1) = false) as E2.
    { apply andb_false_iff. rewrite !Z.leb_gt. destruct s; [left|right]; lia. }
    rewrite E2 in Hr. by apply Hr.
  - assert (n < 2 ^ 64) as Hlt by (destruct (decide (n = 2 ^ 64)) as [E|]; [by apply Hov in E|lia]).
    rewrite Hc by done. destruct (s64_fits s n ltac:(lia)) as [-> Hz]. by apply Hr.
Qed.

Lemma roundToUI64_result m exact s sig ext y st :
  0 <= sig < 2 ^ 64 -> 0 <= ext < 2 ^ 64 -> agrees 63 y (sig * 2 ^ 64 + ext) ->
  returns (softfloat_roundToUI64 s sig ext (mode_code m) exact st)
    (int_result 0 (2 ^ 64 - 1) m exact s (y * bpow (- 64))) st.
Proof.
  intros Hs He Ha. destruct (round64 m s sig ext y Hs He Ha) as (Hn & Hnr & Hix & Hov & Hc).
  unfold softfloat_roundToUI64. cbv zeta in *. set (n := round_sig m s 64 (sig * 2 ^ 64 + ext)) in *.
  set (inc := doIncrement s (mode_code m) ext) in *.
  pose proof (fun z => int_result_fits 0 (2 ^ 64 - 1) m exact s _ n _ z st Hn Hix) as Hr. cbv zeta in Hr.
  destruct (inc && (u64 (sig + 1) =? 0)) eqn:Eo.
  - assert (n = 2 ^ 64) as E by (by apply Hov). specialize (Hr 0).
    assert ((0 <=? if s then - n else n) && ((if s then - n else n) <=? 2 ^ 64 - 1) = false) as E2.
    { apply andb_false_iff. rewrite !Z.leb_gt. destruct s; [left|right]; lia. }
    rewrite E2 in Hr. by apply Hr.
  - assert (n < 2 ^ 64) as Hlt by (destruct (decide (n = 2 ^ 64)) as [E|]; [by apply Hov in E|lia]).
    rewrite Hc by done.
    replace (s && negb (n =? 0)) with (negb ((0 <=? if s then - n else n) && ((if s then - n else n) <=? 2 ^ 64 - 1))).
    + apply Hr. destruct s; lia.
    + destruct s; cbn [andb]; lia.
Qed.

(** The word below the point, and that it stands for the exact bits. *)
Lemma agrees_tiny g y : 1 <= g -> (0 < y < bpow g)%R -> agrees g y 1.
Proof.
  intros Hg Hy k. rewrite bpow_IZR in Hy by lia. pose proof (Z.pow_le_mono_r 2 1 g ltac:(lia) Hg) as Hp.
  change (2 ^ 1) with 2 in Hp. set (G := 2 ^ g) in *.
  assert (k <= 0 -> (IZR (k * G) <= 0)%R) as H0 by (intros; apply IZR_le; nia).
  assert (1 <= k -> (IZR G <= IZR (k * G))%R) as H1 by (intros; apply IZR_le; nia).
  destruct (Z_lt_le_dec 0 k) as [Hk|Hk].
  - specialize (H1 ltac:(lia)). assert (G <= k * G) by nia. split; split; intros; lra || lia || (exfalso; lra || lia).
  - specialize (H0 ltac:(lia)). assert (k * G <= 0) by nia. split; split; intros; lra || lia || (exfalso; lra || lia).
Qed.

Lemma shiftRightJam64Extra_agrees a d y :
  0 <= a < 2 ^ 64 -> 1 <= d < 2 ^ 64 ->
  (d <= 64 -> y = (IZR a * bpow (64 - d))%R) ->
  (64 < d -> (a = 0 /\ y = 0%R) \/ (0 < a /\ (0 < y < bpow 63)%R)) ->
  let z := softfloat_shiftRightJam64Extra a 0 d in
  0 <= v z < 2 ^ 64 /\ 0 <= extra z < 2 ^ 64 /\ agrees 63 y (v z * 2 ^ 64 + extra z).
Proof.
  intros Ha Hd Hy Hy'. cbv zeta. unfold softfloat_shiftRightJam64Extra.
  rewrite (u64_id d) by lia. cbn [v extra]. change (Z.b2z (negb (0 =? 0))) with 0. rewrite Z.lor_0_r.
  destruct (Z.ltb_spec d 64) as [Hlt|Hge]; [|destruct (Z.eqb_spec d 64) as [->|Hne]].
  - rewrite Z.shiftr_div_pow2, neg_land_63, Z.shiftl_mul_pow2 by lia. unfold u64.
    change 18446744073709551616 with (2 ^ 64). pose proof (Z.pow_pos_nonneg 2 d ltac:(lia) ltac:(lia)).
    pose proof (Z.pow_pos_nonneg 2 (64 - d) ltac:(lia) ltac:(lia)).
    assert (2 ^ 64 = 2 ^ d * 2 ^ (64 - d)) as Hp by (rewrite <-Z.pow_add_r by lia; f_equal; lia).
    split_and!; [apply Z.div_pos; lia|apply Z.div_lt_upper_bound; nia|apply Z.mod_pos_bound; lia..|].
    rewrite Hy by lia. rewrite <-IZR_bpow by lia. apply (agrees_mono 0); [lia|].
    replace (a / 2 ^ d * 2 ^ 64 + (a * 2 ^ (64 - d)) mod 2 ^ 64) with (a * 2 ^ (64 - d)); [apply agrees_exact|].
    rewrite Hp at 2. rewrite Hp, Z.mul_mod_distr_r by lia. pose proof (Z.div_mod a (2 ^ d) ltac:(lia)). nia.
  - split_and!; [lia..|]. rewrite Hy by lia. rewrite Z.mul_0_l, Z.add_0_l. change (64 - 64) with 0.
    rewrite bpow_0, Rmult_1_r. apply (agrees_mono 0); [lia|]. apply agrees_exact.
  - destruct (Hy' ltac:(lia)) as [[-> ->]|[Ha0 Hr]].
    + split_and!; [lia..|cbn; lia|cbn; lia|]. apply (agrees_mono 0); [lia|]. apply agrees_exact.
    + rewrite (proj2 (Z.eqb_neq a 0)) by lia. split_and!; [lia..|cbn; lia|cbn; lia|]. by apply agrees_tiny.
Qed.

(** ** The operand as an integer and a power of two *)

Section Operand.
Context (F : format) `{ValidFormat F}.

Lemma lor_hidden u :
  (if negb (expo F u =? 0) then Z.lor (frac F u) (2 ^ (prec F - 1)) else frac F u) = sig_of F u.
Proof.
  pose proof (frac_range F u). pose proof prec_valid. unfold sig_of. destruct (expo F u =? 0); cbn [negb]; [done|].
  rewrite Z.lor_comm. rewrite <-(Z.mul_1_l (2 ^ _)). apply lor_disjoint; lia.
Qed.

Lemma sig_of_normal u : expo F u <> 0 -> 2 ^ (prec F - 1) <= sig_of F u.
Proof. intros Hu. pose proof (frac_range F u). unfold sig_of. rewrite (proj2 (Z.eqb_neq _ _) Hu). lia. Qed.

Lemma absval_normal u :
  expo F u <> 0 -> absval F u = (IZR (sig_of F u) * bpow (expo F u - 1 + emin F))%R.
Proof.
  intros Hu. pose proof (expo_range F u). rewrite absval_sig by done. unfold exp_of. by rewrite Z.max_l by lia.
Qed.

Lemma absval_subnormal u :
  expo F u = 0 -> absval F u = (IZR (sig_of F u) * bpow (emin F))%R /\ sig_of F u < 2 ^ (prec F - 1).
Proof.
  intros Hu. pose proof (frac_range F u). rewrite absval_sig by done. unfold exp_of, sig_of. rewrite Hu. split; [|cbn; lia].
  do 2 f_equal.
Qed.

(** A subnormal operand is a tiny fraction, zero if the significand is. *)
Lemma absval_tiny u k g :
  expo F u = 0 -> prec F - 1 + emin F + k <= g ->
  (sig_of F u = 0 /\ (absval F u * bpow k = 0)%R) \/
  (0 < sig_of F u /\ (0 < absval F u * bpow k < bpow g)%R).
Proof.
  intros Hu Hg. destruct (absval_subnormal u Hu) as [Hv Hlt]. pose proof (sig_of_range F u) as Hr.
  pose proof prec_valid. destruct (decide (sig_of F u = 0)) as [E|E]; [left|right].
  - split; [done|]. rewrite Hv, E. lra.
  - split; [lia|]. rewrite Hv, Rmult_assoc, <-bpow_add.
    split; [apply Rmult_lt_0_compat; [apply IZR_lt; lia|apply bpow_gt_0]|].
    apply Rlt_le_trans with (IZR (2 ^ (prec F - 1)) * bpow (emin F + k))%R.
    + apply scale_lt, IZR_lt. lia.
    + rewrite <-bpow_IZR, <-bpow_add by lia. apply bpow_le. lia.
Qed.

(** A large operand is an integer, at a scale fine enough. *)
Lemma absval_integer u k e :
  expo F u <> 0 -> 0 <= e -> e <= prec F - 1 + (expo F u - 1 + emin F + k) -> 0 <= expo F u - 1 + emin F + k ->
  exists n, absval F u = (IZR n * bpow (- k))%R /\ 2 ^ e <= n.
Proof.
  intros Hu He Hle H0. set (d := expo F u - 1 + emin F + k) in *. exists (sig_of F u * 2 ^ d). split.
  - rewrite absval_normal, IZR_bpow, Rmult_assoc, <-bpow_add by done. do 2 f_equal. lia.
  - pose proof prec_valid. pose proof (sig_of_normal u Hu).
    pose proof (Z.pow_pos_nonneg 2 d ltac:(lia) ltac:(lia)).
    apply Z.le_trans with (2 ^ (prec F - 1) * 2 ^ d); [|nia].
    rewrite <-Z.pow_add_r by lia. apply Z.pow_le_mono_r; lia.
Qed.

Lemma ieee_to_int_finite lo hi m exact a z fl :
  is_finite F a = true -> int_result lo hi m exact (sign_of F a) (absval F a) z fl ->
  ieee_to_int F lo hi m exact a z fl.
Proof.
  intros Hf (n & Hn & Hr). unfold ieee_to_int. rewrite is_finite_fields, negb_true_iff in Hf by done.
  rewrite is_nan_fields, is_inf_fields, Hf by done. cbn [andb]. by exists n.
Qed.
End Operand.

(** ** To 32 bits *)

Section To32.
Context (round : bool -> Z -> Z -> bool -> softfloat_state -> Z * softfloat_state) (lo hi : Z).
Context (round_result : forall m exact s sig y st, 0 <= sig < 2 ^ 63 -> agrees 11 y sig ->
  returns (round s sig (mode_code m) exact st) (int_result lo hi m exact s (y * bpow (- 12))) st).
Context (round_over : forall s sig rm exact st, 2 ^ 44 <= sig < 2 ^ 63 ->
  round s sig rm exact st = (if s then lo else hi, softfloat_raiseFlags softfloat_flag_invalid st)).
Context (hi_lt : hi < 2 ^ 32) (lo_gt : - 2 ^ 32 < lo).
Context (F : format) `{ValidFormat F} (K : Z).
Context (K_ge : 0 <= K) (K_le : prec F + K <= 56) (K_top : 44 <= prec F - 1 + K) (K_deep : 63 <= K - 11 - emin F).

Lemma to32_finite m exact a st :
  let sd := K - 11 - emin F - expo F a in
  let sig := sig_of F a * 2 ^ K in
  returns (round (sign_of F a) (if 0 <? sd then softfloat_shiftRightJam64 sig sd else sig) (mode_code m) exact st)
    (int_result lo hi m exact (sign_of F a) (absval F a)) st.
Proof.
  intros sd sig. pose proof prec_valid. pose proof (sig_of_range F a) as Hs. pose proof (expo_range F a).
  pose proof (Z.pow_pos_nonneg 2 K ltac:(lia) ltac:(lia)).
  assert (0 <= sig < 2 ^ 56) as Hsig.
  { unfold sig. split; [nia|]. apply Z.lt_le_trans with (2 ^ prec F * 2 ^ K); [nia|].
    rewrite <-Z.pow_add_r by lia. apply Z.pow_le_mono_r; lia. }
  destruct (Z.ltb_spec 0 sd) as [Hsd|Hsd].
  - replace (absval F a) with (absval F a * bpow 12 * bpow (- 12))%R
      by (rewrite Rmult_assoc, <-bpow_add; change (12 + - 12) with 0; rewrite bpow_0; lra).
    rewrite shiftRightJam64_jam by lia. pose proof (jam_shift_range sig sd (2 ^ 55) ltac:(lia) ltac:(lia) ltac:(lia)).
    apply round_result; [lia|]. destruct (decide (expo F a = 0)) as [E|E].
    + assert (2 ^ 56 <= 2 ^ sd) by (apply Z.pow_le_mono_r; lia).
      rewrite jam_shift_small by lia. unfold sig.
      destruct (absval_tiny F a 12 11 E ltac:(lia)) as [[E0 ->]|[E0 Hy]].
      * rewrite E0, Z.mul_0_l. apply (agrees_mono 0); [lia|]. apply agrees_exact.
      * rewrite (proj2 (Z.eqb_neq _ 0)) by nia. by apply agrees_tiny.
    + replace (absval F a * bpow 12)%R with (IZR sig * bpow (- sd))%R; [apply agrees_jam; lia|].
      rewrite absval_normal by done. unfold sig. rewrite IZR_bpow, !Rmult_assoc, <-!bpow_add by lia.
      do 2 f_equal. unfold sd. lia.
  - assert (expo F a <> 0) as E by lia. pose proof (sig_of_normal F a E).
    assert (2 ^ 44 <= sig).
    { apply Z.le_trans with (2 ^ (prec F - 1) * 2 ^ K); [|unfold sig; nia].
      rewrite <-Z.pow_add_r by lia. apply Z.pow_le_mono_r; lia. }
    rewrite round_over by lia.
    destruct (absval_integer F a 12 44 E) as (n & -> & Hn); [lia..|].
    by apply (int_result_overflow lo hi m exact _ 12 (2 ^ 32)).
Qed.

(** Infinities and NaNs have the largest exponent: nothing is shifted. *)
Lemma to32_special m exact s a st :
  expo F a = 2 ^ ewidth F - 1 -> K - 11 - emin F <= expo F a ->
  let sd := K - 11 - emin F - expo F a in
  let sig := sig_of F a * 2 ^ K in
  round s (if 0 <? sd then softfloat_shiftRightJam64 sig sd else sig) (mode_code m) exact st =
  (if s then lo else hi, softfloat_raiseFlags softfloat_flag_invalid st).
Proof.
  intros E Hle sd sig. rewrite (proj2 (Z.ltb_ge 0 sd)) by lia.
  pose proof prec_valid. pose proof (sig_of_range F a) as Hs. pose proof (sig_of_normal F a ltac:(lia)).
  pose proof (Z.pow_pos_nonneg 2 K ltac:(lia) ltac:(lia)). apply round_over. unfold sig. split.
  - apply Z.le_trans with (2 ^ (prec F - 1) * 2 ^ K); [|nia].
    rewrite <-Z.pow_add_r by lia. apply Z.pow_le_mono_r; lia.
  - apply Z.lt_le_trans with (2 ^ prec F * 2 ^ K); [nia|].
    rewrite <-Z.pow_add_r by lia. apply Z.pow_le_mono_r; lia.
Qed.

Lemma to32_ieee m exact a st :
  K - 11 - emin F <= 2 ^ ewidth F - 1 ->
  let sign := if (expo F a =? 2 ^ ewidth F - 1) && negb (frac F a =? 0) then false else sign_of F a in
  let sd := K - 11 - emin F - expo F a in
  let sig := sig_of F a * 2 ^ K in
  returns (round sign (if 0 <? sd then softfloat_shiftRightJam64 sig sd else sig) (mode_code m) exact st)
    (ieee_to_int F lo hi m exact a) st.
Proof.
  intros Hle sign sd sig. destruct (is_finite F a) eqn:Hf.
  - eapply returns_mono; [|intros z fl Hr; by apply (ieee_to_int_finite F lo hi m exact a)].
    unfold sign. rewrite is_finite_fields, negb_true_iff in Hf by done. rewrite Hf. apply to32_finite.
  - rewrite is_finite_fields, negb_false_iff in Hf by done.
    pose proof (proj1 (Z.eqb_eq _ _) Hf) as Hf'. unfold sd, sig. rewrite to32_special by lia. apply returns_raise.
    unfold ieee_to_int, sign. rewrite is_nan_fields, is_inf_fields, Hf by done. cbn [andb].
    by destruct (frac F a =? 0).
Qed.
End To32.

(** ** To 64 bits *)

Section To64.
Context (round : bool -> Z -> Z -> Z -> bool -> softfloat_state -> Z * softfloat_state) (lo hi : Z).
Context (round_result : forall m exact s sig ext y st,
  0 <= sig < 2 ^ 64 -> 0 <= ext < 2 ^ 64 -> agrees 63 y (sig * 2 ^ 64 + ext) ->
  returns (round s sig ext (mode_code m) exact st) (int_result lo hi m exact s (y * bpow (- 64))) st).
Context (hi_lt : hi < 2 ^ 64) (lo_gt : - 2 ^ 64 < lo).
Context (F : format) `{ValidFormat F} (K D : Z).
Context (K_ge : 0 <= K) (D_ge : 0 <= D) (KD : prec F + K + D = 64) (deep : 128 <= K + 1 - emin F < 2 ^ 64).

(** [D]: how far the significand still fits when it is shifted up. *)
Lemma to64_ieee m exact a st :
  K + 1 - emin F + D < 2 ^ ewidth F - 1 ->
  let sd := K + 1 - emin F - expo F a in
  let sig := sig_of F a * 2 ^ K in
  let z := if sd <=? 0 then Uint64Extra 0 (u64 (Z.shiftl sig (- sd))) else softfloat_shiftRightJam64Extra sig 0 sd in
  returns
    (if sd <? - D then
       (if (expo F a =? 2 ^ ewidth F - 1) && negb (frac F a =? 0) then hi
        else if sign_of F a then lo else hi, softfloat_raiseFlags softfloat_flag_invalid st)
     else round (sign_of F a) (v z) (extra z) (mode_code m) exact st)
    (ieee_to_int F lo hi m exact a) st.
Proof.
  intros Hle sd sig z. pose proof prec_valid. pose proof (sig_of_range F a) as Hs. pose proof (expo_range F a) as He.
  destruct (is_finite F a) eqn:Hf.
  2: { rewrite is_finite_fields, negb_false_iff in Hf by done. pose proof (proj1 (Z.eqb_eq _ _) Hf) as Hf'.
       rewrite (proj2 (Z.ltb_lt _ _)) by lia. apply returns_raise.
       unfold ieee_to_int. rewrite is_nan_fields, is_inf_fields, Hf by done. cbn [andb].
       by destruct (frac F a =? 0). }
  eapply returns_mono; [|intros r fl Hr; by apply (ieee_to_int_finite F lo hi m exact a)].
  rewrite is_finite_fields, negb_true_iff in Hf by done. rewrite Hf. cbn [andb].
  destruct (Z.ltb_spec sd (- D)) as [Hd|Hd].
  { assert (expo F a <> 0) as E by lia. destruct (absval_integer F a 2 66 E) as (n & -> & Hn); [lia..|].
    by apply (int_result_overflow lo hi m exact _ 2 (2 ^ 64)). }
  pose proof (Z.pow_pos_nonneg 2 K ltac:(lia) ltac:(lia)).
  replace (absval F a) with (absval F a * bpow 64 * bpow (- 64))%R
    by (rewrite Rmult_assoc, <-bpow_add; change (64 + - 64) with 0; rewrite bpow_0; lra).
  assert (0 <= sig < 2 ^ (prec F + K)) as Hsig by (unfold sig; rewrite Z.pow_add_r by lia; nia).
  unfold z. destruct (Z.leb_spec sd 0) as [Hz|Hz].
  - assert (expo F a <> 0) as E by lia. cbn [v extra].
    assert (0 <= sig * 2 ^ (- sd) < 2 ^ 64) as Hr.
    { pose proof (Z.pow_pos_nonneg 2 (- sd) ltac:(lia) ltac:(lia)). split; [nia|].
      apply Z.lt_le_trans with (2 ^ (prec F + K) * 2 ^ (- sd)); [nia|].
      rewrite <-Z.pow_add_r by lia. apply Z.pow_le_mono_r; lia. }
    rewrite Z.shiftl_mul_pow2, u64_id by lia. apply round_result; [lia|lia|]. rewrite Z.add_0_r.
    replace (absval F a * bpow 64)%R with (IZR (sig * 2 ^ (- sd) * 2 ^ 64)).
    { apply (agrees_mono 0); [lia|]. apply agrees_exact. }
    rewrite absval_normal, !IZR_bpow by (done || lia). unfold sig. rewrite IZR_bpow, !Rmult_assoc, <-!bpow_add by lia.
    do 2 f_equal. lia.
  - assert (2 ^ (prec F + K) <= 2 ^ 64) by (apply Z.pow_le_mono_r; lia).
    destruct (shiftRightJam64Extra_agrees sig sd (absval F a * bpow 64)%R) as (Hv & He' & Hag); [lia| | | |by apply round_result].
    + split; [lia|]. lia.
    + intros Hd64. assert (expo F a <> 0) as E by lia. rewrite absval_normal by done. unfold sig.
      rewrite IZR_bpow, !Rmult_assoc, <-!bpow_add by lia. do 2 f_equal. lia.
    + intros Hd64. unfold sig. destruct (decide (expo F a = 0)) as [E|E].
      * destruct (absval_tiny F a 64 63 E ltac:(lia)) as [[E0 ->]|[E0 Hy]]; [left|right]; split; [lia|done|nia|done].
      * right. pose proof (sig_of_normal F a E). pose proof (pow_prec_pos F). split; [nia|].
        rewrite absval_normal, Rmult_assoc, <-bpow_add by done. split.
        -- apply Rmult_lt_0_compat; [apply IZR_lt; lia|apply bpow_gt_0].
        -- apply Rlt_le_trans with (bpow (prec F) * bpow (expo F a - 1 + emin F + 64))%R.
           ++ apply Rmult_lt_compat_r; [apply bpow_gt_0|]. rewrite bpow_IZR by lia. apply IZR_lt. lia.
           ++ rewrite <-bpow_add. apply bpow_le. lia.
Qed.
End To64.

(** ** The conversions *)

Lemma roundIncrement12_range s rm : 0 <= roundIncrement12 s rm < 4096.
Proof. unfold roundIncrement12. repeat case_match; lia. Qed.

Lemma roundToI32_over (s : bool) sig rm exact st :
  2 ^ 44 <= sig < 2 ^ 63 ->
  softfloat_roundToI32 s sig rm exact st =
  (if s then - 2 ^ 31 else 2 ^ 31 - 1, softfloat_raiseFlags softfloat_flag_invalid st).
Proof.
  intros Hs. unfold softfloat_roundToI32. pose proof (roundIncrement12_range s rm).
  rewrite u64_id, over44, (proj2 (Z.ltb_ge _ _)) by lia. by destruct s.
Qed.

Lemma roundToUI32_over (s : bool) sig rm exact st :
  2 ^ 44 <= sig < 2 ^ 63 ->
  softfloat_roundToUI32 s sig rm exact st =
  (if s then 0 else 2 ^ 32 - 1, softfloat_raiseFlags softfloat_flag_invalid st).
Proof.
  intros Hs. unfold softfloat_roundToUI32. pose proof (roundIncrement12_range s rm).
  rewrite u64_id, over44, (proj2 (Z.ltb_ge _ _)) by lia. by destruct s.
Qed.

(** [f32_to_i32] and [f32_to_ui32] round to an integer in the direction asked
    for, and give RISC-V's bounds for what does not fit. *)
Theorem f32_to_i32_returns m exact a st :
  is_pattern F32 a ->
  returns (f32_to_i32 a (mode_code m) exact st) (ieee_to_int F32 (- 2 ^ 31) (2 ^ 31 - 1) m exact a) st /\
  returns (f32_to_ui32 a (mode_code m) exact st) (ieee_to_int F32 0 (2 ^ 32 - 1) m exact a) st.
Proof.
  intros Ha. unfold f32_to_i32, f32_to_ui32. cbv zeta.
  rewrite signF32UI_sign, expF32UI_expo, fracF32UI_frac by done. change 0x00800000 with (2 ^ (prec F32 - 1)).
  rewrite (lor_hidden F32). pose proof (sig_of_range F32 a) as Hs. cbn [prec F32] in Hs.
  rewrite Z.shiftl_mul_pow2, u64_id by lia.
  split.
  - apply (to32_ieee _ (- 2 ^ 31) (2 ^ 31 - 1) roundToI32_result roundToI32_over ltac:(lia) ltac:(lia) F32 32);
      vm_compute; congruence.
  - apply (to32_ieee _ 0 (2 ^ 32 - 1) roundToUI32_result roundToUI32_over ltac:(lia) ltac:(lia) F32 32);
      vm_compute; congruence.
Qed.

(** [f32_to_i64] and [f32_to_ui64] round to an integer in the direction asked
    for, and give RISC-V's bounds for what does not fit. *)
Theorem f32_to_i64_returns m exact a st :
  is_pattern F32 a ->
  returns (f32_to_i64 a (mode_code m) exact st) (ieee_to_int F32 (- 2 ^ 63) (2 ^ 63 - 1) m exact a) st /\
  returns (f32_to_ui64 a (mode_code m) exact st) (ieee_to_int F32 0 (2 ^ 64 - 1) m exact a) st.
Proof.
  intros Ha. unfold f32_to_i64, f32_to_ui64. cbv zeta.
  rewrite signF32UI_sign, expF32UI_expo, fracF32UI_frac by done. change 0x00800000 with (2 ^ (prec F32 - 1)).
  rewrite (lor_hidden F32). pose proof (sig_of_range F32 a) as Hs. cbn [prec F32] in Hs.
  pose proof (to64_ieee _ (- 2 ^ 63) (2 ^ 63 - 1) roundToI64_result ltac:(lia) ltac:(lia) F32 40 0
    ltac:(lia) ltac:(lia) eq_refl ltac:(by vm_compute; split; congruence) m exact a st ltac:(by vm_compute)) as Hi.
  pose proof (to64_ieee _ 0 (2 ^ 64 - 1) roundToUI64_result ltac:(lia) ltac:(lia) F32 40 0
    ltac:(lia) ltac:(lia) eq_refl ltac:(by vm_compute; split; congruence) m exact a st ltac:(by vm_compute)) as Hu.
  cbv zeta in Hi, Hu. change (40 + 1 - emin F32) with 0xBE in *. change (2 ^ ewidth F32 - 1) with 0xFF in *.
  rewrite Z.shiftl_mul_pow2, (u64_id (_ * 2 ^ 40)) by lia.
  set (sig := sig_of F32 a * 2 ^ 40) in *. change (- 0) with 0 in *. set (sd := 190 - expo F32 a) in *.
  assert (0 <= sd -> (if sd <=? 0 then Uint64Extra 0 (u64 (Z.shiftl sig (- sd))) else softfloat_shiftRightJam64Extra sig 0 sd) =
    if negb (sd =? 0) then softfloat_shiftRightJam64Extra sig 0 sd else Uint64Extra 0 sig) as Hz.
  { intros H0. destruct (Z.eqb_spec sd 0) as [->|]; cbn [negb Z.leb Z.compare].
    - change (- 0) with 0. rewrite Z.shiftl_0_r, u64_id by (unfold sig; lia). done.
    - by rewrite (proj2 (Z.leb_gt sd 0)) by lia. }
  destruct (Z.ltb_spec sd 0) as [Hn|Hn]; [split; [apply Hi|apply Hu]|]. rewrite <-Hz by done.
  split; [apply Hi|apply Hu].
Qed.

(** [f64_to_i32] and [f64_to_ui32] round to an integer in the direction asked
    for, and give RISC-V's bounds for what does not fit. *)
Theorem f64_to_i32_returns m exact a st :
  is_pattern F64 a ->
  returns (f64_to_i32 a (mode_code m) exact st) (ieee_to_int F64 (- 2 ^ 31) (2 ^ 31 - 1) m exact a) st /\
  returns (f64_to_ui32 a (mode_code m) exact st) (ieee_to_int F64 0 (2 ^ 32 - 1) m exact a) st.
Proof.
  intros Ha. unfold f64_to_i32, f64_to_ui32. cbv zeta.
  rewrite signF64UI_sign, expF64UI_expo, fracF64UI_frac by done. change 0x0010000000000000 with (2 ^ (prec F64 - 1)).
  rewrite (lor_hidden F64). pose proof (sig_of_range F64 a) as Hs. cbn [prec F64] in Hs.
  rewrite <-(Z.mul_1_r (sig_of F64 a)). change 1 with (2 ^ 0).
  split.
  - apply (to32_ieee _ (- 2 ^ 31) (2 ^ 31 - 1) roundToI32_result roundToI32_over ltac:(lia) ltac:(lia) F64 0);
      vm_compute; congruence.
  - apply (to32_ieee _ 0 (2 ^ 32 - 1) roundToUI32_result roundToUI32_over ltac:(lia) ltac:(lia) F64 0);
      vm_compute; congruence.
Qed.

(** [f64_to_i64] and [f64_to_ui64] round to an integer in the direction asked
    for, and give RISC-V's bounds for what does not fit. *)
Theorem f64_to_i64_returns m exact a st :
  is_pattern F64 a ->
  returns (f64_to_i64 a (mode_code m) exact st) (ieee_to_int F64 (- 2 ^ 63) (2 ^ 63 - 1) m exact a) st /\
  returns (f64_to_ui64 a (mode_code m) exact st) (ieee_to_int F64 0 (2 ^ 64 - 1) m exact a) st.
Proof.
  intros Ha. unfold f64_to_i64, f64_to_ui64. cbv zeta.
  rewrite signF64UI_sign, expF64UI_expo, fracF64UI_frac by done. change 0x0010000000000000 with (2 ^ (prec F64 - 1)).
  rewrite (lor_hidden F64). pose proof (sig_of_range F64 a) as Hs. cbn [prec F64] in Hs.
  pose proof (to64_ieee _ (- 2 ^ 63) (2 ^ 63 - 1) roundToI64_result ltac:(lia) ltac:(lia) F64 0 11
    ltac:(lia) ltac:(lia) eq_refl ltac:(by vm_compute; split; congruence) m exact a st ltac:(by vm_compute)) as Hi.
  pose proof (to64_ieee _ 0 (2 ^ 64 - 1) roundToUI64_result ltac:(lia) ltac:(lia) F64 0 11
    ltac:(lia) ltac:(lia) eq_refl ltac:(by vm_compute; split; congruence) m exact a st ltac:(by vm_compute)) as Hu.
  cbv zeta in Hi, Hu. change (0 + 1 - emin F64) with 0x433 in *. change (2 ^ ewidth F64 - 1) with 0x7FF in *.
  rewrite Z.mul_1_r in Hi, Hu.
  split; [apply Hi|apply Hu].
Qed.

