(* ===== verification/SoftFma.v ===== *)
(** * SoftFloat: fused multiply-add

    f32_mulAdd and f64_mulAdd, and the routines behind them, s_mulAddF32.c and
    s_mulAddF64.c.  The exact product and the exact sum are never formed when the
    exponents lie far apart; the theorems say that the result is nevertheless the
    exact [a * b + c], rounded once. *)

From Stdlib Require Import ZArith Lia Reals Lra.
From stdpp Require Import base tactics list numbers.
From S2P Require Import Prelude Ieee SoftFloat SoftRound SoftMul SoftCompare SoftConv.

(** internals.h: what is negated. *)
Definition softfloat_mulAdd_subC : Z := 1.
Definition softfloat_mulAdd_subProd : Z := 2.

(** ** 128-bit shifts *)

Definition softfloat_shortShiftRightJam128 (a64 a0 dist : Z) : uint128 :=
  let negDist := u8 (- dist) in
  Uint128 (Z.shiftr a64 dist)
    (Z.lor (Z.lor (u64 (Z.shiftl a64 (Z.land negDist 63))) (Z.shiftr a0 dist))
       (Z.b2z (negb (u64 (Z.shiftl a0 (Z.land negDist 63)) =? 0)))).

Definition softfloat_shiftRightJam128 (a64 a0 dist : Z) : uint128 :=
  if dist <? 64 then
    let u8NegDist := u8 (- dist) in
    Uint128 (Z.shiftr a64 dist)
      (Z.lor (Z.lor (u64 (Z.shiftl a64 (Z.land u8NegDist 63))) (Z.shiftr a0 dist))
         (Z.b2z (negb (u64 (Z.shiftl a0 (Z.land u8NegDist 63)) =? 0))))
  else
    Uint128 0
      (if dist <? 127
       then Z.lor (Z.shiftr a64 (Z.land dist 63))
              (Z.b2z (negb (Z.lor (Z.land a64 (u64 (Z.shiftl 1 (Z.land dist 63)) - 1)) a0 =? 0)))
       else Z.b2z (negb (Z.lor a64 a0 =? 0))).

Definition softfloat_shortShiftLeft128 (a64 a0 dist : Z) : uint128 :=
  Uint128 (Z.lor (u64 (Z.shiftl a64 dist)) (Z.shiftr a0 (Z.land (- dist) 63)))
    (u64 (Z.shiftl a0 dist)).

(** ** Single precision *)

(** The tail of the subtraction: the leading one found, and a sticky bit kept. *)
Definition mulAddF32_normalize (signZ : bool) (expZ sig64Z : Z) (st : softfloat_state)
    : Z * softfloat_state :=
  let shiftDist := s8 (softfloat_countLeadingZeros64 sig64Z - 1) in
  let expZ := expZ - shiftDist in
  let shiftDist := s8 (shiftDist - 32) in
  let sigZ := if shiftDist <? 0 then softfloat_shortShiftRightJam64 sig64Z (- shiftDist)
              else u64 (Z.shiftl sig64Z shiftDist) in
  softfloat_roundPackToF32 signZ expZ sigZ st.

(** The product and the third operand, both finite and neither zero. *)
Definition mulAddF32_sum (signProd : bool) (expProd sigProd : Z) (signC : bool) (expC sigC : Z)
    (st : softfloat_state) : Z * softfloat_state :=
  let expDiff := expProd - expC in
  if eqb signProd signC then
    let '(expZ, sigZ) :=
      if expDiff <=? 0
      then (expC, u64 (sigC + softfloat_shiftRightJam64 sigProd (32 - expDiff)))
      else (expProd, softfloat_shortShiftRightJam64
                       (u64 (sigProd + softfloat_shiftRightJam64 (u64 (Z.shiftl sigC 32)) expDiff)) 32) in
    let '(expZ, sigZ) := if sigZ <? 0x40000000 then (expZ - 1, u64 (Z.shiftl sigZ 1)) else (expZ, sigZ) in
    softfloat_roundPackToF32 signProd expZ sigZ st
  else
    let sig64C := u64 (Z.shiftl sigC 32) in
    if expDiff <? 0
    then mulAddF32_normalize signC expC (u64 (sig64C - softfloat_shiftRightJam64 sigProd (- expDiff))) st
    else if expDiff =? 0 then
      let sig64Z := u64 (sigProd - sig64C) in
      if sig64Z =? 0 then (u32 (packToF32UI (softfloat_roundingMode st =? softfloat_round_min) 0 0), st)
      else if negb (Z.land sig64Z 0x8000000000000000 =? 0)
      then mulAddF32_normalize (negb signProd) expProd (u64 (- sig64Z)) st
      else mulAddF32_normalize signProd expProd sig64Z st
    else mulAddF32_normalize signProd expProd (u64 (sigProd - softfloat_shiftRightJam64 sig64C expDiff)) st.

Definition softfloat_mulAddF32 (uiA uiB uiC op : Z) (st : softfloat_state) : Z * softfloat_state :=
  let signA := signF32UI uiA in
  let expA := expF32UI uiA in
  let sigA := fracF32UI uiA in
  let signB := signF32UI uiB in
  let expB := expF32UI uiB in
  let sigB := fracF32UI uiB in
  let signC := xorb (signF32UI uiC) (op =? softfloat_mulAdd_subC) in
  let expC := expF32UI uiC in
  let sigC := fracF32UI uiC in
  let signProd := xorb (xorb signA signB) (op =? softfloat_mulAdd_subProd) in
  let propagateNaN_ZC := fun uiZ st =>
    let '(uiZ, st) := softfloat_propagateNaNF32UI uiZ uiC st in (u32 uiZ, st) in
  let propagateNaN_ABC :=
    let '(uiZ, st) := softfloat_propagateNaNF32UI uiA uiB st in propagateNaN_ZC uiZ st in
  let infProdArg := fun magBits =>
    let invalid := propagateNaN_ZC defaultNaNF32UI (softfloat_raiseFlags softfloat_flag_invalid st) in
    let uiZ := packToF32UI signProd 0xFF 0 in
    if negb (magBits =? 0) then
      if negb (expC =? 0xFF) then (u32 uiZ, st)
      else if negb (sigC =? 0) then propagateNaN_ZC uiZ st
      else if eqb signProd signC then (u32 uiZ, st) else invalid
    else invalid in
  let zeroProd :=
    if (Z.lor expC sigC =? 0) && negb (eqb signProd signC)
    then (u32 (packToF32UI (softfloat_roundingMode st =? softfloat_round_min) 0 0), st)
    else (u32 uiC, st) in
  if expA =? 0xFF then
    if negb (sigA =? 0) || ((expB =? 0xFF) && negb (sigB =? 0)) then propagateNaN_ABC
    else infProdArg (Z.lor expB sigB)
  else if expB =? 0xFF then
    if negb (sigB =? 0) then propagateNaN_ABC else infProdArg (Z.lor expA sigA)
  else if expC =? 0xFF then
    if negb (sigC =? 0) then propagateNaN_ZC 0 st else (u32 uiC, st)
  else if (expA =? 0) && (sigA =? 0) then zeroProd
  else
    let normA := if expA =? 0 then softfloat_normSubnormalF32Sig sigA else ExpSig32 expA sigA in
    if (expB =? 0) && (sigB =? 0) then zeroProd
    else
      let normB := if expB =? 0 then softfloat_normSubnormalF32Sig sigB else ExpSig32 expB sigB in
      let expProd := exp32 normA + exp32 normB - 0x7E in
      let sigA := u64 (Z.shiftl (Z.lor (sig32 normA) 0x00800000) 7) in
      let sigB := u64 (Z.shiftl (Z.lor (sig32 normB) 0x00800000) 7) in
      let sigProd := u64 (sigA * sigB) in
      let '(expProd, sigProd) := if sigProd <? 0x2000000000000000
                                 then (expProd - 1, u64 (Z.shiftl sigProd 1)) else (expProd, sigProd) in
      if (expC =? 0) && (sigC =? 0)
      then softfloat_roundPackToF32 signProd (expProd - 1) (softfloat_shortShiftRightJam64 sigProd 31) st
      else
        let normC := if expC =? 0 then softfloat_normSubnormalF32Sig sigC else ExpSig32 expC sigC in
        let sigC := u64 (Z.shiftl (Z.lor (sig32 normC) 0x00800000) 6) in
        mulAddF32_sum signProd expProd sigProd signC (exp32 normC) sigC st.

Definition f32_mulAdd (a b c : Z) (st : softfloat_state) : Z * softfloat_state :=
  softfloat_mulAddF32 a b c 0 st.

(** ** Double precision *)

(** The tail of the subtraction: the leading one found, the low word kept as a
    sticky bit. *)
Definition mulAddF64_normalize (signZ : bool) (expZ : Z) (sig128Z : uint128) (st : softfloat_state)
    : Z * softfloat_state :=
  let '(expZ, sig128Z) := if v64 sig128Z =? 0 then (expZ - 64, Uint128 (v0 sig128Z) 0) else (expZ, sig128Z) in
  let shiftDist := s8 (softfloat_countLeadingZeros64 (v64 sig128Z) - 1) in
  let expZ := expZ - shiftDist in
  let '(sigZ, low) :=
    if shiftDist <? 0
    then (softfloat_shortShiftRightJam64 (v64 sig128Z) (- shiftDist), v0 sig128Z)
    else let sig128Z := softfloat_shortShiftLeft128 (v64 sig128Z) (v0 sig128Z) shiftDist in
         (v64 sig128Z, v0 sig128Z) in
  softfloat_roundPackToF64 signZ expZ (Z.lor sigZ (Z.b2z (negb (low =? 0)))) st.

Definition mulAddF64_sum (signZ : bool) (expZ : Z) (sig128Z : uint128) (signC : bool) (expC sigC : Z)
    (st : softfloat_state) : Z * softfloat_state :=
  let expDiff := expZ - expC in
  let expMax := if expDiff <? 0 then expC else expZ in
  let sig128Z :=
    if expDiff <? 0 then
      if eqb signZ signC || (expDiff <? -1)
      then Uint128 (softfloat_shiftRightJam64 (v64 sig128Z) (- expDiff)) (v0 sig128Z)
      else softfloat_shortShiftRightJam128 (v64 sig128Z) (v0 sig128Z) 1
    else sig128Z in
  let sig128C := softfloat_shiftRightJam128 sigC 0 expDiff in
  if eqb signZ signC then
    let sigZ :=
      if expDiff <=? 0
      then Z.lor (u64 (sigC + v64 sig128Z)) (Z.b2z (negb (v0 sig128Z =? 0)))
      else let sig128Z := softfloat_add128 (v64 sig128Z) (v0 sig128Z) (v64 sig128C) (v0 sig128C) in
           Z.lor (v64 sig128Z) (Z.b2z (negb (v0 sig128Z =? 0))) in
    let '(expZ, sigZ) := if sigZ <? 0x4000000000000000 then (expMax - 1, u64 (Z.shiftl sigZ 1)) else (expMax, sigZ) in
    softfloat_roundPackToF64 signZ expZ sigZ st
  else if expDiff <? 0
  then mulAddF64_normalize signC expMax (softfloat_sub128 sigC 0 (v64 sig128Z) (v0 sig128Z)) st
  else if expDiff =? 0 then
    let z64 := u64 (v64 sig128Z - sigC) in
    let z0 := v0 sig128Z in
    if Z.lor z64 z0 =? 0 then (u64 (packToF64UI (softfloat_roundingMode st =? softfloat_round_min) 0 0), st)
    else if negb (Z.land z64 0x8000000000000000 =? 0)
    then mulAddF64_normalize (negb signZ) expMax (softfloat_sub128 0 0 z64 z0) st
    else mulAddF64_normalize signZ expMax (Uint128 z64 z0) st
  else mulAddF64_normalize signZ expMax
         (softfloat_sub128 (v64 sig128Z) (v0 sig128Z) (v64 sig128C) (v0 sig128C)) st.

Definition softfloat_mulAddF64 (uiA uiB uiC op : Z) (st : softfloat_state) : Z * softfloat_state :=
  let signA := signF64UI uiA in
  let expA := expF64UI uiA in
  let sigA := fracF64UI uiA in
  let signB := signF64UI uiB in
  let expB := expF64UI uiB in
  let sigB := fracF64UI uiB in
  let signC := xorb (signF64UI uiC) (op =? softfloat_mulAdd_subC) in
  let expC := expF64UI uiC in
  let sigC := fracF64UI uiC in
  let signZ := xorb (xorb signA signB) (op =? softfloat_mulAdd_subProd) in
  let propagateNaN_ZC := fun uiZ st =>
    let '(uiZ, st) := softfloat_propagateNaNF64UI uiZ uiC st in (u64 uiZ, st) in
  let propagateNaN_ABC :=
    let '(uiZ, st) := softfloat_propagateNaNF64UI uiA uiB st in propagateNaN_ZC uiZ st in
  let infProdArg := fun magBits =>
    let invalid := propagateNaN_ZC defaultNaNF64UI (softfloat_raiseFlags softfloat_flag_invalid st) in
    let uiZ := packToF64UI signZ 0x7FF 0 in
    if negb (magBits =? 0) then
      if negb (expC =? 0x7FF) then (u64 uiZ, st)
      else if negb (sigC =? 0) then propagateNaN_ZC uiZ st
      else if eqb signZ signC then (u64 uiZ, st) else invalid
    else invalid in
  let zeroProd :=
    if (Z.lor expC sigC =? 0) && negb (eqb signZ signC)
    then (u64 (packToF64UI (softfloat_roundingMode st =? softfloat_round_min) 0 0), st)
    else (u64 uiC, st) in
  if expA =? 0x7FF then
    if negb (sigA =? 0) || ((expB =? 0x7FF) && negb (sigB =? 0)) then propagateNaN_ABC
    else infProdArg (Z.lor expB sigB)
  else if expB =? 0x7FF then
    if negb (sigB =? 0) then propagateNaN_ABC else infProdArg (Z.lor expA sigA)
  else if expC =? 0x7FF then
    if negb (sigC =? 0) then propagateNaN_ZC 0 st else (u64 uiC, st)
  else if (expA =? 0) && (sigA =? 0) then zeroProd
  else
    let normA := if expA =? 0 then softfloat_normSubnormalF64Sig sigA else ExpSig64 expA sigA in
    if (expB =? 0) && (sigB =? 0) then zeroProd
    else
      let normB := if expB =? 0 then softfloat_normSubnormalF64Sig sigB else ExpSig64 expB sigB in
      let expZ := exp64 normA + exp64 normB - 0x3FE in
      let sigA := u64 (Z.shiftl (Z.lor (sig64 normA) 0x0010000000000000) 10) in
      let sigB := u64 (Z.shiftl (Z.lor (sig64 normB) 0x0010000000000000) 10) in
      let sig128Z := softfloat_mul64To128 sigA sigB in
      let '(expZ, sig128Z) :=
        if v64 sig128Z <? 0x2000000000000000
        then (expZ - 1, softfloat_add128 (v64 sig128Z) (v0 sig128Z) (v64 sig128Z) (v0 sig128Z))
        else (expZ, sig128Z) in
      if (expC =? 0) && (sigC =? 0)
      then softfloat_roundPackToF64 signZ (expZ - 1)
             (Z.lor (u64 (Z.shiftl (v64 sig128Z) 1)) (Z.b2z (negb (v0 sig128Z =? 0)))) st
      else
        let normC := if expC =? 0 then softfloat_normSubnormalF64Sig sigC else ExpSig64 expC sigC in
        let sigC := u64 (Z.shiftl (Z.lor (sig64 normC) 0x0010000000000000) 9) in
        mulAddF64_sum signZ expZ sig128Z signC (exp64 normC) sigC st.

Definition f64_mulAdd (a b c : Z) (st : softfloat_state) : Z * softfloat_state :=
  softfloat_mulAddF64 a b c 0 st.

(** ** What it should give *)

(** The product of infinity and zero is invalid even when the third operand is a
    quiet NaN, as RISC-V requires. *)
Definition ieee_fma (F : format) (m : mode) (a b c u fl : Z) : Prop :=
  let s := xorb (sign_of F a) (sign_of F b) in
  let inf_zero := is_inf F a && is_zero F b || is_zero F a && is_inf F b in
  if is_nan F a || is_nan F b || is_nan F c
  then nan_result F (is_snan F a || is_snan F b || is_snan F c || inf_zero) u fl
  else if inf_zero then nan_result F true u fl
  else if is_inf F a || is_inf F b
  then if is_inf F c && negb (eqb s (sign_of F c)) then nan_result F true u fl
       else u = infinity F s /\ fl = 0
  else if is_inf F c then u = c /\ fl = 0
  else rounds_to F m
         (if eqb s (sign_of F c) then s else match m with RDN => true | _ => false end)
         (value F a * value F b + value F c) u fl.

(** ** Single precision: the sum *)

Lemma jam_shift_lt d n s : 0 <= d -> 1 <= n -> 0 <= s < 2 ^ (d + n) -> 0 <= jam_shift s d < 2 ^ n.
Proof.
  intros Hd Hn Hs. pose proof (jam_shift_cases s d Hd) as Hj. pose proof (Z.pow_pos_nonneg 2 d ltac:(lia) Hd).
  rewrite Z.pow_add_r in Hs by lia.
  assert (2 ^ n = 2 * 2 ^ (n - 1)) as E by (rewrite <-Z.pow_succ_r by lia; f_equal; lia).
  assert (0 <= s / 2 ^ d < 2 ^ n) by (split; [apply Z.div_pos; lia|apply Z.div_lt_upper_bound; lia]).
  destruct Hj as [[_ ->]|(_ & [i Hi]%Z.odd_spec & Hj)]; lia.
Qed.

(** A shift that loses no bits. *)
Lemma jam_shift_exact k d : 0 <= d -> jam_shift (k * 2 ^ d) d = k.
Proof.
  intros Hd. pose proof (Z.pow_pos_nonneg 2 d ltac:(lia) Hd). unfold jam_shift.
  rewrite Z.div_mul, Z.mod_mul by lia. apply Z.lor_0_r.
Qed.

Definition rdn (m : mode) : bool := match m with RDN => true | _ => false end.
Definition signed_value (s : bool) (x : R) : R := if s then (- x)%R else x.

Lemma rounds_to_with_sign F m zs (s : bool) x r u fl :
  (0 < x)%R -> r = signed_value s x -> rounded F m s x u fl -> rounds_to F m zs r u fl.
Proof. intros Hx -> Hr. by apply rounds_to_signed. Qed.

Lemma mulAddF32_normalize_rounded m s e D y st :
  in_mode m st -> -100000 < e < 100000 -> 0 < D < 2 ^ 63 ->
  y = IZR D \/ (agrees 1 y D /\ 2 ^ 60 <= D) ->
  returns (mulAddF32_normalize s e D st) (rounded F32 m s (y * bpow (e - 188))) st.
Proof.
  intros Hst He HD Hy. unfold mulAddF32_normalize. rewrite countLeadingZeros64_log2 by lia.
  pose proof (Z.log2_nonneg D). assert (Z.log2 D < 63) by (apply Z.log2_lt_pow2; lia).
  cbv zeta. rewrite (s8_small (63 - Z.log2 D - 1)) by lia.
  rewrite (s8_small (63 - Z.log2 D - 1 - 32)) by lia. replace (63 - Z.log2 D - 1 - 32) with (30 - Z.log2 D) by lia.
  destruct (norm_jam D ltac:(lia)) as [Hsig Hag]. set (d := 30 - Z.log2 D) in *.
  assert ((if d <? 0 then softfloat_shortShiftRightJam64 D (- d) else u64 (Z.shiftl D d)) =
          if d <? 0 then jam_shift D (- d) else D * 2 ^ d) as ->.
  { destruct (Z.ltb_spec d 0); [by rewrite shortShiftRightJam64_jam by lia|].
    rewrite Z.shiftl_mul_pow2, u64_id by lia. done. }
  apply (roundPackToF32_rounded m _ _ _ (y * bpow d)%R); [done|lia|done| |].
  - destruct Hy as [->|[Ha Hb]]; [done|].
    assert (60 <= Z.log2 D) by (apply Z.log2_le_pow2; lia). rewrite (proj2 (Z.ltb_lt d 0)) by lia.
    replace d with (- - d) at 1 by lia. apply (agrees_jam_shift 1); done || lia.
  - rewrite Rmult_assoc, <-bpow_add. do 2 f_equal. change (emin F32) with (-149). lia.
Qed.

(** A term shifted down to the scale of the other: exact when it is near. *)
Lemma aligned_difference t X Y k d :
  2 <= t -> 2 ^ t <= X < 2 ^ (t + 1) -> 2 ^ t <= Y < 2 ^ (t + 1) -> X = 2 * (X / 2) ->
  (exists j, Y = j * 2 ^ k) -> 2 <= k -> 1 <= d ->
  let D := X - jam_shift Y d in
  let y := (IZR X - IZR Y * bpow (- d))%R in
  0 < D < 2 ^ (t + 1) /\ (y = IZR D \/ (agrees 1 y D /\ 2 ^ (t - 1) <= D)) /\ (0 < y)%R.
Proof.
  intros Ht HX HY Hev [j Hj] Hk Hd D y.
  assert (2 ^ t = 2 * 2 ^ (t - 1)) as Et by (rewrite <-Z.pow_succ_r by lia; f_equal; lia).
  assert (0 < y)%R as Hy.
  { unfold y. assert (IZR Y * bpow (- d) < IZR X)%R; [|lra].
    apply Rlt_le_trans with (IZR (2 ^ (t + 1)) * bpow (- d))%R; [apply scale_lt, IZR_lt; lia|].
    apply Rle_trans with (IZR (2 ^ t)); [|apply IZR_le; lia].
    rewrite <-!bpow_IZR, <-bpow_add by lia. apply bpow_le. lia. }
  pose proof (jam_shift_lt d t Y ltac:(lia) ltac:(lia)) as Hjt.
  assert (2 ^ (t + 1) <= 2 ^ (d + t)) by (apply Z.pow_le_mono_r; lia). specialize (Hjt ltac:(lia)).
  split; [unfold D; lia|]. split; [|done].
  destruct (Z_le_gt_dec d k) as [Hle|Hgt].
  - left. unfold y, D. replace k with (k - d + d) in Hj by lia. rewrite Z.pow_add_r, Z.mul_assoc in Hj by lia.
    rewrite Hj, jam_shift_exact, IZR_bpow, minus_IZR, (Rmult_assoc (IZR _)), <-bpow_add by lia.
    rewrite Z.add_opp_diag_r, bpow_0. lra.
  - right. pose proof (jam_shift_lt d (t - 1) Y ltac:(lia) ltac:(lia)) as Hjt'.
    assert (2 ^ (t + 1) <= 2 ^ (d + (t - 1))) by (apply Z.pow_le_mono_r; lia). specialize (Hjt' ltac:(lia)).
    split; [|unfold D; lia]. pose proof (agrees_opp 1 _ _ (agrees_jam 1 d Y ltac:(lia) ltac:(lia))) as Hag.
    apply (agrees_add 1 _ _ (X / 2)) in Hag; [|lia]. replace (X / 2 * 2 ^ 1) with X in Hag by lia.
    unfold y, D. replace (X - jam_shift Y d) with (- jam_shift Y d + X) by lia.
    replace (IZR X - IZR Y * bpow (- d))%R with (- (IZR Y * bpow (- d)) + IZR X)%R by lra. done.
Qed.

Section Sum32.
Context (m : mode) (st : softfloat_state) (Hst : in_mode m st) (e1 e2 P C : Z).
Context (He1 : -1000 < e1 < 1000) (He2 : -1000 < e2 < 1000).
Context (HP : 2 ^ 61 <= P < 2 ^ 62) (HPk : exists j, P = j * 2 ^ 14).
Context (HC : 2 ^ 29 <= C < 2 ^ 30) (HCk : exists j, C = j * 2 ^ 6).

Lemma mulAddF32_sum_same s x :
  x = (IZR P * bpow (e1 - 188) + IZR (C * 2 ^ 32) * bpow (e2 - 188))%R ->
  returns (mulAddF32_sum s e1 P s e2 C st) (rounded F32 m s x) st.
Proof.
  intros ->. destruct HPk as [p Hp], HCk as [c Hc]. unfold mulAddF32_sum. rewrite eqb_reflx.
  rewrite (Z.shiftl_mul_pow2 C), (u64_id (C * 2 ^ 32)) by lia. change 0x40000000 with (2 ^ 30).
  destruct (Z.leb_spec (e1 - e2) 0) as [Hd|Hd].
  - rewrite shiftRightJam64_jam by lia. set (d := 32 - (e1 - e2)).
    assert (2 ^ 62 <= 2 ^ (d + 30)) by (apply Z.pow_le_mono_r; lia).
    pose proof (jam_shift_lt d 30 P ltac:(lia) ltac:(lia) ltac:(lia)) as Hj. rewrite (u64_id (C + _)) by lia.
    pose proof (agrees_jam 1 d P ltac:(lia) ltac:(lia)) as Hag.
    apply (agrees_add 1 _ _ (c * 2 ^ 5)) in Hag; [|lia]. replace (c * 2 ^ 5 * 2 ^ 1) with C in Hag by lia.
    rewrite (Z.add_comm _ C) in Hag.
    pose proof (shortRoundPackF32 m s e2 (C + jam_shift P d) _ st Hst ltac:(lia) ltac:(lia) Hag) as Hr.
    replace (IZR P * bpow (e1 - 188) + IZR (C * 2 ^ 32) * bpow (e2 - 188))%R
      with ((IZR P * bpow (- d) + IZR C) * bpow (e2 - 7 + emin F32))%R.
    + destruct (_ <? 2 ^ 30) eqn:E; [|done]. apply Z.ltb_lt in E. by rewrite Z.shiftl_mul_pow2, u64_id by lia.
    + rewrite Rmult_plus_distr_r, IZR_bpow, !Rmult_assoc, <-!bpow_add by lia.
      change (emin F32) with (-149). f_equal; do 2 f_equal; unfold d; lia.
  - rewrite shiftRightJam64_jam by lia. set (d := e1 - e2) in *.
    assert (2 ^ 62 <= 2 ^ (d + 61)) by (apply Z.pow_le_mono_r; lia).
    pose proof (jam_shift_lt d 61 (C * 2 ^ 32) ltac:(lia) ltac:(lia) ltac:(lia)) as Hj. rewrite (u64_id (P + _)) by lia.
    pose proof (agrees_jam 1 d (C * 2 ^ 32) ltac:(lia) ltac:(lia)) as Hag.
    apply (agrees_add 1 _ _ (p * 2 ^ 13)) in Hag; [|lia]. replace (p * 2 ^ 13 * 2 ^ 1) with P in Hag by lia.
    rewrite (Z.add_comm _ P) in Hag. apply (agrees_jam_shift 1 1 _ _ 32) in Hag; [|lia..].
    rewrite shortShiftRightJam64_jam by lia. set (sig := jam_shift (P + _) 32) in *.
    assert (2 ^ 29 <= sig < 2 ^ 31) as Hsig.
    { unfold sig. set (q := P + jam_shift (C * 2 ^ 32) d) in *. assert (2 ^ 61 <= q < 2 ^ 63) by lia.
      split; [|apply (jam_shift_lt 32 31); lia].
      pose proof (jam_shift_cases q 32 ltac:(lia)) as Hq. assert (2 ^ 29 <= q / 2 ^ 32) by (apply Z.div_le_lower_bound; lia). lia. }
    pose proof (shortRoundPackF32 m s e1 sig _ st Hst ltac:(lia) Hsig Hag) as Hr.
    replace (IZR P * bpow (e1 - 188) + IZR (C * 2 ^ 32) * bpow (e2 - 188))%R
      with ((IZR (C * 2 ^ 32) * bpow (- d) + IZR P) * bpow (- (32)) * bpow (e1 - 7 + emin F32))%R.
    + destruct (sig <? 2 ^ 30) eqn:E; [|done]. apply Z.ltb_lt in E. by rewrite Z.shiftl_mul_pow2, u64_id by lia.
    + rewrite !Rmult_plus_distr_r, !Rmult_assoc, <-!bpow_add by lia.
      change (emin F32) with (-149). rewrite Rplus_comm. f_equal; do 2 f_equal; unfold d; lia.
Qed.

Lemma mulAddF32_sum_diff (s : bool) :
  let r := (signed_value s (IZR P * bpow (e1 - 188)) + signed_value (negb s) (IZR (C * 2 ^ 32) * bpow (e2 - 188)))%R in
  returns (mulAddF32_sum s e1 P (negb s) e2 C st) (rounds_to F32 m (rdn m) r) st.
Proof.
  intros r. destruct HPk as [p Hp], HCk as [c Hc]. unfold mulAddF32_sum.
  replace (eqb s (negb s)) with false by (by destruct s).
  rewrite (Z.shiftl_mul_pow2 C), (u64_id (C * 2 ^ 32)) by lia. set (C' := C * 2 ^ 32) in *. cbv zeta.
  assert (2 ^ 61 <= C' < 2 ^ 62) as HC' by (unfold C'; lia).
  destruct (Z.ltb_spec (e1 - e2) 0) as [Hd|Hd]; [|destruct (Z.eqb_spec (e1 - e2) 0) as [E|E]].
  - rewrite shiftRightJam64_jam by lia. set (d := - (e1 - e2)) in *.
    destruct (aligned_difference 61 C' P 14 d) as (HD & Hag & Hy); [lia|done|done|unfold C'; divlia|by exists p|lia|lia|].
    rewrite u64_id by lia. eapply returns_mono; [by apply mulAddF32_normalize_rounded; [|lia|lia|]|].
    intros u fl. apply rounds_to_with_sign.
    + apply Rmult_lt_0_compat; [done|apply bpow_gt_0].
    + unfold r, signed_value. replace (e1 - 188) with (- d + (e2 - 188)) by lia. rewrite bpow_add.
      destruct s; cbn [negb]; ring.
  - assert (e1 = e2) as <- by lia.
    assert (r = signed_value s (IZR (P - C') * bpow (e1 - 188)))%R as Hr.
    { unfold r, signed_value. rewrite minus_IZR. destruct s; cbn [negb]; ring. }
    destruct (Z.lt_trichotomy P C') as [Hlt|[->|Hgt]].
    + assert (u64 (P - C') = P - C' + 2 ^ 64) as ->.
      { unfold u64. symmetry. apply Z.mod_unique with (-1); lia. }
      rewrite (proj2 (Z.eqb_neq _ 0)) by lia.
      change 0x8000000000000000 with (1 * 2 ^ 63). rewrite quiet_bit by lia.
      assert (Z.testbit (P - C' + 2 ^ 64) 63 = true) as ->.
      { rewrite Z.testbit_odd, Z.shiftr_div_pow2 by lia.
        replace ((P - C' + 2 ^ 64) / 2 ^ 63) with 1; [done|]. apply Z.div_unique with (P - C' + 2 ^ 63); lia. }
      cbn [negb]. assert (u64 (- (P - C' + 2 ^ 64)) = C' - P) as ->.
      { unfold u64. symmetry. apply Z.mod_unique with (-1); lia. }
      eapply returns_mono; [apply (mulAddF32_normalize_rounded m _ _ _ (IZR (C' - P))); [done|lia|lia|by left]|].
      intros u fl. apply rounds_to_with_sign.
      * apply Rmult_lt_0_compat; [apply IZR_lt; lia|apply bpow_gt_0].
      * rewrite Hr. unfold signed_value. rewrite !minus_IZR. destruct s; cbn [negb]; ring.
    + rewrite Z.sub_diag in *. cbn [u64 Z.eqb]. change (u64 0 =? 0) with true. cbv iota.
      destruct Hst as [-> _]. apply returns_pure. left. split_and!; [|by destruct m|done].
      rewrite Hr. unfold signed_value. destruct s; lra.
    + rewrite u64_id by lia. rewrite (proj2 (Z.eqb_neq _ 0)) by lia.
      change 0x8000000000000000 with (1 * 2 ^ 63). rewrite quiet_bit by lia.
      assert (Z.testbit (P - C') 63 = false) as ->.
      { rewrite Z.testbit_odd, Z.shiftr_div_pow2, Z.div_small by lia. done. }
      cbn [negb].
      eapply returns_mono; [apply (mulAddF32_normalize_rounded m _ _ _ (IZR (P - C'))); [done|lia|lia|by left]|].
      intros u fl. apply rounds_to_with_sign; [|done].
      apply Rmult_lt_0_compat; [apply IZR_lt; lia|apply bpow_gt_0].
  - rewrite shiftRightJam64_jam by lia. set (d := e1 - e2) in *.
    destruct (aligned_difference 61 P C' 38 d) as (HD & Hag & Hy);
      [lia|done|done|rewrite Hp; divlia|exists c; unfold C'; lia|lia|lia|].
    rewrite u64_id by lia. eapply returns_mono; [by apply mulAddF32_normalize_rounded; [|lia|lia|]|].
    intros u fl. apply rounds_to_with_sign.
    + apply Rmult_lt_0_compat; [done|apply bpow_gt_0].
    + unfold r, signed_value. replace (e2 - 188) with (- d + (e1 - 188)) by lia. rewrite bpow_add.
      destruct s; cbn [negb]; ring.
Qed.
End Sum32.

(** ** The cases of the specification *)

Section FmaCases.
Context (F : format) `{ValidFormat F} (m : mode).

(** A number that needs no rounding rounds to itself. *)
Lemma rounds_to_value zs c :
  is_pattern F c -> is_finite F c = true -> is_zero F c = false -> rounds_to F m zs (value F c) c 0.
Proof.
  intros Hc Hf Hz. assert (0 < absval F c)%R as Hpos by (by apply absval_pos).
  unfold value. apply rounds_to_signed; [done|].
  assert (mag F c = (exp_of F c - 1) * 2 ^ (prec F - 1) + sig_of F c) as Hm by (by apply mag_sig).
  enough (rounded F m (sign_of F c) (absval F c)
            (signed F (sign_of F c) ((exp_of F c - 1) * 2 ^ (prec F - 1) + sig_of F c)) 0) as Hr
    by (by rewrite <-Hm, <-(signed_eta F c Hc) in Hr).
  pose proof (sig_of_range F c) as Hs.
  apply rounded_exact; [done|unfold exp_of; lia|done| | |].
  - unfold exp_of, sig_of. pose proof (expo_range F c). pose proof (frac_range F c).
    destruct (Z.eqb_spec (expo F c) 0) as [E|E]; [left; lia|right; lia].
  - rewrite <-Hm. by apply Z.ltb_lt.
  - by rewrite absval_sig.
Qed.

Lemma ieee_fma_finite a b c u fl :
  is_finite F a = true -> is_finite F b = true -> is_finite F c = true ->
  rounds_to F m (if eqb (xorb (sign_of F a) (sign_of F b)) (sign_of F c)
                 then xorb (sign_of F a) (sign_of F b) else rdn m)
    (signed_value (xorb (sign_of F a) (sign_of F b)) (absval F a * absval F b) + value F c) u fl ->
  ieee_fma F m a b c u fl.
Proof.
  intros Ha Hb Hc Hr. unfold ieee_fma. rewrite is_finite_fields, negb_true_iff in Ha, Hb, Hc by done.
  rewrite !is_nan_fields, !is_inf_fields, Ha, Hb, Hc, andb_false_r by done. cbn [andb orb].
  by rewrite value_mul.
Qed.

(** A product that is zero. *)
Lemma ieee_fma_zero_prod a b c u :
  is_pattern F c -> is_finite F a = true -> is_finite F b = true -> is_finite F c = true ->
  is_zero F a || is_zero F b = true ->
  u = (if is_zero F c && negb (eqb (xorb (sign_of F a) (sign_of F b)) (sign_of F c))
       then zero F (rdn m) else c) ->
  ieee_fma F m a b c u 0.
Proof.
  intros Hp Ha Hb Hc Hz ->. apply ieee_fma_finite; try done.
  assert (absval F a * absval F b = 0)%R as ->.
  { apply orb_true_iff in Hz as [Hz|Hz]; rewrite (absval_zero F _ Hz); lra. }
  replace (signed_value _ 0 + value F c)%R with (value F c) by (unfold signed_value; case_match; lra).
  destruct (is_zero F c) eqn:Zc; cbn [andb].
  - left. unfold value. rewrite (absval_zero F c Zc). split; [case_match; lra|]. split; [|done].
    destruct (eqb _ _) eqn:E; cbn [negb]; [|done]. apply eqb_prop in E as ->.
    rewrite (signed_eta F c Hp) at 1. unfold is_zero in Zc. apply Z.eqb_eq in Zc. by rewrite Zc.
  - by apply rounds_to_value.
Qed.
End FmaCases.

(** Two NaN rules in a row. *)
Lemma snan_nan F u : is_nan F u = false -> is_snan F u = false.
Proof. unfold is_snan. by intros ->. Qed.

Lemma flag_if_or a b : Z.lor (flag_if a flag_invalid) (flag_if b flag_invalid) = flag_if (a || b) flag_invalid.
Proof. by destruct a, b. Qed.

(** ** F32 *)

Lemma fma_product32 SA SB e :
  2 ^ 23 <= SA < 2 ^ 24 -> 2 ^ 23 <= SB < 2 ^ 24 ->
  let P0 := SA * 2 ^ 7 * (SB * 2 ^ 7) in
  let e' := if P0 <? 2 ^ 61 then e - 1 else e in
  let P := if P0 <? 2 ^ 61 then P0 * 2 else P0 in
  0 <= P0 < 2 ^ 62 /\ 2 ^ 61 <= P < 2 ^ 62 /\ (exists j, P = j * 2 ^ (7 + 7)) /\ (e - 1 <= e' <= e) /\
  (IZR SA * IZR SB * bpow (e - 188 + 7 + 7) = IZR P * bpow (e' - 188))%R.
Proof.
  intros HA HB P0 e' P.
  assert (P0 = SA * SB * 2 ^ (7 + 7)) as HP0 by (unfold P0; rewrite Z.pow_add_r by lia; ring).
  assert (2 ^ 23 * 2 ^ 23 <= SA * SB < 2 ^ 24 * 2 ^ 24) as HS by nia. rewrite <-mult_IZR.
  set (S := SA * SB) in *. clearbody S P0. unfold P, e'. split; [lia|]. destruct (Z.ltb_spec P0 (2 ^ 61)) as [Hlt|Hge].
  - split; [lia|]. split; [exists (S * 2); rewrite HP0; ring|]. split; [lia|].
    rewrite HP0. change 2 with (2 ^ 1) at 2. rewrite !IZR_bpow, !Rmult_assoc, <-!bpow_add by lia. do 2 f_equal. lia.
  - split; [lia|]. split; [by exists S|]. split; [lia|].
    rewrite HP0, !IZR_bpow, !Rmult_assoc, <-!bpow_add by lia. do 2 f_equal. lia.
Qed.

Lemma f32_mulAdd_finite m a b c st :
  in_mode m st -> is_pattern F32 a -> is_pattern F32 b -> is_pattern F32 c ->
  is_finite F32 a = true -> is_finite F32 b = true -> is_finite F32 c = true ->
  returns (f32_mulAdd a b c st) (ieee_fma F32 m a b c) st.
Proof.
  intros Hst Ha Hb Hc Fa Fb Fc. unfold f32_mulAdd, softfloat_mulAddF32.
  rewrite !signF32UI_sign, !expF32UI_expo, !fracF32UI_frac by done. cbv zeta.
  change (0 =? softfloat_mulAdd_subC) with false. change (0 =? softfloat_mulAdd_subProd) with false.
  rewrite !xorb_false_r.
  pose proof (is_zero_fields F32 a) as Za. pose proof (is_zero_fields F32 b) as Zb. pose proof (is_zero_fields F32 c) as Zc.
  pose proof Fa as Ea. pose proof Fb as Eb. pose proof Fc as Ec. rewrite (is_finite_fields F32), negb_true_iff in Ea, Eb, Ec.
  cbn [ewidth F32] in Ea, Eb, Ec. change (2 ^ 8 - 1) with 255 in *. rewrite Ea, Eb, Ec, lor_eqb_0, <-Za, <-Zb, <-Zc.
  set (s := xorb (sign_of F32 a) (sign_of F32 b)). rewrite pack_zero_F32, (u32_id c) by apply Hc.
  assert (forall r, (r = (if is_zero F32 c && negb (eqb s (sign_of F32 c)) then zero F32 (rdn m) else c)) ->
    is_zero F32 a || is_zero F32 b = true -> returns (r, st) (ieee_fma F32 m a b c) st) as Hzero.
  { intros r Hr Hz. by apply returns_pure, ieee_fma_zero_prod. }
  assert ((if is_zero F32 c && negb (eqb s (sign_of F32 c))
           then (zero F32 (softfloat_roundingMode st =? softfloat_round_min), st) else (c, st)) =
          ((if is_zero F32 c && negb (eqb s (sign_of F32 c)) then zero F32 (rdn m) else c), st)) as ->.
  { destruct Hst as [-> _]. case_match; [|done]. by destruct m. }
  destruct (is_zero F32 a) eqn:Ka; [by apply Hzero|]. destruct (is_zero F32 b) eqn:Kb; [by apply Hzero|].
  clear Hzero.
  destruct (norm_operandF32 a Fa Ka) as (HSA & HeA & Hva).
  destruct (norm_operandF32 b Fb Kb) as (HSB & HeB & Hvb).
  set (nA := if expo F32 a =? 0 then _ else _) in *. set (nB := if expo F32 b =? 0 then _ else _) in *.
  change 8388608 with (2 ^ 23).
  set (SA := Z.lor (sig32 nA) (2 ^ 23)) in *. set (SB := Z.lor (sig32 nB) (2 ^ 23)) in *.
  rewrite (Z.shiftl_mul_pow2 SA), (Z.shiftl_mul_pow2 SB) by done.
  destruct (fma_product32 SA SB (exp32 nA + exp32 nB - 126) HSA HSB) as (HP0 & HP & HPk & He & Hab).
  change 0x2000000000000000 with (2 ^ 61). rewrite (u64_id (SA * _)), (u64_id (SB * _)), u64_id by lia.
  set (P0 := SA * 2 ^ 7 * (SB * 2 ^ 7)) in *.
  set (P := if P0 <? 2 ^ 61 then P0 * 2 else P0) in *.
  set (e1 := if P0 <? 2 ^ 61 then exp32 nA + exp32 nB - 126 - 1 else exp32 nA + exp32 nB - 126) in *.
  assert ((if P0 <? 2 ^ 61 then (exp32 nA + exp32 nB - 126 - 1, u64 (Z.shiftl P0 1)) else (exp32 nA + exp32 nB - 126, P0)) = (e1, P)) as ->.
  { unfold e1, P. destruct (Z.ltb_spec P0 (2 ^ 61)); [|done]. by rewrite Z.shiftl_mul_pow2, u64_id by lia. }
  assert (absval F32 a * absval F32 b = IZR P * bpow (e1 - 188))%R as Hprod.
  { rewrite Hva, Hvb, <-Hab. replace (exp32 nA + exp32 nB - 126 - 188 + 7 + 7)
      with ((exp32 nA - 1 + emin F32) + (exp32 nB - 1 + emin F32)) by (change (emin F32) with (-149); lia).
    rewrite (bpow_add (exp32 nA - 1 + emin F32)). ring. }
  clearbody e1 P P0 SA SB. clear HP0 Hab.
  assert (0 < IZR P * bpow (e1 - 188))%R as Hpos by (apply Rmult_lt_0_compat; [apply IZR_lt; lia|apply bpow_gt_0]).
  destruct (is_zero F32 c) eqn:Kc.
  - rewrite shortShiftRightJam64_jam by lia. eapply returns_mono.
    + apply (roundPackToF32_rounded m s _ _ (IZR P * bpow (- (31))) (IZR P * bpow (e1 - 188))); [done|lia| | |].
      * apply (jam_shift_pow 31 31); lia.
      * apply agrees_jam; lia.
      * rewrite Rmult_assoc, <-bpow_add. do 2 f_equal. change (emin F32) with (-149). lia.
    + intros u fl Hr. apply ieee_fma_finite; try done. fold s. rewrite Hprod.
      apply (rounds_to_with_sign _ _ _ s (IZR P * bpow (e1 - 188))); [done| |done].
      unfold value. rewrite (absval_zero F32 c Kc). case_match; lra.
  - destruct (norm_operandF32 c Fc Kc) as (HSC & HeC & Hvc).
    set (nC := if expo F32 c =? 0 then _ else _) in *. set (SC := Z.lor (sig32 nC) (2 ^ 23)) in *.
    rewrite Z.shiftl_mul_pow2, u64_id by lia.
    assert (absval F32 c = IZR (SC * 2 ^ 6 * 2 ^ 32) * bpow (exp32 nC - 188))%R as Hcv.
    { rewrite Hvc, !IZR_bpow, !Rmult_assoc, <-!bpow_add by lia. do 2 f_equal. change (emin F32) with (-149). lia. }
    assert (exists j, SC * 2 ^ 6 = j * 2 ^ 6) as HCk by (by exists SC).
    assert (value F32 c = signed_value (sign_of F32 c) (IZR (SC * 2 ^ 6 * 2 ^ 32) * bpow (exp32 nC - 188))) as Hvv
      by (rewrite <-Hcv; done).
    destruct (Bool.bool_dec s (sign_of F32 c)) as [Es|Es].
    + rewrite <-Es in *. eapply returns_mono.
      * apply (mulAddF32_sum_same m st Hst e1 (exp32 nC) P (SC * 2 ^ 6)); [lia|lia|done|done|lia|done|reflexivity].
      * intros u fl Hr. apply ieee_fma_finite; try done. fold s. rewrite <-Es, eqb_reflx, Hprod.
        refine (rounds_to_with_sign _ _ _ s _ _ _ _ _ _ Hr); [|rewrite Hvv; unfold signed_value; destruct s; ring].
        apply Rplus_lt_0_compat; [done|]. rewrite <-Hcv. by apply absval_pos; [apply _|].
    + assert (sign_of F32 c = negb s) as En by (by destruct s, (sign_of F32 c)). rewrite En in *.
      eapply returns_mono.
      * apply (mulAddF32_sum_diff m st Hst e1 (exp32 nC) P (SC * 2 ^ 6)); [lia|lia|done|done|lia|done].
      * intros u fl Hr. apply ieee_fma_finite; try done. fold s.
        rewrite En, Hprod, Hvv. replace (eqb s (negb s)) with false by (by destruct s). done.
Qed.

Lemma propagateNaNF32UI_flags a b st :
  softfloat_propagateNaNF32UI a b st =
  (defaultNaNF32UI, softfloat_raiseFlags (flag_if (is_snan F32 a || is_snan F32 b) flag_invalid) st).
Proof. unfold softfloat_propagateNaNF32UI. by rewrite raise_if, !isSigNaNF32UI_snan. Qed.

(** [f32_mulAdd] is the fused multiply-add of IEEE 754: the exact value of
    [a * b + c] is rounded once, in every rounding mode and for all operands. *)
Theorem f32_mulAdd_returns m a b c st :
  in_mode m st -> is_pattern F32 a -> is_pattern F32 b -> is_pattern F32 c ->
  returns (f32_mulAdd a b c st) (ieee_fma F32 m a b c) st.
Proof.
  intros Hst Ha Hb Hc.
  destruct (is_finite F32 a && is_finite F32 b && is_finite F32 c) eqn:Hf.
  { apply andb_true_iff in Hf as [[? ?]%andb_true_iff ?]. by apply f32_mulAdd_finite. }
  rewrite !(is_finite_fields F32) in Hf. cbn [ewidth F32] in Hf. change (2 ^ 8 - 1) with 255 in *.
  unfold f32_mulAdd, softfloat_mulAddF32.
  rewrite !signF32UI_sign, !expF32UI_expo, !fracF32UI_frac by done. cbv zeta.
  change (0 =? softfloat_mulAdd_subC) with false. change (0 =? softfloat_mulAdd_subProd) with false.
  rewrite !xorb_false_r, pack_inf_F32, !lor_eqb_0, !propagateNaNF32UI_flags, (u32_id c) by apply Hc.
  unfold ieee_fma. set (s := xorb (sign_of F32 a) (sign_of F32 b)).
  pose proof (snan_nan F32 a) as Sa. pose proof (snan_nan F32 b) as Sb. pose proof (snan_nan F32 c) as Sc.
  rewrite !(is_nan_fields F32) in *. rewrite !(is_inf_fields F32), !(is_zero_fields F32).
  cbn [ewidth F32] in *. change (2 ^ 8 - 1) with 255 in *.
  replace (is_snan F32 defaultNaNF32UI) with false by (by vm_compute).
  replace (is_snan F32 0) with false by (by vm_compute).
  assert (forall s, is_snan F32 (packToF32UI s 255 0) = false) as Hi by (intros []; by vm_compute).
  rewrite !Hi. rewrite !raise_raise.
  assert ((expo F32 a =? 255) = true -> (expo F32 a =? 0) = false) as HA0 by (rewrite Z.eqb_eq; by intros ->).
  assert ((expo F32 b =? 255) = true -> (expo F32 b =? 0) = false) as HB0 by (rewrite Z.eqb_eq; by intros ->).
  destruct (expo F32 a =? 255), (frac F32 a =? 0), (expo F32 b =? 255), (frac F32 b =? 0),
    (expo F32 c =? 255), (frac F32 c =? 0); try discriminate Hf; rewrite ?HA0, ?HB0 by done;
    rewrite ?Sa, ?Sb, ?Sc by done; cbn [andb orb negb];
    try (apply returns_raise; split; [done|]; cbn [orb]; by rewrite ?flag_if_or, ?orb_false_r);
    try (by apply returns_pure).
  all: try (destruct (expo F32 a =? 0)); try (destruct (expo F32 b =? 0)); cbn [andb orb negb];
    try (apply returns_raise; split; [done|]; by rewrite ?flag_if_or, ?orb_false_r);
    try (by apply returns_pure).
  all: try (apply returns_raise; split; [done|]; by destruct (is_snan F32 c)).
  all: destruct (eqb s (sign_of F32 c)); cbn [negb]; [by apply returns_pure|by apply returns_raise].
Qed.

(** ** Two words *)

Definition v128 (z : uint128) : Z := v64 z * 2 ^ 64 + v0 z.
Definition wf128 (z : uint128) : Prop := 0 <= v64 z < 2 ^ 64 /\ 0 <= v0 z < 2 ^ 64.

Lemma jam_words z : wf128 z -> Z.lor (v64 z) (Z.b2z (negb (v0 z =? 0))) = jam_shift (v128 z) 64.
Proof.
  intros [H1 H0]. unfold jam_shift, v128. rewrite Z.add_comm, Z.div_add, Z.mod_add by lia.
  by rewrite Z.div_small, Z.mod_small by lia.
Qed.

Lemma v128_range z t : wf128 z -> 64 <= t -> v128 z < 2 ^ t <-> v64 z < 2 ^ (t - 64).
Proof.
  intros [H1 H0] Ht. unfold v128. replace (2 ^ t) with (2 ^ (t - 64) * 2 ^ 64)
    by (rewrite <-Z.pow_add_r by lia; f_equal; lia). lia.
Qed.
Lemma v128_range_ge z t : wf128 z -> 64 <= t -> 2 ^ t <= v128 z <-> 2 ^ (t - 64) <= v64 z.
Proof. intros Hz Ht. pose proof (v128_range z t Hz Ht). lia. Qed.

Lemma add128_value a64 a0 b64 b0 :
  0 <= a64 -> 0 <= a0 < 2 ^ 64 -> 0 <= b64 -> 0 <= b0 < 2 ^ 64 ->
  a64 * 2 ^ 64 + a0 + (b64 * 2 ^ 64 + b0) < 2 ^ 128 ->
  let z := softfloat_add128 a64 a0 b64 b0 in
  v128 z = a64 * 2 ^ 64 + a0 + (b64 * 2 ^ 64 + b0) /\ wf128 z.
Proof.
  intros Ha Ha0 Hb Hb0 Hs. unfold softfloat_add128, v128, wf128, u64. cbn [v64 v0].
  change 18446744073709551616 with (2 ^ 64). change (2 ^ 128) with (2 ^ 64 * 2 ^ 64) in Hs.
  destruct (Z_lt_le_dec (a0 + b0) (2 ^ 64)).
  - rewrite (Z.mod_small (a0 + b0)) by lia. rewrite (proj2 (Z.ltb_ge _ _)) by lia. cbn [Z.b2z].
    rewrite Z.mod_small by lia. lia.
  - assert ((a0 + b0) mod 2 ^ 64 = a0 + b0 - 2 ^ 64) as -> by (symmetry; apply Z.mod_unique with 1; lia).
    rewrite (proj2 (Z.ltb_lt _ _)) by lia. cbn [Z.b2z]. rewrite Z.mod_small by lia. lia.
Qed.

Lemma sub128_value a64 a0 b64 b0 :
  0 <= a64 < 2 ^ 64 -> 0 <= a0 < 2 ^ 64 -> 0 <= b64 < 2 ^ 64 -> 0 <= b0 < 2 ^ 64 ->
  let d := a64 * 2 ^ 64 + a0 - (b64 * 2 ^ 64 + b0) in
  let z := softfloat_sub128 a64 a0 b64 b0 in
  v128 z = (if d <? 0 then d + 2 ^ 128 else d) /\ wf128 z.
Proof.
  intros Ha Ha0 Hb Hb0 d. unfold softfloat_sub128, v128, wf128, u64. cbn [v64 v0].
  change 18446744073709551616 with (2 ^ 64). change (2 ^ 128) with (2 ^ 64 * 2 ^ 64).
  assert (exists c, 0 <= c <= 1 /\ Z.b2z (a0 <? b0) = c /\ (a0 - b0) mod 2 ^ 64 = a0 - b0 + c * 2 ^ 64 /\ 0 <= a0 - b0 + c * 2 ^ 64 < 2 ^ 64) as (c & Hc & -> & -> & Hr).
  { destruct (Z.ltb_spec a0 b0); [exists 1|exists 0]; (split; [lia|]); (split; [done|]); (split; [|lia]);
      symmetry; [apply Z.mod_unique with (-1)|apply Z.mod_unique with 0]; lia. }
  assert (d = (a64 - b64 - c) * 2 ^ 64 + (a0 - b0 + c * 2 ^ 64)) as Hd by (unfold d; lia). clearbody d.
  destruct (Z.ltb_spec d 0) as [Hn|Hn].
  - assert (a64 - b64 - c < 0) by lia.
    assert ((a64 - b64 - c) mod 2 ^ 64 = a64 - b64 - c + 2 ^ 64) as -> by (symmetry; apply Z.mod_unique with (-1); lia). lia.
  - assert (0 <= a64 - b64 - c) by lia. rewrite Z.mod_small by lia. lia.
Qed.

Lemma shortShiftLeft128_value z d :
  wf128 z -> 1 <= d <= 63 -> v128 z * 2 ^ d < 2 ^ 128 ->
  let r := softfloat_shortShiftLeft128 (v64 z) (v0 z) d in v128 r = v128 z * 2 ^ d /\ wf128 r.
Proof.
  intros [H1 H0] Hd Hs. unfold softfloat_shortShiftLeft128, v128, wf128, u64 in *. cbn [v64 v0].
  rewrite neg_land_63, !Z.shiftl_mul_pow2, Z.shiftr_div_pow2 by lia.
  change 18446744073709551616 with (2 ^ 64). change (2 ^ 128) with (2 ^ 64 * 2 ^ 64) in Hs.
  pose proof (Z.pow_pos_nonneg 2 d ltac:(lia) ltac:(lia)). pose proof (Z.pow_pos_nonneg 2 (64 - d) ltac:(lia) ltac:(lia)).
  assert (2 ^ 64 = 2 ^ (64 - d) * 2 ^ d) as Hp by (rewrite <-Z.pow_add_r by lia; f_equal; lia).
  assert (v64 z * 2 ^ d < 2 ^ 64) by nia. rewrite (Z.mod_small (v64 z * 2 ^ d)) by nia.
  assert (0 <= v0 z / 2 ^ (64 - d) < 2 ^ d) as Hq by (split; [apply Z.div_pos; lia|apply Z.div_lt_upper_bound; lia]).
  rewrite lor_disjoint by lia.
  assert ((v0 z * 2 ^ d) mod 2 ^ 64 = v0 z * 2 ^ d - v0 z / 2 ^ (64 - d) * 2 ^ 64) as ->.
  { rewrite Hp, Z.mul_mod_distr_r by lia. pose proof (Z.div_mod (v0 z) (2 ^ (64 - d)) ltac:(lia)). nia. }
  pose proof (Z.div_mod (v0 z) (2 ^ (64 - d)) ltac:(lia)) as Hm. pose proof (Z.mod_pos_bound (v0 z) (2 ^ (64 - d)) ltac:(lia)).
  set (q := v0 z / 2 ^ (64 - d)) in *. set (r := v0 z mod 2 ^ (64 - d)) in *.
  assert (v0 z * 2 ^ d - q * 2 ^ 64 = r * 2 ^ d) as Er by (rewrite Hm, Hp; ring). rewrite Er.
  assert (0 <= v64 z * 2 ^ d + q < 2 ^ 64).
  { assert (exists u, 2 ^ 64 = u * 2 ^ d) as [u Hu] by (by exists (2 ^ (64 - d))). rewrite Hu in *. nia. }
  split; [rewrite Hm, Hp; ring|]. split; [lia|]. rewrite Hp. nia.
Qed.

Lemma jam_shift_scale s d k : 0 <= d -> 0 <= k -> jam_shift (s * 2 ^ k) (d + k) = jam_shift s d.
Proof.
  intros Hd Hk. unfold jam_shift. pose proof (Z.pow_pos_nonneg 2 d ltac:(lia) Hd). pose proof (Z.pow_pos_nonneg 2 k ltac:(lia) Hk).
  rewrite Z.pow_add_r, Z.div_mul_cancel_r, Z.mul_mod_distr_r by lia. do 3 f_equal.
  apply Bool.eq_iff_eq_true. rewrite !Z.eqb_eq. nia.
Qed.

(** The third operand fills the high word only. *)
Lemma shiftRightJam128_high a d :
  0 <= a < 2 ^ 62 -> 1 <= d ->
  let z := softfloat_shiftRightJam128 a 0 d in v128 z = jam_shift (a * 2 ^ 64) d /\ wf128 z.
Proof.
  intros Ha Hd. unfold softfloat_shiftRightJam128. destruct (Z.ltb_spec d 64) as [Hlt|Hge].
  - rewrite Z.shiftr_0_l, Z.shiftl_0_l, Z.lor_0_r. change (Z.b2z (negb (u64 0 =? 0))) with 0. rewrite Z.lor_0_r.
    unfold v128, wf128. cbn [v64 v0].
    assert (Z.land (u8 (- d)) 63 = 64 - d) as ->.
    { rewrite <-(neg_land_63 d) by lia. unfold u8. change 63 with (Z.ones 6). rewrite !Z.land_ones by lia.
      change 256 with (2 ^ 6 * 4). rewrite Z.rem_mul_r, Z.mul_comm, Z.mod_add, Z.mod_mod by lia. done. }
    rewrite Z.shiftr_div_pow2, Z.shiftl_mul_pow2 by lia. unfold u64. change 18446744073709551616 with (2 ^ 64).
    pose proof (Z.pow_pos_nonneg 2 d ltac:(lia) ltac:(lia)). pose proof (Z.pow_pos_nonneg 2 (64 - d) ltac:(lia) ltac:(lia)).
    assert (2 ^ 64 = 2 ^ d * 2 ^ (64 - d)) as Hp by (rewrite <-Z.pow_add_r by lia; f_equal; lia).
    split; [|split; [split; [apply Z.div_pos; lia|apply Z.div_lt_upper_bound; nia]|apply Z.mod_pos_bound; lia]].
    replace (a * 2 ^ 64) with (a * 2 ^ (64 - d) * 2 ^ d) by (rewrite Hp; ring). rewrite jam_shift_exact by lia.
    rewrite Hp at 2. rewrite Hp, Z.mul_mod_distr_r by lia. pose proof (Z.div_mod a (2 ^ d) ltac:(lia)). nia.
  - unfold v128, wf128. cbn [v64 v0]. rewrite Z.mul_0_l, Z.add_0_l, !Z.lor_0_r.
    assert (jam_shift (a * 2 ^ 64) d = jam_shift a (d - 64)) as ->
      by (rewrite <-(jam_shift_scale a (d - 64) 64) by lia; f_equal; lia).
    destruct (Z.ltb_spec d 127) as [H127|H127].
    + assert (Z.land d 63 = d - 64) as ->.
      { change 63 with (Z.ones 6). rewrite Z.land_ones by lia. symmetry. apply Z.mod_unique with 1; lia. }
      pose proof (Z.pow_pos_nonneg 2 (d - 64) ltac:(lia) ltac:(lia)).
      assert (2 ^ (d - 64) <= 2 ^ 62) by (apply Z.pow_le_mono_r; lia).
      rewrite Z.shiftr_div_pow2, Z.shiftl_mul_pow2, Z.mul_1_l, u64_id, land_ones_mod by lia.
      split; [done|]. split; [lia|]. pose proof (jam_shift_lt (d - 64) 62 a ltac:(lia) ltac:(lia)) as Hj.
      unfold jam_shift in Hj. assert (2 ^ 62 <= 2 ^ (d - 64 + 62)) by (apply Z.pow_le_mono_r; lia). lia.
    + assert (2 ^ 62 <= 2 ^ (d - 64)) by (apply Z.pow_le_mono_r; lia). rewrite jam_shift_small by lia.
      split; [done|]. split; [lia|]. destruct (a =? 0); cbn; lia.
Qed.

(** A half that is exact. *)
Lemma shortShiftRightJam128_half z h :
  wf128 z -> v0 z = 2 * h ->
  let r := softfloat_shortShiftRightJam128 (v64 z) (v0 z) 1 in v128 z = 2 * v128 r /\ wf128 r.
Proof.
  intros [H1 H0] Hh. unfold softfloat_shortShiftRightJam128, v128, wf128. cbn [v64 v0].
  change (Z.land (u8 (- (1))) 63) with 63. rewrite !Z.shiftr_div_pow2, !Z.shiftl_mul_pow2 by lia.
  change (2 ^ 1) with 2. unfold u64. change 18446744073709551616 with (2 * 2 ^ 63).
  assert (v0 z / 2 = h) as -> by (rewrite Hh, Z.mul_comm; apply Z.div_mul; lia).
  assert ((v0 z * 2 ^ 63) mod (2 * 2 ^ 63) = 0) as -> by (rewrite Hh; replace (2 * h * 2 ^ 63) with (h * (2 * 2 ^ 63)) by ring; apply Z.mod_mul; lia).
  cbn [negb Z.eqb Z.b2z]. rewrite Z.lor_0_r, Z.mul_mod_distr_r by lia.
  pose proof (Z.div_mod (v64 z) 2 ltac:(lia)). pose proof (Z.mod_pos_bound (v64 z) 2 ltac:(lia)).
  rewrite lor_disjoint by lia. lia.
Qed.

(** The high word shifted on its own: the low word is below all that rounding
    looks at. *)
Lemma agrees_high z d :
  wf128 z -> 0 <= d -> agrees 65 (IZR (v128 z) * bpow (- d)) (jam_shift (v64 z) d * 2 ^ 64 + v0 z).
Proof.
  intros [H1 H0] Hd k. unfold v128. pose proof (Z.pow_pos_nonneg 2 d ltac:(lia) Hd).
  rewrite <-(scale_lt d (IZR (k * 2 ^ 65))), <-(scale_lt d _ (IZR (k * 2 ^ 65))).
  rewrite !Rmult_assoc, bpow_opp, Rmult_1_r, <-IZR_bpow by lia.
  assert (forall a b, (IZR a < IZR b)%R <-> a < b) as Hz by (intros; split; [apply lt_IZR|apply IZR_lt]).
  rewrite !Hz. change (2 ^ 65) with (2 * 2 ^ 64). set (a := v64 z) in *. set (b := v0 z) in *.
  pose proof (jam_shift_cases a d Hd) as Hj. set (W := 2 ^ 64) in *. set (p := 2 ^ d) in *.
  destruct Hj as [[Ha ->]|(Hb & [i Hi]%Z.odd_spec & Hq)].
  - set (q := a / p) in *. rewrite Ha. clearbody q W p. set (t := q - 2 * k).
    assert (p * q * W = k * (2 * W) * p + p * t * W) as -> by (unfold t; ring).
    assert (q * W = k * (2 * W) + t * W) as -> by (unfold t; ring).
    destruct (Z.lt_trichotomy t 0) as [Ht|[->|Ht]]; [|lia|].
    + assert (t * W <= - W) by nia. assert (p * t <= -1) by nia. assert (p * t * W <= - W) by nia. lia.
    + assert (W <= t * W) by nia. assert (1 <= p * t) by nia. assert (W <= p * t * W) by nia. lia.
  - set (q := a / p) in *. set (j := jam_shift a d) in *. clearbody j q W p.
    destruct (Z_lt_le_dec q (2 * k)) as [Hk|Hk].
    + assert (q + 1 <= 2 * k) by lia. assert (j < 2 * k) by lia.
      assert (a * W + b < k * (2 * W) * p).
      { assert (a + 1 <= 2 * k * p) by nia. assert ((a + 1) * W <= 2 * k * p * W) by nia. lia. }
      assert (j * W + b < k * (2 * W)) by nia. lia.
    + assert (k * (2 * W) * p < a * W + b).
      { assert (2 * k * p <= a) by nia. assert (2 * k * p < a) by nia. assert (2 * k * p * W < a * W) by nia. lia. }
      assert (k * (2 * W) < j * W + b).
      { assert (2 * k < j) by lia. assert (2 * k * W < j * W) by nia. lia. }
      lia.
Qed.

(** ** Double precision: the sum *)

Lemma mulAddF64_normalize_rounded m s e z y st :
  in_mode m st -> -20000 < e < 20000 -> wf128 z -> 0 < v128 z < 2 ^ 126 ->
  y = IZR (v128 z) \/ (agrees 65 y (v128 z) /\ 2 ^ 124 <= v128 z) ->
  returns (mulAddF64_normalize s e z st) (rounded F64 m s (y * bpow (e - 1148))) st.
Proof.
  intros Hst He Hwf HD Hy. unfold mulAddF64_normalize. pose proof Hwf as [H1 H0].
  destruct (Z.eqb_spec (v64 z) 0) as [Ez|Ez]; cbn [v64 v0].
  - assert (v128 z = v0 z) as Ev by (unfold v128; lia). rewrite Ev in *.
    rewrite countLeadingZeros64_log2 by lia. pose proof (Z.log2_nonneg (v0 z)).
    assert (Z.log2 (v0 z) < 64) by (apply Z.log2_lt_pow2; lia).
    rewrite (s8_small (63 - Z.log2 (v0 z) - 1)) by lia. set (d := 63 - Z.log2 (v0 z) - 1).
    destruct Hy as [->|[_ ?]]; [|lia].
    pose proof (Z.log2_spec (v0 z) ltac:(lia)) as Hl. unfold Z.succ in Hl.
    destruct (Z.ltb_spec d 0) as [Hd|Hd].
    + assert (Z.log2 (v0 z) = 63) as E63 by lia. rewrite E63 in Hl. assert (d = -1) as -> by lia.
      change (- (-1)) with 1. rewrite shortShiftRightJam64_jam by lia. cbn [negb Z.eqb Z.b2z]. rewrite Z.lor_0_r.
      apply (roundPackToF64_rounded m _ _ _ (IZR (v0 z) * bpow (- (1)))); [done|lia| | |].
      * apply (jam_shift_pow 1 63); lia.
      * by apply (agrees_jam 9 1).
      * rewrite Rmult_assoc, <-bpow_add. do 2 f_equal. change (emin F64) with (-1074). lia.
    + unfold softfloat_shortShiftLeft128. cbn [v64 v0].
      rewrite Z.shiftr_0_l, Z.shiftl_0_l, Z.lor_0_r. change (Z.b2z (negb (u64 0 =? 0))) with 0. rewrite Z.lor_0_r.
      assert (2 ^ Z.log2 (v0 z) * 2 ^ d = 2 ^ 62) by (rewrite <-Z.pow_add_r by lia; f_equal; lia).
      assert (2 ^ (Z.log2 (v0 z) + 1) * 2 ^ d = 2 ^ 63) by (rewrite <-Z.pow_add_r by lia; f_equal; lia).
      pose proof (Z.pow_pos_nonneg 2 d ltac:(lia) ltac:(lia)).
      assert (2 ^ 62 <= v0 z * 2 ^ d < 2 ^ 63) by nia.
      rewrite Z.shiftl_mul_pow2, u64_id by lia.
      apply (roundPackToF64_rounded m _ _ _ (IZR (v0 z) * bpow d)); [done|lia|lia| |].
      * rewrite <-IZR_bpow by lia. apply (agrees_mono 0); [lia|]. apply agrees_exact.
      * rewrite Rmult_assoc, <-bpow_add. do 2 f_equal. change (emin F64) with (-1074). lia.
  - rewrite countLeadingZeros64_log2 by lia. set (L := Z.log2 (v64 z)).
    pose proof (Z.log2_spec (v64 z) ltac:(lia)) as Hl. unfold Z.succ in Hl. fold L in Hl.
    pose proof (Z.log2_nonneg (v64 z)) as HL0. fold L in HL0.
    assert (v64 z < 2 ^ 62) as H62 by (apply (v128_range z 126 Hwf); lia).
    assert (L < 62) as HL62 by (apply Z.log2_lt_pow2; lia).
    rewrite (s8_small (63 - L - 1)) by lia. set (d := 63 - L - 1). rewrite (proj2 (Z.ltb_ge d 0)) by lia.
    assert (2 ^ (L + 64) <= v128 z < 2 ^ (L + 64 + 1)) as Hv.
    { replace (L + 64 + 1) with (L + 1 + 64) by lia. rewrite !(Z.pow_add_r 2 _ 64) by lia. unfold v128. lia. }
    assert (2 ^ (L + 64) * 2 ^ d = 2 ^ 126) by (rewrite <-Z.pow_add_r by lia; f_equal; lia).
    assert (2 ^ (L + 64 + 1) * 2 ^ d = 2 ^ 127) by (rewrite <-Z.pow_add_r by lia; f_equal; lia).
    pose proof (Z.pow_pos_nonneg 2 d ltac:(lia) ltac:(lia)).
    assert (2 ^ 126 <= v128 z * 2 ^ d < 2 ^ 127) as Hr by nia.
    destruct (shortShiftLeft128_value z d Hwf ltac:(lia) ltac:(lia)) as [Hs Hws]. cbv zeta in Hs, Hws.
    cbv zeta. rewrite jam_words by done. rewrite Hs.
    apply (roundPackToF64_rounded m _ _ _ (y * bpow d * bpow (- (64)))%R); [done|lia| | |].
    + apply (jam_shift_pow 64 63); lia.
    + destruct Hy as [->|[Ha Hb]].
      * rewrite <-IZR_bpow by lia. apply agrees_jam; lia.
      * assert (60 <= L) by (apply Z.log2_le_pow2; [lia|]; by apply (v128_range_ge z 124 Hwf)).
        apply (agrees_jam_shift (65 + d)); [lia..|]. by apply agrees_shiftl; [lia|lia|].
    + rewrite !Rmult_assoc, <-!bpow_add. do 2 f_equal. change (emin F64) with (-1074). lia.
Qed.

Section Sum64.
Context (m : mode) (st : softfloat_state) (Hst : in_mode m st) (e1 e2 : Z) (z : uint128) (C : Z).
Context (He1 : -5000 < e1 < 5000) (He2 : -5000 < e2 < 5000).
Context (Hwf : wf128 z) (HP : 2 ^ 125 <= v128 z < 2 ^ 126) (HPk : exists j, v128 z = j * 2 ^ 20).
Context (HC : 2 ^ 61 <= C < 2 ^ 62) (HCk : exists j, C = j * 2 ^ 9).

Lemma high_word : 2 ^ 61 <= v64 z < 2 ^ 62.
Proof.
  split; [by apply (v128_range_ge z 125 Hwf); lia|by apply (v128_range z 126 Hwf); lia].
Qed.

Lemma mulAddF64_sum_same s x :
  x = (IZR (v128 z) * bpow (e1 - 1148) + IZR (C * 2 ^ 64) * bpow (e2 - 1148))%R ->
  returns (mulAddF64_sum s e1 z s e2 C st) (rounded F64 m s x) st.
Proof.
  intros ->. destruct HPk as [p Hp], HCk as [c Hc]. pose proof high_word as Hh. pose proof Hwf as [H1 H0].
  unfold mulAddF64_sum. rewrite eqb_reflx. cbn [orb]. change 0x4000000000000000 with (2 ^ 62).
  destruct (Z.leb_spec (e1 - e2) 0) as [Hd|Hd].
  - set (d := - (e1 - e2)) in *.
    assert ((if e1 - e2 <? 0 then e2 else e1) = e2) as -> by (case_match; lia).
    assert ((if e1 - e2 <? 0 then Uint128 (softfloat_shiftRightJam64 (v64 z) d) (v0 z) else z) =
            Uint128 (jam_shift (v64 z) d) (v0 z)) as ->.
    { destruct (Z.ltb_spec (e1 - e2) 0); [by rewrite shiftRightJam64_jam by lia|].
      assert (d = 0) as -> by lia. unfold jam_shift. rewrite Z.div_1_r, Z.mod_1_r, Z.lor_0_r. by destruct z. }
    cbn [v64 v0]. assert (0 <= jam_shift (v64 z) d < 2 ^ 62) as Hj.
    { apply jam_shift_lt; [lia..|]. assert (2 ^ 62 <= 2 ^ (d + 62)) by (apply Z.pow_le_mono_r; lia). lia. }
    rewrite (u64_id (C + _)) by lia.
    pose proof (jam_words (Uint128 (C + jam_shift (v64 z) d) (v0 z))) as Hjw. unfold wf128, v128 in Hjw. cbn [v64 v0] in Hjw.
    rewrite Hjw by lia. clear Hjw.
    pose proof (agrees_high z d Hwf ltac:(lia)) as Hag.
    apply (agrees_add 65 _ _ (c * 2 ^ 8)) in Hag; [|lia].
    replace (c * 2 ^ 8 * 2 ^ 65) with (C * 2 ^ 64) in Hag by lia.
    replace (jam_shift (v64 z) d * 2 ^ 64 + v0 z + C * 2 ^ 64) with ((C + jam_shift (v64 z) d) * 2 ^ 64 + v0 z) in Hag by ring.
    apply (agrees_jam_shift 65 1 _ _ 64) in Hag; [|lia..].
    set (S := (C + jam_shift (v64 z) d) * 2 ^ 64 + v0 z) in *.
    assert (2 ^ 61 <= jam_shift S 64 < 2 ^ 63) as Hsig.
    { pose proof (jam_shift_lt 64 63 S ltac:(lia) ltac:(lia)). pose proof (jam_shift_cases S 64 ltac:(lia)).
      assert (2 ^ 61 <= S / 2 ^ 64) by (apply Z.div_le_lower_bound; lia). lia. }
    pose proof (shortRoundPackF64 m s e2 (jam_shift S 64) _ st Hst ltac:(lia) Hsig Hag) as Hr.
    replace (IZR (v128 z) * bpow (e1 - 1148) + IZR (C * 2 ^ 64) * bpow (e2 - 1148))%R
      with ((IZR (v128 z) * bpow (- d) + IZR (C * 2 ^ 64)) * bpow (- (64)) * bpow (e2 - 10 + emin F64))%R.
    + destruct (_ <? 2 ^ 62) eqn:E; [|done]. apply Z.ltb_lt in E. by rewrite Z.shiftl_mul_pow2, u64_id by lia.
    + rewrite !Rmult_plus_distr_r, !Rmult_assoc, <-!bpow_add by lia.
      change (emin F64) with (-1074). f_equal; do 2 f_equal; unfold d; lia.
  - rewrite (proj2 (Z.ltb_ge (e1 - e2) 0)) by lia. set (d := e1 - e2) in *.
    destruct (shiftRightJam128_high C d ltac:(lia) ltac:(lia)) as [Hv [Hw1 Hw0]]. cbv zeta in *.
    set (zc := softfloat_shiftRightJam128 C 0 d) in *.
    assert (0 <= jam_shift (C * 2 ^ 64) d < 2 ^ 125) as Hj.
    { apply jam_shift_lt; [lia..|]. assert (2 ^ 126 <= 2 ^ (d + 125)) by (apply Z.pow_le_mono_r; lia). lia. }
    unfold v128 in Hv at 1. unfold v128 in HP, Hp.
    destruct (add128_value (v64 z) (v0 z) (v64 zc) (v0 zc)) as [Hs Hws]; [lia..|]. cbv zeta in *.
    rewrite jam_words, Hs, Hv by done. fold (v128 z) in HP, Hp |- *.
    pose proof (agrees_jam 1 d (C * 2 ^ 64) ltac:(lia) ltac:(lia)) as Hag.
    apply (agrees_add 1 _ _ (p * 2 ^ 19)) in Hag; [|lia]. replace (p * 2 ^ 19 * 2 ^ 1) with (v128 z) in Hag by lia.
    rewrite (Z.add_comm _ (v128 z)) in Hag. apply (agrees_jam_shift 1 1 _ _ 64) in Hag; [|lia..].
    set (S := v128 z + jam_shift (C * 2 ^ 64) d) in *.
    assert (2 ^ 61 <= jam_shift S 64 < 2 ^ 63) as Hsig.
    { pose proof (jam_shift_lt 64 63 S ltac:(lia) ltac:(lia)). pose proof (jam_shift_cases S 64 ltac:(lia)).
      assert (2 ^ 61 <= S / 2 ^ 64) by (apply Z.div_le_lower_bound; lia). lia. }
    pose proof (shortRoundPackF64 m s e1 (jam_shift S 64) _ st Hst ltac:(lia) Hsig Hag) as Hr.
    replace (IZR (v128 z) * bpow (e1 - 1148) + IZR (C * 2 ^ 64) * bpow (e2 - 1148))%R
      with ((IZR (C * 2 ^ 64) * bpow (- d) + IZR (v128 z)) * bpow (- (64)) * bpow (e1 - 10 + emin F64))%R.
    + destruct (_ <? 2 ^ 62) eqn:E; [|done]. apply Z.ltb_lt in E. by rewrite Z.shiftl_mul_pow2, u64_id by lia.
    + rewrite !Rmult_plus_distr_r, !Rmult_assoc, <-!bpow_add by lia.
      change (emin F64) with (-1074). rewrite Rplus_comm. f_equal; do 2 f_equal; unfold d; lia.
Qed.

(** The end of each branch of the subtraction. *)
Lemma mulAddF64_diff_end (s s' : bool) e zd y r :
  wf128 zd -> 0 < v128 zd < 2 ^ 126 -> y = IZR (v128 zd) \/ (agrees 65 y (v128 zd) /\ 2 ^ 124 <= v128 zd) ->
  (0 < y)%R -> -20000 < e < 20000 -> r = signed_value s (y * bpow (e - 1148)) ->
  returns (mulAddF64_normalize s e zd st) (rounds_to F64 m s' r) st.
Proof.
  intros Hw HD Hy Hpos He ->. eapply returns_mono; [by apply mulAddF64_normalize_rounded|].
  intros u fl. apply rounds_to_with_sign; [|done]. apply Rmult_lt_0_compat; [done|apply bpow_gt_0].
Qed.

Lemma mulAddF64_sum_diff (s : bool) :
  let r := (signed_value s (IZR (v128 z) * bpow (e1 - 1148)) +
            signed_value (negb s) (IZR (C * 2 ^ 64) * bpow (e2 - 1148)))%R in
  returns (mulAddF64_sum s e1 z (negb s) e2 C st) (rounds_to F64 m (rdn m) r) st.
Proof.
  intros r. destruct HPk as [p Hp], HCk as [c Hc]. pose proof high_word as Hh. pose proof Hwf as [H1 H0].
  unfold mulAddF64_sum. replace (eqb s (negb s)) with false by (by destruct s). cbn [orb]. cbv zeta.
  set (C' := C * 2 ^ 64) in *. assert (2 ^ 125 <= C' < 2 ^ 126) as HC' by (unfold C'; lia).
  destruct (Z.ltb_spec (e1 - e2) 0) as [Hd|Hd]; [|destruct (Z.eqb_spec (e1 - e2) 0) as [E|E]].
  - set (d := - (e1 - e2)) in *.
    assert (r = signed_value (negb s) ((IZR C' - IZR (v128 z) * bpow (- d)) * bpow (e2 - 1148)))%R as Hr.
    { unfold r, signed_value. replace (e1 - 1148) with (- d + (e2 - 1148)) by lia. rewrite bpow_add.
      destruct s; cbn [negb]; ring. }
    destruct (Z.ltb_spec (e1 - e2) (-1)) as [Hd1|Hd1].
    + rewrite shiftRightJam64_jam by lia. cbn [v64 v0].
      assert (0 <= jam_shift (v64 z) d < 2 ^ 60) as Hj.
      { apply jam_shift_lt; [lia..|]. assert (2 ^ 62 <= 2 ^ (d + 60)) by (apply Z.pow_le_mono_r; lia). lia. }
      destruct (sub128_value C 0 (jam_shift (v64 z) d) (v0 z)) as [Hs Hws]; [lia..|]. cbv zeta in *.
      rewrite Z.add_0_r in Hs. fold C' in Hs. rewrite (proj2 (Z.ltb_ge _ 0)) in Hs by lia.
      pose proof (agrees_opp 65 _ _ (agrees_high z d Hwf ltac:(lia))) as Hag.
      apply (agrees_add 65 _ _ (c * 2 ^ 8)) in Hag; [|lia].
      replace (c * 2 ^ 8 * 2 ^ 65) with C' in Hag by (unfold C'; lia).
      eapply (mulAddF64_diff_end _ _ _ _ (- (IZR (v128 z) * bpow (- d)) + IZR C')%R);
        [done|rewrite Hs; lia|right|..].
      * rewrite Hs. split; [|lia]. by rewrite <-Z.add_opp_l.
      * destruct (aligned_difference 125 C' (v128 z) 20 d) as (_ & _ & Hy); [lia|done|done|unfold C'; divlia|by exists p|lia|lia|].
        cbv zeta in Hy. lra.
      * lia.
      * rewrite Hr. f_equal. lra.
    + assert (d = 1) as Ed by lia. assert (v0 z = 2 * (v0 z / 2)) as Hev.
      { pose proof (Z.div_mod (v0 z) 2 ltac:(lia)). assert (v0 z mod 2 = 0); [|lia].
        replace (v0 z) with (0 + (p * 2 ^ 19 - v64 z * 2 ^ 63) * 2) by (unfold v128 in Hp; lia).
        rewrite Z.mod_add by lia. done. }
      destruct (shortShiftRightJam128_half z _ Hwf Hev) as [Hv [Hw1 Hw0]]. cbv zeta in *.
      set (zh := softfloat_shortShiftRightJam128 (v64 z) (v0 z) 1) in *. unfold v128 in Hv at 2.
      destruct (sub128_value C 0 (v64 zh) (v0 zh)) as [Hs Hws]; [lia..|]. cbv zeta in *.
      rewrite Z.add_0_r in Hs. fold C' in Hs. rewrite (proj2 (Z.ltb_ge _ 0)) in Hs by lia.
      assert (IZR (v128 z) * bpow (- d) = IZR (v64 zh * 2 ^ 64 + v0 zh))%R as Hhalf.
      { rewrite Hv, Ed, Z.mul_comm. rewrite (IZR_bpow _ 1), Rmult_assoc, <-bpow_add by lia.
        change (1 + - (1)) with 0. rewrite bpow_0. lra. }
      eapply (mulAddF64_diff_end _ _ _ _ (IZR C' - IZR (v128 z) * bpow (- d))%R); [done|rewrite Hs; lia|left| |lia|done].
      * by rewrite Hs, Hhalf, minus_IZR.
      * rewrite Hhalf, <-minus_IZR. apply IZR_lt. lia.
  - assert (e1 = e2) as <- by lia.
    assert (r = signed_value s (IZR (v128 z - C') * bpow (e1 - 1148)))%R as Hr.
    { unfold r, signed_value. rewrite minus_IZR. destruct s; cbn [negb]; ring. }
    assert (v128 z - C' = (v64 z - C) * 2 ^ 64 + v0 z) as Hdiff by (unfold v128, C'; ring).
    destruct (Z_lt_le_dec (v64 z) C) as [Hlt|Hge].
    + assert (u64 (v64 z - C) = v64 z - C + 2 ^ 64) as ->.
      { unfold u64. symmetry. apply Z.mod_unique with (-1); lia. }
      rewrite (proj2 (Z.eqb_neq (Z.lor _ _) 0)) by (rewrite Z.lor_eq_0_iff; lia).
      change 0x8000000000000000 with (1 * 2 ^ 63). rewrite quiet_bit by lia.
      assert (Z.testbit (v64 z - C + 2 ^ 64) 63 = true) as ->.
      { rewrite Z.testbit_odd, Z.shiftr_div_pow2 by lia.
        replace ((v64 z - C + 2 ^ 64) / 2 ^ 63) with 1; [done|]. apply Z.div_unique with (v64 z - C + 2 ^ 63); lia. }
      cbn [negb]. destruct (sub128_value 0 0 (v64 z - C + 2 ^ 64) (v0 z)) as [Hs Hws]; [lia..|]. cbv zeta in *.
      rewrite (proj2 (Z.ltb_lt _ 0)) in Hs by lia.
      assert (v128 (softfloat_sub128 0 0 (v64 z - C + 2 ^ 64) (v0 z)) = C' - v128 z) as Hs' by lia.
      eapply (mulAddF64_diff_end _ _ _ _ (IZR (C' - v128 z))); [done|lia|left; by rewrite Hs'|apply IZR_lt; lia|lia|].
      rewrite Hr. unfold signed_value. rewrite !minus_IZR. destruct s; cbn [negb]; ring.
    + rewrite (u64_id (v64 z - C)) by lia.
      destruct (Z.eqb_spec (Z.lor (v64 z - C) (v0 z)) 0) as [Ez|Ez].
      * apply Z.lor_eq_0_iff in Ez as [Ez Ez0]. destruct Hst as [-> _]. apply returns_pure.
        assert (v128 z - C' = 0) as E0 by lia.
        left. split_and!; [rewrite Hr, E0; unfold signed_value; destruct s; lra|by destruct m|done].
      * rewrite Z.lor_eq_0_iff in Ez. change 0x8000000000000000 with (1 * 2 ^ 63). rewrite quiet_bit by lia.
        assert (Z.testbit (v64 z - C) 63 = false) as ->.
        { rewrite Z.testbit_odd, Z.shiftr_div_pow2, Z.div_small by lia. done. }
        cbn [negb]. assert (v128 (Uint128 (v64 z - C) (v0 z)) = v128 z - C') as Hs' by (rewrite Hdiff; done).
        eapply (mulAddF64_diff_end _ _ _ _ (IZR (v128 z - C'))); [split; cbn [v64 v0]; lia|lia|left; by rewrite Hs'|apply IZR_lt; lia|lia|done].
  - set (d := e1 - e2) in *.
    destruct (shiftRightJam128_high C d ltac:(lia) ltac:(lia)) as [Hv [Hw1 Hw0]]. cbv zeta in *.
    set (zc := softfloat_shiftRightJam128 C 0 d) in *. fold C' in Hv.
    destruct (aligned_difference 125 (v128 z) C' 73 d) as (HD & Hag & Hy);
      [lia|done|done|rewrite Hp; divlia|exists c; unfold C'; lia|lia|lia|]. cbv zeta in HD, Hag, Hy.
    unfold v128 in Hv at 1.
    destruct (sub128_value (v64 z) (v0 z) (v64 zc) (v0 zc)) as [Hs Hws]; [lia..|]. cbv zeta in *.
    fold (v128 z) in Hs. rewrite Hv in Hs. rewrite (proj2 (Z.ltb_ge _ 0)) in Hs by lia.
    eapply (mulAddF64_diff_end _ _ _ _ (IZR (v128 z) - IZR C' * bpow (- d))%R); [done|lia| |done|lia|].
    + rewrite Hs. destruct Hag as [Hag|[Hag ?]]; [by left|right]. split; [|lia]. apply (agrees_mono 1); [lia|done].
    + unfold r, signed_value. replace (e2 - 1148) with (- d + (e1 - 1148)) by lia. rewrite bpow_add.
      destruct s; cbn [negb]; ring.
Qed.
End Sum64.

(** ** F64 *)

Lemma fma_product64 SA SB e :
  2 ^ 52 <= SA < 2 ^ 53 -> 2 ^ 52 <= SB < 2 ^ 53 ->
  let P0 := SA * 2 ^ 10 * (SB * 2 ^ 10) in
  let e' := if P0 <? 2 ^ 125 then e - 1 else e in
  let P := if P0 <? 2 ^ 125 then P0 * 2 else P0 in
  0 <= P0 < 2 ^ 126 /\ 2 ^ 125 <= P < 2 ^ 126 /\ (exists j, P = j * 2 ^ (10 + 10)) /\ (e - 1 <= e' <= e) /\
  (IZR SA * IZR SB * bpow (e - 1148 + 10 + 10) = IZR P * bpow (e' - 1148))%R.
Proof.
  intros HA HB P0 e' P.
  assert (P0 = SA * SB * 2 ^ (10 + 10)) as HP0 by (unfold P0; rewrite Z.pow_add_r by lia; ring).
  assert (2 ^ 52 * 2 ^ 52 <= SA * SB < 2 ^ 53 * 2 ^ 53) as HS by nia. rewrite <-mult_IZR.
  set (S := SA * SB) in *. clearbody S P0. unfold P, e'. split; [lia|]. destruct (Z.ltb_spec P0 (2 ^ 125)) as [Hlt|Hge].
  - split; [lia|]. split; [exists (S * 2); rewrite HP0; ring|]. split; [lia|].
    rewrite HP0. change 2 with (2 ^ 1) at 2. rewrite !IZR_bpow, !Rmult_assoc, <-!bpow_add by lia. do 2 f_equal. lia.
  - split; [lia|]. split; [by exists S|]. split; [lia|].
    rewrite HP0, !IZR_bpow, !Rmult_assoc, <-!bpow_add by lia. do 2 f_equal. lia.
Qed.

(** The product alone: its top bits moved up, with everything below as a sticky
    bit. *)
Lemma product_sticky z :
  wf128 z ->
  let sig := Z.lor (v64 z * 2) (Z.b2z (negb (v0 z =? 0))) in
  v64 z * 2 <= sig <= v64 z * 2 + 1 /\ agrees 1 (IZR (v128 z) * bpow (- (63))) sig.
Proof.
  intros [H1 H0] sig.
  assert (sig = v64 z * 2 + Z.b2z (negb (v0 z =? 0))) as Hs.
  { unfold sig. apply (lor_disjoint _ _ 1); [lia|]. destruct (v0 z =? 0); cbn; lia. }
  split; [rewrite Hs; destruct (v0 z =? 0); cbn; lia|]. intros k. rewrite Hs.
  rewrite <-(scale_lt 63 (IZR (k * 2 ^ 1))), <-(scale_lt 63 _ (IZR (k * 2 ^ 1))).
  rewrite !Rmult_assoc, bpow_opp, Rmult_1_r, <-IZR_bpow by lia.
  assert (forall a b, (IZR a < IZR b)%R <-> a < b) as Hz by (intros; split; [apply lt_IZR|apply IZR_lt]).
  rewrite !Hz. unfold v128. destruct (Z.eqb_spec (v0 z) 0); cbn [negb Z.b2z]; lia.
Qed.

Lemma f64_mulAdd_finite m a b c st :
  in_mode m st -> is_pattern F64 a -> is_pattern F64 b -> is_pattern F64 c ->
  is_finite F64 a = true -> is_finite F64 b = true -> is_finite F64 c = true ->
  returns (f64_mulAdd a b c st) (ieee_fma F64 m a b c) st.
Proof.
  intros Hst Ha Hb Hc Fa Fb Fc. unfold f64_mulAdd, softfloat_mulAddF64.
  rewrite !signF64UI_sign, !expF64UI_expo, !fracF64UI_frac by done. cbv zeta.
  change (0 =? softfloat_mulAdd_subC) with false. change (0 =? softfloat_mulAdd_subProd) with false.
  rewrite !xorb_false_r.
  pose proof (is_zero_fields F64 a) as Za. pose proof (is_zero_fields F64 b) as Zb. pose proof (is_zero_fields F64 c) as Zc.
  pose proof Fa as Ea. pose proof Fb as Eb. pose proof Fc as Ec. rewrite (is_finite_fields F64), negb_true_iff in Ea, Eb, Ec.
  cbn [ewidth F64] in Ea, Eb, Ec. change (2 ^ 11 - 1) with 2047 in *. rewrite Ea, Eb, Ec, lor_eqb_0, <-Za, <-Zb, <-Zc.
  set (s := xorb (sign_of F64 a) (sign_of F64 b)). rewrite pack_zero_F64, (u64_id c) by apply Hc.
  assert (forall r, (r = (if is_zero F64 c && negb (eqb s (sign_of F64 c)) then zero F64 (rdn m) else c)) ->
    is_zero F64 a || is_zero F64 b = true -> returns (r, st) (ieee_fma F64 m a b c) st) as Hzero.
  { intros r Hr Hz. by apply returns_pure, ieee_fma_zero_prod. }
  assert ((if is_zero F64 c && negb (eqb s (sign_of F64 c))
           then (zero F64 (softfloat_roundingMode st =? softfloat_round_min), st) else (c, st)) =
          ((if is_zero F64 c && negb (eqb s (sign_of F64 c)) then zero F64 (rdn m) else c), st)) as ->.
  { destruct Hst as [-> _]. case_match; [|done]. by destruct m. }
  destruct (is_zero F64 a) eqn:Ka; [by apply Hzero|]. destruct (is_zero F64 b) eqn:Kb; [by apply Hzero|].
  clear Hzero.
  destruct (norm_operandF64 a Fa Ka) as (HSA & HeA & Hva).
  destruct (norm_operandF64 b Fb Kb) as (HSB & HeB & Hvb).
  set (nA := if expo F64 a =? 0 then _ else _) in *. set (nB := if expo F64 b =? 0 then _ else _) in *.
  change 4503599627370496 with (2 ^ 52).
  set (SA := Z.lor (sig64 nA) (2 ^ 52)) in *. set (SB := Z.lor (sig64 nB) (2 ^ 52)) in *.
  rewrite (Z.shiftl_mul_pow2 SA), (Z.shiftl_mul_pow2 SB) by done.
  destruct (fma_product64 SA SB (exp64 nA + exp64 nB - 1022) HSA HSB) as (HP0 & HP & HPk & He & Hab).
  change 0x2000000000000000 with (2 ^ 61). rewrite (u64_id (SA * _)), (u64_id (SB * _)) by lia.
  destruct (mul64To128_product (SA * 2 ^ 10) (SB * 2 ^ 10) ltac:(lia) ltac:(lia)) as (Hp & H0 & H64).
  set (z0 := softfloat_mul64To128 (SA * 2 ^ 10) (SB * 2 ^ 10)) in *.
  set (P0 := SA * 2 ^ 10 * (SB * 2 ^ 10)) in *. change (v128 z0 = P0) in Hp.
  assert (wf128 z0) as Hw0 by done.
  assert ((v64 z0 <? 2 ^ 61) = (P0 <? 2 ^ 125)) as ->.
  { apply Bool.eq_iff_eq_true. rewrite !Z.ltb_lt, <-Hp. symmetry. by apply (v128_range z0 125). }
  set (P := if P0 <? 2 ^ 125 then P0 * 2 else P0) in *.
  set (e1 := if P0 <? 2 ^ 125 then exp64 nA + exp64 nB - 1022 - 1 else exp64 nA + exp64 nB - 1022) in *.
  set (z := if P0 <? 2 ^ 125 then softfloat_add128 (v64 z0) (v0 z0) (v64 z0) (v0 z0) else z0).
  assert ((if P0 <? 2 ^ 125
           then (exp64 nA + exp64 nB - 1022 - 1, softfloat_add128 (v64 z0) (v0 z0) (v64 z0) (v0 z0))
           else (exp64 nA + exp64 nB - 1022, z0)) = (e1, z)) as -> by (unfold e1, z; by case_match).
  assert (v128 z = P /\ wf128 z) as [Hz Hwf].
  { unfold z, P. destruct (Z.ltb_spec P0 (2 ^ 125)); [|done]. pose proof Hw0 as [Hw1 Hw2].
    destruct (add128_value (v64 z0) (v0 z0) (v64 z0) (v0 z0)) as [Hs Hws]; [lia|lia|lia|lia|unfold v128 in Hp; lia|].
    split; [|done]. rewrite Hs. unfold v128 in Hp. lia. }
  assert (absval F64 a * absval F64 b = IZR P * bpow (e1 - 1148))%R as Hprod.
  { rewrite Hva, Hvb, <-Hab. replace (exp64 nA + exp64 nB - 1022 - 1148 + 10 + 10)
      with ((exp64 nA - 1 + emin F64) + (exp64 nB - 1 + emin F64)) by (change (emin F64) with (-1074); lia).
    rewrite (bpow_add (exp64 nA - 1 + emin F64)). ring. }
  clearbody e1 P P0 z z0 SA SB. clear HP0 Hab Hp H0 H64 Hw0. rewrite <-Hz in *. clear Hz.
  assert (0 < IZR (v128 z) * bpow (e1 - 1148))%R as Hpos by (apply Rmult_lt_0_compat; [apply IZR_lt; lia|apply bpow_gt_0]).
  destruct (is_zero F64 c) eqn:Kc.
  - assert (2 ^ 61 <= v64 z < 2 ^ 62) as Hh.
    { split; [by apply (v128_range_ge z 125 Hwf); lia|by apply (v128_range z 126 Hwf); lia]. }
    rewrite Z.shiftl_mul_pow2, u64_id by lia. change (2 ^ 1) with 2. pose proof (product_sticky z Hwf) as [Hst1 Hst2].
    eapply returns_mono.
    + apply (roundPackToF64_rounded m s _ _ (IZR (v128 z) * bpow (- (63))) (IZR (v128 z) * bpow (e1 - 1148))); [done|lia| | |].
      * lia.
      * apply (agrees_mono 1); [lia|done].
      * rewrite Rmult_assoc, <-bpow_add. do 2 f_equal. change (emin F64) with (-1074). lia.
    + intros u fl Hr. apply ieee_fma_finite; try done. fold s. rewrite Hprod.
      apply (rounds_to_with_sign _ _ _ s (IZR (v128 z) * bpow (e1 - 1148))); [done| |done].
      unfold value. rewrite (absval_zero F64 c Kc). case_match; lra.
  - destruct (norm_operandF64 c Fc Kc) as (HSC & HeC & Hvc).
    set (nC := if expo F64 c =? 0 then _ else _) in *. set (SC := Z.lor (sig64 nC) (2 ^ 52)) in *.
    rewrite Z.shiftl_mul_pow2, u64_id by lia.
    assert (absval F64 c = IZR (SC * 2 ^ 9 * 2 ^ 64) * bpow (exp64 nC - 1148))%R as Hcv.
    { rewrite Hvc, !IZR_bpow, !Rmult_assoc, <-!bpow_add by lia. do 2 f_equal. change (emin F64) with (-1074). lia. }
    assert (exists j, SC * 2 ^ 9 = j * 2 ^ 9) as HCk by (by exists SC).
    assert (value F64 c = signed_value (sign_of F64 c) (IZR (SC * 2 ^ 9 * 2 ^ 64) * bpow (exp64 nC - 1148))) as Hvv
      by (rewrite <-Hcv; done).
    destruct (Bool.bool_dec s (sign_of F64 c)) as [Es|Es].
    + rewrite <-Es in *. eapply returns_mono.
      * apply (mulAddF64_sum_same m st Hst e1 (exp64 nC) z (SC * 2 ^ 9)); [lia|lia|done|done|done|lia|done|reflexivity].
      * intros u fl Hr. apply ieee_fma_finite; try done. fold s. rewrite <-Es, eqb_reflx, Hprod.
        refine (rounds_to_with_sign _ _ _ s _ _ _ _ _ _ Hr); [|rewrite Hvv; unfold signed_value; destruct s; ring].
        apply Rplus_lt_0_compat; [done|]. rewrite <-Hcv. by apply absval_pos; [apply _|].
    + assert (sign_of F64 c = negb s) as En by (by destruct s, (sign_of F64 c)). rewrite En in *.
      eapply returns_mono.
      * apply (mulAddF64_sum_diff m st Hst e1 (exp64 nC) z (SC * 2 ^ 9)); [lia|lia|done|done|done|lia|done].
      * intros u fl Hr. apply ieee_fma_finite; try done. fold s.
        rewrite En, Hprod, Hvv. replace (eqb s (negb s)) with false by (by destruct s). done.
Qed.

Lemma propagateNaNF64UI_flags a b st :
  softfloat_propagateNaNF64UI a b st =
  (defaultNaNF64UI, softfloat_raiseFlags (flag_if (is_snan F64 a || is_snan F64 b) flag_invalid) st).
Proof. unfold softfloat_propagateNaNF64UI. by rewrite raise_if, !isSigNaNF64UI_snan. Qed.

(** [f64_mulAdd] is the fused multiply-add of IEEE 754: the exact value of
    [a * b + c] is rounded once, in every rounding mode and for all operands. *)
Theorem f64_mulAdd_returns m a b c st :
  in_mode m st -> is_pattern F64 a -> is_pattern F64 b -> is_pattern F64 c ->
  returns (f64_mulAdd a b c st) (ieee_fma F64 m a b c) st.
Proof.
  intros Hst Ha Hb Hc.
  destruct (is_finite F64 a && is_finite F64 b && is_finite F64 c) eqn:Hf.
  { apply andb_true_iff in Hf as [[? ?]%andb_true_iff ?]. by apply f64_mulAdd_finite. }
  rewrite !(is_finite_fields F64) in Hf. cbn [ewidth F64] in Hf. change (2 ^ 11 - 1) with 2047 in *.
  unfold f64_mulAdd, softfloat_mulAddF64.
  rewrite !signF64UI_sign, !expF64UI_expo, !fracF64UI_frac by done. cbv zeta.
  change (0 =? softfloat_mulAdd_subC) with false. change (0 =? softfloat_mulAdd_subProd) with false.
  rewrite !xorb_false_r, pack_inf_F64, !lor_eqb_0, !propagateNaNF64UI_flags, (u64_id c) by apply Hc.
  unfold ieee_fma. set (s := xorb (sign_of F64 a) (sign_of F64 b)).
  pose proof (snan_nan F64 a) as Sa. pose proof (snan_nan F64 b) as Sb. pose proof (snan_nan F64 c) as Sc.
  rewrite !(is_nan_fields F64) in *. rewrite !(is_inf_fields F64), !(is_zero_fields F64).
  cbn [ewidth F64] in *. change (2 ^ 11 - 1) with 2047 in *.
  replace (is_snan F64 defaultNaNF64UI) with false by (by vm_compute).
  replace (is_snan F64 0) with false by (by vm_compute).
  assert (forall s, is_snan F64 (packToF64UI s 2047 0) = false) as Hi by (intros []; by vm_compute).
  rewrite !Hi. rewrite !raise_raise.
  assert ((expo F64 a =? 2047) = true -> (expo F64 a =? 0) = false) as HA0 by (rewrite Z.eqb_eq; by intros ->).
  assert ((expo F64 b =? 2047) = true -> (expo F64 b =? 0) = false) as HB0 by (rewrite Z.eqb_eq; by intros ->).
  destruct (expo F64 a =? 2047), (frac F64 a =? 0), (expo F64 b =? 2047), (frac F64 b =? 0),
    (expo F64 c =? 2047), (frac F64 c =? 0); try discriminate Hf; rewrite ?HA0, ?HB0 by done;
    rewrite ?Sa, ?Sb, ?Sc by done; cbn [andb orb negb];
    try (apply returns_raise; split; [done|]; cbn [orb]; by rewrite ?flag_if_or, ?orb_false_r);
    try (by apply returns_pure).
  all: try (destruct (expo F64 a =? 0)); try (destruct (expo F64 b =? 0)); cbn [andb orb negb];
    try (apply returns_raise; split; [done|]; by rewrite ?flag_if_or, ?orb_false_r);
    try (by apply returns_pure).
  all: try (apply returns_raise; split; [done|]; by destruct (is_snan F64 c)).
  all: destruct (eqb s (sign_of F64 c)); cbn [negb]; [by apply returns_pure|by apply returns_raise].
Qed.

(** The operation [softfloat_mulAdd_subC] should subtract the third operand, but
    a zero product returns the operand with its sign: [0 * 0 - 1] is [1].  No
    caller passes this operation. *)
Lemma mulAddF32_subC_zero_product :
  softfloat_mulAddF32 0 0 0x3F800000 softfloat_mulAdd_subC init_state = (0x3F800000, init_state).
Proof. reflexivity. Qed.
