(* ===== verification/SoftDiv.v ===== *)
(** * SoftFloat: double precision division

    f64_div.c.  The quotient is found 32 bits at a time from an approximation of
    the divisor's reciprocal, one hardware division; a remainder is formed only
    when the approximate quotient lies too near a rounding boundary.  The lemmas
    bound the error of the two steps; the theorem says that the result is the
    correctly rounded quotient all the same. *)

From Stdlib Require Import ZArith Lia Reals Lra.
From stdpp Require Import base tactics list numbers.
From S2P Require Import Prelude Ieee SoftFloat SoftRound SoftMul SoftConv.

(** primitives.h: one division of a 64-bit number by a 32-bit one. *)
Definition softfloat_approxRecip32_1 (a : Z) : Z := u32 (0x7FFFFFFFFFFFFFFF / u32 a).

(** The significands, normalised and with the quotient below one. *)
Definition f64_div_sig (sigA sigB : Z) : Z :=
  let recip32 := u32 (softfloat_approxRecip32_1 (Z.shiftr sigB 32) - 2) in
  let sig32Z := u32 (Z.shiftr (u64 (u32 (Z.shiftr sigA 32) * recip32)) 32) in
  let doubleTerm := u32 (Z.shiftl sig32Z 1) in
  let rem := u64 (u64 (Z.shiftl (u64 (sigA - u64 (doubleTerm * u32 (Z.shiftr sigB 32)))) 28)
                  - u64 (doubleTerm * Z.shiftr (u32 sigB) 4)) in
  let q := u32 (Z.shiftr (u64 (u32 (Z.shiftr rem 32) * recip32)) 32 + 4) in
  let sigZ := u64 (u64 (Z.shiftl sig32Z 32) + u64 (Z.shiftl q 4)) in
  if Z.land sigZ 0x1FF <? Z.shiftl 4 4 then
    let q := Z.land q (Z.lnot 7) in
    let sigZ := Z.land sigZ (Z.lnot 0x7F) in
    let doubleTerm := u32 (Z.shiftl q 1) in
    let rem := u64 (u64 (Z.shiftl (u64 (rem - u64 (doubleTerm * u32 (Z.shiftr sigB 32)))) 28)
                    - u64 (doubleTerm * Z.shiftr (u32 sigB) 4)) in
    if negb (Z.land rem 0x8000000000000000 =? 0) then u64 (sigZ - Z.shiftl 1 7)
    else if negb (rem =? 0) then Z.lor sigZ 1 else sigZ
  else sigZ.

Definition f64_div (a b : Z) (st : softfloat_state) : Z * softfloat_state :=
  let signA := signF64UI a in
  let expA := expF64UI a in
  let sigA := fracF64UI a in
  let signB := signF64UI b in
  let expB := expF64UI b in
  let sigB := fracF64UI b in
  let signZ := xorb signA signB in
  let propagateNaN :=
    let '(uiZ, st) := softfloat_propagateNaNF64UI a b st in (u64 uiZ, st) in
  let invalid := (u64 defaultNaNF64UI, softfloat_raiseFlags softfloat_flag_invalid st) in
  let infinity := fun st => (u64 (packToF64UI signZ 0x7FF 0), st) in
  let zero := (u64 (packToF64UI signZ 0 0), st) in
  if expA =? 0x7FF then
    if negb (sigA =? 0) then propagateNaN
    else if expB =? 0x7FF then
      if negb (sigB =? 0) then propagateNaN else invalid
    else infinity st
  else if expB =? 0x7FF then
    if negb (sigB =? 0) then propagateNaN else zero
  else if (expB =? 0) && (sigB =? 0) then
    if Z.lor expA sigA =? 0 then invalid
    else infinity (softfloat_raiseFlags softfloat_flag_infinite st)
  else
    let normB := if expB =? 0 then softfloat_normSubnormalF64Sig sigB else ExpSig64 expB sigB in
    if (expA =? 0) && (sigA =? 0) then zero
    else
      let normA := if expA =? 0 then softfloat_normSubnormalF64Sig sigA else ExpSig64 expA sigA in
      let expZ := exp64 normA - exp64 normB + 0x3FE in
      let sigA := Z.lor (sig64 normA) 0x0010000000000000 in
      let sigB := Z.lor (sig64 normB) 0x0010000000000000 in
      let '(expZ, sigA) :=
        if sigA <? sigB then (expZ - 1, u64 (Z.shiftl sigA 11)) else (expZ, u64 (Z.shiftl sigA 10)) in
      let sigB := u64 (Z.shiftl sigB 11) in
      softfloat_roundPackToF64 signZ expZ (f64_div_sig sigA sigB) st.

(** ** The reciprocal *)

Section Recip.
Context (B1 B0 r : Z).
Let W := 2 ^ 32.
Let B := B1 * W + B0.
Context (HB1 : 2 ^ 31 <= B1 < W) (HB0 : 0 <= B0 < W) (Hr : r = (2 ^ 63 - 1) / B1 - 2).

Lemma recip_bounds : 2 ^ 31 - 2 <= r < W - 2 /\ r * B < 2 ^ 95 /\ 2 ^ 95 <= (r + 3) * B.
Proof.
  pose proof (Z.div_mod (2 ^ 63 - 1) B1 ltac:(lia)) as Hd.
  pose proof (Z.mod_pos_bound (2 ^ 63 - 1) B1 ltac:(lia)) as Hm.
  set (m := (2 ^ 63 - 1) mod B1) in *. set (q := (2 ^ 63 - 1) / B1) in *. clearbody m q.
  assert (2 ^ 31 <= q) by (unfold W in *; nia). assert (q < W) by (unfold W in *; nia).
  split; [unfold W in *; lia|]. subst r. unfold B.
  assert (q * B1 <= 2 ^ 63 - 1) by nia. assert (2 ^ 63 <= (q + 1) * B1) by nia.
  change (2 ^ 95) with (2 ^ 63 * W). split.
  - replace ((q - 2) * (B1 * W + B0)) with (q * B1 * W - 2 * B1 * W + (q - 2) * B0) by ring.
    assert ((q - 2) * B0 <= W * W) by nia. assert (W * W <= 2 * B1 * W) by (unfold W in *; nia).
    assert (q * B1 * W <= (2 ^ 63 - 1) * W) by nia. unfold W in *. lia.
  - replace ((q - 2 + 3) * (B1 * W + B0)) with ((q + 1) * B1 * W + (q + 1) * B0) by ring. nia.
Qed.

(** A number divided by [B], 32 bits of the quotient: never too large, and short
    by less than five. *)
Lemma recip_quotient X :
  0 < X < W * W ->
  let s := (X / W * r) / W in 0 <= s /\ s * B < X * 2 ^ 31 /\ X * 2 ^ 31 < (s + 5) * B.
Proof.
  intros HX s. destruct recip_bounds as (Hr0 & Hlo & Hhi).
  assert (0 <= r) by lia. assert (0 < W) by (unfold W; lia).
  pose proof (Z.div_mod X W ltac:(lia)) as Hd. pose proof (Z.mod_pos_bound X W ltac:(lia)) as Hm.
  set (f := X / W) in *. set (g := X mod W) in *. assert (0 <= f) by (apply Z.div_pos; lia).
  pose proof (Z.div_mod (f * r) W ltac:(lia)) as Hd'. pose proof (Z.mod_pos_bound (f * r) W ltac:(lia)) as Hm'.
  assert (0 <= s) as Hs by (apply Z.div_pos; nia). fold s in Hd'. set (h := (f * r) mod W) in *. clearbody f g h s.
  split; [done|]. assert (W * W = 2 ^ 64) as HW by done. split.
  - apply (Z.mul_lt_mono_pos_l (W * W)); [lia|].
    apply Z.le_lt_trans with (X * (r * B)).
    + assert (W * W * s <= X * r) as Hle by nia.
      assert (0 <= B) by (unfold B; nia).
      replace (W * W * (s * B)) with (W * W * s * B) by ring. rewrite Z.mul_assoc. by apply Z.mul_le_mono_nonneg_r.
    + replace (W * W * (X * 2 ^ 31)) with (X * 2 ^ 95) by (rewrite HW; ring). apply Z.mul_lt_mono_pos_l; [lia|done].
  - apply (Z.mul_lt_mono_pos_l (W * W)); [lia|].
    apply Z.le_lt_trans with (X * ((r + 3) * B)).
    + replace (W * W * (X * 2 ^ 31)) with (X * 2 ^ 95) by (rewrite HW; ring). apply Z.mul_le_mono_nonneg_l; lia.
    + assert (X * (r + 3) < W * W * (s + 5)).
      { assert (X * r < W * W * (s + 2)); [|lia].
        assert (f * r <= W * (s + 1) - 1) by lia. assert (X * r = W * (f * r) + g * r) by (rewrite Hd; ring).
        assert (g * r <= (W - 1) * W) by nia. nia. }
      assert (0 < B) by (unfold B; nia).
      replace (X * ((r + 3) * B)) with (X * (r + 3) * B) by ring.
      replace (W * W * ((s + 5) * B)) with (W * W * (s + 5) * B) by ring. by apply Z.mul_lt_mono_pos_r.
Qed.
End Recip.

(** ** The quotient *)

(** The remainder step of the code: exact modulo 2^64. *)
Lemma rem_step X q B1 B0 b :
  0 <= q < 2 ^ 31 -> 0 <= B1 < 2 ^ 32 -> 0 <= B0 < 2 ^ 32 -> B1 * 2 ^ 32 + B0 = 16 * b ->
  u64 (u64 (Z.shiftl (u64 (X - u64 (u32 (Z.shiftl q 1) * B1))) 28)
       - u64 (u32 (Z.shiftl q 1) * Z.shiftr B0 4)) = (2 ^ 28 * X - 2 * q * b) mod 2 ^ 64.
Proof.
  intros Hq HB1 HB0 Hb. rewrite !Z.shiftl_mul_pow2, Z.shiftr_div_pow2 by lia.
  change (2 ^ 1) with 2. rewrite (u32_id (q * 2)) by lia. unfold u64.
  change 18446744073709551616 with (2 ^ 64).
  assert (B0 / 2 ^ 4 = b - B1 * 2 ^ 28) as ->.
  { symmetry. apply Z.div_unique with 0; lia. }
  rewrite (Zminus_mod_idemp_r X), Zmult_mod_idemp_l, <-Zminus_mod. f_equal. ring.
Qed.

(** A multiple of 16 close enough to the quotient, away from the boundaries. *)
Lemma agrees_away sig N B :
  0 < B -> (sig - 64) * B < N -> N < (sig + 16) * B -> 64 <= sig mod 512 -> sig mod 16 = 0 ->
  agrees 9 (IZR N / IZR B) sig.
Proof.
  intros HB Hlo Hhi Hm H16 k. destruct (quotient_cmp N B (k * 2 ^ 9) HB) as [-> ->].
  change (2 ^ 9) with 512. pose proof (Z.div_mod sig 512 ltac:(lia)) as Hd.
  set (j := sig / 512) in *. assert (sig mod 512 <= 496).
  { pose proof (Z.mod_pos_bound sig 512 ltac:(lia)). set (x := sig mod 512) in *.
    assert (x mod 16 = 0); [|divlia]. unfold x. change 512 with (16 * 32). rewrite Z.rem_mul_r by lia.
    rewrite H16, Z.add_0_l, Z.mul_comm. apply Z.mod_mul. lia. }
  destruct (Z_le_gt_dec k j).
  - assert (k * 512 * B <= (sig - 64) * B) by nia. lia.
  - assert ((sig + 16) * B <= k * 512 * B) by nia. lia.
Qed.

(** Beside a boundary, the sign of the exact remainder decides. *)
Lemma agrees_near j N B rho :
  0 < B -> N - j * 512 * B = 128 * rho -> - 64 * B < 128 * rho < 64 * B ->
  agrees 9 (IZR N / IZR B)
    (if rho <? 0 then j * 512 - 128 else if rho =? 0 then j * 512 else j * 512 + 1).
Proof.
  intros HB Hrho Hb k. destruct (quotient_cmp N B (k * 2 ^ 9) HB) as [-> ->].
  change (2 ^ 9) with 512. assert (k * 512 * B = j * 512 * B + (k - j) * 512 * B) as -> by ring.
  set (t := k - j). replace k with (j + t) by lia.
  destruct (Z.lt_trichotomy t 0) as [Ht|[->|Ht]].
  - assert (t * 512 * B <= - 512 * B) by nia. destruct (Z.ltb_spec rho 0); [lia|]. destruct (Z.eqb_spec rho 0); lia.
  - destruct (Z.ltb_spec rho 0); [lia|]. destruct (Z.eqb_spec rho 0); lia.
  - assert (512 * B <= t * 512 * B) by nia. destruct (Z.ltb_spec rho 0); [lia|]. destruct (Z.eqb_spec rho 0); lia.
Qed.

Lemma land_clear a n : 0 <= n -> Z.land a (Z.lnot (2 ^ n - 1)) = a - a mod 2 ^ n.
Proof.
  intros Hn. replace (2 ^ n - 1) with (Z.ones n) by (rewrite Z.ones_equiv; lia).
  rewrite <-Z.ldiff_land, Z.ldiff_ones_r, Z.shiftr_div_pow2, Z.shiftl_mul_pow2 by done.
  pose proof (Z.pow_pos_nonneg 2 n). pose proof (Z.div_mod a (2 ^ n)). lia.
Qed.

(** The exact remainder read back from 64 bits. *)
Lemma signed_rem rho :
  - 2 ^ 63 < rho < 2 ^ 63 ->
  negb (Z.land (rho mod 2 ^ 64) 0x8000000000000000 =? 0) = (rho <? 0) /\
  (0 <= rho -> rho mod 2 ^ 64 = rho).
Proof.
  intros Hr. split; [|intros; apply Z.mod_small; lia].
  change 0x8000000000000000 with (1 * 2 ^ 63). rewrite quiet_bit, negb_involutive by lia.
  rewrite Z.mod_pow2_bits_low by lia. destruct (Z.ltb_spec rho 0).
  - rewrite Z.testbit_odd, Z.shiftr_div_pow2 by lia.
    replace (rho / 2 ^ 63) with (-1); [done|]. apply Z.div_unique with (rho + 2 ^ 63); lia.
  - apply Z.bits_above_log2; [lia|]. destruct (decide (rho = 0)) as [->|]; [done|]. apply Z.log2_lt_pow2; lia.
Qed.

Section Quotient.
Context (A B : Z).
Context (HA : 2 ^ 62 <= A) (HAB : A < B) (HB : 2 ^ 63 <= B < 2 ^ 64) (HB16 : B = 16 * (B / 16)).
Context (Hhalf : B <= 2 * A) (Htop : A * 2 ^ 53 <= B * (2 ^ 53 - 1)).
Let W := 2 ^ 32.

(** The two digits and what is left. *)
Lemma f64_div_digits :
  exists s q rem,
    0 <= s < 2 ^ 31 /\ 4 <= q < 2 ^ 31 /\
    (s * W + q * 16 - 64) * B < A * 2 ^ 63 < (s * W + q * 16 + 16) * B /\
    A * 2 ^ 63 = s * W * B + 2 ^ 35 * rem /\
    f64_div_sig A B =
      (let sigZ := s * W + q * 16 in
       if sigZ mod 512 <? 64 then
         let rem := (2 ^ 28 * rem - 2 * (q - q mod 8) * (B / 16)) mod 2 ^ 64 in
         let sigZ := sigZ - sigZ mod 128 in
         if negb (Z.land rem 0x8000000000000000 =? 0) then u64 (sigZ - 128)
         else if negb (rem =? 0) then Z.lor sigZ 1 else sigZ
       else sigZ).
Proof.
  set (B1 := B / W). set (B0 := B mod W). set (r := (2 ^ 63 - 1) / B1 - 2). set (b := B / 16) in *.
  assert (2 ^ 31 <= B1 < W) as HB1.
  { unfold B1, W. split; [apply Z.div_le_lower_bound; lia|apply Z.div_lt_upper_bound; lia]. }
  assert (0 <= B0 < W) as HB0 by (apply Z.mod_pos_bound; done).
  assert (B = B1 * W + B0) as HBe by (pose proof (Z.div_mod B W ltac:(done)); unfold B1, B0; lia).
  destruct (recip_bounds B1 B0 r HB1 HB0 eq_refl) as (Hr & _ & _).
  destruct (recip_quotient B1 B0 r HB1 HB0 eq_refl A) as (Hs0 & Hslo & Hshi); [unfold W in *; lia|].
  fold W in Hr, Hs0, Hslo, Hshi. set (s := A / W * r / W) in *. rewrite <-HBe in Hslo, Hshi.
  assert (s < 2 ^ 31) as Hs31 by nia.
  set (rem := 2 ^ 28 * A - 2 * s * b).
  assert (8 * rem = A * 2 ^ 31 - s * B) as Hrem by (unfold rem; lia).
  assert (0 < rem < 2 ^ 64) as Hremr by lia.
  destruct (recip_quotient B1 B0 r HB1 HB0 eq_refl rem) as (Hq0 & Hqlo & Hqhi); [unfold W in *; lia|].
  fold W in Hq0, Hqlo, Hqhi. set (q0 := rem / W * r / W) in *. rewrite <-HBe in Hqlo, Hqhi.
  assert (q0 < 5 * 2 ^ 28) as Hq31 by nia.
  exists s, (q0 + 4), rem. split; [lia|]. split; [lia|]. split; [unfold W; lia|]. split; [unfold W; lia|].
  unfold f64_div_sig, softfloat_approxRecip32_1. cbv zeta. rewrite !(Z.shiftr_div_pow2 _ 32) by lia.
  fold W. fold B1.
  assert (A / W < W) as HA1 by (apply Z.div_lt_upper_bound; unfold W; lia).
  assert (0 <= A / W) by (apply Z.div_pos; unfold W; lia).
  assert (u32 B = B0) as -> by done.
  rewrite (u32_id B1), (u32_id (A / W)) by (unfold W in *; lia).
  change 0x7FFFFFFFFFFFFFFF with (2 ^ 63 - 1).
  assert (u32 ((2 ^ 63 - 1) / B1) = r + 2) as -> by (rewrite u32_id; unfold r, W in *; lia).
  replace (r + 2 - 2) with r by lia. rewrite (u32_id r) by (unfold W in *; lia).
  assert (0 <= A / W * r < W * W) by nia.
  rewrite (u64_id (A / W * r)) by (unfold W in *; lia). fold s. rewrite (u32_id s) by (unfold W in *; lia).
  rewrite (rem_step A s B1 B0 b) by (unfold W in *; lia). fold rem. rewrite (Z.mod_small rem) by lia.
  assert (rem / W < W) by (apply Z.div_lt_upper_bound; unfold W; lia).
  assert (0 <= rem / W) by (apply Z.div_pos; unfold W; lia).
  rewrite (u32_id (rem / W)) by (unfold W in *; lia). assert (0 <= rem / W * r < W * W) by nia.
  rewrite (u64_id (rem / W * r)) by (unfold W in *; lia). fold q0. rewrite (u32_id (q0 + 4)) by (unfold W in *; lia).
  rewrite (Z.shiftl_mul_pow2 s), (Z.shiftl_mul_pow2 (q0 + 4) 4) by lia. fold W. change (2 ^ 4) with 16.
  rewrite (u64_id (s * W)), (u64_id ((q0 + 4) * 16)), (u64_id (_ + _)) by (unfold W in *; lia).
  change 0x1FF with (2 ^ 9 - 1). rewrite land_ones_mod by lia. change (2 ^ 9) with 512. change (Z.shiftl 4 4) with 64.
  change (Z.lnot 7) with (Z.lnot (2 ^ 3 - 1)). change (Z.lnot 0x7F) with (Z.lnot (2 ^ 7 - 1)).
  rewrite !land_clear by lia. change (2 ^ 3) with 8. change (2 ^ 7) with 128. change (Z.shiftl 1 7) with 128.
  pose proof (Z.mod_pos_bound (q0 + 4) 8 ltac:(lia)).
  rewrite (rem_step rem (q0 + 4 - (q0 + 4) mod 8) B1 B0 b) by (unfold W in *; lia || divlia). done.
Qed.

Lemma f64_div_sig_agrees :
  let sig := f64_div_sig A B in
  2 ^ 62 <= sig < 2 ^ 63 /\ agrees 9 (IZR (A * 2 ^ 63) / IZR B) sig.
Proof.
  intros sig. destruct f64_div_digits as (s & q & rem & Hs & Hq & [Hlo Hhi] & HN & Hsig).
  unfold sig. rewrite Hsig. clear sig Hsig. cbv zeta. set (sigZ := s * W + q * 16) in *.
  assert (sigZ mod 16 = 0) as H16.
  { unfold sigZ. replace (s * W + q * 16) with ((s * 2 ^ 28 + q) * 16) by (unfold W; ring). apply Z.mod_mul. lia. }
  assert (2 ^ 62 <= sigZ < 2 ^ 63 - 512) as Hr.
  { assert (sigZ = 16 * (sigZ / 16)) by (pose proof (Z.div_mod sigZ 16); lia).
    assert (2 ^ 62 - 16 < sigZ) by nia. assert ((sigZ - 64) * B < (2 ^ 63 - 2 ^ 10) * B) by lia.
    assert (sigZ - 64 < 2 ^ 63 - 2 ^ 10) by nia. split; [|lia].
    set (x := sigZ / 16) in *. lia. }
  destruct (Z.ltb_spec (sigZ mod 512) 64) as [Hm|Hm]; [|split; [lia|apply agrees_away; lia]].
  pose proof (Z.mod_pos_bound sigZ 512 ltac:(lia)).
  assert (sigZ mod 128 = sigZ mod 512) as Hmm.
  { pose proof (Z.div_mod sigZ 512 ltac:(lia)). symmetry. apply Z.mod_unique with (4 * (sigZ / 512)); lia. }
  assert (q mod 8 * 16 = sigZ mod 512) as Hqm.
  { rewrite <-Hmm. pose proof (Z.div_mod q 8 ltac:(lia)). pose proof (Z.mod_pos_bound q 8 ltac:(lia)).
    apply Z.mod_unique with (s * 2 ^ 25 + q / 8); unfold sigZ, W; lia. }
  set (j := sigZ / 512). assert (sigZ - sigZ mod 128 = j * 512) as Hj
    by (pose proof (Z.div_mod sigZ 512 ltac:(lia)); unfold j; lia).
  set (rho := 2 ^ 28 * rem - 2 * (q - q mod 8) * (B / 16)) in *.
  assert (A * 2 ^ 63 - j * 512 * B = 128 * rho) as Hrho.
  { rewrite HN, <-Hj, Hmm, <-Hqm. unfold rho, sigZ. rewrite HB16 at 1 2. unfold W. ring. }
  assert (- 64 * B < 128 * rho < 64 * B) as Hrb by nia.
  destruct (signed_rem rho) as [-> Hpos]; [lia|]. rewrite Hj.
  pose proof (agrees_near j (A * 2 ^ 63) B rho ltac:(lia) Hrho Hrb) as Hag.
  destruct (Z.ltb_spec rho 0) as [Hn|Hn].
  - assert (2 ^ 62 < j * 512) by (apply (Z.mul_lt_mono_pos_r B); lia).
    rewrite u64_id by lia. split; [lia|done].
  - rewrite Hpos by done. destruct (Z.eqb_spec rho 0); cbn [negb].
    + split; [lia|done].
    + assert (Z.lor (j * 512) 1 = j * 512 + 1) as ->; [|split; [lia|done]].
      apply (lor_disjoint j 1 9); lia.
Qed.
End Quotient.

Lemma f64_div_finite m a b st :
  in_mode m st -> is_pattern F64 a -> is_pattern F64 b ->
  is_finite F64 a = true -> is_finite F64 b = true -> is_zero F64 b = false ->
  returns (f64_div a b st) (ieee_div F64 m a b) st.
Proof.
  intros Hst Ha Hb Fa Fb Kb. unfold f64_div.
  rewrite !signF64UI_sign, !expF64UI_expo, !fracF64UI_frac by done. cbv zeta.
  pose proof (is_zero_fields F64 a) as Za. pose proof (is_zero_fields F64 b) as Zb.
  pose proof Fa as Ea. pose proof Fb as Eb. rewrite (is_finite_fields F64), negb_true_iff in Ea, Eb.
  cbn [ewidth F64] in Ea, Eb. change (2 ^ 11 - 1) with 2047 in *. rewrite Ea, Eb, <-Za, <-Zb, Kb.
  set (s := xorb (sign_of F64 a) (sign_of F64 b)). rewrite pack_zero_F64.
  destruct (is_zero F64 a) eqn:Ka.
  { apply returns_pure, ieee_div_finite; try done. by rewrite Ka. }
  destruct (norm_operandF64 a Fa Ka) as (HSA & HeA & Hva).
  destruct (norm_operandF64 b Fb Kb) as (HSB & HeB & Hvb).
  set (nA := if expo F64 a =? 0 then _ else _) in *. set (nB := if expo F64 b =? 0 then _ else _) in *.
  change 4503599627370496 with (2 ^ 52).
  set (SA := Z.lor (sig64 nA) (2 ^ 52)) in *. set (SB := Z.lor (sig64 nB) (2 ^ 52)) in *.
  clearbody nA nB SA SB. rewrite (Z.shiftl_mul_pow2 SB), (u64_id (SB * _)) by lia.
  set (c := if SA <? SB then 1 else 0).
  assert ((if SA <? SB then (exp64 nA - exp64 nB + 1022 - 1, u64 (Z.shiftl SA 11))
           else (exp64 nA - exp64 nB + 1022, u64 (Z.shiftl SA 10))) =
          (exp64 nA - exp64 nB + 1022 - c, SA * 2 ^ (10 + c))) as ->.
  { unfold c. destruct (SA <? SB); rewrite Z.shiftl_mul_pow2, u64_id by lia; f_equal; lia. }
  destruct (f64_div_sig_agrees (SA * 2 ^ (10 + c)) (SB * 2 ^ 11)) as [Hsig Hag].
  1-6: try (unfold c; destruct (Z.ltb_spec SA SB); cbn [Z.add Pos.add Pos.succ] in *; lia).
  { replace (SB * 2 ^ 11) with (SB * 2 ^ 7 * 16) by ring. rewrite Z.div_mul by lia. ring. }
  assert (0 <= c <= 1) as Hc by (unfold c; case_match; lia). clearbody c.
  eapply returns_mono;
    [eapply (fun x => roundPackToF64_rounded m s _ _ (IZR (SA * 2 ^ (10 + c) * 2 ^ 63) / IZR (SB * 2 ^ 11))%R x st Hst);
       [lia|done|done|reflexivity]|].
  cbv beta. intros u fl Hr. apply ieee_div_finite; try done; [by rewrite Ka|]. intros _. fold s.
  replace (absval F64 a / absval F64 b)%R
    with (IZR (SA * 2 ^ (10 + c) * 2 ^ 63) / IZR (SB * 2 ^ 11) *
          bpow (exp64 nA - exp64 nB + 1022 - c - 10 + emin F64))%R; [done|].
  rewrite Hva, Hvb, !IZR_bpow by lia.
  assert (0 < IZR SB)%R by (apply IZR_lt; lia).
  pose proof (bpow_gt_0 (exp64 nB - 1 + emin F64)). pose proof (bpow_gt_0 11).
  set (X := exp64 nA - exp64 nB + 1022 - c - 10 + emin F64). set (Y := exp64 nB - 1 + emin F64) in *.
  assert (bpow (10 + c) * bpow 63 * bpow X * bpow Y = bpow (exp64 nA - 1 + emin F64) * bpow 11)%R as Heq.
  { rewrite <-!bpow_add. f_equal. unfold X, Y. change (emin F64) with (-1074). lia. }
  transitivity (IZR SA * (bpow (10 + c) * bpow 63 * bpow X * bpow Y) / (IZR SB * bpow 11 * bpow Y))%R;
    [field; lra|rewrite Heq; field; lra].
Qed.

(** In every rounding mode and for all operands, [f64_div] gives the result and
    the flags of IEEE 754 division, a division by zero included. *)
Theorem f64_div_returns m a b st :
  in_mode m st -> is_pattern F64 a -> is_pattern F64 b ->
  returns (f64_div a b st) (ieee_div F64 m a b) st.
Proof.
  intros Hst Ha Hb.
  destruct (is_finite F64 a && (is_finite F64 b && negb (is_zero F64 b))) eqn:Hf.
  { apply andb_true_iff in Hf as [? [? ?%negb_true_iff]%andb_true_iff]. by apply f64_div_finite. }
  rewrite !(is_finite_fields F64), (is_zero_fields F64) in Hf. cbn [ewidth F64] in Hf. change (2 ^ 11 - 1) with 2047 in *.
  pose proof (ieee_div_nan F64 m a b) as Hnan. unfold f64_div.
  rewrite !signF64UI_sign, !expF64UI_expo, !fracF64UI_frac by done. cbv zeta.
  rewrite pack_inf_F64, pack_zero_F64, !lor_eqb_0. rewrite !(is_nan_fields F64) in Hnan.
  cbn [ewidth F64] in Hnan. change (2 ^ 11 - 1) with 2047 in *.
  pose proof (propagateNaNF64UI_returns a b st (ieee_div F64 m a b)) as Hprop.
  set (s := xorb (sign_of F64 a) (sign_of F64 b)).
  assert (forall u fl, (if (expo F64 a =? 2047) && negb (frac F64 a =? 0) || (expo F64 b =? 2047) && negb (frac F64 b =? 0)
     then False
     else if (expo F64 a =? 2047) && (frac F64 a =? 0)
     then if (expo F64 b =? 2047) && (frac F64 b =? 0) then nan_result F64 true u fl else u = infinity F64 s /\ fl = 0
     else if (expo F64 b =? 2047) && (frac F64 b =? 0) then u = zero F64 s /\ fl = 0
     else if (expo F64 b =? 0) && (frac F64 b =? 0)
     then if (expo F64 a =? 0) && (frac F64 a =? 0) then nan_result F64 true u fl
          else u = infinity F64 s /\ fl = flag_divbyzero
     else False) -> ieee_div F64 m a b u fl) as Hinf.
  { intros u fl Hu. unfold ieee_div. rewrite !(is_nan_fields F64), !(is_inf_fields F64), !(is_zero_fields F64).
    cbn [ewidth F64]. change (2 ^ 11 - 1) with 2047. fold s. case_match; [done|].
    repeat case_match; done. }
  assert ((expo F64 a =? 2047) = true -> (expo F64 a =? 0) = false) as HA0 by (rewrite Z.eqb_eq; by intros ->).
  assert ((expo F64 b =? 2047) = true -> (expo F64 b =? 0) = false) as HB0 by (rewrite Z.eqb_eq; by intros ->).
  destruct (expo F64 a =? 2047), (frac F64 a =? 0), (expo F64 b =? 2047), (frac F64 b =? 0);
    try discriminate Hf; rewrite ?HA0, ?HB0 in * by done; cbn [andb orb negb] in *;
    try (apply Hprop, Hnan; reflexivity);
    try (apply returns_pure, Hinf; done); try (apply returns_raise, Hinf; done).
  all: destruct (expo F64 a =? 0), (expo F64 b =? 0); cbn [andb orb negb] in *; try discriminate Hf;
    (apply returns_pure, Hinf; done) || (apply returns_raise, Hinf; done).
Qed.

