(* ===== verification/SoftMinMag.v ===== *)
(** * SoftFloat: conversions to integers that truncate

    f32_to_*_r_minMag.c and f64_to_*_r_minMag.c: the rounding direction is fixed,
    towards zero, and nothing but a shift is needed. *)

From Stdlib Require Import ZArith Lia Reals Lra.
From stdpp Require Import base tactics list numbers.
From S2P Require Import Prelude Ieee SoftFloat SoftRound SoftToInt.

Definition f32_to_i32_r_minMag (a : Z) (exact : bool) (st : softfloat_state) : Z * softfloat_state :=
  let exp := expF32UI a in
  let sig := fracF32UI a in
  let shiftDist := 0x9E - exp in
  if 32 <=? shiftDist then
    (0, if exact && negb (Z.lor exp sig =? 0) then softfloat_raiseFlags softfloat_flag_inexact st else st)
  else
    let sign := signF32UI a in
    if shiftDist <=? 0 then
      if a =? packToF32UI true 0x9E 0 then (- 0x7FFFFFFF - 1, st)
      else (if (exp =? 0xFF) && negb (sig =? 0) then i32_fromNaN
            else if sign then i32_fromNegOverflow else i32_fromPosOverflow,
            softfloat_raiseFlags softfloat_flag_invalid st)
    else
      let sig := u64 (Z.shiftl (Z.lor sig 0x00800000) 8) in
      let absZ := Z.shiftr sig shiftDist in
      (if sign then - absZ else absZ,
       if exact && negb (u64 (Z.shiftl absZ shiftDist) =? sig)
       then softfloat_raiseFlags softfloat_flag_inexact st else st).

Definition f32_to_ui32_r_minMag (a : Z) (exact : bool) (st : softfloat_state) : Z * softfloat_state :=
  let exp := expF32UI a in
  let sig := fracF32UI a in
  let shiftDist := 0x9E - exp in
  if 32 <=? shiftDist then
    (0, if exact && negb (Z.lor exp sig =? 0) then softfloat_raiseFlags softfloat_flag_inexact st else st)
  else
    let sign := signF32UI a in
    if sign || (shiftDist <? 0) then
      (if (exp =? 0xFF) && negb (sig =? 0) then ui32_fromNaN
       else if sign then ui32_fromNegOverflow else ui32_fromPosOverflow,
       softfloat_raiseFlags softfloat_flag_invalid st)
    else
      let sig := u64 (Z.shiftl (Z.lor sig 0x00800000) 8) in
      let z := Z.shiftr sig shiftDist in
      (z, if exact && negb (u64 (Z.shiftl z shiftDist) =? sig)
          then softfloat_raiseFlags softfloat_flag_inexact st else st).

Definition f32_to_i64_r_minMag (a : Z) (exact : bool) (st : softfloat_state) : Z * softfloat_state :=
  let exp := expF32UI a in
  let sig := fracF32UI a in
  let shiftDist := 0xBE - exp in
  if 64 <=? shiftDist then
    (0, if exact && negb (Z.lor exp sig =? 0) then softfloat_raiseFlags softfloat_flag_inexact st else st)
  else
    let sign := signF32UI a in
    if shiftDist <=? 0 then
      if a =? packToF32UI true 0xBE 0 then (- 0x7FFFFFFFFFFFFFFF - 1, st)
      else (if (exp =? 0xFF) && negb (sig =? 0) then i64_fromNaN
            else if sign then i64_fromNegOverflow else i64_fromPosOverflow,
            softfloat_raiseFlags softfloat_flag_invalid st)
    else
      let sig := Z.lor sig 0x00800000 in
      let sig64 := u64 (Z.shiftl sig 40) in
      let absZ := Z.shiftr sig64 shiftDist in
      let shiftDist := 40 - shiftDist in
      (if sign then - absZ else absZ,
       if exact && ((shiftDist <? 0) && negb (u32 (Z.shiftl sig (Z.land shiftDist 31)) =? 0))
       then softfloat_raiseFlags softfloat_flag_inexact st else st).

Definition f32_to_ui64_r_minMag (a : Z) (exact : bool) (st : softfloat_state) : Z * softfloat_state :=
  let exp := expF32UI a in
  let sig := fracF32UI a in
  let shiftDist := 0xBE - exp in
  if 64 <=? shiftDist then
    (0, if exact && negb (Z.lor exp sig =? 0) then softfloat_raiseFlags softfloat_flag_inexact st else st)
  else
    let sign := signF32UI a in
    if sign || (shiftDist <? 0) then
      (if (exp =? 0xFF) && negb (sig =? 0) then ui64_fromNaN
       else if sign then ui64_fromNegOverflow else ui64_fromPosOverflow,
       softfloat_raiseFlags softfloat_flag_invalid st)
    else
      let sig := Z.lor sig 0x00800000 in
      let sig64 := u64 (Z.shiftl sig 40) in
      let z := Z.shiftr sig64 shiftDist in
      let shiftDist := 40 - shiftDist in
      (z, if exact && ((shiftDist <? 0) && negb (u32 (Z.shiftl sig (Z.land shiftDist 31)) =? 0))
          then softfloat_raiseFlags softfloat_flag_inexact st else st).

Definition f64_to_i32_r_minMag (a : Z) (exact : bool) (st : softfloat_state) : Z * softfloat_state :=
  let exp := expF64UI a in
  let sig := fracF64UI a in
  let shiftDist := 0x433 - exp in
  if 53 <=? shiftDist then
    (0, if exact && negb (Z.lor exp sig =? 0) then softfloat_raiseFlags softfloat_flag_inexact st else st)
  else
    let sign := signF64UI a in
    if shiftDist <? 22 then
      if sign && (exp =? 0x41E) && (sig <? 0x0000000000200000) then
        (- 0x7FFFFFFF - 1,
         if exact && negb (sig =? 0) then softfloat_raiseFlags softfloat_flag_inexact st else st)
      else (if (exp =? 0x7FF) && negb (sig =? 0) then i32_fromNaN
            else if sign then i32_fromNegOverflow else i32_fromPosOverflow,
            softfloat_raiseFlags softfloat_flag_invalid st)
    else
      let sig := Z.lor sig 0x0010000000000000 in
      let absZ := Z.shiftr sig shiftDist in
      (if sign then - absZ else absZ,
       if exact && negb (u64 (Z.shiftl (u64 absZ) shiftDist) =? sig)
       then softfloat_raiseFlags softfloat_flag_inexact st else st).

Definition f64_to_ui32_r_minMag (a : Z) (exact : bool) (st : softfloat_state) : Z * softfloat_state :=
  let exp := expF64UI a in
  let sig := fracF64UI a in
  let shiftDist := 0x433 - exp in
  if 53 <=? shiftDist then
    (0, if exact && negb (Z.lor exp sig =? 0) then softfloat_raiseFlags softfloat_flag_inexact st else st)
  else
    let sign := signF64UI a in
    if sign || (shiftDist <? 21) then
      (if (exp =? 0x7FF) && negb (sig =? 0) then ui32_fromNaN
       else if sign then ui32_fromNegOverflow else ui32_fromPosOverflow,
       softfloat_raiseFlags softfloat_flag_invalid st)
    else
      let sig := Z.lor sig 0x0010000000000000 in
      let z := Z.shiftr sig shiftDist in
      (z, if exact && negb (u64 (Z.shiftl z shiftDist) =? sig)
          then softfloat_raiseFlags softfloat_flag_inexact st else st).

Definition f64_to_i64_r_minMag (a : Z) (exact : bool) (st : softfloat_state) : Z * softfloat_state :=
  let sign := signF64UI a in
  let exp := expF64UI a in
  let sig := fracF64UI a in
  let shiftDist := 0x433 - exp in
  if shiftDist <=? 0 then
    if shiftDist <? -10 then
      if a =? packToF64UI true 0x43E 0 then (- 0x7FFFFFFFFFFFFFFF - 1, st)
      else (if (exp =? 0x7FF) && negb (sig =? 0) then i64_fromNaN
            else if sign then i64_fromNegOverflow else i64_fromPosOverflow,
            softfloat_raiseFlags softfloat_flag_invalid st)
    else
      let sig := Z.lor sig 0x0010000000000000 in
      let absZ := s64 (Z.shiftl sig (- shiftDist)) in
      (if sign then - absZ else absZ, st)
  else if 53 <=? shiftDist then
    (0, if exact && negb (Z.lor exp sig =? 0) then softfloat_raiseFlags softfloat_flag_inexact st else st)
  else
    let sig := Z.lor sig 0x0010000000000000 in
    let absZ := Z.shiftr sig shiftDist in
    (if sign then - absZ else absZ,
     if exact && negb (u64 (Z.shiftl absZ shiftDist) =? sig)
     then softfloat_raiseFlags softfloat_flag_inexact st else st).

Definition f64_to_ui64_r_minMag (a : Z) (exact : bool) (st : softfloat_state) : Z * softfloat_state :=
  let exp := expF64UI a in
  let sig := fracF64UI a in
  let shiftDist := 0x433 - exp in
  let sign := signF64UI a in
  let invalid :=
    (if (exp =? 0x7FF) && negb (sig =? 0) then ui64_fromNaN
     else if sign then ui64_fromNegOverflow else ui64_fromPosOverflow,
     softfloat_raiseFlags softfloat_flag_invalid st) in
  if 53 <=? shiftDist then
    (0, if exact && negb (Z.lor exp sig =? 0) then softfloat_raiseFlags softfloat_flag_inexact st else st)
  else if sign then invalid
  else if shiftDist <=? 0 then
    if shiftDist <? -11 then invalid
    else (u64 (Z.shiftl (Z.lor sig 0x0010000000000000) (- shiftDist)), st)
  else
    let sig := Z.lor sig 0x0010000000000000 in
    let z := Z.shiftr sig shiftDist in
    (z, if exact && negb (u64 (Z.shiftl sig (Z.land (- shiftDist) 63)) =? 0)
        then softfloat_raiseFlags softfloat_flag_inexact st else st).

(** ** Truncation *)

Section Truncation.
Context (F : format) `{ValidFormat F} (lo hi : Z).

Lemma absval_lt_1 u : 3 <= emax F -> expo F u <= emax F - 2 -> (absval F u < 1)%R.
Proof.
  intros H3 He. rewrite absval_sig by done. pose proof (sig_of_range F u) as Hs. pose proof prec_valid.
  apply Rlt_le_trans with (bpow (prec F) * bpow (exp_of F u - 1 + emin F))%R.
  - apply Rmult_lt_compat_r; [apply bpow_gt_0|]. rewrite bpow_IZR by lia. apply IZR_lt. lia.
  - rewrite <-bpow_add, <-bpow_0. apply bpow_le. unfold exp_of, emin. lia.
Qed.

Lemma trunc_small exact a st :
  lo <= 0 <= hi -> 3 <= emax F -> expo F a <= emax F - 2 ->
  returns (0, if exact && negb (Z.lor (expo F a) (frac F a) =? 0)
              then softfloat_raiseFlags softfloat_flag_inexact st else st)
    (ieee_to_int F lo hi RTZ exact a) st.
Proof.
  intros Hr H3 He. pose proof (absval_lt_1 a H3 He). pose proof (absval_nonneg F a).
  assert (is_finite F a = true) as Hf.
  { rewrite is_finite_fields, negb_true_iff, Z.eqb_neq by done. destruct (pow_ewidth F). lia. }
  eapply returns_mono; [|intros z fl; by apply (ieee_to_int_finite F lo hi)].
  assert ((Z.lor (expo F a) (frac F a) =? 0) = is_zero F a) as ->.
  { rewrite is_zero_fields by done. apply Bool.eq_iff_eq_true. rewrite andb_true_iff, !Z.eqb_eq. apply Z.lor_eq_0_iff. }
  pose proof (int_result_fits lo hi RTZ exact (sign_of F a) (absval F a) 0 (negb (is_zero F a)) 0 st) as Hi.
  cbv zeta in Hi. replace (if sign_of F a then - 0 else 0) with 0 in Hi by (by destruct (sign_of F a)).
  rewrite (proj2 (andb_true_iff _ _)) in Hi by (split; lia). apply Hi; [simpl; lra| |done].
  rewrite negb_true_iff. split.
  - intros Hz. pose proof (absval_pos F a Hz). lra.
  - intros Hn. destruct (is_zero F a) eqn:Hz; [|done]. by apply (absval_zero F) in Hz.
Qed.

Lemma rtz_floor s S sd : 0 <= S -> 0 <= sd -> rounds RTZ s (IZR S * bpow (- sd)) (S / 2 ^ sd).
Proof.
  intros HS Hsd. pose proof (Z.pow_pos_nonneg 2 sd ltac:(lia) Hsd).
  pose proof (Z.div_mod S (2 ^ sd) ltac:(lia)). pose proof (Z.mod_pos_bound S (2 ^ sd) ltac:(lia)).
  simpl. rewrite <-plus_IZR. split; [apply (scale_le sd)|apply (scale_lt sd)];
    rewrite Rmult_assoc, bpow_opp, Rmult_1_r, <-IZR_bpow by done; [apply IZR_le|apply IZR_lt]; lia.
Qed.

Lemma trunc_shift exact a S sd (ix : bool) st :
  is_finite F a = true -> absval F a = (IZR S * bpow (- sd))%R -> 0 <= S -> 0 <= sd ->
  ix = negb (S mod 2 ^ sd =? 0) ->
  let r := if sign_of F a then - (S / 2 ^ sd) else S / 2 ^ sd in
  lo <= r <= hi ->
  returns (r, if exact && ix then softfloat_raiseFlags softfloat_flag_inexact st else st)
    (ieee_to_int F lo hi RTZ exact a) st.
Proof.
  intros Hf Hv HS Hsd -> r Hr. pose proof (Z.pow_pos_nonneg 2 sd ltac:(lia) Hsd).
  eapply returns_mono; [|intros z fl; by apply (ieee_to_int_finite F lo hi)].
  pose proof (int_result_fits lo hi RTZ exact (sign_of F a) (absval F a) (S / 2 ^ sd)
    (negb (S mod 2 ^ sd =? 0)) r st) as Hi. cbv zeta in Hi. fold r in Hi.
  rewrite (proj2 (andb_true_iff _ _)) in Hi by (split; lia). apply Hi; [rewrite Hv; by apply rtz_floor| |done].
  pose proof (Z.div_mod S (2 ^ sd) ltac:(lia)).
  rewrite Hv, negb_true_iff, Z.eqb_neq, <-(scale_eq sd), Rmult_assoc, bpow_opp, Rmult_1_r, <-IZR_bpow by done.
  split; [intros ? ?%eq_IZR; nia|]. intros Hne E. apply Hne. f_equal. nia.
Qed.

(** A magnitude out of the range, an infinity or a NaN. *)
Lemma trunc_out exact a st :
  (is_finite F a = true -> (IZR (if sign_of F a then 1 - lo else hi + 1) <= absval F a)%R) ->
  returns (if (expo F a =? 2 ^ ewidth F - 1) && negb (frac F a =? 0) then hi
           else if sign_of F a then lo else hi, softfloat_raiseFlags softfloat_flag_invalid st)
    (ieee_to_int F lo hi RTZ exact a) st.
Proof.
  intros Hv. apply returns_raise. destruct (is_finite F a) eqn:Hf.
  - specialize (Hv eq_refl). apply ieee_to_int_finite; [done..|].
    rewrite is_finite_fields, negb_true_iff in Hf by done. rewrite Hf. cbn [andb].
    destruct (base_Int_part (absval F a)) as [H1 H2]. exists (Int_part (absval F a)).
    split; [simpl; lra|]. cbv zeta. set (n := Int_part (absval F a)) in *.
    assert (forall k, (IZR k <= absval F a)%R -> k <= n) as Hk.
    { intros k Hk. apply Z.lt_succ_r, lt_IZR. unfold Z.succ. rewrite plus_IZR. lra. }
    apply Hk in Hv. destruct (sign_of F a);
      [rewrite (proj2 (andb_false_iff _ _)) by (left; lia)|rewrite (proj2 (andb_false_iff _ _)) by (right; lia)]; done.
  - unfold ieee_to_int. rewrite is_nan_fields, is_inf_fields by done.
    rewrite is_finite_fields, negb_false_iff in Hf by done. rewrite Hf. cbn [andb].
    by destruct (frac F a =? 0).
Qed.

(** A normal operand is at least its leading digit. *)
Lemma absval_ge u k :
  expo F u <> 0 -> k <= prec F - 1 + (expo F u - 1 + emin F) -> 0 <= k -> (IZR (2 ^ k) <= absval F u)%R.
Proof.
  intros He Hk Hk0. rewrite absval_normal by done. pose proof prec_valid. pose proof (sig_of_normal F u He).
  apply Rle_trans with (bpow (prec F - 1) * bpow (expo F u - 1 + emin F))%R.
  - rewrite <-bpow_add, <-bpow_IZR by done. by apply bpow_le.
  - apply Rmult_le_compat_r; [apply Rlt_le, bpow_gt_0|]. rewrite bpow_IZR by lia. by apply IZR_le.
Qed.

Lemma quotient_bound S sd n m : 0 <= S < 2 ^ m -> 0 <= sd -> 0 <= n -> m - n <= sd -> 0 <= S / 2 ^ sd < 2 ^ n.
Proof.
  intros HS Hsd Hn Hle. pose proof (Z.pow_pos_nonneg 2 sd ltac:(lia) ltac:(lia)).
  split; [apply Z.div_pos; lia|]. apply Z.div_lt_upper_bound; [lia|]. rewrite <-Z.pow_add_r by lia.
  apply Z.lt_le_trans with (2 ^ m); [lia|apply Z.pow_le_mono_r; lia].
Qed.
End Truncation.

(** ** The conversions *)

Lemma lor_hidden_normal F `{ValidFormat F} u : expo F u <> 0 -> Z.lor (frac F u) (2 ^ (prec F - 1)) = sig_of F u.
Proof. intros Hu. rewrite <-(lor_hidden F). by rewrite (proj2 (Z.eqb_neq _ _) Hu). Qed.

Lemma shift_back S sd :
  0 <= S < 2 ^ 64 -> 0 <= sd ->
  (u64 (Z.shiftl (Z.shiftr S sd) sd) =? S) = (S mod 2 ^ sd =? 0).
Proof.
  intros HS Hsd. pose proof (Z.pow_pos_nonneg 2 sd ltac:(lia) Hsd).
  rewrite Z.shiftr_div_pow2, Z.shiftl_mul_pow2 by done.
  pose proof (Z.div_mod S (2 ^ sd) ltac:(lia)). pose proof (Z.mod_pos_bound S (2 ^ sd) ltac:(lia)).
  assert (0 <= S / 2 ^ sd) by (apply Z.div_pos; lia).
  rewrite u64_id by nia. apply Bool.eq_iff_eq_true. rewrite !Z.eqb_eq. lia.
Qed.

(** The bits below the point of a significand shifted up by 40. *)
Lemma low_part40 sig sd :
  0 <= sig < 2 ^ 24 -> 0 <= sd < 64 ->
  (40 - sd <? 0) && negb (u32 (Z.shiftl sig (Z.land (40 - sd) 31)) =? 0) = negb ((sig * 2 ^ 40) mod 2 ^ sd =? 0).
Proof.
  intros Hs Hsd. destruct (Z.ltb_spec (40 - sd) 0); cbn [andb].
  - replace (40 - sd) with (- (sd - 40)) by lia.
    rewrite neg_land_31, Z.shiftl_mul_pow2 by lia. unfold u32. change 4294967296 with (2 ^ 32).
    rewrite dropped_bits by lia. f_equal.
    replace (2 ^ sd) with (2 ^ (sd - 40) * 2 ^ 40) by (rewrite <-Z.pow_add_r by lia; f_equal; lia).
    rewrite Z.mul_mod_distr_r by lia. apply Bool.eq_iff_eq_true. rewrite !Z.eqb_eq. lia.
  - replace (2 ^ 40) with (2 ^ (40 - sd) * 2 ^ sd) by (rewrite <-Z.pow_add_r by lia; f_equal; lia).
    rewrite Z.mul_assoc, Z.mod_mul by lia. done.
Qed.

(** The most negative integer [- 2 ^ k] is the only one of its magnitude that a
    signed type has. *)
Section MostNegative.
Context (F : format) `{ValidFormat F} (k : Z).
Context (k_fits : prec F <= k) (k_finite : k <= emax F - 2).

Let E := k - prec F + 2 - emin F.

Lemma min_pattern a :
  is_pattern F a -> sign_of F a = true -> expo F a = E -> frac F a = 0 ->
  a = signed F true (E * 2 ^ (prec F - 1)).
Proof.
  intros Ha Hs He Hf. rewrite (signed_eta F a Ha), Hs, (mag_eq F), He, Hf. f_equal. lia.
Qed.

Lemma min_value a :
  a = signed F true (E * 2 ^ (prec F - 1)) ->
  is_finite F a = true /\ sign_of F a = true /\ absval F a = IZR (2 ^ k).
Proof.
  intros Ha. pose proof prec_valid. destruct (pow_ewidth F) as [Hw _].
  assert (0 < E /\ E < 2 ^ ewidth F - 1) as HE by (unfold E, emin in *; lia).
  pose proof (pow_prec_pos F). pose proof (pow_width F) as Hpw.
  destruct (signed_fields F true E 0) as [He Hf]; [lia..|]. rewrite Z.add_0_r, <-Ha in He, Hf.
  assert (sign_of F a = true) as Hs by (rewrite Ha; apply signed_sign; [done|nia]). split_and!.
  - rewrite is_finite_fields, negb_true_iff, Z.eqb_neq by done. lia.
  - done.
  - rewrite absval_normal, He by (done || lia). unfold sig_of. rewrite He, Hf, (proj2 (Z.eqb_neq E 0)) by lia.
    rewrite Z.add_0_r, <-bpow_IZR, <-bpow_add, <-bpow_IZR by lia. f_equal. unfold E. lia.
Qed.

Lemma below_min a :
  is_pattern F a -> is_finite F a = true -> sign_of F a = true -> E <= expo F a ->
  a <> signed F true (E * 2 ^ (prec F - 1)) -> (IZR (2 ^ k + 1) <= absval F a)%R.
Proof.
  intros Ha Hf Hs He Hne. pose proof prec_valid. pose proof (frac_range F a). pose proof (pow_prec_pos F).
  assert (0 < E) by (unfold E, emin in *; destruct (pow_ewidth F); lia).
  assert (absval F a = IZR (sig_of F a * 2 ^ (expo F a - 1 + emin F))) as ->.
  { rewrite absval_normal, IZR_bpow by (done || unfold E in *; lia). done. }
  apply IZR_le. set (d := expo F a - 1 + emin F). assert (k - prec F + 1 <= d) as Hd by (unfold d, E in *; lia).
  pose proof (sig_of_normal F a ltac:(lia)) as Hn.
  assert (2 ^ k = 2 ^ (prec F - 1) * 2 ^ (k - prec F + 1)) as -> by (rewrite <-Z.pow_add_r by lia; f_equal; lia).
  pose proof (Z.pow_le_mono_r 2 (k - prec F + 1) d ltac:(lia) Hd).
  pose proof (Z.pow_pos_nonneg 2 (k - prec F + 1) ltac:(lia) ltac:(lia)).
  destruct (decide (d = k - prec F + 1)) as [Hdk|Hdk].
  - assert (frac F a <> 0).
    { intros E0. apply Hne. apply min_pattern; [done|done| |done]. unfold d, E in *. lia. }
    unfold sig_of. rewrite (proj2 (Z.eqb_neq _ _)) by lia. rewrite Hdk. nia.
  - pose proof (Z.pow_le_mono_r 2 (k - prec F + 2) d ltac:(lia) ltac:(lia)) as Hp2.
    replace (k - prec F + 2) with (Z.succ (k - prec F + 1)) in Hp2 by lia. rewrite Z.pow_succ_r in Hp2 by lia. nia.
Qed.
End MostNegative.

Lemma packF32_min e : 0 <= e < 256 -> packToF32UI true e 0 = signed F32 true (e * 2 ^ (prec F32 - 1)).
Proof.
  intros He. unfold packToF32UI, signed. cbn [prec ewidth F32 Z.b2z]. rewrite !Z.shiftl_mul_pow2 by lia.
  rewrite (u32_id e), (u32_id (e * _)), (u32_id (1 * _)), (u32_id (_ + _)), u64_id by lia. lia.
Qed.
Lemma packF64_min e : 0 <= e < 2048 -> packToF64UI true e 0 = signed F64 true (e * 2 ^ (prec F64 - 1)).
Proof.
  intros He. unfold packToF64UI, signed. cbn [prec ewidth F64 Z.b2z]. rewrite !Z.shiftl_mul_pow2 by lia.
  rewrite (u64_id e), (u64_id (e * _)), (u64_id (1 * _)), u64_id by lia. lia.
Qed.

(** The most negative integer is returned as it is. *)
Lemma min_result F `{ValidFormat F} k lo hi exact a st :
  prec F <= k -> k <= emax F - 2 -> lo = - 2 ^ k -> 0 <= hi ->
  a = signed F true ((k - prec F + 2 - emin F) * 2 ^ (prec F - 1)) ->
  returns (- 2 ^ k, st) (ieee_to_int F lo hi RTZ exact a) st.
Proof.
  intros Hk Hk' -> Hhi Ha. destruct (min_value F k Hk Hk' a Ha) as (Hf & Hs & Hv). pose proof prec_valid.
  pose proof (Z.pow_pos_nonneg 2 k ltac:(lia) ltac:(lia)).
  pose proof (trunc_shift F (- 2 ^ k) hi exact a (2 ^ k) 0 false st Hf) as Ht.
  rewrite Hs in Ht. change (2 ^ 0) with 1 in Ht. rewrite Z.div_1_r, Z.mod_1_r, andb_false_r in Ht.
  apply Ht; done || lia || idtac. change (- 0) with 0. by rewrite Hv, bpow_0, Rmult_1_r.
Qed.

(** A significand in units of [2 ^ (- sd)], with the leading digit at [2 ^ k]. *)
Section Shifted.
Context (F : format) `{ValidFormat F} (K : Z) (K_ge : 0 <= K) (k_finite : prec F + K <= emax F - 2).
Context (a : Z) (a_pattern : is_pattern F a) (exact : bool) (st : softfloat_state).

Let sd := K + 1 - emin F - expo F a.
Let S := sig_of F a * 2 ^ K.

Lemma shifted_value : expo F a <> 0 -> absval F a = (IZR S * bpow (- sd))%R.
Proof.
  intros He. unfold S. rewrite absval_normal, IZR_bpow, Rmult_assoc, <-bpow_add by (done || lia).
  do 2 f_equal. unfold sd. lia.
Qed.

Lemma shifted_bound n : 0 <= sd -> 0 <= n -> prec F + K - n <= sd -> 0 <= S / 2 ^ sd < 2 ^ n.
Proof.
  intros Hsd Hn Hle. pose proof (sig_of_range F a). pose proof (Z.pow_pos_nonneg 2 K ltac:(lia) ltac:(lia)).
  pose proof prec_valid. apply (quotient_bound S sd n (prec F + K)); try lia.
  rewrite Z.pow_add_r by lia. unfold S. nia.
Qed.

(** To a signed type, the truncated value below [2 ^ k]. *)
Lemma trunc_signed (ix : bool) :
  let k := prec F + K - 1 in
  1 <= K -> sd < prec F + K -> (0 < sd -> ix = negb (S mod 2 ^ sd =? 0)) ->
  returns
    (if sd <=? 0 then
       if a =? signed F true ((k - prec F + 2 - emin F) * 2 ^ (prec F - 1)) then (- 2 ^ k, st)
       else (if (expo F a =? 2 ^ ewidth F - 1) && negb (frac F a =? 0) then 2 ^ k - 1
             else if sign_of F a then - 2 ^ k else 2 ^ k - 1, softfloat_raiseFlags softfloat_flag_invalid st)
     else (if sign_of F a then - Z.shiftr S sd else Z.shiftr S sd,
           if exact && ix then softfloat_raiseFlags softfloat_flag_inexact st else st))
    (ieee_to_int F (- 2 ^ k) (2 ^ k - 1) RTZ exact a) st.
Proof.
  intros k HK Hsd Hix. pose proof prec_valid. pose proof (expo_range F a) as He. destruct (pow_ewidth F).
  pose proof (Z.pow_pos_nonneg 2 k ltac:(lia) ltac:(lia)).
  destruct (Z.leb_spec sd 0) as [Hd|Hd].
  - assert (expo F a <> 0) by (unfold sd, emin in *; lia).
    destruct (Z.eqb_spec a (signed F true ((k - prec F + 2 - emin F) * 2 ^ (prec F - 1)))) as [E|E].
    + apply (min_result F k); done || lia.
    + apply (trunc_out F). intros Hf. destruct (sign_of F a) eqn:Hs.
      * replace (1 - - 2 ^ k) with (2 ^ k + 1) by lia. apply (below_min F k); done || unfold sd in *; lia.
      * replace (2 ^ k - 1 + 1) with (2 ^ k) by lia. apply (absval_ge F a k); unfold sd in *; lia.
  - assert (is_finite F a = true).
    { rewrite is_finite_fields, negb_true_iff, Z.eqb_neq by done. unfold sd, emin in *. lia. }
    assert (expo F a <> 0) by (unfold sd, emin in *; lia).
    pose proof (shifted_bound k ltac:(lia) ltac:(lia) ltac:(unfold k; lia)).
    pose proof (sig_of_range F a). rewrite Z.shiftr_div_pow2 by lia.
    apply (trunc_shift F _ _ exact a S sd); [done|by apply shifted_value|unfold S; nia|lia|by apply Hix|].
    destruct (sign_of F a); lia.
Qed.

(** To an unsigned type, below [2 ^ (k + 1)]. *)
Lemma trunc_unsigned (ix : bool) :
  let n := prec F + K in
  sd < prec F + K -> (0 <= sd -> ix = negb (S mod 2 ^ sd =? 0)) ->
  returns
    (if sign_of F a || (sd <? 0)
     then (if (expo F a =? 2 ^ ewidth F - 1) && negb (frac F a =? 0) then 2 ^ n - 1
           else if sign_of F a then 0 else 2 ^ n - 1, softfloat_raiseFlags softfloat_flag_invalid st)
     else (Z.shiftr S sd, if exact && ix then softfloat_raiseFlags softfloat_flag_inexact st else st))
    (ieee_to_int F 0 (2 ^ n - 1) RTZ exact a) st.
Proof.
  intros n Hsd Hix. pose proof prec_valid. pose proof (expo_range F a) as He. destruct (pow_ewidth F).
  assert (expo F a <> 0) by (unfold sd, emin in *; lia).
  destruct (sign_of F a) eqn:Hs; cbn [orb]; [|destruct (Z.ltb_spec sd 0) as [Hd|Hd]].
  - pose proof (trunc_out F 0 (2 ^ n - 1) exact a st) as Ho. rewrite Hs in Ho. apply Ho.
    intros _. change (1 - 0) with (2 ^ 0). apply (absval_ge F a); unfold sd, emin in *; lia.
  - pose proof (trunc_out F 0 (2 ^ n - 1) exact a st) as Ho. rewrite Hs in Ho. apply Ho.
    intros _. replace (2 ^ n - 1 + 1) with (2 ^ n) by lia. apply (absval_ge F a n); unfold sd in *; lia.
  - assert (is_finite F a = true).
    { rewrite is_finite_fields, negb_true_iff, Z.eqb_neq by done. unfold sd, emin in *. lia. }
    pose proof (shifted_bound n ltac:(lia) ltac:(lia) ltac:(unfold n; lia)).
    pose proof (sig_of_range F a). pose proof (Z.pow_pos_nonneg 2 K ltac:(lia) ltac:(lia)).
    rewrite Z.shiftr_div_pow2 by lia.
    pose proof (trunc_shift F 0 (2 ^ n - 1) exact a S sd ix st) as Ht. cbv zeta in Ht. rewrite Hs in Ht.
    apply Ht; [done|by apply shifted_value|unfold S; nia|lia|by apply Hix|lia].
Qed.
End Shifted.

Ltac minmag_fields :=
  cbv zeta; rewrite ?signF32UI_sign, ?expF32UI_expo, ?fracF32UI_frac, ?signF64UI_sign, ?expF64UI_expo, ?fracF64UI_frac by done;
  change 0x00800000 with (2 ^ (prec F32 - 1)); change 0x0010000000000000 with (2 ^ (prec F64 - 1)).

(** [f32_to_i32_r_minMag] and [f32_to_ui32_r_minMag] truncate, and give
    RISC-V's bounds for what does not fit. *)
Theorem f32_to_i32_r_minMag_returns exact a st :
  is_pattern F32 a ->
  returns (f32_to_i32_r_minMag a exact st) (ieee_to_int F32 (- 2 ^ 31) (2 ^ 31 - 1) RTZ exact a) st /\
  returns (f32_to_ui32_r_minMag a exact st) (ieee_to_int F32 0 (2 ^ 32 - 1) RTZ exact a) st.
Proof.
  intros Ha. unfold f32_to_i32_r_minMag, f32_to_ui32_r_minMag. minmag_fields.
  pose proof (expo_range F32 a) as He. cbn [ewidth F32] in He.
  destruct (Z.leb_spec 32 (158 - expo F32 a)) as [H32|H32].
  { split; apply (trunc_small F32); change (emax F32) with 128; change (emax F64) with 1024; lia. }
  rewrite !(lor_hidden_normal F32) by lia. pose proof (sig_of_range F32 a) as Hs. cbn [prec F32] in Hs.
  rewrite Z.shiftl_mul_pow2, u64_id by lia. rewrite packF32_min by lia. split.
  - apply (trunc_signed F32 8 ltac:(lia) ltac:(done) a Ha exact st); cbn [prec F32]; try lia; change (emin F32) with (-149); try lia.
    intros Hd. by rewrite shift_back by lia.
  - apply (trunc_unsigned F32 8 ltac:(lia) ltac:(done) a exact st); cbn [prec F32]; try lia; change (emin F32) with (-149); try lia.
    intros Hd. by rewrite shift_back by lia.
Qed.

(** [f32_to_i64_r_minMag] and [f32_to_ui64_r_minMag] truncate, and give
    RISC-V's bounds for what does not fit. *)
Theorem f32_to_i64_r_minMag_returns exact a st :
  is_pattern F32 a ->
  returns (f32_to_i64_r_minMag a exact st) (ieee_to_int F32 (- 2 ^ 63) (2 ^ 63 - 1) RTZ exact a) st /\
  returns (f32_to_ui64_r_minMag a exact st) (ieee_to_int F32 0 (2 ^ 64 - 1) RTZ exact a) st.
Proof.
  intros Ha. unfold f32_to_i64_r_minMag, f32_to_ui64_r_minMag. minmag_fields.
  pose proof (expo_range F32 a) as He. cbn [ewidth F32] in He.
  destruct (Z.leb_spec 64 (190 - expo F32 a)) as [H64|H64].
  { split; apply (trunc_small F32); change (emax F32) with 128; change (emax F64) with 1024; lia. }
  rewrite !(lor_hidden_normal F32) by lia. pose proof (sig_of_range F32 a) as Hs. cbn [prec F32] in Hs.
  rewrite (Z.shiftl_mul_pow2 _ 40), u64_id by lia. rewrite packF32_min by lia. split.
  - apply (trunc_signed F32 40 ltac:(lia) ltac:(done) a Ha exact st); cbn [prec F32]; try lia; change (emin F32) with (-149); try lia.
    intros Hd. by rewrite low_part40 by lia.
  - apply (trunc_unsigned F32 40 ltac:(lia) ltac:(done) a exact st); cbn [prec F32]; try lia; change (emin F32) with (-149); try lia.
    intros Hd. by rewrite low_part40 by lia.
Qed.

(** The value in double precision, in units of [2 ^ (- sd)]. *)
Lemma valueF64 a : expo F64 a <> 0 -> absval F64 a = (IZR (sig_of F64 a) * bpow (- (1075 - expo F64 a)))%R.
Proof. intros He. rewrite absval_normal by done. do 2 f_equal. change (emin F64) with (-1074). lia. Qed.

(** [f64_to_i32_r_minMag] and [f64_to_ui32_r_minMag] truncate, and give
    RISC-V's bounds for what does not fit. *)
Theorem f64_to_i32_r_minMag_returns exact a st :
  is_pattern F64 a ->
  returns (f64_to_i32_r_minMag a exact st) (ieee_to_int F64 (- 2 ^ 31) (2 ^ 31 - 1) RTZ exact a) st /\
  returns (f64_to_ui32_r_minMag a exact st) (ieee_to_int F64 0 (2 ^ 32 - 1) RTZ exact a) st.
Proof.
  intros Ha. unfold f64_to_i32_r_minMag, f64_to_ui32_r_minMag. minmag_fields.
  pose proof (expo_range F64 a) as He. cbn [ewidth F64] in He.
  destruct (Z.leb_spec 53 (1075 - expo F64 a)) as [H53|H53].
  { split; apply (trunc_small F64); change (emax F32) with 128; change (emax F64) with 1024; lia. }
  assert (expo F64 a <> 0) as E by lia.
  rewrite !(lor_hidden_normal F64) by done. pose proof (sig_of_range F64 a) as Hs. cbn [prec F64] in Hs.
  pose proof (sig_of_normal F64 a E) as Hn. cbn [prec F64] in Hn.
  assert (22 <= 1075 - expo F64 a -> is_finite F64 a = true) as Hfin.
  { intros Hd. rewrite is_finite_fields, negb_true_iff, Z.eqb_neq by done. cbn [ewidth F64]. lia. }
  pose proof (valueF64 a E) as Hv. change (emin F64) with (-1074) in *. split.
  - destruct (Z.ltb_spec (1075 - expo F64 a) 22) as [H22|H22].
    + destruct (sign_of F64 a && (expo F64 a =? 1054) && (frac F64 a <? 2097152)) eqn:Hm.
      * apply andb_true_iff in Hm as [[Hsg E41%Z.eqb_eq]%andb_true_iff Hlt%Z.ltb_lt].
        pose proof (frac_range F64 a).
        assert (sig_of F64 a = 2 ^ 52 + frac F64 a) as Hsig by (unfold sig_of; by rewrite E41).
        pose proof (trunc_shift F64 (- 2 ^ 31) (2 ^ 31 - 1) exact a (sig_of F64 a) 21 (negb (frac F64 a =? 0)) st) as Ht.
        cbv zeta in Ht. rewrite Hsg in Ht. replace (sig_of F64 a / 2 ^ 21) with (2 ^ 31) in Ht by (rewrite Hsig; divlia).
        apply Ht; try lia; [by rewrite is_finite_fields, E41 by done|rewrite Hv, E41; done|].
        f_equal. replace (sig_of F64 a mod 2 ^ 21) with (frac F64 a); [done|]. rewrite Hsig. divlia.
      * apply (trunc_out F64 (- 2 ^ 31) (2 ^ 31 - 1)). intros Hf. destruct (sign_of F64 a) eqn:Hsg.
        -- change (1 - - 2 ^ 31) with (2 ^ 31 + 1). destruct (Z.eqb_spec (expo F64 a) 1054) as [E41|E41].
           ++ cbn [andb] in Hm. apply Z.ltb_ge in Hm.
              assert (sig_of F64 a = 2 ^ 52 + frac F64 a) as Hsig by (unfold sig_of; by rewrite E41).
              rewrite Hv, E41. apply (scale_le 21). rewrite Rmult_assoc, <-bpow_add.
              change (- (1075 - 1054) + 21) with 0. rewrite bpow_0, Rmult_1_r, <-IZR_bpow by lia. apply IZR_le. lia.
           ++ apply Rle_trans with (IZR (2 ^ 32)); [apply IZR_le; lia|].
              apply (absval_ge F64 a 32); cbn [prec F64]; change (emin F64) with (-1074); lia.
        -- change (2 ^ 31 - 1 + 1) with (2 ^ 31).
           apply (absval_ge F64 a 31); cbn [prec F64]; change (emin F64) with (-1074); lia.
    + pose proof (quotient_bound _ (1075 - expo F64 a) 31 53 Hs ltac:(lia) ltac:(lia) ltac:(lia)) as Hq.
      rewrite (u64_id (Z.shiftr _ _)), shift_back, Z.shiftr_div_pow2 by (rewrite ?Z.shiftr_div_pow2 by lia; lia).
      apply (trunc_shift F64 _ _ exact a (sig_of F64 a)); try done; try lia; [apply Hfin; lia|].
      destruct (sign_of F64 a); lia.
  - destruct (sign_of F64 a) eqn:Hsg; cbn [orb]; [|destruct (Z.ltb_spec (1075 - expo F64 a) 21) as [H21|H21]].
    + pose proof (trunc_out F64 0 (2 ^ 32 - 1) exact a st) as Ho. rewrite Hsg in Ho. apply Ho. intros _.
      change (1 - 0) with (2 ^ 0). apply (absval_ge F64 a); cbn [prec F64]; change (emin F64) with (-1074); lia.
    + pose proof (trunc_out F64 0 (2 ^ 32 - 1) exact a st) as Ho. rewrite Hsg in Ho. apply Ho. intros _.
      change (2 ^ 32 - 1 + 1) with (2 ^ 32). apply (absval_ge F64 a); cbn [prec F64]; change (emin F64) with (-1074); lia.
    + pose proof (quotient_bound _ (1075 - expo F64 a) 32 53 Hs ltac:(lia) ltac:(lia) ltac:(lia)) as Hq.
      rewrite shift_back, Z.shiftr_div_pow2 by lia.
      pose proof (trunc_shift F64 0 (2 ^ 32 - 1) exact a (sig_of F64 a) (1075 - expo F64 a)) as Ht.
      cbv zeta in Ht. rewrite Hsg in Ht. apply Ht; try done; try lia.
      rewrite is_finite_fields, negb_true_iff, Z.eqb_neq by done. cbn [ewidth F64]. lia.
Qed.

(** The dropped bits of a word, found by the complementary shift. *)
Lemma low_part64 sig sd :
  1 <= sd <= 63 -> (u64 (Z.shiftl sig (Z.land (- sd) 63)) =? 0) = (sig mod 2 ^ sd =? 0).
Proof.
  intros Hsd. rewrite neg_land_63, Z.shiftl_mul_pow2 by lia. unfold u64.
  change 18446744073709551616 with (2 ^ 64). by apply dropped_bits; lia.
Qed.

(** [f64_to_i64_r_minMag] and [f64_to_ui64_r_minMag] truncate, and give
    RISC-V's bounds for what does not fit. *)
Theorem f64_to_i64_r_minMag_returns exact a st :
  is_pattern F64 a ->
  returns (f64_to_i64_r_minMag a exact st) (ieee_to_int F64 (- 2 ^ 63) (2 ^ 63 - 1) RTZ exact a) st /\
  returns (f64_to_ui64_r_minMag a exact st) (ieee_to_int F64 0 (2 ^ 64 - 1) RTZ exact a) st.
Proof.
  intros Ha. unfold f64_to_i64_r_minMag, f64_to_ui64_r_minMag. minmag_fields.
  pose proof (expo_range F64 a) as He. cbn [ewidth F64] in He.
  destruct (Z.leb_spec 53 (1075 - expo F64 a)) as [H53|H53].
  { rewrite (proj2 (Z.leb_gt _ 0)) by lia.
    split; apply (trunc_small F64); change (emax F64) with 1024; lia. }
  assert (expo F64 a <> 0) as E by lia.
  rewrite !(lor_hidden_normal F64) by done. pose proof (sig_of_range F64 a) as Hs. cbn [prec F64] in Hs.
  assert (-11 <= 1075 - expo F64 a -> is_finite F64 a = true) as Hfin.
  { intros Hd. rewrite is_finite_fields, negb_true_iff, Z.eqb_neq by done. cbn [ewidth F64]. lia. }
  pose proof (valueF64 a E) as Hv.
  assert (1075 - expo F64 a <= 0 ->
    absval F64 a = (IZR (sig_of F64 a * 2 ^ (- (1075 - expo F64 a))) * bpow (- 0))%R) as Hv0.
  { intros Hd. rewrite IZR_bpow by lia. change (- 0) with 0. by rewrite bpow_0, Rmult_1_r. }
  assert (forall n, 53 <= n -> 1075 - expo F64 a <= 0 -> 53 - (1075 - expo F64 a) <= n ->
    0 <= sig_of F64 a * 2 ^ (- (1075 - expo F64 a)) < 2 ^ n) as Hb.
  { intros n Hn Hd Hle. pose proof (Z.pow_pos_nonneg 2 (- (1075 - expo F64 a)) ltac:(lia) ltac:(lia)).
    pose proof (Z.pow_le_mono_r 2 (53 + - (1075 - expo F64 a)) n ltac:(lia) ltac:(lia)) as Hp.
    rewrite Z.pow_add_r in Hp by lia. nia. }
  rewrite packF64_min by lia. change i64_fromPosOverflow with (2 ^ 63 - 1). change ui64_fromPosOverflow with (2 ^ 64 - 1).
  split.
  - destruct (Z.leb_spec (1075 - expo F64 a) 0) as [H0|H0].
    + destruct (Z.ltb_spec (1075 - expo F64 a) (-10)) as [H10|H10].
      * destruct (Z.eqb_spec a (signed F64 true (1086 * 2 ^ (prec F64 - 1)))) as [Em|Em].
        -- by apply (min_result F64 63).
        -- apply (trunc_out F64 (- 2 ^ 63) (2 ^ 63 - 1)). intros Hf. destruct (sign_of F64 a) eqn:Hsg.
           ++ change (1 - - 2 ^ 63) with (2 ^ 63 + 1).
              apply (below_min F64 63); try done. change (63 - prec F64 + 2 - emin F64) with 1086. lia.
           ++ change (2 ^ 63 - 1 + 1) with (2 ^ 63).
              apply (absval_ge F64 a); cbn [prec F64]; change (emin F64) with (-1074); lia.
      * specialize (Hb 63 ltac:(lia) H0 ltac:(lia)). rewrite Z.shiftl_mul_pow2 by lia.
        set (S := sig_of F64 a * 2 ^ (- (1075 - expo F64 a))) in *.
        replace (s64 S) with S by (unfold s64; rewrite Z.mod_small by lia; lia).
        pose proof (trunc_shift F64 (- 2 ^ 63) (2 ^ 63 - 1) exact a S 0 false st (Hfin ltac:(lia)) (Hv0 H0)) as Ht.
        change (2 ^ 0) with 1 in Ht. rewrite Z.div_1_r, Z.mod_1_r, andb_false_r in Ht.
        apply Ht; done || lia || destruct (sign_of F64 a); lia.
    + pose proof (quotient_bound _ (1075 - expo F64 a) 53 53 Hs ltac:(lia) ltac:(lia) ltac:(lia)) as Hq.
      rewrite shift_back, Z.shiftr_div_pow2 by lia.
      apply (trunc_shift F64 _ _ exact a (sig_of F64 a)); try done; try lia; [apply Hfin; lia|].
      destruct (sign_of F64 a); lia.
  - destruct (sign_of F64 a) eqn:Hsg; [|destruct (Z.leb_spec (1075 - expo F64 a) 0) as [H0|H0];
      [destruct (Z.ltb_spec (1075 - expo F64 a) (-11)) as [H11|H11]|]].
    + pose proof (trunc_out F64 0 (2 ^ 64 - 1) exact a st) as Ho. rewrite Hsg in Ho. apply Ho. intros _.
      change (1 - 0) with (2 ^ 0). apply (absval_ge F64 a); cbn [prec F64]; change (emin F64) with (-1074); lia.
    + pose proof (trunc_out F64 0 (2 ^ 64 - 1) exact a st) as Ho. rewrite Hsg in Ho. apply Ho. intros _.
      change (2 ^ 64 - 1 + 1) with (2 ^ 64). apply (absval_ge F64 a); cbn [prec F64]; change (emin F64) with (-1074); lia.
    + specialize (Hb 64 ltac:(lia) H0 ltac:(lia)). rewrite Z.shiftl_mul_pow2, u64_id by lia.
      pose proof (trunc_shift F64 0 (2 ^ 64 - 1) exact a _ 0 false st (Hfin ltac:(lia)) (Hv0 H0)) as Ht.
      change (2 ^ 0) with 1 in Ht. rewrite Hsg, Z.div_1_r, Z.mod_1_r, andb_false_r in Ht.
      apply Ht; done || lia.
    + pose proof (quotient_bound _ (1075 - expo F64 a) 53 53 Hs ltac:(lia) ltac:(lia) ltac:(lia)) as Hq.
      rewrite low_part64, Z.shiftr_div_pow2 by lia.
      pose proof (trunc_shift F64 0 (2 ^ 64 - 1) exact a (sig_of F64 a) (1075 - expo F64 a)) as Ht.
      cbv zeta in Ht. rewrite Hsg in Ht. apply Ht; try done; try lia. apply Hfin. lia.
Qed.
