(* ===== verification/SoftRsqrt.v ===== *)
(** * SoftFloat: the approximate reciprocal square root

    s_approxRecipSqrt32_1.c and its tables.  The linear approximations of the
    table lie below the function (the arithmetic and the geometric mean show it),
    one step of Newton's method with its cubic term brings them close to it, and
    the roundings of the integers cost at most two units. *)

From Stdlib Require Import ZArith Lia Reals Lra.
From stdpp Require Import base tactics list numbers.
From S2P Require Import Prelude Ieee SoftFloat.

Definition softfloat_approxRecipSqrt_1k0s : list Z := [
  0xB4C9; 0xFFAB; 0xAA7D; 0xF11C; 0xA1C5; 0xE4C7; 0x9A43; 0xDA29;
  0x93B5; 0xD0E5; 0x8DED; 0xC8B7; 0x88C6; 0xC16D; 0x8424; 0xBAE1].
Definition softfloat_approxRecipSqrt_1k1s : list Z := [
  0xA5A5; 0xEA42; 0x8C21; 0xC62D; 0x788F; 0xAA7F; 0x6928; 0x94B6;
  0x5CC7; 0x8335; 0x52A6; 0x74E2; 0x4A3E; 0x68FE; 0x432B; 0x5EFD].

Definition softfloat_approxRecipSqrt32_1 (oddExpA a : Z) : Z :=
  let index := Z.land (Z.shiftr a 27) 0xE + oddExpA in
  let eps := u16 (Z.shiftr a 12) in
  let r0 := u16 (nth (Z.to_nat index) softfloat_approxRecipSqrt_1k0s 0
                 - Z.shiftr (nth (Z.to_nat index) softfloat_approxRecipSqrt_1k1s 0 * eps) 20) in
  let ESqrR0 := r0 * r0 in
  let ESqrR0 := if oddExpA =? 0 then Z.shiftl ESqrR0 1 else ESqrR0 in
  let sigma0 := u32 (Z.lnot (Z.shiftr (u64 (u32 ESqrR0 * a)) 23)) in
  let r := Z.shiftl r0 16 + Z.shiftr (u64 (r0 * sigma0)) 25 in
  let sqrSigma0 := u32 (Z.shiftr (u64 (sigma0 * sigma0)) 32) in
  let r := u64 (r + Z.shiftr (u64 (u32 (Z.shiftr r 1 + Z.shiftr r 3 - Z.shiftl r0 14) * sqrSigma0)) 48) in
  if Z.land r 0x80000000 =? 0 then 0x80000000 else u32 r.

(** ** The linear approximation *)

(** The mean inequality [27 U^2 V <= (2 U + V)^3]. *)
Lemma mean_inequality U V : 0 <= U -> 0 <= V -> 27 * (U * U * V) <= (2 * U + V) * ((2 * U + V) * (2 * U + V)).
Proof.
  intros HU HV. assert (0 <= (U - V) * (U - V) * (8 * U + V)); [|lia].
  apply Z.mul_nonneg_nonneg; [apply Z.square_nonneg|lia].
Qed.

Lemma square_mono u v x y : 0 <= u <= v -> 0 <= x <= y -> u * u * x <= v * v * y.
Proof.
  intros Hu Hx. apply Z.mul_le_mono_nonneg; [apply Z.square_nonneg| |lia|lia]. apply Z.mul_le_mono_nonneg; lia.
Qed.

(** The square of a falling line times a rising one is largest where the mean
    inequality says, and over an interval smallest at an end. *)
Section Line.
Context (c C k N : Z) (c_pos : 0 < c) (k_pos : 0 < k) (N_pos : 0 < N).

Lemma line_above e :
  0 <= C - k * e -> 0 <= e ->
  c * ((4096 * C + k * N) * ((4096 * C + k * N) * (4096 * C + k * N))) < 27 * (2048 * 2048) * k * 2 ^ 103 ->
  c * ((C - k * e) * (C - k * e) * (N + 4096 * e)) < 2 ^ 103.
Proof.
  intros Hu He Hmax.
  pose proof (mean_inequality (2048 * (C - k * e)) (k * (N + 4096 * e)) ltac:(lia) ltac:(nia)) as Hm.
  replace (2 * (2048 * (C - k * e)) + k * (N + 4096 * e)) with (4096 * C + k * N) in Hm by ring.
  set (X := (C - k * e) * (C - k * e) * (N + 4096 * e)) in *.
  replace (27 * (2048 * (C - k * e) * (2048 * (C - k * e)) * (k * (N + 4096 * e))))
    with (27 * (2048 * 2048) * k * X) in Hm by (unfold X; ring).
  apply (Z.mul_lt_mono_pos_l (27 * (2048 * 2048) * k)); [lia|].
  apply Z.le_lt_trans with (2 := Hmax). replace (27 * (2048 * 2048) * k * (c * X)) with (c * (27 * (2048 * 2048) * k * X)) by ring.
  by apply Z.mul_le_mono_nonneg_l; [lia|].
Qed.

Lemma line_below e E L :
  0 <= e <= E -> 0 < E -> k * (N + 8192 * E) <= 8192 * C ->
  L <= c * (C * C * N) -> L <= c * ((C - k * E) * (C - k * E) * (N + 4096 * E)) ->
  L <= c * ((C - k * e) * (C - k * e) * (N + 4096 * e)).
Proof.
  intros He HE Hc H0 H1. set (f := fun e => (C - k * e) * (C - k * e) * (N + 4096 * e)).
  assert (E * f e = (E - e) * f 0 + e * f E + E * (e * (E - e)) * (k * (8192 * C - k * (N + 4096 * (e + E))))) as Hf
    by (unfold f; ring).
  assert (0 <= E * (e * (E - e)) * (k * (8192 * C - k * (N + 4096 * (e + E))))) as Hr.
  { apply Z.mul_nonneg_nonneg; [|apply Z.mul_nonneg_nonneg; nia].
    apply Z.mul_nonneg_nonneg; [|apply Z.mul_nonneg_nonneg]; lia. }
  assert (f 0 = C * C * N) as Hf0 by (unfold f; ring). rewrite <-Hf0 in H0.
  fold (f E) in H1. change (L <= c * f e). clearbody f. clear Hf0 Hc.
  apply (Z.mul_le_mono_pos_l _ _ E); [lia|].
  replace (E * (c * f e)) with (c * (E * f e)) by ring. rewrite Hf. nia.
Qed.
End Line.

(** What is used of an entry of the table: index [2 (n - 8) + odd] serves the
    arguments [n 2^28 <= a < (n + 1) 2^28]. *)
Definition entry_ok (i : nat) : bool :=
  let n := 8 + Z.of_nat i / 2 in
  let c := 2 - Z.of_nat i mod 2 in
  let k0 := nth i softfloat_approxRecipSqrt_1k0s 0 in
  let k1 := nth i softfloat_approxRecipSqrt_1k1s 0 in
  let C0 := k0 * 2 ^ 20 in
  let N0 := n * 2 ^ 28 in
  let M := 4096 * (C0 + 2 ^ 20) + k1 * (N0 + 4095) in
  let L := (if (i =? 14)%nat then 9991 else 9972) * 2 ^ 103 in
  let N1 := N0 + 4096 * 65535 in
  let C1 := C0 - k1 * 65535 in
  (k0 <? 65536) && (0 <? k1) && (2 ^ 34 <=? C1) && (c * (M * (M * M)) <? 27 * (2048 * 2048) * k1 * 2 ^ 103)
  && (k1 * (N0 + 8192 * 65535) <=? 8192 * C0)
  && (L <=? 10000 * (c * (C0 * C0 * N0))) && (L <=? 10000 * (c * (C1 * C1 * N1))).

Lemma entries_ok : forallb entry_ok (seq 0 16) = true.
Proof. by vm_compute. Qed.

Lemma entry i : (i < 16)%nat -> entry_ok i = true.
Proof. intros Hi. pose proof entries_ok as H. rewrite forallb_forall in H. apply H, in_seq. lia. Qed.

(** The linear approximation as a fraction of [2 ^ 16]: [c r0^2 a 2^-63], which is
    one minus the relative error, is at most one and close to it. *)
Lemma linear_bounds i eps a :
  (i < 16)%nat -> 0 <= eps < 65536 ->
  let n := 8 + Z.of_nat i / 2 in
  let c := 2 - Z.of_nat i mod 2 in
  let r0 := nth i softfloat_approxRecipSqrt_1k0s 0 - nth i softfloat_approxRecipSqrt_1k1s 0 * eps / 2 ^ 20 in
  n * 2 ^ 28 + 4096 * eps <= a <= n * 2 ^ 28 + 4096 * eps + 4095 ->
  2 ^ 14 <= r0 < 2 ^ 16 /\ r0 <= nth i softfloat_approxRecipSqrt_1k0s 0 /\
  c * (r0 * r0) * a < 2 ^ 63 /\
  (if (i =? 14)%nat then 9991 else 9972) * 2 ^ 63 <= 10000 * (c * (r0 * r0) * a).
Proof.
  intros Hi He n c r0 Ha. pose proof (entry i Hi) as Hok. unfold entry_ok in Hok. fold n c in Hok.
  cbv zeta in Hok. set (k0 := nth i softfloat_approxRecipSqrt_1k0s 0) in *.
  set (k1 := nth i softfloat_approxRecipSqrt_1k1s 0) in *. set (b := if (i =? 14)%nat then 9991 else 9972) in *.
  rewrite !andb_true_iff, !Z.ltb_lt, !Z.leb_le in Hok. destruct Hok as [[[[[[H1 H2] H3] H4] H5] H6] H7].
  assert (1 <= c <= 2) as Hc by (unfold c; divlia). assert (8 <= n) as Hn by (unfold n; divlia).
  clearbody c n b k0 k1.
  pose proof (Z.div_mod (k1 * eps) (2 ^ 20) ltac:(lia)) as Hd.
  pose proof (Z.mod_pos_bound (k1 * eps) (2 ^ 20) ltac:(lia)) as Hm.
  assert (0 <= k1 * eps <= k1 * 65535) as Hke by nia.
  assert (k0 * 2 ^ 20 - k1 * eps <= r0 * 2 ^ 20 < k0 * 2 ^ 20 + 2 ^ 20 - k1 * eps) as Hr0 by (unfold r0; lia).
  assert (0 <= k1 * eps / 2 ^ 20) by (apply Z.div_pos; lia).
  assert (r0 <= k0) by (unfold r0; lia). clearbody r0. clear Hd Hm.
  assert (c * ((k0 * 2 ^ 20 + 2 ^ 20 - k1 * eps) * (k0 * 2 ^ 20 + 2 ^ 20 - k1 * eps)
      * (n * 2 ^ 28 + 4095 + 4096 * eps)) < 2 ^ 103) as Hup by (apply line_above; lia).
  assert (b * 2 ^ 103 <= 10000 * c * ((k0 * 2 ^ 20 - k1 * eps) * (k0 * 2 ^ 20 - k1 * eps)
      * (n * 2 ^ 28 + 4096 * eps))) as Hlo by (apply line_below with (E := 65535); lia).
  split_and!; [lia..| |].
  - apply (Z.mul_lt_mono_pos_r (2 ^ 40)); [lia|]. change (2 ^ 63 * 2 ^ 40) with (2 ^ 103).
    apply Z.le_lt_trans with (2 := Hup).
    replace (c * (r0 * r0) * a * 2 ^ 40) with (c * ((r0 * 2 ^ 20) * (r0 * 2 ^ 20) * a)) by ring.
    apply Z.mul_le_mono_nonneg_l; [lia|]. apply square_mono; lia.
  - apply (Z.mul_le_mono_pos_r _ _ (2 ^ 40)); [lia|]. replace (b * 2 ^ 63 * 2 ^ 40) with (b * 2 ^ 103) by ring.
    apply Z.le_trans with (1 := Hlo).
    replace (10000 * (c * (r0 * r0) * a) * 2 ^ 40) with (10000 * c * ((r0 * 2 ^ 20) * (r0 * 2 ^ 20) * a)) by ring.
    apply Z.mul_le_mono_nonneg_l; [lia|]. apply square_mono; lia.
Qed.

(** ** The step of Newton's method *)

Open Scope R_scope.

(** The series of [1 / sqrt (1 - s)], cut after the third term, is below it, and
    close. *)
Definition series (s : R) : R := 1 + s / 2 + 3 / 8 * s * s + 5 / 16 * s * s * s.

Lemma series_below s : 0 <= s <= 1 / 100 -> series s * series s * (1 - s) <= 1.
Proof.
  intros Hs. assert (1 - series s * series s * (1 - s)
    = s * s * s * s * (35 / 64 + 7 / 32 * s + 35 / 256 * s * s + 25 / 256 * s * s * s)) as E
    by (unfold series; field).
  assert (0 <= s * s * s * s * (35 / 64 + 7 / 32 * s + 35 / 256 * s * s + 25 / 256 * s * s * s)); [|lra].
  apply Rmult_le_pos; [|nra]. repeat (apply Rmult_le_pos; [|lra]). lra.
Qed.

Lemma series_close s :
  0 <= s <= 3 / 1000 ->
  let p := series s + 11 / 40 * s * s * s * s in 1 <= p * p * (1 - s).
Proof.
  intros Hs p. set (q := series s).
  assert (1 - q * q * (1 - s) = s * s * s * s * (35 / 64 + 7 / 32 * s + 35 / 256 * s * s + 25 / 256 * s * s * s)) as E
    by (unfold q, series; field).
  set (w := s * s * s * s) in *.
  assert (0 <= w) as Hw by (unfold w; repeat (apply Rmult_le_pos; [|lra]); lra).
  replace (p * p * (1 - s)) with (q * q * (1 - s) + w * (11 / 20 * q * (1 - s) + 121 / 1600 * w * (1 - s)))
    by (unfold p; fold q; unfold w; field).
  assert (1 + s / 2 <= q) as Hq by (unfold q, series; nra).
  assert (35 / 64 + 7 / 32 * s + 35 / 256 * s * s + 25 / 256 * s * s * s <= 11 / 20 * q * (1 - s) + 121 / 1600 * w * (1 - s)) as Hc.
  { assert (0 <= w * (1 - s)) by nra. assert (11 / 20 * ((1 + s / 2) * (1 - s)) <= 11 / 20 * q * (1 - s)) by nra. nra. }
  nra.
Qed.

(** The integers of the code, with [Y] for the linear approximation and [s] for
    its error: the result is below the series, by less than two and a bit. *)
Lemma newton_below Y s u q r1 h r :
  0 < Y -> 0 <= s <= 3 / 1000 -> 0 <= u < s -> 0 <= q <= u * u ->
  r1 <= Y + Y * u / 2 -> 0 <= h <= 5 / 8 * r1 - Y / 4 -> r <= r1 + h * q ->
  r < Y * series s.
Proof.
  intros HY Hs Hu Hq H1 Hh Hr. set (h' := Y * (3 / 8 + 5 / 16 * s)).
  assert (h <= h') as Hhh by (unfold h'; nra).
  assert (q <= s * s) by nra.
  assert (h * q <= h' * (s * s)) by (apply Rmult_le_compat; lra).
  assert (Y * u < Y * s) by nra. replace (Y * series s) with (Y + Y * s / 2 + h' * (s * s)) by (unfold h', series; field).
  lra.
Qed.

Lemma newton_above Y s u q r1 h r :
  0 < Y <= 4294967296 -> 0 <= s <= 3 / 1000 -> 0 <= u < s -> s - / 1099511627776 <= u -> 0 <= q <= u * u ->
  u * u - / 281474976710656 <= q -> 0 <= h ->
  Y + Y * u / 2 - 1 <= r1 -> 5 / 8 * r1 - 2 - Y / 4 <= h -> r1 + h * q - 1 <= r ->
  Y * series s - 2 - Y * / 2199023255552 - 7 / 100000 <= r.
Proof.
  intros HY Hs Hu Hus Hq Huq Hh0 H1 Hh Hr. set (h' := Y * (3 / 8 + 5 / 16 * s)).
  assert (h' - 3 <= h) as Hhh by (unfold h'; nra).
  assert (s * s - s * / 549755813888 - / 281474976710656 <= q) as Hqs.
  { assert (s * s - s * / 549755813888 <= u * u); [|lra]. destruct (Rle_dec s (/ 1099511627776)); nra. }
  assert (0 <= h' <= Y * (2 / 5)) as Hh' by (unfold h'; split; nra).
  assert (h' * (s * s) - 6 / 100000 <= h * q) as Hp.
  { assert (h' * (s * s) - h' * (s * / 549755813888 + / 281474976710656) <= h' * q) by nra.
    assert (h' * (s * / 549755813888 + / 281474976710656) <= 2 / 100000).
    { apply Rle_trans with (4294967296 * (2 / 5) * (3 / 1000 * / 549755813888 + / 281474976710656)); [|lra].
      apply Rmult_le_compat; lra. }
    assert (h' * q - 3 * q <= h * q) by nra. assert (q <= 1 / 100000) by nra. lra. }
  assert (Y * (s - / 1099511627776) <= Y * u) by nra.
  replace (Y * series s) with (Y + Y * s / 2 + h' * (s * s)) by (unfold h', series; field).
  lra.
Qed.

Lemma sqrt_scale (Y s A p : R) :
  0 < Y -> 0 <= p -> 0 < A -> Y * Y * A = 18446744073709551616 * (1 - s) ->
  (p * p * (1 - s) <= 1 -> Y * p * sqrt A <= 4294967296) /\
  (1 <= p * p * (1 - s) -> 4294967296 <= Y * p * sqrt A).
Proof.
  intros HY Hp HA HYA. set (x := Y * p * sqrt A).
  assert (0 <= x) as Hx by (unfold x; pose proof (sqrt_pos A); apply Rmult_le_pos; [nra|done]).
  assert (x * x = 18446744073709551616 * (p * p * (1 - s))) as Hxx.
  { unfold x. replace (Y * p * sqrt A * (Y * p * sqrt A)) with (p * p * (Y * Y * (sqrt A * sqrt A))) by ring.
    rewrite sqrt_sqrt, HYA by lra. ring. }
  split; intros; nra.
Qed.

Open Scope Z_scope.

Lemma index_value a odd :
  0 <= odd <= 1 -> 2 ^ 31 <= a < 2 ^ 32 ->
  Z.land (Z.shiftr a 27) 14 + odd = 2 * (a / 2 ^ 28 - 8) + odd.
Proof.
  intros Ho Ha. rewrite Z.shiftr_div_pow2 by lia. change 14 with (7 * 2 ^ 1). rewrite land_high by lia.
  change 7 with (2 ^ 3 - 1). rewrite land_ones_mod by lia. divlia.
Qed.

(** The bounds of the linear approximation, by the arguments of the code. *)
Lemma linear_bounds_code odd a :
  0 <= odd <= 1 -> 2 ^ 31 <= a < 2 ^ 32 ->
  let index := Z.land (Z.shiftr a 27) 14 + odd in
  let eps := u16 (Z.shiftr a 12) in
  let r0 := u16 (nth (Z.to_nat index) softfloat_approxRecipSqrt_1k0s 0
                 - Z.shiftr (nth (Z.to_nat index) softfloat_approxRecipSqrt_1k1s 0 * eps) 20) in
  let E := (2 - odd) * (r0 * r0) in
  2 ^ 14 <= r0 < 2 ^ 16 /\ E * a < 2 ^ 63 /\ 9972 * 2 ^ 63 <= 10000 * (E * a) /\
  (odd = 0 -> 15 * 2 ^ 28 <= a -> r0 <= 33828 /\ 9991 * 2 ^ 63 <= 10000 * (E * a)).
Proof.
  intros Ho Ha index eps r0 E.
  assert (index = 2 * (a / 2 ^ 28 - 8) + odd) as Hix by (apply index_value; lia).
  assert (8 <= a / 2 ^ 28 < 16) as Hn by divlia.
  assert (eps = (a / 2 ^ 12) mod 65536) as He by (unfold eps, u16; by rewrite Z.shiftr_div_pow2 by lia).
  set (i := Z.to_nat index) in *. assert (Z.of_nat i = index) as Hi by (unfold i; rewrite Z2Nat.id; lia).
  assert (Z.of_nat i / 2 = a / 2 ^ 28 - 8) as Hi2 by (rewrite Hi, Hix; divlia).
  assert (Z.of_nat i mod 2 = odd) as Him by (rewrite Hi, Hix; divlia).
  pose proof (linear_bounds i eps a ltac:(lia) ltac:(rewrite He; divlia)) as Hl. cbv zeta in Hl.
  rewrite Hi2, Him in Hl. destruct Hl as (Hr & Hk0 & Hup & Hlo).
  { replace (8 + (a / 2 ^ 28 - 8)) with (a / 2 ^ 28) by lia. rewrite He. divlia. }
  rewrite <-Z.shiftr_div_pow2 in Hr, Hk0, Hup, Hlo by lia.
  set (r0' := nth i softfloat_approxRecipSqrt_1k0s 0 - _) in *.
  assert (r0 = r0') as Hr0 by (unfold r0, u16; apply Z.mod_small; unfold r0' in *; lia).
  unfold E. rewrite Hr0. clearbody r0'. clear Hr0 E r0.
  split; [done|]. split; [lia|]. split; [destruct (i =? 14)%nat; lia|].
  intros -> Ha15. assert (i = 14%nat) as Hi14.
  { assert (a / 2 ^ 28 = 15) by divlia. lia. }
  clearbody i. subst i. cbn [Nat.eqb] in Hlo. split; [exact Hk0|lia].
Qed.

(** An integer quotient as a real number. *)
Lemma quotient_real a n : 0 <= n -> (IZR (a / 2 ^ n) <= IZR a / IZR (2 ^ n) < IZR (a / 2 ^ n) + 1)%R.
Proof.
  intros Hn. pose proof (Z.pow_pos_nonneg 2 n ltac:(lia) Hn) as Hp. pose proof (Z.div_mod a (2 ^ n) ltac:(lia)).
  pose proof (Z.mod_pos_bound a (2 ^ n) Hp). assert (0 < IZR (2 ^ n))%R by (by apply IZR_lt).
  rewrite <-plus_IZR.
  split; [apply Rmult_le_reg_r with (IZR (2 ^ n))|apply Rmult_lt_reg_r with (IZR (2 ^ n))]; try done;
    unfold Rdiv; rewrite Rmult_assoc, Rinv_l, Rmult_1_r, <-mult_IZR by lra; [apply IZR_le|apply IZR_lt]; lia.
Qed.

(** What the integer operations after the table lookup compute: [s] is the error
    of the linear approximation [r0], [2 ^ (-40) s0] the one the code finds. *)
Section Step.
Context (E r0 a : Z) (r0_range : 2 ^ 14 <= r0 < 2 ^ 16) (Ea_lt : E * a < 2 ^ 63)
  (Ea_ge : 9972 * 2 ^ 63 <= 10000 * (E * a)) (a_range : 2 ^ 31 <= a < 2 ^ 32).

Let s0 := u32 (Z.lnot (Z.shiftr (u64 (u32 E * a)) 23)).
Let r1 := Z.shiftl r0 16 + Z.shiftr (u64 (r0 * s0)) 25.
Let sq := u32 (Z.shiftr (u64 (s0 * s0)) 32).
Let h := u32 (Z.shiftr r1 1 + Z.shiftr r1 3 - Z.shiftl r0 14).
Let r2 := u64 (r1 + Z.shiftr (u64 (h * sq)) 48).

Let s := (1 - IZR (E * a) / 9223372036854775808)%R.
Let Y := (IZR r0 * 65536)%R.

Lemma step_sigma0 : s0 = 2 ^ 40 - 1 - E * a / 2 ^ 23 /\ 0 <= s0 < 2 ^ 32.
Proof.
  assert (0 < E * a) by lia. assert (0 < E < 2 ^ 32) by nia.
  assert (2 ^ 40 - 2 ^ 32 <= E * a / 2 ^ 23 < 2 ^ 40) as Hf.
  { split; [apply Z.div_le_lower_bound|apply Z.div_lt_upper_bound]; lia. }
  unfold s0. rewrite (u32_id E), u64_id, Z.shiftr_div_pow2 by lia. set (f := E * a / 2 ^ 23) in *. clearbody f.
  assert (u32 (Z.lnot f) = 2 ^ 40 - 1 - f) as ->; [|lia].
  unfold u32. symmetry. apply Z.mod_unique with (- 256); unfold Z.lnot; lia.
Qed.

Lemma step_values :
  r1 = r0 * 2 ^ 16 + r0 * s0 / 2 ^ 25 /\ sq = s0 * s0 / 2 ^ 32 /\ 0 <= sq < 2 ^ 32 /\
  h = r1 / 2 ^ 1 + r1 / 2 ^ 3 - r0 * 2 ^ 14 /\ 0 <= h < 2 ^ 32 /\ r2 = r1 + h * sq / 2 ^ 48.
Proof.
  destruct step_sigma0 as [_ Hs0]. clearbody s0.
  assert (0 <= r0 * s0 < 2 ^ 48) as Hrs by nia. assert (0 <= s0 * s0 < 2 ^ 64) as Hss by nia.
  assert (r1 = r0 * 2 ^ 16 + r0 * s0 / 2 ^ 25) as H1.
  { unfold r1. by rewrite u64_id, Z.shiftl_mul_pow2, Z.shiftr_div_pow2 by lia. }
  assert (sq = s0 * s0 / 2 ^ 32 /\ 0 <= sq < 2 ^ 32) as [H2 H3].
  { unfold sq. rewrite u64_id, Z.shiftr_div_pow2 by lia. rewrite u32_id by divlia. split; [done|divlia]. }
  assert (0 <= r0 * s0 / 2 ^ 25 < 2 ^ 23) as Hq by divlia.
  assert (h = r1 / 2 ^ 1 + r1 / 2 ^ 3 - r0 * 2 ^ 14 /\ 0 <= h < 2 ^ 32) as [H4 H5].
  { unfold h. rewrite !Z.shiftr_div_pow2, Z.shiftl_mul_pow2 by lia. clearbody r1.
    rewrite u32_id by (subst r1; divlia). split; [done|]. subst r1. divlia. }
  split_and!; try done; try lia. unfold r2. assert (0 <= h * sq < 2 ^ 64) as Hhq by nia. rewrite (u64_id (h * sq)), Z.shiftr_div_pow2 by lia.
  apply u64_id. assert (0 <= h * sq / 2 ^ 48 < 2 ^ 16) by divlia. lia.
Qed.

Lemma step_bounds :
  (0 < s <= 28 / 10000)%R /\
  (Y * series s - 2 - Y * / 2199023255552 - 7 / 100000 <= IZR r2 < Y * series s)%R.
Proof.
  destruct step_sigma0 as [Hs0 Hs0r]. destruct step_values as (H1 & H2 & H3 & H4 & H5 & H6).
  assert (0 < s <= 28 / 10000)%R as Hs.
  { unfold s. apply IZR_lt in Ea_lt. apply IZR_le in Ea_ge. rewrite !mult_IZR in Ea_ge.
    rewrite mult_IZR in *. change (IZR (2 ^ 63)) with 9223372036854775808%R in *. lra. }
  split; [done|]. set (u := (IZR s0 / 1099511627776)%R). set (q := (IZR sq / 281474976710656)%R).
  assert (0 < Y <= 4294967296)%R as HY.
  { unfold Y. assert (IZR (2 ^ 14) <= IZR r0 <= IZR (2 ^ 16))%R by (split; apply IZR_le; lia).
    change (IZR (2 ^ 14)) with 16384%R in *. change (IZR (2 ^ 16)) with 65536%R in *. lra. }
  pose proof (quotient_real (E * a) 23 ltac:(lia)) as Q0. pose proof (quotient_real (r0 * s0) 25 ltac:(lia)) as Q1.
  pose proof (quotient_real (s0 * s0) 32 ltac:(lia)) as Q2. pose proof (quotient_real r1 1 ltac:(lia)) as Q3.
  pose proof (quotient_real r1 3 ltac:(lia)) as Q4. pose proof (quotient_real (h * sq) 48 ltac:(lia)) as Q5.
  apply (f_equal IZR) in Hs0, H1, H2, H4, H6. rewrite <-H2 in Q2.
  rewrite !minus_IZR in Hs0. rewrite plus_IZR, mult_IZR in H1. rewrite minus_IZR, plus_IZR, mult_IZR in H4. rewrite plus_IZR in H6.
  rewrite (mult_IZR r0 s0) in Q1. rewrite (mult_IZR s0 s0) in Q2. rewrite (mult_IZR h sq) in Q5.
  assert (0 <= IZR s0)%R by (apply IZR_le; lia). assert (0 <= IZR sq)%R by (apply IZR_le; lia).
  assert (0 <= IZR h)%R by (apply IZR_le; lia).
  assert (s - / 1099511627776 <= u < s)%R as Hu.
  { unfold s, u. change (IZR (2 ^ 23)) with 8388608%R in *. change (IZR (2 ^ 40)) with 1099511627776%R in *. lra. }
  assert (0 <= u)%R as Hu0 by (unfold u; lra).
  assert (0 <= q <= u * u /\ u * u - / 281474976710656 <= q)%R as [Hq Hq'].
  { unfold q, u. change (IZR (2 ^ 32)) with 4294967296%R in *.
    replace (IZR s0 / 1099511627776 * (IZR s0 / 1099511627776))%R
      with (IZR s0 * IZR s0 / 4294967296 / 281474976710656)%R by field. lra. }
  assert (IZR r0 * IZR s0 / IZR (2 ^ 25) = Y * u / 2)%R as E1.
  { unfold Y, u. change (IZR (2 ^ 25)) with 33554432%R. field. }
  assert (IZR h * IZR sq / IZR (2 ^ 48) = IZR h * q)%R as E2.
  { unfold q. change (IZR (2 ^ 48)) with 281474976710656%R. field. }
  change (IZR (2 ^ 16)) with 65536%R in *. change (IZR (2 ^ 14)) with 16384%R in *.
  change (IZR (2 ^ 1)) with 2%R in *. change (IZR (2 ^ 3)) with 8%R in *. fold Y in H1.
  assert (IZR r0 * 16384 = Y / 4)%R as E3 by (unfold Y; field). rewrite E1 in Q1. rewrite E2 in Q5. rewrite E3 in H4.
  clearbody Y u q s. split.
  - apply (newton_above Y s u q (IZR r1) (IZR h)); lra.
  - apply (newton_below Y s u q (IZR r1) (IZR h)); lra.
Qed.
End Step.

(** The approximation [r 2^-32] of [1 / sqrt A], for [A] between 1 and 4, is too
    small, by at most [d 2^-32]. *)
Definition rsqrt_within (A : R) (r : Z) (d : R) : Prop :=
  (IZR r * sqrt A < 4294967296 <= (IZR r + d) * sqrt A)%R.

Lemma step_within E r0 a r2 d :
  2 ^ 14 <= r0 < 2 ^ 16 -> E = r0 * r0 \/ E = 2 * (r0 * r0) ->
  let A := (IZR (E / (r0 * r0)) * IZR a / 2147483648)%R in
  let s := (1 - IZR (E * a) / 9223372036854775808)%R in
  let Y := (IZR r0 * 65536)%R in
  (1 <= A < 4)%R -> (0 < s <= 28 / 10000)%R ->
  (Y * series s - 2 - Y * / 2199023255552 - 7 / 100000 <= IZR r2 < Y * series s)%R ->
  (2 + Y * / 2199023255552 + 7 / 100000 + Y * (11 / 40 * s * s * s * s) <= d)%R ->
  rsqrt_within A r2 d.
Proof.
  intros Hr0 HE A s Y HA Hs Hr Hd.
  assert (0 < IZR r0)%R as Hr0p by (apply IZR_lt; lia). assert (0 < Y)%R as HY by (unfold Y; lra).
  assert (E = E / (r0 * r0) * (r0 * r0)) as HEr.
  { destruct HE as [->| ->]; [rewrite Z.div_same by nia; lia|rewrite Z.div_mul by nia; done]. }
  assert (Y * Y * A = 18446744073709551616 * (1 - s))%R as HYA.
  { unfold s. rewrite HEr, !mult_IZR. unfold Y, A. field. }
  assert (1 <= sqrt A < 2)%R as HS.
  { split; [rewrite <-sqrt_1; apply sqrt_le_1; lra|]. replace 2%R with (sqrt 4); [apply sqrt_lt_1; lra|].
    replace 4%R with (2 * 2)%R by lra. apply sqrt_square. lra. }
  assert (1 <= series s)%R as Hp1 by (unfold series; nra). clearbody A s Y.
  pose proof (sqrt_scale Y s A (series s) HY ltac:(lra) ltac:(lra) HYA) as [Hup _].
  specialize (Hup (series_below s ltac:(lra))).
  assert (0 <= 11 / 40 * s * s * s * s)%R as Hw by (repeat (apply Rmult_le_pos; [|lra]); lra).
  pose proof (sqrt_scale Y s A (series s + 11 / 40 * s * s * s * s) HY ltac:(lra) ltac:(lra) HYA) as [_ Hlo].
  specialize (Hlo (series_close s ltac:(lra))). split.
  - apply Rlt_le_trans with (2 := Hup). apply Rmult_lt_compat_r; lra.
  - apply Rle_trans with (1 := Hlo). apply Rmult_le_compat_r; lra.
Qed.

(** The last line of the code: the result has its leading bit. *)
Lemma step_clamp A r2 d :
  (1 <= A < 4)%R -> 0 <= r2 -> rsqrt_within A r2 d -> (d <= 3)%R ->
  let r := if Z.land r2 0x80000000 =? 0 then 0x80000000 else u32 r2 in
  r = Z.max r2 (2 ^ 31) /\ 2 ^ 31 <= r < 2 ^ 32 /\ forall d', rsqrt_within A r2 d' -> rsqrt_within A r d'.
Proof.
  intros HA Hr0 [H1 H2] Hd r.
  assert (1 <= sqrt A < 2)%R as HS.
  { split; [rewrite <-sqrt_1; apply sqrt_le_1; lra|]. replace 2%R with (sqrt 4); [apply sqrt_lt_1; lra|].
    replace 4%R with (2 * 2)%R by lra. apply sqrt_square. lra. }
  apply IZR_le in Hr0. assert (r2 < 2 ^ 32) as Hlt by (apply lt_IZR; change (IZR (2 ^ 32)) with 4294967296%R; nra).
  apply le_IZR in Hr0.
  assert (r = Z.max r2 (2 ^ 31)) as Hr.
  { unfold r. change 2147483648 with (1 * 2 ^ 31). rewrite land_high by lia. change 1 with (2 ^ 1 - 1) at 1.
    rewrite land_ones_mod, u32_id by lia. destruct (Z.eqb_spec ((r2 / 2 ^ 31) mod 2 ^ 1 * 2 ^ 31) 0); divlia. }
  split; [done|]. split; [lia|]. intros d' [H3 H4]. split.
  - rewrite Hr. destruct (Z.max_spec r2 (2 ^ 31)) as [[? ->]|[? ->]]; [|done].
    change (IZR (2 ^ 31)) with 2147483648%R. lra.
  - apply Rle_trans with (1 := H4). apply Rmult_le_compat_r; [lra|].
    apply Rplus_le_compat_r, IZR_le. lia.
Qed.

Lemma approxRecipSqrt_within odd a :
  0 <= odd <= 1 -> 2 ^ 31 <= a < 2 ^ 32 ->
  let A := (IZR (2 - odd) * IZR a / 2147483648)%R in
  let r := softfloat_approxRecipSqrt32_1 odd a in
  2 ^ 31 <= r < 2 ^ 32 /\ rsqrt_within A r (21 / 10) /\
  (odd = 0 -> 15 * 2 ^ 28 <= a -> rsqrt_within A r (20015 / 10000)).
Proof.
  intros Ho Ha A r. pose proof (linear_bounds_code odd a Ho Ha) as Hl. cbv zeta in Hl.
  unfold r, softfloat_approxRecipSqrt32_1. cbv zeta.
  set (r0 := u16 _) in *. destruct Hl as (Hr0 & HE1 & HE2 & Htop).
  assert ((if odd =? 0 then Z.shiftl (r0 * r0) 1 else r0 * r0) = (2 - odd) * (r0 * r0)) as HEc.
  { rewrite Z.shiftl_mul_pow2 by lia. destruct (Z.eqb_spec odd 0); [subst; lia|]. replace odd with 1 by lia. lia. }
  rewrite HEc. set (E := (2 - odd) * (r0 * r0)) in *.
  pose proof (step_bounds E r0 a Hr0 HE1 HE2 Ha) as [Hs Hr]. cbv zeta in Hs, Hr.
  set (r2 := u64 _) in *.
  assert (E / (r0 * r0) = 2 - odd) as HEd by (unfold E; apply Z.div_mul; nia).
  assert (E = r0 * r0 \/ E = 2 * (r0 * r0)) as HE by (unfold E; assert (odd = 0 \/ odd = 1) as [->| ->] by lia; [right|left]; lia).
  assert (1 <= A < 4)%R as HA.
  { unfold A. assert (IZR (2 ^ 31) <= IZR a <= IZR (2 ^ 32 - 1))%R by (split; apply IZR_le; lia).
    change (IZR (2 ^ 31)) with 2147483648%R in *. change (IZR (2 ^ 32 - 1)) with 4294967295%R in *.
    assert (odd = 0 \/ odd = 1) as [->| ->] by lia; [change (IZR (2 - 0)) with 2%R|change (IZR (2 - 1)) with 1%R]; lra. }
  pose proof (fun d => step_within E r0 a r2 d Hr0 HE) as Hw. cbv zeta in Hw. rewrite HEd in Hw. fold A in Hw.
  specialize (fun d => Hw d HA Hs Hr).
  set (s := (1 - IZR (E * a) / 9223372036854775808)%R) in *. set (Y := (IZR r0 * 65536)%R) in *.
  assert (IZR (2 ^ 14) <= IZR r0 <= IZR (2 ^ 16))%R as Hr0R by (split; apply IZR_le; lia).
  change (IZR (2 ^ 14)) with 16384%R in Hr0R. change (IZR (2 ^ 16)) with 65536%R in Hr0R.
  assert (forall b, s <= b -> 11 / 40 * s * s * s * s <= 11 / 40 * b * b * b * b)%R as Hs4.
  { intros b Hsb. repeat (apply Rmult_le_compat; try lra; try (repeat (apply Rmult_le_pos; [|lra]); lra)). }
  assert (0 <= 11 / 40 * s * s * s * s)%R as Hs0 by (repeat (apply Rmult_le_pos; [|lra]); lra).
  assert (rsqrt_within A r2 (21 / 10)) as H21.
  { apply Hw. specialize (Hs4 (28 / 10000)%R ltac:(lra)).
    assert (Y * (11 / 40 * s * s * s * s) <= 4294967296 * (11 / 40 * (28 / 10000) * (28 / 10000) * (28 / 10000) * (28 / 10000)))%R
      by (apply Rmult_le_compat; unfold Y in *; lra).
    unfold Y in *. lra. }
  destruct (step_clamp A r2 (21 / 10) HA) as (_ & Hrange & Hmono); [unfold r2, u64; divlia|done|lra|].
  split; [done|]. split; [by apply Hmono|]. intros -> Ha15. destruct (Htop eq_refl Ha15) as [Hk0 HE3].
  apply Hmono, Hw. assert (s <= 9 / 10000)%R as Hs9.
  { unfold s. apply IZR_le in HE3. rewrite (mult_IZR 10000), (mult_IZR 9991) in HE3.
    change (IZR (2 ^ 63)) with 9223372036854775808%R in HE3. lra. }
  specialize (Hs4 (9 / 10000)%R Hs9). apply IZR_le in Hk0.
  assert (Y * (11 / 40 * s * s * s * s) <= 33828 * 65536 * (11 / 40 * (9 / 10000) * (9 / 10000) * (9 / 10000) * (9 / 10000)))%R
    by (apply Rmult_le_compat; unfold Y in *; lra).
  unfold Y in *. lra.
Qed.
