(* ===== verification/SoftSqrt.v ===== *)
(** * SoftFloat: square roots

    f32_sqrt.c and f64_sqrt.c.  The root is estimated from the approximate
    reciprocal square root; an estimate too close to a value where rounding
    changes is compared with the root by its square. *)

From Stdlib Require Import ZArith Lia Reals Lra.
From stdpp Require Import base tactics list numbers.
From S2P Require Import Prelude Ieee SoftFloat SoftRound SoftMul SoftCompare SoftRsqrt.

(** The significand of the root, [expA] the last bit of the exponent. *)
Definition f32_sqrt_sig (expA sigA : Z) : Z :=
  let sigZ := Z.shiftr (u64 (sigA * softfloat_approxRecipSqrt32_1 expA sigA)) 32 in
  let sigZ := if negb (expA =? 0) then Z.shiftr sigZ 1 else sigZ in
  let sigZ := sigZ + 2 in
  if Z.land sigZ 0x3F <? 2 then
    let shiftedSigZ := Z.shiftr sigZ 2 in
    let negRem := u32 (shiftedSigZ * shiftedSigZ) in
    let sigZ := Z.land sigZ (Z.lnot 3) in
    if negb (Z.land negRem 0x80000000 =? 0) then Z.lor sigZ 1
    else if negb (negRem =? 0) then sigZ - 1 else sigZ
  else sigZ.

Definition f32_sqrt (a : Z) (st : softfloat_state) : Z * softfloat_state :=
  let signA := signF32UI a in
  let expA := expF32UI a in
  let sigA := fracF32UI a in
  let invalid := (u32 defaultNaNF32UI, softfloat_raiseFlags softfloat_flag_invalid st) in
  if expA =? 0xFF then
    if negb (sigA =? 0) then let '(uiZ, st) := softfloat_propagateNaNF32UI a 0 st in (u32 uiZ, st)
    else if negb signA then (a, st) else invalid
  else if signA then
    if Z.lor expA sigA =? 0 then (a, st) else invalid
  else if (expA =? 0) && (sigA =? 0) then (a, st)
  else
    let norm := if expA =? 0 then softfloat_normSubnormalF32Sig sigA else ExpSig32 expA sigA in
    let expA := exp32 norm in
    let expZ := Z.shiftr (expA - 0x7F) 1 + 0x7E in
    let expA := Z.land expA 1 in
    let sigA := u64 (Z.shiftl (Z.lor (sig32 norm) 0x00800000) 8) in
    softfloat_roundPackToF32 false expZ (f32_sqrt_sig expA sigA) st.

Definition f64_sqrt_sig (expA sigA : Z) : Z :=
  let sig32A := u32 (Z.shiftr sigA 21) in
  let recipSqrt32 := softfloat_approxRecipSqrt32_1 expA sig32A in
  let sig32Z := u32 (Z.shiftr (u64 (sig32A * recipSqrt32)) 32) in
  let '(sigA, sig32Z) :=
    if negb (expA =? 0) then (u64 (Z.shiftl sigA 8), Z.shiftr sig32Z 1)
    else (u64 (Z.shiftl sigA 9), sig32Z) in
  let rem := u64 (sigA - u64 (sig32Z * sig32Z)) in
  let q := u32 (Z.shiftr (u64 (u32 (Z.shiftr rem 2) * recipSqrt32)) 32) in
  let sigZ := u64 (Z.lor (u64 (Z.shiftl sig32Z 32)) (Z.shiftl 1 5) + u64 (Z.shiftl q 3)) in
  if Z.land sigZ 0x1FF <? 0x22 then
    let sigZ := Z.land sigZ (Z.lnot 0x3F) in
    let shiftedSigZ := Z.shiftr sigZ 6 in
    let rem := u64 (u64 (Z.shiftl sigA 52) - u64 (shiftedSigZ * shiftedSigZ)) in
    if negb (Z.land rem 0x8000000000000000 =? 0) then sigZ - 1
    else if negb (rem =? 0) then Z.lor sigZ 1 else sigZ
  else sigZ.

Definition f64_sqrt (a : Z) (st : softfloat_state) : Z * softfloat_state :=
  let signA := signF64UI a in
  let expA := expF64UI a in
  let sigA := fracF64UI a in
  let invalid := (u64 defaultNaNF64UI, softfloat_raiseFlags softfloat_flag_invalid st) in
  if expA =? 0x7FF then
    if negb (sigA =? 0) then let '(uiZ, st) := softfloat_propagateNaNF64UI a 0 st in (u64 uiZ, st)
    else if negb signA then (a, st) else invalid
  else if signA then
    if Z.lor expA sigA =? 0 then (a, st) else invalid
  else if (expA =? 0) && (sigA =? 0) then (a, st)
  else
    let norm := if expA =? 0 then softfloat_normSubnormalF64Sig sigA else ExpSig64 expA sigA in
    let expA := exp64 norm in
    let expZ := Z.shiftr (expA - 0x3FF) 1 + 0x3FE in
    let expA := Z.land expA 1 in
    let sigA := Z.lor (sig64 norm) 0x0010000000000000 in
    softfloat_roundPackToF64 false expZ (f64_sqrt_sig expA sigA) st.

Example sqrt_2_f32 : f32_sqrt 0x40000000 init_state = (0x3FB504F3, softfloat_raiseFlags 1 init_state).
Proof. by vm_compute. Qed.
Example sqrt_2_f64 : f64_sqrt 0x4000000000000000 init_state = (0x3FF6A09E667F3BCD, softfloat_raiseFlags 1 init_state).
Proof. by vm_compute. Qed.

(** ** What they should give *)

Definition ieee_sqrt (F : format) (m : mode) (a u fl : Z) : Prop :=
  if is_nan F a then nan_result F (is_snan F a) u fl
  else if is_zero F a then u = a /\ fl = 0
  else if sign_of F a then nan_result F true u fl
  else if is_inf F a then u = a /\ fl = 0
  else rounded F m false (sqrt (absval F a)) u fl.

(** ** An estimate and the root *)

(** Both between the same multiples, or both the same multiple. *)
Lemma agrees_between g M y s :
  (IZR (M * 2 ^ g) < y < IZR (M * 2 ^ g + 2 ^ g))%R -> M * 2 ^ g < s < M * 2 ^ g + 2 ^ g -> agrees g y s.
Proof.
  intros Hy Hs k. assert (0 < 2 ^ g) as Hp.
  { destruct (Z_lt_le_dec g 0) as [Hg|Hg]; [rewrite (Z.pow_neg_r 2 g) in * by lia; lia|apply Z.pow_pos_nonneg; lia]. }
  assert (k * 2 ^ g <= M * 2 ^ g \/ M * 2 ^ g + 2 ^ g <= k * 2 ^ g) as Hk
    by (destruct (Z_le_gt_dec k M); [left|right]; nia).
  destruct Hk as [Hk|Hk]; pose proof (IZR_le _ _ Hk);
    split; split; intros Hc; lra || lia || (exfalso; lra) || (exfalso; lia).
Qed.

(** A root compared by its square. *)
Lemma root_cmp y V M :
  (0 <= y)%R -> (y * y = IZR V)%R -> 0 <= M ->
  ((IZR M < y)%R <-> M * M < V) /\ ((y < IZR M)%R <-> V < M * M) /\ (y = IZR M <-> V = M * M).
Proof.
  intros Hy HV HM. apply IZR_le in HM. split_and!; (split; intros Hc).
  - apply lt_IZR. rewrite mult_IZR. nra.
  - apply IZR_lt in Hc. rewrite mult_IZR in Hc. nra.
  - apply lt_IZR. rewrite mult_IZR. nra.
  - apply IZR_lt in Hc. rewrite mult_IZR in Hc. nra.
  - apply eq_IZR. rewrite mult_IZR. by rewrite <-HV, Hc.
  - apply (f_equal IZR) in Hc. rewrite mult_IZR in Hc. nra.
Qed.

(** The estimate from below: [a r 2^(-32)], halved for an odd exponent. *)
Lemma estimate_bounds odd a r d :
  0 <= odd <= 1 -> 2 ^ 31 <= a < 2 ^ 32 ->
  let A := (IZR (2 - odd) * IZR a / 2147483648)%R in
  rsqrt_within A r d ->
  let y := (sqrt A * 1073741824)%R in
  let F := a * r / 2 ^ (32 + odd) in
  (IZR F < y < IZR F + 1 + A / 4 * d)%R.
Proof.
  intros Ho Ha A [Hup Hlo] y F.
  assert (1 <= A < 4)%R as HA.
  { unfold A. assert (IZR (2 ^ 31) <= IZR a <= IZR (2 ^ 32 - 1))%R by (split; apply IZR_le; lia).
    change (IZR (2 ^ 31)) with 2147483648%R in *. change (IZR (2 ^ 32 - 1)) with 4294967295%R in *.
    assert (odd = 0 \/ odd = 1) as [->| ->] by lia; [change (IZR (2 - 0)) with 2%R|change (IZR (2 - 1)) with 1%R]; lra. }
  pose proof (quotient_real (a * r) (32 + odd) ltac:(lia)) as HF. fold F in HF.
  assert (IZR (a * r) / IZR (2 ^ (32 + odd)) = A * IZR r / 4)%R as E.
  { rewrite mult_IZR. unfold A. assert (odd = 0 \/ odd = 1) as [->| ->] by lia;
      [change (IZR (2 ^ (32 + 0))) with 4294967296%R; change (IZR (2 - 0)) with 2%R
      |change (IZR (2 ^ (32 + 1))) with 8589934592%R; change (IZR (2 - 1)) with 1%R]; field. }
  rewrite E in HF. pose proof (sqrt_sqrt A ltac:(lra)) as HS. pose proof (sqrt_lt_R0 A ltac:(lra)) as HS0.
  unfold y. set (S := sqrt A) in *. clearbody S F.
  assert (A * IZR r / 4 < S * 1073741824)%R by (rewrite <-HS; nra).
  assert (S * 1073741824 <= A * IZR r / 4 + A / 4 * d)%R by (rewrite <-HS; nra). lra.
Qed.

(** ** Single precision *)

(** The sign of a difference from its value modulo [2 ^ w]. *)
Lemma wrapped_sign w d :
  1 <= w -> - 2 ^ (w - 1) <= d < 2 ^ (w - 1) ->
  negb (Z.land (d mod 2 ^ w) (2 ^ (w - 1)) =? 0) = (d <? 0) /\ (d mod 2 ^ w =? 0) = (d =? 0).
Proof.
  intros Hw Hd. set (h := 2 ^ (w - 1)) in *. assert (2 ^ w = 2 * h) as Hp.
  { unfold h. rewrite <-Z.pow_succ_r by lia. f_equal. lia. }
  assert (0 < h) by (apply Z.pow_pos_nonneg; lia).
  assert (d mod 2 ^ w = if d <? 0 then d + 2 * h else d) as ->.
  { rewrite Hp. destruct (Z.ltb_spec d 0); [symmetry; apply Z.mod_unique with (-1); lia|apply Z.mod_small; lia]. }
  replace (Z.land _ h) with (Z.land (if d <? 0 then d + 2 * h else d) (1 * 2 ^ (w - 1))) by (unfold h; f_equal; lia).
  rewrite land_high by lia. fold h. change 1 with (2 ^ 1 - 1) at 1. rewrite land_ones_mod by lia. change (2 ^ 1) with 2.
  destruct (Z.ltb_spec d 0).
  - replace ((d + 2 * h) / h) with 1 by (apply Z.div_unique with (d + h); lia).
    change (1 mod 2) with 1. destruct (Z.eqb_spec (1 * h) 0), (Z.eqb_spec (d + 2 * h) 0), (Z.eqb_spec d 0); cbn; lia || done.
  - rewrite Z.div_small by lia. split; [done|done].
Qed.

(** An estimate at a multiple of 64, or one above it, is replaced by what the
    comparison with the root shows. *)
Lemma f32_fix y V sigZ :
  (0 <= y)%R -> (y * y = IZR (V * 2 ^ 36))%R -> 2 ^ 30 <= sigZ < 2 ^ 31 ->
  (IZR (sigZ - 2) < y < IZR (sigZ + 2))%R -> (sigZ mod 64 = 63 -> (y < IZR (sigZ + 1))%R) -> (IZR (2 ^ 30) <= y)%R ->
  let sig :=
    if Z.land sigZ 0x3F <? 2 then
      let shiftedSigZ := Z.shiftr sigZ 2 in
      let negRem := u32 (shiftedSigZ * shiftedSigZ) in
      let sigZ := Z.land sigZ (Z.lnot 3) in
      if negb (Z.land negRem 0x80000000 =? 0) then Z.lor sigZ 1
      else if negb (negRem =? 0) then sigZ - 1 else sigZ
    else sigZ in
  agrees 6 y sig /\ 2 ^ 30 <= sig < 2 ^ 31.
Proof.
  intros Hy0 HV Hs Hb H63 Hy30. cbv zeta. change 0x3F with (2 ^ 6 - 1). rewrite land_ones_mod by lia. change (2 ^ 6) with 64.
  pose proof (Z.div_mod sigZ 64 ltac:(lia)) as Hd. pose proof (Z.mod_pos_bound sigZ 64 ltac:(lia)) as Hm.
  rewrite plus_IZR, minus_IZR in Hb. set (M := sigZ / 64) in *. set (k := sigZ mod 64) in *.
  pose proof (root_cmp y (V * 2 ^ 36) (M * 2 ^ 6) Hy0 HV ltac:(lia)) as (Hlt & Hgt & Heq).
  assert (IZR (M * 2 ^ 6 + k) = IZR sigZ) as HsR by (f_equal; lia). rewrite plus_IZR in HsR.
  destruct (Z.ltb_spec k 2) as [Hk|Hk].
  - replace (Z.shiftr sigZ 2) with (16 * M) by (rewrite Z.shiftr_div_pow2 by lia; divlia).
    replace (Z.land sigZ (Z.lnot 3)) with (M * 2 ^ 6).
    2: { change 3 with (Z.ones 2). rewrite <-Z.ldiff_land, Z.ldiff_ones_r, Z.shiftr_div_pow2, Z.shiftl_mul_pow2 by lia. divlia. }
    set (D := 256 * M * M - V * 2 ^ 32).
    assert (IZR k <= 1)%R by (apply IZR_le; lia). assert (0 <= IZR k)%R by (apply IZR_le; lia).
    assert (IZR D * 16 = (IZR (M * 2 ^ 6) - y) * (IZR (M * 2 ^ 6) + y))%R as HD.
    { replace ((IZR (M * 2 ^ 6) - y) * (IZR (M * 2 ^ 6) + y))%R with (IZR (M * 2 ^ 6) * IZR (M * 2 ^ 6) - y * y)%R by ring.
      rewrite HV, <-(mult_IZR D 16), <-(mult_IZR (M * 2 ^ 6)), <-minus_IZR. f_equal. unfold D. ring. }
    assert (IZR sigZ < 2147483648)%R by (apply IZR_lt; lia).
    assert (- 2 ^ 31 <= D < 2 ^ 31) as HDr.
    { split; [apply le_IZR|apply lt_IZR]; [change (IZR (- 2 ^ 31)) with (-2147483648)%R|change (IZR (2 ^ 31)) with 2147483648%R]; nra. }
    assert (u32 (16 * M * (16 * M)) = D mod 2 ^ 32) as ->.
    { unfold u32, D. change 4294967296 with (2 ^ 32). replace (256 * M * M - V * 2 ^ 32) with (16 * M * (16 * M) + (- V) * 2 ^ 32) by ring.
      by rewrite Z.mod_add. }
    destruct (wrapped_sign 32 D ltac:(lia) HDr) as [W1 W2]. change (2 ^ (32 - 1)) with 0x80000000 in W1. rewrite W1, W2.
    destruct (Z.ltb_spec D 0) as [HDn|HDn]; [|destruct (Z.eqb_spec D 0) as [HD0|HD0]; cbn [negb]].
    + rewrite (lor_disjoint M 1 6) by lia.
      split; [|lia]. apply (agrees_between 6 M); [|lia]. rewrite plus_IZR. change (IZR (2 ^ 6)) with 64%R. split; [|lra].
      apply Hlt. unfold D in HDn. lia.
    + replace y with (IZR (M * 2 ^ 6)) by (symmetry; apply Heq; unfold D in HD0; lia).
      split; [|lia]. apply (agrees_mono 0); [lia|]. apply agrees_exact.
    + assert (y < IZR (M * 2 ^ 6))%R as Hy by (apply Hgt; unfold D in *; lia).
      assert (2 ^ 30 < M * 2 ^ 6) by (apply lt_IZR; lra).
      split; [|lia]. apply (agrees_between 6 (M - 1)); [|lia].
      replace ((M - 1) * 2 ^ 6 + 2 ^ 6) with (M * 2 ^ 6) by lia. split; [|done].
      replace ((M - 1) * 2 ^ 6) with (M * 2 ^ 6 - 64) by lia. rewrite minus_IZR. lra.
  - split; [|lia]. assert (2 <= IZR k <= 63)%R by (split; apply IZR_le; lia).
    apply (agrees_between 6 M); [|lia]. rewrite plus_IZR. change (IZR (2 ^ 6)) with 64%R. split; [lra|].
    destruct (decide (k = 63)) as [E|E].
    + specialize (H63 E). rewrite plus_IZR in H63. lra.
    + assert (IZR k <= 62)%R by (apply IZR_le; lia). lra.
Qed.

(** Just below 4 the estimate could be three too small, but then the root would be
    closer above a multiple of 64 than the squares allow: with [64 (2^25 - j)] for
    the multiple, [j^2] would have to be just below a multiple of [2^26]. *)
Lemma no_close_square S j :
  S < 2 ^ 24 -> 1 <= j <= 12600 -> 0 <= 2 ^ 26 * S - (2 ^ 25 - j) * (2 ^ 25 - j) <= 1600 -> j = 8192 /\ S = 4095 * 4095.
Proof.
  intros HS Hj Hd. replace (2 ^ 26 * S - (2 ^ 25 - j) * (2 ^ 25 - j)) with (2 ^ 26 * (S - 2 ^ 24 + j) - j * j) in Hd by ring.
  set (k := S - 2 ^ 24 + j) in *. assert (S = k + 2 ^ 24 - j) as HSk by (unfold k; lia). clearbody k.
  assert (j <= 8191 \/ j = 8192 \/ 8193 <= j <= 11585 \/ 11586 <= j) as [Hc|[Hc|[Hc|Hc]]] by lia.
  - assert (1 <= j * j <= 8191 * 8191) by nia. lia.
  - subst j. assert (k = 1) by lia. lia.
  - assert (8193 * 8193 <= j * j <= 11585 * 11585) by nia. lia.
  - assert (11586 * 11586 <= j * j <= 12600 * 12600) by nia. lia.
Qed.

Lemma top_special : 4095 * 4095 * 2 ^ 8 * softfloat_approxRecipSqrt32_1 0 (4095 * 4095 * 2 ^ 8) / 2 ^ 32 = 64 * (2 ^ 25 - 8192) - 2.
Proof. by vm_compute. Qed.

Lemma estimate_top S :
  15 * 2 ^ 20 <= S < 2 ^ 24 ->
  let a := S * 2 ^ 8 in
  let y := (sqrt (IZR (2 - 0) * IZR a / 2147483648) * 1073741824)%R in
  let F := a * softfloat_approxRecipSqrt32_1 0 a / 2 ^ 32 in
  (F + 2) mod 64 = 63 -> (y < IZR (F + 3))%R.
Proof.
  intros HS a y F H63. assert (2 ^ 31 <= a < 2 ^ 32) as Ha by (unfold a; lia).
  destruct (approxRecipSqrt_within 0 a ltac:(lia) Ha) as (_ & _ & Hw). specialize (Hw eq_refl ltac:(unfold a; lia)).
  pose proof (estimate_bounds 0 a _ _ ltac:(lia) Ha Hw) as Hb. cbv zeta in Hb. fold y in Hb. change (32 + 0) with 32 in Hb. fold F in Hb.
  set (A := (IZR (2 - 0) * IZR a / 2147483648)%R) in *. change (IZR (2 - 0)) with 2%R in A.
  assert (A = IZR S / 4194304)%R as HA by (unfold A, a; rewrite mult_IZR; change (IZR (2 ^ 8)) with 256%R; field).
  assert (IZR S <= 16777215)%R by (apply IZR_le; lia). assert (15728640 <= IZR S)%R by (apply IZR_le; lia).
  assert (y * y = IZR (S * 2 ^ 38))%R as Hyy.
  { unfold y. replace (sqrt A * 1073741824 * (sqrt A * 1073741824))%R with (sqrt A * sqrt A * 1152921504606846976)%R by ring.
    rewrite sqrt_sqrt, HA, mult_IZR by lra. change (IZR (2 ^ 38)) with 274877906944%R. field. }
  assert (0 <= y)%R as Hy0 by (unfold y; pose proof (sqrt_pos A); lra).
  apply Rnot_le_lt. intros Hle. set (m := (F + 3) / 64). assert (F + 3 = m * 64) as Hm by (unfold m; divlia).
  rewrite Hm in Hle. assert (0 <= m) as Hm0.
  { assert (0 <= F); [|lia]. unfold F. apply Z.div_pos; [|lia]. apply Z.mul_nonneg_nonneg; [lia|].
    destruct (approxRecipSqrt_within 0 a ltac:(lia) Ha) as ([? _] & _). lia. }
  apply (f_equal IZR) in Hm. rewrite plus_IZR in Hm.
  assert (IZR (m * 64) <= y < IZR (m * 64) - 2 + A / 4 * (20015 / 10000))%R as Hym by lra.
  assert (y < 2147483648)%R as Hy31.
  { apply Rnot_le_lt. intros Hc. assert (4611686018427387904 <= y * y)%R by nra.
    rewrite Hyy, mult_IZR in *. change (IZR (2 ^ 38)) with 274877906944%R in *. lra. }
  assert (0 <= 2 ^ 26 * S - m * m <= 1600) as Hd.
  { assert (0 <= (IZR (2 ^ 26 * S - m * m)) * 4096 <= 1600 * 4096)%R; [|split; [apply le_IZR|apply le_IZR]; lra].
    rewrite minus_IZR, !mult_IZR. rewrite mult_IZR in Hyy, Hym. change (IZR (2 ^ 26)) with 67108864%R.
    change (IZR (2 ^ 38)) with 274877906944%R in Hyy. apply IZR_le in Hm0. nra. }
  assert (IZR S >= 16764640)%R as HSl by lra. assert (16764640 <= S) by (apply le_IZR; lra).
  assert (1 <= 2 ^ 25 - m <= 12600) as Hj.
  { split; [|apply Z.nlt_ge; intros Hlt; assert (m * m < (2 ^ 25 - 12600) * (2 ^ 25 - 12600)) by nia; lia]. assert (IZR (m * 64) < IZR (2 ^ 25 * 64))%R as Hlt%lt_IZR; [|lia].
    change (IZR (2 ^ 25 * 64)) with 2147483648%R. lra. }
  destruct (no_close_square S (2 ^ 25 - m)) as [Hj' HS']; [lia|done|replace (2 ^ 25 - (2 ^ 25 - m)) with m by lia; done|].
  subst S. assert (F = 64 * (2 ^ 25 - 8192) - 2) as HF by apply top_special.
  assert (m * 64 = F + 3) by (apply eq_IZR; rewrite plus_IZR; lra). lia.
Qed.

Lemma f32_sqrt_sig_agrees odd S :
  0 <= odd <= 1 -> 2 ^ 23 <= S < 2 ^ 24 ->
  let y := (sqrt (IZR ((2 - odd) * S) / 8388608) * 1073741824)%R in
  agrees 6 y (f32_sqrt_sig odd (S * 2 ^ 8)) /\ 2 ^ 30 <= f32_sqrt_sig odd (S * 2 ^ 8) < 2 ^ 31.
Proof.
  intros Ho HS y. set (a := S * 2 ^ 8). assert (2 ^ 31 <= a < 2 ^ 32) as Ha by (unfold a; lia).
  destruct (approxRecipSqrt_within odd a Ho Ha) as (Hr & Hw & _).
  pose proof (estimate_bounds odd a _ _ Ho Ha Hw) as Hb. cbv zeta in Hb.
  set (A := (IZR (2 - odd) * IZR a / 2147483648)%R) in *.
  assert (IZR ((2 - odd) * S) / 8388608 = A)%R as HA.
  { unfold A, a. rewrite !mult_IZR. change (IZR (2 ^ 8)) with 256%R. field. }
  assert (y = sqrt A * 1073741824)%R as Hy by (unfold y; by rewrite HA). rewrite <-Hy in Hb.
  assert (y * y = IZR (2 * (2 - odd) * S * 2 ^ 36))%R as Hyy.
  { assert (2 ^ 23 <= (2 - odd) * S) by nia. assert (8388608 <= IZR ((2 - odd) * S))%R by (apply IZR_le; lia).
    rewrite Hy. replace (sqrt A * 1073741824 * (sqrt A * 1073741824))%R with (sqrt A * sqrt A * 1152921504606846976)%R by ring.
    rewrite sqrt_sqrt, <-HA by lra. replace (2 * (2 - odd) * S * 2 ^ 36) with ((2 - odd) * S * 2 ^ 37) by ring.
    rewrite (mult_IZR ((2 - odd) * S)). change (IZR (2 ^ 37)) with 137438953472%R. field. }
  assert (0 <= y)%R as Hy0 by (rewrite Hy; pose proof (sqrt_pos A); lra).
  assert (2 ^ 23 <= (2 - odd) * S <= 2 ^ 25 - 2 /\ (odd = 1 -> (2 - odd) * S < 2 ^ 24) /\ (odd = 0 -> 2 ^ 24 <= (2 - odd) * S)) as (HX & Hodd & Heven) by nia.
  set (X := (2 - odd) * S) in *. assert (8388608 <= IZR X <= 33554430)%R as HXR by (split; apply IZR_le; lia).
  assert (y * y = IZR X * 137438953472)%R as HyX.
  { rewrite Hyy. replace (2 * (2 - odd) * S * 2 ^ 36) with (X * 2 ^ 37) by (unfold X; ring). by rewrite mult_IZR. }
  assert (1073741824 <= y < 2147483648 - 63)%R as Hyr by nra.
  assert (17000000 <= IZR X -> 1400000000 <= y)%R as Hyl by (intros; nra).
  unfold f32_sqrt_sig. cbv zeta. rewrite (u64_id (a * _)) by nia.
  set (r := softfloat_approxRecipSqrt32_1 odd a) in *. set (F := a * r / 2 ^ (32 + odd)) in *.
  assert ((if negb (odd =? 0) then Z.shiftr (Z.shiftr (a * r) 32) 1 else Z.shiftr (a * r) 32) = F) as ->.
  { rewrite !Z.shiftr_div_pow2 by lia. unfold F. assert (odd = 0 \/ odd = 1) as [->| ->] by lia; cbn [Z.eqb negb]; [done|].
    rewrite Z.div_div by lia. done. }
  assert (IZR F + 2 < 2147483648)%R by lra.
  assert (1073741823 < IZR F + 2)%R.
  { destruct (Rle_dec 17000000 (IZR X)) as [Hc|Hc]; [specialize (Hyl Hc)|]; lra. }
  assert (1073741823 < F + 2 < 2147483648) as HFr by (split; apply lt_IZR; rewrite plus_IZR; lra).
  apply (f32_fix y (2 * (2 - odd) * S) (F + 2) Hy0 Hyy); [lia| | |change (IZR (2 ^ 30)) with 1073741824%R; lra].
  - replace (F + 2 - 2) with F by lia. replace (F + 2 + 2) with (F + 4) by lia. rewrite plus_IZR. lra.
  - intros H63. replace (F + 2 + 1) with (F + 3) by lia. destruct (decide (odd = 0 /\ 15 * 2 ^ 20 <= S)) as [[-> Htop]|Htop].
    + pose proof (estimate_top S ltac:(lia)) as Ht. cbv zeta in Ht. fold a A r in Ht. rewrite Hy.
      apply Ht. done.
    + assert (X <= 31457279) as HXt.
      { assert (odd = 0 \/ odd = 1) as [->| ->] by lia; unfold X in *; lia. }
      apply IZR_le in HXt. rewrite plus_IZR. lra.
Qed.

(** The root of a number whose exponent has been made even. *)
Lemma sqrt_even_exponent A k : (0 <= A)%R -> sqrt (A * bpow (k + k)) = (sqrt A * bpow k)%R.
Proof.
  intros HA. rewrite bpow_add. pose proof (bpow_gt_0 k). rewrite sqrt_mult by nra. by rewrite sqrt_square by lra.
Qed.

(** The exponent of the root, and the argument between 1 and 4. *)
Lemma sqrt_operand p S e bias :
  1 <= p -> bias mod 2 = 1 -> 2 ^ (p - 1) <= S ->
  let odd := Z.land e 1 in
  let k := Z.shiftr (e - bias) 1 in
  0 <= odd <= 1 /\ sqrt (IZR S * bpow (e - bias - (p - 1))) = (sqrt (IZR ((2 - odd) * S) / IZR (2 ^ (p - 1))) * bpow k)%R.
Proof.
  intros Hp Hb HS odd k. assert (odd = e mod 2) as Ho by (unfold odd; change 1 with (2 ^ 1 - 1); by rewrite land_ones_mod).
  assert (k = (e - bias) / 2) as Hk by (unfold k; by rewrite Z.shiftr_div_pow2 by lia).
  clearbody odd k. subst odd. split; [divlia|].
  pose proof (Z.pow_pos_nonneg 2 (p - 1) ltac:(lia) ltac:(lia)) as Hpp. apply IZR_le in HS. apply IZR_lt in Hpp.
  assert (e - bias = k + k + (1 - e mod 2)) as He by divlia.
  assert (0 <= IZR ((2 - e mod 2) * S))%R as HX.
  { rewrite mult_IZR. assert (1 <= IZR (2 - e mod 2))%R by (apply IZR_le; divlia). nra. }
  rewrite <-sqrt_even_exponent.
  2: { apply Rmult_le_pos; [done|]. apply Rlt_le. by apply Rinv_0_lt_compat. }
  f_equal. replace (e - bias - (p - 1)) with (k + k + (1 - e mod 2) - (p - 1)) by lia.
  replace (k + k + (1 - e mod 2) - (p - 1)) with ((1 - e mod 2) + - (p - 1) + (k + k)) by lia.
  rewrite (bpow_add _ (k + k)), (bpow_add _ (- (p - 1))), mult_IZR.
  replace (IZR (2 - e mod 2)) with (bpow (1 - e mod 2)).
  2: { assert (e mod 2 = 0 \/ e mod 2 = 1) as [->| ->] by divlia; rewrite bpow_IZR by lia; f_equal. }
  pose proof (bpow_opp (p - 1)) as Hop. rewrite (bpow_IZR (p - 1)) in Hop by lia.
  replace (bpow (- (p - 1))) with (/ IZR (2 ^ (p - 1)))%R; [field; lra|].
  apply Rmult_eq_reg_r with (IZR (2 ^ (p - 1))); [|lra]. rewrite Hop. field. lra.
Qed.

Lemma snan_zero F `{ValidFormat F} : is_snan F 0 = false.
Proof.
  unfold is_snan, is_nan, mag. pose proof prec_valid. pose proof ewidth_valid.
  rewrite Z.mod_0_l by (apply Z.pow_nonzero; lia). pose proof (inf_mag_pos F).
  by rewrite (proj2 (Z.ltb_ge _ _)) by lia.
Qed.

(** In every rounding mode and for all operands, [f32_sqrt] gives the result and
    the flags of the square root of IEEE 754. *)
Theorem f32_sqrt_returns m a st :
  in_mode m st -> is_pattern F32 a ->
  returns (f32_sqrt a st) (ieee_sqrt F32 m a) st.
Proof.
  intros Hst Ha. unfold f32_sqrt. cbv zeta. rewrite signF32UI_sign, expF32UI_expo, fracF32UI_frac by done.
  unfold ieee_sqrt. rewrite (is_nan_fields F32), (is_zero_fields F32), (is_inf_fields F32).
  cbn [ewidth F32]. change (2 ^ 8 - 1) with 255.
  destruct (Z.eqb_spec (expo F32 a) 255) as [E|E]; cbn [andb].
  { rewrite E. cbn [Z.eqb andb]. destruct (frac F32 a =? 0) eqn:Ef; cbn [negb].
    - destruct (sign_of F32 a); cbn [negb]; [by apply returns_raise|by apply returns_pure].
    - apply propagateNaNF32UI_returns. split; [done|]. by rewrite (snan_zero F32), orb_false_r. }
  rewrite lor_eqb_0.
  destruct ((expo F32 a =? 0) && (frac F32 a =? 0)) eqn:Hz.
  { destruct (sign_of F32 a); by apply returns_pure. }
  destruct (sign_of F32 a); [by apply returns_raise|].
  assert (is_finite F32 a = true) as Hf by (rewrite is_finite_fields, negb_true_iff, Z.eqb_neq by done; done).
  destruct (norm_operandF32 a Hf) as (HS & He & Hv); [by rewrite is_zero_fields by done|].
  set (norm := if expo F32 a =? 0 then _ else _) in *. change 8388608 with (2 ^ 23).
  set (S := Z.lor (sig32 norm) (2 ^ 23)) in *. clearbody S. set (e := exp32 norm) in *. clearbody e.
  rewrite Z.shiftl_mul_pow2, u64_id by lia.
  destruct (sqrt_operand 24 S e 127) as [Ho Hsq]; [lia|done|lia|].
  destruct (f32_sqrt_sig_agrees (Z.land e 1) S Ho HS) as [Hag Hr].
  eapply returns_mono; [eapply (roundPackToF32_rounded m); [done| |done|exact Hag|reflexivity]|].
  - rewrite Z.shiftr_div_pow2 by lia. change (2 ^ 1) with 2. divlia.
  - cbv beta. intros u fl. replace (sqrt (absval F32 a)) with (sqrt (IZR ((2 - Z.land e 1) * S) / 8388608) * 1073741824 *
      bpow (Z.shiftr (e - 127) 1 + 126 - 7 + emin F32))%R; [done|].
    rewrite Hv. change (emin F32) with (-149). replace (e - 1 + -149) with (e - 127 - (24 - 1)) by lia. rewrite Hsq.
    change (IZR (2 ^ (24 - 1))) with 8388608%R. rewrite Rmult_assoc. f_equal.
    change 1073741824%R with (IZR (2 ^ 30)). rewrite <-bpow_IZR, <-bpow_add by lia. f_equal. lia.
Qed.

(** ** Double precision *)

Open Scope R_scope.

(** The second estimate: [s] is the root of the leading 32 bits, [t] the root of
    all, [y = t 2^30], [d] what the first estimate [f] lacks; [p] stands for the
    product of the remainder and the reciprocal. *)
Lemma second_estimate s t c r d p f :
  1 <= s -> s <= t -> 4294967296 * (t - s) * s <= c -> 0 <= c ->
  0 < d -> f + d = t * 1073741824 -> 0 <= f ->
  r * s < 4294967296 -> 4294967296 <= (r + 21 / 10) * s ->
  p * 2147483648 = (t * 1073741824 * (t * 1073741824) - f * f) * r ->
  - (c * c) < 8 * s * s * s * (d * 4294967296 - p) /\
  (d * 4294967296 - p) * s <= 2 * d * d + 21 / 10 * s * d * t.
Proof.
  intros Hs Hst Hc Hc0 Hd Hf Hf0 Hr1 Hr2 Hp.
  set (rem := t * 1073741824 * (t * 1073741824) - f * f) in *.
  assert (rem = d * (2147483648 * t - d)) as Hrem by (unfold rem; nra).
  assert (0 < rem) as Hrp by (rewrite Hrem; nra).
  assert (p * s < 2 * rem) as Hps1.
  { assert (p * s * 2147483648 = rem * (r * s)) as E by (rewrite <-Rmult_assoc, <-Hp; ring). nra. }
  assert (2 * rem - 21 / 10 * s * rem / 2147483648 <= p * s) as Hps2.
  { assert (p * s * 2147483648 = rem * (r * s)) as E by (rewrite <-Rmult_assoc, <-Hp; ring).
    assert (rem * (4294967296 - 21 / 10 * s) <= rem * (r * s)) by (apply Rmult_le_compat_l; lra). lra. }
  split.
  - assert (2 * d * d * s - c * d <= (d * 4294967296 * s - 2 * rem) * s) as H1 by (rewrite Hrem; nra).
    assert (2 * d * d * s - c * d < (d * 4294967296 - p) * s * s) as H2 by nra.
    assert (0 <= (4 * (s * d) - c) * (4 * (s * d) - c)) as H3 by apply Rle_0_sqr.
    assert (8 * s * (2 * d * d * s - c * d) < 8 * s * ((d * 4294967296 - p) * s * s)) as H4 by (apply Rmult_lt_compat_l; lra).
    lra.
  - assert (d * 4294967296 * s - 2 * rem <= 2 * d * d) by (rewrite Hrem; nra).
    assert (rem <= d * t * 2147483648) by (rewrite Hrem; nra). nra.
Qed.

Close Scope R_scope.

(** An estimate that is a multiple of 8: one close to a multiple of 512 is replaced
    by what the comparison with the root shows. *)
Lemma f64_fix y T sigZ :
  (0 <= y)%R -> (y * y = IZR (T * 2 ^ 64))%R -> 2 ^ 62 <= sigZ < 2 ^ 63 -> sigZ mod 8 = 0 ->
  (IZR sigZ - 33 < y < IZR sigZ + 8)%R -> (IZR (2 ^ 62) <= y)%R ->
  let sig :=
    if Z.land sigZ 0x1FF <? 0x22 then
      let sigZ := Z.land sigZ (Z.lnot 0x3F) in
      let shiftedSigZ := Z.shiftr sigZ 6 in
      let rem := u64 (u64 (Z.shiftl T 52) - u64 (shiftedSigZ * shiftedSigZ)) in
      if negb (Z.land rem 0x8000000000000000 =? 0) then sigZ - 1
      else if negb (rem =? 0) then Z.lor sigZ 1 else sigZ
    else sigZ in
  agrees 9 y sig /\ 2 ^ 62 <= sig < 2 ^ 63.
Proof.
  intros Hy0 HT Hs H8 Hb Hy62. cbv zeta. change 0x1FF with (2 ^ 9 - 1). rewrite land_ones_mod by lia. change (2 ^ 9) with 512.
  pose proof (Z.div_mod sigZ 512 ltac:(lia)) as Hd. pose proof (Z.mod_pos_bound sigZ 512 ltac:(lia)) as Hm.
  assert (sigZ mod 512 mod 8 = 0) as Hk8 by divlia.
  set (M := sigZ / 512) in *. set (k := sigZ mod 512) in *. clearbody k M.
  pose proof (root_cmp y (T * 2 ^ 64) (M * 2 ^ 9) Hy0 HT ltac:(lia)) as (Hlt & Hgt & Heq).
  assert (IZR (M * 2 ^ 9 + k) = IZR sigZ) as HsR by (f_equal; lia). rewrite plus_IZR in HsR.
  destruct (Z.ltb_spec k 34) as [Hk|Hk].
  - assert (0 <= k <= 32) as Hk32 by divlia. assert (0 <= IZR k <= 32)%R by (split; apply IZR_le; lia).
    replace (Z.land sigZ (Z.lnot 63)) with (M * 2 ^ 9).
    2: { change 63 with (Z.ones 6). rewrite <-Z.ldiff_land, Z.ldiff_ones_r, Z.shiftr_div_pow2, Z.shiftl_mul_pow2 by lia. divlia. }
    replace (Z.shiftr (M * 2 ^ 9) 6) with (8 * M) by (rewrite Z.shiftr_div_pow2 by lia; divlia).
    set (D := T * 2 ^ 52 - 8 * M * (8 * M)).
    assert (IZR D * 4096 = (y - IZR (M * 2 ^ 9)) * (y + IZR (M * 2 ^ 9)))%R as HD.
    { replace ((y - IZR (M * 2 ^ 9)) * (y + IZR (M * 2 ^ 9)))%R with (y * y - IZR (M * 2 ^ 9) * IZR (M * 2 ^ 9))%R by ring.
      rewrite HT, <-(mult_IZR D 4096), <-(mult_IZR (M * 2 ^ 9)), <-minus_IZR. f_equal. unfold D. ring. }
    assert (IZR sigZ < 9223372036854775808)%R by (apply IZR_lt; lia).
    assert (- 2 ^ 63 <= D < 2 ^ 63) as HDr.
    { split; [apply le_IZR|apply lt_IZR];
        [change (IZR (- 2 ^ 63)) with (-9223372036854775808)%R|change (IZR (2 ^ 63)) with 9223372036854775808%R]; nra. }
    assert (u64 (u64 (Z.shiftl T 52) - u64 (8 * M * (8 * M))) = D mod 2 ^ 64) as ->.
    { unfold u64, D. rewrite Z.shiftl_mul_pow2 by lia. change 18446744073709551616 with (2 ^ 64). symmetry. apply Zminus_mod. }
    destruct (wrapped_sign 64 D ltac:(lia) HDr) as [W1 W2]. change (2 ^ (64 - 1)) with 0x8000000000000000 in W1. rewrite W1, W2.
    destruct (Z.ltb_spec D 0) as [HDn|HDn]; [|destruct (Z.eqb_spec D 0) as [HD0|HD0]; cbn [negb]].
    + assert (y < IZR (M * 2 ^ 9))%R as Hy by (apply Hgt; unfold D in *; lia).
      assert (2 ^ 62 < M * 2 ^ 9) by (apply lt_IZR; lra).
      split; [|lia]. apply (agrees_between 9 (M - 1)); [|lia].
      replace ((M - 1) * 2 ^ 9 + 2 ^ 9) with (M * 2 ^ 9) by lia. split; [|done].
      replace ((M - 1) * 2 ^ 9) with (M * 2 ^ 9 - 512) by lia. rewrite minus_IZR. lra.
    + replace y with (IZR (M * 2 ^ 9)) by (symmetry; apply Heq; unfold D in HD0; lia).
      split; [|lia]. apply (agrees_mono 0); [lia|]. apply agrees_exact.
    + rewrite (lor_disjoint M 1 9) by lia. split; [|lia].
      apply (agrees_between 9 M); [|lia]. rewrite plus_IZR. change (IZR (2 ^ 9)) with 512%R. split; [|lra].
      apply Hlt. unfold D in *. lia.
  - split; [|lia]. assert (40 <= k <= 504) as Hk40 by divlia.
    assert (40 <= IZR k <= 504)%R by (split; apply IZR_le; lia).
    apply (agrees_between 9 M); [|lia]. rewrite plus_IZR. change (IZR (2 ^ 9)) with 512%R. lra.
Qed.

(** The remainder times the reciprocal, in the integers of the code. *)
Lemma quotient_estimate rem r :
  0 <= rem < 2 ^ 34 -> 0 <= r < 2 ^ 32 ->
  let q := u32 (Z.shiftr (u64 (u32 (Z.shiftr rem 2) * r)) 32) in
  let p := (IZR rem * IZR r / 2147483648)%R in
  0 <= q < 2 ^ 32 /\ (p - 6 * IZR r / 4294967296 - 8 < 8 * IZR q <= p)%R.
Proof.
  intros Hrem Hr q p. assert (0 <= rem / 2 ^ 2 < 2 ^ 32) as Hq by divlia.
  assert (0 <= rem / 2 ^ 2 * r < 2 ^ 32 * 2 ^ 32) as Hqr by nia.
  assert (q = rem / 2 ^ 2 * r / 2 ^ 32 /\ 0 <= q < 2 ^ 32) as [Hqv Hqb].
  { unfold q. rewrite !Z.shiftr_div_pow2, (u32_id (rem / _)), u64_id by lia.
    assert (0 <= rem / 2 ^ 2 * r / 2 ^ 32 < 2 ^ 32) by (split; [apply Z.div_pos; lia|apply Z.div_lt_upper_bound; lia]).
    rewrite u32_id by lia. done. }
  split; [done|]. pose proof (quotient_real (rem / 2 ^ 2 * r) 32 ltac:(lia)) as Q. rewrite <-Hqv, mult_IZR in Q.
  change (IZR (2 ^ 32)) with 4294967296%R in Q.
  assert (IZR rem / 4 - 3 / 4 <= IZR (rem / 2 ^ 2) <= IZR rem / 4)%R as Q4.
  { assert (rem - 3 <= 4 * (rem / 2 ^ 2) <= rem) as [H1%IZR_le H2%IZR_le] by divlia.
    rewrite minus_IZR, mult_IZR in H1. rewrite mult_IZR in H2. lra. }
  assert (0 <= IZR r)%R by (apply IZR_le; lia). unfold p.
  assert ((IZR rem / 4 - 3 / 4) * IZR r <= IZR (rem / 2 ^ 2) * IZR r <= IZR rem / 4 * IZR r)%R by (split; apply Rmult_le_compat_r; lra).
  lra.
Qed.

(** The argument between 1 and 4, and its leading 32 bits. *)
Lemma leading_bits odd S :
  0 <= odd <= 1 -> 2 ^ 52 <= S < 2 ^ 53 ->
  let a := S / 2 ^ 21 in
  let A := (IZR (2 - odd) * IZR a / 2147483648)%R in
  let B := (IZR ((2 - odd) * S) / 4503599627370496)%R in
  2 ^ 31 <= a < 2 ^ 32 /\ (1 <= A <= B)%R /\ (B - A <= IZR (2 - odd) / 2147483648)%R /\ (B <= 4 - / 2251799813685248)%R /\
  (odd = 0 -> (2 <= A)%R) /\ (odd = 1 -> (B < 2)%R).
Proof.
  intros Ho HS a A B. assert (2 ^ 31 <= a < 2 ^ 32) as Ha by (unfold a; divlia). split; [done|].
  assert (a * 2 ^ 21 <= S < a * 2 ^ 21 + 2 ^ 21) as HSa by (unfold a; divlia). clearbody a.
  assert (IZR a * 2097152 <= IZR S <= IZR a * 2097152 + 2097152)%R as HR.
  { split; [rewrite <-mult_IZR|rewrite <-mult_IZR, <-plus_IZR]; apply IZR_le; lia. }
  assert (2147483648 <= IZR a)%R by (apply IZR_le; lia). assert (4503599627370496 <= IZR S <= 9007199254740991)%R by (split; apply IZR_le; lia).
  unfold A, B. rewrite mult_IZR.
  assert (odd = 0 \/ odd = 1) as [->| ->] by lia; [change (IZR (2 - 0)) with 2%R|change (IZR (2 - 1)) with 1%R];
    split_and!; try lra; intros; lra || lia.
Qed.

Lemma first_estimate odd S :
  0 <= odd <= 1 -> 2 ^ 52 <= S < 2 ^ 53 ->
  let a := S / 2 ^ 21 in
  let r := softfloat_approxRecipSqrt32_1 odd a in
  let F := a * r / 2 ^ (32 + odd) in
  let s := sqrt (IZR (2 - odd) * IZR a / 2147483648) in
  let t := sqrt (IZR ((2 - odd) * S) / 4503599627370496) in
  let d := (t * 1073741824 - IZR F)%R in
  let c := IZR (2 - odd) in
  (2 ^ 31 <= r < 2 ^ 32) /\ 0 <= F < 2 ^ 31 /\
  (1 <= s /\ s <= t <= s + 1 / 1000 /\ 4294967296 * (t - s) * s <= c /\ 0 < d < 36 / 10 /\
   IZR r * s < 4294967296 <= (IZR r + 21 / 10) * s /\ 2 * d * d + 21 / 10 * s * d * t + 6 + 8 * s < 40 * s)%R.
Proof.
  intros Ho HS a r F s t d c. destruct (leading_bits odd S Ho HS) as (Ha & HA & HBA & HB4 & H0 & H1). cbv zeta in *.
  fold a in Ha, HA, HBA, H0. destruct (approxRecipSqrt_within odd a Ho Ha) as (Hr & Hw & _).
  pose proof (estimate_bounds odd a _ _ Ho Ha Hw) as Hb. cbv zeta in Hb. fold r in Hb, Hw, Hr. fold F in Hb. fold s in Hb.
  destruct Hw as [Hr1 Hr2]. fold s in Hr1, Hr2.
  pose proof (sqrt_sqrt (IZR (2 - odd) * IZR a / 2147483648) ltac:(lra)) as Hss. fold s in Hss.
  pose proof (sqrt_sqrt (IZR ((2 - odd) * S) / 4503599627370496) ltac:(lra)) as Htt. fold t in Htt.
  pose proof (sqrt_lt_R0 (IZR (2 - odd) * IZR a / 2147483648) ltac:(lra)) as Hs0. fold s in Hs0.
  pose proof (sqrt_le_1 (IZR (2 - odd) * IZR a / 2147483648) (IZR ((2 - odd) * S) / 4503599627370496) ltac:(lra) ltac:(lra) ltac:(lra)) as Hst.
  fold s t in Hst. set (A := (IZR (2 - odd) * IZR a / 2147483648)%R) in *. set (B := (IZR ((2 - odd) * S) / 4503599627370496)%R) in *.
  fold c in HBA.
  assert (1 <= c <= 2)%R as Hc by (unfold c; split; apply IZR_le; lia).
  assert (0 <= F) as HF0 by (unfold F; apply Z.div_pos; [nia|apply Z.pow_pos_nonneg; lia]).
  clearbody A B s t F r. clear a Ha.
  assert (1 <= s < 2)%R as Hs by nra.
  assert (4294967296 * (t - s) * s <= c)%R as Hts.
  { assert ((t - s) * (2 * s) <= B - A)%R by nra. lra. }
  assert ((t - s) * 1073741824 <= c / 4 / s)%R as Hts'.
  { apply Rmult_le_reg_r with s; [lra|]. unfold Rdiv. rewrite (Rmult_assoc _ (/ s)), Rinv_l by lra. lra. }
  assert (t <= s + 1 / 1000)%R as Ht by nra.
  assert (0 < d <= 1 + 525 / 1000 * (s * s) + c / 4 / s)%R as Hd by (unfold d; lra).
  assert (c / 4 / s <= 1 / 2)%R as Hcs.
  { apply Rmult_le_reg_r with s; [lra|]. unfold Rdiv at 1. rewrite Rmult_assoc, Rinv_l by lra. lra. }
  split; [done|]. split.
  { split; [done|]. apply lt_IZR. change (IZR (2 ^ 31)) with 2147483648%R. lra. }
  split_and!; try lra; try nra.
Qed.

Lemma cubic_bound (c s E : R) : (1 <= c <= 2 -> 1 <= s -> - (c * c) < 8 * s * s * s * E -> - 1 < E)%R.
Proof.
  intros Hc Hs H. apply Rnot_le_lt. intros HE.
  assert (1 <= s * s)%R as Hss by nra. assert (1 <= s * s * s)%R as Hsss by nra.
  assert (c * c <= 4)%R as Hcc by nra. nra.
Qed.

Lemma f64_sqrt_sig_agrees odd S :
  0 <= odd <= 1 -> 2 ^ 52 <= S < 2 ^ 53 ->
  let y := (sqrt (IZR ((2 - odd) * S) / 4503599627370496) * 4611686018427387904)%R in
  agrees 9 y (f64_sqrt_sig odd S) /\ 2 ^ 62 <= f64_sqrt_sig odd S < 2 ^ 63.
Proof.
  intros Ho HS y. unfold f64_sqrt_sig.
  destruct (leading_bits odd S Ho HS) as (Ha & HA & _ & HB4 & _). cbv zeta in Ha, HA, HB4.
  destruct (first_estimate odd S Ho HS) as (Hr & HF & Hs & Hst & Hc & Hd & Hrs & Herr). cbv zeta in Hr, HF, Hs, Hst, Hc, Hd, Hrs, Herr.
  rewrite (Z.shiftr_div_pow2 S) by lia. set (a := S / 2 ^ 21) in *. rewrite (u32_id a) by lia. cbv zeta.
  set (r := softfloat_approxRecipSqrt32_1 odd a) in *. set (F := a * r / 2 ^ (32 + odd)) in *.
  pose proof (sqrt_sqrt (IZR ((2 - odd) * S) / 4503599627370496) ltac:(lra)) as Htt.
  set (s := sqrt (IZR (2 - odd) * IZR a / 2147483648)) in *.
  set (t := sqrt (IZR ((2 - odd) * S) / 4503599627370496)) in *.
  set (T := S * 2 ^ (9 - odd)).
  assert (T = (2 - odd) * S * 2 ^ 8) as HT.
  { unfold T. assert (odd = 0 \/ odd = 1) as [->| ->] by lia; change (2 ^ (9 - 0)) with (2 * 2 ^ 8); lia. }
  assert ((if negb (odd =? 0) then (u64 (Z.shiftl S 8), Z.shiftr (u32 (Z.shiftr (u64 (a * r)) 32)) 1)
           else (u64 (Z.shiftl S 9), u32 (Z.shiftr (u64 (a * r)) 32))) = (T, F)) as ->.
  { assert (0 <= a * r < 2 ^ 32 * 2 ^ 32) as Har by nia.
    assert (0 <= a * r / 2 ^ 32 < 2 ^ 32) as Hq by (split; [apply Z.div_pos; lia|apply Z.div_lt_upper_bound; lia]).
    rewrite (u64_id (a * r)), (Z.shiftr_div_pow2 (a * r)), (u32_id (a * r / _)) by lia. unfold T, F.
    assert (odd = 0 \/ odd = 1) as [->| ->] by lia; cbn [Z.eqb negb]; rewrite Z.shiftl_mul_pow2, u64_id by lia; f_equal.
    rewrite Z.shiftr_div_pow2, Z.div_div by lia. done. }
  assert (2 ^ 60 <= T < 2 ^ 62) as HTr.
  { rewrite HT. assert (odd = 0 \/ odd = 1) as [->| ->] by lia; unfold T in HT; lia. }
  assert (IZR T = t * 1073741824 * (t * 1073741824))%R as HTt.
  { replace (t * 1073741824 * (t * 1073741824))%R with (t * t * 1152921504606846976)%R by ring.
    rewrite Htt, HT, (mult_IZR (_ * S)). change (IZR (2 ^ 8)) with 256%R. field. }
  clearbody T. clear HT. set (d := (t * 1073741824 - IZR F)%R) in *.
  assert (1 <= IZR (2 - odd) <= 2)%R as Hc2 by (split; apply IZR_le; lia). set (c := IZR (2 - odd)) in *.
  set (B := (IZR ((2 - odd) * S) / 4503599627370496)%R) in *. clearbody a r F c B s t.
  assert (0 <= IZR F)%R as HF0 by (apply IZR_le; lia).
  set (rem := T - F * F).
  assert (IZR rem = t * 1073741824 * (t * 1073741824) - IZR F * IZR F)%R as Hrem by (unfold rem; by rewrite minus_IZR, mult_IZR, HTt).
  assert (t < 2)%R as Ht2 by nra.
  assert (0 <= rem < 2 ^ 34) as Hremr.
  { assert (IZR rem = d * (2147483648 * t - d))%R as E by (rewrite Hrem; unfold d; ring).
    split; [apply le_IZR|apply lt_IZR; change (IZR (2 ^ 34)) with 17179869184%R]; rewrite E; nra. }
  assert (0 <= F * F < 2 ^ 62) as HFF by nia.
  rewrite (u64_id (F * F)), (u64_id (T - F * F)) by (fold rem; lia). fold rem.
  destruct (quotient_estimate rem r Hremr ltac:(lia)) as [Hq Hqp]. cbv zeta in Hqp.
  set (q := u32 (Z.shiftr (u64 (u32 (Z.shiftr rem 2) * r)) 32)) in *. clearbody q.
  set (p := (IZR rem * IZR r / 2147483648)%R) in *.
  destruct (second_estimate s t c (IZR r) d p (IZR F)) as [He1 He2]; try lra; [unfold d; lra|unfold p; rewrite <-Hrem; lra|].
  rewrite !Z.shiftl_mul_pow2, (u64_id (F * _)), (u64_id (q * _)) by lia. change (1 * 2 ^ 5) with 32.
  rewrite (lor_disjoint F 32 32) by lia. rewrite u64_id by lia. set (sigZ := F * 2 ^ 32 + 32 + q * 2 ^ 3).
  assert (IZR sigZ = IZR F * 4294967296 + 32 + 8 * IZR q)%R as HsR.
  { unfold sigZ. rewrite !plus_IZR, !mult_IZR. change (IZR (2 ^ 32)) with 4294967296%R. change (IZR (2 ^ 3)) with 8%R. ring. }
  assert (y - IZR F * 4294967296 = d * 4294967296)%R as Hyd by (unfold y, d; ring).
  assert (- 1 < d * 4294967296 - p)%R as Hlow by (eapply cubic_bound; [exact Hc2| |exact He1]; lra).
  assert (d * 4294967296 - p + 6 * IZR r / 4294967296 + 8 < 40)%R as Hhigh.
  { apply Rmult_lt_reg_r with s; [lra|]. nra. }
  assert (IZR sigZ - 33 < y < IZR sigZ + 8)%R as Hb by lra.
  assert (4611686018427387904 <= y < 9223372036854775808 - 400)%R as Hy by (unfold y; nra).
  assert (sigZ mod 8 = 0) as H8.
  { unfold sigZ. replace (F * 2 ^ 32 + 32 + q * 2 ^ 3) with ((F * 2 ^ 29 + 4 + q) * 8) by ring. by apply Z.mod_mul. }
  assert (2 ^ 62 - 8 < sigZ < 2 ^ 63) as Hsr.
  { split; apply lt_IZR; [change (IZR (2 ^ 62 - 8)) with 4611686018427387896%R|change (IZR (2 ^ 63)) with 9223372036854775808%R]; lra. }
  rewrite <-(Z.shiftl_mul_pow2 T 52) by lia. apply f64_fix; [lra| |divlia|done|done|change (IZR (2 ^ 62)) with 4611686018427387904%R; lra].
  rewrite mult_IZR, HTt. change (IZR (2 ^ 64)) with 18446744073709551616%R. unfold y. ring.
Qed.

(** In every rounding mode and for all operands, [f64_sqrt] gives the result and
    the flags of the square root of IEEE 754. *)
Theorem f64_sqrt_returns m a st :
  in_mode m st -> is_pattern F64 a ->
  returns (f64_sqrt a st) (ieee_sqrt F64 m a) st.
Proof.
  intros Hst Ha. unfold f64_sqrt. cbv zeta. rewrite signF64UI_sign, expF64UI_expo, fracF64UI_frac by done.
  unfold ieee_sqrt. rewrite (is_nan_fields F64), (is_zero_fields F64), (is_inf_fields F64).
  cbn [ewidth F64]. change (2 ^ 11 - 1) with 2047.
  destruct (Z.eqb_spec (expo F64 a) 2047) as [E|E]; cbn [andb].
  { rewrite E. cbn [Z.eqb andb]. destruct (frac F64 a =? 0) eqn:Ef; cbn [negb].
    - destruct (sign_of F64 a); cbn [negb]; [by apply returns_raise|by apply returns_pure].
    - apply propagateNaNF64UI_returns. split; [done|]. by rewrite (snan_zero F64), orb_false_r. }
  rewrite lor_eqb_0.
  destruct ((expo F64 a =? 0) && (frac F64 a =? 0)) eqn:Hz.
  { destruct (sign_of F64 a); by apply returns_pure. }
  destruct (sign_of F64 a); [by apply returns_raise|].
  assert (is_finite F64 a = true) as Hf by (rewrite is_finite_fields, negb_true_iff, Z.eqb_neq by done; done).
  destruct (norm_operandF64 a Hf) as (HS & He & Hv); [by rewrite is_zero_fields by done|].
  set (norm := if expo F64 a =? 0 then _ else _) in *. change 4503599627370496 with (2 ^ 52).
  set (S := Z.lor (sig64 norm) (2 ^ 52)) in *. clearbody S. set (e := exp64 norm) in *. clearbody e.
  destruct (sqrt_operand 53 S e 1023) as [Ho Hsq]; [lia|done|lia|].
  destruct (f64_sqrt_sig_agrees (Z.land e 1) S Ho HS) as [Hag Hr].
  eapply returns_mono; [eapply (roundPackToF64_rounded m); [done| |done|exact Hag|reflexivity]|].
  - rewrite Z.shiftr_div_pow2 by lia. change (2 ^ 1) with 2. divlia.
  - cbv beta. intros u fl. replace (sqrt (absval F64 a)) with (sqrt (IZR ((2 - Z.land e 1) * S) / 4503599627370496) * 4611686018427387904 *
      bpow (Z.shiftr (e - 1023) 1 + 1022 - 10 + emin F64))%R; [done|].
    rewrite Hv. change (emin F64) with (-1074). replace (e - 1 + -1074) with (e - 1023 - (53 - 1)) by lia. rewrite Hsq.
    change (IZR (2 ^ (53 - 1))) with 4503599627370496%R. rewrite Rmult_assoc. f_equal.
    change 4611686018427387904%R with (IZR (2 ^ 62)). rewrite <-bpow_IZR, <-bpow_add by lia. f_equal. lia.
Qed.

