(* ===== verification/SoftIeee.v ===== *)
(** * SoftFloat: the operations against the standard

    The specifications of Ieee.v and of the files of the operations leave no
    choice: operands and mode determine the pattern and the flags.  The theorems
    say that each function computes exactly these. *)

From Stdlib Require Import ZArith Lia Reals Lra.
From stdpp Require Import base tactics list numbers.
From S2P Require Import Prelude Ieee SoftFloat SoftRound SoftAdd SoftMul SoftDiv SoftFma SoftConv SoftToInt SoftMinMag SoftRsqrt SoftSqrt.

(** ** What it means *)

(** At most one pattern with one set of flags satisfies [P]. *)
Class Determined (P : Z -> Z -> Prop) : Prop :=
  determined : forall u fl u' fl', P u fl -> P u' fl' -> u = u' /\ fl = fl'.

(** The call's value and flags are the only ones that satisfy [P], and nothing
    else of the state changes. *)
Definition gives (r : Z * softfloat_state) (P : Z -> Z -> Prop) (st : softfloat_state) : Prop :=
  exists u fl, r = (u, softfloat_raiseFlags fl st) /\ forall u' fl', P u' fl' <-> u' = u /\ fl' = fl.

Lemma returns_gives P `{Determined P} r st : returns r P st -> gives r P st.
Proof.
  intros (u & fl & -> & HP). exists u, fl. split; [done|]. intros u' fl'. split; [|by intros [-> ->]].
  intros HP'. exact (determined _ _ _ _ HP' HP).
Qed.

(** Calls that meet one deterministic specification are the same. *)
Lemma returns_unique P `{Determined P} r r' st : returns r P st -> returns r' P st -> r = r'.
Proof. intros (u & fl & -> & H1) (u' & fl' & -> & H2). by destruct (determined _ _ _ _ H1 H2) as [-> ->]. Qed.

(** ** The specification determines the result *)

Section Unique.
Context (F : format) `{ValidFormat F}.
Local Notation p := (prec F).

Lemma last_place_unique x e e' : last_place F x e -> last_place F x e' -> e = e'.
Proof.
  assert (forall a b, last_place F x a -> last_place F x b -> a <= b) as Hle.
  { intros a b (Ha & _ & Hda) (Hb & Hxb & _). destruct Hda as [->|Hda]; [done|].
    assert (a + p - 1 < b + p) by (apply bpow_lt_inv; lra). lia. }
  intros. apply Z.le_antisymm; auto.
Qed.

(** A larger exponent is a larger value. *)
Lemma absval_lt u v : exp_of F u < exp_of F v -> (absval F u < absval F v)%R.
Proof.
  intros Hlt. rewrite !absval_sig by done.
  pose proof (sig_of_range F u) as Hu. pose proof (frac_range F v).
  assert (expo F v <> 0) as Hv by (pose proof (expo_range F u); unfold exp_of in Hlt; lia).
  assert (2 ^ (p - 1) <= sig_of F v) as Hs by (unfold sig_of; rewrite (proj2 (Z.eqb_neq _ _) Hv); lia).
  pose proof prec_valid. set (k := exp_of F u - 1 + emin F).
  apply Rlt_le_trans with (bpow p * bpow k)%R.
  - apply scale_lt. rewrite bpow_IZR by lia. apply IZR_lt. lia.
  - apply Rle_trans with (bpow (p - 1) * bpow (exp_of F v - 1 + emin F))%R.
    + rewrite <-!bpow_add. apply bpow_le. unfold k. lia.
    + apply scale_le. rewrite bpow_IZR by lia. by apply IZR_le.
Qed.

Lemma absval_inj u v :
  is_pattern F u -> is_pattern F v -> sign_of F u = sign_of F v -> absval F u = absval F v -> u = v.
Proof.
  intros Hu Hv Hs Ha. rewrite (signed_eta F u Hu), (signed_eta F v Hv), Hs. f_equal.
  assert (exp_of F u = exp_of F v) as He.
  { destruct (Z.lt_total (exp_of F u) (exp_of F v)) as [Hl|[?|Hl]]; [|done|]; apply absval_lt in Hl; lra. }
  rewrite !absval_sig, He, scale_eq in Ha by done. apply eq_IZR in Ha.
  pose proof (frac_range F u). pose proof (frac_range F v). pose proof (expo_range F u). pose proof (expo_range F v).
  rewrite !mag_eq by done. unfold exp_of, sig_of in *.
  destruct (Z.eqb_spec (expo F u) 0), (Z.eqb_spec (expo F v) 0); lia.
Qed.

Lemma rounded_unique m s x u fl u' fl' :
  rounded F m s x u fl -> rounded F m s x u' fl' -> u = u' /\ fl = fl'.
Proof.
  intros H1 H2.
  destruct H1 as [e n u ix un He Hn Hlt Hp _ Hs Ha Hix Hun|e n He Hn Hge],
    H2 as [e' n' u' ix' un' He' Hn' Hlt' Hp' _ Hs' Ha' Hix' Hun'|e' n' He' Hn' Hge'];
    rewrite (last_place_unique x e' e) in * by done; rewrite (rounds_unique _ _ _ _ _ Hn' Hn) in *; try lra; [|done].
  split; [apply absval_inj; congruence|].
  assert (ix = ix') as -> by (apply Bool.eq_iff_eq_true; by rewrite Hix, Hix').
  assert (un = un') as -> by (apply Bool.eq_iff_eq_true; by rewrite Hun, Hun'). done.
Qed.

Lemma rounds_to_unique m zs r u fl u' fl' :
  rounds_to F m zs r u fl -> rounds_to F m zs r u' fl' -> u = u' /\ fl = fl'.
Proof.
  intros [(? & -> & ->)|[[? H1]|[? H1]]] [(? & -> & ->)|[[? H2]|[? H2]]]; try lra; [done| |];
    exact (rounded_unique _ _ _ _ _ _ _ H1 H2).
Qed.

(** A number of the format rounds to itself. *)
Lemma rounds_to_self m u :
  is_pattern F u -> is_finite F u = true -> rounds_to F m (sign_of F u) (value F u) u 0.
Proof.
  intros Hu Hf. destruct (is_zero F u) eqn:Hz.
  - left. unfold value. rewrite absval_zero by done. split_and!; [case_match; lra| |done].
    rewrite (signed_eta F u Hu) at 1. unfold zero. f_equal. by apply Z.eqb_eq.
  - pose proof (absval_pos F u Hz) as Hp. apply rounds_to_signed; [done|].
    cut (rounded F m (sign_of F u) (absval F u) (signed F (sign_of F u) (mag F u)) 0); [by rewrite <-signed_eta|].
    rewrite mag_eq by done.
    pose proof (mag_eq F u) as Hm. apply Z.ltb_lt in Hf.
    pose proof (frac_range F u). pose proof (expo_range F u). pose proof (pow_prec F).
    rewrite absval_sig by done. unfold exp_of, sig_of.
    destruct (Z.eqb_spec (expo F u) 0) as [E|E].
    + rewrite E in *. change (Z.max 0 1 - 1) with 0. apply rounded_exact; done || lia.
    + rewrite Z.max_l by lia.
      replace (expo F u * 2 ^ (p - 1) + frac F u) with ((expo F u - 1) * 2 ^ (p - 1) + (2 ^ (p - 1) + frac F u)) by ring.
      apply rounded_exact; done || lia.
Qed.
End Unique.

(** ** The specifications are deterministic *)

#[export] Instance rounds_to_determined F `{ValidFormat F} m zs r : Determined (rounds_to F m zs r).
Proof. intros u fl u' fl'. by apply rounds_to_unique. Qed.

#[export] Instance nan_result_determined F b : Determined (nan_result F b).
Proof. intros u fl u' fl' [-> ->] [-> ->]. done. Qed.

#[export] Instance const_determined v f : Determined (fun u fl => u = v /\ fl = f).
Proof. intros u fl u' fl' [-> ->] [-> ->]. done. Qed.

(** A specification by cases, each of them deterministic. *)
Ltac by_cases_determined :=
  intros u fl u' fl'; cbv beta zeta;
  repeat (match goal with |- context [if ?b then _ else _] => destruct b end);
  first [apply nan_result_determined|apply rounds_to_determined; apply _|apply rounded_unique; apply _|by intros [-> ->] [-> ->]].

Section Determined.
Context (F G : format) `{ValidFormat F} `{ValidFormat G} (m : mode).

#[export] Instance ieee_add_determined a b : Determined (ieee_add F m a b).
Proof. unfold ieee_add. by_cases_determined. Qed.
#[export] Instance ieee_sub_determined a b : Determined (ieee_sub F m a b).
Proof. apply ieee_add_determined. Qed.
#[export] Instance ieee_mul_determined a b : Determined (ieee_mul F m a b).
Proof. unfold ieee_mul. by_cases_determined. Qed.
#[export] Instance ieee_div_determined a b : Determined (ieee_div F m a b).
Proof. unfold ieee_div. by_cases_determined. Qed.
#[export] Instance ieee_fma_determined a b c : Determined (ieee_fma F m a b c).
Proof. unfold ieee_fma. by_cases_determined. Qed.
#[export] Instance ieee_sqrt_determined a : Determined (ieee_sqrt F m a).
Proof. unfold ieee_sqrt. by_cases_determined. Qed.
#[export] Instance ieee_convert_determined a : Determined (ieee_convert F G m a).
Proof. unfold ieee_convert. by_cases_determined. Qed.
#[export] Instance ieee_of_int_determined n : Determined (ieee_of_int F m n).
Proof. unfold ieee_of_int. apply _. Qed.
#[export] Instance ieee_to_int_determined lo hi exact a : Determined (ieee_to_int F lo hi m exact a).
Proof.
  intros z fl z' fl'. unfold ieee_to_int.
  destruct (is_nan F a); [by intros [-> ->] [-> ->]|]. destruct (is_inf F a); [by intros [-> ->] [-> ->]|].
  intros (n & Hn & Hz) (n' & Hn' & Hz'). rewrite (rounds_unique _ _ _ _ _ Hn' Hn) in Hz'. cbv zeta in *.
  destruct (_ && _) in Hz, Hz'; [|by destruct Hz as [-> ->], Hz' as [-> ->]].
  destruct Hz as (-> & ix & Hix & ->), Hz' as (-> & ix' & Hix' & ->).
  assert (ix = ix') as -> by (apply Bool.eq_iff_eq_true; by rewrite Hix, Hix'). done.
Qed.
End Determined.

(** ** Special patterns *)

Lemma infinity_eta F `{ValidFormat F} a : is_pattern F a -> is_inf F a = true -> infinity F (sign_of F a) = a.
Proof. intros Ha Hi%Z.eqb_eq. unfold infinity. rewrite <-Hi. symmetry. by apply signed_eta. Qed.

Lemma infinity_inf F `{ValidFormat F} s :
  is_nan F (infinity F s) = false /\ is_inf F (infinity F s) = true /\ sign_of F (infinity F s) = s /\
  is_pattern F (infinity F s).
Proof.
  pose proof (inf_mag_lt F). pose proof (pow_prec_pos F). destruct (pow_ewidth F).
  assert (0 <= inf_mag F < 2 ^ (prec F + ewidth F - 1)) as Hr by (split; [unfold inf_mag; nia|done]).
  unfold is_nan, is_inf, infinity. rewrite signed_mag, signed_sign by done.
  split_and!; [lia|lia|done|by apply signed_pattern].
Qed.

Lemma finite_not_special F u : is_finite F u = true -> is_nan F u = false /\ is_inf F u = false.
Proof. unfold is_finite, is_nan, is_inf. lia. Qed.

Lemma u64_is_pattern z : is_pattern F64 (u64 z).
Proof. change (0 <= z mod 2 ^ 64 < 2 ^ 64). apply Z.mod_pos_bound. lia. Qed.

Lemma f32_to_f64_pattern a st : is_pattern F64 (f32_to_f64 a st).1.
Proof. unfold f32_to_f64. repeat case_match; cbn [fst]; apply u64_is_pattern. Qed.

(** ** The operations *)

(** C14: [f64_mulAdd] gives the exact [a * b + c], rounded once, for all operands
    and rounding modes, with the flags of IEEE 754. *)
Theorem f64_mulAdd_ieee m a b c st :
  in_mode m st -> is_pattern F64 a -> is_pattern F64 b -> is_pattern F64 c ->
  gives (f64_mulAdd a b c st) (ieee_fma F64 m a b c) st.
Proof. intros. by apply returns_gives; [apply _|apply f64_mulAdd_returns]. Qed.

(** [(1 + 2^-27)^2 - (1 + 2^-26) = 2^-54], which a rounded product would lose. *)
Lemma f64_mulAdd_ieee_witness :
  f64_mulAdd 0x3FF0000002000000 0x3FF0000002000000 0xBFF0000004000000 init_state =
    (0x3C90000000000000, init_state) /\
  gives (f64_mulAdd 0x3FF0000002000000 0x3FF0000002000000 0xBFF0000004000000 init_state)
    (ieee_fma F64 RNE 0x3FF0000002000000 0x3FF0000002000000 0xBFF0000004000000) init_state.
Proof. split; [vm_compute; reflexivity|]. apply f64_mulAdd_ieee; try (by split); unfold is_pattern; simpl; lia. Defined.

(** C21: [f32_mulAdd] gives the exact [a * b + c], rounded once, likewise. *)
Theorem f32_mulAdd_ieee m a b c st :
  in_mode m st -> is_pattern F32 a -> is_pattern F32 b -> is_pattern F32 c ->
  gives (f32_mulAdd a b c st) (ieee_fma F32 m a b c) st.
Proof. intros. by apply returns_gives; [apply _|apply f32_mulAdd_returns]. Qed.

(** [(1 + 2^-12)^2 - (1 + 2^-11) = 2^-24], which a rounded product would lose. *)
Lemma f32_mulAdd_ieee_witness :
  f32_mulAdd 0x3F800800 0x3F800800 0xBF801000 init_state =
    (0x33800000, init_state) /\
  gives (f32_mulAdd 0x3F800800 0x3F800800 0xBF801000 init_state)
    (ieee_fma F32 RNE 0x3F800800 0x3F800800 0xBF801000) init_state.
Proof. split; [vm_compute; reflexivity|]. apply f32_mulAdd_ieee; try (by split); unfold is_pattern; simpl; lia. Defined.

(** C15: [f64_div], which computes the quotient from an approximate reciprocal of
    32 bits, is the division of IEEE 754 for all operands and rounding modes. *)
Theorem f64_div_ieee m a b st :
  in_mode m st -> is_pattern F64 a -> is_pattern F64 b ->
  gives (f64_div a b st) (ieee_div F64 m a b) st.
Proof. intros. by apply returns_gives; [apply _|apply f64_div_returns]. Qed.

(** [1 / 3]. *)
Lemma f64_div_ieee_witness :
  f64_div 0x3FF0000000000000 0x4008000000000000 init_state =
    (0x3FD5555555555555, softfloat_raiseFlags softfloat_flag_inexact init_state) /\
  gives (f64_div 0x3FF0000000000000 0x4008000000000000 init_state)
    (ieee_div F64 RNE 0x3FF0000000000000 0x4008000000000000) init_state.
Proof. split; [vm_compute; reflexivity|]. apply f64_div_ieee; try (by split); unfold is_pattern; simpl; lia. Defined.

(** C16: [f64_sqrt], which starts from a table of linear approximations, is the
    square root of IEEE 754 for all operands and rounding modes. *)
Theorem f64_sqrt_ieee m a st :
  in_mode m st -> is_pattern F64 a ->
  gives (f64_sqrt a st) (ieee_sqrt F64 m a) st.
Proof. intros. by apply returns_gives; [apply _|apply f64_sqrt_returns]. Qed.

(** The root of 2. *)
Lemma f64_sqrt_ieee_witness :
  f64_sqrt 0x4000000000000000 init_state =
    (0x3FF6A09E667F3BCD, softfloat_raiseFlags softfloat_flag_inexact init_state) /\
  gives (f64_sqrt 0x4000000000000000 init_state)
    (ieee_sqrt F64 RNE 0x4000000000000000) init_state.
Proof. split; [vm_compute; reflexivity|]. apply f64_sqrt_ieee; try (by split); unfold is_pattern; simpl; lia. Defined.

(** [f32_sqrt] is the square root of IEEE 754 for all operands and rounding
    modes. *)
Theorem f32_sqrt_ieee m a st :
  in_mode m st -> is_pattern F32 a ->
  gives (f32_sqrt a st) (ieee_sqrt F32 m a) st.
Proof. intros. by apply returns_gives; [apply _|apply f32_sqrt_returns]. Qed.

(** The root of 2. *)
Lemma f32_sqrt_ieee_witness :
  f32_sqrt 0x40000000 init_state =
    (0x3FB504F3, softfloat_raiseFlags softfloat_flag_inexact init_state) /\
  gives (f32_sqrt 0x40000000 init_state)
    (ieee_sqrt F32 RNE 0x40000000) init_state.
Proof. split; [vm_compute; reflexivity|]. apply f32_sqrt_ieee; try (by split); unfold is_pattern; simpl; lia. Defined.

(** C18: [f64_mul] is the multiplication of IEEE 754 for all operands and rounding
    modes. *)
Theorem f64_mul_ieee m a b st :
  in_mode m st -> is_pattern F64 a -> is_pattern F64 b ->
  gives (f64_mul a b st) (ieee_mul F64 m a b) st.
Proof. intros. by apply returns_gives; [apply _|apply f64_mul_returns]. Qed.

(** [1.5 * 1.5 = 2.25], exactly. *)
Lemma f64_mul_ieee_witness :
  f64_mul 0x3FF8000000000000 0x3FF8000000000000 init_state =
    (0x4002000000000000, init_state) /\
  gives (f64_mul 0x3FF8000000000000 0x3FF8000000000000 init_state)
    (ieee_mul F64 RNE 0x3FF8000000000000 0x3FF8000000000000) init_state.
Proof. split; [vm_compute; reflexivity|]. apply f64_mul_ieee; try (by split); unfold is_pattern; simpl; lia. Defined.

(** C17: [f64_add] and [f64_sub] are the addition and the subtraction of IEEE 754
    for all operands and rounding modes, the signs of zeros included. *)
Theorem f64_add_sub_ieee m a b st :
  in_mode m st -> is_pattern F64 a -> is_pattern F64 b ->
  gives (f64_add a b st) (ieee_add F64 m a b) st /\
  gives (f64_sub a b st) (ieee_sub F64 m a b) st.
Proof.
  intros. split; apply returns_gives; try apply _; [by apply f64_add_returns|by apply f64_sub_returns].
Qed.

(** A sum that overflows. *)
Lemma f64_add_sub_ieee_witness :
  f64_add 0x7FEFFFFFFFFFFFFF 0x7FEFFFFFFFFFFFFF init_state =
    (0x7FF0000000000000, softfloat_raiseFlags 5 init_state) /\
  gives (f64_add 0x7FEFFFFFFFFFFFFF 0x7FEFFFFFFFFFFFFF init_state)
    (ieee_add F64 RNE 0x7FEFFFFFFFFFFFFF 0x7FEFFFFFFFFFFFFF) init_state /\
  gives (f64_sub 0x7FEFFFFFFFFFFFFF 0x7FEFFFFFFFFFFFFF init_state)
    (ieee_sub F64 RNE 0x7FEFFFFFFFFFFFFF 0x7FEFFFFFFFFFFFFF) init_state.
Proof. split; [vm_compute; reflexivity|]. apply f64_add_sub_ieee; try (by split); unfold is_pattern; simpl; lia. Defined.

(** [f32_add] and [f32_sub] are the addition and the subtraction of IEEE 754
    for all operands and rounding modes, the signs of zeros included. *)
Theorem f32_add_sub_ieee m a b st :
  in_mode m st -> is_pattern F32 a -> is_pattern F32 b ->
  gives (f32_add a b st) (ieee_add F32 m a b) st /\
  gives (f32_sub a b st) (ieee_sub F32 m a b) st.
Proof.
  intros. split; apply returns_gives; try apply _; [by apply f32_add_returns|by apply f32_sub_returns].
Qed.

(** [1.5 + 2^-24] is inexact and keeps [1.5]. *)
Lemma f32_add_sub_ieee_witness :
  f32_add 0x3FC00000 0x33800000 init_state =
    (0x3FC00000, softfloat_raiseFlags softfloat_flag_inexact init_state) /\
  gives (f32_add 0x3FC00000 0x33800000 init_state)
    (ieee_add F32 RNE 0x3FC00000 0x33800000) init_state /\
  gives (f32_sub 0x3FC00000 0x33800000 init_state)
    (ieee_sub F32 RNE 0x3FC00000 0x33800000) init_state.
Proof. split; [vm_compute; reflexivity|]. apply f32_add_sub_ieee; try (by split); unfold is_pattern; simpl; lia. Defined.

(** [f32_mul] and [f32_div] are the multiplication and the division of IEEE 754
    for all operands and rounding modes. *)
Theorem f32_mul_div_ieee m a b st :
  in_mode m st -> is_pattern F32 a -> is_pattern F32 b ->
  gives (f32_mul a b st) (ieee_mul F32 m a b) st /\
  gives (f32_div a b st) (ieee_div F32 m a b) st.
Proof.
  intros. split; apply returns_gives; try apply _; [by apply f32_mul_returns|by apply f32_div_returns].
Qed.

(** [1 / 3]. *)
Lemma f32_mul_div_ieee_witness :
  f32_div 0x3F800000 0x40400000 init_state =
    (0x3EAAAAAB, softfloat_raiseFlags softfloat_flag_inexact init_state) /\
  gives (f32_mul 0x3F800000 0x40400000 init_state) (ieee_mul F32 RNE 0x3F800000 0x40400000) init_state /\
  gives (f32_div 0x3F800000 0x40400000 init_state) (ieee_div F32 RNE 0x3F800000 0x40400000) init_state.
Proof. split; [vm_compute; reflexivity|]. apply f32_mul_div_ieee; try (by split); unfold is_pattern; simpl; lia. Defined.

(** ** Conversions *)

(** Widening is rounding, in every mode, of a number that needs none. *)
Lemma f32_to_f64_converts m a st :
  is_pattern F32 a -> returns (f32_to_f64 a st) (ieee_convert F32 F64 m a) st.
Proof.
  intros Ha. pose proof (f32_to_f64_pattern a st) as Hu.
  destruct (f32_to_f64_exact a st Ha) as (u & fl & E & Hw). rewrite E in *. exists u, fl. split; [done|].
  unfold ieee_widen in Hw. unfold ieee_convert.
  destruct (is_nan F32 a); [done|]. destruct (is_inf F32 a); [done|].
  destruct Hw as [(Hf & <- & ->) <-]. by apply rounds_to_self; [apply _|..].
Qed.

(** C19: [f64_to_f32] rounds every double correctly to single precision, and
    [f32_to_f64] every single, exactly, to double precision, with the flags of
    IEEE 754. *)
Theorem float_conversions_ieee m a st :
  in_mode m st ->
  (is_pattern F64 a -> gives (f64_to_f32 a st) (ieee_convert F64 F32 m a) st) /\
  (is_pattern F32 a -> gives (f32_to_f64 a st) (ieee_convert F32 F64 m a) st).
Proof.
  intros. split; intros; apply returns_gives; try apply _; [by apply f64_to_f32_returns|by apply f32_to_f64_converts].
Qed.

(** The double precision [1/3]; the smallest subnormal single, as a double. *)
Lemma float_conversions_ieee_witness :
  f64_to_f32 0x3FD5555555555555 init_state =
    (0x3EAAAAAB, softfloat_raiseFlags softfloat_flag_inexact init_state) /\
  f32_to_f64 1 init_state = (0x36A0000000000000, init_state) /\
  gives (f64_to_f32 0x3FD5555555555555 init_state) (ieee_convert F64 F32 RNE 0x3FD5555555555555) init_state /\
  gives (f32_to_f64 1 init_state) (ieee_convert F32 F64 RNE 1) init_state.
Proof.
  split; [vm_compute; reflexivity|]. split; [vm_compute; reflexivity|].
  split; apply (float_conversions_ieee RNE); try (by split); unfold is_pattern; simpl; lia.
Defined.

(** The conversions from 64-bit integers, signed and unsigned, give the
    correctly rounded float of either format for every integer. *)
Theorem int_to_float_ieee m a st :
  in_mode m st ->
  (- 2 ^ 63 <= a < 2 ^ 63 ->
   gives (i64_to_f64 a st) (ieee_of_int F64 m a) st /\ gives (i64_to_f32 a st) (ieee_of_int F32 m a) st) /\
  (0 <= a < 2 ^ 64 ->
   gives (ui64_to_f64 a st) (ieee_of_int F64 m a) st /\ gives (ui64_to_f32 a st) (ieee_of_int F32 m a) st).
Proof.
  intros Hst. destruct (i64_to_f32_rounded m a st Hst) as [Hi Hu].
  split; intros Ha; split; apply returns_gives; try apply _;
    [by apply i64_to_f64_rounded|by apply Hi|by apply ui64_to_f64_rounded|by apply Hu].
Qed.

(** [2^24 + 1] is a tie in single precision. *)
Lemma int_to_float_ieee_witness :
  i64_to_f32 0x1000001 init_state =
    (0x4B800000, softfloat_raiseFlags softfloat_flag_inexact init_state) /\
  gives (i64_to_f64 0x1000001 init_state) (ieee_of_int F64 RNE 0x1000001) init_state /\
  gives (i64_to_f32 0x1000001 init_state) (ieee_of_int F32 RNE 0x1000001) init_state.
Proof.
  split; [vm_compute; reflexivity|]. destruct (int_to_float_ieee RNE 0x1000001 init_state) as [Hi _]; [by split|].
  apply Hi. lia.
Defined.

(** C20: the conversions of doubles to 64-bit integers round in the direction asked
    for, or towards zero; out of range or a NaN gives the bound of RISC-V and the
    invalid flag, and nothing else. *)
Theorem f64_to_i64_ieee m exact a st :
  is_pattern F64 a ->
  gives (f64_to_i64 a (mode_code m) exact st) (ieee_to_int F64 (- 2 ^ 63) (2 ^ 63 - 1) m exact a) st /\
  gives (f64_to_ui64 a (mode_code m) exact st) (ieee_to_int F64 0 (2 ^ 64 - 1) m exact a) st /\
  gives (f64_to_i64_r_minMag a exact st) (ieee_to_int F64 (- 2 ^ 63) (2 ^ 63 - 1) RTZ exact a) st /\
  gives (f64_to_ui64_r_minMag a exact st) (ieee_to_int F64 0 (2 ^ 64 - 1) RTZ exact a) st.
Proof.
  intros Ha. destruct (f64_to_i64_returns m exact a st Ha), (f64_to_i64_r_minMag_returns exact a st Ha).
  split_and!; (apply returns_gives; [apply _|assumption]).
Qed.

(** [-0.5], rounded up to 0 as a signed and as an unsigned number. *)
Lemma f64_to_i64_ieee_witness :
  f64_to_i64 0xBFE0000000000000 softfloat_round_max true init_state =
    (0, softfloat_raiseFlags softfloat_flag_inexact init_state) /\
  gives (f64_to_i64 0xBFE0000000000000 (mode_code RUP) true init_state)
    (ieee_to_int F64 (- 2 ^ 63) (2 ^ 63 - 1) RUP true 0xBFE0000000000000) init_state /\
  gives (f64_to_ui64 0xBFE0000000000000 (mode_code RUP) true init_state)
    (ieee_to_int F64 0 (2 ^ 64 - 1) RUP true 0xBFE0000000000000) init_state.
Proof.
  split; [vm_compute; reflexivity|].
  destruct (f64_to_i64_ieee RUP true 0xBFE0000000000000 init_state) as (H1 & H2 & _); [unfold is_pattern; simpl; lia|].
  by split.
Defined.

(** The conversions of single precision numbers to 32-bit integers, likewise. *)
Theorem f32_to_i32_ieee m exact a st :
  is_pattern F32 a ->
  gives (f32_to_i32 a (mode_code m) exact st) (ieee_to_int F32 (- 2 ^ 31) (2 ^ 31 - 1) m exact a) st /\
  gives (f32_to_ui32 a (mode_code m) exact st) (ieee_to_int F32 0 (2 ^ 32 - 1) m exact a) st /\
  gives (f32_to_i32_r_minMag a exact st) (ieee_to_int F32 (- 2 ^ 31) (2 ^ 31 - 1) RTZ exact a) st /\
  gives (f32_to_ui32_r_minMag a exact st) (ieee_to_int F32 0 (2 ^ 32 - 1) RTZ exact a) st.
Proof.
  intros Ha. destruct (f32_to_i32_returns m exact a st Ha), (f32_to_i32_r_minMag_returns exact a st Ha).
  split_and!; (apply returns_gives; [apply _|assumption]).
Qed.

(** [2.5], to the even neighbour. *)
Lemma f32_to_i32_ieee_witness :
  f32_to_i32 0x40200000 softfloat_round_near_even true init_state =
    (2, softfloat_raiseFlags softfloat_flag_inexact init_state) /\
  gives (f32_to_i32 0x40200000 (mode_code RNE) true init_state)
    (ieee_to_int F32 (- 2 ^ 31) (2 ^ 31 - 1) RNE true 0x40200000) init_state.
Proof.
  split; [vm_compute; reflexivity|]. apply (f32_to_i32_ieee RNE true 0x40200000 init_state). unfold is_pattern. simpl. lia.
Defined.
