(* ===== verification/SoftLaws.v ===== *)
(** * SoftFloat: laws of the operations

    What follows from the standard: round trips of the conversions, and
    equalities between calls of different functions, bit for bit and flag for
    flag. *)

From Stdlib Require Import ZArith Lia Reals Lra.
From stdpp Require Import base tactics list numbers.
From S2P Require Import Prelude Ieee SoftFloat SoftRound SoftAdd SoftMul SoftConv SoftToInt SoftFma SoftIeee.

(** ** Round trips *)

(** A single precision number converted to double precision and back is
    the same pattern, in every rounding mode and without a flag. *)
Theorem f32_f64_f32 m a st :
  in_mode m st -> is_pattern F32 a -> is_nan F32 a = false ->
  let '(u, st1) := f32_to_f64 a st in f64_to_f32 u st1 = (a, st).
Proof.
  intros Hst Ha Hn. pose proof (f32_to_f64_pattern a st) as Hu.
  destruct (f32_to_f64_exact a st Ha) as (u & fl & E & Hw). rewrite E in *. cbn [fst] in Hu.
  unfold ieee_widen in Hw. rewrite Hn in Hw.
  assert (fl = 0) as -> by (destruct (is_inf F32 a); [tauto|by destruct Hw as [(_ & _ & ->) _]]).
  rewrite raise_0. destruct (f64_to_f32_returns m u st Hst Hu) as (v & fl & -> & Hc). unfold ieee_convert in Hc.
  destruct (is_inf F32 a) eqn:Hi.
  - destruct Hw as [-> _]. destruct (infinity_inf F64 (sign_of F32 a)) as (H1 & H2 & H3 & _).
    rewrite H1, H2, H3, (infinity_eta F32) in Hc by done. destruct Hc as [-> ->]. by rewrite raise_0.
  - destruct Hw as [(Hf & Hv & _) Hs]. destruct (finite_not_special F64 u Hf) as [-> ->] in Hc.
    rewrite Hv, Hs in Hc.
    assert (is_finite F32 a = true) as Hfa by (unfold is_nan, is_inf, is_finite in *; lia).
    destruct (rounds_to_unique F32 _ _ _ _ _ _ _ Hc (rounds_to_self F32 m a Ha Hfa)) as [-> ->].
    by rewrite raise_0.
Qed.

(** A subnormal number. *)
Lemma f32_f64_f32_witness :
  f32_to_f64 3 init_state = (0x36B8000000000000, init_state) /\
  (let '(u, st1) := f32_to_f64 3 init_state in f64_to_f32 u st1 = (3, init_state)).
Proof. split; [vm_compute; reflexivity|]. apply (f32_f64_f32 RNE); try (by split); unfold is_pattern; simpl; lia. Defined.

Lemma int_to_f64_pattern a st : is_pattern F64 (i32_to_f64 a st).1 /\ is_pattern F64 (ui32_to_f64 a st).1.
Proof. unfold i32_to_f64, ui32_to_f64. split; repeat case_match; cbn [fst]; apply u64_is_pattern. Qed.

(** A value that is an integer converts to that integer. *)
Lemma ieee_to_int_exact F lo hi m exact u a z fl :
  exactly F (IZR a) u 0 -> lo <= a <= hi -> ieee_to_int F lo hi m exact u z fl -> z = a /\ fl = 0.
Proof.
  intros (Hf & Hv & _) Ha. unfold ieee_to_int. destruct (finite_not_special F u Hf) as [-> ->].
  intros (n & Hn & Hr). cbv zeta in Hr.
  assert (absval F u = IZR (if sign_of F u then - a else a)) as Habs.
  { unfold value in Hv. destruct (sign_of F u); [|done]. rewrite opp_IZR. lra. }
  rewrite Habs in *. rewrite (rounds_unique _ _ _ _ _ Hn (rounds_IZR m _ _)) in *.
  assert ((if sign_of F u then - (if sign_of F u then - a else a) else if sign_of F u then - a else a) = a) as E
    by (destruct (sign_of F u); lia).
  rewrite E in Hr. rewrite (proj2 (andb_true_iff _ _)) in Hr by (split; lia).
  destruct Hr as (-> & [] & Hix & ->); [|by rewrite andb_false_r]. by destruct (proj1 Hix eq_refl).
Qed.

(** Every 32-bit integer, signed or unsigned, survives the conversion to
    double precision and back, whatever the rounding mode. *)
Theorem i32_f64_i32 m exact a st :
  (- 2 ^ 31 <= a < 2 ^ 31 ->
   let '(u, st1) := i32_to_f64 a st in f64_to_i32 u (mode_code m) exact st1 = (a, st)) /\
  (0 <= a < 2 ^ 32 ->
   let '(u, st1) := ui32_to_f64 a st in f64_to_ui32 u (mode_code m) exact st1 = (a, st)).
Proof.
  destruct (i32_to_f64_exact a st) as [Hi Hui]. destruct (int_to_f64_pattern a st) as [Hp Hpu].
  split; intros Ha; [specialize (Hi Ha) as (u & fl & E & Hx)|specialize (Hui Ha) as (u & fl & E & Hx)]; rewrite E in *;
    pose proof Hx as (_ & _ & ->); rewrite raise_0;
    [destruct (f64_to_i32_returns m exact u st Hp) as [(z & fl & -> & Hz) _]|
     destruct (f64_to_i32_returns m exact u st Hpu) as [_ (z & fl & -> & Hz)]];
    (eapply (ieee_to_int_exact F64) in Hz as [-> ->]; [by rewrite raise_0|exact Hx|lia]).
Qed.

(** The most negative integer. *)
Lemma i32_f64_i32_witness :
  i32_to_f64 (- 2 ^ 31) init_state = (0xC1E0000000000000, init_state) /\
  (let '(u, st1) := i32_to_f64 (- 2 ^ 31) init_state in f64_to_i32 u (mode_code RDN) true st1 = (- 2 ^ 31, init_state)).
Proof. split; [vm_compute; reflexivity|]. apply (proj1 (i32_f64_i32 RDN true (- 2 ^ 31) init_state)). lia. Defined.

(** ** Equalities of the operations *)

Lemma value_one : value F64 0x3FF0000000000000 = 1%R.
Proof.
  replace 0x3FF0000000000000 with (signed F64 false (1022 * 2 ^ (prec F64 - 1) + 2 ^ (prec F64 - 1))) by reflexivity.
  unfold value. rewrite absval_signed, signed_sign; try done; try (cbn; lia).
  rewrite <-bpow_IZR by done. by rewrite <-bpow_add.
Qed.

Lemma ieee_fma_one m a b u fl :
  is_pattern F64 a -> ieee_fma F64 m a 0x3FF0000000000000 b u fl -> ieee_add F64 m a b u fl.
Proof.
  intros Ha. unfold ieee_fma, ieee_add. rewrite value_one, Rmult_1_r.
  change (is_nan F64 0x3FF0000000000000) with false. change (is_snan F64 0x3FF0000000000000) with false.
  change (is_zero F64 0x3FF0000000000000) with false. change (is_inf F64 0x3FF0000000000000) with false.
  change (sign_of F64 0x3FF0000000000000) with false.
  rewrite xorb_false_r, !andb_false_r, !orb_false_r. cbn [orb].
  destruct (is_nan F64 a || is_nan F64 b); [done|]. destruct (is_inf F64 a) eqn:Hi; [|done].
  by rewrite (infinity_eta F64).
Qed.

(** C22: the fused multiply-add with the second factor [1.0] is the addition, bit
    for bit and flag for flag, NaNs, infinities and zeros included. *)
Theorem f64_mulAdd_one m a b st :
  in_mode m st -> is_pattern F64 a -> is_pattern F64 b ->
  f64_mulAdd a 0x3FF0000000000000 b st = f64_add a b st.
Proof.
  intros Hst Ha Hb. assert (is_pattern F64 0x3FF0000000000000) as H1 by (unfold is_pattern; cbn; lia).
  apply (returns_unique (ieee_add F64 m a b) _ _ st); [|by apply f64_add_returns].
  eapply returns_mono; [by apply f64_mulAdd_returns|]. intros. by apply ieee_fma_one.
Qed.

(** [inf - inf] is invalid both ways. *)
Lemma f64_mulAdd_one_witness :
  f64_add 0x7FF0000000000000 0xFFF0000000000000 init_state =
    (0x7FF8000000000000, softfloat_raiseFlags softfloat_flag_invalid init_state) /\
  f64_mulAdd 0x7FF0000000000000 0x3FF0000000000000 0xFFF0000000000000 init_state =
    f64_add 0x7FF0000000000000 0xFFF0000000000000 init_state.
Proof.
  split; [vm_compute; reflexivity|]. apply (f64_mulAdd_one RNE); try (by split); unfold is_pattern; simpl; lia.
Defined.

Lemma ieee_add_comm F `{ValidFormat F} m a b u fl :
  is_pattern F a -> is_pattern F b -> ieee_add F m a b u fl -> ieee_add F m b a u fl.
Proof.
  intros Ha Hb. unfold ieee_add. rewrite (orb_comm (is_nan F a)), (orb_comm (is_snan F a)), (Rplus_comm (value F a)).
  destruct (is_nan F b || is_nan F a); [done|].
  pose proof (infinity_eta F a Ha) as Ea. pose proof (infinity_eta F b Hb) as Eb.
  destruct (is_inf F a), (is_inf F b); try done; destruct (sign_of F a), (sign_of F b); cbn; try done.
  all: rewrite <-Ea, <-Eb by done; done.
Qed.

(** The addition of double precision numbers is commutative, in its result
    and in the flags it raises. *)
Theorem f64_add_comm m a b st :
  in_mode m st -> is_pattern F64 a -> is_pattern F64 b -> f64_add a b st = f64_add b a st.
Proof.
  intros Hst Ha Hb. apply (returns_unique (ieee_add F64 m a b) _ _ st); [by apply f64_add_returns|].
  eapply returns_mono; [by apply f64_add_returns|]. intros. by apply (ieee_add_comm F64).
Qed.

(** Multiplication by [1.0] returns every operand but a NaN as it is, and
    raises no flag. *)
Theorem f64_mul_one m a st :
  in_mode m st -> is_pattern F64 a -> is_nan F64 a = false -> f64_mul a 0x3FF0000000000000 st = (a, st).
Proof.
  intros Hst Ha Hn. assert (is_pattern F64 0x3FF0000000000000) as H1 by (unfold is_pattern; cbn; lia).
  destruct (f64_mul_returns m a _ st Hst Ha H1) as (u & fl & -> & Hr). unfold ieee_mul in Hr.
  rewrite Hn, value_one, Rmult_1_r in Hr.
  change (is_nan F64 0x3FF0000000000000) with false in Hr. change (is_zero F64 0x3FF0000000000000) with false in Hr.
  change (is_inf F64 0x3FF0000000000000) with false in Hr. change (sign_of F64 0x3FF0000000000000) with false in Hr.
  rewrite xorb_false_r, !orb_false_r in Hr. destruct (is_inf F64 a) eqn:Hi.
  - assert (is_zero F64 a = false) as Hz by (unfold is_zero, is_inf in *; pose proof (eq_refl : (inf_mag F64 =? 0) = false); lia).
    rewrite Hz, (infinity_eta F64) in Hr by done. destruct Hr as [-> ->]. by rewrite raise_0.
  - assert (is_finite F64 a = true) as Hf by (unfold is_nan, is_inf, is_finite in *; lia).
    destruct (rounds_to_unique F64 _ _ _ _ _ _ _ Hr (rounds_to_self F64 m a Ha Hf)) as [-> ->]. by rewrite raise_0.
Qed.
