(* ===== verification/Spike.v ===== *)
(** * Spike: the state of a hart, decode.h and trap.h

    The instruction set simulator in tb/riscv-isa-sim/riscv that the processor is
    compared with.  An instruction is a program over the state of the hart that
    may throw a trap; the changes made before a trap stay.  Registers are the
    64-bit [reg_t] of the code; [xlen] is 32 or 64 and does not change. *)

From Stdlib Require Import ZArith Lia.
From stdpp Require Import base tactics list numbers.
From coqutil Require Import Datatypes.RecordSetters.
Import OCamlLikeNotations.
From S2P Require Import Prelude SoftFloat.

#[global] Open Scope ocaml_like_record_set.

(** ** Configuration

    What configure, the ISA string and the platform fix.  [addr_to_mem],
    [mmio_load] and [mmio_store] are the interface simif.h: what the platform
    does with an access to a device is a function of the accesses before it. *)
Inductive mmio_t := Mmio_load (addr len : Z) | Mmio_store (addr : Z) (bytes : list Z).

Class Config := {
  xlen : Z;
  max_isa : Z;
  has_ext : bool;                    (** an extension is registered ([ext != NULL]) *)
  hart_id : Z;
  enable_dirty : bool;               (** RISCV_ENABLE_DIRTY *)
  enable_misaligned : bool;          (** RISCV_ENABLE_MISALIGNED *)
  addr_to_mem : Z -> bool;           (** physical addresses that are memory *)
  mmio_load : list mmio_t -> Z -> Z -> option (list Z);
  mmio_store : list mmio_t -> Z -> list Z -> bool;
}.

Class ConfigOk `{Config} : Prop := xlen_cases : xlen = 32 \/ xlen = 64.

(** ** encoding.h: privileges, mstatus, causes *)

Definition PRV_U : Z := 0.
Definition PRV_S : Z := 1.
Definition PRV_H : Z := 2.
Definition PRV_M : Z := 3.

Definition MSTATUS_SIE : Z := 0x00000002.
Definition MSTATUS_MIE : Z := 0x00000008.
Definition MSTATUS_SPIE : Z := 0x00000020.
Definition MSTATUS_MPIE : Z := 0x00000080.
Definition MSTATUS_SPP : Z := 0x00000100.
Definition MSTATUS_MPP : Z := 0x00001800.
Definition MSTATUS_FS : Z := 0x00006000.
Definition MSTATUS_XS : Z := 0x00018000.
Definition MSTATUS_MPRV : Z := 0x00020000.
Definition MSTATUS_SUM : Z := 0x00040000.
Definition MSTATUS_MXR : Z := 0x00080000.
Definition MSTATUS_TVM : Z := 0x00100000.
Definition MSTATUS_TW : Z := 0x00200000.
Definition MSTATUS_TSR : Z := 0x00400000.
Definition MSTATUS32_SD : Z := 0x80000000.
Definition MSTATUS_UXL : Z := 0x0000000300000000.
Definition MSTATUS_SXL : Z := 0x0000000C00000000.
Definition MSTATUS64_SD : Z := 0x8000000000000000.

Definition CAUSE_MISALIGNED_FETCH : Z := 0x0.
Definition CAUSE_FETCH_ACCESS : Z := 0x1.
Definition CAUSE_ILLEGAL_INSTRUCTION : Z := 0x2.
Definition CAUSE_BREAKPOINT : Z := 0x3.
Definition CAUSE_MISALIGNED_LOAD : Z := 0x4.
Definition CAUSE_LOAD_ACCESS : Z := 0x5.
Definition CAUSE_MISALIGNED_STORE : Z := 0x6.
Definition CAUSE_STORE_ACCESS : Z := 0x7.
Definition CAUSE_USER_ECALL : Z := 0x8.
Definition CAUSE_SUPERVISOR_ECALL : Z := 0x9.
Definition CAUSE_MACHINE_ECALL : Z := 0xb.
Definition CAUSE_FETCH_PAGE_FAULT : Z := 0xc.
Definition CAUSE_LOAD_PAGE_FAULT : Z := 0xd.
Definition CAUSE_STORE_PAGE_FAULT : Z := 0xf.

(** ** trap.h *)

(** [which] and, for a [mem_trap_t], [tval]; [get_tval] of the others is 0. *)
Record trap_t := Trap { cause : Z; tval : Z }.

Definition trap_illegal_instruction (v : Z) : trap_t := Trap CAUSE_ILLEGAL_INSTRUCTION v.
Definition trap_breakpoint (v : Z) : trap_t := Trap CAUSE_BREAKPOINT v.
Definition trap_instruction_address_misaligned (v : Z) : trap_t := Trap CAUSE_MISALIGNED_FETCH v.
Definition trap_instruction_access_fault (v : Z) : trap_t := Trap CAUSE_FETCH_ACCESS v.
Definition trap_load_address_misaligned (v : Z) : trap_t := Trap CAUSE_MISALIGNED_LOAD v.
Definition trap_store_address_misaligned (v : Z) : trap_t := Trap CAUSE_MISALIGNED_STORE v.
Definition trap_load_access_fault (v : Z) : trap_t := Trap CAUSE_LOAD_ACCESS v.
Definition trap_store_access_fault (v : Z) : trap_t := Trap CAUSE_STORE_ACCESS v.
Definition trap_instruction_page_fault (v : Z) : trap_t := Trap CAUSE_FETCH_PAGE_FAULT v.
Definition trap_load_page_fault (v : Z) : trap_t := Trap CAUSE_LOAD_PAGE_FAULT v.
Definition trap_store_page_fault (v : Z) : trap_t := Trap CAUSE_STORE_PAGE_FAULT v.
Definition trap_user_ecall : trap_t := Trap CAUSE_USER_ECALL 0.
Definition trap_supervisor_ecall : trap_t := Trap CAUSE_SUPERVISOR_ECALL 0.
Definition trap_machine_ecall : trap_t := Trap CAUSE_MACHINE_ECALL 0.

(** ** processor.h and mmu.h: the state *)

Record dcsr_t := Dcsr {
  dcsr_prv : Z; dcsr_step : bool;
  ebreakm : bool; ebreakh : bool; ebreaks : bool; ebreaku : bool;
  dcsr_halt : bool; dcsr_cause : Z;
}.

Record mcontrol_t := Mcontrol {
  mc_type : Z; mc_dmode : bool; mc_maskmax : Z; mc_select : bool; mc_timing : bool;
  mc_action : Z; mc_chain : bool; mc_match : Z;
  mc_m : bool; mc_h : bool; mc_s : bool; mc_u : bool;
  mc_execute : bool; mc_store : bool; mc_load : bool;
}.

Inductive single_step_t := STEP_NONE | STEP_STEPPING | STEP_STEPPED.

Inductive trigger_operation_t := OPERATION_EXECUTE | OPERATION_STORE | OPERATION_LOAD.

Record trigger_matched_t := Trigger_matched {
  tm_index : Z; tm_operation : trigger_operation_t; tm_address : Z; tm_data : Z;
}.

(** The host pointer of an entry is the physical address it stands for, so one
    offset serves for both fields of the code's [tlb_entry_t]. *)
Record mmu_t := Mmu {
  tlb_data : Z -> Z;
  tlb_insn_tag : Z -> Z;
  tlb_load_tag : Z -> Z;
  tlb_store_tag : Z -> Z;
  load_reservation_address : Z;
  check_triggers_fetch : bool;
  check_triggers_load : bool;
  check_triggers_store : bool;
  matched_trigger : option trigger_matched_t;
}.

(** [npc] is the local of the instruction functions; [fp] the globals of
    SoftFloat; [mem] is memory and [io] the accesses to devices so far, the
    latest first. *)
Record state_t := State {
  pc : Z; npc : Z;
  XPR : list Z; FPR : list (Z * Z);
  prv : Z; misa : Z; mstatus : Z;
  mepc : Z; mtval : Z; mscratch : Z; mtvec : Z; mcause : Z; minstret : Z;
  mie : Z; mip : Z; medeleg : Z; mideleg : Z; mcounteren : Z; scounteren : Z;
  sepc : Z; stval : Z; sscratch : Z; stvec : Z; satp : Z; scause : Z;
  dpc : Z; dscratch : Z; dcsr : dcsr_t;
  tselect : Z; mcontrol : list mcontrol_t; tdata2 : list Z;
  pmpcfg : list Z; pmpaddr : list Z;
  fflags : Z; frm : Z;
  serialized : bool; single_step : single_step_t;
  fp : softfloat_state;
  mmu : mmu_t; mem : Z -> Z; io : list mmio_t;
}.

(** ** Programs that may throw

    The exceptions are the traps and [trigger_matched_t]; [Abort] is [abort()]. *)

Inductive result (A : Type) :=
| Done (a : A) (s : state_t)
| Throw (t : trap_t) (s : state_t)
| Trigger (t : trigger_matched_t) (s : state_t)
| Abort (s : state_t).
Arguments Done {A} a s.
Arguments Throw {A} t s.
Arguments Trigger {A} t s.
Arguments Abort {A} s.

Definition Exec (A : Type) : Type := state_t -> result A.

#[export] Instance Exec_ret : MRet Exec := fun _ a s => Done a s.
#[export] Instance Exec_bind : MBind Exec := fun _ _ k m s =>
  match m s with
  | Done a s => k a s
  | Throw t s => Throw t s
  | Trigger t s => Trigger t s
  | Abort s => Abort s
  end.

Definition gets {A} (f : state_t -> A) : Exec A := fun s => Done (f s) s.
Definition puts (f : state_t -> state_t) : Exec unit := fun s => Done tt (f s).
Definition throw {A} (t : trap_t) : Exec A := fun s => Throw t s.
Definition abort {A} : Exec A := fun s => Abort s.
Definition when (b : bool) (m : Exec unit) : Exec unit := if b then m else mret tt.

(** ** decode.h: fields of an instruction word *)

Definition insn_length (x : Z) : Z :=
  if Z.land x 0x03 <? 0x03 then 2
  else if Z.land x 0x1f <? 0x1f then 4
  else if Z.land x 0x3f <? 0x3f then 6
  else 8.

Section Insn.
Variable b : Z.

Definition x (lo len : Z) : Z := Z.land (Z.shiftr b lo) (Z.shiftl 1 len - 1).
Definition xs (lo len : Z) : Z := u64 (Z.shiftr (s64 (Z.shiftl (s64 b) (64 - lo - len))) (64 - len)).
Definition imm_sign : Z := xs 63 1.

Definition i_imm : Z := Z.shiftr (s64 b) 20.
Definition s_imm : Z := s64 (x 7 5 + Z.shiftl (xs 25 7) 5).
Definition sb_imm : Z :=
  s64 (Z.shiftl (x 8 4) 1 + Z.shiftl (x 25 6) 5 + Z.shiftl (x 7 1) 11 + Z.shiftl imm_sign 12).
Definition u_imm : Z := Z.shiftl (Z.shiftr (s64 b) 12) 12.
Definition uj_imm : Z :=
  s64 (Z.shiftl (x 21 10) 1 + Z.shiftl (x 20 1) 11 + Z.shiftl (x 12 8) 12 + Z.shiftl imm_sign 20).
Definition rd : Z := x 7 5.
Definition rs1 : Z := x 15 5.
Definition rs2 : Z := x 20 5.
Definition rs3 : Z := x 27 5.
Definition rm : Z := x 12 3.
Definition csr : Z := x 20 12.

Definition rvc_imm : Z := s64 (x 2 5 + Z.shiftl (xs 12 1) 5).
Definition rvc_zimm : Z := x 2 5 + Z.shiftl (x 12 1) 5.
Definition rvc_addi4spn_imm : Z :=
  Z.shiftl (x 6 1) 2 + Z.shiftl (x 5 1) 3 + Z.shiftl (x 11 2) 4 + Z.shiftl (x 7 4) 6.
Definition rvc_addi16sp_imm : Z :=
  s64 (Z.shiftl (x 6 1) 4 + Z.shiftl (x 2 1) 5 + Z.shiftl (x 5 1) 6 + Z.shiftl (x 3 2) 7 + Z.shiftl (xs 12 1) 9).
Definition rvc_lwsp_imm : Z := Z.shiftl (x 4 3) 2 + Z.shiftl (x 12 1) 5 + Z.shiftl (x 2 2) 6.
Definition rvc_ldsp_imm : Z := Z.shiftl (x 5 2) 3 + Z.shiftl (x 12 1) 5 + Z.shiftl (x 2 3) 6.
Definition rvc_swsp_imm : Z := Z.shiftl (x 9 4) 2 + Z.shiftl (x 7 2) 6.
Definition rvc_sdsp_imm : Z := Z.shiftl (x 10 3) 3 + Z.shiftl (x 7 3) 6.
Definition rvc_lw_imm : Z := Z.shiftl (x 6 1) 2 + Z.shiftl (x 10 3) 3 + Z.shiftl (x 5 1) 6.
Definition rvc_ld_imm : Z := Z.shiftl (x 10 3) 3 + Z.shiftl (x 5 2) 6.
Definition rvc_j_imm : Z :=
  s64 (Z.shiftl (x 3 3) 1 + Z.shiftl (x 11 1) 4 + Z.shiftl (x 2 1) 5 + Z.shiftl (x 7 1) 6 + Z.shiftl (x 6 1) 7
       + Z.shiftl (x 9 2) 8 + Z.shiftl (x 8 1) 10 + Z.shiftl (xs 12 1) 11).
Definition rvc_b_imm : Z :=
  s64 (Z.shiftl (x 3 2) 1 + Z.shiftl (x 10 2) 3 + Z.shiftl (x 2 1) 5 + Z.shiftl (x 5 2) 6 + Z.shiftl (xs 12 1) 8).
Definition rvc_rd : Z := rd.
Definition rvc_rs1 : Z := rd.
Definition rvc_rs2 : Z := x 2 5.
Definition rvc_rs1s : Z := 8 + x 7 3.
Definition rvc_rs2s : Z := 8 + x 2 3.
End Insn.

(** ** decode.h: macros *)

Definition sext32 (v : Z) : Z := s32 v.
Definition zext32 (v : Z) : Z := u32 v.
Definition sext_xlen `{Config} (v : Z) : Z := Z.shiftr (s64 (Z.shiftl v (64 - xlen))) (64 - xlen).
Definition zext_xlen `{Config} (v : Z) : Z := Z.shiftr (u64 (Z.shiftl v (64 - xlen))) (64 - xlen).

(** The lowest bit of a mask, and the field it selects. *)
Definition mask_unit (mask : Z) : Z := Z.land mask (Z.lnot (Z.shiftl mask 1)).
Definition get_field (reg mask : Z) : Z := Z.land reg mask / mask_unit mask.
Definition set_field (reg mask v : Z) : Z :=
  Z.lor (Z.land reg (Z.lnot mask)) (Z.land (u64 (u64 v * mask_unit mask)) mask).

Definition require (b : bool) : Exec unit := if b then mret tt else throw (trap_illegal_instruction 0).
Definition require_privilege (p : Z) : Exec unit := v ← gets prv; require (p <=? v).
Definition require_rv64 `{Config} : Exec unit := require (xlen =? 64).
Definition supports_extension (e : Z) (s : state_t) : bool := Z.testbit (misa s) e.
Definition require_extension (e : Z) : Exec unit := b ← gets (supports_extension e); require b.
Definition require_fp : Exec unit := v ← gets mstatus; require (negb (Z.land v MSTATUS_FS =? 0)).

(** Letters of extensions, as bits of misa. *)
Definition ext_A : Z := 0.
Definition ext_C : Z := 2.
Definition ext_D : Z := 3.
Definition ext_F : Z := 5.
Definition ext_M : Z := 12.
Definition ext_Q : Z := 16.
Definition ext_S : Z := 18.
Definition ext_U : Z := 20.

(** [regfile_t]: register 0 of XPR is not written. *)
Definition READ_REG (i : Z) : Exec Z := gets (fun s => XPR s !!! Z.to_nat i).
Definition WRITE_REG (i v : Z) : Exec unit :=
  if i =? 0 then mret tt else puts (fun s => { s with XPR ::= <[Z.to_nat i := u64 v]> }).
Definition READ_FREG (i : Z) : Exec (Z * Z) := gets (fun s => FPR s !!! Z.to_nat i).
Definition RS1 (insn : Z) : Exec Z := READ_REG (rs1 insn).
Definition RS2 (insn : Z) : Exec Z := READ_REG (rs2 insn).
Definition WRITE_RD (insn v : Z) : Exec unit := WRITE_REG (rd insn) v.

(** [dirty_fp_state] intersects mstatus with the mask of FS and SD. *)
Definition dirty_fp_mask `{Config} : Z := Z.lor MSTATUS_FS (if xlen =? 64 then MSTATUS64_SD else MSTATUS32_SD).
Definition dirty_fp_state `{Config} : Exec unit := puts (fun s => { s with mstatus ::= fun v => Z.land v dirty_fp_mask }).
Definition WRITE_FREG `{Config} (i : Z) (v : Z * Z) : Exec unit :=
  puts (fun s => { s with FPR ::= <[Z.to_nat i := v]> });; dirty_fp_state.
Definition WRITE_FRD `{Config} (insn : Z) (v : Z * Z) : Exec unit := WRITE_FREG (rd insn) v.
Definition FRS1 (insn : Z) : Exec (Z * Z) := READ_FREG (rs1 insn).
Definition FRS2 (insn : Z) : Exec (Z * Z) := READ_FREG (rs2 insn).
Definition FRS3 (insn : Z) : Exec (Z * Z) := READ_FREG (rs3 insn).

(** NaN boxing: a narrow value has all ones above it. *)
Definition isBoxedF64 (r : Z * Z) : bool := u64 (r.2 + 1) =? 0.
Definition isBoxedF32 (r : Z * Z) : bool := isBoxedF64 r && (u32 (Z.shiftr r.1 32 + 1) =? 0).
Definition unboxF32 (r : Z * Z) : Z := if isBoxedF32 r then u32 r.1 else defaultNaNF32UI.
Definition unboxF64 (r : Z * Z) : Z := if isBoxedF64 r then r.1 else defaultNaNF64UI.
Definition freg32 (v : Z) : Z * Z := (Z.lor (u64 (Z.shiftl (2 ^ 64 - 1) 32)) v, 2 ^ 64 - 1).
Definition freg64 (v : Z) : Z * Z := (v, 2 ^ 64 - 1).
Definition F32_SIGN : Z := Z.shiftl 1 31.
Definition F64_SIGN : Z := Z.shiftl 1 63.
Definition fsgnj32 (a b : Z * Z) (n x : bool) : Z :=
  Z.lor (Z.land (unboxF32 a) (u32 (Z.lnot F32_SIGN)))
        (Z.land (Z.lxor (if x then unboxF32 a else if n then F32_SIGN else 0) (unboxF32 b)) F32_SIGN).
Definition fsgnj64 (a b : Z * Z) (n x : bool) : Z :=
  Z.lor (Z.land (unboxF64 a) (u64 (Z.lnot F64_SIGN)))
        (Z.land (Z.lxor (if x then unboxF64 a else if n then F64_SIGN else 0) (unboxF64 b)) F64_SIGN).

(** The rounding mode: 7 stands for the one in [frm], 5 and 6 are illegal. *)
Definition RM (insn : Z) : Exec Z :=
  r ← (if rm insn =? 7 then gets frm else mret (rm insn));
  if 4 <? r then throw (trap_illegal_instruction 0) else mret r.

(** A call of a SoftFloat function, which works on the globals. *)
Definition call {A} (f : softfloat_state -> A * softfloat_state) : Exec A :=
  fun s => let '(v, st) := f (fp s) in Done v { s with fp := st }.
Definition set_roundingMode (r : Z) : Exec unit :=
  puts (fun s => { s with fp -> softfloat_roundingMode := r }).

Definition set_fp_exceptions `{Config} : Exec unit :=
  fl ← gets (fun s => softfloat_exceptionFlags (fp s));
  when (negb (fl =? 0)) (dirty_fp_state;; puts (fun s => { s with fflags ::= Z.lor fl }));;
  puts (fun s => { s with fp -> softfloat_exceptionFlags := 0 }).

Definition PC_SERIALIZE_BEFORE : Z := 3.
Definition PC_SERIALIZE_AFTER : Z := 5.
Definition PC_SERIALIZE_WFI : Z := 7.

Definition pc_alignment_mask (s : state_t) : Z := u64 (Z.lnot (if supports_extension ext_C s then 0 else 2)).
Definition check_pc_alignment (v : Z) : Exec unit :=
  m ← gets pc_alignment_mask;
  if negb (Z.land v (u64 (Z.lnot m)) =? 0) then throw (trap_instruction_address_misaligned v) else mret tt.
Definition set_npc (v : Z) : Exec unit := puts (fun s => { s with npc := v }).
Definition set_pc `{Config} (v : Z) : Exec unit := check_pc_alignment (u64 v);; set_npc (u64 (sext_xlen v)).
Definition set_pc_and_serialize (v : Z) : Exec unit :=
  puts (fun s => { s with pc := Z.land (u64 v) (pc_alignment_mask s); npc := PC_SERIALIZE_AFTER }).
Definition wfi : Exec unit := v ← gets npc; set_pc_and_serialize v;; set_npc PC_SERIALIZE_WFI.
Definition serialize : Exec unit := v ← gets npc; set_pc_and_serialize v.

(** The functions rv32_NAME and rv64_NAME that insn_template.cc puts around a body. *)
Definition rv_insn `{Config} (opcode : Z) (body : Exec unit) : Exec Z :=
  p ← gets pc; set_npc (u64 (sext_xlen (p + insn_length opcode)));; body;; gets npc.

(** ** A hart to evaluate on

    RV64 with the extensions I, M, A, F, D, C, S and U, 256 MiB of memory at
    0x80000000, and no devices; and one of RV32. *)
Definition hart_config (w isa : Z) : Config :=
  Build_Config w isa false 0 false false (fun a => (0x80000000 <=? a) && (a <? 0x90000000))
    (fun _ _ _ => None) (fun _ _ _ => false).
Definition rv64_config : Config := hart_config 64 0x800000000014112d.
Definition rv32_config : Config := hart_config 32 0x4014112d.

Lemma rv64_ok : @ConfigOk rv64_config.
Proof. by right. Qed.
Lemma rv32_ok : @ConfigOk rv32_config.
Proof. by left. Qed.

(** A hart before reset, everything 0. *)
Definition blank : state_t :=
  State 0 0 (replicate 32 0) (replicate 32 (0, 0)) 0 0 0 0 0 0 0 0 0 0 0 0 0 0 0 0 0 0 0 0 0 0 0
    (Dcsr 0 false false false false false false 0) 0
    (replicate 4 (Mcontrol 2 false 0 false false 0 false 0 false false false false false false false)) (replicate 4 0)
    (replicate 16 0) (replicate 16 0) 0 0 false STEP_NONE init_state
    (Mmu (fun _ => 0) (fun _ => 2 ^ 64 - 1) (fun _ => 2 ^ 64 - 1) (fun _ => 2 ^ 64 - 1) (2 ^ 64 - 1) false false false None)
    (fun _ => 0) nil.
