(* ===== verification/SpikeAlu.v ===== *)
(** * Spike: integer instructions

    mulhi.h and the instructions of RV32I, RV64I and M that compute on registers
    or jump (riscv/insns/NAME.h is [rv_NAME]).  The registers are 64 bits wide in
    either mode; with 32 bits they hold sign-extended values.  The reference is
    the arithmetic of the ISA manual on numbers of [xlen] bits. *)

From Stdlib Require Import ZArith Lia.
From stdpp Require Import base tactics list numbers.
From coqutil Require Import Datatypes.RecordSetters.
Import OCamlLikeNotations.
From S2P Require Import Prelude SoftFloat Spike.

(** ** mulhi.h *)

Definition mulhu (a b : Z) : Z :=
  let a0 := u32 a in let a1 := Z.shiftr a 32 in
  let b0 := u32 b in let b1 := Z.shiftr b 32 in
  let t := u64 (u64 (a1 * b0) + Z.shiftr (u64 (a0 * b0)) 32) in
  let y1 := u32 t in
  let y2 := u32 (Z.shiftr t 32) in
  let t := u64 (u64 (a0 * b1) + y1) in
  let t := u64 (u64 (u64 (a1 * b1) + y2) + Z.shiftr t 32) in
  let y2 := u32 t in
  let y3 := u32 (Z.shiftr t 32) in
  Z.lor (u64 (Z.shiftl y3 32)) y2.

(** The negations and [a * b] are those of [int64_t], taken to wrap around. *)
Definition mulh (a b : Z) : Z :=
  let negate := negb (eqb (a <? 0) (b <? 0)) in
  let res := mulhu (u64 (if a <? 0 then - a else a)) (u64 (if b <? 0 then - b else b)) in
  s64 (if negate then u64 (Z.lnot res) + Z.b2z (s64 (a * b) =? 0) else res).

Definition mulhsu (a b : Z) : Z :=
  let negate := a <? 0 in
  let res := mulhu (u64 (if a <? 0 then - a else a)) b in
  s64 (if negate then u64 (Z.lnot res) + Z.b2z (u64 (u64 a * b) =? 0) else res).

(** ** Instructions *)

Section Insns.
Context `{Config}.
Variable insn : Z.

Definition SHAMT : Z := Z.land (i_imm insn) 0x3F.
Definition UINT64_MAX : Z := 2 ^ 64 - 1.
Definition INT64_MIN : Z := - 2 ^ 63.

Definition rv_add : Exec unit := a ← RS1 insn; b ← RS2 insn; WRITE_RD insn (sext_xlen (u64 (a + b))).
Definition rv_addi : Exec unit := a ← RS1 insn; WRITE_RD insn (sext_xlen (u64 (a + i_imm insn))).
Definition rv_addiw : Exec unit := require_rv64;; a ← RS1 insn; WRITE_RD insn (sext32 (u64 (i_imm insn + a))).
Definition rv_addw : Exec unit := require_rv64;; a ← RS1 insn; b ← RS2 insn; WRITE_RD insn (sext32 (u64 (a + b))).
Definition rv_and : Exec unit := a ← RS1 insn; b ← RS2 insn; WRITE_RD insn (Z.land a b).
Definition rv_andi : Exec unit := a ← RS1 insn; WRITE_RD insn (Z.land (i_imm insn) a).
Definition rv_auipc : Exec unit := p ← gets pc; WRITE_RD insn (sext_xlen (u64 (u_imm insn + p))).
Definition rv_lui : Exec unit := WRITE_RD insn (u_imm insn).
Definition rv_or : Exec unit := a ← RS1 insn; b ← RS2 insn; WRITE_RD insn (Z.lor a b).
Definition rv_ori : Exec unit := a ← RS1 insn; WRITE_RD insn (Z.lor (i_imm insn) a).
Definition rv_xor : Exec unit := a ← RS1 insn; b ← RS2 insn; WRITE_RD insn (Z.lxor a b).
Definition rv_xori : Exec unit := a ← RS1 insn; WRITE_RD insn (Z.lxor (i_imm insn) a).
Definition rv_sub : Exec unit := a ← RS1 insn; b ← RS2 insn; WRITE_RD insn (sext_xlen (u64 (a - b))).
Definition rv_subw : Exec unit := require_rv64;; a ← RS1 insn; b ← RS2 insn; WRITE_RD insn (sext32 (u64 (a - b))).
Definition rv_slt : Exec unit := a ← RS1 insn; b ← RS2 insn; WRITE_RD insn (Z.b2z (s64 a <? s64 b)).
Definition rv_slti : Exec unit := a ← RS1 insn; WRITE_RD insn (Z.b2z (s64 a <? i_imm insn)).
Definition rv_sltiu : Exec unit := a ← RS1 insn; WRITE_RD insn (Z.b2z (a <? u64 (i_imm insn))).
Definition rv_sltu : Exec unit := a ← RS1 insn; b ← RS2 insn; WRITE_RD insn (Z.b2z (a <? b)).

Definition rv_sll : Exec unit :=
  a ← RS1 insn; b ← RS2 insn; WRITE_RD insn (sext_xlen (u64 (Z.shiftl a (Z.land b (xlen - 1))))).
Definition rv_slli : Exec unit :=
  require (SHAMT <? xlen);; a ← RS1 insn; WRITE_RD insn (sext_xlen (u64 (Z.shiftl a SHAMT))).
Definition rv_slliw : Exec unit := require_rv64;; a ← RS1 insn; WRITE_RD insn (sext32 (u64 (Z.shiftl a SHAMT))).
Definition rv_sllw : Exec unit :=
  require_rv64;; a ← RS1 insn; b ← RS2 insn; WRITE_RD insn (sext32 (u64 (Z.shiftl a (Z.land b 0x1F)))).
Definition rv_sra : Exec unit :=
  a ← RS1 insn; b ← RS2 insn; WRITE_RD insn (sext_xlen (Z.shiftr (sext_xlen a) (Z.land b (xlen - 1)))).
Definition rv_srai : Exec unit :=
  require (SHAMT <? xlen);; a ← RS1 insn; WRITE_RD insn (sext_xlen (Z.shiftr (sext_xlen a) SHAMT)).
Definition rv_sraiw : Exec unit := require_rv64;; a ← RS1 insn; WRITE_RD insn (sext32 (Z.shiftr (s32 a) SHAMT)).
Definition rv_sraw : Exec unit :=
  require_rv64;; a ← RS1 insn; b ← RS2 insn; WRITE_RD insn (sext32 (Z.shiftr (s32 a) (Z.land b 0x1F))).
Definition rv_srl : Exec unit :=
  a ← RS1 insn; b ← RS2 insn; WRITE_RD insn (sext_xlen (Z.shiftr (zext_xlen a) (Z.land b (xlen - 1)))).
Definition rv_srli : Exec unit :=
  require (SHAMT <? xlen);; a ← RS1 insn; WRITE_RD insn (sext_xlen (Z.shiftr (zext_xlen a) SHAMT)).
Definition rv_srliw : Exec unit := require_rv64;; a ← RS1 insn; WRITE_RD insn (sext32 (Z.shiftr (u32 a) SHAMT)).
Definition rv_srlw : Exec unit :=
  require_rv64;; a ← RS1 insn; b ← RS2 insn; WRITE_RD insn (sext32 (Z.shiftr (u32 a) (Z.land b 0x1F))).

Definition rv_mul : Exec unit :=
  require_extension ext_M;; a ← RS1 insn; b ← RS2 insn; WRITE_RD insn (sext_xlen (u64 (a * b))).
Definition rv_mulw : Exec unit :=
  require_extension ext_M;; require_rv64;; a ← RS1 insn; b ← RS2 insn; WRITE_RD insn (sext32 (u64 (a * b))).
Definition rv_mulh : Exec unit :=
  require_extension ext_M;; a ← RS1 insn; b ← RS2 insn;
  if xlen =? 64 then WRITE_RD insn (mulh (s64 a) (s64 b))
  else WRITE_RD insn (sext32 (Z.shiftr (sext32 a * sext32 b) 32)).
Definition rv_mulhsu : Exec unit :=
  require_extension ext_M;; a ← RS1 insn; b ← RS2 insn;
  if xlen =? 64 then WRITE_RD insn (mulhsu (s64 a) b)
  else WRITE_RD insn (sext32 (Z.shiftr (u64 (u64 (sext32 a) * u32 b)) 32)).
Definition rv_mulhu : Exec unit :=
  require_extension ext_M;; a ← RS1 insn; b ← RS2 insn;
  if xlen =? 64 then WRITE_RD insn (mulhu a b)
  else WRITE_RD insn (sext32 (Z.shiftr (u64 (u32 a * u32 b)) 32)).
Definition rv_div : Exec unit :=
  require_extension ext_M;; a ← RS1 insn; b ← RS2 insn;
  let lhs := sext_xlen a in let rhs := sext_xlen b in
  if rhs =? 0 then WRITE_RD insn UINT64_MAX
  else if (lhs =? INT64_MIN) && (rhs =? -1) then WRITE_RD insn lhs
  else WRITE_RD insn (sext_xlen (Z.quot lhs rhs)).
Definition rv_divu : Exec unit :=
  require_extension ext_M;; a ← RS1 insn; b ← RS2 insn;
  let lhs := zext_xlen a in let rhs := zext_xlen b in
  if rhs =? 0 then WRITE_RD insn UINT64_MAX else WRITE_RD insn (sext_xlen (lhs / rhs)).
Definition rv_divuw : Exec unit :=
  require_extension ext_M;; require_rv64;; a ← RS1 insn; b ← RS2 insn;
  let lhs := zext32 a in let rhs := zext32 b in
  if rhs =? 0 then WRITE_RD insn UINT64_MAX else WRITE_RD insn (sext32 (lhs / rhs)).
Definition rv_divw : Exec unit :=
  require_extension ext_M;; require_rv64;; a ← RS1 insn; b ← RS2 insn;
  let lhs := sext32 a in let rhs := sext32 b in
  if rhs =? 0 then WRITE_RD insn UINT64_MAX else WRITE_RD insn (sext32 (Z.quot lhs rhs)).
Definition rv_rem : Exec unit :=
  require_extension ext_M;; a ← RS1 insn; b ← RS2 insn;
  let lhs := sext_xlen a in let rhs := sext_xlen b in
  if rhs =? 0 then WRITE_RD insn lhs
  else if (lhs =? INT64_MIN) && (rhs =? -1) then WRITE_RD insn 0
  else WRITE_RD insn (sext_xlen (Z.rem lhs rhs)).
Definition rv_remu : Exec unit :=
  require_extension ext_M;; a ← RS1 insn; b ← RS2 insn;
  let lhs := zext_xlen a in let rhs := zext_xlen b in
  if rhs =? 0 then WRITE_RD insn (sext_xlen a) else WRITE_RD insn (sext_xlen (lhs mod rhs)).
Definition rv_remuw : Exec unit :=
  require_extension ext_M;; require_rv64;; a ← RS1 insn; b ← RS2 insn;
  let lhs := zext32 a in let rhs := zext32 b in
  if rhs =? 0 then WRITE_RD insn (sext32 lhs) else WRITE_RD insn (sext32 (lhs mod rhs)).
Definition rv_remw : Exec unit :=
  require_extension ext_M;; require_rv64;; a ← RS1 insn; b ← RS2 insn;
  let lhs := sext32 a in let rhs := sext32 b in
  if rhs =? 0 then WRITE_RD insn lhs else WRITE_RD insn (sext32 (Z.rem lhs rhs)).

Definition branch (cond : Z -> Z -> bool) : Exec unit :=
  a ← RS1 insn; b ← RS2 insn;
  if cond a b then p ← gets pc; set_pc (u64 (p + sb_imm insn)) else mret tt.
Definition rv_beq : Exec unit := branch Z.eqb.
Definition rv_bne : Exec unit := branch (fun a b => negb (a =? b)).
Definition rv_blt : Exec unit := branch (fun a b => s64 a <? s64 b).
Definition rv_bge : Exec unit := branch (fun a b => s64 b <=? s64 a).
Definition rv_bltu : Exec unit := branch Z.ltb.
Definition rv_bgeu : Exec unit := branch (fun a b => b <=? a).
Definition rv_jal : Exec unit :=
  tmp ← gets npc; p ← gets pc; set_pc (u64 (p + uj_imm insn));; WRITE_RD insn tmp.
Definition rv_jalr : Exec unit :=
  tmp ← gets npc; a ← RS1 insn; set_pc (Z.land (u64 (a + i_imm insn)) (u64 (Z.lnot 1)));; WRITE_RD insn tmp.
Definition rv_fence : Exec unit := mret tt.
End Insns.

(** ** The reference: arithmetic on [w]-bit numbers *)

Definition sgn (w z : Z) : Z := (z + 2 ^ (w - 1)) mod 2 ^ w - 2 ^ (w - 1).

Inductive alu_op :=
| ADD | SUB | SLL | SLT | SLTU | XOR | SRL | SRA | OR | AND
| MUL | MULH | MULHSU | MULHU | DIV | DIVU | REM | REMU.

(** The result of an operation of the ISA manual on unsigned readings. *)
Definition isa_alu (w : Z) (op : alu_op) (a b : Z) : Z :=
  match op with
  | ADD => (a + b) mod 2 ^ w
  | SUB => (a - b) mod 2 ^ w
  | SLL => (a * 2 ^ (b mod w)) mod 2 ^ w
  | SLT => Z.b2z (sgn w a <? sgn w b)
  | SLTU => Z.b2z (a <? b)
  | XOR => Z.lxor a b
  | SRL => a / 2 ^ (b mod w)
  | SRA => (sgn w a / 2 ^ (b mod w)) mod 2 ^ w
  | OR => Z.lor a b
  | AND => Z.land a b
  | MUL => (a * b) mod 2 ^ w
  | MULH => (sgn w a * sgn w b / 2 ^ w) mod 2 ^ w
  | MULHSU => (sgn w a * b / 2 ^ w) mod 2 ^ w
  | MULHU => a * b / 2 ^ w
  | DIV => if b =? 0 then 2 ^ w - 1 else Z.quot (sgn w a) (sgn w b) mod 2 ^ w
  | DIVU => if b =? 0 then 2 ^ w - 1 else a / b
  | REM => if b =? 0 then a else Z.rem (sgn w a) (sgn w b) mod 2 ^ w
  | REMU => if b =? 0 then a else a mod b
  end.

Definition is_M (op : alu_op) : bool :=
  match op with MUL | MULH | MULHSU | MULHU | DIV | DIVU | REM | REMU => true | _ => false end.

(** What a register holds for a [w]-bit number, and the number it holds. *)
Definition rep `{Config} (v : Z) : Z := u64 (sgn xlen v).
Definition low `{Config} (r : Z) : Z := r mod 2 ^ xlen.
Definition wf_reg `{Config} (r : Z) : Prop := r = rep (low r).

(** The instruction of an operation, on two registers or with an immediate. *)
Definition alu_insn `{Config} (op : alu_op) : Z -> Exec unit :=
  match op with
  | ADD => rv_add | SUB => rv_sub | SLL => rv_sll | SLT => rv_slt | SLTU => rv_sltu | XOR => rv_xor
  | SRL => rv_srl | SRA => rv_sra | OR => rv_or | AND => rv_and | MUL => rv_mul | MULH => rv_mulh
  | MULHSU => rv_mulhsu | MULHU => rv_mulhu | DIV => rv_div | DIVU => rv_divu | REM => rv_rem | REMU => rv_remu
  end.
Definition alu_imm_insn `{Config} (op : alu_op) : option (Z -> Exec unit) :=
  match op with
  | ADD => Some rv_addi | SLT => Some rv_slti | SLTU => Some rv_sltiu | XOR => Some rv_xori
  | OR => Some rv_ori | AND => Some rv_andi | _ => None
  end.
Definition shift_imm_insn `{Config} (op : alu_op) : option (Z -> Exec unit) :=
  match op with SLL => Some rv_slli | SRL => Some rv_srli | SRA => Some rv_srai | _ => None end.
Definition alu_w_insn `{Config} (op : alu_op) : option (Z -> Exec unit) :=
  match op with
  | ADD => Some rv_addw | SUB => Some rv_subw | SLL => Some rv_sllw | SRL => Some rv_srlw | SRA => Some rv_sraw
  | MUL => Some rv_mulw | DIV => Some rv_divw | DIVU => Some rv_divuw | REM => Some rv_remw | REMU => Some rv_remuw
  | _ => None
  end.

(** Writing a register; register 0 stays. *)
Definition write_reg (i v : Z) (s : state_t) : state_t :=
  if i =? 0 then s else { s with XPR ::= <[Z.to_nat i := v]> }.

(** ** Words *)

Lemma sgn_mod w z : 0 < w -> sgn w (z mod 2 ^ w) = sgn w z.
Proof. intros Hw. unfold sgn. by rewrite Zplus_mod_idemp_l. Qed.

Lemma sgn_cong w y z : 0 < w -> y mod 2 ^ w = z mod 2 ^ w -> sgn w y = sgn w z.
Proof. intros Hw E. by rewrite <-(sgn_mod w y), E, sgn_mod. Qed.

Lemma sgn_range w z : 0 < w -> - 2 ^ (w - 1) <= sgn w z < 2 ^ (w - 1).
Proof.
  intros Hw. unfold sgn. assert (2 ^ w = 2 * 2 ^ (w - 1)) as E by (rewrite <-Z.pow_succ_r by lia; f_equal; lia).
  pose proof (Z.mod_pos_bound (z + 2 ^ (w - 1)) (2 ^ w) ltac:(apply Z.pow_pos_nonneg; lia)). lia.
Qed.

Lemma mulhu_spec a b : 0 <= a < 2 ^ 64 -> 0 <= b < 2 ^ 64 -> mulhu a b = a * b / 2 ^ 64.
Proof.
  intros Ha Hb. unfold mulhu. rewrite !Z.shiftr_div_pow2, Z.shiftl_mul_pow2 by lia. unfold u32, u64.
  change 4294967296 with (2 ^ 32). change 18446744073709551616 with (2 ^ 64).
  assert (a = 2 ^ 32 * (a / 2 ^ 32) + a mod 2 ^ 32) as Ea by (apply Z.div_mod; lia).
  assert (b = 2 ^ 32 * (b / 2 ^ 32) + b mod 2 ^ 32) as Eb by (apply Z.div_mod; lia).
  assert (0 <= a / 2 ^ 32 < 2 ^ 32 /\ 0 <= a mod 2 ^ 32 < 2 ^ 32) as [Ha1 Ha0] by divlia.
  assert (0 <= b / 2 ^ 32 < 2 ^ 32 /\ 0 <= b mod 2 ^ 32 < 2 ^ 32) as [Hb1 Hb0] by divlia.
  set (a1 := a / 2 ^ 32) in *. set (a0 := a mod 2 ^ 32) in *. set (b1 := b / 2 ^ 32) in *. set (b0 := b mod 2 ^ 32) in *.
  assert (forall c d, 0 <= c < 2 ^ 32 -> 0 <= d < 2 ^ 32 -> 0 <= c * d <= (2 ^ 32 - 1) * (2 ^ 32 - 1)) as Hp by (intros; nia).
  pose proof (Hp _ _ Ha1 Hb1). pose proof (Hp _ _ Ha1 Hb0). pose proof (Hp _ _ Ha0 Hb1). pose proof (Hp _ _ Ha0 Hb0).
  replace (a * b) with (a1 * b1 * 2 ^ 64 + (a1 * b0 + a0 * b1) * 2 ^ 32 + a0 * b0) by (rewrite Ea, Eb; ring).
  clear Ea Eb. clearbody a1 a0 b1 b0. generalize dependent (a1 * b1). generalize dependent (a1 * b0).
  generalize dependent (a0 * b1). generalize dependent (a0 * b0). intros p00 ? p01 ? p10 ? p11 ?.
  rewrite (Z.mod_small p10), (Z.mod_small p00), (Z.mod_small p01), (Z.mod_small p11) by lia.
  assert (0 <= p00 / 2 ^ 32 < 2 ^ 32) by divlia. rewrite (Z.mod_small (p10 + _)) by lia.
  set (t1 := p10 + p00 / 2 ^ 32) in *. assert (0 <= t1 < 2 ^ 64) by lia.
  assert (0 <= t1 mod 2 ^ 32 < 2 ^ 32) by divlia. rewrite (Z.mod_small (p01 + _)) by lia.
  set (t2 := p01 + t1 mod 2 ^ 32) in *. assert (0 <= t2 < 2 ^ 64) by lia.
  assert (0 <= t1 / 2 ^ 32 < 2 ^ 32 /\ 0 <= t2 / 2 ^ 32 < 2 ^ 32) as [] by divlia.
  rewrite (Z.mod_small (t1 / _)), (Z.mod_small (p11 + _)), (Z.mod_small (p11 + _ + _)) by lia.
  set (t3 := p11 + t1 / 2 ^ 32 + t2 / 2 ^ 32) in *. assert (0 <= t3 < 2 ^ 64) by lia.
  assert (0 <= t3 / 2 ^ 32 < 2 ^ 32) by divlia. rewrite (Z.mod_small (t3 / _)), (Z.mod_small (t3 / _ * _)) by lia.
  rewrite lor_disjoint by divlia. rewrite (Z.mul_comm (t3 / _)), <-Z.div_mod by lia.
  unfold t3, t2, t1. divlia.
Qed.

(** The high word of a negated product. *)
Lemma negated_high P : 0 < 2 ^ 64 -> 0 <= P < 2 ^ 128 ->
  (u64 (Z.lnot (P / 2 ^ 64)) + Z.b2z (P mod 2 ^ 64 =? 0)) mod 2 ^ 64 = (- P / 2 ^ 64) mod 2 ^ 64.
Proof.
  intros _ HP. assert (0 <= P / 2 ^ 64 < 2 ^ 64) as Hq by divlia.
  replace (- P / 2 ^ 64) with (Z.lnot (P / 2 ^ 64) + Z.b2z (P mod 2 ^ 64 =? 0)).
  - change (u64 (Z.lnot (P / 2 ^ 64))) with (Z.lnot (P / 2 ^ 64) mod 2 ^ 64). by rewrite Zplus_mod_idemp_l.
  - unfold Z.lnot. destruct (Z.eqb_spec (P mod 2 ^ 64) 0); cbn [Z.b2z]; divlia.
Qed.

Lemma s64_cong y z : y mod 2 ^ 64 = z mod 2 ^ 64 -> s64 y = s64 z.
Proof. apply (sgn_cong 64). lia. Qed.

Lemma s64_small z : - 2 ^ 63 <= z < 2 ^ 63 -> s64 z = z.
Proof. intros. unfold s64. divlia. Qed.

Lemma sgn64_small z : - 2 ^ 63 <= z < 2 ^ 63 -> sgn 64 z = z.
Proof. apply s64_small. Qed.

Lemma high_range c d : - 2 ^ 63 <= c < 2 ^ 63 -> - 2 ^ 64 < d < 2 ^ 64 -> - 2 ^ 63 <= c * d / 2 ^ 64 < 2 ^ 63.
Proof.
  intros Hc Hd. assert (- 2 ^ 127 <= c * d <= 2 ^ 127) by (change (2 ^ 127) with (2 ^ 63 * 2 ^ 64); nia).
  split; [apply Z.div_le_lower_bound; lia|]. apply Z.div_lt_upper_bound; [lia|].
  assert (c * d < 2 ^ 63 * 2 ^ 64); [|lia]. nia.
Qed.

Lemma mulhsu_spec a b : - 2 ^ 63 <= a < 2 ^ 63 -> 0 <= b < 2 ^ 64 -> mulhsu a b = a * b / 2 ^ 64.
Proof.
  intros Ha Hb. unfold mulhsu. cbv zeta. rewrite <-(s64_small (a * b / 2 ^ 64)) by (apply high_range; lia).
  destruct (Z.ltb_spec a 0) as [Hn|Hn].
  - rewrite (u64_id (- a)) by lia. rewrite mulhu_spec by lia. apply s64_cong.
    assert (u64 (u64 a * b) = (a * b) mod 2 ^ 64) as -> by (unfold u64; by rewrite Zmult_mod_idemp_l).
    replace (a * b) with (- (- a * b)) by ring.
    replace ((- (- a * b)) mod 2 ^ 64 =? 0) with ((- a * b) mod 2 ^ 64 =? 0).
    + rewrite negated_high; [done|lia|]. nia.
    + apply Bool.eq_iff_eq_true. rewrite !Z.eqb_eq. divlia.
  - rewrite u64_id by lia. by rewrite mulhu_spec by lia.
Qed.

Lemma mulh_spec a b : - 2 ^ 63 <= a < 2 ^ 63 -> - 2 ^ 63 <= b < 2 ^ 63 -> mulh a b = a * b / 2 ^ 64.
Proof.
  intros Ha Hb. unfold mulh. cbv zeta. rewrite <-(s64_small (a * b / 2 ^ 64)) by (apply high_range; lia).
  set (a' := if a <? 0 then - a else a). set (b' := if b <? 0 then - b else b).
  assert (0 <= a' <= 2 ^ 63 /\ 0 <= b' <= 2 ^ 63) as [Ha' Hb']
    by (unfold a', b'; destruct (Z.ltb_spec a 0), (Z.ltb_spec b 0); lia).
  rewrite (u64_id a'), (u64_id b') by (clearbody a' b'; lia). rewrite mulhu_spec by (clearbody a' b'; lia).
  destruct (negb (eqb (a <? 0) (b <? 0))) eqn:Hs; apply s64_cong.
  - replace (a * b) with (- (a' * b')) by (unfold a', b'; destruct (a <? 0), (b <? 0); try done; ring).
    replace (s64 (- (a' * b')) =? 0) with ((a' * b') mod 2 ^ 64 =? 0).
    + rewrite negated_high; [done|lia|]. nia.
    + apply Bool.eq_iff_eq_true. rewrite !Z.eqb_eq. unfold s64. divlia.
  - replace (a * b) with (a' * b') by (unfold a', b'; destruct (a <? 0), (b <? 0); try done; ring). done.
Qed.

(** ** Registers *)

Lemma testbit_above w v i : 0 <= w -> 0 <= v < 2 ^ w -> w <= i -> Z.testbit v i = false.
Proof.
  intros Hw Hv Hi. rewrite <-(Z.mod_small v (2 ^ w)) by done. apply Z.mod_pow2_bits_high. lia.
Qed.

Lemma testbit_top w v : 0 < w -> 2 ^ (w - 1) <= v < 2 ^ w -> Z.testbit v (w - 1) = true.
Proof.
  intros Hw Hv. assert (2 ^ w = 2 * 2 ^ (w - 1)) as E by (rewrite <-Z.pow_succ_r by lia; f_equal; lia).
  rewrite Z.testbit_true by lia. replace (v / 2 ^ (w - 1)) with 1; [done|].
  apply (Z.div_unique _ _ _ (v - 2 ^ (w - 1))); lia.
Qed.

Section Refinement.
Context `{ConfigOk}.

Lemma xlen_pos : 0 < xlen.
Proof. destruct xlen_cases as [->| ->]; lia. Qed.

Lemma sext_xlen_sgn v : sext_xlen v = sgn xlen v.
Proof.
  unfold sext_xlen. destruct xlen_cases as [->| ->]; [|by rewrite Z.shiftr_0_r, Z.shiftl_0_r].
  change (64 - 32) with 32. rewrite Z.shiftr_div_pow2, Z.shiftl_mul_pow2 by lia. unfold s64, sgn.
  change (2 ^ 32) with 4294967296. change (2 ^ (32 - 1)) with 2147483648. divlia.
Qed.

Lemma zext_xlen_mod v : zext_xlen v = v mod 2 ^ xlen.
Proof.
  unfold zext_xlen. destruct xlen_cases as [->| ->]; [|by rewrite Z.shiftr_0_r, Z.shiftl_0_r].
  change (64 - 32) with 32. rewrite Z.shiftr_div_pow2, Z.shiftl_mul_pow2 by lia. unfold u64.
  change (2 ^ 32) with 4294967296. divlia.
Qed.

Lemma u64_mod_xlen v : u64 v mod 2 ^ xlen = v mod 2 ^ xlen.
Proof. unfold u64. destruct xlen_cases as [->| ->]; [|apply Zmod_mod]. change (2 ^ 32) with 4294967296. divlia. Qed.

Lemma low_range r : 0 <= low r < 2 ^ xlen.
Proof. apply Z.mod_pos_bound, Z.pow_pos_nonneg; [lia|]. pose proof xlen_pos. lia. Qed.

Lemma low_id v : 0 <= v < 2 ^ xlen -> low v = v.
Proof. apply Z.mod_small. Qed.

Lemma low_rep v : low (rep v) = v mod 2 ^ xlen.
Proof.
  unfold low, rep, sgn, u64. destruct xlen_cases as [->| ->].
  - change (2 ^ 32) with 4294967296. change (2 ^ (32 - 1)) with 2147483648. divlia.
  - change (2 ^ 64) with 18446744073709551616. change (2 ^ (64 - 1)) with 9223372036854775808. divlia.
Qed.

Lemma rep_cong y z : y mod 2 ^ xlen = z mod 2 ^ xlen -> rep y = rep z.
Proof. intros E. unfold rep. by rewrite (sgn_cong xlen y z) by (done || apply xlen_pos). Qed.

Lemma rep_low v : rep (low v) = rep v.
Proof. apply rep_cong, Zmod_mod. Qed.

Lemma rep_wf v : wf_reg (rep v).
Proof. unfold wf_reg. rewrite low_rep. symmetry. apply rep_cong, Zmod_mod. Qed.

(** A result that is sign-extended. *)
Lemma u64_sext v : u64 (sext_xlen v) = rep v.
Proof. by rewrite sext_xlen_sgn. Qed.

Lemma wf_range r : wf_reg r -> 0 <= r < 2 ^ 64.
Proof. intros ->. apply Z.mod_pos_bound. lia. Qed.

(** The signed reading. *)
Lemma s64_wf r : wf_reg r -> s64 r = sgn xlen (low r).
Proof.
  intros Hr. pose proof (low_range r) as Hl. rewrite Hr at 1. revert Hl. generalize (low r). intros v Hv.
  unfold rep, sgn, u64, s64. revert Hv. destruct xlen_cases as [->| ->]; intros Hv.
  - change (2 ^ 32) with 4294967296. change (2 ^ (32 - 1)) with 2147483648. divlia.
  - change (2 ^ 64) with 18446744073709551616. change (2 ^ (64 - 1)) with 9223372036854775808. divlia.
Qed.

(** Sign extension keeps the unsigned order. *)
Lemma rep_ltb v v' : 0 <= v < 2 ^ xlen -> 0 <= v' < 2 ^ xlen -> (rep v <? rep v') = (v <? v').
Proof.
  unfold rep, sgn, u64. destruct xlen_cases as [->| ->]; intros Hv Hv'; apply Bool.eq_iff_eq_true; rewrite !Z.ltb_lt.
  - change (2 ^ 32) with 4294967296 in *. change (2 ^ (32 - 1)) with 2147483648. divlia.
  - change (2 ^ 64) with 18446744073709551616 in *. change (2 ^ (64 - 1)) with 9223372036854775808. divlia.
Qed.

Lemma wf_ltb a b : wf_reg a -> wf_reg b -> (a <? b) = (low a <? low b).
Proof. intros Ha Hb. rewrite Ha, Hb at 1. apply rep_ltb; apply low_range. Qed.

Lemma sgn_small v : 0 <= v < 2 ^ (xlen - 1) -> sgn xlen v = v.
Proof.
  pose proof xlen_pos as Hx. intros Hv. unfold sgn.
  assert (2 ^ xlen = 2 * 2 ^ (xlen - 1)) as E by (rewrite <-Z.pow_succ_r by lia; f_equal; lia).
  rewrite Z.mod_small; lia.
Qed.

Lemma rep_b2z b : u64 (Z.b2z b) = rep (Z.b2z b).
Proof.
  unfold rep. rewrite sgn_small; [done|]. assert (2 ^ 31 <= 2 ^ (xlen - 1)).
  { apply Z.pow_le_mono_r; [lia|]. destruct xlen_cases as [->| ->]; lia. }
  destruct b; cbn [Z.b2z]; lia.
Qed.

(** The bits of a sign-extended number. *)
Lemma rep_testbit v i :
  0 <= v < 2 ^ xlen -> 0 <= i -> Z.testbit (rep v) i = (i <? 64) && Z.testbit v (Z.min i (xlen - 1)).
Proof.
  pose proof xlen_pos as Hx. intros Hv Hi. unfold rep, u64. change 18446744073709551616 with (2 ^ 64).
  destruct (Z.ltb_spec i 64) as [H64|H64]; cbn [andb]; [|by rewrite Z.mod_pow2_bits_high by lia].
  rewrite Z.mod_pow2_bits_low by lia. unfold sgn.
  assert (2 ^ xlen = 2 * 2 ^ (xlen - 1)) as E by (rewrite <-Z.pow_succ_r by lia; f_equal; lia).
  destruct (Z.lt_ge_cases v (2 ^ (xlen - 1))) as [Hlt|Hge].
  - rewrite Z.mod_small by lia. replace (v + 2 ^ (xlen - 1) - 2 ^ (xlen - 1)) with v by lia.
    destruct (Z.min_spec i (xlen - 1)) as [[? ->]|[? ->]]; [done|].
    rewrite !(testbit_above (xlen - 1)); done || lia.
  - replace ((v + 2 ^ (xlen - 1)) mod 2 ^ xlen - 2 ^ (xlen - 1)) with (v - 2 ^ xlen).
    + destruct (Z.min_spec i (xlen - 1)) as [[? ->]|[? ->]].
      * rewrite <-(Z.mod_pow2_bits_low (v - 2 ^ xlen) xlen), <-(Z.mod_pow2_bits_low v xlen) by lia.
        f_equal. rewrite <-(Z_mod_plus_full (v - _) 1). f_equal. lia.
      * rewrite (testbit_top xlen v) by lia. rewrite <-(Z.lnot_involutive (v - 2 ^ xlen)), Z.lnot_spec by lia.
        rewrite (testbit_above (xlen - 1)); [done|lia| |lia]. unfold Z.lnot. lia.
    + rewrite <-(Z_mod_plus_full _ (-1)). rewrite Z.mod_small; lia.
Qed.
End Refinement.

(** ** Values: the expression of an instruction against the reference *)

Section Values.
Context `{ConfigOk}.
Variables a b : Z.
Hypothesis Ha : wf_reg a.
Hypothesis Hb : wf_reg b.
Local Notation w := xlen.

(** Two computations with the same number modulo the width. *)
Lemma rep_u64_cong y z : y mod 2 ^ w = z mod 2 ^ w -> rep (u64 y) = rep (z mod 2 ^ w).
Proof. intros E. apply rep_cong. by rewrite u64_mod_xlen, Zmod_mod. Qed.

Lemma low_bits r v : 0 <= v < 64 -> Z.land r (w - 1) = r mod w.
Proof.
  intros _. destruct xlen_cases as [->| ->]; [apply (land_ones_mod r 5)|apply (land_ones_mod r 6)]; lia.
Qed.

Lemma shamt_low : b mod w = low b mod w.
Proof.
  unfold low. destruct xlen_cases as [->| ->]; [change (2 ^ 32) with 4294967296|change (2 ^ 64) with 18446744073709551616]; divlia.
Qed.

Lemma value_sll : u64 (sext_xlen (u64 (Z.shiftl a (Z.land b (w - 1))))) = rep (isa_alu w SLL (low a) (low b)).
Proof.
  rewrite u64_sext, (low_bits b 0), shamt_low by lia. cbn [isa_alu].
  pose proof (Z.mod_pos_bound (low b) w xlen_pos). rewrite Z.shiftl_mul_pow2 by lia.
  apply rep_u64_cong. unfold low. by rewrite Zmult_mod_idemp_l.
Qed.

Lemma value_srl : u64 (sext_xlen (Z.shiftr (zext_xlen a) (Z.land b (w - 1)))) = rep (isa_alu w SRL (low a) (low b)).
Proof.
  rewrite u64_sext, (low_bits b 0), shamt_low, zext_xlen_mod by lia. cbn [isa_alu].
  pose proof (Z.mod_pos_bound (low b) w xlen_pos). by rewrite Z.shiftr_div_pow2 by lia.
Qed.

Lemma value_sra : u64 (sext_xlen (Z.shiftr (sext_xlen a) (Z.land b (w - 1)))) = rep (isa_alu w SRA (low a) (low b)).
Proof.
  rewrite u64_sext, (low_bits b 0), shamt_low, sext_xlen_sgn by lia. cbn [isa_alu].
  pose proof (Z.mod_pos_bound (low b) w xlen_pos). rewrite Z.shiftr_div_pow2 by lia.
  unfold low at 2. rewrite sgn_mod by apply xlen_pos. apply rep_cong. by rewrite Zmod_mod.
Qed.

(** The bitwise operations work on the sign extensions as on the numbers. *)
Lemma value_bitwise (f : Z -> Z -> Z) (g : bool -> bool -> bool) :
  (forall y z i, 0 <= i -> Z.testbit (f y z) i = g (Z.testbit y i) (Z.testbit z i)) -> g false false = false ->
  (forall y z, 0 <= y < 2 ^ w -> 0 <= z < 2 ^ w -> 0 <= f y z) ->
  u64 (f a b) = rep (f (low a) (low b)).
Proof.
  intros Hf Hg Hpos. pose proof (low_range a) as Hla. pose proof (low_range b) as Hlb. pose proof xlen_pos.
  assert (0 <= f (low a) (low b) < 2 ^ w) as Hfr.
  { split; [by apply Hpos|]. apply Z.nle_gt. intros Hge.
    assert (0 < f (low a) (low b)) as Hp by (pose proof (Z.pow_pos_nonneg 2 w); lia).
    pose proof (Z.bit_log2 _ Hp) as Hbit. apply Z.log2_le_mono in Hge. rewrite Z.log2_pow2 in Hge by lia.
    rewrite Hf, !(testbit_above w), Hg in Hbit by (done || lia). done. }
  apply Z.bits_inj'. intros i Hi. rewrite rep_testbit, Hf by (done || lia).
  unfold u64. change 18446744073709551616 with (2 ^ 64).
  destruct (Z.ltb_spec i 64) as [H64|H64]; cbn [andb]; [|by rewrite Z.mod_pow2_bits_high by lia].
  rewrite Z.mod_pow2_bits_low, Hf by lia. rewrite Ha, Hb at 1.
  rewrite !rep_testbit by (done || lia). by rewrite (proj2 (Z.ltb_lt i 64)) by lia.
Qed.

Lemma value_slt : u64 (Z.b2z (s64 a <? s64 b)) = rep (isa_alu w SLT (low a) (low b)).
Proof. rewrite !s64_wf by done. apply rep_b2z. Qed.

Lemma value_sltu : u64 (Z.b2z (a <? b)) = rep (isa_alu w SLTU (low a) (low b)).
Proof. rewrite wf_ltb by done. apply rep_b2z. Qed.

Lemma sgn_low r : sgn w r = sgn w (low r).
Proof. unfold low. by rewrite sgn_mod by apply xlen_pos. Qed.

Lemma sgn_zero r : (sgn w r =? 0) = (low r =? 0).
Proof.
  unfold low, sgn. apply Bool.eq_iff_eq_true. rewrite !Z.eqb_eq. destruct xlen_cases as [->| ->].
  - change (2 ^ 32) with 4294967296. change (2 ^ (32 - 1)) with 2147483648. divlia.
  - change (2 ^ 64) with 18446744073709551616. change (2 ^ (64 - 1)) with 9223372036854775808. divlia.
Qed.

Lemma rep_mod v : rep (v mod 2 ^ w) = rep v.
Proof. apply rep_cong, Zmod_mod. Qed.

Lemma rep_ones : u64 UINT64_MAX = rep (2 ^ w - 1).
Proof. unfold rep. destruct xlen_cases as [->| ->]; reflexivity. Qed.

Lemma value_rv_div :
  u64 (let lhs := sext_xlen a in let rhs := sext_xlen b in
       if rhs =? 0 then UINT64_MAX
       else if (lhs =? INT64_MIN) && (rhs =? -1) then lhs else sext_xlen (Z.quot lhs rhs)) =
  rep (isa_alu w DIV (low a) (low b)).
Proof.
  cbv zeta. cbn [isa_alu]. rewrite !sext_xlen_sgn, sgn_zero, (sgn_low a), (sgn_low b).
  destruct (low b =? 0); [apply rep_ones|]. rewrite rep_mod.
  destruct (Z.eqb_spec (sgn w (low a)) INT64_MIN) as [E|]; [|done]. cbn [andb].
  destruct (Z.eqb_spec (sgn w (low b)) (-1)) as [E'|]; [|done]. rewrite E, E'.
  assert (w = 64) as Hw.
  { destruct xlen_cases as [Hw|]; [|done]. pose proof (sgn_range w (low a) xlen_pos) as Hr. rewrite E, Hw in Hr.
    unfold INT64_MIN in Hr. lia. }
  unfold rep. rewrite Hw. reflexivity.
Qed.

Lemma value_rem :
  u64 (let lhs := sext_xlen a in let rhs := sext_xlen b in
       if rhs =? 0 then lhs
       else if (lhs =? INT64_MIN) && (rhs =? -1) then 0 else sext_xlen (Z.rem lhs rhs)) =
  rep (isa_alu w REM (low a) (low b)).
Proof.
  cbv zeta. cbn [isa_alu]. rewrite !sext_xlen_sgn, sgn_zero, (sgn_low a), (sgn_low b).
  destruct (low b =? 0); [done|]. rewrite rep_mod.
  destruct (Z.eqb_spec (sgn w (low a)) INT64_MIN) as [E|]; [|done]. cbn [andb].
  destruct (Z.eqb_spec (sgn w (low b)) (-1)) as [E'|]; [|done]. rewrite E, E'.
  unfold rep. destruct xlen_cases as [->| ->]; reflexivity.
Qed.

Lemma value_mulh :
  u64 (if w =? 64 then mulh (s64 a) (s64 b) else sext32 (Z.shiftr (sext32 a * sext32 b) 32)) =
  rep (isa_alu w MULH (low a) (low b)).
Proof.
  cbn [isa_alu]. rewrite rep_mod, !s64_wf by done. pose proof (sgn_range w (low a) xlen_pos).
  pose proof (sgn_range w (low b) xlen_pos). rewrite <-(u64_sext (_ / _)), sext_xlen_sgn.
  destruct xlen_cases as [E|E].
  - rewrite (proj2 (Z.eqb_neq w 64)) by lia. rewrite Z.shiftr_div_pow2 by lia.
    change (sext32 a) with (sgn 32 a). change (sext32 b) with (sgn 32 b). rewrite <-E, <-!sgn_low, E. reflexivity.
  - rewrite (proj2 (Z.eqb_eq w 64)) by done. rewrite E in *. rewrite mulh_spec by lia.
    rewrite (sgn64_small (_ / _)) by (apply high_range; lia). done.
Qed.

Lemma value_mulhsu :
  u64 (if w =? 64 then mulhsu (s64 a) b else sext32 (Z.shiftr (u64 (u64 (sext32 a) * u32 b)) 32)) =
  rep (isa_alu w MULHSU (low a) (low b)).
Proof.
  cbn [isa_alu]. rewrite rep_mod, s64_wf by done. pose proof (sgn_range w (low a) xlen_pos).
  pose proof (low_range b) as Hlb. rewrite <-(u64_sext (_ / _)), sext_xlen_sgn.
  destruct xlen_cases as [E|E].
  - rewrite (proj2 (Z.eqb_neq w 64)) by lia. change (sext32 a) with (sgn 32 a).
    assert (u32 b = low b) as -> by (unfold low, u32; by rewrite E).
    rewrite <-E, <-sgn_low, E. f_equal. rewrite Z.shiftr_div_pow2 by lia.
    match goal with |- sext32 ?v = _ => change (sext32 v) with (sgn 32 v) end.
    apply sgn_cong; [lia|]. unfold u64. rewrite Zmult_mod_idemp_l. change (2 ^ 32) with 4294967296. divlia.
  - rewrite (proj2 (Z.eqb_eq w 64)) by done. rewrite E in *.
    assert (low b = b) as -> by (apply Z.mod_small; rewrite E; by apply wf_range).
    pose proof (wf_range b Hb). rewrite mulhsu_spec by lia.
    rewrite (sgn64_small (_ / _)) by (apply high_range; lia). done.
Qed.

Lemma value_mulhu :
  u64 (if w =? 64 then mulhu a b else sext32 (Z.shiftr (u64 (u32 a * u32 b)) 32)) =
  rep (isa_alu w MULHU (low a) (low b)).
Proof.
  cbn [isa_alu]. pose proof (low_range a) as Hla. pose proof (low_range b) as Hlb. unfold rep.
  destruct xlen_cases as [E|E].
  - rewrite (proj2 (Z.eqb_neq w 64)) by lia.
    assert (u32 b = low b /\ u32 a = low a) as [-> ->] by (unfold low, u32; by rewrite E).
    rewrite E in *. assert (0 <= low a * low b < 2 ^ 32 * 2 ^ 32) by nia.
    rewrite (u64_id (low a * low b)) by lia. by rewrite Z.shiftr_div_pow2 by lia.
  - rewrite (proj2 (Z.eqb_eq w 64)) by done.
    assert (low b = b) as -> by (apply Z.mod_small; rewrite E; by apply wf_range).
    assert (low a = a) as -> by (apply Z.mod_small; rewrite E; by apply wf_range).
    rewrite E, mulhu_spec by (by apply wf_range). unfold sgn, u64.
    change (2 ^ 64) with 18446744073709551616. change (2 ^ (64 - 1)) with 9223372036854775808.
    set (q := _ / _). divlia.
Qed.
End Values.

(** ** Instructions against the reference *)

Section Insns_ok.
Context `{ConfigOk}.

Lemma WRITE_REG_write i v s : WRITE_REG i v s = Done tt (write_reg i (u64 v) s).
Proof. unfold WRITE_REG, write_reg. by destruct (i =? 0). Qed.

Definition reg (i : Z) (s : state_t) : Z := XPR s !!! Z.to_nat i.

Lemma read2 insn (f : Z -> Z -> Exec unit) s :
  (a ← RS1 insn; b ← RS2 insn; f a b) s = f (reg (rs1 insn) s) (reg (rs2 insn) s) s.
Proof. done. Qed.

Lemma with_M (m : Exec unit) s : supports_extension ext_M s = true -> (require_extension ext_M;; m) s = m s.
Proof. intros HM. unfold require_extension, require, gets, mbind, Exec_bind. by rewrite HM. Qed.

Lemma with_rv64 (m : Exec unit) s : xlen = 64 -> (require_rv64;; m) s = m s.
Proof. intros Hx. unfold require_rv64, require, mbind, Exec_bind. by rewrite (proj2 (Z.eqb_eq _ _) Hx). Qed.

(** Both branches write the same register. *)
Lemma WRITE_RD_if insn (c : bool) v v' :
  (if c then WRITE_RD insn v else WRITE_RD insn v') = WRITE_RD insn (if c then v else v').
Proof. by destruct c. Qed.

Lemma land_nonneg y z : 0 <= y -> 0 <= z -> 0 <= Z.land y z.
Proof. intros. apply Z.land_nonneg. by left. Qed.
Lemma lor_nonneg y z : 0 <= y -> 0 <= z -> 0 <= Z.lor y z.
Proof. intros. by apply Z.lor_nonneg. Qed.
Lemma lxor_nonneg y z : 0 <= y -> 0 <= z -> 0 <= Z.lxor y z.
Proof. intros. by apply Z.lxor_nonneg. Qed.

Lemma value_add a b : u64 (sext_xlen (u64 (a + b))) = rep (isa_alu xlen ADD (low a) (low b)).
Proof. rewrite u64_sext. apply rep_u64_cong. unfold low. by rewrite <-Zplus_mod. Qed.
Lemma value_sub a b : u64 (sext_xlen (u64 (a - b))) = rep (isa_alu xlen SUB (low a) (low b)).
Proof. rewrite u64_sext. apply rep_u64_cong. unfold low. by rewrite <-Zminus_mod. Qed.
Lemma value_rv_mul a b : u64 (sext_xlen (u64 (a * b))) = rep (isa_alu xlen MUL (low a) (low b)).
Proof. rewrite u64_sext. apply rep_u64_cong. unfold low. by rewrite <-Zmult_mod. Qed.
Lemma value_and a b : wf_reg a -> wf_reg b -> u64 (Z.land a b) = rep (isa_alu xlen AND (low a) (low b)).
Proof. intros. apply (value_bitwise a b ltac:(done) ltac:(done) Z.land andb); [intros; apply Z.land_spec|done|intros; apply land_nonneg; lia]. Qed.
Lemma value_or a b : wf_reg a -> wf_reg b -> u64 (Z.lor a b) = rep (isa_alu xlen OR (low a) (low b)).
Proof. intros. apply (value_bitwise a b ltac:(done) ltac:(done) Z.lor orb); [intros; apply Z.lor_spec|done|intros; apply lor_nonneg; lia]. Qed.
Lemma value_xor a b : wf_reg a -> wf_reg b -> u64 (Z.lxor a b) = rep (isa_alu xlen XOR (low a) (low b)).
Proof. intros. apply (value_bitwise a b ltac:(done) ltac:(done) Z.lxor xorb); [intros; apply Z.lxor_spec|done|intros; apply lxor_nonneg; lia]. Qed.

Lemma value_divu a b :
  u64 (let lhs := zext_xlen a in let rhs := zext_xlen b in if rhs =? 0 then UINT64_MAX else sext_xlen (lhs / rhs)) =
  rep (isa_alu xlen DIVU (low a) (low b)).
Proof.
  cbv zeta. cbn [isa_alu]. rewrite !zext_xlen_mod. fold (low a) (low b).
  destruct (low b =? 0); [apply rep_ones|apply u64_sext].
Qed.
Lemma value_remu a b :
  u64 (let lhs := zext_xlen a in let rhs := zext_xlen b in if rhs =? 0 then sext_xlen a else sext_xlen (lhs mod rhs)) =
  rep (isa_alu xlen REMU (low a) (low b)).
Proof.
  cbv zeta. cbn [isa_alu]. rewrite !zext_xlen_mod. fold (low a) (low b).
  destruct (low b =? 0); [by rewrite u64_sext, rep_low|apply u64_sext].
Qed.

#[local] Hint Resolve value_add value_sub value_rv_mul value_and value_or value_xor value_sll value_srl value_sra
  value_slt value_sltu value_rv_div value_rem value_divu value_remu value_mulh value_mulhsu value_mulhu : core.

(** C10: in either width, every operation on two registers writes the sign-extended
    result that the ISA manual defines on numbers of [xlen] bits, and changes
    nothing else: division by zero, the overflow of the division of the least
    number by -1 and the high words of products included. *)
Theorem alu_refines_isa op insn s :
  (is_M op = true -> supports_extension ext_M s = true) ->
  wf_reg (reg (rs1 insn) s) -> wf_reg (reg (rs2 insn) s) ->
  alu_insn op insn s =
  Done tt (write_reg (rd insn) (rep (isa_alu xlen op (low (reg (rs1 insn) s)) (low (reg (rs2 insn) s)))) s).
Proof.
  intros HM Ha Hb.
  enough (exists v, alu_insn op insn s = WRITE_RD insn v s /\
            u64 v = rep (isa_alu xlen op (low (reg (rs1 insn) s)) (low (reg (rs2 insn) s)))) as (v & -> & <-)
    by apply WRITE_REG_write.
  destruct op; cbn [alu_insn is_M] in *;
    unfold rv_add, rv_sub, rv_sll, rv_slt, rv_sltu, rv_xor, rv_srl, rv_sra, rv_or, rv_and, rv_mul, rv_mulh, rv_mulhsu,
      rv_mulhu, rv_div, rv_divu, rv_rem, rv_remu;
    rewrite ?with_M by auto; rewrite read2; cbv zeta; rewrite ?WRITE_RD_if;
    (eexists; split; [reflexivity|]); cbv zeta; auto.
Qed.
End Insns_ok.

(** ** Immediates and the 32-bit operations of RV64 *)

(** A 32-bit instruction word as it is fetched: sign-extended. *)
Definition is_insn32 (b : Z) : Prop := b = u64 (s32 b).

Lemma i_imm_range b : is_insn32 b -> - 2 ^ 11 <= i_imm b < 2 ^ 11.
Proof.
  intros ->. unfold i_imm. rewrite Z.shiftr_div_pow2 by lia. change (2 ^ 20) with 1048576.
  unfold s64, u64, s32. divlia.
Qed.

(** The configuration of a 32-bit hart that is otherwise the same. *)
Definition config32 (c : Config) : Config := {|
  xlen := 32; max_isa := @max_isa c; has_ext := @has_ext c; hart_id := @hart_id c;
  enable_dirty := @enable_dirty c; enable_misaligned := @enable_misaligned c; addr_to_mem := @addr_to_mem c;
  mmio_load := @mmio_load c; mmio_store := @mmio_store c |}.

Lemma config32_ok c : @ConfigOk (config32 c).
Proof. by left. Qed.

Section Insns_imm.
Context `{ConfigOk}.

Lemma wf_small z : - 2 ^ 31 <= z < 2 ^ 31 -> wf_reg (u64 z).
Proof.
  intros Hz. unfold wf_reg, rep, low, sgn, u64. destruct xlen_cases as [->| ->].
  - change (2 ^ 32) with 4294967296. change (2 ^ (32 - 1)) with 2147483648. divlia.
  - change (2 ^ 64) with 18446744073709551616. change (2 ^ (64 - 1)) with 9223372036854775808. divlia.
Qed.

Lemma s64_u64 z : - 2 ^ 63 <= z < 2 ^ 63 -> s64 (u64 z) = z.
Proof. intros. unfold s64, u64. divlia. Qed.

(** An operation with an immediate is the operation with its sign extension. *)
Theorem alu_imm_refines_isa op f insn s :
  alu_imm_insn op = Some f -> is_insn32 insn -> wf_reg (reg (rs1 insn) s) ->
  f insn s =
  Done tt (write_reg (rd insn) (rep (isa_alu xlen op (low (reg (rs1 insn) s)) (low (u64 (i_imm insn))))) s).
Proof.
  intros Hf Hi Ha. pose proof (i_imm_range _ Hi) as Hr.
  assert (wf_reg (u64 (i_imm insn))) as Hb by (apply wf_small; lia). pose proof (s64_u64 (i_imm insn) ltac:(lia)) as Hs.
  enough (exists v, f insn s = WRITE_RD insn v s /\
            u64 v = rep (isa_alu xlen op (low (reg (rs1 insn) s)) (low (u64 (i_imm insn))))) as (v & -> & <-)
    by apply WRITE_REG_write.
  assert (forall g : Z -> Z -> Z, (forall y z, g y z = g z y) -> (forall y z, u64 (g y (u64 z)) = u64 (g y z)) ->
    u64 (g (i_imm insn) (reg (rs1 insn) s)) = u64 (g (reg (rs1 insn) s) (u64 (i_imm insn)))) as Hg.
  { intros g Hc Hm. by rewrite Hm, Hc. }
  assert (forall g h, (forall y z i, 0 <= i -> Z.testbit (g y z) i = h (Z.testbit y i) (Z.testbit z i)) ->
    forall y z, u64 (g y (u64 z)) = u64 (g y z)) as Hbits.
  { intros g h Hgh y z. unfold u64. change 18446744073709551616 with (2 ^ 64). apply Z.bits_inj'. intros i Hi'.
    destruct (Z.lt_ge_cases i 64); [|by rewrite !Z.mod_pow2_bits_high by lia].
    by rewrite !Z.mod_pow2_bits_low, !Hgh, Z.mod_pow2_bits_low by lia. }
  destruct op; cbn in Hf; try discriminate Hf; injection Hf as <-; (eexists; split; [reflexivity|]).
  - rewrite <-value_add, !u64_sext. apply rep_cong. unfold u64.
    change 18446744073709551616 with (2 ^ 64). by rewrite Zplus_mod_idemp_r.
  - rewrite <-value_slt by done. by rewrite Hs.
  - by rewrite <-value_sltu.
  - rewrite <-value_xor by done. apply Hg; [apply Z.lxor_comm|]. apply (Hbits _ xorb). intros. apply Z.lxor_spec.
  - rewrite <-value_or by done. apply Hg; [apply Z.lor_comm|]. apply (Hbits _ orb). intros. apply Z.lor_spec.
  - rewrite <-value_and by done. apply Hg; [apply Z.land_comm|]. apply (Hbits _ andb). intros. apply Z.land_spec.
Qed.

(** A shift by an immediate, which must be below the width. *)
Theorem shift_imm_refines_isa op f insn s :
  shift_imm_insn op = Some f ->
  f insn s =
  if SHAMT insn <? xlen
  then Done tt (write_reg (rd insn) (rep (isa_alu xlen op (low (reg (rs1 insn) s)) (SHAMT insn))) s)
  else Throw (trap_illegal_instruction 0) s.
Proof.
  intros Hf. assert (0 <= SHAMT insn < 64) as Hr.
  { unfold SHAMT. change 0x3F with (2 ^ 6 - 1). rewrite land_ones_mod by lia. divlia. }
  assert (SHAMT insn < xlen -> Z.land (SHAMT insn) (xlen - 1) = SHAMT insn) as Hl.
  { intros. rewrite (low_bits _ 0) by lia. apply Z.mod_small. lia. }
  assert (SHAMT insn < xlen -> low (SHAMT insn) = SHAMT insn) as Hlow.
  { intros. apply low_id. assert (2 ^ 32 <= 2 ^ xlen); [|lia]. apply Z.pow_le_mono_r; [lia|].
    destruct xlen_cases as [->| ->]; lia. }
  destruct (Z.ltb_spec (SHAMT insn) xlen) as [Hlt|Hge].
  - specialize (Hl Hlt). specialize (Hlow Hlt).
    enough (exists v, f insn s = WRITE_RD insn v s /\
              u64 v = rep (isa_alu xlen op (low (reg (rs1 insn) s)) (low (SHAMT insn)))) as (v & -> & E).
    { unfold WRITE_RD. rewrite WRITE_REG_write, E. by rewrite Hlow. }
    destruct op; cbn in Hf; try discriminate Hf; injection Hf as <-; unfold rv_slli, rv_srli, rv_srai;
      rewrite (proj2 (Z.ltb_lt _ _) Hlt); (eexists; split; [reflexivity|]);
      [rewrite <-value_sll|rewrite <-value_srl|rewrite <-value_sra]; by rewrite Hl.
  - destruct op; cbn in Hf; try discriminate Hf; injection Hf as <-; unfold rv_slli, rv_srli, rv_srai, require;
      by rewrite (proj2 (Z.ltb_ge _ _) Hge).
Qed.

Definition low32 (r : Z) : Z := r mod 2 ^ 32.

(** The instructions whose names end in W compute the 32-bit result of the
    operation on the low halves, sign-extended. *)
Theorem alu_w_refines_isa op f insn s :
  alu_w_insn op = Some f -> xlen = 64 -> (is_M op = true -> supports_extension ext_M s = true) ->
  f insn s =
  Done tt (write_reg (rd insn)
    (u64 (s32 (isa_alu 32 op (low32 (reg (rs1 insn) s)) (low32 (reg (rs2 insn) s))))) s).
Proof.
  intros Hf Hx HM. set (a := reg (rs1 insn) s). set (b := reg (rs2 insn) s).
  pose proof (config32_ok _ : @ConfigOk (config32 H)) as H32.
  assert (forall v, @sext_xlen (config32 H) v = sext32 v) as Hs by (intros; by rewrite (@sext_xlen_sgn _ H32)).
  assert (forall v, @zext_xlen (config32 H) v = zext32 v) as Hz by (intros; by rewrite (@zext_xlen_mod _ H32)).
  enough (exists v, f insn s = WRITE_RD insn v s /\ u64 v = @rep (config32 H) (isa_alu 32 op (low32 a) (low32 b)))
    as (v & -> & Hv) by (unfold WRITE_RD; by rewrite WRITE_REG_write, Hv).
  assert (sext32 a <> INT64_MIN) as Hmin.
  { change (sgn 32 a <> - 2 ^ 63). pose proof (sgn_range 32 a). lia. }
  destruct op; cbn in Hf; try discriminate Hf; injection Hf as <-; cbn [is_M] in HM;
    unfold rv_addw, rv_subw, rv_sllw, rv_srlw, rv_sraw, rv_mulw, rv_divw, rv_divuw, rv_remw, rv_remuw;
    rewrite ?with_M by auto; rewrite with_rv64 by done; rewrite read2; fold a b; cbv zeta; rewrite ?WRITE_RD_if;
    (eexists; split; [reflexivity|]).
  - rewrite <-Hs. apply (@value_add _ H32).
  - rewrite <-Hs. apply (@value_sub _ H32).
  - rewrite <-Hs. apply (@value_sll _ H32).
  - rewrite <-Hs. change (u32 a) with (zext32 a). rewrite <-Hz. apply (@value_srl _ H32).
  - change (s32 a) with (sext32 a). rewrite <-!Hs. apply (@value_sra _ H32).
  - rewrite <-Hs. apply (@value_rv_mul _ H32).
  - pose proof (@value_rv_div _ H32 a b) as Hval. cbv zeta in Hval. rewrite !Hs, (proj2 (Z.eqb_neq _ _) Hmin) in Hval. exact Hval.
  - pose proof (@value_divu _ H32 a b) as Hval. cbv zeta in Hval. rewrite !Hz, Hs in Hval. exact Hval.
  - pose proof (@value_rem _ H32 a b) as Hval. cbv zeta in Hval. rewrite !Hs, (proj2 (Z.eqb_neq _ _) Hmin) in Hval. exact Hval.
  - pose proof (@value_remu _ H32 a b) as Hval. cbv zeta in Hval. rewrite !Hz, !Hs in Hval. change (sext32 a) with (sgn 32 a) in Hval.
    rewrite <-(sgn_mod 32 a) in Hval by lia. exact Hval.
Qed.
End Insns_imm.

(** The least number by -1, on 64 bits. *)
Definition overflow_state : state_t :=
  { blank with misa := Z.shiftl 1 ext_M; XPR := <[1%nat := 2 ^ 63]> (<[2%nat := 2 ^ 64 - 1]> (replicate 32 0)) }.
Lemma alu_refines_isa_witness :
  @alu_insn rv64_config DIV 0x0220c1b3 overflow_state = Done tt (write_reg 3 (2 ^ 63) overflow_state).
Proof.
  assert (forall i, In i [1; 2] -> @wf_reg rv64_config (reg i overflow_state)) as Hwf
    by (intros i [<-|[<-|[]]]; vm_compute; reflexivity).
  apply (@alu_refines_isa rv64_config rv64_ok DIV 0x0220c1b3 overflow_state);
    [intros _; reflexivity|apply (Hwf 1)|apply (Hwf 2)]; cbn; auto.
Defined.
