(* ===== verification/SpikeFp.v ===== *)
(** * Spike: floating point instructions

    The instructions of the F and D extensions that compute (riscv/insns/NAME.h
    is [rv_NAME]): operands are unboxed, the rounding mode of the instruction or
    of [frm] is given to SoftFloat, the result is boxed and the flags are
    collected.  Together with the theorems on SoftFloat: what an instruction does
    to the state of the hart is what IEEE 754 says. *)

From Stdlib Require Import ZArith Lia Reals.
From stdpp Require Import base tactics list numbers.
From coqutil Require Import Datatypes.RecordSetters.
Import OCamlLikeNotations.
From S2P Require Import Prelude Ieee SoftFloat SoftRound SoftAdd SoftMul SoftDiv SoftFma SoftCompare SoftConv SoftToInt SoftRsqrt SoftSqrt Spike.

Section Insns.
Context `{Config}.
Variable insn : Z.

Definition rv_fadd_s : Exec unit :=
  require_extension ext_F;; require_fp;;
  r ← RM insn; set_roundingMode r;;
  a ← FRS1 insn; b ← FRS2 insn; v ← call (f32_add (unboxF32 a) (unboxF32 b));
  WRITE_FRD insn (freg32 v);; set_fp_exceptions.
Definition rv_fsub_s : Exec unit :=
  require_extension ext_F;; require_fp;;
  r ← RM insn; set_roundingMode r;;
  a ← FRS1 insn; b ← FRS2 insn; v ← call (f32_sub (unboxF32 a) (unboxF32 b));
  WRITE_FRD insn (freg32 v);; set_fp_exceptions.
Definition rv_fmul_s : Exec unit :=
  require_extension ext_F;; require_fp;;
  r ← RM insn; set_roundingMode r;;
  a ← FRS1 insn; b ← FRS2 insn; v ← call (f32_mul (unboxF32 a) (unboxF32 b));
  WRITE_FRD insn (freg32 v);; set_fp_exceptions.
Definition rv_fdiv_s : Exec unit :=
  require_extension ext_F;; require_fp;;
  r ← RM insn; set_roundingMode r;;
  a ← FRS1 insn; b ← FRS2 insn; v ← call (f32_div (unboxF32 a) (unboxF32 b));
  WRITE_FRD insn (freg32 v);; set_fp_exceptions.
Definition rv_fsqrt_s : Exec unit :=
  require_extension ext_F;; require_fp;;
  r ← RM insn; set_roundingMode r;;
  a ← FRS1 insn; v ← call (f32_sqrt (unboxF32 a));
  WRITE_FRD insn (freg32 v);; set_fp_exceptions.
Definition rv_fmadd_s : Exec unit :=
  require_extension ext_F;; require_fp;;
  r ← RM insn; set_roundingMode r;;
  a ← FRS1 insn; b ← FRS2 insn; c ← FRS3 insn;
  v ← call (f32_mulAdd (unboxF32 a) (unboxF32 b) (unboxF32 c));
  WRITE_FRD insn (freg32 v);; set_fp_exceptions.
Definition rv_fmsub_s : Exec unit :=
  require_extension ext_F;; require_fp;;
  r ← RM insn; set_roundingMode r;;
  a ← FRS1 insn; b ← FRS2 insn; c ← FRS3 insn;
  v ← call (f32_mulAdd (unboxF32 a) (unboxF32 b) (Z.lxor (unboxF32 c) F32_SIGN));
  WRITE_FRD insn (freg32 v);; set_fp_exceptions.
Definition rv_fnmsub_s : Exec unit :=
  require_extension ext_F;; require_fp;;
  r ← RM insn; set_roundingMode r;;
  a ← FRS1 insn; b ← FRS2 insn; c ← FRS3 insn;
  v ← call (f32_mulAdd (Z.lxor (unboxF32 a) F32_SIGN) (unboxF32 b) (unboxF32 c));
  WRITE_FRD insn (freg32 v);; set_fp_exceptions.
Definition rv_fnmadd_s : Exec unit :=
  require_extension ext_F;; require_fp;;
  r ← RM insn; set_roundingMode r;;
  a ← FRS1 insn; b ← FRS2 insn; c ← FRS3 insn;
  v ← call (f32_mulAdd (Z.lxor (unboxF32 a) F32_SIGN) (unboxF32 b) (Z.lxor (unboxF32 c) F32_SIGN));
  WRITE_FRD insn (freg32 v);; set_fp_exceptions.
Definition rv_feq_s : Exec unit :=
  require_extension ext_F;; require_fp;;
  a ← FRS1 insn; b ← FRS2 insn; v ← call (f32_eq (unboxF32 a) (unboxF32 b));
  WRITE_RD insn (Z.b2z v);; set_fp_exceptions.
Definition rv_fle_s : Exec unit :=
  require_extension ext_F;; require_fp;;
  a ← FRS1 insn; b ← FRS2 insn; v ← call (f32_le (unboxF32 a) (unboxF32 b));
  WRITE_RD insn (Z.b2z v);; set_fp_exceptions.
Definition rv_flt_s : Exec unit :=
  require_extension ext_F;; require_fp;;
  a ← FRS1 insn; b ← FRS2 insn; v ← call (f32_lt (unboxF32 a) (unboxF32 b));
  WRITE_RD insn (Z.b2z v);; set_fp_exceptions.
Definition rv_fclass_s : Exec unit :=
  require_extension ext_F;; require_fp;;
  a ← FRS1 insn; WRITE_RD insn (f32_classify (unboxF32 a)).
Definition rv_fmax_s : Exec unit :=
  require_extension ext_F;; require_fp;;
  a ← FRS1 insn; b ← FRS2 insn;
  lt ← call (f32_lt_quiet (unboxF32 b) (unboxF32 a));
  greater ← (if (lt : bool) then mret true
         else eq ← call (f32_eq (unboxF32 b) (unboxF32 a)); mret (eq && negb (Z.land (unboxF32 b) F32_SIGN =? 0)));
  (if isNaNF32UI (unboxF32 a) && isNaNF32UI (unboxF32 b) then WRITE_FRD insn (freg32 (u32 defaultNaNF32UI))
   else WRITE_FRD insn (if greater || isNaNF32UI (unboxF32 b) then a else b));;
  set_fp_exceptions.
Definition rv_fmin_s : Exec unit :=
  require_extension ext_F;; require_fp;;
  a ← FRS1 insn; b ← FRS2 insn;
  lt ← call (f32_lt_quiet (unboxF32 a) (unboxF32 b));
  less ← (if (lt : bool) then mret true
         else eq ← call (f32_eq (unboxF32 a) (unboxF32 b)); mret (eq && negb (Z.land (unboxF32 a) F32_SIGN =? 0)));
  (if isNaNF32UI (unboxF32 a) && isNaNF32UI (unboxF32 b) then WRITE_FRD insn (freg32 (u32 defaultNaNF32UI))
   else WRITE_FRD insn (if less || isNaNF32UI (unboxF32 b) then a else b));;
  set_fp_exceptions.
Definition rv_fsgnj_s : Exec unit :=
  require_extension ext_F;; require_fp;;
  a ← FRS1 insn; b ← FRS2 insn; WRITE_FRD insn (freg32 (fsgnj32 a b false false)).
Definition rv_fsgnjn_s : Exec unit :=
  require_extension ext_F;; require_fp;;
  a ← FRS1 insn; b ← FRS2 insn; WRITE_FRD insn (freg32 (fsgnj32 a b true false)).
Definition rv_fsgnjx_s : Exec unit :=
  require_extension ext_F;; require_fp;;
  a ← FRS1 insn; b ← FRS2 insn; WRITE_FRD insn (freg32 (fsgnj32 a b false true)).
Definition rv_fcvt_s_w : Exec unit :=
  require_extension ext_F;; require_fp;;
  r ← RM insn; set_roundingMode r;;
  a ← RS1 insn; v ← call (i32_to_f32 (s32 a));
  WRITE_FRD insn (freg32 v);; set_fp_exceptions.
Definition rv_fcvt_w_s : Exec unit :=
  require_extension ext_F;; require_fp;;
  r ← RM insn; set_roundingMode r;;
  a ← FRS1 insn; r ← RM insn; v ← call (f32_to_i32 (unboxF32 a) r true);
  WRITE_RD insn (sext32 v);; set_fp_exceptions.
Definition rv_fcvt_s_wu : Exec unit :=
  require_extension ext_F;; require_fp;;
  r ← RM insn; set_roundingMode r;;
  a ← RS1 insn; v ← call (ui32_to_f32 (u32 a));
  WRITE_FRD insn (freg32 v);; set_fp_exceptions.
Definition rv_fcvt_wu_s : Exec unit :=
  require_extension ext_F;; require_fp;;
  r ← RM insn; set_roundingMode r;;
  a ← FRS1 insn; r ← RM insn; v ← call (f32_to_ui32 (unboxF32 a) r true);
  WRITE_RD insn (sext32 v);; set_fp_exceptions.
Definition rv_fcvt_s_l : Exec unit :=
  require_extension ext_F;; require_rv64;; require_fp;;
  r ← RM insn; set_roundingMode r;;
  a ← RS1 insn; v ← call (i64_to_f32 (s64 a));
  WRITE_FRD insn (freg32 v);; set_fp_exceptions.
Definition rv_fcvt_l_s : Exec unit :=
  require_extension ext_F;; require_rv64;; require_fp;;
  r ← RM insn; set_roundingMode r;;
  a ← FRS1 insn; r ← RM insn; v ← call (f32_to_i64 (unboxF32 a) r true);
  WRITE_RD insn (v);; set_fp_exceptions.
Definition rv_fcvt_s_lu : Exec unit :=
  require_extension ext_F;; require_rv64;; require_fp;;
  r ← RM insn; set_roundingMode r;;
  a ← RS1 insn; v ← call (ui64_to_f32 (a));
  WRITE_FRD insn (freg32 v);; set_fp_exceptions.
Definition rv_fcvt_lu_s : Exec unit :=
  require_extension ext_F;; require_rv64;; require_fp;;
  r ← RM insn; set_roundingMode r;;
  a ← FRS1 insn; r ← RM insn; v ← call (f32_to_ui64 (unboxF32 a) r true);
  WRITE_RD insn (v);; set_fp_exceptions.
Definition rv_fadd_d : Exec unit :=
  require_extension ext_D;; require_fp;;
  r ← RM insn; set_roundingMode r;;
  a ← FRS1 insn; b ← FRS2 insn; v ← call (f64_add (unboxF64 a) (unboxF64 b));
  WRITE_FRD insn (freg64 v);; set_fp_exceptions.
Definition rv_fsub_d : Exec unit :=
  require_extension ext_D;; require_fp;;
  r ← RM insn; set_roundingMode r;;
  a ← FRS1 insn; b ← FRS2 insn; v ← call (f64_sub (unboxF64 a) (unboxF64 b));
  WRITE_FRD insn (freg64 v);; set_fp_exceptions.
Definition rv_fmul_d : Exec unit :=
  require_extension ext_D;; require_fp;;
  r ← RM insn; set_roundingMode r;;
  a ← FRS1 insn; b ← FRS2 insn; v ← call (f64_mul (unboxF64 a) (unboxF64 b));
  WRITE_FRD insn (freg64 v);; set_fp_exceptions.
Definition rv_fdiv_d : Exec unit :=
  require_extension ext_D;; require_fp;;
  r ← RM insn; set_roundingMode r;;
  a ← FRS1 insn; b ← FRS2 insn; v ← call (f64_div (unboxF64 a) (unboxF64 b));
  WRITE_FRD insn (freg64 v);; set_fp_exceptions.
Definition rv_fsqrt_d : Exec unit :=
  require_extension ext_D;; require_fp;;
  r ← RM insn; set_roundingMode r;;
  a ← FRS1 insn; v ← call (f64_sqrt (unboxF64 a));
  WRITE_FRD insn (freg64 v);; set_fp_exceptions.
Definition rv_fmadd_d : Exec unit :=
  require_extension ext_D;; require_fp;;
  r ← RM insn; set_roundingMode r;;
  a ← FRS1 insn; b ← FRS2 insn; c ← FRS3 insn;
  v ← call (f64_mulAdd (unboxF64 a) (unboxF64 b) (unboxF64 c));
  WRITE_FRD insn (freg64 v);; set_fp_exceptions.
Definition rv_fmsub_d : Exec unit :=
  require_extension ext_D;; require_fp;;
  r ← RM insn; set_roundingMode r;;
  a ← FRS1 insn; b ← FRS2 insn; c ← FRS3 insn;
  v ← call (f64_mulAdd (unboxF64 a) (unboxF64 b) (Z.lxor (unboxF64 c) F64_SIGN));
  WRITE_FRD insn (freg64 v);; set_fp_exceptions.
Definition rv_fnmsub_d : Exec unit :=
  require_extension ext_D;; require_fp;;
  r ← RM insn; set_roundingMode r;;
  a ← FRS1 insn; b ← FRS2 insn; c ← FRS3 insn;
  v ← call (f64_mulAdd (Z.lxor (unboxF64 a) F64_SIGN) (unboxF64 b) (unboxF64 c));
  WRITE_FRD insn (freg64 v);; set_fp_exceptions.
Definition rv_fnmadd_d : Exec unit :=
  require_extension ext_D;; require_fp;;
  r ← RM insn; set_roundingMode r;;
  a ← FRS1 insn; b ← FRS2 insn; c ← FRS3 insn;
  v ← call (f64_mulAdd (Z.lxor (unboxF64 a) F64_SIGN) (unboxF64 b) (Z.lxor (unboxF64 c) F64_SIGN));
  WRITE_FRD insn (freg64 v);; set_fp_exceptions.
Definition rv_feq_d : Exec unit :=
  require_extension ext_D;; require_fp;;
  a ← FRS1 insn; b ← FRS2 insn; v ← call (f64_eq (unboxF64 a) (unboxF64 b));
  WRITE_RD insn (Z.b2z v);; set_fp_exceptions.
Definition rv_fle_d : Exec unit :=
  require_extension ext_D;; require_fp;;
  a ← FRS1 insn; b ← FRS2 insn; v ← call (f64_le (unboxF64 a) (unboxF64 b));
  WRITE_RD insn (Z.b2z v);; set_fp_exceptions.
Definition rv_flt_d : Exec unit :=
  require_extension ext_D;; require_fp;;
  a ← FRS1 insn; b ← FRS2 insn; v ← call (f64_lt (unboxF64 a) (unboxF64 b));
  WRITE_RD insn (Z.b2z v);; set_fp_exceptions.
Definition rv_fclass_d : Exec unit :=
  require_extension ext_D;; require_fp;;
  a ← FRS1 insn; WRITE_RD insn (f64_classify (unboxF64 a)).
Definition rv_fmax_d : Exec unit :=
  require_extension ext_D;; require_fp;;
  a ← FRS1 insn; b ← FRS2 insn;
  lt ← call (f64_lt_quiet (unboxF64 b) (unboxF64 a));
  greater ← (if (lt : bool) then mret true
         else eq ← call (f64_eq (unboxF64 b) (unboxF64 a)); mret (eq && negb (Z.land (unboxF64 b) F64_SIGN =? 0)));
  (if isNaNF64UI (unboxF64 a) && isNaNF64UI (unboxF64 b) then WRITE_FRD insn (freg64 (u64 defaultNaNF64UI))
   else WRITE_FRD insn (if greater || isNaNF64UI (unboxF64 b) then a else b));;
  set_fp_exceptions.
Definition rv_fmin_d : Exec unit :=
  require_extension ext_D;; require_fp;;
  a ← FRS1 insn; b ← FRS2 insn;
  lt ← call (f64_lt_quiet (unboxF64 a) (unboxF64 b));
  less ← (if (lt : bool) then mret true
         else eq ← call (f64_eq (unboxF64 a) (unboxF64 b)); mret (eq && negb (Z.land (unboxF64 a) F64_SIGN =? 0)));
  (if isNaNF64UI (unboxF64 a) && isNaNF64UI (unboxF64 b) then WRITE_FRD insn (freg64 (u64 defaultNaNF64UI))
   else WRITE_FRD insn (if less || isNaNF64UI (unboxF64 b) then a else b));;
  set_fp_exceptions.
Definition rv_fsgnj_d : Exec unit :=
  require_extension ext_D;; require_fp;;
  a ← FRS1 insn; b ← FRS2 insn; WRITE_FRD insn (freg64 (fsgnj64 a b false false)).
Definition rv_fsgnjn_d : Exec unit :=
  require_extension ext_D;; require_fp;;
  a ← FRS1 insn; b ← FRS2 insn; WRITE_FRD insn (freg64 (fsgnj64 a b true false)).
Definition rv_fsgnjx_d : Exec unit :=
  require_extension ext_D;; require_fp;;
  a ← FRS1 insn; b ← FRS2 insn; WRITE_FRD insn (freg64 (fsgnj64 a b false true)).
Definition rv_fcvt_d_w : Exec unit :=
  require_extension ext_D;; require_fp;;
  r ← RM insn; set_roundingMode r;;
  a ← RS1 insn; v ← call (i32_to_f64 (s32 a));
  WRITE_FRD insn (freg64 v);; set_fp_exceptions.
Definition rv_fcvt_w_d : Exec unit :=
  require_extension ext_D;; require_fp;;
  r ← RM insn; set_roundingMode r;;
  a ← FRS1 insn; r ← RM insn; v ← call (f64_to_i32 (unboxF64 a) r true);
  WRITE_RD insn (sext32 v);; set_fp_exceptions.
Definition rv_fcvt_d_wu : Exec unit :=
  require_extension ext_D;; require_fp;;
  r ← RM insn; set_roundingMode r;;
  a ← RS1 insn; v ← call (ui32_to_f64 (u32 a));
  WRITE_FRD insn (freg64 v);; set_fp_exceptions.
Definition rv_fcvt_wu_d : Exec unit :=
  require_extension ext_D;; require_fp;;
  r ← RM insn; set_roundingMode r;;
  a ← FRS1 insn; r ← RM insn; v ← call (f64_to_ui32 (unboxF64 a) r true);
  WRITE_RD insn (sext32 v);; set_fp_exceptions.
Definition rv_fcvt_d_l : Exec unit :=
  require_extension ext_D;; require_rv64;; require_fp;;
  r ← RM insn; set_roundingMode r;;
  a ← RS1 insn; v ← call (i64_to_f64 (s64 a));
  WRITE_FRD insn (freg64 v);; set_fp_exceptions.
Definition rv_fcvt_l_d : Exec unit :=
  require_extension ext_D;; require_rv64;; require_fp;;
  r ← RM insn; set_roundingMode r;;
  a ← FRS1 insn; r ← RM insn; v ← call (f64_to_i64 (unboxF64 a) r true);
  WRITE_RD insn (v);; set_fp_exceptions.
Definition rv_fcvt_d_lu : Exec unit :=
  require_extension ext_D;; require_rv64;; require_fp;;
  r ← RM insn; set_roundingMode r;;
  a ← RS1 insn; v ← call (ui64_to_f64 (a));
  WRITE_FRD insn (freg64 v);; set_fp_exceptions.
Definition rv_fcvt_lu_d : Exec unit :=
  require_extension ext_D;; require_rv64;; require_fp;;
  r ← RM insn; set_roundingMode r;;
  a ← FRS1 insn; r ← RM insn; v ← call (f64_to_ui64 (unboxF64 a) r true);
  WRITE_RD insn (v);; set_fp_exceptions.
Definition rv_fcvt_d_s : Exec unit :=
  require_extension ext_D;; require_fp;;
  r ← RM insn; set_roundingMode r;;
  a ← FRS1 insn; v ← call (f32_to_f64 (unboxF32 a));
  WRITE_FRD insn (freg64 v);; set_fp_exceptions.
Definition rv_fcvt_s_d : Exec unit :=
  require_extension ext_D;; require_fp;;
  r ← RM insn; set_roundingMode r;;
  a ← FRS1 insn; v ← call (f64_to_f32 (unboxF64 a));
  WRITE_FRD insn (freg32 v);; set_fp_exceptions.
Definition rv_fmv_d_x : Exec unit :=
  require_extension ext_D;; require_rv64;; require_fp;;
  a ← RS1 insn; WRITE_FRD insn (freg64 a).
Definition rv_fmv_w_x : Exec unit :=
  require_extension ext_F;; require_fp;;
  a ← RS1 insn; WRITE_FRD insn (freg32 (u32 a)).
Definition rv_fmv_x_d : Exec unit :=
  require_extension ext_D;; require_rv64;; require_fp;;
  a ← FRS1 insn; WRITE_RD insn a.1.
Definition rv_fmv_x_w : Exec unit :=
  require_extension ext_F;; require_fp;;
  a ← FRS1 insn; WRITE_RD insn (sext32 a.1).
End Insns.
(** ** NaN boxing *)

Lemma freg64_unbox v : unboxF64 (freg64 v) = v.
Proof. done. Qed.

Lemma freg32_unbox v : is_pattern F32 v -> unboxF32 (freg32 v) = v.
Proof.
  intros Hv. change (0 <= v < 2 ^ 32) in Hv. unfold unboxF32, isBoxedF32, freg32. cbn [fst snd].
  change (u64 (Z.shiftl (2 ^ 64 - 1) 32)) with ((2 ^ 32 - 1) * 2 ^ 32). rewrite lor_disjoint by lia.
  rewrite Z.shiftr_div_pow2 by lia. rewrite Z.div_add_l, (Z.div_small v) by lia. cbn [Z.add Z.eqb andb].
  change (u32 (2 ^ 32 - 1 + 0 + 1) =? 0) with true. change (isBoxedF64 _) with true. cbn [andb].
  unfold u32. change 4294967296 with (2 ^ 32). rewrite Z.add_comm, Z.mod_add by lia. by apply Z.mod_small.
Qed.

(** A register that holds a double reads as a NaN in single precision, unless its
    upper half is all ones. *)
Lemma freg64_unbox32 v : is_pattern F64 v -> v / 2 ^ 32 <> 2 ^ 32 - 1 -> unboxF32 (freg64 v) = defaultNaNF32UI.
Proof.
  intros Hv Hne. change (0 <= v < 2 ^ 64) in Hv. unfold unboxF32, isBoxedF32, freg64. cbn [fst snd].
  rewrite Z.shiftr_div_pow2 by lia. unfold u32. rewrite (proj2 (Z.eqb_neq _ 0)); [by rewrite andb_false_r|].
  change (2 ^ 32) with 4294967296 in *. divlia.
Qed.

Lemma unboxF32_pattern r : is_pattern F32 (unboxF32 r).
Proof.
  change (0 <= unboxF32 r < 2 ^ 32). unfold unboxF32.
  destruct (isBoxedF32 r); [apply Z.mod_pos_bound; lia|]. unfold defaultNaNF32UI. lia.
Qed.

Lemma unboxF64_pattern r : 0 <= r.1 < 2 ^ 64 -> is_pattern F64 (unboxF64 r).
Proof.
  intros Hr. change (0 <= unboxF64 r < 2 ^ 64). unfold unboxF64.
  destruct (isBoxedF64 r); [done|]. unfold defaultNaNF64UI. lia.
Qed.

(** The exclusive or with the sign bit is the negation. *)
Lemma lxor_sign F `{ValidFormat F} c k :
  k = prec F + ewidth F - 1 -> is_pattern F c -> Z.lxor c (2 ^ k) = neg F c.
Proof.
  intros -> Hc. pose proof (mag_range F c) as Hm. pose proof prec_valid. pose proof ewidth_valid.
  assert (0 <= prec F + ewidth F - 1) as Hk by lia. set (k := prec F + ewidth F - 1) in *.
  assert (forall m, 0 <= m < 2 ^ k -> Z.lxor m (2 ^ k) = 2 ^ k + m) as Hx.
  { intros m Hr. pose proof (lor_disjoint 1 m k Hk Hr) as E. rewrite Z.mul_1_l in E. rewrite <-E, Z.lxor_comm.
    apply Z.lxor_lor. apply Z.bits_inj'. intros i Hi. rewrite Z.land_spec, Z.bits_0.
    destruct (Z.eq_dec i k) as [->|Hne]; [|by rewrite Z.pow2_bits_false by done].
    by rewrite <-(Z.mod_small m (2 ^ k)), Z.mod_pow2_bits_high, andb_false_r by lia. }
  rewrite (signed_eta F c Hc) at 1. unfold neg, signed. fold k.
  destruct (sign_of F c); cbn [negb Z.b2z]; rewrite ?Z.mul_1_l, ?Z.mul_0_l, ?Z.add_0_l.
  - rewrite <-Hx by done. by rewrite Z.lxor_assoc, Z.lxor_nilpotent, Z.lxor_0_r.
  - by apply Hx.
Qed.

(** ** The run of an arithmetic instruction *)

(** The rounding mode the instruction asks for. *)
Definition rounding (insn : Z) (s : state_t) : Z := if rm insn =? 7 then frm s else rm insn.

(** The state of the hart when an instruction of extension [e] can compute in the
    mode [m]; SoftFloat's flags are clear between instructions. *)
Definition fp_ready (e insn : Z) (m : mode) (s : state_t) : Prop :=
  supports_extension e s = true /\ Z.land (mstatus s) MSTATUS_FS <> 0 /\ rounding insn s = mode_code m /\
  softfloat_detectTininess (fp s) = softfloat_tininess_afterRounding /\ softfloat_exceptionFlags (fp s) = 0.

(** What it does: the result, the flags added to [fflags], mstatus as
    [dirty_fp_state] leaves it. *)
Definition fp_result `{Config} (insn : Z) (v : Z * Z) (fl : Z) (m : mode) (s : state_t) : state_t :=
  { s with FPR ::= <[Z.to_nat (rd insn) := v]>; mstatus ::= (fun x => Z.land x dirty_fp_mask);
    fflags ::= Z.lor fl; fp := SoftfloatState (mode_code m) softfloat_tininess_afterRounding 0 }.

Section Run.
Context `{Config}.

Lemma RM_rounding insn s :
  RM insn s = if 4 <? rounding insn s then Throw (trap_illegal_instruction 0) s else Done (rounding insn s) s.
Proof. unfold RM, rounding, mbind, Exec_bind. destruct (rm insn =? 7); cbn; by case_match. Qed.

Lemma mode_code_le m : mode_code m <= 4.
Proof. by destruct m. Qed.

Definition ready_fp (m : mode) : softfloat_state := SoftfloatState (mode_code m) softfloat_tininess_afterRounding 0.

Lemma ready_in_mode m : in_mode m (ready_fp m).
Proof. by split. Qed.

Lemma with_ext e (k : Exec unit) s : supports_extension e s = true -> (require_extension e;; k) s = k s.
Proof. intros He. unfold require_extension, require, gets, mbind, Exec_bind. by rewrite He. Qed.

Lemma with_fp (k : Exec unit) s : Z.land (mstatus s) MSTATUS_FS <> 0 -> (require_fp;; k) s = k s.
Proof. intros He. unfold require_fp, require, gets, mbind, Exec_bind. by rewrite (proj2 (Z.eqb_neq _ _) He). Qed.

Lemma ready_state e insn m s :
  fp_ready e insn m s -> { s with fp -> softfloat_roundingMode := mode_code m } = { s with fp := ready_fp m }.
Proof. intros (_ & _ & _ & Ht & Hf). destruct s as [? ? ? ? ? ? ? ? ? ? ? ? ? ? ? ? ? ? ? ? ? ? ? ? ? ? ? ? ? ? ? ? ? ? ? ? ? [] ? ? ?].
  cbn in *. by subst. Qed.

(** The start: checks, and the mode. *)
Lemma fp_start e insn m s (k : Z -> Exec unit) :
  fp_ready e insn m s ->
  (require_extension e;; require_fp;; r ← RM insn; set_roundingMode r;; k r) s = k (mode_code m) { s with fp := ready_fp m }.
Proof.
  intros Hr. pose proof Hr as (He & Hfs & Hrm & _). rewrite with_ext, with_fp by done.
  unfold mbind at 1, Exec_bind at 1. rewrite RM_rounding, Hrm, (proj2 (Z.ltb_ge _ _) (mode_code_le m)).
  rewrite <-(ready_state e insn) by done. done.
Qed.

(** The end: a function is called, its result written and the flags collected. *)
Lemma fp_finish insn m s (box : Z -> Z * Z) f spec :
  returns (f (ready_fp m)) spec (ready_fp m) ->
  exists u fl, spec u fl /\
    (v ← call f; WRITE_FRD insn (box v);; set_fp_exceptions) { s with fp := ready_fp m } =
    Done tt (fp_result insn (box u) fl m s).
Proof.
  intros (u & fl & Hf & Hs). exists u, fl. split; [done|].
  unfold call, mbind, Exec_bind. change (fp { s with fp := ready_fp m }) with (ready_fp m). rewrite Hf.
  unfold set_fp_exceptions, WRITE_FRD, WRITE_FREG, dirty_fp_state, gets, puts, when, mbind, Exec_bind.
  cbn -[Z.eqb Z.land Z.lor]. rewrite Z.lor_0_l.
  destruct (Z.eqb_spec fl 0) as [->|]; cbn -[Z.land Z.lor]; unfold fp_result; cbn -[Z.land Z.lor]; [done|].
  rewrite <-Z.land_assoc, Z.land_diag. done.
Qed.

(** An illegal rounding mode traps before anything changes. *)
Lemma fp_illegal_mode e insn s (k : Z -> Exec unit) :
  supports_extension e s = true -> Z.land (mstatus s) MSTATUS_FS <> 0 -> 4 < rounding insn s ->
  (require_extension e;; require_fp;; r ← RM insn; k r) s = Throw (trap_illegal_instruction 0) s.
Proof.
  intros He Hfs Hr. rewrite with_ext, with_fp by done. unfold mbind at 1, Exec_bind at 1.
  by rewrite RM_rounding, (proj2 (Z.ltb_lt _ _) Hr).
Qed.
End Run.

(** ** Arithmetic instructions against IEEE 754 *)

Inductive fp_op := FADD | FSUB | FMUL | FDIV | FSQRT | FMADD | FMSUB | FNMSUB | FNMADD.

Definition fp_spec (op : fp_op) (F : format) (m : mode) (a b c : Z) : Z -> Z -> Prop :=
  match op with
  | FADD => ieee_add F m a b | FSUB => ieee_sub F m a b | FMUL => ieee_mul F m a b | FDIV => ieee_div F m a b
  | FSQRT => ieee_sqrt F m a
  | FMADD => ieee_fma F m a b c | FMSUB => ieee_fma F m a b (neg F c)
  | FNMSUB => ieee_fma F m (neg F a) b c | FNMADD => ieee_fma F m (neg F a) b (neg F c)
  end.

Definition fp_insn_s `{Config} (op : fp_op) : Z -> Exec unit :=
  match op with
  | FADD => rv_fadd_s | FSUB => rv_fsub_s | FMUL => rv_fmul_s | FDIV => rv_fdiv_s | FSQRT => rv_fsqrt_s
  | FMADD => rv_fmadd_s | FMSUB => rv_fmsub_s | FNMSUB => rv_fnmsub_s | FNMADD => rv_fnmadd_s
  end.
Definition fp_insn_d `{Config} (op : fp_op) : Z -> Exec unit :=
  match op with
  | FADD => rv_fadd_d | FSUB => rv_fsub_d | FMUL => rv_fmul_d | FDIV => rv_fdiv_d | FSQRT => rv_fsqrt_d
  | FMADD => rv_fmadd_d | FMSUB => rv_fmsub_d | FNMSUB => rv_fnmsub_d | FNMADD => rv_fnmadd_d
  end.

Definition freg (i : Z) (s : state_t) : Z * Z := FPR s !!! Z.to_nat i.

Lemma neg_pattern F `{ValidFormat F} c : is_pattern F (neg F c).
Proof. unfold neg. apply (signed_pattern F), (mag_range F). Qed.

Section Arith.
Context `{Config}.

Ltac run_fp m f returns_lemma :=
  rewrite (fp_start _ _ m) by done;
  match goal with |- context [{ ?s with fp := ready_fp m }] =>
    eapply (fp_finish _ m s _ f); eapply returns_mono; [eapply (returns_lemma m)|];
    [apply ready_in_mode|try match goal with E : Z.lxor ?x _ = _ |- is_pattern _ (Z.lxor ?x _) => rewrite E end;
       (done || (apply neg_pattern; apply _)) ..|done]
  end.

(** C11: each of the 18 arithmetic instructions, when it can run, writes to its
    register the boxed result of IEEE 754 for the unboxed operands in the rounding
    mode asked for, adds exactly the exceptions of IEEE 754 to [fflags], and
    changes nothing else but mstatus as [dirty_fp_state] does; with the extension
    and the unit on, a rounding mode that does not exist traps in either precision
    and changes nothing. *)
Theorem fp_refines_ieee op insn s :
  Forall (fun r => 0 <= r.1 < 2 ^ 64) [freg (rs1 insn) s; freg (rs2 insn) s; freg (rs3 insn) s] ->
  (forall m, fp_ready ext_F insn m s -> exists u fl,
     fp_spec op F32 m (unboxF32 (freg (rs1 insn) s)) (unboxF32 (freg (rs2 insn) s)) (unboxF32 (freg (rs3 insn) s)) u fl /\
     fp_insn_s op insn s = Done tt (fp_result insn (freg32 u) fl m s)) /\
  (forall m, fp_ready ext_D insn m s -> exists u fl,
     fp_spec op F64 m (unboxF64 (freg (rs1 insn) s)) (unboxF64 (freg (rs2 insn) s)) (unboxF64 (freg (rs3 insn) s)) u fl /\
     fp_insn_d op insn s = Done tt (fp_result insn (freg64 u) fl m s)) /\
  (supports_extension ext_D s = true -> Z.land (mstatus s) MSTATUS_FS <> 0 -> 4 < rounding insn s ->
     fp_insn_d op insn s = Throw (trap_illegal_instruction 0) s) /\
  (supports_extension ext_F s = true -> Z.land (mstatus s) MSTATUS_FS <> 0 -> 4 < rounding insn s ->
     fp_insn_s op insn s = Throw (trap_illegal_instruction 0) s).
Proof.
  intros [Ha [Hb [Hc _]%Forall_cons_1]%Forall_cons_1]%Forall_cons_1.
  split; [|split; [|split]].
  - intros m Hm.
    assert (forall i, In i [rs1 insn; rs2 insn; rs3 insn] -> is_pattern F32 (unboxF32 (freg i s))) as Hp.
    { intros. apply unboxF32_pattern. }
    pose proof (Hp (rs1 insn) ltac:(left; done)). pose proof (Hp (rs2 insn) ltac:(right; left; done)).
    pose proof (Hp (rs3 insn) ltac:(right; right; left; done)). clear Hp.
    set (a := unboxF32 (freg (rs1 insn) s)) in *. set (b := unboxF32 (freg (rs2 insn) s)) in *.
    set (c := unboxF32 (freg (rs3 insn) s)) in *.
    assert (Z.lxor a F32_SIGN = neg F32 a /\ Z.lxor c F32_SIGN = neg F32 c) as [Hna Hnc] by (change F32_SIGN with (2 ^ 31); split; by apply (lxor_sign F32)).
    destruct op; cbn [fp_insn_s fp_spec]; rewrite <-?Hna, <-?Hnc.
    + unfold rv_fadd_s. run_fp m (f32_add a b) f32_add_returns.
    + unfold rv_fsub_s. run_fp m (f32_sub a b) f32_sub_returns.
    + unfold rv_fmul_s. run_fp m (f32_mul a b) f32_mul_returns.
    + unfold rv_fdiv_s. run_fp m (f32_div a b) f32_div_returns.
    + unfold rv_fsqrt_s. run_fp m (f32_sqrt a) f32_sqrt_returns.
    + unfold rv_fmadd_s. run_fp m (f32_mulAdd a b c) f32_mulAdd_returns.
    + unfold rv_fmsub_s. run_fp m (f32_mulAdd a b (Z.lxor c F32_SIGN)) f32_mulAdd_returns.
    + unfold rv_fnmsub_s. run_fp m (f32_mulAdd (Z.lxor a F32_SIGN) b c) f32_mulAdd_returns.
    + unfold rv_fnmadd_s. run_fp m (f32_mulAdd (Z.lxor a F32_SIGN) b (Z.lxor c F32_SIGN)) f32_mulAdd_returns.
  - intros m Hm.
    assert (forall i, In i [rs1 insn; rs2 insn; rs3 insn] -> is_pattern F64 (unboxF64 (freg i s))) as Hp.
    { intros i [<-|[<-|[<-|[]]]]; by apply unboxF64_pattern. }
    pose proof (Hp (rs1 insn) ltac:(left; done)). pose proof (Hp (rs2 insn) ltac:(right; left; done)).
    pose proof (Hp (rs3 insn) ltac:(right; right; left; done)). clear Hp.
    set (a := unboxF64 (freg (rs1 insn) s)) in *. set (b := unboxF64 (freg (rs2 insn) s)) in *.
    set (c := unboxF64 (freg (rs3 insn) s)) in *.
    assert (Z.lxor a F64_SIGN = neg F64 a /\ Z.lxor c F64_SIGN = neg F64 c) as [Hna Hnc] by (change F64_SIGN with (2 ^ 63); split; by apply (lxor_sign F64)).
    destruct op; cbn [fp_insn_d fp_spec]; rewrite <-?Hna, <-?Hnc.
    + unfold rv_fadd_d. run_fp m (f64_add a b) f64_add_returns.
    + unfold rv_fsub_d. run_fp m (f64_sub a b) f64_sub_returns.
    + unfold rv_fmul_d. run_fp m (f64_mul a b) f64_mul_returns.
    + unfold rv_fdiv_d. run_fp m (f64_div a b) f64_div_returns.
    + unfold rv_fsqrt_d. run_fp m (f64_sqrt a) f64_sqrt_returns.
    + unfold rv_fmadd_d. run_fp m (f64_mulAdd a b c) f64_mulAdd_returns.
    + unfold rv_fmsub_d. run_fp m (f64_mulAdd a b (Z.lxor c F64_SIGN)) f64_mulAdd_returns.
    + unfold rv_fnmsub_d. run_fp m (f64_mulAdd (Z.lxor a F64_SIGN) b c) f64_mulAdd_returns.
    + unfold rv_fnmadd_d. run_fp m (f64_mulAdd (Z.lxor a F64_SIGN) b (Z.lxor c F64_SIGN)) f64_mulAdd_returns.
  - intros. destruct op; cbn [fp_insn_d];
      unfold rv_fadd_d, rv_fsub_d, rv_fmul_d, rv_fdiv_d, rv_fsqrt_d, rv_fmadd_d, rv_fmsub_d, rv_fnmsub_d, rv_fnmadd_d;
      by rewrite fp_illegal_mode.
  - intros. destruct op; cbn [fp_insn_s];
      unfold rv_fadd_s, rv_fsub_s, rv_fmul_s, rv_fdiv_s, rv_fsqrt_s, rv_fmadd_s, rv_fmsub_s, rv_fnmsub_s, rv_fnmadd_s;
      by rewrite fp_illegal_mode.
Qed.
End Arith.

(** The sum of two ones, rounding towards zero, and a rounding mode that does
    not exist. *)
Definition fp_state : state_t :=
  { blank with misa := Z.lor (Z.shiftl 1 ext_F) (Z.shiftl 1 ext_D); mstatus := MSTATUS_FS;
    FPR := <[1%nat := freg32 0x3f800000]> (replicate 32 (0, 0)) }.
Lemma fp_refines_ieee_witness :
  (exists u fl, fp_spec FADD F32 RTZ 0x3f800000 0x3f800000 defaultNaNF32UI u fl /\
     @fp_insn_s rv64_config FADD 0x001091d3 fp_state = Done tt (@fp_result rv64_config 0x001091d3 (freg32 u) fl RTZ fp_state)) /\
  @fp_insn_d rv64_config FADD 0x0210d1d3 fp_state = Throw (trap_illegal_instruction 0) fp_state /\
  @fp_insn_s rv64_config FADD 0x0010d1d3 fp_state = Throw (trap_illegal_instruction 0) fp_state.
Proof.
  assert (forall i, In i [0; 1; 2] -> 0 <= (freg i fp_state).1 < 2 ^ 64) as Hr
    by (intros i [<-|[<-|[<-|[]]]]; vm_compute; split; congruence).
  split.
  - apply (proj1 (@fp_refines_ieee rv64_config FADD 0x001091d3 fp_state
      ltac:(repeat apply Forall_cons_2; [apply (Hr 1)|apply (Hr 1)|apply (Hr 0)|apply Forall_nil_2]; cbn; auto)) RTZ).
    split_and!; vm_compute; congruence.
  - split.
    + apply (proj1 (proj2 (proj2 (@fp_refines_ieee rv64_config FADD 0x0210d1d3 fp_state
        ltac:(repeat apply Forall_cons_2; [apply (Hr 1)|apply (Hr 1)|apply (Hr 0)|apply Forall_nil_2]; cbn; auto)))));
      vm_compute; congruence.
    + apply (proj2 (proj2 (proj2 (@fp_refines_ieee rv64_config FADD 0x0010d1d3 fp_state
        ltac:(repeat apply Forall_cons_2; [apply (Hr 1)|apply (Hr 1)|apply (Hr 0)|apply Forall_nil_2]; cbn; auto)))));
      vm_compute; congruence.
Defined.
