(* ===== verification/SpikeCsr.v ===== *)
(** * Spike: privileges, traps and control registers

    processor.cc: [set_csr], [get_csr], interrupts and traps, and the
    instructions that use them (riscv/insns). *)

From Stdlib Require Import ZArith Lia.
From stdpp Require Import base tactics list numbers.
From coqutil Require Import Datatypes.RecordSetters.
Import OCamlLikeNotations.
From S2P Require Import Prelude SoftFloat Spike.

(** ** encoding.h: interrupts and control registers *)

Definition IRQ_M_EXT : Z := 11.
Definition IRQ_COP : Z := 12.
Definition MIP_SSIP : Z := Z.shiftl 1 1.
Definition MIP_MSIP : Z := Z.shiftl 1 3.
Definition MIP_STIP : Z := Z.shiftl 1 5.
Definition MIP_MTIP : Z := Z.shiftl 1 7.
Definition MIP_SEIP : Z := Z.shiftl 1 9.
Definition MIP_MEIP : Z := Z.shiftl 1 11.

Definition SATP32_MODE : Z := 0x80000000.
Definition SATP32_PPN : Z := 0x003FFFFF.
Definition SATP64_MODE : Z := 0xF000000000000000.
Definition SATP64_PPN : Z := 0x00000FFFFFFFFFFF.
Definition SATP_MODE_OFF : Z := 0.
Definition SATP_MODE_SV32 : Z := 1.
Definition SATP_MODE_SV39 : Z := 8.
Definition SATP_MODE_SV48 : Z := 9.
Definition SATP_MODE_SV57 : Z := 10.
Definition SATP_MODE_SV64 : Z := 11.

Definition DCSR_CAUSE_NONE : Z := 0.
Definition DCSR_CAUSE_SWBP : Z := 1.

Definition CSR_FFLAGS : Z := 0x1.
Definition CSR_FRM : Z := 0x2.
Definition CSR_FCSR : Z := 0x3.
Definition CSR_CYCLE : Z := 0xc00.
Definition CSR_INSTRET : Z := 0xc02.
Definition CSR_SSTATUS : Z := 0x100.
Definition CSR_SIE : Z := 0x104.
Definition CSR_STVEC : Z := 0x105.
Definition CSR_SCOUNTEREN : Z := 0x106.
Definition CSR_SSCRATCH : Z := 0x140.
Definition CSR_SEPC : Z := 0x141.
Definition CSR_SCAUSE : Z := 0x142.
Definition CSR_STVAL : Z := 0x143.
Definition CSR_SIP : Z := 0x144.
Definition CSR_SATP : Z := 0x180.
Definition CSR_MSTATUS : Z := 0x300.
Definition CSR_MISA : Z := 0x301.
Definition CSR_MEDELEG : Z := 0x302.
Definition CSR_MIDELEG : Z := 0x303.
Definition CSR_MIE : Z := 0x304.
Definition CSR_MTVEC : Z := 0x305.
Definition CSR_MCOUNTEREN : Z := 0x306.
Definition CSR_MSCRATCH : Z := 0x340.
Definition CSR_MEPC : Z := 0x341.
Definition CSR_MCAUSE : Z := 0x342.
Definition CSR_MTVAL : Z := 0x343.
Definition CSR_MIP : Z := 0x344.
Definition CSR_TSELECT : Z := 0x7a0.
Definition CSR_TDATA1 : Z := 0x7a1.
Definition CSR_TDATA2 : Z := 0x7a2.
Definition CSR_TDATA3 : Z := 0x7a3.
Definition CSR_DCSR : Z := 0x7b0.
Definition CSR_DPC : Z := 0x7b1.
Definition CSR_DSCRATCH : Z := 0x7b2.
Definition CSR_MCYCLE : Z := 0xb00.
Definition CSR_MINSTRET : Z := 0xb02.
Definition CSR_MVENDORID : Z := 0xf11.
Definition CSR_MARCHID : Z := 0xf12.
Definition CSR_MIMPID : Z := 0xf13.
Definition CSR_MHARTID : Z := 0xf14.
Definition CSR_CYCLEH : Z := 0xc80.
Definition CSR_INSTRETH : Z := 0xc82.
Definition CSR_MCYCLEH : Z := 0xb80.
Definition CSR_MINSTRETH : Z := 0xb82.
Definition CSR_HPMCOUNTER3 : Z := 0xc03.
Definition CSR_HPMCOUNTER31 : Z := 0xc1f.
Definition CSR_HPMCOUNTER3H : Z := 0xc83.
Definition CSR_HPMCOUNTER31H : Z := 0xc9f.
Definition CSR_MHPMCOUNTER3 : Z := 0xb03.
Definition CSR_MHPMCOUNTER31 : Z := 0xb1f.
Definition CSR_MHPMCOUNTER3H : Z := 0xb83.
Definition CSR_MHPMCOUNTER31H : Z := 0xb9f.
Definition CSR_MHPMEVENT3 : Z := 0x323.
Definition CSR_MHPMEVENT31 : Z := 0x33f.

Definition SSTATUS_SIE : Z := 0x00000002.
Definition SSTATUS_SPIE : Z := 0x00000020.
Definition SSTATUS_SPP : Z := 0x00000100.
Definition SSTATUS_FS : Z := 0x00006000.
Definition SSTATUS_XS : Z := 0x00018000.
Definition SSTATUS_SUM : Z := 0x00040000.
Definition SSTATUS_MXR : Z := 0x00080000.
Definition SSTATUS32_SD : Z := 0x80000000.
Definition SSTATUS_UXL : Z := 0x0000000300000000.
Definition SSTATUS64_SD : Z := 0x8000000000000000.

Definition DCSR_XDEBUGVER : Z := Z.shiftl 3 30.
Definition DCSR_EBREAKM : Z := Z.shiftl 1 15.
Definition DCSR_EBREAKH : Z := Z.shiftl 1 14.
Definition DCSR_EBREAKS : Z := Z.shiftl 1 13.
Definition DCSR_EBREAKU : Z := Z.shiftl 1 12.
Definition DCSR_STOPCYCLE : Z := Z.shiftl 1 10.
Definition DCSR_STOPTIME : Z := Z.shiftl 1 9.
Definition DCSR_CAUSE : Z := Z.shiftl 7 6.
Definition DCSR_HALT : Z := Z.shiftl 1 3.
Definition DCSR_STEP : Z := Z.shiftl 1 2.
Definition DCSR_PRV : Z := Z.shiftl 3 0.

Definition MCONTROL_TYPE (w : Z) : Z := Z.shiftl 0xf (w - 4).
Definition MCONTROL_DMODE (w : Z) : Z := Z.shiftl 1 (w - 5).
Definition MCONTROL_MASKMAX (w : Z) : Z := Z.shiftl 0x3f (w - 11).
Definition MCONTROL_SELECT : Z := Z.shiftl 1 19.
Definition MCONTROL_TIMING : Z := Z.shiftl 1 18.
Definition MCONTROL_ACTION : Z := Z.shiftl 0x3f 12.
Definition MCONTROL_CHAIN : Z := Z.shiftl 1 11.
Definition MCONTROL_MATCH : Z := Z.shiftl 0xf 7.
Definition MCONTROL_M : Z := Z.shiftl 1 6.
Definition MCONTROL_H : Z := Z.shiftl 1 5.
Definition MCONTROL_S : Z := Z.shiftl 1 4.
Definition MCONTROL_U : Z := Z.shiftl 1 3.
Definition MCONTROL_EXECUTE : Z := Z.shiftl 1 2.
Definition MCONTROL_STORE : Z := Z.shiftl 1 1.
Definition MCONTROL_LOAD : Z := Z.shiftl 1 0.

Definition FSR_AEXC : Z := 0x1f.
Definition FSR_RD : Z := 0xe0.
Definition FSR_AEXC_SHIFT : Z := 0.
Definition FSR_RD_SHIFT : Z := 5.

Definition DEBUG_ROM_ENTRY : Z := 0x800.
Definition DEBUG_ROM_TVEC : Z := 0x808.
Definition DEFAULT_RSTVEC : Z := 0x00010000.

(** ** Helpers *)

(** Bits of [v] under [mask], the others of [old]. *)
Definition masked (old mask v : Z) : Z := Z.lor (Z.land old (Z.lnot mask)) (Z.land v mask).
Definition field_bit (v mask : Z) : bool := negb (get_field v mask =? 0).
Definition has_bits (v mask : Z) : bool := Z.land v mask =? mask.

(** mmu.cc, [flush_tlb]: every tag becomes -1. *)
Definition flush_tlb (m : mmu_t) : mmu_t :=
  { m with tlb_insn_tag := (fun _ => 2 ^ 64 - 1); tlb_load_tag := (fun _ => 2 ^ 64 - 1);
           tlb_store_tag := (fun _ => 2 ^ 64 - 1) }.

Section Csr.
Context `{Config}.

(** ** Privileges *)

Definition xlen_to_uxl : Z := if xlen =? 32 then 1 else 2.

Definition legalize_privilege (p : Z) (s : state_t) : Z :=
  if negb (supports_extension ext_U s) then PRV_M
  else if (p =? PRV_H) || negb (supports_extension ext_S s) then PRV_U
  else p.

Definition set_privilege (p : Z) (s : state_t) : state_t := { s with prv := legalize_privilege p s }.

(** ** set_csr *)

Definition delegable_ints : Z :=
  Z.lor (Z.lor (Z.lor MIP_SSIP MIP_STIP) MIP_SEIP) (Z.shiftl (Z.b2z has_ext) IRQ_COP).
Definition all_ints : Z := Z.lor (Z.lor delegable_ints MIP_MSIP) MIP_MTIP.

Definition mstatus_mask (s : state_t) : Z :=
  let m := List.fold_right Z.lor 0
    [MSTATUS_SIE; MSTATUS_SPIE; MSTATUS_MIE; MSTATUS_MPIE; MSTATUS_MPRV; MSTATUS_SUM; MSTATUS_MXR; MSTATUS_TW;
     MSTATUS_TVM; MSTATUS_TSR; MSTATUS_UXL; MSTATUS_SXL; if has_ext then MSTATUS_XS else 0] in
  if supports_extension ext_S s then Z.lor m MSTATUS_SPP else m.

Definition set_mstatus (val : Z) (s : state_t) : state_t :=
  let requested_mpp := legalize_privilege (get_field val MSTATUS_MPP) s in
  let v := set_field (mstatus s) MSTATUS_MPP requested_mpp in
  let v := masked v (mstatus_mask s) val in
  let dirty := 0 in
  let v := if xlen =? 32 then set_field v MSTATUS32_SD dirty else set_field v MSTATUS64_SD dirty in
  let v := set_field v MSTATUS_UXL xlen_to_uxl in
  let v := set_field v MSTATUS_UXL xlen_to_uxl in
  let v := set_field v MSTATUS_SXL xlen_to_uxl in
  { s with mstatus := v }.

Definition set_mip (val : Z) (s : state_t) : state_t := { s with mip := masked (mip s) (Z.lor MIP_SSIP MIP_STIP) val }.
Definition set_mie (val : Z) (s : state_t) : state_t := { s with mie := masked (mie s) all_ints val }.

Definition medeleg_mask : Z :=
  List.fold_right Z.lor 0
    (map (Z.shiftl 1) [CAUSE_MISALIGNED_FETCH; CAUSE_BREAKPOINT; CAUSE_USER_ECALL; CAUSE_FETCH_PAGE_FAULT;
                       CAUSE_LOAD_PAGE_FAULT; CAUSE_STORE_PAGE_FAULT]).

Definition sstatus_mask : Z :=
  List.fold_right Z.lor 0
    [SSTATUS_SIE; SSTATUS_SPIE; SSTATUS_SPP; SSTATUS_FS; SSTATUS_XS; SSTATUS_SUM; SSTATUS_MXR].

Definition satp_mode_ok (val : Z) : bool :=
  let m := get_field val SATP64_MODE in (m =? SATP_MODE_OFF) || (m =? SATP_MODE_SV39) || (m =? SATP_MODE_SV48).

Definition set_satp (val : Z) (s : state_t) : state_t :=
  let s := { s with mmu ::= flush_tlb } in
  if xlen =? 32 then { s with satp := Z.land val (Z.lor SATP32_PPN SATP32_MODE) }
  else if (xlen =? 64) && satp_mode_ok val then { s with satp := Z.land val (Z.lor SATP64_PPN SATP64_MODE) }
  else s.

Definition misa_mask : Z :=
  Z.land (List.fold_right Z.lor 0 (map (Z.shiftl 1) [ext_M; ext_A; ext_F; ext_D; ext_C])) max_isa.

Definition set_misa (val : Z) (s : state_t) : state_t :=
  if negb (Z.testbit val ext_C) && negb (Z.land (pc s) 2 =? 0) then s
  else
    let val := if negb (Z.testbit val ext_F) then Z.land val (Z.lnot (Z.shiftl 1 ext_D)) else val in
    { s with misa := masked (misa s) misa_mask val }.

Definition trigger_updated (s : state_t) : state_t :=
  { s with mmu ::= fun m =>
    { m with check_triggers_fetch := existsb mc_execute (mcontrol s);
             check_triggers_load := existsb mc_load (mcontrol s);
             check_triggers_store := existsb mc_store (mcontrol s) } }.

#[export] Instance mcontrol_inhabited : Inhabited mcontrol_t :=
  populate (Mcontrol 0 false 0 false false 0 false 0 false false false false false false false).

Definition cur_mcontrol (s : state_t) : mcontrol_t := mcontrol s !!! Z.to_nat (tselect s).

Definition set_tdata1 (val : Z) (s : state_t) : state_t :=
  let mc := cur_mcontrol s in
  if mc_dmode mc && (dcsr_cause (dcsr s) =? 0) then s
  else
    let mc :=
      Mcontrol (mc_type mc) (field_bit val (MCONTROL_DMODE xlen)) (mc_maskmax mc)
        (field_bit val MCONTROL_SELECT) (field_bit val MCONTROL_TIMING) (get_field val MCONTROL_ACTION)
        (field_bit val MCONTROL_CHAIN) (get_field val MCONTROL_MATCH) (field_bit val MCONTROL_M)
        (field_bit val MCONTROL_H) (field_bit val MCONTROL_S) (field_bit val MCONTROL_U)
        (field_bit val MCONTROL_EXECUTE) (field_bit val MCONTROL_STORE) (field_bit val MCONTROL_LOAD) in
    let mc := if mc_execute mc then { mc with mc_timing := false } else mc in
    trigger_updated { s with mcontrol ::= <[Z.to_nat (tselect s) := mc]> }.

Definition set_tdata2 (val : Z) (s : state_t) : state_t :=
  if mc_dmode (cur_mcontrol s) && (dcsr_cause (dcsr s) =? 0) then s
  else if tselect s <? 4 then { s with tdata2 ::= <[Z.to_nat (tselect s) := val]> } else s.

Definition set_dcsr (val : Z) (s : state_t) : state_t :=
  { s with dcsr ::= fun d =>
    Dcsr (get_field val DCSR_PRV) (field_bit val DCSR_STEP) (field_bit val DCSR_EBREAKM)
      (field_bit val DCSR_EBREAKH) (field_bit val DCSR_EBREAKS) (field_bit val DCSR_EBREAKU)
      (field_bit val DCSR_HALT) (dcsr_cause d) }.

Definition dirty (s : state_t) : state_t := { s with mstatus ::= fun v => Z.land v dirty_fp_mask }.

Definition set_csr (which val : Z) (s : state_t) : state_t :=
  let val := zext_xlen val in
  if which =? CSR_FFLAGS then { dirty s with fflags := Z.land val (Z.shiftr FSR_AEXC FSR_AEXC_SHIFT) }
  else if which =? CSR_FRM then { dirty s with frm := Z.land val (Z.shiftr FSR_RD FSR_RD_SHIFT) }
  else if which =? CSR_FCSR then
    { dirty s with fflags := Z.shiftr (Z.land val FSR_AEXC) FSR_AEXC_SHIFT;
                   frm := Z.shiftr (Z.land val FSR_RD) FSR_RD_SHIFT }
  else if which =? CSR_MSTATUS then set_mstatus val s
  else if which =? CSR_MIP then set_mip val s
  else if which =? CSR_MIE then set_mie val s
  else if which =? CSR_MIDELEG then { s with mideleg := masked (mideleg s) delegable_ints val }
  else if which =? CSR_MEDELEG then { s with medeleg := masked (medeleg s) medeleg_mask val }
  else if (which =? CSR_MINSTRET) || (which =? CSR_MCYCLE) then
    let v := if xlen =? 32
             then Z.lor (u64 (Z.shiftl (Z.shiftr (minstret s) 32) 32)) (Z.land val 0xffffffff) else val in
    { s with minstret := u64 (v - 1) }
  else if (which =? CSR_MINSTRETH) || (which =? CSR_MCYCLEH) then
    { s with minstret := u64 (Z.lor (u64 (Z.shiftl val 32)) (Z.shiftr (u64 (Z.shiftl (minstret s) 32)) 32) - 1) }
  else if which =? CSR_SCOUNTEREN then { s with scounteren := u32 val }
  else if which =? CSR_MCOUNTEREN then { s with mcounteren := u32 val }
  else if which =? CSR_SSTATUS then set_mstatus (zext_xlen (masked (mstatus s) sstatus_mask val)) s
  else if which =? CSR_SIP then set_mip (zext_xlen (masked (mip s) (Z.land MIP_SSIP (mideleg s)) val)) s
  else if which =? CSR_SIE then set_mie (zext_xlen (masked (mie s) (mideleg s) val)) s
  else if which =? CSR_SATP then set_satp val s
  else if which =? CSR_SEPC then { s with sepc := Z.land val (Z.lnot 1) }
  else if which =? CSR_STVEC then { s with stvec := Z.shiftl (Z.shiftr val 2) 2 }
  else if which =? CSR_SSCRATCH then { s with sscratch := val }
  else if which =? CSR_SCAUSE then { s with scause := val }
  else if which =? CSR_STVAL then { s with stval := val }
  else if which =? CSR_MEPC then { s with mepc := Z.land val (Z.lnot 1) }
  else if which =? CSR_MTVEC then { s with mtvec := Z.land val (Z.lnot 2) }
  else if which =? CSR_MSCRATCH then { s with mscratch := val }
  else if which =? CSR_MCAUSE then { s with mcause := val }
  else if which =? CSR_MTVAL then { s with mtval := val }
  else if which =? CSR_MISA then set_misa val s
  else if which =? CSR_TSELECT then if val <? 4 then { s with tselect := val } else s
  else if which =? CSR_TDATA1 then set_tdata1 val s
  else if which =? CSR_TDATA2 then set_tdata2 val s
  else if which =? CSR_DCSR then set_dcsr val s
  else if which =? CSR_DPC then { s with dpc := Z.land val (Z.lnot 1) }
  else if which =? CSR_DSCRATCH then { s with dscratch := val }
  else s.

(** ** get_csr *)

Definition ctr_ok (which : Z) (s : state_t) : bool :=
  let c := u32 (-1) in
  let c := if prv s <? PRV_M then Z.land c (mcounteren s) else c in
  let c := if prv s <? PRV_S then Z.land c (scounteren s) else c in
  Z.testbit c (Z.land which 31).

Definition in_range (lo v hi : Z) : bool := (lo <=? v) && (v <=? hi).

Definition hpm_csr (which : Z) (s : state_t) : bool :=
  ctr_ok which s && (in_range CSR_HPMCOUNTER3 which CSR_HPMCOUNTER31
                     || (xlen =? 32) && in_range CSR_HPMCOUNTER3H which CSR_HPMCOUNTER31H)
  || in_range CSR_MHPMCOUNTER3 which CSR_MHPMCOUNTER31
  || (xlen =? 32) && in_range CSR_MHPMCOUNTER3H which CSR_MHPMCOUNTER31H
  || in_range CSR_MHPMEVENT3 which CSR_MHPMEVENT31.

Definition illegal_csr : Exec Z := throw (trap_illegal_instruction 0).

Definition get_fp_csr (f : state_t -> Z) : Exec Z :=
  require_fp;; b ← gets (supports_extension ext_F); if b : bool then gets f else illegal_csr.

Definition get_sstatus (s : state_t) : Z :=
  let v := Z.land (mstatus s) (Z.lor sstatus_mask SSTATUS_UXL) in
  if has_bits v SSTATUS_FS || has_bits v SSTATUS_XS then Z.lor v (if xlen =? 32 then SSTATUS32_SD else SSTATUS64_SD)
  else v.

Definition get_tdata1 (s : state_t) : Z :=
  if tselect s <? 4 then
    let mc := cur_mcontrol s in
    let v := set_field 0 (MCONTROL_TYPE xlen) (mc_type mc) in
    let v := set_field v (MCONTROL_DMODE xlen) (Z.b2z (mc_dmode mc)) in
    let v := set_field v (MCONTROL_MASKMAX xlen) (mc_maskmax mc) in
    let v := set_field v MCONTROL_SELECT (Z.b2z (mc_select mc)) in
    let v := set_field v MCONTROL_TIMING (Z.b2z (mc_timing mc)) in
    let v := set_field v MCONTROL_ACTION (mc_action mc) in
    let v := set_field v MCONTROL_CHAIN (Z.b2z (mc_chain mc)) in
    let v := set_field v MCONTROL_MATCH (mc_match mc) in
    let v := set_field v MCONTROL_M (Z.b2z (mc_m mc)) in
    let v := set_field v MCONTROL_H (Z.b2z (mc_h mc)) in
    let v := set_field v MCONTROL_S (Z.b2z (mc_s mc)) in
    let v := set_field v MCONTROL_U (Z.b2z (mc_u mc)) in
    let v := set_field v MCONTROL_EXECUTE (Z.b2z (mc_execute mc)) in
    let v := set_field v MCONTROL_STORE (Z.b2z (mc_store mc)) in
    set_field v MCONTROL_LOAD (Z.b2z (mc_load mc))
  else 0.

Definition get_dcsr (s : state_t) : Z :=
  let d := dcsr s in
  let v := set_field 0 DCSR_XDEBUGVER 1 in
  let v := set_field v DCSR_EBREAKM (Z.b2z (ebreakm d)) in
  let v := set_field v DCSR_EBREAKH (Z.b2z (ebreakh d)) in
  let v := set_field v DCSR_EBREAKS (Z.b2z (ebreaks d)) in
  let v := set_field v DCSR_EBREAKU (Z.b2z (ebreaku d)) in
  let v := set_field v DCSR_STOPCYCLE 0 in
  let v := set_field v DCSR_STOPTIME 0 in
  let v := set_field v DCSR_CAUSE (dcsr_cause d) in
  let v := set_field v DCSR_STEP (Z.b2z (dcsr_step d)) in
  set_field v DCSR_PRV (dcsr_prv d).

Definition get_csr (which : Z) : Exec Z :=
  hpm ← gets (hpm_csr which);
  if hpm : bool then mret 0
  else if which =? CSR_FFLAGS then get_fp_csr fflags
  else if which =? CSR_FRM then get_fp_csr frm
  else if which =? CSR_FCSR then
    get_fp_csr (fun s => Z.lor (Z.shiftl (fflags s) FSR_AEXC_SHIFT) (Z.shiftl (frm s) FSR_RD_SHIFT))
  else if (which =? CSR_INSTRET) || (which =? CSR_CYCLE) then
    ok ← gets (ctr_ok which); if ok : bool then gets minstret else illegal_csr
  else if (which =? CSR_MINSTRET) || (which =? CSR_MCYCLE) then gets minstret
  else if (which =? CSR_INSTRETH) || (which =? CSR_CYCLEH) then
    ok ← gets (ctr_ok which);
    if ok && (xlen =? 32) then gets (fun s => Z.shiftr (minstret s) 32) else illegal_csr
  else if (which =? CSR_MINSTRETH) || (which =? CSR_MCYCLEH) then
    if xlen =? 32 then gets (fun s => Z.shiftr (minstret s) 32) else illegal_csr
  else if which =? CSR_SCOUNTEREN then gets scounteren
  else if which =? CSR_MCOUNTEREN then gets mcounteren
  else if which =? CSR_SSTATUS then gets get_sstatus
  else if which =? CSR_SIP then gets (fun s => Z.land (mip s) (mideleg s))
  else if which =? CSR_SIE then gets (fun s => Z.land (mie s) (mideleg s))
  else if which =? CSR_SEPC then gets (fun s => Z.land (sepc s) (pc_alignment_mask s))
  else if which =? CSR_STVAL then gets stval
  else if which =? CSR_STVEC then gets stvec
  else if which =? CSR_SCAUSE then gets scause
  else if which =? CSR_SATP then
    v ← gets mstatus; when (field_bit v MSTATUS_TVM) (require_privilege PRV_M);; gets satp
  else if which =? CSR_SSCRATCH then gets sscratch
  else if which =? CSR_MSTATUS then gets mstatus
  else if which =? CSR_MIP then gets mip
  else if which =? CSR_MIE then gets mie
  else if which =? CSR_MEPC then gets (fun s => Z.land (mepc s) (pc_alignment_mask s))
  else if which =? CSR_MSCRATCH then gets mscratch
  else if which =? CSR_MCAUSE then gets mcause
  else if which =? CSR_MTVAL then gets mtval
  else if which =? CSR_MISA then gets misa
  else if which =? CSR_MARCHID then mret 5
  else if which =? CSR_MIMPID then mret 0
  else if which =? CSR_MVENDORID then mret 0
  else if which =? CSR_MHARTID then mret hart_id
  else if which =? CSR_MTVEC then gets mtvec
  else if which =? CSR_MEDELEG then gets medeleg
  else if which =? CSR_MIDELEG then gets mideleg
  else if which =? CSR_TSELECT then gets tselect
  else if which =? CSR_TDATA1 then gets get_tdata1
  else if which =? CSR_TDATA2 then
    gets (fun s => if tselect s <? 4 then tdata2 s !!! Z.to_nat (tselect s) else 0)
  else if which =? CSR_TDATA3 then mret 0
  else if which =? CSR_DCSR then gets get_dcsr
  else if which =? CSR_DPC then gets (fun s => Z.land (dpc s) (pc_alignment_mask s))
  else if which =? CSR_DSCRATCH then gets dscratch
  else illegal_csr.

(** ** Reset, traps and interrupts *)

(** [memset] clears the structure; what is not part of it stays. *)
Definition state_reset (s : state_t) : state_t :=
  State DEFAULT_RSTVEC (npc s) (replicate 32 0) (replicate 32 (0, 0)) PRV_M max_isa 0
    0 0 0 0 0 0 0 0 0 0 0 0 0 0 0 0 0 0 0 0 (Dcsr 0 false false false false false false 0)
    0 (replicate 4 (Mcontrol 2 false 0 false false 0 false 0 false false false false false false false)) (replicate 4 0)
    (0x1f :: replicate 15 0) ((2 ^ 64 - 1) :: replicate 15 0) 0 0 false STEP_NONE (fp s) (mmu s) (mem s) (io s).

Definition processor_reset (halt_on_reset : bool) (s : state_t) : state_t :=
  let s := state_reset s in
  let s := { s with dcsr ::= fun d => { d with dcsr_halt := halt_on_reset } } in
  set_csr CSR_MSTATUS (mstatus s) s.

Fixpoint ctz_loop (fuel : nat) (v res : Z) : Z :=
  match fuel with
  | O => res
  | S fuel => if Z.land v 1 =? 0 then ctz_loop fuel (Z.shiftr v 1) (res + 1) else res
  end.
Definition ctz (v : Z) : Z := if v =? 0 then 0 else ctz_loop 64 v 0.

(** The interrupts that may be taken, before one of them is picked. *)
Definition enabled_interrupts (pending : Z) (s : state_t) : Z :=
  let mie := field_bit (mstatus s) MSTATUS_MIE in
  let m_enabled := (prv s <? PRV_M) || (prv s =? PRV_M) && mie in
  let e := if m_enabled then Z.land pending (Z.lnot (mideleg s)) else 0 in
  let sie := field_bit (mstatus s) MSTATUS_SIE in
  let s_enabled := (prv s <? PRV_S) || (prv s =? PRV_S) && sie in
  if e =? 0 then if s_enabled then Z.land pending (mideleg s) else 0 else e.

Definition pick_interrupt (e : Z) : option Z :=
  let ext := Z.lor MIP_MEIP MIP_SEIP in
  let soft := Z.lor MIP_MSIP MIP_SSIP in
  let timer := Z.lor MIP_MTIP MIP_STIP in
  if negb (Z.shiftr e IRQ_M_EXT =? 0) then Some (Z.shiftl (Z.shiftr e IRQ_M_EXT) IRQ_M_EXT)
  else if negb (Z.land e ext =? 0) then Some (Z.land e ext)
  else if negb (Z.land e soft =? 0) then Some (Z.land e soft)
  else if negb (Z.land e timer =? 0) then Some (Z.land e timer)
  else None.

Definition take_interrupt (pending : Z) : Exec unit := fun s =>
  let e := enabled_interrupts pending s in
  if (dcsr_cause (dcsr s) =? 0) && negb (e =? 0) then
    match pick_interrupt e with
    | Some e => Throw (Trap (Z.lor (Z.shiftl 1 (xlen - 1)) (ctz e)) 0) s
    | None => Abort s
    end
  else Done tt s.
Definition take_pending_interrupt : Exec unit := v ← gets (fun s => Z.land (mip s) (mie s)); take_interrupt v.

Definition enter_debug_mode (cause : Z) (s : state_t) : state_t :=
  let s := { s with dcsr ::= fun d => { d with dcsr_cause := cause; dcsr_prv := prv s } } in
  let s := set_privilege PRV_M s in
  { s with dpc := pc s; pc := DEBUG_ROM_ENTRY }.

Definition ebreak_to_debug (s : state_t) : bool :=
  (prv s =? PRV_M) && ebreakm (dcsr s) || (prv s =? PRV_S) && ebreaks (dcsr s)
  || (prv s =? PRV_U) && ebreaku (dcsr s).

Definition is_interrupt (t : trap_t) : bool := negb (Z.land (cause t) (Z.shiftl 1 (xlen - 1)) =? 0).
Definition cause_bit (t : trap_t) : Z :=
  if is_interrupt t then Z.land (cause t) (Z.lnot (Z.shiftl 1 (xlen - 1))) else cause t.
Definition delegated (t : trap_t) (s : state_t) : bool :=
  (prv s <=? PRV_S) && (cause_bit t <? xlen)
  && Z.testbit (if is_interrupt t then mideleg s else medeleg s) (cause_bit t).

Definition trap_to_S (t : trap_t) (epc : Z) (s : state_t) : state_t :=
  let s := { s with pc := stvec s; scause := cause t; sepc := epc; stval := tval t } in
  let v := mstatus s in
  let v := set_field v MSTATUS_SPIE (get_field v MSTATUS_SIE) in
  let v := set_field v MSTATUS_SPP (prv s) in
  let v := set_field v MSTATUS_SIE 0 in
  set_privilege PRV_S (set_csr CSR_MSTATUS v s).

Definition trap_to_M (t : trap_t) (epc : Z) (s : state_t) : state_t :=
  let vector := if negb (Z.land (mtvec s) 1 =? 0) && is_interrupt t then u64 (4 * cause_bit t) else 0 in
  let s := { s with pc := u64 (Z.land (mtvec s) (Z.lnot 1) + vector);
                    mepc := epc; mcause := cause t; mtval := tval t } in
  let v := mstatus s in
  let v := set_field v MSTATUS_MPIE (get_field v MSTATUS_MIE) in
  let v := set_field v MSTATUS_MPP (prv s) in
  let v := set_field v MSTATUS_MIE 0 in
  set_privilege PRV_M (set_csr CSR_MSTATUS v s).

Definition take_trap (t : trap_t) (epc : Z) (s : state_t) : state_t :=
  if negb (dcsr_cause (dcsr s) =? 0) then
    { s with pc := if cause t =? CAUSE_BREAKPOINT then DEBUG_ROM_ENTRY else DEBUG_ROM_TVEC }
  else if (cause t =? CAUSE_BREAKPOINT) && ebreak_to_debug s then enter_debug_mode DCSR_CAUSE_SWBP s
  else if delegated t s then trap_to_S t epc s
  else trap_to_M t epc s.

(** ** Instructions *)

(** [validate_csr] and the rest of the instruction; it returns
    [PC_SERIALIZE_BEFORE] the first time, for step to set [serialized]. *)
Definition validate_csr (which : Z) (write : bool) (k : Exec unit) : Exec unit :=
  ser ← gets serialized;
  if negb ser then set_npc PC_SERIALIZE_BEFORE
  else
    puts (fun s => { s with serialized := false });;
    p ← gets prv;
    if write && (get_field which 0xC00 =? 3) || (p <? get_field which 0x300) then throw (trap_illegal_instruction 0)
    else k.

(** csrrw, csrrs and csrrc with the value they write, given the old one. *)
Definition csr_insn (insn : Z) (write : bool) (operand : Exec Z) (f : Z -> Z -> Z) : Exec unit :=
  validate_csr (csr insn) write (
    old ← get_csr (csr insn);
    a ← operand;
    when write (puts (set_csr (csr insn) (f old a)));;
    WRITE_RD insn (sext_xlen old);;
    serialize).

Definition rv_csrrw (insn : Z) : Exec unit := csr_insn insn true (RS1 insn) (fun _ a => a).
Definition rv_csrrs (insn : Z) : Exec unit := csr_insn insn (negb (rs1 insn =? 0)) (RS1 insn) Z.lor.
Definition rv_csrrc (insn : Z) : Exec unit :=
  csr_insn insn (negb (rs1 insn =? 0)) (RS1 insn) (fun old a => Z.land old (Z.lnot a)).
Definition rv_csrrwi (insn : Z) : Exec unit := csr_insn insn true (mret (rs1 insn)) (fun _ a => a).
Definition rv_csrrsi (insn : Z) : Exec unit := csr_insn insn (negb (rs1 insn =? 0)) (mret (rs1 insn)) Z.lor.
Definition rv_csrrci (insn : Z) : Exec unit :=
  csr_insn insn (negb (rs1 insn =? 0)) (mret (rs1 insn)) (fun old a => Z.land old (Z.lnot a)).

Definition rv_mret (insn : Z) : Exec unit :=
  require_privilege PRV_M;;
  epc ← gets mepc; set_pc_and_serialize epc;;
  v ← gets mstatus;
  let prev_prv := get_field v MSTATUS_MPP in
  let v := set_field v MSTATUS_MIE (get_field v MSTATUS_MPIE) in
  let v := set_field v MSTATUS_MPIE 1 in
  let v := set_field v MSTATUS_MPP PRV_U in
  puts (set_privilege prev_prv);;
  puts (set_csr CSR_MSTATUS v).

Definition rv_sret (insn : Z) : Exec unit :=
  v ← gets mstatus;
  require_privilege (if field_bit v MSTATUS_TSR then PRV_M else PRV_S);;
  epc ← gets sepc; set_pc_and_serialize epc;;
  v ← gets mstatus;
  let prev_prv := get_field v MSTATUS_SPP in
  let v := set_field v MSTATUS_SIE (get_field v MSTATUS_SPIE) in
  let v := set_field v MSTATUS_SPIE 1 in
  let v := set_field v MSTATUS_SPP PRV_U in
  puts (set_privilege prev_prv);;
  puts (set_csr CSR_MSTATUS v).

Definition rv_dret (insn : Z) : Exec unit :=
  require_privilege PRV_M;;
  v ← gets dpc; set_pc_and_serialize v;;
  puts (fun s => set_privilege (dcsr_prv (dcsr s)) s);;
  puts (fun s => { s with dcsr ::= fun d => { d with dcsr_cause := 0 } });;
  puts (fun s => if dcsr_step (dcsr s) then { s with single_step := STEP_STEPPING } else s).

Definition rv_ecall (insn : Z) : Exec unit :=
  p ← gets prv;
  if p =? PRV_U then throw trap_user_ecall
  else if p =? PRV_S then throw trap_supervisor_ecall
  else if p =? PRV_M then throw trap_machine_ecall
  else abort.

Definition rv_ebreak (insn : Z) : Exec unit := p ← gets pc; throw (trap_breakpoint p).

Definition rv_wfi (insn : Z) : Exec unit :=
  v ← gets mstatus; require_privilege (if field_bit v MSTATUS_TW then PRV_M else PRV_S);; wfi.

Definition rv_sfence_vma (insn : Z) : Exec unit :=
  v ← gets mstatus; require_privilege (if field_bit v MSTATUS_TVM then PRV_M else PRV_S);;
  puts (fun s => { s with mmu ::= flush_tlb }).

End Csr.
