(* ===== verification/SpikePriv.v ===== *)
(** * Spike: fields of mstatus, traps and returns

    The fields of control registers bit by bit, and on top of them what a trap
    followed by the return from it does, and which interrupt is taken. *)

From Stdlib Require Import ZArith Lia.
From stdpp Require Import base tactics list numbers.
From coqutil Require Import Datatypes.RecordSetters.
Import OCamlLikeNotations.
From S2P Require Import Prelude SoftFloat Spike SpikeCsr.

(** ** Fields *)

(** [mask] has [len] bits from bit [lo] on. *)
Class Field (mask lo len : Z) : Prop := {
  field_mask : mask = Z.shiftl (Z.ones len) lo;
  field_fits : (0 <=? lo) && (0 <? len) && (lo + len <=? 64) = true;
}.

Ltac field := split; reflexivity.
#[export] Instance field_SIE : Field MSTATUS_SIE 1 1. Proof. field. Qed.
#[export] Instance field_MIE : Field MSTATUS_MIE 3 1. Proof. field. Qed.
#[export] Instance field_SPIE : Field MSTATUS_SPIE 5 1. Proof. field. Qed.
#[export] Instance field_MPIE : Field MSTATUS_MPIE 7 1. Proof. field. Qed.
#[export] Instance field_SPP : Field MSTATUS_SPP 8 1. Proof. field. Qed.
#[export] Instance field_MPP : Field MSTATUS_MPP 11 2. Proof. field. Qed.
#[export] Instance field_FS : Field MSTATUS_FS 13 2. Proof. field. Qed.
#[export] Instance field_MPRV : Field MSTATUS_MPRV 17 1. Proof. field. Qed.
#[export] Instance field_SUM : Field MSTATUS_SUM 18 1. Proof. field. Qed.
#[export] Instance field_MXR : Field MSTATUS_MXR 19 1. Proof. field. Qed.
#[export] Instance field_TVM : Field MSTATUS_TVM 20 1. Proof. field. Qed.
#[export] Instance field_TW : Field MSTATUS_TW 21 1. Proof. field. Qed.
#[export] Instance field_TSR : Field MSTATUS_TSR 22 1. Proof. field. Qed.
#[export] Instance field_SD32 : Field MSTATUS32_SD 31 1. Proof. field. Qed.
#[export] Instance field_UXL : Field MSTATUS_UXL 32 2. Proof. field. Qed.
#[export] Instance field_SXL : Field MSTATUS_SXL 34 2. Proof. field. Qed.
#[export] Instance field_SD64 : Field MSTATUS64_SD 63 1. Proof. field. Qed.
#[export] Instance field_CSR_PRV : Field 0x300 8 2. Proof. field. Qed.
#[export] Instance field_CSR_RO : Field 0xC00 10 2. Proof. field. Qed.

Definition within (lo len i : Z) : bool := (lo <=? i) && (i <? lo + len).

Section Fields.
Context (mask lo len : Z) `{!Field mask lo len}.

Lemma field_bounds : 0 <= lo /\ 0 < len /\ lo + len <= 64.
Proof. pose proof (field_fits (mask := mask) (lo := lo) (len := len)) as Hf. rewrite !andb_true_iff, !Z.leb_le, Z.ltb_lt in Hf. lia. Qed.

Lemma mask_bit i : 0 <= i -> Z.testbit mask i = within lo len i.
Proof.
  intros Hi. pose proof field_bounds. rewrite (field_mask (mask := mask) (lo := lo) (len := len)).
  rewrite Z.shiftl_spec, Z.testbit_ones by lia. unfold within.
  destruct (Z.leb_spec 0 (i - lo)), (Z.leb_spec lo i), (Z.ltb_spec (i - lo) len), (Z.ltb_spec i (lo + len)); done || lia.
Qed.

Lemma mask_unit_field : mask_unit mask = 2 ^ lo.
Proof.
  pose proof field_bounds. apply Z.bits_inj'. intros i Hi. unfold mask_unit.
  rewrite Z.land_spec, Z.lnot_spec, Z.shiftl_spec, Z.pow2_bits_eqb, mask_bit by lia.
  destruct (Z.ltb_spec (i - 1) 0) as [Hn|Hn].
  - rewrite Z.testbit_neg_r by lia. unfold within.
    destruct (Z.leb_spec lo i), (Z.ltb_spec i (lo + len)), (Z.eqb_spec lo i); done || lia.
  - rewrite mask_bit by lia. unfold within.
    destruct (Z.leb_spec lo i), (Z.ltb_spec i (lo + len)), (Z.eqb_spec lo i), (Z.leb_spec lo (i - 1)),
      (Z.ltb_spec (i - 1) (lo + len)); done || lia.
Qed.

Lemma set_field_bit reg v i : 0 <= i ->
  Z.testbit (set_field reg mask v) i = if within lo len i then Z.testbit v (i - lo) else Z.testbit reg i.
Proof.
  intros Hi. pose proof field_bounds. unfold set_field. rewrite mask_unit_field, <-Z.shiftl_mul_pow2 by lia.
  rewrite Z.lor_spec, !Z.land_spec, Z.lnot_spec, mask_bit by lia. unfold u64.
  change 18446744073709551616 with (2 ^ 64). destruct (within lo len i) eqn:Hw; cbn [negb]; [|by rewrite andb_true_r, andb_false_r, orb_false_r].
  unfold within in Hw. rewrite andb_true_iff, Z.leb_le, Z.ltb_lt in Hw.
  rewrite andb_false_r, orb_false_l, andb_true_r, Z.mod_pow2_bits_low, Z.shiftl_spec, Z.mod_pow2_bits_low by lia. done.
Qed.

Lemma get_field_div reg : get_field reg mask = (reg / 2 ^ lo) mod 2 ^ len.
Proof.
  pose proof field_bounds. unfold get_field. rewrite mask_unit_field, <-Z.shiftr_div_pow2 by lia.
  apply Z.bits_inj'. intros i Hi. rewrite Z.shiftr_spec, Z.land_spec, mask_bit by lia.
  rewrite <-Z.shiftr_div_pow2 by lia. destruct (Z.ltb_spec i len).
  - rewrite Z.mod_pow2_bits_low, Z.shiftr_spec by lia. unfold within.
    destruct (Z.leb_spec lo (i + lo)), (Z.ltb_spec (i + lo) (lo + len)); try lia; apply andb_true_r.
  - rewrite Z.mod_pow2_bits_high by lia. unfold within.
    destruct (Z.leb_spec lo (i + lo)), (Z.ltb_spec (i + lo) (lo + len)); try lia; apply andb_false_r.
Qed.

Lemma get_field_bit reg i : 0 <= i -> Z.testbit (get_field reg mask) i = (i <? len) && Z.testbit reg (lo + i).
Proof.
  intros Hi. pose proof field_bounds. rewrite get_field_div, <-Z.shiftr_div_pow2 by lia. destruct (Z.ltb_spec i len).
  - rewrite Z.mod_pow2_bits_low, Z.shiftr_spec by lia. cbn. f_equal. lia.
  - by rewrite Z.mod_pow2_bits_high by lia.
Qed.

Lemma get_field_range reg : 0 <= get_field reg mask < 2 ^ len.
Proof. pose proof field_bounds. rewrite get_field_div. apply Z.mod_pos_bound, Z.pow_pos_nonneg; lia. Qed.

(** Registers that agree on a field. *)
Lemma get_field_ext r r' :
  (forall i, lo <= i < lo + len -> Z.testbit r i = Z.testbit r' i) -> get_field r mask = get_field r' mask.
Proof.
  intros Hr. pose proof field_bounds. apply Z.bits_inj'. intros i Hi. rewrite !get_field_bit by done.
  destruct (Z.ltb_spec i len); [|done]. by rewrite Hr by lia.
Qed.

Lemma get_set_field reg v : 0 <= v < 2 ^ len -> get_field (set_field reg mask v) mask = v.
Proof.
  intros Hv. pose proof field_bounds. apply Z.bits_inj'. intros i Hi. rewrite get_field_bit by done.
  destruct (Z.ltb_spec i len) as [Hl|Hl].
  - rewrite set_field_bit by lia. unfold within.
    destruct (Z.leb_spec lo (lo + i)), (Z.ltb_spec (lo + i) (lo + len)); try lia. cbn. f_equal. lia.
  - rewrite <-(Z.mod_small v (2 ^ len)) by done. by rewrite Z.mod_pow2_bits_high by lia.
Qed.
End Fields.

Lemma get_set_other m1 lo1 len1 m2 lo2 len2 `{!Field m1 lo1 len1, !Field m2 lo2 len2} reg v :
  (lo1 + len1 <=? lo2) || (lo2 + len2 <=? lo1) = true ->
  get_field (set_field reg m1 v) m2 = get_field reg m2.
Proof.
  intros Hd. pose proof (field_bounds m1 lo1 len1). pose proof (field_bounds m2 lo2 len2).
  rewrite orb_true_iff, !Z.leb_le in Hd. apply (get_field_ext m2 lo2 len2). intros i Hi.
  rewrite (set_field_bit m1 lo1 len1) by lia. unfold within.
  destruct (Z.leb_spec lo1 i), (Z.ltb_spec i (lo1 + len1)); done || lia.
Qed.

Lemma masked_bit old mask v i : 0 <= i ->
  Z.testbit (masked old mask v) i = if Z.testbit mask i then Z.testbit v i else Z.testbit old i.
Proof.
  intros Hi. unfold masked. rewrite Z.lor_spec, !Z.land_spec, Z.lnot_spec by done.
  by destruct (Z.testbit mask i), (Z.testbit v i), (Z.testbit old i).
Qed.

Lemma zext_xlen_bit `{ConfigOk} v i : 0 <= i -> Z.testbit (zext_xlen v) i = (i <? xlen) && Z.testbit v i.
Proof.
  intros Hi. unfold zext_xlen, u64. change 18446744073709551616 with (2 ^ 64).
  assert (0 <= 64 - xlen) by (destruct xlen_cases; lia). rewrite Z.shiftr_spec by done.
  destruct (Z.ltb_spec i xlen).
  - rewrite Z.mod_pow2_bits_low, Z.shiftl_spec by lia. cbn. f_equal. lia.
  - by rewrite Z.mod_pow2_bits_high by lia.
Qed.

(** ** Writing mstatus *)

Definition sd_bit `{Config} : Z := if xlen =? 32 then 31 else 63.

(** Bit [i] of mstatus after a write of [val]. *)
Definition mstatus_bit `{Config} (val : Z) (s : state_t) (i : Z) : bool :=
  if within 34 2 i then Z.testbit xlen_to_uxl (i - 34)
  else if within 32 2 i then Z.testbit xlen_to_uxl (i - 32)
  else if i =? sd_bit then false
  else if Z.testbit (mstatus_mask s) i then Z.testbit val i
  else if within 11 2 i then Z.testbit (legalize_privilege (get_field val MSTATUS_MPP) s) (i - 11)
  else Z.testbit (mstatus s) i.

Lemma mstatus_set v (s : state_t) : mstatus { s with mstatus := v } = v.
Proof. done. Qed.

Lemma set_mstatus_bit `{Config} val s i : 0 <= i -> Z.testbit (mstatus (set_mstatus val s)) i = mstatus_bit val s i.
Proof.
  intros Hi. unfold set_mstatus, mstatus_bit, sd_bit. cbv zeta. rewrite mstatus_set.
  rewrite (set_field_bit MSTATUS_SXL 34 2), !(set_field_bit MSTATUS_UXL 32 2) by done.
  destruct (within 34 2 i); [done|]. destruct (within 32 2 i) eqn:Hw; [done|].
  assert (forall b, within b 1 i = (i =? b)) as Hone.
  { intros b. unfold within. destruct (Z.leb_spec b i), (Z.ltb_spec i (b + 1)), (Z.eqb_spec i b); done || lia. }
  destruct (xlen =? 32).
  - rewrite (set_field_bit MSTATUS32_SD 31 1), Hone by done. destruct (i =? 31); [apply Z.bits_0|].
    rewrite masked_bit by done. destruct (Z.testbit (mstatus_mask s) i); [done|]. by rewrite (set_field_bit MSTATUS_MPP 11 2).
  - rewrite (set_field_bit MSTATUS64_SD 63 1), Hone by done. destruct (i =? 63); [apply Z.bits_0|].
    rewrite masked_bit by done. destruct (Z.testbit (mstatus_mask s) i); [done|]. by rewrite (set_field_bit MSTATUS_MPP 11 2).
Qed.

(** The bits that a write of mstatus sets by itself. *)
Definition fixed_bit `{Config} (i : Z) : bool := within 32 4 i || (i =? sd_bit).

Lemma mask_high `{Config} s i : 36 <= i -> Z.testbit (mstatus_mask s) i = false.
Proof.
  intros Hi. apply (Z.bits_above_log2 (mstatus_mask s)).
  - unfold mstatus_mask. by destruct has_ext, (supports_extension _ _).
  - apply (Z.lt_le_trans _ 36); [|done]. unfold mstatus_mask. by destruct has_ext, (supports_extension _ _).
Qed.

(** A write of mstatus, by bits and for the fields. *)
Lemma write_mstatus_bit `{ConfigOk} v s i :
  0 <= i -> fixed_bit i = false -> within 11 2 i = false ->
  Z.testbit (mstatus (set_csr CSR_MSTATUS v s)) i
  = if Z.testbit (mstatus_mask s) i then Z.testbit v i else Z.testbit (mstatus s) i.
Proof.
  intros Hi Hf Hm. change (set_csr CSR_MSTATUS v s) with (set_mstatus (zext_xlen v) s).
  rewrite set_mstatus_bit by done. unfold mstatus_bit, fixed_bit in *. rewrite orb_false_iff in Hf. destruct Hf as [Hf ->].
  assert (within 34 2 i = false /\ within 32 2 i = false) as [-> ->].
  { unfold within in *. rewrite !andb_false_iff, ?Z.leb_gt, ?Z.ltb_ge in *. lia. }
  rewrite Hm. destruct (Z.testbit (mstatus_mask s) i) eqn:E; [|done]. rewrite zext_xlen_bit by done.
  destruct (Z.ltb_spec i xlen) as [Hl|Hl]; [done|]. destruct (Z.lt_ge_cases i 36) as [Hs|Hs]; [|by rewrite mask_high in E].
  destruct xlen_cases; [|lia]. unfold within in Hf. rewrite andb_false_iff, Z.leb_gt, Z.ltb_ge in Hf. lia.
Qed.

Lemma write_mstatus_MPP `{ConfigOk} v s :
  get_field (mstatus (set_csr CSR_MSTATUS v s)) MSTATUS_MPP = legalize_privilege (get_field v MSTATUS_MPP) s.
Proof.
  change (set_csr CSR_MSTATUS v s) with (set_mstatus (zext_xlen v) s).
  pose proof (get_field_range MSTATUS_MPP 11 2 v) as Hr.
  assert (get_field (zext_xlen v) MSTATUS_MPP = get_field v MSTATUS_MPP) as Hz.
  { apply (get_field_ext MSTATUS_MPP 11 2). intros i Hi. rewrite zext_xlen_bit by lia.
    destruct (Z.ltb_spec i xlen); [done|]. destruct xlen_cases; lia. }
  assert (0 <= legalize_privilege (get_field v MSTATUS_MPP) s < 4) as Hl.
  { unfold legalize_privilege. destruct (negb _); [done|]. destruct (_ || _); [done|]. lia. }
  apply Z.bits_inj'. intros i Hi. rewrite (get_field_bit MSTATUS_MPP 11 2) by done.
  destruct (Z.ltb_spec i 2) as [H2|H2]; cbn [andb].
  - rewrite set_mstatus_bit by lia. unfold mstatus_bit.
    assert (within 34 2 (11 + i) = false /\ within 32 2 (11 + i) = false /\ (11 + i =? sd_bit) = false
            /\ Z.testbit (mstatus_mask s) (11 + i) = false /\ within 11 2 (11 + i) = true) as (-> & -> & -> & -> & ->).
    { assert (i = 0 \/ i = 1) as [-> | ->] by lia; unfold sd_bit, mstatus_mask;
        destruct (xlen =? 32), has_ext, (supports_extension ext_S s); done. }
    rewrite Hz. f_equal. lia.
  - symmetry. rewrite <-(Z.mod_small _ _ Hl). change 4 with (2 ^ 2). by rewrite Z.mod_pow2_bits_high.
Qed.

(** A field of one bit that a write can change. *)
Lemma write_mstatus_bit1 `{ConfigOk} mask lo `{!Field mask lo 1} v s :
  fixed_bit lo = false -> within 11 2 lo = false -> Z.testbit (mstatus_mask s) lo = true ->
  get_field (mstatus (set_csr CSR_MSTATUS v s)) mask = get_field v mask.
Proof.
  intros Hf Hm Hk. pose proof (field_bounds mask lo 1). apply (get_field_ext mask lo 1). intros i Hi.
  assert (i = lo) as -> by lia. by rewrite write_mstatus_bit, Hk by (done || lia).
Qed.

(** ** Traps and returns *)

Definition legal_prv `{Config} (s : state_t) : Prop := 0 <= prv s <= PRV_M /\ legalize_privilege (prv s) s = prv s.

(** [m'] is [m] but for some bits and those a write sets by itself. *)
Definition same_but `{Config} (f : Z -> bool) (m' m : Z) : Prop :=
  forall i, 0 <= i -> fixed_bit i = false -> f i = false -> Z.testbit m' i = Z.testbit m i.

Definition M_trap_bits (i : Z) : bool := (i =? 3) || (i =? 7) || within 11 2 i.
Definition S_trap_bits (i : Z) : bool := (i =? 1) || (i =? 5) || (i =? 8) || within 11 2 i.

Lemma same_but_write `{ConfigOk} f v (s : state_t) :
  (forall i, f i = false -> within 11 2 i = false) -> same_but f v (mstatus s) ->
  same_but f (mstatus (set_csr CSR_MSTATUS v s)) (mstatus s).
Proof.
  intros Hf Hv i Hi Hx Hb. rewrite write_mstatus_bit by auto. destruct (Z.testbit _ _); [|done]. by apply Hv.
Qed.

Lemma same_but_trans `{Config} f a b c : same_but f a b -> same_but f b c -> same_but f a c.
Proof. intros H1 H2 i Hi Hx Hb. rewrite H1 by done. by apply H2. Qed.

Lemma same_but_set `{Config} f mask lo len `{!Field mask lo len} v a b :
  (forall i, f i = false -> within lo len i = false) -> same_but f a b -> same_but f (set_field a mask v) b.
Proof.
  intros Hf Hs i Hi Hx Hb. rewrite (set_field_bit mask lo len) by done. rewrite Hf by done. by apply Hs.
Qed.

Lemma same_but_refl `{Config} f a : same_but f a a.
Proof. done. Qed.

Ltac in_bits :=
  intros i; unfold M_trap_bits, S_trap_bits, within; rewrite ?orb_false_iff, ?andb_false_iff, ?Z.eqb_neq, ?Z.leb_gt, ?Z.ltb_ge;
  lia.

(** The S and U extensions, which every ISA string brings. *)
Definition has_SU (s : state_t) : Prop := supports_extension ext_S s = true /\ supports_extension ext_U s = true.

Lemma legalize_SU `{Config} p s : has_SU s -> legalize_privilege p s = if p =? PRV_H then PRV_U else p.
Proof. intros [HS HU]. unfold legalize_privilege. rewrite HS, HU. cbn. by rewrite orb_false_r. Qed.

Lemma legal_not_H `{Config} s : has_SU s -> legal_prv s -> (prv s =? PRV_H) = false.
Proof.
  intros Hsu [_ Hl]. rewrite legalize_SU in Hl by done. destruct (Z.eqb_spec (prv s) PRV_H) as [E|]; [|done].
  rewrite E in Hl. done.
Qed.

Definition mret_state `{Config} (s : state_t) : state_t :=
  let v := mstatus s in
  let v' := set_field v MSTATUS_MIE (get_field v MSTATUS_MPIE) in
  let v' := set_field v' MSTATUS_MPIE 1 in
  let v' := set_field v' MSTATUS_MPP PRV_U in
  set_csr CSR_MSTATUS v' (set_privilege (get_field v MSTATUS_MPP)
    { s with pc := Z.land (u64 (mepc s)) (pc_alignment_mask s); npc := PC_SERIALIZE_AFTER }).

Lemma mret_eq `{Config} insn s : prv s = PRV_M -> rv_mret insn s = Done tt (mret_state s).
Proof. intros Hp. unfold rv_mret, require_privilege, mbind, Exec_bind, gets. rewrite Hp. done. Qed.

Definition sret_state `{Config} (s : state_t) : state_t :=
  let v := mstatus s in
  let v' := set_field v MSTATUS_SIE (get_field v MSTATUS_SPIE) in
  let v' := set_field v' MSTATUS_SPIE 1 in
  let v' := set_field v' MSTATUS_SPP PRV_U in
  set_csr CSR_MSTATUS v' (set_privilege (get_field v MSTATUS_SPP)
    { s with pc := Z.land (u64 (sepc s)) (pc_alignment_mask s); npc := PC_SERIALIZE_AFTER }).

Lemma sret_eq `{Config} insn s :
  prv s = PRV_S -> get_field (mstatus s) MSTATUS_TSR = 0 -> rv_sret insn s = Done tt (sret_state s).
Proof.
  intros Hp Ht. unfold rv_sret, require_privilege, mbind, Exec_bind, gets, field_bit. rewrite Ht, Hp. done.
Qed.

(** Bits of the mask of mstatus. *)
Lemma mask_bits `{Config} s :
  has_SU s -> forall i, In i [1; 3; 5; 7; 8; 17; 18; 19; 20; 21; 22] -> Z.testbit (mstatus_mask s) i = true.
Proof.
  intros [HS _] i Hi. unfold mstatus_mask. rewrite HS. cbn in Hi.
  repeat (destruct Hi as [<-|Hi]; [by destruct has_ext|]). done.
Qed.

Lemma fixed_low `{Config} i : i <= 30 -> fixed_bit i = false.
Proof.
  intros Hi. unfold fixed_bit, sd_bit, within. rewrite orb_false_iff, andb_false_iff, Z.leb_gt, Z.eqb_neq.
  destruct (xlen =? 32); lia.
Qed.

Ltac mstatus_field lo :=
  rewrite (write_mstatus_bit1 _ lo) by (try apply fixed_low; try (apply mask_bits; [done|cbn; tauto]); done || lia).

Section Trap.
Context `{ConfigOk} (t : trap_t) (epc : Z) (s : state_t).
Hypothesis Hsu : has_SU s.
Hypothesis Hprv : legal_prv s.

(** The new value of mstatus before it is written, and the state it is written in. *)
Let vM := set_field (set_field (set_field (mstatus s) MSTATUS_MPIE (get_field (mstatus s) MSTATUS_MIE))
            MSTATUS_MPP (prv s)) MSTATUS_MIE 0.
Let vS := set_field (set_field (set_field (mstatus s) MSTATUS_SPIE (get_field (mstatus s) MSTATUS_SIE))
            MSTATUS_SPP (prv s)) MSTATUS_SIE 0.

Lemma trap_to_M_fields :
  let s1 := trap_to_M t epc s in
  prv s1 = PRV_M /\ get_field (mstatus s1) MSTATUS_MIE = 0
  /\ get_field (mstatus s1) MSTATUS_MPIE = get_field (mstatus s) MSTATUS_MIE
  /\ get_field (mstatus s1) MSTATUS_MPP = prv s /\ same_but M_trap_bits (mstatus s1) (mstatus s).
Proof.
  set (s0 := { s with pc := u64 (Z.land (mtvec s) (Z.lnot 1)
                        + (if negb (Z.land (mtvec s) 1 =? 0) && is_interrupt t then u64 (4 * cause_bit t) else 0));
                      mepc := epc; mcause := cause t; mtval := tval t }).
  assert (has_SU s0) as Hs0 by exact Hsu.
  change (trap_to_M t epc s) with (set_privilege PRV_M (set_csr CSR_MSTATUS vM s0)). cbv zeta.
  change (mstatus (set_privilege PRV_M (set_csr CSR_MSTATUS vM s0))) with (mstatus (set_csr CSR_MSTATUS vM s0)).
  pose proof (proj1 Hprv) as Hr. unfold PRV_M in Hr. split_and!.
  - etrans; [exact (legalize_SU PRV_M s Hsu)|done].
  - mstatus_field 3. unfold vM. by rewrite (get_set_field _ 3 1).
  - mstatus_field 7. unfold vM. rewrite (get_set_other _ 3 1 _ 7 1), (get_set_other _ 11 2 _ 7 1) by done.
    rewrite (get_set_field _ 7 1); [done|]. apply (get_field_range _ 3 1).
  - rewrite write_mstatus_MPP. unfold vM. rewrite (get_set_other _ 3 1 _ 11 2), (get_set_field _ 11 2) by (done || lia).
    rewrite legalize_SU, legal_not_H by done. done.
  - apply (same_but_write _ vM s0); [in_bits|]. unfold vM.
    apply (same_but_set _ _ 3 1), (same_but_set _ _ 11 2), (same_but_set _ _ 7 1), same_but_refl; in_bits.
Qed.

Lemma trap_to_S_fields :
  prv s <= PRV_S ->
  let s1 := trap_to_S t epc s in
  prv s1 = PRV_S /\ get_field (mstatus s1) MSTATUS_SIE = 0
  /\ get_field (mstatus s1) MSTATUS_SPIE = get_field (mstatus s) MSTATUS_SIE
  /\ get_field (mstatus s1) MSTATUS_SPP = prv s /\ same_but S_trap_bits (mstatus s1) (mstatus s).
Proof.
  intros Hle. set (s0 := { s with pc := stvec s; scause := cause t; sepc := epc; stval := tval t }).
  assert (has_SU s0) as Hs0 by exact Hsu.
  change (trap_to_S t epc s) with (set_privilege PRV_S (set_csr CSR_MSTATUS vS s0)). cbv zeta.
  change (mstatus (set_privilege PRV_S (set_csr CSR_MSTATUS vS s0))) with (mstatus (set_csr CSR_MSTATUS vS s0)).
  pose proof (proj1 Hprv) as Hr. unfold PRV_S in Hle. split_and!.
  - etrans; [exact (legalize_SU PRV_S s Hsu)|done].
  - mstatus_field 1. unfold vS. by rewrite (get_set_field _ 1 1).
  - mstatus_field 5. unfold vS. rewrite (get_set_other _ 1 1 _ 5 1), (get_set_other _ 8 1 _ 5 1) by done.
    rewrite (get_set_field _ 5 1); [done|]. apply (get_field_range _ 1 1).
  - mstatus_field 8. unfold vS. rewrite (get_set_other _ 1 1 _ 8 1), (get_set_field _ 8 1) by (done || lia). done.
  - apply (same_but_write _ vS s0); [in_bits|]. unfold vS.
    apply (same_but_set _ _ 1 1), (same_but_set _ _ 8 1), (same_but_set _ _ 5 1), same_but_refl; in_bits.
Qed.
End Trap.

(** A return in a state with the extensions. *)
Lemma mret_state_fields `{ConfigOk} s :
  has_SU s -> get_field (mstatus s) MSTATUS_MPP <> PRV_H ->
  let s2 := mret_state s in
  prv s2 = get_field (mstatus s) MSTATUS_MPP /\ get_field (mstatus s2) MSTATUS_MIE = get_field (mstatus s) MSTATUS_MPIE
  /\ get_field (mstatus s2) MSTATUS_MPIE = 1 /\ get_field (mstatus s2) MSTATUS_MPP = PRV_U
  /\ same_but M_trap_bits (mstatus s2) (mstatus s).
Proof.
  intros Hsu Hm. cbv zeta. unfold mret_state. cbv zeta.
  set (v := set_field (set_field (set_field _ _ _) _ _) _ _). set (s0 := set_privilege _ _).
  assert (has_SU s0) as Hs0 by exact Hsu.
  assert (prv s0 = get_field (mstatus s) MSTATUS_MPP) as Hp.
  { change (prv s0) with (legalize_privilege (get_field (mstatus s) MSTATUS_MPP) s). rewrite legalize_SU by done.
    by destruct (Z.eqb_spec (get_field (mstatus s) MSTATUS_MPP) PRV_H). }
  pose proof (get_field_range MSTATUS_MPIE 7 1 (mstatus s)). split_and!.
  - rewrite <-Hp. done.
  - mstatus_field 3. unfold v. by rewrite (get_set_other _ 11 2 _ 3 1), (get_set_other _ 7 1 _ 3 1), (get_set_field _ 3 1).
  - mstatus_field 7. unfold v. by rewrite (get_set_other _ 11 2 _ 7 1), (get_set_field _ 7 1).
  - rewrite write_mstatus_MPP. unfold v. rewrite (get_set_field _ 11 2), legalize_SU by done. done.
  - apply (same_but_write _ v s0); [in_bits|]. unfold v.
    apply (same_but_set _ _ 11 2), (same_but_set _ _ 7 1), (same_but_set _ _ 3 1), same_but_refl; in_bits.
Qed.

Lemma sret_state_fields `{ConfigOk} s :
  has_SU s ->
  let s2 := sret_state s in
  prv s2 = get_field (mstatus s) MSTATUS_SPP /\ get_field (mstatus s2) MSTATUS_SIE = get_field (mstatus s) MSTATUS_SPIE
  /\ get_field (mstatus s2) MSTATUS_SPIE = 1 /\ get_field (mstatus s2) MSTATUS_SPP = PRV_U
  /\ same_but S_trap_bits (mstatus s2) (mstatus s).
Proof.
  intros Hsu. cbv zeta. unfold sret_state. cbv zeta.
  set (v := set_field (set_field (set_field _ _ _) _ _) _ _). set (s0 := set_privilege _ _).
  assert (has_SU s0) as Hs0 by exact Hsu.
  pose proof (get_field_range MSTATUS_SPIE 5 1 (mstatus s)). pose proof (get_field_range MSTATUS_SPP 8 1 (mstatus s)).
  assert (prv s0 = get_field (mstatus s) MSTATUS_SPP) as Hp.
  { change (prv s0) with (legalize_privilege (get_field (mstatus s) MSTATUS_SPP) s). rewrite legalize_SU by done.
    destruct (Z.eqb_spec (get_field (mstatus s) MSTATUS_SPP) PRV_H) as [E|]; [|done]. rewrite E in *. unfold PRV_H in *. lia. }
  split_and!.
  - rewrite <-Hp. done.
  - mstatus_field 1. unfold v. by rewrite (get_set_other _ 8 1 _ 1 1), (get_set_other _ 5 1 _ 1 1), (get_set_field _ 1 1).
  - mstatus_field 5. unfold v. by rewrite (get_set_other _ 8 1 _ 5 1), (get_set_field _ 5 1).
  - mstatus_field 8. unfold v. by rewrite (get_set_field _ 8 1).
  - apply (same_but_write _ v s0); [in_bits|]. unfold v.
    apply (same_but_set _ _ 8 1), (same_but_set _ _ 5 1), (same_but_set _ _ 1 1), same_but_refl; in_bits.
Qed.

(** What a return leaves: the program goes on at [epc] with its privilege, its
    interrupt enable, its registers and memory. *)
Definition resumed `{Config} (epc ie : Z) (f : Z -> bool) (s s2 : state_t) : Prop :=
  pc s2 = Z.land (u64 epc) (pc_alignment_mask s) /\ npc s2 = PC_SERIALIZE_AFTER /\ prv s2 = prv s
  /\ get_field (mstatus s2) ie = get_field (mstatus s) ie /\ same_but f (mstatus s2) (mstatus s)
  /\ XPR s2 = XPR s /\ FPR s2 = FPR s /\ mem s2 = mem s /\ satp s2 = satp s.

(** C8: a trap outside debug mode goes to supervisor mode when it is delegated
    and to machine mode otherwise, with the address, cause and value of the trap
    in the registers of that mode and its interrupts off; an [sret] or [mret]
    in the state the trap leaves resumes the program at [epc], with the
    privilege and the interrupt enable it had, and all of mstatus but the fields
    of that mode. *)
Theorem trap_return `{ConfigOk} t epc insn s :
  has_SU s -> legal_prv s -> dcsr_cause (dcsr s) = 0 ->
  (cause t =? CAUSE_BREAKPOINT) && ebreak_to_debug s = false ->
  let s1 := take_trap t epc s in
  if delegated t s then
    prv s1 = PRV_S /\ sepc s1 = epc /\ scause s1 = cause t /\ stval s1 = tval t /\ pc s1 = stvec s
    /\ get_field (mstatus s1) MSTATUS_SIE = 0
    /\ (get_field (mstatus s) MSTATUS_TSR = 0 ->
        exists s2, rv_sret insn s1 = Done tt s2 /\ resumed epc MSTATUS_SIE S_trap_bits s s2)
  else
    prv s1 = PRV_M /\ mepc s1 = epc /\ mcause s1 = cause t /\ mtval s1 = tval t
    /\ pc s1 = u64 (Z.land (mtvec s) (Z.lnot 1)
                    + (if negb (Z.land (mtvec s) 1 =? 0) && is_interrupt t then u64 (4 * cause_bit t) else 0))
    /\ get_field (mstatus s1) MSTATUS_MIE = 0
    /\ exists s2, rv_mret insn s1 = Done tt s2 /\ resumed epc MSTATUS_MIE M_trap_bits s s2.
Proof.
  intros Hsu Hp Hd Hb. unfold take_trap. rewrite Hd, Hb. cbn [negb Z.eqb]. cbv zeta.
  destruct (delegated t s) eqn:Hdel.
  - assert (prv s <= PRV_S) as Hle by (unfold delegated in Hdel; rewrite !andb_true_iff, Z.leb_le in Hdel; tauto).
    destruct (trap_to_S_fields t epc s Hsu Hp Hle) as (H1 & H2 & H3 & H4 & H5).
    split_and!; [done..|]. intros Ht. eexists. split.
    + apply sret_eq; [done|]. rewrite <-Ht. apply (get_field_ext _ 22 1). intros i Hi. apply H5; [lia| |].
      * apply fixed_low. lia.
      * assert (i = 22) as -> by lia. done.
    + destruct (sret_state_fields (trap_to_S t epc s) Hsu) as (K1 & K2 & K3 & K4 & K5).
      rewrite H4 in K1. rewrite H3 in K2. split_and!; try done. by eapply same_but_trans.
  - destruct (trap_to_M_fields t epc s Hsu Hp) as (H1 & H2 & H3 & H4 & H5).
    split_and!; [done..|]. eexists. split; [by apply mret_eq|].
    destruct (mret_state_fields (trap_to_M t epc s) Hsu) as (K1 & K2 & K3 & K4 & K5).
    + rewrite H4. intros E. pose proof (legal_not_H s Hsu Hp) as Hn. by rewrite E in Hn.
    + rewrite H4 in K1. rewrite H3 in K2. split_and!; try done. by eapply same_but_trans.
Qed.

(** ** Interrupts *)

Lemma ctz_loop_spec fuel v r :
  0 < v < 2 ^ Z.of_nat fuel -> exists k, ctz_loop fuel v r = r + k /\ 0 <= k < Z.of_nat fuel /\ Z.testbit v k = true.
Proof.
  revert v r. induction fuel as [|fuel IH]; intros v r Hv; [cbn in Hv; lia|]. cbn [ctz_loop].
  rewrite Nat2Z.inj_succ, Z.pow_succ_r in Hv by lia. rewrite land_1. destruct (Z.eqb_spec (v mod 2) 0) as [E|E].
  - rewrite Z.shiftr_div_pow2 by lia. destruct (IH (v / 2 ^ 1) (r + 1)) as (k & -> & Hk & Hb); [divlia|].
    exists (k + 1). split_and!; [lia..|]. rewrite <-Z.shiftr_div_pow2, Z.shiftr_spec in Hb by lia. done.
  - exists 0. split_and!; [lia..|]. rewrite Z.bit0_odd, Zodd_mod. rewrite Z.eqb_eq. divlia.
Qed.

Lemma ctz_spec v : 0 < v < 2 ^ 64 -> 0 <= ctz v < 64 /\ Z.testbit v (ctz v) = true.
Proof.
  intros Hv. unfold ctz. destruct (Z.eqb_spec v 0); [lia|].
  destruct (ctz_loop_spec 64 v 0 Hv) as (k & -> & Hk & Hb). done.
Qed.

(** Interrupt [i] may be taken in [s]. *)
Definition int_enabled (i : Z) (s : state_t) : bool :=
  if Z.testbit (mideleg s) i then (prv s <? PRV_S) || (prv s =? PRV_S) && field_bit (mstatus s) MSTATUS_SIE
  else (prv s <? PRV_M) || (prv s =? PRV_M) && field_bit (mstatus s) MSTATUS_MIE.

Lemma enabled_bit pending s i :
  0 <= i -> Z.testbit (enabled_interrupts pending s) i = true -> Z.testbit pending i = true /\ int_enabled i s = true.
Proof.
  intros Hi. unfold enabled_interrupts, int_enabled. cbv zeta.
  destruct ((prv s <? PRV_M) || _), ((prv s <? PRV_S) || _);
    destruct (_ =? 0); rewrite ?Z.land_spec, ?Z.lnot_spec, ?Z.bits_0 by done;
    by destruct (Z.testbit pending i), (Z.testbit (mideleg s) i).
Qed.

Lemma enabled_none pending s i :
  enabled_interrupts pending s = 0 -> 0 <= i -> Z.testbit pending i = true -> int_enabled i s = false.
Proof.
  intros He Hi Hp. unfold enabled_interrupts, int_enabled in *. cbv zeta in He.
  set (me := (prv s <? PRV_M) || _) in *. set (se := (prv s <? PRV_S) || _) in *. clearbody me se.
  assert (forall a, Z.land pending a = 0 -> Z.testbit a i = false) as Hl.
  { intros a Ha. assert (Z.testbit (Z.land pending a) i = false) as E by (rewrite Ha; apply Z.bits_0).
    by rewrite Z.land_spec, Hp in E. }
  destruct (Z.eqb_spec (if me then Z.land pending (Z.lnot (mideleg s)) else 0) 0) as [E|E]; [|done].
  destruct (Z.testbit (mideleg s) i) eqn:Hm; [destruct se|destruct me]; [|done| |done].
  - apply Hl in He. congruence.
  - apply Hl in E. by rewrite Z.lnot_spec, Hm in E.
Qed.

(** What can be pending, so that an order of priority exists for it. *)
Definition pending_ok `{Config} (pending : Z) : Prop :=
  0 <= pending < 2 ^ 64 /\ Z.land pending all_ints = pending.

Lemma land_below w e a : 0 <= w -> 0 <= e < 2 ^ w -> 0 <= Z.land e a < 2 ^ w.
Proof.
  intros Hw He. replace (Z.land e a) with (Z.land e a mod 2 ^ w); [apply Z.mod_pos_bound, Z.pow_pos_nonneg; lia|].
  apply Z.bits_inj'. intros i Hi. destruct (Z.lt_ge_cases i w).
  - by rewrite Z.mod_pow2_bits_low.
  - rewrite Z.mod_pow2_bits_high, Z.land_spec by lia. rewrite <-(Z.mod_small e (2 ^ w)) by done.
    by rewrite Z.mod_pow2_bits_high by lia.
Qed.

Lemma pick_interrupt_spec `{Config} e :
  0 < e < 2 ^ 64 -> Z.land e all_ints = e ->
  exists v, pick_interrupt e = Some v /\ 0 < v < 2 ^ 64 /\ forall i, Z.testbit v i = true -> Z.testbit e i = true.
Proof.
  intros He Hm. assert (forall a, Z.land e a <> 0 -> exists v, Some (Z.land e a) = Some v /\ 0 < v < 2 ^ 64 /\
      forall i, Z.testbit v i = true -> Z.testbit e i = true) as Hl.
  { intros a Ha. eexists. split; [done|]. pose proof (land_below 64 e a ltac:(lia) ltac:(lia)). split; [lia|].
    intros i. rewrite Z.land_spec, andb_true_iff. tauto. }
  unfold pick_interrupt. cbv zeta. destruct (Z.eqb_spec (Z.shiftr e IRQ_M_EXT) 0) as [E|E]; cbn [negb].
  2: { rewrite <-Z.ldiff_ones_r by done. rewrite Z.ldiff_land. apply Hl. intros Hz. apply E.
       rewrite <-Z.ldiff_land, Z.ldiff_ones_r in Hz by done. by apply Z.shiftl_eq_0_iff in Hz. }
  repeat match goal with |- context [Z.land e ?a =? 0] => destruct (Z.eqb_spec (Z.land e a) 0); cbn [negb]; [|by apply Hl] end.
  exfalso. assert (Z.land e (Z.ones 11) = e) as Hlow.
  { rewrite Z.land_ones by done. apply Z.mod_small. rewrite Z.shiftr_div_pow2 in E by done.
    change (2 ^ IRQ_M_EXT) with 2048 in E. change (2 ^ 11) with 2048. divlia. }
  assert (Z.land all_ints (Z.ones 11)
          = Z.lor (Z.lor (Z.land (Z.lor MIP_MEIP MIP_SEIP) (Z.ones 11)) (Z.lor MIP_MSIP MIP_SSIP)) (Z.lor MIP_MTIP MIP_STIP)) as Ha
    by (unfold all_ints, delegable_ints; by destruct has_ext).
  assert (Z.land e (Z.land all_ints (Z.ones 11)) = e) as Hall by by rewrite Z.land_assoc, Hm.
  rewrite Ha, (Z.land_lor_distr_r e (Z.lor _ _)), (Z.land_lor_distr_r e (Z.land _ _)), Z.land_assoc in Hall.
  repeat match goal with H : Z.land e _ = 0 |- _ => rewrite H in Hall; clear H end. rewrite Z.land_0_l, !Z.lor_0_r in Hall. lia.
Qed.

(** C9: [take_interrupt] does not reach its [abort] on the interrupts that mie
    can enable.  It returns only when no pending interrupt may be taken (or in
    debug mode), and otherwise throws the cause of a pending interrupt that is
    enabled for the privilege of the hart and the delegation. *)
Theorem take_interrupt_enabled `{ConfigOk} pending s :
  pending_ok pending ->
  match take_interrupt pending s with
  | Done _ s' => s' = s /\ (dcsr_cause (dcsr s) <> 0
                           \/ forall i, 0 <= i -> Z.testbit pending i = true -> int_enabled i s = false)
  | Throw t s' => s' = s /\ dcsr_cause (dcsr s) = 0 /\ exists i,
      0 <= i < 64 /\ cause t = Z.lor (Z.shiftl 1 (xlen - 1)) i /\ Z.testbit pending i = true /\ int_enabled i s = true
  | _ => False
  end.
Proof.
  intros [Hr Hm]. unfold take_interrupt. cbv zeta. destruct (Z.eqb_spec (dcsr_cause (dcsr s)) 0) as [Hc|Hc]; cbn [andb].
  2: { split; [done|by left]. }
  destruct (Z.eqb_spec (enabled_interrupts pending s) 0) as [E|E]; cbn [negb].
  { split; [done|]. right. intros i Hi Hp. by eapply enabled_none. }
  set (e := enabled_interrupts pending s) in *.
  assert (exists a, e = Z.land pending a) as [a Ea].
  { unfold e, enabled_interrupts. cbv zeta. repeat case_match; eauto; exists 0; by rewrite Z.land_0_r. }
  pose proof (land_below 64 pending a ltac:(lia) Hr).
  destruct (pick_interrupt_spec e) as (v & -> & Hv & Hb); [lia| |].
  { by rewrite Ea, <-Z.land_assoc, (Z.land_comm a), Z.land_assoc, Hm. }
  split; [done|]. split; [done|]. exists (ctz v). destruct (ctz_spec v Hv) as [Hc' Ht]. apply Hb in Ht.
  apply enabled_bit in Ht as [Ht1 Ht2]; [|lia]. done.
Qed.

(** ** The floating point unit stays off *)

(** No write of a control register changes the field FS of mstatus: the mask
    of writable bits does not have it, and marking the unit dirty intersects.
    Reset leaves it at 0, where every floating point instruction is illegal. *)
Lemma set_csr_keeps_FS `{Config} which v s :
  Z.land (mstatus (set_csr which v s)) MSTATUS_FS = Z.land (mstatus s) MSTATUS_FS.
Proof.
  assert (forall u, Z.land (mstatus (set_mstatus u s)) MSTATUS_FS = Z.land (mstatus s) MSTATUS_FS) as Hm.
  { intros u. apply Z.bits_inj'. intros i Hi. rewrite !Z.land_spec, (mask_bit MSTATUS_FS 13 2) by done.
    destruct (within 13 2 i) eqn:Hw; [|by rewrite !andb_false_r]. rewrite set_mstatus_bit by done.
    unfold within in Hw. rewrite andb_true_iff, Z.leb_le, Z.ltb_lt in Hw. unfold mstatus_bit, mstatus_mask, sd_bit.
    assert (i = 13 \/ i = 14) as [-> | ->] by lia; by destruct (xlen =? 32), has_ext, (supports_extension _ _). }
  assert (Z.land (mstatus (dirty s)) MSTATUS_FS = Z.land (mstatus s) MSTATUS_FS) as Hd.
  { change (mstatus (dirty s)) with (Z.land (mstatus s) dirty_fp_mask). rewrite <-Z.land_assoc. f_equal.
    unfold dirty_fp_mask. by destruct (xlen =? 64). }
  unfold set_csr, set_satp, set_misa, set_tdata1, set_tdata2. cbv zeta.
  repeat match goal with
  | |- Z.land (mstatus (if ?b then _ else _)) _ = _ => destruct b
  end; solve [exact Hd|apply Hm|reflexivity].
Qed.

(** A page fault of a user program that supervisor mode handles, and a timer
    interrupt of machine mode. *)
Definition user_state : state_t :=
  { @processor_reset rv64_config false blank with prv := PRV_U; pc := 0x80001000; medeleg := Z.shiftl 1 CAUSE_LOAD_PAGE_FAULT;
    mie := MIP_MTIP }.
Definition faulted_state : state_t := @take_trap rv64_config (trap_load_page_fault 16) 0x80001000 user_state.
Lemma trap_return_witness :
  prv faulted_state = PRV_S /\ sepc faulted_state = 0x80001000 /\ scause faulted_state = CAUSE_LOAD_PAGE_FAULT /\ stval faulted_state = 16 /\ pc faulted_state = 0
  /\ get_field (mstatus faulted_state) MSTATUS_SIE = 0
  /\ (get_field (mstatus user_state) MSTATUS_TSR = 0 ->
      exists s2, @rv_sret rv64_config 0 faulted_state = Done tt s2
                 /\ @resumed rv64_config 0x80001000 MSTATUS_SIE S_trap_bits user_state s2).
Proof.
  apply (@trap_return rv64_config rv64_ok (trap_load_page_fault 16) 0x80001000 0 user_state);
    [split|split; [split|]|..]; vm_compute; congruence.
Defined.

Lemma take_interrupt_enabled_witness :
  match @take_interrupt rv64_config MIP_MTIP user_state with
  | Done _ s' => s' = user_state /\ (dcsr_cause (dcsr user_state) <> 0
                   \/ forall i, 0 <= i -> Z.testbit MIP_MTIP i = true -> int_enabled i user_state = false)
  | Throw t s' => s' = user_state /\ dcsr_cause (dcsr user_state) = 0 /\ exists i,
      0 <= i < 64 /\ cause t = Z.lor (Z.shiftl 1 63) i /\ Z.testbit MIP_MTIP i = true
      /\ int_enabled i user_state = true
  | _ => False
  end.
Proof.
  apply (@take_interrupt_enabled rv64_config rv64_ok MIP_MTIP user_state).
  split; [split|]; vm_compute; congruence.
Defined.
