(* ===== verification/SpikeMmu.v ===== *)
(** * Spike: address translation and memory

    mmu.cc, mmu.h and [trigger_match] of processor.h: physical memory protection,
    page tables, the translation cache, loads, stores, atomic operations and load
    reservations, and instruction fetch.  No memory tracer is registered, and
    the instruction cache, which the slow path of step does not use, is left out. *)

From Stdlib Require Import ZArith Lia.
From stdpp Require Import base tactics list numbers.
From coqutil Require Import Datatypes.RecordSetters.
Import OCamlLikeNotations.
From S2P Require Import Prelude SoftFloat Spike SpikeCsr.

(** ** encoding.h and mmu.h: constants *)

Definition PMP_R : Z := 0x01.
Definition PMP_W : Z := 0x02.
Definition PMP_X : Z := 0x04.
Definition PMP_A : Z := 0x18.
Definition PMP_L : Z := 0x80.
Definition PMP_SHIFT : Z := 2.
Definition PMP_TOR : Z := 0x08.
Definition PMP_NA4 : Z := 0x10.

Definition PTE_V : Z := 0x001.
Definition PTE_R : Z := 0x002.
Definition PTE_W : Z := 0x004.
Definition PTE_X : Z := 0x008.
Definition PTE_U : Z := 0x010.
Definition PTE_A : Z := 0x040.
Definition PTE_D : Z := 0x080.
Definition PTE_PPN_SHIFT : Z := 10.
Definition PTE_TABLE (pte : Z) : bool :=
  Z.land pte (Z.lor PTE_V (Z.lor PTE_R (Z.lor PTE_W PTE_X))) =? PTE_V.

Definition PGSHIFT : Z := 12.
Definition PGSIZE : Z := 4096.
Definition TLB_ENTRIES : Z := 256.
Definition TLB_CHECK_TRIGGERS : Z := Z.shiftl 1 63.

Inductive access_type := FETCH | LOAD | STORE.
#[export] Instance access_type_eq_dec : EqDecision access_type.
Proof. solve_decision. Defined.
#[export] Instance trigger_operation_eq_dec : EqDecision trigger_operation_t.
Proof. solve_decision. Defined.

(** Some bit of a mask is set. *)
Definition bit_of (v mask : Z) : bool := negb (Z.land v mask =? 0).

(** ** Physical memory protection *)

Section Pmp.
Variables (addr : Z) (t : access_type) (mode : Z).

Definition pmp_is_tor (cfg : Z) : bool := Z.land cfg PMP_A =? PMP_TOR.
Definition pmp_is_na4 (cfg : Z) : bool := Z.land cfg PMP_A =? PMP_NA4.
Definition pmp_tor (a : Z) : Z := u64 (Z.shiftl a PMP_SHIFT).
Definition pmp_mask (cfg a : Z) : Z :=
  let m := Z.lor (u64 (Z.shiftl a 1)) (Z.b2z (negb (pmp_is_na4 cfg))) in
  u64 (Z.shiftl (u64 (Z.lnot (Z.land m (Z.lnot (u64 (m + 1)))))) PMP_SHIFT).

Definition pmp_match (base cfg a : Z) : bool :=
  if pmp_is_tor cfg then (base <=? addr) && (addr <? pmp_tor a)
  else Z.land (Z.lxor addr (pmp_tor a)) (pmp_mask cfg a) =? 0.

Definition pmp_allows (cfg : Z) : bool :=
  (mode =? PRV_M) && negb (bit_of cfg PMP_L)
  || bool_decide (t = LOAD) && bit_of cfg PMP_R
  || bool_decide (t = STORE) && bit_of cfg PMP_W
  || bool_decide (t = FETCH) && bit_of cfg PMP_X.

Fixpoint pmp_ok_loop (base : Z) (es : list (Z * Z)) : bool :=
  match es with
  | [] => mode =? PRV_M
  | (cfg, a) :: es =>
      if bit_of cfg PMP_A && pmp_match base cfg a then pmp_allows cfg
      else pmp_ok_loop (pmp_tor a) es
  end.

Variable len : Z.

(** [x & -len], and an entry that has one answer for the whole block. *)
Definition block (x : Z) : Z := Z.land x (u64 (- len)).
Definition pmp_entry_homogeneous (base cfg a : Z) : bool :=
  if pmp_is_tor cfg then
    (block addr <? block base) || (pmp_tor a <=? addr)
    || (base <=? addr) && (block addr <? block (pmp_tor a))
  else
    bit_of (u64 (Z.lnot (u64 (Z.shiftl (pmp_mask cfg a) 1)))) len
    || negb (Z.lxor addr (pmp_tor a) / len =? 0).

Fixpoint pmp_homogeneous_loop (base : Z) (es : list (Z * Z)) : bool :=
  match es with
  | [] => true
  | (cfg, a) :: es =>
      if bit_of cfg PMP_A && negb (pmp_entry_homogeneous base cfg a) then false
      else pmp_homogeneous_loop (pmp_tor a) es
  end.
End Pmp.

Definition pmp_entries (s : state_t) : list (Z * Z) := zip (pmpcfg s) (pmpaddr s).
Definition mmu_pmp_ok (addr : Z) (t : access_type) (mode : Z) (s : state_t) : bool :=
  pmp_ok_loop addr t mode 0 (pmp_entries s).
Definition pmp_homogeneous (addr len : Z) : Exec bool := fun s =>
  if bit_of (Z.lor addr len) (len - 1) then Abort s
  else Done (pmp_homogeneous_loop addr len 0 (pmp_entries s)) s.

(** ** Bytes of memory *)

Definition addr_seq (a : Z) (n : nat) : list Z := map (fun i => u64 (a + Z.of_nat i)) (seq 0 n).
Definition read_bytes (m : Z -> Z) (a : Z) (n : nat) : list Z := map m (addr_seq a n).
Fixpoint write_bytes (m : Z -> Z) (a : Z) (bs : list Z) : Z -> Z :=
  match bs with
  | [] => m
  | b :: bs => write_bytes (fun i => if i =? a then b else m i) (u64 (a + 1)) bs
  end.

(** ** Triggers *)

Fixpoint cto_loop (fuel : nat) (v res : Z) : Z :=
  match fuel with
  | O => res
  | S fuel => if Z.land v 1 =? 1 then cto_loop fuel (Z.shiftr v 1) (res + 1) else res
  end.
Definition cto (v : Z) : Z := cto_loop 65 v 0.

Section Mmu.
Context `{Config}.

Definition mcontrol_applies (op : trigger_operation_t) (mc : mcontrol_t) (s : state_t) : bool :=
  negb (bool_decide (op = OPERATION_EXECUTE) && negb (mc_execute mc)
        || bool_decide (op = OPERATION_STORE) && negb (mc_store mc)
        || bool_decide (op = OPERATION_LOAD) && negb (mc_load mc)
        || (prv s =? PRV_M) && negb (mc_m mc)
        || (prv s =? PRV_S) && negb (mc_s mc)
        || (prv s =? PRV_U) && negb (mc_u mc)).

Definition mcontrol_matches (mc : mcontrol_t) (tdata value : Z) : bool :=
  let half := xlen / 2 in
  let mask := Z.shiftr tdata half in
  match mc_match mc with
  | 0 => value =? tdata
  | 1 => let mask := u64 (Z.lnot (Z.shiftl 1 (cto tdata) - 1)) in Z.land value mask =? Z.land tdata mask
  | 2 => tdata <=? value
  | 3 => value <? tdata
  | 4 => Z.land value mask =? Z.land tdata mask
  | 5 => Z.land (Z.shiftr value half) mask =? Z.land tdata mask
  | _ => true
  end.

Fixpoint trigger_match_loop (op : trigger_operation_t) (address data : Z) (s : state_t)
    (i : Z) (chain_ok : bool) (ts : list (mcontrol_t * Z)) : option Z :=
  match ts with
  | [] => None
  | (mc, tdata) :: ts =>
      let continue chain_ok := trigger_match_loop op address data s (i + 1) chain_ok ts in
      if negb chain_ok then continue (chain_ok || negb (mc_chain mc))
      else if negb (mcontrol_applies op mc s) then continue chain_ok
      else
        let value := if mc_select mc then data else address in
        let value := if xlen =? 32 then Z.land value 0xffffffff else value in
        if negb (mcontrol_matches mc tdata value) then continue chain_ok
        else if negb (mc_chain mc) then Some i
        else continue true
  end.

Definition trigger_match (op : trigger_operation_t) (address data : Z) (s : state_t) : option Z :=
  if negb (dcsr_cause (dcsr s) =? 0) then None
  else trigger_match_loop op address data s 0 true (zip (mcontrol s) (tdata2 s)).

(** [trigger_exception] and the throw that follows it where it is called. *)
Definition check_trigger (op : trigger_operation_t) (address data : Z) : Exec unit := fun s =>
  match matched_trigger (mmu s) with
  | Some _ => Done tt s
  | None =>
      match trigger_match op address data s with
      | None => Done tt s
      | Some i =>
          let t := Trigger_matched i op address data in
          if negb (mc_timing (mcontrol s !!! Z.to_nat i)) then Trigger t s
          else Trigger t { s with mmu -> matched_trigger := Some t }
      end
  end.

(** ** Page tables *)

Record vm_info := Vm_info { levels : nat; idxbits : Z; ptesize : Z; ptbase : Z }.

Definition decode_vm_info (mode satp : Z) : option vm_info :=
  let off := Vm_info 0 0 0 0 in
  if mode =? PRV_M then Some off
  else if (mode <=? PRV_S) && (xlen =? 32) then
    match get_field satp SATP32_MODE with
    | 0 => Some off
    | 1 => Some (Vm_info 2 10 4 (Z.shiftl (Z.land satp SATP32_PPN) PGSHIFT))
    | _ => None
    end
  else if (mode <=? PRV_S) && (xlen =? 64) then
    let base := Z.shiftl (Z.land satp SATP64_PPN) PGSHIFT in
    match get_field satp SATP64_MODE with
    | 0 => Some off
    | 8 => Some (Vm_info 3 9 8 base)
    | 9 => Some (Vm_info 4 9 8 base)
    | 10 => Some (Vm_info 5 9 8 base)
    | 11 => Some (Vm_info 6 9 8 base)
    | _ => None
    end
  else None.

Definition throw_access_exception {A} (addr : Z) (t : access_type) : Exec A :=
  match t with
  | FETCH => throw (trap_instruction_access_fault addr)
  | LOAD => throw (trap_load_access_fault addr)
  | STORE => throw (trap_store_access_fault addr)
  end.
Definition throw_page_fault {A} (addr : Z) (t : access_type) : Exec A :=
  match t with
  | FETCH => throw (trap_instruction_page_fault addr)
  | LOAD => throw (trap_load_page_fault addr)
  | STORE => throw (trap_store_page_fault addr)
  end.

(** The tests of a leaf that break out of the loop. *)
Definition pte_faults (t : access_type) (s_mode sum mxr : bool) (ptshift pte : Z) : bool :=
  let ppn := Z.shiftr pte PTE_PPN_SHIFT in
  (if bit_of pte PTE_U then s_mode && (bool_decide (t = FETCH) || negb sum) else negb s_mode)
  || (negb (bit_of pte PTE_V) || negb (bit_of pte PTE_R) && bit_of pte PTE_W)
  || match t with
     | FETCH => negb (bit_of pte PTE_X)
     | LOAD => negb (bit_of pte PTE_R) && negb (mxr && bit_of pte PTE_X)
     | STORE => negb (bit_of pte PTE_R && bit_of pte PTE_W)
     end
  || negb (Z.land ppn (Z.shiftl 1 ptshift - 1) =? 0).

Section Walk.
Variables (addr : Z) (t : access_type) (s_mode sum mxr : bool) (bits size : Z).

(** Level [i - 1] of the table at [base]. *)
Fixpoint walk_loop (i : nat) (base : Z) : Exec Z := fun s =>
  match i with
  | O => throw_page_fault addr t s
  | S i =>
      let ptshift := Z.of_nat i * bits in
      let idx := Z.land (Z.shiftr addr (PGSHIFT + ptshift)) (Z.shiftl 1 bits - 1) in
      let pte_paddr := u64 (base + idx * size) in
      if negb (addr_to_mem pte_paddr) || negb (mmu_pmp_ok pte_paddr LOAD PRV_S s) then
        throw_access_exception addr t s
      else
        let pte := le_combine (read_bytes (mem s) pte_paddr (Z.to_nat size)) in
        let ppn := Z.shiftr pte PTE_PPN_SHIFT in
        if PTE_TABLE pte then walk_loop i (u64 (Z.shiftl ppn PGSHIFT)) s
        else if pte_faults t s_mode sum mxr ptshift pte then throw_page_fault addr t s
        else
          let ad := Z.lor PTE_A (if decide (t = STORE) then PTE_D else 0) in
          let vpn := Z.shiftr addr PGSHIFT in
          let value := u64 (Z.shiftl (Z.lor ppn (Z.land vpn (Z.shiftl 1 ptshift - 1))) PGSHIFT) in
          if Z.land pte ad =? ad then Done value s
          else if enable_dirty then
            if negb (mmu_pmp_ok pte_paddr STORE PRV_S s) then throw_access_exception addr t s
            else Done value { s with mem ::= fun m => write_bytes m pte_paddr (le_split 4 (Z.lor (u32 pte) ad)) }
          else throw_page_fault addr t s
  end.
End Walk.

Definition walk (addr : Z) (t : access_type) (mode : Z) : Exec Z := fun s =>
  match decode_vm_info mode (satp s) with
  | None => Abort s
  | Some vm =>
      if Nat.eqb (levels vm) 0 then Done (Z.land addr (u64 (Z.shiftl 2 (xlen - 1)) - 1)) s
      else
        let s_mode := mode =? PRV_S in
        let sum := field_bit (mstatus s) MSTATUS_SUM in
        let mxr := field_bit (mstatus s) MSTATUS_MXR in
        let va_bits := PGSHIFT + Z.of_nat (levels vm) * idxbits vm in
        let mask := u64 (u64 (Z.shiftl 1 (xlen - (va_bits - 1))) - 1) in
        let masked_msbs := Z.land (Z.shiftr addr (va_bits - 1)) mask in
        let n := if negb (masked_msbs =? 0) && negb (masked_msbs =? mask) then O else levels vm in
        walk_loop addr t s_mode sum mxr (idxbits vm) (ptesize vm) n (ptbase vm) s
  end.

(** The privilege an access has, and its translation. *)
Definition access_mode (t : access_type) (s : state_t) : Z :=
  if negb (bool_decide (t = FETCH)) && (dcsr_cause (dcsr s) =? 0) && field_bit (mstatus s) MSTATUS_MPRV
  then get_field (mstatus s) MSTATUS_MPP else prv s.

Definition translate (addr len : Z) (t : access_type) : Exec Z :=
  mode ← gets (access_mode t);
  page ← walk addr t mode;
  let paddr := Z.lor page (Z.land addr (PGSIZE - 1)) in
  ok ← gets (mmu_pmp_ok paddr t mode);
  if negb ok then throw_access_exception addr t
  else
    hom ← pmp_homogeneous paddr len;
    if negb hom then throw_access_exception addr t else mret paddr.

(** ** The translation cache *)

Definition tlb_index (vaddr : Z) : Z := Z.shiftr vaddr PGSHIFT mod TLB_ENTRIES.
Definition upd (f : Z -> Z) (i v : Z) : Z -> Z := fun j => if j =? i then v else f j.

(** The tags of the entry that do not belong to the page become -1. *)
Definition drop_other (tag : Z -> Z) (idx expected : Z) : Z -> Z :=
  if negb (Z.land (tag idx) (u64 (Z.lnot TLB_CHECK_TRIGGERS)) =? expected) then upd tag idx (2 ^ 64 - 1) else tag.

Definition checked_tag (t : access_type) (expected : Z) (m : mmu_t) : Z :=
  if check_triggers_fetch m && bool_decide (t = FETCH)
     || check_triggers_load m && bool_decide (t = LOAD)
     || check_triggers_store m && bool_decide (t = STORE)
  then Z.lor expected TLB_CHECK_TRIGGERS else expected.

Definition set_tag (t : access_type) (idx v : Z) (m : mmu_t) : mmu_t :=
  match t with
  | FETCH => { m with tlb_insn_tag ::= fun f => upd f idx v }
  | STORE => { m with tlb_store_tag ::= fun f => upd f idx v }
  | LOAD => { m with tlb_load_tag ::= fun f => upd f idx v }
  end.

(** The result is the offset from virtual to physical addresses. *)
Definition refill_tlb (vaddr paddr : Z) (t : access_type) : Exec Z :=
  let idx := tlb_index vaddr in
  let expected := Z.shiftr vaddr PGSHIFT in
  puts (fun s => { s with mmu ::= fun m =>
    { m with tlb_load_tag := drop_other (tlb_load_tag m) idx expected;
             tlb_store_tag := drop_other (tlb_store_tag m) idx expected;
             tlb_insn_tag := drop_other (tlb_insn_tag m) idx expected } });;
  tag ← gets (fun s => checked_tag t expected (mmu s));
  hom ← pmp_homogeneous (Z.land paddr (u64 (Z.lnot (PGSIZE - 1)))) PGSIZE;
  when hom (puts (fun s => { s with mmu ::= set_tag t idx tag }));;
  let offset := u64 (paddr - vaddr) in
  puts (fun s => { s with mmu ::= fun m => { m with tlb_data := upd (tlb_data m) idx offset } });;
  mret offset.

(** ** Loads *)

Definition signed (n : nat) (v : Z) : Z :=
  (v + 2 ^ (8 * Z.of_nat n - 1)) mod 2 ^ (8 * Z.of_nat n) - 2 ^ (8 * Z.of_nat n - 1).
Definition load_value (sg : bool) (n : nat) (v : Z) : Z := if sg then signed n v else v.

Definition load_slow_path (addr : Z) (n : nat) : Exec Z :=
  paddr ← translate addr (Z.of_nat n) LOAD;
  bytes ← (if addr_to_mem paddr then
             bs ← gets (fun s => read_bytes (mem s) paddr n); _ ← refill_tlb addr paddr LOAD; mret bs
           else
             r ← gets (fun s => mmio_load (io s) paddr (Z.of_nat n));
             puts (fun s => { s with io ::= cons (Mmio_load paddr (Z.of_nat n)) });;
             match r with Some bs => mret bs | None => throw (trap_load_access_fault addr) end);
  check_trigger OPERATION_LOAD addr (le_combine bytes);;
  mret (le_combine bytes).

(** [load_uint8] to [load_int64] at an aligned address. *)
Definition load_aligned (sg : bool) (n : nat) (addr : Z) : Exec Z :=
  let vpn := Z.shiftr addr PGSHIFT in
  let idx := vpn mod TLB_ENTRIES in
  tag ← gets (fun s => tlb_load_tag (mmu s) idx);
  fast ← gets (fun s => le_combine (read_bytes (mem s) (u64 (tlb_data (mmu s) idx + addr)) n));
  if tag =? vpn then mret (load_value sg n fast)
  else if tag =? Z.lor vpn TLB_CHECK_TRIGGERS then
    check_trigger OPERATION_LOAD addr (u64 (load_value sg n fast));;
    mret (load_value sg n fast)
  else v ← load_slow_path addr n; mret (load_value sg n v).

Fixpoint load_misaligned (addr : Z) (n : nat) (i res : Z) : Exec Z :=
  match n with
  | O => mret res
  | S n =>
      b ← load_aligned false 1 (u64 (addr + i));
      load_misaligned addr n (i + 1) (u64 (res + Z.shiftl b (i * 8)))
  end.
Definition misaligned_load (addr : Z) (n : nat) : Exec Z :=
  if enable_misaligned then load_misaligned addr n 0 0 else throw (trap_load_address_misaligned addr).

Definition mmu_load (sg : bool) (n : nat) (addr : Z) : Exec Z :=
  if bit_of addr (Z.of_nat n - 1) then v ← misaligned_load addr n; mret (load_value sg n v)
  else load_aligned sg n addr.

(** ** Stores *)

Definition store_slow_path (addr : Z) (bytes : list Z) : Exec unit :=
  paddr ← translate addr (Z.of_nat (length bytes)) STORE;
  check_trigger OPERATION_STORE addr (le_combine bytes);;
  if addr_to_mem paddr then
    puts (fun s => { s with mem ::= fun m => write_bytes m paddr bytes });;
    _ ← refill_tlb addr paddr STORE; mret tt
  else
    ok ← gets (fun s => mmio_store (io s) paddr bytes);
    puts (fun s => { s with io ::= cons (Mmio_store paddr bytes) });;
    if ok : bool then mret tt else throw (trap_store_access_fault addr).

Definition store_aligned (n : nat) (addr v : Z) : Exec unit :=
  let bytes := le_split n v in
  let vpn := Z.shiftr addr PGSHIFT in
  let idx := vpn mod TLB_ENTRIES in
  let fast := puts (fun s => { s with mem ::= fun m => write_bytes m (u64 (tlb_data (mmu s) idx + addr)) bytes }) in
  tag ← gets (fun s => tlb_store_tag (mmu s) idx);
  if tag =? vpn then fast
  else if tag =? Z.lor vpn TLB_CHECK_TRIGGERS then
    check_trigger OPERATION_STORE addr (le_combine bytes);; fast
  else store_slow_path addr bytes.

Fixpoint store_misaligned (addr v : Z) (n : nat) (i : Z) : Exec unit :=
  match n with
  | O => mret tt
  | S n => store_aligned 1 (u64 (addr + i)) (Z.shiftr v (i * 8));; store_misaligned addr v n (i + 1)
  end.
Definition misaligned_store (addr v : Z) (n : nat) : Exec unit :=
  if enable_misaligned then store_misaligned addr v n 0 else throw (trap_store_address_misaligned addr).

Definition mmu_store (n : nat) (addr v : Z) : Exec unit :=
  if bit_of addr (Z.of_nat n - 1) then misaligned_store addr (v mod 256 ^ Z.of_nat n) n
  else store_aligned n addr v.

(** ** Atomic operations and reservations *)

(** Faults of the load are reported as faults of a store. *)
Definition as_store_fault {A} (m : Exec A) : Exec A := fun s =>
  match m s with
  | Throw t s =>
      Throw (if cause t =? CAUSE_LOAD_PAGE_FAULT then trap_store_page_fault (tval t)
             else if cause t =? CAUSE_LOAD_ACCESS then trap_store_access_fault (tval t) else t) s
  | r => r
  end.

Definition amo (n : nat) (addr : Z) (f : Z -> Z) : Exec Z :=
  if bit_of addr (Z.of_nat n - 1) then throw (trap_store_address_misaligned addr)
  else as_store_fault (lhs ← mmu_load false n addr; mmu_store n addr (f lhs);; mret lhs).

Definition yield_load_reservation : Exec unit := puts (fun s => { s with mmu -> load_reservation_address := 2 ^ 64 - 1 }).

Definition acquire_load_reservation (vaddr : Z) : Exec unit :=
  paddr ← translate vaddr 1 LOAD;
  if addr_to_mem paddr then
    offset ← refill_tlb vaddr paddr LOAD;
    puts (fun s => { s with mmu -> load_reservation_address := u64 (offset + vaddr) })
  else throw (trap_load_access_fault vaddr).

Definition check_load_reservation (vaddr : Z) : Exec bool :=
  paddr ← translate vaddr 1 STORE;
  if addr_to_mem paddr then
    r ← gets (fun s => load_reservation_address (mmu s));
    offset ← refill_tlb vaddr paddr STORE;
    mret (r =? u64 (offset + vaddr))
  else throw (trap_store_access_fault vaddr).

(** ** Instruction fetch *)

Definition throw_trigger {A} (t : trigger_matched_t) : Exec A := fun s => Trigger t s.

(** The offset of the entry for an address, and the half word its host pointer
    gives: in memory, or what a device returned. *)
Definition fetch_slow_path (vaddr : Z) : Exec (Z * Z) :=
  paddr ← translate vaddr 2 FETCH;
  if addr_to_mem paddr then
    offset ← refill_tlb vaddr paddr FETCH;
    h ← gets (fun s => le_combine (read_bytes (mem s) (u64 (offset + vaddr)) 2));
    mret (offset, h)
  else
    r ← gets (fun s => mmio_load (io s) paddr 2);
    puts (fun s => { s with io ::= cons (Mmio_load paddr 2) });;
    match r with
    | Some bs => mret (u64 (paddr - vaddr), le_combine bs)
    | None => throw (trap_instruction_access_fault vaddr)
    end.

Definition translate_insn_addr (addr : Z) : Exec (Z * Z) :=
  let vpn := Z.shiftr addr PGSHIFT in
  let idx := vpn mod TLB_ENTRIES in
  let cached := gets (fun s => (tlb_data (mmu s) idx,
                                le_combine (read_bytes (mem s) (u64 (tlb_data (mmu s) idx + addr)) 2))) in
  let checked := Z.lor vpn TLB_CHECK_TRIGGERS in
  tag ← gets (fun s => tlb_insn_tag (mmu s) idx);
  if tag =? vpn then cached
  else
    result ← (if negb (tag =? checked) then fetch_slow_path addr else cached);
    tag ← gets (fun s => tlb_insn_tag (mmu s) idx);
    if tag =? checked then
      r ← cached;
      m ← gets (trigger_match OPERATION_EXECUTE addr r.2);
      match m with
      | Some i => throw_trigger (Trigger_matched i OPERATION_EXECUTE addr r.2)
      | None => mret result
      end
    else mret result.

Definition fetch_half (addr : Z) : Exec Z := r ← translate_insn_addr addr; mret r.2.

(** [refill_icache]: the bits of the instruction at an address. *)
Definition fetch_insn (addr : Z) : Exec Z :=
  h ← fetch_half addr;
  let length := insn_length h in
  if length =? 4 then
    h2 ← fetch_half (u64 (addr + 2));
    mret (Z.lor h (u64 (Z.shiftl (signed 2 h2) 16)))
  else if length =? 2 then mret (u64 (signed 2 h))
  else if length =? 6 then
    h4 ← fetch_half (u64 (addr + 4));
    h2 ← fetch_half (u64 (addr + 2));
    mret (Z.lor (Z.lor h (u64 (Z.shiftl (signed 2 h4) 32))) (Z.shiftl h2 16))
  else
    h6 ← fetch_half (u64 (addr + 6));
    h4 ← fetch_half (u64 (addr + 4));
    h2 ← fetch_half (u64 (addr + 2));
    mret (Z.lor (Z.lor (Z.lor h (u64 (Z.shiftl (signed 2 h6) 48))) (Z.shiftl h4 32)) (Z.shiftl h2 16)).
End Mmu.
