(* ===== verification/SpikeMem.v ===== *)
(** * Spike: loads, stores and atomic instructions

    The instructions of the I, A, F, D and Q extensions that access memory
    (riscv/insns/NAME.h is [rv_NAME]). *)

From Stdlib Require Import ZArith Lia.
From stdpp Require Import base tactics list numbers.
From coqutil Require Import Datatypes.RecordSetters.
Import OCamlLikeNotations.
From S2P Require Import Prelude SoftFloat Spike SpikeAlu SpikeCsr SpikeMmu.

Section Insns.
Context `{Config}.
Variable insn : Z.

(** [MMU.load_T(RS1 + insn.i_imm())] and [MMU.store_T(RS1 + insn.s_imm(), v)]. *)
Definition load_i (sg : bool) (n : nat) : Exec Z := a ← RS1 insn; mmu_load sg n (u64 (a + i_imm insn)).
Definition store_s (n : nat) (v : Z) : Exec unit := a ← RS1 insn; mmu_store n (u64 (a + s_imm insn)) v.

Definition rv_lb : Exec unit := v ← load_i true 1; WRITE_RD insn v.
Definition rv_lbu : Exec unit := v ← load_i false 1; WRITE_RD insn v.
Definition rv_lh : Exec unit := v ← load_i true 2; WRITE_RD insn v.
Definition rv_lhu : Exec unit := v ← load_i false 2; WRITE_RD insn v.
Definition rv_lw : Exec unit := v ← load_i true 4; WRITE_RD insn v.
Definition rv_lwu : Exec unit := require_rv64;; v ← load_i false 4; WRITE_RD insn v.
Definition rv_ld : Exec unit := require_rv64;; v ← load_i true 8; WRITE_RD insn v.
Definition rv_sb : Exec unit := v ← RS2 insn; store_s 1 v.
Definition rv_sh : Exec unit := v ← RS2 insn; store_s 2 v.
Definition rv_sw : Exec unit := v ← RS2 insn; store_s 4 v.
Definition rv_sd : Exec unit := require_rv64;; v ← RS2 insn; store_s 8 v.

Definition rv_flw : Exec unit :=
  require_extension ext_F;; require_fp;; v ← load_i false 4; WRITE_FRD insn (freg32 v).
Definition rv_fld : Exec unit :=
  require_extension ext_D;; require_fp;; v ← load_i false 8; WRITE_FRD insn (freg64 v).
Definition rv_fsw : Exec unit := require_extension ext_F;; require_fp;; v ← FRS2 insn; store_s 4 v.1.
Definition rv_fsd : Exec unit := require_extension ext_D;; require_fp;; v ← FRS2 insn; store_s 8 v.1.

(** mmu.h: 128-bit accesses are two of 64 bits. *)
Definition load_float128 (addr : Z) : Exec (Z * Z) :=
  if negb enable_misaligned && bit_of addr 15 then throw (trap_load_address_misaligned addr)
  else lo ← mmu_load false 8 addr; hi ← mmu_load false 8 (u64 (addr + 8)); mret (lo, hi).
Definition store_float128 (addr : Z) (v : Z * Z) : Exec unit :=
  if negb enable_misaligned && bit_of addr 15 then throw (trap_store_address_misaligned addr)
  else mmu_store 8 addr v.1;; mmu_store 8 (u64 (addr + 8)) v.2.
Definition rv_flq : Exec unit :=
  require_extension ext_Q;; require_fp;;
  a ← RS1 insn; v ← load_float128 (u64 (a + i_imm insn)); WRITE_FRD insn v.
Definition rv_fsq : Exec unit :=
  require_extension ext_Q;; require_fp;;
  a ← RS1 insn; v ← FRS2 insn; store_float128 (u64 (a + s_imm insn)) v.

(** ** Atomic operations *)

Definition amo_w (f : Z -> Z -> Z) : Exec unit :=
  require_extension ext_A;;
  a ← RS1 insn; b ← RS2 insn; v ← amo 4 a (fun lhs => f lhs b); WRITE_RD insn (sext32 v).
Definition amo_d (f : Z -> Z -> Z) : Exec unit :=
  require_extension ext_A;; require_rv64;;
  a ← RS1 insn; b ← RS2 insn; v ← amo 8 a (fun lhs => f lhs b); WRITE_RD insn v.

Definition rv_amoadd_w : Exec unit := amo_w (fun lhs b => u64 (lhs + b)).
Definition rv_amoand_w : Exec unit := amo_w Z.land.
Definition rv_amomax_w : Exec unit := amo_w (fun lhs b => Z.max (s32 lhs) (s32 b)).
Definition rv_amomaxu_w : Exec unit := amo_w (fun lhs b => Z.max lhs (u32 b)).
Definition rv_amomin_w : Exec unit := amo_w (fun lhs b => Z.min (s32 lhs) (s32 b)).
Definition rv_amominu_w : Exec unit := amo_w (fun lhs b => Z.min lhs (u32 b)).
Definition rv_amoor_w : Exec unit := amo_w Z.lor.
Definition rv_amoswap_w : Exec unit := amo_w (fun _ b => b).
Definition rv_amoxor_w : Exec unit := amo_w Z.lxor.
Definition rv_amoadd_d : Exec unit := amo_d (fun lhs b => u64 (lhs + b)).
Definition rv_amoand_d : Exec unit := amo_d Z.land.
Definition rv_amomax_d : Exec unit := amo_d (fun lhs b => Z.max (s64 lhs) (s64 b)).
Definition rv_amomaxu_d : Exec unit := amo_d Z.max.
Definition rv_amomin_d : Exec unit := amo_d (fun lhs b => Z.min (s64 lhs) (s64 b)).
Definition rv_amominu_d : Exec unit := amo_d Z.min.
Definition rv_amoor_d : Exec unit := amo_d Z.lor.
Definition rv_amoswap_d : Exec unit := amo_d (fun _ b => b).
Definition rv_amoxor_d : Exec unit := amo_d Z.lxor.

Definition rv_lr_w : Exec unit :=
  require_extension ext_A;;
  a ← RS1 insn; acquire_load_reservation a;; v ← mmu_load true 4 a; WRITE_RD insn v.
Definition rv_lr_d : Exec unit :=
  require_extension ext_A;; require_rv64;;
  a ← RS1 insn; acquire_load_reservation a;; v ← mmu_load true 8 a; WRITE_RD insn v.

Definition store_conditional (n : nat) : Exec unit :=
  a ← RS1 insn;
  ok ← check_load_reservation a;
  (if ok : bool then b ← RS2 insn; mmu_store n a b;; WRITE_RD insn 0 else WRITE_RD insn 1);;
  yield_load_reservation.
Definition rv_sc_w : Exec unit := require_extension ext_A;; store_conditional 4.
Definition rv_sc_d : Exec unit := require_extension ext_A;; require_rv64;; store_conditional 8.

(** The instruction cache is not part of the model. *)
Definition rv_fence_i : Exec unit := mret tt.
End Insns.
