(* ===== verification/SpikeRvc.v ===== *)
(** * Spike: compressed instructions

    The instructions of the C extension (riscv/insns/c_NAME.h is [rv_c_NAME]),
    and the 32-bit instructions they stand for. *)

From Stdlib Require Import ZArith Lia.
From stdpp Require Import base tactics list numbers.
From coqutil Require Import Datatypes.RecordSetters.
Import OCamlLikeNotations.
From S2P Require Import Prelude SoftFloat Spike SpikeAlu SpikeCsr SpikeMmu SpikeMem.

Definition X_RA : Z := 1.
Definition X_SP : Z := 2.

Section Insns.
Context `{Config}.
Variable insn : Z.

Definition RVC_RS1 : Exec Z := READ_REG (rvc_rs1 insn).
Definition RVC_RS2 : Exec Z := READ_REG (rvc_rs2 insn).
Definition RVC_RS1S : Exec Z := READ_REG (rvc_rs1s insn).
Definition RVC_RS2S : Exec Z := READ_REG (rvc_rs2s insn).
Definition RVC_FRS2 : Exec (Z * Z) := READ_FREG (rvc_rs2 insn).
Definition RVC_FRS2S : Exec (Z * Z) := READ_FREG (rvc_rs2s insn).
Definition RVC_SP : Exec Z := READ_REG X_SP.
Definition WRITE_RVC_RS1S (v : Z) : Exec unit := WRITE_REG (rvc_rs1s insn) v.
Definition WRITE_RVC_RS2S (v : Z) : Exec unit := WRITE_REG (rvc_rs2s insn) v.
Definition WRITE_RVC_FRS2S (v : Z * Z) : Exec unit := WRITE_FREG (rvc_rs2s insn) v.

Definition require_C : Exec unit := require_extension ext_C.

Definition rv_c_add : Exec unit :=
  require_C;; require (negb (rvc_rs2 insn =? 0));;
  a ← RVC_RS1; b ← RVC_RS2; WRITE_RD insn (sext_xlen (u64 (a + b))).
Definition rv_c_addi : Exec unit := require_C;; a ← RVC_RS1; WRITE_RD insn (sext_xlen (u64 (a + rvc_imm insn))).
Definition rv_c_addi4spn : Exec unit :=
  require_C;; require (negb (rvc_addi4spn_imm insn =? 0));;
  a ← RVC_SP; WRITE_RVC_RS2S (sext_xlen (u64 (a + rvc_addi4spn_imm insn))).
Definition rv_c_addw : Exec unit :=
  require_C;; require_rv64;; a ← RVC_RS1S; b ← RVC_RS2S; WRITE_RVC_RS1S (sext32 (u64 (a + b))).
Definition rv_c_and : Exec unit := require_C;; a ← RVC_RS1S; b ← RVC_RS2S; WRITE_RVC_RS1S (Z.land a b).
Definition rv_c_andi : Exec unit := require_C;; a ← RVC_RS1S; WRITE_RVC_RS1S (Z.land a (rvc_imm insn)).
Definition rv_c_beqz : Exec unit :=
  require_C;; a ← RVC_RS1S; p ← gets pc; when (a =? 0) (set_pc (p + rvc_b_imm insn)).
Definition rv_c_bnez : Exec unit :=
  require_C;; a ← RVC_RS1S; p ← gets pc; when (negb (a =? 0)) (set_pc (p + rvc_b_imm insn)).
Definition rv_c_ebreak : Exec unit := require_C;; p ← gets pc; throw (trap_breakpoint p).
Definition rv_c_fld : Exec unit :=
  require_C;; require_extension ext_D;; require_fp;;
  a ← RVC_RS1S; v ← mmu_load false 8 (u64 (a + rvc_ld_imm insn)); WRITE_RVC_FRS2S (freg64 v).
Definition rv_c_fldsp : Exec unit :=
  require_C;; require_extension ext_D;; require_fp;;
  a ← RVC_SP; v ← mmu_load false 8 (u64 (a + rvc_ldsp_imm insn)); WRITE_FRD insn (freg64 v).
Definition rv_c_flw : Exec unit :=
  require_C;;
  if xlen =? 32 then
    require_extension ext_F;; require_fp;;
    a ← RVC_RS1S; v ← mmu_load false 4 (u64 (a + rvc_lw_imm insn)); WRITE_RVC_FRS2S (freg32 v)
  else a ← RVC_RS1S; v ← mmu_load true 8 (u64 (a + rvc_ld_imm insn)); WRITE_RVC_RS2S v.
Definition rv_c_flwsp : Exec unit :=
  require_C;;
  if xlen =? 32 then
    require_extension ext_F;; require_fp;;
    a ← RVC_SP; v ← mmu_load false 4 (u64 (a + rvc_lwsp_imm insn)); WRITE_FRD insn (freg32 v)
  else
    require (negb (rvc_rd insn =? 0));;
    a ← RVC_SP; v ← mmu_load true 8 (u64 (a + rvc_ldsp_imm insn)); WRITE_RD insn v.
Definition rv_c_fsd : Exec unit :=
  require_C;; require_extension ext_D;; require_fp;;
  a ← RVC_RS1S; v ← RVC_FRS2S; mmu_store 8 (u64 (a + rvc_ld_imm insn)) v.1.
Definition rv_c_fsdsp : Exec unit :=
  require_C;; require_extension ext_D;; require_fp;;
  a ← RVC_SP; v ← RVC_FRS2; mmu_store 8 (u64 (a + rvc_sdsp_imm insn)) v.1.
Definition rv_c_fsw : Exec unit :=
  require_C;;
  if xlen =? 32 then
    require_extension ext_F;; require_fp;;
    a ← RVC_RS1S; v ← RVC_FRS2S; mmu_store 4 (u64 (a + rvc_lw_imm insn)) v.1
  else a ← RVC_RS1S; v ← RVC_RS2S; mmu_store 8 (u64 (a + rvc_ld_imm insn)) v.
Definition rv_c_fswsp : Exec unit :=
  require_C;;
  if xlen =? 32 then
    require_extension ext_F;; require_fp;;
    a ← RVC_SP; v ← RVC_FRS2; mmu_store 4 (u64 (a + rvc_swsp_imm insn)) v.1
  else a ← RVC_SP; v ← RVC_RS2; mmu_store 8 (u64 (a + rvc_sdsp_imm insn)) v.
Definition rv_c_j : Exec unit := require_C;; p ← gets pc; set_pc (p + rvc_j_imm insn).
Definition rv_c_jal : Exec unit :=
  require_C;;
  if xlen =? 32 then
    tmp ← gets npc; p ← gets pc; set_pc (p + rvc_j_imm insn);; WRITE_REG X_RA tmp
  else
    require (negb (rvc_rd insn =? 0));; a ← RVC_RS1; WRITE_RD insn (sext32 (u64 (a + rvc_imm insn))).
Definition rv_c_jalr : Exec unit :=
  require_C;; require (negb (rvc_rs1 insn =? 0));;
  tmp ← gets npc; a ← RVC_RS1; set_pc (Z.land a (Z.lnot 1));; WRITE_REG X_RA tmp.
Definition rv_c_jr : Exec unit :=
  require_C;; require (negb (rvc_rs1 insn =? 0));; a ← RVC_RS1; set_pc (Z.land a (Z.lnot 1)).
Definition rv_c_li : Exec unit := require_C;; WRITE_RD insn (rvc_imm insn).
Definition rv_c_lui : Exec unit :=
  require_C;;
  if rvc_rd insn =? 2 then
    require (negb (rvc_addi16sp_imm insn =? 0));;
    a ← RVC_SP; WRITE_REG X_SP (sext_xlen (u64 (a + rvc_addi16sp_imm insn)))
  else require (negb (rvc_imm insn =? 0));; WRITE_RD insn (Z.shiftl (rvc_imm insn) 12).
Definition rv_c_lw : Exec unit :=
  require_C;; a ← RVC_RS1S; v ← mmu_load true 4 (u64 (a + rvc_lw_imm insn)); WRITE_RVC_RS2S v.
Definition rv_c_lwsp : Exec unit :=
  require_C;; require (negb (rvc_rd insn =? 0));;
  a ← RVC_SP; v ← mmu_load true 4 (u64 (a + rvc_lwsp_imm insn)); WRITE_RD insn v.
Definition rv_c_mv : Exec unit :=
  require_C;; require (negb (rvc_rs2 insn =? 0));; b ← RVC_RS2; WRITE_RD insn b.
Definition rv_c_or : Exec unit := require_C;; a ← RVC_RS1S; b ← RVC_RS2S; WRITE_RVC_RS1S (Z.lor a b).
Definition rv_c_slli : Exec unit :=
  require_C;; require (rvc_zimm insn <? xlen);;
  a ← RVC_RS1; WRITE_RD insn (sext_xlen (u64 (Z.shiftl a (rvc_zimm insn)))).
Definition rv_c_srai : Exec unit :=
  require_C;; require (rvc_zimm insn <? xlen);;
  a ← RVC_RS1S; WRITE_RVC_RS1S (sext_xlen (Z.shiftr (sext_xlen a) (rvc_zimm insn))).
Definition rv_c_srli : Exec unit :=
  require_C;; require (rvc_zimm insn <? xlen);;
  a ← RVC_RS1S; WRITE_RVC_RS1S (sext_xlen (Z.shiftr (zext_xlen a) (rvc_zimm insn))).
Definition rv_c_sub : Exec unit :=
  require_C;; a ← RVC_RS1S; b ← RVC_RS2S; WRITE_RVC_RS1S (sext_xlen (u64 (a - b))).
Definition rv_c_subw : Exec unit :=
  require_C;; require_rv64;; a ← RVC_RS1S; b ← RVC_RS2S; WRITE_RVC_RS1S (sext32 (u64 (a - b))).
Definition rv_c_sw : Exec unit :=
  require_C;; a ← RVC_RS1S; b ← RVC_RS2S; mmu_store 4 (u64 (a + rvc_lw_imm insn)) b.
Definition rv_c_swsp : Exec unit :=
  require_C;; a ← RVC_SP; b ← RVC_RS2; mmu_store 4 (u64 (a + rvc_swsp_imm insn)) b.
Definition rv_c_xor : Exec unit := require_C;; a ← RVC_RS1S; b ← RVC_RS2S; WRITE_RVC_RS1S (Z.lxor a b).
End Insns.

(** ** Expansion

    The base instruction of the ISA manual for each compressed one, as a word in
    the format of the base instruction. *)

Definition R_type (rd rs1 rs2 : Z) : Z := rd * 2 ^ 7 + rs1 * 2 ^ 15 + rs2 * 2 ^ 20.
Definition I_type (rd rs1 imm : Z) : Z := u64 (rd * 2 ^ 7 + rs1 * 2 ^ 15 + imm * 2 ^ 20).
Definition S_type (rs1 rs2 imm : Z) : Z := u64 (imm mod 32 * 2 ^ 7 + rs1 * 2 ^ 15 + rs2 * 2 ^ 20 + imm / 32 * 2 ^ 25).
Definition B_type (rs1 rs2 imm : Z) : Z :=
  u64 (imm / 2048 mod 2 * 2 ^ 7 + imm / 2 mod 16 * 2 ^ 8 + rs1 * 2 ^ 15 + rs2 * 2 ^ 20 + imm / 32 mod 64 * 2 ^ 25
       + imm / 4096 * 2 ^ 31).
Definition U_type (rd imm : Z) : Z := u64 (rd * 2 ^ 7 + imm).
Definition J_type (rd imm : Z) : Z :=
  u64 (rd * 2 ^ 7 + imm / 4096 mod 256 * 2 ^ 12 + imm / 2048 mod 2 * 2 ^ 20 + imm / 2 mod 1024 * 2 ^ 21
       + imm / 2 ^ 20 * 2 ^ 31).

(** The fields of a compressed instruction as the tables of the ISA manual print
    them: from bit [hi] of the word downwards, each bit has the position it takes
    in the operand.  Nothing of the code enters these definitions. *)
Fixpoint isa_field (hi : Z) (dst : list Z) (h : Z) : Z :=
  match dst with
  | [] => 0
  | d :: dst => Z.b2z (Z.testbit h hi) * 2 ^ d + isa_field (hi - 1) dst h
  end.
Definition isa_signed (w v : Z) : Z := if v <? 2 ^ (w - 1) then v else v - 2 ^ w.

Definition isa_rd (h : Z) : Z := isa_field 11 [4; 3; 2; 1; 0] h.
Definition isa_rs2 (h : Z) : Z := isa_field 6 [4; 3; 2; 1; 0] h.
Definition isa_rs1' (h : Z) : Z := 8 + isa_field 9 [2; 1; 0] h.
Definition isa_rs2' (h : Z) : Z := 8 + isa_field 4 [2; 1; 0] h.
(** imm[5], imm[4:0]; the same as a shift amount *)
Definition isa_shamt (h : Z) : Z := isa_field 12 [5] h + isa_field 6 [4; 3; 2; 1; 0] h.
Definition isa_imm (h : Z) : Z := isa_signed 6 (isa_shamt h).
(** nzuimm[5:4|9:6|2|3] *)
Definition isa_addi4spn (h : Z) : Z := isa_field 12 [5; 4; 9; 8; 7; 6; 2; 3] h.
(** nzimm[9], nzimm[4|6|8:7|5] *)
Definition isa_addi16sp (h : Z) : Z := isa_signed 10 (isa_field 12 [9] h + isa_field 6 [4; 6; 8; 7; 5] h).
(** uimm[5], uimm[4:2|7:6] and uimm[5], uimm[4:3|8:6] *)
Definition isa_lwsp (h : Z) : Z := isa_field 12 [5] h + isa_field 6 [4; 3; 2; 7; 6] h.
Definition isa_ldsp (h : Z) : Z := isa_field 12 [5] h + isa_field 6 [4; 3; 8; 7; 6] h.
(** uimm[5:2|7:6] and uimm[5:3|8:6] *)
Definition isa_swsp (h : Z) : Z := isa_field 12 [5; 4; 3; 2; 7; 6] h.
Definition isa_sdsp (h : Z) : Z := isa_field 12 [5; 4; 3; 8; 7; 6] h.
(** uimm[5:3], uimm[2|6] and uimm[5:3], uimm[7:6] *)
Definition isa_lw (h : Z) : Z := isa_field 12 [5; 4; 3] h + isa_field 6 [2; 6] h.
Definition isa_ld (h : Z) : Z := isa_field 12 [5; 4; 3] h + isa_field 6 [7; 6] h.
(** imm[11|4|9:8|10|6|7|3:1|5] *)
Definition isa_j (h : Z) : Z := isa_signed 12 (isa_field 12 [11; 4; 9; 8; 10; 6; 7; 3; 2; 1; 5] h).
(** imm[8|4:3], imm[7:6|2:1|5] *)
Definition isa_b (h : Z) : Z := isa_signed 9 (isa_field 12 [8; 4; 3] h + isa_field 6 [7; 6; 2; 1; 5] h).

(** A compressed instruction: its function, a condition on its fields, and what
    the manual expands it to, from the fields above. *)
Record rvc_t := Rvc { rvc_insn : Z -> Exec unit; rvc_guard : Z -> bool; rvc_base : Z -> Exec unit }.

Definition rvc_table `{Config} : list rvc_t :=
  let always (_ : Z) := true in
  let nz f (h : Z) := negb (f h =? 0) in
  let rr op h : Exec unit := op (R_type (isa_rs1' h) (isa_rs1' h) (isa_rs2' h)) in
  let imm op f h : Exec unit := op (I_type (isa_rd h) (isa_rd h) (f h)) in
  let imms op f h : Exec unit := op (I_type (isa_rs1' h) (isa_rs1' h) (f h)) in
  let load op f h : Exec unit := op (I_type (isa_rs2' h) (isa_rs1' h) (f h)) in
  let loadsp op f h : Exec unit := op (I_type (isa_rd h) X_SP (f h)) in
  let store op f h : Exec unit := op (S_type (isa_rs1' h) (isa_rs2' h) (f h)) in
  let storesp op f h : Exec unit := op (S_type X_SP (isa_rs2 h) (f h)) in
  let branch op h : Exec unit := op (B_type (isa_rs1' h) 0 (isa_b h)) in
  [ Rvc rv_c_add (nz isa_rs2) (fun h => rv_add (R_type (isa_rd h) (isa_rd h) (isa_rs2 h)));
    Rvc rv_c_mv (nz isa_rs2) (fun h => rv_add (R_type (isa_rd h) 0 (isa_rs2 h)));
    Rvc rv_c_and always (rr rv_and); Rvc rv_c_or always (rr rv_or); Rvc rv_c_xor always (rr rv_xor);
    Rvc rv_c_sub always (rr rv_sub); Rvc rv_c_addw always (rr rv_addw); Rvc rv_c_subw always (rr rv_subw);
    Rvc rv_c_addi always (imm rv_addi isa_imm); Rvc rv_c_andi always (imms rv_andi isa_imm);
    Rvc rv_c_addi4spn (nz isa_addi4spn) (fun h => rv_addi (I_type (isa_rs2' h) X_SP (isa_addi4spn h)));
    Rvc rv_c_li always (fun h => rv_addi (I_type (isa_rd h) 0 (isa_imm h)));
    Rvc rv_c_lui (fun h => if isa_rd h =? 2 then nz isa_addi16sp h else nz isa_imm h)
      (fun h => if isa_rd h =? 2 then rv_addi (I_type X_SP X_SP (isa_addi16sp h))
                else rv_lui (U_type (isa_rd h) (Z.shiftl (isa_imm h) 12)));
    Rvc rv_c_slli always (imm rv_slli isa_shamt); Rvc rv_c_srli always (imms rv_srli isa_shamt);
    Rvc rv_c_srai always (imms rv_srai isa_shamt);
    Rvc rv_c_j always (fun h => rv_jal (J_type 0 (isa_j h)));
    Rvc rv_c_jr (nz isa_rd) (fun h => rv_jalr (I_type 0 (isa_rd h) 0));
    Rvc rv_c_jalr (nz isa_rd) (fun h => rv_jalr (I_type X_RA (isa_rd h) 0));
    Rvc rv_c_beqz always (branch rv_beq); Rvc rv_c_bnez always (branch rv_bne);
    Rvc (fun _ => rv_c_ebreak) always rv_ebreak;
    Rvc rv_c_lw always (load rv_lw isa_lw); Rvc rv_c_sw always (store rv_sw isa_lw);
    Rvc rv_c_fld always (load rv_fld isa_ld); Rvc rv_c_fsd always (store rv_fsd isa_ld);
    Rvc rv_c_lwsp (nz isa_rd) (loadsp rv_lw isa_lwsp); Rvc rv_c_swsp always (storesp rv_sw isa_swsp);
    Rvc rv_c_fldsp always (loadsp rv_fld isa_ldsp); Rvc rv_c_fsdsp always (storesp rv_fsd isa_sdsp) ]
  ++ (if xlen =? 32 then
        [ Rvc rv_c_flw always (load rv_flw isa_lw); Rvc rv_c_fsw always (store rv_fsw isa_lw);
          Rvc rv_c_flwsp always (loadsp rv_flw isa_lwsp); Rvc rv_c_fswsp always (storesp rv_fsw isa_swsp);
          Rvc rv_c_jal always (fun h => rv_jal (J_type X_RA (isa_j h))) ]
      else
        [ Rvc rv_c_flw always (load rv_ld isa_ld); Rvc rv_c_fsw always (store rv_sd isa_ld);
          Rvc rv_c_flwsp (nz isa_rd) (loadsp rv_ld isa_ldsp); Rvc rv_c_fswsp always (storesp rv_sd isa_sdsp);
          Rvc rv_c_jal (nz isa_rd) (imm rv_addiw isa_imm) ]).

(** ** Formats *)

(** A test of all 16-bit words. *)
Fixpoint all_below (k : nat) (lo : Z) (f : Z -> bool) : bool :=
  match k with
  | O => f lo
  | S k => all_below k lo f && all_below k (lo + 2 ^ Z.of_nat k) f
  end.

Lemma all_below_spec k f lo : all_below k lo f = true -> forall h, lo <= h < lo + 2 ^ Z.of_nat k -> f h = true.
Proof.
  revert lo. induction k as [|k IH]; intros lo Hf h Hh.
  - cbn in Hf, Hh. by replace h with lo by lia.
  - cbn [all_below] in Hf. apply andb_true_iff in Hf as [H1 H2]. rewrite Nat2Z.inj_succ, Z.pow_succ_r in Hh by lia.
    destruct (Z.lt_ge_cases h (lo + 2 ^ Z.of_nat k)); [apply (IH lo H1); lia|apply (IH _ H2); lia].
Qed.

Definition is_R (r1 r2 r3 w : Z) : bool := (rd w =? r1) && (rs1 w =? r2) && (rs2 w =? r3).
Definition is_I (r1 r2 imm w : Z) : bool := (rd w =? r1) && (rs1 w =? r2) && (i_imm w =? imm).
Definition is_S (r2 r3 imm w : Z) : bool := (rs1 w =? r2) && (rs2 w =? r3) && (s_imm w =? imm).
Definition is_B (r2 r3 imm w : Z) : bool := (rs1 w =? r2) && (rs2 w =? r3) && (sb_imm w =? imm).
Definition is_J (r1 imm w : Z) : bool := (rd w =? r1) && (uj_imm w =? imm).

(** The fields of the words of the table. *)
Definition formats_ok (h : Z) : bool :=
  let r1 := rvc_rs1s h in let r2 := rvc_rs2s h in let d := rvc_rd h in let r := rvc_rs2 h in
  let R a b c := is_R a b c (R_type a b c) in
  let I a b f := is_I a b (f h) (I_type a b (f h)) in
  let S b c f := is_S b c (f h) (S_type b c (f h)) in
  let B b c f := is_B b c (f h) (B_type b c (f h)) in
  let J a f := is_J a (f h) (J_type a (f h)) in
  R d d r && R d 0 r && R r1 r1 r2 && I d d rvc_imm && I d 0 rvc_imm && I r1 r1 rvc_imm && I r2 X_SP rvc_addi4spn_imm
  && I X_SP X_SP rvc_addi16sp_imm && I d d rvc_zimm && I r1 r1 rvc_zimm && I 0 d (fun _ => 0) && I X_RA d (fun _ => 0)
  && J 0 rvc_j_imm && J X_RA rvc_j_imm && B r1 0 rvc_b_imm
  && I r2 r1 rvc_lw_imm && I r2 r1 rvc_ld_imm && I d X_SP rvc_lwsp_imm && I d X_SP rvc_ldsp_imm
  && S r1 r2 rvc_lw_imm && S r1 r2 rvc_ld_imm && S X_SP r rvc_swsp_imm && S X_SP r rvc_sdsp_imm
  && (let w := U_type d (Z.shiftl (rvc_imm h) 12) in (rd w =? d) && (u_imm w =? Z.shiftl (rvc_imm h) 12))
  && (Z.land (rvc_zimm h) 0x3f =? rvc_zimm h).

(** All fields come from bits 2 to 12. *)
Definition core (h : Z) : Z := Z.land h 0x1ffc.

Lemma core_bit h i : 2 <= i < 13 -> Z.testbit (core h) i = Z.testbit h i.
Proof.
  intros Hi. unfold core. rewrite Z.land_spec.
  assert (exists n : nat, i = Z.of_nat n /\ (2 <= n < 13)%nat) as (n & -> & Hn) by (exists (Z.to_nat i); lia).
  do 13 (destruct n as [|n]; [try lia; by rewrite andb_true_r|]). lia.
Qed.

Lemma x_core h lo len : 2 <= lo -> 0 <= len -> lo + len <= 13 -> x (core h) lo len = x h lo len.
Proof.
  intros Hlo Hlen Hs. unfold x. rewrite Z.shiftl_1_l. change (2 ^ len - 1) with (Z.pred (2 ^ len)). rewrite <-Z.ones_equiv.
  apply Z.bits_inj'. intros i Hi. rewrite !Z.land_spec, !Z.shiftr_spec, Z.testbit_ones by done.
  destruct (Z.ltb_spec i len); [|by rewrite !andb_false_r]. by rewrite core_bit by lia.
Qed.

Lemma xs_sign h : xs h 12 1 = u64 (- Z.b2z (Z.testbit h 12)).
Proof.
  unfold xs. f_equal. change (64 - 12 - 1) with 51. change (64 - 1) with 63.
  rewrite Z.shiftl_mul_pow2, Z.shiftr_div_pow2 by lia. unfold s64. rewrite Z.testbit_spec' by lia.
  change (2 ^ 51) with 2251799813685248. change (2 ^ 63) with 9223372036854775808. change (2 ^ 12) with 4096. divlia.
Qed.

Lemma xs_core h : xs (core h) 12 1 = xs h 12 1.
Proof. by rewrite !xs_sign, core_bit by lia. Qed.

Lemma fields_core h :
  rvc_rd (core h) = rvc_rd h /\ rvc_rs2 (core h) = rvc_rs2 h /\ rvc_rs1s (core h) = rvc_rs1s h /\ rvc_rs2s (core h) = rvc_rs2s h
  /\ rvc_imm (core h) = rvc_imm h /\ rvc_zimm (core h) = rvc_zimm h /\ rvc_addi4spn_imm (core h) = rvc_addi4spn_imm h
  /\ rvc_addi16sp_imm (core h) = rvc_addi16sp_imm h /\ rvc_lwsp_imm (core h) = rvc_lwsp_imm h
  /\ rvc_ldsp_imm (core h) = rvc_ldsp_imm h /\ rvc_swsp_imm (core h) = rvc_swsp_imm h
  /\ rvc_sdsp_imm (core h) = rvc_sdsp_imm h /\ rvc_lw_imm (core h) = rvc_lw_imm h /\ rvc_ld_imm (core h) = rvc_ld_imm h
  /\ rvc_j_imm (core h) = rvc_j_imm h /\ rvc_b_imm (core h) = rvc_b_imm h.
Proof.
  unfold rvc_rd, rvc_rs2, rvc_rs1s, rvc_rs2s, rvc_imm, rvc_zimm, rvc_addi4spn_imm, rvc_addi16sp_imm, rvc_lwsp_imm,
    rvc_ldsp_imm, rvc_swsp_imm, rvc_sdsp_imm, rvc_lw_imm, rvc_ld_imm, rvc_j_imm, rvc_b_imm, rd.
  rewrite !xs_core, !x_core by lia. done.
Qed.

Lemma core_range h : exists k, 0 <= k < 2048 /\ core h = 4 * k.
Proof.
  exists (core h / 4). unfold core. change 0x1ffc with (Z.shiftl (Z.ones 11) 2).
  assert (Z.land h (Z.shiftl (Z.ones 11) 2) = 4 * (h / 4 mod 2048)) as ->; [|divlia].
  change (4 * _) with (2 ^ 2 * (h / 2 ^ 2 mod 2 ^ 11)). rewrite Z.mul_comm, <-Z.shiftl_mul_pow2 by lia.
  rewrite <-Z.land_ones by lia. rewrite <-Z.shiftr_div_pow2 by lia. apply Z.bits_inj'. intros i Hi.
  rewrite Z.land_spec, !Z.shiftl_spec, Z.land_spec by done. destruct (Z.lt_ge_cases i 2).
  - by rewrite !(Z.testbit_neg_r _ (i - 2)), andb_false_r by lia.
  - rewrite Z.shiftr_spec by lia. do 2 f_equal. lia.
Qed.

Lemma formats_core : all_below 11 0 (fun k => formats_ok (4 * k)) = true.
Proof. vm_compute. reflexivity. Qed.

Lemma formats h : formats_ok h = true.
Proof.
  destruct (core_range h) as (k & Hk & E).
  assert (formats_ok (core h) = true) as Hc.
  { rewrite E. apply (all_below_spec 11 (fun k => formats_ok (4 * k)) 0 formats_core). exact Hk. }
  destruct (fields_core h) as (E1 & E2 & E3 & E4 & E5 & E6 & E7 & E8 & E9 & E10 & E11 & E12 & E13 & E14 & E15 & E16).
  unfold formats_ok in *. cbv zeta in Hc. rewrite E1, E2, E3, E4, E5, E6, E7, E8, E9, E10, E11, E12, E13, E14, E15, E16 in Hc. exact Hc.
Qed.

(** ** The extractors against the manual *)

Lemma isa_field_core hi dst h :
  hi < 13 -> 1 + Z.of_nat (length dst) <= hi -> isa_field hi dst (core h) = isa_field hi dst h.
Proof.
  revert hi. induction dst as [|d dst IH]; intros hi H1 H2; cbn [isa_field length] in *; [done|].
  rewrite core_bit, IH by lia. done.
Qed.

Definition isa_fields_ok (h : Z) : bool :=
  forallb (fun p => p.1 h =? p.2 h)
    [(rvc_rd, isa_rd); (rvc_rs2, isa_rs2); (rvc_rs1s, isa_rs1'); (rvc_rs2s, isa_rs2'); (rvc_imm, isa_imm); (rvc_zimm, isa_shamt); (rvc_addi4spn_imm, isa_addi4spn); (rvc_addi16sp_imm, isa_addi16sp); (rvc_lwsp_imm, isa_lwsp); (rvc_ldsp_imm, isa_ldsp); (rvc_swsp_imm, isa_swsp); (rvc_sdsp_imm, isa_sdsp); (rvc_lw_imm, isa_lw); (rvc_ld_imm, isa_ld); (rvc_j_imm, isa_j); (rvc_b_imm, isa_b)].

Lemma isa_fields_core : all_below 11 0 (fun k => isa_fields_ok (4 * k)) = true.
Proof. vm_compute. reflexivity. Qed.

(** Every extractor of decode.h gives the field of the manual, on every word. *)
Lemma isa_fields h :
  isa_rd h = rvc_rd h /\ isa_rs2 h = rvc_rs2 h /\ isa_rs1' h = rvc_rs1s h
  /\ isa_rs2' h = rvc_rs2s h /\ isa_imm h = rvc_imm h /\ isa_shamt h = rvc_zimm h
  /\ isa_addi4spn h = rvc_addi4spn_imm h /\ isa_addi16sp h = rvc_addi16sp_imm h /\ isa_lwsp h = rvc_lwsp_imm h
  /\ isa_ldsp h = rvc_ldsp_imm h /\ isa_swsp h = rvc_swsp_imm h /\ isa_sdsp h = rvc_sdsp_imm h
  /\ isa_lw h = rvc_lw_imm h /\ isa_ld h = rvc_ld_imm h /\ isa_j h = rvc_j_imm h
  /\ isa_b h = rvc_b_imm h.
Proof.
  destruct (core_range h) as (k & Hk & E).
  assert (isa_fields_ok (core h) = true) as Hc.
  { rewrite E. apply (all_below_spec 11 (fun k => isa_fields_ok (4 * k)) 0 isa_fields_core). exact Hk. }
  unfold isa_fields_ok in Hc. cbn [forallb fst snd] in Hc. rewrite !andb_true_iff, !Z.eqb_eq in Hc.
  destruct (fields_core h) as (E1 & E2 & E3 & E4 & E5 & E6 & E7 & E8 & E9 & E10 & E11 & E12 & E13 & E14 & E15 & E16).
  rewrite E1, E2, E3, E4, E5, E6, E7, E8, E9, E10, E11, E12, E13, E14, E15, E16 in Hc.
  unfold isa_rd, isa_rs2, isa_rs1', isa_rs2', isa_imm, isa_shamt, isa_addi4spn, isa_addi16sp, isa_lwsp, isa_ldsp,
    isa_swsp, isa_sdsp, isa_lw, isa_ld, isa_j, isa_b in *.
  rewrite !isa_field_core in Hc by (cbn; lia). destruct Hc as (-> & -> & -> & -> & -> & -> & -> & -> & -> & -> & -> & -> & -> & -> & -> & -> & _).
  done.
Qed.
