(* ===== verification/SpikeDecode.v ===== *)
(** * Spike: the decoder

    [register_base_instructions], [build_opcode_map] and [decode_insn] of
    processor.cc with the encodings of encoding.h.  The decoder looks an
    instruction up in a cache of 8191 entries; on a miss it searches a list and
    moves what it found to the front.  The theorem says that after any sequence
    of lookups it still finds what a search of the sorted list finds. *)

From Stdlib Require Import ZArith Lia.
From stdpp Require Import base tactics list numbers sorting strings.
From S2P Require Import Prelude.

(** ** Encodings *)

(** [insn_desc_t]; the name stands for the functions rv32_NAME and rv64_NAME. *)
Record insn_desc_t := Desc { match_bits : Z; mask_bits : Z; insn_name : string }.

Definition illegal_desc : insn_desc_t := Desc 0 0 "illegal_instruction".

(** The instructions in the order of riscv.mk.in. *)
Definition insn_list : list insn_desc_t :=
  [
    Desc 0x33 0xfe00707f "add"; Desc 0x13 0x707f "addi"; Desc 0x1b 0x707f "addiw"; Desc 0x3b 0xfe00707f "addw";
    Desc 0x302f 0xf800707f "amoadd_d"; Desc 0x202f 0xf800707f "amoadd_w"; Desc 0x6000302f 0xf800707f "amoand_d";
    Desc 0x6000202f 0xf800707f "amoand_w"; Desc 0xa000302f 0xf800707f "amomax_d";
    Desc 0xe000302f 0xf800707f "amomaxu_d"; Desc 0xe000202f 0xf800707f "amomaxu_w";
    Desc 0xa000202f 0xf800707f "amomax_w"; Desc 0x8000302f 0xf800707f "amomin_d";
    Desc 0xc000302f 0xf800707f "amominu_d"; Desc 0xc000202f 0xf800707f "amominu_w";
    Desc 0x8000202f 0xf800707f "amomin_w"; Desc 0x4000302f 0xf800707f "amoor_d";
    Desc 0x4000202f 0xf800707f "amoor_w"; Desc 0x800302f 0xf800707f "amoswap_d";
    Desc 0x800202f 0xf800707f "amoswap_w"; Desc 0x2000302f 0xf800707f "amoxor_d";
    Desc 0x2000202f 0xf800707f "amoxor_w"; Desc 0x7033 0xfe00707f "and"; Desc 0x7013 0x707f "andi";
    Desc 0x17 0x7f "auipc"; Desc 0x63 0x707f "beq"; Desc 0x5063 0x707f "bge"; Desc 0x7063 0x707f "bgeu";
    Desc 0x4063 0x707f "blt"; Desc 0x6063 0x707f "bltu"; Desc 0x1063 0x707f "bne"; Desc 0x9002 0xf003 "c_add";
    Desc 0x0 0xe003 "c_addi4spn"; Desc 0x1 0xe003 "c_addi"; Desc 0x9c21 0xfc63 "c_addw";
    Desc 0x8c61 0xfc63 "c_and"; Desc 0x8801 0xec03 "c_andi"; Desc 0xc001 0xe003 "c_beqz";
    Desc 0xe001 0xe003 "c_bnez"; Desc 0x9002 0xffff "c_ebreak"; Desc 0x2000 0xe003 "c_fld";
    Desc 0x2002 0xe003 "c_fldsp"; Desc 0x6000 0xe003 "c_flw"; Desc 0x6002 0xe003 "c_flwsp";
    Desc 0xa000 0xe003 "c_fsd"; Desc 0xa002 0xe003 "c_fsdsp"; Desc 0xe000 0xe003 "c_fsw";
    Desc 0xe002 0xe003 "c_fswsp"; Desc 0x2001 0xe003 "c_jal"; Desc 0x9002 0xf07f "c_jalr";
    Desc 0xa001 0xe003 "c_j"; Desc 0x8002 0xf07f "c_jr"; Desc 0x4001 0xe003 "c_li"; Desc 0x6001 0xe003 "c_lui";
    Desc 0x4000 0xe003 "c_lw"; Desc 0x4002 0xe003 "c_lwsp"; Desc 0x8002 0xf003 "c_mv";
    Desc 0x8c41 0xfc63 "c_or"; Desc 0x2 0xe003 "c_slli"; Desc 0x8401 0xec03 "c_srai";
    Desc 0x8001 0xec03 "c_srli"; Desc 0x8c01 0xfc63 "c_sub"; Desc 0x9c01 0xfc63 "c_subw";
    Desc 0x8c21 0xfc63 "c_xor"; Desc 0x3073 0x707f "csrrc"; Desc 0x7073 0x707f "csrrci";
    Desc 0x2073 0x707f "csrrs"; Desc 0x6073 0x707f "csrrsi"; Desc 0x1073 0x707f "csrrw";
    Desc 0x5073 0x707f "csrrwi"; Desc 0xc000 0xe003 "c_sw"; Desc 0xc002 0xe003 "c_swsp";
    Desc 0x2004033 0xfe00707f "div"; Desc 0x2005033 0xfe00707f "divu"; Desc 0x200503b 0xfe00707f "divuw";
    Desc 0x200403b 0xfe00707f "divw"; Desc 0x7b200073 0xffffffff "dret"; Desc 0x100073 0xffffffff "ebreak";
    Desc 0x73 0xffffffff "ecall"; Desc 0x2000053 0xfe00007f "fadd_d"; Desc 0x6000053 0xfe00007f "fadd_q";
    Desc 0x53 0xfe00007f "fadd_s"; Desc 0xe2001053 0xfff0707f "fclass_d"; Desc 0xe6001053 0xfff0707f "fclass_q";
    Desc 0xe0001053 0xfff0707f "fclass_s"; Desc 0xd2200053 0xfff0007f "fcvt_d_l";
    Desc 0xd2300053 0xfff0007f "fcvt_d_lu"; Desc 0x42300053 0xfff0007f "fcvt_d_q";
    Desc 0x42000053 0xfff0007f "fcvt_d_s"; Desc 0xd2000053 0xfff0007f "fcvt_d_w";
    Desc 0xd2100053 0xfff0007f "fcvt_d_wu"; Desc 0xc2200053 0xfff0007f "fcvt_l_d";
    Desc 0xc6200053 0xfff0007f "fcvt_l_q"; Desc 0xc0200053 0xfff0007f "fcvt_l_s";
    Desc 0xc2300053 0xfff0007f "fcvt_lu_d"; Desc 0xc6300053 0xfff0007f "fcvt_lu_q";
    Desc 0xc0300053 0xfff0007f "fcvt_lu_s"; Desc 0x46100053 0xfff0007f "fcvt_q_d";
    Desc 0xd6200053 0xfff0007f "fcvt_q_l"; Desc 0xd6300053 0xfff0007f "fcvt_q_lu";
    Desc 0x46000053 0xfff0007f "fcvt_q_s"; Desc 0xd6000053 0xfff0007f "fcvt_q_w";
    Desc 0xd6100053 0xfff0007f "fcvt_q_wu"; Desc 0x40100053 0xfff0007f "fcvt_s_d";
    Desc 0xd0200053 0xfff0007f "fcvt_s_l"; Desc 0xd0300053 0xfff0007f "fcvt_s_lu";
    Desc 0x40300053 0xfff0007f "fcvt_s_q"; Desc 0xd0000053 0xfff0007f "fcvt_s_w";
    Desc 0xd0100053 0xfff0007f "fcvt_s_wu"; Desc 0xc2000053 0xfff0007f "fcvt_w_d";
    Desc 0xc6000053 0xfff0007f "fcvt_w_q"; Desc 0xc0000053 0xfff0007f "fcvt_w_s";
    Desc 0xc2100053 0xfff0007f "fcvt_wu_d"; Desc 0xc6100053 0xfff0007f "fcvt_wu_q";
    Desc 0xc0100053 0xfff0007f "fcvt_wu_s"; Desc 0x1a000053 0xfe00007f "fdiv_d";
    Desc 0x1e000053 0xfe00007f "fdiv_q"; Desc 0x18000053 0xfe00007f "fdiv_s"; Desc 0xf 0x707f "fence";
    Desc 0x100f 0x707f "fence_i"; Desc 0xa2002053 0xfe00707f "feq_d"; Desc 0xa6002053 0xfe00707f "feq_q";
    Desc 0xa0002053 0xfe00707f "feq_s"; Desc 0x3007 0x707f "fld"; Desc 0xa2000053 0xfe00707f "fle_d";
    Desc 0xa6000053 0xfe00707f "fle_q"; Desc 0xa0000053 0xfe00707f "fle_s"; Desc 0x4007 0x707f "flq";
    Desc 0xa2001053 0xfe00707f "flt_d"; Desc 0xa6001053 0xfe00707f "flt_q"; Desc 0xa0001053 0xfe00707f "flt_s";
    Desc 0x2007 0x707f "flw"; Desc 0x2000043 0x600007f "fmadd_d"; Desc 0x6000043 0x600007f "fmadd_q";
    Desc 0x43 0x600007f "fmadd_s"; Desc 0x2a001053 0xfe00707f "fmax_d"; Desc 0x2e001053 0xfe00707f "fmax_q";
    Desc 0x28001053 0xfe00707f "fmax_s"; Desc 0x2a000053 0xfe00707f "fmin_d";
    Desc 0x2e000053 0xfe00707f "fmin_q"; Desc 0x28000053 0xfe00707f "fmin_s";
    Desc 0x2000047 0x600007f "fmsub_d"; Desc 0x6000047 0x600007f "fmsub_q"; Desc 0x47 0x600007f "fmsub_s";
    Desc 0x12000053 0xfe00007f "fmul_d"; Desc 0x16000053 0xfe00007f "fmul_q";
    Desc 0x10000053 0xfe00007f "fmul_s"; Desc 0xf2000053 0xfff0707f "fmv_d_x";
    Desc 0xf0000053 0xfff0707f "fmv_w_x"; Desc 0xe2000053 0xfff0707f "fmv_x_d";
    Desc 0xe0000053 0xfff0707f "fmv_x_w"; Desc 0x200004f 0x600007f "fnmadd_d";
    Desc 0x600004f 0x600007f "fnmadd_q"; Desc 0x4f 0x600007f "fnmadd_s"; Desc 0x200004b 0x600007f "fnmsub_d";
    Desc 0x600004b 0x600007f "fnmsub_q"; Desc 0x4b 0x600007f "fnmsub_s"; Desc 0x3027 0x707f "fsd";
    Desc 0x22000053 0xfe00707f "fsgnj_d"; Desc 0x26000053 0xfe00707f "fsgnj_q";
    Desc 0x22001053 0xfe00707f "fsgnjn_d"; Desc 0x26001053 0xfe00707f "fsgnjn_q";
    Desc 0x20001053 0xfe00707f "fsgnjn_s"; Desc 0x20000053 0xfe00707f "fsgnj_s";
    Desc 0x22002053 0xfe00707f "fsgnjx_d"; Desc 0x26002053 0xfe00707f "fsgnjx_q";
    Desc 0x20002053 0xfe00707f "fsgnjx_s"; Desc 0x4027 0x707f "fsq"; Desc 0x5a000053 0xfff0007f "fsqrt_d";
    Desc 0x5e000053 0xfff0007f "fsqrt_q"; Desc 0x58000053 0xfff0007f "fsqrt_s";
    Desc 0xa000053 0xfe00007f "fsub_d"; Desc 0xe000053 0xfe00007f "fsub_q"; Desc 0x8000053 0xfe00007f "fsub_s";
    Desc 0x2027 0x707f "fsw"; Desc 0x6f 0x7f "jal"; Desc 0x67 0x707f "jalr"; Desc 0x3 0x707f "lb";
    Desc 0x4003 0x707f "lbu"; Desc 0x3003 0x707f "ld"; Desc 0x1003 0x707f "lh"; Desc 0x5003 0x707f "lhu";
    Desc 0x1000302f 0xf9f0707f "lr_d"; Desc 0x1000202f 0xf9f0707f "lr_w"; Desc 0x37 0x7f "lui";
    Desc 0x2003 0x707f "lw"; Desc 0x6003 0x707f "lwu"; Desc 0x30200073 0xffffffff "mret";
    Desc 0x2000033 0xfe00707f "mul"; Desc 0x2001033 0xfe00707f "mulh"; Desc 0x2002033 0xfe00707f "mulhsu";
    Desc 0x2003033 0xfe00707f "mulhu"; Desc 0x200003b 0xfe00707f "mulw"; Desc 0x6033 0xfe00707f "or";
    Desc 0x6013 0x707f "ori"; Desc 0x2006033 0xfe00707f "rem"; Desc 0x2007033 0xfe00707f "remu";
    Desc 0x200703b 0xfe00707f "remuw"; Desc 0x200603b 0xfe00707f "remw"; Desc 0x23 0x707f "sb";
    Desc 0x1800302f 0xf800707f "sc_d"; Desc 0x1800202f 0xf800707f "sc_w"; Desc 0x3023 0x707f "sd";
    Desc 0x12000073 0xfe007fff "sfence_vma"; Desc 0x1023 0x707f "sh"; Desc 0x1033 0xfe00707f "sll";
    Desc 0x1013 0xfc00707f "slli"; Desc 0x101b 0xfe00707f "slliw"; Desc 0x103b 0xfe00707f "sllw";
    Desc 0x2033 0xfe00707f "slt"; Desc 0x2013 0x707f "slti"; Desc 0x3013 0x707f "sltiu";
    Desc 0x3033 0xfe00707f "sltu"; Desc 0x40005033 0xfe00707f "sra"; Desc 0x40005013 0xfc00707f "srai";
    Desc 0x4000501b 0xfe00707f "sraiw"; Desc 0x4000503b 0xfe00707f "sraw"; Desc 0x10200073 0xffffffff "sret";
    Desc 0x5033 0xfe00707f "srl"; Desc 0x5013 0xfc00707f "srli"; Desc 0x501b 0xfe00707f "srliw";
    Desc 0x503b 0xfe00707f "srlw"; Desc 0x40000033 0xfe00707f "sub"; Desc 0x4000003b 0xfe00707f "subw";
    Desc 0x2023 0x707f "sw"; Desc 0x10500073 0xffffffff "wfi"; Desc 0x4033 0xfe00707f "xor";
    Desc 0x4013 0x707f "xori"
  ]%string.

(** ** The decoder *)

Definition insn_before (l r : insn_desc_t) : Prop :=
  if match_bits l =? match_bits r then mask_bits r < mask_bits l else match_bits r < match_bits l.
#[export] Instance insn_before_dec l r : Decision (insn_before l r).
Proof. unfold insn_before. destruct (_ =? _); apply _. Defined.

Record decoder_t := Decoder { instructions : list insn_desc_t; opcode_cache : Z -> insn_desc_t }.

Definition OPCODE_CACHE_SIZE : Z := 8191.

Definition register_base_instructions : list insn_desc_t := insn_list ++ [illegal_desc].
Definition opcode_map : list insn_desc_t := merge_sort insn_before register_base_instructions.
Definition build_opcode_map : decoder_t := Decoder opcode_map (fun _ => illegal_desc).

Definition matches (bits : Z) (d : insn_desc_t) : bool := Z.land bits (mask_bits d) =? match_bits d.

(** The position of the first entry that matches. *)
Fixpoint find_insn (bits : Z) (l : list insn_desc_t) : option nat :=
  match l with
  | [] => None
  | d :: l => if matches bits d then Some O else S <$> find_insn bits l
  end.

Definition same_match (d : insn_desc_t) (e : option insn_desc_t) : bool :=
  match e with Some e => match_bits e =? match_bits d | None => false end.

Definition move_to_front (p : nat) (d : insn_desc_t) (l : list insn_desc_t) : list insn_desc_t :=
  if negb (mask_bits d =? 0) && (0 <? Z.of_nat p)
     && negb (same_match d (l !! (p - 1)%nat)) && negb (same_match d (l !! S p))
  then d :: take p l ++ drop (S p) l else l.

Definition decode_insn (bits : Z) (s : decoder_t) : option (insn_desc_t * decoder_t) :=
  let idx := bits mod OPCODE_CACHE_SIZE in
  let desc := opcode_cache s idx in
  if bits =? match_bits desc then Some (desc, s)
  else
    p ← find_insn bits (instructions s);
    desc ← instructions s !! p;
    Some (desc, Decoder (move_to_front p desc (instructions s))
                  (fun i => if i =? idx then Desc bits (mask_bits desc) (insn_name desc) else opcode_cache s i)).

(** ** The reference: a search of the sorted list *)

Definition lookup_insn (bits : Z) : insn_desc_t := default illegal_desc (head (filter (fun d => matches bits d) opcode_map)).

(** The decoders that some sequence of lookups leads to. *)
Inductive decoder_reach : decoder_t -> Prop :=
| reach_start : decoder_reach build_opcode_map
| reach_decode bits s d s' : decoder_reach s -> decode_insn bits s = Some (d, s') -> decoder_reach s'.

(** ** Encodings overlap only when they have the same match bits *)

Definition compatible (d e : insn_desc_t) : bool :=
  Z.land (Z.land (Z.lxor (match_bits d) (match_bits e)) (mask_bits d)) (mask_bits e) =? 0.

Definition overlap_ok (d e : insn_desc_t) : bool :=
  (mask_bits d =? 0) || (mask_bits e =? 0) || negb (compatible d e) || (match_bits d =? match_bits e).

Lemma encodings_disjoint : forallb (fun d => forallb (overlap_ok d) opcode_map) opcode_map = true.
Proof. vm_compute. reflexivity. Qed.

Lemma matches_compatible bits d e : matches bits d = true -> matches bits e = true -> compatible d e = true.
Proof.
  unfold matches, compatible. rewrite !Z.eqb_eq. intros <- <-. apply Z.bits_inj'. intros i Hi.
  rewrite !Z.land_spec, Z.lxor_spec, !Z.land_spec, Z.bits_0.
  by destruct (Z.testbit bits i), (Z.testbit (mask_bits d) i), (Z.testbit (mask_bits e) i).
Qed.

Lemma overlap_same d e bits :
  d ∈ opcode_map -> e ∈ opcode_map -> mask_bits d <> 0 -> mask_bits e <> 0 ->
  matches bits d = true -> matches bits e = true -> match_bits d = match_bits e.
Proof.
  intros Hd He Hm Hm' Hb Hb'. pose proof encodings_disjoint as Ho. rewrite forallb_forall in Ho.
  specialize (Ho d). rewrite <-list_elem_of_In in Ho. specialize (Ho Hd). rewrite forallb_forall in Ho.
  specialize (Ho e). rewrite <-list_elem_of_In in Ho. specialize (Ho He).
  unfold overlap_ok in Ho. rewrite (matches_compatible bits d e) in Ho by done. cbn [negb] in Ho.
  rewrite !orb_true_iff, !Z.eqb_eq in Ho. by destruct Ho as [[[?|?]|?]|?].
Qed.

(** ** The list after some moves *)

(** The entries with the same match bits are next to one another. *)
Definition grouped (l : list insn_desc_t) : Prop :=
  forall a b c, sublist [a; b; c] l -> match_bits a = match_bits c -> match_bits b = match_bits a.

Definition search (bits : Z) (l : list insn_desc_t) : option insn_desc_t := find_insn bits l ≫= (l !!.).

Record list_ok (l : list insn_desc_t) : Prop := {
  ok_perm : l ≡ₚ opcode_map;
  ok_last : exists l', l = l' ++ [illegal_desc] /\ Forall (fun d => mask_bits d <> 0) l';
  ok_grouped : grouped l;
  ok_search bits : search bits l = Some (lookup_insn bits);
}.

Lemma search_cons bits d l : search bits (d :: l) = if matches bits d then Some d else search bits l.
Proof. unfold search. cbn [find_insn]. destruct (matches bits d); [done|]. by destruct (find_insn bits l). Qed.

Lemma search_filter bits l : search bits l = head (filter (fun d => matches bits d) l).
Proof.
  induction l as [|d l IH]; [done|]. rewrite search_cons, filter_cons.
  destruct (matches bits d) eqn:E; destruct (decide _); try done; by rewrite ?E in *.
Qed.

Lemma search_app bits l k : search bits (l ++ k) = match search bits l with Some d => Some d | None => search bits k end.
Proof.
  induction l as [|d l IH]; [done|]. cbn [app]. rewrite !search_cons. by destruct (matches bits d).
Qed.

Lemma search_Some bits l d : search bits l = Some d -> d ∈ l /\ matches bits d = true.
Proof.
  induction l as [|e l IH]; [done|]. rewrite search_cons. destruct (matches bits e) eqn:E.
  - intros [= ->]. split; [left|done].
  - intros Hs. destruct (IH Hs). split; [by right|done].
Qed.

Lemma search_last l bits : (exists l', l = l' ++ [illegal_desc]) -> exists d, search bits l = Some d.
Proof.
  intros [l' ->]. rewrite search_app. destruct (search bits l'); [eauto|]. exists illegal_desc.
  rewrite search_cons. unfold matches. cbn. by rewrite Z.land_0_r.
Qed.

(** Sorted by falling match bits. *)
Fixpoint falling (l : list insn_desc_t) : bool :=
  match l with
  | [] => true
  | d :: l => forallb (fun e => match_bits e <=? match_bits d) l && falling l
  end.

Lemma opcode_map_shape :
  opcode_map = removelast opcode_map ++ [illegal_desc]
  /\ forallb (fun d => negb (mask_bits d =? 0)) (removelast opcode_map) = true /\ falling opcode_map = true.
Proof. vm_compute. auto. Qed.

Lemma falling_grouped l : falling l = true -> grouped l.
Proof.
  unfold grouped. induction l as [|d l IH]; intros Hf a b c Hs E; [by apply sublist_nil_r in Hs|].
  cbn [falling] in Hf. rewrite andb_true_iff, forallb_forall in Hf. destruct Hf as [Hd Hf].
  assert (forall e, sublist [e] l -> match_bits e <= match_bits d) as Hle.
  { intros e He. apply Z.leb_le, Hd. apply list_elem_of_In. by apply singleton_sublist_l. }
  inversion Hs as [|? ? ? Hs'|? ? ? Hs']; subst; [|by apply (IH Hf _ _ c)].
  assert (match_bits c <= match_bits b); [|pose proof (Hle b ltac:(etrans; [|exact Hs']; by apply sublist_skip, sublist_nil_l)); lia].
  clear Hs Hle Hd IH E. revert Hf Hs'. clear. induction l as [|e l IH]; intros Hf Hs; [by apply sublist_nil_r in Hs|].
  cbn [falling] in Hf. rewrite andb_true_iff, forallb_forall in Hf. destruct Hf as [He Hf].
  inversion Hs as [|? ? ? Hs'|? ? ? Hs']; subst; [|by apply IH].
  apply Z.leb_le, He. apply list_elem_of_In. by apply singleton_sublist_l.
Qed.

Lemma opcode_map_ok : list_ok opcode_map.
Proof.
  destruct opcode_map_shape as (E & Hm & Hf). split; [done| |by apply falling_grouped|].
  - exists (removelast opcode_map). split; [done|]. apply Forall_forall. intros d Hd.
    rewrite forallb_forall in Hm. specialize (Hm d). rewrite <-list_elem_of_In in Hm. specialize (Hm Hd).
    by rewrite negb_true_iff, Z.eqb_neq in Hm.
  - intros bits. destruct (search_last opcode_map bits) as [d Hd]; [eauto|].
    unfold lookup_insn. rewrite <-search_filter, Hd. done.
Qed.

(** An entry whose neighbours have other match bits is the only one with its own. *)
Lemma alone l1 d l2 :
  grouped (l1 ++ d :: l2) -> l1 <> [] ->
  same_match d ((l1 ++ d :: l2) !! (length l1 - 1)%nat) = false ->
  same_match d ((l1 ++ d :: l2) !! S (length l1)) = false ->
  forall e, e ∈ l1 ++ l2 -> match_bits e <> match_bits d.
Proof.
  intros Hg Hl1 Hp Hn e He E. destruct (exists_last Hl1) as (k & p & ->).
  rewrite length_app, lookup_app_l in Hp by (rewrite length_app; cbn; lia).
  rewrite lookup_app_r in Hp by (cbn; lia). replace (_ - _ - _)%nat with O in Hp by (cbn; lia).
  rewrite lookup_app_r in Hn by lia. replace (S _ - _)%nat with 1%nat in Hn by lia.
  cbn in Hp, Hn. rewrite Z.eqb_neq in Hp. apply elem_of_app in He as [He|He].
  - apply elem_of_app in He as [He|He].
    + apply Hp. rewrite <-E. apply (Hg e p d); [|done]. rewrite <-app_assoc. cbn.
      apply (sublist_app [e] k); [by apply singleton_sublist_l|]. by repeat apply sublist_skip; apply sublist_nil_l.
    + apply list_elem_of_singleton in He as ->. done.
  - destruct l2 as [|q l2]; [by apply not_elem_of_nil in He|]. cbn in Hn. rewrite Z.eqb_neq in Hn.
    apply elem_of_cons in He as [->|He]; [done|]. apply Hn. apply (Hg d q e); [|done].
    apply (sublist_app [] (k ++ [p])); [apply sublist_nil_l|]. do 2 apply sublist_skip. by apply singleton_sublist_l.
Qed.

Lemma move_to_front_ok p d l :
  list_ok l -> l !! p = Some d -> list_ok (move_to_front p d l).
Proof.
  intros Hl Hp. unfold move_to_front. destruct (negb _ && _ && _ && _) eqn:Hc; [|done].
  rewrite !andb_true_iff, !negb_true_iff, Z.eqb_neq, Z.ltb_lt in Hc. destruct Hc as [[[Hm H0] Hprev] Hnext].
  pose proof (take_drop_middle l p d Hp) as El. set (l1 := take p l) in *. set (l2 := drop (S p) l) in *.
  assert (length l1 = p) as Hlen by (apply length_take_le; apply lookup_lt_Some in Hp; lia).
  clearbody l1 l2. subst p l. assert (l1 <> []) as Hl1 by (intros ->; cbn in H0; lia).
  destruct Hl as [Hperm (l' & Elast & Hl') Hg Hs].
  pose proof (alone l1 d l2 Hg Hl1 Hprev Hnext) as Ha.
  assert (exists k, l2 = k ++ [illegal_desc] /\ Forall (fun d => mask_bits d <> 0) (l1 ++ d :: k)) as (k & -> & Hk).
  { clear -Elast Hm Hl'. destruct l2 as [|z k _] using rev_ind.
    - apply app_inj_tail in Elast as [-> ->]. done.
    - rewrite app_comm_cons, app_assoc in Elast. apply app_inj_tail in Elast as [<- ->]. by exists k. }
  split.
  - rewrite <-Hperm. by apply Permutation_middle.
  - exists (d :: l1 ++ k). split; [by rewrite <-app_comm_cons, <-app_assoc|].
    apply Forall_app in Hk as [Hk1 [_ Hk2]%Forall_cons_1]. rewrite Forall_cons, Forall_app. done.
  - intros a b c Hsub E. inversion Hsub as [|? ? ? Hsub'|? ? ? Hsub']; subst.
    + exfalso. apply (Ha c); [|done]. apply singleton_sublist_l. etrans; [|exact Hsub']. by apply sublist_cons.
    + apply (Hg a b c); [|done]. etrans; [exact Hsub'|]. by apply sublist_app, sublist_cons.
  - intros bits. rewrite <-Hs, search_cons, (search_app bits l1 (k ++ _)), (search_app bits l1 (d :: _)), (search_cons bits d).
    destruct (matches bits d) eqn:Hd.
    + destruct (search bits l1) as [e|] eqn:He; [|done]. apply search_Some in He as [He Hb]. exfalso.
      apply (Ha e); [by apply elem_of_app; left|]. apply (overlap_same e d bits); [| | |done|done|done].
      * rewrite <-Hperm. apply elem_of_app. by left.
      * rewrite <-Hperm. apply elem_of_app. right. by left.
      * apply Forall_app in Hk as [Hk _]. rewrite Forall_forall in Hk. by apply Hk.
    + done.
Qed.

(** ** The cache *)

(** What lookups of a word may give: the instruction of the search, and at first
    the illegal instruction for 0. *)
Definition decoded (bits : Z) (name : string) : Prop :=
  name = insn_name (lookup_insn bits) \/ bits = 0 /\ name = insn_name illegal_desc.

Record decoder_ok (s : decoder_t) : Prop := {
  ok_instructions : list_ok (instructions s);
  ok_cache i : decoded (match_bits (opcode_cache s i)) (insn_name (opcode_cache s i));
}.

Lemma decode_step s bits :
  decoder_ok s -> exists d s', decode_insn bits s = Some (d, s') /\ decoded bits (insn_name d) /\ decoder_ok s'.
Proof.
  intros [Hl Hc]. unfold decode_insn. destruct (Z.eqb_spec bits (match_bits (opcode_cache s (bits mod OPCODE_CACHE_SIZE)))) as [E|E].
  - eexists _, _. split; [done|]. split; [|by split]. rewrite E at 1. apply Hc.
  - pose proof (ok_search _ Hl bits) as Hs. unfold search in Hs.
    destruct (find_insn bits (instructions s)) as [p|]; [|done]. cbn in Hs |- *. rewrite Hs. cbn.
    eexists _, _. split; [done|]. split; [by left|]. split; cbn.
    + by apply move_to_front_ok.
    + intros i. destruct (_ =? _); [by left|apply Hc].
Qed.

Lemma build_ok : decoder_ok build_opcode_map.
Proof. split; [apply opcode_map_ok|]. intros i. right. done. Qed.

Lemma reach_ok s : decoder_reach s -> decoder_ok s.
Proof.
  induction 1 as [|bits s d s' _ IH E]; [apply build_ok|].
  destruct (decode_step s bits IH) as (? & ? & E' & _ & ?). by simplify_eq.
Qed.

(** C13: whatever was decoded before, [decode_insn] finds an instruction, and it
    is the one that the list in its first order, sorted by falling match and
    mask, finds; 0, which stands in the empty entries of the cache, may also
    give the illegal instruction.  The moves to the front never bring an entry
    before an overlapping one that has more fixed bits. *)
Theorem decode_insn_finds s bits :
  decoder_reach s ->
  exists d s', decode_insn bits s = Some (d, s') /\ decoder_reach s' /\
    (bits <> 0 -> insn_name d = insn_name (lookup_insn bits)) /\
    (bits = 0 -> insn_name d = insn_name illegal_desc \/ insn_name d = "c_addi4spn"%string).
Proof.
  intros Hr. destruct (decode_step s bits (reach_ok s Hr)) as (d & s' & E & Hd & _). exists d, s'.
  split; [done|]. split; [by eapply reach_decode|]. split.
  - intros Hb. by destruct Hd as [|[]].
  - intros ->. destruct Hd as [->|[_ ->]]; [right|by left]. vm_compute. reflexivity.
Qed.

(** An add on the fresh decoder. *)
Lemma decode_insn_finds_witness :
  exists d s', decode_insn 0x33 build_opcode_map = Some (d, s') /\ decoder_reach s' /\
    (0x33 <> 0 -> insn_name d = insn_name (lookup_insn 0x33)) /\
    (0x33 = 0 -> insn_name d = insn_name illegal_desc \/ insn_name d = "c_addi4spn"%string).
Proof. apply (decode_insn_finds build_opcode_map 0x33). apply reach_start. Defined.
