(* ===== verification/SpikeStep.v ===== *)
(** * Spike: fetch, decode, execute

    [processor_t::step] of execute.cc on its slow path, which is the one taken
    with logging or under the debugger, over the decoder and all instructions.
    The fast path, an unrolled loop over the instruction cache, is left out. *)

From Stdlib Require Import ZArith Lia.
From stdpp Require Import base tactics list numbers strings.
From coqutil Require Import Datatypes.RecordSetters.
Import OCamlLikeNotations.
From S2P Require Import Prelude SoftFloat Spike SpikeAlu SpikeFp SpikeCsr SpikeMmu SpikeMem SpikeRvc SpikeDecode.

(** ** The functions of the instructions *)

(** Quadruple precision: the model stops after the test that every one of these
    instructions begins with, which fails on a hart without the extension. *)
Definition rv_quad (insn : Z) : Exec unit := require_extension ext_Q;; abort.

Definition insn_table `{Config} : list (string * (Z * (Z -> Exec unit))) :=
  [
    ("add", (0x33, rv_add)); ("addi", (0x13, rv_addi)); ("addiw", (0x1b, rv_addiw)); ("addw", (0x3b, rv_addw));
    ("amoadd_d", (0x302f, rv_amoadd_d)); ("amoadd_w", (0x202f, rv_amoadd_w));
    ("amoand_d", (0x6000302f, rv_amoand_d)); ("amoand_w", (0x6000202f, rv_amoand_w));
    ("amomax_d", (0xa000302f, rv_amomax_d)); ("amomaxu_d", (0xe000302f, rv_amomaxu_d));
    ("amomaxu_w", (0xe000202f, rv_amomaxu_w)); ("amomax_w", (0xa000202f, rv_amomax_w));
    ("amomin_d", (0x8000302f, rv_amomin_d)); ("amominu_d", (0xc000302f, rv_amominu_d));
    ("amominu_w", (0xc000202f, rv_amominu_w)); ("amomin_w", (0x8000202f, rv_amomin_w));
    ("amoor_d", (0x4000302f, rv_amoor_d)); ("amoor_w", (0x4000202f, rv_amoor_w));
    ("amoswap_d", (0x800302f, rv_amoswap_d)); ("amoswap_w", (0x800202f, rv_amoswap_w));
    ("amoxor_d", (0x2000302f, rv_amoxor_d)); ("amoxor_w", (0x2000202f, rv_amoxor_w)); ("and", (0x7033, rv_and));
    ("andi", (0x7013, rv_andi)); ("auipc", (0x17, rv_auipc)); ("beq", (0x63, rv_beq));
    ("bge", (0x5063, rv_bge)); ("bgeu", (0x7063, rv_bgeu)); ("blt", (0x4063, rv_blt));
    ("bltu", (0x6063, rv_bltu)); ("bne", (0x1063, rv_bne)); ("c_add", (0x9002, rv_c_add));
    ("c_addi4spn", (0x0, rv_c_addi4spn)); ("c_addi", (0x1, rv_c_addi)); ("c_addw", (0x9c21, rv_c_addw));
    ("c_and", (0x8c61, rv_c_and)); ("c_andi", (0x8801, rv_c_andi)); ("c_beqz", (0xc001, rv_c_beqz));
    ("c_bnez", (0xe001, rv_c_bnez)); ("c_ebreak", (0x9002, fun _ => rv_c_ebreak));
    ("c_fld", (0x2000, rv_c_fld)); ("c_fldsp", (0x2002, rv_c_fldsp)); ("c_flw", (0x6000, rv_c_flw));
    ("c_flwsp", (0x6002, rv_c_flwsp)); ("c_fsd", (0xa000, rv_c_fsd)); ("c_fsdsp", (0xa002, rv_c_fsdsp));
    ("c_fsw", (0xe000, rv_c_fsw)); ("c_fswsp", (0xe002, rv_c_fswsp)); ("c_jal", (0x2001, rv_c_jal));
    ("c_jalr", (0x9002, rv_c_jalr)); ("c_j", (0xa001, rv_c_j)); ("c_jr", (0x8002, rv_c_jr));
    ("c_li", (0x4001, rv_c_li)); ("c_lui", (0x6001, rv_c_lui)); ("c_lw", (0x4000, rv_c_lw));
    ("c_lwsp", (0x4002, rv_c_lwsp)); ("c_mv", (0x8002, rv_c_mv)); ("c_or", (0x8c41, rv_c_or));
    ("c_slli", (0x2, rv_c_slli)); ("c_srai", (0x8401, rv_c_srai)); ("c_srli", (0x8001, rv_c_srli));
    ("c_sub", (0x8c01, rv_c_sub)); ("c_subw", (0x9c01, rv_c_subw)); ("c_xor", (0x8c21, rv_c_xor));
    ("csrrc", (0x3073, rv_csrrc)); ("csrrci", (0x7073, rv_csrrci)); ("csrrs", (0x2073, rv_csrrs));
    ("csrrsi", (0x6073, rv_csrrsi)); ("csrrw", (0x1073, rv_csrrw)); ("csrrwi", (0x5073, rv_csrrwi));
    ("c_sw", (0xc000, rv_c_sw)); ("c_swsp", (0xc002, rv_c_swsp)); ("div", (0x2004033, rv_div));
    ("divu", (0x2005033, rv_divu)); ("divuw", (0x200503b, rv_divuw)); ("divw", (0x200403b, rv_divw));
    ("dret", (0x7b200073, rv_dret)); ("ebreak", (0x100073, rv_ebreak)); ("ecall", (0x73, rv_ecall));
    ("fadd_d", (0x2000053, rv_fadd_d)); ("fadd_q", (0x6000053, rv_quad)); ("fadd_s", (0x53, rv_fadd_s));
    ("fclass_d", (0xe2001053, rv_fclass_d)); ("fclass_q", (0xe6001053, rv_quad));
    ("fclass_s", (0xe0001053, rv_fclass_s)); ("fcvt_d_l", (0xd2200053, rv_fcvt_d_l));
    ("fcvt_d_lu", (0xd2300053, rv_fcvt_d_lu)); ("fcvt_d_q", (0x42300053, rv_quad));
    ("fcvt_d_s", (0x42000053, rv_fcvt_d_s)); ("fcvt_d_w", (0xd2000053, rv_fcvt_d_w));
    ("fcvt_d_wu", (0xd2100053, rv_fcvt_d_wu)); ("fcvt_l_d", (0xc2200053, rv_fcvt_l_d));
    ("fcvt_l_q", (0xc6200053, rv_quad)); ("fcvt_l_s", (0xc0200053, rv_fcvt_l_s));
    ("fcvt_lu_d", (0xc2300053, rv_fcvt_lu_d)); ("fcvt_lu_q", (0xc6300053, rv_quad));
    ("fcvt_lu_s", (0xc0300053, rv_fcvt_lu_s)); ("fcvt_q_d", (0x46100053, rv_quad));
    ("fcvt_q_l", (0xd6200053, rv_quad)); ("fcvt_q_lu", (0xd6300053, rv_quad));
    ("fcvt_q_s", (0x46000053, rv_quad)); ("fcvt_q_w", (0xd6000053, rv_quad));
    ("fcvt_q_wu", (0xd6100053, rv_quad)); ("fcvt_s_d", (0x40100053, rv_fcvt_s_d));
    ("fcvt_s_l", (0xd0200053, rv_fcvt_s_l)); ("fcvt_s_lu", (0xd0300053, rv_fcvt_s_lu));
    ("fcvt_s_q", (0x40300053, rv_quad)); ("fcvt_s_w", (0xd0000053, rv_fcvt_s_w));
    ("fcvt_s_wu", (0xd0100053, rv_fcvt_s_wu)); ("fcvt_w_d", (0xc2000053, rv_fcvt_w_d));
    ("fcvt_w_q", (0xc6000053, rv_quad)); ("fcvt_w_s", (0xc0000053, rv_fcvt_w_s));
    ("fcvt_wu_d", (0xc2100053, rv_fcvt_wu_d)); ("fcvt_wu_q", (0xc6100053, rv_quad));
    ("fcvt_wu_s", (0xc0100053, rv_fcvt_wu_s)); ("fdiv_d", (0x1a000053, rv_fdiv_d));
    ("fdiv_q", (0x1e000053, rv_quad)); ("fdiv_s", (0x18000053, rv_fdiv_s)); ("fence", (0xf, fun _ => rv_fence));
    ("fence_i", (0x100f, fun _ => rv_fence_i)); ("feq_d", (0xa2002053, rv_feq_d));
    ("feq_q", (0xa6002053, rv_quad)); ("feq_s", (0xa0002053, rv_feq_s)); ("fld", (0x3007, rv_fld));
    ("fle_d", (0xa2000053, rv_fle_d)); ("fle_q", (0xa6000053, rv_quad)); ("fle_s", (0xa0000053, rv_fle_s));
    ("flq", (0x4007, rv_flq)); ("flt_d", (0xa2001053, rv_flt_d)); ("flt_q", (0xa6001053, rv_quad));
    ("flt_s", (0xa0001053, rv_flt_s)); ("flw", (0x2007, rv_flw)); ("fmadd_d", (0x2000043, rv_fmadd_d));
    ("fmadd_q", (0x6000043, rv_quad)); ("fmadd_s", (0x43, rv_fmadd_s)); ("fmax_d", (0x2a001053, rv_fmax_d));
    ("fmax_q", (0x2e001053, rv_quad)); ("fmax_s", (0x28001053, rv_fmax_s)); ("fmin_d", (0x2a000053, rv_fmin_d));
    ("fmin_q", (0x2e000053, rv_quad)); ("fmin_s", (0x28000053, rv_fmin_s));
    ("fmsub_d", (0x2000047, rv_fmsub_d)); ("fmsub_q", (0x6000047, rv_quad)); ("fmsub_s", (0x47, rv_fmsub_s));
    ("fmul_d", (0x12000053, rv_fmul_d)); ("fmul_q", (0x16000053, rv_quad)); ("fmul_s", (0x10000053, rv_fmul_s));
    ("fmv_d_x", (0xf2000053, rv_fmv_d_x)); ("fmv_w_x", (0xf0000053, rv_fmv_w_x));
    ("fmv_x_d", (0xe2000053, rv_fmv_x_d)); ("fmv_x_w", (0xe0000053, rv_fmv_x_w));
    ("fnmadd_d", (0x200004f, rv_fnmadd_d)); ("fnmadd_q", (0x600004f, rv_quad));
    ("fnmadd_s", (0x4f, rv_fnmadd_s)); ("fnmsub_d", (0x200004b, rv_fnmsub_d));
    ("fnmsub_q", (0x600004b, rv_quad)); ("fnmsub_s", (0x4b, rv_fnmsub_s)); ("fsd", (0x3027, rv_fsd));
    ("fsgnj_d", (0x22000053, rv_fsgnj_d)); ("fsgnj_q", (0x26000053, rv_quad));
    ("fsgnjn_d", (0x22001053, rv_fsgnjn_d)); ("fsgnjn_q", (0x26001053, rv_quad));
    ("fsgnjn_s", (0x20001053, rv_fsgnjn_s)); ("fsgnj_s", (0x20000053, rv_fsgnj_s));
    ("fsgnjx_d", (0x22002053, rv_fsgnjx_d)); ("fsgnjx_q", (0x26002053, rv_quad));
    ("fsgnjx_s", (0x20002053, rv_fsgnjx_s)); ("fsq", (0x4027, rv_fsq)); ("fsqrt_d", (0x5a000053, rv_fsqrt_d));
    ("fsqrt_q", (0x5e000053, rv_quad)); ("fsqrt_s", (0x58000053, rv_fsqrt_s));
    ("fsub_d", (0xa000053, rv_fsub_d)); ("fsub_q", (0xe000053, rv_quad)); ("fsub_s", (0x8000053, rv_fsub_s));
    ("fsw", (0x2027, rv_fsw)); ("jal", (0x6f, rv_jal)); ("jalr", (0x67, rv_jalr)); ("lb", (0x3, rv_lb));
    ("lbu", (0x4003, rv_lbu)); ("ld", (0x3003, rv_ld)); ("lh", (0x1003, rv_lh)); ("lhu", (0x5003, rv_lhu));
    ("lr_d", (0x1000302f, rv_lr_d)); ("lr_w", (0x1000202f, rv_lr_w)); ("lui", (0x37, rv_lui));
    ("lw", (0x2003, rv_lw)); ("lwu", (0x6003, rv_lwu)); ("mret", (0x30200073, rv_mret));
    ("mul", (0x2000033, rv_mul)); ("mulh", (0x2001033, rv_mulh)); ("mulhsu", (0x2002033, rv_mulhsu));
    ("mulhu", (0x2003033, rv_mulhu)); ("mulw", (0x200003b, rv_mulw)); ("or", (0x6033, rv_or));
    ("ori", (0x6013, rv_ori)); ("rem", (0x2006033, rv_rem)); ("remu", (0x2007033, rv_remu));
    ("remuw", (0x200703b, rv_remuw)); ("remw", (0x200603b, rv_remw)); ("sb", (0x23, rv_sb));
    ("sc_d", (0x1800302f, rv_sc_d)); ("sc_w", (0x1800202f, rv_sc_w)); ("sd", (0x3023, rv_sd));
    ("sfence_vma", (0x12000073, rv_sfence_vma)); ("sh", (0x1023, rv_sh)); ("sll", (0x1033, rv_sll));
    ("slli", (0x1013, rv_slli)); ("slliw", (0x101b, rv_slliw)); ("sllw", (0x103b, rv_sllw));
    ("slt", (0x2033, rv_slt)); ("slti", (0x2013, rv_slti)); ("sltiu", (0x3013, rv_sltiu));
    ("sltu", (0x3033, rv_sltu)); ("sra", (0x40005033, rv_sra)); ("srai", (0x40005013, rv_srai));
    ("sraiw", (0x4000501b, rv_sraiw)); ("sraw", (0x4000503b, rv_sraw)); ("sret", (0x10200073, rv_sret));
    ("srl", (0x5033, rv_srl)); ("srli", (0x5013, rv_srli)); ("srliw", (0x501b, rv_srliw));
    ("srlw", (0x503b, rv_srlw)); ("sub", (0x40000033, rv_sub)); ("subw", (0x4000003b, rv_subw));
    ("sw", (0x2023, rv_sw)); ("wfi", (0x10500073, rv_wfi)); ("xor", (0x4033, rv_xor));
    ("xori", (0x4013, rv_xori))
  ]%string.

(** rv32_NAME or rv64_NAME, and [illegal_instruction]. *)
Definition insn_func `{Config} (name : string) (bits : Z) : Exec Z :=
  match find (fun e => String.eqb e.1 name) insn_table with
  | Some (_, (opcode, body)) => rv_insn opcode (body bits)
  | None => throw (trap_illegal_instruction 0)
  end.

(** ** The loop *)

Definition DCSR_CAUSE_HWBP : Z := 2.
Definition DCSR_CAUSE_DEBUGINT : Z := 3.
Definition DCSR_CAUSE_STEP : Z := 4.
Definition DCSR_CAUSE_HALT : Z := 5.
Definition DEBUG_END : Z := 0x1000 - 1.
Definition ACTION_DEBUG_EXCEPTION : Z := 0.
Definition ACTION_DEBUG_MODE : Z := 1.

#[export] Instance single_step_eq_dec : EqDecision single_step_t.
Proof. solve_decision. Defined.

Section Step.
Context `{Config}.

(** [advance_pc]: go on, break out of the loop, or abort. *)
Inductive advance_t := Next (instret : Z) | Break (instret n : Z) | Bad.
Definition advance_pc (pc instret n : Z) (s : state_t) : advance_t * state_t :=
  if Z.odd pc then
    if pc =? PC_SERIALIZE_BEFORE then (Break instret n, { s with serialized := true })
    else if pc =? PC_SERIALIZE_AFTER then (Break (instret + 1) n, s)
    else if pc =? PC_SERIALIZE_WFI then (Break (instret + 1) (instret + 1), s)
    else (Bad, s)
  else (Next (instret + 1), { s with Spike.pc := pc }).

(** How the try block ends: after a break, by an exception, which finds [pc] and
    [instret] as they are, by the return to the debugger, or by abort. *)
Inductive block_t :=
| Left (instret n : Z) (s : state_t)
| Thrown (t : trap_t) (pc instret : Z) (s : state_t)
| Triggered (t : trigger_matched_t) (pc instret n : Z) (s : state_t)
| Returned (s : state_t)
| Aborted (s : state_t).

(** [while (instret < n)] of the slow path, [k] times at most; the instruction
    executed is the one fetched before the loop. *)
Fixpoint slow_loop (k : nat) (f : Exec Z) (pc instret n : Z) (s : state_t) : block_t :=
  match k with
  | O => Left instret n s
  | S k =>
      let stepped := negb (serialized s) && bool_decide (single_step s = STEP_STEPPED) in
      let s := if stepped then { s with single_step := STEP_NONE } else s in
      if stepped && (dcsr_cause (dcsr s) =? 0) then Left instret n (enter_debug_mode DCSR_CAUSE_STEP s)
      else
        let s := if decide (single_step s = STEP_STEPPING) then { s with single_step := STEP_STEPPED } else s in
        match f s with
        | Throw t s => Thrown t pc instret s
        | Trigger t s => Triggered t pc instret n s
        | Abort s => Aborted s
        | Done pc s =>
            match advance_pc pc instret n s with
            | (Bad, s) => Aborted s
            | (Break instret n, s) => Left instret n s
            | (Next instret, s) =>
                if (DEBUG_ROM_ENTRY <=? Spike.pc s) && (Spike.pc s <? DEBUG_END) then Returned s
                else slow_loop k f pc instret n s
            end
        end
  end.

Definition machine_t : Type := state_t * decoder_t.

(** [load_insn]: fetch and decode. *)
Definition load_insn (addr : Z) (m : machine_t) : result (Z * string) * decoder_t :=
  let '(s, d) := m in
  match fetch_insn addr s with
  | Done bits s =>
      match decode_insn bits d with
      | Some (desc, d) => (Done (bits, insn_name desc) s, d)
      | None => (Abort s, d)
      end
  | Throw t s => (Throw t s, d)
  | Trigger t s => (Trigger t s, d)
  | Abort s => (Abort s, d)
  end.

Definition is_amo (bits : Z) : bool := Z.land bits 0x2f =? 0x2f.

Definition try_block (n : Z) (m : machine_t) : block_t * decoder_t :=
  let pc := Spike.pc m.1 in
  match load_insn pc m with
  | (Done (bits, name) s, d) =>
      match (if is_amo bits then mret tt else take_pending_interrupt) s with
      | Done _ s => (slow_loop (Z.to_nat n) (insn_func name bits) pc 0 n s, d)
      | Throw t s => (Thrown t pc 0 s, d)
      | Trigger t s => (Triggered t pc 0 n s, d)
      | Abort s => (Aborted s, d)
      end
  | (Throw t s, d) => (Thrown t pc 0 s, d)
  | (Trigger t s, d) => (Triggered t pc 0 n s, d)
  | (Abort s, d) => (Aborted s, d)
  end.

Definition after_trap (t : trap_t) (epc : Z) (s : state_t) : state_t :=
  let s := take_trap t epc s in
  if decide (single_step s = STEP_STEPPED) then enter_debug_mode DCSR_CAUSE_STEP { s with single_step := STEP_NONE }
  else s.

(** The rest of the handler of [trigger_matched_t]. *)
Definition trigger_action (t : trigger_matched_t) (pc : Z) (s : state_t) : option state_t :=
  let action := mc_action (mcontrol s !!! Z.to_nat (tm_index t)) in
  if action =? ACTION_DEBUG_MODE then Some (enter_debug_mode DCSR_CAUSE_HWBP s)
  else if action =? ACTION_DEBUG_EXCEPTION then Some (take_trap (Trap CAUSE_BREAKPOINT (tm_address t)) pc s)
  else None.

(** One iteration of [while (n > 0)]: go on with what is left of [n], leave the
    loop without the final accounts, return, abort, or an exception of a handler. *)
Inductive iter_t := Go (n : Z) | Quit | Give_up | Uncaught.

Definition account (instret n : Z) (s : state_t) : iter_t * state_t :=
  (Go (n - instret), { s with minstret ::= fun v => u64 (v + instret) }).

Definition on_trigger (t : trigger_matched_t) (pc instret n : Z) (m : machine_t) : iter_t * machine_t :=
  let '(s, d) := m in
  let finish pc instret (s : state_t) d :=
    match trigger_action t pc s with
    | Some s => let '(i, s) := account instret n s in (i, (s, d))
    | None => (Give_up, (s, d))
    end in
  match matched_trigger (mmu s) with
  | None => finish pc instret s d
  | Some _ =>
      match load_insn pc (s, d) with
      | (Done (bits, name) s, d) =>
          match insn_func name bits s with
          | Done pc s =>
              match advance_pc pc instret n s with
              | (Bad, s) => (Give_up, (s, d))
              | (Break _ _, s) => (Quit, (s, d))
              | (Next instret, s) => finish pc instret { s with mmu -> matched_trigger := None } d
              end
          | Throw _ s | Trigger _ s => (Uncaught, (s, d))
          | Abort s => (Give_up, (s, d))
          end
      | (Throw _ s, d) | (Trigger _ s, d) => (Uncaught, (s, d))
      | (Abort s, d) => (Give_up, (s, d))
      end
  end.

Definition step_iter (n : Z) (m : machine_t) : iter_t * machine_t :=
  match try_block n m with
  | (Left instret n s, d) => let '(i, s) := account instret n s in (i, (s, d))
  | (Thrown t pc instret s, d) => let '(i, s) := account instret instret (after_trap t pc s) in (i, (s, d))
  | (Triggered t pc instret n s, d) => on_trigger t pc instret n (s, d)
  | (Returned s, d) => (Quit, (s, d))
  | (Aborted s, d) => (Give_up, (s, d))
  end.

(** How [step] ends. *)
Inductive end_t := Finished | Died | Escaped.

Fixpoint step_loop (fuel : nat) (n : Z) (m : machine_t) : option (end_t * machine_t) :=
  if negb (0 <? n) then Some (Finished, m)
  else
    match fuel with
    | O => None
    | S fuel =>
        match step_iter n m with
        | (Go n, m) => step_loop fuel n m
        | (Quit, m) => Some (Finished, m)
        | (Give_up, m) => Some (Died, m)
        | (Uncaught, m) => Some (Escaped, m)
        end
    end.

Definition step_entry (halt_request : bool) (s : state_t) : state_t :=
  if dcsr_cause (dcsr s) =? 0 then
    if halt_request then enter_debug_mode DCSR_CAUSE_DEBUGINT s
    else if dcsr_halt (dcsr s) then enter_debug_mode DCSR_CAUSE_HALT s
    else s
  else s.

Definition step (fuel : nat) (halt_request : bool) (n : Z) (m : machine_t) : option (end_t * machine_t) :=
  step_loop fuel n (step_entry halt_request m.1, m.2).
End Step.

(** ** The instruction of the slow loop *)

Section Rerun.
Context `{Config}.

(** [k] ordinary runs in a row of one instruction, each from the state the last
    one left: it goes on to an even address outside debug memory, and no single
    step is under way. *)
Inductive reruns (f : Exec Z) : nat -> state_t -> state_t -> Prop :=
| reruns_O s : reruns f O s s
| reruns_S k s npc s1 s2 :
    single_step s = STEP_NONE -> f s = Done npc s1 -> Z.odd npc = false ->
    ~ DEBUG_ROM_ENTRY <= npc < DEBUG_END ->
    reruns f k { s1 with pc := npc } s2 -> reruns f (S k) s s2.

Lemma reruns_loop f k s s2 p i n :
  reruns f k s s2 -> slow_loop k f p i n s = Left (i + Z.of_nat k) n s2.
Proof.
  intros Hr. revert p i. induction Hr as [s|k s npc s1 s2 Hs Hf Ho Hd _ IH]; intros p i; cbn [slow_loop].
  - f_equal. lia.
  - rewrite bool_decide_eq_false_2, andb_false_r by (by rewrite Hs). cbn [andb]. cbv zeta.
    rewrite decide_False by (by rewrite Hs). rewrite Hf. unfold advance_pc. rewrite Ho.
    change (Spike.pc { s1 with pc := npc }) with npc.
    destruct (Z.leb_spec DEBUG_ROM_ENTRY npc), (Z.ltb_spec npc DEBUG_END); cbn [andb]; try lia; rewrite IH; f_equal; lia.
Qed.

End Rerun.

(** Two additions, [addi x1, x1, 1] and [addi x1, x1, 2], at the start of memory. *)
Section Reexecution.
Local Existing Instance rv64_config.

Definition two_adds : machine_t :=
  ({ processor_reset false blank with pc := 0x80000000;
     mem := write_bytes (write_bytes (fun _ => 0) 0x80000000 (le_split 4 0x00108093)) 0x80000004 (le_split 4 0x00208093) },
   build_opcode_map).

Definition steps (n : Z) (r : option (end_t * machine_t)) : option (end_t * machine_t) :=
  match r with Some (Finished, m) => step 2 false n m | _ => r end.
Definition x1_after (r : option (end_t * machine_t)) : option Z :=
  match r with Some (Finished, (s, _)) => Some (XPR s !!! 1%nat) | _ => None end.

(** The machine after the first instruction is fetched, and runs of it. *)
Definition fetched : machine_t :=
  match load_insn 0x80000000 two_adds with (Done _ s, d) => (s, d) | _ => two_adds end.
Definition run_add (s : state_t) : state_t :=
  match insn_func "addi" 0x00108093 s with Done npc s => { s with pc := npc } | _ => s end.
Definition run_twice : state_t := run_add (run_add fetched.1).

End Reexecution.
