(* ===== verification/SpikeLogic.v ===== *)
(** * Spike: what instructions leave alone

    A small program logic for [Exec]: [triple I m Q] says that [m] keeps the
    invariant [I] however it ends, and gives a value with [Q] when it returns.
    The lemmas on memory accesses and on the instructions are about the
    invariants that only depend on what a user program cannot change. *)

From Stdlib Require Import ZArith Lia.
From stdpp Require Import base tactics list numbers strings.
From coqutil Require Import Datatypes.RecordSetters.
Import OCamlLikeNotations.
From S2P Require Import Prelude SoftFloat Spike SpikeAlu SpikeFp SpikeCsr SpikeMmu SpikeMem SpikeRvc SpikeDecode SpikeStep.

(** ** Triples *)

Definition triple {A} (I : state_t -> Prop) (m : Exec A) (Q : A -> Prop) : Prop :=
  forall s, I s ->
  match m s with
  | Done a s => I s /\ Q a
  | Throw _ s | Trigger _ s | Abort s => I s
  end.
Definition keeps {A} (I : state_t -> Prop) (m : Exec A) : Prop := triple I m (fun _ => True).

Section Rules.
Context (I : state_t -> Prop).

Lemma triple_bind {A B} (m : Exec A) (k : A -> Exec B) Q R :
  triple I m Q -> (forall a, Q a -> triple I (k a) R) -> triple I (m ≫= k) R.
Proof.
  intros Hm Hk s Hs. unfold mbind, Exec_bind. specialize (Hm s Hs).
  destruct (m s); [|done..]. destruct Hm. by apply Hk.
Qed.

Lemma triple_weaken {A} (m : Exec A) (Q R : A -> Prop) :
  triple I m Q -> (forall a, Q a -> R a) -> triple I m R.
Proof. intros Hm Hq s Hs. specialize (Hm s Hs). destruct (m s); [|done..]. destruct Hm. split; auto. Qed.

Lemma keeps_triple {A} (m : Exec A) Q : triple I m Q -> keeps I m.
Proof. intros Hm. by eapply triple_weaken. Qed.

Lemma keeps_bind {A B} (m : Exec A) (k : A -> Exec B) :
  keeps I m -> (forall a, keeps I (k a)) -> keeps I (m ≫= k).
Proof. intros Hm Hk. eapply triple_bind; [exact Hm|]. intros a _. apply Hk. Qed.

Lemma keeps_ret {A} (a : A) : keeps I (mret a).
Proof. by intros s Hs. Qed.
Lemma keeps_gets {A} (f : state_t -> A) : keeps I (gets f).
Proof. by intros s Hs. Qed.
Lemma keeps_throw {A} t : keeps I (throw (A := A) t).
Proof. by intros s Hs. Qed.
Lemma keeps_throw_trigger {A} t : keeps I (throw_trigger (A := A) t).
Proof. by intros s Hs. Qed.
Lemma keeps_abort {A} : keeps I (abort (A := A)).
Proof. by intros s Hs. Qed.
Lemma keeps_puts f : (forall s, I s -> I (f s)) -> keeps I (puts f).
Proof. intros Hf s Hs. split; [by apply Hf|done]. Qed.
Lemma keeps_require b : keeps I (require b).
Proof. destruct b; [apply keeps_ret|apply keeps_throw]. Qed.
Lemma keeps_when b m : keeps I m -> keeps I (when b m).
Proof. destruct b; [done|intros _; apply keeps_ret]. Qed.
Lemma keeps_as_store_fault {A} (m : Exec A) : keeps I m -> keeps I (as_store_fault m).
Proof. intros Hm s Hs. specialize (Hm s Hs). unfold as_store_fault. by destruct (m s). Qed.
End Rules.

Create HintDb keeps.
#[export] Hint Resolve keeps_ret keeps_gets keeps_throw keeps_throw_trigger keeps_abort keeps_require : keeps.

(** Takes a program apart; [auto] closes what is left with the lemmas of the base. *)
Ltac keeps_step :=
  first
    [ solve [auto with keeps nocore]
    | apply keeps_bind; [|intros]
    | apply keeps_when
    | apply keeps_as_store_fault
    | match goal with |- keeps _ (if ?b then _ else _) => destruct b end
    | match goal with |- keeps _ (match ?x with _ => _ end) => destruct x end
    | progress cbv zeta ].
Ltac keeps := repeat keeps_step.

(** ** What a user program can change *)

Definition no_mmu : mmu_t := Mmu (fun _ => 0) (fun _ => 0) (fun _ => 0) (fun _ => 0) 0 false false false None.

(** The state without the registers, the program counter, memory and its
    translation cache, devices and the mark for reads of control registers. *)
Definition frame (s : state_t) : state_t :=
  { s with pc := 0; npc := 0; XPR := nil; serialized := false; mmu := no_mmu; mem := (fun _ => 0); io := nil }.

(** Invariants of the rest. *)
Class FrameInv (I : state_t -> Prop) : Prop := frame_inv : forall s s', frame s' = frame s -> I s -> I s'.

Section Frame.
Context `{Config} (I : state_t -> Prop) `{!FrameInv I}.

Lemma keeps_frame f : (forall s, frame (f s) = frame s) -> keeps I (puts f).
Proof. intros Hf. apply keeps_puts. intros s. by apply frame_inv. Qed.

Lemma keeps_require_privilege p : keeps I (require_privilege p).
Proof. unfold require_privilege. keeps. Qed.
Lemma keeps_require_rv64 : keeps I require_rv64.
Proof. unfold require_rv64. keeps. Qed.
Lemma keeps_require_extension e : keeps I (require_extension e).
Proof. unfold require_extension. keeps. Qed.
Lemma keeps_require_fp : keeps I require_fp.
Proof. unfold require_fp. keeps. Qed.
Lemma keeps_READ_REG i : keeps I (READ_REG i).
Proof. unfold READ_REG. keeps. Qed.
Lemma keeps_READ_FREG i : keeps I (READ_FREG i).
Proof. unfold READ_FREG. keeps. Qed.
Lemma keeps_WRITE_REG i v : keeps I (WRITE_REG i v).
Proof. unfold WRITE_REG. keeps. by apply keeps_frame. Qed.
Lemma keeps_set_npc v : keeps I (set_npc v).
Proof. by apply keeps_frame. Qed.
Lemma keeps_set_pc v : keeps I (set_pc v).
Proof. unfold set_pc, check_pc_alignment. keeps. apply keeps_set_npc. Qed.
Lemma keeps_set_pc_and_serialize v : keeps I (set_pc_and_serialize v).
Proof. by apply keeps_frame. Qed.

Hint Resolve keeps_require_privilege keeps_require_rv64 keeps_require_extension keeps_require_fp keeps_READ_REG
  keeps_READ_FREG keeps_WRITE_REG keeps_set_npc keeps_set_pc keeps_set_pc_and_serialize : keeps.

Lemma keeps_serialize : keeps I serialize.
Proof. unfold serialize. keeps. Qed.
Lemma keeps_wfi : keeps I wfi.
Proof. unfold wfi. keeps. Qed.

(** ** Memory *)

Lemma keeps_throw_access_exception {A} a t : keeps I (throw_access_exception (A := A) a t).
Proof. unfold throw_access_exception. keeps. Qed.
Lemma keeps_throw_page_fault {A} a t : keeps I (throw_page_fault (A := A) a t).
Proof. unfold throw_page_fault. keeps. Qed.
Lemma keeps_check_trigger op a d : keeps I (check_trigger op a d).
Proof.
  intros s Hs. unfold check_trigger. destruct (matched_trigger _); [done|]. destruct (trigger_match _ _ _ _); [|done].
  destruct (negb _); [done|]. by eapply frame_inv; [|exact Hs].
Qed.
Lemma keeps_pmp_homogeneous a l : keeps I (pmp_homogeneous a l).
Proof. intros s Hs. unfold pmp_homogeneous. by destruct (bit_of _ _). Qed.

Lemma keeps_walk_loop a t sm su mx b sz i base : keeps I (walk_loop a t sm su mx b sz i base).
Proof.
  revert base. induction i as [|i IH]; intros base s Hs; cbn [walk_loop]; cbv zeta.
  - by apply keeps_throw_page_fault.
  - destruct (_ || _); [by apply keeps_throw_access_exception|].
    destruct (PTE_TABLE _); [by apply IH|]. destruct (pte_faults _ _ _ _ _ _); [by apply keeps_throw_page_fault|].
    destruct (_ =? _); [done|]. destruct enable_dirty; [|by apply keeps_throw_page_fault].
    destruct (negb _); [by apply keeps_throw_access_exception|]. split; [|done]. by eapply frame_inv; [|exact Hs].
Qed.

Lemma keeps_walk a t mode : keeps I (walk a t mode).
Proof.
  intros s Hs. unfold walk. destruct (decode_vm_info _ _); [|done]. destruct (Nat.eqb _ _); [done|].
  by apply keeps_walk_loop.
Qed.

Hint Resolve @keeps_throw_access_exception @keeps_throw_page_fault keeps_check_trigger keeps_pmp_homogeneous
  keeps_walk : keeps.

Lemma keeps_translate a l t : keeps I (translate a l t).
Proof. unfold translate. keeps. Qed.
Lemma keeps_refill_tlb v p t : keeps I (refill_tlb v p t).
Proof. unfold refill_tlb. keeps; by apply keeps_frame. Qed.
Hint Resolve keeps_translate keeps_refill_tlb : keeps.

Lemma keeps_load_aligned sg n a : keeps I (load_aligned sg n a).
Proof. unfold load_aligned, load_slow_path. keeps. all: by apply keeps_frame. Qed.
Lemma keeps_store_aligned n a v : keeps I (store_aligned n a v).
Proof. unfold store_aligned, store_slow_path. keeps. all: by apply keeps_frame. Qed.
Hint Resolve keeps_load_aligned keeps_store_aligned : keeps.

Lemma keeps_load_misaligned a n i r : keeps I (load_misaligned a n i r).
Proof. revert i r. induction n; intros i r; cbn [load_misaligned]; keeps. Qed.
Lemma keeps_store_misaligned a v n i : keeps I (store_misaligned a v n i).
Proof. revert i. induction n; intros i; cbn [store_misaligned]; keeps. Qed.
Hint Resolve keeps_load_misaligned keeps_store_misaligned : keeps.

Lemma keeps_mmu_load sg n a : keeps I (mmu_load sg n a).
Proof. unfold mmu_load, misaligned_load. keeps. Qed.
Lemma keeps_mmu_store n a v : keeps I (mmu_store n a v).
Proof. unfold mmu_store, misaligned_store. keeps. Qed.
Hint Resolve keeps_mmu_load keeps_mmu_store : keeps.

Lemma keeps_amo n a f : keeps I (amo n a f).
Proof. unfold amo. keeps. Qed.
Lemma keeps_acquire a : keeps I (acquire_load_reservation a).
Proof. unfold acquire_load_reservation. keeps. by apply keeps_frame. Qed.
Lemma keeps_check a : keeps I (check_load_reservation a).
Proof. unfold check_load_reservation. keeps. Qed.
Lemma keeps_yield : keeps I yield_load_reservation.
Proof. by apply keeps_frame. Qed.
Lemma keeps_flush_tlb : keeps I (puts (fun s => { s with mmu ::= flush_tlb })).
Proof. by apply keeps_frame. Qed.
Lemma keeps_fetch_insn a : keeps I (fetch_insn a).
Proof.
  assert (forall a, keeps I (translate_insn_addr a)) as Ht.
  { intros b. unfold translate_insn_addr, fetch_slow_path. keeps. by apply keeps_frame. }
  unfold fetch_insn, fetch_half. keeps; apply Ht.
Qed.
End Frame.

#[export] Hint Resolve keeps_require_privilege keeps_require_rv64 keeps_require_extension keeps_require_fp keeps_READ_REG
  keeps_READ_FREG keeps_WRITE_REG keeps_set_npc keeps_set_pc keeps_set_pc_and_serialize keeps_serialize keeps_wfi
  keeps_mmu_load keeps_mmu_store keeps_amo keeps_acquire keeps_check keeps_yield
  keeps_flush_tlb : keeps.

(** ** Instructions *)

(** With the floating point unit off, an instruction that needs it ends there. *)
Definition fp_off (s : state_t) : Prop := Z.land (mstatus s) MSTATUS_FS = 0.
Class FpOff (I : state_t -> Prop) : Prop := inv_fp_off : forall s, I s -> fp_off s.

Lemma keeps_fp_off (I : state_t -> Prop) `{!FpOff I} {B} (k : unit -> Exec B) : keeps I (require_fp ≫= k).
Proof. intros s Hs. unfold require_fp, mbind, Exec_bind, gets. cbn. by rewrite (inv_fp_off s Hs). Qed.
#[export] Hint Resolve keeps_fp_off : keeps.

Definition system_insns `{Config} : list (Z -> Exec unit) :=
  [rv_csrrw; rv_csrrs; rv_csrrc; rv_csrrwi; rv_csrrsi; rv_csrrci; rv_mret; rv_sret; rv_dret].

Ltac head_of t := match t with ?f _ => head_of f | _ => t end.
Ltac keeps_unfold :=
  match goal with |- keeps _ ?m => let h := head_of m in unfold h end.
Ltac keeps_insn := keeps; repeat (keeps_unfold; keeps).

Ltac in_list :=
  lazymatch goal with
  | |- In ?a (?b :: _) => tryif constr_eq a b then left; exact eq_refl else (right; in_list)
  end.

Lemma insns_keep `{Config} I `{!FrameInv I, !FpOff I} :
  Forall (fun e => In e.2.2 system_insns \/ forall bits, keeps I (e.2.2 bits)) insn_table.
Proof.
  unfold insn_table.
  repeat (apply Forall_cons_2; [cbn [fst snd]; first [left; unfold system_insns; in_list | right; intros bits; keeps_unfold; keeps_insn]|]).
  apply Forall_nil_2.
Qed.

(** Any instruction, once the others are dealt with. *)
Lemma keeps_insn_func `{Config} I `{!FrameInv I, !FpOff I} name bits :
  (forall insn write operand g, keeps I operand -> keeps I (csr_insn insn write operand g)) ->
  keeps I (rv_mret bits) -> keeps I (rv_sret bits) -> keeps I (rv_dret bits) -> keeps I (insn_func name bits).
Proof.
  intros Hc Hm Hs Hd. unfold insn_func. destruct (find _ _) as [[n [op body]]|] eqn:E; [|apply keeps_throw].
  apply find_some in E as [E _]. pose proof (insns_keep I) as Ht. rewrite Forall_forall in Ht.
  specialize (Ht (n, (op, body))). rewrite list_elem_of_In in Ht. specialize (Ht E). cbn in Ht.
  assert (keeps I (body bits)).
  { clear E. destruct Ht as [Ht|Ht]; [|apply Ht].
    destruct Ht as [<-|[<-|[<-|[<-|[<-|[<-|[<-|[<-|[<-|[]]]]]]]]]].
    - unfold rv_csrrw. apply Hc. unfold RS1. apply keeps_READ_REG.
    - unfold rv_csrrs. apply Hc. unfold RS1. apply keeps_READ_REG.
    - unfold rv_csrrc. apply Hc. unfold RS1. apply keeps_READ_REG.
    - unfold rv_csrrwi. apply Hc. apply keeps_ret.
    - unfold rv_csrrsi. apply Hc. apply keeps_ret.
    - unfold rv_csrrci. apply Hc. apply keeps_ret.
    - exact Hm.
    - exact Hs.
    - exact Hd. }
  unfold rv_insn. keeps.
Qed.

(** The state in which a program ends, by return or by an exception. *)
Definition final {A} (r : result A) : state_t :=
  match r with Done _ s | Throw _ s | Trigger _ s | Abort s => s end.

Lemma keeps_final {A} I (m : Exec A) s : keeps I m -> I s -> I (final (m s)).
Proof. intros Hm Hs. specialize (Hm s Hs). unfold final. destruct (m s); [by destruct Hm|done..]. Qed.

(** Reading a control register. *)
Lemma keeps_get_csr `{Config} I `{!FrameInv I} which : keeps I (get_csr which).
Proof. unfold get_csr, get_fp_csr, illegal_csr. keeps. Qed.
