(* ===== verification/SpikeSafe.v ===== *)
(** * Spike: privilege

    What the instructions of a user or supervisor program can do to the state of
    the hart, for every instruction of the table and any bits. *)

From Stdlib Require Import ZArith Lia.
From stdpp Require Import base tactics list numbers strings.
From coqutil Require Import Datatypes.RecordSetters.
Import OCamlLikeNotations.
From S2P Require Import Prelude SoftFloat Spike SpikeCsr SpikePriv SpikeMmu SpikeDecode SpikeStep SpikeLogic.

Lemma csr_range insn : 0 <= csr insn < 4096.
Proof. unfold csr, x. rewrite Z.shiftl_1_l, land_ones_mod by done. apply Z.mod_pos_bound. done. Qed.

(** ** User mode *)

(** No control register but those of the floating point unit can be written
    from user mode. *)
Lemma set_csr_user `{Config} which v s :
  get_field which 0x300 = 0 -> get_field which 0xC00 <> 3 ->
  which <> CSR_FFLAGS -> which <> CSR_FRM -> which <> CSR_FCSR -> set_csr which v s = s.
Proof.
  intros Hp Hr H1 H2 H3. unfold set_csr. cbv zeta.
  repeat match goal with
  | |- (if (which =? ?c) || (which =? ?d) then _ else _) = _ =>
      destruct (Z.eqb_spec which c) as [->|_]; [exfalso; first [by apply Hr|discriminate Hp]|];
      destruct (Z.eqb_spec which d) as [->|_]; [exfalso; first [by apply Hr|discriminate Hp]|]; cbn [orb]
  | |- (if which =? ?c then _ else _) = _ =>
      destruct (Z.eqb_spec which c) as [->|_]; [exfalso; first [done|by apply Hr|discriminate Hp]|]
  end. done.
Qed.

(** With the unit off its registers cannot be read. *)
Lemma get_csr_fp_off `{Config} which s :
  fp_off s -> which = CSR_FFLAGS \/ which = CSR_FRM \/ which = CSR_FCSR ->
  get_csr which s = Throw (trap_illegal_instruction 0) s.
Proof.
  intros Hf Hw. assert (hpm_csr which s = false) as Hh.
  { unfold hpm_csr. destruct Hw as [-> | [-> | ->]]; cbn; by rewrite ?andb_false_r, ?orb_false_r, ?andb_false_r. }
  unfold get_csr, mbind, Exec_bind, gets. cbv beta. rewrite Hh.
  destruct Hw as [-> | [-> | ->]]; cbn; unfold get_fp_csr, require_fp, mbind, Exec_bind, gets; by rewrite Hf.
Qed.

(** The state a user program runs in: [f] is what it cannot change. *)
Definition user_inv (f s : state_t) : Prop := frame s = f /\ prv s = PRV_U /\ fp_off s.
#[export] Instance user_inv_frame f : FrameInv (user_inv f).
Proof.
  intros s s' E (Hf & Hp & Ho). split_and!; [by rewrite E| |].
  - change (prv s') with (prv (frame s')). by rewrite E.
  - unfold fp_off. change (mstatus s') with (mstatus (frame s')). by rewrite E.
Qed.
#[export] Instance user_inv_fp_off f : FpOff (user_inv f).
Proof. intros s (_ & _ & Ho). done. Qed.

Lemma keeps_require_above I p k :
  (forall s, I s -> prv s < p) -> keeps (A := unit) I (require_privilege p ≫= k).
Proof.
  intros Hp s Hs. specialize (Hp s Hs). unfold require_privilege, mbind, Exec_bind, gets. cbv beta.
  destruct (Z.leb_spec p (prv s)); [lia|]. done.
Qed.

(** A control register instruction below privilege [p], for an invariant that the
    writes allowed there keep. *)
Lemma keeps_csr_insn `{Config} I `{!FrameInv I, !FpOff I} p insn write operand g :
  (forall s, I s -> prv s <= p) ->
  (forall which v s, get_field which 0x300 <= p -> get_field which 0xC00 <> 3 ->
     which <> CSR_FFLAGS -> which <> CSR_FRM -> which <> CSR_FCSR -> I s -> I (set_csr which v s)) ->
  keeps I operand -> keeps I (csr_insn insn write operand g).
Proof.
  intros Hp Hset Ho. unfold csr_insn, validate_csr. apply keeps_bind; [apply keeps_gets|intros b].
  destruct (negb b); [by apply keeps_set_npc; apply _|]. apply keeps_bind; [by apply keeps_frame; [apply _|]|intros _].
  apply (triple_bind _ _ _ (fun q => q <= p)); [intros s Hs; split; [done|by apply Hp]|]. intros q Hq.
  destruct (write && (get_field (csr insn) 0xC00 =? 3)) eqn:Hw; cbn [orb]; [apply keeps_throw|].
  destruct (Z.ltb_spec q (get_field (csr insn) 0x300)) as [Hl|Hl]; [apply keeps_throw|].
  destruct (decide (csr insn = CSR_FFLAGS \/ csr insn = CSR_FRM \/ csr insn = CSR_FCSR)) as [Hc|Hc].
  - intros s Hs. unfold mbind at 1, Exec_bind at 1. rewrite get_csr_fp_off; [done| |done]. by apply (inv_fp_off (I := I)).
  - apply keeps_bind; [apply keeps_get_csr; apply _|intros old]. apply keeps_bind; [done|intros a].
    assert (keeps I (when write (puts (set_csr (csr insn) (g old a))))) as Hk.
    { destruct write; [|apply keeps_ret]. cbn [andb] in Hw. apply Z.eqb_neq in Hw. apply keeps_puts. intros s.
      apply Hset; tauto || lia. }
    apply keeps_bind; [done|intros _]. unfold WRITE_RD. keeps.
Qed.

Lemma keeps_user `{Config} f name bits : keeps (user_inv f) (insn_func name bits).
Proof.
  assert (forall p k, PRV_U < p -> keeps (A := unit) (user_inv f) (require_privilege p ≫= k)) as Hp.
  { intros p k Hlt. apply keeps_require_above. intros s (_ & E & _). by rewrite E. }
  apply keeps_insn_func; [apply _..| | | |].
  - intros insn w o g Ho. apply (keeps_csr_insn _ PRV_U); [|..|done].
    + intros s (_ & -> & _). done.
    + intros which v s Hw Hr H1 H2 H3 Hs. rewrite set_csr_user; try done.
      pose proof (get_field_range 0x300 8 2 which). unfold PRV_U in Hw. lia.
  - unfold rv_mret. by apply Hp.
  - unfold rv_sret. apply keeps_bind; [apply keeps_gets|intros v]. destruct (field_bit v MSTATUS_TSR); by apply Hp.
  - unfold rv_dret. by apply Hp.
Qed.

(** C4: whatever instruction a user program executes, and whether it returns or
    throws, all it can change is its integer registers, the program counter,
    memory and devices through the translation, and the translation cache: no
    control register, not the privilege, and with the floating point unit off
    none of its state. *)
Theorem user_insn_isolated `{Config} name bits s :
  prv s = PRV_U -> fp_off s -> frame (final (insn_func name bits s)) = frame s.
Proof. intros Hp Ho. by apply (keeps_final (user_inv (frame s)) _ s (keeps_user _ name bits)). Qed.

(** ** Supervisor mode *)

(** The fields of mstatus that belong to machine mode, and FS. *)
Definition M_bits : Z :=
  List.fold_right Z.lor 0
    [MSTATUS_MIE; MSTATUS_MPIE; MSTATUS_MPP; MSTATUS_MPRV; MSTATUS_TVM; MSTATUS_TW; MSTATUS_TSR; MSTATUS_FS].

(** What belongs to machine mode: of mstatus those fields, of mie and mip the
    interrupts that are not delegated, and all registers that supervisor mode
    does not have. *)
Definition machine_frame (s : state_t) : state_t :=
  { frame s with mstatus := Z.land (mstatus s) M_bits; prv := 0;
    mie := Z.land (mie s) (Z.lnot (mideleg s)); mip := Z.land (mip s) (Z.lnot (Z.land MIP_SSIP (mideleg s)));
    sepc := 0; stval := 0; sscratch := 0; stvec := 0; satp := 0; scause := 0; scounteren := 0 }.

Definition sup_inv `{Config} (f : state_t) (p : Z) (s : state_t) : Prop :=
  machine_frame s = f /\ 0 <= prv s <= p /\ fp_off s /\ has_SU s /\ get_field (mstatus s) MSTATUS_MPP <> PRV_H.

Lemma machine_frame_frame s : machine_frame s = machine_frame (frame s).
Proof. done. Qed.

#[export] Instance sup_inv_frame `{Config} f p : FrameInv (sup_inv f p).
Proof.
  intros s s' E (Hf & Hp & Ho & Hu & Hm).
  assert (prv s' = prv s /\ mstatus s' = mstatus s /\ misa s' = misa s) as (E1 & E2 & E3).
  { change (prv (frame s') = prv s /\ mstatus (frame s') = mstatus s /\ misa (frame s') = misa s). by rewrite E. }
  unfold sup_inv, fp_off, has_SU, supports_extension in *. rewrite machine_frame_frame, E, <-machine_frame_frame, E1, E2, E3. done.
Qed.
#[export] Instance sup_inv_fp_off `{Config} f p : FpOff (sup_inv f p).
Proof. intros s (_ & _ & Ho & _). done. Qed.

Lemma M_bits_spec i : Z.testbit M_bits i = true -> In i [3; 7; 11; 12; 13; 14; 17; 20; 21; 22].
Proof.
  intros Hb. assert (0 <= i < 23) as Hi.
  { destruct (Z.lt_ge_cases i 0); [by rewrite Z.testbit_neg_r in Hb|]. split; [done|].
    destruct (Z.lt_ge_cases i 23); [done|]. rewrite Z.bits_above_log2 in Hb; [done..|]. change (Z.log2 M_bits) with 22. lia. }
  assert (exists n : nat, i = Z.of_nat n /\ (n < 23)%nat) as (n & -> & Hn) by (exists (Z.to_nat i); lia).
  do 23 (destruct n as [|n]; [first [discriminate Hb|cbn; tauto]|]). lia.
Qed.

(** Values of mstatus that a supervisor may write. *)
Lemma sup_write_mstatus `{ConfigOk} f p v s :
  (forall i, In i [3; 7; 11; 12; 17; 20; 21; 22] -> Z.testbit v i = Z.testbit (mstatus s) i) ->
  sup_inv f p s -> sup_inv f p (set_csr CSR_MSTATUS v s).
Proof.
  intros Hv (Hf & Hp & Ho & Hu & Hm).
  assert (get_field v MSTATUS_MPP = get_field (mstatus s) MSTATUS_MPP) as Hmpp.
  { apply (get_field_ext _ 11 2). intros i Hi. apply Hv. assert (i = 11 \/ i = 12) as [-> | ->] by lia; cbn; tauto. }
  assert (get_field (mstatus (set_csr CSR_MSTATUS v s)) MSTATUS_MPP = get_field (mstatus s) MSTATUS_MPP) as Hw.
  { rewrite write_mstatus_MPP, Hmpp, legalize_SU by done. by destruct (Z.eqb_spec (get_field (mstatus s) MSTATUS_MPP) PRV_H). }
  assert (Z.land (mstatus (set_csr CSR_MSTATUS v s)) M_bits = Z.land (mstatus s) M_bits) as HM.
  { apply Z.bits_inj'. intros i Hi. rewrite !Z.land_spec. destruct (Z.testbit M_bits i) eqn:Hb; [|by rewrite !andb_false_r].
    rewrite !andb_true_r. apply M_bits_spec in Hb. destruct (within 11 2 i) eqn:Hw2.
    - unfold within in Hw2. rewrite andb_true_iff, Z.leb_le, Z.ltb_lt in Hw2.
      assert (forall m, Z.testbit m i = Z.testbit (get_field m MSTATUS_MPP) (i - 11)) as Hg.
      { intros m. rewrite (get_field_bit _ 11 2) by lia. destruct (Z.ltb_spec (i - 11) 2); [|lia]. cbn. f_equal. lia. }
      by rewrite Hg, Hw, <-Hg.
    - rewrite write_mstatus_bit; [|done|apply fixed_low; cbn in Hb; lia|done]. destruct (Z.testbit (mstatus_mask s) i) eqn:Hk; [|done].
      apply Hv. cbn in Hb |- *. assert (i <> 13 /\ i <> 14) as [? ?]; [|lia].
      unfold mstatus_mask in Hk. split; intros ->; destruct has_ext, (supports_extension ext_S s); discriminate Hk. }
  split_and!; [|apply Hp|apply Hp| |exact Hu|by rewrite Hw].
  - rewrite <-Hf. unfold machine_frame. rewrite HM. done.
  - unfold fp_off. rewrite set_csr_keeps_FS. done.
Qed.

(** A register of which the bits under [sub] are written through the mask [all]. *)
Lemma masked_zext_keep `{ConfigOk} old all sub v :
  (forall i, 0 <= i -> Z.testbit all i = true -> i < xlen) ->
  Z.land (masked old all (zext_xlen (masked old sub v))) (Z.lnot sub) = Z.land old (Z.lnot sub).
Proof.
  intros Ha. apply Z.bits_inj'. intros i Hi. rewrite !Z.land_spec, Z.lnot_spec, masked_bit by done.
  destruct (Z.testbit all i) eqn:Hb; [|done]. rewrite zext_xlen_bit, masked_bit by done.
  destruct (Z.ltb_spec i xlen); [|specialize (Ha i Hi Hb); lia]. by destruct (Z.testbit sub i); rewrite ?andb_false_r.
Qed.

(** The registers of supervisor mode that can be written. *)
Lemma set_csr_sup `{ConfigOk} f p which v s :
  get_field which 0x300 <= 1 -> get_field which 0xC00 <> 3 ->
  which <> CSR_FFLAGS -> which <> CSR_FRM -> which <> CSR_FCSR ->
  sup_inv f p s -> sup_inv f p (set_csr which v s).
Proof.
  intros Hp Hr H1 H2 H3 Hs.
  unfold set_csr. cbv zeta.
  repeat match goal with
  | |- sup_inv _ _ (if (which =? ?c) || (which =? ?d) then _ else _) =>
      destruct (Z.eqb_spec which c) as [->|_]; [exfalso; first [by apply Hr|by apply Hp]|];
      destruct (Z.eqb_spec which d) as [->|_]; [exfalso; first [by apply Hr|by apply Hp]|]; cbn [orb]
  | |- sup_inv _ _ (if which =? ?c then _ else _) =>
      destruct (Z.eqb_spec which c) as [->|_]; [first [exfalso; first [done|by apply Hr|by apply Hp]|idtac]|]
  end; try exact Hs.
  - change (sup_inv f p (set_csr CSR_MSTATUS (masked (mstatus s) sstatus_mask (zext_xlen v)) s)).
    apply sup_write_mstatus; [|done]. intros i Hi. rewrite masked_bit by (cbn in Hi; lia).
    assert (Z.testbit sstatus_mask i = false) as ->; [|done]. cbn in Hi. by repeat destruct Hi as [<-|Hi].
  - destruct Hs as (Hf & Hs). split; [|exact Hs]. rewrite <-Hf. unfold machine_frame.
    set (mp := masked (mip s) (Z.land MIP_SSIP (mideleg s)) (zext_xlen v)).
    assert (Z.land (mip (set_mip (zext_xlen mp) s)) (Z.lnot (Z.land MIP_SSIP (mideleg s)))
            = Z.land (mip s) (Z.lnot (Z.land MIP_SSIP (mideleg s)))) as Hm; [|by rewrite <-Hm].
    apply (masked_zext_keep (mip s) (Z.lor MIP_SSIP MIP_STIP)).
    intros i Hi Hb. destruct (Z.lt_ge_cases i 32) as [|Hg]; [destruct xlen_cases; lia|].
    rewrite Z.bits_above_log2 in Hb; [done..|]. change (Z.log2 _) with 5. lia.
  - destruct Hs as (Hf & Hs). split; [|exact Hs]. rewrite <-Hf. unfold machine_frame.
    set (mi := masked (mie s) (mideleg s) (zext_xlen v)).
    assert (Z.land (mie (set_mie (zext_xlen mi) s)) (Z.lnot (mideleg s)) = Z.land (mie s) (Z.lnot (mideleg s))) as Hm;
      [|by rewrite <-Hm].
    apply (masked_zext_keep (mie s) all_ints).
    intros i Hi Hb. destruct (Z.lt_ge_cases i 32) as [|Hg]; [destruct xlen_cases; lia|].
    rewrite Z.bits_above_log2 in Hb; [done|..]; unfold all_ints, delegable_ints; destruct has_ext; try done.
    + change (Z.log2 _) with 12. lia.
    + change (Z.log2 _) with 9. lia.
  - unfold set_satp. repeat case_match; exact Hs.
Qed.

Lemma keeps_sret_sup `{ConfigOk} f p insn : p <= PRV_S -> keeps (sup_inv f p) (rv_sret insn).
Proof.
  intros Hp1. unfold rv_sret. apply keeps_bind; [apply keeps_gets|intros v].
  intros s Hs. unfold require_privilege, require. unfold mbind at 1, Exec_bind at 1. unfold mbind at 1, Exec_bind at 1, gets at 1.
  destruct (Z.leb_spec (if field_bit v MSTATUS_TSR then PRV_M else PRV_S) (prv s)) as [Hle|Hle]; [|exact Hs].
  assert (PRV_S <= p) as Hp.
  { destruct Hs as (_ & Hs & _). destruct (field_bit v MSTATUS_TSR); unfold PRV_M, PRV_S in *; lia. }
  clear v Hle. cbn [mret Exec_ret]. revert s Hs. apply keeps_bind; [apply keeps_gets|intros epc].
  apply keeps_bind; [by apply keeps_set_pc_and_serialize; apply _|intros _].
  intros s Hs. unfold mbind, Exec_bind, gets, puts. cbv beta zeta. split; [|done].
  pose proof (get_field_range MSTATUS_SPP 8 1 (mstatus s)) as Hr.
  assert (sup_inv f p (set_privilege (get_field (mstatus s) MSTATUS_SPP) s)) as Hs'.
  { destruct Hs as (Hf & _ & Ho & Hu & Hm). split_and!; [exact Hf| | |exact Ho|exact Hu|exact Hm];
      change (prv (set_privilege ?q s)) with (legalize_privilege q s); rewrite legalize_SU by done;
      destruct (Z.eqb_spec (get_field (mstatus s) MSTATUS_SPP) PRV_H) as [E|]; unfold PRV_H, PRV_U, PRV_S in *; lia. }
  apply sup_write_mstatus; [|exact Hs']. intros i Hi.
  change (mstatus (set_privilege ?q s)) with (mstatus s).
  rewrite (set_field_bit MSTATUS_SPP 8 1), (set_field_bit MSTATUS_SPIE 5 1), (set_field_bit MSTATUS_SIE 1 1) by (cbn in Hi; lia).
  cbn in Hi. by repeat destruct Hi as [<-|Hi].
Qed.

Lemma keeps_sup `{ConfigOk} f p name bits : p <= PRV_S -> keeps (sup_inv f p) (insn_func name bits).
Proof.
  intros Hp. assert (forall k, keeps (A := unit) (sup_inv f p) (require_privilege PRV_M ≫= k)) as Hm.
  { intros k. apply keeps_require_above. intros s (_ & Hs & _). unfold PRV_M, PRV_S in *. lia. }
  apply keeps_insn_func; [apply _..| | | |].
  - intros insn w o g Ho. apply (keeps_csr_insn _ PRV_S); [|..|done].
    + intros s (_ & Hs & _). lia.
    + intros which v s Hw Hr H1 H2 H3 Hs. by apply set_csr_sup.
  - unfold rv_mret. apply Hm.
  - by apply keeps_sret_sup.
  - unfold rv_dret. apply Hm.
Qed.

(** C5: with the floating point unit off (mstatus.FS = 0), on a hart with
    supervisor and user mode whose mstatus.MPP is not the hypervisor encoding, an
    instruction of a user or supervisor program changes nothing of machine mode,
    however it ends: not the machine registers, the machine fields of mstatus, the
    interrupts that are not delegated, the debug and protection registers; it does
    not raise the privilege, and the three conditions hold of the state it leaves,
    so that the same is true of the next instruction.  With the unit on it is
    false of this code: [dirty_fp_state] clears machine fields of mstatus. *)
Theorem sup_insn_isolated `{ConfigOk} name bits s :
  0 <= prv s <= PRV_S -> fp_off s -> has_SU s -> get_field (mstatus s) MSTATUS_MPP <> PRV_H ->
  let s' := final (insn_func name bits s) in
  machine_frame s' = machine_frame s /\ 0 <= prv s' <= prv s /\
  fp_off s' /\ has_SU s' /\ get_field (mstatus s') MSTATUS_MPP <> PRV_H.
Proof.
  intros Hp Ho Hu Hm s'. subst s'.
  apply (keeps_final (sup_inv (machine_frame s) (prv s)) _ s (keeps_sup _ (prv s) name bits ltac:(lia))).
  split_and!; try done; lia.
Qed.

(** A system instruction in user mode, and one in supervisor mode. *)
Definition program_state (p : Z) : state_t := { @processor_reset rv64_config false blank with prv := p; mideleg := 0x222 }.
Lemma user_insn_isolated_witness :
  frame (final (@insn_func rv64_config "csrrw" 0x34011073 (program_state PRV_U))) = frame (program_state PRV_U).
Proof. apply (@user_insn_isolated rv64_config "csrrw" 0x34011073 (program_state PRV_U)); vm_compute; reflexivity. Defined.

Lemma sup_insn_isolated_witness :
  machine_frame (final (@insn_func rv64_config "csrrw" 0x10411073 (program_state PRV_S)))
    = machine_frame (program_state PRV_S) /\
  0 <= prv (final (@insn_func rv64_config "csrrw" 0x10411073 (program_state PRV_S))) <= PRV_S.
Proof.
  assert (0 <= prv (program_state PRV_S) <= PRV_S) as H1 by (split; vm_compute; congruence).
  assert (fp_off (program_state PRV_S)) as H2 by reflexivity.
  assert (@has_SU (program_state PRV_S)) as H3 by (split; reflexivity).
  assert (get_field (mstatus (program_state PRV_S)) MSTATUS_MPP <> PRV_H) as H4 by (vm_compute; congruence).
  destruct (@sup_insn_isolated rv64_config rv64_ok "csrrw" 0x10411073 (program_state PRV_S) H1 H2 H3 H4) as (E & P & _).
  exact (conj E P).
Defined.
