(* ===== verification/SpikePmp.v ===== *)
(** * Spike: physical memory protection

    [pmp_homogeneous] answers for a block what [pmp_ok] answers for every byte of
    it, so an access that translates is permitted on all of its bytes. *)

From Stdlib Require Import ZArith Lia.
From stdpp Require Import base tactics list numbers.
From coqutil Require Import Datatypes.RecordSetters.
Import OCamlLikeNotations.
From S2P Require Import Prelude SoftFloat Spike SpikeAlu SpikeCsr SpikePriv SpikeMmu SpikeLogic.

Lemma u64_bit v i : 0 <= i -> Z.testbit (u64 v) i = (i <? 64) && Z.testbit v i.
Proof.
  intros Hi. unfold u64. change 18446744073709551616 with (2 ^ 64). destruct (Z.ltb_spec i 64).
  - by rewrite Z.mod_pow2_bits_low.
  - by rewrite Z.mod_pow2_bits_high by lia.
Qed.

(** ** Masks of naturally aligned regions *)

(** The ones at the bottom of a word. *)
Lemma trailing_ones m :
  0 <= m < 2 ^ 64 -> exists t, 0 <= t <= 64 /\
    forall i, 0 <= i -> Z.testbit (Z.land m (Z.lnot (u64 (m + 1)))) i = (i <? t).
Proof.
  intros Hm. destruct (Z.eq_dec m (2 ^ 64 - 1)) as [->|Hn].
  { exists 64. split; [done|]. intros i Hi. change (u64 (2 ^ 64 - 1 + 1)) with 0.
    change (2 ^ 64 - 1) with (Z.ones 64). rewrite Z.land_spec, Z.lnot_spec, Z.bits_0, Z.testbit_ones by done.
    rewrite andb_true_r. destruct (Z.leb_spec 0 i); [done|lia]. }
  assert (exists t q, 0 <= t /\ 0 <= q /\ m = (2 * q) * 2 ^ t + (2 ^ t - 1)) as (t & q & Ht & Hq & E).
  { clear Hn. revert Hm. generalize 64 at 1. intros w [Hm _]. clear w. revert m Hm. apply Zlt_0_ind. intros m IH Hm.
    destruct (Z.Even_or_Odd m) as [[k Hk]|[k Hk]].
    - exists 0, k. cbn. lia.
    - destruct (IH k ltac:(lia)) as (t & q & Ht & Hq & E). exists (t + 1), q.
      rewrite Z.pow_add_r by lia. lia. }
  assert (t < 64) as Ht64.
  { destruct (Z.lt_ge_cases t 64); [done|]. assert (2 ^ 64 <= 2 ^ t) by (apply Z.pow_le_mono_r; lia). nia. }
  exists t. split; [lia|]. intros i Hi.
  assert (u64 (m + 1) = (2 * q + 1) * 2 ^ t) as -> by (rewrite u64_id by lia; lia).
  assert (0 < 2 ^ t) as Hp by (apply Z.pow_pos_nonneg; lia).
  assert (m = Z.lor (Z.shiftl (2 * q) t) (Z.ones t)) as Em.
  { rewrite E, Z.shiftl_mul_pow2, Z.ones_equiv, lor_disjoint by lia. lia. }
  rewrite Z.land_spec, Z.lnot_spec, Em, <-Z.shiftl_mul_pow2, Z.lor_spec, !Z.shiftl_spec, Z.testbit_ones by lia.
  destruct (Z.ltb_spec i t).
  - rewrite !(Z.testbit_neg_r _ (i - t)) by lia. destruct (Z.leb_spec 0 i); [done|lia].
  - rewrite andb_false_r, orb_false_r. destruct (Z.eq_dec i t) as [->|].
    + rewrite Z.sub_diag, Z.testbit_even_0. done.
    + replace (i - t) with (Z.succ (i - t - 1)) by lia. rewrite Z.testbit_even_succ, Z.testbit_odd_succ by lia. apply andb_negb_r.
Qed.

Lemma pmp_mask_bits cfg a :
  0 <= a < 2 ^ 64 -> exists j, 2 <= j <= 66 /\
    forall i, 0 <= i -> Z.testbit (pmp_mask cfg a) i = (j <=? i) && (i <? 64).
Proof.
  intros Ha. unfold pmp_mask. set (m := Z.lor _ _).
  assert (0 <= m < 2 ^ 64) as Hm.
  { assert (m = m mod 2 ^ 64) as ->; [|by apply Z.mod_pos_bound]. apply Z.bits_inj'. intros i Hi.
    destruct (Z.lt_ge_cases i 64); [by rewrite Z.mod_pow2_bits_low|]. rewrite Z.mod_pow2_bits_high by lia.
    unfold m. rewrite Z.lor_spec, u64_bit by done. destruct (Z.ltb_spec i 64); [lia|]. cbn [andb orb].
    rewrite Z.bits_above_log2; [done| |]; destruct (negb _); cbn; lia. }
  destruct (trailing_ones m Hm) as (t & Ht & Hb). cbv zeta. exists (t + 2). split; [lia|]. intros i Hi.
  unfold PMP_SHIFT. rewrite u64_bit, Z.shiftl_spec by done. destruct (Z.ltb_spec i 64) as [H64|H64]; cbn [andb]; [|by rewrite andb_false_r].
  rewrite andb_true_r. destruct (Z.ltb_spec i 2) as [H2|H2].
  - rewrite Z.testbit_neg_r by lia. destruct (Z.leb_spec (t + 2) i); lia || done.
  - rewrite u64_bit, Z.lnot_spec, Hb by lia.
    destruct (Z.ltb_spec (i - 2) 64), (Z.ltb_spec (i - 2) t), (Z.leb_spec (t + 2) i); done || lia.
Qed.

(** ** Blocks *)

Lemma block_floor_at k v : 0 <= k < 64 -> 0 <= v < 2 ^ 64 -> block (2 ^ k) v = v / 2 ^ k * 2 ^ k.
Proof.
  intros Hk Hv. unfold block. rewrite <-Z.shiftr_div_pow2, <-Z.shiftl_mul_pow2 by lia. rewrite <-Z.ldiff_ones_r by lia.
  apply Z.bits_inj'. intros i Hi. rewrite Z.land_spec, Z.ldiff_spec, Z.testbit_ones, u64_bit by lia.
  assert (- 2 ^ k = Z.lnot (Z.ones k)) as -> by (rewrite Z.ones_equiv; unfold Z.lnot; lia).
  rewrite Z.lnot_spec, Z.testbit_ones by lia. destruct (Z.ltb_spec i 64); [done|]. cbn.
  rewrite <-(Z.mod_small v (2 ^ 64)), Z.mod_pow2_bits_high by lia. done.
Qed.

Section Block.
Variables (k addr : Z).
Hypothesis Hk : 0 <= k < 64.
Hypothesis Haddr : 0 <= addr < 2 ^ 64.
Hypothesis Haligned : addr mod 2 ^ k = 0.

(** [b] lies in the block of [2 ^ k] bytes at [addr]. *)
Definition in_block (b : Z) : Prop := addr <= b < addr + 2 ^ k.

Lemma pow_k : 0 < 2 ^ k.
Proof. apply Z.pow_pos_nonneg; lia. Qed.

Lemma in_block_div b : in_block b -> b / 2 ^ k = addr / 2 ^ k.
Proof.
  intros [H1 H2]. pose proof pow_k. assert (addr = addr / 2 ^ k * 2 ^ k) as E by (rewrite Z.mul_comm; divlia).
  symmetry. apply (Z.div_unique _ _ _ (b - addr)); lia.
Qed.

Lemma block_high b i : in_block b -> k <= i -> Z.testbit b i = Z.testbit addr i.
Proof.
  intros Hb Hi. replace i with (i - k + k) by lia. rewrite <-!Z.div_pow2_bits by lia. by rewrite in_block_div.
Qed.

Lemma block_range b : in_block b -> 0 <= b < 2 ^ 64.
Proof.
  intros Hb. pose proof pow_k. destruct Hb as [H1 H2]. split; [lia|].
  assert (2 ^ 64 = 2 ^ (64 - k) * 2 ^ k) as E by (rewrite <-Z.pow_add_r by lia; f_equal; lia).
  assert (addr = addr / 2 ^ k * 2 ^ k) as Ea by (rewrite Z.mul_comm; divlia).
  assert (addr / 2 ^ k < 2 ^ (64 - k)) by (apply Z.div_lt_upper_bound; lia). nia.
Qed.

Lemma block_floor v : 0 <= v < 2 ^ 64 -> block (2 ^ k) v = v / 2 ^ k * 2 ^ k.
Proof. by apply block_floor_at. Qed.

Lemma block_addr_idem : block (2 ^ k) addr = addr.
Proof. rewrite block_floor by done. rewrite Z.mul_comm. pose proof pow_k. divlia. Qed.

(** The part of a word from bit [k] on. *)
Lemma div_zero_bits v : 0 <= v -> v / 2 ^ k = 0 -> forall i, k <= i -> Z.testbit v i = false.
Proof.
  intros Hv E i Hi. replace i with (i - k + k) by lia. rewrite <-Z.div_pow2_bits by lia. rewrite E. apply Z.bits_0.
Qed.

(** An entry that is homogeneous on the block matches all of it or nothing. *)
Lemma entry_homogeneous base cfg a b :
  0 <= base < 2 ^ 64 -> 0 <= a < 2 ^ 64 -> pmp_entry_homogeneous addr (2 ^ k) base cfg a = true -> in_block b ->
  pmp_match b base cfg a = pmp_match addr base cfg a.
Proof.
  intros Hb Ha Hh Hin. pose proof pow_k as Hp. unfold pmp_match, pmp_entry_homogeneous in *.
  assert (0 <= pmp_tor a < 2 ^ 64) as Ht by (unfold pmp_tor, u64; apply Z.mod_pos_bound; done).
  destruct (pmp_is_tor cfg).
  - rewrite block_addr_idem, !block_floor in Hh by done. rewrite !orb_true_iff, andb_true_iff, Z.leb_le in Hh. rewrite !Z.ltb_lt, Z.leb_le in Hh.
    assert (addr = addr / 2 ^ k * 2 ^ k) as Ea by (rewrite Z.mul_comm; divlia).
    assert (forall v, addr < v / 2 ^ k * 2 ^ k -> addr + 2 ^ k <= v) as Hup.
    { intros v Hv. pose proof (Z.mul_div_le v (2 ^ k) Hp). rewrite Ea in Hv. apply Z.mul_lt_mono_pos_r in Hv; [|done].
      assert ((addr / 2 ^ k + 1) * 2 ^ k <= v / 2 ^ k * 2 ^ k) by (apply Z.mul_le_mono_nonneg_r; lia). lia. }
    destruct Hin. destruct Hh as [[Hh|Hh]|[Hh1 Hh2]].
    + apply Hup in Hh. destruct (Z.leb_spec base b), (Z.leb_spec base addr); try lia; done.
    + destruct (Z.ltb_spec b (pmp_tor a)), (Z.ltb_spec addr (pmp_tor a)); try lia; by rewrite !andb_false_r.
    + apply Hup in Hh2. destruct (Z.leb_spec base b), (Z.leb_spec base addr), (Z.ltb_spec b (pmp_tor a)), (Z.ltb_spec addr (pmp_tor a)); try lia; done.
  - destruct (pmp_mask_bits cfg a Ha) as (j & Hj & Hm). pose proof (block_range b Hin) as Hbr.
    destruct (Z.le_gt_cases k j) as [Hkj|Hkj].
    + f_equal. apply Z.bits_inj'. intros i Hi. rewrite !Z.land_spec, !Z.lxor_spec, Hm by done.
      destruct (Z.leb_spec j i); [|by rewrite !andb_false_r]. by rewrite block_high by (done || lia).
    + assert (Z.lxor addr (pmp_tor a) / 2 ^ k <> 0) as Hx.
      { apply orb_true_iff in Hh as [Hh|Hh]; [|by rewrite negb_true_iff, Z.eqb_neq in Hh]. exfalso.
        unfold bit_of in Hh. rewrite negb_true_iff, Z.eqb_neq in Hh. apply Hh. apply Z.bits_inj'. intros i Hi.
        rewrite Z.bits_0, Z.land_spec, Z.pow2_bits_eqb by lia.
        destruct (Z.eqb_spec k i) as [<-|]; [|apply andb_false_r].
        rewrite andb_true_r, u64_bit, Z.lnot_spec, u64_bit, Z.shiftl_spec, Hm by lia.
        destruct (Z.ltb_spec k 64), (Z.leb_spec j (k - 1)), (Z.ltb_spec (k - 1) 64); try done; lia. }
      assert (forall c, 0 <= c < 2 ^ 64 -> (forall i, k <= i -> Z.testbit c i = Z.testbit addr i) ->
                (Z.land (Z.lxor c (pmp_tor a)) (pmp_mask cfg a) =? 0) = false) as Hno.
      { intros c Hc Hbits. apply Z.eqb_neq. intros E. apply Hx. apply Z.bits_inj'. intros i Hi.
        rewrite Z.bits_0, Z.div_pow2_bits, Z.lxor_spec by lia. rewrite <-Hbits, <-Z.lxor_spec by lia.
        destruct (Z.lt_ge_cases (i + k) 64) as [Hl|Hl].
        - assert (Z.testbit (Z.land (Z.lxor c (pmp_tor a)) (pmp_mask cfg a)) (i + k) = false) as Hz by (rewrite E; apply Z.bits_0).
          rewrite Z.land_spec, Hm in Hz by lia.
          destruct (Z.leb_spec j (i + k)), (Z.ltb_spec (i + k) 64); try lia. by rewrite andb_true_r in Hz.
        - rewrite Z.lxor_spec, !(testbit_above 64) by (done || lia). done. }
      rewrite !Hno; try done. by intros i Hi; apply block_high.
Qed.

(** A test of a single bit of the shifted mask. *)
Lemma mask_homogeneous cfg a i :
  0 <= a < 2 ^ 64 -> 0 <= i < 64 ->
  exists j, 2 <= j /\ (forall n, 0 <= n -> Z.testbit (pmp_mask cfg a) n = (j <=? n) && (n <? 64)) /\
    bit_of (u64 (Z.lnot (u64 (Z.shiftl (pmp_mask cfg a) 1)))) (2 ^ i) = (i <=? j).
Proof.
  intros Ha Hi. destruct (pmp_mask_bits cfg a Ha) as (j & Hj & Hm). exists j. split; [lia|]. split; [done|].
  unfold bit_of. destruct (Z.leb_spec i j) as [Hl|Hl].
  - apply negb_true_iff, Z.eqb_neq. intros E.
    assert (Z.testbit (Z.land (u64 (Z.lnot (u64 (Z.shiftl (pmp_mask cfg a) 1)))) (2 ^ i)) i = false) as Hz by (rewrite E; apply Z.bits_0).
    rewrite Z.land_spec, Z.pow2_bits_true, andb_true_r, u64_bit, Z.lnot_spec, u64_bit, Z.shiftl_spec in Hz by lia.
    destruct (Z.eq_dec i 0) as [->|]; [by rewrite Z.testbit_neg_r in Hz|]. rewrite Hm in Hz by lia.
    destruct (Z.ltb_spec i 64), (Z.leb_spec j (i - 1)), (Z.ltb_spec (i - 1) 64); try done; lia.
  - apply negb_false_iff, Z.eqb_eq. apply Z.bits_inj'. intros n Hn. rewrite Z.bits_0, Z.land_spec, Z.pow2_bits_eqb by lia.
    destruct (Z.eqb_spec i n) as [<-|]; [|apply andb_false_r].
    rewrite andb_true_r, u64_bit, Z.lnot_spec, u64_bit, Z.shiftl_spec, Hm by lia.
    destruct (Z.ltb_spec i 64), (Z.leb_spec j (i - 1)), (Z.ltb_spec (i - 1) 64); try done; lia.
Qed.

(** The entries of a state. *)
Definition entries_ok (es : list (Z * Z)) : Prop := Forall (fun e => 0 <= e.2 < 2 ^ 64) es.

Lemma pmp_loop_homogeneous t mode es base b :
  0 <= base < 2 ^ 64 -> entries_ok es -> pmp_homogeneous_loop addr (2 ^ k) base es = true -> in_block b ->
  pmp_ok_loop b t mode base es = pmp_ok_loop addr t mode base es.
Proof.
  intros Hb He Hh Hin. revert base Hb Hh. induction He as [|[cfg a] es Ha He IH]; intros base Hb Hh; [done|].
  cbn [pmp_ok_loop pmp_homogeneous_loop snd] in *.
  assert (0 <= pmp_tor a < 2 ^ 64) as Ht by (unfold pmp_tor, u64; apply Z.mod_pos_bound; done).
  destruct (bit_of cfg PMP_A) eqn:HA; cbn [andb] in *; [|by apply IH].
  destruct (pmp_entry_homogeneous addr (2 ^ k) base cfg a) eqn:E; cbn [negb] in Hh; [|done].
  rewrite (entry_homogeneous base cfg a b Hb Ha E Hin). destruct (pmp_match addr base cfg a); [done|by apply IH].
Qed.

(** Blocks inside of it are homogeneous too. *)
Lemma entry_sub_block base cfg a b i :
  0 <= base < 2 ^ 64 -> 0 <= a < 2 ^ 64 -> pmp_entry_homogeneous addr (2 ^ k) base cfg a = true ->
  0 <= i <= k -> in_block b -> b mod 2 ^ i = 0 -> pmp_entry_homogeneous b (2 ^ i) base cfg a = true.
Proof.
  intros Hb Ha Hh Hi Hin Hal. pose proof pow_k as Hp. assert (0 < 2 ^ i) as Hpi by (apply Z.pow_pos_nonneg; lia).
  assert (2 ^ k = 2 ^ (k - i) * 2 ^ i) as Ek by (rewrite <-Z.pow_add_r by lia; f_equal; lia).
  unfold pmp_entry_homogeneous in *.
  assert (0 <= pmp_tor a < 2 ^ 64) as Ht by (unfold pmp_tor, u64; apply Z.mod_pos_bound; done).
  destruct (pmp_is_tor cfg).
  - rewrite block_addr_idem, !block_floor in Hh by done. pose proof (block_range b Hin) as Hbr. destruct Hin as [Hin1 Hin2].
    assert (forall v, 0 <= v < 2 ^ 64 -> block (2 ^ i) v = v / 2 ^ i * 2 ^ i) as Hfl.
    { intros v Hv. apply (block_floor_at i); [lia|done]. }
    rewrite !Hfl by done. rewrite !orb_true_iff, andb_true_iff, Z.leb_le, !Z.ltb_lt, Z.leb_le in *.
    assert (addr = addr / 2 ^ k * 2 ^ k) as Ea by (rewrite Z.mul_comm; divlia).
    assert (b = b / 2 ^ i * 2 ^ i) as Eb by (rewrite Z.mul_comm; divlia).
    assert (forall v, addr < v / 2 ^ k * 2 ^ k -> b / 2 ^ i * 2 ^ i < v / 2 ^ i * 2 ^ i) as Hup.
    { intros v Hv. rewrite Ea in Hv. apply Z.mul_lt_mono_pos_r in Hv; [|done].
      assert ((addr / 2 ^ k + 1) * 2 ^ k <= v / 2 ^ k * 2 ^ k) as H1 by (apply Z.mul_le_mono_nonneg_r; lia).
      apply Z.mul_lt_mono_pos_r; [done|]. apply Z.lt_le_trans with ((v / 2 ^ k) * 2 ^ (k - i)).
      - apply Z.div_lt_upper_bound; [done|]. lia.
      - apply Z.div_le_lower_bound; [done|]. pose proof (Z.mul_div_le v (2 ^ k) Hp). lia. }
    destruct Hh as [[Hh|Hh]|[Hh1 Hh2]]; [left; left; by apply Hup|left; right; lia|right; split; [lia|by apply Hup]].
  - apply orb_true_iff in Hh as [Hh|Hh].
    + destruct (mask_homogeneous cfg a k Ha ltac:(lia)) as (j & Hj2 & Hj & E). rewrite E in Hh. apply Z.leb_le in Hh.
      destruct (mask_homogeneous cfg a i Ha ltac:(lia)) as (j' & Hj2' & Hj' & E'). rewrite E'. apply orb_true_iff. left. apply Z.leb_le.
      destruct (Z.le_gt_cases i j'); [done|]. exfalso.
      assert (Z.testbit (pmp_mask cfg a) (Z.max 0 j') = true) as Ht1 by (rewrite Hj' by lia; destruct (Z.leb_spec j' (Z.max 0 j')), (Z.ltb_spec (Z.max 0 j') 64); done || lia).
      rewrite Hj in Ht1 by lia. apply andb_true_iff in Ht1 as [Ht1%Z.leb_le _]. lia.
    + apply orb_true_iff. right. rewrite negb_true_iff, Z.eqb_neq in *. intros E. apply Hh. apply Z.bits_inj'. intros n Hn.
      rewrite Z.bits_0, Z.div_pow2_bits, Z.lxor_spec by lia. rewrite <-(block_high b), <-Z.lxor_spec by (done || lia).
      replace (n + k) with (n + k - i + i) by lia. rewrite <-Z.div_pow2_bits by lia. rewrite E. apply Z.bits_0.
Qed.

Lemma loop_sub_block es base b i :
  0 <= base < 2 ^ 64 -> entries_ok es -> pmp_homogeneous_loop addr (2 ^ k) base es = true ->
  0 <= i <= k -> in_block b -> b mod 2 ^ i = 0 -> pmp_homogeneous_loop b (2 ^ i) base es = true.
Proof.
  intros Hb He Hh Hi Hin Hal. revert base Hb Hh. induction He as [|[cfg a] es Ha He IH]; intros base Hb Hh; [done|].
  cbn [pmp_homogeneous_loop snd] in *.
  assert (0 <= pmp_tor a < 2 ^ 64) as Ht by (unfold pmp_tor, u64; apply Z.mod_pos_bound; done).
  destruct (bit_of cfg PMP_A); cbn [andb] in *; [|by apply IH].
  destruct (pmp_entry_homogeneous addr (2 ^ k) base cfg a) eqn:E; cbn [negb] in Hh; [|done].
  rewrite (entry_sub_block base cfg a b i Hb Ha E Hi Hin Hal). by apply IH.
Qed.
End Block.

(** ** Translation *)

Definition pmp_state_ok (s : state_t) : Prop := entries_ok (pmp_entries s).
#[export] Instance pmp_state_ok_frame : FrameInv pmp_state_ok.
Proof.
  intros s s' E Hs. unfold pmp_state_ok, pmp_entries in *.
  change (entries_ok (zip (pmpcfg (frame s')) (pmpaddr (frame s')))). by rewrite E.
Qed.

Lemma u64_bound v : 0 <= u64 v < 2 ^ 64.
Proof. unfold u64. by apply Z.mod_pos_bound. Qed.

(** Addresses of pages and their offsets are words. *)
Lemma walk_loop_range `{Config} addr t sm su mx b sz n base s v s' :
  walk_loop addr t sm su mx b sz n base s = Done v s' -> 0 <= v < 2 ^ 64.
Proof.
  revert base. induction n as [|n IH]; intros base; cbn [walk_loop].
  - by destruct t.
  - cbv zeta. destruct (_ || _); [by destruct t|]. destruct (PTE_TABLE _); [apply IH|].
    destruct (pte_faults _ _ _ _ _ _); [by destruct t|]. destruct (_ =? _).
    + intros [= <- _]. apply u64_bound.
    + destruct enable_dirty; [|by destruct t]. destruct (negb _); [by destruct t|]. intros [= <- _]. apply u64_bound.
Qed.

Lemma walk_range `{ConfigOk} addr t mode s v s' :
  0 <= addr < 2 ^ 64 -> walk addr t mode s = Done v s' -> 0 <= v < 2 ^ 64.
Proof.
  intros Ha. unfold walk. destruct (decode_vm_info _ _) as [vm|]; [|done]. destruct (Nat.eqb _ _).
  - intros [= <- _]. by apply land_below.
  - apply walk_loop_range.
Qed.

Lemma lor_below_pow w a b : 0 <= w -> 0 <= a < 2 ^ w -> 0 <= b < 2 ^ w -> 0 <= Z.lor a b < 2 ^ w.
Proof.
  intros Hw Ha Hb. replace (Z.lor a b) with (Z.lor a b mod 2 ^ w); [apply Z.mod_pos_bound, Z.pow_pos_nonneg; lia|].
  apply Z.bits_inj'. intros i Hi. destruct (Z.lt_ge_cases i w).
  - by rewrite Z.mod_pow2_bits_low.
  - by rewrite Z.mod_pow2_bits_high, Z.lor_spec, (testbit_above w a), (testbit_above w b) by lia.
Qed.

(** What a translation that returns has checked. *)
Lemma translate_inv `{ConfigOk} addr len t s p s' :
  0 <= addr < 2 ^ 64 -> translate addr len t s = Done p s' ->
  exists page, walk addr t (access_mode t s) s = Done page s' /\ p = Z.lor page (Z.land addr (PGSIZE - 1))
  /\ 0 <= p < 2 ^ 64 /\ mmu_pmp_ok p t (access_mode t s) s' = true
  /\ bit_of (Z.lor p len) (len - 1) = false /\ pmp_homogeneous_loop p len 0 (pmp_entries s') = true.
Proof.
  intros Ha. unfold translate, mbind, Exec_bind, gets. cbv beta zeta.
  destruct (walk addr t (access_mode t s) s) as [page s1| | |] eqn:Hw; try done.
  destruct (mmu_pmp_ok _ _ _ _) eqn:Hok; cbn [negb]; [|by destruct t]. unfold pmp_homogeneous.
  destruct (bit_of _ _) eqn:Hb; [done|]. destruct (pmp_homogeneous_loop _ _ _ _) eqn:Hh; cbn [negb]; [|by destruct t].
  intros [= <- <-]. exists page. split_and!; try done.
  all: apply (lor_below_pow 64); [done|by eapply walk_range|by apply land_below].
Qed.

Lemma aligned_mod k p : 0 <= k -> bit_of (Z.lor p (2 ^ k)) (2 ^ k - 1) = false -> p mod 2 ^ k = 0.
Proof.
  intros Hk. unfold bit_of. rewrite negb_false_iff, Z.eqb_eq, land_ones_mod by done. intros E.
  apply Z.bits_inj'. intros i Hi. rewrite Z.bits_0. destruct (Z.lt_ge_cases i k).
  - assert (Z.testbit (Z.lor p (2 ^ k) mod 2 ^ k) i = false) as Hz by (rewrite E; apply Z.bits_0).
    rewrite Z.mod_pow2_bits_low, Z.lor_spec in Hz by done. rewrite Z.mod_pow2_bits_low by done.
    by apply orb_false_iff in Hz as [? _].
  - by rewrite Z.mod_pow2_bits_high by lia.
Qed.

(** C7: when an access of 1, 2, 4, ... bytes translates, physical memory
    protection permits every byte of it for the privilege of the access: the one
    test of [pmp_ok] on the first byte is enough because of [pmp_homogeneous]. *)
Theorem translate_permitted `{ConfigOk} addr k t s p s' :
  0 <= k < 64 -> pmp_state_ok s -> 0 <= addr < 2 ^ 64 -> translate addr (2 ^ k) t s = Done p s' ->
  forall b, p <= b < p + 2 ^ k -> mmu_pmp_ok b t (access_mode t s) s' = true.
Proof.
  intros Hk Hs Ha Ht b Hb. destruct (translate_inv _ _ _ _ _ _ Ha Ht) as (page & Hw & -> & Hp & Hok & Hbit & Hh).
  set (p := Z.lor page _) in *. rewrite <-Hok. unfold mmu_pmp_ok.
  apply (pmp_loop_homogeneous k p Hk Hp); [apply aligned_mod; [lia|done]|done| |done|done].
  pose proof (keeps_final pmp_state_ok _ s (keeps_walk pmp_state_ok addr t (access_mode t s)) Hs) as Hk'.
  by rewrite Hw in Hk'.
Qed.

(** A byte of machine mode on a hart after reset. *)
Definition reset_state : state_t := @processor_reset rv64_config false blank.
Lemma reset_pmp_ok : pmp_state_ok reset_state.
Proof.
  unfold pmp_state_ok, entries_ok. apply Forall_forall. intros e He.
  assert (forallb (fun e => (0 <=? e.2) && (e.2 <? 2 ^ 64)) (pmp_entries reset_state) = true) as Hb by (vm_compute; reflexivity).
  rewrite forallb_forall in Hb. specialize (Hb e He). lia.
Qed.
Lemma translate_permitted_witness : mmu_pmp_ok 0x80000013 LOAD (access_mode LOAD reset_state) reset_state = true.
Proof.
  apply (@translate_permitted rv64_config rv64_ok 0x80000010 3 LOAD reset_state 0x80000010 reset_state);
    [|exact reset_pmp_ok| |vm_compute; reflexivity|]; split; vm_compute; congruence.
Defined.
