(* ===== verification/SpikeTlb.v ===== *)
(** * Spike: the translation cache

    Loads through the cache give what the page tables and physical memory
    protection give without it, as long as every entry was filled under the
    translation that is in force; and two ways in which entries outlive it. *)

From Stdlib Require Import ZArith Lia.
From stdpp Require Import base tactics list numbers.
From coqutil Require Import Datatypes.RecordSetters.
Import OCamlLikeNotations.
From S2P Require Import Prelude SoftFloat Spike SpikeAlu SpikeCsr SpikePriv SpikeMmu SpikeLogic SpikePmp.

(** Where memory is: whole pages, as the platform maps it. *)
Class PagedMem `{Config} : Prop := paged p : addr_to_mem p = addr_to_mem (p - p mod PGSIZE).
(** Accessed and dirty bits are left to software, the default of configure. *)
Class NoDirty `{Config} : Prop := no_dirty : enable_dirty = false.

(** ** Walks *)

Section Walk.
Context `{ConfigOk} `{!NoDirty}.

Lemma walk_loop_pure a t sm su mx b sz n base s v s' :
  walk_loop a t sm su mx b sz n base s = Done v s' -> s' = s.
Proof.
  revert base. induction n as [|n IH]; intros base; cbn [walk_loop]; [by destruct t|].
  cbv zeta. destruct (_ || _); [by destruct t|]. destruct (PTE_TABLE _); [apply IH|].
  destruct (pte_faults _ _ _ _ _ _); [by destruct t|]. destruct (_ =? _); [congruence|].
  rewrite no_dirty. by destruct t.
Qed.

Lemma walk_pure a t mode s v s' : walk a t mode s = Done v s' -> s' = s.
Proof.
  unfold walk. destruct (decode_vm_info _ _); [|done]. destruct (Nat.eqb _ _); [congruence|]. apply walk_loop_pure.
Qed.

(** However a walk ends, it is in the state it started in. *)
Lemma walk_loop_end a t sm su mx b sz n base s :
  match walk_loop a t sm su mx b sz n base s with Done _ s' | Throw _ s' | Abort s' => s' = s | Trigger _ _ => False end.
Proof.
  revert base. induction n as [|n IH]; intros base; cbn [walk_loop]; [by destruct t|].
  cbv zeta. destruct (_ || _); [by destruct t|]. destruct (PTE_TABLE _); [apply IH|].
  destruct (pte_faults _ _ _ _ _ _); [by destruct t|]. destruct (_ =? _); [done|].
  rewrite no_dirty. by destruct t.
Qed.

(** Two kinds of access that both translate go to the same page. *)
Lemma walk_loop_agree a t t' sm su mx b sz n base s v w s1 s2 :
  walk_loop a t sm su mx b sz n base s = Done v s1 -> walk_loop a t' sm su mx b sz n base s = Done w s2 -> v = w.
Proof.
  revert base. induction n as [|n IH]; intros base; cbn [walk_loop]; [by destruct t|].
  cbv zeta. destruct (_ || _); [by destruct t|]. destruct (PTE_TABLE _); [apply IH|].
  destruct (pte_faults t _ _ _ _ _); [by destruct t|]. destruct (pte_faults t' _ _ _ _ _); [by destruct t'|].
  rewrite no_dirty. destruct (_ =? _); [|by destruct t]. destruct (_ =? _); [|by destruct t']. congruence.
Qed.

Lemma walk_agree a t t' mode s v w s1 s2 :
  walk a t mode s = Done v s1 -> walk a t' mode s = Done w s2 -> v = w.
Proof.
  unfold walk. destruct (decode_vm_info _ _); [|done]. destruct (Nat.eqb _ _); [congruence|]. apply walk_loop_agree.
Qed.

(** The walk looks at the page number only. *)
Lemma shiftr_page a a' i : Z.shiftr a 12 = Z.shiftr a' 12 -> 0 <= i -> Z.shiftr a (12 + i) = Z.shiftr a' (12 + i).
Proof. intros E Hi. rewrite <-!Z.shiftr_shiftr by lia. by rewrite E. Qed.

Lemma walk_loop_page a a' t sm su mx b sz n base s v s' :
  0 <= b -> Z.shiftr a 12 = Z.shiftr a' 12 ->
  walk_loop a t sm su mx b sz n base s = Done v s' -> walk_loop a' t sm su mx b sz n base s = Done v s'.
Proof.
  intros Hb E. revert base. induction n as [|n IH]; intros base; cbn [walk_loop]; [by destruct t|].
  cbv zeta. unfold PGSHIFT in *. rewrite (shiftr_page a a' _ E), E by lia.
  destruct (_ || _); [by destruct t|]. destruct (PTE_TABLE _); [apply IH|].
  destruct (pte_faults _ _ _ _ _ _); [by destruct t|]. destruct (_ =? _); [done|].
  rewrite no_dirty. by destruct t.
Qed.

(** Address of the page a leaf gives. *)
Lemma walk_loop_aligned a t sm su mx b sz n base s v s' :
  walk_loop a t sm su mx b sz n base s = Done v s' -> v mod PGSIZE = 0.
Proof.
  assert (forall u, u64 (Z.shiftl u PGSHIFT) mod PGSIZE = 0) as Hu.
  { intros u. unfold u64, PGSHIFT, PGSIZE. rewrite Z.shiftl_mul_pow2 by lia. change (2 ^ 12) with 4096. divlia. }
  revert base. induction n as [|n IH]; intros base; cbn [walk_loop]; [by destruct t|].
  cbv zeta. destruct (_ || _); [by destruct t|]. destruct (PTE_TABLE _); [apply IH|].
  destruct (pte_faults _ _ _ _ _ _); [by destruct t|]. destruct (_ =? _).
  - intros [= <- _]. apply Hu.
  - rewrite no_dirty. by destruct t.
Qed.
End Walk.

(** ** Translation of a page *)

Definition phys `{Config} (a : Z) (t : access_type) (mode : Z) (s : state_t) : option Z :=
  match walk a t mode s with Done page _ => Some (Z.lor page (Z.land a (PGSIZE - 1))) | _ => None end.

Lemma page_lor v a : v mod PGSIZE = 0 -> Z.lor v (Z.land a (PGSIZE - 1)) = v + a mod PGSIZE.
Proof.
  intros Hv. change (PGSIZE - 1) with (2 ^ 12 - 1). rewrite land_ones_mod by lia. unfold PGSIZE in *.
  assert (v = v / 2 ^ 12 * 2 ^ 12) as -> by (change (2 ^ 12) with 4096; divlia).
  apply (lor_disjoint _ _ 12); [lia|]. change (2 ^ 12) with 4096. divlia.
Qed.

Lemma decode_vm_idxbits `{Config} mode v vm :
  decode_vm_info mode v = Some vm -> levels vm <> 0%nat -> 9 <= idxbits vm.
Proof.
  unfold decode_vm_info. cbv zeta.
  repeat match goal with |- context [if ?b then _ else _] => destruct b end;
    repeat match goal with |- context [match ?z with 0 => _ | _ => _ end] => destruct z as [|q|q] end;
    repeat match goal with |- context [match ?q with xH => _ | _ => _ end] => destruct q as [q|q|] end;
    intros [= <-]; cbn; lia.
Qed.

Section Page.
Context `{ConfigOk} `{!NoDirty}.
Variables (t : access_type) (mode : Z) (s : state_t).

Lemma phys_page a p :
  0 <= a < 2 ^ 64 -> phys a t mode s = Some p ->
  let P := p - a mod PGSIZE in
  P mod PGSIZE = 0 /\ 0 <= P /\ P + PGSIZE <= 2 ^ 64 /\
  forall o, 0 <= o < PGSIZE -> phys (a - a mod PGSIZE + o) t mode s = Some (P + o).
Proof.
  intros Ha. cbv zeta. unfold phys, walk. destruct (decode_vm_info mode (satp s)) as [vm|] eqn:Hvm; [|done].
  destruct (Nat.eqb_spec (levels vm) 0) as [Hl|Hl].
  - intros [= <-]. set (M := u64 (Z.shiftl 2 (xlen - 1)) - 1).
    assert (forall b, 0 <= b < 2 ^ 64 -> Z.lor (Z.land b M) (Z.land b (PGSIZE - 1)) = b mod 2 ^ xlen) as Hb.
    { intros b Hb. unfold M. destruct xlen_cases as [-> | ->].
      - change (u64 _ - 1) with (2 ^ 32 - 1). change (PGSIZE - 1) with (2 ^ 12 - 1). apply Z.bits_inj'. intros i Hi.
        rewrite Z.lor_spec, !land_ones_mod by lia. destruct (Z.lt_ge_cases i 12).
        + rewrite !Z.mod_pow2_bits_low by lia. apply orb_diag.
        + rewrite (Z.mod_pow2_bits_high _ 12) by lia. apply orb_false_r.
      - change (u64 _ - 1) with (-1). rewrite Z.land_m1_r. rewrite Z.mod_small by done.
        apply Z.bits_inj'. intros i Hi. rewrite Z.lor_spec, Z.land_spec. by destruct (Z.testbit b i). }
    rewrite Hb by done. unfold PGSIZE in *. destruct xlen_cases as [Hx|Hx]; rewrite Hx in *.
    + change (2 ^ 32) with 4294967296 in *. change (2 ^ 64) with 18446744073709551616 in *. split_and!; [divlia..|].
      intros o Ho. rewrite Hb by divlia. f_equal. divlia.
    + change (2 ^ 64) with 18446744073709551616 in *. split_and!; [divlia..|].
      intros o Ho. rewrite Hb by divlia. f_equal. divlia.
  - cbv zeta. pose proof (decode_vm_idxbits mode (satp s) vm Hvm Hl) as Hi.
    assert (forall o, 0 <= o < PGSIZE -> Z.shiftr (a - a mod PGSIZE + o) 12 = Z.shiftr a 12) as Hsh.
    { intros o Ho. rewrite !Z.shiftr_div_pow2 by lia. change (2 ^ 12) with 4096. unfold PGSIZE in *. divlia. }
    set (va := PGSHIFT + Z.of_nat (levels vm) * idxbits vm - 1).
    assert (12 <= va) as Hva by (unfold va, PGSHIFT; nia).
    destruct (walk_loop a _ _ _ _ _ _ _ _ s) as [v s'| | |] eqn:Hw; try done. intros [= <-].
    pose proof (walk_loop_aligned _ _ _ _ _ _ _ _ _ _ _ _ Hw) as Hal.
    pose proof (walk_loop_range _ _ _ _ _ _ _ _ _ _ _ _ Hw) as Hr.
    rewrite page_lor by done. unfold PGSIZE in *. split_and!; [divlia|lia|change (2 ^ 64) with 18446744073709551616 in *; divlia|].
    intros o Ho. specialize (Hsh o Ho).
    assert (Z.shiftr (a - a mod 4096 + o) va = Z.shiftr a va) as ->.
    { replace va with (12 + (va - 12)) by lia. rewrite <-!Z.shiftr_shiftr by lia. by rewrite Hsh. }
    apply (walk_loop_page _ (a - a mod 4096 + o)) in Hw; [|lia|by rewrite Hsh]. rewrite Hw.
    change (4096 - 1) with (PGSIZE - 1). rewrite page_lor by done. unfold PGSIZE. f_equal. divlia.
Qed.
End Page.

(** ** Entries *)

Definition set_mmu (m : mmu_t) (s : state_t) : state_t := { s with mmu := m }.

(** Updates that a walk does not see. *)
Class Unseen (f : state_t -> state_t) : Prop := unseen s :
  mem (f s) = mem s /\ pmpcfg (f s) = pmpcfg s /\ pmpaddr (f s) = pmpaddr s /\ satp (f s) = satp s
  /\ mstatus (f s) = mstatus s /\ prv (f s) = prv s.
#[export] Instance set_mmu_unseen m : Unseen (set_mmu m).
Proof. done. Qed.
#[export] Instance set_io_unseen g : Unseen (fun s => { s with io ::= g }).
Proof. done. Qed.

Definition map_state {A} (f : state_t -> state_t) (r : result A) : result A :=
  match r with
  | Done v s => Done v (f s) | Throw e s => Throw e (f s) | Trigger e s => Trigger e (f s) | Abort s => Abort (f s)
  end.

Section Unseen.
Context `{ConfigOk} `{!NoDirty} (f : state_t -> state_t) `{!Unseen f}.

Lemma unseen_pmp s : pmp_entries (f s) = pmp_entries s.
Proof. unfold pmp_entries. by destruct (unseen (f := f) s) as (_ & -> & -> & _). Qed.

Lemma walk_loop_unseen a t sm su mx b sz n base s :
  walk_loop a t sm su mx b sz n base (f s) = map_state f (walk_loop a t sm su mx b sz n base s).
Proof.
  revert base. induction n as [|n IH]; intros base; cbn [walk_loop]; [by destruct t|]. cbv zeta.
  destruct (unseen (f := f) s) as (-> & _). unfold mmu_pmp_ok. rewrite unseen_pmp.
  destruct (_ || _); [by destruct t|]. destruct (PTE_TABLE _); [apply IH|].
  destruct (pte_faults _ _ _ _ _ _); [by destruct t|]. destruct (_ =? _); [done|]. rewrite no_dirty. by destruct t.
Qed.

Lemma walk_unseen a t mode s : walk a t mode (f s) = map_state f (walk a t mode s).
Proof.
  unfold walk. destruct (unseen (f := f) s) as (_ & _ & _ & -> & -> & _). destruct (decode_vm_info _ _); [|done].
  destruct (Nat.eqb _ _); [done|]. apply walk_loop_unseen.
Qed.

Lemma phys_unseen a t mode s : phys a t mode (f s) = phys a t mode s.
Proof. unfold phys. rewrite walk_unseen. by destruct (walk a t mode s). Qed.
End Unseen.

Definition tag_of (t : access_type) (m : mmu_t) : Z -> Z :=
  match t with FETCH => tlb_insn_tag m | LOAD => tlb_load_tag m | STORE => tlb_store_tag m end.

(** The entry for page [vpn] of accesses [t] with offset [off]: a page of memory
    that the tables give and protection permits in full. *)
Definition entry_ok `{Config} (t : access_type) (s : state_t) (vpn off : Z) : Prop :=
  exists P, P mod PGSIZE = 0 /\ 0 <= P /\ P + PGSIZE <= 2 ^ 64
    /\ (forall o, 0 <= o < PGSIZE -> phys (vpn * PGSIZE + o) t (prv s) s = Some (P + o))
    /\ off = u64 (P - vpn * PGSIZE) /\ addr_to_mem P = true
    /\ mmu_pmp_ok P t (prv s) s = true /\ pmp_homogeneous_loop P PGSIZE 0 (pmp_entries s) = true.

(** Every tag is empty or that of an entry of the translation in force. *)
Definition tlb_ok `{Config} (s : state_t) : Prop :=
  forall t idx, tag_of t (mmu s) idx = 2 ^ 64 - 1
    \/ (0 <= tag_of t (mmu s) idx < 2 ^ 52 /\ idx = tag_of t (mmu s) idx mod TLB_ENTRIES
        /\ entry_ok t s (tag_of t (mmu s) idx) (tlb_data (mmu s) idx)).

(** No triggers, one privilege for all accesses ([MPRV] clear), words in the PMP
    registers. *)
Definition quiet (s : state_t) : Prop :=
  check_triggers_fetch (mmu s) = false /\ check_triggers_load (mmu s) = false /\ check_triggers_store (mmu s) = false
  /\ Forall (fun mc => mc_execute mc = false /\ mc_load mc = false /\ mc_store mc = false) (mcontrol s)
  /\ field_bit (mstatus s) MSTATUS_MPRV = false /\ pmp_state_ok s.

Section Tlb.
Context `{ConfigOk} `{!NoDirty} `{!PagedMem}.

Lemma quiet_mode t s : quiet s -> access_mode t s = prv s.
Proof. intros (_ & _ & _ & _ & Hm & _). unfold access_mode. rewrite Hm. by rewrite andb_false_r. Qed.

Lemma quiet_trigger op a d s : quiet s -> trigger_match op a d s = None.
Proof.
  intros (_ & _ & _ & Hf & _). unfold trigger_match. destruct (negb _); [done|].
  generalize 0. generalize (tdata2 s). induction Hf as [|mc mcs (He & Hl & Hs) _ IH]; intros ts i; [done|].
  destruct ts as [|td ts]; [done|]. cbn [zip zip_with trigger_match_loop negb].
  assert (mcontrol_applies op mc s = false) as ->; [|apply IH].
  unfold mcontrol_applies. rewrite He, Hl, Hs. by destruct op.
Qed.

Lemma quiet_check op a d s : quiet s -> check_trigger op a d s = Done tt s.
Proof. intros Hq. unfold check_trigger. rewrite quiet_trigger by done. by destruct (matched_trigger _). Qed.

(** Tags: an aligned address has the tag of its page. *)
Lemma vpn_page a : Z.shiftr a PGSHIFT * PGSIZE = a - a mod PGSIZE.
Proof. unfold PGSHIFT, PGSIZE. rewrite Z.shiftr_div_pow2 by lia. change (2 ^ 12) with 4096. divlia. Qed.

Lemma tag_hit a tag :
  0 <= a < 2 ^ 64 -> (tag = 2 ^ 64 - 1 \/ 0 <= tag < 2 ^ 52) ->
  (tag =? Z.lor (Z.shiftr a PGSHIFT) TLB_CHECK_TRIGGERS) = false.
Proof.
  intros Ha Ht. unfold PGSHIFT. rewrite Z.shiftr_div_pow2 by lia. apply Z.eqb_neq.
  assert (0 <= a / 2 ^ 12 < 2 ^ 52) as Hv by (change (2 ^ 12) with 4096; change (2 ^ 52) with 4503599627370496; change (2 ^ 64) with 18446744073709551616 in Ha; divlia).
  rewrite Z.lor_comm. unfold TLB_CHECK_TRIGGERS. rewrite Z.shiftl_mul_pow2, (lor_disjoint 1 _ 63) by lia. lia.
Qed.

Lemma entry_ok_unseen f `{!Unseen f} t s vpn off : entry_ok t s vpn off -> entry_ok t (f s) vpn off.
Proof.
  intros (P & K1 & K2 & K3 & K4 & K5 & K6 & K7 & K8). exists P. unfold mmu_pmp_ok. rewrite (unseen_pmp f).
  destruct (unseen (f := f) s) as (_ & _ & _ & _ & _ & ->). split_and!; try done.
  intros o Ho. rewrite (phys_unseen f). by apply K4.
Qed.
End Tlb.

(** ** Filling an entry *)

Section Refill.
Context `{ConfigOk} `{!NoDirty} `{!PagedMem}.

Definition refilled (a p : Z) (t : access_type) (s : state_t) : mmu_t :=
  let idx := tlb_index a in
  let expected := Z.shiftr a PGSHIFT in
  let m := mmu s in
  let m := { m with tlb_load_tag := drop_other (tlb_load_tag m) idx expected;
                    tlb_store_tag := drop_other (tlb_store_tag m) idx expected;
                    tlb_insn_tag := drop_other (tlb_insn_tag m) idx expected } in
  let m := if pmp_homogeneous_loop (p - p mod PGSIZE) PGSIZE 0 (pmp_entries s) then set_tag t idx expected m else m in
  { m with tlb_data := upd (tlb_data m) idx (u64 (p - a)) }.

Lemma page_of p : 0 <= p < 2 ^ 64 -> Z.land p (u64 (Z.lnot (PGSIZE - 1))) = p - p mod PGSIZE.
Proof.
  intros Hp. change (u64 (Z.lnot (PGSIZE - 1))) with (u64 (- 2 ^ 12)).
  change (Z.land p (u64 (- 2 ^ 12))) with (block (2 ^ 12) p). rewrite block_floor_at by lia.
  unfold PGSIZE. change (2 ^ 12) with 4096. divlia.
Qed.

Lemma aligned_bit k p : 0 <= k -> p mod 2 ^ k = 0 -> bit_of (Z.lor p (2 ^ k)) (2 ^ k - 1) = false.
Proof.
  intros Hk Hp. unfold bit_of. rewrite negb_false_iff, Z.eqb_eq, land_ones_mod by done.
  apply Z.bits_inj'. intros i Hi. rewrite Z.bits_0. destruct (Z.lt_ge_cases i k).
  - rewrite Z.mod_pow2_bits_low, Z.lor_spec, Z.pow2_bits_false, orb_false_r by lia.
    rewrite <-(Z.mod_pow2_bits_low p k i) by lia. rewrite Hp. apply Z.bits_0.
  - by rewrite Z.mod_pow2_bits_high by lia.
Qed.

Lemma refill_eq a p t s :
  quiet s -> 0 <= p < 2 ^ 64 -> refill_tlb a p t s = Done (u64 (p - a)) (set_mmu (refilled a p t s) s).
Proof.
  intros (Q1 & Q2 & Q3 & _) Hp. unfold refill_tlb, refilled, mbind, Exec_bind, puts, gets, mret, Exec_ret. cbv beta zeta.
  rewrite page_of by done. unfold pmp_homogeneous.
  assert (bit_of (Z.lor (p - p mod PGSIZE) PGSIZE) (PGSIZE - 1) = false) as ->.
  { apply (aligned_bit 12); [lia|]. unfold PGSIZE. change (2 ^ 12) with 4096. divlia. }
  unfold checked_tag. cbn [mmu].
  match goal with |- context [pmp_homogeneous_loop ?a ?b ?c (pmp_entries ?s')] => change (pmp_entries s') with (pmp_entries s) end.
  assert (forall m0, check_triggers_fetch m0 = false -> check_triggers_load m0 = false -> check_triggers_store m0 = false ->
    check_triggers_fetch m0 && bool_decide (t = FETCH) || check_triggers_load m0 && bool_decide (t = LOAD)
      || check_triggers_store m0 && bool_decide (t = STORE) = false) as Hc by (by intros m0 -> -> ->).
  rewrite Hc by done. destruct (pmp_homogeneous_loop _ _ _ _); done.
Qed.

Lemma refilled_quiet a p t s : quiet s -> quiet (set_mmu (refilled a p t s) s).
Proof.
  intros (Q1 & Q2 & Q3 & Q). unfold quiet, refilled. cbv zeta.
  destruct (pmp_homogeneous_loop _ _ _ _), t; split_and!; try done; apply Q.
Qed.

(** The new tags: empty, the old one when it is of the same page, or the one that was set. *)
Lemma drop_other_cases f idx expected j :
  0 <= expected < 2 ^ 52 -> (f j = 2 ^ 64 - 1 \/ 0 <= f j < 2 ^ 52) ->
  drop_other f idx expected j = 2 ^ 64 - 1 \/ drop_other f idx expected j = f j /\ (j = idx -> f j = expected).
Proof.
  intros He Hf. unfold drop_other, upd. destruct (negb _) eqn:E.
  - destruct (Z.eqb_spec j idx); [by left|right; split; [done|congruence]].
  - apply negb_false_iff, Z.eqb_eq in E. destruct Hf as [Hf|Hf]; [left; done|]. right. split; [done|]. intros ->.
    rewrite <-E. change (u64 (Z.lnot TLB_CHECK_TRIGGERS)) with (2 ^ 63 - 1). rewrite land_ones_mod by lia.
    rewrite Z.mod_small; [done|]. change (2 ^ 63) with (2 ^ 52 * 2048). lia.
Qed.

Lemma refilled_tag a p t t' s idx :
  let m := refilled a p t s in let old := tag_of t' (mmu s) in
  tag_of t' m idx = drop_other old (tlb_index a) (Z.shiftr a PGSHIFT) idx
  \/ t' = t /\ idx = tlb_index a /\ tag_of t' m idx = Z.shiftr a PGSHIFT
     /\ pmp_homogeneous_loop (p - p mod PGSIZE) PGSIZE 0 (pmp_entries s) = true.
Proof.
  cbv zeta. unfold refilled. cbv zeta. destruct (pmp_homogeneous_loop _ _ _ _); [|left; by destruct t'].
  destruct t, t'; try (left; reflexivity); cbn; unfold upd;
    (destruct (Z.eqb_spec idx (tlb_index a)); [right; done|by left]).
Qed.

Lemma refilled_data a p t s : tlb_data (refilled a p t s) = upd (tlb_data (mmu s)) (tlb_index a) (u64 (p - a)).
Proof. unfold refilled. cbv zeta. by destruct (pmp_homogeneous_loop _ _ _ _), t. Qed.

Lemma vpn_range a : 0 <= a < 2 ^ 64 -> 0 <= Z.shiftr a PGSHIFT < 2 ^ 52.
Proof.
  intros Ha. unfold PGSHIFT. rewrite Z.shiftr_div_pow2 by lia. change (2 ^ 12) with 4096.
  change (2 ^ 52) with 4503599627370496. change (2 ^ 64) with 18446744073709551616 in Ha. divlia.
Qed.

(** The offset of a page from any address in it. *)
Lemma same_offset a p : u64 (p - a) = u64 (p - a mod PGSIZE - Z.shiftr a PGSHIFT * PGSIZE).
Proof. rewrite vpn_page. f_equal. lia. Qed.

Lemma refilled_ok a p t s :
  quiet s -> tlb_ok s -> 0 <= a < 2 ^ 64 -> phys a t (prv s) s = Some p -> addr_to_mem p = true ->
  mmu_pmp_ok p t (prv s) s = true -> tlb_ok (set_mmu (refilled a p t s) s).
Proof.
  intros Hq Hok Ha Hphys Hmem Hpmp. pose proof (vpn_range a Ha) as Hv.
  destruct (phys_page t (prv s) s a p Ha Hphys) as (HP1 & HP2 & HP3 & HP4).
  set (P := p - a mod PGSIZE) in *.
  assert (0 <= a mod PGSIZE < PGSIZE) as Hoff by (apply Z.mod_pos_bound; done).
  assert (p - p mod PGSIZE = P) as HpP.
  { unfold P, PGSIZE in *. divlia. }
  intros t' idx. change (mmu (set_mmu ?m s)) with m. rewrite refilled_data.
  assert (forall v off, entry_ok t' s v off -> entry_ok t' (set_mmu (refilled a p t s) s) v off) as Hset.
  { intros v off. apply (entry_ok_unseen (set_mmu _)). }
  destruct (refilled_tag a p t t' s idx) as [E|(-> & -> & E & Hhom)].
  - destruct (drop_other_cases (tag_of t' (mmu s)) (tlb_index a) (Z.shiftr a PGSHIFT) idx Hv) as [E'|[E' Hsame]].
    { destruct (Hok t' idx) as [?|(? & _)]; [by left|by right]. }
    { left. by rewrite E. }
    rewrite E, E'. destruct (Hok t' idx) as [?|(Hr & Hi & He)]; [by left|]. right. split; [done|]. split; [done|].
    apply Hset. unfold upd. destruct (Z.eqb_spec idx (tlb_index a)) as [->|]; [|done].
    rewrite (Hsame eq_refl) in *. destruct He as (P' & K1 & K2 & K3 & K4 & _ & K6 & K7 & K8).
    assert (P' = P) as ->.
    { specialize (K4 (a mod PGSIZE) Hoff). rewrite vpn_page in K4. replace (a - a mod PGSIZE + a mod PGSIZE) with a in K4 by lia.
      unfold phys in Hphys, K4. destruct (walk a t _ s) eqn:E1; try done. destruct (walk a t' _ s) eqn:E2; try done.
      rewrite (walk_agree _ _ _ _ _ _ _ _ _ E1 E2) in Hphys. unfold P. simplify_eq. lia. }
    rewrite same_offset. by exists P.
  - right. rewrite E. split; [done|]. split; [done|]. apply Hset. unfold upd. rewrite Z.eqb_refl. rewrite HpP in Hhom.
    exists P. split_and!; try done.
    + intros o Ho. rewrite vpn_page. by apply HP4.
    + apply same_offset.
    + by rewrite <-HpP, <-paged.
    + rewrite <-Hpmp. unfold mmu_pmp_ok. destruct Hq as (_ & _ & _ & _ & _ & Hs). symmetry.
      apply (pmp_loop_homogeneous 12 P); [lia|lia|exact HP1|lia|exact Hs|exact Hhom|].
      unfold in_block. change (2 ^ 12) with PGSIZE. unfold P. lia.
Qed.
End Refill.

(** ** Loads *)

Section Load.
Context `{ConfigOk} `{!NoDirty} `{!PagedMem}.

(** A load that asks the tables and protection every time. *)
Definition uncached_load (sg : bool) (n : nat) (a : Z) : Exec Z :=
  p ← translate a (Z.of_nat n) LOAD;
  if addr_to_mem p then gets (fun s => load_value sg n (le_combine (read_bytes (mem s) p n)))
  else
    r ← gets (fun s => mmio_load (io s) p (Z.of_nat n));
    puts (fun s => { s with io ::= cons (Mmio_load p (Z.of_nat n)) });;
    match r with
    | Some bs => mret (load_value sg n (le_combine bs))
    | None => throw (trap_load_access_fault a)
    end.

(** The same end up to the cache, which is still good. *)
Definition cached_state (s s' : state_t) : Prop := (exists m, s = set_mmu m s') /\ tlb_ok s /\ quiet s.
Definition agrees {A} (r r' : result A) : Prop :=
  match r, r' with
  | Done v s, Done w s' => v = w /\ cached_state s s'
  | Throw t s, Throw u s' => t = u /\ cached_state s s'
  | Abort s, Abort s' => cached_state s s'
  | _, _ => False
  end.

Lemma walk_end a t mode s :
  match walk a t mode s with Done _ s' | Throw _ s' | Abort s' => s' = s | Trigger _ _ => False end.
Proof.
  unfold walk. destruct (decode_vm_info _ _); [|done]. destruct (Nat.eqb _ _); [done|]. apply walk_loop_end.
Qed.

Lemma translate_end a len t s :
  match translate a len t s with Done _ s' | Throw _ s' | Abort s' => s' = s | Trigger _ _ => False end.
Proof.
  unfold translate, mbind, Exec_bind, gets. cbv beta zeta.
  pose proof (walk_end a t (access_mode t s) s) as Hw. destruct (walk _ _ _ _) as [page s'| | |]; try done. subst s'.
  destruct (negb _); [by destruct t|]. unfold pmp_homogeneous. destruct (bit_of _ _); [done|].
  destruct (negb _); [by destruct t|]. done.
Qed.

Lemma cached_refl s : tlb_ok s -> quiet s -> cached_state s s.
Proof. intros Hok Hq. split_and!; [|done|done|apply Hq..]. exists (mmu s). by destruct s. Qed.

(** An entry gives what the translation gives. *)
Lemma hit_translate a n s i :
  quiet s -> 0 <= a < 2 ^ 64 -> Z.of_nat n = 2 ^ i -> 0 <= i <= 12 -> a mod 2 ^ i = 0 ->
  entry_ok LOAD s (Z.shiftr a PGSHIFT) (tlb_data (mmu s) (tlb_index a)) ->
  let p := u64 (tlb_data (mmu s) (tlb_index a) + a) in
  translate a (Z.of_nat n) LOAD s = Done p s /\ addr_to_mem p = true.
Proof.
  intros Hq Ha Hn Hi Hal (P & K1 & K2 & K3 & K4 & K5 & K6 & K7 & K8). cbv zeta.
  assert (0 <= a mod PGSIZE < PGSIZE) as Hoff by (apply Z.mod_pos_bound; done).
  assert (u64 (tlb_data (mmu s) (tlb_index a) + a) = P + a mod PGSIZE) as ->.
  { rewrite K5, vpn_page. unfold u64. rewrite Zplus_mod_idemp_l. rewrite Z.mod_small; [lia|].
    change 18446744073709551616 with (2 ^ 64). lia. }
  assert ((P + a mod PGSIZE) mod PGSIZE = a mod PGSIZE) as Hpm.
  { rewrite Zplus_mod, K1, Z.add_0_l, !Z.mod_mod by done. done. }
  specialize (K4 (a mod PGSIZE) Hoff). rewrite vpn_page in K4. replace (a - a mod PGSIZE + a mod PGSIZE) with a in K4 by lia.
  split.
  2: { rewrite paged, Hpm. by replace (P + a mod PGSIZE - a mod PGSIZE) with P by lia. }
  assert (in_block 12 P (P + a mod PGSIZE)) as Hin by (unfold in_block; change (2 ^ 12) with PGSIZE; lia).
  assert ((P + a mod PGSIZE) mod 2 ^ i = 0) as Hali.
  { assert (PGSIZE = 2 ^ (12 - i) * 2 ^ i) as Ep by (rewrite <-Z.pow_add_r by lia; change PGSIZE with (2 ^ 12); f_equal; lia).
    assert (0 < 2 ^ i) by (apply Z.pow_pos_nonneg; lia).
    rewrite Ep in K1 |- *. apply Z.mod_divide; [lia|]. apply Z.mod_divide in K1; [|lia]. apply Z.mod_divide in Hal; [|lia].
    apply Z.divide_add_r; [by eapply Z.divide_trans; [|exact K1]; apply Z.divide_factor_r|].
    rewrite Z.mod_eq by lia. apply Z.divide_sub_r; [done|]. rewrite <-Z.mul_assoc, (Z.mul_comm (2 ^ i)), Z.mul_assoc. apply Z.divide_factor_r. }
  destruct Hq as (_ & _ & _ & _ & Hm & Hs). unfold translate, mbind, Exec_bind, gets. cbv beta zeta.
  assert (access_mode LOAD s = prv s) as -> by (unfold access_mode; by rewrite Hm, andb_false_r).
  unfold phys in K4. pose proof (walk_end a LOAD (prv s) s) as Hw. destruct (walk a LOAD (prv s) s) as [page s'| | |]; try done.
  subst s'. injection K4 as ->.
  assert (mmu_pmp_ok (P + a mod PGSIZE) LOAD (prv s) s = true) as ->.
  { rewrite <-K7. by apply (pmp_loop_homogeneous 12 P); (done || lia). }
  cbn [negb]. unfold pmp_homogeneous. rewrite Hn, aligned_bit by (done || lia).
  rewrite (loop_sub_block 12 P ltac:(lia) ltac:(lia) K1 (pmp_entries s) 0 _ i); done || lia.
Qed.

Lemma tlb_ok_unseen f `{!Unseen f} s : (forall s, mmu (f s) = mmu s) -> tlb_ok s -> tlb_ok (f s).
Proof.
  intros Hm Hok t idx. rewrite Hm. destruct (Hok t idx) as [?|(? & ? & ?)]; [by left|right].
  split_and!; try done; try lia. by apply entry_ok_unseen.
Qed.

Lemma slow_agrees sg n a s :
  quiet s -> tlb_ok s -> 0 <= a < 2 ^ 64 ->
  agrees ((v ← load_slow_path a n; mret (load_value sg n v)) s) (uncached_load sg n a s).
Proof.
  intros Hq Hok Ha. unfold load_slow_path, uncached_load, mbind, Exec_bind, gets, puts.
  pose proof (translate_end a (Z.of_nat n) LOAD s) as Hend. pose proof (translate_inv a (Z.of_nat n) LOAD s) as Hinv.
  destruct (translate a (Z.of_nat n) LOAD s) as [p s'|e s'| |s'] eqn:Ht; try done; cbv beta; [|by subst s'; split; [|apply cached_refl]|by subst s'; apply cached_refl].
  subst s'. destruct (Hinv p s Ha eq_refl) as (page & Hw & Hp & Hr & Hpmp & _ & _). rewrite quiet_mode in Hw, Hpmp by done.
  destruct (addr_to_mem p) eqn:Hmem.
  - rewrite refill_eq by done. cbv beta. unfold mret, Exec_ret. rewrite quiet_check by by apply refilled_quiet.
    split; [done|]. split_and!; [by eexists| |by apply refilled_quiet..]. apply refilled_ok; try done.
    unfold phys. rewrite Hw. by f_equal.
  - destruct (mmio_load _ _ _) as [bs|]; unfold mret, Exec_ret; cbv beta.
    + rewrite quiet_check by exact Hq. split; [done|]. split; [by eexists|]. split; [|exact Hq].
      by apply (tlb_ok_unseen (fun s => { s with io ::= cons (Mmio_load p (Z.of_nat n)) })).
    + split; [done|]. split; [by eexists|]. split; [|exact Hq].
      by apply (tlb_ok_unseen (fun s => { s with io ::= cons (Mmio_load p (Z.of_nat n)) })).
Qed.

(** C6: on a hart without MPRV, without armed triggers and with checked protection
    entries ([quiet]), configured without hardware updates of accessed and dirty
    bits ([NoDirty]), whose memory is whole pages ([PagedMem]), and with a good
    cache ([tlb_ok]), a load of an aligned address through the translation
    cache ends as a load that walks the tables and asks protection every time:
    same value, same exception, same memory and devices; and the cache stays good
    and the hart quiet.  With MPRV set it is false of this code, as
    [mprv_entry_clash] shows.  Entries are those of whole
    pages of memory that every byte of may be accessed, whichever of the three
    tags found them. *)
Theorem load_through_tlb sg n i a s :
  quiet s -> tlb_ok s -> 0 <= a < 2 ^ 64 -> Z.of_nat n = 2 ^ i -> 0 <= i <= 12 -> a mod 2 ^ i = 0 ->
  agrees (load_aligned sg n a s) (uncached_load sg n a s).
Proof.
  intros Hq Hok Ha Hn Hi Hal. pose proof (Hok LOAD (tlb_index a)) as Htag. cbn [tag_of] in Htag.
  pose proof (vpn_range a Ha) as Hv.
  unfold load_aligned. unfold mbind at 1 2, Exec_bind at 1 2, gets at 1 2. cbv beta zeta.
  fold (tlb_index a). destruct (Z.eqb_spec (tlb_load_tag (mmu s) (tlb_index a)) (Z.shiftr a PGSHIFT)) as [E|E].
  - rewrite E in Htag. destruct Htag as [Htag|(_ & _ & He)]; [change (2 ^ 52) with 4503599627370496 in Hv; lia|].
    destruct (hit_translate a n s i Hq Ha Hn Hi Hal He) as [Ht Hm]. unfold uncached_load, mbind, Exec_bind, gets.
    rewrite Ht. cbv beta. rewrite Hm. split; [done|]. by apply cached_refl.
  - rewrite tag_hit; [by apply slow_agrees|done|]. destruct Htag as [?|[? _]]; [by left|by right].
Qed.
End Load.

(** ** Entries that outlive their translation *)

(** The cache and memory, which is all a load that hits depends on. *)
Definition same_cache (s s' : state_t) : Prop :=
  tlb_load_tag (mmu s') = tlb_load_tag (mmu s) /\ tlb_data (mmu s') = tlb_data (mmu s) /\ mem s' = mem s.

(** The ways the hart changes what an address means, or who asks: a return, a
    trap or interrupt, and a write of any control register but satp. *)
Inductive switched `{Config} (s : state_t) : state_t -> Prop :=
| by_mret insn s' : rv_mret insn s = Done tt s' -> switched s s'
| by_sret insn s' : rv_sret insn s = Done tt s' -> switched s s'
| by_trap t epc : switched s (take_trap t epc s)
| by_csr which v : which <> CSR_SATP -> switched s (set_csr which v s).

Section Outlive.
Context `{Config}.

Lemma set_csr_cache which v s : which <> CSR_SATP -> same_cache s (set_csr which v s).
Proof.
  intros Hw. unfold set_csr, set_misa, set_tdata1, set_tdata2. cbv zeta.
  rewrite (proj2 (Z.eqb_neq which CSR_SATP) Hw).
  repeat match goal with
  | |- same_cache _ (if ?b then _ else _) => destruct b
  end; repeat split.
Qed.

Lemma take_trap_cache t epc s : same_cache s (take_trap t epc s).
Proof.
  unfold take_trap, trap_to_S, trap_to_M.
  repeat match goal with
  | |- same_cache _ (if ?b then _ else _) => destruct b
  end; try by repeat split.
  all: match goal with |- same_cache _ (set_privilege _ (set_csr ?w ?v ?s1)) =>
         exact (set_csr_cache w v s1 ltac:(discriminate)) end.
Qed.

Local Ltac set_csr_cache :=
  match goal with |- same_cache _ (set_csr ?w ?v ?s1) => exact (set_csr_cache w v s1 ltac:(discriminate)) end.

Lemma switched_cache s s' : switched s s' -> same_cache s s'.
Proof.
  intros [insn s1 E|insn s1 E|t epc|which v Hw]; [..|apply take_trap_cache|by apply set_csr_cache].
  - unfold rv_mret, require_privilege, require, set_pc_and_serialize, mbind, Exec_bind, gets, puts in E. cbv beta zeta in E.
    destruct (_ <=? _); [|discriminate E]. injection E as <-. set_csr_cache.
  - unfold rv_sret, require_privilege, require, set_pc_and_serialize, mbind, Exec_bind, gets, puts in E. cbv beta zeta in E.
    destruct (_ <=? _); [|discriminate E]. injection E as <-. set_csr_cache.
Qed.

(** C39: in every state whose load tag matches an address, the load returns the
    word of memory the entry points to; and it returns the same word, without an
    exception, after a return from a trap, after a trap or interrupt to any
    privilege, and after a write of any control register but satp, mstatus and the
    protection registers among them: nothing drops the entry, whatever the tables
    and the protection of the new privilege say of the address. *)
Theorem stale_entry_after_mret sg n a s :
  tlb_load_tag (mmu s) (tlb_index a) = Z.shiftr a PGSHIFT ->
  let v := load_value sg n (le_combine (read_bytes (mem s) (u64 (tlb_data (mmu s) (tlb_index a) + a)) n)) in
  load_aligned sg n a s = Done v s /\
  (prv s = PRV_M -> exists s', rv_mret 0 s = Done tt s' /\ load_aligned sg n a s' = Done v s') /\
  forall s', switched s s' -> load_aligned sg n a s' = Done v s'.
Proof.
  intros Ht v. assert (forall s', same_cache s s' -> load_aligned sg n a s' = Done v s') as Hload.
  { intros s' (E1 & E2 & E3). unfold load_aligned, mbind, Exec_bind, gets. cbv beta zeta. fold (tlb_index a).
    by rewrite E1, E2, E3, Ht, Z.eqb_refl. }
  split; [|split].
  - by apply Hload.
  - intros Hp. eexists. split; [by apply mret_eq|]. apply Hload, switched_cache. by eapply (by_mret s 0), mret_eq.
  - intros s' Hs. by apply Hload, switched_cache.
Qed.
End Outlive.

Section Stale.
Local Existing Instance rv64_config.

(** Sv39 tables at 0x80100000 that map 0x80000000 to 0x80200000 for supervisor
    mode, and a word in each place. *)
Definition tables : Z -> Z :=
  let put m a v := write_bytes m a (le_split 8 v) in
  put (put (put (put (fun _ => 0) (0x80100000 + 16) (Z.lor (Z.shiftl 0x80101 10) 1))
    0x80101000 (Z.lor (Z.shiftl 0x80200 10) 0xcf)) 0x80000000 1) 0x80200000 2.

Definition mapped (status : Z) : state_t :=
  { processor_reset false blank with mem := tables; mstatus := status; satp := Z.lor (Z.shiftl 8 60) 0x80100 }.

(** What a load gives: a value, or the cause of an exception. *)
Definition outcome (r : result Z) : option (Z + Z) :=
  match r with Done v _ => Some (inl v) | Throw t _ => Some (inr (cause t)) | _ => None end.

(** Machine mode has loaded from the page, and returns to user mode. *)
Definition warm : state_t := final (mmu_load false 8 0x80000000 (mapped 0)).
Definition returned : state_t := final (rv_mret 0 warm).

(** There the program reads through the entry of machine mode, where the tables
    have a page that is not for user mode and the load ought to fault. *)
Lemma stale_entry_after_mret_witness :
  load_aligned false 8 0x80000000 returned = Done 1 returned /\ prv returned = PRV_U /\
  outcome (uncached_load false 8 0x80000000 returned) = Some (inr CAUSE_LOAD_PAGE_FAULT).
Proof.
  assert (tlb_load_tag (mmu warm) (tlb_index 0x80000000) = Z.shiftr 0x80000000 PGSHIFT) as Ht by (vm_compute; reflexivity).
  destruct (stale_entry_after_mret false 8 0x80000000 warm Ht) as (_ & _ & Hs).
  assert (rv_mret 0 warm = Done tt returned) as Hm.
  { unfold returned. rewrite mret_eq; [reflexivity|]. vm_compute. reflexivity. }
  split; [|split; vm_compute; reflexivity].
  rewrite (Hs returned (by_mret warm 0 returned Hm)). f_equal.
Defined.

(** Machine mode with MPRV set and MPP supervisor: loads go through the tables,
    fetches do not. *)
Definition mprv_status : Z := Z.lor MSTATUS_MPRV (Z.shiftl 1 11).
Definition mprv_loads : result Z := (mmu_load false 8 0x80000000) (mapped mprv_status).
Definition mprv_fetch_between : result Z :=
  (mmu_load false 8 0x80000000;; fetch_insn 0x80000000;; mmu_load false 8 0x80000000) (mapped mprv_status).

(** The three tags of an index share one entry, so with [MPRV] set a fetch
    from the page a load was translated for leaves the tag of the load on the
    untranslated address: the second load reads the wrong memory. *)
Theorem mprv_entry_clash : outcome mprv_loads = Some (inl 2) /\ outcome mprv_fetch_between = Some (inl 1).
Proof. split; vm_compute; reflexivity. Qed.
End Stale.

(** ** A load after reset *)

Lemma rv64_paged : @PagedMem rv64_config.
Proof.
  intros p. unfold addr_to_mem, rv64_config, hart_config, PGSIZE, PGSHIFT. change (2 ^ 12) with 4096.
  change (Z.shiftl 1 12) with 4096.
  destruct (Z.leb_spec 0x80000000 p), (Z.leb_spec 0x80000000 (p - p mod 4096)),
    (Z.ltb_spec p 0x90000000), (Z.ltb_spec (p - p mod 4096) 0x90000000); try done; exfalso; divlia.
Qed.
Lemma load_through_tlb_witness :
  @agrees rv64_config Z (@load_aligned rv64_config true 8 0x80000010 reset_state)
    (@uncached_load rv64_config true 8 0x80000010 reset_state).
Proof.
  apply (@load_through_tlb rv64_config rv64_ok eq_refl rv64_paged true 8 3 0x80000010 reset_state).
  - split; [reflexivity|]. split; [reflexivity|]. split; [reflexivity|]. split; [|split; [reflexivity|exact reset_pmp_ok]].
    change (mcontrol reset_state) with (mcontrol blank). repeat apply Forall_cons_2; [split; [|split]; reflexivity..|apply Forall_nil_2].
  - intros [] idx; left; reflexivity.
  - vm_compute. split; congruence.
  - reflexivity.
  - lia.
  - reflexivity.
Defined.
