(* ===== verification/SpikeExpand.v ===== *)
(** * Spike: compressed instructions are the base instructions they stand for

    Each function of SpikeRvc.v, on each 16-bit word, is the function of the base
    instruction the ISA manual expands it to, on the word of that instruction:
    same result, same exceptions, same state. *)

From Stdlib Require Import ZArith Lia.
From stdpp Require Import base tactics list numbers.
From coqutil Require Import Datatypes.RecordSetters.
Import OCamlLikeNotations.
From S2P Require Import Prelude SoftFloat Spike SpikeAlu SpikeCsr SpikeMmu SpikeMem SpikeRvc.

(** Integer registers as the instructions keep them. *)
Definition regs_ok `{Config} (s : state_t) : Prop :=
  XPR s !!! 0%nat = 0 /\ forall i, wf_reg (XPR s !!! i).

(** ** Formats *)

Lemma R_fields a b c w : is_R a b c w = true -> rd w = a /\ rs1 w = b /\ rs2 w = c.
Proof. unfold is_R. rewrite !andb_true_iff, !Z.eqb_eq. intros [[? ?] ?]. by split_and!. Qed.
Lemma I_fields a b c w : is_I a b c w = true -> rd w = a /\ rs1 w = b /\ i_imm w = c.
Proof. unfold is_I. rewrite !andb_true_iff, !Z.eqb_eq. intros [[? ?] ?]. by split_and!. Qed.
Lemma S_fields b c i w : is_S b c i w = true -> rs1 w = b /\ rs2 w = c /\ s_imm w = i.
Proof. unfold is_S. rewrite !andb_true_iff, !Z.eqb_eq. intros [[? ?] ?]. by split_and!. Qed.
Lemma B_fields b c i w : is_B b c i w = true -> rs1 w = b /\ rs2 w = c /\ sb_imm w = i.
Proof. unfold is_B. rewrite !andb_true_iff, !Z.eqb_eq. intros [[? ?] ?]. by split_and!. Qed.
Lemma J_fields a i w : is_J a i w = true -> rd w = a /\ uj_imm w = i.
Proof. unfold is_J. rewrite !andb_true_iff, !Z.eqb_eq. by intros [? ?]. Qed.

Record formats_t (h : Z) := {
  f_R_dd : is_R (rvc_rd h) (rvc_rd h) (rvc_rs2 h) (R_type (rvc_rd h) (rvc_rd h) (rvc_rs2 h)) = true;
  f_R_d0 : is_R (rvc_rd h) 0 (rvc_rs2 h) (R_type (rvc_rd h) 0 (rvc_rs2 h)) = true;
  f_R_s : is_R (rvc_rs1s h) (rvc_rs1s h) (rvc_rs2s h) (R_type (rvc_rs1s h) (rvc_rs1s h) (rvc_rs2s h)) = true;
  f_I_dd : is_I (rvc_rd h) (rvc_rd h) (rvc_imm h) (I_type (rvc_rd h) (rvc_rd h) (rvc_imm h)) = true;
  f_I_d0 : is_I (rvc_rd h) 0 (rvc_imm h) (I_type (rvc_rd h) 0 (rvc_imm h)) = true;
  f_I_s : is_I (rvc_rs1s h) (rvc_rs1s h) (rvc_imm h) (I_type (rvc_rs1s h) (rvc_rs1s h) (rvc_imm h)) = true;
  f_I_4spn : is_I (rvc_rs2s h) X_SP (rvc_addi4spn_imm h) (I_type (rvc_rs2s h) X_SP (rvc_addi4spn_imm h)) = true;
  f_I_16sp : is_I X_SP X_SP (rvc_addi16sp_imm h) (I_type X_SP X_SP (rvc_addi16sp_imm h)) = true;
  f_I_ddz : is_I (rvc_rd h) (rvc_rd h) (rvc_zimm h) (I_type (rvc_rd h) (rvc_rd h) (rvc_zimm h)) = true;
  f_I_sz : is_I (rvc_rs1s h) (rvc_rs1s h) (rvc_zimm h) (I_type (rvc_rs1s h) (rvc_rs1s h) (rvc_zimm h)) = true;
  f_I_jr : is_I 0 (rvc_rd h) 0 (I_type 0 (rvc_rd h) 0) = true;
  f_I_jalr : is_I X_RA (rvc_rd h) 0 (I_type X_RA (rvc_rd h) 0) = true;
  f_J_0 : is_J 0 (rvc_j_imm h) (J_type 0 (rvc_j_imm h)) = true;
  f_J_ra : is_J X_RA (rvc_j_imm h) (J_type X_RA (rvc_j_imm h)) = true;
  f_B : is_B (rvc_rs1s h) 0 (rvc_b_imm h) (B_type (rvc_rs1s h) 0 (rvc_b_imm h)) = true;
  f_lw : is_I (rvc_rs2s h) (rvc_rs1s h) (rvc_lw_imm h) (I_type (rvc_rs2s h) (rvc_rs1s h) (rvc_lw_imm h)) = true;
  f_ld : is_I (rvc_rs2s h) (rvc_rs1s h) (rvc_ld_imm h) (I_type (rvc_rs2s h) (rvc_rs1s h) (rvc_ld_imm h)) = true;
  f_lwsp : is_I (rvc_rd h) X_SP (rvc_lwsp_imm h) (I_type (rvc_rd h) X_SP (rvc_lwsp_imm h)) = true;
  f_ldsp : is_I (rvc_rd h) X_SP (rvc_ldsp_imm h) (I_type (rvc_rd h) X_SP (rvc_ldsp_imm h)) = true;
  f_sw : is_S (rvc_rs1s h) (rvc_rs2s h) (rvc_lw_imm h) (S_type (rvc_rs1s h) (rvc_rs2s h) (rvc_lw_imm h)) = true;
  f_sd : is_S (rvc_rs1s h) (rvc_rs2s h) (rvc_ld_imm h) (S_type (rvc_rs1s h) (rvc_rs2s h) (rvc_ld_imm h)) = true;
  f_swsp : is_S X_SP (rvc_rs2 h) (rvc_swsp_imm h) (S_type X_SP (rvc_rs2 h) (rvc_swsp_imm h)) = true;
  f_sdsp : is_S X_SP (rvc_rs2 h) (rvc_sdsp_imm h) (S_type X_SP (rvc_rs2 h) (rvc_sdsp_imm h)) = true;
  f_U : ((rd (U_type (rvc_rd h) (Z.shiftl (rvc_imm h) 12)) =? rvc_rd h)
         && (u_imm (U_type (rvc_rd h) (Z.shiftl (rvc_imm h) 12)) =? Z.shiftl (rvc_imm h) 12)) = true;
  f_zimm : (Z.land (rvc_zimm h) 0x3f =? rvc_zimm h) = true }.

Lemma formats_hold h : formats_t h.
Proof.
  pose proof (formats h) as F. unfold formats_ok in F. cbv zeta in F.
  repeat match type of F with (_ && _) = true => let G := fresh "G" in apply andb_prop in F as [F G] end.
  constructor; match goal with G : ?a = true |- ?b = true => constr_eq a b; exact G end.
Qed.

Ltac fmt h L :=
  let F := constr:(L h (formats_hold h)) in
  lazymatch type of F with
  | is_R _ _ _ _ = _ => destruct (R_fields _ _ _ _ F) as (-> & -> & ->)
  | is_I _ _ _ _ = _ => destruct (I_fields _ _ _ _ F) as (-> & -> & ->)
  | is_S _ _ _ _ = _ => destruct (S_fields _ _ _ _ F) as (-> & -> & ->)
  | is_B _ _ _ _ = _ => destruct (B_fields _ _ _ _ F) as (-> & -> & ->)
  | is_J _ _ _ = _ => destruct (J_fields _ _ _ F) as (-> & ->)
  end.

Ltac run :=
  unfold require_C, require_extension, require_fp, require_rv64, require, RS1, RS2, FRS2, RVC_RS1, RVC_RS2, RVC_RS1S, RVC_RS2S, RVC_FRS2,
    RVC_FRS2S, RVC_SP, WRITE_RVC_RS1S, WRITE_RVC_RS2S, WRITE_RVC_FRS2S, WRITE_RD, WRITE_FRD, load_i, store_s, READ_REG, READ_FREG,
    gets, mbind, Exec_bind, mret, Exec_ret; cbv beta iota.

Definition expands `{Config} (c : rvc_t) : Prop :=
  forall h s, regs_ok s ->
    rvc_insn c h s = (require_C ≫= fun _ => require (rvc_guard c h) ≫= fun _ => rvc_base c h) s.

Section Expand.
Context `{ConfigOk}.

Lemma set_pc_cong v w s : u64 v = u64 w -> set_pc v s = set_pc w s.
Proof.
  intros E. unfold set_pc. rewrite E. unfold mbind, Exec_bind. destruct (check_pc_alignment _ _); try done.
  unfold set_npc, puts. rewrite !u64_sext, (rep_cong v w); [done|]. by rewrite <-u64_mod_xlen, E, u64_mod_xlen.
Qed.


(** The fields of the manual become those of the code. *)
Ltac isa h :=
  let E := fresh "E" in pose proof (isa_fields h) as E;
  repeat match type of E with _ /\ _ =>
    let G := fresh "G" in destruct E as [G E]; rewrite ?G; clear G end;
  rewrite ?E; clear E.

Ltac open_insn :=
  unfold rv_c_add, rv_c_addi, rv_c_addi4spn, rv_c_addw, rv_c_and, rv_c_andi, rv_c_beqz, rv_c_bnez, rv_c_ebreak, rv_c_fld,
    rv_c_fldsp, rv_c_flw, rv_c_flwsp, rv_c_fsd, rv_c_fsdsp, rv_c_fsw, rv_c_fswsp, rv_c_j, rv_c_jal, rv_c_jalr, rv_c_jr,
    rv_c_li, rv_c_lui, rv_c_lw, rv_c_lwsp, rv_c_mv, rv_c_or, rv_c_slli, rv_c_srai, rv_c_srli, rv_c_sub, rv_c_subw,
    rv_c_sw, rv_c_swsp, rv_c_xor, rv_add, rv_sub, rv_and, rv_or, rv_xor, rv_addw, rv_subw, rv_addi, rv_addiw, rv_andi,
    rv_slli, rv_srli, rv_srai, rv_lui, rv_jal, rv_jalr, rv_beq, rv_bne, rv_lw, rv_ld, rv_sw, rv_sd, rv_flw, rv_fld, rv_fsw,
    rv_fsd, rv_ebreak, SpikeAlu.branch, SHAMT, WRITE_RD, WRITE_FRD, load_i, store_s, RS1, RS2, FRS2.
Ltac expand h L :=
  intros h s [Hz Hwf]; cbn [rvc_insn rvc_guard rvc_base]; isa h; open_insn; change (rvc_rs1 h) with (rvc_rd h); fmt h L;
  unfold rvc_rd; run; try exact eq_refl.
Ltac expand_at E h L :=
  intros h s [Hz Hwf]; cbn [rvc_insn rvc_guard rvc_base]; isa h; open_insn; unfold require_rv64; rewrite ?E; cbn [Z.eqb Pos.eqb];
  change (rvc_rs1 h) with (rvc_rd h); fmt h L; unfold rvc_rd; run; try exact eq_refl.

Ltac strip := destruct (supports_extension ext_C _); [cbv beta iota|exact eq_refl].
Ltac guarded := match goal with |- context [if ?b then (fun _ => Done tt _) else _] => destruct b; [cbv beta iota|exact eq_refl] end.

Lemma WRITE_REG_cong i v w s : u64 v = u64 w -> WRITE_REG i v s = WRITE_REG i w s.
Proof. intros E. unfold WRITE_REG, puts. destruct (i =? 0); [done|]. by rewrite E. Qed.

Lemma rep_reg r : wf_reg r -> u64 r = rep r.
Proof.
  intros Hr. pose proof (wf_range r Hr) as Hb. rewrite <-rep_low. rewrite <-Hr. unfold u64.
  change 18446744073709551616 with (2 ^ 64). by apply Z.mod_small.
Qed.

Lemma imm_bounds h : -32 <= rvc_imm h < 32.
Proof.
  destruct (core_range h) as (k & Hk & E).
  assert (((-32 <=? rvc_imm (core h)) && (rvc_imm (core h) <? 32)) = true) as Hc.
  { rewrite E. refine (all_below_spec 11 (fun k => (-32 <=? rvc_imm (4 * k)) && (rvc_imm (4 * k) <? 32)) 0 _ k Hk).
    vm_compute. reflexivity. }
  destruct (fields_core h) as (_ & _ & _ & _ & -> & _) in Hc. lia.
Qed.

Lemma rep_imm h : u64 (rvc_imm h) = rep (rvc_imm h).
Proof.
  pose proof (imm_bounds h) as Hb. unfold rep. f_equal. unfold sgn.
  destruct xlen_cases as [-> | ->]; [change (2 ^ (32 - 1)) with 2147483648; change (2 ^ 32) with 4294967296
    |change (2 ^ (64 - 1)) with 9223372036854775808; change (2 ^ 64) with 18446744073709551616]; divlia.
Qed.

Lemma jump_target r s : wf_reg r -> set_pc (Z.land r (Z.lnot 1)) s = set_pc (Z.land (u64 (r + 0)) (u64 (Z.lnot 1))) s.
Proof.
  intros _. apply set_pc_cong. rewrite Z.add_0_r. unfold u64. change 18446744073709551616 with (2 ^ 64).
  rewrite <-!Z.land_ones by lia. apply Z.bits_inj'. intros i Hi. rewrite !Z.land_spec.
  destruct (Z.testbit r i), (Z.testbit (Z.ones 64) i), (Z.testbit (Z.lnot 1) i); done.
Qed.

Lemma rep_u64 v : rep (u64 v) = rep v.
Proof. apply rep_cong, u64_mod_xlen. Qed.

Lemma set_pc_u64 v s : set_pc (u64 v) s = set_pc v s.
Proof. apply set_pc_cong. apply Zmod_mod. Qed.

Lemma set_pc_ret v s : set_pc v s = match set_pc v s with Done _ s' => WRITE_REG 0 (npc s) s' | r => r end.
Proof. by destruct (set_pc v s) as [[]| | |]. Qed.

Lemma table_expands : Forall expands rvc_table.
Proof.
  unfold rvc_table. cbv zeta. apply Forall_app. split.
  - repeat apply Forall_cons_2; [..|apply Forall_nil_2].
    + expand h f_R_dd.
    + expand h f_R_d0. strip. guarded. apply WRITE_REG_cong. change (Z.to_nat 0) with 0%nat. rewrite Hz, Z.add_0_l, u64_sext, rep_u64. by apply rep_reg. 
    + expand h f_R_s.
    + expand h f_R_s.
    + expand h f_R_s.
    + expand h f_R_s.
    + expand h f_R_s.
    + expand h f_R_s.
    + expand h f_I_dd.
    + expand h f_I_s. strip. by rewrite Z.land_comm.
    + expand h f_I_4spn.
    + expand h f_I_d0. strip. apply WRITE_REG_cong. change (Z.to_nat 0) with 0%nat. rewrite Hz, Z.add_0_l, u64_sext, rep_u64. by apply rep_imm.
    + intros h s [Hz Hwf]. cbn [rvc_insn rvc_guard rvc_base]. isa h. open_insn. destruct (rvc_rd h =? 2) eqn:Ed.
      * fmt h f_I_16sp. run. exact eq_refl.
      * pose proof (f_U h (formats_hold h)) as F. apply andb_prop in F as [Fd Fu]. rewrite (proj1 (Z.eqb_eq _ _) Fd), (proj1 (Z.eqb_eq _ _) Fu).
        run. exact eq_refl.
    + expand h f_I_ddz. unfold rvc_rs1. by rewrite (proj1 (Z.eqb_eq _ _) (f_zimm h (formats_hold h))).
    + expand h f_I_sz. by rewrite (proj1 (Z.eqb_eq _ _) (f_zimm h (formats_hold h))).
    + expand h f_I_sz. by rewrite (proj1 (Z.eqb_eq _ _) (f_zimm h (formats_hold h))).
    + expand h f_J_0. strip. rewrite set_pc_u64. apply set_pc_ret. 
    + expand h f_I_jr. strip. guarded. unfold rvc_rs1. rewrite <-jump_target by apply Hwf. apply set_pc_ret.
    + expand h f_I_jalr. strip. guarded. unfold rvc_rs1. by rewrite <-jump_target by apply Hwf. 
    + expand h f_B. strip. change (Z.to_nat 0) with 0%nat. rewrite Hz. unfold when. destruct (_ =? 0); cbv beta iota delta [negb]; rewrite ?set_pc_u64; exact eq_refl.
    + expand h f_B. strip. change (Z.to_nat 0) with 0%nat. rewrite Hz. unfold when. destruct (_ =? 0); cbv beta iota delta [negb]; rewrite ?set_pc_u64; exact eq_refl.
    + intros h s _. exact eq_refl.
    + expand h f_lw. 
    + expand h f_sw. 
    + expand h f_ld. 
    + expand h f_sd. 
    + expand h f_lwsp. 
    + expand h f_swsp. 
    + expand h f_ldsp. 
    + expand h f_sdsp. 
  - destruct xlen_cases as [E|E]; rewrite E; cbn [Z.eqb Pos.eqb]; repeat apply Forall_cons_2; try apply Forall_nil_2.
    + expand_at E h f_lw.
    + expand_at E h f_sw.
    + expand_at E h f_lwsp.
    + expand_at E h f_swsp.
    + expand_at E h f_J_ra. strip. by rewrite set_pc_u64.
    + expand_at E h f_ld.
    + expand_at E h f_sd.
    + expand_at E h f_ldsp.
    + expand_at E h f_sdsp.
    + expand_at E h f_I_dd. strip. guarded. unfold rvc_rs1. by rewrite (Z.add_comm (rvc_imm h)).
Qed.

(** C12: a compressed instruction is its expansion: for each function of the C
    extension and each 16-bit word, with the registers as the instructions keep
    them, the function does what the instruction that the ISA manual gives as
    its expansion does on the word of that instruction, after the test of
    misa's C bit and of the reserved encodings.  The registers and immediates of
    the expanded word are those of the tables of the manual, bit by bit, not the
    extractors of decode.h that the function uses. *)
Theorem c_insn_expands c h s :
  In c rvc_table -> regs_ok s ->
  rvc_insn c h s = (require_C ≫= fun _ => require (rvc_guard c h) ≫= fun _ => rvc_base c h) s.
Proof. intros Hc Hs. pose proof (proj1 (Forall_forall _ _) table_expands c) as He. by apply He. Qed.
End Expand.

(** [c.mv] as [add]. *)
Definition reset_hart : state_t := @processor_reset rv64_config false blank.
Lemma c_insn_expands_witness :
  rv_c_mv 0x852e reset_hart
  = (require_C ≫= fun _ => require (negb (isa_rs2 0x852e =? 0)) ≫= fun _ =>
     @rv_add rv64_config (R_type (isa_rd 0x852e) 0 (isa_rs2 0x852e))) reset_hart.
Proof.
  apply (@c_insn_expands rv64_config rv64_ok
    (Rvc (rv_c_mv) (fun h => negb (isa_rs2 h =? 0)) (fun h => @rv_add rv64_config (R_type (isa_rd h) 0 (isa_rs2 h))))
    0x852e reset_hart); [right; left; reflexivity|].
  split; [vm_compute; reflexivity|]. intros i.
  do 32 (destruct i as [|i]; [vm_compute; reflexivity|]). vm_compute. reflexivity.
Defined.
